(* ===== verification/_CoqProject ===== *)
-Q . S2P
Prelude.v
Utils.v
HostMem.v
Ravl.v
RavlTree.v
RavlOps.v
RavlSpec.v
RavlRemove.v
RavlMap.v
RavlTheorems.v
Coarse.v
CoarseInv.v
CoarseFree.v
CoarseLists.v
CoarseMerge.v
CoarseApi.v
CoarseOps.v
CoarseAlloc.v
CoarsePublic.v
CoarseSpec.v
CoarseDelete.v
CoarseTheorems.v
BaseMem.v
BaseAlloc.v
BaseAllocInv.v
BaseAllocApi.v
BaseGlobal.v
BaseGlobalInv.v
BaseGlobalApi.v
BaseSpec.v
BaseTheorems.v
Critnib.v
CritRep.v
CritIns.v
CritInv.v
CritHeap.v
CritInsert.v
CritRemove.v
CritQuery.v
CritDelete.v
CritIter.v
CritSpec.v
CritTheorems.v
Provider.v
ProviderSpec.v
FixedProvider.v
FixedSpec.v
ProviderTheorems.v
Tracker.v
CritWorld.v
TrackerInv.v
TrackerOps.v
TrackerRemove.v
BaseChunks.v
TrackerIpc.v
TrackerLife.v
TrackerSpec.v
TrackerTheorems.v
PoolProvider.v
DisjointPool.v
DisjointApi.v
DisjointSize.v
DisjointInv.v
DisjointSteps.v
DisjointOps.v
DisjointCalls.v
DisjointSpec.v
DisjointLife.v
DisjointInit.v
DisjointTheorems.v
IpcCache.v
IpcCacheSpec.v
IpcCacheOps.v
IpcCacheTheorems.v
TrackingProvider.v
TrackingSpec.v
TrackingTheorems.v
