(* ===== verification/Prelude.v ===== *)
(** * Verification of the Unified Memory Framework

    The Unified Memory Framework composes memory pools and memory providers.
    This library verifies the data structures and allocators it is built on.
    Paths below are relative to src/ of the repository.

    ** Parts

    - utils: alignment macros and pointer helpers, bit scans, flag translation
      (utils/utils_common.{h,c}, utils/utils_math.h), and the mutex of
      utils/utils_posix_concurrency.c: [Utils].
    - ravl/ravl.c, a relaxed AVL tree: [Ravl] is the pointer-level model,
      [RavlTree] the functional trees and zippers, [RavlOps] and [RavlRemove]
      the refinement of each function, [RavlSpec] and [RavlMap] the abstract view (a sorted list, a finite map),
      [RavlTheorems] the properties.
    - coarse/coarse.c, the coarse-grain allocator over two RAVL trees and a
      provider given by callbacks: [Coarse] is the model, [CoarseInv] the
      invariant, [CoarseFree], [CoarseLists], [CoarseMerge] its parts, [CoarseApi], [CoarseOps], [CoarseAlloc],
      [CoarsePublic] the public functions, [CoarseDelete] the destruction,
      [CoarseSpec] the contract, [CoarseTheorems] the properties.
    - base_alloc/base_alloc.c (pools of chunks of one size) and
      base_alloc/base_alloc_global.c (size classes and metadata words), over
      the words of mapped memory (base_alloc/base_alloc_linux.c): [BaseMem]
      the memory, [BaseAlloc] and [BaseGlobal] the models, [BaseAllocInv],
      [BaseAllocApi], [BaseGlobalInv], [BaseGlobalApi] the invariants and rules, [BaseSpec]
      the abstract allocator, [BaseTheorems] the properties.
    - critnib/critnib.c, a radix tree with reference-counted leaves:
      [Critnib] is the model, [CritRep] and [CritInv] the representation and
      the invariant, [CritIns], [CritHeap] its parts, [CritInsert],
      [CritRemove], [CritQuery], [CritDelete], [CritIter] the public functions, [CritSpec]
      the abstract map, [CritTheorems] the properties.
    - memory_provider.c, the calls of a provider through its table of
      operations: [Provider] the model, [ProviderSpec] the rules and the
      contract.  provider/provider_fixed_memory.c with
      provider/provider_ctl_stats_impl.h, a provider over one range of memory
      and the coarse allocator: [FixedProvider] the model,
      [FixedSpec] its rules and the instance under the calls of memory_provider.c.  [ProviderTheorems] has the properties of both.
    - provider/provider_tracking.c, the memory tracker: [Tracker] is the
      model, on the critnib ([CritWorld]) and on chunk pools ([HostMem.ChunkPool], which
      [BaseChunks] implements with the base allocator); [TrackerInv] the
      levels of nested ranges, [TrackerOps], [TrackerRemove], [TrackerIpc],
      [TrackerLife] its functions, [TrackerSpec] the abstract tracker,
      [TrackerTheorems] the properties.
    - pool/pool_disjoint.c, a pool of size classes over a provider and the
      tracker ([PoolProvider], with an executable one):
      [DisjointPool] models slabs, buckets and allocation, [DisjointApi] the
      life of a pool, its parameters and its statistics.  [DisjointSize] has the
      size classes and the bitmaps, [DisjointInv] the slabs by address and the
      invariant, [DisjointSteps] its transitions, [DisjointOps] and
      [DisjointCalls] the rules of the functions, [DisjointLife] and [DisjointInit] destruction and
      creation, [DisjointSpec] the abstract pool, [DisjointTheorems] the properties.
    - provider/provider_tracking.c, the tracking provider of a pool:
      [TrackingProvider] is the model, over the tracker and an upstream provider;
      [TrackingSpec] its rules and the instance of [PoolProvider],
      [TrackingTheorems] the properties, with the disjoint pool on it.
    - ipc_cache.c, the cache of opened IPC handles: [IpcCache] is the model,
      [IpcCacheSpec] the invariant and what the cache relies on, [IpcCacheOps] the rules of
      its functions, [IpcCacheTheorems] the abstract cache and the properties.

    The components meet in interfaces.  [HostMem.HostAlloc] is what every
    component uses of umf_ba_global_alloc and umf_ba_global_free; its laws are
    what the clients' theorems assume and what an executable instance with
    scripted failures discharges.  [HostMem.ChunkPool] is what the tracker
    and the IPC cache use of umf_ba_alloc and umf_ba_free, and the base allocator discharges its
    laws.  [IpcCacheSpec.CacheWorld] is both for the IPC cache, together with the eviction
    callbacks.  [PoolProvider.PoolProvider] is what a pool uses of its provider and of the
    tracker, and the tracking provider over the tracker discharges its laws.  The coarse allocator runs the RAVL programs themselves, the tracker
    and the disjoint pool those of the critnib, the fixed provider those of the
    coarse allocator.  The provider callbacks of the coarse allocator, the operating
    system under the base allocators ([BaseMem.Os]), the contents of
    uninitialised memory and the results of pthread_mutex_lock are parameters.

    ** The programs

    A stateful C function is a program of the monad [M] below: the state it
    can reach is explicit, [None] is undefined behaviour, a failed assert, a
    deadlock or an exhausted loop bound.  [wp m Q s] says that [m] runs to the
    end from [s] and that [Q] holds of its result and final state, so every
    theorem stated with it is total.  The models are those of a debug build in
    developer mode: asserts and self checks are part of the programs.
    Structs live in heaps (finite maps from addresses); integers are 64-bit
    words with their wrap-around.

    ** What the theorems show

    - Refinement: every sequence of calls of the RAVL tree, the coarse
      allocator, the global base allocator, the critnib, the fixed provider,
      the tracker, the disjoint pool and the IPC cache behaves as an abstract object does (a
      finite map; a list of disjoint ranges; a map of blocks with their
      contents; a map with reference counts; ranges with statistics; levels
      of nested ranges; a map of disjoint allocations; a list of entries by recency).
    - Safety: valid calls run to the end without undefined behaviour, failed
      asserts or a mutex left locked, on every error path; destruction gives
      all memory back.
    - Functional behaviour of the single operations, on every branch; the
      choice of a size class equals a search from the smallest one.
    - Round trips: creating the tracker or a pool and destroying it leaves the
      allocators as they were, also when the creation fails half-way.
    - Bounds: what the disjoint pools keep unused is within their limit, and
      the IPC cache keeps to its limit when the client releases its entries.
    - Errors: concrete states in which the code departs from what it means to
      do, each with the call that shows it.

    ** Bounds and fuel

    Loops over pointers take fuel.  The walks in a RAVL tree take the number
    of its nodes, those in a critnib the 16 nibbles of a key, those over linked
    lists the number of objects or the counter the struct holds; the theorems
    show that the fuel suffices, since [wp] fails when it runs out.
    ravl_remove calls itself once, so its fuel is 2.  The loops that size the
    buckets of a disjoint pool double a size up to 2^31, so 64 rounds suffice.
    Counters that only grow (the critnib's removal counter, the calls made to a
    provider) are bounded in the theorems by the number of calls; the bounds are
    near 2^64 and 2^62.

    ** Not modelled

    Concurrency: one thread runs at a time; locks must be taken and released
    in turn, and atomic operations are loads and stores.  Logging, sanitizer
    and Valgrind annotations have no effect on the modelled state.  The
    providers over the operating system and devices, the pools over oneTBB and
    jemalloc, the memory targets found by hwloc, the library start-up and the
    proxy library are system calls and calls of libraries that are not part
    of the sources. *)

From stdpp Require Export base gmap list option decidable numbers.
From Stdlib Require Export ZArith Lia.
#[export] Set Default Goal Selector "!".
#[global] Open Scope Z_scope.

(** ** Machine integers

    [size_t], [uintptr_t] and [uint64_t] are 64-bit: a value is a [Z] in
    [0 .. 2^64) and every operation that can leave the range is wrapped. *)

Definition two64 : Z := 18446744073709551616.
Definition SIZE_MAX : Z := 18446744073709551615.

Definition wrap64 (x : Z) : Z := x mod two64.
Definition add64 (x y : Z) : Z := wrap64 (x + y).
Definition sub64 (x y : Z) : Z := wrap64 (x - y).
Definition mul64 (x y : Z) : Z := wrap64 (x * y).
Definition not64 (x : Z) : Z := Z.ldiff (Z.ones 64) x.
Definition shl64 (x n : Z) : Z := wrap64 (Z.shiftl x n).

Definition is_u64 (x : Z) : Prop := 0 <= x < two64.

(** Result codes, [umf_result_t] of include/umf/base.h. *)
Inductive umf_result_t :=
| UMF_RESULT_SUCCESS
| UMF_RESULT_ERROR_OUT_OF_HOST_MEMORY
| UMF_RESULT_ERROR_MEMORY_PROVIDER_SPECIFIC
| UMF_RESULT_ERROR_INVALID_ARGUMENT
| UMF_RESULT_ERROR_INVALID_ALIGNMENT
| UMF_RESULT_ERROR_NOT_SUPPORTED
| UMF_RESULT_ERROR_USER_SPECIFIC
| UMF_RESULT_ERROR_DEPENDENCY_UNAVAILABLE
| UMF_RESULT_ERROR_OUT_OF_RESOURCES
| UMF_RESULT_ERROR_UNKNOWN.

#[export] Instance umf_result_t_eq_dec : EqDecision umf_result_t.
Proof. solve_decision. Defined.

(** ** Programs

    A stateful C function is a function from the state it can reach to the
    value it returns and the state it leaves.  [None] is undefined behaviour
    (a dereference of NULL or of freed memory), a failed [assert], or an
    exhausted loop bound: a theorem that a program is [wp]-correct therefore
    also says that none of them happens. *)

Definition M (S A : Type) : Type := S -> option (A * S).

#[export] Instance M_ret {S} : MRet (M S) := fun A a s => Some (a, s).
#[export] Instance M_bind {S} : MBind (M S) :=
  fun A B k m s => match m s with Some (a, s') => k a s' | None => None end.
#[export] Instance M_fmap {S} : FMap (M S) :=
  fun A B f m s => match m s with Some (a, s') => Some (f a, s') | None => None end.

Definition get {S} : M S S := fun s => Some (s, s).
Definition gets {S A} (f : S -> A) : M S A := fun s => Some (f s, s).
Definition modify {S} (f : S -> S) : M S unit := fun s => Some (tt, f s).
Definition undef {S A} : M S A := fun _ => None.
Definition c_assert {S} (b : bool) : M S unit := if b then mret tt else undef.
Definition of_option {S A} (o : option A) : M S A :=
  match o with Some a => mret a | None => undef end.

(** Total correctness: [m] runs to the end from [s] and its result and final
    state satisfy [Q]. *)
Definition wp {S A} (m : M S A) (Q : A -> S -> Prop) (s : S) : Prop :=
  match m s with Some (a, s') => Q a s' | None => False end.

Lemma wp_bind {S A B} (m : M S A) (k : A -> M S B) Q s :
  wp m (fun a s' => wp (k a) Q s') s -> wp (m ≫= k) Q s.
Proof. unfold wp, mbind, M_bind. by destruct (m s) as [[a s']|]. Qed.

Lemma wp_ret {S A} (a : A) (Q : A -> S -> Prop) s : Q a s -> wp (mret a) Q s.
Proof. done. Qed.

Lemma wp_mono {S A} (m : M S A) (Q Q' : A -> S -> Prop) s :
  wp m Q s -> (forall a s', Q a s' -> Q' a s') -> wp m Q' s.
Proof. unfold wp. destruct (m s) as [[a s']|]; auto. Qed.

Lemma wp_get {S} (Q : S -> S -> Prop) s : Q s s -> wp get Q s.
Proof. done. Qed.

Lemma wp_gets {S A} (f : S -> A) Q s : Q (f s) s -> wp (gets f) Q s.
Proof. done. Qed.

Lemma wp_modify {S} (f : S -> S) Q s : Q tt (f s) -> wp (modify f) Q s.
Proof. done. Qed.

Lemma wp_c_assert {S} (b : bool) (Q : unit -> S -> Prop) s :
  b = true -> Q tt s -> wp (c_assert b) Q s.
Proof. by intros ->. Qed.

Lemma wp_of_option {S A} (o : option A) a (Q : A -> S -> Prop) s :
  o = Some a -> Q a s -> wp (of_option o) Q s.
Proof. by intros ->. Qed.

Lemma wp_run {S A} (m : M S A) Q s :
  wp m Q s -> exists a s', m s = Some (a, s') /\ Q a s'.
Proof. unfold wp. destruct (m s) as [[a s']|]; [eauto|done]. Qed.

Lemma wp_of_run {S A} (m : M S A) (Q : A -> S -> Prop) s a s' :
  m s = Some (a, s') -> Q a s' -> wp m Q s.
Proof. unfold wp. by intros ->. Qed.

(** The dual: a program fails when its first part leads to a failure. *)
Lemma fails_bind {S A B} (m : M S A) (k : A -> M S B) s :
  wp m (fun a s' => k a s' = None) s -> (m ≫= k) s = None.
Proof. unfold wp, mbind, M_bind. by destruct (m s) as [[a s']|]. Qed.

(** The second part of a program that runs to the end does, too. *)
Lemma runs_after {S A B} (m : M S A) (k : A -> M S B) s a s' :
  (m ≫= k) s <> None -> m s = Some (a, s') -> exists b s2, k a s' = Some (b, s2).
Proof. unfold mbind, M_bind. intros Hr E. rewrite E in Hr. destruct (k a s') as [[b s2]|]; [eauto|done]. Qed.

(** A run whose result is known; the final state is not computed. *)
Lemma runs_of_fst {S A} (m : M S A) s a : option_map fst (m s) = Some a -> m s <> None.
Proof. by destruct (m s). Qed.

(** Tactics of the development: [wp_step] peels one bind and the primitive
    operation under it. *)
Ltac wp_prim :=
  lazymatch goal with
  | |- wp (mret _) _ _ => apply wp_ret
  | |- wp get _ _ => apply wp_get
  | |- wp (gets _) _ _ => apply wp_gets
  | |- wp (modify _) _ _ => apply wp_modify
  | |- wp (c_assert _) _ _ => apply wp_c_assert
  | |- wp (of_option _) _ _ => eapply wp_of_option
  end.
Ltac wp_step := lazymatch goal with
  | |- wp (_ ≫= _) _ _ => apply wp_bind
  | _ => idtac
  end; wp_prim.

(** ** Shared lemmas *)

Lemma two64_eq : two64 = 2 ^ 64.
Proof. reflexivity. Qed.

Lemma wrap64_small x : is_u64 x -> wrap64 x = x.
Proof. intros H. by apply Z.mod_small. Qed.

Lemma wrap64_range x : is_u64 (wrap64 x).
Proof. apply Z.mod_pos_bound. reflexivity. Qed.

Lemma add64_small x y : is_u64 (x + y) -> add64 x y = x + y.
Proof. apply wrap64_small. Qed.

Lemma sub64_small x y : is_u64 (x - y) -> sub64 x y = x - y.
Proof. apply wrap64_small. Qed.

Lemma mul64_small x y : is_u64 (x * y) -> mul64 x y = x * y.
Proof. apply wrap64_small. Qed.

Create HintDb umf discriminated.
#[export] Hint Resolve wrap64_range : umf.

Lemma filter_all {T} (P : T -> Prop) `{!forall x, Decision (P x)} (l : list T) :
  Forall P l -> filter P l = l.
Proof.
  induction 1 as [|x l Hx Hl IH]; [done|]. by rewrite filter_cons_True, IH.
Qed.

Lemma filter_none {T} (P : T -> Prop) `{!forall x, Decision (P x)} (l : list T) :
  Forall (fun x => ~ P x) l -> filter P l = [].
Proof.
  induction 1 as [|x l Hx Hl IH]; [done|]. by rewrite filter_cons_False, IH.
Qed.

(** An element of a duplicate-free list has one position. *)
Lemma NoDup_middle {T} (l1 l2 m1 m2 : list T) (x : T) :
  NoDup (l1 ++ x :: l2) -> l1 ++ x :: l2 = m1 ++ x :: m2 -> l1 = m1 /\ l2 = m2.
Proof.
  revert m1. induction l1 as [|y l1 IH]; intros m1 Hnd E; destruct m1 as [|z m1]; simplify_eq/=.
  - done.
  - exfalso. apply list.NoDup_cons in Hnd as [Hn _]. apply Hn, elem_of_app. right. constructor.
  - exfalso. apply list.NoDup_cons in Hnd as [Hn _]. apply Hn, elem_of_app. right. constructor.
  - apply list.NoDup_cons in Hnd as [_ Hnd]. destruct (IH m1 Hnd) as [-> ->]; done.
Qed.

(** Distinct keys of a heap are no more than its size: the bound of the loops
    that follow pointers. *)
Lemma heap_bound {V} (h : gmap Z V) (L : list Z) :
  NoDup L -> (forall a, a ∈ L -> is_Some (h !! a)) -> (length L <= size h)%nat.
Proof.
  intros Hnd Hin. rewrite <- size_dom.
  rewrite <- (size_list_to_set (C := gset Z) L) by done.
  apply subseteq_size. intros a. rewrite elem_of_list_to_set.
  intros Ha. apply elem_of_dom. auto.
Qed.
