(* ===== verification/Utils.v ===== *)
(** * Utilities: src/utils/utils_common.{h,c} and src/utils/utils_math.h

    The alignment macros, the pointer alignment helpers, the bit scans and the
    flag translation loop, on 64-bit (resp. 32-bit) words with their
    wrap-around, and the facts about them that the allocators rely on.

    Locks, src/utils/utils_posix_concurrency.c: a mutex of one thread: whether it is held, and what the coming calls of
    [pthread_mutex_lock] return.  Locking a held mutex is a deadlock and
    unlocking one that is not held is undefined: both are [None], so a
    theorem that a program runs to the end also says that it locks and
    unlocks in turn. *)

From S2P Require Import Prelude.

(** ** Macros of utils_common.h *)

Definition IS_POWER_OF_2 (value : Z) : bool :=
  negb (value =? 0) && (Z.land value (sub64 value 1) =? 0).

Definition IS_ALIGNED (value align : Z) : bool :=
  (align =? 0) || (Z.land value (sub64 align 1) =? 0).

Definition IS_NOT_ALIGNED (value align : Z) : bool :=
  negb (align =? 0) && negb (Z.land value (sub64 align 1) =? 0).

Definition ALIGN_UP (value align : Z) : Z :=
  Z.land (sub64 (add64 value align) 1) (not64 (sub64 align 1)).

Definition ALIGN_UP_SAFE (value align : Z) : Z :=
  if align =? 0 then value
  else if sub64 (add64 value align) 1 <? value then 0
  else ALIGN_UP value align.

Definition ALIGN_DOWN (value align : Z) : Z :=
  Z.land value (not64 (sub64 align 1)).

(** ** utils_common.c *)

(** [ptr] and [size] are the in-out parameters. *)
Definition utils_align_ptr_up_size_down (ptr size alignment : Z) : Z * Z :=
  let rest := Z.land ptr (sub64 alignment 1) in
  if negb (rest =? 0)
  then (ALIGN_UP ptr alignment, sub64 size (sub64 alignment rest))
  else (ptr, size).

Definition utils_align_ptr_down_size_up (ptr size alignment : Z) : Z * Z :=
  let rest := Z.land ptr (sub64 alignment 1) in
  let '(p, s) :=
    if negb (rest =? 0)
    then (ALIGN_DOWN ptr alignment, add64 size rest)
    else (ptr, size) in
  (p, ALIGN_UP s alignment).

Definition utils_max (a b : Z) : Z := if a >? b then a else b.
Definition utils_min (a b : Z) : Z := if a <? b then a else b.

(** The loop of [utils_translate_flags]: [n] runs over the powers of two
    below [max]; [unsigned] is 32 bits, so after 32 shifts [n] is 0 and stays
    below [max]: the loop would not end for [max > 2^31].  [fuel] bounds the
    number of iterations, [None] is a loop that has not ended by then. *)
Section TranslateFlags.
Variable translate_flag : Z -> umf_result_t * Z.

Fixpoint translate_flags_loop (fuel : nat) (n max in_flags out_f : Z)
  : option (umf_result_t * Z * Z) :=
  match fuel with
  | O => None
  | S fuel =>
    if n <? max then
      let n' := Z.land (Z.shiftl n 1) (Z.ones 32) in
      if negb (Z.land in_flags n =? 0) then
        let '(result, flag) := translate_flag n in
        if decide (result = UMF_RESULT_SUCCESS) then
          translate_flags_loop fuel n' max
            (Z.land in_flags (Z.ldiff (Z.ones 32) n)) (Z.lor out_f flag)
        else Some (result, in_flags, out_f)
      else translate_flags_loop fuel n' max in_flags out_f
    else Some (UMF_RESULT_SUCCESS, in_flags, out_f)
  end.

(** The second component is [*out_flags], written on success only. *)
Definition utils_translate_flags (fuel : nat) (in_flags max : Z)
  : option (umf_result_t * option Z) :=
  match translate_flags_loop fuel 1 max in_flags 0 with
  | None => None
  | Some (UMF_RESULT_SUCCESS, in_flags, out_f) =>
      if negb (in_flags =? 0)
      then Some (UMF_RESULT_ERROR_INVALID_ARGUMENT, None)
      else Some (UMF_RESULT_SUCCESS, Some out_f)
  | Some (result, _, _) => Some (result, None)
  end.
End TranslateFlags.

(** ** utils_math.h *)

(** [63 - clz(num)]: the index of the highest set bit. *)
Definition utils_msb64 (num : Z) : Z := Z.log2 num.

Fixpoint pos_ctz (p : positive) : Z :=
  match p with xO q => 1 + pos_ctz q | _ => 0 end.

(** [ctz(num)]: the index of the lowest set bit. *)
Definition utils_lsb64 (num : Z) : Z :=
  match num with Zpos p => pos_ctz p | _ => 0 end.

(** ** Powers of two *)

Definition pow2 (a : Z) : Prop := exists n, 0 <= n < 64 /\ a = 2 ^ n.

Lemma pow2_pos a : pow2 a -> 0 < a.
Proof. intros (n & Hn & ->). apply Z.pow_pos_nonneg; lia. Qed.

Lemma pow2_u64 a : pow2 a -> is_u64 a.
Proof.
  intros (n & Hn & ->). split; [apply Z.pow_nonneg; lia|].
  rewrite two64_eq. apply Z.pow_lt_mono_r; lia.
Qed.

Lemma land_pow2_mask v a : pow2 a -> Z.land v (sub64 a 1) = v mod a.
Proof.
  intros Ha. pose proof (pow2_pos _ Ha). pose proof (pow2_u64 _ Ha) as Hu.
  unfold is_u64 in Hu. rewrite sub64_small by (unfold is_u64; lia).
  destruct Ha as (n & Hn & ->).
  replace (2 ^ n - 1) with (Z.ones n) by (rewrite Z.ones_equiv; lia).
  apply Z.land_ones. lia.
Qed.

Lemma is_power_of_2_pow2 a : is_u64 a -> IS_POWER_OF_2 a = true -> pow2 a.
Proof.
  unfold IS_POWER_OF_2, is_u64. intros Hu H.
  apply andb_true_iff in H as [H0 H1].
  apply negb_true_iff, Z.eqb_neq in H0. apply Z.eqb_eq in H1.
  rewrite sub64_small in H1 by (unfold is_u64; lia).
  destruct (Z.log2_spec a) as [Hl Hh]; [lia|].
  pose proof (Z.log2_nonneg a).
  exists (Z.log2 a). split.
  { split; [lia|]. rewrite two64_eq in Hu.
    apply Z.log2_lt_pow2; lia. }
  destruct (Z.eq_dec a (2 ^ Z.log2 a)) as [|Hne]; [done|].
  exfalso.
  assert (Z.testbit (Z.land a (a - 1)) (Z.log2 a) = true) as Hb.
  { rewrite Z.land_spec, Z.bit_log2 by lia.
    replace (Z.log2 a) with (Z.log2 (a - 1)).
    - by rewrite Z.bit_log2 by lia.
    - apply Z.log2_unique; lia. }
  by rewrite H1, Z.bits_0 in Hb.
Qed.

Lemma pow2_is_power_of_2 a : pow2 a -> IS_POWER_OF_2 a = true.
Proof.
  intros Ha. unfold IS_POWER_OF_2. rewrite land_pow2_mask by done.
  pose proof (pow2_pos _ Ha). rewrite Z.mod_same by lia.
  by rewrite (proj2 (Z.eqb_neq _ _)) by lia.
Qed.

Lemma pow2_test a :
  is_u64 a -> a <> 0 -> Z.land a (sub64 a 1) = 0 -> pow2 a.
Proof.
  intros Hu H0 H1. apply is_power_of_2_pow2; [done|].
  unfold IS_POWER_OF_2. by rewrite (proj2 (Z.eqb_neq _ _) H0), H1.
Qed.

(** ** Alignment *)

Lemma is_aligned_spec v a :
  pow2 a -> IS_ALIGNED v a = true <-> v mod a = 0.
Proof.
  intros Ha. unfold IS_ALIGNED. rewrite land_pow2_mask by done.
  pose proof (pow2_pos _ Ha). rewrite (proj2 (Z.eqb_neq a 0)) by lia.
  simpl. apply Z.eqb_eq.
Qed.

Lemma is_not_aligned_negb v a : IS_NOT_ALIGNED v a = negb (IS_ALIGNED v a).
Proof. unfold IS_NOT_ALIGNED, IS_ALIGNED. by rewrite negb_orb. Qed.

Lemma land_not_pow2_mask v a :
  pow2 a -> is_u64 v -> Z.land v (not64 (sub64 a 1)) = v - v mod a.
Proof.
  intros Ha Hv. pose proof (pow2_pos _ Ha). pose proof (pow2_u64 _ Ha) as Hu.
  unfold is_u64 in *. rewrite sub64_small by (unfold is_u64; lia).
  destruct Ha as (n & Hn & ->). unfold not64.
  replace (2 ^ n - 1) with (Z.ones n) by (rewrite Z.ones_equiv; lia).
  assert (Z.land v (Z.ldiff (Z.ones 64) (Z.ones n)) = Z.ldiff v (Z.ones n)) as ->.
  { apply Z.bits_inj'. intros i Hi.
    rewrite Z.land_spec, !Z.ldiff_spec.
    destruct (Z.ltb_spec i 64).
    - by rewrite (Z.ones_spec_low 64) by lia.
    - rewrite (Z.ones_spec_high 64) by lia.
      replace (Z.testbit v i) with false; [done|].
      symmetry. destruct (Z.eq_dec v 0) as [->|]; [by rewrite Z.bits_0|].
      apply Z.bits_above_log2; [lia|].
      apply Z.log2_lt_pow2; [lia|].
      apply Z.lt_le_trans with (2 ^ 64); [rewrite <- two64_eq; lia|].
      apply Z.pow_le_mono_r; lia. }
  rewrite Z.ldiff_ones_r, Z.shiftl_mul_pow2, Z.shiftr_div_pow2 by lia.
  pose proof (Z.div_mod v (2 ^ n)). lia.
Qed.

Lemma align_up_spec v a :
  pow2 a -> 0 <= v -> v + a - 1 < two64 ->
  ALIGN_UP v a = (v + a - 1) - (v + a - 1) mod a.
Proof.
  intros Ha Hv Hs. pose proof (pow2_pos _ Ha). unfold ALIGN_UP.
  assert (sub64 (add64 v a) 1 = v + a - 1) as ->.
  { unfold sub64, add64, wrap64. rewrite Zminus_mod_idemp_l.
    apply Z.mod_small. lia. }
  apply land_not_pow2_mask; [done|]. unfold is_u64. lia.
Qed.

(** [ALIGN_UP] returns the least multiple of [a] that is not below [v]. *)
Lemma align_up_bounds v a :
  pow2 a -> 0 <= v -> v + a - 1 < two64 ->
  v <= ALIGN_UP v a < v + a /\ ALIGN_UP v a mod a = 0.
Proof.
  intros Ha Hv Hs. pose proof (pow2_pos _ Ha) as Hp.
  rewrite align_up_spec by done.
  pose proof (Z.mod_pos_bound (v + a - 1) a Hp). split; [lia|].
  rewrite Zminus_mod_idemp_r, Z.sub_diag. apply Z.mod_0_l. lia.
Qed.

Lemma align_up_aligned v a :
  pow2 a -> 0 <= v -> v + a - 1 < two64 -> v mod a = 0 -> ALIGN_UP v a = v.
Proof.
  intros Ha Hv Hs Hm. pose proof (pow2_pos _ Ha) as Hp.
  rewrite align_up_spec by done.
  replace (v + a - 1) with (v + (a - 1)) by lia.
  rewrite <- Zplus_mod_idemp_l, Hm, Z.add_0_l.
  rewrite (Z.mod_small (a - 1)) by lia. lia.
Qed.

(** The overflow test of [ALIGN_UP_SAFE] is exact: it returns 0 precisely
    when the rounded value does not fit (or is 0 already). *)
Lemma align_up_safe_overflow v a :
  pow2 a -> is_u64 v -> two64 <= v + a - 1 -> ALIGN_UP_SAFE v a = 0.
Proof.
  unfold is_u64. intros Ha Hv Ho. pose proof (pow2_pos _ Ha).
  pose proof (pow2_u64 _ Ha) as Hu. unfold is_u64 in Hu.
  unfold ALIGN_UP_SAFE. rewrite (proj2 (Z.eqb_neq a 0)) by lia.
  assert (sub64 (add64 v a) 1 = v + a - 1 - two64) as ->.
  { unfold sub64, add64, wrap64. rewrite Zminus_mod_idemp_l.
    symmetry. apply (Z.mod_unique _ _ 1); unfold two64 in *; lia. }
  by rewrite (proj2 (Z.ltb_lt _ _)) by lia.
Qed.

Lemma align_up_safe_fits v a :
  pow2 a -> is_u64 v -> v + a - 1 < two64 -> ALIGN_UP_SAFE v a = ALIGN_UP v a.
Proof.
  unfold is_u64. intros Ha Hv Ho. pose proof (pow2_pos _ Ha).
  unfold ALIGN_UP_SAFE. rewrite (proj2 (Z.eqb_neq a 0)) by lia.
  assert (sub64 (add64 v a) 1 = v + a - 1) as ->.
  { unfold sub64, add64, wrap64. rewrite Zminus_mod_idemp_l.
    apply Z.mod_small. lia. }
  by rewrite (proj2 (Z.ltb_ge _ _)) by lia.
Qed.

Record utils_mutex_t := mk_mutex {
  m_held : bool;
  pthread_mutex_lock_results : list Z;
}.

Definition utils_mutex_lock (m : utils_mutex_t) : option (Z * utils_mutex_t) :=
  if m_held m then None
  else match pthread_mutex_lock_results m with
       | [] => Some (0, mk_mutex true [])
       | r :: rs => Some (r, mk_mutex (r =? 0) rs)
       end.

Definition utils_mutex_unlock (m : utils_mutex_t) : option utils_mutex_t :=
  if m_held m then Some (mk_mutex false (pthread_mutex_lock_results m)) else None.

Lemma mutex_lock_spec m :
  m_held m = false ->
  exists r m', utils_mutex_lock m = Some (r, m') /\ m_held m' = (r =? 0).
Proof.
  intros Hm. unfold utils_mutex_lock. rewrite Hm.
  destruct (pthread_mutex_lock_results m) as [|r rs]; eauto.
Qed.
