(* ===== verification/HostMem.v ===== *)
(** * The interfaces of the host allocators

    Every component of the library allocates its own objects with
    [umf_ba_global_alloc] and releases them with [umf_ba_global_free]
    (src/base_alloc/base_alloc_global.h).  [HostAlloc] states what the clients
    rely on: a successful call returns an address that is not live, the
    address is live until it is freed, and nothing else changes.  The live
    addresses carry a tag, the C type of the object that was allocated there;
    it keeps the typed heaps of the clients apart.

    [scripted] is an executable instance whose failures follow a script.

    The components that keep many small objects of one size take them from a
    pool of src/base_alloc/base_alloc.h.  [ChunkPool] has its four functions
    over a state with all pools, 0 for NULL; [ChunkPoolLaws] states what the
    clients rely on: a chunk that is handed out is not in use, it is in use
    until it is freed, and the pools do not interfere. *)

From S2P Require Import Prelude.
From stdpp Require Import strings.
#[local] Open Scope Z_scope.

Class HostAlloc (H : Type) := {
  ba_live : H -> gmap Z string;
  umf_ba_global_alloc : string -> Z -> H -> option Z * H;
  umf_ba_global_free : Z -> H -> H;
}.

Class HostAllocLaws (H : Type) `{HostAlloc H} := {
  ba_alloc_some : forall tg size h a h',
    umf_ba_global_alloc tg size h = (Some a, h') ->
    ba_live h !! a = None /\ ba_live h' = <[a := tg]> (ba_live h);
  ba_alloc_nonnull : forall tg size h a h', umf_ba_global_alloc tg size h = (Some a, h') -> a <> 0;
  ba_alloc_none : forall tg size h h',
    umf_ba_global_alloc tg size h = (None, h') -> ba_live h' = ba_live h;
  ba_free_live : forall a h,
    is_Some (ba_live h !! a) -> ba_live (umf_ba_global_free a h) = delete a (ba_live h);
}.

(** The allocator changes by calls of its two functions only. *)
Inductive host_step `{HostAlloc H} : H -> H -> Prop :=
| step_alloc tg size h : host_step h (umf_ba_global_alloc tg size h).2
| step_free a h : host_step h (umf_ba_global_free a h).

Definition host_steps `{HostAlloc H} : H -> H -> Prop := rtc host_step.

(** [Reliable T ok]: from a state satisfying [ok] on, the allocations of the
    types [T] succeed.  [T := []] with [ok := fun _ => True] is no assumption. *)
Class Reliable `{HostAlloc H} (T : list string) (ok : H -> Prop) : Prop := {
  reliable_step : forall h h', ok h -> host_step h h' -> ok h';
  reliable_alloc : forall tg size h, ok h -> tg ∈ T -> (umf_ba_global_alloc tg size h).1 <> None;
}.

Lemma reliable_steps `{HostAlloc H} T ok `{!Reliable T ok} (h h' : H) :
  ok h -> host_steps h h' -> ok h'.
Proof. intros Hok Hs. induction Hs as [|x y z Hxy _ IH]; [done|]. apply IH. by eapply (reliable_step (T := T)). Qed.

Lemma host_steps_refl `{HostAlloc H} (h : H) : host_steps h h.
Proof. apply rtc_refl. Qed.

Lemma host_steps_alloc `{HostAlloc H} tg size (h : H) o h' :
  umf_ba_global_alloc tg size h = (o, h') -> host_steps h h'.
Proof. intros E. apply rtc_once. replace h' with (umf_ba_global_alloc tg size h).2 by (by rewrite E). constructor. Qed.

Lemma host_steps_free `{HostAlloc H} a (h : H) : host_steps h (umf_ba_global_free a h).
Proof. apply rtc_once. constructor. Qed.

Lemma host_steps_trans `{HostAlloc H} (h1 h2 h3 : H) :
  host_steps h1 h2 -> host_steps h2 h3 -> host_steps h1 h3.
Proof. unfold host_steps. intros. by etrans. Qed.

#[export] Hint Resolve host_steps_refl host_steps_alloc host_steps_free : umf.

(** A typed heap of a client is owned by it when all its objects are live
    under the client's tag. *)
Definition owned `{HostAlloc H} {V} (tg : string) (heap : gmap Z V) (h : H) : Prop :=
  forall a, is_Some (heap !! a) -> ba_live h !! a = Some tg.

Section Owned.
Context `{HostAllocLaws H} {V : Type}.
Implicit Types (heap : gmap Z V) (h : H).

Lemma owned_empty tg h : owned tg (∅ : gmap Z V) h.
Proof. intros a [x Hx]. by rewrite lookup_empty in Hx. Qed.

Lemma owned_fresh tg tg' size heap h a h' :
  owned tg heap h -> umf_ba_global_alloc tg' size h = (Some a, h') ->
  heap !! a = None.
Proof.
  intros Ho Ha. apply ba_alloc_some in Ha as [Ha _].
  destruct (heap !! a) eqn:E; [|done].
  rewrite (Ho a) in Ha; [done|by eexists].
Qed.

Lemma owned_alloc_new tg size heap h a h' v :
  owned tg heap h -> umf_ba_global_alloc tg size h = (Some a, h') ->
  owned tg (<[a := v]> heap) h'.
Proof.
  intros Ho Ha b Hb. apply ba_alloc_some in Ha as [Ha ->].
  destruct (decide (a = b)) as [->|Hne]; [by rewrite lookup_insert_eq|].
  rewrite lookup_insert_ne in Hb by done. rewrite lookup_insert_ne by done. by apply Ho.
Qed.

Lemma owned_alloc tg tg' size heap h o h' :
  owned tg heap h -> umf_ba_global_alloc tg' size h = (o, h') ->
  owned tg heap h'.
Proof.
  intros Ho Ha b Hb. destruct o as [a|].
  - pose proof (owned_fresh _ _ _ _ _ _ _ Ho Ha) as Hf.
    apply ba_alloc_some in Ha as [Ha ->].
    rewrite lookup_insert_ne; [by apply Ho|]. intros ->.
    rewrite Hf in Hb. by destruct Hb.
  - rewrite (ba_alloc_none _ _ _ _ Ha). by apply Ho.
Qed.

Lemma owned_update tg heap h a v :
  owned tg heap h -> is_Some (heap !! a) -> owned tg (<[a := v]> heap) h.
Proof.
  intros Ho Ha b Hb. destruct (decide (a = b)) as [->|Hne]; [by apply Ho|].
  rewrite lookup_insert_ne in Hb by done. by apply Ho.
Qed.

Lemma owned_free_own tg heap h a :
  owned tg heap h -> is_Some (heap !! a) ->
  owned tg (delete a heap) (umf_ba_global_free a h).
Proof.
  intros Ho Ha b Hb. rewrite ba_free_live; [|by rewrite (Ho a Ha)].
  destruct (decide (a = b)) as [->|Hne].
  { rewrite lookup_delete_eq in Hb. by destruct Hb. }
  rewrite lookup_delete_ne in Hb by done. rewrite lookup_delete_ne by done. by apply Ho.
Qed.

Lemma owned_free_other tg tg' heap h a :
  owned tg heap h -> tg <> tg' -> ba_live h !! a = Some tg' ->
  owned tg heap (umf_ba_global_free a h).
Proof.
  intros Ho Hne Ha b Hb. rewrite ba_free_live; [|by eexists].
  rewrite lookup_delete_ne; [by apply Ho|]. intros ->.
  rewrite (Ho b Hb) in Ha. congruence.
Qed.
End Owned.

#[export] Hint Resolve owned_empty owned_alloc_new owned_alloc owned_update
  owned_free_own : umf.

(** ** A scripted instance

    Addresses are never reused; each call consumes one entry of the script
    and fails on [false]; past the end of the script every call succeeds. *)
Record scripted := Scripted {
  s_next : Z;
  s_script : list bool;
  s_live : gmap Z string;
}.

Definition scripted_alloc (tg : string) (size : Z) (h : scripted) : option Z * scripted :=
  match s_script h with
  | false :: rest => (None, Scripted (s_next h) rest (s_live h))
  | _ =>
      let a := if decide (s_live h !! s_next h = None /\ s_next h <> 0) then s_next h
               else fresh ({[0]} ∪ dom (s_live h)) in
      (Some a, Scripted (a + 1) (tail (s_script h)) (<[a := tg]> (s_live h)))
  end.

Definition scripted_free (a : Z) (h : scripted) : scripted :=
  Scripted (s_next h) (s_script h) (delete a (s_live h)).

#[export] Instance scripted_host : HostAlloc scripted := {
  ba_live := s_live;
  umf_ba_global_alloc := scripted_alloc;
  umf_ba_global_free := scripted_free;
}.

Lemma scripted_alloc_some tg size h a h' :
  scripted_alloc tg size h = (Some a, h') ->
  s_live h !! a = None /\ s_live h' = <[a := tg]> (s_live h) /\ a <> 0.
Proof.
  destruct h as [n sc lv]. unfold scripted_alloc. simpl.
  set (b := if decide (lv !! n = None /\ n <> 0) then n else fresh ({[0]} ∪ dom lv)).
  assert (lv !! b = None /\ b <> 0) as [Hb1 Hb2].
  { subst b. case_decide; [done|]. pose proof (is_fresh ({[0]} ∪ dom lv)) as Hf.
    apply not_elem_of_union in Hf as [Hf0 Hf]. apply not_elem_of_singleton in Hf0.
    split; [by apply not_elem_of_dom|done]. }
  destruct sc as [|[] sc]; intros E; by simplify_eq/=.
Qed.

#[export] Instance scripted_laws : HostAllocLaws scripted.
Proof.
  split; simpl.
  - intros tg size h a h' E. by apply scripted_alloc_some in E as (? & ? & _).
  - intros tg size h a h' E. by apply scripted_alloc_some in E as (_ & _ & ?).
  - unfold scripted_alloc. intros tg size [n sc lv] h' E. simpl in *.
    destruct sc as [|[] sc]; by simplify_eq/=.
  - done.
Qed.

Definition host0 (script : list bool) : scripted := Scripted 1 script ∅.

(** With an empty script no allocation fails. *)
#[export] Instance scripted_reliable T : Reliable T (fun h : scripted => s_script h = []).
Proof.
  split.
  - intros h h' E Hs. destruct Hs as [tg size h|a h]; simpl; [|done].
    unfold scripted_alloc. by rewrite E.
  - intros tg size h E _. simpl. unfold scripted_alloc. by rewrite E.
Qed.

Class ChunkPool (B : Type) := {
  umf_ba_create : Z -> M B Z;
  umf_ba_alloc : Z -> M B Z;
  umf_ba_free : Z -> Z -> M B unit;
  umf_ba_destroy : Z -> M B unit;
}.

(** [cp_rep b m]: the pools are the keys of [m], each with its chunks in use. *)
Class ChunkPoolLaws (B : Type) `{ChunkPool B} := {
  cp_rep : B -> gmap Z (gset Z) -> Prop;
  cp_word : forall b m pool L c, cp_rep b m -> m !! pool = Some L -> c ∈ L -> is_u64 c;
  cp_create : forall size b m, cp_rep b m -> 0 < size <= 256 ->
    wp (umf_ba_create size) (fun r b' =>
      (r = 0 /\ cp_rep b' m) \/ (r <> 0 /\ m !! r = None /\ cp_rep b' (<[r := ∅]> m))) b;
  cp_alloc : forall pool L b m, cp_rep b m -> m !! pool = Some L ->
    wp (umf_ba_alloc pool) (fun c b' =>
      (c = 0 /\ cp_rep b' m) \/
      (c <> 0 /\ (forall q X, m !! q = Some X -> c ∉ X) /\ cp_rep b' (<[pool := {[c]} ∪ L]> m))) b;
  cp_free : forall pool c L b m, cp_rep b m -> m !! pool = Some L -> c ∈ L ->
    wp (umf_ba_free pool c) (fun _ b' => cp_rep b' (<[pool := L ∖ {[c]}]> m)) b;
  cp_destroy : forall pool b m, cp_rep b m -> m !! pool = Some ∅ ->
    wp (umf_ba_destroy pool) (fun _ b' => cp_rep b' (delete pool m)) b;
}.
