(* ===== verification/Ravl.v ===== *)
(** * The RAVL tree, src/ravl/ravl.c

    A pointer-level model: the nodes live in a heap of C structs with parent
    and child pointers, and every function of ravl.c is a program over that
    heap with the same loads and stores in the same order.  [RavlTree] holds
    the functional trees these programs are proved to implement. *)

From S2P Require Import Prelude HostMem.
From stdpp Require Import strings.
#[local] Open Scope Z_scope.

(** [MAX_SLOTS], the length of the slot array, is not a value of the model. *)
Inductive ravl_slot_type := RAVL_LEFT | RAVL_RIGHT | RAVL_ROOT.

#[export] Instance ravl_slot_type_eq_dec : EqDecision ravl_slot_type.
Proof. solve_decision. Defined.

(** [enum ravl_predicate] is a set of flags: EQUAL = 1, GREATER = 2, LESS = 4. *)
Definition RAVL_PREDICATE_EQUAL : Z := Z.shiftl 1 0.
Definition RAVL_PREDICATE_GREATER : Z := Z.shiftl 1 1.
Definition RAVL_PREDICATE_LESS : Z := Z.shiftl 1 2.
Definition RAVL_PREDICATE_LESS_EQUAL : Z :=
  Z.lor RAVL_PREDICATE_EQUAL RAVL_PREDICATE_LESS.
Definition RAVL_PREDICATE_GREATER_EQUAL : Z :=
  Z.lor RAVL_PREDICATE_EQUAL RAVL_PREDICATE_GREATER.

(** A pointer to a node is an address, or [None] for NULL. *)
Record ravl_node (A : Type) := mk_node {
  parent : option Z;
  slot_left : option Z;
  slot_right : option Z;
  rank : Z;
  pointer_based : bool;
  data : A;
}.
Arguments mk_node {A}.
Arguments parent {A}.
Arguments slot_left {A}.
Arguments slot_right {A}.
Arguments rank {A}.
Arguments pointer_based {A}.
Arguments data {A}.

(** [struct ravl], with the heap of its nodes.  [self] is the address of the
    struct itself; [node_tag] names the C type its nodes are allocated as. *)
Record ravl (A : Type) := mk_ravl {
  self : Z;
  root : option Z;
  data_size : Z;
  node_tag : string;
  nodes : gmap Z (ravl_node A);
}.
Arguments mk_ravl {A}.
Arguments self {A}.
Arguments root {A}.
Arguments data_size {A}.
Arguments node_tag {A}.
Arguments nodes {A}.

(** The state a tree operation runs in: the tree and the host allocator. *)
Record rstate (H A : Type) := mk_rstate { r_ravl : ravl A; r_host : H }.
Arguments mk_rstate {H A}.
Arguments r_ravl {H A}.
Arguments r_host {H A}.

Definition sizeof_ravl_node : Z := 32.
Definition sizeof_ravl : Z := 24.
Definition sizeof_pointer : Z := 8.

Section Ravl.
Context {H A : Type} `{HostAlloc H}.
Variable compare : A -> A -> Z.
Abbreviation R := (M (rstate H A)).

(** *** Loads and stores *)

Definition slots (n : ravl_node A) (t : ravl_slot_type) : option Z :=
  match t with
  | RAVL_LEFT => slot_left n
  | RAVL_RIGHT => slot_right n
  | RAVL_ROOT => None
  end.

Definition with_parent (p : option Z) (n : ravl_node A) : ravl_node A :=
  mk_node p (slot_left n) (slot_right n) (rank n) (pointer_based n) (data n).
Definition with_slot (t : ravl_slot_type) (c : option Z) (n : ravl_node A) : ravl_node A :=
  match t with
  | RAVL_LEFT => mk_node (parent n) c (slot_right n) (rank n) (pointer_based n) (data n)
  | RAVL_RIGHT => mk_node (parent n) (slot_left n) c (rank n) (pointer_based n) (data n)
  | RAVL_ROOT => n
  end.
Definition with_rank (r : Z) (n : ravl_node A) : ravl_node A :=
  mk_node (parent n) (slot_left n) (slot_right n) r (pointer_based n) (data n).
Definition with_data (d : A) (n : ravl_node A) : ravl_node A :=
  mk_node (parent n) (slot_left n) (slot_right n) (rank n) (pointer_based n) d.

Definition with_nodes (ns : gmap Z (ravl_node A)) (s : rstate H A) : rstate H A :=
  let r := r_ravl s in
  mk_rstate (mk_ravl (self r) (root r) (data_size r) (node_tag r) ns) (r_host s).
Definition with_root (p : option Z) (s : rstate H A) : rstate H A :=
  let r := r_ravl s in
  mk_rstate (mk_ravl (self r) p (data_size r) (node_tag r) (nodes r)) (r_host s).
Definition with_host (h : H) (s : rstate H A) : rstate H A :=
  mk_rstate (r_ravl s) h.

Definition load (a : Z) : R (ravl_node A) :=
  s ← get; of_option (nodes (r_ravl s) !! a).
Definition update (a : Z) (f : ravl_node A -> ravl_node A) : R unit :=
  n ← load a;
  modify (fun s => with_nodes (<[a := f n]> (nodes (r_ravl s))) s).
(** The number of iterations granted to a loop that follows pointers. *)
Definition loop_bound : R nat := gets (fun s => S (size (nodes (r_ravl s)))).

(** *** Construction and destruction *)

Definition ravl_new_sized (tg : string) (data_size : Z) (h : H) : option (ravl A) * H :=
  match umf_ba_global_alloc "struct ravl" sizeof_ravl h with
  | (None, h) => (None, h)
  | (Some r, h) => (Some (mk_ravl r None data_size tg ∅), h)
  end.

Definition ravl_new (tg : string) (h : H) : option (ravl A) * H :=
  ravl_new_sized tg sizeof_pointer h.

(** In-order traversal; [arg] is what the callback works on. *)
Section Foreach.
Context {B : Type}.
Variable cb : option (A -> B -> option B).

Fixpoint ravl_foreach_node (fuel : nat) (n : option Z) (arg : B) (free_node : bool)
  : R B :=
  match n with
  | None => mret arg
  | Some a =>
    match fuel with
    | O => undef
    | S fuel =>
      nd ← load a;
      arg ← ravl_foreach_node fuel (slots nd RAVL_LEFT) arg free_node;
      arg ← match cb with
            | Some f => of_option (f (data nd) arg)
            | None => mret arg
            end;
      nd ← load a;
      arg ← ravl_foreach_node fuel (slots nd RAVL_RIGHT) arg free_node;
      (if free_node : bool then
         modify (fun s => with_host (umf_ba_global_free a (r_host s))
                            (with_nodes (delete a (nodes (r_ravl s))) s))
       else mret tt);;
      mret arg
    end
  end.
End Foreach.

Definition ravl_clear : R unit :=
  s ← get; fuel ← loop_bound;
  ravl_foreach_node None fuel (root (r_ravl s)) tt true;;
  modify (with_root None).

Definition ravl_delete_cb {B} (cb : option (A -> B -> option B)) (arg : B) : R B :=
  s ← get; fuel ← loop_bound;
  arg ← ravl_foreach_node cb fuel (root (r_ravl s)) arg true;
  modify (fun s => with_host (umf_ba_global_free (self (r_ravl s)) (r_host s)) s);;
  mret arg.

Definition ravl_delete : R unit := ravl_delete_cb None tt.

Definition ravl_foreach {B} (cb : option (A -> B -> option B)) (arg : B) : R B :=
  s ← get; fuel ← loop_bound;
  ravl_foreach_node cb fuel (root (r_ravl s)) arg false.

Definition ravl_empty : R bool :=
  s ← get; mret (bool_decide (root (r_ravl s) = None)).

(** *** Nodes

    [constr] tells which constructor fills the data of a new node:
    [ravl_node_insert_constructor] ([true]) stores the pointer it is given,
    [ravl_node_copy_constructor] ([false]) copies what it points to.  In both
    cases the datum of the model is what [ravl_data] hands to [compare]. *)

Definition ravl_node_insert_constructor (arg : A) : A := arg.
Definition ravl_node_copy_constructor (arg : A) : A := arg.

Definition ravl_new_node (insert_constructor : bool) (arg : A) : R (option Z) :=
  s ← get;
  match umf_ba_global_alloc (node_tag (r_ravl s))
          (sizeof_ravl_node + data_size (r_ravl s)) (r_host s) with
  | (None, h) => modify (with_host h);; mret None
  | (Some n, h) =>
      modify (with_host h);;
      let d := if insert_constructor then ravl_node_insert_constructor arg
               else ravl_node_copy_constructor arg in
      modify (fun s => with_nodes
        (<[n := mk_node None None None 0 insert_constructor d]> (nodes (r_ravl s))) s);;
      mret (Some n)
  end.

Definition ravl_slot_opposite (t : ravl_slot_type) : R ravl_slot_type :=
  c_assert (bool_decide (t <> RAVL_ROOT));;
  mret (if decide (t = RAVL_LEFT) then RAVL_RIGHT else RAVL_LEFT).

Definition ravl_node_slot_type (n : Z) : R ravl_slot_type :=
  nd ← load n;
  match parent nd with
  | None => mret RAVL_ROOT
  | Some p =>
      pn ← load p;
      mret (if decide (slots pn RAVL_LEFT = Some n) then RAVL_LEFT else RAVL_RIGHT)
  end.

Definition ravl_node_sibling (n : Z) : R (option Z) :=
  t ← ravl_node_slot_type n;
  if decide (t = RAVL_ROOT) then mret None
  else
    nd ← load n;
    p ← of_option (parent nd);
    pn ← load p;
    mret (slots pn (if decide (t = RAVL_LEFT) then RAVL_RIGHT else RAVL_LEFT)).

(** The address of a pointer to a node: [&ravl->root] or a slot of a node. *)
Inductive node_ref := RefRoot | RefSlot (n : Z) (t : ravl_slot_type).

Definition write_ref (r : node_ref) (v : option Z) : R unit :=
  match r with
  | RefRoot => modify (with_root v)
  | RefSlot n t => update n (with_slot t v)
  end.

Definition read_ref (r : node_ref) : R (option Z) :=
  match r with
  | RefRoot => s ← get; mret (root (r_ravl s))
  | RefSlot n t => nd ← load n; mret (slots nd t)
  end.

Definition ravl_node_ref (n : Z) : R node_ref :=
  t ← ravl_node_slot_type n;
  if decide (t = RAVL_ROOT) then mret RefRoot
  else nd ← load n; p ← of_option (parent nd); mret (RefSlot p t).

Definition ravl_rotate (n : Z) : R unit :=
  nd ← load n;
  p ← of_option (parent nd);
  pref ← ravl_node_ref p;
  t ← ravl_node_slot_type n;
  t_opposite ← ravl_slot_opposite t;
  pn ← load p;
  update n (with_parent (parent pn));;
  update p (with_parent (Some n));;
  write_ref pref (Some n);;
  nd ← load n;
  update p (with_slot t (slots nd t_opposite));;
  match slots nd t_opposite with
  | Some c => update c (with_parent (Some p))
  | None => mret tt
  end;;
  update n (with_slot t_opposite (Some p)).

(** *** Ranks *)

Definition ravl_node_rank (n : option Z) : R Z :=
  match n with
  | None => mret (-1)
  | Some a => nd ← load a; mret (rank nd)
  end.

Definition ravl_node_rank_difference_parent (p n : option Z) : R Z :=
  rp ← ravl_node_rank p;
  rn ← ravl_node_rank n;
  let rv := rp - rn in
  c_assert (rv <=? rp + 1);;
  mret rv.

Definition ravl_node_rank_difference (n : Z) : R Z :=
  nd ← load n; ravl_node_rank_difference_parent (parent nd) (Some n).

Definition ravl_node_is_i_j (n : Z) (i j : Z) : R bool :=
  nd ← load n;
  dl ← ravl_node_rank_difference_parent (Some n) (slots nd RAVL_LEFT);
  if negb (dl =? i) then mret false
  else
    dr ← ravl_node_rank_difference_parent (Some n) (slots nd RAVL_RIGHT);
    mret (dr =? j).

Definition ravl_node_is (n : Z) (i j : Z) : R bool :=
  b ← ravl_node_is_i_j n i j;
  if b : bool then mret true else ravl_node_is_i_j n j i.

Definition ravl_node_promote (n : Z) : R unit :=
  update n (fun nd => with_rank (rank nd + 1) nd).

Definition ravl_node_demote (n : Z) : R unit :=
  nd ← load n;
  c_assert (0 <? rank nd);;
  update n (fun nd => with_rank (rank nd - 1) nd).

(** The first loop of [ravl_balance]; returns where [n] has stopped. *)
Fixpoint ravl_balance_up (fuel : nat) (n : Z) : R Z :=
  match fuel with
  | O => undef
  | S fuel =>
    nd ← load n;
    match parent nd with
    | None => mret n
    | Some p =>
        b ← ravl_node_is p 0 1;
        if b : bool then ravl_node_promote p;; ravl_balance_up fuel p
        else mret n
    end
  end.

(** The rest of [ravl_balance], after the loop. *)
Definition ravl_balance_rotate (n : Z) : R unit :=
  s ← ravl_node_sibling n;
  d ← ravl_node_rank_difference n;
  nd ← load n;
  stop ← (if negb (d =? 0) then mret true
          else ds ← ravl_node_rank_difference_parent (parent nd) s;
               mret (negb (1 <? ds)));
  if stop : bool then mret tt
  else
    let y := parent nd in
    tn ← ravl_node_slot_type n;
    t ← ravl_slot_opposite tn;
    match slots nd t with
    | None =>
        ravl_rotate n;;
        y ← of_option y; ravl_node_demote y
    | Some z =>
        dz ← ravl_node_rank_difference z;
        if dz =? 2 then
          ravl_rotate n;;
          y ← of_option y; ravl_node_demote y
        else if dz =? 1 then
          ravl_rotate z;;
          ravl_rotate z;;
          ravl_node_promote z;;
          ravl_node_demote n;;
          y ← of_option y; ravl_node_demote y
        else mret tt
    end.

Definition ravl_balance (n : Z) : R unit :=
  fuel ← loop_bound;
  n ← ravl_balance_up fuel n;
  ravl_balance_rotate n.

(** *** Insertion *)

Definition ravl_data (n : Z) : R A := nd ← load n; mret (data nd).

(** The descent: [None] is the duplicate found, otherwise the last node
    visited and the reference to its empty slot. *)
Fixpoint ravl_emplace_walk (fuel : nat) (n : Z) (dstp : node_ref) (dst : option Z)
  : R (option (node_ref * option Z)) :=
  match fuel with
  | O => undef
  | S fuel =>
    cur ← read_ref dstp;
    match cur with
    | None => mret (Some (dstp, dst))
    | Some d =>
        dn ← ravl_data n;
        dd ← ravl_data d;
        let cmp_result := compare dn dd in
        if cmp_result =? 0 then mret None
        else ravl_emplace_walk fuel n
               (RefSlot d (if 0 <? cmp_result then RAVL_RIGHT else RAVL_LEFT)) (Some d)
    end
  end.

Definition ravl_emplace (insert_constructor : bool) (arg : A) : R Z :=
  n ← ravl_new_node insert_constructor arg;
  match n with
  | None => mret (-1)
  | Some n =>
      fuel ← loop_bound;
      w ← ravl_emplace_walk fuel n RefRoot None;
      match w with
      | None =>
          modify (fun s => with_host (umf_ba_global_free n (r_host s))
                             (with_nodes (delete n (nodes (r_ravl s))) s));;
          mret (-1)
      | Some (dstp, dst) =>
          update n (with_parent dst);;
          write_ref dstp (Some n);;
          ravl_balance n;;
          mret 0
      end
  end.

Definition ravl_insert (d : A) : R Z := ravl_emplace true d.
Definition ravl_emplace_copy (d : A) : R Z := ravl_emplace false d.

(** *** Neighbours and search *)

Fixpoint ravl_node_type_most (fuel : nat) (n : Z) (t : ravl_slot_type) : R Z :=
  match fuel with
  | O => undef
  | S fuel =>
    nd ← load n;
    match slots nd t with
    | Some c => ravl_node_type_most fuel c t
    | None => mret n
    end
  end.

(** The upward loop of [ravl_node_cessor], and the parent it returns. *)
Fixpoint ravl_node_cessor_up (fuel : nat) (n : Z) (t : ravl_slot_type) : R (option Z) :=
  match fuel with
  | O => undef
  | S fuel =>
    nd ← load n;
    match parent nd with
    | None => mret None
    | Some p =>
        pn ← load p;
        if decide (slots pn t = Some n) then ravl_node_cessor_up fuel p t
        else mret (Some p)
    end
  end.

Definition ravl_node_cessor (n : Z) (t : ravl_slot_type) : R (option Z) :=
  fuel ← loop_bound;
  nd ← load n;
  match slots nd t with
  | Some c => t' ← ravl_slot_opposite t; m ← ravl_node_type_most fuel c t'; mret (Some m)
  | None => ravl_node_cessor_up fuel n t
  end.

Definition ravl_node_successor (n : Z) : R (option Z) := ravl_node_cessor n RAVL_RIGHT.
Definition ravl_node_predecessor (n : Z) : R (option Z) := ravl_node_cessor n RAVL_LEFT.

Definition has_flag (flags f : Z) : bool := negb (Z.land flags f =? 0).

(** Returns whether the search stops and the new [*ret]. *)
Definition ravl_predicate_holds (result : Z) (ret : option Z) (n : Z) (flags : Z)
  : R (bool * option Z) :=
  if has_flag flags RAVL_PREDICATE_EQUAL && (result =? 0) then mret (true, Some n)
  else if has_flag flags RAVL_PREDICATE_GREATER && (result <? 0) then mret (false, Some n)
  else if has_flag flags RAVL_PREDICATE_GREATER && (result =? 0) then
    s ← ravl_node_successor n; mret (true, s)
  else if has_flag flags RAVL_PREDICATE_LESS && (0 <? result) then mret (false, Some n)
  else if has_flag flags RAVL_PREDICATE_LESS && (result =? 0) then
    s ← ravl_node_predecessor n; mret (true, s)
  else mret (false, ret).

Fixpoint ravl_find_loop (fuel : nat) (d : A) (flags : Z) (r n : option Z) : R (option Z) :=
  match n with
  | None => mret r
  | Some a =>
    match fuel with
    | O => undef
    | S fuel =>
      da ← ravl_data a;
      let result := compare d da in
      '(stop, r) ← ravl_predicate_holds result r a flags;
      if stop : bool then mret r
      else
        nd ← load a;
        ravl_find_loop fuel d flags r
          (slots nd (if 0 <? result then RAVL_RIGHT else RAVL_LEFT))
    end
  end.

Definition ravl_find (d : A) (flags : Z) : R (option Z) :=
  s ← get; fuel ← loop_bound;
  ravl_find_loop fuel d flags None (root (r_ravl s)).

(** *** Removal

    The recursive call is on a node without a left child, so the recursion
    is at most two deep. *)
Fixpoint ravl_remove_rec (fuel : nat) (n : Z) : R unit :=
  match fuel with
  | O => undef
  | S fuel =>
    nd ← load n;
    match slots nd RAVL_LEFT, slots nd RAVL_RIGHT with
    | Some _, Some _ =>
        s ← ravl_node_successor n;
        s ← of_option s;
        sn ← load s;
        update n (with_data (data sn));;
        ravl_remove_rec fuel s
    | l, r =>
        let c := match l with Some _ => l | None => r end in
        match c with
        | Some c => update c (with_parent (parent nd))
        | None => mret tt
        end;;
        ref ← ravl_node_ref n;
        write_ref ref c;;
        modify (fun s => with_host (umf_ba_global_free n (r_host s))
                           (with_nodes (delete n (nodes (r_ravl s))) s))
    end
  end.

Definition ravl_remove (n : Z) : R unit := ravl_remove_rec 2 n.

Definition ravl_first : R (option Z) :=
  s ← get; fuel ← loop_bound;
  match root (r_ravl s) with
  | Some r => m ← ravl_node_type_most fuel r RAVL_LEFT; mret (Some m)
  | None => mret None
  end.

Definition ravl_last : R (option Z) :=
  s ← get; fuel ← loop_bound;
  match root (r_ravl s) with
  | Some r => m ← ravl_node_type_most fuel r RAVL_RIGHT; mret (Some m)
  | None => mret None
  end.
End Ravl.
