(* ===== verification/RavlTree.v ===== *)
(** * Functional RAVL trees and their representation in the heap

    [tree] is the abstract counterpart of the heap of nodes of [Ravl]: a
    binary tree whose nodes carry their address.  A pointer to a node is a
    zipper, a subtree [t] with its context [c].  [zip_at s t c] says that the
    heap of [s] holds [plug c t], parent pointers included.  The functional
    operations at the end are what the pointer programs compute. *)

From S2P Require Import Prelude HostMem Ravl.
From stdpp Require Import strings.
#[local] Open Scope Z_scope.

Record cell (A : Type) := Cell { c_rank : Z; c_pb : bool; c_data : A }.
Arguments Cell {A}.
Arguments c_rank {A}.
Arguments c_pb {A}.
Arguments c_data {A}.

Inductive tree (A : Type) :=
| Null
| Node (a : Z) (k : cell A) (l r : tree A).
Arguments Null {A}.
Arguments Node {A}.

(** [CtxL a k r c]: the hole is the left child of node [a]. *)
Inductive ctx (A : Type) :=
| CTop
| CtxL (a : Z) (k : cell A) (r : tree A) (c : ctx A)
| CtxR (a : Z) (k : cell A) (l : tree A) (c : ctx A).
Arguments CTop {A}.
Arguments CtxL {A}.
Arguments CtxR {A}.

Section Defs.
Context {A : Type}.
Implicit Types (t l r : tree A) (c : ctx A) (k : cell A).

Fixpoint plug c t : tree A :=
  match c with
  | CTop => t
  | CtxL a k r c => plug c (Node a k t r)
  | CtxR a k l c => plug c (Node a k l t)
  end.

Definition troot t : option Z := match t with Null => None | Node a _ _ _ => Some a end.
Definition caddr c : option Z :=
  match c with CTop => None | CtxL a _ _ _ | CtxR a _ _ _ => Some a end.
Definition cside c : ravl_slot_type :=
  match c with CTop => RAVL_ROOT | CtxL _ _ _ _ => RAVL_LEFT | CtxR _ _ _ _ => RAVL_RIGHT end.
Definition csibling c : tree A :=
  match c with CTop => Null | CtxL _ _ t _ | CtxR _ _ t _ => t end.
Fixpoint ctop c (p : option Z) : option Z :=
  match c with CTop => p | CtxL a _ _ c | CtxR a _ _ c => ctop c (Some a) end.

Fixpoint addrs t : list Z :=
  match t with Null => [] | Node a _ l r => a :: addrs l ++ addrs r end.
Fixpoint caddrs c : list Z :=
  match c with CTop => [] | CtxL a _ t c | CtxR a _ t c => a :: addrs t ++ caddrs c end.

(** Address and datum of every node in key order; for a context, the nodes
    before and after the hole. *)
Fixpoint inorder t : list (Z * A) :=
  match t with
  | Null => []
  | Node a k l r => inorder l ++ (a, c_data k) :: inorder r
  end.
Fixpoint cl c : list (Z * A) :=
  match c with
  | CTop => []
  | CtxL _ _ _ c => cl c
  | CtxR a k l c => cl c ++ inorder l ++ [(a, c_data k)]
  end.
Fixpoint cr c : list (Z * A) :=
  match c with
  | CTop => []
  | CtxL a k r c => (a, c_data k) :: inorder r ++ cr c
  | CtxR _ _ _ c => cr c
  end.

Lemma inorder_plug c t : inorder (plug c t) = cl c ++ inorder t ++ cr c.
Proof.
  revert t. induction c as [|a k r c IH|a k l c IH]; intros t; simpl.
  - by rewrite app_nil_r.
  - rewrite IH. simpl. by rewrite <- !app_assoc.
  - rewrite IH. simpl. by rewrite <- !app_assoc.
Qed.

Lemma addrs_inorder t : (inorder t).*1 ≡ₚ addrs t.
Proof.
  induction t as [|a k l IHl r IHr]; simpl; [done|].
  rewrite fmap_app. simpl. rewrite IHl, IHr. by rewrite Permutation_middle.
Qed.

Lemma addrs_plug c t : addrs (plug c t) ≡ₚ addrs t ++ caddrs c.
Proof.
  revert t. induction c as [|a k r c IH|a k l c IH]; intros t; simpl.
  - by rewrite app_nil_r.
  - rewrite IH. simpl. solve_Permutation.
  - rewrite IH. simpl. solve_Permutation.
Qed.

(** Every node of a tree is the focus of a zipper. *)
Lemma tree_focus a t :
  a ∈ addrs t -> exists c k l r, t = plug c (Node a k l r).
Proof.
  assert (forall c0, a ∈ addrs t -> exists c k l r, plug c0 t = plug c (Node a k l r)) as Hg.
  { induction t as [|b k l IHl r IHr]; intros c0 Ha; simpl in Ha.
    - by apply not_elem_of_nil in Ha.
    - rewrite elem_of_cons, elem_of_app in Ha.
      destruct Ha as [->|[Ha|Ha]]; [by eauto| |].
      + apply (IHl (CtxL b k r c0) Ha).
      + apply (IHr (CtxR b k l c0) Ha). }
  apply (Hg CTop).
Qed.

Definition heap_node (p : option Z) (k : cell A) l r : ravl_node A :=
  mk_node p (troot l) (troot r) (c_rank k) (c_pb k) (c_data k).

Fixpoint tree_at (h : gmap Z (ravl_node A)) (p : option Z) t : Prop :=
  match t with
  | Null => True
  | Node a k l r =>
      h !! a = Some (heap_node p k l r) /\ tree_at h (Some a) l /\ tree_at h (Some a) r
  end.

Definition ctx_node (c : ctx A) (hole : option Z) : option (Z * ravl_node A) :=
  match c with
  | CTop => None
  | CtxL a k r c => Some (a, mk_node (caddr c) hole (troot r) (c_rank k) (c_pb k) (c_data k))
  | CtxR a k l c => Some (a, mk_node (caddr c) (troot l) hole (c_rank k) (c_pb k) (c_data k))
  end.

Fixpoint ctx_at (h : gmap Z (ravl_node A)) (hole : option Z) c : Prop :=
  match c with
  | CTop => True
  | CtxL a k t c' | CtxR a k t c' =>
      (exists n, ctx_node c hole = Some (a, n) /\ h !! a = Some n) /\
      tree_at h (Some a) t /\ ctx_at h (Some a) c'
  end.

Lemma tree_at_insert h p t a n :
  a ∉ addrs t -> tree_at h p t -> tree_at (<[a := n]> h) p t.
Proof.
  revert p. induction t as [|b k l IHl r IHr]; intros p; simpl; [done|].
  rewrite not_elem_of_cons, not_elem_of_app. intros (Hb & Hl & Hr) (H1 & H2 & H3).
  rewrite lookup_insert_ne by done. auto.
Qed.

Lemma tree_at_delete h p t a :
  a ∉ addrs t -> tree_at h p t -> tree_at (delete a h) p t.
Proof.
  revert p. induction t as [|b k l IHl r IHr]; intros p; simpl; [done|].
  rewrite not_elem_of_cons, not_elem_of_app. intros (Hb & Hl & Hr) (H1 & H2 & H3).
  rewrite lookup_delete_ne by done. auto.
Qed.

Lemma ctx_at_insert h hole c a n :
  a ∉ caddrs c -> ctx_at h hole c -> ctx_at (<[a := n]> h) hole c.
Proof.
  revert hole. induction c as [|b k t c IH|b k t c IH]; intros hole; simpl; [done| |];
    rewrite not_elem_of_cons, not_elem_of_app;
    intros (Hb & Hl & Hr) ((x & Hx & H1) & H2 & H3);
    (split; [exists x; by rewrite lookup_insert_ne|]);
    auto using tree_at_insert.
Qed.

Lemma ctx_at_delete h hole c a :
  a ∉ caddrs c -> ctx_at h hole c -> ctx_at (delete a h) hole c.
Proof.
  revert hole. induction c as [|b k t c IH|b k t c IH]; intros hole; simpl; [done| |];
    rewrite not_elem_of_cons, not_elem_of_app;
    intros (Hb & Hl & Hr) ((x & Hx & H1) & H2 & H3);
    (split; [exists x; by rewrite lookup_delete_ne|]);
    auto using tree_at_delete.
Qed.

(** Changing the parent pointer of the root of a subtree. *)
Lemma tree_at_reparent h p p' t :
  NoDup (addrs t) -> tree_at h p t ->
  match t with
  | Null => True
  | Node a k l r => tree_at (<[a := heap_node p' k l r]> h) p' t
  end.
Proof.
  destruct t as [|a k l r]; simpl; [done|].
  rewrite NoDup_cons, not_elem_of_app. intros [[Hl Hr] _] (H1 & H2 & H3).
  rewrite lookup_insert_eq. auto using tree_at_insert.
Qed.

(** Changing the slot a context's hole hangs from. *)
Lemma ctx_at_reslot h hole hole' c :
  NoDup (caddrs c) -> ctx_at h hole c ->
  match ctx_node c hole' with
  | None => True
  | Some (a, n) => ctx_at (<[a := n]> h) hole' c
  end.
Proof.
  destruct c as [|a k t c|a k t c]; simpl; [done| |];
    rewrite NoDup_cons, not_elem_of_app; intros [[Hl Hr] _] (H1 & H2 & H3);
    (split; [eexists; split; [done|by rewrite lookup_insert_eq]|]);
    auto using tree_at_insert, ctx_at_insert.
Qed.

Lemma tree_at_lookup h p t a :
  tree_at h p t -> a ∈ addrs t -> is_Some (h !! a).
Proof.
  revert p. induction t as [|b k l IHl r IHr]; intros p; simpl.
  - intros _ Ha. by apply not_elem_of_nil in Ha.
  - intros (H1 & H2 & H3). rewrite elem_of_cons, elem_of_app.
    intros [->|[Ha|Ha]]; eauto.
Qed.

(** The number of nodes, and the bound the loops rely on. *)
Fixpoint tsize t : nat :=
  match t with Null => O | Node _ _ l r => S (tsize l + tsize r) end.
Fixpoint cdepth c : nat :=
  match c with CTop => O | CtxL _ _ _ c | CtxR _ _ _ c => S (cdepth c) end.
Fixpoint height t : nat :=
  match t with Null => O | Node _ _ l r => S (height l `max` height r) end.

Lemma length_addrs t : length (addrs t) = tsize t.
Proof. induction t; simpl; [done|]. rewrite length_app. lia. Qed.

Lemma height_tsize t : (height t <= tsize t)%nat.
Proof. induction t; simpl; lia. Qed.

Lemma cdepth_caddrs c : (cdepth c <= length (caddrs c))%nat.
Proof. induction c; simpl; [lia| |]; rewrite length_app; lia. Qed.
End Defs.

(** ** Functional operations *)

Section Ops.
Context {A : Type}.
Implicit Types (t l r : tree A) (c : ctx A) (k : cell A).

Definition trank t : Z := match t with Null => -1 | Node _ k _ _ => c_rank k end.
Definition set_rank (z : Z) k : cell A := Cell z (c_pb k) (c_data k).

(** The rank rule: every rank difference between a node and its children
    (NULL has rank -1) is positive. *)
Fixpoint ranks_ok t : Prop :=
  match t with
  | Null => True
  | Node _ k l r => trank l < c_rank k /\ trank r < c_rank k /\ ranks_ok l /\ ranks_ok r
  end.

Fixpoint ctx_ranks_ok (z : Z) c : Prop :=
  match c with
  | CTop => True
  | CtxL _ k t c | CtxR _ k t c =>
      z < c_rank k /\ trank t < c_rank k /\ ranks_ok t /\ ctx_ranks_ok (c_rank k) c
  end.

(** The rank rule may fail, by one, between the hole and its parent only. *)
Definition ctx_ranks_weak (z : Z) c : Prop :=
  match c with
  | CTop => True
  | CtxL _ k t c | CtxR _ k t c =>
      z <= c_rank k /\ trank t < c_rank k /\ ranks_ok t /\ ctx_ranks_ok (c_rank k) c
  end.

Lemma trank_ge t : ranks_ok t -> -1 <= trank t.
Proof.
  induction t as [|a k l IHl r IHr]; simpl; [lia|].
  intros (? & ? & Hl & Hr). specialize (IHl Hl). lia.
Qed.

Lemma ranks_plug c t :
  ranks_ok (plug c t) <-> ranks_ok t /\ ctx_ranks_ok (trank t) c.
Proof.
  revert t. induction c as [|a k r c IH|a k l c IH]; intros t; simpl.
  - tauto.
  - rewrite IH. simpl. tauto.
  - rewrite IH. simpl. tauto.
Qed.

(** The rank bounds the height: a search visits at most [rank + 1] nodes. *)
Lemma height_trank t : ranks_ok t -> Z.of_nat (height t) <= trank t + 1.
Proof.
  induction t as [|a k l IHl r IHr]; simpl; [lia|].
  intros (? & ? & Hl & Hr). specialize (IHl Hl). specialize (IHr Hr). lia.
Qed.

Definition tree_rotate t c : tree A * ctx A :=
  match t, c with
  | Node n kn l r, CtxL p kp s c => (Node n kn l (Node p kp r s), c)
  | Node n kn l r, CtxR p kp s c => (Node n kn (Node p kp s l) r, c)
  | _, _ => (t, c)
  end.

Definition is_i_j k l r (i j : Z) : bool :=
  (c_rank k - trank l =? i) && (c_rank k - trank r =? j).
Definition is_ij k l r (i j : Z) : bool := is_i_j k l r i j || is_i_j k l r j i.

Fixpoint balance_up t c : tree A * ctx A :=
  match c with
  | CTop => (t, CTop)
  | CtxL p k s c' =>
      if is_ij k t s 0 1 then balance_up (Node p (set_rank (c_rank k + 1) k) t s) c'
      else (t, c)
  | CtxR p k s c' =>
      if is_ij k s t 0 1 then balance_up (Node p (set_rank (c_rank k + 1) k) s t) c'
      else (t, c)
  end.

Definition crank c : Z :=
  match c with CTop => -1 | CtxL _ k _ _ | CtxR _ k _ _ => c_rank k end.

Definition child t (s : ravl_slot_type) : tree A :=
  match t, s with
  | Node _ _ l _, RAVL_LEFT => l
  | Node _ _ _ r, RAVL_RIGHT => r
  | _, _ => Null
  end.

(** The rotations that end [ravl_balance], as one case per side. *)
Definition balance_rotate t c : tree A :=
  if negb ((crank c - trank t =? 0) && (1 <? crank c - trank (csibling c)))
  then plug c t
  else match c, t with
  | CtxL y ky s c', Node n kn l z =>
      if (match z with Null => true | Node _ kz _ _ => c_rank kn - c_rank kz =? 2 end)
      then plug c' (Node n kn l (Node y (set_rank (c_rank ky - 1) ky) z s))
      else match z with
      | Node az kz zl zr =>
          if c_rank kn - c_rank kz =? 1 then
            plug c' (Node az (set_rank (c_rank kz + 1) kz)
                      (Node n (set_rank (c_rank kn - 1) kn) l zl)
                      (Node y (set_rank (c_rank ky - 1) ky) zr s))
          else plug c t
      | Null => plug c t
      end
  | CtxR y ky s c', Node n kn z r =>
      if (match z with Null => true | Node _ kz _ _ => c_rank kn - c_rank kz =? 2 end)
      then plug c' (Node n kn (Node y (set_rank (c_rank ky - 1) ky) s z) r)
      else match z with
      | Node az kz zl zr =>
          if c_rank kn - c_rank kz =? 1 then
            plug c' (Node az (set_rank (c_rank kz + 1) kz)
                      (Node y (set_rank (c_rank ky - 1) ky) s zl)
                      (Node n (set_rank (c_rank kn - 1) kn) zr r))
          else plug c t
      | Null => plug c t
      end
  | _, _ => plug c t
  end.

Definition balance t c : tree A :=
  let '(t', c') := balance_up t c in balance_rotate t' c'.

(** Removal: the focused node is replaced by its only child, or takes over
    the datum of its successor, which is unlinked instead. *)
Fixpoint leftmost t : option (Z * cell A) :=
  match t with
  | Null => None
  | Node a k l _ => match leftmost l with Some x => Some x | None => Some (a, k) end
  end.
Fixpoint unlink_leftmost t : tree A :=
  match t with
  | Null => Null
  | Node a k Null r => r
  | Node a k l r => Node a k (unlink_leftmost l) r
  end.
Definition set_data (d : A) k : cell A := Cell (c_rank k) (c_pb k) d.
Definition remove_focus a k l r : tree A :=
  match l, r with
  | Node _ _ _ _, Node _ _ _ _ =>
      match leftmost r with
      | Some (_, ks) => Node a (set_data (c_data ks) k) l (unlink_leftmost r)
      | None => Null
      end
  | Node _ _ _ _, Null => l
  | Null, _ => r
  end.
End Ops.

(** ** Facts about the functional operations *)

Section OpsFacts.
Context {A : Type}.
Implicit Types (t l r : tree A) (c : ctx A) (k : cell A).

Lemma inorder_balance_up t c :
  let '(t', c') := balance_up t c in inorder (plug c' t') = inorder (plug c t).
Proof.
  revert t. induction c as [|p k s c IH|p k s c IH]; intros t; simpl; [done| |].
  - destruct (is_ij k t s 0 1); [|done].
    specialize (IH (Node p (set_rank (c_rank k + 1) k) t s)).
    destruct (balance_up _ c) as [t' c']. rewrite IH, !inorder_plug. by simpl.
  - destruct (is_ij k s t 0 1); [|done].
    specialize (IH (Node p (set_rank (c_rank k + 1) k) s t)).
    destruct (balance_up _ c) as [t' c']. rewrite IH, !inorder_plug. by simpl.
Qed.

Lemma inorder_balance_rotate t c :
  inorder (balance_rotate t c) = inorder (plug c t).
Proof.
  unfold balance_rotate. destruct (negb _); [done|].
  destruct c as [|y ky s c'|y ky s c'], t as [|n kn l r]; try done.
  - destruct r as [|az kz zl zr]; [|destruct (_ =? 2); [|destruct (_ =? 1); [|done]]];
      rewrite !inorder_plug; simpl; by repeat (rewrite <- app_assoc; simpl).
  - destruct l as [|az kz zl zr]; [|destruct (_ =? 2); [|destruct (_ =? 1); [|done]]];
      rewrite !inorder_plug; simpl; by repeat (rewrite <- app_assoc; simpl).
Qed.

Lemma inorder_balance t c : inorder (balance t c) = inorder (plug c t).
Proof.
  unfold balance. pose proof (inorder_balance_up t c) as Hu.
  destruct (balance_up t c) as [t' c']. by rewrite inorder_balance_rotate.
Qed.

(** A node the upward loop may stop at: a fresh leaf, or a node whose
    children are at rank differences 1 and 2. *)
Definition stop_shape t : Prop :=
  match t with
  | Null => False
  | Node _ k l r =>
      (c_rank k = 0 /\ l = Null /\ r = Null) \/
      (c_rank k - trank l = 1 /\ c_rank k - trank r = 2) \/
      (c_rank k - trank l = 2 /\ c_rank k - trank r = 1)
  end.

Lemma is_ij_spec k l r i j :
  is_ij k l r i j = true <->
  (c_rank k - trank l = i /\ c_rank k - trank r = j) \/
  (c_rank k - trank l = j /\ c_rank k - trank r = i).
Proof.
  unfold is_ij, is_i_j. rewrite orb_true_iff, !andb_true_iff, !Z.eqb_eq. done.
Qed.

Lemma balance_up_ok t c :
  ranks_ok t -> stop_shape t -> ctx_ranks_weak (trank t) c ->
  let '(t', c') := balance_up t c in
  ranks_ok t' /\ stop_shape t' /\ ctx_ranks_weak (trank t') c' /\
  match c' with
  | CTop => True
  | CtxL _ k s _ => is_ij k t' s 0 1 = false
  | CtxR _ k s _ => is_ij k s t' 0 1 = false
  end.
Proof.
  revert t. induction c as [|p k s c IH|p k s c IH]; intros t Ht Hs Hc; simpl.
  - done.
  - destruct (is_ij k t s 0 1) eqn:E; [|done].
    apply is_ij_spec in E. simpl in Hc. destruct Hc as (H1 & H2 & H3 & H4).
    apply IH; simpl; [split_and!; auto; lia| |].
    + right. lia.
    + destruct c; simpl in *; [done| |]; destruct H4 as (? & ? & ? & ?);
        (split_and!; auto; lia).
  - destruct (is_ij k s t 0 1) eqn:E; [|done].
    apply is_ij_spec in E. simpl in Hc. destruct Hc as (H1 & H2 & H3 & H4).
    apply IH; simpl; [split_and!; auto; lia| |].
    + right. lia.
    + destruct c; simpl in *; [done| |]; destruct H4 as (? & ? & ? & ?);
        (split_and!; auto; lia).
Qed.
End OpsFacts.

Section BalanceOk.
Context {A : Type}.
Implicit Types (t l r : tree A) (c : ctx A) (k : cell A).

(** The rotation step restores the rank rule. *)
Lemma balance_rotate_ok t c :
  ranks_ok t -> stop_shape t -> ctx_ranks_weak (trank t) c ->
  match c with
  | CTop => True
  | CtxL _ k s _ => is_ij k t s 0 1 = false
  | CtxR _ k s _ => is_ij k s t 0 1 = false
  end ->
  ranks_ok (balance_rotate t c).
Proof.
  intros Ht Hs Hc Hij. unfold balance_rotate.
  destruct t as [|n kn l r]; [done|].
  destruct c as [|y ky s c'|y ky s c']; [by destruct (negb _)| |];
    simpl in Hc; destruct Hc as (H1 & H2 & H3 & H4);
    apply not_true_iff_false in Hij; rewrite is_ij_spec in Hij; simpl in *;
    destruct Ht as (Hl & Hr & Hokl & Hokr);
    pose proof (trank_ge _ H3); pose proof (trank_ge _ Hokl);
    pose proof (trank_ge _ Hokr).
  - destruct (Z.eqb_spec (c_rank ky - c_rank kn) 0) as [E|E]; simpl;
      [destruct (Z.ltb_spec 1 (c_rank ky - trank s)) as [E2|E2]; simpl|].
    + destruct r as [|az kz zl zr]; simpl in *.
      { rewrite ranks_plug. simpl. split_and!; auto; try lia.
        replace (c_rank kn) with (c_rank ky) by lia. done. }
      destruct Hokr as (Hz1 & Hz2 & Hz3 & Hz4).
      destruct (Z.eqb_spec (c_rank kn - c_rank kz) 2).
      { rewrite ranks_plug. simpl. split_and!; auto; try lia.
        replace (c_rank kn) with (c_rank ky) by lia. done. }
      destruct (Z.eqb_spec (c_rank kn - c_rank kz) 1);
        [|exfalso; by destruct Hs as [(? & ? & ?)|[?|?]]; [|lia|lia]].
      rewrite ranks_plug. simpl. split_and!; auto; try lia.
      replace (c_rank kz + 1) with (c_rank ky) by lia. done.
    + exfalso. lia.
    + rewrite ranks_plug. simpl. split_and!; auto; lia.
  - destruct (Z.eqb_spec (c_rank ky - c_rank kn) 0) as [E|E]; simpl;
      [destruct (Z.ltb_spec 1 (c_rank ky - trank s)) as [E2|E2]; simpl|].
    + destruct l as [|az kz zl zr]; simpl in *.
      { rewrite ranks_plug. simpl. split_and!; auto; try lia.
        replace (c_rank kn) with (c_rank ky) by lia. done. }
      destruct Hokl as (Hz1 & Hz2 & Hz3 & Hz4).
      destruct (Z.eqb_spec (c_rank kn - c_rank kz) 2).
      { rewrite ranks_plug. simpl. split_and!; auto; try lia.
        replace (c_rank kn) with (c_rank ky) by lia. done. }
      destruct (Z.eqb_spec (c_rank kn - c_rank kz) 1);
        [|exfalso; by destruct Hs as [(? & ? & ?)|[?|?]]; [|lia|lia]].
      rewrite ranks_plug. simpl. split_and!; auto; try lia.
      replace (c_rank kz + 1) with (c_rank ky) by lia. done.
    + exfalso. lia.
    + rewrite ranks_plug. simpl. split_and!; auto; lia.
Qed.

Lemma balance_ok t c :
  ranks_ok t -> stop_shape t -> ctx_ranks_weak (trank t) c -> ranks_ok (balance t c).
Proof.
  intros Ht Hs Hc. unfold balance. pose proof (balance_up_ok _ _ Ht Hs Hc) as Hu.
  destruct (balance_up t c) as [t' c']. destruct Hu as (? & ? & ? & ?).
  by apply balance_rotate_ok.
Qed.

(** Removal. *)
Lemma leftmost_inorder t :
  (fun x => (x.1, c_data x.2)) <$> leftmost t = head (inorder t).
Proof.
  induction t as [|a k l IHl r IHr]; simpl; [done|].
  destruct (leftmost l) as [x|]; simpl in *.
  - destruct (inorder l); simpl in *; [done|]. done.
  - destruct (inorder l); simpl in *; [done|done].
Qed.

Lemma unlink_leftmost_node a k l r :
  troot l <> None -> unlink_leftmost (Node a k l r) = Node a k (unlink_leftmost l) r.
Proof. by destruct l. Qed.

Lemma inorder_unlink_leftmost t : inorder (unlink_leftmost t) = tail (inorder t).
Proof.
  induction t as [|a k l IHl r IHr]; [done|].
  destruct (decide (troot l = None)) as [Hn|Hn]; [by destruct l|].
  rewrite unlink_leftmost_node by done. simpl. rewrite IHl. destruct l as [|b kb ll lr]; [done|].
  destruct (inorder (Node b kb ll lr)) eqn:E; [|done].
  simpl in E. by destruct (inorder ll).
Qed.

Lemma trank_unlink_leftmost t :
  ranks_ok t -> ranks_ok (unlink_leftmost t) /\ trank (unlink_leftmost t) <= trank t.
Proof.
  induction t as [|a k l IHl r IHr]; [done|]. intros (H1 & H2 & H3 & H4).
  destruct (decide (troot l = None)) as [Hn|Hn].
  - destruct l; [|done]. pose proof (trank_ge _ H4). simpl. split; [done|lia].
  - rewrite unlink_leftmost_node by done. destruct (IHl H3) as [Ha Hb].
    simpl. split_and!; auto; lia.
Qed.

Lemma remove_focus_ok a k l r :
  ranks_ok (Node a k l r) ->
  ranks_ok (remove_focus a k l r) /\ trank (remove_focus a k l r) <= c_rank k.
Proof.
  intros (H1 & H2 & H3 & H4). unfold remove_focus.
  pose proof (trank_ge _ H3). pose proof (trank_ge _ H4).
  destruct l as [|al kl ll lr]; [split; [done|lia]|].
  destruct r as [|ar kr rl rr]; [split; [done|lia]|].
  destruct (trank_unlink_leftmost _ H4) as [Ha Hb].
  destruct (leftmost (Node ar kr rl rr)) as [[as_ ks]|]; [|simpl; split; [done|lia]].
  change (trank (Node ar kr rl rr)) with (c_rank kr) in *.
  split; [|simpl; lia]. split_and!; simpl c_rank; auto; lia.
Qed.

Lemma ctx_ranks_mono z z' c : z' <= z -> ctx_ranks_ok z c -> ctx_ranks_ok z' c.
Proof. destruct c; simpl; [done| |]; intros ? (? & ? & ? & ?); split_and!; auto; lia. Qed.
End BalanceOk.
