(* ===== verification/RavlOps.v ===== *)
(** * The pointer programs of [Ravl] implement the trees of [RavlTree]

    One lemma per function of ravl.c: run on a heap that holds a zipper, the
    function terminates without undefined behaviour, returns what the
    functional definition says and leaves a heap that holds the resulting
    tree.

    The functions on represented trees: balancing, insertion, search and
    removal. *)

From S2P Require Import Prelude HostMem Ravl RavlTree.
From stdpp Require Import strings.
#[local] Open Scope Z_scope.

Lemma NoDup_perm {T} (L L' : list T) : L ≡ₚ L' -> NoDup L -> NoDup L'.
Proof. by intros <-. Qed.

(** Atomic facts of a [NoDup] hypothesis on explicit lists. *)
Ltac nodup_split := repeat match goal with
  | H : NoDup (_ :: _) |- _ => apply NoDup_cons in H as [? ?]
  | H : _ ∉ _ :: _ |- _ => apply not_elem_of_cons in H as [? ?]
  | H : _ ∉ _ ++ _ |- _ => apply not_elem_of_app in H as [? ?]
  end.

Section Refine.
Context {H A : Type} `{HostAlloc H}.
Implicit Types (t l r : tree A) (c : ctx A) (k : cell A) (s : rstate H A).

Definition zip_at s t c : Prop :=
  tree_at (nodes (r_ravl s)) (caddr c) t /\
  ctx_at (nodes (r_ravl s)) (troot t) c /\
  root (r_ravl s) = ctop c (troot t) /\
  NoDup (addrs t ++ caddrs c).

(** What an operation that neither allocates nor frees leaves alone. *)
Definition same_frame s s' : Prop :=
  self (r_ravl s') = self (r_ravl s) /\
  data_size (r_ravl s') = data_size (r_ravl s) /\
  node_tag (r_ravl s') = node_tag (r_ravl s) /\
  r_host s' = r_host s /\
  dom (nodes (r_ravl s')) = dom (nodes (r_ravl s)).

Lemma same_frame_refl s : same_frame s s.
Proof. done. Qed.

Lemma same_frame_trans s1 s2 s3 : same_frame s1 s2 -> same_frame s2 s3 -> same_frame s1 s3.
Proof. unfold same_frame. intuition congruence. Qed.

Lemma wp_load s a n (Q : ravl_node A -> rstate H A -> Prop) :
  nodes (r_ravl s) !! a = Some n -> Q n s -> wp (load a) Q s.
Proof. intros Hl HQ. unfold load. wp_step. by eapply wp_of_option. Qed.

Lemma wp_update s a n f (Q : unit -> rstate H A -> Prop) :
  nodes (r_ravl s) !! a = Some n ->
  Q tt (with_nodes (<[a := f n]> (nodes (r_ravl s))) s) -> wp (update a f) Q s.
Proof. intros Hl HQ. unfold update. apply wp_bind. by eapply wp_load, wp_modify. Qed.

Lemma zip_up_l s t a k r c : zip_at s t (CtxL a k r c) <-> zip_at s (Node a k t r) c.
Proof.
  unfold zip_at. simpl. split.
  - intros (Z1 & ((n & Zn & Z2) & Z3 & Z4) & Z5 & Z6). simplify_eq. split_and!; auto.
    revert Z6. apply NoDup_perm. solve_Permutation.
  - intros ((Z2 & Z1 & Z3) & Z4 & Z5 & Z6). split_and!; eauto.
    revert Z6. apply NoDup_perm. solve_Permutation.
Qed.

Lemma zip_up_r s t a k l c : zip_at s t (CtxR a k l c) <-> zip_at s (Node a k l t) c.
Proof.
  unfold zip_at. simpl. split.
  - intros (Z1 & ((n & Zn & Z2) & Z3 & Z4) & Z5 & Z6). simplify_eq. split_and!; auto.
    revert Z6. apply NoDup_perm. solve_Permutation.
  - intros ((Z2 & Z1 & Z3) & Z4 & Z5 & Z6). split_and!; eauto.
    revert Z6. apply NoDup_perm. solve_Permutation.
Qed.

Definition zip_close_l s t a k r c := proj1 (zip_up_l s t a k r c).
Definition zip_open_l s t a k r c := proj2 (zip_up_l s t a k r c).
Definition zip_close_r s t a k l c := proj1 (zip_up_r s t a k l c).
Definition zip_open_r s t a k l c := proj2 (zip_up_r s t a k l c).

Lemma zip_plug s t c : zip_at s t c <-> zip_at s (plug c t) CTop.
Proof.
  revert t. induction c as [|a k r c IH|a k l c IH]; intros t; simpl; [done| |].
  - rewrite zip_up_l. apply IH.
  - rewrite zip_up_r. apply IH.
Qed.

Definition zip_plugged s t c := proj1 (zip_plug s t c).
Definition zip_unplugged s t c := proj2 (zip_plug s t c).

Lemma zip_loop_bound s t c :
  zip_at s t c -> (length (addrs t ++ caddrs c) <= size (nodes (r_ravl s)))%nat.
Proof.
  intros Hz. apply heap_bound; [apply Hz|]. intros a Ha.
  rewrite <- addrs_plug in Ha. apply zip_plug in Hz as (Ht & _).
  by eapply tree_at_lookup.
Qed.

(** ** Reading *)

Lemma wp_load_focus s a k l r c (Q : ravl_node A -> rstate H A -> Prop) :
  zip_at s (Node a k l r) c -> Q (heap_node (caddr c) k l r) s -> wp (load a) Q s.
Proof. intros (Ht & _). apply wp_load. apply Ht. Qed.

Lemma wp_load_ctx s t c p n (Q : ravl_node A -> rstate H A -> Prop) :
  zip_at s t c -> ctx_node c (troot t) = Some (p, n) -> Q n s -> wp (load p) Q s.
Proof.
  intros (_ & Hc & _) Hn. apply wp_load.
  destruct c; simpl in *; [done| |]; destruct Hc as ((x & Hx & Hl) & _); by simplify_eq.
Qed.

Lemma troot_csibling s a k l r c :
  zip_at s (Node a k l r) c -> troot (csibling c) <> Some a.
Proof.
  intros (_ & _ & _ & Hnd). destruct c as [|p kp t c|p kp t c]; [done| |];
    (destruct t as [|b kb tl tr]; [done|]; simpl in *; intros [= ->];
     nodup_split; done).
Qed.

Lemma wp_slot_type s a k l r c (Q : ravl_slot_type -> rstate H A -> Prop) :
  zip_at s (Node a k l r) c -> Q (cside c) s -> wp (ravl_node_slot_type a) Q s.
Proof.
  intros Hz HQ. unfold ravl_node_slot_type. apply wp_bind.
  eapply wp_load_focus; [done|]. simpl. pose proof (troot_csibling _ _ _ _ _ _ Hz).
  destruct c as [|p kp t c|p kp t c]; simpl in *; [by apply wp_ret| |];
    (apply wp_bind; eapply wp_load_ctx; [done|done|]; simpl; apply wp_ret;
     by case_decide).
Qed.

Lemma wp_sibling s a k l r c (Q : option Z -> rstate H A -> Prop) :
  zip_at s (Node a k l r) c -> Q (troot (csibling c)) s -> wp (ravl_node_sibling a) Q s.
Proof.
  intros Hz HQ. unfold ravl_node_sibling. apply wp_bind.
  eapply wp_slot_type; [done|].
  destruct c as [|p kp t c|p kp t c]; simpl in *; [by apply wp_ret| |];
    (apply wp_bind; eapply wp_load_focus; [done|]; simpl; wp_step;
     apply wp_bind; eapply wp_load_ctx; [done|done|]; by apply wp_ret).
Qed.

Definition cref c : node_ref :=
  match c with
  | CTop => RefRoot
  | CtxL a _ _ _ => RefSlot a RAVL_LEFT
  | CtxR a _ _ _ => RefSlot a RAVL_RIGHT
  end.

Lemma wp_node_ref s a k l r c (Q : node_ref -> rstate H A -> Prop) :
  zip_at s (Node a k l r) c -> Q (cref c) s -> wp (ravl_node_ref a) Q s.
Proof.
  intros Hz HQ. unfold ravl_node_ref. apply wp_bind.
  eapply wp_slot_type; [done|].
  destruct c as [|p kp t c|p kp t c]; simpl in *; [by apply wp_ret| |];
    (apply wp_bind; eapply wp_load_focus; [done|]; simpl; wp_step;
     by apply wp_ret).
Qed.

(** ** Rotation *)

Ltac lk := simpl; repeat first
  [ rewrite lookup_insert_eq; reflexivity
  | rewrite lookup_insert_ne by congruence
  | eassumption ].
Ltac frame := repeat (first [apply tree_at_insert | apply ctx_at_insert]; [assumption|]);
  assumption.
Ltac upd := lazymatch goal with
  | |- wp (update _ _ ≫= _) _ _ => eapply wp_bind, wp_update; [lk|]; simpl
  | |- wp (update _ _) _ _ => eapply wp_update; [lk|]; simpl
  | |- wp (load _ ≫= _) _ _ => eapply wp_bind, wp_load; [lk|]; simpl
  | |- wp (mret _ ≫= _) _ _ => apply wp_bind, wp_ret; simpl
  | |- wp (modify _ ≫= _) _ _ => apply wp_bind, wp_modify; simpl
  end.
Ltac domeq := simpl; rewrite ?dom_insert_lookup_L by (try (eexists; lk)); try reflexivity.

Ltac destruct_ex := repeat match goal with
  | X : exists _, _ |- _ => destruct X as (? & ? & ?)
  end; simplify_eq/=.

(** Runs the seven stores of a rotation on an explicit heap; [L] lists the
    addresses they touch, [rest] those of the untouched subtrees. *)
Ltac rot_case Hnd HQ L rest :=
  assert (NoDup (L ++ rest)) as Hnd'
    by (revert Hnd; apply NoDup_perm; simpl; solve_Permutation);
  pose proof (fun _ : unit => Hnd) as Hkeep;
  simpl in Hnd'; nodup_split; destruct_and?; simplify_eq/=;
  repeat upd;
  apply HQ;
  [ unfold zip_at; simpl; split_and!; try (eexists; split; [reflexivity|]);
    first [done | solve [lk] | solve [frame] | (refine (NoDup_perm _ _ _ (Hkeep tt)); simpl; solve_Permutation) | idtac]
  | unfold same_frame; simpl; split_and!; [done..|]; domeq ].

Lemma wp_rotate s a k l r c (Q : unit -> rstate H A -> Prop) :
  zip_at s (Node a k l r) c -> c <> CTop ->
  (forall s', let '(t', c') := tree_rotate (Node a k l r) c in
    zip_at s' t' c' -> same_frame s s' -> Q tt s') ->
  wp (ravl_rotate a) Q s.
Proof.
  intros Hz Hc HQ. unfold ravl_rotate.
  apply wp_bind. eapply wp_load_focus; [done|]. simpl.
  destruct c as [|p kp sb c|p kp sb c]; [done| |]; clear Hc; simpl.
  - wp_step. apply wp_bind.
    eapply wp_node_ref; [exact (zip_close_l _ _ _ _ _ _ Hz)|].
    apply wp_bind. eapply wp_slot_type; [done|].
    apply wp_bind. unfold ravl_slot_opposite. wp_step; [done|]. wp_step. simpl.
    apply wp_bind. eapply wp_load_ctx; [done|done|]. simpl.
    destruct Hz as ((Ha & Hl & Hr) & ((n & Hn & Hp) & Hsb & Hct) & Hroot & Hnd).
    destruct c as [|g kg tg c|g kg tg c]; destruct r as [|m km rl rr]; simpl in *;
      destruct_and?; destruct_ex.
    + rot_case Hnd HQ [a; p] (addrs l ++ addrs sb).
    + rot_case Hnd HQ [a; p; m] (addrs l ++ addrs rl ++ addrs rr ++ addrs sb).
    + rot_case Hnd HQ [a; p; g] (addrs l ++ addrs sb ++ addrs tg ++ caddrs c).
    + rot_case Hnd HQ [a; p; g; m]
        (addrs l ++ addrs rl ++ addrs rr ++ addrs sb ++ addrs tg ++ caddrs c).
    + rot_case Hnd HQ [a; p; g] (addrs l ++ addrs sb ++ addrs tg ++ caddrs c).
    + rot_case Hnd HQ [a; p; g; m]
        (addrs l ++ addrs rl ++ addrs rr ++ addrs sb ++ addrs tg ++ caddrs c).
  - wp_step. apply wp_bind.
    eapply wp_node_ref; [exact (zip_close_r _ _ _ _ _ _ Hz)|].
    apply wp_bind. eapply wp_slot_type; [done|].
    apply wp_bind. unfold ravl_slot_opposite. wp_step; [done|]. wp_step. simpl.
    apply wp_bind. eapply wp_load_ctx; [done|done|]. simpl.
    destruct Hz as ((Ha & Hl & Hr) & ((n & Hn & Hp) & Hsb & Hct) & Hroot & Hnd).
    destruct c as [|g kg tg c|g kg tg c]; destruct l as [|m km ll lr]; simpl in *;
      destruct_and?; destruct_ex.
    + rot_case Hnd HQ [a; p] (addrs r ++ addrs sb).
    + rot_case Hnd HQ [a; p; m] (addrs r ++ addrs ll ++ addrs lr ++ addrs sb).
    + rot_case Hnd HQ [a; p; g] (addrs r ++ addrs sb ++ addrs tg ++ caddrs c).
    + rot_case Hnd HQ [a; p; g; m]
        (addrs r ++ addrs ll ++ addrs lr ++ addrs sb ++ addrs tg ++ caddrs c).
    + rot_case Hnd HQ [a; p; g] (addrs r ++ addrs sb ++ addrs tg ++ caddrs c).
    + rot_case Hnd HQ [a; p; g; m]
        (addrs r ++ addrs ll ++ addrs lr ++ addrs sb ++ addrs tg ++ caddrs c).
Qed.
End Refine.

(** Chains the frame facts of consecutive steps. *)
Ltac sframe := match goal with
  | X : same_frame ?s ?s1 |- same_frame ?s ?s1 => exact X
  | X : same_frame ?s ?s1 |- same_frame ?s _ =>
      apply (same_frame_trans _ _ _ X); clear X; sframe
  end.

Section Balance.
Context {H A : Type} `{HostAlloc H}.
Implicit Types (t l r : tree A) (c : ctx A) (k : cell A) (s : rstate H A).

(** ** Ranks and balancing *)

Definition rank_of s (p : option Z) (z : Z) : Prop :=
  match p with
  | None => z = -1
  | Some a => exists n, nodes (r_ravl s) !! a = Some n /\ rank n = z
  end.

Lemma rank_of_tree s p t : tree_at (nodes (r_ravl s)) p t -> rank_of s (troot t) (trank t).
Proof. destruct t; simpl; [done|]. intros (Ha & _). by eexists. Qed.

Lemma rank_of_ctx s t c : zip_at s t c -> rank_of s (caddr c) (crank c).
Proof.
  intros (_ & Hc & _). destruct c; simpl in *; [done| |];
    destruct Hc as ((n & Hn & Hl) & _); simplify_eq; by eexists.
Qed.

Lemma rank_of_sibling s t c : zip_at s t c -> rank_of s (troot (csibling c)) (trank (csibling c)).
Proof.
  intros (_ & Hc & _). destruct c; simpl in *; [done| |]; by eapply rank_of_tree, Hc.
Qed.

Lemma wp_rank s p z (Q : Z -> rstate H A -> Prop) :
  rank_of s p z -> Q z s -> wp (ravl_node_rank p) Q s.
Proof.
  destruct p as [a|]; simpl; [|by intros ->; apply wp_ret].
  intros (n & Hn & <-) HQ. apply wp_bind. eapply wp_load; [done|]. by apply wp_ret.
Qed.

Lemma wp_rank_diff_parent s p n zp zn (Q : Z -> rstate H A -> Prop) :
  rank_of s p zp -> rank_of s n zn -> -1 <= zn -> Q (zp - zn) s ->
  wp (ravl_node_rank_difference_parent p n) Q s.
Proof.
  intros Hp Hn Hz HQ. unfold ravl_node_rank_difference_parent.
  apply wp_bind. eapply wp_rank; [done|]. apply wp_bind. eapply wp_rank; [done|].
  wp_step; [lia|]. by apply wp_ret.
Qed.

Lemma wp_rank_diff s a k l r c (Q : Z -> rstate H A -> Prop) :
  zip_at s (Node a k l r) c -> -1 <= c_rank k -> Q (crank c - c_rank k) s ->
  wp (ravl_node_rank_difference a) Q s.
Proof.
  intros Hz Hk HQ. unfold ravl_node_rank_difference.
  apply wp_bind. eapply wp_load_focus; [done|]. simpl.
  eapply wp_rank_diff_parent; [by eapply rank_of_ctx| |done|done].
  by eapply (rank_of_tree _ _ (Node a k l r)), Hz.
Qed.

Lemma wp_is_i_j s a k l r c i j (Q : bool -> rstate H A -> Prop) :
  zip_at s (Node a k l r) c -> -1 <= trank l -> -1 <= trank r ->
  Q (is_i_j k l r i j) s -> wp (ravl_node_is_i_j a i j) Q s.
Proof.
  intros Hz Hl Hr HQ. unfold ravl_node_is_i_j, is_i_j in *.
  apply wp_bind. eapply wp_load_focus; [done|]. simpl.
  destruct Hz as (Ht & _). pose proof Ht as (_ & Htl & Htr).
  pose proof (rank_of_tree _ _ _ Ht). apply wp_bind.
  eapply wp_rank_diff_parent; [done|by eapply rank_of_tree|done|]. simpl.
  destruct (_ =? i); simpl in *; [|by apply wp_ret].
  apply wp_bind. eapply wp_rank_diff_parent; [done|by eapply rank_of_tree|done|].
  by apply wp_ret.
Qed.

Lemma wp_is s a k l r c i j (Q : bool -> rstate H A -> Prop) :
  zip_at s (Node a k l r) c -> -1 <= trank l -> -1 <= trank r ->
  Q (is_ij k l r i j) s -> wp (ravl_node_is a i j) Q s.
Proof.
  intros Hz Hl Hr HQ. unfold ravl_node_is, is_ij in *.
  apply wp_bind. eapply wp_is_i_j; [done..|].
  destruct (is_i_j k l r i j); simpl in *; [by apply wp_ret|].
  by eapply wp_is_i_j.
Qed.

Lemma zip_update_focus s a k k' l r c :
  zip_at s (Node a k l r) c ->
  let s' := with_nodes (<[a := heap_node (caddr c) k' l r]> (nodes (r_ravl s))) s in
  zip_at s' (Node a k' l r) c /\ same_frame s s'.
Proof.
  intros ((Ha & Hl & Hr) & Hc & Hroot & Hnd). simpl. unfold zip_at. simpl.
  pose proof Hnd as Hnd'. simpl in Hnd'. nodup_split. split.
  - split_and!; auto using tree_at_insert, ctx_at_insert. by rewrite lookup_insert_eq.
  - split_and!; simpl; auto. by rewrite dom_insert_lookup_L by (by eexists).
Qed.

Lemma wp_update_focus s a k l r c f k' (Q : unit -> rstate H A -> Prop) :
  zip_at s (Node a k l r) c -> f (heap_node (caddr c) k l r) = heap_node (caddr c) k' l r ->
  (forall s', zip_at s' (Node a k' l r) c -> same_frame s s' -> Q tt s') ->
  wp (update a f) Q s.
Proof.
  intros Hz Hf HQ. eapply wp_update; [apply Hz|]. rewrite Hf.
  destruct (zip_update_focus _ _ _ k' _ _ _ Hz). by apply HQ.
Qed.

Lemma wp_promote s a k l r c (Q : unit -> rstate H A -> Prop) :
  zip_at s (Node a k l r) c ->
  (forall s', zip_at s' (Node a (set_rank (c_rank k + 1) k) l r) c -> same_frame s s' -> Q tt s') ->
  wp (ravl_node_promote a) Q s.
Proof. intros Hz. by apply (wp_update_focus _ _ _ _ _ _ _ _ _ Hz). Qed.

Lemma wp_demote s a k l r c (Q : unit -> rstate H A -> Prop) :
  zip_at s (Node a k l r) c -> 0 < c_rank k ->
  (forall s', zip_at s' (Node a (set_rank (c_rank k - 1) k) l r) c -> same_frame s s' -> Q tt s') ->
  wp (ravl_node_demote a) Q s.
Proof.
  intros Hz Hk HQ. unfold ravl_node_demote. apply wp_bind.
  eapply wp_load_focus; [done|]. wp_step; [simpl; lia|].
  eapply wp_update_focus; [exact Hz| |exact HQ]. done.
Qed.

Lemma wp_balance_up fuel s a k l r c (Q : Z -> rstate H A -> Prop) :
  zip_at s (Node a k l r) c -> (cdepth c < fuel)%nat ->
  ranks_ok (Node a k l r) -> ctx_ranks_weak (c_rank k) c ->
  (forall s' a' k' l' r' c',
     balance_up (Node a k l r) c = (Node a' k' l' r', c') ->
     zip_at s' (Node a' k' l' r') c' -> same_frame s s' -> Q a' s') ->
  wp (ravl_balance_up fuel a) Q s.
Proof.
  revert fuel s a k l r. induction c as [|p kp sb c IH|p kp sb c IH];
    intros fuel s a k l r Hz Hf Hok Hw HQ; (destruct fuel as [|fuel]; [lia|]);
    simpl in *; apply wp_bind; (eapply wp_load_focus; [done|]); simpl.
  - apply wp_ret. by eapply HQ.
  - destruct Hw as (Hw1 & Hw2 & Hw3 & Hw4). pose proof (trank_ge _ Hw3).
    pose proof (trank_ge (Node a k l r) Hok) as Hge. simpl in Hge.
    pose proof (zip_close_l _ _ _ _ _ _ Hz) as Hz'.
    apply wp_bind. eapply wp_is; [done|done|done|].
    destruct (is_ij kp (Node a k l r) sb 0 1) eqn:E;
      [|apply wp_ret; by eapply HQ].
    apply wp_bind. eapply wp_promote; [done|]. intros s1 Hz1 Hf1.
    apply is_ij_spec in E. simpl in E.
    eapply IH; [done|lia| | |].
    + simpl. destruct_and!. split_and!; auto; lia.
    + destruct c; simpl in *; [done| |]; destruct_and!; split_and!; auto; lia.
    + intros. eapply HQ; eauto using same_frame_trans.
  - destruct Hw as (Hw1 & Hw2 & Hw3 & Hw4). pose proof (trank_ge _ Hw3).
    pose proof (trank_ge (Node a k l r) Hok) as Hge. simpl in Hge.
    pose proof (zip_close_r _ _ _ _ _ _ Hz) as Hz'.
    apply wp_bind. eapply wp_is; [done|done|done|].
    destruct (is_ij kp sb (Node a k l r) 0 1) eqn:E;
      [|apply wp_ret; by eapply HQ].
    apply wp_bind. eapply wp_promote; [done|]. intros s1 Hz1 Hf1.
    apply is_ij_spec in E. simpl in E.
    eapply IH; [done|lia| | |].
    + simpl. destruct_and!. split_and!; auto; lia.
    + destruct c; simpl in *; [done| |]; destruct_and!; split_and!; auto; lia.
    + intros. eapply HQ; eauto using same_frame_trans.
Qed.

(** The double rotation and the single one, from the stopping node. *)
Lemma wp_single_l s n kn l z y ky sb c (Q : unit -> rstate H A -> Prop) :
  zip_at s (Node n kn l z) (CtxL y ky sb c) -> 0 < c_rank ky ->
  (forall s', zip_at s' (Node n kn l (Node y (set_rank (c_rank ky - 1) ky) z sb)) c ->
     same_frame s s' -> Q tt s') ->
  wp (ravl_rotate n;; ravl_node_demote y) Q s.
Proof.
  intros Hz Hk HQ. apply wp_bind. eapply wp_rotate; [done|done|]. simpl.
  intros s1 Hz1 Hf1. apply zip_open_r in Hz1. eapply wp_demote; [done|done|].
  intros s2 Hz2 Hf2. apply zip_close_r in Hz2. apply HQ; [done|sframe].
Qed.

Lemma wp_single_r s n kn z r y ky sb c (Q : unit -> rstate H A -> Prop) :
  zip_at s (Node n kn z r) (CtxR y ky sb c) -> 0 < c_rank ky ->
  (forall s', zip_at s' (Node n kn (Node y (set_rank (c_rank ky - 1) ky) sb z) r) c ->
     same_frame s s' -> Q tt s') ->
  wp (ravl_rotate n;; ravl_node_demote y) Q s.
Proof.
  intros Hz Hk HQ. apply wp_bind. eapply wp_rotate; [done|done|]. simpl.
  intros s1 Hz1 Hf1. apply zip_open_l in Hz1. eapply wp_demote; [done|done|].
  intros s2 Hz2 Hf2. apply zip_close_l in Hz2. apply HQ; [done|sframe].
Qed.

Definition double_prog (z n y : Z) : M (rstate H A) unit :=
  ravl_rotate z;; ravl_rotate z;; ravl_node_promote z;;
  ravl_node_demote n;; ravl_node_demote y.

Lemma wp_double_l s n kn l az kz zl zr y ky sb c (Q : unit -> rstate H A -> Prop) :
  zip_at s (Node n kn l (Node az kz zl zr)) (CtxL y ky sb c) ->
  0 < c_rank ky -> 0 < c_rank kn ->
  (forall s', zip_at s' (Node az (set_rank (c_rank kz + 1) kz)
                      (Node n (set_rank (c_rank kn - 1) kn) l zl)
                      (Node y (set_rank (c_rank ky - 1) ky) zr sb)) c ->
     same_frame s s' -> Q tt s') ->
  wp (double_prog az n y) Q s.
Proof.
  intros Hz Hk1 Hk2 HQ. unfold double_prog. apply zip_open_r in Hz.
  apply wp_bind. eapply wp_rotate; [done|done|]. simpl. intros s1 Hz1 Hf1.
  apply wp_bind. eapply wp_rotate; [done|done|]. simpl. intros s2 Hz2 Hf2.
  apply wp_bind. eapply wp_promote; [done|]. intros s3 Hz3 Hf3.
  apply zip_open_l in Hz3. apply wp_bind. eapply wp_demote; [done|done|].
  intros s4 Hz4 Hf4. apply zip_close_l, zip_open_r in Hz4.
  eapply wp_demote; [done|done|]. intros s5 Hz5 Hf5. apply zip_close_r in Hz5.
  apply HQ; [done|sframe].
Qed.

Lemma wp_double_r s n kn r az kz zl zr y ky sb c (Q : unit -> rstate H A -> Prop) :
  zip_at s (Node n kn (Node az kz zl zr) r) (CtxR y ky sb c) ->
  0 < c_rank ky -> 0 < c_rank kn ->
  (forall s', zip_at s' (Node az (set_rank (c_rank kz + 1) kz)
                      (Node y (set_rank (c_rank ky - 1) ky) sb zl)
                      (Node n (set_rank (c_rank kn - 1) kn) zr r)) c ->
     same_frame s s' -> Q tt s') ->
  wp (double_prog az n y) Q s.
Proof.
  intros Hz Hk1 Hk2 HQ. unfold double_prog. apply zip_open_l in Hz.
  apply wp_bind. eapply wp_rotate; [done|done|]. simpl. intros s1 Hz1 Hf1.
  apply wp_bind. eapply wp_rotate; [done|done|]. simpl. intros s2 Hz2 Hf2.
  apply wp_bind. eapply wp_promote; [done|]. intros s3 Hz3 Hf3.
  apply zip_open_r in Hz3. apply wp_bind. eapply wp_demote; [done|done|].
  intros s4 Hz4 Hf4. apply zip_close_r, zip_open_l in Hz4.
  eapply wp_demote; [done|done|]. intros s5 Hz5 Hf5. apply zip_close_l in Hz5.
  apply HQ; [done|sframe].
Qed.

Lemma trank_node_pos a k l r : ranks_ok (Node a k l r) -> 0 <= c_rank k.
Proof. intros (? & ? & Hl & _). pose proof (trank_ge _ Hl). lia. Qed.

Lemma wp_balance_rotate s a k l r c (Q : unit -> rstate H A -> Prop) :
  zip_at s (Node a k l r) c -> ranks_ok (Node a k l r) ->
  ranks_ok (csibling c) ->
  (forall s', zip_at s' (balance_rotate (Node a k l r) c) CTop -> same_frame s s' -> Q tt s') ->
  wp (ravl_balance_rotate a) Q s.
Proof.
  intros Hz Hok Hsib HQ. pose proof (trank_node_pos _ _ _ _ Hok) as Hk.
  pose proof (trank_ge _ Hsib). unfold ravl_balance_rotate.
  apply wp_bind. eapply wp_sibling; [done|].
  apply wp_bind. eapply wp_rank_diff; [done|lia|].
  apply wp_bind. eapply wp_load_focus; [done|]. simpl.
  apply wp_bind. unfold balance_rotate in HQ. simpl trank in HQ.
  destruct (Z.eqb_spec (crank c - c_rank k) 0) as [E|E]; simpl in *; cycle 1.
  { apply wp_ret, wp_ret, HQ; [by apply zip_plugged|done]. }
  apply wp_bind. eapply wp_rank_diff_parent;
    [by eapply rank_of_ctx|by eapply rank_of_sibling|lia|]. apply wp_ret.
  destruct (Z.ltb_spec 1 (crank c - trank (csibling c))) as [E2|E2]; simpl in *; cycle 1.
  { apply wp_ret, HQ; [by apply zip_plugged|done]. }
  apply wp_bind. eapply wp_slot_type; [done|]. apply wp_bind.
  unfold ravl_slot_opposite.
  destruct c as [|y ky sb c|y ky sb c]; simpl in *; [lia| |].
  - wp_step. apply wp_ret. simpl.
    destruct Hok as (_ & Hr & _ & Hokr). destruct r as [|az kz zl zr]; simpl in *.
    { eapply wp_single_l; [done|lia|]. intros s' Hz' Hf.
      apply HQ; [by apply zip_plugged|done]. }
    apply wp_bind. pose proof (zip_open_r _ _ _ _ _ _ Hz) as Hz'.
    pose proof (trank_node_pos az _ _ _ Hokr) as Hkz.
    eapply wp_rank_diff; [done|lia|]. simpl.
    destruct (Z.eqb_spec (c_rank k - c_rank kz) 2); simpl in *.
    { eapply wp_single_l; [done|lia|]. intros s' Hz2 Hf.
      apply HQ; [by apply zip_plugged|done]. }
    destruct (Z.eqb_spec (c_rank k - c_rank kz) 1); simpl in *.
    { eapply wp_double_l; [done|lia|lia|]. intros s' Hz2 Hf.
      apply HQ; [by apply zip_plugged|done]. }
    apply wp_ret, HQ; [by apply (zip_plugged _ _ (CtxL y ky sb c))|done].
  - wp_step. apply wp_ret. simpl.
    destruct Hok as (Hl & _ & Hokl & _). destruct l as [|az kz zl zr]; simpl in *.
    { eapply wp_single_r; [done|lia|]. intros s' Hz' Hf.
      apply HQ; [by apply zip_plugged|done]. }
    apply wp_bind. pose proof (zip_open_l _ _ _ _ _ _ Hz) as Hz'.
    pose proof (trank_node_pos az _ _ _ Hokl) as Hkz.
    eapply wp_rank_diff; [done|lia|]. simpl.
    destruct (Z.eqb_spec (c_rank k - c_rank kz) 2); simpl in *.
    { eapply wp_single_r; [done|lia|]. intros s' Hz2 Hf.
      apply HQ; [by apply zip_plugged|done]. }
    destruct (Z.eqb_spec (c_rank k - c_rank kz) 1); simpl in *.
    { eapply wp_double_r; [done|lia|lia|]. intros s' Hz2 Hf.
      apply HQ; [by apply zip_plugged|done]. }
    apply wp_ret, HQ; [by apply (zip_plugged _ _ (CtxR y ky sb c))|done].
Qed.

Lemma wp_balance s a k l r c (Q : unit -> rstate H A -> Prop) :
  zip_at s (Node a k l r) c -> ranks_ok (Node a k l r) -> stop_shape (Node a k l r) ->
  ctx_ranks_weak (c_rank k) c ->
  (forall s', zip_at s' (balance (Node a k l r) c) CTop -> same_frame s s' -> Q tt s') ->
  wp (ravl_balance a) Q s.
Proof.
  intros Hz Hok Hs Hw HQ. unfold ravl_balance, balance in *.
  apply wp_bind. unfold loop_bound. wp_step.
  pose proof (zip_loop_bound _ _ _ Hz) as Hb. rewrite length_app in Hb.
  pose proof (cdepth_caddrs c). pose proof (balance_up_ok _ _ Hok Hs Hw) as Hup.
  apply wp_bind. eapply wp_balance_up; [done|lia|done|done|].
  intros s1 a' k' l' r' c' E Hz1 Hf1. rewrite E in Hup, HQ.
  destruct Hup as (Hok' & _ & Hw' & _).
  eapply wp_balance_rotate; [done|done| |].
  { destruct c'; simpl in *; [done| |]; apply Hw'. }
  intros s2 Hz2 Hf2. apply HQ; [done|sframe].
Qed.
End Balance.
