(* ===== verification/RavlSpec.v ===== *)
(** * What the RAVL tree promises

    [ravl_rep s L] is the abstract view of a tree: [L] lists the address and
    the datum of every node in strictly increasing key order.  The theorems
    state every public operation of ravl.c on that view: insertion is sorted
    insertion, the five search predicates are searches in the list, successor
    and predecessor are the list neighbours, removal deletes one datum, the
    traversal visits the data in order, and the rank rule survives each. *)

From S2P Require Import Prelude HostMem Ravl RavlTree RavlOps.
From stdpp Require Import strings sorting.
#[local] Open Scope Z_scope.

(** [compare] orders the data by an integer key. *)
Class KeyCompare {A} (compare : A -> A -> Z) (key : A -> Z) : Prop :=
  compare_sign : forall a b, Z.sgn (compare a b) = Z.sgn (key a - key b).

Definition sorted {A} (key : A -> Z) (L : list (Z * A)) : Prop :=
  StronglySorted (fun p q => key p.2 < key q.2) L.

(** The searches of [ravl_find], on the list of nodes. *)
Definition find_eq {A} (key : A -> Z) (x : Z) (L : list (Z * A)) : option Z :=
  fst <$> head (filter (fun p => key p.2 = x) L).
Definition find_ge {A} (key : A -> Z) (x : Z) (L : list (Z * A)) : option Z :=
  fst <$> head (filter (fun p => x <= key p.2) L).
Definition find_gt {A} (key : A -> Z) (x : Z) (L : list (Z * A)) : option Z :=
  fst <$> head (filter (fun p => x < key p.2) L).
Definition find_le {A} (key : A -> Z) (x : Z) (L : list (Z * A)) : option Z :=
  fst <$> last (filter (fun p => key p.2 <= x) L).
Definition find_lt {A} (key : A -> Z) (x : Z) (L : list (Z * A)) : option Z :=
  fst <$> last (filter (fun p => key p.2 < x) L).

Section Rep.
Context {H A : Type} `{HostAllocLaws H}.
Variables (compare : A -> A -> Z) (key : A -> Z).
Context `{!KeyCompare compare key}.
Implicit Types (t l r : tree A) (c : ctx A) (k : cell A) (s : rstate H A).

Definition ravl_rep s (L : list (Z * A)) : Prop :=
  exists t, zip_at s t CTop /\ inorder t = L /\ sorted key L /\ ranks_ok t /\
    owned (node_tag (r_ravl s)) (nodes (r_ravl s)) (r_host s) /\
    (forall a, is_Some (nodes (r_ravl s) !! a) -> a ∈ addrs t).

(** ** Writing a reference *)

Lemma wp_write_ref s hole t c (Q : unit -> rstate H A -> Prop) :
  ctx_at (nodes (r_ravl s)) hole c ->
  tree_at (nodes (r_ravl s)) (caddr c) t -> NoDup (addrs t ++ caddrs c) ->
  root (r_ravl s) = ctop c hole ->
  (forall s', zip_at s' t c -> same_frame s s' -> Q tt s') ->
  wp (write_ref (cref c) (troot t)) Q s.
Proof.
  intros Hc Ht Hnd Hr HQ.
  pose proof (NoDup_app _ _ : NoDup (addrs t ++ caddrs c) <-> _) as [Hn _].
  specialize (Hn Hnd). destruct Hn as (_ & Hdis & Hndc).
  pose proof (ctx_at_reslot _ _ (troot t) _ Hndc Hc) as Hre.
  destruct c as [|p kp sb c|p kp sb c]; simpl in *.
  - apply wp_modify. apply HQ; [|done]. split_and!; simpl; auto.
  - destruct Hc as ((n & Hn & Hl) & Hsb & Hc). simplify_eq.
    eapply wp_update; [done|]. apply HQ.
    + unfold zip_at. simpl. split_and!; try apply Hre; auto.
      apply tree_at_insert; [|done]. intros Hp. apply (Hdis _ Hp). constructor.
    + split_and!; simpl; auto. by rewrite dom_insert_lookup_L by (by eexists).
  - destruct Hc as ((n & Hn & Hl) & Hsb & Hc). simplify_eq.
    eapply wp_update; [done|]. apply HQ.
    + unfold zip_at. simpl. split_and!; try apply Hre; auto.
      apply tree_at_insert; [|done]. intros Hp. apply (Hdis _ Hp). constructor.
    + split_and!; simpl; auto. by rewrite dom_insert_lookup_L by (by eexists).
Qed.

Lemma wp_read_ref s t c (Q : option Z -> rstate H A -> Prop) :
  zip_at s t c -> Q (troot t) s -> wp (read_ref (cref c)) Q s.
Proof.
  intros Hz HQ. destruct c as [|p kp sb c|p kp sb c]; simpl.
  - wp_step. apply wp_ret. destruct Hz as (_ & _ & -> & _). done.
  - apply wp_bind. eapply wp_load_ctx; [done|done|]. by apply wp_ret.
  - apply wp_bind. eapply wp_load_ctx; [done|done|]. by apply wp_ret.
Qed.

(** ** Insertion *)

Fixpoint walk (x : Z) t c : option (ctx A) :=
  match t with
  | Null => Some c
  | Node a k l r =>
      if x =? key (c_data k) then None
      else if key (c_data k) <? x then walk x r (CtxR a k l c) else walk x l (CtxL a k r c)
  end.

Lemma wp_walk fuel s n d t c (Q : option (node_ref * option Z) -> rstate H A -> Prop) :
  zip_at s t c -> data <$> nodes (r_ravl s) !! n = Some d -> (height t < fuel)%nat ->
  Q (match walk (key d) t c with Some c' => Some (cref c', caddr c') | None => None end) s ->
  wp (ravl_emplace_walk compare fuel n (cref c) (caddr c)) Q s.
Proof.
  revert fuel c. induction t as [|a k l IHl r IHr]; intros fuel c Hz Hn Hf HQ;
    (destruct fuel as [|fuel]; [lia|]); simpl in *;
    (apply wp_bind; eapply wp_read_ref; [done|]); simpl.
  - by apply wp_ret.
  - unfold ravl_data. destruct (nodes (r_ravl s) !! n) as [nd|] eqn:En; simplify_eq/=.
    do 2 apply wp_bind. eapply wp_load; [done|]. apply wp_ret.
    do 2 apply wp_bind. eapply wp_load_focus; [done|]. apply wp_ret. simpl.
    pose proof (compare_sign (data nd) (c_data k)) as Hs.
    destruct (Z.eqb_spec (compare (data nd) (c_data k)) 0) as [E|E];
      destruct (Z.eqb_spec (key (data nd)) (key (c_data k))) as [E'|E'];
      try (exfalso; lia).
    { by apply wp_ret. }
    destruct (Z.ltb_spec 0 (compare (data nd) (c_data k)));
      destruct (Z.ltb_spec (key (c_data k)) (key (data nd))); try (exfalso; lia).
    + apply (IHr fuel (CtxR a k l c)); [by apply zip_open_r|done|lia|done].
    + apply (IHl fuel (CtxL a k r c)); [by apply zip_open_l|done|lia|done].
Qed.

Lemma walk_spec x t c :
  sorted key (inorder (plug c t)) ->
  Forall (fun p => key p.2 < x) (cl c) -> Forall (fun p => x < key p.2) (cr c) ->
  match walk x t c with
  | None => exists p, p ∈ inorder (plug c t) /\ key p.2 = x
  | Some c' => plug c' Null = plug c t /\
      Forall (fun p => key p.2 < x) (cl c') /\ Forall (fun p => x < key p.2) (cr c')
  end.
Proof.
  revert c. induction t as [|a k l IHl r IHr]; intros c Hs Hl Hr; simpl; [done|].
  assert (sorted key (cl c ++ inorder l ++ (a, c_data k) :: inorder r ++ cr c)) as Hs'.
  { unfold sorted in *. rewrite inorder_plug in Hs. simpl in Hs.
    by rewrite <- app_assoc in Hs. }
  unfold sorted in Hs'. rewrite !StronglySorted_app in Hs'. setoid_rewrite elem_of_app in Hs'.
  destruct (Z.eqb_spec x (key (c_data k))) as [E|E].
  { exists (a, c_data k). split; [|done]. rewrite inorder_plug. simpl.
    rewrite !elem_of_app, elem_of_cons. auto. }
  destruct (Z.ltb_spec (key (c_data k)) x) as [E2|E2].
  - apply (IHr (CtxR a k l c) Hs); simpl; [|done].
    rewrite !Forall_app. split_and!; [done| |by repeat constructor].
    rewrite Forall_forall in *. intros p Hp. destruct Hs' as (_ & _ & Hs' & _).
    specialize (Hs' p (a, c_data k) Hp). simpl in Hs'.
    apply Z.lt_trans with (key (c_data k)); [|done]. apply Hs'. constructor.
  - apply (IHl (CtxL a k r c) Hs); simpl; [done|].
    rewrite Forall_cons, Forall_app. split_and!; [simpl; lia| |done].
    rewrite Forall_forall in *. intros p Hp. destruct Hs' as (_ & _ & _ & _ & Hs').
    apply StronglySorted_cons in Hs' as [Hs' _]. rewrite Forall_forall in Hs'.
    specialize (Hs' p). simpl in Hs'. apply Z.lt_trans with (key (c_data k)); [lia|].
    apply Hs'. apply elem_of_app. by left.
Qed.

Lemma sorted_insert x n d L1 L2 :
  sorted key (L1 ++ L2) -> key d = x ->
  Forall (fun p => key p.2 < x) L1 -> Forall (fun p => x < key p.2) L2 ->
  sorted key (L1 ++ (n, d) :: L2).
Proof.
  unfold sorted. rewrite !StronglySorted_app, StronglySorted_cons, !Forall_forall.
  intros (? & ? & ?) <- Hl Hr. split_and!; auto.
  intros p q Hp. rewrite elem_of_cons. intros [->|Hq]; simpl; auto.
Qed.

(** What identifies the tree is never changed, and the host allocator only
    by its own functions. *)
Definition same_meta s s' : Prop :=
  self (r_ravl s') = self (r_ravl s) /\ data_size (r_ravl s') = data_size (r_ravl s) /\
  node_tag (r_ravl s') = node_tag (r_ravl s) /\ host_steps (r_host s) (r_host s').

Lemma same_frame_meta s s' : same_frame s s' -> same_meta s s'.
Proof.
  unfold same_frame, same_meta. intros (? & ? & ? & -> & ?). split_and!; auto with umf.
Qed.

Lemma same_meta_trans s1 s2 s3 : same_meta s1 s2 -> same_meta s2 s3 -> same_meta s1 s3.
Proof.
  unfold same_meta. intros (? & ? & ? & ?) (? & ? & ? & ?).
  split_and!; [congruence..|]. by eapply host_steps_trans.
Qed.

Definition emplace_post s (d : A) L (rv : Z) s' : Prop :=
  same_meta s s' /\
  ((rv = 0 /\ exists n L1 L2, L = L1 ++ L2 /\ ravl_rep s' (L1 ++ (n, d) :: L2) /\
      Forall (fun p => key p.2 < key d) L1 /\ Forall (fun p => key d < key p.2) L2 /\
      ba_live (r_host s) !! n = None /\
      ba_live (r_host s') = <[n := node_tag (r_ravl s)]> (ba_live (r_host s))) \/
   (rv = -1 /\ ravl_rep s' L /\ r_ravl s' = r_ravl s /\
      ba_live (r_host s') = ba_live (r_host s) /\
      ((umf_ba_global_alloc (node_tag (r_ravl s))
          (sizeof_ravl_node + data_size (r_ravl s)) (r_host s)).1 = None \/
       exists p, p ∈ L /\ key p.2 = key d))).

Lemma ravl_rep_host s s' L :
  ravl_rep s L -> r_ravl s' = r_ravl s -> ba_live (r_host s') = ba_live (r_host s) ->
  ravl_rep s' L.
Proof.
  intros (t & Hz & HL & Hs & Hok & Ho & Hd) Hr Hl. exists t. unfold zip_at, owned in *.
  rewrite Hr, Hl. done.
Qed.

(** Linking a fresh node into the empty slot the walk has found. *)
Lemma wp_link s n pb d c (Q : Z -> rstate H A -> Prop) :
  zip_at s Null c -> nodes (r_ravl s) !! n = Some (mk_node None None None 0 pb d) ->
  n ∉ caddrs c -> ctx_ranks_ok (-1) c ->
  (forall s', zip_at s' (balance (Node n (Cell 0 pb d) Null Null) c) CTop ->
     same_frame s s' -> Q 0 s') ->
  wp (update n (with_parent (caddr c));; write_ref (cref c) (Some n);;
      ravl_balance n;; mret 0) Q s.
Proof.
  intros (Ht & Hc & Hr & Hnd) Hn Hnc Hok HQ.
  apply wp_bind. eapply wp_update; [done|].
  apply wp_bind. eapply (wp_write_ref _ None (Node n (Cell 0 pb d) Null Null) c).
  - by apply ctx_at_insert.
  - simpl. by rewrite lookup_insert_eq.
  - simpl. by apply NoDup_cons.
  - done.
  - intros s1 Hz1 Hf1. apply wp_bind. eapply wp_balance; [done|simpl; lia| | |].
    + simpl. by left.
    + destruct c; simpl in *; [done| |]; destruct_and!; split_and!; auto; lia.
    + intros s2 Hz2 Hf2. apply wp_ret, HQ; [done|].
      eapply same_frame_trans; [|done]. eapply same_frame_trans; [|done].
      split_and!; simpl; auto. by rewrite dom_insert_lookup_L by (by eexists).
Qed.

Lemma ravl_rep_link s s' t c n pb d h' :
  ravl_rep s (inorder (plug c Null)) -> zip_at s (plug c Null) CTop ->
  t = balance (Node n (Cell 0 pb d) Null Null) c -> zip_at s' t CTop ->
  umf_ba_global_alloc (node_tag (r_ravl s))
    (sizeof_ravl_node + data_size (r_ravl s)) (r_host s) = (Some n, h') ->
  r_host s' = h' -> node_tag (r_ravl s') = node_tag (r_ravl s) ->
  dom (nodes (r_ravl s')) = {[n]} ∪ dom (nodes (r_ravl s)) ->
  ranks_ok (plug c Null) ->
  Forall (fun p => key p.2 < key d) (cl c) -> Forall (fun p => key d < key p.2) (cr c) ->
  ravl_rep s' (cl c ++ (n, d) :: cr c).
Proof.
  intros (t0 & Hz0 & HL & Hs & _ & Ho & Hd) Hz Ht Hz' Ea Hh Htag Hdom Hok Hl Hr.
  assert (inorder t = cl c ++ (n, d) :: cr c) as Hin.
  { by rewrite Ht, inorder_balance, inorder_plug. }
  assert (forall a, a ∈ addrs t <-> a = n \/ a ∈ addrs t0) as Hmem.
  { intros a. rewrite <- !addrs_inorder, Hin, HL, inorder_plug, !fmap_app. simpl.
    rewrite !elem_of_app, elem_of_cons. tauto. }
  exists t. split_and!; [done|done| | | |].
  - eapply sorted_insert; [by rewrite inorder_plug in Hs|done..].
  - subst t. apply ranks_plug in Hok as [_ Hok]. apply balance_ok; simpl; [lia|by left|].
    destruct c; simpl in *; [done| |]; destruct_and!; split_and!; auto; lia.
  - rewrite Htag, Hh. intros a Ha. apply elem_of_dom in Ha. rewrite Hdom in Ha.
    apply ba_alloc_some in Ea as [Hf ->]. apply elem_of_union in Ha as [Ha|Ha].
    + apply elem_of_singleton in Ha as ->. by rewrite lookup_insert_eq.
    + apply elem_of_dom in Ha. rewrite lookup_insert_ne; [by apply Ho|].
      intros ->. by rewrite (Ho _ Ha) in Hf.
  - intros a Ha. apply elem_of_dom in Ha. rewrite Hdom in Ha. apply Hmem.
    apply elem_of_union in Ha as [Ha|Ha]; [left; by apply elem_of_singleton in Ha|].
    right. by apply Hd, elem_of_dom.
Qed.

#[local] Arguments ravl_emplace_walk : simpl never.

Lemma wp_emplace s pb d L :
  ravl_rep s L -> wp (ravl_emplace compare pb d) (emplace_post s d L) s.
Proof.
  intros Hrep. pose proof Hrep as (t & Hz & HL & Hs & Hok & Ho & Hd).
  unfold ravl_emplace. apply wp_bind. unfold ravl_new_node. wp_step. unfold emplace_post.
  destruct (umf_ba_global_alloc _ _ (r_host s)) as [[n|] h'] eqn:Ea; cycle 1.
  { wp_step. apply wp_ret. apply wp_ret. split; [split_and!; simpl; eauto with umf|]. right. split_and!; auto.
    - eapply ravl_rep_host; [done|done|]. simpl. by eapply ba_alloc_none.
    - simpl. by eapply ba_alloc_none. }
  pose proof (owned_fresh _ _ _ _ _ _ _ Ho Ea) as Hfr.
  pose proof (ba_alloc_some _ _ _ _ _ Ea) as [Hlive Hlive'].
  wp_step. wp_step. apply wp_ret. unfold loop_bound. wp_step. simpl.
  set (d0 := if pb then _ else _). replace d0 with d by (by destruct pb). clear d0.
  set (s1 := with_nodes (<[n := _]> _) _).
  assert (n ∉ addrs t) as Hnt.
  { intros Hn. destruct Hz as (Ht & _). apply (tree_at_lookup _ _ _ _ Ht) in Hn.
    rewrite Hfr in Hn. by destruct Hn. }
  assert (zip_at s1 t CTop) as Hz1.
  { destruct Hz as (Ht & Hc & Hr & Hnd). split_and!; auto. by apply tree_at_insert. }
  pose proof (zip_loop_bound _ _ _ Hz1) as Hb. simpl in Hb.
  rewrite app_nil_r, length_addrs in Hb. pose proof (height_tsize t).
  apply wp_bind. eapply (wp_walk _ s1 n d t CTop); [done| |lia|].
  { simpl. by rewrite lookup_insert_eq. }
  pose proof (walk_spec (key d) t CTop) as Hw. simpl in Hw. rewrite HL in Hw.
  specialize (Hw Hs (Forall_nil_2 _) (Forall_nil_2 _)).
  destruct (walk (key d) t CTop) as [c|]; cycle 1.
  { wp_step. apply wp_ret. split.
    { split_and!; simpl; auto.
      eapply host_steps_trans; [by eapply host_steps_alloc|apply host_steps_free]. }
    right.
    assert (mk_ravl (self (r_ravl s)) (root (r_ravl s)) (data_size (r_ravl s))
      (node_tag (r_ravl s)) (delete n (nodes (r_ravl s1))) = r_ravl s) as Heq.
    { simpl. rewrite delete_insert_id by done. by destruct (r_ravl s). }
    assert (ba_live (umf_ba_global_free n h') = ba_live (r_host s)) as Hl.
    { rewrite ba_free_live by (rewrite Hlive', lookup_insert_eq; by eexists).
      by rewrite Hlive', delete_insert_id. }
    split_and!; [done| |exact Heq|exact Hl|by right].
    eapply ravl_rep_host; [done|exact Heq|exact Hl]. }
  destruct Hw as (Hplug & Hcl & Hcr). rewrite <- Hplug in *.
  eapply wp_link; [by apply zip_unplugged|simpl; by rewrite lookup_insert_eq| | |].
  { rewrite addrs_plug in Hnt. done. }
  { by destruct (proj1 (ranks_plug _ _) Hok). }
  intros s2 Hz2 Hf2. pose proof Hf2 as (Hm1 & Hm2 & Hm3 & Hm4 & Hm5).
  split.
  { eapply same_meta_trans; [|exact (same_frame_meta _ _ Hf2)].
    split_and!; simpl; eauto with umf. }
  left. split; [done|].
  exists n, (cl c), (cr c). rewrite <- HL, inorder_plug. split_and!; auto.
  - eapply (ravl_rep_link s s2); try done; [by rewrite HL|].
    rewrite Hm5. simpl. apply dom_insert_L.
  - by rewrite Hm4.
Qed.
End Rep.
