(* ===== verification/RavlRemove.v ===== *)
(** * Searches, removal and destruction of the RAVL tree

    [ravl_node_successor]/[ravl_node_predecessor] return the list neighbours
    and [ravl_find] the list searches of [RavlSpec], for each of its five
    predicates.

    [ravl_remove] takes one datum out of the sorted list; with two children
    the removed node survives with its successor's datum and the successor's
    node is freed.  [ravl_foreach] visits the data in increasing key order,
    [ravl_clear] and [ravl_delete] give every node back, and
    [ravl_first]/[ravl_last] are the ends of the list. *)

From S2P Require Import Prelude HostMem Ravl RavlTree RavlOps RavlSpec.
From stdpp Require Import strings sorting.
#[local] Open Scope Z_scope.

Section Neighbours.
Context {H A : Type} `{HostAllocLaws H}.
Implicit Types (t l r : tree A) (c : ctx A) (k : cell A) (s : rstate H A).

Fixpoint rightmost t : option (Z * cell A) :=
  match t with
  | Null => None
  | Node a k _ r => match rightmost r with Some x => Some x | None => Some (a, k) end
  end.

Lemma rightmost_inorder t :
  (fun x => (x.1, c_data x.2)) <$> rightmost t = last (inorder t).
Proof.
  induction t as [|a k l IHl r IHr]; simpl; [done|].
  rewrite last_app, last_cons. destruct (rightmost r) as [x|]; simpl in *;
    destruct (last (inorder r)); simpl in *; done.
Qed.

Lemma leftmost_node a k l r : leftmost (Node a k l r) <> None.
Proof. simpl. by destruct (leftmost l). Qed.
Lemma rightmost_node a k l r : rightmost (Node a k l r) <> None.
Proof. simpl. by destruct (rightmost r). Qed.

Lemma wp_leftmost fuel s a k l r c b kb (Q : Z -> rstate H A -> Prop) :
  zip_at s (Node a k l r) c -> (height (Node a k l r) <= fuel)%nat ->
  leftmost (Node a k l r) = Some (b, kb) -> Q b s ->
  wp (ravl_node_type_most fuel a RAVL_LEFT) Q s.
Proof.
  revert fuel a k r c. induction l as [|al kl ll IHl lr _]; intros fuel a k r c Hz Hf Hl HQ;
    (destruct fuel as [|fuel]; [simpl in *; lia|]); simpl ravl_node_type_most;
    (apply wp_bind; eapply wp_load_focus; [done|]); simpl.
  - simpl in Hl. simplify_eq. by apply wp_ret.
  - eapply (IHl _ _ _ _ (CtxL a k r c)); [by apply zip_open_l|simpl in *; lia| |done].
    simpl in *. by destruct (leftmost ll).
Qed.

Lemma wp_rightmost fuel s a k l r c b kb (Q : Z -> rstate H A -> Prop) :
  zip_at s (Node a k l r) c -> (height (Node a k l r) <= fuel)%nat ->
  rightmost (Node a k l r) = Some (b, kb) -> Q b s ->
  wp (ravl_node_type_most fuel a RAVL_RIGHT) Q s.
Proof.
  revert fuel a k l c. induction r as [|ar kr rl _ rr IHr]; intros fuel a k l c Hz Hf Hl HQ;
    (destruct fuel as [|fuel]; [simpl in *; lia|]); simpl ravl_node_type_most;
    (apply wp_bind; eapply wp_load_focus; [done|]); simpl.
  - simpl in Hl. simplify_eq. by apply wp_ret.
  - eapply (IHr _ _ _ _ (CtxR a k l c)); [by apply zip_open_r|simpl in *; lia| |done].
    simpl in *. by destruct (rightmost rr).
Qed.

Lemma wp_cessor_up_right fuel s a k l r c (Q : option Z -> rstate H A -> Prop) :
  zip_at s (Node a k l r) c -> (cdepth c < fuel)%nat ->
  Q (fst <$> head (cr c)) s -> wp (ravl_node_cessor_up fuel a RAVL_RIGHT) Q s.
Proof.
  revert fuel a k l r. induction c as [|p kp sb c IH|p kp sb c IH];
    intros fuel a k l r Hz Hf HQ; (destruct fuel as [|fuel]; [simpl in *; lia|]);
    simpl ravl_node_cessor_up; (apply wp_bind; eapply wp_load_focus; [done|]); simpl in *.
  - by apply wp_ret.
  - apply wp_bind. eapply wp_load_ctx; [done|done|]. simpl.
    pose proof (troot_csibling _ _ _ _ _ _ Hz). simpl in *.
    case_decide; [done|]. by apply wp_ret.
  - apply wp_bind. eapply wp_load_ctx; [done|done|]. simpl.
    rewrite decide_True by done. eapply IH; [by apply zip_close_r|lia|done].
Qed.

Lemma wp_cessor_up_left fuel s a k l r c (Q : option Z -> rstate H A -> Prop) :
  zip_at s (Node a k l r) c -> (cdepth c < fuel)%nat ->
  Q (fst <$> last (cl c)) s -> wp (ravl_node_cessor_up fuel a RAVL_LEFT) Q s.
Proof.
  revert fuel a k l r. induction c as [|p kp sb c IH|p kp sb c IH];
    intros fuel a k l r Hz Hf HQ; (destruct fuel as [|fuel]; [simpl in *; lia|]);
    simpl ravl_node_cessor_up; (apply wp_bind; eapply wp_load_focus; [done|]); simpl in *.
  - by apply wp_ret.
  - apply wp_bind. eapply wp_load_ctx; [done|done|]. simpl.
    rewrite decide_True by done. eapply IH; [by apply zip_close_l|lia|done].
  - apply wp_bind. eapply wp_load_ctx; [done|done|]. simpl.
    pose proof (troot_csibling _ _ _ _ _ _ Hz). simpl in *.
    case_decide; [done|]. apply wp_ret. by rewrite app_assoc, last_snoc in HQ.
Qed.

#[local] Arguments ravl_node_type_most : simpl never.
#[local] Arguments ravl_node_cessor_up : simpl never.

Lemma wp_successor s a k l r c (Q : option Z -> rstate H A -> Prop) :
  zip_at s (Node a k l r) c ->
  Q (fst <$> head (inorder r ++ cr c)) s -> wp (ravl_node_successor a) Q s.
Proof.
  intros Hz HQ. unfold ravl_node_successor, ravl_node_cessor, loop_bound. wp_step.
  pose proof (zip_loop_bound _ _ _ Hz) as Hb. rewrite length_app, length_addrs in Hb.
  pose proof (cdepth_caddrs c).
  apply wp_bind. eapply wp_load_focus; [done|]. simpl.
  destruct r as [|ar kr rl rr]; [eapply wp_cessor_up_right; [done|lia|done]|].
  simpl. apply wp_bind. unfold ravl_slot_opposite.
  apply wp_bind, wp_c_assert; [done|]. apply wp_ret. simpl. apply wp_bind.
  pose proof (leftmost_inorder (Node ar kr rl rr)) as Hl.
  destruct (leftmost (Node ar kr rl rr)) as [[b kb]|] eqn:E;
    [|by apply leftmost_node in E].
  pose proof (height_tsize (Node ar kr rl rr)).
  eapply wp_leftmost; [by apply zip_open_r|simpl in *; lia|done|].
  apply wp_ret. rewrite head_app, <- Hl in HQ. done.
Qed.

Lemma wp_predecessor s a k l r c (Q : option Z -> rstate H A -> Prop) :
  zip_at s (Node a k l r) c ->
  Q (fst <$> last (cl c ++ inorder l)) s -> wp (ravl_node_predecessor a) Q s.
Proof.
  intros Hz HQ. unfold ravl_node_predecessor, ravl_node_cessor, loop_bound. wp_step.
  pose proof (zip_loop_bound _ _ _ Hz) as Hb. rewrite length_app, length_addrs in Hb.
  pose proof (cdepth_caddrs c).
  apply wp_bind. eapply wp_load_focus; [done|]. simpl.
  destruct l as [|al kl ll lr].
  { simpl in HQ. rewrite app_nil_r in HQ. eapply wp_cessor_up_left; [done|lia|done]. }
  simpl. apply wp_bind. unfold ravl_slot_opposite.
  apply wp_bind, wp_c_assert; [done|]. apply wp_ret. simpl. apply wp_bind.
  pose proof (rightmost_inorder (Node al kl ll lr)) as Hl.
  destruct (rightmost (Node al kl ll lr)) as [[b kb]|] eqn:E;
    [|by apply rightmost_node in E].
  pose proof (height_tsize (Node al kl ll lr)).
  eapply wp_rightmost; [by apply zip_open_l|simpl in *; lia|done|].
  apply wp_ret. rewrite last_app, <- Hl in HQ. done.
Qed.
End Neighbours.

(** ** The search predicates *)

Definition find_list {A} (key : A -> Z) (flags x : Z) (L : list (Z * A)) : option Z :=
  if has_flag flags RAVL_PREDICATE_EQUAL then
    if has_flag flags RAVL_PREDICATE_GREATER then find_ge key x L
    else if has_flag flags RAVL_PREDICATE_LESS then find_le key x L
    else find_eq key x L
  else if has_flag flags RAVL_PREDICATE_GREATER then find_gt key x L
  else find_lt key x L.

Definition valid_predicate (flags : Z) : Prop :=
  flags ∈ [RAVL_PREDICATE_EQUAL; RAVL_PREDICATE_GREATER; RAVL_PREDICATE_LESS;
           RAVL_PREDICATE_LESS_EQUAL; RAVL_PREDICATE_GREATER_EQUAL].

Section FindList.
Context {A : Type}.
Variable key : A -> Z.


(** The key is absent: the answer is a neighbour of its position. *)
Lemma find_list_gap flags x (P1 P2 : list (Z * A)) :
  valid_predicate flags ->
  Forall (fun p => key p.2 < x) P1 -> Forall (fun p => x < key p.2) P2 ->
  find_list key flags x (P1 ++ P2) =
    if has_flag flags RAVL_PREDICATE_GREATER then fst <$> head P2
    else if has_flag flags RAVL_PREDICATE_LESS then fst <$> last P1 else None.
Proof.
  intros Hv H1 H2. unfold find_list, find_eq, find_ge, find_gt, find_le, find_lt.
  unfold valid_predicate in Hv. rewrite !elem_of_cons, elem_of_nil in Hv.
  rewrite !filter_app.
  destruct Hv as [->|[->|[->|[->|[->|[]]]]]]; vm_compute has_flag; cbv iota;
    rewrite ?(filter_none _ P1) by (eapply Forall_impl; [exact H1|]; simpl; lia);
    rewrite ?(filter_none _ P2) by (eapply Forall_impl; [exact H2|]; simpl; lia);
    rewrite ?(filter_all _ P1) by (eapply Forall_impl; [exact H1|]; simpl; lia);
    rewrite ?(filter_all _ P2) by (eapply Forall_impl; [exact H2|]; simpl; lia);
    rewrite ?app_nil_r; done.
Qed.

(** The key is present at [a]. *)
Lemma find_list_hit flags x a d (P1 P2 : list (Z * A)) :
  valid_predicate flags -> key d = x ->
  Forall (fun p => key p.2 < x) P1 -> Forall (fun p => x < key p.2) P2 ->
  find_list key flags x (P1 ++ (a, d) :: P2) =
    if has_flag flags RAVL_PREDICATE_EQUAL then Some a
    else if has_flag flags RAVL_PREDICATE_GREATER then fst <$> head P2
    else fst <$> last P1.
Proof.
  intros Hv Hd H1 H2. unfold find_list, find_eq, find_ge, find_gt, find_le, find_lt.
  unfold valid_predicate in Hv. rewrite !elem_of_cons, elem_of_nil in Hv.
  rewrite !filter_app, !filter_cons. simpl.
  destruct Hv as [->|[->|[->|[->|[->|[]]]]]]; vm_compute has_flag; cbv iota;
    rewrite ?(filter_none _ P1) by (eapply Forall_impl; [exact H1|]; simpl; lia);
    rewrite ?(filter_none _ P2) by (eapply Forall_impl; [exact H2|]; simpl; lia);
    rewrite ?(filter_all _ P1) by (eapply Forall_impl; [exact H1|]; simpl; lia);
    rewrite ?(filter_all _ P2) by (eapply Forall_impl; [exact H2|]; simpl; lia);
    repeat case_decide; try lia; rewrite ?app_nil_r, ?last_snoc; done.
Qed.
End FindList.

Section Find.
Context {H A : Type} `{HostAllocLaws H}.
Variables (compare : A -> A -> Z) (key : A -> Z).
Context `{!KeyCompare compare key}.
Implicit Types (t l r : tree A) (c : ctx A) (k : cell A) (s : rstate H A).

Lemma sorted_focus a k l r c :
  sorted key (inorder (plug c (Node a k l r))) ->
  Forall (fun p => key p.2 < key (c_data k)) (cl c ++ inorder l) /\
  Forall (fun p => key (c_data k) < key p.2) (inorder r ++ cr c).
Proof.
  unfold sorted. rewrite inorder_plug. simpl. rewrite <- app_assoc. simpl. rewrite app_assoc.
  rewrite StronglySorted_app, StronglySorted_cons. intros (Hx & _ & Hy & _). split; [|done].
  apply Forall_forall. intros p Hp. apply (Hx p (a, c_data k) Hp). constructor.
Qed.

Definition find_acc (flags : Z) c : option Z :=
  if has_flag flags RAVL_PREDICATE_GREATER then fst <$> head (cr c)
  else if has_flag flags RAVL_PREDICATE_LESS then fst <$> last (cl c) else None.

Lemma wp_predicate_holds s a k l r c x flags (res : Z)
    (Q : bool * option Z -> rstate H A -> Prop) :
  zip_at s (Node a k l r) c -> sorted key (inorder (plug c (Node a k l r))) ->
  valid_predicate flags -> Z.sgn res = Z.sgn (x - key (c_data k)) ->
  (x = key (c_data k) -> Q (true, find_list key flags x (inorder (plug c (Node a k l r)))) s) ->
  (x < key (c_data k) -> Q (false, find_acc flags (CtxL a k r c)) s) ->
  (key (c_data k) < x -> Q (false, find_acc flags (CtxR a k l c)) s) ->
  wp (ravl_predicate_holds res (find_acc flags c) a flags) Q s.
Proof.
  intros Hz Hs Hv Hsgn Heq Hlt Hgt. pose proof (sorted_focus _ _ _ _ _ Hs) as [F1 F2].
  assert (x = key (c_data k) -> Q (true,
    if has_flag flags RAVL_PREDICATE_EQUAL then Some a
    else if has_flag flags RAVL_PREDICATE_GREATER then fst <$> head (inorder r ++ cr c)
    else fst <$> last (cl c ++ inorder l)) s) as Heq'.
  { intros E. specialize (Heq E). rewrite inorder_plug in Heq. simpl in Heq.
    rewrite <- app_assoc in Heq. simpl in Heq. rewrite app_assoc in Heq.
    rewrite find_list_hit in Heq by (auto; by rewrite ?E). done. }
  clear Heq. unfold ravl_predicate_holds, find_acc in *. simpl in *.
  rewrite app_assoc, last_snoc in Hgt.
  unfold valid_predicate in Hv. rewrite !elem_of_cons, elem_of_nil in Hv.
  destruct Hv as [->|[->|[->|[->|[->|[]]]]]];
    repeat match goal with |- context [has_flag ?f ?g] =>
      let b := eval vm_compute in (has_flag f g) in
      change (has_flag f g) with b in * end; cbv [andb] in *;
    destruct (Z.eqb_spec res 0), (Z.ltb_spec res 0), (Z.ltb_spec 0 res); try lia;
    try (apply wp_ret; first [apply Heq'; lia | apply Hlt; lia | apply Hgt; lia]).
  - apply wp_bind. eapply wp_successor; [done|]. apply wp_ret, Heq'. lia.
  - apply wp_bind. eapply wp_predecessor; [done|]. apply wp_ret, Heq'. lia.
Qed.

Lemma wp_find_loop fuel s d flags t c (Q : option Z -> rstate H A -> Prop) :
  zip_at s t c -> sorted key (inorder (plug c t)) -> valid_predicate flags ->
  (height t <= fuel)%nat ->
  Forall (fun p => key p.2 < key d) (cl c) -> Forall (fun p => key d < key p.2) (cr c) ->
  Q (find_list key flags (key d) (inorder (plug c t))) s ->
  wp (ravl_find_loop compare fuel d flags (find_acc flags c) (troot t)) Q s.
Proof.
  revert fuel c. induction t as [|a k l IHl r IHr]; intros fuel c Hz Hs Hv Hf Hl Hr HQ.
  { rewrite inorder_plug in HQ. simpl in HQ. rewrite find_list_gap in HQ by done.
    destruct fuel; by apply wp_ret. }
  destruct fuel as [|fuel]; [simpl in Hf; lia|]. simpl.
  unfold ravl_data. do 2 apply wp_bind. eapply wp_load_focus; [done|]. apply wp_ret. simpl.
  pose proof (compare_sign d (c_data k)) as Hsgn.
  pose proof (sorted_focus _ _ _ _ _ Hs) as [F1 F2]. rewrite Forall_app in F1, F2.
  apply wp_bind. eapply (wp_predicate_holds _ _ _ _ _ _ (key d)); [done|done|done|done| | |].
  - intros _. by apply wp_ret.
  - intros E. apply wp_bind. eapply wp_load_focus; [done|]. simpl.
    destruct (Z.ltb_spec 0 (compare d (c_data k))); [lia|].
    apply (IHl _ (CtxL a k r c)); auto; [by apply zip_open_l|simpl in Hf; lia|].
    simpl. constructor; [done|]. rewrite Forall_app. split; [|done].
    eapply Forall_impl; [apply F2|]. simpl. lia.
  - intros E. apply wp_bind. eapply wp_load_focus; [done|]. simpl.
    destruct (Z.ltb_spec 0 (compare d (c_data k))); [|lia].
    apply (IHr _ (CtxR a k l c)); auto; [by apply zip_open_r|simpl in Hf; lia|].
    simpl. rewrite !Forall_app. split_and!; [done| |by repeat constructor].
    eapply Forall_impl; [apply F1|]. simpl. lia.
Qed.

#[local] Arguments ravl_find_loop : simpl never.

Lemma wp_find s d flags L (Q : option Z -> rstate H A -> Prop) :
  ravl_rep key s L -> valid_predicate flags ->
  Q (find_list key flags (key d) L) s -> wp (ravl_find compare d flags) Q s.
Proof.
  intros (t & Hz & <- & Hs & Hok & Ho & Hd) Hv HQ. unfold ravl_find, loop_bound.
  wp_step. wp_step. pose proof (zip_loop_bound _ _ _ Hz) as Hb.
  rewrite length_app, length_addrs in Hb. pose proof (height_tsize t).
  replace None with (find_acc flags (CTop : ctx A)) at 1.
  2: { unfold find_acc. by repeat case_match. }
  destruct Hz as (Ht & Hc & Hroot & Hnd). rewrite Hroot. simpl ctop.
  apply (wp_find_loop _ s d flags t CTop); auto; [done|lia].
Qed.

(** Neighbours of a node, on the list. *)
Lemma rep_focus s L1 a d L2 :
  ravl_rep key s (L1 ++ (a, d) :: L2) ->
  exists k l r c, zip_at s (Node a k l r) c /\ c_data k = d /\
    ranks_ok (plug c (Node a k l r)) /\
    cl c ++ inorder l = L1 /\ inorder r ++ cr c = L2 /\
    (forall b, is_Some (nodes (r_ravl s) !! b) -> b ∈ addrs (plug c (Node a k l r))).
Proof.
  intros (t & Hz & HL & Hs & Hok & Ho & Hd).
  assert (a ∈ addrs t) as Ha.
  { rewrite <- addrs_inorder, HL, fmap_app. simpl.
    rewrite elem_of_app, elem_of_cons. auto. }
  destruct (tree_focus _ _ Ha) as (c & k & l & r & ->).
  assert (NoDup (L1 ++ (a, d) :: L2).*1) as Hnd.
  { rewrite <- HL, addrs_inorder. destruct Hz as (_ & _ & _ & Hnd). simpl in Hnd.
    by rewrite app_nil_r in Hnd. }
  rewrite inorder_plug in HL. simpl in HL. rewrite <- app_assoc in HL. simpl in HL.
  rewrite app_assoc in HL.
  assert ((cl c ++ inorder l).*1 = L1.*1 /\ (inorder r ++ cr c).*1 = L2.*1) as [E1 E2].
  { apply (NoDup_middle _ _ _ _ a).
    - change (a :: (inorder r ++ cr c).*1) with (((a, c_data k) :: (inorder r ++ cr c)).*1).
      rewrite <- fmap_app, HL. done.
    - apply (f_equal (fmap fst)) in HL.
      rewrite (fmap_app _ (cl c ++ _)), (fmap_app _ L1) in HL. exact HL. }
  apply app_inj_1 in HL as [HL1 HL2]; [|by rewrite <- !(length_fmap fst), E1].
  simplify_eq/=. exists k, l, r, c. split_and!; auto. by apply zip_unplugged.
Qed.

Lemma wp_successor_rep s L1 a d L2 (Q : option Z -> rstate H A -> Prop) :
  ravl_rep key s (L1 ++ (a, d) :: L2) -> Q (fst <$> head L2) s ->
  wp (ravl_node_successor a) Q s.
Proof.
  intros Hrep HQ. destruct (rep_focus _ _ _ _ _ Hrep) as (k & l & r & c & Hz & _ & _ & _ & <- & _).
  by eapply wp_successor.
Qed.

Lemma wp_predecessor_rep s L1 a d L2 (Q : option Z -> rstate H A -> Prop) :
  ravl_rep key s (L1 ++ (a, d) :: L2) -> Q (fst <$> last L1) s ->
  wp (ravl_node_predecessor a) Q s.
Proof.
  intros Hrep HQ. destruct (rep_focus _ _ _ _ _ Hrep) as (k & l & r & c & Hz & _ & _ & <- & _).
  by eapply wp_predecessor.
Qed.

Lemma wp_data_rep s L1 a d L2 (Q : A -> rstate H A -> Prop) :
  ravl_rep key s (L1 ++ (a, d) :: L2) -> Q d s -> wp (ravl_data a) Q s.
Proof.
  intros Hrep HQ. destruct (rep_focus _ _ _ _ _ Hrep) as (k & l & r & c & Hz & <- & _).
  unfold ravl_data. apply wp_bind. eapply wp_load_focus; [done|]. by apply wp_ret.
Qed.
End Find.

Section Unlink.
Context {H A : Type} `{HostAllocLaws H}.
Implicit Types (t l r : tree A) (c : ctx A) (k : cell A) (s : rstate H A).

(** [ravl_node_ref] needs only the parent pointer of the node and the slot
    of its parent, not the subtree below. *)
Lemma wp_node_ref_weak s a n c (Q : node_ref -> rstate H A -> Prop) :
  nodes (r_ravl s) !! a = Some n -> parent n = caddr c ->
  ctx_at (nodes (r_ravl s)) (Some a) c -> troot (csibling c) <> Some a ->
  Q (cref c) s -> wp (ravl_node_ref a) Q s.
Proof.
  intros Ha Hp Hc Hsb HQ. unfold ravl_node_ref, ravl_node_slot_type.
  do 2 apply wp_bind. eapply wp_load; [done|]. rewrite Hp.
  destruct c as [|p kp t c|p kp t c]; simpl in *; [by apply wp_ret, wp_ret| |];
    (destruct Hc as ((x & Hx & Hl) & _); simplify_eq;
     apply wp_bind; eapply wp_load; [done|]; apply wp_ret; simpl;
     first [rewrite (decide_True (P := Some a = Some a)) by done
           |rewrite (decide_False (P := troot t = Some a)) by done]; simpl;
     apply wp_bind; eapply wp_load; [done|]; rewrite Hp; simpl; wp_step; by apply wp_ret).
Qed.

Definition only_child l r : tree A := match l with Null => r | Node _ _ _ _ => l end.

(** The child takes the place of its parent's parent's child. *)
Lemma zip_reparent s a k l r c :
  zip_at s (Node a k l r) c -> l = Null \/ r = Null ->
  let ch := only_child l r in
  exists h,
    match ch with
    | Null => h = nodes (r_ravl s)
    | Node b kb bl br =>
        nodes (r_ravl s) !! b = Some (heap_node (Some a) kb bl br) /\
        h = <[b := heap_node (caddr c) kb bl br]> (nodes (r_ravl s))
    end /\
    h !! a = Some (heap_node (caddr c) k l r) /\ ctx_at h (Some a) c /\
    tree_at h (caddr c) ch /\ NoDup (addrs ch ++ caddrs c) /\
    (a ∉ addrs ch) /\ (a ∉ caddrs c) /\ dom h = dom (nodes (r_ravl s)).
Proof.
  intros (Ht & Hc & _ & Hnd) Hlr. simpl in Ht. destruct Ht as (Ha & Hl & Hr).
  assert (tree_at (nodes (r_ravl s)) (Some a) (only_child l r) /\
          NoDup (a :: addrs (only_child l r) ++ caddrs c)) as [Hch Hn].
  { destruct Hlr as [-> | ->]; simpl in *; [done|]. destruct l; simpl in *; [done|].
    rewrite app_nil_r in Hnd. done. }
  clear Hl Hr Hnd. simpl. set (ch := only_child l r) in *. clearbody ch.
  apply list.NoDup_cons in Hn as [Hn Hnd]. rewrite not_elem_of_app in Hn. destruct Hn as [Hn1 Hn2].
  destruct ch as [|b kb bl br].
  { exists (nodes (r_ravl s)). split_and!; auto. }
  assert (NoDup (addrs (Node b kb bl br))) as Hndb by (apply NoDup_app in Hnd; tauto).
  pose proof (tree_at_reparent _ _ (caddr c) _ Hndb Hch) as Hre.
  eexists. split_and!; [apply Hch|reflexivity| | |exact Hre|done|done|done|].
  - rewrite lookup_insert_ne; [done|]. intros <-. apply Hn1. constructor.
  - apply ctx_at_insert; [|done]. apply NoDup_app in Hnd as (_ & Hd & _).
    apply Hd. constructor.
  - apply dom_insert_lookup_L. eexists. apply Hch.
Qed.

Lemma wp_unlink fuel s a k l r c (Q : unit -> rstate H A -> Prop) :
  zip_at s (Node a k l r) c -> l = Null \/ r = Null ->
  (forall s', zip_at s' (only_child l r) c -> same_meta s s' ->
     dom (nodes (r_ravl s')) = dom (nodes (r_ravl s)) ∖ {[a]} ->
     r_host s' = umf_ba_global_free a (r_host s) -> Q tt s') ->
  wp (ravl_remove_rec (S fuel) a) Q s.
Proof.
  intros Hz Hlr HQ. simpl. apply wp_bind. eapply wp_load_focus; [done|]. simpl.
  destruct (zip_reparent _ _ _ _ _ _ Hz Hlr)
    as (h & Hch & Ha & Hc & Ht & Hnd & Ha1 & Ha2 & Hdom).
  assert (forall Q : unit -> rstate H A -> Prop, Q tt (with_nodes h s) ->
    wp (match troot (only_child l r) with
        | Some b => update b (with_parent (caddr c)) | None => mret tt end) Q s) as Hup.
  { intros Q' HQ'. destruct (only_child l r) as [|b kb bl br]; simpl.
    - subst h. apply wp_ret. destruct s as [[]]. done.
    - destruct Hch as [Hb ->]. eapply wp_update; [done|]. done. }
  pose proof (troot_csibling _ _ _ _ _ _ Hz) as Hsb.
  pose proof Hz as (_ & _ & Hroot & _).
  assert (wp (match troot (only_child l r) with
        | Some b => update b (with_parent (caddr c)) | None => mret tt end;;
      ref ← ravl_node_ref a; write_ref ref (troot (only_child l r));;
      modify (fun s => with_host (umf_ba_global_free a (r_host s))
                           (with_nodes (delete a (nodes (r_ravl s))) s))) Q s) as Hgoal.
  { apply wp_bind, Hup. apply wp_bind.
    eapply wp_node_ref_weak; [exact Ha|done|exact Hc|exact Hsb|].
    apply wp_bind. eapply wp_write_ref; [exact Hc|exact Ht|exact Hnd|exact Hroot|].
    intros s' (Zt & Zc & Zr & Zn) (F1 & F2 & F3 & F4 & F5). apply wp_modify.
    apply HQ; simpl; [|split_and!; simpl; [done..|rewrite F4; auto with umf]| |by rewrite F4].
    - split_and!; simpl; auto using tree_at_delete, ctx_at_delete.
    - rewrite dom_delete_L, F5. simpl. by rewrite Hdom. }
  destruct Hlr as [-> | ->]; [by destruct r|]. by destruct l.
Qed.
End Unlink.

(** The leftmost node of a subtree as the focus of a zipper. *)
Lemma leftmost_focus {A} (t : tree A) (c : ctx A) b kb :
  leftmost t = Some (b, kb) ->
  exists cs rs, plug cs (Node b kb Null rs) = plug c t /\
    plug cs rs = plug c (unlink_leftmost t).
Proof.
  revert c. induction t as [|a k l IHl r _]; intros c; [done|].
  destruct l as [|al kl ll lr].
  - simpl. intros [= -> ->]. by exists c, r.
  - intros Hl. destruct (IHl (CtxL a k r c)) as (cs & rs & E1 & E2).
    { simpl in *. by destruct (leftmost ll). }
    exists cs, rs. by rewrite E1, E2.
Qed.

(** The address [ravl_remove] gives back. *)
Definition freed_node {A} (a : Z) (l r : tree A) : Z :=
  match l, r with
  | Node _ _ _ _, Node _ _ _ _ =>
      match leftmost r with Some (b, _) => b | None => a end
  | _, _ => a
  end.

Section Remove.
Context {H A : Type} `{HostAllocLaws H}.
Variables (compare : A -> A -> Z) (key : A -> Z).
Context `{!KeyCompare compare key}.
Implicit Types (t l r : tree A) (c : ctx A) (k : cell A) (s : rstate H A).

Lemma wp_remove_zip s a k l r c (Q : unit -> rstate H A -> Prop) :
  zip_at s (Node a k l r) c ->
  (forall s', zip_at s' (plug c (remove_focus a k l r)) CTop -> same_meta s s' ->
     dom (nodes (r_ravl s')) = dom (nodes (r_ravl s)) ∖ {[freed_node a l r]} ->
     r_host s' = umf_ba_global_free (freed_node a l r) (r_host s) -> Q tt s') ->
  wp (ravl_remove a) Q s.
Proof.
  intros Hz HQ. unfold ravl_remove.
  destruct l as [|al kl ll lr].
  { eapply wp_unlink; [done|by left|]. intros s' Hz'. by apply HQ, zip_plugged. }
  destruct r as [|ar kr rl rr].
  { eapply wp_unlink; [done|by right|]. intros s' Hz'. by apply HQ, zip_plugged. }
  pose proof (leftmost_inorder (Node ar kr rl rr)) as Hlm.
  destruct (leftmost (Node ar kr rl rr)) as [[b kb]|] eqn:El;
    [|by apply leftmost_node in El].
  unfold remove_focus, freed_node in HQ. rewrite El in HQ.
  cbn [ravl_remove_rec].
  apply wp_bind. eapply wp_load_focus; [done|]. simpl slots. cbv iota.
  apply wp_bind. eapply wp_successor; [done|]. rewrite head_app, <- Hlm. simpl.
  wp_step.
  destruct (leftmost_focus _ (CtxR a k (Node al kl ll lr) c) _ _ El) as (cs & rs & Ep & Eu).
  apply wp_bind. eapply (wp_load_focus _ b kb Null rs cs).
  { apply zip_unplugged. rewrite Ep. by apply zip_plugged, zip_open_r. }
  apply wp_bind. eapply (wp_update_focus _ _ _ _ _ _ _ (set_data (c_data kb) k)); [done|done|].
  intros s1 Hz1 Hf1. pose proof Hf1 as (F1 & F2 & F3 & F4 & F5). clear Ep Eu cs rs.
  destruct (leftmost_focus _ (CtxR a (set_data (c_data kb) k) (Node al kl ll lr) c) _ _ El)
    as (cs & rs & Ep & Eu).
  eapply (wp_unlink 0 _ b kb Null rs cs); [|by left|].
  { apply zip_unplugged. rewrite Ep. by apply zip_plugged, zip_open_r. }
  intros s2 Hz2 Hm Hdom Hh. apply HQ.
  - apply zip_plugged in Hz2. simpl only_child in Hz2. by rewrite Eu in Hz2.
  - eapply same_meta_trans; [by apply same_frame_meta|done].
  - by rewrite Hdom, F5.
  - by rewrite Hh, F4.
Qed.

Definition remove_post s a L1 L2 s' : Prop :=
  same_meta s s' /\
  ((ravl_rep key s' (L1 ++ L2) /\ ba_live (r_host s') = delete a (ba_live (r_host s))) \/
   (exists b e L2', L2 = (b, e) :: L2' /\ ravl_rep key s' (L1 ++ (a, e) :: L2') /\
      ba_live (r_host s') = delete b (ba_live (r_host s)))).

Lemma addrs_remove_focus a k l r c :
  addrs (plug c (Node a k l r)) ≡ₚ freed_node a l r :: addrs (plug c (remove_focus a k l r)).
Proof.
  rewrite <- !addrs_inorder, !inorder_plug, !fmap_app. simpl. unfold remove_focus, freed_node.
  destruct l as [|al kl ll lr]; [cbn; solve_Permutation|].
  remember (inorder (Node al kl ll lr)) as Li eqn:ELi.
  destruct r as [|ar kr rl rr];
    [rewrite <- ELi; cbn; rewrite ?fmap_app; cbn; solve_Permutation|].
  pose proof (leftmost_inorder (Node ar kr rl rr)) as Hl.
  pose proof (inorder_unlink_leftmost (Node ar kr rl rr)) as Hu.
  destruct (leftmost (Node ar kr rl rr)) as [[b kb]|] eqn:El;
    [|by apply leftmost_node in El].
  destruct (inorder (Node ar kr rl rr)) as [|p R]; [done|]. simpl in Hl. simplify_eq/=.
  rewrite !fmap_app. simpl. solve_Permutation.
Qed.

(** The list loses the removed node; with two children its address takes over
    the datum of the successor and the address of the successor goes. *)
Lemma remove_cases a k l r :
  (freed_node a l r = a /\ inorder (remove_focus a k l r) = inorder l ++ inorder r) \/
  (exists b e R, inorder r = (b, e) :: R /\ freed_node a l r = b /\
     inorder (remove_focus a k l r) = inorder l ++ (a, e) :: R).
Proof.
  unfold freed_node, remove_focus.
  destruct l as [|al kl ll lr]; [by left|].
  destruct r as [|ar kr rl rr]; [left; simpl; by rewrite app_nil_r|].
  right. pose proof (leftmost_inorder (Node ar kr rl rr)) as Hl.
  pose proof (inorder_unlink_leftmost (Node ar kr rl rr)) as Hu.
  destruct (leftmost (Node ar kr rl rr)) as [[b kb]|] eqn:El;
    [|by apply leftmost_node in El].
  destruct (inorder (Node ar kr rl rr)) as [|s R]; [done|]. simpl in Hl. simplify_eq/=.
  by eexists _, _, _.
Qed.

Lemma sorted_sublist (L L' : list (Z * A)) : L' `sublist_of` L -> sorted key L -> sorted key L'.
Proof.
  unfold sorted. induction 1 as [|x l1 l2 Hsub IH|x l1 l2 Hsub IH]; [done| |].
  - rewrite !StronglySorted_cons. intros [Hf Hs]. split; [|auto].
    rewrite Forall_forall in Hf |- *. intros y Hy. apply Hf.
    by eapply elem_of_submseteq, sublist_submseteq.
  - rewrite StronglySorted_cons. intros [_ Hs]. auto.
Qed.

Lemma sorted_retag L1 a d b e L2 :
  sorted key (L1 ++ (a, d) :: (b, e) :: L2) -> sorted key (L1 ++ (a, e) :: L2).
Proof.
  unfold sorted. rewrite !StronglySorted_app, !StronglySorted_cons.
  intros (H1' & H2' & Hda & Heb & Hs). split_and!; auto.
  intros x y Hx Hy. apply elem_of_cons in Hy as [->|Hy].
  - apply (H1' x (b, e) Hx). right. constructor.
  - apply (H1' x y Hx). by right; right.
Qed.

Lemma wp_remove s L1 a d L2 :
  ravl_rep key s (L1 ++ (a, d) :: L2) ->
  wp (ravl_remove a) (fun _ s' => remove_post s a L1 L2 s') s.
Proof.
  intros Hrep. destruct (rep_focus _ _ _ _ _ _ Hrep) as (k & l & r & c & Hz & Hk & Hok & E1 & E2 & Hd).
  destruct Hrep as (t0 & _ & _ & Hs & _ & Ho & _).
  pose proof (addrs_remove_focus a k l r c) as Hperm.
  assert (NoDup (addrs (plug c (Node a k l r)))) as Hnd.
  { rewrite addrs_plug. apply Hz. }
  rewrite Hperm in Hnd. apply list.NoDup_cons in Hnd as [Hfr _].
  assert (is_Some (nodes (r_ravl s) !! freed_node a l r)) as Hin.
  { apply zip_plugged in Hz as (Ht & _). eapply tree_at_lookup; [done|].
    rewrite Hperm. constructor. }
  eapply wp_remove_zip; [done|]. intros s' Hz' Hm Hdom Hh.
  assert (ba_live (r_host s') = delete (freed_node a l r) (ba_live (r_host s))) as Hlive.
  { rewrite Hh. apply ba_free_live. rewrite (Ho _ Hin). by eexists. }
  assert (forall L, inorder (plug c (remove_focus a k l r)) = L -> sorted key L ->
    ravl_rep key s' L) as Hmk.
  { intros L HL HsL. eexists. split_and!; [exact Hz'|exact HL|exact HsL| | |].
    - apply ranks_plug in Hok as [Hok Hc]. apply ranks_plug.
      destruct (remove_focus_ok _ _ _ _ Hok). split; [done|]. by eapply ctx_ranks_mono.
    - destruct Hm as (_ & _ & -> & _). intros x Hx. rewrite Hlive.
      apply elem_of_dom in Hx. rewrite Hdom in Hx. apply elem_of_difference in Hx as [Hx Hne].
      rewrite elem_of_singleton in Hne. rewrite lookup_delete_ne by done.
      by apply Ho, elem_of_dom.
    - intros x Hx. apply elem_of_dom in Hx. rewrite Hdom in Hx.
      apply elem_of_difference in Hx as [Hx Hne]. rewrite elem_of_singleton in Hne.
      apply elem_of_dom, Hd in Hx. rewrite Hperm, elem_of_cons in Hx. tauto. }
  split; [done|]. rewrite inorder_plug in Hmk.
  destruct (remove_cases a k l r) as [[Hf Hi]|(b & e & R & Hr & Hf & Hi)];
    rewrite Hi in Hmk; rewrite Hf in Hlive.
  - left. split; [|done]. apply Hmk; [by rewrite <- E1, <- E2, <- !app_assoc|].
    eapply sorted_sublist; [|exact Hs]. apply sublist_app; [done|]. by apply sublist_cons.
  - right. exists b, e, (R ++ cr c). rewrite <- E2, Hr. split_and!; [done| |done].
    apply Hmk; [by rewrite <- E1, <- !app_assoc; simpl|].
    rewrite <- E2, Hr in Hs. eapply sorted_retag; exact Hs.
Qed.
End Remove.

(** The callback run over a list of data, [None] once it fails. *)
Fixpoint cb_fold {A B} (cb : option (A -> B -> option B)) (L : list A) (arg : B) : option B :=
  match L with
  | [] => Some arg
  | d :: L =>
      match (match cb with Some f => f d arg | None => Some arg end) with
      | Some b => cb_fold cb L b
      | None => None
      end
  end.

Lemma cb_fold_app {A B} (cb : option (A -> B -> option B)) (L1 L2 : list A) arg b :
  cb_fold cb (L1 ++ L2) arg = Some b ->
  exists b1, cb_fold cb L1 arg = Some b1 /\ cb_fold cb L2 b1 = Some b.
Proof.
  revert arg. induction L1 as [|d L1 IH]; intros arg; simpl; [by eauto|].
  by destruct (match cb with Some f => f d arg | None => Some arg end); auto.
Qed.

Lemma cb_fold_cons {A B} (cb : option (A -> B -> option B)) (d : A) L arg b :
  cb_fold cb (d :: L) arg = Some b ->
  exists b1, match cb with Some f => f d arg | None => Some arg end = Some b1 /\
    cb_fold cb L b1 = Some b.
Proof. simpl. destruct cb as [f|]; [destruct (f d arg)|]; eauto. by intros. Qed.

Lemma cb_fold_None {A B} (L : list A) (arg : B) : cb_fold None L arg = Some arg.
Proof. by induction L. Qed.

Section Traverse.
Context {H A B : Type} `{HostAllocLaws H}.
Variable key : A -> Z.
Variable cb : option (A -> B -> option B).
Implicit Types (t l r : tree A) (s : rstate H A).

(** [s'] is [s] without the nodes [F], each of them given back. *)
Definition released (F : list Z) s s' : Prop :=
  same_meta s s' /\ root (r_ravl s') = root (r_ravl s) /\
  (forall x, x ∈ F -> nodes (r_ravl s') !! x = None /\ ba_live (r_host s') !! x = None) /\
  (forall x, x ∉ F -> nodes (r_ravl s') !! x = nodes (r_ravl s) !! x /\
                      ba_live (r_host s') !! x = ba_live (r_host s) !! x).

Lemma released_nil s : released [] s s.
Proof.
  split; [split_and!; auto with umf|]. split_and!; [done| |done].
  intros x Hx. by apply not_elem_of_nil in Hx.
Qed.

Lemma released_trans F1 F2 F s1 s2 s3 :
  released F1 s1 s2 -> released F2 s2 s3 -> (forall x, x ∈ F <-> x ∈ F1 \/ x ∈ F2) ->
  released F s1 s3.
Proof.
  intros (Hm1 & Hr1 & Hin1 & Hout1) (Hm2 & Hr2 & Hin2 & Hout2) HF.
  split_and!; [by eapply same_meta_trans|congruence| |].
  - intros x Hx. destruct (decide (x ∈ F2)) as [|Hn]; [by apply Hin2|].
    destruct (Hout2 x Hn) as [-> ->]. apply HF in Hx as [|]; [by apply Hin1|done].
  - intros x Hx. rewrite HF in Hx. destruct (Hout2 x) as [-> ->]; [tauto|].
    apply Hout1. tauto.
Qed.

Lemma released_tree F s s' p t :
  released F s s' -> (forall x, x ∈ addrs t -> x ∉ F) ->
  tree_at (nodes (r_ravl s)) p t -> tree_at (nodes (r_ravl s')) p t.
Proof.
  intros (_ & _ & _ & Hout) Hd. revert p. induction t as [|a k l IHl r IHr]; intros p; [done|].
  simpl. intros (Ha & Hl & Hr). split_and!.
  - destruct (Hout a) as [-> _]; [apply Hd; constructor|done].
  - apply IHl; [|done]. intros x Hx. apply Hd. right. apply elem_of_app. by left.
  - apply IHr; [|done]. intros x Hx. apply Hd. right. apply elem_of_app. by right.
Qed.

Lemma released_one s a :
  is_Some (ba_live (r_host s) !! a) ->
  released [a] s (with_host (umf_ba_global_free a (r_host s))
                    (with_nodes (delete a (nodes (r_ravl s))) s)).
Proof.
  intros Ha. split; [split_and!; simpl; auto with umf|].
  split_and!; try done; simpl; rewrite ba_free_live by done;
    intros x; rewrite list_elem_of_singleton.
  - intros ->. by rewrite !lookup_delete_eq.
  - intros Hx. by rewrite !lookup_delete_ne.
Qed.

Lemma wp_foreach_node fuel s p t arg b (Q : B -> rstate H A -> Prop) :
  tree_at (nodes (r_ravl s)) p t -> (height t <= fuel)%nat ->
  cb_fold cb (inorder t).*2 arg = Some b -> Q b s ->
  wp (ravl_foreach_node cb fuel (troot t) arg false) Q s.
Proof.
  revert fuel p arg b Q. induction t as [|a k l IHl r IHr]; intros fuel p arg b Q Ht Hf Hc HQ.
  { simpl in Hc. simplify_eq. destruct fuel; by apply wp_ret. }
  destruct fuel as [|fuel]; simpl in Hf; [lia|]. destruct Ht as (Ha & Hl & Hr). simpl.
  simpl in Hc. rewrite fmap_app in Hc. apply cb_fold_app in Hc as (b1 & Hc1 & Hc).
  apply cb_fold_cons in Hc as (b2 & Hc2 & Hc3).
  apply wp_bind. eapply wp_load; [done|]. simpl.
  apply wp_bind. eapply IHl; [done|lia|done|].
  apply wp_bind. assert (forall Q : B -> rstate H A -> Prop, Q b2 s -> wp (match cb with
      | Some f => of_option (f (c_data k) b1) | None => mret b1 end) Q s) as Hcb.
  { intros Q' HQ'. destruct cb; [by eapply wp_of_option|]. simplify_eq. by apply wp_ret. }
  apply Hcb. apply wp_bind. eapply wp_load; [done|]. simpl.
  apply wp_bind. eapply IHr; [done|lia|done|]. wp_step. by apply wp_ret.
Qed.

Lemma wp_foreach_free fuel s p t arg b (Q : B -> rstate H A -> Prop) :
  tree_at (nodes (r_ravl s)) p t -> (height t <= fuel)%nat -> NoDup (addrs t) ->
  owned (node_tag (r_ravl s)) (nodes (r_ravl s)) (r_host s) ->
  cb_fold cb (inorder t).*2 arg = Some b ->
  (forall s', released (addrs t) s s' -> Q b s') ->
  wp (ravl_foreach_node cb fuel (troot t) arg true) Q s.
Proof.
  revert fuel s p arg b Q.
  induction t as [|a k l IHl r IHr]; intros fuel s p arg b Q Ht Hf Hnd Ho Hc HQ.
  { simpl in Hc. simplify_eq.
    destruct fuel; apply wp_ret, HQ, released_nil. }
  destruct fuel as [|fuel]; simpl in Hf; [lia|]. destruct Ht as (Ha & Hl & Hr). simpl.
  simpl in Hc. rewrite fmap_app in Hc. apply cb_fold_app in Hc as (b1 & Hc1 & Hc).
  apply cb_fold_cons in Hc as (b2 & Hc2 & Hc3). simpl in Hnd.
  apply list.NoDup_cons in Hnd as [Hna Hnd]. rewrite not_elem_of_app in Hna.
  destruct Hna as [Hnl Hnr]. apply NoDup_app in Hnd as (Hndl & Hdis & Hndr).
  apply wp_bind. eapply wp_load; [done|]. simpl.
  apply wp_bind. eapply IHl; [done|lia|done|done|done|]. intros s1 Hrel1.
  apply wp_bind. assert (forall (Q : B -> rstate H A -> Prop) s, Q b2 s -> wp (match cb with
      | Some f => of_option (f (c_data k) b1) | None => mret b1 end) Q s) as Hcb.
  { intros Q' s' HQ'. destruct cb; [by eapply wp_of_option|]. simplify_eq. by apply wp_ret. }
  apply Hcb. clear Hcb. pose proof Hrel1 as ((_ & _ & Htag & _) & _ & Hin1 & Hout1).
  apply wp_bind. eapply wp_load; [by rewrite (proj1 (Hout1 a Hnl))|]. simpl.
  apply wp_bind. eapply IHr; [|lia|done| |done|].
  { eapply released_tree; [done| |done]. intros x Hx Hx'. by apply (Hdis x). }
  { rewrite Htag. intros x Hx. destruct (decide (x ∈ addrs l)) as [Hxl|Hxl].
    - rewrite (proj1 (Hin1 x Hxl)) in Hx. by destruct Hx.
    - destruct (Hout1 x Hxl) as [E1 ->]. apply Ho. by rewrite <- E1. }
  intros s2 Hrel2. wp_step. apply wp_ret, HQ.
  eapply (released_trans (addrs l ++ addrs r) [a]).
  - eapply released_trans; [exact Hrel1|exact Hrel2|]. intros x. apply elem_of_app.
  - apply released_one. pose proof Hrel2 as (_ & _ & _ & Hout2).
    rewrite (proj2 (Hout2 a Hnr)), (proj2 (Hout1 a Hnl)), (Ho a); by eexists.
  - intros x. rewrite list_elem_of_singleton; simpl; rewrite elem_of_cons. tauto.
Qed.
End Traverse.

Section Whole.
Context {H A : Type} `{HostAllocLaws H}.
Variable key : A -> Z.
Implicit Types (t l r : tree A) (s : rstate H A) (L : list (Z * A)).

#[local] Arguments ravl_foreach_node : simpl never.
#[local] Arguments ravl_node_type_most : simpl never.

Lemma wp_foreach {B} (cb : option (A -> B -> option B)) s L arg b
    (Q : B -> rstate H A -> Prop) :
  ravl_rep key s L -> cb_fold cb L.*2 arg = Some b -> Q b s -> wp (ravl_foreach cb arg) Q s.
Proof.
  intros (t & Hz & <- & _) Hc HQ. unfold ravl_foreach, loop_bound. wp_step. wp_step.
  pose proof (zip_loop_bound _ _ _ Hz) as Hb. rewrite length_app, length_addrs in Hb.
  pose proof (height_tsize t). destruct Hz as (Ht & _ & -> & _).
  eapply wp_foreach_node; [exact Ht|simpl in *; lia|done|done].
Qed.

(** What is left of the live blocks once the nodes of [L] are freed. *)
Definition freed_all L (s s' : rstate H A) : Prop :=
  forall x, ba_live (r_host s') !! x =
    if decide (x ∈ L.*1) then None else ba_live (r_host s) !! x.

Lemma wp_foreach_release {B} (cb : option (A -> B -> option B)) s L arg b
    (Q : B -> rstate H A -> Prop) :
  ravl_rep key s L -> cb_fold cb L.*2 arg = Some b ->
  (forall s', same_meta s s' -> nodes (r_ravl s') = ∅ -> freed_all L s s' -> Q b s') ->
  wp (s ← get; fuel ← loop_bound; ravl_foreach_node cb fuel (root (r_ravl s)) arg true) Q s.
Proof.
  intros (t & Hz & <- & _ & _ & Ho & Hd) Hc HQ. unfold loop_bound. wp_step. wp_step.
  pose proof (zip_loop_bound _ _ _ Hz) as Hb. rewrite length_app, length_addrs in Hb.
  pose proof (height_tsize t). destruct Hz as (Ht & _ & -> & Hnd). simpl in Hnd.
  rewrite app_nil_r in Hnd.
  eapply wp_foreach_free; [exact Ht|simpl in *; lia|done|done|done|].
  intros s' (Hm & _ & Hin & Hout). apply HQ; [done| |].
  - apply map_empty. intros x. destruct (decide (x ∈ addrs t)) as [Hx|Hx]; [by apply Hin|].
    rewrite (proj1 (Hout x Hx)). apply eq_None_not_Some. by intros ?%Hd.
  - intros x. case_decide as Hx; rewrite addrs_inorder in Hx; [by apply Hin|by apply Hout].
Qed.

Lemma wp_clear s L (Q : unit -> rstate H A -> Prop) :
  ravl_rep key s L ->
  (forall s', ravl_rep key s' [] -> same_meta s s' -> freed_all L s s' -> Q tt s') ->
  wp ravl_clear Q s.
Proof.
  intros Hrep HQ. unfold ravl_clear.
  assert (wp ((s ← get; fuel ← loop_bound;
    ravl_foreach_node None fuel (root (r_ravl s)) tt true);; modify (with_root None)) Q s) as Hw;
    [|exact Hw].
  apply wp_bind. eapply wp_foreach_release; [done|apply cb_fold_None|].
  intros s' Hm Hn Hf. apply wp_modify, HQ; [|done|done].
  exists Null. unfold zip_at, sorted. simpl. rewrite Hn. split_and!; try done; try constructor.
  - intros a Ha. rewrite lookup_empty in Ha. by destruct Ha.
  - intros a Ha. rewrite lookup_empty in Ha. by destruct Ha.
Qed.

Lemma wp_delete_cb {B} (cb : option (A -> B -> option B)) s L arg b
    (Q : B -> rstate H A -> Prop) :
  ravl_rep key s L -> cb_fold cb L.*2 arg = Some b -> self (r_ravl s) ∉ L.*1 ->
  is_Some (ba_live (r_host s) !! self (r_ravl s)) ->
  (forall s', (forall x, ba_live (r_host s') !! x =
      if decide (x = self (r_ravl s) \/ x ∈ L.*1) then None else ba_live (r_host s) !! x) ->
    Q b s') ->
  wp (ravl_delete_cb cb arg) Q s.
Proof.
  intros Hrep Hc Hself Hlive HQ. unfold ravl_delete_cb.
  assert (wp (arg ← (s ← get; fuel ← loop_bound;
    ravl_foreach_node cb fuel (root (r_ravl s)) arg true);
    modify (fun s => with_host (umf_ba_global_free (self (r_ravl s)) (r_host s)) s);;
    mret arg) Q s) as Hw; [|exact Hw].
  apply wp_bind. eapply wp_foreach_release; [done|done|].
  intros s' (Hm & _) Hn Hf. wp_step. apply wp_ret, HQ. intros x. simpl. rewrite Hm.
  rewrite ba_free_live by (by rewrite Hf, decide_False).
  case_decide as Hx; [|rewrite lookup_delete_ne by naive_solver].
  - destruct (decide (x = self (r_ravl s))) as [->|Hne]; [by rewrite lookup_delete_eq|].
    rewrite lookup_delete_ne by done. rewrite Hf, decide_True; [done|tauto].
  - rewrite Hf, decide_False; [done|tauto].
Qed.

Lemma wp_first s L (Q : option Z -> rstate H A -> Prop) :
  ravl_rep key s L -> Q (fst <$> head L) s -> wp ravl_first Q s.
Proof.
  intros (t & Hz & <- & _) HQ. unfold ravl_first, loop_bound. wp_step. wp_step.
  pose proof (zip_loop_bound _ _ _ Hz) as Hb. rewrite length_app, length_addrs in Hb.
  pose proof (height_tsize t). pose proof Hz as (_ & _ & -> & _). simpl ctop.
  destruct t as [|a k l r]; [by apply wp_ret|]. simpl troot. cbv iota.
  pose proof (leftmost_inorder (Node a k l r)) as Hl.
  destruct (leftmost (Node a k l r)) as [[b kb]|] eqn:E; [|by apply leftmost_node in E].
  apply wp_bind. eapply wp_leftmost; [done|simpl in *; lia|done|].
  apply wp_ret. by rewrite <- Hl in HQ.
Qed.

Lemma wp_last s L (Q : option Z -> rstate H A -> Prop) :
  ravl_rep key s L -> Q (fst <$> last L) s -> wp ravl_last Q s.
Proof.
  intros (t & Hz & <- & _) HQ. unfold ravl_last, loop_bound. wp_step. wp_step.
  pose proof (zip_loop_bound _ _ _ Hz) as Hb. rewrite length_app, length_addrs in Hb.
  pose proof (height_tsize t). pose proof Hz as (_ & _ & -> & _). simpl ctop.
  destruct t as [|a k l r]; [by apply wp_ret|]. simpl troot. cbv iota.
  pose proof (rightmost_inorder (Node a k l r)) as Hl.
  destruct (rightmost (Node a k l r)) as [[b kb]|] eqn:E; [|by apply rightmost_node in E].
  apply wp_bind. eapply wp_rightmost; [done|simpl in *; lia|done|].
  apply wp_ret. by rewrite <- Hl in HQ.
Qed.

Lemma wp_empty s L (Q : bool -> rstate H A -> Prop) :
  ravl_rep key s L -> Q (bool_decide (L = [])) s -> wp ravl_empty Q s.
Proof.
  intros (t & Hz & <- & _) HQ. unfold ravl_empty. wp_step. apply wp_ret.
  destruct Hz as (_ & _ & -> & _). simpl ctop. revert HQ.
  by destruct t as [|a k l r]; simpl; repeat case_bool_decide; try done;
    destruct (inorder l).
Qed.

Lemma ravl_new_rep tg ds (h h' : H) (r : ravl A) :
  ravl_new_sized (A := A) tg ds h = (Some r, h') ->
  ravl_rep key (mk_rstate r h') [] /\ node_tag r = tg /\ data_size r = ds /\
  ba_live h !! self r = None /\
  ba_live h' = <[self r := "struct ravl"%string]> (ba_live h).
Proof.
  unfold ravl_new_sized. destruct (umf_ba_global_alloc _ _ h) as [[a|] h1] eqn:E;
    intros [= <- <-]. apply ba_alloc_some in E as [E1 E2]. split_and!; try done.
  exists Null. unfold zip_at, sorted. simpl. split_and!; try done; try constructor.
  - intros x Hx. rewrite lookup_empty in Hx. by destruct Hx.
  - intros x Hx. rewrite lookup_empty in Hx. by destruct Hx.
Qed.
End Whole.
