(* ===== verification/RavlMap.v ===== *)
(** * The RAVL tree as a finite map

    [map_of L] is the map from keys to data that the nodes [L] hold.
    [ravl_spec] says what inserting, searching and removing do to that map and
    what they answer; [wp_run_ops] shows that every sequence of these
    operations on ravl.c follows it.  A search with any of the five predicates
    finds the admissible key nearest to the one searched for. *)

From S2P Require Import Prelude Utils HostMem Ravl RavlSpec RavlRemove.
From stdpp Require Import strings sorting.
#[local] Open Scope Z_scope.

Lemma sorted_filter {B} (R : B -> B -> Prop) (Pr : B -> Prop) `{!forall x, Decision (Pr x)} (L : list B) :
  StronglySorted R L -> StronglySorted R (filter Pr L).
Proof.
  induction 1 as [|x L Hs IH Hf]; [constructor|]. rewrite filter_cons. case_decide; [|done].
  constructor; [done|]. rewrite Forall_forall in Hf |- *. intros y [_ Hy]%list_elem_of_filter. auto.
Qed.

Section MapOf.
Context {A : Type}.
Variable key : A -> Z.
Implicit Types (L : list (Z * A)) (m : gmap Z A).

Definition map_of L : gmap Z A := list_to_map ((fun p => (key p.2, p.2)) <$> L).

Lemma sorted_keys L : sorted key L -> NoDup (((fun p : Z * A => (key p.2, p.2)) <$> L).*1).
Proof.
  unfold sorted. induction 1 as [|p L Hs IH Hf]; simpl; constructor; [|done].
  rewrite list_elem_of_fmap. intros ([k d] & E & Hin). apply list_elem_of_fmap in Hin as (q & Eq & Hq).
  rewrite Forall_forall in Hf. specialize (Hf q Hq). simplify_eq/=. lia.
Qed.

Lemma map_of_lookup L k d :
  sorted key L -> map_of L !! k = Some d <-> exists a, (a, d) ∈ L /\ key d = k.
Proof.
  intros Hs. unfold map_of. rewrite <- elem_of_list_to_map by (by apply sorted_keys).
  rewrite list_elem_of_fmap. split.
  - intros ([a d'] & [= -> ->] & Hin). eauto.
  - intros (a & Hin & <-). by exists (a, d).
Qed.

Lemma map_of_some L k :
  sorted key L -> is_Some (map_of L !! k) <-> exists p, p ∈ L /\ key p.2 = k.
Proof.
  intros Hs. split.
  - intros [d Hd]. apply map_of_lookup in Hd as (a & Hin & E); [|done]. by exists (a, d).
  - intros ([a d] & Hin & E). exists d. apply map_of_lookup; eauto.
Qed.

Lemma map_of_insert L1 n d L2 :
  Forall (fun p => key p.2 < key d) L1 -> Forall (fun p => key d < key p.2) L2 ->
  map_of (L1 ++ (n, d) :: L2) = <[key d := d]> (map_of (L1 ++ L2)).
Proof.
  intros H1 _. unfold map_of. induction H1 as [|p L1 Hp H1 IH]; csimpl; [done|].
  simpl in IH. rewrite IH. rewrite insert_insert_ne; [done|]. lia.
Qed.

Lemma map_of_delete L1 a d L2 :
  sorted key (L1 ++ (a, d) :: L2) ->
  map_of (L1 ++ L2) = delete (key d) (map_of (L1 ++ (a, d) :: L2)).
Proof.
  intros Hs. unfold sorted in Hs. rewrite StronglySorted_app, StronglySorted_cons in Hs.
  destruct Hs as (H12 & Hs1 & Hf & Hs2).
  assert (sorted key (L1 ++ L2)) as Hs12.
  { apply StronglySorted_app. split_and!; [|done|done]. intros p q Hp Hq. apply H12; [done|]. by right. }
  rewrite (map_of_insert L1 a d L2).
  - rewrite delete_insert_id; [done|]. apply eq_None_not_Some. intros Hx.
    apply map_of_some in Hx as (q & Hq & E); [|done]. rewrite elem_of_app in Hq. destruct Hq as [Hq|Hq].
    + specialize (H12 q (a, d) Hq ltac:(constructor)). simpl in H12. lia.
    + rewrite Forall_forall in Hf. specialize (Hf q Hq). simpl in Hf. lia.
  - rewrite Forall_forall. intros q Hq. apply (H12 q (a, d) Hq). constructor.
  - eapply Forall_impl; [exact Hf|]. done.
Qed.

(** *** Nearest admissible key *)

Definition admissible (flags x k : Z) : Prop :=
  (has_flag flags RAVL_PREDICATE_EQUAL = true /\ k = x) \/
  (has_flag flags RAVL_PREDICATE_GREATER = true /\ x < k) \/
  (has_flag flags RAVL_PREDICATE_LESS = true /\ k < x).

Definition nearest (flags x : Z) m (o : option A) : Prop :=
  match o with
  | None => forall k, is_Some (m !! k) -> ~ admissible flags x k
  | Some d => m !! key d = Some d /\ admissible flags x (key d) /\
      forall k, is_Some (m !! k) -> admissible flags x k -> Z.abs (key d - x) <= Z.abs (k - x)
  end.

Lemma head_filter (Pr : Z * A -> Prop) `{!forall p, Decision (Pr p)} L :
  sorted key L ->
  match head (filter Pr L) with
  | Some p => p ∈ L /\ Pr p /\ forall q, q ∈ L -> Pr q -> key p.2 <= key q.2
  | None => forall q, q ∈ L -> ~ Pr q
  end.
Proof.
  intros Hs. pose proof (sorted_filter _ Pr L Hs) as Hsf.
  destruct (filter Pr L) as [|p L'] eqn:E; simpl.
  - intros q Hq Hp. assert (q ∈ filter Pr L) as Hin by (by apply list_elem_of_filter).
    rewrite E in Hin. by apply elem_of_nil in Hin.
  - assert (p ∈ filter Pr L) as [Hp Hin]%list_elem_of_filter by (rewrite E; constructor).
    split_and!; [done|done|]. intros q Hq Hpq.
    assert (q ∈ filter Pr L) as Hqf by (by apply list_elem_of_filter). rewrite E in Hqf.
    apply StronglySorted_cons in Hsf as [Hf _]. rewrite Forall_forall in Hf.
    apply elem_of_cons in Hqf as [->|Hqf]; [done|]. specialize (Hf q Hqf). simpl in Hf. lia.
Qed.

Lemma last_filter (Pr : Z * A -> Prop) `{!forall p, Decision (Pr p)} L :
  sorted key L ->
  match last (filter Pr L) with
  | Some p => p ∈ L /\ Pr p /\ forall q, q ∈ L -> Pr q -> key q.2 <= key p.2
  | None => forall q, q ∈ L -> ~ Pr q
  end.
Proof.
  intros Hs. pose proof (sorted_filter _ Pr L Hs) as Hsf.
  assert (forall q, q ∈ L -> Pr q -> q ∈ filter Pr L) as Hin by (intros; by apply list_elem_of_filter).
  destruct (last (filter Pr L)) as [p|] eqn:E.
  - apply last_Some in E as [L' E]. rewrite E in Hsf, Hin.
    assert (p ∈ filter Pr L) as [Hp Hpl]%list_elem_of_filter
      by (rewrite E, elem_of_app; right; constructor).
    split_and!; [done|done|]. intros q Hq Hpq. specialize (Hin q Hq Hpq).
    rewrite elem_of_app, list_elem_of_singleton in Hin. destruct Hin as [Hin| ->]; [|done].
    apply StronglySorted_app in Hsf as (H12 & _). specialize (H12 q p Hin ltac:(constructor)).
    simpl in H12. lia.
  - apply last_None in E. intros q Hq Hpq. specialize (Hin q Hq Hpq). rewrite E in Hin.
    by apply elem_of_nil in Hin.
Qed.

(** The node found holds the nearest admissible key. *)
Definition found_node L (o : option (Z * A)) (flags x : Z) : Prop :=
  match o with
  | Some p => p ∈ L /\ admissible flags x (key p.2) /\
      forall q, q ∈ L -> admissible flags x (key q.2) -> Z.abs (key p.2 - x) <= Z.abs (key q.2 - x)
  | None => forall q, q ∈ L -> ~ admissible flags x (key q.2)
  end.

Lemma found_nearest L o flags x :
  sorted key L -> found_node L o flags x -> nearest flags x (map_of L) (snd <$> o).
Proof.
  intros Hs Hf. destruct o as [[a d]|]; simpl in *.
  - destruct Hf as (Hin & Hadm & Hmin). split_and!; [|done|].
    + apply map_of_lookup; eauto.
    + intros k Hk Hadm'. apply map_of_some in Hk as (q & Hq & <-); [|done]. auto.
  - intros k Hk. apply map_of_some in Hk as (q & Hq & <-); [|done]. auto.
Qed.

Ltac unfold_admissible :=
  match goal with Hadm : _ \/ _ \/ _ |- _ => destruct Hadm as [[? ?]|[[? ?]|[? ?]]]; try discriminate end.
Ltac solve_admissible := first
  [ left; split; [reflexivity|lia] | right; left; split; [reflexivity|lia]
  | right; right; split; [reflexivity|lia]
  | match goal with |- _ /\ ?k = ?x \/ _ => destruct (Z.eq_dec k x) end;
    [left; split; [reflexivity|lia]|right; solve [left; split; [reflexivity|lia]|right; split; [reflexivity|lia]]] ].

Lemma find_list_found L flags x :
  sorted key L -> valid_predicate flags ->
  exists o, find_list key flags x L = fst <$> o /\ found_node L o flags x.
Proof.
  intros Hs Hv. unfold valid_predicate in Hv. rewrite !elem_of_cons, elem_of_nil in Hv.
  unfold find_list, find_eq, find_ge, find_gt, find_le, find_lt, found_node, admissible.
  destruct Hv as [->|[->|[->|[->|[->|[]]]]]]; vm_compute has_flag; cbv iota;
    (eexists; split; [reflexivity|];
    lazymatch goal with
    | |- context [head (filter ?Pr _)] => pose proof (head_filter Pr L Hs) as Hf; destruct (head (filter Pr L))
    | |- context [last (filter ?Pr _)] => pose proof (last_filter Pr L Hs) as Hf; destruct (last (filter Pr L))
    end; simpl in Hf;
    [ destruct Hf as (Hin & Hpr & Hmin); split_and!; [done|solve_admissible|];
      intros q Hq Hadm; specialize (Hmin q Hq); unfold_admissible; lia
    | intros q Hq Hadm; apply (Hf q Hq); unfold_admissible; lia ]).
Qed.
End MapOf.

(** ** Sequences of operations *)

Inductive ravl_op (A : Type) := OpInsert (d : A) | OpFind (d : A) (flags : Z) | OpRemove (d : A).
Arguments OpInsert {A}.
Arguments OpFind {A}.
Arguments OpRemove {A}.

Inductive ravl_res (A : Type) := ResInt (rv : Z) | ResData (o : option A).
Arguments ResInt {A}.
Arguments ResData {A}.

(** What an operation may answer and do to the map.  An insertion of a new key
    fails only if the host has no memory for the node. *)
Inductive ravl_spec {A} (key : A -> Z) (reliable : bool) (m : gmap Z A)
  : ravl_op A -> ravl_res A -> gmap Z A -> Prop :=
| spec_insert d : m !! key d = None ->
    ravl_spec key reliable m (OpInsert d) (ResInt 0) (<[key d := d]> m)
| spec_insert_fails d : is_Some (m !! key d) \/ reliable = false ->
    ravl_spec key reliable m (OpInsert d) (ResInt (-1)) m
| spec_find d flags o : nearest key flags (key d) m o ->
    ravl_spec key reliable m (OpFind d flags) (ResData o) m
| spec_remove d o : o = m !! key d ->
    ravl_spec key reliable m (OpRemove d) (ResData o) (delete (key d) m).

Inductive ravl_specs {A} (key : A -> Z) (reliable : bool)
  : gmap Z A -> list (ravl_op A) -> list (ravl_res A) -> gmap Z A -> Prop :=
| specs_nil m : ravl_specs key reliable m [] [] m
| specs_cons m op res m1 ops rs m2 :
    ravl_spec key reliable m op res m1 -> ravl_specs key reliable m1 ops rs m2 ->
    ravl_specs key reliable m (op :: ops) (res :: rs) m2.

Section Run.
Context {H A : Type} `{HostAllocLaws H}.
Context (T : list string) (ok : H -> Prop) `{!Reliable T ok}.
Variables (compare : A -> A -> Z) (key : A -> Z).
Context `{!KeyCompare compare key}.
Implicit Types (s : rstate H A) (L : list (Z * A)).

Definition read_node (o : option Z) : M (rstate H A) (ravl_res A) :=
  match o with
  | Some n => d ← ravl_data n; mret (ResData (Some d))
  | None => mret (ResData None)
  end.

Definition run_op (op : ravl_op A) : M (rstate H A) (ravl_res A) :=
  match op with
  | OpInsert d => rv ← ravl_insert compare d; mret (ResInt rv)
  | OpFind d flags => o ← ravl_find compare d flags; read_node o
  | OpRemove d =>
      o ← ravl_find compare d RAVL_PREDICATE_EQUAL;
      res ← read_node o;
      match o with Some n => ravl_remove n | None => mret tt end;;
      mret res
  end.

Fixpoint run_ops (ops : list (ravl_op A)) : M (rstate H A) (list (ravl_res A)) :=
  match ops with
  | [] => mret []
  | op :: ops => r ← run_op op; rs ← run_ops ops; mret (r :: rs)
  end.

Definition op_ok (op : ravl_op A) : Prop :=
  match op with OpFind _ flags => valid_predicate flags | _ => True end.

(** Whether the nodes of this tree are of a type whose allocations succeed. *)
Definition node_reliable s : bool := bool_decide (node_tag (r_ravl s) ∈ T).

Definition op_post s L (op : ravl_op A) (res : ravl_res A) s' : Prop :=
  node_tag (r_ravl s') = node_tag (r_ravl s) /\ ok (r_host s') /\
  exists L', ravl_rep key s' L' /\
    ravl_spec key (node_reliable s) (map_of key L) op res (map_of key L').

Lemma rep_is_sorted s L : ravl_rep key s L -> sorted key L.
Proof. by intros (t & _ & _ & Hs & _). Qed.

Lemma wp_read_node s L o flags x (Q : ravl_res A -> rstate H A -> Prop) :
  ravl_rep key s L -> found_node key L o flags x ->
  Q (ResData (snd <$> o)) s -> wp (read_node (fst <$> o)) Q s.
Proof.
  intros Hrep Hf HQ. destruct o as [[a d]|]; simpl; [|by apply wp_ret].
  destruct Hf as [Hin _]. apply list_elem_of_split in Hin as (L1 & L2 & ->).
  apply wp_bind. eapply wp_data_rep; [exact Hrep|]. by apply wp_ret.
Qed.

Lemma wp_op_insert s L d :
  ravl_rep key s L -> ok (r_host s) -> wp (run_op (OpInsert d)) (op_post s L (OpInsert d)) s.
Proof.
  intros Hrep Hok. pose proof (rep_is_sorted _ _ Hrep) as Hs. simpl. apply wp_bind.
  eapply wp_mono; [by eapply (wp_emplace compare key)|].
  intros rv s' ((_ & _ & Htag & Hst) & Hpost). apply wp_ret. split; [done|].
  split; [by eapply (reliable_steps T ok)|].
  destruct Hpost as [(-> & n & L1 & L2 & -> & Hrep' & H1' & H2' & _)|(-> & Hrep' & _ & _ & Hwhy)].
  - exists (L1 ++ (n, d) :: L2). split; [done|]. rewrite map_of_insert by done. apply spec_insert.
    apply eq_None_not_Some. intros Hx. apply map_of_some in Hx as (q & Hq & E); [|done].
    rewrite Forall_forall in H1', H2'. rewrite elem_of_app in Hq. destruct Hq as [Hq|Hq].
    + specialize (H1' q Hq). simpl in H1'. lia.
    + specialize (H2' q Hq). simpl in H2'. lia.
  - exists L. split; [done|]. apply spec_insert_fails. destruct Hwhy as [Hno|(p & Hp & E)].
    + right. unfold node_reliable. apply bool_decide_eq_false. intros Hin.
      by apply (reliable_alloc (T := T) _ (sizeof_ravl_node + data_size (r_ravl s)) _ Hok Hin).
    + left. apply map_of_some; eauto.
Qed.

Lemma wp_op_find s L d flags :
  ravl_rep key s L -> ok (r_host s) -> valid_predicate flags ->
  wp (run_op (OpFind d flags)) (op_post s L (OpFind d flags)) s.
Proof.
  intros Hrep Hok Hv. pose proof (rep_is_sorted _ _ Hrep) as Hs. simpl. apply wp_bind.
  destruct (find_list_found key L flags (key d) Hs Hv) as (o & E & Hf).
  eapply (wp_find compare key); [exact Hrep|done|]. rewrite E.
  eapply wp_read_node; [exact Hrep|exact Hf|]. split; [done|]. split; [done|].
  exists L. split; [done|]. apply spec_find. by apply found_nearest.
Qed.

(** Removing node [a] removes the key of its data. *)
Lemma removed_map s L1 a d L2 s' :
  sorted key (L1 ++ (a, d) :: L2) -> remove_post key s a L1 L2 s' ->
  exists L', ravl_rep key s' L' /\ map_of key L' = delete (key d) (map_of key (L1 ++ (a, d) :: L2)).
Proof.
  intros Hs [_ [[Hrep _]|(b & e & L2' & -> & Hrep & _)]]; eexists; (split; [exact Hrep|]).
  - by apply (map_of_delete key L1 a).
  - rewrite <- (map_of_delete key L1 a) by done. unfold map_of. by rewrite !fmap_app.
Qed.

Lemma wp_op_remove s L d :
  ravl_rep key s L -> ok (r_host s) -> wp (run_op (OpRemove d)) (op_post s L (OpRemove d)) s.
Proof.
  intros Hrep Hok. pose proof (rep_is_sorted _ _ Hrep) as Hs. simpl. apply wp_bind.
  assert (valid_predicate RAVL_PREDICATE_EQUAL) as Hv by (by left).
  destruct (find_list_found key L RAVL_PREDICATE_EQUAL (key d) Hs Hv) as (o & E & Hf).
  eapply (wp_find compare key); [exact Hrep|done|]. rewrite E. apply wp_bind.
  eapply wp_read_node; [exact Hrep|exact Hf|]. apply wp_bind.
  destruct o as [[a d']|]; simpl.
  - destruct Hf as (Hin & Hadm & _).
    assert (key d' = key d) as Ek by (by destruct Hadm as [[_ ?]|[[? _]|[? _]]]).
    apply list_elem_of_split in Hin as (L1 & L2 & ->).
    eapply wp_mono; [by eapply (wp_remove key)|]. intros u s' Hpost. apply wp_ret.
    pose proof Hpost as ((_ & _ & Htag & Hst) & _). split; [done|].
    split; [by eapply (reliable_steps T ok)|].
    destruct (removed_map _ _ _ _ _ _ Hs Hpost) as (L' & Hrep' & EL).
    exists L'. split; [done|]. rewrite EL, Ek. apply spec_remove. symmetry. apply map_of_lookup; [done|].
    exists a. split; [|done]. rewrite elem_of_app, elem_of_cons. auto.
  - apply wp_ret, wp_ret. split; [done|]. split; [done|]. exists L. split; [done|].
    assert (map_of key L !! key d = None) as Hn.
    { apply eq_None_not_Some. intros Hx. apply map_of_some in Hx as (q & Hq & Ek); [|done].
      apply (Hf q Hq). by left. }
    rewrite <- (delete_id (map_of key L) (key d)) at 2 by done. by apply spec_remove.
Qed.

Lemma wp_run_ops s L ops :
  ravl_rep key s L -> ok (r_host s) -> Forall op_ok ops ->
  wp (run_ops ops) (fun rs s' => exists L', ravl_rep key s' L' /\
    ravl_specs key (node_reliable s) (map_of key L) ops rs (map_of key L')) s.
Proof.
  intros Hrep Hok Hops. revert s L Hrep Hok.
  induction Hops as [|op ops Hop Hops IH]; intros s L Hrep Hok; simpl.
  - apply wp_ret. exists L. split; [done|constructor].
  - apply wp_bind. assert (wp (run_op op) (op_post s L op) s) as Hw.
    { destruct op; [by apply wp_op_insert|by apply wp_op_find|by apply wp_op_remove]. }
    eapply wp_mono; [exact Hw|]. intros r s1 (Htag & Hok1 & L1 & Hrep1 & Hspec). apply wp_bind.
    eapply wp_mono; [by apply (IH s1 L1)|]. intros rs s2 (L2 & Hrep2 & Hspecs). apply wp_ret.
    exists L2. split; [done|]. unfold node_reliable in *. rewrite Htag in Hspecs. by econstructor.
Qed.
End Run.
