(* ===== verification/RavlTheorems.v ===== *)
(** * Theorems about the RAVL tree

    The properties of ravl.c, for every tree that is represented by a list of
    nodes in ascending key order ([ravl_rep]), and a tree of four integers at
    which they are instantiated. *)

From S2P Require Import Prelude Utils HostMem Ravl RavlTree RavlSpec RavlRemove.
From S2P Require Import RavlMap.
From stdpp Require Import strings sorting.
#[local] Open Scope Z_scope.

Section Properties.
Context {H A : Type} `{HostAllocLaws H}.
Context (T : list string) (ok : H -> Prop) `{!Reliable T ok}.
Variables (compare : A -> A -> Z) (key : A -> Z).
Context `{!KeyCompare compare key}.
Implicit Types (s : rstate H A) (L : list (Z * A)).

(** C2 Refinement: every sequence of insertions, searches (with any of the
    five predicates) and removals on a RAVL tree returns, without undefined
    behaviour, and answers as a finite map from keys to data does: an
    insertion fails only for a key that is present or for want of host
    memory, a search finds the admissible key nearest to the one given, a
    removal removes exactly its key. *)
Theorem ravl_ops_refine s L ops :
  ravl_rep key s L -> ok (r_host s) -> Forall op_ok ops ->
  wp (run_ops compare ops) (fun rs s' => exists L', ravl_rep key s' L' /\
    ravl_specs key (node_reliable T s) (map_of key L) ops rs (map_of key L')) s.
Proof. by apply (wp_run_ops T ok). Qed.

(** [ravl_insert] and [ravl_emplace_copy]: the new node takes its place in
    the order and one host allocation becomes live; if the key is present or
    the host is out of memory, -1 is returned and nothing has changed. *)
Theorem ravl_emplace_correct s constructor d L :
  ravl_rep key s L -> wp (ravl_emplace compare constructor d) (emplace_post key s d L) s.
Proof. by apply wp_emplace. Qed.


(** [ravl_node_successor], [ravl_node_predecessor] and [ravl_data] of any
    node give the next and the previous node in key order and the data, and
    leave the tree as it is. *)
Theorem ravl_neighbours_correct s L1 a d L2 :
  ravl_rep key s (L1 ++ (a, d) :: L2) ->
  wp (ravl_node_successor a) (fun o s' => o = fst <$> head L2 /\ s' = s) s /\
  wp (ravl_node_predecessor a) (fun o s' => o = fst <$> last L1 /\ s' = s) s /\
  wp (ravl_data a) (fun x s' => x = d /\ s' = s) s.
Proof.
  intros Hrep. split_and!.
  - by eapply wp_successor_rep.
  - by eapply wp_predecessor_rep.
  - by eapply wp_data_rep.
Qed.

(** [ravl_foreach] calls its callback on the data of every node in
    ascending key order, each once, and leaves the tree as it is. *)
Theorem ravl_foreach_correct {B} (cb : option (A -> B -> option B)) s L arg b :
  ravl_rep key s L -> cb_fold cb L.*2 arg = Some b ->
  wp (ravl_foreach cb arg) (fun b' s' => b' = b /\ s' = s) s.
Proof. intros Hrep Hcb. by eapply wp_foreach. Qed.

(** C25 [ravl_delete_cb] calls its callback on the data of every node in key
    order and gives back the nodes and the descriptor: afterwards exactly
    those host allocations are no longer live. *)
Theorem ravl_delete_cb_correct {B} (cb : option (A -> B -> option B)) s L arg b :
  ravl_rep key s L -> cb_fold cb L.*2 arg = Some b -> self (r_ravl s) ∉ L.*1 ->
  is_Some (ba_live (r_host s) !! self (r_ravl s)) ->
  wp (ravl_delete_cb cb arg) (fun b' s' => b' = b /\ forall x, ba_live (r_host s') !! x =
    if decide (x = self (r_ravl s) \/ x ∈ L.*1) then None else ba_live (r_host s) !! x) s.
Proof. intros Hrep Hcb Hself Hlive. by eapply wp_delete_cb. Qed.
End Properties.

(** ** A tree of integers *)

Definition int_compare (a b : Z) : Z := a - b.
#[local] Instance int_key : KeyCompare int_compare (fun x => x).
Proof. by intros a b. Qed.

Definition int_tag : string := "ravl_node".
Definition int_ok (h : scripted) : Prop := s_script h = [].
#[local] Instance int_reliable : Reliable [int_tag] int_ok := scripted_reliable _.

Definition int_ravl : option (ravl Z) * scripted := ravl_new int_tag (host0 []).

Lemma int_empty :
  exists r h, int_ravl = (Some r, h) /\ ravl_rep (fun x => x) (mk_rstate r h) [] /\ int_ok h /\
    node_tag r = int_tag /\ is_Some (ba_live h !! self r).
Proof.
  destruct int_ravl as [[r|] h] eqn:E; [|by vm_compute in E]. exists r, h. split; [done|].
  unfold int_ravl, ravl_new in E.
  destruct (ravl_new_rep (fun x : Z => x) _ _ _ _ _ E) as (Hrep & Htag & _ & _ & Hl).
  split_and!; [done| |done|by rewrite Hl, lookup_insert_eq; eexists].
  unfold ravl_new_sized in E.
  destruct (umf_ba_global_alloc "struct ravl" sizeof_ravl (host0 [])) as [[a|] h1] eqn:Ea; [|done].
  injection E as _ <-.
  eapply (reliable_steps [int_tag] int_ok (host0 [])); [done|by eapply host_steps_alloc].
Qed.

Definition int_ops : list (ravl_op Z) :=
  [OpInsert 5; OpInsert 3; OpInsert 8; OpFind 6 RAVL_PREDICATE_GREATER_EQUAL; OpRemove 5; OpInsert 3].

Lemma int_ops_ok : Forall op_ok int_ops.
Proof. repeat constructor. Qed.

(** The answers of that run, computed. *)
Lemma int_run_computes :
  match int_ravl with
  | (Some r, h) => option_map fst (run_ops int_compare int_ops (mk_rstate r h))
  | _ => None
  end = Some [ResInt 0; ResInt 0; ResInt 0; ResData (Some 8); ResData (Some 5); ResInt (-1)].
Proof. vm_compute. reflexivity. Qed.

Lemma ravl_ops_refine_witness :
  exists r h, int_ravl = (Some r, h) /\
    wp (run_ops int_compare int_ops) (fun rs s' => exists L', ravl_rep (fun x => x) s' L' /\
      ravl_specs (fun x => x) true (map_of (fun x => x) []) int_ops rs (map_of (fun x => x) L'))
      (mk_rstate r h).
Proof.
  destruct int_empty as (r & h & E & Hrep & Hok & Htag & _). exists r, h. split; [exact E|].
  pose proof (ravl_ops_refine [int_tag] int_ok int_compare (fun x => x) (mk_rstate r h) [] int_ops
    Hrep Hok int_ops_ok) as Hw.
  unfold node_reliable in Hw. simpl in Hw. rewrite Htag, bool_decide_eq_true_2 in Hw by (by left).
  exact Hw.
Defined.

Lemma ravl_emplace_correct_witness :
  exists r h, int_ravl = (Some r, h) /\
    wp (ravl_emplace int_compare true 7) (emplace_post (fun x => x) (mk_rstate r h) 7 [])
      (mk_rstate r h).
Proof.
  destruct int_empty as (r & h & E & Hrep & _). exists r, h. split; [exact E|].
  apply (ravl_emplace_correct int_compare (fun x => x) (mk_rstate r h) true 7 [] Hrep).
Defined.

(** A tree that holds one node. *)
Lemma int_one :
  exists (s : rstate scripted Z) n, ravl_rep (fun x => x) s [(n, 7)] /\
    self (r_ravl s) <> n /\ is_Some (ba_live (r_host s) !! self (r_ravl s)).
Proof.
  destruct int_empty as (r & h & E & Hrep & Hok & Htag & Hlive).
  pose proof (wp_emplace int_compare (fun x => x) (mk_rstate r h) true 7 [] Hrep) as Hw.
  apply wp_run in Hw as (rv & s & _ & (Hself & _) & [Hpost|(_ & _ & _ & _ & Hwhy)]).
  - destruct Hpost as (_ & n & L1 & L2 & EL & Hrep' & _ & _ & Hn & Hl). symmetry in EL.
    apply app_eq_nil in EL as [-> ->]. exists s, n. split; [done|]. rewrite Hself. simpl in *.
    assert (self r <> n) as Hne by (intros <-; rewrite Hn in Hlive; by destruct Hlive).
    split; [done|]. by rewrite Hl, lookup_insert_ne.
  - exfalso. destruct Hwhy as [Hno|(p & Hp & _)]; [|by apply elem_of_nil in Hp].
    simpl in Hno. rewrite Htag in Hno.
    eapply (reliable_alloc (T := [int_tag]) (ok := int_ok)); [exact Hok| |exact Hno]. by left.
Qed.


Lemma ravl_neighbours_correct_witness :
  exists (s : rstate scripted Z) n,
    wp (ravl_node_successor n) (fun o s' => o = None /\ s' = s) s /\
    wp (ravl_node_predecessor n) (fun o s' => o = None /\ s' = s) s /\
    wp (ravl_data n) (fun x s' => x = 7 /\ s' = s) s.
Proof.
  destruct int_one as (s & n & Hrep & _). exists s, n.
  apply (ravl_neighbours_correct (fun x => x) s [] n 7 [] Hrep).
Defined.

Lemma ravl_foreach_correct_witness :
  exists s : rstate scripted Z,
    wp (ravl_foreach (Some (fun d acc => Some (acc + d))) 1) (fun b s' => b = 8 /\ s' = s) s.
Proof.
  destruct int_one as (s & n & Hrep & _). exists s.
  apply (ravl_foreach_correct (fun x => x) (Some (fun d acc => Some (acc + d))) s [(n, 7)] 1 8 Hrep).
  reflexivity.
Defined.

Lemma ravl_delete_cb_correct_witness :
  exists (s : rstate scripted Z) n,
    wp (ravl_delete_cb None tt) (fun b s' => b = tt /\ forall x, ba_live (r_host s') !! x =
      if decide (x = self (r_ravl s) \/ x ∈ [n]) then None else ba_live (r_host s) !! x) s.
Proof.
  destruct int_one as (s & n & Hrep & Hne & Hlive). exists s, n.
  apply (ravl_delete_cb_correct (fun x => x) None s [(n, 7)] tt tt Hrep); [reflexivity| |exact Hlive].
  simpl. by intros ?%list_elem_of_singleton.
Defined.
