(* ===== verification/Coarse.v ===== *)
(** * The coarse-grain allocator, src/coarse/coarse.c

    The blocks, the heads and the elements of the free lists live in typed
    heaps; the two RAVL trees are those of [Ravl].  Every function of coarse.c
    is a program with the same tests, calls and stores in the same order;
    asserts are part of the programs.  The provider's callbacks, the content of
    uninitialised memory and the results of pthread_mutex_lock are parameters.
    Logging is left out. *)

From S2P Require Import Prelude Utils HostMem Ravl.
From stdpp Require Import strings.
#[local] Open Scope Z_scope.

Inductive coarse_strategy_t :=
| UMF_COARSE_MEMORY_STRATEGY_FASTEST_BUT_ONE
| UMF_COARSE_MEMORY_STRATEGY_FASTEST
| UMF_COARSE_MEMORY_STRATEGY_CHECK_ALL_SIZE.

Inductive check_free_blocks_t := CHECK_ONLY_THE_FIRST_BLOCK | CHECK_ALL_BLOCKS_OF_SIZE.

Record block_t := mk_block {
  b_size : Z;
  b_data : Z;
  b_used : bool;
  b_free_list_ptr : option Z;
}.

Record ravl_data_t := mk_rd { rd_key : Z; rd_value : option Z }.
Record ravl_free_blocks_head_t := mk_head { h_head : option Z }.
Record ravl_free_blocks_elem_t := mk_elem {
  e_block : Z;
  e_next : option Z;
  e_prev : option Z;
}.

(** [P] is the state of the memory provider behind the callbacks. *)
Record coarse_callbacks_t (P : Type) := mk_cb {
  cb_alloc : option (Z -> Z -> P -> umf_result_t * option Z * P);
  cb_free : option (Z -> Z -> P -> umf_result_t * P);
  cb_split : option (Z -> Z -> Z -> P -> umf_result_t * P);
  cb_merge : option (Z -> Z -> Z -> P -> umf_result_t * P);
}.
Arguments mk_cb {P}.
Arguments cb_alloc {P}.
Arguments cb_free {P}.
Arguments cb_split {P}.
Arguments cb_merge {P}.

(** The provider handle is NULL or not; its state is [provider] below. *)
Record coarse_params_t (P : Type) := mk_params {
  p_provider : bool;
  p_cb : coarse_callbacks_t P;
  p_allocation_strategy : coarse_strategy_t;
  p_page_size : Z;
}.
Arguments mk_params {P}.
Arguments p_provider {P}.
Arguments p_cb {P}.
Arguments p_allocation_strategy {P}.
Arguments p_page_size {P}.

Record coarse_t (P : Type) := mk_coarse {
  c_self : Z;
  c_cb : coarse_callbacks_t P;
  allocation_strategy : coarse_strategy_t;
  page_size : Z;
  all_blocks : ravl ravl_data_t;
  free_blocks : ravl ravl_data_t;
  c_lock : utils_mutex_t;
  used_size : Z;
  alloc_size : Z;
}.
Arguments mk_coarse {P}.
Arguments c_self {P}.
Arguments c_cb {P}.
Arguments allocation_strategy {P}.
Arguments page_size {P}.
Arguments all_blocks {P}.
Arguments free_blocks {P}.
Arguments c_lock {P}.
Arguments used_size {P}.
Arguments alloc_size {P}.

Record coarse_stats_t := mk_stats {
  st_alloc_size : Z;
  st_used_size : Z;
  st_num_all_blocks : Z;
  st_num_free_blocks : Z;
}.

(** What the functions of coarse.c can reach. *)
Record cstate (H P : Type) := mk_cstate {
  co : coarse_t P;
  blocks : gmap Z block_t;
  heads : gmap Z ravl_free_blocks_head_t;
  elems : gmap Z ravl_free_blocks_elem_t;
  c_host : H;
  provider : P;
}.
Arguments mk_cstate {H P}.
Arguments co {H P}.
Arguments blocks {H P}.
Arguments heads {H P}.
Arguments elems {H P}.
Arguments c_host {H P}.
Arguments provider {H P}.

Definition sizeof_block_t : Z := 32.
Definition sizeof_head_t : Z := 8.
Definition sizeof_elem_t : Z := 24.
Definition sizeof_ravl_data_t : Z := 16.
Definition sizeof_coarse_t : Z := 128.

Definition tag_block : string := "block_t".
Definition tag_head : string := "ravl_free_blocks_head_t".
Definition tag_elem : string := "ravl_free_blocks_elem_t".
Definition tag_coarse : string := "coarse_t".
Definition tag_all : string := "all_blocks ravl_node".
Definition tag_free : string := "free_blocks ravl_node".

Definition coarse_ravl_comp (lhs rhs : ravl_data_t) : Z :=
  if rd_key lhs <? rd_key rhs then -1
  else if rd_key lhs >? rd_key rhs then 1
  else 0.

(** Updates of one part of the state. *)
Section Setters.
Context {H P : Type}.
Implicit Types s : cstate H P.

Definition set_co (c : coarse_t P) s : cstate H P :=
  mk_cstate c (blocks s) (heads s) (elems s) (c_host s) (provider s).
Definition set_blocks (b : gmap Z block_t) s : cstate H P :=
  mk_cstate (co s) b (heads s) (elems s) (c_host s) (provider s).
Definition set_heads (h : gmap Z ravl_free_blocks_head_t) s : cstate H P :=
  mk_cstate (co s) (blocks s) h (elems s) (c_host s) (provider s).
Definition set_elems (e : gmap Z ravl_free_blocks_elem_t) s : cstate H P :=
  mk_cstate (co s) (blocks s) (heads s) e (c_host s) (provider s).
Definition set_chost (h : H) s : cstate H P :=
  mk_cstate (co s) (blocks s) (heads s) (elems s) h (provider s).
Definition set_provider (p : P) s : cstate H P :=
  mk_cstate (co s) (blocks s) (heads s) (elems s) (c_host s) p.

Definition set_all_blocks (t : ravl ravl_data_t) s : cstate H P :=
  let c := co s in
  set_co (mk_coarse (c_self c) (c_cb c) (allocation_strategy c) (page_size c)
    t (free_blocks c) (c_lock c) (used_size c) (alloc_size c)) s.
Definition set_free_blocks (t : ravl ravl_data_t) s : cstate H P :=
  let c := co s in
  set_co (mk_coarse (c_self c) (c_cb c) (allocation_strategy c) (page_size c)
    (all_blocks c) t (c_lock c) (used_size c) (alloc_size c)) s.
Definition set_lock (m : utils_mutex_t) s : cstate H P :=
  let c := co s in
  set_co (mk_coarse (c_self c) (c_cb c) (allocation_strategy c) (page_size c)
    (all_blocks c) (free_blocks c) m (used_size c) (alloc_size c)) s.
Definition set_used_size (z : Z) s : cstate H P :=
  let c := co s in
  set_co (mk_coarse (c_self c) (c_cb c) (allocation_strategy c) (page_size c)
    (all_blocks c) (free_blocks c) (c_lock c) z (alloc_size c)) s.
Definition set_alloc_size (z : Z) s : cstate H P :=
  let c := co s in
  set_co (mk_coarse (c_self c) (c_cb c) (allocation_strategy c) (page_size c)
    (all_blocks c) (free_blocks c) (c_lock c) (used_size c) z) s.
End Setters.

Definition with_b_size (z : Z) (b : block_t) : block_t :=
  mk_block z (b_data b) (b_used b) (b_free_list_ptr b).
Definition with_b_used (u : bool) (b : block_t) : block_t :=
  mk_block (b_size b) (b_data b) u (b_free_list_ptr b).
Definition with_b_free_list_ptr (p : option Z) (b : block_t) : block_t :=
  mk_block (b_size b) (b_data b) (b_used b) p.
Definition with_e_prev (p : option Z) (e : ravl_free_blocks_elem_t) : ravl_free_blocks_elem_t :=
  mk_elem (e_block e) (e_next e) p.
Definition with_e_next (p : option Z) (e : ravl_free_blocks_elem_t) : ravl_free_blocks_elem_t :=
  mk_elem (e_block e) p (e_prev e).

Section Programs.
Context {H P : Type} `{HostAlloc H}.
(** The [used] byte of a block_t fresh from the host allocator. *)
Variable uninit_used : Z -> bool.
Variable UMF_DEVELOPER_MODE : bool.
Abbreviation C := (M (cstate H P)).

(** *** Loads, stores and calls *)

Definition load_block (a : Z) : C block_t := s ← get; of_option (blocks s !! a).
Definition store_block (a : Z) (f : block_t -> block_t) : C unit :=
  b ← load_block a; modify (fun s => set_blocks (<[a := f b]> (blocks s)) s).
Definition load_head (a : Z) : C ravl_free_blocks_head_t := s ← get; of_option (heads s !! a).
Definition store_head (a : Z) (p : option Z) : C unit :=
  load_head a;; modify (fun s => set_heads (<[a := mk_head p]> (heads s)) s).
Definition load_elem (a : Z) : C ravl_free_blocks_elem_t := s ← get; of_option (elems s !! a).
Definition store_elem (a : Z) (f : ravl_free_blocks_elem_t -> ravl_free_blocks_elem_t) : C unit :=
  e ← load_elem a; modify (fun s => set_elems (<[a := f e]> (elems s)) s).

Definition host_alloc (tg : string) (size : Z) : C (option Z) :=
  s ← get;
  let '(o, h) := umf_ba_global_alloc tg size (c_host s) in
  modify (set_chost h);; mret o.
Definition host_free (a : Z) : C unit :=
  modify (fun s => set_chost (umf_ba_global_free a (c_host s)) s).
(** free of a struct: its heap loses it and the allocator gets it back *)
Definition free_block_struct (a : Z) : C unit :=
  load_block a;; modify (fun s => set_blocks (delete a (blocks s)) s);; host_free a.
Definition free_head_struct (a : Z) : C unit :=
  load_head a;; modify (fun s => set_heads (delete a (heads s)) s);; host_free a.
Definition free_elem_struct (a : Z) : C unit :=
  load_elem a;; modify (fun s => set_elems (delete a (elems s)) s);; host_free a.

(** An operation of ravl.c on one of the two trees. *)
Definition on_all {A} (m : M (rstate H ravl_data_t) A) : C A := fun s =>
  match m (mk_rstate (all_blocks (co s)) (c_host s)) with
  | Some (a, rs) => Some (a, set_chost (r_host rs) (set_all_blocks (r_ravl rs) s))
  | None => None
  end.
Definition on_free {A} (m : M (rstate H ravl_data_t) A) : C A := fun s =>
  match m (mk_rstate (free_blocks (co s)) (c_host s)) with
  | Some (a, rs) => Some (a, set_chost (r_host rs) (set_free_blocks (r_ravl rs) s))
  | None => None
  end.
(** [ravl_foreach] with a callback that works on the whole state; the
    callbacks of coarse.c leave the tree they are run over alone. *)
Definition foreach_in {B} (t : cstate H P -> ravl ravl_data_t)
    (cb : ravl_data_t -> B -> C B) (arg : B) : C B := fun s =>
  match ravl_foreach (Some (fun d (bs : B * cstate H P) => cb d bs.1 bs.2)) (arg, s)
          (mk_rstate (t s) (c_host s)) with
  | Some (bs, _) => Some bs
  | None => None
  end.

Definition lock_mutex : C Z :=
  s ← get; '(r, m) ← of_option (utils_mutex_lock (c_lock (co s)));
  modify (set_lock m);; mret r.
Definition unlock_mutex : C unit :=
  s ← get; m ← of_option (utils_mutex_unlock (c_lock (co s))); modify (set_lock m).

(** *** The tree of all blocks *)

Definition get_node_block (node : Z) : C Z :=
  node_data ← on_all (ravl_data node); of_option (rd_value node_data).
Definition get_node_prev (node : Z) : C (option Z) := on_all (ravl_node_predecessor node).
Definition get_node_next (node : Z) : C (option Z) := on_all (ravl_node_successor node).

(** Returns the new block and its node. *)
Definition coarse_ravl_add_new (data size : Z) : C (option (Z * Z)) :=
  c_assert (negb (data =? 0));;
  c_assert (negb (size =? 0));;
  o ← host_alloc tag_block sizeof_block_t;
  match o with
  | None => mret None
  | Some block =>
      modify (fun s => set_blocks
        (<[block := mk_block size data (uninit_used block) None]> (blocks s)) s);;
      let rdata := mk_rd data (Some block) in
      old ← on_all (ravl_find coarse_ravl_comp (mk_rd data None) RAVL_PREDICATE_EQUAL);
      c_assert (bool_decide (old = None));;
      ret ← on_all (ravl_emplace_copy coarse_ravl_comp rdata);
      if negb (ret =? 0) then
        free_block_struct block;; mret None
      else
        new_node ← on_all (ravl_find coarse_ravl_comp rdata RAVL_PREDICATE_EQUAL);
        new_node ← of_option new_node;
        mret (Some (block, new_node))
  end.

Definition coarse_ravl_find_node (ptr : Z) : C (option Z) :=
  on_all (ravl_find coarse_ravl_comp (mk_rd ptr None) RAVL_PREDICATE_EQUAL).

Definition coarse_ravl_rm (ptr : Z) : C (option Z) :=
  node ← coarse_ravl_find_node ptr;
  match node with
  | Some node =>
      node_data ← on_all (ravl_data node);
      block ← of_option (rd_value node_data);
      on_all (ravl_remove node);;
      again ← coarse_ravl_find_node ptr;
      c_assert (bool_decide (again = None));;
      mret (Some block)
  | None => mret None
  end.

(** *** Lists of free blocks of one size *)

Definition node_list_add (head_node block : Z) : C (option Z) :=
  o ← host_alloc tag_elem sizeof_elem_t;
  match o with
  | None => mret None
  | Some node =>
      hd ← load_head head_node;
      match h_head hd with
      | Some first => store_elem first (with_e_prev (Some node))
      | None => mret tt
      end;;
      modify (fun s => set_elems (<[node := mk_elem block (h_head hd) None]> (elems s)) s);;
      store_head head_node (Some node);;
      mret (Some node)
  end.

Definition node_list_rm (head_node node : Z) : C Z :=
  hd ← load_head head_node;
  c_assert (bool_decide (h_head hd <> None));;
  nd ← load_elem node;
  (if decide (h_head hd = Some node) then
     c_assert (bool_decide (e_prev nd = None));;
     store_head head_node (e_next nd)
   else mret tt);;
  match e_next nd with
  | Some node_next => store_elem node_next (with_e_prev (e_prev nd))
  | None => mret tt
  end;;
  match e_prev nd with
  | Some node_prev => store_elem node_prev (with_e_next (e_next nd))
  | None => mret tt
  end;;
  store_block (e_block nd) (with_b_free_list_ptr None);;
  free_elem_struct node;;
  mret (e_block nd).

Definition node_list_rm_first (head_node alignment : Z) : C (option Z) :=
  hd ← load_head head_node;
  node ← of_option (h_head hd);
  nd ← load_elem node;
  c_assert (bool_decide (e_prev nd = None));;
  let block := e_block nd in
  b ← load_block block;
  if IS_NOT_ALIGNED (b_data b) alignment then mret None
  else
    match e_next nd with
    | Some next => store_elem next (with_e_prev None)
    | None => mret tt
    end;;
    store_head head_node (e_next nd);;
    store_block block (with_b_free_list_ptr None);;
    free_elem_struct node;;
    mret (Some block).

Fixpoint rm_with_alignment_loop (fuel : nat) (head_node : Z) (node : option Z)
    (alignment : Z) : C (option Z) :=
  match node with
  | None => mret None
  | Some node =>
    match fuel with
    | O => undef
    | S fuel =>
      nd ← load_elem node;
      b ← load_block (e_block nd);
      if IS_ALIGNED (b_data b) alignment then
        block ← node_list_rm head_node node; mret (Some block)
      else rm_with_alignment_loop fuel head_node (e_next nd) alignment
    end
  end.

Definition node_list_rm_with_alignment (head_node alignment : Z) : C (option Z) :=
  hd ← load_head head_node;
  first ← of_option (h_head hd);
  nd ← load_elem first;
  c_assert (bool_decide (e_prev nd = None));;
  fuel ← gets (fun s => S (size (elems s)));
  rm_with_alignment_loop fuel head_node (Some first) alignment.

(** *** The tree of free blocks *)

Definition free_blocks_find (size flags : Z) : C (option Z) :=
  on_free (ravl_find coarse_ravl_comp (mk_rd size None) flags).

(** The head of the list for [size], a new one if there is none. *)
Definition new_head_node (size : Z) : C (option Z) :=
  o ← host_alloc tag_head sizeof_head_t;
  match o with
  | None => mret None
  | Some head_node =>
      modify (fun s => set_heads (<[head_node := mk_head None]> (heads s)) s);;
      rv ← on_free (ravl_emplace_copy coarse_ravl_comp (mk_rd size (Some head_node)));
      if negb (rv =? 0) then free_head_struct head_node;; mret None
      else mret (Some head_node)
  end.

Definition get_head_node (size : Z) : C (option Z) :=
  node ← free_blocks_find size RAVL_PREDICATE_EQUAL;
  match node with
  | Some node =>
      node_data ← on_free (ravl_data node);
      head_node ← of_option (rd_value node_data);
      mret (Some head_node)
  | None => new_head_node size
  end.

Definition free_blocks_add (block : Z) : C Z :=
  b ← load_block block;
  head_node ← get_head_node (b_size b);
  match head_node with
  | None => mret (-1)
  | Some head_node =>
      ptr ← node_list_add head_node block;
      store_block block (with_b_free_list_ptr ptr);;
      match ptr with
      | None => mret (-1)
      | Some ptr =>
          e ← load_elem ptr;
          eb ← load_block (e_block e);
          b ← load_block block;
          c_assert (b_size eb =? b_size b);;
          mret 0
      end
  end.

(** The tail of [free_blocks_rm_ge] and [free_blocks_rm_node]. *)
Definition drop_empty_head (head_node ravl_node : Z) : C unit :=
  hd ← load_head head_node;
  if decide (h_head hd = None) then
    free_head_struct head_node;; on_free (ravl_remove ravl_node)
  else mret tt.

Definition free_blocks_rm_ge (size alignment : Z) (check_blocks : check_free_blocks_t)
  : C (option Z) :=
  node ← free_blocks_find size RAVL_PREDICATE_GREATER_EQUAL;
  match node with
  | None => mret None
  | Some node =>
      node_data ← on_free (ravl_data node);
      c_assert (size <=? rd_key node_data);;
      head_node ← of_option (rd_value node_data);
      block ← match check_blocks with
              | CHECK_ONLY_THE_FIRST_BLOCK => node_list_rm_first head_node alignment
              | CHECK_ALL_BLOCKS_OF_SIZE => node_list_rm_with_alignment head_node alignment
              end;
      drop_empty_head head_node node;;
      mret block
  end.

Definition free_blocks_rm_node (node : Z) : C Z :=
  nd ← load_elem node;
  b ← load_block (e_block nd);
  let size := b_size b in
  ravl_node ← free_blocks_find size RAVL_PREDICATE_EQUAL;
  ravl_node ← of_option ravl_node;
  node_data ← on_free (ravl_data ravl_node);
  c_assert (rd_key node_data =? size);;
  head_node ← of_option (rd_value node_data);
  block ← node_list_rm head_node node;
  drop_empty_head head_node ravl_node;;
  mret block.

(** *** Merging *)

Definition call_merge (low high total : Z) : C umf_result_t :=
  s ← get; merge ← of_option (cb_merge (c_cb (co s)));
  let '(r, p) := merge low high total (provider s) in
  modify (set_provider p);; mret r.

(** Takes a block out of its free list, if it is in one. *)
Definition unlist_block (block : Z) : C unit :=
  b ← load_block block;
  match b_free_list_ptr b with
  | Some e => free_blocks_rm_node e;; store_block block (with_b_free_list_ptr None)
  | None => mret tt
  end.

Definition user_block_merge (node1 node2 : Z) (used : bool)
  : C (umf_result_t * option Z) :=
  prev ← get_node_prev node2; c_assert (bool_decide (prev = Some node1));;
  next ← get_node_next node1; c_assert (bool_decide (next = Some node2));;
  block1 ← get_node_block node1;
  block2 ← get_node_block node2;
  b1 ← load_block block1;
  b2 ← load_block block2;
  c_assert (b_data b1 <? b_data b2);;
  let same_used := eqb (b_used b1) used && eqb (b_used b2) used in
  let contiguous_data := add64 (b_data b1) (b_size b1) =? b_data b2 in
  if negb same_used || negb contiguous_data then
    mret (UMF_RESULT_ERROR_INVALID_ARGUMENT, None)
  else
    umf_result ← call_merge (b_data b1) (b_data b2) (add64 (b_size b1) (b_size b2));
    if negb (bool_decide (umf_result = UMF_RESULT_SUCCESS)) then mret (umf_result, None)
    else
      unlist_block block1;;
      unlist_block block2;;
      b2 ← load_block block2;
      store_block block1 (fun b => with_b_size (add64 (b_size b) (b_size b2)) b);;
      block_rm ← coarse_ravl_rm (b_data b2);
      c_assert (bool_decide (block_rm = Some block2));;
      free_block_struct block2;;
      mret (UMF_RESULT_SUCCESS, Some node1).

Definition free_block_merge_with_prev (node : Z) : C Z :=
  node_prev ← get_node_prev node;
  match node_prev with
  | None => mret node
  | Some node_prev =>
      '(umf_result, merged_node) ← user_block_merge node_prev node false;
      if negb (bool_decide (umf_result = UMF_RESULT_SUCCESS)) then mret node
      else of_option merged_node
  end.

Definition free_block_merge_with_next (node : Z) : C Z :=
  node_next ← get_node_next node;
  match node_next with
  | None => mret node
  | Some node_next =>
      '(umf_result, merged_node) ← user_block_merge node node_next false;
      if negb (bool_decide (umf_result = UMF_RESULT_SUCCESS)) then mret node
      else of_option merged_node
  end.

(** *** Statistics and the developer's self check *)

Definition ravl_cb_count (_ : ravl_data_t) (num_all_blocks : Z) : C Z :=
  mret (add64 num_all_blocks 1).

Fixpoint count_free_loop (fuel : nat) (free_block : option Z) (num : Z) : C Z :=
  match free_block with
  | None => mret num
  | Some e =>
    match fuel with
    | O => undef
    | S fuel => nd ← load_elem e; count_free_loop fuel (e_next nd) (add64 num 1)
    end
  end.

Definition ravl_cb_count_free (data : ravl_data_t) (num_all_blocks : Z) : C Z :=
  head_node ← of_option (rd_value data);
  hd ← load_head head_node;
  free_block ← of_option (h_head hd);
  fuel ← gets (fun s => S (size (elems s)));
  count_free_loop fuel (Some free_block) num_all_blocks.

Definition coarse_get_stats_no_lock : C coarse_stats_t :=
  num_all_blocks ← foreach_in (fun s => all_blocks (co s)) ravl_cb_count 0;
  num_free_blocks ← foreach_in (fun s => free_blocks (co s)) ravl_cb_count_free 0;
  s ← get;
  mret (mk_stats (alloc_size (co s)) (used_size (co s)) num_all_blocks num_free_blocks).

Record debug_cb_args_t := mk_dbg {
  sum_used : Z;
  sum_blocks_size : Z;
  num_all_blocks : Z;
  num_free_blocks : Z;
}.

Definition get_block_prev (node : Z) : C (option Z) :=
  ravl_prev ← get_node_prev node;
  match ravl_prev with
  | None => mret None
  | Some n => b ← get_node_block n; mret (Some b)
  end.

Definition get_block_next (node : Z) : C (option Z) :=
  ravl_next ← get_node_next node;
  match ravl_next with
  | None => mret None
  | Some n => b ← get_node_block n; mret (Some b)
  end.

Definition debug_verify_all_blocks_cb (data : ravl_data_t) (a : debug_cb_args_t)
  : C debug_cb_args_t :=
  block ← of_option (rd_value data);
  node ← on_all (ravl_find coarse_ravl_comp data RAVL_PREDICATE_EQUAL);
  node ← of_option node;
  block_next ← get_block_next node;
  block_prev ← get_block_prev node;
  b ← load_block block;
  c_assert (negb (b_data b =? 0));;
  c_assert (0 <? b_size b);;
  match block_prev with
  | Some p => bp ← load_block p; c_assert (b_data bp <? b_data b)
  | None => mret tt
  end;;
  match block_next with
  | Some n => bn ← load_block n; c_assert (b_data b <? b_data bn)
  | None => mret tt
  end;;
  match block_next with
  | Some n => bn ← load_block n; c_assert (add64 (b_data b) (b_size b) <=? b_data bn)
  | None => mret tt
  end;;
  mret (mk_dbg (if b_used b then add64 (sum_used a) (b_size b) else sum_used a)
               (add64 (sum_blocks_size a) (b_size b))
               (add64 (num_all_blocks a) 1)
               (if b_used b then num_free_blocks a else add64 (num_free_blocks a) 1)).

Definition debug_check : C bool :=
  if UMF_DEVELOPER_MODE then
    stats ← coarse_get_stats_no_lock;
    cb_args ← foreach_in (fun s => all_blocks (co s)) debug_verify_all_blocks_cb
                (mk_dbg 0 0 0 0);
    s ← get;
    c_assert (num_all_blocks cb_args =? st_num_all_blocks stats);;
    c_assert (num_free_blocks cb_args =? st_num_free_blocks stats);;
    c_assert (sum_used cb_args =? used_size (co s));;
    c_assert (sum_blocks_size cb_args =? alloc_size (co s));;
    c_assert (used_size (co s) <=? alloc_size (co s));;
    mret true
  else mret true.

Definition assert_debug_check : C unit := b ← debug_check; c_assert b.

(** *** Adding and splitting blocks *)

Definition coarse_add_used_block (addr size : Z) : C umf_result_t :=
  new_block ← coarse_ravl_add_new addr size;
  match new_block with
  | None => mret UMF_RESULT_ERROR_OUT_OF_HOST_MEMORY
  | Some (new_block, _) =>
      store_block new_block (with_b_used true);;
      modify (fun s => set_alloc_size (add64 (alloc_size (co s)) size) s);;
      modify (fun s => set_used_size (add64 (used_size (co s)) size) s);;
      mret UMF_RESULT_SUCCESS
  end.

Definition coarse_add_free_block (addr size : Z) : C (umf_result_t * option Z) :=
  new_block ← coarse_ravl_add_new addr size;
  match new_block with
  | None => mret (UMF_RESULT_ERROR_OUT_OF_HOST_MEMORY, None)
  | Some (new_block, _) =>
      store_block new_block (with_b_used false);;
      modify (fun s => set_alloc_size (add64 (alloc_size (co s)) size) s);;
      mret (UMF_RESULT_SUCCESS, Some new_block)
  end.

Definition call_free (ptr size : Z) : C unit :=
  s ← get;
  match cb_free (c_cb (co s)) with
  | Some free => modify (set_provider (snd (free ptr size (provider s))))
  | None => mret tt
  end.

Definition coarse_ravl_cb_rm_all_blocks_node (data : ravl_data_t) (_ : unit) : C unit :=
  block ← of_option (rd_value data);
  b ← load_block block;
  (if b_used b then
     s ← get;
     c_assert (b_size b <=? used_size (co s));;
     modify (set_used_size (sub64 (used_size (co s)) (b_size b)))
   else mret tt);;
  match b_free_list_ptr b with
  | Some e => free_blocks_rm_node e;; mret tt
  | None => mret tt
  end;;
  call_free (b_data b) (b_size b);;
  s ← get;
  c_assert (b_size b <=? alloc_size (co s));;
  modify (set_alloc_size (sub64 (alloc_size (co s)) (b_size b)));;
  free_block_struct block.

Definition can_provider_split (ptr totalSize firstSize : Z) : C umf_result_t :=
  s ← get; split ← of_option (cb_split (c_cb (co s)));
  let '(r, p) := split ptr totalSize firstSize (provider s) in
  modify (set_provider p);; mret r.

(** Returns the result and the new [*current]. *)
Definition create_aligned_block (orig_size alignment curr : Z)
  : C (umf_result_t * Z) :=
  b ← load_block curr;
  let orig_data := b_data b in
  let aligned_data := ALIGN_UP orig_data alignment in
  let padding := sub64 aligned_data orig_data in
  if (0 <? alignment) && (0 <? padding) then
    umf_result ← can_provider_split (b_data b) (b_size b) padding;
    if negb (bool_decide (umf_result = UMF_RESULT_SUCCESS)) then mret (umf_result, curr)
    else
      o ← coarse_ravl_add_new (add64 (b_data b) padding) (sub64 (b_size b) padding);
      match o with
      | None => mret (UMF_RESULT_ERROR_OUT_OF_HOST_MEMORY, curr)
      | Some (aligned_block, _) =>
          store_block curr (with_b_used false);;
          store_block curr (with_b_size padding);;
          rv ← free_blocks_add curr;
          if negb (rv =? 0) then mret (UMF_RESULT_ERROR_OUT_OF_HOST_MEMORY, curr)
          else
            ab ← load_block aligned_block;
            c_assert (orig_size <=? b_size ab);;
            mret (UMF_RESULT_SUCCESS, aligned_block)
      end
  else mret (UMF_RESULT_SUCCESS, curr).

Definition split_current_block (curr size : Z) : C umf_result_t :=
  b ← load_block curr;
  umf_result ← can_provider_split (b_data b) (b_size b) size;
  if negb (bool_decide (umf_result = UMF_RESULT_SUCCESS)) then mret umf_result
  else
    o ← coarse_ravl_add_new (add64 (b_data b) size) (sub64 (b_size b) size);
    match o with
    | None => mret UMF_RESULT_ERROR_OUT_OF_HOST_MEMORY
    | Some (new_block, new_node) =>
        store_block new_block (with_b_used false);;
        nb ← get_node_block new_node;
        rv ← free_blocks_add nb;
        mret (if negb (rv =? 0) then UMF_RESULT_ERROR_OUT_OF_HOST_MEMORY
              else UMF_RESULT_SUCCESS)
    end.

Definition find_free_block (size alignment : Z) (strategy : coarse_strategy_t)
  : C (option Z) :=
  let new_size := add64 size alignment in
  let fastest :=
    if new_size <? size then mret None
    else free_blocks_rm_ge new_size 0 CHECK_ONLY_THE_FIRST_BLOCK in
  match strategy with
  | UMF_COARSE_MEMORY_STRATEGY_FASTEST => fastest
  | UMF_COARSE_MEMORY_STRATEGY_FASTEST_BUT_ONE =>
      block ← free_blocks_rm_ge size alignment CHECK_ONLY_THE_FIRST_BLOCK;
      match block with Some b => mret (Some b) | None => fastest end
  | UMF_COARSE_MEMORY_STRATEGY_CHECK_ALL_SIZE =>
      block ← free_blocks_rm_ge size alignment CHECK_ALL_BLOCKS_OF_SIZE;
      match block with Some b => mret (Some b) | None => fastest end
  end.

Definition free_blocks_re_add (block : Z) : C Z :=
  b ← load_block block;
  node ← coarse_ravl_find_node (b_data b);
  node ← of_option node;
  node ← free_block_merge_with_prev node;
  node ← free_block_merge_with_next node;
  nb ← get_node_block node;
  free_blocks_add nb.

(** *** Public functions

    [coarse] is the handle, NULL or not.  [out] is the content of
    [*resultPtr] before the call, the second result its content after. *)

Definition adjust_alignment (alignment page_size : Z) : option Z :=
  if alignment =? 0 then Some page_size
  else if negb (Z.land alignment (sub64 alignment 1) =? 0) ||
          (negb (alignment mod page_size =? 0) && negb (page_size mod alignment =? 0))
  then None
  else if IS_NOT_ALIGNED alignment page_size
  then Some (ALIGN_UP_SAFE alignment page_size)
  else Some alignment.

(** The block to allocate from: a free one, or a new one from the provider. *)
Inductive found := Found (curr : Z) | NotFound (r : umf_result_t).

Definition get_more_memory (size alignment : Z) (out : option Z)
  : C (found * option Z) :=
  s ← get;
  match cb_alloc (c_cb (co s)) with
  | None => mret (NotFound UMF_RESULT_ERROR_OUT_OF_HOST_MEMORY, out)
  | Some alloc =>
      let size_aligned := ALIGN_UP_SAFE size alignment in
      if size_aligned =? 0 then mret (NotFound UMF_RESULT_ERROR_INVALID_ARGUMENT, out)
      else
        let '(umf_result, ptr, p) := alloc size_aligned alignment (provider s) in
        modify (set_provider p);;
        if negb (bool_decide (umf_result = UMF_RESULT_SUCCESS)) then
          mret (NotFound umf_result, ptr)
        else
          addr ← of_option ptr;
          c_assert (IS_ALIGNED addr alignment);;
          '(umf_result, new_free_block) ← coarse_add_free_block addr size_aligned;
          if negb (bool_decide (umf_result = UMF_RESULT_SUCCESS)) then
            call_free addr size_aligned;;
            mret (NotFound umf_result, ptr)
          else
            curr ← of_option new_free_block;
            mret (Found curr, ptr)
  end.

(** Cuts the block to be returned out of [curr]. *)
Definition use_block (curr size alignment : Z) (out : option Z)
  : C (umf_result_t * option Z) :=
  b ← load_block curr;
  if b_size b <? size then mret (UMF_RESULT_ERROR_OUT_OF_HOST_MEMORY, out)
  else
    let split := size <? b_size b in
    c_assert (negb (b_used b));;
    '(umf_result, curr) ←
      (if 0 <? alignment then create_aligned_block size alignment curr
       else mret (UMF_RESULT_SUCCESS, curr));
    if negb (bool_decide (umf_result = UMF_RESULT_SUCCESS)) then
      free_blocks_re_add curr;; mret (umf_result, out)
    else
      umf_result ←
        (if split then
           umf_result ← split_current_block curr size;
           if negb (bool_decide (umf_result = UMF_RESULT_SUCCESS)) then
             free_blocks_re_add curr;; mret umf_result
           else store_block curr (with_b_size size);; mret UMF_RESULT_SUCCESS
         else mret UMF_RESULT_SUCCESS);
      if negb (bool_decide (umf_result = UMF_RESULT_SUCCESS)) then mret (umf_result, out)
      else
        store_block curr (with_b_used true);;
        b ← load_block curr;
        modify (fun s => set_used_size (add64 (used_size (co s)) size) s);;
        mret (UMF_RESULT_SUCCESS, Some (b_data b)).

Definition coarse_alloc (coarse : option Z) (size alignment : Z) (resultPtr : bool)
    (out : option Z) : C (umf_result_t * option Z) :=
  if bool_decide (coarse = None) || negb resultPtr then
    mret (UMF_RESULT_ERROR_INVALID_ARGUMENT, out)
  else
    s ← get;
    match adjust_alignment alignment (page_size (co s)) with
    | None => mret (UMF_RESULT_ERROR_INVALID_ALIGNMENT, out)
    | Some alignment =>
        r ← lock_mutex;
        if negb (r =? 0) then mret (UMF_RESULT_ERROR_UNKNOWN, out)
        else
          assert_debug_check;;
          curr ← find_free_block size alignment (allocation_strategy (co s));
          '(f, out) ← match curr with
                      | Some curr => mret (Found curr, None)
                      | None => get_more_memory size alignment None
                      end;
          '(umf_result, out) ← match f with
                               | NotFound r => mret (r, out)
                               | Found curr => use_block curr size alignment out
                               end;
          assert_debug_check;;
          unlock_mutex;;
          mret (umf_result, out)
    end.

(** The part of [coarse_free] under the lock. *)
Definition free_locked (ptr bytes : Z) : C umf_result_t :=
  node ← coarse_ravl_find_node ptr;
  match node with
  | None => mret UMF_RESULT_ERROR_INVALID_ARGUMENT
  | Some node =>
      block ← get_node_block node;
      b ← load_block block;
      if negb (b_used b) then mret UMF_RESULT_ERROR_INVALID_ARGUMENT
      else if (0 <? bytes) && negb (bytes =? b_size b) then
        mret UMF_RESULT_ERROR_INVALID_ARGUMENT
      else
        s ← get;
        c_assert (b_size b <=? used_size (co s));;
        modify (set_used_size (sub64 (used_size (co s)) (b_size b)));;
        store_block block (with_b_used false);;
        node ← free_block_merge_with_prev node;
        node ← free_block_merge_with_next node;
        nb ← get_node_block node;
        rv ← free_blocks_add nb;
        if negb (rv =? 0) then mret UMF_RESULT_ERROR_OUT_OF_HOST_MEMORY
        else assert_debug_check;; mret UMF_RESULT_SUCCESS
  end.

Definition coarse_free (coarse : option Z) (ptr : option Z) (bytes : Z) : C umf_result_t :=
  match coarse, ptr with
  | None, _ => mret UMF_RESULT_ERROR_INVALID_ARGUMENT
  | Some _, None => mret UMF_RESULT_SUCCESS
  | Some _, Some ptr =>
      r ← lock_mutex;
      if negb (r =? 0) then mret UMF_RESULT_ERROR_UNKNOWN
      else
        assert_debug_check;;
        res ← free_locked ptr bytes;
        unlock_mutex;;
        mret res
  end.

Definition merge_locked (lowPtr highPtr totalSize : Z) : C umf_result_t :=
  low_node ← coarse_ravl_find_node lowPtr;
  match low_node with
  | None => mret UMF_RESULT_ERROR_INVALID_ARGUMENT
  | Some low_node =>
    low_block ← get_node_block low_node;
    lb ← load_block low_block;
    if negb (b_used lb) then mret UMF_RESULT_ERROR_INVALID_ARGUMENT
    else
      high_node ← coarse_ravl_find_node highPtr;
      match high_node with
      | None => mret UMF_RESULT_ERROR_INVALID_ARGUMENT
      | Some high_node =>
        high_block ← get_node_block high_node;
        hb ← load_block high_block;
        if negb (b_used hb) then mret UMF_RESULT_ERROR_INVALID_ARGUMENT
        else
          next ← get_node_next low_node;
          if negb (bool_decide (next = Some high_node)) ||
             negb (highPtr =? add64 lowPtr (b_size lb)) then
            mret UMF_RESULT_ERROR_INVALID_ARGUMENT
          else
            prev ← get_node_prev high_node;
            c_assert (bool_decide (prev = Some low_node));;
            if negb (add64 (b_size lb) (b_size hb) =? totalSize) then
              mret UMF_RESULT_ERROR_INVALID_ARGUMENT
            else
              '(umf_result, merged_node) ← user_block_merge low_node high_node true;
              if negb (bool_decide (umf_result = UMF_RESULT_SUCCESS)) then mret umf_result
              else
                c_assert (bool_decide (merged_node = Some low_node));;
                lb ← load_block low_block;
                c_assert (b_size lb =? totalSize);;
                mret UMF_RESULT_SUCCESS
      end
  end.

Definition coarse_merge (coarse lowPtr highPtr : option Z) (totalSize : Z) : C umf_result_t :=
  match coarse, lowPtr, highPtr with
  | Some _, Some lowPtr, Some highPtr =>
      if (totalSize =? 0) || (highPtr <=? lowPtr) || (totalSize <=? sub64 highPtr lowPtr)
      then mret UMF_RESULT_ERROR_INVALID_ARGUMENT
      else
        r ← lock_mutex;
        if negb (r =? 0) then mret UMF_RESULT_ERROR_UNKNOWN
        else
          assert_debug_check;;
          res ← merge_locked lowPtr highPtr totalSize;
          assert_debug_check;;
          unlock_mutex;;
          mret res
  | _, _, _ => mret UMF_RESULT_ERROR_INVALID_ARGUMENT
  end.

Definition split_locked (ptr totalSize firstSize : Z) : C umf_result_t :=
  node ← coarse_ravl_find_node ptr;
  match node with
  | None => mret UMF_RESULT_ERROR_INVALID_ARGUMENT
  | Some node =>
    block ← get_node_block node;
    b ← load_block block;
    if negb (b_size b =? totalSize) then mret UMF_RESULT_ERROR_INVALID_ARGUMENT
    else if negb (b_used b) then mret UMF_RESULT_ERROR_INVALID_ARGUMENT
    else
      umf_result ← can_provider_split ptr totalSize firstSize;
      if negb (bool_decide (umf_result = UMF_RESULT_SUCCESS)) then mret umf_result
      else
        o ← coarse_ravl_add_new (add64 (b_data b) firstSize) (sub64 (b_size b) firstSize);
        match o with
        | None => mret UMF_RESULT_ERROR_OUT_OF_HOST_MEMORY
        | Some (new_block, _) =>
            store_block block (with_b_size firstSize);;
            store_block new_block (with_b_used true);;
            nb ← load_block new_block;
            c_assert (b_size nb =? sub64 totalSize firstSize);;
            mret UMF_RESULT_SUCCESS
        end
  end.

Definition coarse_split (coarse ptr : option Z) (totalSize firstSize : Z) : C umf_result_t :=
  match coarse, ptr with
  | Some _, Some ptr =>
      if (totalSize <=? firstSize) || (firstSize =? 0) || (totalSize =? 0)
      then mret UMF_RESULT_ERROR_INVALID_ARGUMENT
      else
        r ← lock_mutex;
        if negb (r =? 0) then mret UMF_RESULT_ERROR_UNKNOWN
        else
          assert_debug_check;;
          res ← split_locked ptr totalSize firstSize;
          assert_debug_check;;
          unlock_mutex;;
          mret res
  | _, _ => mret UMF_RESULT_ERROR_INVALID_ARGUMENT
  end.

Definition coarse_add_memory_from_provider (coarse : option Z) (size : Z) : C umf_result_t :=
  if bool_decide (coarse = None) || (size =? 0) then mret UMF_RESULT_ERROR_INVALID_ARGUMENT
  else
    s ← get;
    match cb_alloc (c_cb (co s)) with
    | None => mret UMF_RESULT_ERROR_NOT_SUPPORTED
    | Some _ =>
        '(umf_result, ptr) ← coarse_alloc coarse size (page_size (co s)) true None;
        if negb (bool_decide (umf_result = UMF_RESULT_SUCCESS)) then mret umf_result
        else
          c_assert (bool_decide (ptr <> None));;
          coarse_free coarse ptr size
    end.

Definition coarse_add_memory_fixed (coarse addr : option Z) (size : Z) : C umf_result_t :=
  match coarse, addr with
  | Some _, Some a =>
      if size =? 0 then mret UMF_RESULT_ERROR_INVALID_ARGUMENT
      else
        s ← get;
        match cb_alloc (c_cb (co s)), cb_free (c_cb (co s)) with
        | None, None =>
            r ← lock_mutex;
            if negb (r =? 0) then mret UMF_RESULT_ERROR_UNKNOWN
            else
              assert_debug_check;;
              umf_result ← coarse_add_used_block a size;
              assert_debug_check;;
              unlock_mutex;;
              if negb (bool_decide (umf_result = UMF_RESULT_SUCCESS)) then mret umf_result
              else
                umf_result ← coarse_free coarse addr size;
                if negb (bool_decide (umf_result = UMF_RESULT_SUCCESS)) then mret umf_result
                else mret UMF_RESULT_SUCCESS
        | _, _ => mret UMF_RESULT_ERROR_NOT_SUPPORTED
        end
  | _, _ => mret UMF_RESULT_ERROR_INVALID_ARGUMENT
  end.

Definition coarse_get_stats (coarse : option Z) : C coarse_stats_t :=
  match coarse with
  | None => mret (mk_stats 0 0 0 0)
  | Some _ =>
      r ← lock_mutex;
      if negb (r =? 0) then mret (mk_stats 0 0 0 0)
      else
        stats ← coarse_get_stats_no_lock;
        unlock_mutex;;
        mret stats
  end.

(** [utils_mutex_destroy_not_free]: destroying a locked mutex is undefined. *)
Definition destroy_mutex : C unit :=
  s ← get; c_assert (negb (m_held (c_lock (co s)))).

Definition coarse_delete (coarse : option Z) : C unit :=
  match coarse with
  | None => mret tt
  | Some self =>
      destroy_mutex;;
      foreach_in (fun s => all_blocks (co s)) coarse_ravl_cb_rm_all_blocks_node tt;;
      s ← get;
      c_assert (used_size (co s) =? 0);;
      c_assert (alloc_size (co s) =? 0);;
      on_all ravl_delete;;
      on_free ravl_delete;;
      host_free self
  end.

(** [mutex_init_ret] is what pthread_mutex_init returns, [lock_results] what
    the later calls of pthread_mutex_lock return.  The new object, if any, is
    a state of its own; the host allocator is returned with it. *)
Definition coarse_new (coarse_params : option (coarse_params_t P)) (pcoarse : bool)
    (mutex_init_ret : Z) (lock_results : list Z) (h : H) (p : P)
  : option (umf_result_t * option (cstate H P) * H) :=
  match coarse_params with
  | None => Some (UMF_RESULT_ERROR_INVALID_ARGUMENT, None, h)
  | Some params =>
    if negb pcoarse then Some (UMF_RESULT_ERROR_INVALID_ARGUMENT, None, h)
    else if negb (p_provider params) then Some (UMF_RESULT_ERROR_INVALID_ARGUMENT, None, h)
    else if p_page_size params =? 0 then Some (UMF_RESULT_ERROR_INVALID_ARGUMENT, None, h)
    else if bool_decide (is_Some (cb_split (p_cb params))) then
      if bool_decide (is_Some (cb_merge (p_cb params))) then
        match umf_ba_global_alloc tag_coarse sizeof_coarse_t h with
        | (None, h) => Some (UMF_RESULT_ERROR_OUT_OF_HOST_MEMORY, None, h)
        | (Some coarse, h) =>
          match ravl_new_sized tag_free sizeof_ravl_data_t h with
          | (None, h) =>
              Some (UMF_RESULT_ERROR_OUT_OF_HOST_MEMORY, None, umf_ba_global_free coarse h)
          | (Some free_blocks, h) =>
            match ravl_new_sized tag_all sizeof_ravl_data_t h with
            | (None, h) =>
                match ravl_delete (mk_rstate free_blocks h) with
                | Some (_, rs) => Some (UMF_RESULT_ERROR_OUT_OF_HOST_MEMORY, None,
                                        umf_ba_global_free coarse (r_host rs))
                | None => None
                end
            | (Some all_blocks, h) =>
              if negb (mutex_init_ret =? 0) then
                match ravl_delete (mk_rstate all_blocks h) with
                | Some (_, rs) =>
                  match ravl_delete (mk_rstate free_blocks (r_host rs)) with
                  | Some (_, rs) => Some (UMF_RESULT_ERROR_UNKNOWN, None,
                                          umf_ba_global_free coarse (r_host rs))
                  | None => None
                  end
                | None => None
                end
              else
                let s := mk_cstate (mk_coarse coarse (p_cb params)
                           (p_allocation_strategy params) (p_page_size params)
                           all_blocks free_blocks (mk_mutex false lock_results) 0 0)
                           ∅ ∅ ∅ h p in
                match assert_debug_check s with
                | Some (_, s) => Some (UMF_RESULT_SUCCESS, Some s, c_host s)
                | None => None
                end
            end
          end
        end
      else Some (UMF_RESULT_ERROR_INVALID_ARGUMENT, None, h)
    else Some (UMF_RESULT_ERROR_INVALID_ARGUMENT, None, h)
  end.
End Programs.
