(* ===== verification/CoarseInv.v ===== *)
(** * The invariant of the coarse allocator

    The state of coarse.c is described by two lists.  [B] holds the blocks in
    address order: the RAVL node of each, its address and its fields.  [F]
    holds the free lists in size order: the RAVL node, the size, the address of
    the head and the elements with the blocks they point to.  [coarse_inv s B F X]
    says that the heaps and the trees of [s] are exactly these lists, that the
    blocks are disjoint, that the free lists hold the unused blocks other than
    those in [X] (the block an operation is working on), and that the two
    counters are the sums over the blocks.

    What [coarse_ravl_add_new] and [coarse_ravl_rm] do to the list of blocks,
    and the lookups of a block by its address. *)

From S2P Require Import Prelude Utils HostMem Ravl RavlSpec RavlRemove Coarse.
From stdpp Require Import strings sorting.
#[local] Open Scope Z_scope.

#[export] Instance coarse_key_compare : KeyCompare coarse_ravl_comp rd_key.
Proof.
  intros a b. unfold coarse_ravl_comp.
  destruct (Z.ltb_spec (rd_key a) (rd_key b)); [simpl; lia|].
  destruct (Z.gtb_spec (rd_key a) (rd_key b)); simpl; lia.
Qed.

Record entry := En { en_node : Z; en_ptr : Z; en_block : block_t }.
Record fentry := FE { f_node : Z; f_size : Z; f_head : Z; f_elems : list (Z * Z) }.

#[export] Instance block_t_eq_dec : EqDecision block_t.
Proof. solve_decision. Defined.
#[export] Instance entry_eq_dec : EqDecision entry.
Proof. solve_decision. Defined.
#[export] Instance fentry_eq_dec : EqDecision fentry.
Proof. solve_decision. Defined.

Definition all_node (e : entry) : Z * ravl_data_t :=
  (en_node e, mk_rd (b_data (en_block e)) (Some (en_ptr e))).
Definition free_node (f : fentry) : Z * ravl_data_t :=
  (f_node f, mk_rd (f_size f) (Some (f_head f))).
Definition upd_block (g : block_t -> block_t) (e : entry) : entry :=
  En (en_node e) (en_ptr e) (g (en_block e)).

(** A segment of a doubly linked list of elements: [prev] is the element before
    it and [next] the one after it. *)
Definition hd_or (l : list (Z * Z)) (next : option Z) : option Z :=
  match l with [] => next | (e, _) :: _ => Some e end.
Fixpoint dll (es : gmap Z ravl_free_blocks_elem_t) (prev : option Z) (l : list (Z * Z))
    (next : option Z) : Prop :=
  match l with
  | [] => True
  | (e, b) :: l' =>
      es !! e = Some (mk_elem b (hd_or l' next) prev) /\ dll es (Some e) l' next
  end.

Definition felems (F : list fentry) : list Z := F ≫= (fun f => (f_elems f).*1).

(** [sum_of p bs]: total size of the blocks that satisfy [p]. *)
Definition sum_of (p : block_t -> bool) (bs : list block_t) : Z :=
  foldr (fun b z => (if p b then b_size b else 0) + z) 0 bs.

(** Blocks that do not overlap, in address order, inside the address space. *)
Definition block_ok (b : block_t) : Prop :=
  0 < b_data b /\ 0 < b_size b /\ b_data b + b_size b < two64.
Definition before (b c : block_t) : Prop := b_data b + b_size b <= b_data c.
Definition layout (bs : list block_t) : Prop :=
  Forall block_ok bs /\ StronglySorted before bs.

(** The abstract view: the blocks without their list pointers. *)
Definition clean (b : block_t) : block_t := with_b_free_list_ptr None b.
Definition view (B : list entry) : list block_t := (fun e => clean (en_block e)) <$> B.

Section Inv.
Context {H P : Type} `{HostAllocLaws H}.
Implicit Types (s : cstate H P) (B : list entry) (F : list fentry).

Definition all_tree s : rstate H ravl_data_t := mk_rstate (all_blocks (co s)) (c_host s).
Definition free_tree s : rstate H ravl_data_t := mk_rstate (free_blocks (co s)) (c_host s).

(** The tree of all blocks and the heap of blocks hold [B]. *)
Definition all_inv s B : Prop :=
  ravl_rep rd_key (all_tree s) (all_node <$> B) /\
  node_tag (all_blocks (co s)) = tag_all /\
  owned tag_block (blocks s) (c_host s) /\
  (forall p b, blocks s !! p = Some b <-> exists e, e ∈ B /\ en_ptr e = p /\ en_block e = b).

(** The tree of free blocks, the heads and the elements hold [F]. *)
Definition free_inv s F : Prop :=
  ravl_rep rd_key (free_tree s) (free_node <$> F) /\
  node_tag (free_blocks (co s)) = tag_free /\
  owned tag_head (heads s) (c_host s) /\
  owned tag_elem (elems s) (c_host s) /\
  NoDup (f_head <$> F) /\
  (forall a hd, heads s !! a = Some hd <->
     exists f, f ∈ F /\ f_head f = a /\ hd = mk_head (hd_or (f_elems f) None)) /\
  Forall (fun f => dll (elems s) None (f_elems f) None) F /\
  NoDup (felems F) /\
  (forall a, is_Some (elems s !! a) -> a ∈ felems F).

(** The objects that live as long as the allocator itself. *)
Definition self_inv s : Prop :=
  owned "struct ravl" ({[self (all_blocks (co s)) := tt; self (free_blocks (co s)) := tt]}
                       : gmap Z unit) (c_host s) /\
  self (all_blocks (co s)) <> self (free_blocks (co s)) /\
  owned tag_coarse ({[c_self (co s) := tt]} : gmap Z unit) (c_host s).

(** The free lists hold the unused blocks not in [X]. *)
Definition linked B F (X : list Z) : Prop :=
  (forall f e p, f ∈ F -> (e, p) ∈ f_elems f ->
     exists en, en ∈ B /\ en_ptr en = p /\ b_size (en_block en) = f_size f /\
       b_free_list_ptr (en_block en) = Some e /\ b_used (en_block en) = false) /\
  (forall en e, en ∈ B -> b_free_list_ptr (en_block en) = Some e ->
     exists f, f ∈ F /\ (e, en_ptr en) ∈ f_elems f) /\
  (forall en, en ∈ B -> b_used (en_block en) = false -> en_ptr en ∉ X ->
     b_free_list_ptr (en_block en) <> None).

Definition heaps_inv s B F X : Prop :=
  all_inv s B /\ free_inv s F /\ self_inv s /\ linked B F X /\
  Forall (fun f => f_elems f <> []) F.
End Inv.

(** ** Programs on one of the trees *)

Section Lift.
Context {H P : Type} `{HostAllocLaws H}.
Implicit Types (s : cstate H P) (B : list entry) (F : list fentry).

Lemma wp_on_all {A} (m : M (rstate H ravl_data_t) A) Q s :
  wp m (fun a rs => Q a (set_chost (r_host rs) (set_all_blocks (r_ravl rs) s))) (all_tree s) ->
  wp (on_all m) Q s.
Proof. unfold wp, on_all, all_tree. by destruct (m _) as [[a rs]|]. Qed.

Lemma wp_on_free {A} (m : M (rstate H ravl_data_t) A) Q s :
  wp m (fun a rs => Q a (set_chost (r_host rs) (set_free_blocks (r_ravl rs) s))) (free_tree s) ->
  wp (on_free m) Q s.
Proof. unfold wp, on_free, free_tree. by destruct (m _) as [[a rs]|]. Qed.

Lemma set_all_id s : set_chost (c_host s) (set_all_blocks (all_blocks (co s)) s) = s.
Proof. by destruct s as [[]]. Qed.
Lemma set_free_id s : set_chost (c_host s) (set_free_blocks (free_blocks (co s)) s) = s.
Proof. by destruct s as [[]]. Qed.

Lemma wp_load_block s a b (Q : block_t -> cstate H P -> Prop) :
  blocks s !! a = Some b -> Q b s -> wp (load_block a) Q s.
Proof. intros Hl HQ. unfold load_block. wp_step. by eapply wp_of_option. Qed.
Lemma wp_load_head s a b (Q : ravl_free_blocks_head_t -> cstate H P -> Prop) :
  heads s !! a = Some b -> Q b s -> wp (load_head a) Q s.
Proof. intros Hl HQ. unfold load_head. wp_step. by eapply wp_of_option. Qed.
Lemma wp_load_elem s a b (Q : ravl_free_blocks_elem_t -> cstate H P -> Prop) :
  elems s !! a = Some b -> Q b s -> wp (load_elem a) Q s.
Proof. intros Hl HQ. unfold load_elem. wp_step. by eapply wp_of_option. Qed.
Lemma wp_store_block s a b f (Q : unit -> cstate H P -> Prop) :
  blocks s !! a = Some b -> Q tt (set_blocks (<[a := f b]> (blocks s)) s) ->
  wp (store_block a f) Q s.
Proof. intros Hl HQ. unfold store_block. apply wp_bind. by eapply wp_load_block, wp_modify. Qed.
Lemma wp_store_head s a b p (Q : unit -> cstate H P -> Prop) :
  heads s !! a = Some b -> Q tt (set_heads (<[a := mk_head p]> (heads s)) s) ->
  wp (store_head a p) Q s.
Proof. intros Hl HQ. unfold store_head. apply wp_bind. by eapply wp_load_head, wp_modify. Qed.
Lemma wp_store_elem s a f (Q : unit -> cstate H P -> Prop) :
  is_Some (elems s !! a) -> Q tt (set_elems (alter f a (elems s)) s) ->
  wp (store_elem a f) Q s.
Proof.
  intros [b Hl] HQ. unfold store_elem. apply wp_bind. eapply wp_load_elem; [done|].
  apply wp_modify. replace (<[a := f b]> (elems s)) with (alter f a (elems s)); [done|].
  apply map_eq. intros x. destruct (decide (x = a)) as [->|].
  - by rewrite lookup_alter_eq, lookup_insert_eq, Hl.
  - by rewrite lookup_alter_ne, lookup_insert_ne.
Qed.

Lemma wp_host_alloc s tg size (Q : option Z -> cstate H P -> Prop) :
  (forall o h, umf_ba_global_alloc tg size (c_host s) = (o, h) -> Q o (set_chost h s)) ->
  wp (host_alloc tg size) Q s.
Proof.
  intros HQ. unfold host_alloc. wp_step.
  destruct (umf_ba_global_alloc tg size (c_host s)) as [o h] eqn:E.
  wp_step. apply wp_ret. auto.
Qed.

(** Read-only operations of the trees. *)
Lemma wp_find_all s L d (Q : option Z -> cstate H P -> Prop) :
  ravl_rep rd_key (all_tree s) L -> Q (find_eq rd_key (rd_key d) L) s ->
  wp (on_all (ravl_find coarse_ravl_comp d RAVL_PREDICATE_EQUAL)) Q s.
Proof.
  intros Hr HQ. apply wp_on_all. eapply (wp_find coarse_ravl_comp rd_key); [exact Hr| |].
  - by left.
  - simpl. rewrite set_all_id. exact HQ.
Qed.

Lemma wp_data_all s L1 a d L2 (Q : ravl_data_t -> cstate H P -> Prop) :
  ravl_rep rd_key (all_tree s) (L1 ++ (a, d) :: L2) -> Q d s ->
  wp (on_all (ravl_data a)) Q s.
Proof.
  intros Hr HQ. apply wp_on_all. eapply wp_data_rep; [exact Hr|]. simpl. by rewrite set_all_id.
Qed.

Lemma wp_prev_all s L1 a d L2 (Q : option Z -> cstate H P -> Prop) :
  ravl_rep rd_key (all_tree s) (L1 ++ (a, d) :: L2) -> Q (fst <$> last L1) s ->
  wp (get_node_prev a) Q s.
Proof.
  intros Hr HQ. apply wp_on_all. eapply wp_predecessor_rep; [exact Hr|]. simpl.
  by rewrite set_all_id.
Qed.

Lemma wp_next_all s L1 a d L2 (Q : option Z -> cstate H P -> Prop) :
  ravl_rep rd_key (all_tree s) (L1 ++ (a, d) :: L2) -> Q (fst <$> head L2) s ->
  wp (get_node_next a) Q s.
Proof.
  intros Hr HQ. apply wp_on_all. eapply wp_successor_rep; [exact Hr|]. simpl.
  by rewrite set_all_id.
Qed.

Lemma wp_find_free s L size flags (Q : option Z -> cstate H P -> Prop) :
  ravl_rep rd_key (free_tree s) L -> valid_predicate flags ->
  Q (find_list rd_key flags size L) s ->
  wp (free_blocks_find size flags) Q s.
Proof.
  intros Hr Hv HQ. apply wp_on_free. eapply (wp_find coarse_ravl_comp rd_key); [exact Hr|done|].
  simpl. rewrite set_free_id. exact HQ.
Qed.

Lemma wp_data_free s L1 a d L2 (Q : ravl_data_t -> cstate H P -> Prop) :
  ravl_rep rd_key (free_tree s) (L1 ++ (a, d) :: L2) -> Q d s ->
  wp (on_free (ravl_data a)) Q s.
Proof.
  intros Hr HQ. apply wp_on_free. eapply wp_data_rep; [exact Hr|]. simpl. by rewrite set_free_id.
Qed.
End Lift.

(** ** Frames

    [keeps_but tg h h']: what is live under another tag than [tg] stays so. *)

Section Frames.
Context {H P : Type} `{HostAllocLaws H}.
Implicit Types (s : cstate H P) (B : list entry) (F : list fentry) (h : H).

Definition keeps_but (tg0 : string) h h' : Prop :=
  forall a tg, tg <> tg0 -> ba_live h !! a = Some tg -> ba_live h' !! a = Some tg.

Lemma keeps_refl tg0 h : keeps_but tg0 h h.
Proof. by intros a tg _ Ha. Qed.
Lemma keeps_trans tg0 h1 h2 h3 :
  keeps_but tg0 h1 h2 -> keeps_but tg0 h2 h3 -> keeps_but tg0 h1 h3.
Proof. unfold keeps_but. eauto. Qed.
Lemma keeps_insert tg0 h h' a tg :
  ba_live h !! a = None -> ba_live h' = <[a := tg]> (ba_live h) -> keeps_but tg0 h h'.
Proof. intros Ha E x t _ Hx. rewrite E. rewrite lookup_insert_ne by congruence. done. Qed.
Lemma keeps_delete tg0 h h' a :
  ba_live h !! a = Some tg0 -> ba_live h' = delete a (ba_live h) -> keeps_but tg0 h h'.
Proof. intros Ha E x t Ht Hx. rewrite E. rewrite lookup_delete_ne by congruence. done. Qed.
Lemma keeps_eq tg0 h h' : ba_live h' = ba_live h -> keeps_but tg0 h h'.
Proof. by intros E a tg _; rewrite E. Qed.
Lemma keeps_alloc tg0 tg size h o h' :
  umf_ba_global_alloc tg size h = (o, h') -> keeps_but tg0 h h'.
Proof.
  destruct o as [a|]; intros E.
  - apply ba_alloc_some in E as [E1 E2]. by eapply keeps_insert.
  - apply ba_alloc_none in E. by apply keeps_eq.
Qed.
Lemma keeps_free tg0 h a :
  ba_live h !! a = Some tg0 -> keeps_but tg0 h (umf_ba_global_free a h).
Proof. intros Ha. eapply keeps_delete; [done|]. by apply ba_free_live. Qed.

Lemma owned_keeps {V} tg0 tg (heap : gmap Z V) h h' :
  keeps_but tg0 h h' -> tg <> tg0 -> owned tg heap h -> owned tg heap h'.
Proof. intros Hk Hne Ho a Ha. apply Hk; [done|]. by apply Ho. Qed.

Lemma rep_keeps {A} (key : A -> Z) tg0 (r : ravl A) h h' L :
  keeps_but tg0 h h' -> node_tag r <> tg0 ->
  ravl_rep key (mk_rstate r h) L -> ravl_rep key (mk_rstate r h') L.
Proof.
  intros Hk Hne (t & Hz & HL & Hs & Hok & Ho & Hd). exists t. split_and!; try done.
  by eapply owned_keeps.
Qed.

Lemma rep_live {A} (key : A -> Z) (rs : rstate H A) L p :
  ravl_rep key rs L -> p ∈ L -> ba_live (r_host rs) !! p.1 = Some (node_tag (r_ravl rs)).
Proof.
  intros (t & Hz & <- & _ & _ & Ho & _) Hp. apply Ho.
  destruct Hz as (Ht & _). eapply RavlTree.tree_at_lookup; [done|].
  rewrite <- RavlTree.addrs_inorder. apply list_elem_of_fmap. eauto.
Qed.

(** A tree operation that removes keeps the other tags. *)
Lemma keeps_remove {A} (key : A -> Z) (rs rs' : rstate H A) a d L1 L2 :
  ravl_rep key rs (L1 ++ (a, d) :: L2) -> remove_post key rs a L1 L2 rs' ->
  keeps_but (node_tag (r_ravl rs)) (r_host rs) (r_host rs').
Proof.
  intros Hrep [_ [[_ Hl]|(b & e & L2' & -> & _ & Hl)]].
  - eapply keeps_delete; [|done]. eapply (rep_live _ _ _ (a, d)); [done|].
    apply elem_of_app. right. constructor.
  - eapply keeps_delete; [|done]. eapply (rep_live _ _ _ (b, e)); [done|].
    apply elem_of_app. right. right. constructor.
Qed.

Lemma keeps_emplace {A} (key : A -> Z) tg0 (rs rs' : rstate H A) d L rv :
  emplace_post key rs d L rv rs' -> keeps_but tg0 (r_host rs) (r_host rs').
Proof.
  intros (_ & [(_ & n & L1 & L2 & _ & _ & _ & _ & Hn & Hl)|(_ & _ & _ & Hl & _)]).
  - by eapply keeps_insert.
  - by apply keeps_eq.
Qed.

Lemma all_inv_frame tg0 s s' B :
  all_inv s B -> all_blocks (co s') = all_blocks (co s) -> blocks s' = blocks s ->
  keeps_but tg0 (c_host s) (c_host s') -> tg0 <> tag_all -> tg0 <> tag_block -> all_inv s' B.
Proof.
  intros (Hr & Ht & Ho & Hb) Ha Eb Hk Hn1 Hn2. unfold all_inv, all_tree. rewrite Ha, Eb.
  split_and!; [|done| |done].
  - eapply rep_keeps; [done| |done]. by rewrite Ht.
  - by eapply owned_keeps.
Qed.

Lemma free_inv_frame tg0 s s' F :
  free_inv s F -> free_blocks (co s') = free_blocks (co s) ->
  heads s' = heads s -> elems s' = elems s ->
  keeps_but tg0 (c_host s) (c_host s') ->
  tg0 <> tag_free -> tg0 <> tag_head -> tg0 <> tag_elem -> free_inv s' F.
Proof.
  intros (Hr & Ht & Ho1 & Ho2 & Hrest) Ha Eh Ee Hk Hn1 Hn2 Hn3.
  unfold free_inv, free_tree. rewrite Ha, Eh, Ee. split_and!; try apply Hrest; [|done| |].
  - eapply rep_keeps; [done| |done]. by rewrite Ht.
  - by eapply owned_keeps.
  - by eapply owned_keeps.
Qed.

Lemma self_inv_frame tg0 s s' :
  self_inv s -> self (all_blocks (co s')) = self (all_blocks (co s)) ->
  self (free_blocks (co s')) = self (free_blocks (co s)) -> c_self (co s') = c_self (co s) ->
  keeps_but tg0 (c_host s) (c_host s') -> tg0 <> "struct ravl"%string -> tg0 <> tag_coarse ->
  self_inv s'.
Proof.
  intros (Ho1 & Hne & Ho2) E1 E2 E3 Hk Hn1 Hn2. unfold self_inv. rewrite E1, E2, E3.
  split_and!; [by eapply owned_keeps|done|by eapply owned_keeps].
Qed.

(** No object carries the tag ["-"]. *)
Lemma heaps_inv_frame s s' B F X :
  heaps_inv s B F X -> all_blocks (co s') = all_blocks (co s) ->
  free_blocks (co s') = free_blocks (co s) -> c_self (co s') = c_self (co s) ->
  blocks s' = blocks s -> heads s' = heads s -> elems s' = elems s ->
  keeps_but "-" (c_host s) (c_host s') -> heaps_inv s' B F X.
Proof.
  intros (Ha & Hf & Hself & Hl & Hne) E1 E2 E3 E4 E5 E6 Hk. split_and!; [..|done|done].
  - by eapply all_inv_frame.
  - by eapply free_inv_frame.
  - eapply self_inv_frame; eauto; by rewrite ?E1, ?E2.
Qed.

(** What the helpers never touch. *)
Definition same_ctl s s' : Prop :=
  c_self (co s') = c_self (co s) /\ c_cb (co s') = c_cb (co s) /\
  allocation_strategy (co s') = allocation_strategy (co s) /\
  page_size (co s') = page_size (co s) /\ c_lock (co s') = c_lock (co s) /\
  used_size (co s') = used_size (co s) /\ alloc_size (co s') = alloc_size (co s) /\
  provider s' = provider s /\ host_steps (c_host s) (c_host s').

Lemma same_ctl_refl s : same_ctl s s.
Proof. unfold same_ctl. split_and!; auto with umf. Qed.
Lemma same_ctl_trans s1 s2 s3 : same_ctl s1 s2 -> same_ctl s2 s3 -> same_ctl s1 s3.
Proof.
  unfold same_ctl. intros Hx Hy. destruct_and!. split_and!; try congruence.
  by eapply host_steps_trans.
Qed.
End Frames.

#[export] Hint Resolve same_ctl_refl keeps_refl : umf.

Lemma rep_sorted `{HostAlloc H} {A} (key : A -> Z) (rs : rstate H A) L :
  ravl_rep key rs L -> sorted key L.
Proof. intros (t & _ & _ & Hs & _). done. Qed.

Lemma rep_find_hit `{HostAllocLaws H} {A} (key : A -> Z) (rs : rstate H A) L1 a d L2 flags :
  ravl_rep key rs (L1 ++ (a, d) :: L2) -> valid_predicate flags ->
  has_flag flags RAVL_PREDICATE_EQUAL = true ->
  find_list key flags (key d) (L1 ++ (a, d) :: L2) = Some a.
Proof.
  intros Hr Hv Hf. apply rep_sorted in Hr. unfold sorted in Hr.
  rewrite StronglySorted_app, StronglySorted_cons in Hr. destruct Hr as (H12 & _ & H2 & _).
  rewrite find_list_hit, Hf; auto. apply Forall_forall. intros p Hp.
  apply (H12 p (a, d) Hp). constructor.
Qed.

Lemma find_eq_none {A} (key : A -> Z) x (L : list (Z * A)) :
  (forall p, p ∈ L -> key p.2 <> x) -> find_eq key x L = None.
Proof.
  intros Hn. unfold find_eq. rewrite filter_none; [done|]. apply Forall_forall. auto.
Qed.

(** The same blocks, in nodes that may differ. *)
Definition same_pb (B B' : list entry) : Prop :=
  Forall2 (fun e e' => en_ptr e = en_ptr e' /\ en_block e = en_block e') B B'.

Lemma same_pb_refl B : same_pb B B.
Proof. induction B; constructor; auto. Qed.

Lemma same_pb_blocks B B' : same_pb B B' -> en_block <$> B' = en_block <$> B.
Proof. induction 1 as [|e e' B B' [_ E] _ IH]; [done|]. by rewrite !fmap_cons, E, IH. Qed.

Lemma same_pb_in B B' e' :
  same_pb B B' -> e' ∈ B' -> exists e, e ∈ B /\ en_ptr e = en_ptr e' /\ en_block e = en_block e'.
Proof.
  induction 1 as [|x y B B' Hxy _ IH]; intros He'; [by apply not_elem_of_nil in He'|].
  apply elem_of_cons in He' as [->|He']; [exists x; split; [constructor|done]|].
  destruct (IH He') as (e & He & E). exists e. split; [by right|done].
Qed.

Lemma same_pb_in' B B' e :
  same_pb B B' -> e ∈ B -> exists e', e' ∈ B' /\ en_ptr e = en_ptr e' /\ en_block e = en_block e'.
Proof.
  induction 1 as [|x y B B' Hxy _ IH]; intros He; [by apply not_elem_of_nil in He|].
  apply elem_of_cons in He as [->|He]; [exists y; split; [constructor|done]|].
  destruct (IH He) as (e' & He' & E). exists e'. split; [by right|done].
Qed.

Lemma linked_same_pb B B' F X : same_pb B B' -> linked B F X -> linked B' F X.
Proof.
  intros Hs (L1 & L2 & L3). split_and!.
  - intros f e p Hf He. destruct (L1 f e p Hf He) as (en & Hen & Ep & E).
    destruct (same_pb_in' _ _ _ Hs Hen) as (en' & Hen' & E1 & E2).
    exists en'. rewrite <- E1, <- E2. done.
  - intros en' e Hen' Ee. destruct (same_pb_in _ _ _ Hs Hen') as (en & Hen & E1 & E2).
    rewrite <- E1, <- E2 in *. eauto.
  - intros en' Hen' Hu Hx. destruct (same_pb_in _ _ _ Hs Hen') as (en & Hen & E1 & E2).
    rewrite <- E1, <- E2 in *. eauto.
Qed.

Section All.
Context {H P : Type} `{HostAllocLaws H}.
Implicit Types (s : cstate H P) (B : list entry) (F : list fentry).

Lemma all_inv_block s B e : all_inv s B -> e ∈ B -> blocks s !! en_ptr e = Some (en_block e).
Proof. intros (_ & _ & _ & Hb) He. apply Hb. eauto. Qed.

(** Two entries of one pointer are the same block. *)
Lemma all_inv_ptr s B1 e B2 e' :
  all_inv s (B1 ++ e :: B2) -> e' ∈ B1 ++ B2 -> en_ptr e' <> en_ptr e.
Proof.
  intros Hi He' Ep. pose proof (all_inv_block _ _ e Hi) as Hb.
  pose proof (all_inv_block _ _ e' Hi) as Hb'.
  assert (en_block e' = en_block e) as Eb.
  { rewrite elem_of_app in He'. rewrite elem_of_app, elem_of_cons in Hb, Hb'.
    specialize (Hb ltac:(auto)). specialize (Hb' ltac:(tauto)). congruence. }
  destruct Hi as (Hr & _). apply rep_sorted in Hr. unfold sorted in Hr.
  rewrite fmap_app, fmap_cons, StronglySorted_app, StronglySorted_cons in Hr.
  destruct Hr as (H12 & _ & H2 & _). apply elem_of_app in He' as [He'|He'].
  - specialize (H12 (all_node e') (all_node e)). simpl in H12. rewrite Eb in H12.
    enough (b_data (en_block e) < b_data (en_block e)) by lia. apply H12.
    + apply list_elem_of_fmap. eauto.
    + constructor.
  - rewrite Forall_forall in H2. specialize (H2 (all_node e')). simpl in H2. rewrite Eb in H2.
    enough (b_data (en_block e) < b_data (en_block e)) by lia. apply H2.
    apply list_elem_of_fmap. eauto.
Qed.

Lemma find_eq_entry (rs : rstate H ravl_data_t) B1 e B2 :
  ravl_rep rd_key rs (all_node <$> B1 ++ e :: B2) ->
  find_eq rd_key (b_data (en_block e)) (all_node <$> B1 ++ e :: B2) = Some (en_node e).
Proof.
  rewrite fmap_app, fmap_cons. intros Hr.
  exact (rep_find_hit _ _ _ _ _ _ RAVL_PREDICATE_EQUAL Hr
           (list_elem_of_here _ _) eq_refl).
Qed.

Lemma wp_find_node_some s B1 e B2 (Q : option Z -> cstate H P -> Prop) :
  all_inv s (B1 ++ e :: B2) -> Q (Some (en_node e)) s ->
  wp (coarse_ravl_find_node (b_data (en_block e))) Q s.
Proof.
  intros (Hr & _) HQ. eapply wp_find_all; [exact Hr|]. simpl rd_key.
  by rewrite (find_eq_entry _ _ _ _ Hr).
Qed.

Lemma wp_find_node_none s B ptr (Q : option Z -> cstate H P -> Prop) :
  all_inv s B -> (forall e, e ∈ B -> b_data (en_block e) <> ptr) -> Q None s ->
  wp (coarse_ravl_find_node ptr) Q s.
Proof.
  intros (Hr & _) Hn HQ. eapply wp_find_all; [exact Hr|]. simpl.
  rewrite find_eq_none; [done|]. intros p Hp. apply list_elem_of_fmap in Hp as (e & -> & He).
  by apply Hn.
Qed.

Lemma wp_get_node_block s B1 e B2 (Q : Z -> cstate H P -> Prop) :
  all_inv s (B1 ++ e :: B2) -> Q (en_ptr e) s -> wp (get_node_block (en_node e)) Q s.
Proof.
  intros (Hr & _) HQ. unfold get_node_block. apply wp_bind.
  rewrite fmap_app, fmap_cons in Hr. eapply wp_data_all; [exact Hr|]. simpl. by apply wp_ret.
Qed.

Lemma wp_prev s B1 e B2 (Q : option Z -> cstate H P -> Prop) :
  all_inv s (B1 ++ e :: B2) -> Q (en_node <$> last B1) s -> wp (get_node_prev (en_node e)) Q s.
Proof.
  intros (Hr & _) HQ. rewrite fmap_app, fmap_cons in Hr.
  eapply wp_prev_all; [exact Hr|]. rewrite fmap_last. by destruct (last B1).
Qed.

Lemma wp_next s B1 e B2 (Q : option Z -> cstate H P -> Prop) :
  all_inv s (B1 ++ e :: B2) -> Q (en_node <$> head B2) s -> wp (get_node_next (en_node e)) Q s.
Proof.
  intros (Hr & _) HQ. rewrite fmap_app, fmap_cons in Hr.
  eapply wp_next_all; [exact Hr|]. by destruct B2.
Qed.

(** Storing into a block of the list. *)
Lemma all_inv_store s B1 e B2 g :
  all_inv s (B1 ++ e :: B2) -> b_data (g (en_block e)) = b_data (en_block e) ->
  all_inv (set_blocks (<[en_ptr e := g (en_block e)]> (blocks s)) s) (B1 ++ upd_block g e :: B2).
Proof.
  intros Hi Hd. pose proof Hi as (Hr & Ht & Ho & Hb). split_and!; simpl.
  - unfold all_tree in *. simpl. rewrite fmap_app, fmap_cons in Hr |- *.
    unfold all_node at 2. simpl. rewrite Hd. exact Hr.
  - done.
  - apply owned_update; [done|]. exists (en_block e). apply Hb. exists e.
    rewrite elem_of_app, elem_of_cons. auto.
  - intros p b. destruct (decide (p = en_ptr e)) as [->|Hne].
    + rewrite lookup_insert_eq. split.
      * intros [= <-]. exists (upd_block g e). rewrite elem_of_app, elem_of_cons. auto.
      * intros (e' & He' & Ep & <-). f_equal.
        rewrite elem_of_app, elem_of_cons in He'. destruct He' as [He'|[->|He']]; [|done|];
          exfalso; (eapply all_inv_ptr; [exact Hi| |exact Ep]); rewrite elem_of_app; auto.
    + rewrite lookup_insert_ne by done. rewrite Hb. split; intros (e' & He' & <- & <-);
        exists e'; rewrite !elem_of_app, !elem_of_cons in *;
        (destruct He' as [He'|[->|He']]; [by auto| |by auto]); simpl in *; done.
Qed.

Lemma wp_emplace_all s L d (Q : Z -> cstate H P -> Prop) :
  ravl_rep rd_key (all_tree s) L ->
  (forall rv rs, emplace_post rd_key (all_tree s) d L rv rs ->
     Q rv (set_chost (r_host rs) (set_all_blocks (r_ravl rs) s))) ->
  wp (on_all (ravl_emplace_copy coarse_ravl_comp d)) Q s.
Proof.
  intros Hr HQ. apply wp_on_all. unfold ravl_emplace_copy.
  eapply wp_mono; [by apply (wp_emplace coarse_ravl_comp rd_key)|]. auto.
Qed.

(** The invariant when a block struct that is not in the list is dropped. *)
Lemma wp_free_block_struct s p b (Q : unit -> cstate H P -> Prop) :
  blocks s !! p = Some b ->
  Q tt (set_chost (umf_ba_global_free p (c_host s)) (set_blocks (delete p (blocks s)) s)) ->
  wp (free_block_struct p) Q s.
Proof.
  intros Hb HQ. unfold free_block_struct, host_free. apply wp_bind.
  eapply wp_load_block; [done|]. wp_step. apply wp_modify. exact HQ.
Qed.

Lemma linked_add B1 B2 F X n p b :
  linked (B1 ++ B2) F X -> b_free_list_ptr b = None ->
  linked (B1 ++ En n p b :: B2) F (p :: X).
Proof.
  intros (L1 & L2 & L3) Hb. split_and!.
  - intros f e q Hf He. destruct (L1 f e q Hf He) as (en & Hen & E). exists en.
    split; [|done]. rewrite elem_of_app, elem_of_cons. rewrite elem_of_app in Hen. tauto.
  - intros en e Hen Ee. rewrite elem_of_app, elem_of_cons in Hen.
    destruct Hen as [Hen|[->|Hen]]; [|by simpl in Ee; rewrite Hb in Ee|];
      (apply (L2 en); [rewrite elem_of_app; auto|done]).
  - intros en Hen Hu Hx. rewrite not_elem_of_cons in Hx. destruct Hx as [Hx1 Hx2].
    rewrite elem_of_app, elem_of_cons in Hen. destruct Hen as [Hen|[->|Hen]]; [|done|];
      (apply (L3 en); [rewrite elem_of_app; auto|done|done]).
Qed.

(** The block map with one more block. *)
Lemma all_inv_add s B1 B2 n p b h t :
  all_inv s (B1 ++ B2) -> blocks s !! p = None -> node_tag t = tag_all ->
  ravl_rep rd_key (mk_rstate t h) (all_node <$> B1 ++ En n p b :: B2) ->
  ba_live h !! p = Some tag_block -> keeps_but tag_all (c_host s) h ->
  all_inv (set_chost h (set_all_blocks t (set_blocks (<[p := b]> (blocks s)) s)))
    (B1 ++ En n p b :: B2).
Proof.
  intros (Hr & Ht & Ho & Hb) Hp Htag Hrep Hlive Hk. split_and!; [done|done| |]; simpl.
  - intros a Ha. destruct (decide (a = p)) as [->|Hne]; [done|].
    rewrite lookup_insert_ne in Ha by done. apply Hk; [done|]. by apply Ho.
  - intros q c. destruct (decide (q = p)) as [->|Hne].
    + rewrite lookup_insert_eq. split.
      * intros [= <-]. eexists. rewrite elem_of_app, elem_of_cons. eauto.
      * intros (e & He & Ep & <-). rewrite elem_of_app, elem_of_cons in He.
        destruct He as [He|[->|He]]; [|done|];
          (assert (blocks s !! p = Some (en_block e)) as Hx
             by (apply Hb; exists e; rewrite elem_of_app; auto); congruence).
    + rewrite lookup_insert_ne by done. rewrite Hb. split.
      * intros (e & He & E). exists e. split; [|done].
        rewrite elem_of_app, elem_of_cons. rewrite elem_of_app in He. tauto.
      * intros (e & He & E1 & E2). exists e. split; [|done].
        rewrite elem_of_app, elem_of_cons in He. rewrite elem_of_app.
        destruct He as [He|[->|He]]; [by auto| |by auto]. by simpl in E1.
Qed.

Lemma wp_add_new (T : list string) (ok : H -> Prop) `{!Reliable T ok}
    (uninit_used : Z -> bool) s B F X data size (Q : option (Z * Z) -> cstate H P -> Prop) :
  heaps_inv s B F X -> data <> 0 -> size <> 0 ->
  (forall e, e ∈ B -> b_data (en_block e) <> data) -> ok (c_host s) ->
  (forall s', ~ (tag_block ∈ T /\ tag_all ∈ T) ->
     heaps_inv s' B F X -> same_ctl s s' -> Q None s') ->
  (forall s' n p B1 B2, B = B1 ++ B2 ->
     Forall (fun e => b_data (en_block e) < data) B1 ->
     Forall (fun e => data < b_data (en_block e)) B2 ->
     heaps_inv s' (B1 ++ En n p (mk_block size data (uninit_used p) None) :: B2) F (p :: X) ->
     same_ctl s s' -> Q (Some (p, n)) s') ->
  wp (coarse_ravl_add_new uninit_used data size) Q s.
Proof.
  intros (Ha & Hf & Hself & Hl & Hne) Hd Hs Hnew Hok HQ1 HQ2. unfold coarse_ravl_add_new.
  pose proof Ha as (Hr & Htag & Ho & Hb).
  wp_step; [by destruct (Z.eqb_spec data 0)|]. wp_step; [by destruct (Z.eqb_spec size 0)|].
  apply wp_bind, wp_host_alloc. intros [p|] h E; cycle 1.
  { apply wp_ret, HQ1; [| |unfold same_ctl; simpl; split_and!; eauto with umf].
    { intros [Hin _]. by apply (reliable_alloc (T := T) tag_block sizeof_block_t _ Hok Hin); rewrite E. }
    eapply heaps_inv_frame; [by split_and!|done..|]. by eapply keeps_alloc. }
  pose proof (owned_fresh _ _ _ _ _ _ _ Ho E) as Hpb.
  pose proof (ba_alloc_some _ _ _ _ _ E) as [Hfresh Hlive].
  wp_step. simpl. set (b := mk_block size data (uninit_used p) None).
  set (s1 := set_blocks _ _).
  assert (ravl_rep rd_key (all_tree s1) (all_node <$> B)) as Hr1.
  { eapply (rep_keeps _ "-"); [by eapply keeps_alloc| |exact Hr]. simpl. by rewrite Htag. }
  apply wp_bind. eapply wp_find_all; [exact Hr1|]. simpl.
  rewrite find_eq_none; cycle 1.
  { intros q Hq. apply list_elem_of_fmap in Hq as (e & -> & He). by apply Hnew. }
  wp_step; [done|]. apply wp_bind. eapply wp_emplace_all; [exact Hr1|]. intros rv rs Hpost.
  pose proof (keeps_emplace _ tag_all _ _ _ _ _ Hpost) as Hk. simpl in Hk.
  assert (keeps_but tag_all (c_host s) (r_host rs)) as Hk'.
  { eapply keeps_trans; [by eapply keeps_alloc|exact Hk]. }
  assert (ba_live (r_host rs) !! p = Some tag_block) as Hlp.
  { apply Hk; [done|]. simpl. by rewrite Hlive, lookup_insert_eq. }
  destruct Hpost as ((M1 & M2 & M3 & M4) & Hcase). simpl in M1, M2, M3, M4.
  assert (host_steps (c_host s) (r_host rs)) as Hsteps.
  { eapply host_steps_trans; [by eapply host_steps_alloc|exact M4]. }
  destruct Hcase as [(-> & n & L1 & L2 & HL & Hrep & Hlt & Hgt & Hn & Hln)|(-> & Hrep & Er & El & Hwhy)].
  - simpl. apply fmap_app_inv in HL as (B1 & B2 & -> & -> & ->).
    assert (all_inv (set_chost (r_host rs) (set_all_blocks (r_ravl rs) s1))
      (B1 ++ En n p b :: B2)) as Ha'.
    { refine (all_inv_add s B1 B2 n p b (r_host rs) (r_ravl rs) _ _ _ _ _ _);
        try done; [by rewrite M3|].
      rewrite fmap_app, fmap_cons. by destruct rs. }
    apply wp_bind. eapply wp_find_all; [apply Ha'|]. simpl rd_key.
    pose proof (find_eq_entry _ _ _ _ (proj1 Ha')) as Efind. simpl in Efind.
    rewrite Efind. wp_step; [done|]. apply wp_ret.
    eapply HQ2; [done| | |split_and!|].
    + rewrite Forall_fmap in Hlt. exact Hlt.
    + rewrite Forall_fmap in Hgt. exact Hgt.
    + exact Ha'.
    + by eapply (free_inv_frame tag_all).
    + by eapply (self_inv_frame tag_all).
    + by apply linked_add.
    + done.
    + unfold same_ctl. simpl. by split_and!.
  - simpl. apply wp_bind. eapply wp_free_block_struct; [simpl; apply lookup_insert_eq|].
    apply wp_ret. assert (ba_live (umf_ba_global_free p (r_host rs)) = ba_live (c_host s)) as Eq.
    { rewrite ba_free_live by (by eexists). rewrite El. simpl.
      by rewrite Hlive, delete_insert_id. }
    apply HQ1; simpl.
    + intros [_ Hin]. destruct Hwhy as [Hwhy|(q & Hq & Eq')].
      * simpl in Hwhy. rewrite Htag in Hwhy.
        assert (ok h) as Hokh
          by (eapply (reliable_steps T ok); [exact Hok|by eapply host_steps_alloc]).
        by apply (reliable_alloc (T := T) tag_all
          (sizeof_ravl_node + data_size (all_blocks (co s))) _ Hokh Hin).
      * apply list_elem_of_fmap in Hq as (e & -> & He). by apply (Hnew e He).
    + eapply (heaps_inv_frame s); [by split_and!|done..| |done|done|by apply keeps_eq].
      simpl. by rewrite delete_insert_id.
    + unfold same_ctl. simpl. split_and!; try done.
      eapply host_steps_trans; [exact Hsteps|apply host_steps_free].
Qed.

Lemma sorted_other_key B1 e B2 e' :
  sorted rd_key (all_node <$> B1 ++ e :: B2) -> e' ∈ B1 ++ B2 ->
  b_data (en_block e') <> b_data (en_block e).
Proof.
  unfold sorted. rewrite fmap_app, fmap_cons, StronglySorted_app, StronglySorted_cons.
  intros (H12 & _ & Hf & _) He'. rewrite elem_of_app in He'. destruct He' as [He'|He'].
  - specialize (H12 (all_node e') (all_node e)). simpl in H12.
    enough (b_data (en_block e') < b_data (en_block e)) by lia. apply H12.
    + apply list_elem_of_fmap. eauto.
    + constructor.
  - rewrite Forall_forall in Hf. specialize (Hf (all_node e')). simpl in Hf.
    enough (b_data (en_block e) < b_data (en_block e')) by lia. apply Hf.
    apply list_elem_of_fmap. eauto.
Qed.

Lemma same_pb_other B1 e B2 B2' e' :
  sorted rd_key (all_node <$> B1 ++ e :: B2) -> same_pb B2 B2' -> e' ∈ B1 ++ B2' ->
  b_data (en_block e') <> b_data (en_block e).
Proof.
  intros Hs Hpb He'. rewrite elem_of_app in He'. destruct He' as [He'|He'].
  - eapply sorted_other_key; [exact Hs|]. rewrite elem_of_app. auto.
  - destruct (same_pb_in _ _ _ Hpb He') as (e2 & He2 & _ & <-).
    eapply sorted_other_key; [exact Hs|]. rewrite elem_of_app. auto.
Qed.

Lemma wp_coarse_ravl_rm s B1 e B2 (Q : option Z -> cstate H P -> Prop) :
  ravl_rep rd_key (all_tree s) (all_node <$> B1 ++ e :: B2) ->
  node_tag (all_blocks (co s)) = tag_all ->
  (forall t h B2', same_pb B2 B2' ->
     ravl_rep rd_key (mk_rstate t h) (all_node <$> B1 ++ B2') ->
     node_tag t = tag_all -> self t = self (all_blocks (co s)) ->
     keeps_but tag_all (c_host s) h -> host_steps (c_host s) h ->
     Q (Some (en_ptr e)) (set_chost h (set_all_blocks t s))) ->
  wp (coarse_ravl_rm (b_data (en_block e))) Q s.
Proof.
  intros Hr Ht HQ. unfold coarse_ravl_rm, coarse_ravl_find_node. apply wp_bind.
  eapply wp_find_all; [exact Hr|]. simpl rd_key. rewrite (find_eq_entry _ _ _ _ Hr).
  pose proof (rep_sorted _ _ _ Hr) as Hs. pose proof Hr as Hr0. rewrite fmap_app, fmap_cons in Hr.
  apply wp_bind. eapply wp_data_all; [exact Hr|]. simpl. wp_step.
  apply wp_bind, wp_on_all. eapply wp_mono; [by eapply (wp_remove rd_key)|].
  intros u rs Hpost. cbv beta in Hpost. pose proof (keeps_remove _ _ _ _ _ _ _ Hr Hpost) as Hk.
  simpl in Hk. rewrite Ht in Hk. destruct Hpost as [(M1 & M2 & M3 & M4) Hcase].
  simpl in M1, M3, M4. rewrite Ht in M3.
  assert (exists B2', same_pb B2 B2' /\ ravl_rep rd_key rs (all_node <$> B1 ++ B2'))
    as (B2' & Hpb & Hrep).
  { destruct Hcase as [[Hrep _]|(b & d & L2' & EL & Hrep & _)].
    - exists B2. split; [apply same_pb_refl|]. by rewrite fmap_app.
    - destruct B2 as [|e2 B2]; [done|]. rewrite fmap_cons in EL. injection EL as E1 <-.
      unfold all_node in E1. simplify_eq.
      exists (En (en_node e) (en_ptr e2) (en_block e2) :: B2). split.
      + constructor; [done|]. apply same_pb_refl.
      + by rewrite fmap_app, fmap_cons. }
  apply wp_bind. eapply wp_find_all; [by destruct rs|]. simpl rd_key.
  rewrite find_eq_none; cycle 1.
  { intros p Hp. apply list_elem_of_fmap in Hp as (e' & -> & He').
    eapply same_pb_other; eauto. }
  wp_step; [done|]. apply wp_ret. eapply HQ; eauto.
Qed.

Lemma all_inv_del s B1 e B2 B2' t h :
  all_inv s (B1 ++ e :: B2) -> same_pb B2 B2' ->
  ravl_rep rd_key (mk_rstate t h) (all_node <$> B1 ++ B2') -> node_tag t = tag_all ->
  keeps_but tag_all (c_host s) h ->
  all_inv (set_chost (umf_ba_global_free (en_ptr e) h)
    (set_blocks (delete (en_ptr e) (blocks s)) (set_all_blocks t s))) (B1 ++ B2').
Proof.
  intros Hi Hpb Hrep Ht Hk. pose proof Hi as (Hr & Htag & Ho & Hb).
  assert (is_Some (blocks s !! en_ptr e)) as Hsome.
  { exists (en_block e). apply Hb. exists e. rewrite elem_of_app, elem_of_cons. auto. }
  assert (keeps_but tag_block h (umf_ba_global_free (en_ptr e) h)) as Hkf.
  { apply keeps_free. apply Hk; [done|]. by apply Ho. }
  split_and!; simpl.
  - eapply rep_keeps; [exact Hkf| |exact Hrep]. simpl. by rewrite Ht.
  - done.
  - apply owned_free_own; [|done]. by eapply owned_keeps.
  - intros p b. destruct (decide (p = en_ptr e)) as [->|Hne].
    + rewrite lookup_delete_eq. split; [done|]. intros (e' & He' & Ep & _). exfalso.
      rewrite elem_of_app in He'. destruct He' as [He'|He'].
      * eapply all_inv_ptr; [exact Hi| |exact Ep]. rewrite elem_of_app. auto.
      * destruct (same_pb_in _ _ _ Hpb He') as (e2 & He2 & E2 & _).
        eapply (all_inv_ptr _ _ _ _ e2); [exact Hi| |congruence]. rewrite elem_of_app. auto.
    + rewrite lookup_delete_ne by done. rewrite Hb. split.
      * intros (e' & He' & E1 & E2). rewrite elem_of_app, elem_of_cons in He'.
        destruct He' as [He'|[->|He']]; [|done|].
        { exists e'. rewrite elem_of_app. auto. }
        destruct (same_pb_in' _ _ _ Hpb He') as (e2 & He2 & G1 & G2). exists e2.
        rewrite elem_of_app, <- G1, <- G2. auto.
      * intros (e' & He' & E1 & E2). rewrite elem_of_app in He'.
        destruct He' as [He'|He']; [exists e'; rewrite elem_of_app; auto|].
        destruct (same_pb_in _ _ _ Hpb He') as (e2 & He2 & G1 & G2). exists e2.
        rewrite elem_of_app, elem_of_cons, G1, G2. auto.
Qed.

Lemma linked_del B1 e B2 F X :
  linked (B1 ++ e :: B2) F X -> b_free_list_ptr (en_block e) = None -> linked (B1 ++ B2) F X.
Proof.
  intros (L1 & L2 & L3) Hn. split_and!.
  - intros f x p Hf Hx. destruct (L1 f x p Hf Hx) as (en & Hen & E). exists en.
    split; [|done]. rewrite elem_of_app, elem_of_cons in Hen. rewrite elem_of_app.
    destruct Hen as [?|[->|?]]; [by auto| |by auto]. destruct E as (_ & _ & E & _). congruence.
  - intros en x Hen. apply L2. rewrite elem_of_app, elem_of_cons.
    rewrite elem_of_app in Hen. tauto.
  - intros en Hen. apply L3. rewrite elem_of_app, elem_of_cons.
    rewrite elem_of_app in Hen. tauto.
Qed.
End All.
