(* ===== verification/CoarseFree.v ===== *)
(** * The free lists

    The doubly linked lists of blocks of one size, and the tree of their heads:
    adding a block, taking a block out, and the search for the best fit. *)

From S2P Require Import Prelude Utils HostMem Ravl RavlSpec RavlRemove Coarse.
From S2P Require Import CoarseInv.
From stdpp Require Import strings sorting.
#[local] Open Scope Z_scope.

(** ** Doubly linked lists *)

Section Dll.
Implicit Types (es : gmap Z ravl_free_blocks_elem_t) (l : list (Z * Z)).

Definition last_or l (prev : option Z) : option Z :=
  match last l with Some (e, _) => Some e | None => prev end.

Lemma hd_or_app l1 l2 n : hd_or (l1 ++ l2) n = hd_or l1 (hd_or l2 n).
Proof. by destruct l1 as [|[]]. Qed.

Lemma last_or_cons e b l p : last_or ((e, b) :: l) p = last_or l (Some e).
Proof. unfold last_or. rewrite last_cons. by destruct (last l) as [[]|]. Qed.

Lemma dll_app es p l1 l2 n :
  dll es p (l1 ++ l2) n <-> dll es p l1 (hd_or l2 n) /\ dll es (last_or l1 p) l2 n.
Proof.
  revert p. induction l1 as [|[e b] l1 IH]; intros p; simpl; [tauto|].
  rewrite IH, hd_or_app, last_or_cons. tauto.
Qed.

Lemma dll_frame es es' p l n :
  (forall x, x ∈ l.*1 -> es' !! x = es !! x) -> dll es p l n -> dll es' p l n.
Proof.
  revert p. induction l as [|[e b] l IH]; intros p Hx; simpl; [done|]. intros [He Hl].
  split.
  - rewrite Hx; [done|]. constructor.
  - apply IH; [|done]. intros x Hin. apply Hx. by right.
Qed.

Lemma dll_lookup es p l n e b :
  dll es p l n -> (e, b) ∈ l -> exists n' p', es !! e = Some (mk_elem b n' p').
Proof.
  revert p. induction l as [|[e' b'] l IH]; intros p; simpl.
  - intros _ Hin. by apply not_elem_of_nil in Hin.
  - intros [He Hl] Hin. apply elem_of_cons in Hin as [[= -> ->]|Hin]; eauto.
Qed.

Lemma dll_set_prev es p p' e b l n :
  NoDup ((e, b) :: l).*1 -> dll es p ((e, b) :: l) n ->
  dll (alter (with_e_prev p') e es) p' ((e, b) :: l) n.
Proof.
  simpl. intros Hnd [He Hl]. apply list.NoDup_cons in Hnd as [Hne _]. split.
  - by rewrite lookup_alter_eq, He.
  - eapply dll_frame; [|exact Hl]. intros x Hx. apply lookup_alter_ne. by intros ->.
Qed.

Lemma dll_set_next es p e b l n n' :
  NoDup (l ++ [(e, b)]).*1 -> dll es p (l ++ [(e, b)]) n ->
  dll (alter (with_e_next n') e es) p (l ++ [(e, b)]) n'.
Proof.
  intros Hnd Hd. apply dll_app in Hd as [H1 H2]. apply dll_app.
  rewrite fmap_app in Hnd. apply NoDup_app in Hnd as (_ & Hdis & _). split.
  - eapply dll_frame; [|exact H1]. intros x Hx. apply lookup_alter_ne. intros ->.
    apply (Hdis _ Hx). constructor.
  - simpl in *. destruct H2 as [H2 _]. split; [|done]. by rewrite lookup_alter_eq, H2.
Qed.

(** The stores of [node_list_rm]: unlinking one element. *)
Definition unlink es l1 l2 : gmap Z ravl_free_blocks_elem_t :=
  let es1 := match hd_or l2 None with
             | Some x => alter (with_e_prev (last_or l1 None)) x es
             | None => es
             end in
  match last_or l1 None with
  | Some x => alter (with_e_next (hd_or l2 None)) x es1
  | None => es1
  end.

Lemma unlink_other es l1 l2 x :
  x ∉ (l1 ++ l2).*1 -> unlink es l1 l2 !! x = es !! x.
Proof.
  rewrite fmap_app, not_elem_of_app. intros [Hx1 Hx2]. unfold unlink.
  assert (forall y, hd_or l2 None = Some y -> y <> x) as Hh.
  { intros y Hy ->. destruct l2 as [|[]]; simplify_eq/=. apply Hx2. constructor. }
  assert (forall y, last_or l1 None = Some y -> y <> x) as Hl.
  { intros y Hy ->. unfold last_or in Hy. destruct (last l1) as [[e b]|] eqn:E; simplify_eq.
    apply last_Some_elem_of in E. apply Hx1. by apply (list_elem_of_fmap_2 fst) in E. }
  destruct (last_or l1 None) as [y|]; destruct (hd_or l2 None) as [z|];
    rewrite ?lookup_alter_ne; auto.
Qed.

Lemma dll_unlink es l1 e b l2 :
  NoDup (l1 ++ (e, b) :: l2).*1 -> dll es None (l1 ++ (e, b) :: l2) None ->
  dll (unlink es l1 l2) None (l1 ++ l2) None.
Proof.
  intros Hnd Hd. apply dll_app in Hd as [H1 [He H2]]. simpl in *.
  rewrite fmap_app, fmap_cons in Hnd. apply NoDup_app in Hnd as (N1 & Hdis & N2).
  apply list.NoDup_cons in N2 as [Hne N2]. unfold unlink. apply dll_app.
  set (es1 := match hd_or l2 None with Some x => _ | None => es end).
  assert (dll es1 None l1 (Some e) /\ dll es1 (last_or l1 None) l2 None) as [D1 D2].
  { subst es1. destruct l2 as [|[e2 b2] l2]; simpl; [done|]. split.
    - eapply dll_frame; [|exact H1]. intros x Hx. apply lookup_alter_ne. intros ->.
      apply (Hdis _ Hx). right. constructor.
    - eapply (dll_set_prev _ _ _ e2 b2 l2); [done|exact H2]. }
  clearbody es1. unfold last_or in *. destruct (last l1) as [[e1 b1]|] eqn:E.
  - apply last_Some in E as [l1' ->]. split.
    + eapply dll_set_next; [done|exact D1].
    + eapply dll_frame; [|exact D2]. intros x Hx. apply lookup_alter_ne. intros ->.
      apply (Hdis x); [rewrite fmap_app, elem_of_app; right; constructor|by right].
  - apply last_None in E as ->. done.
Qed.
End Dll.

(** ** The lists and their heads *)

Definition set_felems (l : list (Z * Z)) (f : fentry) : fentry :=
  FE (f_node f) (f_size f) (f_head f) l.

Lemma felems_app F1 F2 : felems (F1 ++ F2) = felems F1 ++ felems F2.
Proof. unfold felems. by rewrite bind_app. Qed.

Lemma felems_middle F1 f F2 : felems (F1 ++ f :: F2) ≡ₚ (f_elems f).*1 ++ felems (F1 ++ F2).
Proof.
  rewrite !felems_app. change (felems (f :: F2)) with ((f_elems f).*1 ++ felems F2).
  rewrite !app_assoc. by rewrite (Permutation_app_comm (felems F1)).
Qed.

Lemma felems_elem F f : f ∈ F -> forall x, x ∈ (f_elems f).*1 -> x ∈ felems F.
Proof. intros Hf x Hx. unfold felems. apply list_elem_of_bind. eauto. Qed.

Section Lists.
Context {H P : Type} `{HostAllocLaws H}.
Implicit Types (s : cstate H P) (B : list entry) (F : list fentry).

Lemma free_inv_head s F f :
  free_inv s F -> f ∈ F -> heads s !! f_head f = Some (mk_head (hd_or (f_elems f) None)).
Proof. intros (_ & _ & _ & _ & _ & Hh & _) Hf. apply Hh. eauto. Qed.

Lemma free_inv_dll s F f : free_inv s F -> f ∈ F -> dll (elems s) None (f_elems f) None.
Proof. intros (_ & _ & _ & _ & _ & _ & Hd & _) Hf. rewrite Forall_forall in Hd. auto. Qed.

Lemma free_inv_nodup s F1 f F2 :
  free_inv s (F1 ++ f :: F2) ->
  NoDup (f_elems f).*1 /\ (forall x, x ∈ (f_elems f).*1 -> x ∉ felems (F1 ++ F2)) /\
  NoDup (felems (F1 ++ F2)).
Proof.
  intros (_ & _ & _ & _ & _ & _ & _ & Hnd & _). rewrite felems_middle in Hnd.
  by apply NoDup_app in Hnd.
Qed.

(** Changing the elements of one list. *)
Lemma free_inv_change s s' F1 f F2 l :
  free_inv s (F1 ++ f :: F2) -> free_blocks (co s') = free_blocks (co s) ->
  heads s' = <[f_head f := mk_head (hd_or l None)]> (heads s) ->
  dll (elems s') None l None -> NoDup l.*1 ->
  (forall x, x ∈ felems (F1 ++ F2) -> elems s' !! x = elems s !! x) ->
  (forall x, x ∈ l.*1 -> x ∉ felems (F1 ++ F2)) ->
  (forall x, is_Some (elems s' !! x) -> x ∈ l.*1 \/ x ∈ felems (F1 ++ F2)) ->
  owned tag_elem (elems s') (c_host s') -> keeps_but tag_elem (c_host s) (c_host s') ->
  free_inv s' (F1 ++ set_felems l f :: F2).
Proof.
  intros Hi Ef Eh Hd Hnd Heq Hdis Hin Ho Hk.
  destruct (free_inv_nodup _ _ _ _ Hi) as (_ & _ & Hnd').
  pose proof Hi as (Hr & Ht & Oh & _ & Hndh & Hh & Hds & _ & _).
  unfold free_inv, free_tree. rewrite Ef, Eh. split_and!.
  - rewrite fmap_app, fmap_cons in Hr |- *. eapply rep_keeps; [exact Hk|by rewrite Ht|exact Hr].
  - done.
  - apply owned_update; [by eapply owned_keeps|]. eexists. eapply free_inv_head; [done|].
    rewrite elem_of_app, elem_of_cons. auto.
  - done.
  - rewrite fmap_app, fmap_cons in Hndh |- *. exact Hndh.
  - intros a hd. rewrite fmap_app, fmap_cons in Hndh.
    assert (forall g, g ∈ F1 ++ F2 -> f_head g <> f_head f) as Hother.
    { intros g Hg E. revert Hndh. rewrite <- Permutation_middle, list.NoDup_cons. intros [Hn _].
      apply Hn. rewrite <- fmap_app, <- E. by apply list_elem_of_fmap_2. }
    destruct (decide (a = f_head f)) as [->|Hne].
    + rewrite lookup_insert_eq. split.
      * intros [= <-]. exists (set_felems l f). rewrite elem_of_app, elem_of_cons. auto.
      * intros (g & Hg & Eg & ->). rewrite elem_of_app, elem_of_cons in Hg.
        destruct Hg as [Hg|[->|Hg]]; [|done|];
          (exfalso; eapply Hother; [|exact Eg]; rewrite elem_of_app; auto).
    + rewrite lookup_insert_ne by done. rewrite Hh. split; intros (g & Hg & E1 & E2);
        exists g; (split; [|done]); rewrite elem_of_app, elem_of_cons in *;
        (destruct Hg as [Hg|[->|Hg]]; [by auto| |by auto]); by simpl in E1.
  - rewrite Forall_forall in Hds |- *. intros g Hg. rewrite elem_of_app, elem_of_cons in Hg.
    destruct (decide (g = set_felems l f)) as [->|Hng]; [done|].
    assert (g ∈ F1 ++ F2) as Hg'.
    { rewrite elem_of_app. destruct Hg as [?|[?|?]]; [auto|done|auto]. }
    eapply dll_frame; [|apply Hds; rewrite elem_of_app, elem_of_cons; rewrite elem_of_app in Hg'; tauto].
    intros x Hx. apply Heq. by eapply felems_elem.
  - rewrite felems_middle. simpl. apply NoDup_app. split_and!; auto.
  - intros a Ha. rewrite felems_middle. simpl. rewrite elem_of_app. auto.
Qed.

(** *** Taking an element out *)

Definition rm_state s (f : fentry) l1 (e p : Z) l2 b : cstate H P :=
  mk_cstate (co s) (<[p := with_b_free_list_ptr None b]> (blocks s))
    (<[f_head f := mk_head (hd_or (l1 ++ l2) None)]> (heads s))
    (delete e (unlink (elems s) l1 l2)) (umf_ba_global_free e (c_host s)) (provider s).

Lemma free_inv_rm s F1 f F2 l1 e p l2 b :
  free_inv s (F1 ++ f :: F2) -> f_elems f = l1 ++ (e, p) :: l2 ->
  free_inv (rm_state s f l1 e p l2 b) (F1 ++ set_felems (l1 ++ l2) f :: F2).
Proof.
  intros Hi El. pose proof Hi as (_ & _ & _ & Oe & _ & _ & _ & _ & Hall).
  destruct (free_inv_nodup _ _ _ _ Hi) as (Hnd & Hdis & _). rewrite El in Hnd, Hdis.
  pose proof (free_inv_dll _ _ f Hi) as Hd. rewrite El in Hd.
  specialize (Hd ltac:(rewrite elem_of_app, elem_of_cons; auto)).
  assert (is_Some (elems s !! e)) as Hse.
  { destruct (dll_lookup _ _ _ _ e p Hd) as (n' & p' & ->); [|by eexists].
    rewrite elem_of_app, elem_of_cons. auto. }
  pose proof Hnd as Hnd0. rewrite fmap_app, fmap_cons in Hnd. simpl in Hnd.
  rewrite <- Permutation_middle, <- fmap_app in Hnd. apply list.NoDup_cons in Hnd as [Hne Hnd].
  assert (forall x, x ∈ (l1 ++ l2).*1 -> x ∈ (l1 ++ (e, p) :: l2).*1) as Hsub.
  { intros x. rewrite !fmap_app, !elem_of_app. simpl. rewrite elem_of_cons. tauto. }
  assert (e ∈ (l1 ++ (e, p) :: l2).*1) as Hein.
  { rewrite fmap_app, elem_of_app. right. constructor. }
  eapply (free_inv_change s); simpl; auto.
  - eapply dll_frame; [|by eapply dll_unlink].
    intros x Hx. apply lookup_delete_ne. by intros ->.
  - intros x Hx. rewrite lookup_delete_ne by (intros ->; by apply (Hdis x)).
    apply unlink_other. intros Hx'. by apply (Hdis x (Hsub x Hx')).
  - intros x [v Hv]. destruct (decide (x = e)) as [->|Hxe]; [by rewrite lookup_delete_eq in Hv|].
    rewrite lookup_delete_ne in Hv by done.
    destruct (decide (x ∈ (l1 ++ l2).*1)) as [|Hxl]; [by left|]. right.
    rewrite unlink_other in Hv by done. specialize (Hall x (ex_intro _ v Hv)).
    rewrite felems_middle, El, elem_of_app in Hall. destruct Hall as [Hx|]; [|done].
    exfalso. rewrite fmap_app, fmap_cons, elem_of_app, elem_of_cons in Hx.
    rewrite fmap_app, elem_of_app in Hxl. simpl in Hx. tauto.
  - intros x Hx. assert (is_Some (elems s !! x) /\ x <> e) as [Hs Hxe].
    { destruct (decide (x = e)) as [->|Hxe]; [rewrite lookup_delete_eq in Hx; by destruct Hx|].
      split; [|done]. rewrite lookup_delete_ne in Hx by done.
      destruct (decide (x ∈ (l1 ++ l2).*1)) as [Hxl|Hxl].
      - apply Hsub, list_elem_of_fmap in Hxl as ([x' bx] & -> & Hxl).
        destruct (dll_lookup _ _ _ _ x' bx Hd Hxl) as (? & ? & E'). simpl. rewrite E'. by eexists.
      - by rewrite unlink_other in Hx. }
    rewrite ba_free_live by (rewrite (Oe _ Hse); by eexists).
    rewrite lookup_delete_ne by done. by apply Oe.
  - apply keeps_free. by apply Oe.
Qed.

Lemma dll_at es l1 e p l2 :
  dll es None (l1 ++ (e, p) :: l2) None ->
  es !! e = Some (mk_elem p (hd_or l2 None) (last_or l1 None)).
Proof. intros Hd. apply dll_app in Hd as [_ [Hd _]]. done. Qed.

Lemma dll_hd_some es p l n x : dll es p l n -> hd_or l None = Some x -> is_Some (es !! x).
Proof. destruct l as [|[e b] l]; simpl; [done|]. intros [E _] [= ->]. by eexists. Qed.

Lemma dll_last_some es p l n x : dll es p l n -> last_or l None = Some x -> is_Some (es !! x).
Proof.
  intros Hd E. unfold last_or in E. destruct (last l) as [[e b]|] eqn:El; simplify_eq.
  apply last_Some_elem_of in El. destruct (dll_lookup _ _ _ _ _ _ Hd El) as (? & ? & E').
  by eexists.
Qed.

Lemma wp_free_elem_struct s e (Q : unit -> cstate H P -> Prop) :
  is_Some (elems s !! e) ->
  Q tt (set_chost (umf_ba_global_free e (c_host s)) (set_elems (delete e (elems s)) s)) ->
  wp (free_elem_struct e) Q s.
Proof.
  intros [x Hx] HQ. unfold free_elem_struct, host_free. apply wp_bind.
  eapply wp_load_elem; [done|]. wp_step. apply wp_modify. exact HQ.
Qed.

Lemma hd_or_is_first l1 (e p : Z) l2 :
  NoDup (l1 ++ (e, p) :: l2).*1 -> hd_or (l1 ++ (e, p) :: l2) None = Some e <-> l1 = [].
Proof.
  intros Hnd. destruct l1 as [|[e1 b1] l1]; simpl; [done|]. split; [|done].
  intros [= ->]. exfalso. simpl in Hnd. apply list.NoDup_cons in Hnd as [Hn _]. apply Hn.
  rewrite fmap_app, elem_of_app. right. constructor.
Qed.

Lemma unlink_some es l1 l2 x : is_Some (es !! x) -> is_Some (unlink es l1 l2 !! x).
Proof.
  intros Hx. unfold unlink. destruct (last_or l1 None) as [y|]; destruct (hd_or l2 None) as [z|];
    rewrite ?lookup_alter_is_Some; done.
Qed.

Lemma wp_node_list_rm s F1 f F2 l1 e p l2 b (Q : Z -> cstate H P -> Prop) :
  free_inv s (F1 ++ f :: F2) -> f_elems f = l1 ++ (e, p) :: l2 -> blocks s !! p = Some b ->
  Q p (rm_state s f l1 e p l2 b) -> wp (node_list_rm (f_head f) e) Q s.
Proof.
  intros Hi El Hb HQ. assert (f ∈ F1 ++ f :: F2) as Hf by (rewrite elem_of_app, elem_of_cons; auto).
  pose proof (free_inv_head _ _ _ Hi Hf) as Hh. pose proof (free_inv_dll _ _ _ Hi Hf) as Hd.
  destruct (free_inv_nodup _ _ _ _ Hi) as (Hnd & _). rewrite El in Hh, Hd, Hnd.
  pose proof (dll_at _ _ _ _ _ Hd) as He. apply dll_app in Hd as [Hd1 [_ Hd2]].
  unfold node_list_rm. apply wp_bind. eapply wp_load_head; [done|]. simpl.
  wp_step; [by destruct l1 as [|[]]|]. apply wp_bind. eapply wp_load_elem; [done|]. simpl.
  pose proof (hd_or_is_first _ _ _ _ Hnd) as Hfirst.
  set (hs := <[f_head f := mk_head (hd_or (l1 ++ l2) None)]> (heads s)).
  apply wp_bind. assert (forall Q : unit -> cstate H P -> Prop,
    Q tt (set_heads hs s) -> wp (if decide (hd_or (l1 ++ (e, p) :: l2) None = Some e) then
     c_assert (bool_decide (last_or l1 None = None));; store_head (f_head f) (hd_or l2 None)
   else mret tt) Q s) as Hstore.
  { intros Q' HQ'. case_decide as Hdec.
    - apply Hfirst in Hdec as ->. wp_step; [done|]. by eapply wp_store_head.
    - apply wp_ret. subst hs. rewrite insert_id in HQ'; [by destruct s|].
      rewrite Hh. rewrite !hd_or_app. destruct l1 as [|[]]; [|done].
      exfalso. by apply Hdec, Hfirst. }
  apply Hstore. clear Hstore.
  set (es1 := match hd_or l2 None with
              | Some x => alter (with_e_prev (last_or l1 None)) x (elems s)
              | None => elems s end).
  apply wp_bind. assert (forall Q : unit -> cstate H P -> Prop,
    Q tt (set_elems es1 (set_heads hs s)) -> wp (match hd_or l2 None with
    | Some x => store_elem x (with_e_prev (last_or l1 None)) | None => mret tt end) Q
    (set_heads hs s)) as Hn.
  { intros Q' HQ'. subst es1. destruct (hd_or l2 None) as [x|] eqn:E; [|by apply wp_ret].
    apply wp_store_elem; [|done]. simpl. eapply dll_hd_some; [exact Hd2|done]. }
  apply Hn. clear Hn. apply wp_bind.
  assert (forall Q : unit -> cstate H P -> Prop,
    Q tt (set_elems (unlink (elems s) l1 l2) (set_heads hs s)) ->
    wp (match last_or l1 None with
    | Some x => store_elem x (with_e_next (hd_or l2 None)) | None => mret tt end) Q
    (set_elems es1 (set_heads hs s))) as Hn.
  { intros Q' HQ'. unfold unlink in HQ'. fold es1 in HQ'.
    destruct (last_or l1 None) as [x|] eqn:E; [|by apply wp_ret].
    apply wp_store_elem; [|done]. simpl. subst es1.
    destruct (dll_last_some _ _ _ _ _ Hd1 E) as [v Hv].
    destruct (hd_or l2 None); rewrite ?lookup_alter_is_Some; by eexists. }
  apply Hn. clear Hn. apply wp_bind. eapply wp_store_block; [done|].
  apply wp_bind. apply wp_free_elem_struct; [simpl; apply unlink_some; by eexists|].
  apply wp_ret. exact HQ.
Qed.
End Lists.

(** ** Blocks and lists *)

Definition same_fs (F F' : list fentry) : Prop :=
  Forall2 (fun f f' => f_size f = f_size f' /\ f_head f = f_head f' /\ f_elems f = f_elems f') F F'.

Lemma same_fs_refl F : same_fs F F.
Proof. induction F; constructor; auto. Qed.

Lemma same_fs_in F F' f' : same_fs F F' -> f' ∈ F' ->
  exists f, f ∈ F /\ f_size f = f_size f' /\ f_head f = f_head f' /\ f_elems f = f_elems f'.
Proof.
  induction 1 as [|x y F F' Hxy _ IH]; intros Hf; [by apply not_elem_of_nil in Hf|].
  apply elem_of_cons in Hf as [->|Hf]; [exists x; split; [constructor|done]|].
  destruct (IH Hf) as (f & Hf' & E). exists f. split; [by right|done].
Qed.

Lemma same_fs_in' F F' f : same_fs F F' -> f ∈ F ->
  exists f', f' ∈ F' /\ f_size f = f_size f' /\ f_head f = f_head f' /\ f_elems f = f_elems f'.
Proof.
  induction 1 as [|x y F F' Hxy _ IH]; intros Hf; [by apply not_elem_of_nil in Hf|].
  apply elem_of_cons in Hf as [->|Hf]; [exists y; split; [constructor|done]|].
  destruct (IH Hf) as (f' & Hf' & E). exists f'. split; [by right|done].
Qed.

Lemma same_fs_felems F F' : same_fs F F' -> felems F' = felems F.
Proof.
  induction 1 as [|x y F F' (_ & _ & E) _ IH]; [done|].
  change (felems (y :: F')) with ((f_elems y).*1 ++ felems F'). by rewrite <- E, IH.
Qed.

Lemma same_fs_heads F F' : same_fs F F' -> f_head <$> F' = f_head <$> F.
Proof.
  induction 1 as [|x y F F' (_ & E & _) _ IH]; [done|]. by rewrite !fmap_cons, IH, E.
Qed.

Lemma linked_sub B F X X' : (forall q, q ∈ X -> q ∈ X') -> linked B F X -> linked B F X'.
Proof. intros Hx (L1 & L2 & L3). split_and!; auto. Qed.

(** Only what the lists hold matters. *)
Lemma linked_lists B F F' X :
  (forall f', f' ∈ F' -> forall x q, (x, q) ∈ f_elems f' ->
     exists f, f ∈ F /\ f_size f = f_size f' /\ (x, q) ∈ f_elems f) ->
  (forall f, f ∈ F -> forall x q, (x, q) ∈ f_elems f -> exists f', f' ∈ F' /\ (x, q) ∈ f_elems f') ->
  linked B F X -> linked B F' X.
Proof.
  intros H1 H2 (L1 & L2 & L3). split_and!; [| |done].
  - intros f' x q Hf' Hx. destruct (H1 _ Hf' _ _ Hx) as (f & Hf & <- & Hx'). eauto.
  - intros en x Hen Ex. destruct (L2 _ _ Hen Ex) as (f & Hf & Hx). eauto.
Qed.

Lemma linked_same_fs B F F' X : same_fs F F' -> linked B F X -> linked B F' X.
Proof.
  intros Hs. apply linked_lists.
  - intros f' Hf' x q Hx. destruct (same_fs_in _ _ _ Hs Hf') as (f & Hf & E1 & _ & E3).
    exists f. by rewrite E3.
  - intros f Hf x q Hx. destruct (same_fs_in' _ _ _ Hs Hf) as (f' & Hf' & _ & _ & E3).
    exists f'. by rewrite <- E3.
Qed.

Lemma linked_drop_empty B F1 f F2 X :
  f_elems f = [] -> linked B (F1 ++ f :: F2) X <-> linked B (F1 ++ F2) X.
Proof.
  intros Ef. split; apply linked_lists; intros g Hg x q Hx.
  - exists g. split; [|done]. rewrite elem_of_app, elem_of_cons. rewrite elem_of_app in Hg. tauto.
  - rewrite elem_of_app, elem_of_cons in Hg. exists g. rewrite elem_of_app.
    destruct Hg as [?|[->|?]]; [by auto| |by auto]. rewrite Ef in Hx.
    by apply not_elem_of_nil in Hx.
  - rewrite elem_of_app, elem_of_cons in Hg. exists g. rewrite elem_of_app.
    destruct Hg as [?|[->|?]]; [by auto| |by auto]. rewrite Ef in Hx.
    by apply not_elem_of_nil in Hx.
  - exists g. split; [|done]. rewrite elem_of_app, elem_of_cons. rewrite elem_of_app in Hg. tauto.
Qed.

Section Linked.
(** Pointers of different entries differ, elements occur once. *)
Variables (B1 B2 : list entry) (en : entry) (F1 F2 : list fentry) (f : fentry).
Hypothesis ptr_unique : forall e', e' ∈ B1 ++ B2 -> en_ptr e' <> en_ptr en.

Lemma linked_rm l1 e l2 X :
  linked (B1 ++ en :: B2) (F1 ++ f :: F2) X ->
  f_elems f = l1 ++ (e, en_ptr en) :: l2 -> NoDup (felems (F1 ++ f :: F2)) ->
  linked (B1 ++ upd_block (with_b_free_list_ptr None) en :: B2)
    (F1 ++ set_felems (l1 ++ l2) f :: F2) (en_ptr en :: X).
Proof.
  intros (L1 & L2 & L3) El Hnd. rewrite felems_middle, El in Hnd.
  apply NoDup_app in Hnd as (Hnd1 & Hdis & _).
  rewrite fmap_app, fmap_cons, <- Permutation_middle, <- fmap_app in Hnd1.
  apply list.NoDup_cons in Hnd1 as [Hne _]. simpl in Hne.
  assert (b_free_list_ptr (en_block en) = Some e) as Eflp.
  { destruct (L1 f e (en_ptr en)) as (e0 & He0 & Ep & _ & Ee & _).
    - rewrite elem_of_app, elem_of_cons; auto.
    - rewrite El, elem_of_app, elem_of_cons. auto.
    - rewrite elem_of_app, elem_of_cons in He0. destruct He0 as [He0|[->|He0]]; [|done|];
        exfalso; (eapply ptr_unique; [|exact Ep]); rewrite elem_of_app; auto. }
  split_and!.
  - intros g x q Hg Hx.
    assert (exists g0, g0 ∈ F1 ++ f :: F2 /\ f_size g0 = f_size g /\ (x, q) ∈ f_elems g0 /\ x <> e)
      as (g0 & Hg0 & Es & Hx0 & Hxe).
    { rewrite elem_of_app, elem_of_cons in Hg.
      assert (g ∈ F1 ++ F2 -> x <> e) as Ho.
      { intros Hg' ->. apply (Hdis e); [rewrite fmap_app, elem_of_app; right; constructor|].
        eapply felems_elem; [exact Hg'|]. by apply (list_elem_of_fmap_2 fst) in Hx. }
      destruct Hg as [Hg|[->|Hg]].
      - exists g. rewrite elem_of_app. split_and!; auto. apply Ho. rewrite elem_of_app. auto.
      - exists f. rewrite elem_of_app, elem_of_cons, El. simpl in *. split_and!; auto.
        + rewrite elem_of_app, elem_of_cons. rewrite elem_of_app in Hx. tauto.
        + intros ->. apply Hne. by apply (list_elem_of_fmap_2 fst) in Hx.
      - exists g. rewrite elem_of_app, elem_of_cons. split_and!; auto.
        apply Ho. rewrite elem_of_app. auto. }
    destruct (L1 g0 x q Hg0 Hx0) as (e0 & He0 & Ep & Esz & Ee & Eu). exists e0.
    rewrite <- Es. split; [|done]. rewrite elem_of_app, elem_of_cons in He0 |- *.
    destruct He0 as [?|[->|?]]; [by auto| |by auto]. congruence.
  - intros e0 x He0 Ex. rewrite elem_of_app, elem_of_cons in He0.
    assert (e0 ∈ B1 ++ B2) as He0'.
    { rewrite elem_of_app. destruct He0 as [?|[->|?]]; [by auto|done|by auto]. }
    destruct (L2 e0 x) as (g & Hg & Hx); [|done|].
    { rewrite elem_of_app, elem_of_cons. rewrite elem_of_app in He0'. tauto. }
    rewrite elem_of_app, elem_of_cons in Hg. destruct Hg as [Hg|[->|Hg]].
    + exists g. rewrite elem_of_app. auto.
    + exists (set_felems (l1 ++ l2) f). rewrite elem_of_app, elem_of_cons. split; [by auto|].
      simpl. rewrite El, elem_of_app, elem_of_cons in Hx. rewrite elem_of_app.
      destruct Hx as [?|[[= _ Ep]|?]]; [by auto| |by auto]. by apply ptr_unique in He0'.
    + exists g. rewrite elem_of_app, elem_of_cons. auto.
  - intros e0 He0 Hu Hx. rewrite not_elem_of_cons in Hx. destruct Hx as [Hx1 Hx2].
    rewrite elem_of_app, elem_of_cons in He0. destruct He0 as [?|[->|?]]; [|done|];
      (apply L3; [rewrite elem_of_app, elem_of_cons; auto|done|done]).
Qed.

Lemma linked_push e X :
  linked (B1 ++ en :: B2) (F1 ++ f :: F2) (en_ptr en :: X) ->
  b_free_list_ptr (en_block en) = None -> b_used (en_block en) = false ->
  b_size (en_block en) = f_size f ->
  linked (B1 ++ upd_block (with_b_free_list_ptr (Some e)) en :: B2)
    (F1 ++ set_felems ((e, en_ptr en) :: f_elems f) f :: F2) X.
Proof.
  intros (L1 & L2 & L3) Hn Hu Hs. split_and!.
  - intros g x q Hg Hx.
    assert ((x, q) = (e, en_ptr en) /\ f_size g = f_size f \/
            exists g0, g0 ∈ F1 ++ f :: F2 /\ f_size g0 = f_size g /\ (x, q) ∈ f_elems g0) as Hc.
    { rewrite elem_of_app, elem_of_cons in Hg. destruct Hg as [Hg|[->|Hg]].
      - right. exists g. rewrite elem_of_app. auto.
      - simpl in *. apply elem_of_cons in Hx as [?|Hx]; [by left|]. right. exists f.
        rewrite elem_of_app, elem_of_cons. auto.
      - right. exists g. rewrite elem_of_app, elem_of_cons. auto. }
    destruct Hc as [[[= -> ->] Es]|(g0 & Hg0 & Es & Hx0)].
    + exists (upd_block (with_b_free_list_ptr (Some e)) en).
      rewrite elem_of_app, elem_of_cons. simpl. rewrite Es. split_and!; auto.
    + destruct (L1 g0 x q Hg0 Hx0) as (e0 & He0 & Ep & Esz & Ee & Eu). exists e0.
      rewrite <- Es. split; [|done]. rewrite elem_of_app, elem_of_cons in He0 |- *.
      destruct He0 as [?|[->|?]]; [by auto| |by auto]. congruence.
  - intros e0 x He0 Ex. rewrite elem_of_app, elem_of_cons in He0.
    destruct (decide (e0 ∈ B1 ++ B2)) as [He0'|He0'].
    + destruct (L2 e0 x) as (g & Hg & Hx); [|done|].
      { rewrite elem_of_app, elem_of_cons. rewrite elem_of_app in He0'. tauto. }
      rewrite elem_of_app, elem_of_cons in Hg. destruct Hg as [Hg|[->|Hg]].
      * exists g. rewrite elem_of_app. auto.
      * exists (set_felems ((e, en_ptr en) :: f_elems f) f).
        rewrite elem_of_app, elem_of_cons. split; [by auto|]. simpl. by right.
      * exists g. rewrite elem_of_app, elem_of_cons. auto.
    + rewrite elem_of_app in He0'. destruct He0 as [?|[->|?]]; [tauto| |tauto].
      simpl in Ex. simplify_eq. exists (set_felems ((x, en_ptr en) :: f_elems f) f).
      rewrite elem_of_app, elem_of_cons. split; [by auto|]. constructor.
  - intros e0 He0 Hu0 Hx. rewrite elem_of_app, elem_of_cons in He0.
    destruct He0 as [?|[->|?]]; [|done|];
      (apply L3; [rewrite elem_of_app, elem_of_cons; by auto|done|]);
      rewrite not_elem_of_cons; (split; [|done]); apply ptr_unique; rewrite elem_of_app; auto.
Qed.
End Linked.
