(* ===== verification/CoarseLists.v ===== *)
(** * Operations on the free lists, against the invariant

    [free_blocks_add], [free_blocks_rm_node] and [free_blocks_rm_ge] as
    transitions between states that satisfy [heaps_inv]. *)

From S2P Require Import Prelude Utils HostMem Ravl RavlSpec RavlRemove Coarse.
From S2P Require Import CoarseInv CoarseFree.
From stdpp Require Import strings sorting.
#[local] Open Scope Z_scope.

Section Only.
Context {H P : Type} `{HostAllocLaws H}.
Implicit Types (s : cstate H P) (B : list entry) (F : list fentry) (h : H).

(** The objects other than heads, elements and nodes of the free tree stay. *)
Definition keeps_rest h h' : Prop :=
  forall a tg, tg ∈ [tag_all; tag_block; "struct ravl"%string; tag_coarse] ->
    ba_live h !! a = Some tg -> ba_live h' !! a = Some tg.

Lemma keeps_but_rest tg0 h h' :
  keeps_but tg0 h h' -> tg0 ∉ [tag_all; tag_block; "struct ravl"%string; tag_coarse] ->
  keeps_rest h h'.
Proof. intros Hk Hn a tg Htg. apply Hk. intros ->. done. Qed.

(** [s'] differs from [s] in the free lists only. *)
Definition free_only s s' : Prop :=
  all_blocks (co s') = all_blocks (co s) /\ blocks s' = blocks s /\
  self (free_blocks (co s')) = self (free_blocks (co s)) /\
  keeps_rest (c_host s) (c_host s') /\ same_ctl s s'.

Lemma free_only_trans s1 s2 s3 : free_only s1 s2 -> free_only s2 s3 -> free_only s1 s3.
Proof.
  intros (A1 & A2 & A3 & A4 & A5) (C1 & C2 & C3 & C4 & C5).
  split_and!; [congruence..| |by eapply same_ctl_trans].
  intros a tg Htg Ha. by apply C4, A4.
Qed.

Lemma free_only_all s s' B : free_only s s' -> all_inv s B -> all_inv s' B.
Proof.
  intros (A1 & A2 & A3 & A4 & A5) (Hr & Ht & Ho & Hb). unfold all_inv, all_tree.
  rewrite A1, A2. split_and!; [|done| |done].
  - destruct Hr as (t & Hz & HL & Hs & Hok & Ow & Hd). exists t. split_and!; try done.
    simpl in *. rewrite Ht in *. intros a Ha. apply A4; [constructor|]. by apply Ow.
  - intros a Ha. apply A4; [by right; left|]. by apply Ho.
Qed.

Lemma free_only_self s s' : free_only s s' -> self_inv s -> self_inv s'.
Proof.
  intros (A1 & A2 & A3 & A4 & A5) (Ho1 & Hne & Ho2). unfold self_inv.
  destruct A5 as (E & _). rewrite A1, A3, E. split_and!; [|done|].
  - intros a Ha. apply A4; [by right; right; left|]. by apply Ho1.
  - intros a Ha. apply A4; [by right; right; right; left|]. by apply Ho2.
Qed.

(** A change of the free lists and of the list pointer of one block. *)
Lemma heaps_inv_change s s' B1 en B2 F F' X X' g :
  heaps_inv s (B1 ++ en :: B2) F X ->
  b_data (g (en_block en)) = b_data (en_block en) ->
  free_only (set_blocks (<[en_ptr en := g (en_block en)]> (blocks s)) s) s' ->
  free_inv s' F' -> Forall (fun f => f_elems f <> []) F' ->
  linked (B1 ++ upd_block g en :: B2) F' X' ->
  heaps_inv s' (B1 ++ upd_block g en :: B2) F' X' /\ same_ctl s s'.
Proof.
  intros (Ha & Hf & Hs & Hl & Hne) Hd Ho Hf' Hne' Hl'. split; [|apply Ho].
  split_and!; try done.
  - eapply free_only_all; [exact Ho|]. by apply all_inv_store.
  - by eapply free_only_self.
Qed.

Lemma wp_emplace_free s L d (Q : Z -> cstate H P -> Prop) :
  ravl_rep rd_key (free_tree s) L ->
  (forall rv rs, emplace_post rd_key (free_tree s) d L rv rs ->
     Q rv (set_chost (r_host rs) (set_free_blocks (r_ravl rs) s))) ->
  wp (on_free (ravl_emplace_copy coarse_ravl_comp d)) Q s.
Proof.
  intros Hr HQ. apply wp_on_free. unfold ravl_emplace_copy.
  eapply wp_mono; [by apply (wp_emplace coarse_ravl_comp rd_key)|]. auto.
Qed.

Lemma wp_free_head_struct s a hd (Q : unit -> cstate H P -> Prop) :
  heads s !! a = Some hd ->
  Q tt (set_chost (umf_ba_global_free a (c_host s)) (set_heads (delete a (heads s)) s)) ->
  wp (free_head_struct a) Q s.
Proof.
  intros Hb HQ. unfold free_head_struct, host_free. apply wp_bind.
  eapply wp_load_head; [done|]. wp_step. apply wp_modify. exact HQ.
Qed.

(** Dropping a head whose list is empty. *)
Lemma free_inv_drop s F1 f F2 F2' t h :
  free_inv s (F1 ++ f :: F2) -> f_elems f = [] -> same_fs F2 F2' ->
  ravl_rep rd_key (mk_rstate t h) (free_node <$> F1 ++ F2') -> node_tag t = tag_free ->
  keeps_but tag_free (umf_ba_global_free (f_head f) (c_host s)) h ->
  free_inv (set_chost h (set_free_blocks t (set_heads (delete (f_head f) (heads s)) s)))
    (F1 ++ F2').
Proof.
  intros Hi Ef Hfs Hrep Htag Hk. pose proof Hi as (Hr & Ht & Oh & Oe & Hndh & Hh & Hds & Hnd & Hall).
  assert (f ∈ F1 ++ f :: F2) as Hin by (rewrite elem_of_app, elem_of_cons; auto).
  assert (same_fs (F1 ++ F2) (F1 ++ F2')) as Hfs'.
  { apply Forall2_app; [apply same_fs_refl|done]. }
  assert (is_Some (heads s !! f_head f)) as Hsome.
  { rewrite (free_inv_head _ _ _ Hi Hin). by eexists. }
  assert (forall g, g ∈ F1 ++ F2 -> f_head g <> f_head f) as Hother.
  { intros g Hg E. rewrite fmap_app, fmap_cons, <- Permutation_middle in Hndh.
    apply list.NoDup_cons in Hndh as [Hn _]. apply Hn. rewrite <- fmap_app, <- E.
    by apply list_elem_of_fmap_2. }
  assert (felems (F1 ++ F2') ≡ₚ felems (F1 ++ f :: F2)) as Efe.
  { rewrite (same_fs_felems _ _ Hfs'), felems_middle, Ef. done. }
  split_and!; simpl.
  - done.
  - done.
  - eapply owned_keeps; [exact Hk|done|]. by apply owned_free_own.
  - eapply owned_keeps; [exact Hk|done|]. eapply (owned_keeps tag_head); [|done|exact Oe].
    apply keeps_free. by apply Oh.
  - rewrite (same_fs_heads _ _ Hfs').
    rewrite fmap_app, fmap_cons, <- Permutation_middle in Hndh. rewrite fmap_app.
    by apply list.NoDup_cons in Hndh as [_ Hndh].
  - intros a hd. destruct (decide (a = f_head f)) as [->|Hne].
    + rewrite lookup_delete_eq. split; [done|]. intros (g & Hg & Eg & _). exfalso.
      destruct (same_fs_in _ _ _ Hfs' Hg) as (g0 & Hg0 & _ & E & _).
      apply (Hother g0 Hg0). congruence.
    + rewrite lookup_delete_ne by done. rewrite Hh. split.
      * intros (g & Hg & <- & ->). rewrite elem_of_app, elem_of_cons in Hg.
        assert (g ∈ F1 ++ F2) as Hg0.
        { rewrite elem_of_app. destruct Hg as [?|[->|?]]; [by auto|done|by auto]. }
        destruct (same_fs_in' _ _ _ Hfs' Hg0) as (g' & Hg' & _ & E2 & E3).
        exists g'. by rewrite <- E3.
      * intros (g & Hg & <- & ->).
        destruct (same_fs_in _ _ _ Hfs' Hg) as (g0 & Hg0 & _ & E2 & E3).
        exists g0. rewrite E3. split; [|done]. rewrite elem_of_app, elem_of_cons.
        rewrite elem_of_app in Hg0. tauto.
  - rewrite Forall_forall in Hds |- *. intros g Hg.
    destruct (same_fs_in _ _ _ Hfs' Hg) as (g0 & Hg0 & _ & _ & <-). apply Hds.
    rewrite elem_of_app, elem_of_cons. rewrite elem_of_app in Hg0. tauto.
  - by rewrite Efe.
  - intros a. rewrite Efe. auto.
Qed.

Lemma wp_drop_empty_head s F1 f F2 (Q : unit -> cstate H P -> Prop) :
  free_inv s (F1 ++ f :: F2) ->
  (f_elems f <> [] -> Q tt s) ->
  (forall s' F2', f_elems f = [] -> same_fs F2 F2' -> free_inv s' (F1 ++ F2') ->
     free_only s s' -> Q tt s') ->
  wp (drop_empty_head (f_head f) (f_node f)) Q s.
Proof.
  intros Hi HQ1 HQ2. assert (f ∈ F1 ++ f :: F2) as Hin by (rewrite elem_of_app, elem_of_cons; auto).
  pose proof (free_inv_head _ _ _ Hi Hin) as Hh. unfold drop_empty_head.
  apply wp_bind. eapply wp_load_head; [done|]. simpl.
  destruct (f_elems f) as [|[e b] l] eqn:Ef; simpl; [|by apply wp_ret, HQ1].
  apply wp_bind. eapply wp_free_head_struct; [done|].
  pose proof Hi as (Hr & Ht & Oh & _).
  assert (keeps_but tag_head (c_host s) (umf_ba_global_free (f_head f) (c_host s))) as Hkh.
  { apply keeps_free, Oh. by eexists. }
  set (s1 := set_chost _ _).
  assert (ravl_rep rd_key (free_tree s1) ((free_node <$> F1) ++ free_node f :: (free_node <$> F2)))
    as Hr1.
  { rewrite fmap_app, fmap_cons in Hr. eapply rep_keeps; [exact Hkh|simpl; by rewrite Ht|exact Hr]. }
  apply wp_on_free. eapply wp_mono; [by eapply (wp_remove rd_key)|]. intros u rs Hpost.
  cbv beta in Hpost. pose proof (keeps_remove _ _ _ _ _ _ _ Hr1 Hpost) as Hk.
  simpl in Hk. rewrite Ht in Hk. destruct Hpost as [(M1 & M2 & M3 & M4) Hcase].
  simpl in M1, M3, M4. rewrite Ht in M3. destruct u.
  assert (exists F2', same_fs F2 F2' /\ ravl_rep rd_key rs (free_node <$> F1 ++ F2'))
    as (F2' & Hfs & Hrep).
  { destruct Hcase as [[Hrep _]|(b & d & L2' & EL & Hrep & _)].
    - exists F2. split; [apply same_fs_refl|]. by rewrite fmap_app.
    - destruct F2 as [|f2 F2]; [done|]. rewrite fmap_cons in EL. injection EL as E1 <-.
      unfold free_node in E1. simplify_eq.
      exists (FE (f_node f) (f_size f2) (f_head f2) (f_elems f2) :: F2). split.
      + constructor; [done|]. apply same_fs_refl.
      + by rewrite fmap_app, fmap_cons. }
  apply (HQ2 _ F2'); [done|done| |].
  - refine (free_inv_drop s F1 f F2 F2' (r_ravl rs) (r_host rs) _ _ _ _ _ _); try done.
  - split_and!; simpl; try done.
    + intros a tg Htg Ha. assert (tg <> tag_free /\ tg <> tag_head) as [N1 N2].
      { rewrite !elem_of_cons, elem_of_nil in Htg. by destruct Htg as [->|[->|[->|[->|[]]]]]. }
      apply Hk; [done|]. by apply Hkh.
    + unfold same_ctl. simpl. split_and!; try done.
      eapply host_steps_trans; [apply host_steps_free|exact M4].
Qed.
End Only.

Section ListOps.
Context {H P : Type} `{HostAllocLaws H}.
Implicit Types (s : cstate H P) (B : list entry) (F : list fentry) (h : H).

Lemma find_free_entry (rs : rstate H ravl_data_t) F1 f F2 flags :
  ravl_rep rd_key rs (free_node <$> F1 ++ f :: F2) -> valid_predicate flags ->
  has_flag flags RAVL_PREDICATE_EQUAL = true ->
  find_list rd_key flags (f_size f) (free_node <$> F1 ++ f :: F2) = Some (f_node f).
Proof. rewrite fmap_app, fmap_cons. intros Hr. exact (rep_find_hit _ _ _ _ _ _ flags Hr). Qed.

(** A listed block: its list and its place there. *)
Lemma linked_place B1 en B2 F X e :
  linked (B1 ++ en :: B2) F X -> b_free_list_ptr (en_block en) = Some e ->
  (forall e', e' ∈ B1 ++ B2 -> en_ptr e' <> en_ptr en) ->
  exists F1 f F2 l1 l2, F = F1 ++ f :: F2 /\ f_elems f = l1 ++ (e, en_ptr en) :: l2 /\
    b_size (en_block en) = f_size f /\ b_used (en_block en) = false.
Proof.
  intros (L1 & L2 & _) Ee Hu.
  destruct (L2 en e) as (f & Hf & Hin); [rewrite elem_of_app, elem_of_cons; auto|done|].
  destruct (L1 _ _ _ Hf Hin) as (en' & Hen' & Ep & Es & _ & Eu).
  assert (en' = en) as ->.
  { rewrite elem_of_app, elem_of_cons in Hen'. destruct Hen' as [Hen'|[->|Hen']]; [|done|];
      exfalso; (eapply Hu; [|exact Ep]); rewrite elem_of_app; auto. }
  apply list_elem_of_split in Hf as (F1 & F2 & ->).
  apply list_elem_of_split in Hin as (l1 & l2 & El). by exists F1, f, F2, l1, l2.
Qed.

Lemma rm_state_only s f l1 e p l2 b :
  ba_live (c_host s) !! e = Some tag_elem ->
  free_only (set_blocks (<[p := with_b_free_list_ptr None b]> (blocks s)) s)
    (rm_state s f l1 e p l2 b).
Proof.
  intros He. split_and!; simpl; try done.
  - eapply keeps_but_rest; [by apply keeps_free|].
    rewrite !not_elem_of_cons. by repeat split; [..|apply not_elem_of_nil].
  - unfold same_ctl. simpl. split_and!; auto with umf.
Qed.

(** After an element is unlinked, dropping the head restores the invariant. *)
Lemma wp_after_rm s B1 en B2 F1 f F2 X l1 e l2 (Q : unit -> cstate H P -> Prop) :
  heaps_inv s (B1 ++ en :: B2) (F1 ++ f :: F2) X ->
  f_elems f = l1 ++ (e, en_ptr en) :: l2 ->
  (forall s' F', heaps_inv s' (B1 ++ upd_block (with_b_free_list_ptr None) en :: B2) F'
      (en_ptr en :: X) -> same_ctl s s' -> Q tt s') ->
  wp (drop_empty_head (f_head f) (f_node f)) Q
    (rm_state s f l1 e (en_ptr en) l2 (en_block en)).
Proof.
  intros Hinv El HQ. pose proof Hinv as (Ha & Hf & Hself & Hl & Hne).
  pose proof (free_inv_rm _ _ _ _ _ _ _ _ (en_block en) Hf El) as Hf'.
  assert (ba_live (c_host s) !! e = Some tag_elem) as Hlive.
  { pose proof Hf as (_ & _ & _ & Oe & _). apply Oe.
    pose proof (free_inv_dll _ _ f Hf) as Hd. rewrite El in Hd.
    destruct (dll_lookup _ _ _ _ e (en_ptr en) (Hd ltac:(rewrite elem_of_app, elem_of_cons; auto)))
      as (? & ? & E); [rewrite elem_of_app, elem_of_cons; auto|]. by eexists. }
  pose proof (rm_state_only s f l1 e (en_ptr en) l2 (en_block en) Hlive) as Ho.
  assert (linked (B1 ++ upd_block (with_b_free_list_ptr None) en :: B2)
    (F1 ++ set_felems (l1 ++ l2) f :: F2) (en_ptr en :: X)) as Hl'.
  { eapply linked_rm; eauto; [by intros; eapply all_inv_ptr|]. by destruct_and! Hf. }
  rewrite Forall_app, Forall_cons in Hne. destruct Hne as (Hne1 & _ & Hne2).
  change (f_head f) with (f_head (set_felems (l1 ++ l2) f)).
  change (f_node f) with (f_node (set_felems (l1 ++ l2) f)).
  eapply wp_drop_empty_head; [exact Hf'| |].
  - intros Hnonempty. edestruct (heaps_inv_change s) as [Hinv' Hc]; [exact Hinv| |exact Ho|
      exact Hf'| |exact Hl'|]; [done| |by eapply HQ].
    rewrite Forall_app, Forall_cons. done.
  - intros s' F2' Eempty Hfs Hf'' Ho'.
    edestruct (heaps_inv_change s) as [Hinv' Hc]; [exact Hinv| |by eapply free_only_trans|
      exact Hf''| | |]; [done| | |by eapply HQ].
    + rewrite Forall_app. split; [done|]. rewrite Forall_forall in Hne2 |- *. intros g Hg.
      destruct (same_fs_in _ _ _ Hfs Hg) as (g0 & Hg0 & _ & _ & <-). auto.
    + eapply linked_same_fs; [by apply Forall2_app; [apply same_fs_refl|exact Hfs]|].
      by apply linked_drop_empty in Hl'.
Qed.

Lemma wp_free_blocks_rm_node s B1 en B2 F X e (Q : Z -> cstate H P -> Prop) :
  heaps_inv s (B1 ++ en :: B2) F X -> b_free_list_ptr (en_block en) = Some e ->
  (forall s' F', heaps_inv s' (B1 ++ upd_block (with_b_free_list_ptr None) en :: B2) F'
      (en_ptr en :: X) -> same_ctl s s' -> Q (en_ptr en) s') ->
  wp (free_blocks_rm_node e) Q s.
Proof.
  intros Hinv Ee HQ. pose proof Hinv as (Ha & Hf & Hself & Hl & Hne).
  destruct (linked_place _ _ _ _ _ _ Hl Ee) as (F1 & f & F2 & l1 & l2 & -> & El & Es & Eu).
  { intros e'. by eapply all_inv_ptr. }
  assert (blocks s !! en_ptr en = Some (en_block en)) as Hb.
  { eapply all_inv_block; [exact Ha|]. rewrite elem_of_app, elem_of_cons. auto. }
  pose proof (free_inv_dll _ _ f Hf) as Hd. rewrite El in Hd.
  pose proof (dll_at _ _ _ _ _ (Hd ltac:(rewrite elem_of_app, elem_of_cons; auto))) as He.
  unfold free_blocks_rm_node. apply wp_bind. eapply wp_load_elem; [done|]. simpl.
  apply wp_bind. eapply wp_load_block; [done|]. rewrite Es.
  pose proof Hf as (Hr & _).
  apply wp_bind. eapply wp_find_free; [exact Hr|by left|].
  rewrite (find_free_entry _ _ _ _ _ Hr) by (done || by left).
  rewrite fmap_app, fmap_cons in Hr. wp_step; [done|]. apply wp_bind. eapply wp_data_free; [exact Hr|]. simpl.
  wp_step; [by apply Z.eqb_eq|]. wp_step.
  apply wp_bind. eapply wp_node_list_rm; [exact Hf|exact El|done|].
  apply wp_bind. eapply wp_after_rm; [exact Hinv|done|]. intros s' F' Hi' Hc. apply wp_ret. eauto.
Qed.

(** *** Adding *)

Definition push_state s (f : fentry) (e p : Z) h : cstate H P :=
  mk_cstate (co s) (blocks s) (<[f_head f := mk_head (Some e)]> (heads s))
    (<[e := mk_elem p (hd_or (f_elems f) None) None]>
       (match hd_or (f_elems f) None with
        | Some x => alter (with_e_prev (Some e)) x (elems s)
        | None => elems s
        end)) h (provider s).

Lemma free_inv_push s F1 f F2 e p size h :
  free_inv s (F1 ++ f :: F2) -> umf_ba_global_alloc tag_elem size (c_host s) = (Some e, h) ->
  free_inv (push_state s f e p h) (F1 ++ set_felems ((e, p) :: f_elems f) f :: F2).
Proof.
  intros Hi Ea. pose proof Hi as (_ & _ & _ & Oe & _ & _ & _ & _ & Hall).
  destruct (free_inv_nodup _ _ _ _ Hi) as (Hnd & Hdis & _).
  pose proof (free_inv_dll _ _ f Hi ltac:(rewrite elem_of_app, elem_of_cons; auto)) as Hd.
  pose proof (owned_fresh _ _ _ _ _ _ _ Oe Ea) as Hfresh.
  assert (forall x, x ∈ felems (F1 ++ f :: F2) -> x <> e) as Hne.
  { intros x Hx ->. unfold felems in Hx. apply list_elem_of_bind in Hx as (g & Hx & Hg).
    apply list_elem_of_fmap in Hx as ([e' b'] & -> & Hx). simpl in *.
    destruct (dll_lookup _ _ _ _ _ _ (free_inv_dll _ _ _ Hi Hg) Hx) as (? & ? & E). congruence. }
  assert (forall x, x ∈ (f_elems f).*1 -> x <> e) as Hne1.
  { intros x Hx. apply Hne. eapply felems_elem; [|exact Hx]. rewrite elem_of_app, elem_of_cons. auto. }
  assert (forall x, x ∈ felems (F1 ++ F2) -> x <> e) as Hne2.
  { intros x Hx. apply Hne. rewrite felems_middle, elem_of_app. auto. }
  assert (forall x, hd_or (f_elems f) None = Some x -> x ∈ (f_elems f).*1) as Hhd.
  { intros x. destruct (f_elems f) as [|[]]; simpl; [done|]. intros [= ->]. constructor. }
  set (es := match hd_or (f_elems f) None with
        | Some x => alter (with_e_prev (Some e)) x (elems s) | None => elems s end).
  assert (dll es (Some e) (f_elems f) None) as Hd'.
  { subst es. destruct (f_elems f) as [|[e1 b1] l]; [done|]. by eapply dll_set_prev. }
  assert (forall x, is_Some (es !! x) <-> is_Some (elems s !! x)) as Hes.
  { intros x. subst es. destruct (hd_or (f_elems f) None); [|done]. by rewrite lookup_alter_is_Some. }
  eapply (free_inv_change s); simpl; fold es; auto.
  - split; [apply lookup_insert_eq|]. eapply dll_frame; [|exact Hd'].
    intros x Hx. apply lookup_insert_ne. intros <-. by apply (Hne1 e).
  - apply list.NoDup_cons. split; [|done]. intros Hx. by apply (Hne1 e).
  - intros x Hx. rewrite lookup_insert_ne by (intros <-; by apply (Hne2 e)). subst es.
    destruct (hd_or (f_elems f) None) as [y|] eqn:E; [|done]. apply lookup_alter_ne.
    intros ->. by apply (Hdis x); [apply Hhd|].
  - intros x Hx. apply elem_of_cons in Hx as [->|Hx]; [intros Hx; by apply (Hne2 e)|auto].
  - intros x Hx. destruct (decide (x = e)) as [->|Hxe]; [left; constructor|].
    rewrite lookup_insert_ne in Hx by done. apply Hes, Hall in Hx.
    rewrite felems_middle, elem_of_app in Hx. destruct Hx; [left; by right|by right].
  - eapply owned_alloc_new; [|done]. intros x Hx. apply Oe. by apply Hes.
  - by eapply keeps_alloc.
Qed.

Lemma wp_node_list_add s F1 f F2 p (Q : option Z -> cstate H P -> Prop) :
  free_inv s (F1 ++ f :: F2) ->
  (forall h, umf_ba_global_alloc tag_elem sizeof_elem_t (c_host s) = (None, h) ->
     Q None (set_chost h s)) ->
  (forall e h, umf_ba_global_alloc tag_elem sizeof_elem_t (c_host s) = (Some e, h) ->
     Q (Some e) (push_state s f e p h)) ->
  wp (node_list_add (f_head f) p) Q s.
Proof.
  intros Hi HQ1 HQ2.
  assert (f ∈ F1 ++ f :: F2) as Hin by (rewrite elem_of_app, elem_of_cons; auto).
  pose proof (free_inv_head _ _ _ Hi Hin) as Hh. pose proof (free_inv_dll _ _ _ Hi Hin) as Hd.
  unfold node_list_add. apply wp_bind, wp_host_alloc. intros [e|] h Ea; [|by apply wp_ret, HQ1].
  specialize (HQ2 e h Ea). apply wp_bind. eapply wp_load_head; [done|]. simpl.
  unfold push_state in HQ2. apply wp_bind.
  destruct (hd_or (f_elems f) None) as [x|] eqn:E.
  - apply wp_store_elem; [simpl; by eapply dll_hd_some|].
    wp_step. apply wp_bind. eapply wp_store_head; [exact Hh|]. by apply wp_ret.
  - apply wp_ret. wp_step. apply wp_bind. eapply wp_store_head; [exact Hh|]. by apply wp_ret.
Qed.

Lemma free_inv_new_head s F1 F2 n sz hd t h :
  free_inv s (F1 ++ F2) -> heads s !! hd = None ->
  ravl_rep rd_key (mk_rstate t h) (free_node <$> F1 ++ FE n sz hd [] :: F2) ->
  node_tag t = tag_free -> ba_live h !! hd = Some tag_head ->
  keeps_but tag_free (c_host s) h ->
  free_inv (set_chost h (set_free_blocks t (set_heads (<[hd := mk_head None]> (heads s)) s)))
    (F1 ++ FE n sz hd [] :: F2).
Proof.
  intros Hi Hn Hrep Ht Hlive Hk. pose proof Hi as (_ & _ & Oh & Oe & Hndh & Hh & Hds & Hnd & Hall).
  assert (forall g, g ∈ F1 ++ F2 -> f_head g <> hd) as Hother.
  { intros g Hg <-. by rewrite (free_inv_head _ _ _ Hi Hg) in Hn. }
  assert (felems (F1 ++ FE n sz hd [] :: F2) ≡ₚ felems (F1 ++ F2)) as Efe
    by (by rewrite felems_middle).
  split_and!; simpl; try done.
  - intros a Ha. destruct (decide (a = hd)) as [->|Hne]; [done|].
    rewrite lookup_insert_ne in Ha by done. apply Hk; [done|]. by apply Oh.
  - by eapply owned_keeps.
  - rewrite fmap_app, fmap_cons, <- Permutation_middle. simpl. apply list.NoDup_cons.
    rewrite <- fmap_app. split; [|done]. intros Hx.
    apply list_elem_of_fmap in Hx as (g & -> & Hg). by apply (Hother g).
  - intros a x. destruct (decide (a = hd)) as [->|Hne].
    + rewrite lookup_insert_eq. split.
      * intros [= <-]. exists (FE n sz hd []). rewrite elem_of_app, elem_of_cons. auto.
      * intros (g & Hg & Eg & ->). rewrite elem_of_app, elem_of_cons in Hg.
        destruct Hg as [Hg|[->|Hg]]; [|done|];
          (exfalso; apply (Hother g); [rewrite elem_of_app; auto|done]).
    + rewrite lookup_insert_ne by done. rewrite Hh. split; intros (g & Hg & E1 & E2);
        exists g; (split; [|done]); rewrite elem_of_app, ?elem_of_cons in *;
        [tauto|destruct Hg as [?|[->|?]]; [by auto|by simpl in E1|by auto]].
  - rewrite Forall_app, Forall_cons in *. simpl. tauto.
  - by rewrite Efe.
  - intros a. rewrite Efe. auto.
Qed.
End ListOps.

Section Add.
Context {H P : Type} `{HostAllocLaws H}.
Context (T : list string) (ok : H -> Prop) `{!Reliable T ok}.
Implicit Types (s : cstate H P) (B : list entry) (F : list fentry) (h : H).

Lemma wp_new_head s F size (Q : option Z -> cstate H P -> Prop) :
  free_inv s F -> ok (c_host s) -> (forall f, f ∈ F -> f_size f <> size) ->
  (forall h, ~ (tag_head ∈ T /\ tag_free ∈ T) -> keeps_but "-" (c_host s) h ->
     host_steps (c_host s) h -> Q None (set_chost h s)) ->
  (forall s' F1 F2 n hd, F = F1 ++ F2 -> free_inv s' (F1 ++ FE n size hd [] :: F2) ->
     free_only s s' -> Q (Some hd) s') ->
  wp (new_head_node size) Q s.
Proof.
  intros Hi Hok Hnone HQ1 HQ2. pose proof Hi as (Hr & Ht & Oh & _).
  unfold new_head_node. apply wp_bind, wp_host_alloc. intros [hd|] h Ea; cycle 1.
  { apply wp_ret, HQ1; [|by eapply keeps_alloc|by eapply host_steps_alloc].
    intros [Hth _]. by apply (reliable_alloc (T := T) tag_head sizeof_head_t _ Hok Hth); rewrite Ea. }
  pose proof (owned_fresh _ _ _ _ _ _ _ Oh Ea) as Hfresh.
  pose proof (ba_alloc_some _ _ _ _ _ Ea) as [Hl1 Hl2].
  wp_step. simpl. set (s1 := set_heads _ _).
  assert (ravl_rep rd_key (free_tree s1) (free_node <$> F)) as Hr1.
  { eapply (rep_keeps _ "-"); [by eapply keeps_alloc|simpl; by rewrite Ht|exact Hr]. }
  apply wp_bind. eapply wp_emplace_free; [exact Hr1|]. intros rv rs Hpost.
  pose proof (keeps_emplace _ tag_free _ _ _ _ _ Hpost) as Hk. simpl in Hk.
  assert (keeps_but tag_free (c_host s) (r_host rs)) as Hk'
    by (eapply keeps_trans; [by eapply keeps_alloc|exact Hk]).
  destruct Hpost as ((M1 & M2 & M3 & M4) & Hcase). simpl in M1, M2, M3, M4.
  assert (host_steps (c_host s) (r_host rs)) as Hsteps
    by (eapply host_steps_trans; [by eapply host_steps_alloc|exact M4]).
  destruct Hcase as [(-> & n & L1 & L2 & HL & Hrep & _)|(-> & _ & Er & El & Hwhy)]; simpl.
  - apply fmap_app_inv in HL as (F1 & F2 & -> & -> & ->). apply wp_ret.
    apply (HQ2 _ F1 F2 n hd); [done| |].
    + refine (free_inv_new_head s F1 F2 n size hd (r_ravl rs) (r_host rs) _ _ _ _ _ _); try done.
      { rewrite fmap_app, fmap_cons. by destruct rs. }
      { by rewrite M3. }
      apply Hk; [done|]. by rewrite Hl2, lookup_insert_eq.
    + split_and!; simpl; try done.
      eapply keeps_but_rest; [exact Hk'|].
      rewrite !not_elem_of_cons. by repeat split; [..|apply not_elem_of_nil].
  - apply wp_bind. eapply wp_free_head_struct; [simpl; apply lookup_insert_eq|]. apply wp_ret.
    match goal with |- Q None ?x =>
      replace x with (set_chost (umf_ba_global_free hd (r_host rs)) s) end; cycle 1.
    { rewrite Er. unfold set_chost, set_heads, set_free_blocks, set_co. simpl.
      rewrite delete_insert_id by done. by destruct s as [[]]. }
    apply HQ1.
    + intros [_ Htf]. destruct Hwhy as [Hwhy|(p & Hp & Ep)].
      * simpl in Hwhy. rewrite Ht in Hwhy.
        assert (ok h) as Hokh by (eapply (reliable_steps T ok); [exact Hok|by eapply host_steps_alloc]).
        by apply (reliable_alloc (T := T) tag_free (sizeof_ravl_node + data_size (free_blocks (co s))) _ Hokh Htf).
      * apply list_elem_of_fmap in Hp as (f & -> & Hf). by apply (Hnone f).
    + apply keeps_eq. rewrite ba_free_live by (rewrite El; simpl; rewrite Hl2, lookup_insert_eq; by eexists).
      rewrite El. simpl. by rewrite Hl2, delete_insert_id.
    + eapply host_steps_trans; [exact Hsteps|apply host_steps_free].
Qed.

Lemma wp_get_head s F size (Q : option Z -> cstate H P -> Prop) :
  free_inv s F -> ok (c_host s) -> Forall (fun f => f_elems f <> []) F ->
  (forall h, ~ (tag_head ∈ T /\ tag_free ∈ T) -> keeps_but "-" (c_host s) h ->
     host_steps (c_host s) h -> Q None (set_chost h s)) ->
  (forall s' F1 f F2, free_inv s' (F1 ++ f :: F2) -> f_size f = size ->
     (forall B X, linked B F X -> linked B (F1 ++ f :: F2) X) ->
     Forall (fun f => f_elems f <> []) (F1 ++ F2) ->
     free_only s s' -> Q (Some (f_head f)) s') ->
  wp (get_head_node size) Q s.
Proof.
  intros Hi Hok Hne HQ1 HQ2. pose proof Hi as (Hr & _). unfold get_head_node. apply wp_bind.
  eapply wp_find_free; [exact Hr|by left|].
  destruct (decide (size ∈ f_size <$> F)) as [Hin|Hnin].
  - apply list_elem_of_fmap in Hin as (f & -> & Hin).
    apply list_elem_of_split in Hin as (F1 & F2 & ->).
    rewrite (find_free_entry _ _ _ _ _ Hr) by (done || by left).
    rewrite fmap_app, fmap_cons in Hr. apply wp_bind. eapply wp_data_free; [exact Hr|]. simpl.
    wp_step. apply wp_ret. eapply HQ2; eauto.
    + rewrite Forall_app, Forall_cons in Hne. rewrite Forall_app. tauto.
    + split_and!; try done; auto with umf. by intros a tg _.
  - assert (forall f, f ∈ F -> f_size f <> size) as Hnone.
    { intros f Hf <-. apply Hnin. by apply list_elem_of_fmap_2. }
    unfold find_list. simpl. rewrite find_eq_none; cycle 1.
    { intros p Hp. apply list_elem_of_fmap in Hp as (f & -> & Hf). by apply Hnone. }
    eapply wp_new_head; eauto. intros s' F1 F2 n hd -> Hi' Ho.
    change hd with (f_head (FE n size hd [])). eapply HQ2; eauto.
    intros B X. by apply linked_drop_empty.
Qed.

Hypothesis elem_reliable : tag_elem ∈ T.

Lemma wp_free_blocks_add s B1 en B2 F X (Q : Z -> cstate H P -> Prop) :
  heaps_inv s (B1 ++ en :: B2) F (en_ptr en :: X) -> ok (c_host s) ->
  b_free_list_ptr (en_block en) = None -> b_used (en_block en) = false ->
  (forall s' F' e,
     heaps_inv s' (B1 ++ upd_block (with_b_free_list_ptr (Some e)) en :: B2) F' X ->
     same_ctl s s' -> Q 0 s') ->
  (forall s', ~ (tag_head ∈ T /\ tag_free ∈ T) ->
     heaps_inv s' (B1 ++ en :: B2) F (en_ptr en :: X) -> same_ctl s s' -> Q (-1) s') ->
  wp (free_blocks_add (en_ptr en)) Q s.
Proof.
  intros Hinv Hok Hn Hu HQ0 HQ1. pose proof Hinv as (Ha & Hf & Hself & Hl & Hne).
  assert (blocks s !! en_ptr en = Some (en_block en)) as Hb.
  { eapply all_inv_block; [exact Ha|]. rewrite elem_of_app, elem_of_cons. auto. }
  unfold free_blocks_add. apply wp_bind. eapply wp_load_block; [done|].
  apply wp_bind. eapply wp_get_head; eauto.
  { intros h Hno Hk Hsteps. apply wp_ret, HQ1; [done| |].
    - eapply heaps_inv_frame; [exact Hinv|done..|exact Hk].
    - unfold same_ctl. simpl. by split_and!. }
  intros s1 F1 f F2 Hf1 Hsz Hl1 Hne1 Ho1.
  assert (ok (c_host s1)) as Hok1.
  { eapply (reliable_steps T ok); [exact Hok|]. destruct Ho1 as (_ & _ & _ & _ & Hc). apply Hc. }
  assert (blocks s1 !! en_ptr en = Some (en_block en)) as Hb1.
  { destruct Ho1 as (_ & -> & _). done. }
  apply wp_bind. eapply wp_node_list_add; [exact Hf1| |].
  { intros h Ea. exfalso.
    by apply (reliable_alloc (T := T) tag_elem sizeof_elem_t _ Hok1 elem_reliable); rewrite Ea. }
  intros e h Ea. apply wp_bind. eapply wp_store_block; [exact Hb1|].
  apply wp_bind. eapply wp_load_elem; [simpl; apply lookup_insert_eq|]. simpl.
  apply wp_bind. eapply wp_load_block; [simpl; apply lookup_insert_eq|].
  apply wp_bind. eapply wp_load_block; [simpl; apply lookup_insert_eq|].
  wp_step; [by apply Z.eqb_eq|]. apply wp_ret.
  edestruct (heaps_inv_change s) as [Hinv' Hc]; [exact Hinv| | | | | |by eapply HQ0].
  - done.
  - destruct Ho1 as (A1 & A2 & A3 & A4 & A5). split_and!; simpl; try done; [by rewrite A2| |].
    + intros a tg Htg Ha'. apply (keeps_alloc "-" _ _ _ _ _ Ea); [|by apply A4].
      intros ->. by rewrite !elem_of_cons, elem_of_nil in Htg; destruct_or!.
    + unfold same_ctl in *. simpl. destruct_and!. split_and!; try done.
      eapply host_steps_trans; [done|by eapply host_steps_alloc].
  - refine (free_inv_frame "-" (push_state s1 f e (en_ptr en) h) _ _ _ _ _ _ _ _ _ _);
      [by eapply free_inv_push|first [done|apply keeps_refl]..].
  - rewrite Forall_app in *. rewrite Forall_cons. simpl. destruct_and!. split_and!; done.
  - apply linked_push; auto. intros e' He'. by eapply all_inv_ptr.
Qed.
End Add.

Lemma aligned_or_not v a : IS_ALIGNED v a = negb (IS_NOT_ALIGNED v a).
Proof. unfold IS_ALIGNED, IS_NOT_ALIGNED. by rewrite negb_andb, !negb_involutive. Qed.

Lemma find_ge_cases x F :
  (find_list rd_key RAVL_PREDICATE_GREATER_EQUAL x (free_node <$> F) = None /\
   forall f, f ∈ F -> f_size f < x) \/
  (exists F1 f F2, F = F1 ++ f :: F2 /\ x <= f_size f /\ (forall g, g ∈ F1 -> f_size g < x) /\
   find_list rd_key RAVL_PREDICATE_GREATER_EQUAL x (free_node <$> F) = Some (f_node f)).
Proof.
  unfold find_list. simpl. unfold find_ge. induction F as [|f F IH].
  - left. split; [done|]. intros f Hf. by apply not_elem_of_nil in Hf.
  - rewrite fmap_cons. destruct (decide (x <= f_size f)) as [Hle|Hlt].
    + right. exists [], f, F. rewrite filter_cons_True by done. split_and!; try done.
      intros g Hg. by apply not_elem_of_nil in Hg.
    + rewrite filter_cons_False by done. destruct IH as [[E Hall]|(F1 & g & F2 & -> & Hg & Hall & E)].
      * left. split; [done|]. intros g Hg. apply elem_of_cons in Hg as [->|Hg]; [lia|auto].
      * right. exists (f :: F1), g, F2. split_and!; try done.
        intros g' Hg'. apply elem_of_cons in Hg' as [->|Hg']; [lia|auto].
Qed.

Section BestFit.
Context {H P : Type} `{HostAllocLaws H}.
Implicit Types (s : cstate H P) (B : list entry) (F : list fentry).

Definition listed (en : entry) : Prop := b_free_list_ptr (en_block en) <> None.

(** [en] is a listed block of the least size that is at least [size]. *)
Definition best_fit B (size : Z) (en : entry) : Prop :=
  en ∈ B /\ listed en /\ size <= b_size (en_block en) /\
  forall en', en' ∈ B -> listed en' -> size <= b_size (en_block en') ->
    b_size (en_block en) <= b_size (en_block en').

Lemma list_block B F X f e p :
  linked B F X -> f ∈ F -> (e, p) ∈ f_elems f ->
  exists B1 en B2, B = B1 ++ en :: B2 /\ en_ptr en = p /\ b_size (en_block en) = f_size f /\
    b_free_list_ptr (en_block en) = Some e /\ b_used (en_block en) = false.
Proof.
  intros (L1 & _) Hf Hin. destruct (L1 _ _ _ Hf Hin) as (en & Hen & E).
  apply list_elem_of_split in Hen as (B1 & B2 & ->). by exists B1, en, B2.
Qed.

Lemma listed_size s B F X en' :
  all_inv s B -> linked B F X -> en' ∈ B -> listed en' ->
  exists f, f ∈ F /\ f_size f = b_size (en_block en').
Proof.
  intros Ha (L1 & L2 & _) Hen' Hli'. unfold listed in Hli'.
  destruct (b_free_list_ptr (en_block en')) as [e'|] eqn:Ee; [|done].
  destruct (L2 _ _ Hen' Ee) as (g & Hg & Hin).
  destruct (L1 _ _ _ Hg Hin) as (en'' & Hen'' & Ep & Es & Ee' & _).
  exists g. split; [done|]. rewrite <- Es. f_equal.
  pose proof (all_inv_block _ _ _ Ha Hen') as E1. pose proof (all_inv_block _ _ _ Ha Hen'') as E2.
  rewrite Ep in E2. congruence.
Qed.

Lemma best_fit_intro s B F1 f F2 X size en :
  all_inv s B -> free_inv s (F1 ++ f :: F2) -> linked B (F1 ++ f :: F2) X ->
  size <= f_size f -> (forall g, g ∈ F1 -> f_size g < size) ->
  en ∈ B -> listed en -> b_size (en_block en) = f_size f -> best_fit B size en.
Proof.
  intros Ha (Hr & _) Hl Hle Hlt Hen Hli Hsz. split_and!; [done|done|lia|].
  intros en' Hen' Hli' Hsz'. destruct (listed_size _ _ _ _ _ Ha Hl Hen' Hli') as (g & Hg & Eg).
  rewrite Hsz, <- Eg. rewrite <- Eg in Hsz'. rewrite elem_of_app, elem_of_cons in Hg. destruct Hg as [Hg|[->|Hg]].
  - specialize (Hlt g Hg). lia.
  - lia.
  - apply rep_sorted in Hr. unfold sorted in Hr.
    rewrite fmap_app, fmap_cons, StronglySorted_app, StronglySorted_cons in Hr.
    destruct Hr as (_ & _ & Hf & _). rewrite Forall_forall in Hf.
    specialize (Hf (free_node g) ltac:(by apply list_elem_of_fmap_2)). simpl in Hf. lia.
Qed.

Lemma wp_rm_first s B F X f al (Q : option Z -> cstate H P -> Prop) :
  heaps_inv s B F X -> f ∈ F ->
  (forall e en l2, en ∈ B -> f_elems f = (e, en_ptr en) :: l2 ->
     b_size (en_block en) = f_size f -> listed en ->
     if IS_ALIGNED (b_data (en_block en)) al
     then Q (Some (en_ptr en)) (rm_state s f [] e (en_ptr en) l2 (en_block en))
     else Q None s) ->
  wp (node_list_rm_first (f_head f) al) Q s.
Proof.
  intros (Ha & Hf & _ & Hl & Hne) Hin HQ. pose proof (free_inv_head _ _ _ Hf Hin) as Hh.
  pose proof (free_inv_dll _ _ _ Hf Hin) as Hd. rewrite Forall_forall in Hne.
  destruct (f_elems f) as [|[e p] l] eqn:El; [by apply Hne in El|].
  destruct (list_block _ _ _ _ e p Hl Hin) as (B1 & en & B2 & -> & <- & Es & Ee & Eu).
  { rewrite El. constructor. }
  assert (en ∈ B1 ++ en :: B2) as Hen by (rewrite elem_of_app, elem_of_cons; auto).
  specialize (HQ e en l Hen eq_refl Es ltac:(unfold listed; congruence)).
  pose proof (all_inv_block _ _ _ Ha Hen) as Hb. destruct Hd as [He Hd]. rewrite aligned_or_not in HQ.
  unfold node_list_rm_first. apply wp_bind. eapply wp_load_head; [done|]. simpl. wp_step.
  apply wp_bind. eapply wp_load_elem; [done|]. simpl. wp_step.
  apply wp_bind. eapply wp_load_block; [done|].
  destruct (IS_NOT_ALIGNED _ _); simpl in HQ; [by apply wp_ret|]. apply wp_bind.
  unfold rm_state, unlink in HQ. simpl in HQ.
  destruct (hd_or l None) as [x|] eqn:Ex.
  - apply wp_store_elem; [by eapply dll_hd_some|].
    apply wp_bind. eapply wp_store_head; [exact Hh|].
    apply wp_bind. eapply wp_store_block; [exact Hb|].
    apply wp_bind, wp_free_elem_struct; [|by apply wp_ret].
    simpl. rewrite lookup_alter_is_Some. by eexists.
  - apply wp_ret. apply wp_bind. eapply wp_store_head; [exact Hh|].
    apply wp_bind. eapply wp_store_block; [exact Hb|].
    apply wp_bind, wp_free_elem_struct; [|by apply wp_ret]. by eexists.
Qed.

Lemma wp_rm_aligned_loop s B F1 f F2 X al l1 l2 fuel (Q : option Z -> cstate H P -> Prop) :
  heaps_inv s B (F1 ++ f :: F2) X -> f_elems f = l1 ++ l2 -> (length l2 <= fuel)%nat ->
  (forall l e en l', en ∈ B -> f_elems f = l ++ (e, en_ptr en) :: l' ->
     b_size (en_block en) = f_size f -> listed en ->
     IS_ALIGNED (b_data (en_block en)) al = true ->
     Q (Some (en_ptr en)) (rm_state s f l e (en_ptr en) l' (en_block en))) ->
  ((forall e en, en ∈ B -> (e, en_ptr en) ∈ l2 -> IS_ALIGNED (b_data (en_block en)) al = false) ->
     Q None s) ->
  wp (rm_with_alignment_loop fuel (f_head f) (hd_or l2 None) al) Q s.
Proof.
  intros Hinv. pose proof Hinv as (Ha & Hf & _ & Hl & _).
  assert (f ∈ F1 ++ f :: F2) as Hin by (rewrite elem_of_app, elem_of_cons; auto).
  pose proof (free_inv_dll _ _ _ Hf Hin) as Hd.
  revert fuel l1. induction l2 as [|[e p] l2 IH]; intros fuel l1 El Hfuel HQ1 HQ2.
  { destruct fuel; apply wp_ret, HQ2; intros e en _ He; by apply not_elem_of_nil in He. }
  destruct fuel as [|fuel]; [simpl in Hfuel; lia|]. simpl. rewrite El in Hd.
  pose proof (dll_at _ _ _ _ _ Hd) as He. apply wp_bind. eapply wp_load_elem; [done|]. simpl.
  destruct (list_block _ _ _ _ e p Hl Hin) as (B1 & en & B2 & EB & <- & Es & Ee & Eu).
  { rewrite El, elem_of_app. right. constructor. }
  assert (en ∈ B) as Hen by (rewrite EB, elem_of_app, elem_of_cons; auto).
  pose proof (all_inv_block _ _ _ Ha Hen) as Hb.
  apply wp_bind. eapply wp_load_block; [done|].
  destruct (IS_ALIGNED (b_data (en_block en)) al) eqn:Eal.
  - apply wp_bind. eapply wp_node_list_rm; [exact Hf|exact El|done|]. apply wp_ret.
    apply HQ1; auto. unfold listed. congruence.
  - apply (IH fuel (l1 ++ [(e, en_ptr en)])); [by rewrite <- app_assoc|simpl in Hfuel; lia|done|].
    intros Hall. apply HQ2. intros e' en' Hen' Hin'. apply elem_of_cons in Hin' as [[= -> Ep]|Hin'].
    + pose proof (all_inv_block _ _ _ Ha Hen') as Hb'. rewrite Ep in Hb'. congruence.
    + by apply (Hall e').
Qed.

(** Why a search for [size] and [al] came back empty-handed. *)
Definition no_fit (chk : check_free_blocks_t) B (size al : Z) : Prop :=
  (forall en, en ∈ B -> listed en -> b_size (en_block en) < size) \/
  ((exists en, best_fit B size en /\ IS_ALIGNED (b_data (en_block en)) al = false) /\
   (chk = CHECK_ALL_BLOCKS_OF_SIZE -> forall en, best_fit B size en ->
      IS_ALIGNED (b_data (en_block en)) al = false)).

Lemma best_fit_in_list s B F1 f F2 X size en :
  all_inv s B -> free_inv s (F1 ++ f :: F2) -> linked B (F1 ++ f :: F2) X ->
  size <= f_size f -> (forall g, g ∈ F1 -> f_size g < size) -> f_elems f <> [] ->
  best_fit B size en -> exists e, (e, en_ptr en) ∈ f_elems f.
Proof.
  intros Ha Hf Hl Hle Hlt Hne (Hen & Hli & Hge & Hmin).
  assert (exists en0, en0 ∈ B /\ listed en0 /\ b_size (en_block en0) = f_size f)
    as (en0 & Hen0 & Hli0 & Es0).
  { destruct (f_elems f) as [|[e p] l] eqn:El; [done|].
    destruct (list_block _ _ _ f e p Hl) as (B1 & en0 & B2 & -> & _ & Es & Ee & _).
    - rewrite elem_of_app, elem_of_cons. auto.
    - rewrite El. constructor.
    - exists en0. rewrite elem_of_app, elem_of_cons. unfold listed. split_and!; auto. congruence. }
  pose proof (Hmin en0 Hen0 Hli0 ltac:(lia)) as Hm.
  unfold listed in Hli. destruct (b_free_list_ptr (en_block en)) as [e|] eqn:Ee; [|done].
  pose proof Hl as (L1 & L2 & _). destruct (L2 _ _ Hen Ee) as (g & Hg & Hin).
  destruct (L1 _ _ _ Hg Hin) as (en'' & Hen'' & Ep & Es & _).
  assert (en_block en'' = en_block en) as Eb.
  { pose proof (all_inv_block _ _ _ Ha Hen) as E1. pose proof (all_inv_block _ _ _ Ha Hen'') as E2.
    rewrite Ep in E2. congruence. }
  rewrite Eb in Es. exists e. rewrite elem_of_app, elem_of_cons in Hg.
  destruct Hg as [Hg|[->|Hg]]; [|done|].
  - specialize (Hlt g Hg). lia.
  - destruct Hf as (Hr & _). apply rep_sorted in Hr. unfold sorted in Hr.
    rewrite fmap_app, fmap_cons, StronglySorted_app, StronglySorted_cons in Hr.
    destruct Hr as (_ & _ & Hf & _). rewrite Forall_forall in Hf.
    specialize (Hf (free_node g) ltac:(by apply list_elem_of_fmap_2)). simpl in Hf. lia.
Qed.

Lemma wp_rm_aligned s B F1 f F2 X al (Q : option Z -> cstate H P -> Prop) :
  heaps_inv s B (F1 ++ f :: F2) X ->
  (forall l e en l', en ∈ B -> f_elems f = l ++ (e, en_ptr en) :: l' ->
     b_size (en_block en) = f_size f -> listed en ->
     IS_ALIGNED (b_data (en_block en)) al = true ->
     Q (Some (en_ptr en)) (rm_state s f l e (en_ptr en) l' (en_block en))) ->
  ((forall e en, en ∈ B -> (e, en_ptr en) ∈ f_elems f ->
     IS_ALIGNED (b_data (en_block en)) al = false) -> Q None s) ->
  wp (node_list_rm_with_alignment (f_head f) al) Q s.
Proof.
  intros Hinv HQ1 HQ2. pose proof Hinv as (Ha & Hf & _ & Hl & Hne).
  assert (f ∈ F1 ++ f :: F2) as Hin by (rewrite elem_of_app, elem_of_cons; auto).
  pose proof (free_inv_head _ _ _ Hf Hin) as Hh. pose proof (free_inv_dll _ _ _ Hf Hin) as Hd.
  destruct (free_inv_nodup _ _ _ _ Hf) as (Hnd & _). rewrite Forall_forall in Hne.
  assert (length (f_elems f) <= size (elems s))%nat as Hlen.
  { rewrite <- (length_fmap fst). apply heap_bound; [done|]. intros a Hx.
    apply list_elem_of_fmap in Hx as ([e b] & -> & Hx).
    destruct (dll_lookup _ _ _ _ _ _ Hd Hx) as (? & ? & E). by eexists. }
  specialize (Hne f Hin). remember (f_elems f) as l eqn:El. destruct l as [|[e p] l]; [done|].
  destruct Hd as [He Hd].
  unfold node_list_rm_with_alignment. apply wp_bind. eapply wp_load_head; [done|]. simpl. wp_step.
  apply wp_bind. eapply wp_load_elem; [done|]. simpl. wp_step. wp_step.
  change (Some e) with (hd_or ((e, p) :: l) None).
  eapply (wp_rm_aligned_loop _ _ _ _ _ _ _ []); [exact Hinv|done|simpl in *; lia| |exact HQ2].
  rewrite <- El. exact HQ1.
Qed.

Lemma wp_free_blocks_rm_ge s B F X size al chk (Q : option Z -> cstate H P -> Prop) :
  heaps_inv s B F X ->
  (forall s' F' B1 en B2, B = B1 ++ en :: B2 -> best_fit B size en ->
     b_used (en_block en) = false -> IS_ALIGNED (b_data (en_block en)) al = true ->
     heaps_inv s' (B1 ++ upd_block (with_b_free_list_ptr None) en :: B2) F' (en_ptr en :: X) ->
     same_ctl s s' -> Q (Some (en_ptr en)) s') ->
  (no_fit chk B size al -> Q None s) ->
  wp (free_blocks_rm_ge size al chk) Q s.
Proof.
  intros Hinv HQ1 HQ2. pose proof Hinv as (Ha & Hf & _ & Hl & Hne). pose proof Hf as (Hr & _).
  unfold free_blocks_rm_ge. apply wp_bind. eapply wp_find_free; [exact Hr|by do 4 right; left|].
  destruct (find_ge_cases size F) as [[-> Hall]|(F1 & f & F2 & -> & Hle & Hlt & ->)].
  { apply wp_ret, HQ2. left. intros en Hen Hli.
    destruct (listed_size _ _ _ _ _ Ha Hl Hen Hli) as (g & Hg & <-). auto. }
  assert (f ∈ F1 ++ f :: F2) as Hin by (rewrite elem_of_app, elem_of_cons; auto).
  rewrite fmap_app, fmap_cons in Hr. apply wp_bind. eapply wp_data_free; [exact Hr|]. simpl.
  wp_step; [by apply Z.leb_le|]. wp_step. apply wp_bind.
  assert (forall l e en l', en ∈ B -> f_elems f = l ++ (e, en_ptr en) :: l' ->
     b_size (en_block en) = f_size f -> listed en -> IS_ALIGNED (b_data (en_block en)) al = true ->
     wp (drop_empty_head (f_head f) (f_node f);; mret (Some (en_ptr en))) Q
       (rm_state s f l e (en_ptr en) l' (en_block en))) as Hhit.
  { intros l e en l' Hen El Es Hli Eal. apply wp_bind.
    pose proof (best_fit_intro _ _ _ _ _ _ _ _ Ha Hf Hl Hle Hlt Hen Hli Es) as Hbest.
    assert (b_used (en_block en) = false) as Eu.
    { destruct (list_block _ _ _ f e (en_ptr en) Hl Hin) as (C1 & en' & C2 & -> & Ep & _ & _ & Eu).
      - rewrite El, elem_of_app. right. constructor.
      - pose proof (all_inv_block _ _ _ Ha Hen) as E1.
        pose proof (all_inv_block _ _ en' Ha ltac:(rewrite elem_of_app, elem_of_cons; auto)) as E2.
        rewrite Ep in E2. congruence. }
    apply list_elem_of_split in Hen as (B1 & B2 & ->).
    eapply wp_after_rm; [exact Hinv|exact El|]. intros s' F' Hinv' Hc. apply wp_ret. eauto. }
  assert (forall en, en ∈ B -> listed en -> b_size (en_block en) = f_size f ->
    IS_ALIGNED (b_data (en_block en)) al = false ->
    (chk = CHECK_ALL_BLOCKS_OF_SIZE -> forall e en, en ∈ B -> (e, en_ptr en) ∈ f_elems f ->
       IS_ALIGNED (b_data (en_block en)) al = false) ->
    wp (drop_empty_head (f_head f) (f_node f);; mret None) Q s) as Hmiss.
  { intros en Hen Hli Es Eal Hall. apply wp_bind. rewrite Forall_forall in Hne.
    eapply wp_drop_empty_head; [exact Hf| |intros ? ? E; by apply Hne in E]. intros Hnonempty.
    apply wp_ret, HQ2. right. split.
    - exists en. split; [|done]. by eapply best_fit_intro.
    - intros Hchk en' Hbest.
      destruct (best_fit_in_list _ _ _ _ _ _ _ _ Ha Hf Hl Hle Hlt Hnonempty Hbest) as [e He].
      eapply (Hall Hchk e); [apply Hbest|done]. }
  destruct chk.
  - eapply wp_rm_first; [exact Hinv|done|]. intros e en l2 Hen El Es Hli.
    destruct (IS_ALIGNED (b_data (en_block en)) al) eqn:Eal; [by eapply (Hhit [])|].
    by eapply Hmiss.
  - eapply wp_rm_aligned; [exact Hinv|eauto|]. intros Hall.
    destruct (f_elems f) as [|[e p] l] eqn:El; [rewrite Forall_forall in Hne; by apply Hne in El|].
    destruct (list_block _ _ _ f e p Hl Hin) as (C1 & en' & C2 & EB & <- & Es' & Ee' & _).
    { rewrite El. constructor. }
    assert (en' ∈ B) as Hen' by (rewrite EB, elem_of_app, elem_of_cons; auto).
    eapply (Hmiss en'); [done|unfold listed; congruence|done| |by eauto].
    eapply (Hall e); [done|constructor].
Qed.
End BestFit.
