(* ===== verification/CoarseMerge.v ===== *)
(** * Merging neighbours, statistics and the self check

    [user_block_merge] replaces two adjacent blocks by one and keeps the
    invariant; the two wrappers coalesce a free block with its neighbours.

    [coarse_get_stats] counts the blocks and the free blocks; [debug_check],
    which developer builds run around every operation, passes in every state
    that satisfies the invariant. *)

From S2P Require Import Prelude Utils HostMem Ravl RavlSpec RavlRemove Coarse.
From S2P Require Import CoarseInv CoarseFree CoarseLists.
From stdpp Require Import strings sorting.
#[local] Open Scope Z_scope.

(** Side conditions of the frame lemmas. *)
Ltac frames := first [done | apply keeps_refl | eassumption].

(** ** Layout *)

Lemma layout_app_inv L1 b c L2 :
  layout (L1 ++ b :: c :: L2) ->
  block_ok b /\ block_ok c /\ before b c /\ b_data b < b_data c.
Proof.
  intros [Hok Hs]. rewrite Forall_app, !Forall_cons in Hok. destruct Hok as (_ & Hb & Hc & _).
  rewrite StronglySorted_app, StronglySorted_cons in Hs. destruct Hs as (_ & _ & Hf & _).
  rewrite Forall_cons in Hf. destruct Hf as [Hbc _]. split_and!; try done.
  unfold before, block_ok in *. lia.
Qed.

Lemma layout_middle L1 b L2 : layout (L1 ++ b :: L2) -> block_ok b.
Proof. intros [Hok _]. rewrite Forall_app, Forall_cons in Hok. tauto. Qed.

(** The layout does not depend on which blocks are in use. *)
Lemma layout_used L1 b L2 u : layout (L1 ++ b :: L2) -> layout (L1 ++ with_b_used u b :: L2).
Proof.
  intros [Hok Hs]. split.
  - rewrite Forall_app, Forall_cons in *. done.
  - rewrite StronglySorted_app, StronglySorted_cons in *. destruct Hs as (H12 & H1 & Hf & H2).
    split_and!; auto. intros x y Hx Hy. apply elem_of_cons in Hy as [->|Hy].
    + apply (H12 x b Hx). constructor.
    + apply (H12 x y Hx). by right.
Qed.

Definition mergeable (used : bool) (b c : block_t) : bool :=
  eqb (b_used b) used && eqb (b_used c) used && (b_data b + b_size b =? b_data c).

Definition merged_block (b c : block_t) : block_t :=
  mk_block (b_size b + b_size c) (b_data b) (b_used b) None.
Definition merged (e1 e2 : entry) : entry :=
  En (en_node e1) (en_ptr e1) (merged_block (en_block e1) (en_block e2)).

Lemma mergeable_true used b c :
  mergeable used b c = true -> b_used b = used /\ b_used c = used /\ b_data b + b_size b = b_data c.
Proof.
  unfold mergeable. rewrite !andb_true_iff, !eqb_true_iff, Z.eqb_eq. tauto.
Qed.

Lemma layout_merge L1 b c L2 :
  layout (L1 ++ b :: c :: L2) -> b_data b + b_size b = b_data c ->
  layout (L1 ++ merged_block b c :: L2).
Proof.
  intros [Hok Hs] Hadj. rewrite Forall_app, !Forall_cons in Hok.
  destruct Hok as (Hok1 & Hb & Hc & Hok2).
  rewrite StronglySorted_app, !StronglySorted_cons in Hs.
  destruct Hs as (H12 & Hs1 & Hfb & Hfc & Hs2). unfold block_ok, before in *. split.
  - rewrite Forall_app, Forall_cons. split_and!; auto; unfold block_ok; simpl; lia.
  - rewrite StronglySorted_app, StronglySorted_cons. split_and!; auto.
    + intros x y Hx Hy. apply elem_of_cons in Hy as [->|Hy].
      * simpl. apply (H12 x b Hx). constructor.
      * apply (H12 x y Hx). by right; right.
    + eapply Forall_impl; [exact Hfc|]. simpl. intros x Hx. unfold before. simpl in *. lia.
Qed.

Lemma sum_of_app p B1 B2 : sum_of p (B1 ++ B2) = sum_of p B1 + sum_of p B2.
Proof. induction B1 as [|e B1 IH]; simpl; [done|]. rewrite IH. lia. Qed.

(** Sizes add up without overflow. *)
Lemma sum_of_bound B p lo :
  layout B -> Forall (fun b => lo <= b_data b) B -> 0 <= lo < two64 ->
  0 <= sum_of p B < two64 - lo.
Proof.
  revert lo. induction B as [|e B IH]; intros lo [Hok Hs] Hlo Hlo'; simpl; [lia|].
  rewrite Forall_cons in Hok. destruct Hok as [He Hok].
  apply StronglySorted_cons in Hs as [Hf Hs]. rewrite Forall_cons in Hlo. destruct Hlo as [Hle Hlo].
  unfold block_ok in He.
  assert (0 <= sum_of p B < two64 - (b_data e + b_size e)) as Hb by (apply IH; [done|done|lia]).
  destruct (p e); lia.
Qed.

Lemma sum_of_u64 B p : layout B -> 0 <= sum_of p B < two64.
Proof.
  intros Hl. pose proof (sum_of_bound B p 0 Hl) as Hb. rewrite Z.sub_0_r in Hb. apply Hb; [|done].
  destruct Hl as [Hok _]. eapply Forall_impl; [exact Hok|].
  unfold block_ok. simpl. intros x ?. lia.
Qed.

Lemma sum_of_le B p q : Forall block_ok B -> (forall b, p b = true -> q b = true) ->
  sum_of p B <= sum_of q B.
Proof.
  intros Hok Hpq. induction Hok as [|b B Hb Hok IH]; simpl; [lia|]. unfold block_ok in Hb.
  specialize (Hpq b). destruct (p b); [rewrite Hpq by done; lia|]. destruct (q b); lia.
Qed.

Lemma sum_of_length B : Forall block_ok B -> Z.of_nat (length B) <= sum_of (fun _ => true) B.
Proof.
  induction 1 as [|b B Hb Hok IH]; simpl; [lia|]. unfold block_ok in Hb. lia.
Qed.

Lemma layout_clean L : layout (clean <$> L) <-> layout L.
Proof.
  unfold layout. rewrite Forall_fmap. apply and_iff_compat_l.
  induction L as [|b L IH]; simpl; [done|]. rewrite !StronglySorted_cons, Forall_fmap, IH. done.
Qed.

Lemma layout_view B : layout (view B) <-> layout (en_block <$> B).
Proof. unfold view. rewrite <- (layout_clean (en_block <$> B)), <- list_fmap_compose. done. Qed.

Lemma layout_prefix L1 L2 : layout (L1 ++ L2) -> layout L1.
Proof.
  intros [Hok Hs]. rewrite Forall_app in Hok. rewrite StronglySorted_app in Hs. split; tauto.
Qed.

Lemma view_app B1 B2 : view (B1 ++ B2) = view B1 ++ view B2.
Proof. apply fmap_app. Qed.

Lemma view_same_pb B B' : same_pb B B' -> view B' = view B.
Proof. induction 1 as [|e e' B B' [_ E] _ IH]; [done|]. unfold view in *. by rewrite !fmap_cons, E, IH. Qed.

Lemma view_upd B1 en B2 g : (forall b, clean (g b) = clean b) ->
  view (B1 ++ upd_block g en :: B2) = view (B1 ++ en :: B2).
Proof. intros Hg. unfold view. rewrite !fmap_app, !fmap_cons. simpl. by rewrite Hg. Qed.

Lemma linked_unneeded B F X X' :
  linked B F X ->
  (forall en, en ∈ B -> b_used (en_block en) = false -> en_ptr en ∈ X -> en_ptr en ∈ X') ->
  linked B F X'.
Proof. intros (L1 & L2 & L3) Hp. split_and!; [done|done|]. intros en Hen Hu Hx. apply L3; auto. Qed.

Section Merge.
Context {H P : Type} `{HostAllocLaws H}.
Implicit Types (s : cstate H P) (B : list entry) (F : list fentry).

Lemma upd_block_id en : b_free_list_ptr (en_block en) = None ->
  upd_block (with_b_free_list_ptr None) en = en.
Proof. destruct en as [n p [sz d u fl]]. simpl. by intros ->. Qed.

Lemma set_blocks_id s : set_blocks (blocks s) s = s.
Proof. by destruct s. Qed.

Lemma wp_unlist_block s B1 en B2 F X (Q : unit -> cstate H P -> Prop) :
  heaps_inv s (B1 ++ en :: B2) F X ->
  (forall s' F', heaps_inv s' (B1 ++ upd_block (with_b_free_list_ptr None) en :: B2) F'
     (en_ptr en :: X) -> same_ctl s s' -> Q tt s') ->
  wp (unlist_block (en_ptr en)) Q s.
Proof.
  intros Hinv HQ. pose proof Hinv as (Ha & Hf & Hs & Hl & Hne).
  assert (blocks s !! en_ptr en = Some (en_block en)) as Hb.
  { eapply all_inv_block; [exact Ha|]. rewrite elem_of_app, elem_of_cons. auto. }
  unfold unlist_block. apply wp_bind. eapply wp_load_block; [done|].
  destruct (b_free_list_ptr (en_block en)) as [e|] eqn:Ee.
  - apply wp_bind. eapply wp_free_blocks_rm_node; [exact Hinv|exact Ee|].
    intros s' F' Hinv' Hc. pose proof Hinv' as (Ha' & _).
    pose proof (all_inv_block _ _ (upd_block (with_b_free_list_ptr None) en) Ha') as Hb'.
    rewrite elem_of_app, elem_of_cons in Hb'. specialize (Hb' ltac:(auto)).
    eapply wp_store_block; [exact Hb'|]. simpl.
    rewrite insert_id by exact Hb'. rewrite set_blocks_id. eauto.
  - apply wp_ret. rewrite upd_block_id in HQ by done. apply (HQ s F); [|auto with umf].
    split_and!; try done. eapply linked_sub; [|exact Hl]. intros q Hq. by right.
Qed.

Lemma wp_call_merge s merge low high total (Q : umf_result_t -> cstate H P -> Prop) :
  cb_merge (c_cb (co s)) = Some merge ->
  (forall r p, merge low high total (provider s) = (r, p) -> Q r (set_provider p s)) ->
  wp (call_merge low high total) Q s.
Proof.
  intros Hm HQ. unfold call_merge. wp_step. rewrite Hm. wp_step; [done|].
  destruct (merge low high total (provider s)) as [r p] eqn:E. wp_step. apply wp_ret. auto.
Qed.

Lemma heaps_inv_provider s B F X p : heaps_inv s B F X -> heaps_inv (set_provider p s) B F X.
Proof. intros Hinv. eapply heaps_inv_frame; [exact Hinv|done..|]. apply keeps_refl. Qed.

Lemma heaps_inv_in s B1 en B2 F X :
  heaps_inv s (B1 ++ en :: B2) F X -> blocks s !! en_ptr en = Some (en_block en).
Proof.
  intros (Ha & _). eapply all_inv_block; [exact Ha|]. rewrite elem_of_app, elem_of_cons. auto.
Qed.

Lemma linked_store B1 en B2 F X g :
  linked (B1 ++ en :: B2) F X ->
  b_free_list_ptr (en_block en) = None -> b_free_list_ptr (g (en_block en)) = None ->
  linked (B1 ++ upd_block g en :: B2) F (en_ptr en :: X).
Proof.
  intros (L1 & L2 & L3) E1 E2. split_and!.
  - intros f x q Hf Hx. destruct (L1 f x q Hf Hx) as (e0 & He0 & Ep & Es & Ee & Eu). exists e0.
    split; [|done]. rewrite elem_of_app, elem_of_cons in He0 |- *.
    destruct He0 as [?|[->|?]]; [by auto|congruence|by auto].
  - intros e0 x He0 Ex. rewrite elem_of_app, elem_of_cons in He0.
    destruct He0 as [?|[->|?]]; [|simpl in Ex; congruence|];
      (apply L2; [rewrite elem_of_app, elem_of_cons; auto|done]).
  - intros e0 He0 Hu Hx. rewrite not_elem_of_cons in Hx. destruct Hx as [Hx1 Hx2].
    rewrite elem_of_app, elem_of_cons in He0. destruct He0 as [?|[->|?]]; [|done|];
      (apply L3; [rewrite elem_of_app, elem_of_cons; auto|done|done]).
Qed.

(** Storing into an unlisted block. *)
Lemma heaps_inv_store s B1 en B2 F X g :
  heaps_inv s (B1 ++ en :: B2) F X -> b_data (g (en_block en)) = b_data (en_block en) ->
  b_free_list_ptr (en_block en) = None -> b_free_list_ptr (g (en_block en)) = None ->
  heaps_inv (set_blocks (<[en_ptr en := g (en_block en)]> (blocks s)) s)
    (B1 ++ upd_block g en :: B2) F (en_ptr en :: X).
Proof.
  intros (Ha & Hf & Hs & Hl & Hne) Hd E1 E2. split_and!; [by apply all_inv_store| | |by apply linked_store|done].
  - eapply (free_inv_frame "-"); [exact Hf|frames..].
  - eapply (self_inv_frame "-"); [exact Hs|frames..].
Qed.

(** The tail of [user_block_merge]: the sizes are added and the second block
    leaves the tree and the heap. *)
Lemma wp_absorb s B1 e1 e2 B2 F X (Q : umf_result_t * option Z -> cstate H P -> Prop) :
  heaps_inv s (B1 ++ e1 :: e2 :: B2) F X ->
  b_free_list_ptr (en_block e1) = None -> b_free_list_ptr (en_block e2) = None ->
  is_u64 (b_size (en_block e1) + b_size (en_block e2)) ->
  (forall s' B2', heaps_inv s' (B1 ++ merged e1 e2 :: B2') F (en_ptr e1 :: X) ->
     same_pb B2 B2' -> same_ctl s s' -> Q (UMF_RESULT_SUCCESS, Some (en_node e1)) s') ->
  wp (b2 ← load_block (en_ptr e2);
      store_block (en_ptr e1) (fun b => with_b_size (add64 (b_size b) (b_size b2)) b);;
      block_rm ← coarse_ravl_rm (b_data b2);
      c_assert (bool_decide (block_rm = Some (en_ptr e2)));;
      free_block_struct (en_ptr e2);;
      mret (UMF_RESULT_SUCCESS, Some (en_node e1))) Q s.
Proof.
  intros Hinv E1 E2 Hsz HQ. pose proof (heaps_inv_in _ _ _ _ _ _ Hinv) as Hb1.
  assert (heaps_inv s ((B1 ++ [e1]) ++ e2 :: B2) F X) as Hinv2 by (by rewrite <- app_assoc).
  pose proof (heaps_inv_in _ _ _ _ _ _ Hinv2) as Hb2.
  apply wp_bind. eapply wp_load_block; [done|]. apply wp_bind. eapply wp_store_block; [done|].
  set (g := fun b => with_b_size (add64 (b_size b) (b_size (en_block e2))) b).
  assert (upd_block g e1 = merged e1 e2) as Eg.
  { unfold upd_block, merged, merged_block, g, with_b_size. rewrite add64_small by done.
    f_equal. f_equal. done. }
  pose proof (heaps_inv_store s B1 e1 _ F X g Hinv eq_refl E1 E1) as Hinv3.
  change (with_b_size (add64 (b_size (en_block e1)) (b_size (en_block e2))) (en_block e1))
    with (g (en_block e1)).
  rewrite Eg in Hinv3. set (s1 := set_blocks _ s) in *.
  assert (B1 ++ merged e1 e2 :: e2 :: B2 = (B1 ++ [merged e1 e2]) ++ e2 :: B2) as EB
    by (by rewrite <- app_assoc).
  rewrite EB in Hinv3. pose proof Hinv3 as (Ha & Hf & Hs & Hl & Hne).
  pose proof Ha as (Hr & Ht & _). apply wp_bind. eapply wp_coarse_ravl_rm; [exact Hr|exact Ht|].
  intros t h B2' Hpb Hrep Htag Hself Hk Hsteps. wp_step; [by apply bool_decide_eq_true|].
  pose proof (heaps_inv_in _ _ _ _ _ _ Hinv3) as Hb3.
  assert (ba_live (c_host s1) !! en_ptr e2 = Some tag_block) as Hlive.
  { destruct Ha as (_ & _ & Ho & _). apply Ho. by eexists. }
  assert (keeps_but tag_block h (umf_ba_global_free (en_ptr e2) h)) as Hkf
    by (apply keeps_free; by apply Hk).
  apply wp_bind. eapply wp_free_block_struct; [exact Hb3|]. apply wp_ret. eapply HQ; [|exact Hpb|].
  - change (B1 ++ merged e1 e2 :: B2') with (B1 ++ [merged e1 e2] ++ B2'). rewrite app_assoc.
    split_and!.
    + exact (all_inv_del s1 (B1 ++ [merged e1 e2]) e2 B2 B2' t h Ha Hpb Hrep Htag Hk).
    + eapply (free_inv_frame tag_block (set_chost h (set_all_blocks t s1)));
        [eapply (free_inv_frame tag_all s1); [exact Hf|frames..]|frames..].
    + eapply (self_inv_frame tag_block (set_chost h (set_all_blocks t s1)));
        [eapply (self_inv_frame tag_all s1); [exact Hs|frames..]|frames..].
    + eapply linked_same_pb; [by apply Forall2_app; [apply same_pb_refl|exact Hpb]|].
      eapply linked_del; [exact Hl|exact E2].
    + done.
  - unfold same_ctl. simpl. split_and!; try done.
    eapply host_steps_trans; [exact Hsteps|apply host_steps_free].
Qed.

Lemma merged_ptr s B1 e1 e2 B2 B2' e :
  all_inv s (B1 ++ e1 :: e2 :: B2) -> same_pb B2 B2' -> e ∈ B1 ++ merged e1 e2 :: B2' ->
  en_ptr e <> en_ptr e2.
Proof.
  intros Ha Hpb Hen. assert (all_inv s ((B1 ++ [e1]) ++ e2 :: B2)) as Ha2 by (by rewrite <- app_assoc).
  assert (exists e', e' ∈ (B1 ++ [e1]) ++ B2 /\ en_ptr e' = en_ptr e) as (e' & He' & <-).
  { rewrite elem_of_app, elem_of_cons in Hen. setoid_rewrite elem_of_app.
    setoid_rewrite elem_of_app. setoid_rewrite list_elem_of_singleton.
    destruct Hen as [?|[->|Hen]]; [by eauto|by eauto|].
    destruct (same_pb_in _ _ _ Hpb Hen) as (e' & He' & E & _). eauto. }
  exact (all_inv_ptr _ _ _ _ _ Ha2 He').
Qed.

Lemma wp_user_block_merge s B1 e1 e2 B2 F X used merge
    (Q : umf_result_t * option Z -> cstate H P -> Prop) :
  heaps_inv s (B1 ++ e1 :: e2 :: B2) F X ->
  layout (en_block <$> B1 ++ e1 :: e2 :: B2) ->
  cb_merge (c_cb (co s)) = Some merge ->
  let b1 := en_block e1 in let b2 := en_block e2 in
  (mergeable used b1 b2 = false -> Q (UMF_RESULT_ERROR_INVALID_ARGUMENT, None) s) ->
  (forall r p, mergeable used b1 b2 = true ->
     merge (b_data b1) (b_data b2) (b_size b1 + b_size b2) (provider s) = (r, p) ->
     r <> UMF_RESULT_SUCCESS -> Q (r, None) (set_provider p s)) ->
  (forall p s' F' B2', mergeable used b1 b2 = true ->
     merge (b_data b1) (b_data b2) (b_size b1 + b_size b2) (provider s) =
       (UMF_RESULT_SUCCESS, p) ->
     heaps_inv s' (B1 ++ merged e1 e2 :: B2') F' (en_ptr e1 :: X) -> same_pb B2 B2' ->
     same_ctl (set_provider p s) s' -> Q (UMF_RESULT_SUCCESS, Some (en_node e1)) s') ->
  wp (user_block_merge (en_node e1) (en_node e2) used) Q s.
Proof.
  intros Hinv Hlay Hm b1 b2 HQ1 HQ2 HQ3.
  assert (heaps_inv s ((B1 ++ [e1]) ++ e2 :: B2) F X) as Hinv2 by (by rewrite <- app_assoc).
  pose proof (heaps_inv_in _ _ _ _ _ _ Hinv) as Hb1.
  pose proof (heaps_inv_in _ _ _ _ _ _ Hinv2) as Hb2.
  pose proof Hinv as (Ha & _). pose proof Hinv2 as (Ha2 & _).
  rewrite fmap_app, !fmap_cons in Hlay. pose proof (layout_app_inv _ _ _ _ Hlay) as (O1 & O2 & O3 & O4).
  unfold block_ok, before in *. fold b1 b2 in O1, O2, O3, O4.
  unfold user_block_merge.
  apply wp_bind. eapply wp_prev; [exact Ha2|]. rewrite last_snoc. wp_step; [by apply bool_decide_eq_true|].
  apply wp_bind. eapply wp_next; [exact Ha|]. wp_step; [by apply bool_decide_eq_true|].
  apply wp_bind. eapply wp_get_node_block; [exact Ha|].
  apply wp_bind. eapply wp_get_node_block; [exact Ha2|].
  apply wp_bind. eapply wp_load_block; [done|]. apply wp_bind. eapply wp_load_block; [done|].
  fold b1 b2. wp_step; [by apply Z.ltb_lt|].
  rewrite !add64_small by (unfold is_u64; lia).
  assert (negb (eqb (b_used b1) used && eqb (b_used b2) used) ||
    negb (b_data b1 + b_size b1 =? b_data b2) = negb (mergeable used b1 b2)) as ->
    by (unfold mergeable; by destruct (eqb (b_used b1) used), (eqb (b_used b2) used), (_ =? _)).
  destruct (mergeable used b1 b2) eqn:Em; simpl; [|by apply wp_ret, HQ1].
  apply wp_bind. eapply wp_call_merge; [exact Hm|]. intros r p Er.
  case_bool_decide as Hr; simpl; [|by apply wp_ret, HQ2]. subst r.
  apply (heaps_inv_provider _ _ _ _ p) in Hinv.
  apply wp_bind. eapply wp_unlist_block; [exact Hinv|]. intros s1 F1 Hinv1 Hc1.
  change (B1 ++ ?x :: e2 :: B2) with (B1 ++ [x] ++ e2 :: B2) in Hinv1. rewrite app_assoc in Hinv1.
  apply wp_bind. eapply wp_unlist_block; [exact Hinv1|]. intros s2 F2 Hinv3 Hc2.
  rewrite <- app_assoc in Hinv3. simpl in Hinv3.
  eapply (wp_absorb s2 B1 (upd_block (with_b_free_list_ptr None) e1)
    (upd_block (with_b_free_list_ptr None) e2) B2); [exact Hinv3|done|done| |].
  { unfold is_u64. simpl. fold b1 b2. lia. }
  intros s3 B2' Hinv4 Hpb Hc3. apply mergeable_true in Em as Em'. destruct Em' as (_ & _ & Em').
  eapply (HQ3 p s3 F2 B2'); [done|done| |done|].
  - destruct Hinv4 as (A1 & A2 & A3 & A4 & A5). split_and!; try done.
    eapply linked_unneeded; [exact A4|]. intros en Hen _. simpl. rewrite !elem_of_cons.
    pose proof (merged_ptr _ _ _ _ _ _ _ Ha Hpb Hen). tauto.
  - eapply same_ctl_trans; [exact Hc1|]. by eapply same_ctl_trans.
Qed.
End Merge.

(** A loop invariant for [ravl_foreach] with a stateful callback. *)
Lemma cb_fold_inv {A B S} (cb : A -> B -> M S B) (I : list A -> B -> S -> Prop) L arg s :
  I [] arg s ->
  (forall L1 d L2 b s, L = L1 ++ d :: L2 -> I L1 b s -> wp (cb d b) (I (L1 ++ [d])) s) ->
  exists b' s', cb_fold (Some (fun d (bs : B * S) => cb d bs.1 bs.2)) L (arg, s) = Some (b', s') /\
    I L b' s'.
Proof.
  intros H0 Hstep.
  assert (forall L2 L1 b s, L = L1 ++ L2 -> I L1 b s ->
    exists b' s', cb_fold (Some (fun d (bs : B * S) => cb d bs.1 bs.2)) L2 (b, s) = Some (b', s') /\
      I L b' s') as Hgen; [|by apply (Hgen L [])].
  induction L2 as [|d L2 IH]; intros L1 b s' E HI.
  - rewrite app_nil_r in E. subst. by exists b, s'.
  - specialize (Hstep L1 d L2 b s' E HI). apply wp_run in Hstep as (b1 & s1 & E1 & HI1).
    simpl. rewrite E1. apply (IH (L1 ++ [d])); [by rewrite <- app_assoc|done].
Qed.

Section Check.
Context {H P : Type} `{HostAllocLaws H}.
Implicit Types (s : cstate H P) (B : list entry) (F : list fentry).

Lemma wp_foreach_in {A} t (cb : ravl_data_t -> A -> M (cstate H P) A) arg s L
    (I : list ravl_data_t -> A -> cstate H P -> Prop) (Q : A -> cstate H P -> Prop) :
  ravl_rep rd_key (mk_rstate (t s) (c_host s)) L ->
  I [] arg s ->
  (forall L1 d L2 b s, L.*2 = L1 ++ d :: L2 -> I L1 b s -> wp (cb d b) (I (L1 ++ [d])) s) ->
  (forall b s', I L.*2 b s' -> Q b s') ->
  wp (foreach_in t cb arg) Q s.
Proof.
  intros Hr H0' Hstep HQ.
  destruct (cb_fold_inv cb I L.*2 arg s H0' Hstep) as (b & s' & E & HI).
  pose proof (wp_foreach rd_key _ _ _ _ _ (fun bs _ => Q bs.1 bs.2) Hr E (HQ _ _ HI)) as Hw.
  apply wp_run in Hw as ([b1 s1] & rs & E1 & HQ1). unfold foreach_in, wp. by rewrite E1.
Qed.

Lemma wp_count_free fuel s prev l num (Q : Z -> cstate H P -> Prop) :
  dll (elems s) prev l None -> (length l <= fuel)%nat ->
  is_u64 num -> is_u64 (num + Z.of_nat (length l)) ->
  Q (num + Z.of_nat (length l)) s -> wp (count_free_loop fuel (hd_or l None) num) Q s.
Proof.
  revert fuel prev num. induction l as [|[e b] l IH]; intros fuel prev num Hd Hf Hn Hn' HQ.
  - simpl in HQ. rewrite Z.add_0_r in HQ. destruct fuel; by apply wp_ret.
  - destruct Hd as [He Hd]. destruct fuel as [|fuel]; simpl in *; [lia|].
    apply wp_bind. eapply wp_load_elem; [done|]. simpl. unfold is_u64 in *.
    rewrite add64_small by (unfold is_u64; lia).
    apply (IH fuel (Some e)); auto; unfold is_u64; try lia.
    replace (num + 1 + Z.of_nat (length l)) with (num + Z.of_nat (S (length l))) by lia. done.
Qed.

(** The blocks on the free lists are the unused ones. *)
Definition unused (B : list entry) : list entry := filter (fun e => b_used (en_block e) = false) B.

Lemma nodup_ptrs s B : all_inv s B -> NoDup (en_ptr <$> B).
Proof.
  intros Ha. assert (forall B1 B2, B = B1 ++ B2 -> NoDup (en_ptr <$> B2)) as Hg; [|by apply (Hg [])].
  intros B1 B2. revert B1. induction B2 as [|e B2 IH]; intros B1 EB; [constructor|].
  rewrite fmap_cons. apply list.NoDup_cons. split.
  - intros Hin. apply list_elem_of_fmap in Hin as (e' & E & He'). rewrite EB in Ha.
    eapply all_inv_ptr; [exact Ha| |symmetry; exact E]. rewrite elem_of_app. auto.
  - apply (IH (B1 ++ [e])). by rewrite <- app_assoc.
Qed.

Definition fpairs F : list (Z * Z) := F ≫= f_elems.

Lemma felems_fpairs F : felems F = (fpairs F).*1.
Proof. unfold felems, fpairs. induction F as [|f F IH]; csimpl; [done|]. by rewrite fmap_app, IH. Qed.

Lemma in_fpairs F e p : (e, p) ∈ fpairs F <-> exists f, f ∈ F /\ (e, p) ∈ f_elems f.
Proof. unfold fpairs. rewrite list_elem_of_bind. split; intros (f & ? & ?); eauto. Qed.

Lemma same_block s B e1 e2 :
  all_inv s B -> e1 ∈ B -> e2 ∈ B -> en_ptr e1 = en_ptr e2 -> en_block e1 = en_block e2.
Proof.
  intros Ha He1 He2 Ep. pose proof (all_inv_block _ _ _ Ha He1) as E1.
  pose proof (all_inv_block _ _ _ Ha He2) as E2. rewrite Ep in E1. congruence.
Qed.

Lemma nodup_unused s B : all_inv s B -> NoDup (en_ptr <$> unused B).
Proof.
  intros Ha. pose proof (nodup_ptrs _ _ Ha) as Hp. unfold unused.
  eapply sublist_NoDup; [exact Hp|]. apply fmap_sublist, sublist_filter.
Qed.

Lemma listed_unused s B F X :
  all_inv s B -> free_inv s F -> linked B F X ->
  NoDup (fpairs F).*2 /\ forall p, p ∈ (fpairs F).*2 -> p ∈ en_ptr <$> unused B.
Proof.
  intros Ha (_ & _ & _ & _ & _ & _ & _ & Hnd & _) (L1 & L2 & L3). rewrite felems_fpairs in Hnd.
  split.
  - apply NoDup_fmap_1 in Hnd. apply NoDup_fmap_2_strong; [|done].
    intros [e1 p1] [e2 p2] H1' H2' E. simpl in E. subst p2. f_equal.
    apply in_fpairs in H1' as (f1 & Hf1 & Hx1). apply in_fpairs in H2' as (f2 & Hf2 & Hx2).
    destruct (L1 _ _ _ Hf1 Hx1) as (en1 & Hen1 & Ep1 & _ & Ee1 & _).
    destruct (L1 _ _ _ Hf2 Hx2) as (en2 & Hen2 & Ep2 & _ & Ee2 & _).
    pose proof (same_block _ _ _ _ Ha Hen1 Hen2 ltac:(congruence)). congruence.
  - intros p Hin. apply list_elem_of_fmap in Hin as ([e q] & -> & Hx).
    apply in_fpairs in Hx as (f & Hf & Hx).
    destruct (L1 _ _ _ Hf Hx) as (en & Hen & Ep & _ & _ & Eu). simpl. rewrite <- Ep.
    apply list_elem_of_fmap_2. unfold unused. by apply list_elem_of_filter.
Qed.

Lemma count_listed s B F X :
  all_inv s B -> free_inv s F -> linked B F X -> (length (felems F) <= length (unused B))%nat.
Proof.
  intros Ha Hf Hl. destruct (listed_unused _ _ _ _ Ha Hf Hl) as [Hnd Hin].
  rewrite felems_fpairs, length_fmap, <- (length_fmap snd), <- (length_fmap en_ptr).
  by apply submseteq_length, NoDup_submseteq.
Qed.

Lemma count_free_blocks s B F :
  all_inv s B -> free_inv s F -> linked B F [] -> length (felems F) = length (unused B).
Proof.
  intros Ha Hf Hl. destruct (listed_unused _ _ _ _ Ha Hf Hl) as [Hnd Hin].
  rewrite felems_fpairs, length_fmap, <- (length_fmap snd), <- (length_fmap en_ptr).
  apply Permutation_length, NoDup_Permutation; [done|by eapply nodup_unused|].
  intros p. split; [apply Hin|]. intros Hp. apply list_elem_of_fmap in Hp as (x & -> & Hx).
  destruct Hl as (_ & L2 & L3).
  unfold unused in Hx. apply list_elem_of_filter in Hx as [Eu Hx].
  specialize (L3 x Hx Eu (not_elem_of_nil _)).
  destruct (b_free_list_ptr (en_block x)) as [e|] eqn:Ee; [|done].
  destruct (L2 _ _ Hx Ee) as (f & Hf' & Hin'). apply list_elem_of_fmap.
  exists (e, en_ptr x). split; [done|]. apply in_fpairs. eauto.
Qed.

Lemma length_bound B : layout (view B) -> Z.of_nat (length B) < two64.
Proof.
  intros Hlay. pose proof (sum_of_u64 _ (fun _ => true) Hlay). destruct Hlay as [Hok _].
  pose proof (sum_of_length _ Hok) as Hlen. unfold view in Hlen at 1. rewrite length_fmap in Hlen. lia.
Qed.

Lemma length_unused B : (length (unused B) <= length B)%nat.
Proof. apply length_filter. Qed.

Lemma wp_cb_count_free s F1 f F2 n (Q : Z -> cstate H P -> Prop) :
  free_inv s (F1 ++ f :: F2) -> f_elems f <> [] ->
  is_u64 n -> is_u64 (n + Z.of_nat (length (f_elems f))) ->
  Q (n + Z.of_nat (length (f_elems f))) s ->
  wp (ravl_cb_count_free (mk_rd (f_size f) (Some (f_head f))) n) Q s.
Proof.
  intros Hf Hne Hn Hn' HQ.
  assert (f ∈ F1 ++ f :: F2) as Hin by (rewrite elem_of_app, elem_of_cons; auto).
  pose proof (free_inv_head _ _ _ Hf Hin) as Hh. pose proof (free_inv_dll _ _ _ Hf Hin) as Hd.
  destruct (free_inv_nodup _ _ _ _ Hf) as (Hnd & _).
  assert (length (f_elems f) <= size (elems s))%nat as Hlen.
  { rewrite <- (length_fmap fst). apply heap_bound; [done|]. intros a Hx.
    apply list_elem_of_fmap in Hx as ([e b] & -> & Hx).
    destruct (dll_lookup _ _ _ _ _ _ Hd Hx) as (? & ? & E). by eexists. }
  unfold ravl_cb_count_free. simpl. wp_step. apply wp_bind. eapply wp_load_head; [done|]. simpl.
  destruct (f_elems f) as [|[e b] l]; [done|]. simpl. wp_step. wp_step.
  change (Some e) with (hd_or ((e, b) :: l) None).
  eapply wp_count_free; [exact Hd|simpl in *; lia|done|done|done].
Qed.

Lemma wp_get_stats s B F X (Q : coarse_stats_t -> cstate H P -> Prop) :
  heaps_inv s B F X -> layout (view B) ->
  Q (mk_stats (alloc_size (co s)) (used_size (co s))
       (Z.of_nat (length B)) (Z.of_nat (length (felems F)))) s ->
  wp coarse_get_stats_no_lock Q s.
Proof.
  intros (Ha & Hf & _ & Hl & Hne) Hlay HQ. unfold coarse_get_stats_no_lock.
  pose proof (length_bound _ Hlay) as HlenB.
  apply wp_bind. eapply (wp_foreach_in _ _ _ _ _
    (fun L n s' => n = Z.of_nat (length L) /\ s' = s)); [apply Ha|done| |].
  { intros L1 d L2 b s' EL [-> ->]. unfold ravl_cb_count. apply wp_ret.
    rewrite length_app. simpl. split; [|done]. apply (f_equal length) in EL.
    rewrite !length_fmap, length_app in EL. simpl in EL.
    rewrite add64_small; [lia|]. unfold is_u64. lia. }
  intros n s' [-> ->]. rewrite !length_fmap.
  pose proof (count_listed _ _ _ _ Ha Hf Hl) as Hle. pose proof (length_unused B).
  apply wp_bind. eapply (wp_foreach_in _ _ _ _ _
    (fun L n s' => n = Z.of_nat (length (felems (take (length L) F))) /\ s' = s));
    [apply Hf|done| |].
  { intros L1 d L2 b s' EL [-> ->]. apply fmap_app_inv in EL as (M1 & M2 & -> & EM & EL).
    destruct M2 as [|m M2]; [done|]. rewrite fmap_cons in EM. injection EM as -> ->.
    apply fmap_app_inv in EL as (F1 & F2 & -> & EF & ->).
    destruct F2 as [|f F2]; [done|]. rewrite fmap_cons in EF. injection EF as -> ->.
    rewrite length_app, !length_fmap. simpl length. rewrite take_app_length.
    replace (length F1 + 1)%nat with (length (F1 ++ [f])) by (rewrite length_app; done).
    change (F1 ++ f :: F2) with (F1 ++ [f] ++ F2). rewrite app_assoc, take_app_length.
    rewrite Forall_app, Forall_cons in Hne. destruct Hne as (_ & Hne & _).
    rewrite felems_app in Hle.
    change (felems (f :: F2)) with ((f_elems f).*1 ++ felems F2) in Hle.
    rewrite !length_app, length_fmap in Hle.
    eapply wp_cb_count_free; [exact Hf|done|unfold is_u64; lia|unfold is_u64; lia|].
    split; [|done]. rewrite felems_app. change (felems [f]) with ((f_elems f).*1 ++ []).
    rewrite app_nil_r, length_app, length_fmap. lia. }
  intros n s' [-> ->]. rewrite !length_fmap, firstn_all. wp_step. apply wp_ret. exact HQ.
Qed.

Lemma wp_block_next s B1 e B2 (Q : option Z -> cstate H P -> Prop) :
  all_inv s (B1 ++ e :: B2) -> Q (en_ptr <$> head B2) s -> wp (get_block_next (en_node e)) Q s.
Proof.
  intros Ha HQ. unfold get_block_next. apply wp_bind. eapply wp_next; [exact Ha|].
  destruct B2 as [|e2 B2]; simpl; [by apply wp_ret|].
  apply wp_bind. eapply (wp_get_node_block _ (B1 ++ [e]) e2 B2); [by rewrite <- app_assoc|].
  by apply wp_ret.
Qed.

Lemma wp_block_prev s B1 e B2 (Q : option Z -> cstate H P -> Prop) :
  all_inv s (B1 ++ e :: B2) -> Q (en_ptr <$> last B1) s -> wp (get_block_prev (en_node e)) Q s.
Proof.
  intros Ha HQ. unfold get_block_prev. apply wp_bind. eapply wp_prev; [exact Ha|].
  destruct (last B1) as [e1|] eqn:El; simpl; [|by apply wp_ret].
  apply last_Some in El as [B1' ->]. rewrite <- app_assoc in Ha.
  apply wp_bind. eapply wp_get_node_block; [exact Ha|]. by apply wp_ret.
Qed.

Definition dbg_of B : debug_cb_args_t :=
  mk_dbg (sum_of b_used (view B)) (sum_of (fun _ => true) (view B))
    (Z.of_nat (length B)) (Z.of_nat (length (unused B))).

Lemma dbg_of_snoc B e : dbg_of (B ++ [e]) =
  mk_dbg (if b_used (en_block e) then sum_used (dbg_of B) + b_size (en_block e)
          else sum_used (dbg_of B))
    (sum_blocks_size (dbg_of B) + b_size (en_block e))
    (num_all_blocks (dbg_of B) + 1)
    (if b_used (en_block e) then num_free_blocks (dbg_of B)
     else num_free_blocks (dbg_of B) + 1).
Proof.
  unfold dbg_of. simpl. rewrite view_app, !sum_of_app, length_app. unfold unused.
  rewrite filter_app, length_app. simpl. rewrite filter_cons. simpl.
  destruct (b_used (en_block e)); simpl; f_equal; lia.
Qed.

Lemma wp_debug_cb s B1 e B2 (Q : debug_cb_args_t -> cstate H P -> Prop) :
  all_inv s (B1 ++ e :: B2) -> layout (view (B1 ++ e :: B2)) ->
  Q (dbg_of (B1 ++ [e])) s ->
  wp (debug_verify_all_blocks_cb (mk_rd (b_data (en_block e)) (Some (en_ptr e))) (dbg_of B1)) Q s.
Proof.
  intros Ha Hlay HQ. rewrite dbg_of_snoc in HQ. unfold debug_verify_all_blocks_cb. simpl rd_value.
  assert (blocks s !! en_ptr e = Some (en_block e)) as Hb
    by (eapply all_inv_block; [exact Ha|rewrite elem_of_app, elem_of_cons; auto]).
  pose proof (proj1 (layout_view _) Hlay) as Hlay'. rewrite fmap_app, fmap_cons in Hlay'.
  wp_step; [done|]. apply wp_bind. eapply wp_find_all; [apply Ha|]. simpl rd_key.
  rewrite (find_eq_entry _ _ _ _ (proj1 Ha)). wp_step; [done|].
  apply wp_bind. eapply wp_block_next; [exact Ha|]. apply wp_bind. eapply wp_block_prev; [exact Ha|].
  apply wp_bind. eapply wp_load_block; [done|].
  assert (block_ok (en_block e)) as Hok.
  { destruct Hlay' as [Hok _]. rewrite Forall_app, Forall_cons in Hok. tauto. }
  unfold block_ok in Hok. wp_step; [by destruct (Z.eqb_spec (b_data (en_block e)) 0); [lia|]|].
  wp_step; [apply Z.ltb_lt; lia|].
  apply wp_bind. assert (forall Q : unit -> cstate H P -> Prop, Q tt s ->
    wp (match en_ptr <$> last B1 with
        | Some p => bp ← load_block p; c_assert (b_data bp <? b_data (en_block e))
        | None => mret tt end) Q s) as Hprev.
  { intros Q' HQ'. destruct (last B1) as [e1|] eqn:El; simpl; [|by apply wp_ret].
    apply last_Some in El as [B1' ->]. rewrite <- app_assoc in Ha. simpl in Ha.
    apply wp_bind. eapply wp_load_block; [eapply all_inv_block; [exact Ha|]|].
    { rewrite elem_of_app, elem_of_cons. auto. }
    apply wp_c_assert; [|done]. apply Z.ltb_lt. rewrite fmap_app, <- app_assoc in Hlay'.
    simpl in Hlay'. by apply layout_app_inv in Hlay' as (_ & _ & _ & ?). }
  apply Hprev. clear Hprev.
  assert (forall (f : block_t -> bool) (Q : unit -> cstate H P -> Prop),
    (forall e2, head B2 = Some e2 -> f (en_block e2) = true) -> Q tt s ->
    wp (match en_ptr <$> head B2 with
        | Some n => bn ← load_block n; c_assert (f bn)
        | None => mret tt end) Q s) as Hnext.
  { intros f Q' Hf HQ'. destruct B2 as [|e2 B2]; simpl; [by apply wp_ret|].
    apply wp_bind. eapply wp_load_block; [eapply all_inv_block; [exact Ha|]|].
    { rewrite elem_of_app, !elem_of_cons. auto. }
    apply wp_c_assert; [|done]. by apply Hf. }
  assert (forall e2, head B2 = Some e2 -> b_data (en_block e) < b_data (en_block e2) /\
    b_data (en_block e) + b_size (en_block e) <= b_data (en_block e2)) as Hlt.
  { intros e2 Eh. destruct B2 as [|e2' B2]; simplify_eq/=.
    apply layout_app_inv in Hlay' as (_ & _ & Hbef & Hlt). unfold before in Hbef. lia. }
  apply wp_bind. apply (Hnext (fun bn => b_data (en_block e) <? b_data bn)).
  { intros e2 Eh. apply Z.ltb_lt. by apply Hlt. }
  apply wp_bind.
  apply (Hnext (fun bn => add64 (b_data (en_block e)) (b_size (en_block e)) <=? b_data bn)).
  { intros e2 Eh. apply Z.leb_le. rewrite add64_small by (unfold is_u64; lia). by apply Hlt. }
  apply wp_ret. match goal with |- Q ?x _ => match type of HQ with Q ?y _ =>
    replace x with y; [done|] end end.
  assert (layout (view (B1 ++ [e]))) as Hpre.
  { apply (layout_prefix _ (view B2)). by rewrite <- view_app, <- app_assoc. }
  pose proof (sum_of_u64 _ b_used Hpre) as S1. pose proof (sum_of_u64 _ (fun _ => true) Hpre) as S2.
  pose proof (length_bound _ Hpre) as S3. rewrite view_app, sum_of_app in S1, S2.
  rewrite length_app in S3. simpl in S1, S2, S3. pose proof (length_unused B1).
  unfold dbg_of. simpl. destruct (b_used (en_block e)); simpl in S1;
    rewrite !add64_small by (unfold is_u64; lia); done.
Qed.

Lemma wp_debug_check (dev : bool) s B F X (Q : bool -> cstate H P -> Prop) :
  heaps_inv s B F X -> layout (view B) -> (dev = true -> X = []) ->
  used_size (co s) = sum_of b_used (view B) -> alloc_size (co s) = sum_of (fun _ => true) (view B) ->
  Q true s -> wp (debug_check dev) Q s.
Proof.
  intros Hinv Hlay HX Hu Hal HQ. unfold debug_check. destruct dev; [|by apply wp_ret].
  specialize (HX eq_refl). subst X. pose proof Hinv as (Ha & Hf & _ & Hl & _).
  apply wp_bind. eapply wp_get_stats; [exact Hinv|done|].
  apply wp_bind. eapply (wp_foreach_in _ _ _ _ _
    (fun L a s' => a = dbg_of (take (length L) B) /\ s' = s)); [apply Ha|done| |].
  { intros L1 d L2 b s' EL [-> ->]. apply fmap_app_inv in EL as (M1 & M2 & -> & EM & EL).
    destruct M2 as [|m M2]; [done|]. rewrite fmap_cons in EM. injection EM as -> ->.
    apply fmap_app_inv in EL as (B1 & B2 & -> & EB & ->).
    destruct B2 as [|e B2]; [done|]. rewrite fmap_cons in EB. injection EB as -> ->.
    rewrite length_app, !length_fmap. simpl length. rewrite take_app_length.
    replace (length B1 + 1)%nat with (length (B1 ++ [e])) by (rewrite length_app; done).
    eapply wp_debug_cb; [exact Ha|done|]. split; [|done].
    change (B1 ++ e :: B2) with (B1 ++ [e] ++ B2). by rewrite app_assoc, take_app_length. }
  intros a s' [-> ->]. rewrite !length_fmap, firstn_all. wp_step. simpl.
  pose proof (count_free_blocks _ _ _ Ha Hf Hl) as Hc. rewrite Hu, Hal.
  wp_step; [apply Z.eqb_refl|]. wp_step; [by rewrite Hc; apply Z.eqb_refl|].
  wp_step; [apply Z.eqb_refl|]. wp_step; [apply Z.eqb_refl|].
  wp_step; [|by apply wp_ret]. apply Z.leb_le. apply sum_of_le; [by destruct Hlay|done].
Qed.
End Check.
