(* ===== verification/CoarseApi.v ===== *)
(** * The public functions of the coarse allocator

    [coarse_inv] is the invariant between calls.  Freeing, splitting, merging
    and adding memory are described as functions on the list of blocks
    ([coalesce] is what freeing does to the neighbours); allocation as the cut
    of one best fitting free block.  [Reliable T ok] says which host
    allocations are assumed to succeed. *)

From S2P Require Import Prelude Utils HostMem Ravl RavlSpec RavlRemove Coarse.
From S2P Require Import CoarseInv CoarseFree CoarseLists CoarseMerge.
From stdpp Require Import strings sorting.
#[local] Open Scope Z_scope.

(** ** What freeing does to the list of blocks *)

Section Coalesce.
Context {P : Type}.
Variable merge : Z -> Z -> Z -> P -> umf_result_t * P.

Definition absorb_prev (V1 : list block_t) (x : block_t) (p : P) : list block_t * block_t * P :=
  match last V1 with
  | Some y =>
      if mergeable false y x then
        match merge (b_data y) (b_data x) (b_size y + b_size x) p with
        | (UMF_RESULT_SUCCESS, p') => (removelast V1, merged_block y x, p')
        | (_, p') => (V1, x, p')
        end
      else (V1, x, p)
  | None => (V1, x, p)
  end.

Definition absorb_next (x : block_t) (V2 : list block_t) (p : P) : block_t * list block_t * P :=
  match V2 with
  | y :: V2' =>
      if mergeable false x y then
        match merge (b_data x) (b_data y) (b_size x + b_size y) p with
        | (UMF_RESULT_SUCCESS, p') => (merged_block x y, V2', p')
        | (_, p') => (x, V2, p')
        end
      else (x, V2, p)
  | [] => (x, V2, p)
  end.

(** The free block [x] between [V1] and [V2] joins its free neighbours, as far
    as the provider agrees. *)
Definition coalesce (V1 : list block_t) (x : block_t) (V2 : list block_t) (p : P)
  : list block_t * P :=
  let '(V1', x', p1) := absorb_prev V1 x p in
  let '(x'', V2', p2) := absorb_next x' V2 p1 in
  (V1' ++ x'' :: V2', p2).
End Coalesce.

Section CoalesceFacts.
Context {P : Type}.
Variable merge : Z -> Z -> Z -> P -> umf_result_t * P.

Lemma absorb_prev_sum V1 x p :
  b_used x = false ->
  let '(V1', x', _) := absorb_prev merge V1 x p in
  b_used x' = false /\ sum_of b_used V1' = sum_of b_used V1 /\
  sum_of (fun _ => true) V1' + b_size x' = sum_of (fun _ => true) V1 + b_size x.
Proof.
  intros Hx. unfold absorb_prev. destruct (last V1) as [y|] eqn:El; [|done].
  apply last_Some in El as [V0 ->]. destruct (mergeable false y x) eqn:Em; [|done].
  apply mergeable_true in Em as (Ey & _ & _). destruct (merge _ _ _ p) as [[] p']; try done.
  rewrite removelast_last, !sum_of_app. simpl. rewrite Ey. split_and!; [done|lia|lia].
Qed.

Lemma absorb_next_sum x V2 p :
  b_used x = false ->
  let '(x', V2', _) := absorb_next merge x V2 p in
  b_used x' = false /\ sum_of b_used V2' = sum_of b_used V2 /\
  b_size x' + sum_of (fun _ => true) V2' = b_size x + sum_of (fun _ => true) V2.
Proof.
  intros Hx. unfold absorb_next. destruct V2 as [|y V2]; [done|].
  destruct (mergeable false x y) eqn:Em; [|done].
  apply mergeable_true in Em as (_ & Ey & _). destruct (merge _ _ _ p) as [[] p']; try done.
  simpl. rewrite Ey. split_and!; [done|lia|lia].
Qed.

(** Coalescing moves no memory between used and free. *)
Lemma coalesce_sum V1 x V2 p V' p' :
  coalesce merge V1 x V2 p = (V', p') -> b_used x = false ->
  sum_of b_used V' = sum_of b_used (V1 ++ x :: V2) /\
  sum_of (fun _ => true) V' = sum_of (fun _ => true) (V1 ++ x :: V2).
Proof.
  unfold coalesce. intros E Hx. pose proof (absorb_prev_sum V1 x p Hx) as Hp.
  destruct (absorb_prev merge V1 x p) as [[V1' x'] p1]. destruct Hp as (Hx' & Hp1 & Hp2).
  pose proof (absorb_next_sum x' V2 p1 Hx') as Hn.
  destruct (absorb_next merge x' V2 p1) as [[x'' V2'] p2]. destruct Hn as (Hx'' & Hn1 & Hn2).
  simplify_eq. rewrite !sum_of_app. simpl. rewrite Hx, Hx''. lia.
Qed.
End CoalesceFacts.

Lemma mergeable_clean used b c : mergeable used (clean b) (clean c) = mergeable used b c.
Proof. done. Qed.
Lemma merged_clean b c : merged_block (clean b) (clean c) = merged_block b c.
Proof. done. Qed.
Lemma clean_id b : b_free_list_ptr b = None -> clean b = b.
Proof. destruct b as [sz d u fl]. simpl. by intros ->. Qed.
Lemma view_snoc_inv B e : view (B ++ [e]) = view B ++ [clean (en_block e)].
Proof. by rewrite view_app. Qed.

Section Wrappers.
Context {H P : Type} `{HostAllocLaws H}.
Implicit Types (s : cstate H P) (B : list entry) (F : list fentry).

(** Everything but the provider's state. *)
Definition same_but_provider s s' : Prop := same_ctl (set_provider (provider s') s) s'.

Lemma sbp_refl s : same_but_provider s s.
Proof. unfold same_but_provider, same_ctl. simpl. split_and!; auto with umf. Qed.
Lemma sbp_trans s1 s2 s3 :
  same_but_provider s1 s2 -> same_but_provider s2 s3 -> same_but_provider s1 s3.
Proof.
  unfold same_but_provider, same_ctl. simpl. intros Hx Hy. destruct_and!.
  split_and!; try congruence. by eapply host_steps_trans.
Qed.
Lemma sbp_provider s p : same_but_provider s (set_provider p s).
Proof. unfold same_but_provider, same_ctl. simpl. split_and!; auto with umf. Qed.
Lemma sbp_ctl s s' : same_ctl s s' -> same_but_provider s s'.
Proof.
  unfold same_but_provider, same_ctl. simpl. intros Hx. destruct_and!. by split_and!.
Qed.
Lemma sbp_provider_ctl s p s' : same_ctl (set_provider p s) s' -> same_but_provider s s'.
Proof. intros Hc. eapply sbp_trans; [apply (sbp_provider s p)|by apply sbp_ctl]. Qed.

Variable merge : Z -> Z -> Z -> P -> umf_result_t * P.

Lemma layout_merged B1 e1 e2 B2 B2' :
  layout (view (B1 ++ e1 :: e2 :: B2)) -> same_pb B2 B2' ->
  b_data (en_block e1) + b_size (en_block e1) = b_data (en_block e2) ->
  layout (view (B1 ++ merged e1 e2 :: B2')).
Proof.
  intros Hlay Hpb Eadj. rewrite view_app in Hlay |- *.
  change (view (merged e1 e2 :: B2')) with (merged_block (en_block e1) (en_block e2) :: view B2').
  rewrite (view_same_pb _ _ Hpb). rewrite <- merged_clean. by apply layout_merge.
Qed.

(** An unlisted free block joins the block before it. *)
Lemma wp_merge_prev s B1 en B2 F X (Q : Z -> cstate H P -> Prop) :
  heaps_inv s (B1 ++ en :: B2) F (en_ptr en :: X) -> layout (view (B1 ++ en :: B2)) ->
  cb_merge (c_cb (co s)) = Some merge ->
  b_free_list_ptr (en_block en) = None -> b_used (en_block en) = false ->
  (forall s' F' B1' en' B2', heaps_inv s' (B1' ++ en' :: B2') F' (en_ptr en' :: X) ->
     absorb_prev merge (view B1) (en_block en) (provider s) =
       (view B1', en_block en', provider s') ->
     view B2' = view B2 -> same_but_provider s s' ->
     b_free_list_ptr (en_block en') = None -> b_used (en_block en') = false ->
     layout (view (B1' ++ en' :: B2')) -> Q (en_node en') s') ->
  wp (free_block_merge_with_prev (en_node en)) Q s.
Proof.
  intros Hinv Hlay Hm Hn Hu HQ. pose proof Hinv as (Ha & _).
  unfold free_block_merge_with_prev. apply wp_bind. eapply wp_prev; [exact Ha|].
  destruct (last B1) as [e1|] eqn:El; simpl; cycle 1.
  { apply wp_ret. eapply HQ; [exact Hinv| |done|apply sbp_refl|done|done|done].
    apply last_None in El as ->. done. }
  apply last_Some in El as [B0 ->]. rewrite <- app_assoc in Hinv, Hlay. simpl in Hinv, Hlay.
  unfold absorb_prev in HQ. rewrite view_snoc_inv, last_snoc, removelast_last in HQ.
  rewrite <- (clean_id (en_block en) Hn), mergeable_clean, merged_clean, (clean_id _ Hn) in HQ.
  apply wp_bind. eapply wp_user_block_merge; [exact Hinv|by apply layout_view|exact Hm|..].
  - intros Em. rewrite Em in HQ. simpl. apply wp_ret.
    eapply (HQ s F (B0 ++ [e1]) en B2); rewrite ?view_snoc_inv, <- ?app_assoc;
      auto using sbp_refl.
  - intros r p Em Er Hr. rewrite Em in HQ. simpl in HQ. rewrite Er in HQ.
    rewrite bool_decide_eq_false_2 by done. simpl. apply wp_ret.
    eapply (HQ (set_provider p s) F (B0 ++ [e1]) en B2); rewrite ?view_snoc_inv, <- ?app_assoc;
      auto using sbp_provider, heaps_inv_provider. by destruct r.
  - intros p s' F' B2' Em Er Hinv' Hpb Hc. rewrite Em in HQ. simpl in HQ. rewrite Er in HQ.
    simpl. wp_step. apply mergeable_true in Em as (Eu1 & Eu2 & Eadj).
    eapply (HQ s' F' B0 (merged e1 en) B2').
    + destruct Hinv' as (A1 & A2 & A3 & A4 & A5). split_and!; try done.
      eapply linked_unneeded; [exact A4|]. intros e He _. simpl. rewrite !elem_of_cons.
      pose proof (merged_ptr _ _ _ _ _ _ _ (proj1 Hinv) Hpb He). tauto.
    + destruct Hc as (_ & _ & _ & _ & _ & _ & _ & -> & _). done.
    + by apply view_same_pb.
    + by eapply sbp_provider_ctl.
    + done.
    + done.
    + by eapply layout_merged.
Qed.

(** ... and the block after it. *)
Lemma wp_merge_next s B1 en B2 F X (Q : Z -> cstate H P -> Prop) :
  heaps_inv s (B1 ++ en :: B2) F (en_ptr en :: X) -> layout (view (B1 ++ en :: B2)) ->
  cb_merge (c_cb (co s)) = Some merge ->
  b_free_list_ptr (en_block en) = None -> b_used (en_block en) = false ->
  (forall s' F' en' B2', heaps_inv s' (B1 ++ en' :: B2') F' (en_ptr en' :: X) ->
     absorb_next merge (en_block en) (view B2) (provider s) =
       (en_block en', view B2', provider s') ->
     same_but_provider s s' ->
     b_free_list_ptr (en_block en') = None -> b_used (en_block en') = false ->
     layout (view (B1 ++ en' :: B2')) -> Q (en_node en') s') ->
  wp (free_block_merge_with_next (en_node en)) Q s.
Proof.
  intros Hinv Hlay Hm Hn Hu HQ. pose proof Hinv as (Ha & _).
  unfold free_block_merge_with_next. apply wp_bind. eapply wp_next; [exact Ha|].
  destruct B2 as [|e2 B2]; simpl.
  { apply wp_ret. eapply HQ; [exact Hinv|done|apply sbp_refl|done|done|done]. }
  unfold absorb_next in HQ. change (view (e2 :: B2)) with (clean (en_block e2) :: view B2) in HQ.
  rewrite <- (clean_id (en_block en) Hn), mergeable_clean, merged_clean, (clean_id _ Hn) in HQ.
  apply wp_bind. eapply wp_user_block_merge; [exact Hinv|by apply layout_view|exact Hm|..].
  - intros Em. rewrite Em in HQ. simpl. apply wp_ret.
    eapply (HQ s F en (e2 :: B2)); auto using sbp_refl.
  - intros r p Em Er Hr. rewrite Em in HQ. simpl in HQ. rewrite Er in HQ.
    rewrite bool_decide_eq_false_2 by done. simpl. apply wp_ret.
    eapply (HQ (set_provider p s) F en (e2 :: B2)); auto using sbp_provider, heaps_inv_provider.
    by destruct r.
  - intros p s' F' B2' Em Er Hinv' Hpb Hc. rewrite Em in HQ. simpl in HQ. rewrite Er in HQ.
    simpl. wp_step. apply mergeable_true in Em as (Eu1 & Eu2 & Eadj).
    eapply (HQ s' F' (merged en e2) B2').
    + destruct Hinv' as (A1 & A2 & A3 & A4 & A5). split_and!; try done.
      eapply linked_sub; [|exact A4]. intros q. simpl. rewrite !elem_of_cons. tauto.
    + destruct Hc as (_ & _ & _ & _ & _ & _ & _ & -> & _). by rewrite (view_same_pb _ _ Hpb).
    + by eapply sbp_provider_ctl.
    + done.
    + done.
    + by eapply layout_merged.
Qed.
End Wrappers.

(** ** The invariant between calls *)

Section Api.
Context {H P : Type} `{HostAllocLaws H}.
Context (T : list string) (ok : H -> Prop) `{!Reliable T ok}.
Hypothesis elem_reliable : tag_elem ∈ T.
Variable dev : bool.
Implicit Types (s : cstate H P) (B : list entry) (F : list fentry) (X : list Z).

Definition params_ok s : Prop :=
  (exists k, 0 <= k < 64 /\ page_size (co s) = 2 ^ k) /\
  is_Some (cb_split (c_cb (co s))) /\ is_Some (cb_merge (c_cb (co s))).

(** [X]: unused blocks that are on no free list (an earlier call could not
    allocate a list element for them). *)
Definition coarse_inv s B X : Prop :=
  (exists F, heaps_inv s B F X) /\ layout (view B) /\
  used_size (co s) = sum_of b_used (view B) /\
  alloc_size (co s) = sum_of (fun _ => true) (view B) /\
  ok (c_host s) /\ params_ok s.

(** Developer builds check that no block is lost. *)
Definition ready X : Prop := dev = true -> X = [].

(** What no call changes. *)
Definition same_object s s' : Prop :=
  c_self (co s') = c_self (co s) /\ c_cb (co s') = c_cb (co s) /\
  allocation_strategy (co s') = allocation_strategy (co s) /\
  page_size (co s') = page_size (co s) /\ host_steps (c_host s) (c_host s').

Lemma same_object_refl s : same_object s s.
Proof. unfold same_object. split_and!; auto with umf. Qed.
Lemma same_object_trans s1 s2 s3 : same_object s1 s2 -> same_object s2 s3 -> same_object s1 s3.
Proof.
  unfold same_object. intros Hx Hy. destruct_and!. split_and!; try congruence.
  by eapply host_steps_trans.
Qed.
Lemma sbp_object s s' : same_but_provider s s' -> same_object s s' /\ c_lock (co s') = c_lock (co s).
Proof. unfold same_but_provider, same_ctl, same_object. simpl. tauto. Qed.

Lemma same_object_ok s s' : same_object s s' -> ok (c_host s) -> ok (c_host s').
Proof. intros (_ & _ & _ & _ & Hs) Hok. by eapply (reliable_steps T ok). Qed.
Lemma same_object_params s s' : same_object s s' -> params_ok s -> params_ok s'.
Proof. unfold same_object, params_ok. intros (_ & -> & _ & -> & _). done. Qed.

Lemma wp_assert_debug s B X (Q : unit -> cstate H P -> Prop) :
  coarse_inv s B X -> ready X -> Q tt s -> wp (assert_debug_check dev) Q s.
Proof.
  intros ((F & Hinv) & Hlay & Hu & Ha & _) HX HQ. unfold assert_debug_check. apply wp_bind.
  eapply wp_debug_check; [exact Hinv|done|done|done|done|]. by apply wp_c_assert.
Qed.

Lemma heaps_inv_co s c B F X :
  all_blocks c = all_blocks (co s) -> free_blocks c = free_blocks (co s) ->
  c_self c = c_self (co s) -> heaps_inv s B F X -> heaps_inv (set_co c s) B F X.
Proof. intros E1 E2 E3 Hinv. eapply heaps_inv_frame; [exact Hinv|done..|apply keeps_refl]. Qed.

Lemma view_split B V1 x V2 :
  view B = V1 ++ x :: V2 ->
  exists B1 en B2, B = B1 ++ en :: B2 /\ view B1 = V1 /\ clean (en_block en) = x /\ view B2 = V2.
Proof.
  unfold view. intros E. apply fmap_app_inv in E as (B1 & B2' & -> & E & ->).
  destruct B2' as [|en B2]; [done|]. rewrite fmap_cons in E. injection E as -> ->.
  by exists B1, en, B2.
Qed.

(** The block at [ptr] can be freed with [bytes]. *)
Definition can_free (x : block_t) (ptr bytes : Z) : Prop :=
  b_data x = ptr /\ b_used x = true /\ (bytes = 0 \/ bytes = b_size x).

(** The two merges of a free block with its neighbours. *)
Lemma wp_coalesce {A} (k : Z -> M (cstate H P) A) s B1 en B2 F X merge
    (Q : A -> cstate H P -> Prop) :
  heaps_inv s (B1 ++ en :: B2) F (en_ptr en :: X) -> layout (view (B1 ++ en :: B2)) ->
  cb_merge (c_cb (co s)) = Some merge ->
  b_free_list_ptr (en_block en) = None -> b_used (en_block en) = false ->
  (forall s' F' C1 en' C2, heaps_inv s' (C1 ++ en' :: C2) F' (en_ptr en' :: X) ->
     layout (view (C1 ++ en' :: C2)) -> same_but_provider s s' ->
     b_free_list_ptr (en_block en') = None -> b_used (en_block en') = false ->
     coalesce merge (view B1) (en_block en) (view B2) (provider s) =
       (view (C1 ++ en' :: C2), provider s') ->
     wp (k (en_node en')) Q s') ->
  wp (node ← free_block_merge_with_prev (en_node en);
      node ← free_block_merge_with_next node; k node) Q s.
Proof.
  intros Hinv Hlay Hm Hn Hu HQ.
  apply wp_bind. eapply wp_merge_prev; [exact Hinv|done|exact Hm|done|done|].
  intros s1 F1 B1' en1 B2' Hinv1 Eabs1 EB2 Hsbp1 Hn1 Hu1 Hlay1.
  assert (cb_merge (c_cb (co s1)) = Some merge) as Hm1.
  { destruct (sbp_object _ _ Hsbp1) as [(_ & -> & _) _]. done. }
  apply wp_bind. eapply wp_merge_next; [exact Hinv1|done|exact Hm1|done|done|].
  intros s2 F2 en2 B2'' Hinv2 Eabs2 Hsbp2 Hn2 Hu2 Hlay2. rewrite EB2 in Eabs2.
  eapply HQ; [exact Hinv2|done|by eapply sbp_trans|done|done|].
  unfold coalesce. rewrite Eabs1, Eabs2, view_app.
  change (view (en2 :: B2'')) with (clean (en_block en2) :: view B2''). by rewrite clean_id.
Qed.

Lemma wp_free_tail s B1 en B2 F X merge (Q : umf_result_t -> cstate H P -> Prop) :
  heaps_inv s (B1 ++ en :: B2) F (en_ptr en :: X) -> layout (view (B1 ++ en :: B2)) ->
  cb_merge (c_cb (co s)) = Some merge -> ok (c_host s) -> ready X -> params_ok s ->
  b_free_list_ptr (en_block en) = None -> b_used (en_block en) = false ->
  used_size (co s) = sum_of b_used (view (B1 ++ en :: B2)) ->
  alloc_size (co s) = sum_of (fun _ => true) (view (B1 ++ en :: B2)) ->
  (forall s' B', coarse_inv s' B' X -> same_object s s' -> c_lock (co s') = c_lock (co s) ->
     coalesce merge (view B1) (en_block en) (view B2) (provider s) = (view B', provider s') ->
     Q UMF_RESULT_SUCCESS s') ->
  (forall s' B' p, ~ (tag_head ∈ T /\ tag_free ∈ T) -> coarse_inv s' B' (p :: X) ->
     same_object s s' -> c_lock (co s') = c_lock (co s) ->
     coalesce merge (view B1) (en_block en) (view B2) (provider s) = (view B', provider s') ->
     Q UMF_RESULT_ERROR_OUT_OF_HOST_MEMORY s') ->
  wp (node ← free_block_merge_with_prev (en_node en);
      node ← free_block_merge_with_next node;
      nb ← get_node_block node;
      rv ← free_blocks_add nb;
      if negb (rv =? 0) then mret UMF_RESULT_ERROR_OUT_OF_HOST_MEMORY
      else assert_debug_check dev;; mret UMF_RESULT_SUCCESS) Q s.
Proof.
  intros Hinv Hlay Hm Hok Hready Hpar Hn Hu Hus Hal HQ1 HQ2.
  eapply wp_coalesce; [exact Hinv|done|exact Hm|done|done|].
  intros s2 F2 B1' en2 B2'' Hinv2 Hlay2 Hsbp Hn2 Hu2 Eco.
  destruct (coalesce_sum _ _ _ _ _ _ _ Eco Hu) as [Esum1 Esum2].
  apply wp_bind. eapply wp_get_node_block; [apply Hinv2|].
  destruct (sbp_object _ _ Hsbp) as [Hobj Hlock].
  assert (used_size (co s2) = used_size (co s) /\ alloc_size (co s2) = alloc_size (co s)) as [Us As].
  { unfold same_but_provider, same_ctl in Hsbp. simpl in Hsbp. tauto. }
  assert (view (B1 ++ en :: B2) = view B1 ++ en_block en :: view B2) as Ev.
  { rewrite view_app. change (view (en :: B2)) with (clean (en_block en) :: view B2). by rewrite clean_id. }
  rewrite Ev in Hus, Hal.
  assert (forall s3 B3 X3, same_ctl s2 s3 -> (exists F3, heaps_inv s3 B3 F3 X3) ->
    view B3 = view (B1' ++ en2 :: B2'') ->
    coarse_inv s3 B3 X3 /\ same_object s s3 /\ c_lock (co s3) = c_lock (co s) /\
    provider s3 = provider s2) as Hfin.
  { intros s3 B3 X3 Hc HF3 EV. pose proof (sbp_object _ _ (sbp_ctl _ _ Hc)) as [Hobj3 Hlock3].
    assert (same_object s s3) as Hobj' by (by eapply same_object_trans).
    split_and!; [|done|congruence|apply Hc]. split_and!.
    - done.
    - by rewrite EV.
    - destruct Hc as (_ & _ & _ & _ & _ & -> & _). rewrite EV. congruence.
    - destruct Hc as (_ & _ & _ & _ & _ & _ & -> & _). rewrite EV. congruence.
    - by eapply same_object_ok.
    - by eapply same_object_params. }
  apply wp_bind. eapply (wp_free_blocks_add T ok); [done|exact Hinv2|by eapply same_object_ok|done|done| |].
  - intros s3 F3 e Hinv3 Hc3. simpl.
    destruct (Hfin s3 _ X Hc3 (ex_intro _ F3 Hinv3)) as (Hci & Hobj3 & Hlock3 & Ep); [by rewrite view_upd|].
    apply wp_bind. eapply wp_assert_debug; [exact Hci|done|]. apply wp_ret.
    eapply HQ1; [exact Hci|done|done|]. rewrite Eco, Ep, view_upd by done. done.
  - intros s3 Hno Hinv3 Hc3. simpl.
    destruct (Hfin s3 _ _ Hc3 (ex_intro _ F2 Hinv3) eq_refl) as (Hci & Hobj3 & Hlock3 & Ep).
    apply wp_ret. eapply HQ2; [done|exact Hci|done|done|]. by rewrite Eco, Ep.
Qed.

(** The lookup of a block by its address. *)
Lemma find_by_data B ptr :
  (exists B1 en B2, B = B1 ++ en :: B2 /\ b_data (en_block en) = ptr) \/
  (forall e, e ∈ B -> b_data (en_block e) <> ptr).
Proof.
  destruct (decide (ptr ∈ (fun e => b_data (en_block e)) <$> B)) as [Hin|Hn].
  - left. apply list_elem_of_fmap in Hin as (e & -> & He).
    apply list_elem_of_split in He as (B1 & B2 & ->). eauto.
  - right. intros e He <-. apply Hn. by apply (list_elem_of_fmap_2 (fun e => b_data (en_block e))).
Qed.

Lemma view_data_unique B1 en B2 x :
  layout (view (B1 ++ en :: B2)) -> x ∈ view (B1 ++ en :: B2) -> b_data x = b_data (en_block en) ->
  x = clean (en_block en).
Proof.
  rewrite view_app. change (view (en :: B2)) with (clean (en_block en) :: view B2).
  intros [Hok Hs] Hx E. rewrite Forall_app, Forall_cons in Hok. destruct Hok as (Hok1 & Hen & Hok2).
  rewrite StronglySorted_app, StronglySorted_cons in Hs. destruct Hs as (H12 & _ & Hf & _).
  rewrite elem_of_app, elem_of_cons in Hx. unfold block_ok in *. destruct Hx as [Hx|[->|Hx]]; [|done|].
  - rewrite Forall_forall in Hok1. specialize (Hok1 x Hx).
    specialize (H12 x (clean (en_block en)) Hx ltac:(constructor)). unfold before in H12.
    simpl in *. lia.
  - rewrite Forall_forall in Hf. specialize (Hf x Hx). unfold before in Hf. simpl in *. lia.
Qed.

Lemma sum_used_free V1 x V2 :
  b_used x = true -> sum_of b_used (V1 ++ x :: V2) =
    sum_of b_used (V1 ++ with_b_used false x :: V2) + b_size x.
Proof. intros Hx. rewrite !sum_of_app. simpl. rewrite Hx. lia. Qed.

Lemma used_unlisted B F X en :
  linked B F X -> en ∈ B -> b_used (en_block en) = true ->
  (forall e1 e2, e1 ∈ B -> e2 ∈ B -> en_ptr e1 = en_ptr e2 -> en_block e1 = en_block e2) ->
  b_free_list_ptr (en_block en) = None.
Proof.
  intros (L1 & L2 & _) Hen Hu Huniq. destruct (b_free_list_ptr (en_block en)) as [e|] eqn:E; [|done].
  destruct (L2 _ _ Hen E) as (f & Hf & Hin). destruct (L1 _ _ _ Hf Hin) as (en' & Hen' & Ep & _ & _ & Eu).
  rewrite (Huniq _ _ Hen' Hen Ep) in Eu. congruence.
Qed.

Lemma heaps_used_unlisted s B1 en B2 F X :
  heaps_inv s (B1 ++ en :: B2) F X -> b_used (en_block en) = true ->
  b_free_list_ptr (en_block en) = None.
Proof.
  intros (Ha & _ & _ & Hl & _) Hu. eapply used_unlisted; [exact Hl| |done|].
  - rewrite elem_of_app, elem_of_cons. auto.
  - intros e1 e2. by eapply same_block.
Qed.

Lemma wp_free_locked s B X ptr bytes merge (Q : umf_result_t -> cstate H P -> Prop) :
  coarse_inv s B X -> ready X -> cb_merge (c_cb (co s)) = Some merge -> 0 <= bytes ->
  ((forall x, x ∈ view B -> ~ can_free x ptr bytes) -> Q UMF_RESULT_ERROR_INVALID_ARGUMENT s) ->
  (forall V1 x V2 s' B', view B = V1 ++ x :: V2 -> can_free x ptr bytes ->
     coarse_inv s' B' X -> same_object s s' -> c_lock (co s') = c_lock (co s) ->
     coalesce merge V1 (with_b_used false x) V2 (provider s) = (view B', provider s') ->
     Q UMF_RESULT_SUCCESS s') ->
  (forall V1 x V2 s' B' p, view B = V1 ++ x :: V2 -> can_free x ptr bytes ->
     ~ (tag_head ∈ T /\ tag_free ∈ T) ->
     coarse_inv s' B' (p :: X) -> same_object s s' -> c_lock (co s') = c_lock (co s) ->
     coalesce merge V1 (with_b_used false x) V2 (provider s) = (view B', provider s') ->
     Q UMF_RESULT_ERROR_OUT_OF_HOST_MEMORY s') ->
  wp (free_locked dev ptr bytes) Q s.
Proof.
  intros Hci Hready Hm Hb HQ1 HQ2 HQ3. pose proof Hci as ((F & Hinv) & Hlay & Hus & Hal & Hok & Hpar).
  pose proof Hinv as (Ha & _). unfold free_locked. apply wp_bind.
  destruct (find_by_data B ptr) as [(B1 & en & B2 & -> & <-)|Hn]; cycle 1.
  { eapply wp_find_node_none; [exact Ha|exact Hn|]. apply wp_ret, HQ1. intros x Hx (E & _).
    unfold view in Hx. apply list_elem_of_fmap in Hx as (e & -> & He). by apply (Hn e He). }
  eapply wp_find_node_some; [exact Ha|]. apply wp_bind. eapply wp_get_node_block; [exact Ha|].
  apply wp_bind. eapply wp_load_block; [by eapply heaps_inv_in|].
  assert (~ (b_used (en_block en) = true /\ (bytes = 0 \/ bytes = b_size (en_block en))) ->
    Q UMF_RESULT_ERROR_INVALID_ARGUMENT s) as Hbad.
  { intros Hno. apply HQ1. intros x Hx (E & Eu & Eb).
    rewrite (view_data_unique _ _ _ _ Hlay Hx E) in Eu, Eb. by apply Hno. }
  destruct (b_used (en_block en)) eqn:Eu; simpl; [|apply wp_ret, Hbad; by intros [? _]].
  destruct ((0 <? bytes) && negb (bytes =? b_size (en_block en))) eqn:Eb.
  { apply wp_ret, Hbad. lia. }
  assert (can_free (clean (en_block en)) (b_data (en_block en)) bytes) as Hcan
    by (split_and!; [done|done|simpl; lia]).
  pose proof (heaps_used_unlisted _ _ _ _ _ _ Hinv Eu) as Hn.
  assert (view (B1 ++ en :: B2) = view B1 ++ clean (en_block en) :: view B2) as Ev by apply view_app.
  rewrite Ev, sum_used_free in Hus by done. simpl in Hus. rewrite Ev in Hal, Hlay.
  set (en' := upd_block (with_b_used false) en).
  assert (view (B1 ++ en' :: B2) = view B1 ++ with_b_used false (clean (en_block en)) :: view B2) as Ev'
    by apply view_app.
  assert (en_block en' = with_b_used false (clean (en_block en))) as Een.
  { subst en'. simpl. by rewrite (clean_id _ Hn). }
  assert (layout (view (B1 ++ en' :: B2))) as Hlay'.
  { rewrite Ev'. by apply layout_used. }
  pose proof (sum_of_u64 _ b_used Hlay') as Hsum. rewrite Ev' in Hsum.
  destruct (layout_middle _ _ _ Hlay) as (O1 & O2 & O3). simpl in O1, O2, O3.
  pose proof (sum_of_u64 _ b_used Hlay) as Hsum'. rewrite sum_used_free in Hsum' by done.
  simpl in Hsum'. wp_step. wp_step; [apply Z.leb_le; rewrite Hus; lia|]. wp_step.
  apply wp_bind. eapply wp_store_block; [simpl; by eapply heaps_inv_in|].
  set (s1 := set_blocks _ _).
  assert (heaps_inv s1 (B1 ++ en' :: B2) F (en_ptr en :: X)) as Hinv1.
  { unfold s1. apply (heaps_inv_store (set_used_size _ s) B1 en B2 F X (with_b_used false)); done. }
  assert (same_object s s1) as Hobj by (unfold same_object; simpl; split_and!; auto with umf).
  eapply (wp_free_tail s1 B1 en' B2 F X merge); try done.
  - rewrite Ev'. simpl. rewrite Hus. rewrite sub64_small; [lia|]. unfold is_u64. lia.
  - rewrite Ev'. simpl. rewrite Hal, !sum_of_app. done.
  - intros s' B' Hci' Hobj' Hlock Eco. rewrite Een in Eco.
    eapply HQ2; [exact Ev|done|exact Hci'|by eapply same_object_trans|done|exact Eco].
  - intros s' B' p Hno Hci' Hobj' Hlock Eco. rewrite Een in Eco.
    eapply HQ3; [exact Ev|done|done|exact Hci'|by eapply same_object_trans|done|exact Eco].
Qed.
End Api.
