(* ===== verification/CoarseOps.v ===== *)
(** * Freeing, merging, splitting and adding memory

    The public functions of coarse.c other than [coarse_alloc]: each runs to
    the end from every state that satisfies the invariant, gives the mutex
    back, and leaves a state that satisfies it again, on every path. *)

From S2P Require Import Prelude Utils HostMem Ravl RavlSpec RavlRemove Coarse.
From S2P Require Import CoarseInv CoarseFree CoarseLists CoarseMerge.
From S2P Require Import CoarseApi.
From stdpp Require Import strings sorting.
#[local] Open Scope Z_scope.

Lemma split_unique {A} (key : A -> Z) d (L1 L2 M1 M2 : list A) :
  L1 ++ L2 = M1 ++ M2 ->
  Forall (fun x => key x < d) L1 -> Forall (fun x => d <= key x) L2 ->
  Forall (fun x => key x < d) M1 -> Forall (fun x => d <= key x) M2 -> L1 = M1 /\ L2 = M2.
Proof.
  revert M1. induction L1 as [|x L1 IH]; intros [|y M1] E H1 H2 H3 H4; simpl in E.
  - done.
  - subst L2. rewrite Forall_cons in H2, H3. lia.
  - subst M2. rewrite Forall_cons in H1, H4. lia.
  - injection E as -> E. rewrite Forall_cons in H1, H3. destruct H1 as [_ H1], H3 as [_ H3].
    destruct (IH M1 E H1 H2 H3 H4) as [-> ->]. done.
Qed.

Lemma layout_split L1 b L2 k u fl :
  layout (L1 ++ b :: L2) -> 0 < k < b_size b ->
  layout (L1 ++ with_b_size k b :: mk_block (b_size b - k) (b_data b + k) u fl :: L2).
Proof.
  intros [Hok Hs] Hk. rewrite Forall_app, Forall_cons in Hok. destruct Hok as (Hok1 & Hb & Hok2).
  rewrite StronglySorted_app, StronglySorted_cons in Hs. destruct Hs as (H12 & Hs1 & Hf & Hs2).
  unfold block_ok in Hb. split.
  - rewrite Forall_app, !Forall_cons. split_and!; auto; unfold block_ok; simpl; lia.
  - rewrite StronglySorted_app, !StronglySorted_cons, !Forall_cons. split_and!; auto.
    + intros x y Hx Hy. specialize (H12 x). unfold before in *. rewrite !elem_of_cons in Hy.
      destruct Hy as [->|[->|Hy]].
      * apply (H12 b Hx). constructor.
      * specialize (H12 b Hx ltac:(constructor)). simpl in *. lia.
      * apply H12; [done|]. by right.
    + unfold before. simpl. lia.
    + eapply Forall_impl; [exact Hf|]. unfold before. simpl. intros x Hx. lia.
    + eapply Forall_impl; [exact Hf|]. unfold before. simpl. intros x Hx. lia.
Qed.

(** Data addresses around a block. *)
Lemma layout_around B1 en B2 :
  layout (view (B1 ++ en :: B2)) ->
  Forall (fun e => b_data (en_block e) < b_data (en_block en)) B1 /\
  Forall (fun e => b_data (en_block en) + b_size (en_block en) <= b_data (en_block e)) B2.
Proof.
  intros Hlay. apply layout_view in Hlay as [Hok Hs]. rewrite fmap_app, fmap_cons in Hok, Hs.
  rewrite Forall_app, Forall_fmap in Hok. destruct Hok as [Hok1 _].
  rewrite StronglySorted_app, StronglySorted_cons in Hs. destruct Hs as (H12 & _ & Hf & _). split.
  - rewrite Forall_forall in Hok1 |- *. intros e He. specialize (Hok1 e He).
    specialize (H12 (en_block e) (en_block en) ltac:(by apply list_elem_of_fmap_2) ltac:(constructor)).
    unfold before, block_ok in *. simpl in Hok1. lia.
  - rewrite Forall_fmap in Hf. exact Hf.
Qed.

(** A block is found in one place. *)
Lemma entry_split_unique B1 en B2 C1 c C2 :
  layout (view (B1 ++ en :: B2)) -> B1 ++ en :: B2 = C1 ++ c :: C2 ->
  b_data (en_block en) = b_data (en_block c) -> B1 = C1 /\ en = c /\ B2 = C2.
Proof.
  intros Hlay E Ed. destruct (layout_around _ _ _ Hlay) as [Hlt Hgt].
  assert (layout (view (C1 ++ c :: C2))) as Hlay' by (by rewrite <- E).
  destruct (layout_around _ _ _ Hlay') as [Hlt' Hgt'].
  apply layout_view in Hlay, Hlay'. rewrite fmap_app, fmap_cons in Hlay, Hlay'.
  apply layout_middle in Hlay as Hen, Hlay' as Hc.
  destruct (split_unique (fun e => b_data (en_block e)) (b_data (en_block en))
    B1 (en :: B2) C1 (c :: C2)) as [-> E2]; [done|done| | | |by simplify_eq].
  - constructor; [done|]. eapply Forall_impl; [exact Hgt|]. unfold block_ok in Hen. simpl in *. lia.
  - by rewrite Ed.
  - rewrite Ed. constructor; [done|]. eapply Forall_impl; [exact Hgt'|].
    unfold block_ok in Hc. simpl in *. lia.
Qed.

Lemma view_split2 B V1 x y V2 :
  view B = V1 ++ x :: y :: V2 ->
  exists B1 e1 e2 B2, B = B1 ++ e1 :: e2 :: B2 /\ view B1 = V1 /\ clean (en_block e1) = x /\
    clean (en_block e2) = y /\ view B2 = V2.
Proof.
  intros E. destruct (view_split _ _ _ _ E) as (B1 & e1 & B2' & -> & E1 & E2 & E3).
  destruct (view_split B2' [] y V2 E3) as (B0 & e2 & B2 & -> & E4 & E5 & E6).
  destruct B0; [|done]. by exists B1, e1, e2, B2.
Qed.

Lemma rep_nodup `{HostAlloc H} {A} (key : A -> Z) (rs : rstate H A) L :
  ravl_rep key rs L -> NoDup L.*1.
Proof.
  intros (t & (_ & _ & _ & Hnd) & <- & _). rewrite RavlTree.addrs_inorder. simpl in Hnd.
  by rewrite app_nil_r in Hnd.
Qed.

Section Ops.
Context {H P : Type} `{HostAllocLaws H}.
Context (T : list string) (ok : H -> Prop) `{!Reliable T ok}.
Variable dev : bool.
Implicit Types (s : cstate H P) (B : list entry) (F : list fentry) (X : list Z).

Definition unlocked s : Prop := m_held (c_lock (co s)) = false.

Lemma wp_lock s (Q : Z -> cstate H P -> Prop) :
  unlocked s ->
  (forall m, m_held m = true -> Q 0 (set_lock m s)) ->
  (forall r m, r <> 0 -> m_held m = false -> Q r (set_lock m s)) ->
  wp lock_mutex Q s.
Proof.
  intros Hu HQ1 HQ2. unfold lock_mutex. wp_step.
  destruct (mutex_lock_spec _ Hu) as (r & m & E & Em). rewrite E. wp_step; [done|]. cbv beta iota.
  wp_step. apply wp_ret. destruct (Z.eqb_spec r 0) as [->|Hr]; auto.
Qed.

Lemma wp_unlock s (Q : unit -> cstate H P -> Prop) :
  m_held (c_lock (co s)) = true ->
  (forall m, m_held m = false -> Q tt (set_lock m s)) -> wp unlock_mutex Q s.
Proof.
  intros Hh HQ. unfold unlock_mutex. wp_step. unfold utils_mutex_unlock. rewrite Hh.
  wp_step; [done|]. apply wp_modify. by apply HQ.
Qed.

Lemma coarse_inv_lock s m B X : coarse_inv ok s B X -> coarse_inv ok (set_lock m s) B X.
Proof.
  intros ((F & Hinv) & Hrest). split; [|exact Hrest]. exists F. by apply heaps_inv_co.
Qed.
Lemma coarse_inv_provider s p B X : coarse_inv ok s B X -> coarse_inv ok (set_provider p s) B X.
Proof.
  intros ((F & Hinv) & Hrest). split; [|exact Hrest]. exists F. by apply heaps_inv_provider.
Qed.
Lemma same_object_lock s m : same_object s (set_lock m s).
Proof. unfold same_object. simpl. split_and!; auto with umf. Qed.

(** A locked section: the body starts and ends in a state with the mutex
    held; the rest of the call sees it released. *)
Lemma wp_locked {A} (body : M (cstate H P) A) s B X (Q : A -> cstate H P -> Prop) (fail : A) :
  unlocked s -> coarse_inv ok s B X -> ready dev X ->
  (forall m, m_held m = true -> wp body (fun a s' => c_lock (co s') = m /\
     forall m', m_held m' = false -> Q a (set_lock m' s')) (set_lock m s)) ->
  (forall m, m_held m = false -> Q fail (set_lock m s)) ->
  wp (r ← lock_mutex;
      if negb (r =? 0) then mret fail
      else assert_debug_check dev;; res ← body; unlock_mutex;; mret res) Q s.
Proof.
  intros Hu Hci Hready Hbody HQ1. apply wp_bind. apply wp_lock; [done| |].
  - intros m Hm. simpl. apply wp_bind.
    eapply wp_assert_debug; [by apply coarse_inv_lock|done|].
    apply wp_bind. eapply wp_mono; [by apply Hbody|]. intros a s' [El HR].
    apply wp_bind, wp_unlock; [by rewrite El|]. intros m' Hm'. apply wp_ret. auto.
  - intros r m Hr Hm. destruct (Z.eqb_spec r 0); [done|]. simpl. apply wp_ret. auto.
Qed.

Lemma same_object_locked s s' m m' :
  same_object (set_lock m s) s' -> same_object s (set_lock m' s').
Proof.
  intros Hobj. eapply same_object_trans; [apply (same_object_lock s m)|].
  eapply same_object_trans; [exact Hobj|apply same_object_lock].
Qed.

Section Free.
Hypothesis elem_reliable : tag_elem ∈ T.

Definition free_post s B X (ptr bytes : Z) (r : umf_result_t) s' : Prop :=
  unlocked s' /\ same_object s s' /\
  match r with
  | UMF_RESULT_SUCCESS => exists V1 x V2 B' merge,
      view B = V1 ++ x :: V2 /\ can_free x ptr bytes /\ coarse_inv ok s' B' X /\
      cb_merge (c_cb (co s)) = Some merge /\
      coalesce merge V1 (with_b_used false x) V2 (provider s) = (view B', provider s')
  | UMF_RESULT_ERROR_OUT_OF_HOST_MEMORY => exists V1 x V2 B' merge p,
      view B = V1 ++ x :: V2 /\ can_free x ptr bytes /\ ~ (tag_head ∈ T /\ tag_free ∈ T) /\
      coarse_inv ok s' B' (p :: X) /\ cb_merge (c_cb (co s)) = Some merge /\
      coalesce merge V1 (with_b_used false x) V2 (provider s) = (view B', provider s')
  | UMF_RESULT_ERROR_INVALID_ARGUMENT =>
      (forall x, x ∈ view B -> ~ can_free x ptr bytes) /\
      coarse_inv ok s' B X /\ provider s' = provider s
  | UMF_RESULT_ERROR_UNKNOWN => coarse_inv ok s' B X /\ provider s' = provider s
  | _ => False
  end.

Lemma wp_coarse_free s B X c ptr bytes :
  coarse_inv ok s B X -> ready dev X -> unlocked s -> 0 <= bytes ->
  wp (coarse_free dev (Some c) (Some ptr) bytes) (free_post s B X ptr bytes) s.
Proof.
  intros Hci Hready Hun Hb. unfold coarse_free.
  pose proof Hci as (_ & _ & _ & _ & _ & (_ & _ & [merge Hm])).
  eapply (wp_locked _ s B X); [done|done|done| |].
  - intros m Hmh. eapply (wp_free_locked T ok elem_reliable dev);
      [by apply coarse_inv_lock|done|exact Hm|done|..].
    + intros Hno. split; [done|]. intros m' Hm'. split; [done|].
      split; [apply (same_object_locked s (set_lock m s) m), same_object_refl|].
      split; [done|]. split; [by do 2 apply coarse_inv_lock|done].
    + intros V1 x V2 s' B' Ev Hcan Hci' Hobj Hlock Eco. split; [done|].
      intros m' Hm'. split; [done|]. split; [by eapply same_object_locked|].
      exists V1, x, V2, B', merge. do 2 (split; [done|]).
      split; [by apply coarse_inv_lock|done].
    + intros V1 x V2 s' B' p Ev Hcan Hno Hci' Hobj Hlock Eco. split; [done|].
      intros m' Hm'. split; [done|]. split; [by eapply same_object_locked|].
      exists V1, x, V2, B', merge, p. do 3 (split; [done|]).
      split; [by apply coarse_inv_lock|done].
  - intros m Hmh. split; [done|]. split; [apply same_object_lock|].
    split; [by apply coarse_inv_lock|done].
Qed.
End Free.

Lemma heaps_inv_drop s B F X X' :
  heaps_inv s B F X ->
  (forall en, en ∈ B -> b_used (en_block en) = false -> en_ptr en ∈ X -> en_ptr en ∈ X') ->
  heaps_inv s B F X'.
Proof.
  intros (A1 & A2 & A3 & A4 & A5) Hx. split_and!; try done. by eapply linked_unneeded.
Qed.

Lemma used_ptr s B e1 e2 :
  all_inv s B -> e1 ∈ B -> b_used (en_block e1) = true -> e2 ∈ B -> b_used (en_block e2) = false ->
  en_ptr e2 <> en_ptr e1.
Proof. intros Ha H1' U1 H2' U2 E. rewrite (same_block _ _ _ _ Ha H2' H1' E) in U2. congruence. Qed.

(** A [coarse_inv] from its heaps: nothing else has changed. *)
Lemma coarse_inv_intro s s' B' F' X' :
  heaps_inv s' B' F' X' -> layout (view B') -> same_object s s' -> ok (c_host s) -> params_ok s ->
  used_size (co s') = sum_of b_used (view B') ->
  alloc_size (co s') = sum_of (fun _ => true) (view B') -> coarse_inv ok s' B' X'.
Proof.
  intros Hinv Hlay Hobj Hok Hpar Hu Ha. split_and!; eauto.
  - by eapply (same_object_ok T ok).
  - by eapply same_object_params.
Qed.

Lemma wp_can_split s split ptr total first (Q : umf_result_t -> cstate H P -> Prop) :
  cb_split (c_cb (co s)) = Some split ->
  (forall r p, split ptr total first (provider s) = (r, p) -> Q r (set_provider p s)) ->
  wp (can_provider_split ptr total first) Q s.
Proof.
  intros Hm HQ. unfold can_provider_split. wp_step. rewrite Hm. wp_step; [done|].
  destruct (split ptr total first (provider s)) as [r p] eqn:E. wp_step. apply wp_ret. auto.
Qed.

(** The two parts of a block cut after [k] bytes. *)
Definition first_part (k : Z) (b : block_t) : block_t := with_b_size k b.
Definition second_part (k : Z) (u : bool) (b : block_t) : block_t :=
  mk_block (b_size b - k) (b_data b + k) u None.

(** Cutting a block: the new block goes right after the old one. *)
Lemma wp_add_cut (uninit_used : Z -> bool) s B1 en B2 F X k (Q : option (Z * Z) -> cstate H P -> Prop) :
  heaps_inv s (B1 ++ en :: B2) F X -> layout (view (B1 ++ en :: B2)) ->
  0 < k < b_size (en_block en) -> ok (c_host s) ->
  (forall s', ~ (tag_block ∈ T /\ tag_all ∈ T) ->
     heaps_inv s' (B1 ++ en :: B2) F X -> same_ctl s s' -> Q None s') ->
  (forall s' n p, heaps_inv s'
       (B1 ++ en :: En n p (second_part k (uninit_used p) (en_block en)) :: B2) F (p :: X) ->
     same_ctl s s' -> Q (Some (p, n)) s') ->
  wp (coarse_ravl_add_new uninit_used (add64 (b_data (en_block en)) k)
        (sub64 (b_size (en_block en)) k)) Q s.
Proof.
  intros Hinv Hlay Hk Hok HQ1 HQ2. pose proof (proj1 (layout_view _) Hlay) as Hlay'.
  rewrite fmap_app, fmap_cons in Hlay'. pose proof (layout_middle _ _ _ Hlay') as (O1 & O2 & O3).
  destruct (layout_around _ _ _ Hlay) as [Hlt Hgt].
  rewrite add64_small, sub64_small by (unfold is_u64; lia).
  assert (Forall (fun e => b_data (en_block e) < b_data (en_block en) + k) (B1 ++ [en])) as Hl1.
  { rewrite Forall_app, Forall_singleton. split; [|lia].
    eapply Forall_impl; [exact Hlt|]. simpl. lia. }
  assert (Forall (fun e => b_data (en_block en) + k < b_data (en_block e)) B2) as Hl2.
  { eapply Forall_impl; [exact Hgt|]. simpl. lia. }
  eapply (wp_add_new T ok); [exact Hinv|lia|lia| |done|exact HQ1|].
  - intros e He. rewrite Forall_app in Hl1. destruct Hl1 as [Hl1 Hen].
    rewrite Forall_forall in Hl1, Hl2. rewrite Forall_singleton in Hen.
    rewrite elem_of_app, elem_of_cons in He. destruct He as [He|[->|He]]; [|lia|].
    + specialize (Hl1 e He). simpl in Hl1. lia.
    + specialize (Hl2 e He). simpl in Hl2. lia.
  - intros s' n p C1 C2 E H1' H2' Hinv' Hc.
    destruct (split_unique (fun e => b_data (en_block e)) (b_data (en_block en) + k)
      C1 C2 (B1 ++ [en]) B2) as [-> ->]; try done.
    { by rewrite <- app_assoc. }
    { eapply Forall_impl; [exact H2'|]. simpl. lia. }
    { eapply Forall_impl; [exact Hl2|]. simpl. lia. }
    rewrite <- app_assoc in Hinv'. by apply HQ2.
Qed.

Lemma wp_split_locked (uninit_used : Z -> bool) s B X ptr total first split
    (Q : umf_result_t -> cstate H P -> Prop) :
  coarse_inv ok s B X -> cb_split (c_cb (co s)) = Some split -> 0 < first < total ->
  ((forall x, x ∈ view B -> ~ (b_data x = ptr /\ b_size x = total /\ b_used x = true)) ->
     Q UMF_RESULT_ERROR_INVALID_ARGUMENT s) ->
  (forall r p, split ptr total first (provider s) = (r, p) -> r <> UMF_RESULT_SUCCESS ->
     Q r (set_provider p s)) ->
  (forall p s', split ptr total first (provider s) = (UMF_RESULT_SUCCESS, p) ->
     coarse_inv ok s' B X -> same_object s s' -> c_lock (co s') = c_lock (co s) ->
     provider s' = p -> Q UMF_RESULT_ERROR_OUT_OF_HOST_MEMORY s') ->
  (forall V1 x V2 p s' B', view B = V1 ++ x :: V2 -> b_data x = ptr -> b_size x = total ->
     b_used x = true -> split ptr total first (provider s) = (UMF_RESULT_SUCCESS, p) ->
     coarse_inv ok s' B' X -> same_object s s' -> c_lock (co s') = c_lock (co s) ->
     provider s' = p -> view B' = V1 ++ first_part first x :: second_part first true x :: V2 ->
     Q UMF_RESULT_SUCCESS s') ->
  wp (split_locked uninit_used ptr total first) Q s.
Proof.
  intros Hci Hsp Hk HQ1 HQ2 HQ3 HQ4. pose proof Hci as ((F & Hinv) & Hlay & Hus & Hal & Hok & Hpar).
  pose proof Hinv as (Ha & _). unfold split_locked. apply wp_bind.
  destruct (find_by_data B ptr) as [(B1 & en & B2 & -> & <-)|Hn]; cycle 1.
  { eapply wp_find_node_none; [exact Ha|exact Hn|]. apply wp_ret, HQ1. intros x Hx (E & _).
    unfold view in Hx. apply list_elem_of_fmap in Hx as (e & -> & He). by apply (Hn e He). }
  eapply wp_find_node_some; [exact Ha|]. apply wp_bind. eapply wp_get_node_block; [exact Ha|].
  apply wp_bind. eapply wp_load_block; [by eapply heaps_inv_in|].
  assert (~ (b_size (en_block en) = total /\ b_used (en_block en) = true) ->
    Q UMF_RESULT_ERROR_INVALID_ARGUMENT s) as Hbad.
  { intros Hno. apply HQ1. intros x Hx (E & Es & Eu).
    rewrite (view_data_unique _ _ _ _ Hlay Hx E) in Es, Eu. by apply Hno. }
  destruct (Z.eqb_spec (b_size (en_block en)) total) as [Et|Et]; simpl; [|apply wp_ret, Hbad; tauto].
  destruct (b_used (en_block en)) eqn:Eu; simpl; [|apply wp_ret, Hbad; by intros [_ ?]].
  apply wp_bind. eapply wp_can_split; [exact Hsp|]. intros r p Er.
  case_bool_decide as Hr; simpl; [|by apply wp_ret, HQ2]. subst r.
  apply wp_bind. apply (wp_add_cut uninit_used (set_provider p s) B1 en B2 F X first);
    [by apply heaps_inv_provider|done|lia|done| |].
  - intros s' _ Hinv' Hc. apply wp_ret. destruct (sbp_object _ _ (sbp_provider_ctl _ _ _ Hc)) as [Hobj Hlock].
    eapply HQ3; [done| |done|done|apply Hc].
    destruct Hc as (_ & _ & _ & _ & _ & Eus & Eal & _). simpl in Eus, Eal.
    eapply coarse_inv_intro; [exact Hinv'|done|exact Hobj|done|done|congruence|congruence].
  - intros s' n q Hinv' Hc. pose proof (heaps_used_unlisted _ _ _ _ _ _ Hinv' Eu) as Hfl.
    destruct (sbp_object _ _ (sbp_provider_ctl _ _ _ Hc)) as [Hobj Hlock].
    apply wp_bind. eapply wp_store_block; [by eapply heaps_inv_in|].
    pose proof (heaps_inv_store _ _ _ _ _ _ (with_b_size first) Hinv' eq_refl Hfl Hfl) as Hinv2.
    change (B1 ++ ?x :: ?y :: B2) with (B1 ++ [x] ++ y :: B2) in Hinv2. rewrite app_assoc in Hinv2.
    apply wp_bind. eapply wp_store_block; [by eapply (heaps_inv_in _ _ _ _ _ _ Hinv2)|].
    pose proof (heaps_inv_store _ _ _ _ _ _ (with_b_used true) Hinv2 eq_refl eq_refl eq_refl) as Hinv3.
    rewrite <- app_assoc in Hinv3. simpl in Hinv3.
    apply wp_bind. eapply wp_load_block; [simpl; apply lookup_insert_eq|].
    pose proof (layout_middle _ _ _ (eq_ind _ layout (proj1 (layout_view _) Hlay) _
      (fmap_app en_block B1 (en :: B2)))) as (O1 & O2 & O3).
    wp_step; [simpl; apply Z.eqb_eq; rewrite Et, sub64_small; unfold is_u64; lia|].
    apply wp_ret. set (B' := B1 ++ _) in Hinv3.
    assert (view B' = view B1 ++ first_part first (clean (en_block en)) ::
      second_part first true (clean (en_block en)) :: view B2) as EV by apply view_app.
    assert (view (B1 ++ en :: B2) = view B1 ++ clean (en_block en) :: view B2) as EV0 by apply view_app.
    destruct Hc as (_ & _ & _ & _ & _ & Eus & Eal & Ep & _). simpl in Eus, Eal, Ep.
    eapply (HQ4 (view B1) (clean (en_block en)) (view B2) p _ B'); try done.
    eapply (coarse_inv_intro s).
    + eapply heaps_inv_drop; [exact Hinv3|]. intros e He Hue. simpl. rewrite !elem_of_cons.
      pose proof (used_ptr _ _ (upd_block (with_b_size first) en) e (proj1 Hinv3)) as N1.
      pose proof (used_ptr _ _ (En n q (with_b_used true (second_part first (uninit_used q)
        (en_block en)))) e (proj1 Hinv3)) as N2.
      subst B'. rewrite elem_of_app, !elem_of_cons in N1, N2.
      specialize (N1 ltac:(auto) Eu He Hue). specialize (N2 ltac:(auto) eq_refl He Hue).
      simpl in N1, N2. tauto.
    + rewrite EV. apply (layout_split _ _ _ first); [by rewrite <- EV0|simpl; lia].
    + done.
    + done.
    + done.
    + simpl. rewrite Eus, Hus, EV, EV0, !sum_of_app. simpl. rewrite Eu. lia.
    + simpl. rewrite Eal, Hal, EV, EV0, !sum_of_app. simpl. lia.
Qed.

Lemma same_node s B e1 e2 :
  all_inv s B -> e1 ∈ B -> e2 ∈ B -> en_node e1 = en_node e2 -> e1 = e2.
Proof.
  intros (Hr & _) H1' H2' E. apply rep_nodup in Hr. rewrite <- list_fmap_compose in Hr.
  apply list_elem_of_split in H1' as (B1 & B2 & ->).
  rewrite fmap_app, fmap_cons, <- Permutation_middle, list.NoDup_cons in Hr. destruct Hr as [Hn _].
  rewrite elem_of_app, elem_of_cons in H2'. destruct H2' as [H2'|[->|H2']]; [|done|];
    exfalso; apply Hn; rewrite elem_of_app; simpl; rewrite E;
    [left|right]; by apply (list_elem_of_fmap_2 (fst ∘ all_node)).
Qed.

(** [merge_locked] once its guards have passed. *)
Lemma wp_merge_tail s B1 e1 e2 B2 X total merge (Q : umf_result_t -> cstate H P -> Prop) :
  let B := B1 ++ e1 :: e2 :: B2 in
  let b1 := en_block e1 in let b2 := en_block e2 in
  coarse_inv ok s B X -> cb_merge (c_cb (co s)) = Some merge ->
  mergeable true b1 b2 = true ->
  (b_size b1 + b_size b2 <> total -> Q UMF_RESULT_ERROR_INVALID_ARGUMENT s) ->
  (forall r p, merge (b_data b1) (b_data b2) total (provider s) = (r, p) ->
     r <> UMF_RESULT_SUCCESS -> Q r (set_provider p s)) ->
  (forall p s' B', b_size b1 + b_size b2 = total ->
     merge (b_data b1) (b_data b2) total (provider s) = (UMF_RESULT_SUCCESS, p) ->
     coarse_inv ok s' B' X -> same_object s s' -> c_lock (co s') = c_lock (co s) ->
     provider s' = p -> view B' = view B1 ++ merged_block b1 b2 :: view B2 ->
     Q UMF_RESULT_SUCCESS s') ->
  wp (prev ← get_node_prev (en_node e2);
      c_assert (bool_decide (prev = Some (en_node e1)));;
      if negb (add64 (b_size b1) (b_size b2) =? total) then
        mret UMF_RESULT_ERROR_INVALID_ARGUMENT
      else
        '(umf_result, merged_node) ← user_block_merge (en_node e1) (en_node e2) true;
        if negb (bool_decide (umf_result = UMF_RESULT_SUCCESS)) then mret umf_result
        else
          c_assert (bool_decide (merged_node = Some (en_node e1)));;
          lb ← load_block (en_ptr e1);
          c_assert (b_size lb =? total);;
          mret UMF_RESULT_SUCCESS) Q s.
Proof.
  intros B b1 b2 Hci Hmg Em HQ1 HQ2 HQ3.
  pose proof Hci as ((F & Hinv) & Hlay & Hus & Hal & Hok & Hpar). pose proof Hinv as (Ha & _).
  pose proof (proj1 (layout_view _) Hlay) as Hlay'. unfold B in Hlay'.
  rewrite fmap_app, !fmap_cons in Hlay'.
  destruct (layout_app_inv _ _ _ _ Hlay') as (O1 & O2 & O3 & _). unfold block_ok, before in *.
  fold b1 b2 in O1, O2, O3. apply wp_bind.
  eapply (wp_prev _ (B1 ++ [e1]) e2 B2); [by rewrite <- app_assoc|]. rewrite last_snoc.
  wp_step; [by apply bool_decide_eq_true|]. rewrite add64_small by (unfold is_u64; lia).
  destruct (Z.eqb_spec (b_size b1 + b_size b2) total) as [Et|Et]; simpl; [|by apply wp_ret, HQ1].
  apply wp_bind. eapply wp_user_block_merge; [exact Hinv|by apply layout_view|exact Hmg|..];
    fold b1 b2; rewrite ?Em, ?Et; [done| |].
  - intros r p _ Er Hr. rewrite bool_decide_eq_false_2 by done. simpl. apply wp_ret. by apply HQ2.
  - intros p s' F' B2' _ Er Hinv' Hpb Hc. simpl. wp_step; [by apply bool_decide_eq_true|].
    apply wp_bind. eapply wp_load_block; [exact (heaps_inv_in _ _ _ _ _ _ Hinv')|].
    wp_step; [by apply Z.eqb_eq|]. apply wp_ret.
    apply mergeable_true in Em as (Eu1 & Eu2 & Eadj).
    assert (view (B1 ++ merged e1 e2 :: B2') = view B1 ++ merged_block b1 b2 :: view B2) as EV.
    { rewrite view_app. rewrite <- (view_same_pb _ _ Hpb). done. }
    assert (view B = view B1 ++ clean b1 :: clean b2 :: view B2) as EV0 by apply view_app.
    destruct (sbp_object _ _ (sbp_provider_ctl _ _ _ Hc)) as [Hobj Hlock].
    destruct Hc as (_ & _ & _ & _ & _ & Eus & Eal & Ep & _). simpl in Eus, Eal, Ep.
    eapply (HQ3 p s' (B1 ++ merged e1 e2 :: B2')); try done. eapply (coarse_inv_intro s).
    + eapply heaps_inv_drop; [exact Hinv'|]. intros e He Hue.
      pose proof (used_ptr _ _ (merged e1 e2) e (proj1 Hinv')) as N1.
      rewrite elem_of_app, elem_of_cons in N1. specialize (N1 ltac:(auto) Eu1 He Hue).
      rewrite elem_of_cons. simpl in N1. tauto.
    + by eapply layout_merged.
    + done.
    + done.
    + done.
    + rewrite Eus, Hus, EV, EV0, !sum_of_app. simpl. rewrite Eu1, Eu2. lia.
    + rewrite Eal, Hal, EV, EV0, !sum_of_app. simpl. lia.
Qed.

Lemma wp_merge_locked s B X low high total merge (Q : umf_result_t -> cstate H P -> Prop) :
  coarse_inv ok s B X -> cb_merge (c_cb (co s)) = Some merge ->
  is_u64 low -> is_u64 high ->
  ((forall V1 x y V2, view B = V1 ++ x :: y :: V2 ->
       ~ (b_data x = low /\ b_data y = high /\ mergeable true x y = true /\
          b_size x + b_size y = total)) ->
     Q UMF_RESULT_ERROR_INVALID_ARGUMENT s) ->
  (forall r p, merge low high total (provider s) = (r, p) -> r <> UMF_RESULT_SUCCESS ->
     Q r (set_provider p s)) ->
  (forall V1 x y V2 p s' B', view B = V1 ++ x :: y :: V2 -> b_data x = low -> b_data y = high ->
     mergeable true x y = true -> b_size x + b_size y = total ->
     merge low high total (provider s) = (UMF_RESULT_SUCCESS, p) ->
     coarse_inv ok s' B' X -> same_object s s' -> c_lock (co s') = c_lock (co s) ->
     provider s' = p -> view B' = V1 ++ merged_block x y :: V2 -> Q UMF_RESULT_SUCCESS s') ->
  wp (merge_locked low high total) Q s.
Proof.
  intros Hci Hmg Hlow Hhigh HQ1 HQ2 HQ3. pose proof Hci as ((F & Hinv) & Hlay & Hus & Hal & Hok & Hpar).
  pose proof Hinv as (Ha & _). unfold merge_locked.
  apply wp_bind. destruct (find_by_data B low) as [(B1 & e1 & B2 & -> & <-)|Hn]; cycle 1.
  { eapply wp_find_node_none; [exact Ha|exact Hn|]. apply wp_ret, HQ1. intros V1 x y V2 EV (E & _).
    destruct (view_split2 _ _ _ _ _ EV) as (C1 & c1 & c2 & C2 & -> & _ & <- & _).
    eapply Hn; [|exact E]. rewrite elem_of_app, elem_of_cons. auto. }
  assert ((forall e2 B2', B2 = e2 :: B2' -> b_data (en_block e2) = high ->
      mergeable true (en_block e1) (en_block e2) = true ->
      b_size (en_block e1) + b_size (en_block e2) = total -> False) ->
    Q UMF_RESULT_ERROR_INVALID_ARGUMENT s) as Hbad.
  { intros Hno. apply HQ1. intros V1 x y V2 EV (E1 & E2 & E3 & E4).
    destruct (view_split2 _ _ _ _ _ EV) as (C1 & c1 & c2 & C2 & EB & _ & <- & <- & _).
    destruct (entry_split_unique _ _ _ _ _ _ Hlay EB) as (-> & -> & ->); [done|]. by eapply Hno. }
  eapply wp_find_node_some; [exact Ha|]. apply wp_bind. eapply wp_get_node_block; [exact Ha|].
  apply wp_bind. eapply wp_load_block; [by eapply heaps_inv_in|].
  destruct (b_used (en_block e1)) eqn:Eu1; simpl; cycle 1.
  { apply wp_ret, Hbad. intros e2 B2' _ _ Em _. apply mergeable_true in Em. destruct_and!. congruence. }
  apply wp_bind. destruct (find_by_data (B1 ++ e1 :: B2) high) as [(C1 & e2 & C2 & EB & <-)|Hn]; cycle 1.
  { eapply wp_find_node_none; [exact Ha|exact Hn|]. apply wp_ret, Hbad. intros e2 B2' -> E _ _.
    eapply Hn; [|exact E]. rewrite elem_of_app, !elem_of_cons. auto. }
  assert (forall e B2', B2 = e :: B2' -> b_data (en_block e) = b_data (en_block e2) ->
    e = e2 /\ C1 = B1 ++ [e1] /\ C2 = B2') as Huniq.
  { intros e B2' -> E. change (B1 ++ e1 :: e :: B2') with (B1 ++ [e1] ++ e :: B2') in EB, Hlay.
    rewrite app_assoc in EB, Hlay. destruct (entry_split_unique _ _ _ _ _ _ Hlay EB E) as (-> & -> & ->).
    done. }
  rewrite EB in Ha. eapply wp_find_node_some; [exact Ha|]. apply wp_bind.
  eapply wp_get_node_block; [exact Ha|].
  rewrite EB in Hinv. apply wp_bind. eapply wp_load_block; [by eapply heaps_inv_in|].
  destruct (b_used (en_block e2)) eqn:Eu2; simpl; cycle 1.
  { apply wp_ret, Hbad. intros e B2' EB2 Ed Em _. destruct (Huniq _ _ EB2 Ed) as (-> & _).
    apply mergeable_true in Em. destruct_and!. congruence. }
  rewrite <- EB in Ha, Hinv. apply wp_bind. eapply wp_next; [exact Ha|].
  pose proof (layout_middle _ _ _ (eq_ind _ layout (proj1 (layout_view _) Hlay) _
      (fmap_app en_block B1 (e1 :: B2)))) as (O1 & O2 & O3).
  rewrite add64_small by (unfold is_u64; lia).
  case_bool_decide as Hnext; simpl; cycle 1.
  { apply wp_ret, Hbad. intros e B2' -> Ed _ _. destruct (Huniq _ _ eq_refl Ed) as (-> & _). done. }
  destruct (Z.eqb_spec (b_data (en_block e2)) (b_data (en_block e1) + b_size (en_block e1)))
    as [Eadj|Eadj]; simpl; cycle 1.
  { apply wp_ret, Hbad. intros e B2' EB2 Ed Em _. destruct (Huniq _ _ EB2 Ed) as (-> & _).
    apply mergeable_true in Em. destruct_and!. congruence. }
  destruct B2 as [|e B2']; simpl in Hnext; [done|]. injection Hnext as Enode.
  assert (e = e2) as ->.
  { eapply same_node; [exact Ha| | |exact Enode].
    - rewrite elem_of_app, !elem_of_cons. auto.
    - rewrite EB, elem_of_app, elem_of_cons. auto. }
  eapply wp_merge_tail; [exact Hci|exact Hmg| | |exact HQ2|].
  - unfold mergeable. rewrite Eu1, Eu2, Eadj, Z.eqb_refl. done.
  - intros Et. apply Hbad. intros e B3 [= <- <-] _ _ Et'. done.
  - intros p s' B' Et Er Hci' Hobj Hlock Ep EV.
    eapply (HQ3 (view B1) (clean (en_block e1)) (clean (en_block e2)) (view B2')); try done.
    + apply view_app.
    + rewrite mergeable_clean. unfold mergeable. by rewrite Eu1, Eu2, Eadj, Z.eqb_refl.
Qed.

(** As [wp_locked], with the self check at the end of the section. *)
Lemma wp_locked_checked {A} (body : M (cstate H P) A) s B X (Q : A -> cstate H P -> Prop) (fail : A) :
  unlocked s -> coarse_inv ok s B X -> ready dev X ->
  (forall m, m_held m = true -> wp body (fun a s' => c_lock (co s') = m /\
     (exists B', coarse_inv ok s' B' X) /\
     forall m', m_held m' = false -> Q a (set_lock m' s')) (set_lock m s)) ->
  (forall m, m_held m = false -> Q fail (set_lock m s)) ->
  wp (r ← lock_mutex;
      if negb (r =? 0) then mret fail
      else assert_debug_check dev;; res ← body;
           assert_debug_check dev;; unlock_mutex;; mret res) Q s.
Proof.
  intros Hu Hci Hready Hbody HQ1. apply wp_bind. apply wp_lock; [done| |].
  - intros m Hm. simpl. apply wp_bind.
    eapply wp_assert_debug; [by apply coarse_inv_lock|done|].
    apply wp_bind. eapply wp_mono; [by apply Hbody|]. intros a s' (El & (B' & Hci') & HR).
    apply wp_bind. eapply wp_assert_debug; [exact Hci'|done|].
    apply wp_bind, wp_unlock; [by rewrite El|]. intros m' Hm'. apply wp_ret. auto.
  - intros r m Hr Hm. destruct (Z.eqb_spec r 0); [done|]. simpl. apply wp_ret. auto.
Qed.

(** *** [coarse_split] *)

Inductive split_outcome s B X ptr total first s' : umf_result_t -> Prop :=
| split_no_lock : coarse_inv ok s' B X -> provider s' = provider s ->
    split_outcome s B X ptr total first s' UMF_RESULT_ERROR_UNKNOWN
| split_no_block :
    (forall x, x ∈ view B -> ~ (b_data x = ptr /\ b_size x = total /\ b_used x = true)) ->
    coarse_inv ok s' B X -> provider s' = provider s ->
    split_outcome s B X ptr total first s' UMF_RESULT_ERROR_INVALID_ARGUMENT
| split_refused split r : cb_split (c_cb (co s)) = Some split ->
    split ptr total first (provider s) = (r, provider s') -> r <> UMF_RESULT_SUCCESS ->
    coarse_inv ok s' B X -> split_outcome s B X ptr total first s' r
| split_oom split : cb_split (c_cb (co s)) = Some split ->
    split ptr total first (provider s) = (UMF_RESULT_SUCCESS, provider s') ->
    coarse_inv ok s' B X ->
    split_outcome s B X ptr total first s' UMF_RESULT_ERROR_OUT_OF_HOST_MEMORY
| split_done split V1 x V2 B' : cb_split (c_cb (co s)) = Some split ->
    split ptr total first (provider s) = (UMF_RESULT_SUCCESS, provider s') ->
    view B = V1 ++ x :: V2 -> b_data x = ptr -> b_size x = total -> b_used x = true ->
    coarse_inv ok s' B' X ->
    view B' = V1 ++ first_part first x :: second_part first true x :: V2 ->
    split_outcome s B X ptr total first s' UMF_RESULT_SUCCESS.

Definition split_post s B X ptr total first (r : umf_result_t) s' : Prop :=
  unlocked s' /\ same_object s s' /\ split_outcome s B X ptr total first s' r.

Lemma wp_coarse_split (uninit_used : Z -> bool) s B X c ptr total first :
  coarse_inv ok s B X -> ready dev X -> unlocked s -> 0 < first < total ->
  wp (coarse_split uninit_used dev (Some c) (Some ptr) total first)
    (split_post s B X ptr total first) s.
Proof.
  intros Hci Hready Hun Hk. unfold coarse_split.
  destruct (Z.leb_spec total first); [lia|]. destruct (Z.eqb_spec first 0); [lia|].
  destruct (Z.eqb_spec total 0); [lia|]. simpl.
  pose proof Hci as (_ & _ & _ & _ & _ & (_ & [split Hs] & _)).
  eapply (wp_locked_checked _ s B X); [done|done|done| |].
  - intros m Hmh. eapply wp_split_locked; [by apply coarse_inv_lock|exact Hs|done|..].
    + intros Hno. split; [done|]. split; [exists B; by apply coarse_inv_lock|].
      intros m' Hm'. split; [done|].
      split; [apply (same_object_locked s (set_lock m s) m), same_object_refl|].
      apply split_no_block; [done|by do 2 apply coarse_inv_lock|done].
    + intros r p Er Hr. split; [done|].
      assert (coarse_inv ok (set_provider p (set_lock m s)) B X) as Hci'
        by (by apply coarse_inv_provider, coarse_inv_lock).
      split; [by exists B|]. intros m' Hm'. split; [done|].
      split; [by apply (same_object_locked s (set_provider p (set_lock m s)) m)|].
      by eapply split_refused; [exact Hs|exact Er|done|apply coarse_inv_lock].
    + intros p s' Er Hci' Hobj Hlock Ep. split; [done|]. split; [by exists B|].
      intros m' Hm'. split; [done|]. split; [by eapply same_object_locked|].
      subst p. by eapply split_oom; [exact Hs|exact Er|apply coarse_inv_lock].
    + intros V1 x V2 p s' B' EV Ed Es Eu Er Hci' Hobj Hlock Ep EV'.
      split; [done|]. split; [by exists B'|]. intros m' Hm'. split; [done|].
      split; [by eapply same_object_locked|]. subst p.
      by eapply split_done; [exact Hs|exact Er|exact EV|done|done|done|apply coarse_inv_lock|].
  - intros m Hmh. split; [done|]. split; [apply same_object_lock|].
    apply split_no_lock; [by apply coarse_inv_lock|done].
Qed.

(** *** [coarse_merge] *)

Inductive merge_outcome s B X low high total s' : umf_result_t -> Prop :=
| merge_no_lock : coarse_inv ok s' B X -> provider s' = provider s ->
    merge_outcome s B X low high total s' UMF_RESULT_ERROR_UNKNOWN
| merge_no_blocks :
    (forall V1 x y V2, view B = V1 ++ x :: y :: V2 ->
       ~ (b_data x = low /\ b_data y = high /\ mergeable true x y = true /\
          b_size x + b_size y = total)) ->
    coarse_inv ok s' B X -> provider s' = provider s ->
    merge_outcome s B X low high total s' UMF_RESULT_ERROR_INVALID_ARGUMENT
| merge_refused merge r : cb_merge (c_cb (co s)) = Some merge ->
    merge low high total (provider s) = (r, provider s') -> r <> UMF_RESULT_SUCCESS ->
    coarse_inv ok s' B X -> merge_outcome s B X low high total s' r
| merge_done merge V1 x y V2 B' : cb_merge (c_cb (co s)) = Some merge ->
    merge low high total (provider s) = (UMF_RESULT_SUCCESS, provider s') ->
    view B = V1 ++ x :: y :: V2 -> b_data x = low -> b_data y = high ->
    mergeable true x y = true -> b_size x + b_size y = total ->
    coarse_inv ok s' B' X -> view B' = V1 ++ merged_block x y :: V2 ->
    merge_outcome s B X low high total s' UMF_RESULT_SUCCESS.

Definition merge_post s B X low high total (r : umf_result_t) s' : Prop :=
  unlocked s' /\ same_object s s' /\ merge_outcome s B X low high total s' r.

Lemma wp_coarse_merge s B X c low high total :
  coarse_inv ok s B X -> ready dev X -> unlocked s ->
  0 <= low -> low < high -> high < two64 -> high - low < total ->
  wp (coarse_merge dev (Some c) (Some low) (Some high) total) (merge_post s B X low high total) s.
Proof.
  intros Hci Hready Hun Hl Hlh Hh Ht. unfold coarse_merge.
  destruct (Z.eqb_spec total 0); [lia|]. destruct (Z.leb_spec high low); [lia|].
  rewrite sub64_small by (unfold is_u64; lia). destruct (Z.leb_spec total (high - low)); [lia|]. simpl.
  pose proof Hci as (_ & _ & _ & _ & _ & (_ & _ & [merge Hm])).
  eapply (wp_locked_checked _ s B X); [done|done|done| |].
  - intros m Hmh. eapply wp_merge_locked; [by apply coarse_inv_lock|exact Hm|unfold is_u64; lia|unfold is_u64; lia|..].
    + intros Hno. split; [done|]. split; [exists B; by apply coarse_inv_lock|].
      intros m' Hm'. split; [done|].
      split; [apply (same_object_locked s (set_lock m s) m), same_object_refl|].
      apply merge_no_blocks; [done|by do 2 apply coarse_inv_lock|done].
    + intros r p Er Hr. split; [done|].
      assert (coarse_inv ok (set_provider p (set_lock m s)) B X) as Hci'
        by (by apply coarse_inv_provider, coarse_inv_lock).
      split; [by exists B|]. intros m' Hm'. split; [done|].
      split; [by apply (same_object_locked s (set_provider p (set_lock m s)) m)|].
      by eapply merge_refused; [exact Hm|exact Er|done|apply coarse_inv_lock].
    + intros V1 x y V2 p s' B' EV Ex Ey Em Et Er Hci' Hobj Hlock Ep EV'.
      split; [done|]. split; [by exists B'|]. intros m' Hm'. split; [done|].
      split; [by eapply same_object_locked|]. subst p.
      by eapply merge_done; [exact Hm|exact Er|exact EV|done|done|done|done|apply coarse_inv_lock|].
  - intros m Hmh. split; [done|]. split; [apply same_object_lock|].
    apply merge_no_lock; [by apply coarse_inv_lock|done].
Qed.
End Ops.
