(* ===== verification/CoarseAlloc.v ===== *)
(** * Allocating

    [coarse_alloc] finds a free block, or asks the provider for one, and cuts
    the block it returns out of it.  [carve] is that cut on the list of blocks:
    the padding in front of the aligned address and the rest behind the
    allocation stay free.  When the provider refuses a cut the block goes back
    to the free lists, joined with its free neighbours ([coalesce]). *)

From S2P Require Import Prelude Utils HostMem Ravl RavlSpec RavlRemove Coarse.
From S2P Require Import CoarseInv CoarseFree CoarseLists CoarseMerge.
From S2P Require Import CoarseApi CoarseOps.
From stdpp Require Import strings sorting.
#[local] Open Scope Z_scope.

(** ** The alignment *)

Lemma pow2_mod a b : pow2 a -> pow2 b -> a <= b -> b mod a = 0.
Proof.
  intros (n & Hn & ->) (m & Hm & ->) Hle.
  assert (n <= m) as Hnm by (apply (Z.pow_le_mono_r_iff 2); lia).
  replace m with ((m - n) + n) by lia. rewrite Z.pow_add_r by lia. apply Z.mod_mul. lia.
Qed.

(** Alignment 0 is one page; a power of two is rounded up to a page; anything
    else is refused. *)
Lemma adjust_alignment_spec al page :
  pow2 page -> is_u64 al ->
  adjust_alignment al page =
    if al =? 0 then Some page
    else if IS_POWER_OF_2 al then Some (Z.max al page) else None.
Proof.
  intros Hp Ha. unfold adjust_alignment, IS_POWER_OF_2. destruct (Z.eqb_spec al 0) as [|Hz]; [done|].
  simpl. destruct (Z.eqb_spec (Z.land al (sub64 al 1)) 0) as [E|E]; simpl; [|done].
  pose proof (pow2_test _ Ha Hz E) as Hal. pose proof (pow2_pos _ Hal). pose proof (pow2_pos _ Hp).
  rewrite is_not_aligned_negb. destruct (Z.leb_spec al page) as [Hle|Hgt].
  - rewrite (pow2_mod al page) by done. rewrite andb_false_r.
    destruct (IS_ALIGNED al page) eqn:Ea; simpl.
    + apply is_aligned_spec in Ea; [|done]. f_equal.
      destruct (Z.eq_dec al page); [lia|]. rewrite Z.mod_small in Ea by lia. lia.
    + pose proof (pow2_u64 _ Hp) as Hpu. f_equal.
      assert (al + page - 1 < two64) as Hfit.
      { destruct Hp as (n & Hn & ->), Hal as (m & Hm & ->).
        assert (2 ^ n <= 2 ^ 63) by (apply Z.pow_le_mono_r; lia).
        change (2 ^ 63) with 9223372036854775808 in *. unfold two64. lia. }
      rewrite align_up_safe_fits by done.
      destruct (align_up_bounds al page) as [Hb Hm]; [done|lia|done|].
      apply Z.mod_divide in Hm as [q Hq]; [|lia]. rewrite Hq in Hb |- *.
      assert (q = 1) as -> by nia. lia.
  - rewrite (pow2_mod page al) by (done || lia). simpl.
    assert (IS_ALIGNED al page = true) as ->.
    { apply is_aligned_spec; [done|]. apply pow2_mod; done || lia. }
    simpl. f_equal. lia.
Qed.

Lemma adjust_alignment_pow2 al page al' :
  pow2 page -> is_u64 al -> adjust_alignment al page = Some al' -> pow2 al' /\ page <= al' /\ al <= al'.
Proof.
  intros Hp Ha. rewrite adjust_alignment_spec by done.
  destruct (Z.eqb_spec al 0) as [->|Hz].
  - intros [= <-]. pose proof (pow2_pos _ Hp). split_and!; [done|lia|lia].
  - destruct (IS_POWER_OF_2 al) eqn:E; [|done]. intros [= <-]. apply is_power_of_2_pow2 in E; [|done].
    split_and!; [|lia|lia]. destruct (Z.max_spec al page) as [[_ ->]|[_ ->]]; done.
Qed.

(** ** The cut *)

Definition padding (al : Z) (x : block_t) : Z := ALIGN_UP (b_data x) al - b_data x.

Definition carve (size al : Z) (x : block_t) : list block_t :=
  let pad := padding al x in
  (if 0 <? pad then [mk_block pad (b_data x) false None] else []) ++
  mk_block size (b_data x + pad) true None ::
  (if pad + size <? b_size x
   then [mk_block (b_size x - pad - size) (b_data x + pad + size) false None] else []).

(** What the search guarantees of the block it returns. *)
Definition fits (size al : Z) (x : block_t) : Prop :=
  size <= b_size x /\ (IS_ALIGNED (b_data x) al = true \/ size + al <= b_size x).

Lemma fits_padding size al x :
  pow2 al -> block_ok x -> 0 < size -> fits size al x ->
  sub64 (ALIGN_UP (b_data x) al) (b_data x) = padding al x /\
  0 <= padding al x < al /\ (b_data x + padding al x) mod al = 0 /\
  (padding al x = 0 \/ padding al x + size < b_size x).
Proof.
  intros Hal (O1 & O2 & O3) Hs [Hf1 Hf2]. unfold padding. pose proof (pow2_pos _ Hal) as Hp.
  pose proof (pow2_u64 _ Hal) as Hu.
  assert (IS_ALIGNED (b_data x) al = true /\ b_data x + al - 1 < two64 \/
          IS_ALIGNED (b_data x) al = false /\ size + al <= b_size x) as Hc.
  { destruct (IS_ALIGNED (b_data x) al) eqn:E; [left; split; [done|]|by right; destruct Hf2].
    apply is_aligned_spec in E; [|done]. apply Z.mod_divide in E as [q Hq]; [|lia].
    destruct Hal as (n & Hn & ->). unfold is_u64, two64 in *.
    assert (2 ^ 64 = 2 ^ (64 - n) * 2 ^ n) as E64 by (rewrite <- Z.pow_add_r by lia; f_equal; lia).
    change (2 ^ 64) with 18446744073709551616 in E64.
    assert (q < 2 ^ (64 - n)) by (apply (Zmult_lt_reg_r _ _ (2 ^ n)); lia). nia. }
  assert (b_data x + al - 1 < two64) as Hfit by (destruct Hc as [[_ ?]|[_ ?]]; lia).
  destruct (align_up_bounds (b_data x) al) as [Hb Hm]; [done|lia|done|].
  rewrite sub64_small by (unfold is_u64; lia).
  split_and!; [done|lia|lia|by replace (b_data x + (ALIGN_UP (b_data x) al - b_data x))
    with (ALIGN_UP (b_data x) al) by lia|].
  destruct Hc as [[Ea _]|[_ Hle]]; [left|right; lia].
  apply is_aligned_spec in Ea; [|done]. rewrite align_up_aligned; done || lia.
Qed.

Lemma carve_sum size al x :
  fits size al x -> (padding al x = 0 \/ padding al x + size < b_size x) -> 0 <= padding al x ->
  sum_of b_used (carve size al x) = size /\ sum_of (fun _ => true) (carve size al x) = b_size x.
Proof.
  intros [Hf _] Hp H0'. unfold carve. rewrite !sum_of_app.
  destruct (Z.ltb_spec 0 (padding al x)), (Z.ltb_spec (padding al x + size) (b_size x)); simpl; lia.
Qed.

(** The cut behind the allocation alone. *)
Definition cut_used (size : Z) (x : block_t) : list block_t :=
  mk_block size (b_data x) true None ::
  (if size <? b_size x then [mk_block (b_size x - size) (b_data x + size) false None] else []).

(** The layout is a property of the address ranges. *)
Definition range (b : block_t) : Z * Z := (b_data b, b_size b).

Lemma layout_range L L' : range <$> L = range <$> L' -> layout L -> layout L'.
Proof.
  revert L'. induction L as [|b L IH]; intros [|c L'] E; try done.
  rewrite !fmap_cons in E. injection E as E1 E2 E. intros [Hok Hs].
  rewrite Forall_cons in Hok. rewrite StronglySorted_cons in Hs. destruct Hok as [Hb Hok], Hs as [Hf Hs].
  destruct (IH L' E (conj Hok Hs)) as [Hok' Hs']. split; [constructor; [|done]|].
  - unfold block_ok in *. by rewrite <- E1, <- E2.
  - apply StronglySorted_cons. split; [|done]. rewrite Forall_forall in Hf |- *. intros x Hx.
    assert (range x ∈ range <$> L) as Hin by (rewrite E; by apply list_elem_of_fmap_2).
    apply list_elem_of_fmap in Hin as (y & Ey & Hy). specialize (Hf y Hy).
    unfold before in *. injection Ey as -> _. by rewrite <- E1, <- E2.
Qed.

Lemma cut_used_layout V1 x V2 size :
  layout (V1 ++ x :: V2) -> 0 < size <= b_size x -> layout (V1 ++ cut_used size x ++ V2).
Proof.
  intros Hlay Hs. unfold cut_used. destruct (Z.ltb_spec size (b_size x)) as [Hlt|Hge]; simpl.
  - apply (layout_split _ _ _ size false None) in Hlay; [|lia].
    eapply layout_range; [|exact Hlay]. by rewrite !fmap_app.
  - eapply layout_range; [|exact Hlay]. rewrite !fmap_app, !fmap_cons. do 2 f_equal.
    unfold range. simpl. f_equal. lia.
Qed.

Lemma cut_used_sum x size :
  size <= b_size x ->
  sum_of b_used (cut_used size x) = size /\ sum_of (fun _ => true) (cut_used size x) = b_size x.
Proof. intros Hs. unfold cut_used. destruct (Z.ltb_spec size (b_size x)); simpl; lia. Qed.

Section Alloc.
Context {H P : Type} `{HostAllocLaws H}.
Context (T : list string) (ok : H -> Prop) `{!Reliable T ok}.
(** The free lists can grow; blocks and their nodes need not. *)
Hypothesis elem_reliable : tag_elem ∈ T.
Hypothesis head_reliable : tag_head ∈ T.
Hypothesis free_reliable : tag_free ∈ T.
Implicit Types (s : cstate H P) (B : list entry) (F : list fentry) (X : list Z).

(** What the search returns: a best fit for the size (aligned), or for the
    size with room for any padding. *)
Definition chosen B (size al : Z) (en : entry) : Prop :=
  best_fit B size en /\ IS_ALIGNED (b_data (en_block en)) al = true \/
  best_fit B (size + al) en.

Lemma chosen_fits B size al en : 0 <= al -> chosen B size al en -> fits size al (en_block en).
Proof. intros Ha [[(_ & _ & Hle & _) Hal]|(_ & _ & Hle & _)]; split; auto; lia. Qed.

(** A search fails only if no listed block has room for the size and any
    padding. *)
Definition none_fits B (size al : Z) : Prop :=
  size + al < two64 -> forall en, en ∈ B -> listed en -> b_size (en_block en) < size + al.

Lemma wp_fastest s B F X size al (Q : option Z -> cstate H P -> Prop) :
  heaps_inv s B F X -> 0 < size < two64 -> 0 <= al < two64 ->
  (forall s' F' B1 en B2, B = B1 ++ en :: B2 -> chosen B size al en ->
     b_used (en_block en) = false ->
     heaps_inv s' (B1 ++ upd_block (with_b_free_list_ptr None) en :: B2) F' (en_ptr en :: X) ->
     same_ctl s s' -> Q (Some (en_ptr en)) s') ->
  (none_fits B size al -> Q None s) ->
  wp (if add64 size al <? size then mret None
      else free_blocks_rm_ge (add64 size al) 0 CHECK_ONLY_THE_FIRST_BLOCK) Q s.
Proof.
  intros Hinv Hs Ha HQ1 HQ2. destruct (Z.ltb_spec (add64 size al) size) as [Hlt|Hge].
  - apply wp_ret, HQ2. intros Hfit. rewrite add64_small in Hlt by (unfold is_u64; lia). lia.
  - assert (size + al < two64) as Hfit.
    { destruct (Z.lt_ge_cases (size + al) two64) as [|Hov]; [done|].
      unfold add64, wrap64 in Hge. rewrite <- (Z_mod_plus_full _ (-1)) in Hge.
      rewrite Z.mod_small in Hge by (unfold two64 in *; lia). unfold two64 in *. lia. }
    rewrite add64_small by (unfold is_u64; lia).
    eapply wp_free_blocks_rm_ge; [exact Hinv| |].
    + intros s' F' B1 en B2 EB Hb Hu _ Hinv' Hc. eapply HQ1; [done|by right|done|done|done].
    + intros [Hno|[(en & _ & Hal) _]]; [by apply HQ2; intros _|done].
Qed.

Lemma wp_find_free_block s B F X size al strategy (Q : option Z -> cstate H P -> Prop) :
  heaps_inv s B F X -> 0 < size < two64 -> 0 <= al < two64 ->
  (forall s' F' B1 en B2, B = B1 ++ en :: B2 -> chosen B size al en ->
     b_used (en_block en) = false ->
     heaps_inv s' (B1 ++ upd_block (with_b_free_list_ptr None) en :: B2) F' (en_ptr en :: X) ->
     same_ctl s s' -> Q (Some (en_ptr en)) s') ->
  (none_fits B size al -> Q None s) ->
  wp (find_free_block size al strategy) Q s.
Proof.
  intros Hinv Hs Ha HQ1 HQ2. unfold find_free_block.
  destruct strategy; [|by eapply wp_fastest|]; apply wp_bind;
    (eapply wp_free_blocks_rm_ge; [exact Hinv| |intros _; by eapply wp_fastest]);
    intros s' F' B1 en B2 EB Hb Hu Hal Hinv' Hc; apply wp_ret;
    (eapply HQ1; [done|by left|done|done|done]).
Qed.

(** A block that could not be cut goes back to the free lists. *)
Lemma wp_re_add s B1 en B2 F X merge (Q : Z -> cstate H P -> Prop) :
  heaps_inv s (B1 ++ en :: B2) F (en_ptr en :: X) -> layout (view (B1 ++ en :: B2)) ->
  cb_merge (c_cb (co s)) = Some merge -> ok (c_host s) ->
  b_free_list_ptr (en_block en) = None -> b_used (en_block en) = false ->
  (forall s' B' F', heaps_inv s' B' F' X -> layout (view B') -> same_but_provider s s' ->
     coalesce merge (view B1) (en_block en) (view B2) (provider s) = (view B', provider s') ->
     Q 0 s') ->
  wp (free_blocks_re_add (en_ptr en)) Q s.
Proof.
  intros Hinv Hlay Hm Hok Hn Hu HQ. unfold free_blocks_re_add. apply wp_bind.
  eapply wp_load_block; [by eapply heaps_inv_in|]. apply wp_bind.
  eapply wp_find_node_some; [apply Hinv|]. wp_step; [done|].
  eapply wp_coalesce; [exact Hinv|done|exact Hm|done|done|].
  intros s' F' C1 en' C2 Hinv' Hlay' Hsbp Hn' Hu' Eco. apply wp_bind.
  eapply wp_get_node_block; [apply Hinv'|].
  eapply (wp_free_blocks_add T ok); [done|exact Hinv'| |done|done| |by intros s2 []; tauto].
  { destruct (sbp_object _ _ Hsbp) as [Hobj _]. by eapply (same_object_ok T ok). }
  intros s2 F2 e Hinv2 Hc2. eapply HQ; [exact Hinv2| | |].
  - by rewrite view_upd.
  - eapply sbp_trans; [exact Hsbp|by apply sbp_ctl].
  - destruct Hc2 as (_ & _ & _ & _ & _ & _ & _ & -> & _). by rewrite view_upd.
Qed.

Lemma heaps_inv_sub s B F X X' :
  heaps_inv s B F X -> (forall q, q ∈ X -> q ∈ X') -> heaps_inv s B F X'.
Proof. intros Hinv Hx. eapply heaps_inv_drop; [exact Hinv|]. auto. Qed.

Variable uninit_used : Z -> bool.

(** Cutting the padding off: the old block keeps it and is listed. *)
Lemma wp_create_aligned s B1 en B2 F X size al split (Q : umf_result_t * Z -> cstate H P -> Prop) :
  let b := en_block en in let pad := padding al b in
  heaps_inv s (B1 ++ en :: B2) F (en_ptr en :: X) -> layout (view (B1 ++ en :: B2)) ->
  cb_split (c_cb (co s)) = Some split -> ok (c_host s) -> pow2 al -> 0 < size -> fits size al b ->
  b_free_list_ptr b = None ->
  (pad = 0 -> Q (UMF_RESULT_SUCCESS, en_ptr en) s) ->
  (forall r p, split (b_data b) (b_size b) pad (provider s) = (r, p) -> r <> UMF_RESULT_SUCCESS ->
     Q (r, en_ptr en) (set_provider p s)) ->
  (forall p s', split (b_data b) (b_size b) pad (provider s) = (UMF_RESULT_SUCCESS, p) ->
     ~ (tag_block ∈ T /\ tag_all ∈ T) ->
     heaps_inv s' (B1 ++ en :: B2) F (en_ptr en :: X) -> same_ctl (set_provider p s) s' ->
     Q (UMF_RESULT_ERROR_OUT_OF_HOST_MEMORY, en_ptr en) s') ->
  (forall p s' F' n q e, 0 < pad -> pad + size < b_size b ->
     split (b_data b) (b_size b) pad (provider s) = (UMF_RESULT_SUCCESS, p) ->
     heaps_inv s' (B1 ++ En (en_node en) (en_ptr en) (mk_block pad (b_data b) false (Some e)) ::
       En n q (second_part pad (uninit_used q) b) :: B2) F' (q :: X) ->
     same_ctl (set_provider p s) s' -> Q (UMF_RESULT_SUCCESS, q) s') ->
  wp (create_aligned_block uninit_used size al (en_ptr en)) Q s.
Proof.
  intros b pad Hinv Hlay Hsp Hok Hal Hs Hfits Hn HQ1 HQ2 HQ3 HQ4.
  pose proof (layout_middle _ _ _ (eq_ind _ layout (proj1 (layout_view _) Hlay) _
      (fmap_app en_block B1 (en :: B2)))) as Hbok.
  destruct (fits_padding size al b Hal Hbok Hs Hfits) as (Ep & Hp1 & _ & Hp2). fold pad in Ep, Hp1, Hp2.
  unfold create_aligned_block. apply wp_bind. eapply wp_load_block; [by eapply heaps_inv_in|].
  fold b. rewrite Ep. destruct (Z.ltb_spec 0 al); [|lia].
  destruct (Z.ltb_spec 0 pad) as [Hpos|Hz]; simpl; [|by apply wp_ret, HQ1; lia].
  apply wp_bind. eapply wp_can_split; [exact Hsp|]. intros r p Er.
  case_bool_decide as Hr; simpl; [|by apply wp_ret, HQ2]. subst r. apply wp_bind.
  apply (wp_add_cut T ok uninit_used (set_provider p s) B1 en B2 F (en_ptr en :: X) pad);
    [by apply heaps_inv_provider|done|fold b; lia|done| |].
  - intros s' Hno Hinv' Hc. by apply wp_ret, (HQ3 p).
  - intros s' n q Hinv' Hc. apply wp_bind.
    eapply wp_store_block; [by eapply heaps_inv_in|].
    pose proof (heaps_inv_store _ _ _ _ _ _ (with_b_used false) Hinv' eq_refl Hn Hn) as Hinv2.
    apply wp_bind. eapply wp_store_block; [by eapply (heaps_inv_in _ _ _ _ _ _ Hinv2)|].
    pose proof (heaps_inv_store _ _ _ _ _ _ (with_b_size pad) Hinv2 eq_refl Hn Hn) as Hinv3.
    eapply (heaps_inv_sub _ _ _ _ (en_ptr en :: q :: X)) in Hinv3;
      [|intros a; simpl; rewrite !elem_of_cons; tauto].
    apply wp_bind. eapply (wp_free_blocks_add T ok elem_reliable _ _
      (upd_block (with_b_size pad) (upd_block (with_b_used false) en)));
      [exact Hinv3| |exact Hn|done| |by intros s2 []; tauto].
    { simpl. eapply (reliable_steps T ok); [exact Hok|apply Hc]. }
    intros s2 F2 e Hinv4 Hc2. simpl. apply wp_bind.
    change (B1 ++ ?x :: ?y :: B2) with (B1 ++ [x] ++ y :: B2) in Hinv4. rewrite app_assoc in Hinv4.
    eapply wp_load_block; [by eapply (heaps_inv_in _ _ _ _ _ _ Hinv4)|].
    rewrite <- app_assoc in Hinv4. simpl in Hinv4. fold b in Hinv4 |- *.
    wp_step; [apply Z.leb_le; simpl; lia|]. apply wp_ret.
    eapply (HQ4 p s2 F2 n q e); [done|lia|done|exact Hinv4|by eapply same_ctl_trans].
Qed.

(** Cutting the rest off: the new block behind is listed. *)
Lemma wp_split_current s B1 en B2 F X size split (Q : umf_result_t -> cstate H P -> Prop) :
  let b := en_block en in
  heaps_inv s (B1 ++ en :: B2) F X -> layout (view (B1 ++ en :: B2)) ->
  cb_split (c_cb (co s)) = Some split -> ok (c_host s) -> 0 < size < b_size b ->
  (forall r p, split (b_data b) (b_size b) size (provider s) = (r, p) -> r <> UMF_RESULT_SUCCESS ->
     Q r (set_provider p s)) ->
  (forall p s', split (b_data b) (b_size b) size (provider s) = (UMF_RESULT_SUCCESS, p) ->
     ~ (tag_block ∈ T /\ tag_all ∈ T) ->
     heaps_inv s' (B1 ++ en :: B2) F X -> same_ctl (set_provider p s) s' ->
     Q UMF_RESULT_ERROR_OUT_OF_HOST_MEMORY s') ->
  (forall p s' F' n q e,
     split (b_data b) (b_size b) size (provider s) = (UMF_RESULT_SUCCESS, p) ->
     heaps_inv s' (B1 ++ en ::
       En n q (mk_block (b_size b - size) (b_data b + size) false (Some e)) :: B2) F' X ->
     same_ctl (set_provider p s) s' -> Q UMF_RESULT_SUCCESS s') ->
  wp (split_current_block uninit_used (en_ptr en) size) Q s.
Proof.
  intros b Hinv Hlay Hsp Hok Hs HQ1 HQ2 HQ3. unfold split_current_block.
  apply wp_bind. eapply wp_load_block; [by eapply heaps_inv_in|]. fold b.
  apply wp_bind. eapply wp_can_split; [exact Hsp|]. intros r p Er.
  case_bool_decide as Hr; simpl; [|by apply wp_ret, HQ1]. subst r. apply wp_bind.
  apply (wp_add_cut T ok uninit_used (set_provider p s) B1 en B2 F X size);
    [by apply heaps_inv_provider|done|fold b; lia|done| |].
  - intros s' Hno Hinv' Hc. by apply wp_ret, (HQ2 p).
  - intros s' n q Hinv' Hc.
    change (B1 ++ ?x :: ?y :: B2) with (B1 ++ [x] ++ y :: B2) in Hinv'. rewrite app_assoc in Hinv'.
    apply wp_bind. eapply wp_store_block; [by eapply (heaps_inv_in _ _ _ _ _ _ Hinv')|].
    pose proof (heaps_inv_store _ _ _ _ _ _ (with_b_used false) Hinv' eq_refl eq_refl eq_refl) as Hinv2.
    apply wp_bind. eapply (wp_get_node_block _ _ (upd_block (with_b_used false)
      (En n q (second_part size (uninit_used q) b)))); [apply Hinv2|].
    eapply (heaps_inv_sub _ _ _ _ (q :: X)) in Hinv2; [|intros a; simpl; rewrite !elem_of_cons; tauto].
    apply wp_bind. eapply (wp_free_blocks_add T ok elem_reliable _ _ (upd_block (with_b_used false)
      (En n q (second_part size (uninit_used q) b)))); [exact Hinv2| |done|done| |by intros s2 []; tauto].
    { simpl. eapply (reliable_steps T ok); [exact Hok|apply Hc]. }
    intros s2 F2 e Hinv4 Hc2. simpl. apply wp_ret. rewrite <- app_assoc in Hinv4.
    eapply (HQ3 p s2 F2 n q e); [done|exact Hinv4|by eapply same_ctl_trans].
Qed.

(** The end of [use_block]: the block is marked used and counted. *)
Lemma wp_mark_used s B1 en B2 F X size
    (Q : umf_result_t * option Z -> cstate H P -> Prop) :
  let b := en_block en in
  heaps_inv s (B1 ++ en :: B2) F (en_ptr en :: X) ->
  layout (view B1 ++ with_b_used true (clean b) :: view B2) -> ok (c_host s) -> params_ok s ->
  b_free_list_ptr b = None -> b_size b = size ->
  used_size (co s) = sum_of b_used (view B1) + sum_of b_used (view B2) ->
  alloc_size (co s) = sum_of (fun _ => true) (view (B1 ++ en :: B2)) ->
  (forall s' B', coarse_inv ok s' B' X -> same_object s s' -> c_lock (co s') = c_lock (co s) ->
     provider s' = provider s -> view B' = view B1 ++ mk_block size (b_data b) true None :: view B2 ->
     Q (UMF_RESULT_SUCCESS, Some (b_data b)) s') ->
  wp (store_block (en_ptr en) (with_b_used true);;
      b ← load_block (en_ptr en);
      modify (fun s => set_used_size (add64 (used_size (co s)) size) s);;
      mret (UMF_RESULT_SUCCESS, Some (b_data b))) Q s.
Proof.
  intros b Hinv Hlay Hok Hpar Hn Esz Hus Hal HQ. apply wp_bind.
  eapply wp_store_block; [by eapply heaps_inv_in|].
  pose proof (heaps_inv_store _ _ _ _ _ _ (with_b_used true) Hinv eq_refl Hn Hn) as Hinv2.
  apply wp_bind. eapply wp_load_block; [simpl; apply lookup_insert_eq|]. wp_step. apply wp_ret.
  set (B' := B1 ++ upd_block (with_b_used true) en :: B2) in Hinv2.
  assert (view B' = view B1 ++ with_b_used true (clean b) :: view B2) as EV by apply view_app.
  assert (with_b_used true (clean b) = mk_block size (b_data b) true None) as Eb by (rewrite <- Esz; done).
  pose proof (sum_of_u64 _ b_used Hlay) as Hsum. rewrite sum_of_app in Hsum. simpl in Hsum.
  fold b in Hsum. rewrite Esz in Hsum.
  eapply (HQ _ B'); [|by unfold same_object; simpl; split_and!; auto with umf|done|done|by rewrite EV, Eb].
  eapply (coarse_inv_intro T ok s).
  - eapply heaps_inv_drop; [apply heaps_inv_co; [done..|exact Hinv2]|]. intros e He Hue.
    pose proof (used_ptr _ _ (upd_block (with_b_used true) en) e (proj1 Hinv2)) as N1.
    unfold B' in N1. rewrite elem_of_app, elem_of_cons in N1. specialize (N1 ltac:(auto) eq_refl He Hue).
    simpl in N1. rewrite !elem_of_cons. tauto.
  - by rewrite EV.
  - unfold same_object. simpl. split_and!; auto with umf.
  - done.
  - done.
  - simpl. rewrite EV, sum_of_app, Hus, add64_small; [|unfold is_u64; lia]. simpl. fold b. lia.
  - simpl. rewrite EV, Hal, view_app, !sum_of_app. done.
Qed.

Lemma wp_give_back {A} (k : M (cstate H P) A) s B1 en B2 F X merge (Q : A -> cstate H P -> Prop) :
  let b := en_block en in
  heaps_inv s (B1 ++ en :: B2) F (en_ptr en :: X) -> layout (view (B1 ++ en :: B2)) ->
  cb_merge (c_cb (co s)) = Some merge -> ok (c_host s) -> params_ok s ->
  b_free_list_ptr b = None -> b_used b = false ->
  used_size (co s) = sum_of b_used (view B1) + sum_of b_used (view B2) ->
  alloc_size (co s) = sum_of (fun _ => true) (view (B1 ++ en :: B2)) ->
  (forall s' B', coarse_inv ok s' B' X -> same_object s s' -> c_lock (co s') = c_lock (co s) ->
     coalesce merge (view B1) b (view B2) (provider s) = (view B', provider s') -> wp k Q s') ->
  wp (free_blocks_re_add (en_ptr en);; k) Q s.
Proof.
  intros b Hinv Hlay Hm Hok Hpar Hn Hu Hus Hal HQ. apply wp_bind.
  eapply wp_re_add; [exact Hinv|done|exact Hm|done|done|done|].
  intros s' B' F' Hinv' Hlay' Hsbp Eco. destruct (sbp_object _ _ Hsbp) as [Hobj Hlock].
  destruct (coalesce_sum _ _ _ _ _ _ _ Eco Hu) as [E1 E2].
  rewrite sum_of_app in E1, E2. simpl in E1, E2. fold b in E1, E2. rewrite Hu in E1.
  rewrite view_app, sum_of_app in Hal. simpl in Hal. fold b in Hal.
  unfold same_but_provider, same_ctl in Hsbp. simpl in Hsbp.
  destruct Hsbp as (_ & _ & _ & _ & _ & Eus & Eal & _).
  eapply HQ; [|done|done|done]. eapply (coarse_inv_intro T ok s); [exact Hinv'|done|done|done|done|..].
  - rewrite Eus, Hus, E1. lia.
  - rewrite Eal, Hal, E2. lia.
Qed.

(** The provider splits whenever it is asked to and the host has memory for
    the new blocks. *)
Definition split_reliable (split : Z -> Z -> Z -> P -> umf_result_t * P) : Prop :=
  tag_block ∈ T /\ tag_all ∈ T /\ forall a t f p, (split a t f p).1 = UMF_RESULT_SUCCESS.

(** The outcome of a cut that the provider answered with [r0]: refused, or
    no memory for the new block. *)
Definition cut_error (r0 r : umf_result_t) : Prop :=
  r <> UMF_RESULT_SUCCESS /\
  (r = r0 \/ r0 = UMF_RESULT_SUCCESS /\ r = UMF_RESULT_ERROR_OUT_OF_HOST_MEMORY).

Definition cut_rest (size : Z) (curr : Z) (split : bool) (out : option Z)
  : M (cstate H P) (umf_result_t * option Z) :=
  umf_result ←
    (if split then
       umf_result ← split_current_block uninit_used curr size;
       if negb (bool_decide (umf_result = UMF_RESULT_SUCCESS)) then
         free_blocks_re_add curr;; mret umf_result
       else store_block curr (with_b_size size);; mret UMF_RESULT_SUCCESS
     else mret UMF_RESULT_SUCCESS);
  if negb (bool_decide (umf_result = UMF_RESULT_SUCCESS)) then mret (umf_result, out)
  else
    store_block curr (with_b_used true);;
    b ← load_block curr;
    modify (fun s => set_used_size (add64 (used_size (co s)) size) s);;
    mret (UMF_RESULT_SUCCESS, Some (b_data b)).

Lemma wp_cut_rest s B1 en B2 F X size split merge out
    (Q : umf_result_t * option Z -> cstate H P -> Prop) :
  let b := en_block en in
  heaps_inv s (B1 ++ en :: B2) F (en_ptr en :: X) -> layout (view (B1 ++ en :: B2)) ->
  cb_split (c_cb (co s)) = Some split -> cb_merge (c_cb (co s)) = Some merge ->
  ok (c_host s) -> params_ok s -> b_free_list_ptr b = None -> 0 < size <= b_size b ->
  b_used b = false \/ split_reliable split ->
  used_size (co s) = sum_of b_used (view B1) + sum_of b_used (view B2) ->
  alloc_size (co s) = sum_of (fun _ => true) (view (B1 ++ en :: B2)) ->
  (forall s' B', coarse_inv ok s' B' X -> same_object s s' -> c_lock (co s') = c_lock (co s) ->
     view B' = view B1 ++ cut_used size b ++ view B2 ->
     (if size <? b_size b then split (b_data b) (b_size b) size (provider s)
      else (UMF_RESULT_SUCCESS, provider s)) = (UMF_RESULT_SUCCESS, provider s') ->
     Q (UMF_RESULT_SUCCESS, Some (b_data b)) s') ->
  (forall r0 r p s' B', split (b_data b) (b_size b) size (provider s) = (r0, p) -> cut_error r0 r ->
     b_used b = false -> size < b_size b ->
     coarse_inv ok s' B' X -> same_object s s' -> c_lock (co s') = c_lock (co s) ->
     coalesce merge (view B1) b (view B2) p = (view B', provider s') -> Q (r, out) s') ->
  wp (cut_rest size (en_ptr en) (size <? b_size b) out) Q s.
Proof.
  intros b Hinv Hlay Hsp Hm Hok Hpar Hn Hs Hinit Hus Hal HQ1 HQ2. unfold cut_rest.
  assert (clean b = b) as Ecl by (by apply clean_id).
  assert (layout (view B1 ++ b :: view B2)) as Hlayb.
  { rewrite view_app in Hlay. rewrite <- Ecl. exact Hlay. }
  apply wp_bind. unfold cut_used in HQ1. destruct (Z.ltb_spec size (b_size b)) as [Hlt|Hge]; cycle 1.
  { apply wp_ret. simpl. eapply wp_mark_used; [exact Hinv| |done|done|done|fold b; lia|done|done|].
    { apply layout_used. fold b. by rewrite Ecl. }
    intros s' B' Hci Hobj Hlock Ep EV. eapply HQ1; [exact Hci|done|done|done|by rewrite Ep]. }
  apply wp_bind. eapply wp_split_current; [exact Hinv|done|exact Hsp|done|fold b; lia|..]; fold b.
  - intros r p Er Hr. rewrite bool_decide_eq_false_2 by done. simpl.
    destruct Hinit as [Hu|(_ & _ & Hrel)]; cycle 1.
    { specialize (Hrel (b_data b) (b_size b) size (provider s)). rewrite Er in Hrel. done. }
    eapply (wp_give_back (mret r) (set_provider p s) B1 en B2 F X merge);
      [by apply heaps_inv_provider|done..|].
    intros s' B' Hci Hobj Hlock Eco. apply wp_ret. rewrite bool_decide_eq_false_2 by done. simpl.
    apply wp_ret. eapply (HQ2 r r p s' B'); try done. split; auto.
  - intros p s1 Er Hno Hinv1 Hc. rewrite bool_decide_eq_false_2 by done. simpl.
    destruct Hinit as [Hu|(T1 & T2 & _)]; [|tauto].
    destruct (sbp_object _ _ (sbp_provider_ctl _ _ _ Hc)) as [Hobj1 Hlock1].
    pose proof Hc as (_ & _ & _ & _ & _ & Eus & Eal & Ep & _). simpl in Eus, Eal, Ep.
    eapply (wp_give_back (mret _) s1 B1 en B2 F X merge);
      [exact Hinv1|done| | | |done|done|by rewrite Eus|by rewrite Eal|].
    { destruct Hobj1 as (_ & -> & _). done. }
    { by eapply (same_object_ok T ok). }
    { by eapply same_object_params. }
    intros s' B' Hci Hobj Hlock Eco. apply wp_ret. simpl.
    apply wp_ret. eapply (HQ2 _ _ p s' B'); [exact Er| |done|done|done|by eapply same_object_trans|congruence|].
    { split; [done|]. by right. }
    by rewrite <- Ep.
  - intros p s1 F1 n q e Er Hinv1 Hc. simpl. apply wp_bind.
    eapply wp_store_block; [by eapply heaps_inv_in|].
    pose proof (heaps_inv_store _ _ _ _ _ _ (with_b_size size) Hinv1 eq_refl Hn Hn) as Hinv2.
    eapply (heaps_inv_sub _ _ _ _ (en_ptr en :: X)) in Hinv2;
      [|intros a; simpl; rewrite !elem_of_cons; tauto].
    apply wp_ret. simpl.
    destruct (sbp_object _ _ (sbp_provider_ctl _ _ _ Hc)) as [Hobj1 Hlock1].
    pose proof Hc as (_ & _ & _ & _ & _ & Eus & Eal & Ep & _). simpl in Eus, Eal, Ep.
    set (s2 := set_blocks _ s1) in *. set (B2' := _ :: B2) in Hinv2.
    assert (view B2' = mk_block (b_size b - size) (b_data b + size) false None :: view B2) as EV2 by done.
    assert (same_object s s2) as Hobj2 by exact Hobj1.
    eapply (wp_mark_used s2 B1 (upd_block (with_b_size size) en) B2' F1 X size);
      [exact Hinv2| | | |exact Hn|done| | |].
    + rewrite EV2. simpl. pose proof (cut_used_layout _ _ _ size Hlayb) as Hc2. unfold cut_used in Hc2.
      destruct (Z.ltb_spec size (b_size b)); [|lia]. by apply Hc2; lia.
    + by eapply (same_object_ok T ok).
    + by eapply same_object_params.
    + rewrite EV2. simpl. rewrite Eus, Hus. done.
    + rewrite view_app, sum_of_app in Hal |- *. simpl. simpl in Hal. rewrite Eal, Hal. fold b. lia.
    + intros s' B' Hci Hobj Hlock Ep' EV. eapply HQ1; [exact Hci|by eapply same_object_trans|
        rewrite Hlock; exact Hlock1|by rewrite EV, EV2|]. rewrite Er, Ep'. simpl. by rewrite Ep.
Qed.

(** The provider's answers to the cuts of one allocation. *)
Definition carve_calls (split : Z -> Z -> Z -> P -> umf_result_t * P) (size al : Z) (x : block_t)
    (p : P) : umf_result_t * P :=
  let pad := padding al x in
  match (if 0 <? pad then split (b_data x) (b_size x) pad p else (UMF_RESULT_SUCCESS, p)) with
  | (UMF_RESULT_SUCCESS, p1) =>
      if pad + size <? b_size x then split (b_data x + pad) (b_size x - pad) size p1
      else (UMF_RESULT_SUCCESS, p1)
  | r => r
  end.

(** [V'] are the blocks after [x], or what is left of it without its padding,
    has gone back to the free lists. *)
Definition given_back merge V1 x V2 al V' (p' : P) : Prop :=
  let pad := padding al x in
  (exists p, coalesce merge V1 x V2 p = (V', p')) \/
  (0 < pad < b_size x /\ exists p, coalesce merge (V1 ++ [mk_block pad (b_data x) false None])
                 (second_part pad false x) V2 p = (V', p')).

(** Errors of an allocation that found a block. *)
Definition use_error (split : Z -> Z -> Z -> P -> umf_result_t * P) (r : umf_result_t) : Prop :=
  r <> UMF_RESULT_SUCCESS /\
  (r = UMF_RESULT_ERROR_OUT_OF_HOST_MEMORY \/ exists a t f p, (split a t f p).1 = r).

Lemma cut_use_error split a t f p r0 p' r :
  split a t f p = (r0, p') -> cut_error r0 r -> use_error split r.
Proof.
  intros E [Hr [->|[-> ->]]]; split; auto. right. exists a, t, f, p. by rewrite E.
Qed.

Lemma use_block_eq curr size alignment out s b :
  blocks s !! curr = Some b -> size <= b_size b -> b_used b = false -> 0 < alignment ->
  use_block uninit_used curr size alignment out s =
  ('(umf_result, curr) ← create_aligned_block uninit_used size alignment curr;
   if negb (bool_decide (umf_result = UMF_RESULT_SUCCESS)) then
     free_blocks_re_add curr;; mret (umf_result, out)
   else cut_rest size curr (size <? b_size b) out) s.
Proof.
  intros Hb Hs Hu Ha. unfold use_block, load_block. unfold mbind at 1, M_bind. simpl.
  unfold mbind at 1, M_bind, get, of_option. rewrite Hb. simpl.
  destruct (Z.ltb_spec (b_size b) size); [lia|]. rewrite Hu. simpl.
  destruct (Z.ltb_spec 0 alignment); [done|lia].
Qed.

Lemma wp_use_block s B1 en B2 F X size al split merge out
    (Q : umf_result_t * option Z -> cstate H P -> Prop) :
  let x := en_block en in
  heaps_inv s (B1 ++ en :: B2) F (en_ptr en :: X) -> layout (view (B1 ++ en :: B2)) ->
  cb_split (c_cb (co s)) = Some split -> cb_merge (c_cb (co s)) = Some merge ->
  ok (c_host s) -> params_ok s -> b_free_list_ptr x = None -> b_used x = false ->
  pow2 al -> 0 < size -> fits size al x ->
  (forall p, uninit_used p = false) \/ split_reliable split ->
  used_size (co s) = sum_of b_used (view (B1 ++ en :: B2)) ->
  alloc_size (co s) = sum_of (fun _ => true) (view (B1 ++ en :: B2)) ->
  (forall s' B', coarse_inv ok s' B' X -> same_object s s' -> c_lock (co s') = c_lock (co s) ->
     view B' = view B1 ++ carve size al x ++ view B2 ->
     carve_calls split size al x (provider s) = (UMF_RESULT_SUCCESS, provider s') ->
     Q (UMF_RESULT_SUCCESS, Some (b_data x + padding al x)) s') ->
  (forall r s' B', use_error split r ->
     coarse_inv ok s' B' X -> same_object s s' -> c_lock (co s') = c_lock (co s) ->
     given_back merge (view B1) x (view B2) al (view B') (provider s') -> Q (r, out) s') ->
  wp (use_block uninit_used (en_ptr en) size al out) Q s.
Proof.
  intros x Hinv Hlay Hsp Hm Hok Hpar Hn Hu Hal Hs Hfits Hinit Hus Hals HQ1 HQ2.
  pose proof (layout_middle _ _ _ (eq_ind _ layout (proj1 (layout_view _) Hlay) _
      (fmap_app en_block B1 (en :: B2)))) as Hxok. change (block_ok x) in Hxok.
  destruct (fits_padding size al x Hal Hxok Hs Hfits) as (_ & Hp1 & _ & Hp2).
  pose proof (pow2_pos _ Hal) as Hal0.
  assert (used_size (co s) = sum_of b_used (view B1) + sum_of b_used (view B2)) as Hus'.
  { rewrite Hus, view_app, sum_of_app. simpl. fold x. rewrite Hu. lia. }
  assert (clean x = x) as Ecl by (by apply clean_id).
  unfold wp. rewrite (use_block_eq _ _ _ _ _ x); [|by eapply heaps_inv_in|apply Hfits|done|done].
  apply wp_bind. eapply wp_create_aligned; [exact Hinv|done|exact Hsp|done|done|done|done|done|..]; fold x.
  - intros Hz. simpl. eapply wp_cut_rest; [exact Hinv|done|exact Hsp|exact Hm|done|done|done| |by left|done|done|..];
      fold x; [destruct Hfits; lia| |].
    + intros s' B' Hci Hobj Hlock EV Esp. unfold carve, carve_calls in HQ1. rewrite Hz in HQ1.
      rewrite !Z.add_0_l, !Z.add_0_r, !Z.sub_0_r in HQ1. by apply (HQ1 s' B').
    + intros r0 r p s' B' Er Hcut _ _ Hci Hobj Hlock Eco.
      eapply HQ2; [by eapply cut_use_error|exact Hci|done|done|left; by exists p].
  - intros r p Er Hr. rewrite bool_decide_eq_false_2 by done. simpl.
    eapply (wp_give_back _ (set_provider p s) B1 en B2 F X merge);
      [by apply heaps_inv_provider|done..|].
    intros s' B' Hci Hobj Hlock Eco. apply wp_ret.
    eapply HQ2; [eapply cut_use_error; [exact Er|]; split; auto|exact Hci|done|done|left; by exists p].
  - intros p s1 Er Hno Hinv1 Hc. simpl.
    destruct (sbp_object _ _ (sbp_provider_ctl _ _ _ Hc)) as [Hobj1 Hlock1].
    pose proof Hc as (_ & _ & _ & _ & _ & Eus & Eal & Ep & _). simpl in Eus, Eal, Ep.
    eapply (wp_give_back _ s1 B1 en B2 F X merge);
      [exact Hinv1|done| | | |done|done|by rewrite Eus|by rewrite Eal|].
    { destruct Hobj1 as (_ & -> & _). done. }
    { by eapply (same_object_ok T ok). }
    { by eapply same_object_params. }
    intros s' B' Hci Hobj Hlock Eco. apply wp_ret. eapply HQ2; [|exact Hci|
      by eapply same_object_trans|congruence|left; by exists (provider s1)].
    split; [done|by left].
  - intros p s1 F1 n q e Hpos Hlt Er Hinv1 Hc. simpl.
    destruct (sbp_object _ _ (sbp_provider_ctl _ _ _ Hc)) as [Hobj1 Hlock1].
    pose proof Hc as (_ & _ & _ & _ & _ & Eus & Eal & Ep & _). simpl in Eus, Eal, Ep.
    set (pe := En (en_node en) (en_ptr en) _) in Hinv1. set (y := second_part _ _ x) in Hinv1.
    change (B1 ++ pe :: ?a :: B2) with (B1 ++ [pe] ++ a :: B2) in Hinv1. rewrite app_assoc in Hinv1.
    assert (view (B1 ++ [pe]) = view B1 ++ [mk_block (padding al x) (b_data x) false None]) as EV1
      by apply view_app.
    replace (size <? b_size x) with (size <? b_size y) by (simpl; lia).
    eapply (wp_cut_rest s1 (B1 ++ [pe]) (En n q y) B2 F1 X size split merge);
      [exact Hinv1| | | | | |done|simpl; lia| | | |..].
    + rewrite view_app, EV1, <- app_assoc. rewrite view_app in Hlay.
      apply (layout_split _ _ _ (padding al x) (uninit_used q) None) in Hlay; [|simpl; fold x; lia].
      eapply layout_range; [|exact Hlay]. by rewrite !fmap_app.
    + destruct Hobj1 as (_ & -> & _). done.
    + destruct Hobj1 as (_ & -> & _). done.
    + by eapply (same_object_ok T ok).
    + by eapply same_object_params.
    + destruct Hinit as [Hi|Hr]; [left; simpl; apply Hi|by right].
    + rewrite EV1, sum_of_app, Eus, Hus'. simpl. lia.
    + rewrite Eal, Hals, !view_app, !sum_of_app. simpl. fold x. lia.
    + intros s' B' Hci Hobj Hlock EV Esp. unfold carve, carve_calls in HQ1. rewrite Er in HQ1.
      destruct (Z.ltb_spec 0 (padding al x)); [|lia].
      destruct (Z.ltb_spec (padding al x + size) (b_size x)); [|lia]. simpl in Esp.
      destruct (Z.ltb_spec size (b_size x - padding al x)); [|lia]. rewrite Ep in Esp.
      eapply HQ1; [exact Hci|by eapply same_object_trans|congruence| |exact Esp].
      rewrite EV, EV1, <- !app_assoc. unfold cut_used. simpl.
      destruct (Z.ltb_spec size (b_size x - padding al x)); [|lia]. done.
    + intros r0 r p' s' B' Er' Hcut Hy _ Hci Hobj Hlock Eco.
      eapply HQ2; [by eapply cut_use_error|exact Hci|by eapply same_object_trans|congruence|].
      right. split; [lia|]. exists p'. rewrite EV1 in Eco.
      simpl in Hy. unfold y in Eco. rewrite Hy in Eco. exact Eco.
Qed.
End Alloc.
