(* ===== verification/CoarsePublic.v ===== *)
(** * The public functions: allocating, adding memory, statistics, creation

    [alloc_outcome] lists every way [coarse_alloc] can end and what each does
    to the blocks, the provider and [*resultPtr].  [coarse_new] establishes
    the invariant that the other functions keep. *)

From S2P Require Import Prelude Utils HostMem Ravl RavlSpec RavlRemove Coarse.
From S2P Require Import CoarseInv CoarseFree CoarseLists CoarseMerge.
From S2P Require Import CoarseApi CoarseOps CoarseAlloc.
From stdpp Require Import strings sorting.
#[local] Open Scope Z_scope.

(** ** Memory that is not yet among the blocks *)

Definition fresh_memory (V : list block_t) (a size : Z) : Prop :=
  0 < a /\ a + size < two64 /\
  forall y, y ∈ V -> b_data y + b_size y <= a \/ a + size <= b_data y.

Lemma layout_insert V1 x V2 :
  layout (V1 ++ V2) -> 0 < b_size x -> fresh_memory (V1 ++ V2) (b_data x) (b_size x) ->
  Forall (fun y => b_data y < b_data x) V1 -> Forall (fun y => b_data x < b_data y) V2 ->
  layout (V1 ++ x :: V2).
Proof.
  intros [Hok Hs] Hx (F1 & F2 & F3) Hlt Hgt. rewrite Forall_app in Hok. destruct Hok as [Hok1 Hok2].
  rewrite StronglySorted_app in Hs. destruct Hs as (H12 & Hs1 & Hs2).
  assert (Forall (before x) V2) as Hb2.
  { rewrite Forall_forall in Hgt, Hok2 |- *. intros y Hy. specialize (Hgt y Hy). specialize (Hok2 y Hy).
    unfold before, block_ok in *. simpl in Hgt.
    destruct (F3 y ltac:(rewrite elem_of_app; auto)); lia. }
  assert (forall y, y ∈ V1 -> before y x) as Hb1.
  { rewrite Forall_forall in Hlt. intros y Hy. specialize (Hlt y Hy). unfold before. simpl in Hlt.
    destruct (F3 y ltac:(rewrite elem_of_app; auto)); lia. }
  split.
  - rewrite Forall_app, Forall_cons. split_and!; auto. unfold block_ok. lia.
  - rewrite StronglySorted_app, StronglySorted_cons. split_and!; auto.
    intros y z Hy Hz. rewrite elem_of_cons in Hz. destruct Hz as [->|Hz]; auto.
Qed.

(** [fresh_memory] says the address is new. *)
Lemma fresh_memory_new V a size y :
  Forall block_ok V -> 0 < size -> fresh_memory V a size -> y ∈ V -> b_data y <> a.
Proof.
  intros Hok Hs (_ & _ & Hf) Hy. rewrite Forall_forall in Hok. specialize (Hok y Hy).
  unfold block_ok in Hok. destruct (Hf y Hy); lia.
Qed.

Lemma layout_view_ok B : layout (view B) -> Forall block_ok (view B).
Proof. by intros [Hok _]. Qed.

Lemma view_data B (R : Z -> Prop) :
  Forall (fun e => R (b_data (en_block e))) B -> Forall (fun y => R (b_data y)) (view B).
Proof. unfold view. rewrite Forall_fmap. done. Qed.

(** A block of a layout has one place. *)
Lemma layout_place V1 x V2 W1 y W2 :
  layout (V1 ++ x :: V2) -> V1 ++ x :: V2 = W1 ++ y :: W2 -> b_data x = b_data y ->
  V1 = W1 /\ x = y /\ V2 = W2.
Proof.
  assert (forall U1 z U2, layout (U1 ++ z :: U2) ->
    Forall (fun u => b_data u < b_data z) U1 /\ Forall (fun u => b_data z <= b_data u) (z :: U2)) as Hsides.
  { intros U1 z U2 [Hok Hs]. rewrite Forall_app, Forall_cons in Hok. destruct Hok as (Hok1 & Hz & _).
    rewrite StronglySorted_app, StronglySorted_cons in Hs. destruct Hs as (H12 & _ & Hf & _).
    unfold before, block_ok in *. split; [|constructor; [lia|]].
    - rewrite Forall_forall in Hok1 |- *. intros u Hu. specialize (Hok1 u Hu).
      specialize (H12 u z Hu ltac:(constructor)). simpl in *. lia.
    - eapply Forall_impl; [exact Hf|]. simpl. lia. }
  intros Hlay E Ed. destruct (Hsides _ _ _ Hlay) as [S1 S2].
  rewrite E in Hlay. destruct (Hsides _ _ _ Hlay) as [S3 S4]. rewrite <- Ed in S3, S4.
  destruct (split_unique b_data (b_data x) V1 (x :: V2) W1 (y :: W2)) as [-> E2]; try done.
  by simplify_eq.
Qed.

Section Public.
Context {H P : Type} `{HostAllocLaws H}.
Context (T : list string) (ok : H -> Prop) `{!Reliable T ok}.
Variable uninit_used : Z -> bool.
Variable dev : bool.
Implicit Types (s : cstate H P) (B : list entry) (F : list fentry) (X : list Z).

(** A new block of memory enters the tree. *)
Lemma wp_add_fresh s B F X a size (Q : option (Z * Z) -> cstate H P -> Prop) :
  heaps_inv s B F X -> layout (view B) -> ok (c_host s) -> 0 < size ->
  fresh_memory (view B) a size ->
  (forall s', heaps_inv s' B F X -> same_ctl s s' -> Q None s') ->
  (forall s' n p B1 B2, B = B1 ++ B2 ->
     heaps_inv s' (B1 ++ En n p (mk_block size a (uninit_used p) None) :: B2) F (p :: X) ->
     (forall u, layout (view B1 ++ mk_block size a u None :: view B2)) ->
     same_ctl s s' -> Q (Some (p, n)) s') ->
  wp (coarse_ravl_add_new uninit_used a size) Q s.
Proof.
  intros Hinv Hlay Hok Hs Hfr HQ1 HQ2. pose proof Hfr as (F1 & F2 & _).
  eapply (wp_add_new T ok); [exact Hinv|lia|lia| |done| |].
  - intros e He. eapply (fresh_memory_new _ _ _ (clean (en_block e)));
      [by apply layout_view_ok|exact Hs|exact Hfr|].
    by apply (list_elem_of_fmap_2 (fun e => clean (en_block e))).
  - intros s' _. apply HQ1.
  - intros s' n p B1 B2 -> Hlt Hgt Hinv' Hc. eapply HQ2; [done|exact Hinv'| |done].
    intros u. rewrite view_app in Hlay, Hfr. apply layout_insert; [done|done|done|..].
    + by apply (view_data _ (fun d => d < a)).
    + by apply (view_data _ (fun d => a < d)).
Qed.

Lemma sum_insert p V1 x V2 :
  sum_of p (V1 ++ x :: V2) = (if p x then b_size x else 0) + sum_of p (V1 ++ V2).
Proof. rewrite !sum_of_app. simpl. lia. Qed.

Lemma wp_add_free_block s B F X a size (Q : umf_result_t * option Z -> cstate H P -> Prop) :
  heaps_inv s B F X -> layout (view B) -> ok (c_host s) -> 0 < size ->
  alloc_size (co s) = sum_of (fun _ => true) (view B) ->
  fresh_memory (view B) a size ->
  (forall s', heaps_inv s' B F X -> same_ctl s s' ->
     Q (UMF_RESULT_ERROR_OUT_OF_HOST_MEMORY, None) s') ->
  (forall s' n p B1 B2, B = B1 ++ B2 ->
     let en := En n p (mk_block size a false None) in
     heaps_inv s' (B1 ++ en :: B2) F (p :: X) -> layout (view (B1 ++ en :: B2)) ->
     same_object s s' -> c_lock (co s') = c_lock (co s) -> provider s' = provider s ->
     used_size (co s') = used_size (co s) ->
     alloc_size (co s') = sum_of (fun _ => true) (view (B1 ++ en :: B2)) ->
     Q (UMF_RESULT_SUCCESS, Some p) s') ->
  wp (coarse_add_free_block uninit_used a size) Q s.
Proof.
  intros Hinv Hlay Hok Hs Hal Hfr HQ1 HQ2. unfold coarse_add_free_block. apply wp_bind.
  eapply wp_add_fresh; [exact Hinv|done|done|done|done| |].
  - intros s' Hinv' Hc. by apply wp_ret, HQ1.
  - intros s' n p B1 B2 -> Hinv' Hlay' Hc. apply wp_bind.
    eapply wp_store_block; [by eapply (heaps_inv_in _ _ _ _ _ _ Hinv')|].
    pose proof (heaps_inv_store _ _ _ _ _ _ (with_b_used false) Hinv' eq_refl eq_refl eq_refl) as Hinv2.
    wp_step. apply wp_ret. destruct (sbp_object _ _ (sbp_ctl _ _ Hc)) as [Hobj Hlock].
    destruct Hc as (_ & _ & _ & _ & _ & Eus & Eal & Ep & _).
    assert (view (B1 ++ En n p (mk_block size a false None) :: B2) =
      view B1 ++ mk_block size a false None :: view B2) as EV by apply view_app.
    pose proof (sum_of_u64 _ (fun _ => true) (Hlay' false)) as Hsum. rewrite sum_insert, <- view_app in Hsum.
    simpl in Hsum. eapply (HQ2 _ n p B1 B2); try done.
    + apply heaps_inv_co; [done..|]. eapply heaps_inv_drop; [exact Hinv2|].
      intros e _ _. simpl. rewrite !elem_of_cons. tauto.
    + rewrite EV. apply Hlay'.
    + simpl. rewrite EV, Eal, Hal, add64_small; rewrite ?sum_insert, <- ?view_app; simpl; [lia|].
      unfold is_u64. lia.
Qed.

Lemma wp_add_used_block s B X a size (Q : umf_result_t -> cstate H P -> Prop) :
  coarse_inv ok s B X -> 0 < size -> fresh_memory (view B) a size ->
  (forall s', coarse_inv ok s' B X -> same_object s s' -> c_lock (co s') = c_lock (co s) ->
     provider s' = provider s -> Q UMF_RESULT_ERROR_OUT_OF_HOST_MEMORY s') ->
  (forall s' V1 V2 B', view B = V1 ++ V2 -> view B' = V1 ++ mk_block size a true None :: V2 ->
     coarse_inv ok s' B' X -> same_object s s' -> c_lock (co s') = c_lock (co s) ->
     provider s' = provider s -> Q UMF_RESULT_SUCCESS s') ->
  wp (coarse_add_used_block uninit_used a size) Q s.
Proof.
  intros Hci Hs Hfr HQ1 HQ2. pose proof Hci as ((F & Hinv) & Hlay & Hus & Hal & Hok & Hpar).
  unfold coarse_add_used_block. apply wp_bind.
  eapply wp_add_fresh; [exact Hinv|done|done|done|done| |].
  - intros s' Hinv' Hc. destruct (sbp_object _ _ (sbp_ctl _ _ Hc)) as [Hobj Hlock].
    destruct Hc as (_ & _ & _ & _ & _ & Eus & Eal & Ep & _). apply wp_ret, HQ1; [|done|done|done].
    eapply (coarse_inv_intro T ok s); [exact Hinv'|done|done|done|done|congruence|congruence].
  - intros s' n p B1 B2 -> Hinv' Hlay' Hc. apply wp_bind.
    eapply wp_store_block; [by eapply (heaps_inv_in _ _ _ _ _ _ Hinv')|].
    pose proof (heaps_inv_store _ _ _ _ _ _ (with_b_used true) Hinv' eq_refl eq_refl eq_refl) as Hinv2.
    wp_step. wp_step. apply wp_ret. destruct (sbp_object _ _ (sbp_ctl _ _ Hc)) as [Hobj Hlock].
    destruct Hc as (_ & _ & _ & _ & _ & Eus & Eal & Ep & _).
    set (en := upd_block _ _) in Hinv2.
    assert (view (B1 ++ en :: B2) = view B1 ++ mk_block size a true None :: view B2) as EV
      by apply view_app.
    pose proof (sum_of_u64 _ (fun _ => true) (Hlay' true)) as Hsum1.
    pose proof (sum_of_u64 _ b_used (Hlay' true)) as Hsum2. rewrite sum_insert, <- view_app in Hsum1, Hsum2.
    simpl in Hsum1, Hsum2.
    eapply (HQ2 _ (view B1) (view B2) (B1 ++ en :: B2)); [apply view_app|done| |done|done|done].
    eapply (coarse_inv_intro T ok s).
    + eapply heaps_inv_drop; [apply heaps_inv_co; [done..|]; apply heaps_inv_co; [done..|exact Hinv2]|].
      intros e He Hue. pose proof (used_ptr _ _ en e (proj1 Hinv2)) as N1.
      rewrite elem_of_app, elem_of_cons in N1. specialize (N1 ltac:(auto) eq_refl He Hue).
      simpl in N1. simpl. rewrite !elem_of_cons. tauto.
    + rewrite EV. apply Hlay'.
    + done.
    + done.
    + done.
    + simpl. rewrite EV, sum_insert, Eus, Hus, <- view_app, add64_small; simpl; [lia|unfold is_u64; lia].
    + simpl. rewrite EV, sum_insert, Eal, Hal, <- view_app, add64_small; simpl; [lia|unfold is_u64; lia].
Qed.

(** What the allocation callback promises: memory that is aligned and does
    not overlap the blocks the allocator already has. *)
Definition alloc_law (alloc : Z -> Z -> P -> umf_result_t * option Z * P) (V : list block_t) (p : P)
  : Prop :=
  forall size al ptr p', alloc size al p = (UMF_RESULT_SUCCESS, ptr, p') ->
  exists a, ptr = Some a /\ IS_ALIGNED a al = true /\ fresh_memory V a size.

Definition freed_by (s : cstate H P) (a size : Z) (p : P) : P :=
  match cb_free (c_cb (co s)) with Some free => snd (free a size p) | None => p end.

Lemma wp_call_free s a size (Q : unit -> cstate H P -> Prop) :
  Q tt (set_provider (freed_by s a size (provider s)) s) -> wp (call_free a size) Q s.
Proof.
  intros HQ. unfold call_free, freed_by in *. wp_step. destruct (cb_free (c_cb (co s))).
  - by apply wp_modify.
  - apply wp_ret. by destruct s.
Qed.

Lemma wp_get_more s B F X size al out (Q : found * option Z -> cstate H P -> Prop) :
  heaps_inv s B F X -> layout (view B) -> ok (c_host s) ->
  alloc_size (co s) = sum_of (fun _ => true) (view B) -> 0 < size < two64 -> pow2 al ->
  (forall alloc, cb_alloc (c_cb (co s)) = Some alloc -> alloc_law alloc (view B) (provider s)) ->
  let asz := ALIGN_UP size al in
  (cb_alloc (c_cb (co s)) = None -> Q (NotFound UMF_RESULT_ERROR_OUT_OF_HOST_MEMORY, out) s) ->
  (two64 <= size + al - 1 -> Q (NotFound UMF_RESULT_ERROR_INVALID_ARGUMENT, out) s) ->
  (forall alloc r ptr p, cb_alloc (c_cb (co s)) = Some alloc ->
     alloc asz al (provider s) = (r, ptr, p) -> r <> UMF_RESULT_SUCCESS ->
     Q (NotFound r, ptr) (set_provider p s)) ->
  (forall alloc a p s', cb_alloc (c_cb (co s)) = Some alloc ->
     alloc asz al (provider s) = (UMF_RESULT_SUCCESS, Some a, p) ->
     heaps_inv s' B F X -> same_but_provider s s' -> provider s' = freed_by s a asz p ->
     Q (NotFound UMF_RESULT_ERROR_OUT_OF_HOST_MEMORY, Some a) s') ->
  (forall alloc a p s' n q B1 B2, cb_alloc (c_cb (co s)) = Some alloc ->
     alloc asz al (provider s) = (UMF_RESULT_SUCCESS, Some a, p) -> B = B1 ++ B2 ->
     let en := En n q (mk_block asz a false None) in
     heaps_inv s' (B1 ++ en :: B2) F (q :: X) -> layout (view (B1 ++ en :: B2)) ->
     fits size al (en_block en) ->
     same_object s s' -> c_lock (co s') = c_lock (co s) -> provider s' = p ->
     used_size (co s') = used_size (co s) ->
     alloc_size (co s') = sum_of (fun _ => true) (view (B1 ++ en :: B2)) ->
     Q (Found q, Some a) s') ->
  wp (get_more_memory uninit_used size al out) Q s.
Proof.
  intros Hinv Hlay Hok Hal Hs Hp2 Hlaw asz HQ1 HQ2 HQ3 HQ4 HQ5. unfold get_more_memory. wp_step.
  destruct (cb_alloc (c_cb (co s))) as [alloc|] eqn:Ecb; [|by apply wp_ret, HQ1].
  destruct (Z.le_gt_cases two64 (size + al - 1)) as [Hov|Hfit].
  { rewrite align_up_safe_overflow by (done || unfold is_u64; lia). simpl. apply wp_ret. auto. }
  rewrite align_up_safe_fits by (done || unfold is_u64; lia). fold asz.
  destruct (align_up_bounds size al Hp2) as [Hb _]; [lia|lia|]. fold asz in Hb.
  destruct (Z.eqb_spec asz 0) as [?|_]; [lia|].
  destruct (alloc asz al (provider s)) as [[r ptr] p] eqn:Ea. wp_step.
  case_bool_decide as Hr; simpl; [|by apply wp_ret, (HQ3 alloc)]. subst r.
  destruct (Hlaw alloc eq_refl _ _ _ _ Ea) as (a & -> & Hal' & Hfr).
  wp_step; [done|]. wp_step; [done|]. apply wp_bind.
  eapply wp_add_free_block; [by apply heaps_inv_provider|done|done|lia|done|exact Hfr| |].
  - intros s1 Hinv1 Hc. simpl. apply wp_bind, wp_call_free, wp_ret.
    pose proof (sbp_provider_ctl _ _ _ Hc) as Hsbp. pose proof Hc as (_ & Ecb1 & _ & _ & _ & _ & _ & Ep & _).
    simpl in Ecb1, Ep. eapply (HQ4 alloc a p); [done|done|by apply heaps_inv_provider| |].
    + eapply sbp_trans; [exact Hsbp|apply sbp_provider].
    + simpl. unfold freed_by. by rewrite Ecb1, Ep.
  - intros s1 n q B1 B2 EB en Hinv1 Hlay1 Hobj Hlock Ep Eus Eal. simpl. wp_step. apply wp_ret.
    eapply (HQ5 alloc a p s1 n q B1 B2); try done. split; [simpl; lia|by left].
Qed.

(** *** [coarse_alloc] *)

(** When no block is lost, the free lists hold the unused blocks. *)
Lemma listed_iff_unused s B F en :
  heaps_inv s B F [] -> en ∈ B -> listed en <-> b_used (en_block en) = false.
Proof.
  intros (Ha & _ & _ & (L1 & L2 & L3) & _) He. split.
  - intros Hl. unfold listed in Hl. destruct (b_free_list_ptr (en_block en)) as [e|] eqn:E; [|done].
    destruct (L2 en e He E) as (f & Hf & Hin). destruct (L1 f e _ Hf Hin) as (en' & He' & Ep & _ & _ & Hu).
    by rewrite <- (same_block _ _ _ _ Ha He' He Ep).
  - intros Hu. apply (L3 en He Hu). by intros ?%elem_of_nil.
Qed.

(** [x] is a free block of least size that holds [need] bytes. *)
Definition best_free (V : list block_t) (need : Z) (x : block_t) : Prop :=
  x ∈ V /\ b_used x = false /\ need <= b_size x /\
  forall y, y ∈ V -> b_used y = false -> need <= b_size y -> b_size x <= b_size y.

Definition alloc_from (V : list block_t) (size al : Z) (x : block_t) : Prop :=
  best_free V size x /\ IS_ALIGNED (b_data x) al = true \/ best_free V (size + al) x.

Definition no_free (V : list block_t) (size al : Z) : Prop :=
  size + al < two64 -> forall x, x ∈ V -> b_used x = false -> b_size x < size + al.

Lemma best_fit_free s B F need en :
  heaps_inv s B F [] -> best_fit B need en -> best_free (view B) need (clean (en_block en)).
Proof.
  intros Hinv (Hin & Hl & Hle & Hmin). split_and!.
  - by apply (list_elem_of_fmap_2 (fun e => clean (en_block e))).
  - by apply (listed_iff_unused _ _ _ en Hinv Hin).
  - done.
  - intros y Hy Hu Hy'. unfold view in Hy. apply list_elem_of_fmap in Hy as (e & -> & He).
    apply Hmin; [done| |done]. by apply (listed_iff_unused _ _ _ e Hinv He).
Qed.

Lemma chosen_from s B F size al en :
  heaps_inv s B F [] -> chosen B size al en -> alloc_from (view B) size al (clean (en_block en)).
Proof.
  intros Hinv [[Hb Hal]|Hb]; [left; split; [|done]|right]; by eapply best_fit_free.
Qed.

Lemma none_fits_free s B F size al :
  heaps_inv s B F [] -> none_fits B size al -> no_free (view B) size al.
Proof.
  intros Hinv Hno Hlt x Hx Hu. unfold view in Hx. apply list_elem_of_fmap in Hx as (e & -> & He).
  apply (Hno Hlt e He). by apply (listed_iff_unused _ _ _ e Hinv He).
Qed.

(** Every end of an allocation that got the mutex; [al] is the adjusted
    alignment, the last two indices are the result and [*resultPtr]. *)
Inductive alloc_outcome s B (size al : Z) s' : umf_result_t -> option Z -> Prop :=
| alloc_free_block split V1 x V2 B' :
    view B = V1 ++ x :: V2 -> alloc_from (view B) size al x ->
    cb_split (c_cb (co s)) = Some split ->
    carve_calls split size al x (provider s) = (UMF_RESULT_SUCCESS, provider s') ->
    coarse_inv ok s' B' [] -> view B' = V1 ++ carve size al x ++ V2 ->
    alloc_outcome s B size al s' UMF_RESULT_SUCCESS (Some (b_data x + padding al x))
| alloc_new_memory split alloc a p V1 V2 B' :
    let x := mk_block (ALIGN_UP size al) a false None in
    no_free (view B) size al -> cb_alloc (c_cb (co s)) = Some alloc ->
    alloc (ALIGN_UP size al) al (provider s) = (UMF_RESULT_SUCCESS, Some a, p) ->
    fits size al x -> view B = V1 ++ V2 -> cb_split (c_cb (co s)) = Some split ->
    carve_calls split size al x p = (UMF_RESULT_SUCCESS, provider s') ->
    coarse_inv ok s' B' [] -> view B' = V1 ++ carve size al x ++ V2 ->
    alloc_outcome s B size al s' UMF_RESULT_SUCCESS (Some (b_data x + padding al x))
| alloc_no_callback :
    no_free (view B) size al -> cb_alloc (c_cb (co s)) = None ->
    coarse_inv ok s' B [] -> provider s' = provider s ->
    alloc_outcome s B size al s' UMF_RESULT_ERROR_OUT_OF_HOST_MEMORY None
| alloc_too_big :
    no_free (view B) size al -> two64 <= size + al - 1 ->
    coarse_inv ok s' B [] -> provider s' = provider s ->
    alloc_outcome s B size al s' UMF_RESULT_ERROR_INVALID_ARGUMENT None
| alloc_provider_error alloc r ptr :
    no_free (view B) size al -> cb_alloc (c_cb (co s)) = Some alloc ->
    alloc (ALIGN_UP size al) al (provider s) = (r, ptr, provider s') -> r <> UMF_RESULT_SUCCESS ->
    coarse_inv ok s' B [] -> alloc_outcome s B size al s' r ptr
| alloc_no_memory alloc a p :
    no_free (view B) size al -> cb_alloc (c_cb (co s)) = Some alloc ->
    alloc (ALIGN_UP size al) al (provider s) = (UMF_RESULT_SUCCESS, Some a, p) ->
    provider s' = freed_by s a (ALIGN_UP size al) p -> coarse_inv ok s' B [] ->
    alloc_outcome s B size al s' UMF_RESULT_ERROR_OUT_OF_HOST_MEMORY (Some a)
| alloc_not_cut split merge V1 x V2 B' r :
    view B = V1 ++ x :: V2 -> alloc_from (view B) size al x ->
    cb_split (c_cb (co s)) = Some split -> cb_merge (c_cb (co s)) = Some merge ->
    use_error split r -> given_back merge V1 x V2 al (view B') (provider s') ->
    coarse_inv ok s' B' [] -> alloc_outcome s B size al s' r None
| alloc_new_not_cut split merge alloc a p V1 V2 B' r :
    let x := mk_block (ALIGN_UP size al) a false None in
    no_free (view B) size al -> cb_alloc (c_cb (co s)) = Some alloc ->
    alloc (ALIGN_UP size al) al (provider s) = (UMF_RESULT_SUCCESS, Some a, p) ->
    view B = V1 ++ V2 -> cb_split (c_cb (co s)) = Some split -> cb_merge (c_cb (co s)) = Some merge ->
    use_error split r -> given_back merge V1 x V2 al (view B') (provider s') ->
    coarse_inv ok s' B' [] -> alloc_outcome s B size al s' r (Some a).

Definition alloc_post s B (size alignment : Z) (out : option Z)
    (res : umf_result_t * option Z) s' : Prop :=
  unlocked s' /\ same_object s s' /\
  match adjust_alignment alignment (page_size (co s)) with
  | None => res = (UMF_RESULT_ERROR_INVALID_ALIGNMENT, out) /\ s' = s
  | Some al =>
      res = (UMF_RESULT_ERROR_UNKNOWN, out) /\ coarse_inv ok s' B [] /\ provider s' = provider s \/
      alloc_outcome s B size al s' res.1 res.2
  end.

(** The end of the locked section: self check, unlock, return. *)
Lemma wp_finish {A} s B m (a : A) (Q : A -> cstate H P -> Prop) :
  coarse_inv ok s B [] -> c_lock (co s) = m -> m_held m = true ->
  (forall m', m_held m' = false -> Q a (set_lock m' s)) ->
  wp (assert_debug_check dev;; unlock_mutex;; mret a) Q s.
Proof.
  intros Hci El Hm HQ. apply wp_bind. eapply wp_assert_debug; [exact Hci|by intros _|].
  apply wp_bind, wp_unlock; [by rewrite El|]. intros m' Hm'. apply wp_ret. auto.
Qed.

Hypothesis elem_reliable : tag_elem ∈ T.
Hypothesis head_reliable : tag_head ∈ T.
Hypothesis free_reliable : tag_free ∈ T.

Definition init_ok (split : Z -> Z -> Z -> P -> umf_result_t * P) : Prop :=
  (forall p, uninit_used p = false) \/ split_reliable T split.

Lemma wp_alloc_found s s1 B B1 en B2 F size al split merge out m
    (Q : umf_result_t * option Z -> cstate H P -> Prop) :
  coarse_inv ok s B [] -> heaps_inv s1 (B1 ++ en :: B2) F [en_ptr en] ->
  layout (view (B1 ++ en :: B2)) -> same_object s s1 -> c_lock (co s1) = m -> m_held m = true ->
  cb_split (c_cb (co s)) = Some split -> cb_merge (c_cb (co s)) = Some merge -> init_ok split ->
  b_free_list_ptr (en_block en) = None -> b_used (en_block en) = false ->
  pow2 al -> 0 < size -> fits size al (en_block en) ->
  used_size (co s1) = sum_of b_used (view (B1 ++ en :: B2)) ->
  alloc_size (co s1) = sum_of (fun _ => true) (view (B1 ++ en :: B2)) ->
  (forall s' B' m', m_held m' = false -> coarse_inv ok s' B' [] -> same_object s s' ->
     view B' = view B1 ++ carve size al (en_block en) ++ view B2 ->
     carve_calls split size al (en_block en) (provider s1) = (UMF_RESULT_SUCCESS, provider s') ->
     Q (UMF_RESULT_SUCCESS, Some (b_data (en_block en) + padding al (en_block en))) (set_lock m' s')) ->
  (forall r s' B' m', m_held m' = false -> use_error split r ->
     coarse_inv ok s' B' [] -> same_object s s' ->
     given_back merge (view B1) (en_block en) (view B2) al (view B') (provider s') ->
     Q (r, out) (set_lock m' s')) ->
  wp ('(umf_result, out) ← use_block uninit_used (en_ptr en) size al out;
      assert_debug_check dev;; unlock_mutex;; mret (umf_result, out)) Q s1.
Proof.
  intros Hci Hinv Hlay Hobj Hlock Hm Hsp Hmg Hinit Hn Hu Hal Hs Hfits Hus Hals HQ1 HQ2.
  pose proof Hci as (_ & _ & _ & _ & Hok & Hpar). pose proof Hobj as (_ & Ecb & _).
  apply wp_bind. eapply (wp_use_block T ok elem_reliable head_reliable free_reliable uninit_used s1);
    [exact Hinv|done|by rewrite Ecb|by rewrite Ecb|by eapply (same_object_ok T ok)|
     by eapply same_object_params|done|done|done|done|done|exact Hinit|done|done|..].
  - intros s' B' Hci' Hobj' Hlock' EV Ecalls. simpl.
    eapply (wp_finish s' B' m); [exact Hci'|by rewrite Hlock', Hlock|done|]. intros m' Hm'.
    by eapply HQ1; [done|exact Hci'|by eapply same_object_trans|..].
  - intros r s' B' Hr Hci' Hobj' Hlock' Hgb. simpl.
    eapply (wp_finish s' B' m); [exact Hci'|by rewrite Hlock', Hlock|done|]. intros m' Hm'.
    by eapply HQ2; [done|done|exact Hci'|by eapply same_object_trans|..].
Qed.

Lemma upd_none_block en :
  en_block (upd_block (with_b_free_list_ptr None) en) = clean (en_block en).
Proof. done. Qed.

Lemma wp_alloc_miss s B m size al split merge :
  coarse_inv ok s B [] -> m_held m = true -> 0 < size < two64 -> pow2 al ->
  cb_split (c_cb (co s)) = Some split -> cb_merge (c_cb (co s)) = Some merge -> init_ok split ->
  (forall alloc, cb_alloc (c_cb (co s)) = Some alloc -> alloc_law alloc (view B) (provider s)) ->
  no_free (view B) size al ->
  wp ('(f, out) ← get_more_memory uninit_used size al None;
      '(umf_result, out) ← match f with
                           | NotFound r => mret (r, out)
                           | Found curr => use_block uninit_used curr size al out
                           end;
      assert_debug_check dev;; unlock_mutex;; mret (umf_result, out))
    (fun res s' => unlocked s' /\ same_object s s' /\ alloc_outcome s B size al s' res.1 res.2)
    (set_lock m s).
Proof.
  intros Hci Hm Hs Hal Hsp Hmg Hinit Hlaw Hno.
  pose proof (coarse_inv_lock ok s m B [] Hci) as Hci1.
  pose proof (same_object_lock s m) as Hobj1. set (s1 := set_lock m s) in *.
  pose proof Hci1 as ((F & Hinv) & Hlay & Hus & Hals & Hok & Hpar).
  assert (forall s2 r ptr m', m_held m' = false -> same_object s1 s2 ->
    alloc_outcome s B size al (set_lock m' s2) r ptr ->
    unlocked (set_lock m' s2) /\ same_object s (set_lock m' s2) /\
    alloc_outcome s B size al (set_lock m' s2) r ptr) as Hend.
  { intros s2 r ptr m' Hm' Hobj2 Hout. split; [done|]. split; [|done].
    by eapply (same_object_locked s s2 m). }
  apply wp_bind. eapply (wp_get_more s1 B F []); [exact Hinv|done|done|done|done|done|exact Hlaw|..].
  - intros Ecb. apply wp_bind, wp_ret. eapply wp_finish; [exact Hci1|done|done|]. intros m' Hm'.
    apply Hend; [done|apply same_object_refl|].
    by apply alloc_no_callback; [done|done|do 2 apply coarse_inv_lock|].
  - intros Hov. apply wp_bind, wp_ret. eapply wp_finish; [exact Hci1|done|done|]. intros m' Hm'.
    apply Hend; [done|apply same_object_refl|].
    by apply alloc_too_big; [done|done|do 2 apply coarse_inv_lock|].
  - intros alloc r ptr p Ecb Ea Hr. apply wp_bind, wp_ret.
    pose proof (coarse_inv_provider ok s1 p B [] Hci1) as Hci2.
    eapply wp_finish; [exact Hci2|done|done|]. intros m' Hm'.
    apply Hend; [done|apply (sbp_object _ _ (sbp_provider s1 p))|].
    by eapply alloc_provider_error; [done|exact Ecb|exact Ea|done|apply coarse_inv_lock].
  - intros alloc a p s2 Ecb Ea Hinv2 Hsbp Ep. apply wp_bind, wp_ret.
    destruct (sbp_object _ _ Hsbp) as [Hobj2 Hlock2].
    unfold same_but_provider, same_ctl in Hsbp. simpl in Hsbp.
    destruct Hsbp as (_ & _ & _ & _ & _ & Eus & Eal & _).
    assert (coarse_inv ok s2 B []) as Hci2
      by (eapply (coarse_inv_intro T ok s1); [exact Hinv2|done|done|done|done|by rewrite Eus|by rewrite Eal]).
    eapply wp_finish; [exact Hci2|exact Hlock2|done|]. intros m' Hm'. apply Hend; [done|done|].
    by eapply alloc_no_memory; [done|exact Ecb|exact Ea|exact Ep|apply coarse_inv_lock].
  - intros alloc a p s2 n q B1 B2 Ecb Ea EB en Hinv2 Hlay2 Hfits Hobj2 Hlock2 Ep Eus Eal.
    assert (view B = view B1 ++ view B2) as EV by (rewrite EB; apply view_app).
    eapply (wp_alloc_found s s2 B B1 en B2 F size al split merge (Some a) m);
      [done|exact Hinv2|done|by eapply same_object_trans|exact Hlock2|done|done|done|done|done|done|
       done|lia|done|rewrite Eus, Hus, EV, view_app, !sum_of_app; done|done| |].
    + intros s' B' m' Hm' Hci' Hobj' EV' Ecalls. split; [done|].
      split; [eapply same_object_trans; [exact Hobj'|apply same_object_lock]|].
      rewrite Ep in Ecalls.
      by eapply (alloc_new_memory s B size al _ split alloc a p (view B1) (view B2) B');
        [done|exact Ecb|exact Ea|exact Hfits|exact EV|done|exact Ecalls|apply coarse_inv_lock|].
    + intros r s' B' m' Hm' Hr Hci' Hobj' Hgb. split; [done|].
      split; [eapply same_object_trans; [exact Hobj'|apply same_object_lock]|].
      by eapply (alloc_new_not_cut s B size al _ split merge alloc a p (view B1) (view B2) B');
        [done|exact Ecb|exact Ea|exact EV|done|done|done|exact Hgb|apply coarse_inv_lock].
Qed.

Lemma wp_coarse_alloc s B c size alignment split out :
  coarse_inv ok s B [] -> unlocked s -> 0 < size < two64 -> is_u64 alignment ->
  cb_split (c_cb (co s)) = Some split -> init_ok split ->
  (forall alloc, cb_alloc (c_cb (co s)) = Some alloc -> alloc_law alloc (view B) (provider s)) ->
  wp (coarse_alloc uninit_used dev (Some c) size alignment true out)
    (alloc_post s B size alignment out) s.
Proof.
  intros Hci Hun Hs Hali Hsp Hinit Hlaw. unfold coarse_alloc, alloc_post. simpl. wp_step.
  pose proof Hci as (_ & _ & _ & _ & _ & ((k & Hk & Epage) & _ & [merge Hmg])).
  destruct (adjust_alignment alignment (page_size (co s))) as [al|] eqn:Eadj; cycle 1.
  { apply wp_ret. split; [done|]. split; [apply same_object_refl|done]. }
  destruct (adjust_alignment_pow2 alignment (page_size (co s)) al) as (Hal & _);
    [by exists k|done|done|]. pose proof (pow2_u64 _ Hal) as Halu.
  apply wp_bind, wp_lock; [done| |]; cycle 1.
  { intros r m Hr Hm. destruct (Z.eqb_spec r 0); [done|]. simpl. apply wp_ret.
    split; [done|]. split; [apply same_object_lock|]. left. split; [done|].
    split; [by apply coarse_inv_lock|done]. }
  intros m Hm. simpl. pose proof (coarse_inv_lock ok s m B [] Hci) as Hci1.
  pose proof (same_object_lock s m) as Hobj1. set (s1 := set_lock m s) in *.
  apply wp_bind. eapply wp_assert_debug; [exact Hci1|by intros _|].
  pose proof Hci1 as ((F & Hinv) & Hlay & Hus & Hals & Hok & Hpar).
  apply wp_bind. eapply (wp_find_free_block s1 B F []); [exact Hinv|done|done| |].
  - intros s2 F2 B1 en B2 EB Hch Hu Hinv2 Hc. apply wp_bind, wp_ret.
    destruct (sbp_object _ _ (sbp_ctl _ _ Hc)) as [Hobj2 Hlock2].
    pose proof Hc as (_ & _ & _ & _ & _ & Eus & Eal & Ep & _).
    assert (view B = view B1 ++ clean (en_block en) :: view B2) as EV by (subst B; apply view_app).
    assert (view (B1 ++ upd_block (with_b_free_list_ptr None) en :: B2) = view B) as EV2
      by (subst B; by apply view_upd).
    eapply (wp_alloc_found s s2 B B1 (upd_block (with_b_free_list_ptr None) en) B2 F2 size al
      split merge None m); rewrite ?EV2;
      [done|exact Hinv2|done|by eapply same_object_trans|exact Hlock2|done|done|done|done|done|done|
       done|lia|exact (chosen_fits B size al en (proj1 Halu) Hch)|by rewrite Eus|by rewrite Eal| |].
    + intros s' B' m' Hm' Hci' Hobj' EV' Ecalls. split; [done|].
      split; [eapply same_object_trans; [exact Hobj'|apply same_object_lock]|]. right.
      rewrite upd_none_block in *. rewrite Ep in Ecalls.
      eapply (alloc_free_block s B size al _ split (view B1) _ (view B2) B');
        [exact EV|by eapply (chosen_from s1)|done|exact Ecalls|by apply coarse_inv_lock|done].
    + intros r s' B' m' Hm' Hr Hci' Hobj' Hgb. split; [done|].
      split; [eapply same_object_trans; [exact Hobj'|apply same_object_lock]|]. right.
      by eapply (alloc_not_cut s B size al _ split merge (view B1) _ (view B2) B');
        [exact EV|eapply (chosen_from s1)|done|done|done|exact Hgb|apply coarse_inv_lock].
  - intros Hno%(none_fits_free _ _ _ _ _ Hinv).
    eapply wp_mono; [by eapply wp_alloc_miss|]. intros [r ptr] s' (Hu & Hobj & Hout).
    split; [done|]. split; [done|]. by right.
Qed.

(** *** [coarse_add_memory_fixed] *)

Inductive add_fixed_outcome s B (a size : Z) s' : umf_result_t -> Prop :=
| add_no_lock : coarse_inv ok s' B [] -> provider s' = provider s ->
    add_fixed_outcome s B a size s' UMF_RESULT_ERROR_UNKNOWN
| add_no_memory : coarse_inv ok s' B [] -> provider s' = provider s ->
    add_fixed_outcome s B a size s' UMF_RESULT_ERROR_OUT_OF_HOST_MEMORY
| add_kept_used V1 V2 B' : view B = V1 ++ V2 -> coarse_inv ok s' B' [] ->
    view B' = V1 ++ mk_block size a true None :: V2 -> provider s' = provider s ->
    add_fixed_outcome s B a size s' UMF_RESULT_ERROR_UNKNOWN
| add_done merge V1 V2 B' : view B = V1 ++ V2 -> coarse_inv ok s' B' [] ->
    cb_merge (c_cb (co s)) = Some merge ->
    coalesce merge V1 (mk_block size a false None) V2 (provider s) = (view B', provider s') ->
    add_fixed_outcome s B a size s' UMF_RESULT_SUCCESS.

Definition add_fixed_post s B a size (r : umf_result_t) s' : Prop :=
  unlocked s' /\ same_object s s' /\ add_fixed_outcome s B a size s' r.

(** The block that has just been added is the one that is freed. *)
Lemma free_added s0 s s' B B' V1 V2 a size r :
  view B = V1 ++ V2 -> view B' = V1 ++ mk_block size a true None :: V2 ->
  coarse_inv ok s B' [] -> same_object s0 s -> provider s = provider s0 ->
  free_post T ok s B' [] a size r s' -> add_fixed_post s0 B a size r s'.
Proof.
  intros EV EV' Hci Hobj Ep (Hun & Hobj' & Hr). split; [done|].
  split; [by eapply same_object_trans|]. pose proof Hci as (_ & Hlay & _).
  pose proof Hobj as (_ & Ecb & _).
  destruct r; try done.
  - destruct Hr as (W1 & x & W2 & B2 & merge & EW & (Ed & Eu & Es) & Hci' & Hm & Eco).
    rewrite EV' in EW, Hlay. destruct (layout_place _ _ _ _ _ _ Hlay EW) as (<- & <- & <-); [done|].
    eapply (add_done _ _ _ _ _ merge V1 V2 B2); [done|done|by rewrite <- Ecb|by rewrite <- Ep].
  - destruct Hr as (W1 & x & W2 & B2 & merge & q & _ & _ & Hno & _). tauto.
  - destruct Hr as [Hno _]. exfalso. eapply (Hno (mk_block size a true None)).
    + rewrite EV', elem_of_app, elem_of_cons. auto.
    + split_and!; simpl; auto.
  - destruct Hr as [Hci' Ep']. eapply add_kept_used; [exact EV|exact Hci'|done|congruence].
Qed.

Lemma wp_coarse_add_memory_fixed s B c a size :
  coarse_inv ok s B [] -> unlocked s -> 0 < size -> fresh_memory (view B) a size ->
  cb_alloc (c_cb (co s)) = None -> cb_free (c_cb (co s)) = None ->
  wp (coarse_add_memory_fixed uninit_used dev (Some c) (Some a) size) (add_fixed_post s B a size) s.
Proof.
  intros Hci Hun Hs Hfr Ca Cf. unfold coarse_add_memory_fixed.
  destruct (Z.eqb_spec size 0); [lia|]. wp_step. rewrite Ca, Cf.
  apply wp_bind, wp_lock; [done| |]; cycle 1.
  { intros r m Hr Hm. destruct (Z.eqb_spec r 0); [done|]. simpl. apply wp_ret.
    split; [done|]. split; [apply same_object_lock|]. apply add_no_lock; [by apply coarse_inv_lock|done]. }
  intros m Hm. simpl. pose proof (coarse_inv_lock ok s m B [] Hci) as Hci1.
  apply wp_bind. eapply wp_assert_debug; [exact Hci1|by intros _|].
  apply wp_bind. eapply wp_add_used_block; [exact Hci1|done|done|..].
  - intros s' Hci' Hobj' Hlock' Ep'. apply wp_bind. eapply wp_assert_debug; [exact Hci'|by intros _|].
    apply wp_bind, wp_unlock; [by rewrite Hlock'|]. intros m' Hm'. simpl. apply wp_ret.
    split; [done|]. split; [by eapply same_object_locked|].
    apply add_no_memory; [by apply coarse_inv_lock|done].
  - intros s' V1 V2 B' EV EV' Hci' Hobj' Hlock' Ep'.
    apply wp_bind. eapply wp_assert_debug; [exact Hci'|by intros _|].
    apply wp_bind, wp_unlock; [by rewrite Hlock'|]. intros m' Hm'. simpl.
    pose proof (coarse_inv_lock ok s' m' B' [] Hci') as Hci2.
    apply wp_bind. eapply wp_mono; [eapply (wp_coarse_free T ok dev elem_reliable _ _ _ c);
      [exact Hci2|by intros _|done|lia]|].
    intros r s2 Hpost.
    assert (add_fixed_post s B a size r s2) as Hfin.
    { eapply (free_added s (set_lock m' s') s2 B B'); [exact EV|exact EV'|done| |done|done].
      by eapply same_object_locked. }
    case_bool_decide as Hr; simpl; apply wp_ret; [by subst r|done].
Qed.

(** *** [coarse_get_stats] *)

Definition free_count (V : list block_t) : nat := length (filter (fun b => b_used b = false) V).

Lemma unused_count B : length (unused B) = free_count (view B).
Proof.
  unfold unused, free_count, view. induction B as [|e B IH]; [done|]. rewrite fmap_cons.
  destruct (b_used (en_block e)) eqn:Eu.
  - rewrite !filter_cons_False; [done|simpl; congruence..].
  - rewrite !filter_cons_True; [simpl; by f_equal|done..].
Qed.

Definition stats_of (V : list block_t) : coarse_stats_t :=
  mk_stats (sum_of (fun _ => true) V) (sum_of b_used V) (Z.of_nat (length V))
    (Z.of_nat (free_count V)).

Lemma wp_coarse_get_stats s B c (Q : coarse_stats_t -> cstate H P -> Prop) :
  coarse_inv ok s B [] -> unlocked s ->
  (forall m, m_held m = false -> Q (mk_stats 0 0 0 0) (set_lock m s)) ->
  (forall m, m_held m = false -> Q (stats_of (view B)) (set_lock m s)) ->
  wp (coarse_get_stats (Some c)) Q s.
Proof.
  intros Hci Hun HQ1 HQ2. unfold coarse_get_stats. apply wp_bind, wp_lock; [done| |]; cycle 1.
  { intros r m Hr Hm. destruct (Z.eqb_spec r 0); [done|]. simpl. apply wp_ret. auto. }
  intros m Hm. simpl. destruct (coarse_inv_lock ok s m B [] Hci) as ((F & Hinv) & Hlay & Hus & Hal & _).
  apply wp_bind. eapply wp_get_stats; [exact Hinv|done|].
  apply wp_bind, wp_unlock; [done|]. intros m' Hm'. apply wp_ret.
  pose proof Hinv as (Ha & Hf & _ & Hl & _). rewrite Hus, Hal, (count_free_blocks _ _ _ Ha Hf Hl).
  rewrite unused_count. replace (length B) with (length (view B)) by (apply length_fmap).
  by apply (HQ2 m').
Qed.
End Public.

(** ** Creation *)

Section New.
Context {H P : Type} `{HostAllocLaws H}.
Context (T : list string) (ok : H -> Prop) `{!Reliable T ok}.
Variable dev : bool.

(** The state [coarse_new] builds holds no block. *)
Lemma new_heaps_inv c strategy cb page (all free : ravl ravl_data_t) m (h : H) (p : P) :
  ravl_rep rd_key (mk_rstate all h) [] -> node_tag all = tag_all ->
  ravl_rep rd_key (mk_rstate free h) [] -> node_tag free = tag_free ->
  ba_live h !! self all = Some "struct ravl"%string ->
  ba_live h !! self free = Some "struct ravl"%string ->
  ba_live h !! c = Some tag_coarse -> self all <> self free ->
  heaps_inv (mk_cstate (mk_coarse c cb strategy page all free m 0 0) ∅ ∅ ∅ h p) [] [] [].
Proof.
  intros Hra Ta Hrf Tf La Lf Lc Hne. split_and!.
  - split_and!; [done|done|apply owned_empty|]. intros q b. simpl. split; [by intros ?%lookup_empty_Some|].
    by intros (e & ?%elem_of_nil & _).
  - split_and!; [done|done|apply owned_empty|apply owned_empty|constructor| |constructor|constructor|].
    + intros q b. simpl. split; [by intros ?%lookup_empty_Some|]. by intros (e & ?%elem_of_nil & _).
    + intros q [b Hb]. simpl in Hb. by apply lookup_empty_Some in Hb.
  - split_and!; [|done|].
    + intros q Hq. simpl in *. destruct (decide (q = self all)) as [->|]; [done|].
      destruct (decide (q = self free)) as [->|]; [done|].
      rewrite lookup_insert_ne, lookup_singleton_ne in Hq by done. by destruct Hq.
    + intros q Hq. simpl in *. destruct (decide (q = c)) as [->|]; [done|].
      rewrite lookup_singleton_ne in Hq by done. by destruct Hq.
  - split_and!; by intros ? ? ?%elem_of_nil || by intros ? ?%elem_of_nil || by intros ? ? ? ?%elem_of_nil.
  - constructor.
Qed.

(** Deleting a tree without nodes gives back its descriptor. *)
Lemma ravl_delete_empty (r : ravl ravl_data_t) (h : H) :
  ravl_rep rd_key (mk_rstate r h) [] -> is_Some (ba_live h !! self r) ->
  exists rs, ravl_delete (mk_rstate r h) = Some (tt, rs) /\
    ba_live (r_host rs) = delete (self r) (ba_live h).
Proof.
  intros Hrep Hl. unfold ravl_delete.
  pose proof (wp_delete_cb (B := unit) rd_key None (mk_rstate r h) [] tt tt
    (fun _ rs => ba_live (r_host rs) = delete (self r) (ba_live h)) Hrep eq_refl) as Hw.
  apply wp_run in Hw as ([] & rs & E & Hq); [by exists rs|apply not_elem_of_nil|done|].
  intros rs Hx. apply map_eq. intros x. rewrite Hx. simpl. case_decide as Hd.
  - destruct Hd as [->|?%elem_of_nil]; [|done]. by rewrite lookup_delete_eq.
  - rewrite lookup_delete_ne; [done|]. intros <-. tauto.
Qed.

(** The parameters every caller in the library passes. *)
Definition params_valid (params : coarse_params_t P) : Prop :=
  p_provider params = true /\ pow2 (p_page_size params) /\
  is_Some (cb_split (p_cb params)) /\ is_Some (cb_merge (p_cb params)).

Definition new_post (params : coarse_params_t P) (mutex_init_ret : Z) (h : H) (p : P)
    (res : umf_result_t * option (cstate H P) * H) : Prop :=
  match res with
  | (UMF_RESULT_SUCCESS, Some s, h') =>
      mutex_init_ret = 0 /\ coarse_inv ok s [] [] /\ unlocked s /\ provider s = p /\ c_host s = h' /\
      c_cb (co s) = p_cb params /\ allocation_strategy (co s) = p_allocation_strategy params /\
      page_size (co s) = p_page_size params
  | (UMF_RESULT_ERROR_OUT_OF_HOST_MEMORY, None, h') => ba_live h' = ba_live h
  | (UMF_RESULT_ERROR_UNKNOWN, None, h') => mutex_init_ret <> 0 /\ ba_live h' = ba_live h
  | _ => False
  end.

Lemma new_sized_fail tg ds (h h' : H) :
  ravl_new_sized (A := ravl_data_t) tg ds h = (None, h') -> ba_live h' = ba_live h.
Proof.
  unfold ravl_new_sized. destruct (umf_ba_global_alloc _ _ h) as [[a|] h1] eqn:E; intros [= <-].
  by apply ba_alloc_none in E.
Qed.
Lemma new_sized_steps tg ds (h h' : H) o :
  ravl_new_sized (A := ravl_data_t) tg ds h = (o, h') -> host_steps h h'.
Proof.
  unfold ravl_new_sized. destruct (umf_ba_global_alloc _ _ h) as [[a|] h1] eqn:E; intros [= <- <-];
    by eapply host_steps_alloc.
Qed.

Lemma coarse_new_spec params mutex_init_ret lock_results (h : H) (p : P) :
  params_valid params -> ok h ->
  exists res, coarse_new dev (Some params) true mutex_init_ret lock_results h p = Some res /\
    new_post params mutex_init_ret h p res.
Proof.
  intros (Hprov & Hpage & Hsp & Hmg) Hok. unfold coarse_new. rewrite Hprov. simpl.
  pose proof (pow2_pos _ Hpage). destruct (Z.eqb_spec (p_page_size params) 0); [lia|].
  rewrite !bool_decide_eq_true_2 by done.
  destruct (umf_ba_global_alloc tag_coarse sizeof_coarse_t h) as [[c|] h1] eqn:E1; cycle 1.
  { eexists. split; [done|]. simpl. by apply ba_alloc_none in E1. }
  pose proof (ba_alloc_some _ _ _ _ _ E1) as [Nc L1].
  destruct (ravl_new_sized tag_free sizeof_ravl_data_t h1) as [[fr|] h2] eqn:E2; cycle 1.
  { eexists. split; [done|]. simpl. apply new_sized_fail in E2.
    rewrite ba_free_live; rewrite E2, L1, ?lookup_insert_eq; [|by eexists]. by rewrite delete_insert_id. }
  pose proof (new_sized_steps _ _ _ _ _ E2) as St2.
  destruct (ravl_new_rep rd_key _ _ _ _ _ E2) as (Rf & Tf & _ & Nf & L2).
  assert (c <> self fr) as Hcf by (intros ->; by rewrite L1, lookup_insert_eq in Nf).
  assert (forall h' h'', ba_live h' = delete (self fr) (ba_live h2) ->
    h'' = umf_ba_global_free c h' -> ba_live h'' = ba_live h) as Hundo.
  { intros h' h'' E ->. rewrite L2, delete_insert_id in E by done. rewrite L1 in E.
    rewrite ba_free_live; rewrite E, ?lookup_insert_eq; [|by eexists]. by rewrite delete_insert_id. }
  destruct (ravl_new_sized tag_all sizeof_ravl_data_t h2) as [[al|] h3] eqn:E3; cycle 1.
  { apply new_sized_fail in E3. destruct (ravl_delete_empty fr h3) as (rs & -> & Ers).
    { eapply (rep_keeps _ "struct ravl"); [by apply keeps_eq|by rewrite Tf|done]. }
    { rewrite E3, L2, lookup_insert_eq. by eexists. }
    eexists. split; [done|]. simpl. eapply Hundo; [|done]. by rewrite Ers, E3. }
  pose proof (new_sized_steps _ _ _ _ _ E3) as St3.
  destruct (ravl_new_rep rd_key _ _ _ _ _ E3) as (Ra & Ta & _ & Na & L3).
  assert (self al <> self fr) as Haf by (intros E; by rewrite E, L2, lookup_insert_eq in Na).
  assert (self al <> c) as Hac
    by (intros E; by rewrite E, L2, lookup_insert_ne, L1, lookup_insert_eq in Na).
  destruct (Z.eqb_spec mutex_init_ret 0) as [->|Hmi]; simpl; cycle 1.
  { destruct (ravl_delete_empty al h3 Ra) as (rs & -> & Ers); [rewrite L3, lookup_insert_eq; by eexists|].
    rewrite L3, delete_insert_id in Ers by done.
    destruct (ravl_delete_empty fr (r_host rs)) as (rs2 & -> & Ers2).
    { eapply (rep_keeps _ "struct ravl"); [by apply keeps_eq|by rewrite Tf|done]. }
    { rewrite Ers, L2, lookup_insert_eq. by eexists. }
    eexists. split; [done|]. split; [done|]. eapply Hundo; [|done]. by rewrite Ers2, Ers. }
  set (s := mk_cstate _ _ _ _ _ _).
  assert (coarse_inv ok s [] []) as Hci.
  { split_and!; try done.
    - exists []. apply new_heaps_inv; try done.
      + eapply (rep_keeps _ "struct ravl"); [by eapply keeps_insert|by rewrite Tf|done].
      + by rewrite L3, lookup_insert_eq.
      + by rewrite L3, lookup_insert_ne, L2, lookup_insert_eq.
      + by rewrite L3, lookup_insert_ne, L2, lookup_insert_ne, L1, lookup_insert_eq.
    - split; constructor.
    - simpl. eapply (reliable_steps T ok); [exact Hok|]. eapply host_steps_trans; [|exact St3].
      eapply host_steps_trans; [by eapply host_steps_alloc|exact St2]. }
  assert (wp (assert_debug_check dev) (fun _ s' => s' = s) s) as Hw
    by (by eapply wp_assert_debug; [exact Hci|intros _|]).
  apply wp_run in Hw as ([] & s' & E & ->). rewrite E. eexists. split; [done|]. by split_and!.
Qed.
End New.
