(* ===== verification/CoarseSpec.v ===== *)
(** * The contract of the coarse allocator

    Seen from outside, the allocator is the list of ranges it has handed out,
    in address order.  [spec_step] says how one call may change that list and
    what it may answer.  [call_refines] shows that every call of coarse.c is
    such a step, and [calls_refine] extends this to every sequence of calls on
    an object over fixed memory: none of them reaches undefined behaviour or a
    failed assert, and the ranges handed out never overlap. *)

From S2P Require Import Prelude Utils HostMem Ravl RavlSpec RavlRemove Coarse.
From S2P Require Import CoarseInv CoarseFree CoarseLists CoarseMerge.
From S2P Require Import CoarseApi CoarseOps CoarseAlloc CoarsePublic.
From stdpp Require Import strings sorting.
#[local] Open Scope Z_scope.

Definition used_ranges (V : list block_t) : list (Z * Z) := range <$> filter (fun b => b_used b = true) V.

Lemma used_ranges_app V1 V2 : used_ranges (V1 ++ V2) = used_ranges V1 ++ used_ranges V2.
Proof. unfold used_ranges. by rewrite filter_app, fmap_app. Qed.
Lemma used_ranges_free x V : b_used x = false -> used_ranges (x :: V) = used_ranges V.
Proof. intros Hx. unfold used_ranges. rewrite filter_cons_False; [done|congruence]. Qed.
Lemma used_ranges_used x V : b_used x = true -> used_ranges (x :: V) = range x :: used_ranges V.
Proof. intros Hx. unfold used_ranges. by rewrite filter_cons_True. Qed.

Lemma used_ranges_in x V : x ∈ V -> b_used x = true -> range x ∈ used_ranges V.
Proof.
  intros Hx Hu. apply list_elem_of_fmap_2. by apply list_elem_of_filter.
Qed.
Lemma used_ranges_from r V : r ∈ used_ranges V -> exists x, x ∈ V /\ b_used x = true /\ r = range x.
Proof.
  intros Hr. apply list_elem_of_fmap in Hr as (x & -> & [Hu Hx]%list_elem_of_filter). eauto.
Qed.

(** Two ranges do not overlap. *)
Definition apart (a n b m : Z) : Prop := a + n <= b \/ b + m <= a.

Lemma layout_apart V1 x V2 y :
  layout (V1 ++ x :: V2) -> y ∈ V1 ++ V2 -> apart (b_data y) (b_size y) (b_data x) (b_size x).
Proof.
  intros [_ Hs] Hy. rewrite StronglySorted_app, StronglySorted_cons in Hs.
  destruct Hs as (H12 & _ & Hf & _). rewrite elem_of_app in Hy. unfold apart, before in *.
  destruct Hy as [Hy|Hy]; [left|right].
  - by apply H12; [|constructor].
  - rewrite Forall_forall in Hf. by apply Hf.
Qed.

(** The ranges handed out are apart. *)
Lemma used_ranges_sorted V :
  layout V -> StronglySorted (fun r1 r2 => r1.1 + r1.2 <= r2.1) (used_ranges V).
Proof.
  induction V as [|x V IH]; intros [Hok Hs]; [constructor|].
  rewrite Forall_cons in Hok. rewrite StronglySorted_cons in Hs. destruct Hs as [Hf Hs], Hok as [_ Hok].
  specialize (IH (conj Hok Hs)). destruct (b_used x) eqn:E.
  - rewrite used_ranges_used by done. apply StronglySorted_cons. split; [|done].
    rewrite Forall_forall in Hf. apply Forall_forall. intros r Hr. apply used_ranges_from in Hr as (y & Hy & _ & ->).
    by apply (Hf y Hy).
  - by rewrite used_ranges_free.
Qed.

(** Coalescing does not touch what is handed out. *)
Section Coalesced.
Context {P : Type}.
Variable merge : Z -> Z -> Z -> P -> umf_result_t * P.

Lemma absorb_prev_used V1 x p :
  b_used x = false ->
  let '(V1', x', _) := absorb_prev merge V1 x p in
  b_used x' = false /\ used_ranges V1' = used_ranges V1.
Proof.
  intros Hx. unfold absorb_prev. destruct (last V1) as [y|] eqn:El; [|done].
  apply last_Some in El as [V0 ->]. destruct (mergeable false y x) eqn:Em; [|done].
  apply mergeable_true in Em as (Ey & _ & _). destruct (merge _ _ _ p) as [[] p']; try done.
  split; [done|]. rewrite removelast_last, used_ranges_app, used_ranges_free by done.
  by rewrite app_nil_r.
Qed.

Lemma absorb_next_used x V2 p :
  b_used x = false ->
  let '(x', V2', _) := absorb_next merge x V2 p in
  b_used x' = false /\ used_ranges V2' = used_ranges V2.
Proof.
  intros Hx. unfold absorb_next. destruct V2 as [|y V2]; [done|].
  destruct (mergeable false x y) eqn:Em; [|done].
  apply mergeable_true in Em as (_ & Ey & _). destruct (merge _ _ _ p) as [[] p']; try done.
  by rewrite used_ranges_free.
Qed.

Lemma coalesce_used V1 x V2 p V' p' :
  coalesce merge V1 x V2 p = (V', p') -> b_used x = false ->
  used_ranges V' = used_ranges V1 ++ used_ranges V2.
Proof.
  unfold coalesce. intros E Hx. pose proof (absorb_prev_used V1 x p Hx) as Hp.
  destruct (absorb_prev merge V1 x p) as [[V1' x'] p1]. destruct Hp as (Hx' & Hp1).
  pose proof (absorb_next_used x' V2 p1 Hx') as Hn.
  destruct (absorb_next merge x' V2 p1) as [[x'' V2'] p2]. destruct Hn as (Hx'' & Hn1).
  simplify_eq. by rewrite used_ranges_app, used_ranges_free, Hp1, Hn1.
Qed.

Lemma given_back_used V1 x V2 al V' p' :
  given_back merge V1 x V2 al V' p' -> b_used x = false ->
  used_ranges V' = used_ranges V1 ++ used_ranges V2.
Proof.
  intros [[p E]|[_ [p E]]] Hx; [by eapply coalesce_used|].
  erewrite coalesce_used; [|exact E|done]. rewrite used_ranges_app, used_ranges_free by done.
  by rewrite app_nil_r.
Qed.
End Coalesced.

(** The block handed out, between free ones. *)
Lemma carve_used size al x :
  exists pad rest, carve size al x = pad ++ mk_block size (b_data x + padding al x) true None :: rest /\
    used_ranges pad = [] /\ used_ranges rest = [].
Proof.
  unfold carve. eexists _, _. split; [reflexivity|].
  by destruct (0 <? padding al x), (padding al x + size <? b_size x).
Qed.

(** ** The calls and the contract *)

Inductive call :=
| CAlloc (size alignment : Z)
| CFree (ptr bytes : Z)
| CSplit (ptr totalSize firstSize : Z)
| CMerge (lowPtr highPtr totalSize : Z).

Inductive spec_step (page : Z) (U : list (Z * Z)) : call -> umf_result_t * option Z -> list (Z * Z) -> Prop :=
| spec_alloc size alignment al a U1 U2 :
    adjust_alignment alignment page = Some al -> a mod al = 0 ->
    U = U1 ++ U2 -> (forall b n, (b, n) ∈ U -> apart b n a size) ->
    spec_step page U (CAlloc size alignment) (UMF_RESULT_SUCCESS, Some a) (U1 ++ (a, size) :: U2)
| spec_alloc_fails size alignment r o :
    r <> UMF_RESULT_SUCCESS -> spec_step page U (CAlloc size alignment) (r, o) U
| spec_free ptr bytes n U1 U2 :
    U = U1 ++ (ptr, n) :: U2 -> bytes = 0 \/ bytes = n ->
    spec_step page U (CFree ptr bytes) (UMF_RESULT_SUCCESS, None) (U1 ++ U2)
| spec_free_invalid ptr bytes :
    (forall n, (ptr, n) ∈ U -> bytes <> 0 /\ bytes <> n) ->
    spec_step page U (CFree ptr bytes) (UMF_RESULT_ERROR_INVALID_ARGUMENT, None) U
| spec_split ptr total first U1 U2 :
    U = U1 ++ (ptr, total) :: U2 -> 0 < first < total ->
    spec_step page U (CSplit ptr total first) (UMF_RESULT_SUCCESS, None)
      (U1 ++ (ptr, first) :: (ptr + first, total - first) :: U2)
| spec_split_fails ptr total first r :
    r <> UMF_RESULT_SUCCESS -> spec_step page U (CSplit ptr total first) (r, None) U
| spec_merge low high total n U1 U2 :
    U = U1 ++ (low, n) :: (high, total - n) :: U2 -> low + n = high ->
    spec_step page U (CMerge low high total) (UMF_RESULT_SUCCESS, None) (U1 ++ (low, total) :: U2)
| spec_merge_fails low high total r :
    r <> UMF_RESULT_SUCCESS -> spec_step page U (CMerge low high total) (r, None) U
| spec_no_lock c o :
    spec_step page U c (UMF_RESULT_ERROR_UNKNOWN, o) U.

Definition call_ok (c : call) : Prop :=
  match c with
  | CAlloc size alignment => 0 < size < two64 /\ is_u64 alignment
  | CFree ptr bytes => is_u64 ptr /\ is_u64 bytes
  | CSplit ptr total first => is_u64 ptr /\ is_u64 total /\ is_u64 first
  | CMerge low high total => is_u64 low /\ is_u64 high /\ is_u64 total
  end.

Section Refine.
Context {H P : Type} `{HostAllocLaws H}.
Context (T : list string) (ok : H -> Prop) `{!Reliable T ok}.
Variable uninit_used : Z -> bool.
Variable dev : bool.
Hypothesis elem_reliable : tag_elem ∈ T.
Hypothesis head_reliable : tag_head ∈ T.
Hypothesis free_reliable : tag_free ∈ T.
Implicit Types (s : cstate H P) (B : list entry).

Definition run_call (self : Z) (c : call) : M (cstate H P) (umf_result_t * option Z) :=
  match c with
  | CAlloc size alignment => coarse_alloc uninit_used dev (Some self) size alignment true None
  | CFree ptr bytes => r ← coarse_free dev (Some self) (Some ptr) bytes; mret (r, None)
  | CSplit ptr total first =>
      r ← coarse_split uninit_used dev (Some self) (Some ptr) total first; mret (r, None)
  | CMerge low high total =>
      r ← coarse_merge dev (Some self) (Some low) (Some high) total; mret (r, None)
  end.

(** A state [s'] that [c] with the answer [res] may lead to from [s]. *)
Definition refined s B (c : call) (res : umf_result_t * option Z) s' : Prop :=
  unlocked s' /\ same_object s s' /\
  exists B', coarse_inv ok s' B' [] /\
    spec_step (page_size (co s)) (used_ranges (view B)) c res (used_ranges (view B')).

Lemma carved_step s B s' B' V1 x V2 size alignment al :
  block_ok x -> pow2 al -> 0 < size -> fits size al x ->
  adjust_alignment alignment (page_size (co s)) = Some al ->
  used_ranges (view B) = used_ranges V1 ++ used_ranges V2 ->
  view B' = V1 ++ carve size al x ++ V2 -> unlocked s' -> same_object s s' ->
  coarse_inv ok s' B' [] ->
  refined s B (CAlloc size alignment) (UMF_RESULT_SUCCESS, Some (b_data x + padding al x)) s'.
Proof.
  intros Hx Hal Hs Hfits Eadj EU EV Hun Hobj Hci. split; [done|]. split; [done|].
  exists B'. split; [done|]. pose proof Hci as (_ & Hlay & _). rewrite EV in Hlay |- *.
  destruct (carve_used size al x) as (pad & rest & Ec & Ep & Er). rewrite Ec in Hlay |- *.
  rewrite !used_ranges_app, Ep, used_ranges_used, Er by done. simpl.
  destruct (fits_padding size al x Hal Hx Hs Hfits) as (_ & _ & Hmod & _).
  eapply spec_alloc; [exact Eadj|done|done|]. intros b n Hin. rewrite EU in Hin.
  rewrite <- used_ranges_app in Hin. apply used_ranges_from in Hin as (y & Hy & _ & Ey).
  injection Ey as -> ->. rewrite <- app_assoc in Hlay. simpl in Hlay. rewrite app_assoc in Hlay.
  apply (layout_apart _ _ _ y Hlay). rewrite elem_of_app in Hy. rewrite !elem_of_app. tauto.
Qed.

Lemma view_in_ok s B x V1 V2 :
  coarse_inv ok s B [] -> view B = V1 ++ x :: V2 -> block_ok x.
Proof. intros (_ & Hlay & _) E. rewrite E in Hlay. by apply layout_middle in Hlay. Qed.

Lemma alloc_from_fits V size al x : 0 <= al -> alloc_from V size al x -> b_used x = false /\ fits size al x.
Proof.
  intros Ha [[(_ & Hu & Hle & _) Hal]|(_ & Hu & Hle & _)]; (split; [done|]); split; auto; lia.
Qed.

Lemma alloc_refines s B size alignment out res s' :
  coarse_inv ok s B [] -> 0 < size < two64 -> is_u64 alignment ->
  (forall alloc, cb_alloc (c_cb (co s)) = Some alloc -> alloc_law alloc (view B) (provider s)) ->
  alloc_post ok s B size alignment out res s' -> refined s B (CAlloc size alignment) res s'.
Proof.
  intros Hci Hs Hali Hlaw (Hun & Hobj & Hpost).
  pose proof Hci as (_ & _ & _ & _ & _ & ((k & Hk & Epage) & _)).
  assert (forall B' r o, coarse_inv ok s' B' [] -> used_ranges (view B') = used_ranges (view B) ->
    r <> UMF_RESULT_SUCCESS -> refined s B (CAlloc size alignment) (r, o) s') as Hfail.
  { intros B' r o Hci' EU Hr. split; [done|]. split; [done|]. exists B'. split; [done|].
    rewrite EU. by apply spec_alloc_fails. }
  destruct (adjust_alignment alignment (page_size (co s))) as [al|] eqn:Eadj; cycle 1.
  { destruct Hpost as [-> ->]. by apply (Hfail B). }
  destruct (adjust_alignment_pow2 alignment (page_size (co s)) al) as (Hal & _); [by exists k|done|done|].
  destruct Hpost as [(-> & Hci' & _)|Hout]; [by apply (Hfail B)|].
  destruct res as [r o]. simpl in Hout. destruct Hout as
    [split V1 x V2 B' EV Hfrom _ _ Hci' EV'|split alloc a p V1 V2 B' x Hno Ecb Ea Hfits EV _ _ Hci' EV'
    |Hno Ecb Hci' _|Hno Hov Hci' _|alloc r ptr Hno Ecb Ea Hr Hci'|alloc a p Hno Ecb Ea Ep Hci'
    |split merge V1 x V2 B' r EV Hfrom _ _ [Hr _] Hgb Hci'
    |split merge alloc a p V1 V2 B' r x Hno Ecb Ea EV _ _ [Hr _] Hgb Hci'];
    try by apply (Hfail B).
  - destruct (alloc_from_fits _ _ _ _ (proj1 (pow2_u64 _ Hal)) Hfrom) as [Hu Hfits].
    eapply (carved_step s B s' B' V1 x V2); try done; [exact (view_in_ok s B x V1 V2 Hci EV)|lia|].
    by rewrite EV, used_ranges_app, used_ranges_free.
  - destruct (Hlaw alloc Ecb _ _ _ _ Ea) as (a' & [= <-] & Hala & (F1 & F2 & _)).
    eapply (carved_step s B s' B' V1 x V2); try done; [|lia|by rewrite EV, used_ranges_app].
    destruct Hfits as [Hle _]. unfold block_ok. simpl in *. lia.
  - destruct (alloc_from_fits _ _ _ _ (proj1 (pow2_u64 _ Hal)) Hfrom) as [Hu _].
    apply (Hfail B'); [done| |done]. rewrite EV, used_ranges_app, used_ranges_free by done.
    by eapply given_back_used.
  - apply (Hfail B'); [done| |done]. rewrite EV, used_ranges_app. by eapply given_back_used.
Qed.

Lemma free_refines s B ptr bytes r s' :
  free_post T ok s B [] ptr bytes r s' -> refined s B (CFree ptr bytes) (r, None) s'.
Proof.
  intros (Hun & Hobj & Hr). split; [done|]. split; [done|]. destruct r; try done.
  - destruct Hr as (V1 & x & V2 & B' & merge & EV & (Ed & Eu & Eb) & Hci & _ & Eco).
    exists B'. split; [done|]. apply coalesce_used in Eco; [|done]. rewrite Eco, EV.
    eapply spec_free; [|exact Eb]. rewrite used_ranges_app, used_ranges_used by done.
    unfold range. by rewrite Ed.
  - destruct Hr as (V1 & x & V2 & B' & merge & q & _ & _ & Hno & _). tauto.
  - destruct Hr as (Hno & Hci & _). exists B. split; [done|]. apply spec_free_invalid.
    intros n Hin. apply used_ranges_from in Hin as (x & Hx & Hu & [= -> ->]).
    split; intros E; apply (Hno x Hx); split_and!; auto.
  - destruct Hr as [Hci _]. exists B. split; [done|]. apply spec_no_lock.
Qed.

Lemma split_refines s B ptr total first r s' :
  0 < first < total -> split_post ok s B [] ptr total first r s' ->
  refined s B (CSplit ptr total first) (r, None) s'.
Proof.
  intros Hf (Hun & Hobj & Hr). split; [done|]. split; [done|].
  destruct Hr as [Hci _|Hno Hci _|split r _ _ Hr Hci|split _ _ Hci|split V1 x V2 B' _ _ EV Ed Es Eu Hci EV'].
  5: { exists B'. split; [done|]. rewrite EV, EV', !used_ranges_app, !used_ranges_used by done.
    unfold range. simpl. rewrite Ed, Es. by apply spec_split. }
  all: exists B; split; [done|]; by apply spec_split_fails.
Qed.

Lemma merge_refines s B low high total r s' :
  merge_post ok s B [] low high total r s' -> refined s B (CMerge low high total) (r, None) s'.
Proof.
  intros (Hun & Hobj & Hr). split; [done|]. split; [done|].
  destruct Hr as [Hci _|Hno Hci _|merge r _ _ Hr Hci|merge V1 x y V2 B' _ _ EV Ed Eh Em Et Hci EV'].
  4: { apply mergeable_true in Em as (Eu1 & Eu2 & Eadj). exists B'. split; [done|].
    rewrite EV, EV', !used_ranges_app, !used_ranges_used by done.
    unfold range. simpl. rewrite Ed, Eh, Et. eapply (spec_merge _ _ _ _ _ (b_size x)); [|lia].
    by replace (total - b_size x) with (b_size y) by lia. }
  all: exists B; split; [done|]; by apply spec_merge_fails.
Qed.

Lemma refined_invalid s B c :
  coarse_inv ok s B [] -> unlocked s -> (forall r, r <> UMF_RESULT_SUCCESS ->
    spec_step (page_size (co s)) (used_ranges (view B)) c (r, None) (used_ranges (view B))) ->
  refined s B c (UMF_RESULT_ERROR_INVALID_ARGUMENT, None) s.
Proof.
  intros Hci Hun Hstep. split; [done|]. split; [apply same_object_refl|]. exists B. split; [done|].
  by apply Hstep.
Qed.

Lemma wp_run_call s B self c split :
  coarse_inv ok s B [] -> unlocked s -> call_ok c ->
  cb_split (c_cb (co s)) = Some split -> init_ok T uninit_used split ->
  (forall alloc, cb_alloc (c_cb (co s)) = Some alloc -> alloc_law alloc (view B) (provider s)) ->
  wp (run_call self c) (refined s B c) s.
Proof.
  intros Hci Hun Hc Hsp Hinit Hlaw. destruct c as [size al|ptr bytes|ptr total first|low high total].
  - destruct Hc as [Hs Ha]. eapply wp_mono; [by eapply (wp_coarse_alloc T ok)|].
    intros res s'. by apply alloc_refines.
  - destruct Hc as (_ & Hb & _). apply wp_bind. eapply wp_mono;
      [by eapply (wp_coarse_free T ok); [done|exact Hci|intros _|done|]|].
    intros r s' Hpost. by apply wp_ret, free_refines.
  - destruct Hc as (_ & [Ht _] & [Hf _]). apply wp_bind.
    destruct (decide (0 < first < total)) as [Hk|Hk].
    + eapply wp_mono; [by eapply (wp_coarse_split T ok); [exact Hci|intros _|done|]|].
      intros r s' Hpost. by apply wp_ret, split_refines.
    + unfold coarse_split.
      replace ((total <=? first) || (first =? 0) || (total =? 0)) with true by lia.
      apply wp_ret, wp_ret, refined_invalid; [done|done|]. intros r Hr. by apply spec_split_fails.
  - destruct Hc as ([Hl _] & [_ Hh] & [Ht _]). apply wp_bind.
    destruct (decide (low < high /\ high - low < total)) as [[Hk1 Hk2]|Hk].
    + eapply wp_mono; [by eapply (wp_coarse_merge T ok); [exact Hci|intros _|..]|].
      intros r s' Hpost. by apply wp_ret, merge_refines.
    + unfold coarse_merge.
      assert ((total =? 0) || (high <=? low) || (total <=? sub64 high low) = true) as ->.
      { destruct (Z.leb_spec high low); [lia|]. rewrite sub64_small by (unfold is_u64; lia). lia. }
      apply wp_ret, wp_ret, refined_invalid; [done|done|]. intros r Hr. by apply spec_merge_fails.
Qed.

(** Sequences of calls. *)
Fixpoint run_calls (self : Z) (cs : list call) : M (cstate H P) (list (umf_result_t * option Z)) :=
  match cs with
  | [] => mret []
  | c :: cs => res ← run_call self c; rs ← run_calls self cs; mret (res :: rs)
  end.

Inductive spec_steps (page : Z) : list (Z * Z) -> list call -> list (umf_result_t * option Z) ->
    list (Z * Z) -> Prop :=
| spec_nil U : spec_steps page U [] [] U
| spec_cons U c res U1 cs rs U2 :
    spec_step page U c res U1 -> spec_steps page U1 cs rs U2 ->
    spec_steps page U (c :: cs) (res :: rs) U2.

Lemma wp_run_calls s B self cs split :
  coarse_inv ok s B [] -> unlocked s -> Forall call_ok cs ->
  cb_alloc (c_cb (co s)) = None -> cb_split (c_cb (co s)) = Some split -> init_ok T uninit_used split ->
  wp (run_calls self cs) (fun rs s' => unlocked s' /\ exists B', coarse_inv ok s' B' [] /\
    spec_steps (page_size (co s)) (used_ranges (view B)) cs rs (used_ranges (view B'))) s.
Proof.
  intros Hci Hun Hcs Ca Hsp Hinit. revert s B Hci Hun Ca Hsp.
  induction Hcs as [|c cs Hc Hcs IH]; intros s B Hci Hun Ca Hsp; simpl.
  - apply wp_ret. split; [done|]. exists B. split; [done|constructor].
  - apply wp_bind. eapply wp_mono; [eapply wp_run_call; [exact Hci|done|done|exact Hsp|done|]|].
    { intros alloc E. congruence. }
    intros res s1 (Hun1 & (_ & Ecb & _ & Epg & _) & B1 & Hci1 & Hstep).
    apply wp_bind. eapply wp_mono; [apply (IH s1 B1); [done|done|by rewrite Ecb|by rewrite Ecb]|].
    intros rs s2 (Hun2 & B2 & Hci2 & Hsteps). apply wp_ret. split; [done|].
    exists B2. split; [done|]. rewrite Epg in Hsteps. by econstructor.
Qed.
End Refine.
