(* ===== verification/CoarseDelete.v ===== *)
(** * Destroying a coarse allocator

    [coarse_delete] visits the blocks in address order, takes each off its
    free list, gives its memory back to the provider and frees it; at the end
    the two trees are empty of blocks and are freed with the object. *)

From S2P Require Import Prelude Utils HostMem Ravl RavlSpec RavlRemove Coarse.
From S2P Require Import CoarseInv CoarseFree CoarseLists CoarseMerge CoarseApi CoarseOps.
From stdpp Require Import strings sorting.
#[local] Open Scope Z_scope.

Section Rest.
Context {H P : Type} `{HostAllocLaws H}.
Implicit Types (s : cstate H P) (B : list entry) (F : list fentry) (X : list Z).

(** The blocks that have not been visited yet, with the free lists. *)
Definition rest_inv s B F X : Prop :=
  NoDup (en_ptr <$> B) /\ owned tag_block (blocks s) (c_host s) /\
  (forall p b, blocks s !! p = Some b <-> exists e, e ∈ B /\ en_ptr e = p /\ en_block e = b) /\
  free_inv s F /\ linked B F X /\ Forall (fun f => f_elems f <> []) F.

(** The tree of all blocks keeps its nodes until the end. *)
Definition tree_inv s (B : list entry) : Prop :=
  ravl_rep rd_key (all_tree s) (all_node <$> B) /\ node_tag (all_blocks (co s)) = tag_all /\ self_inv s.

Definition same_trees s s' : Prop :=
  all_blocks (co s') = all_blocks (co s) /\ self (free_blocks (co s')) = self (free_blocks (co s)).

Lemma free_only_tree s s' B : free_only s s' -> tree_inv s B -> tree_inv s' B.
Proof.
  intros Ho (Hr & Ht & Hs). split_and!; [| |by eapply free_only_self].
  - destruct Ho as (A1 & _ & _ & A4 & _). unfold all_tree. rewrite A1.
    destruct Hr as (t & Hz & HL & Hso & Hok & Ow & Hd). exists t. split_and!; try done.
    simpl in *. rewrite Ht in *. intros a Ha. apply A4; [constructor|]. by apply Ow.
  - destruct Ho as (A1 & _). by rewrite A1.
Qed.

Lemma rest_block s en B F X : rest_inv s (en :: B) F X -> blocks s !! en_ptr en = Some (en_block en).
Proof. intros (_ & _ & Hb & _). apply Hb. exists en. split; [constructor|done]. Qed.

Lemma rest_other s en B F X e : rest_inv s (en :: B) F X -> e ∈ B -> en_ptr e <> en_ptr en.
Proof.
  intros (Hnd & _) He E. rewrite fmap_cons in Hnd. apply list.NoDup_cons in Hnd as [Hn _].
  apply Hn. rewrite <- E. by apply list_elem_of_fmap_2.
Qed.

(** A change of the free lists and of the list pointer of the next block. *)
Lemma rest_change s s' en B F F' X X' g :
  rest_inv s (en :: B) F X ->
  free_only (set_blocks (<[en_ptr en := g (en_block en)]> (blocks s)) s) s' ->
  free_inv s' F' -> Forall (fun f => f_elems f <> []) F' -> linked (upd_block g en :: B) F' X' ->
  rest_inv s' (upd_block g en :: B) F' X'.
Proof.
  intros HI Ho Hf' Hne' Hl'. pose proof (rest_block _ _ _ _ _ HI) as Hen.
  pose proof HI as (Hnd & Ow & Hb & _). destruct Ho as (_ & A2 & _ & A4 & _). simpl in A2, A4.
  split_and!; try done.
  - rewrite A2. intros a Ha. apply A4; [by right; left|]. apply Ow.
    destruct (decide (a = en_ptr en)) as [->|Hne]; [by eexists|]. by rewrite lookup_insert_ne in Ha.
  - intros p b. rewrite A2. destruct (decide (p = en_ptr en)) as [->|Hne].
    + rewrite lookup_insert_eq. split.
      * intros [= <-]. exists (upd_block g en). split; [constructor|done].
      * intros (e & He & Ep & <-). rewrite elem_of_cons in He. destruct He as [->|He]; [done|].
        by destruct (rest_other _ _ _ _ _ _ HI He).
    + rewrite lookup_insert_ne by done. rewrite Hb. split; intros (e & He & Ep & Eb); rewrite elem_of_cons in He.
      * destruct He as [->|He]; [done|]. exists e. rewrite elem_of_cons. auto.
      * destruct He as [->|He]; [done|]. exists e. rewrite elem_of_cons. auto.
Qed.

(** Taking the next block off its list. *)
Lemma wp_rest_rm_node s en B F X e Bt (Q : Z -> cstate H P -> Prop) :
  rest_inv s (en :: B) F X -> tree_inv s Bt -> b_free_list_ptr (en_block en) = Some e ->
  (forall v s' F' X', rest_inv s' (upd_block (with_b_free_list_ptr None) en :: B) F' X' ->
     tree_inv s' Bt -> same_ctl s s' -> same_trees s s' -> Q v s') ->
  wp (free_blocks_rm_node e) Q s.
Proof.
  intros HI HT Ee HQ. pose proof HI as (_ & _ & _ & Hf & Hl & Hne).
  destruct (linked_place [] en B _ _ _ Hl Ee) as (F1 & f & F2 & l1 & l2 & -> & El & Es & Eu).
  { intros e' He'. by apply (rest_other _ _ _ _ _ _ HI). }
  pose proof (rest_block _ _ _ _ _ HI) as Hb.
  pose proof (free_inv_dll _ _ f Hf) as Hd. rewrite El in Hd.
  specialize (Hd ltac:(rewrite elem_of_app, elem_of_cons; auto)). pose proof (dll_at _ _ _ _ _ Hd) as He.
  unfold free_blocks_rm_node. apply wp_bind. eapply wp_load_elem; [done|]. simpl.
  apply wp_bind. eapply wp_load_block; [done|]. rewrite Es. pose proof Hf as (Hr & _).
  apply wp_bind. eapply wp_find_free; [exact Hr|by left|].
  rewrite (find_free_entry _ _ _ _ _ Hr) by (done || by left).
  rewrite fmap_app, fmap_cons in Hr. wp_step; [done|]. apply wp_bind. eapply wp_data_free; [exact Hr|]. simpl.
  wp_step; [by apply Z.eqb_eq|]. wp_step. apply wp_bind. eapply wp_node_list_rm; [exact Hf|exact El|done|].
  apply wp_bind.
  assert (ba_live (c_host s) !! e = Some tag_elem) as Hlive.
  { pose proof Hf as (_ & _ & _ & Oe & _). apply Oe. by eexists. }
  pose proof (free_inv_rm _ _ _ _ _ _ _ _ (en_block en) Hf El) as Hf'.
  pose proof (rm_state_only s f l1 e (en_ptr en) l2 (en_block en) Hlive) as Ho.
  assert (linked (upd_block (with_b_free_list_ptr None) en :: B)
    (F1 ++ set_felems (l1 ++ l2) f :: F2) (en_ptr en :: X)) as Hl'.
  { eapply (linked_rm [] B en F1 F2 f); [|exact Hl|exact El|by destruct_and! Hf]. intros e1 He1. by eapply rest_other. }
  rewrite Forall_app, Forall_cons in Hne. destruct Hne as (Hne1 & _ & Hne2).
  change (f_head f) with (f_head (set_felems (l1 ++ l2) f)).
  change (f_node f) with (f_node (set_felems (l1 ++ l2) f)).
  assert (forall s' v F', free_only (set_blocks (<[en_ptr en := with_b_free_list_ptr None (en_block en)]> (blocks s)) s) s' ->
    free_inv s' F' -> Forall (fun f => f_elems f <> []) F' ->
    linked (upd_block (with_b_free_list_ptr None) en :: B) F' (en_ptr en :: X) -> Q v s') as Hend.
  { intros s' v F' Ho' Hfi Hnf Hlk. eapply HQ; [by eapply rest_change|by eapply free_only_tree|apply Ho'|].
    by destruct Ho' as (A1 & _ & A3 & _). }
  eapply wp_drop_empty_head; [exact Hf'| |].
  - intros Hnonempty. apply wp_ret. eapply Hend; [done|done| |done]. rewrite Forall_app, Forall_cons. done.
  - intros s' F2' Eempty Hfs Hf'' Ho'. apply wp_ret. eapply Hend; [by eapply free_only_trans|done| |].
    + rewrite Forall_app. split; [done|]. rewrite Forall_forall in Hne2 |- *. intros g Hg.
      destruct (same_fs_in _ _ _ Hfs Hg) as (g0 & Hg0 & _ & _ & <-). auto.
    + eapply linked_same_fs; [by apply Forall2_app; [apply same_fs_refl|exact Hfs]|].
      by apply linked_drop_empty in Hl'.
Qed.

(** The next block, off the lists, is freed. *)
Lemma linked_tail en B F X : b_free_list_ptr (en_block en) = None -> linked (en :: B) F X -> linked B F X.
Proof.
  intros En (L1 & L2 & L3). split_and!.
  - intros f e p Hf Hin. destruct (L1 f e p Hf Hin) as (en' & He' & Ep & Es & Ee & Eu).
    rewrite elem_of_cons in He'. destruct He' as [->|He']; [congruence|]. exists en'. done.
  - intros en' e He'. apply L2. by right.
  - intros en' He'. apply L3. by right.
Qed.

Lemma rest_free_block s en B F X Bt :
  rest_inv s (en :: B) F X -> tree_inv s Bt -> b_free_list_ptr (en_block en) = None ->
  let s' := set_chost (umf_ba_global_free (en_ptr en) (c_host s)) (set_blocks (delete (en_ptr en) (blocks s)) s) in
  rest_inv s' B F X /\ tree_inv s' Bt.
Proof.
  intros HI (Hr & Ht & (Hs1 & Hs2 & Hs3)) En s'. pose proof (rest_block _ _ _ _ _ HI) as Hen.
  pose proof HI as (Hnd & Ow & Hb & (F1 & F2 & F3 & F4 & F5) & Hl & Hne).
  assert (keeps_but tag_block (c_host s) (umf_ba_global_free (en_ptr en) (c_host s))) as Hk.
  { apply keeps_free, Ow. by eexists. }
  split; [split_and!|split_and!].
  - rewrite fmap_cons in Hnd. by apply list.NoDup_cons in Hnd as [_ ?].
  - apply owned_free_own; [done|by eexists].
  - intros p b. simpl. destruct (decide (p = en_ptr en)) as [->|Hp].
    + rewrite lookup_delete_eq. split; [done|]. intros (e & He & Ep & _). by destruct (rest_other _ _ _ _ _ _ HI He).
    + rewrite lookup_delete_ne by done. rewrite Hb. split; intros (e & He & Ep & Eb).
      * rewrite elem_of_cons in He. destruct He as [->|He]; [done|]. eauto.
      * exists e. rewrite elem_of_cons. auto.
  - split_and!; try (simpl; tauto).
    + eapply rep_keeps; [exact Hk|simpl; by rewrite F2|exact F1].
    + by eapply owned_keeps.
    + by eapply owned_keeps.
  - by eapply linked_tail.
  - done.
  - eapply rep_keeps; [exact Hk|simpl; by rewrite Ht|exact Hr].
  - done.
  - split_and!; [by eapply owned_keeps|done|by eapply owned_keeps].
Qed.

(** The callback of the traversal, on the next block. *)
Definition gave_back (s : cstate H P) (b : block_t) : P :=
  match cb_free (c_cb (co s)) with Some free => snd (free (b_data b) (b_size b) (provider s)) | None => provider s end.

Lemma wp_rm_all_blocks_node s en B F X Bt (Q : unit -> cstate H P -> Prop) :
  rest_inv s (en :: B) F X -> tree_inv s Bt -> layout (view (en :: B)) ->
  used_size (co s) = sum_of b_used (view (en :: B)) ->
  alloc_size (co s) = sum_of (fun _ => true) (view (en :: B)) ->
  (forall s' F' X', rest_inv s' B F' X' -> tree_inv s' Bt ->
     used_size (co s') = sum_of b_used (view B) -> alloc_size (co s') = sum_of (fun _ => true) (view B) ->
     c_self (co s') = c_self (co s) -> c_cb (co s') = c_cb (co s) ->
     provider s' = gave_back s (en_block en) -> same_trees s s' -> Q tt s') ->
  wp (coarse_ravl_cb_rm_all_blocks_node (all_node en).2 tt) Q s.
Proof.
  intros HI HT Hlay Hus Has HQ. pose proof (rest_block _ _ _ _ _ HI) as Hen.
  pose proof (sum_of_u64 _ b_used Hlay) as Hu. pose proof (sum_of_u64 _ (fun _ => true) Hlay) as Ha.
  assert (layout (view B)) as Hlay'.
  { destruct Hlay as [Hok Hs]. simpl in Hok, Hs. rewrite Forall_cons in Hok. rewrite StronglySorted_cons in Hs. split; tauto. }
  pose proof (sum_of_u64 _ b_used Hlay') as Hu'. pose proof (sum_of_u64 _ (fun _ => true) Hlay') as Ha'.
  simpl in Hus, Has, Hu, Ha. unfold coarse_ravl_cb_rm_all_blocks_node. simpl. wp_step.
  apply wp_bind. eapply wp_load_block; [done|].
  assert (forall s0 F0 X0 b0, rest_inv s0 (b0 :: B) F0 X0 -> tree_inv s0 Bt -> en_ptr b0 = en_ptr en ->
    b_free_list_ptr (en_block b0) = None ->
    used_size (co s0) = sum_of b_used (view B) -> alloc_size (co s0) = alloc_size (co s) ->
    c_self (co s0) = c_self (co s) -> c_cb (co s0) = c_cb (co s) -> provider s0 = provider s -> same_trees s s0 ->
    wp (call_free (b_data (en_block en)) (b_size (en_block en));; s ← get;
        c_assert (b_size (en_block en) <=? alloc_size (co s));;
        modify (set_alloc_size (sub64 (alloc_size (co s)) (b_size (en_block en))));;
        free_block_struct (en_ptr en)) Q s0) as Hend.
  { intros s0 F0 X0 b0 HI0 HT0 Ep En0 Eu0 Ea0 Es0 Ec0 Epr0 Hst0.
    assert (forall p, p = gave_back s (en_block en) -> wp (s ← get;
        c_assert (b_size (en_block en) <=? alloc_size (co s));;
        modify (set_alloc_size (sub64 (alloc_size (co s)) (b_size (en_block en))));;
        free_block_struct (en_ptr en)) Q (set_provider p s0)) as Hp.
    { intros p ->. wp_step. simpl. rewrite Ea0, Has. wp_step; [apply Z.leb_le; lia|]. wp_step.
      rewrite sub64_small by (unfold is_u64; lia). rewrite <- Ep.
      eapply wp_free_block_struct; [exact (rest_block _ _ _ _ _ HI0)|].
      destruct (rest_free_block s0 b0 B F0 X0 Bt HI0 HT0 En0) as [HI1 HT1].
      eapply (HQ _ F0 X0); [exact HI1|exact HT1|done|simpl; lia|done|done|done|done]. }
    unfold call_free. apply wp_bind. wp_step. rewrite Ec0. unfold gave_back in Hp. rewrite Epr0.
    destruct (cb_free (c_cb (co s))) as [fr|]; wp_step; [by apply Hp|].
    specialize (Hp _ eq_refl). destruct s0; simpl in *. subst. exact Hp. }
  assert (forall s1, rest_inv s1 (en :: B) F X -> tree_inv s1 Bt ->
    used_size (co s1) = sum_of b_used (view B) -> alloc_size (co s1) = alloc_size (co s) ->
    c_self (co s1) = c_self (co s) -> c_cb (co s1) = c_cb (co s) -> provider s1 = provider s -> same_trees s s1 ->
    wp (match b_free_list_ptr (en_block en) with Some e => free_blocks_rm_node e;; mret tt | None => mret tt end;;
        call_free (b_data (en_block en)) (b_size (en_block en));; s ← get;
        c_assert (b_size (en_block en) <=? alloc_size (co s));;
        modify (set_alloc_size (sub64 (alloc_size (co s)) (b_size (en_block en))));;
        free_block_struct (en_ptr en)) Q s1) as Hlist.
  { intros s1 HI1 HT1 Eu1 Ea1 Es1 Ec1 Ep1 [Hst1 Hst2]. apply wp_bind. destruct (b_free_list_ptr (en_block en)) as [e|] eqn:Ee.
    - apply wp_bind. eapply wp_rest_rm_node; [exact HI1|exact HT1|done|]. intros v s2 F2 X2 HI2 HT2 Hc [Hst3 Hst4]. wp_step.
      destruct Hc as (C1 & C2 & _ & _ & _ & C6 & C7 & C8 & _).
      eapply (Hend s2 F2 X2); [exact HI2|done|done|done|congruence..|split; congruence].
    - wp_step. by eapply (Hend s1 F X). }
  apply wp_bind. destruct (b_used (en_block en)) eqn:Eu; simpl in Hus, Hu.
  - wp_step. wp_step; [apply Z.leb_le; lia|]. wp_step. apply Hlist; try done. simpl.
    rewrite sub64_small by (unfold is_u64; lia). lia.
  - wp_step. by apply Hlist.
Qed.
End Rest.

Section Delete.
Context {H P : Type} `{HostAllocLaws H}.
Context (T : list string) (ok : H -> Prop) `{!Reliable T ok}.
Implicit Types (s : cstate H P) (B : list entry).

(** The provider after the memory of the blocks [V] has been given back. *)
Definition gave_back_all (free : option (Z -> Z -> P -> umf_result_t * P)) (V : list block_t) (p : P) : P :=
  match free with
  | Some free => foldl (fun p b => snd (free (b_data b) (b_size b) p)) p V
  | None => p
  end.

Lemma rest_start s B X : coarse_inv ok s B X ->
  exists F, rest_inv s B F X /\ tree_inv s B.
Proof.
  intros ((F & Ha & Hf & Hs & Hl & Hne) & _). exists F. pose proof Ha as (Hr & Ht & Ow & Hb).
  split; split_and!; try done. by eapply nodup_ptrs.
Qed.

(** At the end of the traversal nothing is left in the heaps. *)
Lemma rest_end s F X : rest_inv s [] F X -> F = [] /\ blocks s = ∅ /\ heads s = ∅ /\ elems s = ∅.
Proof.
  intros (_ & _ & Hb & (_ & _ & _ & _ & _ & Hh & _ & _ & He) & (L1 & _) & Hne).
  assert (F = []) as ->.
  { destruct F as [|f F]; [done|]. rewrite Forall_cons in Hne. destruct Hne as [Hf _].
    destruct (f_elems f) as [|[e p] l] eqn:E; [done|].
    destruct (L1 f e p) as (en & Hen & _); [constructor|rewrite E; constructor|]. by apply not_elem_of_nil in Hen. }
  split_and!; [done|apply map_eq; intros a; rewrite lookup_empty..].
  - destruct (blocks s !! a) eqn:E; [|done]. apply Hb in E as (e & Hin & _). by apply not_elem_of_nil in Hin.
  - destruct (heads s !! a) eqn:E; [|done]. apply Hh in E as (e & Hin & _). by apply not_elem_of_nil in Hin.
  - destruct (elems s !! a) eqn:E; [|done]. specialize (He a ltac:(eauto)). by apply not_elem_of_nil in He.
Qed.

(** The objects of the allocator other than blocks, heads and elements. *)
Definition frame_objects s B : list Z :=
  c_self (co s) :: self (all_blocks (co s)) :: self (free_blocks (co s)) :: (en_node <$> B).

(** The traversal, after the blocks [B1]. *)
Definition visited s B (L1 : list ravl_data_t) (s' : cstate H P) : Prop :=
  exists B1 B2 F X, B = B1 ++ B2 /\ L1 = (all_node <$> B1).*2 /\ rest_inv s' B2 F X /\ tree_inv s' B /\
    used_size (co s') = sum_of b_used (view B2) /\ alloc_size (co s') = sum_of (fun _ => true) (view B2) /\
    c_self (co s') = c_self (co s) /\ c_cb (co s') = c_cb (co s) /\
    provider s' = gave_back_all (cb_free (c_cb (co s))) (view B1) (provider s) /\ same_trees s s'.

Lemma gave_back_all_snoc free V b p :
  gave_back_all free (V ++ [clean b]) p =
    match free with Some free => snd (free (b_data b) (b_size b) (gave_back_all (Some free) V p)) | None => p end.
Proof. destruct free; [|done]. simpl. by rewrite foldl_app. Qed.

Lemma wp_visit s B L1 d L2 s1 :
  layout (view B) -> (all_node <$> B).*2 = L1 ++ d :: L2 -> visited s B L1 s1 ->
  wp (coarse_ravl_cb_rm_all_blocks_node d tt) (fun _ => visited s B (L1 ++ [d])) s1.
Proof.
  intros Hlay EL (B1 & B2 & F & X & -> & -> & HI & HT & Eu & Ea & Es & Ec & Ep & [St1 St2]).
  rewrite !fmap_app in EL. apply app_inv_head in EL. destruct B2 as [|en B2]; [done|].
  simpl in EL. injection EL as <- <-. eapply (wp_rm_all_blocks_node _ en B2); [exact HI|exact HT| |done|done|].
  - unfold view in Hlay. rewrite fmap_app in Hlay. destruct Hlay as [Hok Hs].
    rewrite Forall_app in Hok. rewrite StronglySorted_app in Hs. split; tauto.
  - intros s' F' X' HI' HT' Eu' Ea' Es' Ec' Ep' [St3 St4]. exists (B1 ++ [en]), B2, F', X'.
    split_and!; [by rewrite <- app_assoc|by rewrite !fmap_app|done|done|done|done|congruence|congruence| |split; congruence].
    rewrite Ep'. unfold gave_back, view. rewrite fmap_app. simpl. rewrite gave_back_all_snoc, Ec, Ep.
    by destruct (cb_free (c_cb (co s))).
Qed.

Lemma tree_objects s B : tree_inv s B ->
  (self (all_blocks (co s)) ∉ (all_node <$> B).*1) /\
  (forall a, a ∈ (all_node <$> B).*1 -> ba_live (c_host s) !! a = Some tag_all) /\
  ba_live (c_host s) !! self (all_blocks (co s)) = Some "struct ravl"%string /\
  ba_live (c_host s) !! self (free_blocks (co s)) = Some "struct ravl"%string /\
  ba_live (c_host s) !! c_self (co s) = Some tag_coarse.
Proof.
  intros (Hr & Ht & (Hs1 & Hs2 & Hs3)).
  assert (ba_live (c_host s) !! self (all_blocks (co s)) = Some "struct ravl"%string) as E1.
  { apply Hs1. rewrite lookup_insert_eq. by eexists. }
  assert (forall a, a ∈ (all_node <$> B).*1 -> ba_live (c_host s) !! a = Some tag_all) as E2.
  { intros a Ha. destruct Hr as (t & Hz & HL & _ & _ & Ow & _). simpl in Ow. rewrite Ht in Ow. apply Ow.
    rewrite <- HL, RavlTree.addrs_inorder in Ha. destruct Hz as [Hz _]. by eapply RavlTree.tree_at_lookup. }
  split_and!; [|done|done| |].
  - intros Hin. apply E2 in Hin. rewrite E1 in Hin. done.
  - apply Hs1. rewrite lookup_insert_ne by done. rewrite lookup_singleton_eq. by eexists.
  - apply Hs3. rewrite lookup_singleton_eq. by eexists.
Qed.

Lemma free_self_only s : free_inv s [] -> ravl_rep rd_key (free_tree s) [].
Proof. by intros (Hr & _). Qed.

(** Freeing the two trees and the object. *)
Lemma wp_delete_frame s B (Q : unit -> cstate H P -> Prop) :
  tree_inv s B -> free_inv s [] ->
  (forall s', blocks s' = blocks s -> heads s' = heads s -> elems s' = elems s -> provider s' = provider s ->
     (forall a, ba_live (c_host s') !! a = if decide (a ∈ frame_objects s B) then None else ba_live (c_host s) !! a) ->
     Q tt s') ->
  wp (on_all ravl_delete;; on_free ravl_delete;; host_free (c_self (co s))) Q s.
Proof.
  intros HT Hf HQ. pose proof HT as (Hr & Ht & (_ & Hne & _)).
  destruct (tree_objects s B HT) as (Hself & Hnodes & E1 & E2 & E3).
  assert (self (free_blocks (co s)) ∉ (all_node <$> B).*1) as Hn2 by (intros Hin; apply Hnodes in Hin; rewrite E2 in Hin; done).
  assert (c_self (co s) ∉ (all_node <$> B).*1) as Hn3 by (intros Hin; apply Hnodes in Hin; rewrite E3 in Hin; done).
  assert (c_self (co s) <> self (all_blocks (co s)) /\ c_self (co s) <> self (free_blocks (co s))) as [Hn4 Hn5].
  { split; intros E; rewrite E in E3; [rewrite E1 in E3|rewrite E2 in E3]; done. }
  apply wp_bind, wp_on_all. unfold ravl_delete.
  eapply (wp_delete_cb rd_key None _ _ tt tt); [exact Hr|apply cb_fold_None|done|by eexists|].
  intros rs1 Hl1. simpl in Hl1. apply wp_bind, wp_on_free.
  assert (ravl_rep rd_key (free_tree (set_chost (r_host rs1) (set_all_blocks (r_ravl rs1) s))) []) as Hr2.
  { destruct Hf as (Hr2 & Hft & _). destruct Hr2 as (t & Hz & HL & Hso & Hok & Ow & Hd).
    exists t. split_and!; try done. intros a Ha. apply Hd in Ha. simpl in HL.
    rewrite <- RavlTree.addrs_inorder, HL in Ha. by apply not_elem_of_nil in Ha. }
  eapply (wp_delete_cb rd_key None _ _ tt tt); [exact Hr2|done|apply not_elem_of_nil| |].
  { simpl. rewrite Hl1, decide_False by naive_solver. by rewrite E2. }
  intros rs2 Hl2. simpl in Hl2. unfold host_free. apply wp_modify. simpl. apply HQ; try done.
  intros a. simpl. rewrite ba_free_live; cycle 1.
  { rewrite Hl2, decide_False by (intros [?|?%not_elem_of_nil]; done). rewrite Hl1, decide_False by naive_solver. by rewrite E3. }
  assert (a ∈ frame_objects s B <-> a = c_self (co s) \/ a = self (all_blocks (co s)) \/
    a = self (free_blocks (co s)) \/ a ∈ (all_node <$> B).*1) as Hfo.
  { unfold frame_objects. rewrite !elem_of_cons. by rewrite <- list_fmap_compose. }
  destruct (decide (a ∈ frame_objects s B)) as [Hin|Hin]; rewrite Hfo in Hin.
  - destruct (decide (a = c_self (co s))) as [->|Ha]; [by rewrite lookup_delete_eq|].
    rewrite lookup_delete_ne by done. rewrite Hl2. case_decide as Hd; [done|].
    rewrite Hl1. apply decide_True. destruct Hin as [?|[?|[?|?]]]; [done|tauto|tauto|tauto].
  - rewrite lookup_delete_ne by (intros <-; tauto). rewrite Hl2, decide_False by (intros [?|?%not_elem_of_nil]; [tauto|done]).
    rewrite Hl1, decide_False by tauto. done.
Qed.

Lemma wp_coarse_delete s B X (Q : unit -> cstate H P -> Prop) :
  coarse_inv ok s B X -> unlocked s ->
  (forall s', blocks s' = ∅ -> heads s' = ∅ -> elems s' = ∅ ->
     provider s' = gave_back_all (cb_free (c_cb (co s))) (view B) (provider s) ->
     (forall a, a ∈ frame_objects s B -> ba_live (c_host s') !! a = None) -> Q tt s') ->
  wp (coarse_delete (Some (c_self (co s)))) Q s.
Proof.
  intros Hci Hun HQ. destruct (rest_start s B X Hci) as (F & HI & HT).
  pose proof Hci as (_ & Hlay & Hus & Has & _). unfold coarse_delete, destroy_mutex.
  apply wp_bind. wp_step. wp_prim; [by rewrite Hun|]. apply wp_bind.
  eapply (wp_foreach_in _ _ tt s (all_node <$> B) (fun L1 _ => visited s B L1)).
  - apply HT.
  - exists [], B, F, X. split_and!; try done. by destruct (cb_free (c_cb (co s))).
  - intros L1 d L2 [] s1 EL HV. eapply wp_mono; [by eapply wp_visit|done].
  - intros [] s1 (B1 & B2 & F1 & X1 & EB & EL & HI1 & HT1 & Eu & Ea & Es & Ec & Ep & [St1 St2]).
    assert (B2 = []) as ->.
    { subst B. rewrite !fmap_app in EL. apply (f_equal length) in EL. rewrite length_app in EL.
      destruct B2; [done|]. simpl in EL. lia. }
    rewrite app_nil_r in EB. subst B1. destruct (rest_end _ _ _ HI1) as (-> & Hb & Hh & He).
    wp_step. rewrite Eu, Ea. wp_step; [done|]. wp_step; [done|]. rewrite <- Es.
    eapply (wp_delete_frame s1 B); [exact HT1|by destruct_and! HI1|].
    intros s' E1 E2 E3 E4 Hl. apply HQ; [congruence|congruence|congruence|congruence|].
    intros a Ha. rewrite Hl. apply decide_True. unfold frame_objects in *. by rewrite Es, St1, St2.
Qed.
End Delete.
