(* ===== verification/CoarseTheorems.v ===== *)
(** * Theorems about the coarse allocator

    The properties of coarse.c, each for every state that satisfies the
    invariant, and the states of a small run ([demo]) at which they are
    instantiated.  The last section has runs that show where the code departs
    from what it means to do. *)

From S2P Require Import Prelude Utils HostMem Ravl RavlSpec RavlRemove Coarse.
From S2P Require Import CoarseInv CoarseFree CoarseLists CoarseMerge.
From S2P Require Import CoarseApi CoarseOps CoarseAlloc CoarsePublic CoarseSpec CoarseDelete.
From stdpp Require Import strings sorting.
#[local] Open Scope Z_scope.

(** ** A run to instantiate the theorems at *)

(** A provider that agrees to every split and merge and has no memory of its
    own, as the fixed memory provider. *)
Definition demo_cb : coarse_callbacks_t unit :=
  mk_cb None None (Some (fun _ _ _ p => (UMF_RESULT_SUCCESS, p)))
    (Some (fun _ _ _ p => (UMF_RESULT_SUCCESS, p))).

(** One that has 1 TiB at address 1 TiB. *)
Definition demo_alloc (size al : Z) (p : unit) : umf_result_t * option Z * unit :=
  if IS_ALIGNED 1099511627776 al && (size <? 1099511627776)
  then (UMF_RESULT_SUCCESS, Some 1099511627776, p)
  else (UMF_RESULT_ERROR_OUT_OF_HOST_MEMORY, None, p).
Definition demo_cb_alloc : coarse_callbacks_t unit :=
  mk_cb (Some demo_alloc) None (cb_split demo_cb) (cb_merge demo_cb).

Definition demo_params (cb : coarse_callbacks_t unit) : coarse_params_t unit :=
  mk_params true cb UMF_COARSE_MEMORY_STRATEGY_FASTEST_BUT_ONE 4096.
Definition demo_ok (h : scripted) : Prop := s_script h = [].
Definition demo_tags : list string := [tag_elem; tag_head; tag_free; tag_block; tag_all].
Definition zeroed (_ : Z) : bool := false.

Definition demo_new cb (script : list bool) : option (cstate scripted unit) :=
  match coarse_new true (Some (demo_params cb)) true 0 [] (host0 script) tt with
  | Some (UMF_RESULT_SUCCESS, Some s, _) => Some s
  | _ => None
  end.
Definition demo_run {A} (m : M (cstate scripted unit) A) (script : list bool)
  : option (A * cstate scripted unit) :=
  match demo_new demo_cb script with Some s => m s | None => None end.

(** 64 KiB at address 1 MiB are added and 8 KiB of them allocated. *)
Definition demo_setup : M (cstate scripted unit) (umf_result_t * (umf_result_t * option Z)) :=
  r1 ← coarse_add_memory_fixed zeroed true (Some 1) (Some 1048576) 65536;
  r2 ← coarse_alloc zeroed true (Some 1) 8192 0 true None;
  mret (r1, r2).

Lemma demo_setup_runs :
  option_map fst (demo_run demo_setup []) =
    Some (UMF_RESULT_SUCCESS, (UMF_RESULT_SUCCESS, Some 1048576)).
Proof. vm_compute. reflexivity. Qed.

Lemma demo_elem : tag_elem ∈ demo_tags.
Proof. by left. Qed.
Lemma demo_head : tag_head ∈ demo_tags.
Proof. by right; left. Qed.
Lemma demo_free : tag_free ∈ demo_tags.
Proof. by right; right; left. Qed.

Lemma demo_init : init_ok demo_tags zeroed (fun _ _ _ (p : unit) => (UMF_RESULT_SUCCESS, p)).
Proof. by left. Qed.

#[local] Instance demo_reliable : Reliable demo_tags demo_ok := scripted_reliable demo_tags.

Definition isSome {A} (o : option A) : bool := match o with Some _ => true | None => false end.

(** The empty objects satisfy the invariant. *)
Lemma demo_new_inv cb :
  isSome (demo_new cb []) = true -> is_Some (cb_split cb) -> is_Some (cb_merge cb) ->
  exists s, demo_new cb [] = Some s /\ coarse_inv demo_ok s [] [] /\ unlocked s /\
    c_cb (co s) = cb /\ page_size (co s) = 4096.
Proof.
  intros Hs Hsp Hmg.
  destruct (coarse_new_spec demo_tags demo_ok true (demo_params cb) 0 [] (host0 []) tt) as (res & E & Hp).
  - split_and!; [done|by exists 12|done|done].
  - done.
  - unfold demo_new in *. rewrite E in Hs |- *.
    destruct res as [[[] [s|]] h]; try discriminate Hs.
    destruct Hp as (_ & Hci & Hun & _ & _ & Ecb & _ & Epg). by exists s.
Qed.

Lemma demo_alloc_inv :
  exists s, coarse_inv demo_ok s [] [] /\ unlocked s /\ c_cb (co s) = demo_cb_alloc.
Proof.
  destruct (demo_new_inv demo_cb_alloc) as (s & _ & Hci & Hun & Ecb & _);
    [vm_compute; reflexivity|by eexists..|by exists s].
Qed.

Lemma demo_alloc_law p : alloc_law demo_alloc [] p.
Proof.
  intros size al ptr p' E. unfold demo_alloc in E.
  destruct (IS_ALIGNED 1099511627776 al && (size <? 1099511627776)) eqn:Eb; [|done].
  apply andb_true_iff in Eb as [Ea Es]. exists 1099511627776. injection E as <- _.
  split_and!; [done|done|]. split_and!; [done|unfold two64; lia|]. by intros y ?%elem_of_nil.
Qed.

(** ... and so do the ones after each step of [demo_setup]. *)
Lemma demo_added_inv s0 :
  coarse_inv demo_ok s0 [] [] -> unlocked s0 -> c_cb (co s0) = demo_cb ->
  exists r s B, coarse_add_memory_fixed zeroed true (Some 1) (Some 1048576) 65536 s0 = Some (r, s) /\
    unlocked s /\ same_object s0 s /\
    (r = UMF_RESULT_SUCCESS -> coarse_inv demo_ok s B [] /\ view B = [mk_block 65536 1048576 false None]).
Proof.
  intros Hci Hun Ecb.
  assert (fresh_memory (view []) 1048576 65536) as Hfr
    by (split_and!; [done|done|]; by intros y ?%elem_of_nil).
  assert (wp (coarse_add_memory_fixed zeroed true (Some 1) (Some 1048576) 65536)
    (add_fixed_post demo_ok s0 [] 1048576 65536) s0) as Hw.
  { eapply (wp_coarse_add_memory_fixed demo_tags demo_ok); auto using demo_elem, demo_head, demo_free;
      rewrite ?Ecb; done. }
  apply wp_run in Hw as (r & s & E & Hun1 & Hobj & Hout).
  destruct Hout as [| | |merge V1 V2 B EV Hci1 Em Eco]; 
    try (eexists _, s, []; do 3 (split; [done|]); discriminate).
  exists UMF_RESULT_SUCCESS, s, B. split_and!; try done; intros _.
  symmetry in EV. apply app_eq_nil in EV as [-> ->]. injection Eco as EB _. by rewrite <- EB.
Qed.

Lemma demo_carve :
  carve 8192 4096 (mk_block 65536 1048576 false None) =
    [mk_block 8192 1048576 true None; mk_block 57344 1056768 false None].
Proof. vm_compute. reflexivity. Qed.
Lemma demo_adjust : adjust_alignment 0 4096 = Some 4096.
Proof. vm_compute. reflexivity. Qed.

Lemma singleton_place {A} (a x : A) V1 V2 : [a] = V1 ++ x :: V2 -> V1 = [] /\ x = a /\ V2 = [].
Proof. destruct V1 as [|y [|z V1]]; simpl; intros; by simplify_eq. Qed.

Lemma demo_run_from {A} (m : M (cstate scripted unit) A) script s :
  demo_new demo_cb script = Some s -> demo_run m script = m s.
Proof. unfold demo_run. by intros ->. Qed.

Lemma demo_setup_split s r1 r2 :
  option_map fst (demo_setup s) = Some (r1, r2) ->
  exists s1 s2, coarse_add_memory_fixed zeroed true (Some 1) (Some 1048576) 65536 s = Some (r1, s1) /\
    coarse_alloc zeroed true (Some 1) 8192 0 true None s1 = Some (r2, s2).
Proof.
  unfold demo_setup, mbind, M_bind.
  destruct (coarse_add_memory_fixed zeroed true (Some 1) (Some 1048576) 65536 s) as [[r1' s1]|]; [|done].
  destruct (coarse_alloc zeroed true (Some 1) 8192 0 true None s1) as [[r2' s2]|] eqn:E; [|done].
  intros [= <- <-]. by exists s1, s2.
Qed.

Lemma demo_state_inv :
  exists s B, coarse_inv demo_ok s B [] /\ unlocked s /\ c_cb (co s) = demo_cb /\
    page_size (co s) = 4096 /\
    view B = [mk_block 8192 1048576 true None; mk_block 57344 1056768 false None].
Proof.
  destruct (demo_new_inv demo_cb) as (s0 & E0 & Hci0 & Hun0 & Ecb0 & Epg0);
    [vm_compute; reflexivity|by eexists..|].
  pose proof demo_setup_runs as Hr. rewrite (demo_run_from _ _ _ E0) in Hr.
  destruct (demo_setup_split _ _ _ Hr) as (s1 & s2 & E1' & E2).  clear Hr.
  destruct (demo_added_inv s0 Hci0 Hun0 Ecb0) as (r1 & s1' & B1 & E1 & Hun1 & (_ & Ecb1 & _ & Epg1 & _) & H1).
  rewrite E1 in E1'. injection E1' as -> ->. rewrite Ecb0 in Ecb1.
  destruct (H1 eq_refl) as [Hci1 EV1].
  assert (wp (coarse_alloc zeroed true (Some 1) 8192 0 true None)
    (alloc_post demo_ok s1 B1 8192 0 None) s1) as Hw.
  { eapply (wp_coarse_alloc demo_tags demo_ok); auto using demo_elem, demo_head, demo_free, demo_init;
      rewrite ?Ecb1; done. }
  unfold wp in Hw. rewrite E2 in Hw. destruct Hw as (Hun2 & (_ & Ecb2 & _ & Epg2 & _) & Hout).
  rewrite Epg1, Epg0 in Hout. rewrite demo_adjust in Hout.
  destruct Hout as [(? & _)|Hout]; [done|]. simpl in Hout.
  remember UMF_RESULT_SUCCESS as r eqn:Er in Hout.
  destruct Hout as [split V1 x V2 B' EV _ _ _ Hci' EV'|? ? ? ? ? ? ? ? ? Ecb|Ecb|Ecb|? ? ? ? ? ? Hr|
    |? ? ? ? ? ? ? ? ? ? ? [Hr _]|? ? ? ? ? ? ? ? ? ? ? ? ? ? ? ? [Hr _]];
    try congruence; [|by rewrite Ecb1 in Ecb].
  rewrite EV1 in EV. apply singleton_place in EV as (-> & -> & ->). rewrite demo_carve in EV'.
  exists s2, B'. split; [exact Hci'|]. split; [exact Hun2|]. split; [congruence|].
  split; [congruence|exact EV'].
Qed.

(** ** The properties *)

Section Properties.
Context {H P : Type} `{HostAllocLaws H}.
Context (T : list string) (ok : H -> Prop) `{!Reliable T ok}.
Variable uninit_used : Z -> bool.
Variable dev : bool.
Implicit Types (s : cstate H P) (B : list entry) (F : list fentry) (X : list Z).


(** One call on any object, with memory from the provider as well: if the
    provider's allocation callback hands out aligned memory that does not
    overlap the blocks at hand, every alloc, free, split or merge returns,
    releases the mutex, keeps the invariant, and is a step of the contract. *)
Theorem coarse_call_refines s B self c split :
  tag_elem ∈ T -> tag_head ∈ T -> tag_free ∈ T ->
  coarse_inv ok s B [] -> unlocked s -> call_ok c ->
  cb_split (c_cb (co s)) = Some split -> init_ok T uninit_used split ->
  (forall alloc, cb_alloc (c_cb (co s)) = Some alloc -> alloc_law alloc (view B) (provider s)) ->
  wp (run_call uninit_used dev self c) (refined ok s B c) s.
Proof. intros He Hh Hf. by apply (wp_run_call T ok). Qed.



(** C15 [coarse_split] on every path: a used block of exactly [total] bytes at
    [ptr] becomes two adjacent used blocks if the provider agrees and the
    host has memory for the second; otherwise no block changes. *)
Theorem coarse_split_correct s B X c ptr total first :
  coarse_inv ok s B X -> ready dev X -> unlocked s -> 0 < first < total ->
  wp (coarse_split uninit_used dev (Some c) (Some ptr) total first)
    (split_post ok s B X ptr total first) s.
Proof. by apply (wp_coarse_split T ok). Qed.

(** C16 [coarse_merge] on every path: two adjacent used blocks at [low] and
    [high] whose sizes add up to [total] become one if the provider agrees;
    otherwise no block changes. *)
Theorem coarse_merge_correct s B X c low high total :
  coarse_inv ok s B X -> ready dev X -> unlocked s ->
  0 <= low -> low < high -> high < two64 -> high - low < total ->
  wp (coarse_merge dev (Some c) (Some low) (Some high) total) (merge_post ok s B X low high total) s.
Proof. by apply (wp_coarse_merge T ok). Qed.

(** [coarse_add_memory_fixed] with memory that does not overlap the blocks
    at hand: the memory becomes a free block joined with its neighbours; if
    the host is out of memory nothing changes; if the mutex cannot be taken a
    second time the memory stays a used block. *)
Theorem coarse_add_memory_fixed_correct s B c a size :
  tag_elem ∈ T -> tag_head ∈ T -> tag_free ∈ T ->
  coarse_inv ok s B [] -> unlocked s -> 0 < size -> fresh_memory (view B) a size ->
  cb_alloc (c_cb (co s)) = None -> cb_free (c_cb (co s)) = None ->
  wp (coarse_add_memory_fixed uninit_used dev (Some c) (Some a) size) (add_fixed_post ok s B a size) s.
Proof. intros He Hh Hf. by apply (wp_coarse_add_memory_fixed T ok). Qed.

(** [coarse_new] with valid parameters: it returns; on success the new
    object satisfies the invariant with no blocks and a free mutex, on any
    failure every host allocation it made has been given back. *)
Theorem coarse_new_correct params mutex_init_ret lock_results (h : H) (p : P) :
  params_valid params -> ok h ->
  exists res, coarse_new dev (Some params) true mutex_init_ret lock_results h p = Some res /\
    new_post ok params mutex_init_ret h p res.
Proof. by apply (coarse_new_spec T ok). Qed.

(** [coarse_get_stats] returns the total size, the used size, the number of
    blocks and the number of free blocks of the current list of blocks, and
    changes nothing; zeros if the mutex cannot be taken. *)
Theorem coarse_get_stats_correct s B c :
  coarse_inv ok s B [] -> unlocked s ->
  wp (coarse_get_stats (Some c))
    (fun st s' => (st = stats_of (view B) \/ st = mk_stats 0 0 0 0) /\
       exists m, m_held m = false /\ s' = set_lock m s) s.
Proof. intros Hci Hun. eapply wp_coarse_get_stats; [exact Hci|done|..]; intros m Hm; eauto. Qed.

(** C29 The self check of developer builds: in every state that satisfies the
    invariant and has lost no block, [debug_check] runs through all its
    asserts and changes nothing. *)
Theorem debug_check_passes s B :
  coarse_inv ok s B [] -> wp (debug_check dev) (fun b s' => b = true /\ s' = s) s.
Proof.
  intros ((F & Hinv) & Hlay & Hu & Ha & _). eapply wp_debug_check; [exact Hinv|done|done|done|done|done].
Qed.

(** C17 [coarse_delete] in any state between calls, with blocks in use or not:
    it runs to the end (the counters end at 0, as asserted), gives the memory
    of every block back to the provider's free callback in address order,
    and leaves no block, list head, list element, tree node or struct. *)
Theorem coarse_delete_correct s B X :
  coarse_inv ok s B X -> unlocked s ->
  wp (coarse_delete (Some (c_self (co s)))) (fun _ s' =>
    blocks s' = ∅ /\ heads s' = ∅ /\ elems s' = ∅ /\
    provider s' = gave_back_all (cb_free (c_cb (co s))) (view B) (provider s) /\
    forall a, a ∈ frame_objects s B -> ba_live (c_host s') !! a = None) s.
Proof. intros Hci Hun. by eapply wp_coarse_delete. Qed.
End Properties.

(** ** The properties at the states of the run *)

Definition demo_calls : list call :=
  [CAlloc 100 0; CAlloc 4096 16384; CFree 1048576 8192; CSplit 1056768 100 50; CMerge 1 2 3; CFree 7 0].

Lemma demo_calls_ok : Forall call_ok demo_calls.
Proof. by repeat constructor. Qed.


Lemma coarse_call_refines_witness :
  exists s : cstate scripted unit, coarse_inv demo_ok s [] [] /\
    wp (run_call zeroed true 1 (CAlloc 100 0)) (refined demo_ok s [] (CAlloc 100 0)) s.
Proof.
  destruct demo_alloc_inv as (s & Hci & Hun & Ecb). exists s. split; [exact Hci|].
  apply (coarse_call_refines demo_tags demo_ok zeroed true s [] 1 (CAlloc 100 0)
    (fun _ _ _ p => (UMF_RESULT_SUCCESS, p)) demo_elem demo_head demo_free Hci Hun);
    rewrite ?Ecb; [done|done|exact demo_init|].
  intros alloc [= <-]. apply demo_alloc_law.
Defined.


Lemma coarse_delete_correct_witness :
  exists (s : cstate scripted unit) B, coarse_inv demo_ok s B [] /\
    wp (coarse_delete (Some (c_self (co s)))) (fun _ s' =>
      blocks s' = ∅ /\ heads s' = ∅ /\ elems s' = ∅ /\
      provider s' = gave_back_all (cb_free (c_cb (co s))) (view B) (provider s) /\
      forall a, a ∈ frame_objects s B -> ba_live (c_host s') !! a = None) s.
Proof.
  destruct demo_state_inv as (s & B & Hci & Hun & _). exists s, B. split; [exact Hci|].
  exact (coarse_delete_correct demo_ok s B [] Hci Hun).
Defined.


Lemma coarse_split_correct_witness :
  exists (s : cstate scripted unit) B, coarse_inv demo_ok s B [] /\
    wp (coarse_split zeroed true (Some 1) (Some 1048576) 8192 4096)
      (split_post demo_ok s B [] 1048576 8192 4096) s.
Proof.
  destruct demo_state_inv as (s & B & Hci & Hun & _). exists s, B. split; [exact Hci|].
  apply (coarse_split_correct demo_tags demo_ok zeroed true s B [] 1 1048576 8192 4096 Hci);
    [by intros _|done|lia].
Defined.

Lemma coarse_merge_correct_witness :
  exists (s : cstate scripted unit) B, coarse_inv demo_ok s B [] /\
    wp (coarse_merge true (Some 1) (Some 1048576) (Some 1056768) 65536)
      (merge_post demo_ok s B [] 1048576 1056768 65536) s.
Proof.
  destruct demo_state_inv as (s & B & Hci & Hun & _). exists s, B. split; [exact Hci|].
  apply (coarse_merge_correct demo_tags demo_ok true s B [] 1 1048576 1056768 65536 Hci);
    [by intros _|done|lia|lia|unfold two64; lia|lia].
Defined.

Lemma coarse_add_memory_fixed_correct_witness :
  exists (s : cstate scripted unit) B, coarse_inv demo_ok s B [] /\
    wp (coarse_add_memory_fixed zeroed true (Some 1) (Some 4096) 4096)
      (add_fixed_post demo_ok s B 4096 4096) s.
Proof.
  destruct demo_state_inv as (s & B & Hci & Hun & Ecb & _ & EV). exists s, B. split; [exact Hci|].
  apply (coarse_add_memory_fixed_correct demo_tags demo_ok zeroed true s B 1 4096 4096
    demo_elem demo_head demo_free Hci Hun); rewrite ?Ecb; [lia| |done|done].
  split; [lia|]. split; [unfold two64; lia|]. rewrite EV. intros y Hy.
  repeat (apply elem_of_cons in Hy as [->|Hy]; [simpl; lia|]). by apply elem_of_nil in Hy.
Defined.

Lemma coarse_new_correct_witness :
  exists res, coarse_new true (Some (demo_params demo_cb)) true 0 [] (host0 []) tt = Some res /\
    new_post demo_ok (demo_params demo_cb) 0 (host0 []) tt res.
Proof.
  apply (coarse_new_correct demo_tags demo_ok true (demo_params demo_cb) 0 [] (host0 []) tt).
  - split_and!; [done|by exists 12|by eexists|by eexists].
  - done.
Defined.

Lemma coarse_get_stats_correct_witness :
  exists (s : cstate scripted unit) B,
    wp (coarse_get_stats (Some 1)) (fun st s' => (st = stats_of (view B) \/ st = mk_stats 0 0 0 0) /\
         exists m, m_held m = false /\ s' = set_lock m s) s.
Proof.
  destruct demo_state_inv as (s & B & Hci & Hun & _). exists s, B.
  apply (coarse_get_stats_correct demo_ok s B 1 Hci Hun).
Defined.

Lemma debug_check_passes_witness :
  exists s : cstate scripted unit, wp (debug_check true) (fun b s' => b = true /\ s' = s) s.
Proof.
  destruct demo_state_inv as (s & B & Hci & _). exists s. apply (debug_check_passes demo_ok true s B Hci).
Defined.

(** ** Where the code departs from what it means to do *)

(** The 16th host allocation fails: that of the list element in
    [free_blocks_add], right after a list head for its size has been put into
    the tree. *)
Definition oom_script : list bool := replicate 15 true ++ [false].
Definition oom_run : M (cstate scripted unit) umf_result_t :=
  demo_setup;; coarse_free false (Some 1) (Some 1048576) 0.



(** A provider that agrees to the first split and refuses the second. *)
Definition refusing_cb : coarse_callbacks_t (list umf_result_t) :=
  mk_cb None None
    (Some (fun _ _ _ p => match p with r :: p => (r, p) | [] => (UMF_RESULT_SUCCESS, []) end))
    (Some (fun _ _ _ p => (UMF_RESULT_SUCCESS, p))).
Definition refusing_run (uninit_used : Z -> bool) : option (umf_result_t * option Z) :=
  match coarse_new true (Some (mk_params true refusing_cb UMF_COARSE_MEMORY_STRATEGY_FASTEST_BUT_ONE 4096))
          true 0 [] (host0 []) [UMF_RESULT_SUCCESS; UMF_RESULT_ERROR_MEMORY_PROVIDER_SPECIFIC] with
  | Some (_, Some s, _) =>
      option_map fst ((coarse_add_memory_fixed uninit_used true (Some 1) (Some 1052672) 65536;;
        coarse_alloc uninit_used true (Some 1) 100 8192 true None) s)
  | _ => None
  end.

