(* ===== verification/BaseMem.v ===== *)
(** * Operating-system memory: src/base_alloc/base_alloc_linux.c

    The base allocators take their memory from [mmap] and give it back with
    [munmap]; the objects they manage (pool headers, free chunks, the
    metadata word of an allocation) are stored inside that memory.  The model
    is a word memory: a process state holds the mapped addresses (owned by
    the operating system, a parameter), the contents of the 8-byte words, the
    mutexes by their address and the static variables of
    src/base_alloc/base_alloc_global.c.

    A load or store of an unmapped or misaligned word is undefined behaviour.
    A word of a fresh mapping reads as 0.  Sanitizer and Valgrind annotations
    and log messages are not part of the state. *)

From S2P Require Import Prelude Utils.

(** ** The operating system

    [os_mmap] is an anonymous private mapping, [os_munmap] removes the pages of
    a range, [os_mutex_init] is the result of [pthread_mutex_init],
    [os_page_size] is [sysconf(_SC_PAGE_SIZE)] and [os_proxy_lib] says whether
    the process runs under the proxy library. *)
Class Os (OS : Type) := {
  os_page_size : Z;
  os_proxy_lib : bool;
  os_mapped : OS -> Z -> bool;
  os_mmap : Z -> OS -> option Z * OS;
  os_munmap : Z -> Z -> OS -> Z * OS;
  os_mutex_init : OS -> Z * OS;
}.

(** The pages of [size] bytes. *)
Definition page_up `{Os OS} (size : Z) : Z :=
  (size + os_page_size - 1) / os_page_size * os_page_size.

Definition within (a n x : Z) : bool := (a <=? x) && (x <? a + n).

Class OsLaws (OS : Type) `{Os OS} := {
  os_page_pow2 : pow2 os_page_size;
  os_page_bounds : 4096 <= os_page_size <= 2 ^ 30;
  os_mmap_some : forall size o a o',
    0 < size -> os_mmap size o = (Some a, o') ->
    0 < a /\ a mod os_page_size = 0 /\ a + page_up size < two64 /\
    (forall x, within a (page_up size) x = true -> os_mapped o x = false) /\
    (forall x, os_mapped o' x = os_mapped o x || within a (page_up size) x);
  os_mmap_none : forall size o o',
    os_mmap size o = (None, o') -> forall x, os_mapped o' x = os_mapped o x;
  os_munmap_ok : forall a size o r o',
    a mod os_page_size = 0 -> 0 < size -> os_munmap a size o = (r, o') ->
    r = 0 /\
    forall x, os_mapped o' x = os_mapped o x && negb (within a (page_up size) x);
  os_mutex_init_mapped : forall o r o',
    os_mutex_init o = (r, o') -> forall x, os_mapped o' x = os_mapped o x;
}.

(** ** The process state *)

Definition NUM_ALLOCATION_CLASSES : Z := 5.
Definition ALLOCATION_CLASSES : list Z := [16; 32; 64; 128; 256].

Record base_alloc_t := BaseAllocT {
  ac_sizes : list Z;
  ac : list Z;
  smallest_ac_size_log2 : Z;
}.

Record bstate (OS : Type) := BState {
  b_os : OS;
  b_mem : gmap Z Z;
  b_locks : gmap Z utils_mutex_t;
  BASE_ALLOC : base_alloc_t;
  ba_is_initialized : bool;
  ba_is_destroyed : bool;
}.
Arguments BState {OS}.
Arguments b_os {OS}. Arguments b_mem {OS}. Arguments b_locks {OS}.
Arguments BASE_ALLOC {OS}. Arguments ba_is_initialized {OS}. Arguments ba_is_destroyed {OS}.

Section Mem.
Context `{Os OS}.
Implicit Types s : bstate OS.

Definition set_os (o : OS) s : bstate OS :=
  BState o (b_mem s) (b_locks s) (BASE_ALLOC s) (ba_is_initialized s) (ba_is_destroyed s).
Definition set_mem (m : gmap Z Z) s : bstate OS :=
  BState (b_os s) m (b_locks s) (BASE_ALLOC s) (ba_is_initialized s) (ba_is_destroyed s).
Definition set_locks (l : gmap Z utils_mutex_t) s : bstate OS :=
  BState (b_os s) (b_mem s) l (BASE_ALLOC s) (ba_is_initialized s) (ba_is_destroyed s).

Definition mapped s (a : Z) : bool := os_mapped (b_os s) a.

(** The word at [a]. *)
Definition rd s (a : Z) : Z := default 0 (b_mem s !! a).

Definition load (a : Z) : M (bstate OS) Z :=
  fun s => if mapped s a && (a mod 8 =? 0) then Some (rd s a, s) else None.

Definition store (a v : Z) : M (bstate OS) unit :=
  fun s => if mapped s a && (a mod 8 =? 0) then Some (tt, set_mem (<[a := v]> (b_mem s)) s) else None.

(** ** base_alloc_linux.c *)

(** NULL is 0. *)
Definition ba_os_alloc (size : Z) : M (bstate OS) Z :=
  fun s => let '(r, o) := os_mmap size (b_os s) in Some (default 0 r, set_os o s).

(** The words of unmapped pages are forgotten, a later mapping reads 0. *)
Definition ba_os_free (ptr size : Z) : M (bstate OS) unit :=
  fun s => let '(ret, o) := os_munmap ptr size (b_os s) in
    if ret =? 0
    then Some (tt, set_mem (filter (fun w => os_mapped o w.1 = true) (b_mem s)) (set_os o s))
    else None.

Definition ba_os_get_page_size : Z := os_page_size.

(** ** Mutexes in memory *)

Definition sizeof_mutex : Z := 40.
Definition utils_mutex_get_size : Z := sizeof_mutex.

(** Returns NULL (0) when [pthread_mutex_init] fails. *)
Definition utils_mutex_init (m : Z) : M (bstate OS) Z :=
  fun s => let '(ret, o) := os_mutex_init (b_os s) in
    if ret =? 0
    then Some (m, set_locks (<[m := mk_mutex false []]> (b_locks s)) (set_os o s))
    else Some (0, set_os o s).

Definition utils_mutex_destroy_not_free (m : Z) : M (bstate OS) unit :=
  modify (fun s => set_locks (delete m (b_locks s)) s).

Definition mutex_lock (m : Z) : M (bstate OS) unit :=
  s ← get;
  k ← of_option (b_locks s !! m);
  r ← of_option (utils_mutex_lock k);
  modify (set_locks (<[m := r.2]> (b_locks s))).

Definition mutex_unlock (m : Z) : M (bstate OS) unit :=
  s ← get;
  k ← of_option (b_locks s !! m);
  k' ← of_option (utils_mutex_unlock k);
  modify (set_locks (<[m := k']> (b_locks s))).

(** ** Reasoning rules *)

(** The state after a store. *)
Definition wr (a v : Z) s : bstate OS := set_mem (<[a := v]> (b_mem s)) s.

(** [s'] differs from [s] in the contents of the memory only. *)
Definition only_mem s s' : Prop := s' = set_mem (b_mem s') s.

Lemma only_mem_refl s : only_mem s s.
Proof. by destruct s. Qed.

Lemma only_mem_wr s s' a v : only_mem s s' -> only_mem s (wr a v s').
Proof. unfold only_mem. by intros ->. Qed.

Lemma only_mem_trans s1 s2 s3 : only_mem s1 s2 -> only_mem s2 s3 -> only_mem s1 s3.
Proof. unfold only_mem. by intros -> ->. Qed.

Lemma only_mem_mapped s s' x : only_mem s s' -> mapped s' x = mapped s x.
Proof. by intros ->. Qed.

Lemma only_mem_locks s s' : only_mem s s' -> b_locks s' = b_locks s.
Proof. by intros ->. Qed.

Lemma rd_wr s a v b : rd (wr a v s) b = if decide (a = b) then v else rd s b.
Proof.
  unfold rd, wr. simpl. case_decide as E.
  - subst. by rewrite lookup_insert_eq.
  - by rewrite lookup_insert_ne.
Qed.

Lemma rd_wr_ne s a v b : a <> b -> rd (wr a v s) b = rd s b.
Proof. intros Hne. rewrite rd_wr. by case_decide. Qed.

Lemma rd_wr_eq s a v : rd (wr a v s) a = v.
Proof. rewrite rd_wr. by case_decide. Qed.

Lemma wp_load_word a Q s :
  mapped s a = true -> a mod 8 = 0 -> Q (rd s a) s -> wp (load a) Q s.
Proof. intros Hm Ha HQ. unfold wp, load. by rewrite Hm, Ha. Qed.

Lemma wp_store a v (Q : unit -> bstate OS -> Prop) s :
  mapped s a = true -> a mod 8 = 0 -> Q tt (wr a v s) -> wp (store a v) Q s.
Proof. intros Hm Ha HQ. unfold wp, store. by rewrite Hm, Ha. Qed.

Lemma wp_mutex_lock m (Q : unit -> bstate OS -> Prop) s :
  b_locks s !! m = Some (mk_mutex false []) ->
  Q tt (set_locks (<[m := mk_mutex true []]> (b_locks s)) s) -> wp (mutex_lock m) Q s.
Proof. intros E HQ. unfold wp, mutex_lock, mbind, M_bind, get. simpl. by rewrite E. Qed.

Lemma wp_mutex_unlock m (Q : unit -> bstate OS -> Prop) s :
  b_locks s !! m = Some (mk_mutex true []) ->
  Q tt (set_locks (<[m := mk_mutex false []]> (b_locks s)) s) -> wp (mutex_unlock m) Q s.
Proof. intros E HQ. unfold wp, mutex_unlock, mbind, M_bind, get. simpl. by rewrite E. Qed.

(** Everything but the memory. *)
Definition ctl s := (b_locks s, BASE_ALLOC s, ba_is_initialized s, ba_is_destroyed s).

Lemma only_mem_ctl s s' : only_mem s s' -> ctl s' = ctl s.
Proof. by intros ->. Qed.

Lemma within_true a n x : within a n x = true <-> a <= x < a + n.
Proof. unfold within. rewrite andb_true_iff, Z.leb_le, Z.ltb_lt. done. Qed.

Lemma within_false a n x : within a n x = false <-> ~ a <= x < a + n.
Proof. rewrite <- within_true. by destruct (within a n x). Qed.
End Mem.

Section MemLaws.
Context `{OsLaws OS}.
Implicit Types s : bstate OS.

Lemma page_pos : 0 < os_page_size.
Proof. pose proof os_page_bounds. lia. Qed.

Lemma page_up_id size : size mod os_page_size = 0 -> page_up size = size.
Proof.
  pose proof page_pos as Hp. intros E. unfold page_up.
  apply Z.mod_divide in E as [q ->]; [|lia].
  replace (q * os_page_size + os_page_size - 1) with (q * os_page_size + (os_page_size - 1)) by lia.
  rewrite Z.div_add_l, (Z.div_small (os_page_size - 1)) by lia. lia.
Qed.

Lemma page_up_bounds size : size <= page_up size < size + os_page_size.
Proof.
  pose proof page_pos. unfold page_up.
  pose proof (Z.div_mod (size + os_page_size - 1) os_page_size).
  pose proof (Z.mod_pos_bound (size + os_page_size - 1) os_page_size). lia.
Qed.

(** A fresh mapping. *)
Definition fresh_map s (a n : Z) : Prop :=
  0 < a /\ a mod os_page_size = 0 /\ a + n < two64 /\
  forall x, a <= x < a + n -> mapped s x = false.

Lemma wp_ba_os_alloc size (Q : Z -> bstate OS -> Prop) s :
  0 < size ->
  (forall o, (os_mmap size (b_os s)).1 = None -> (forall x, os_mapped o x = mapped s x) -> Q 0 (set_os o s)) ->
  (forall a o, (os_mmap size (b_os s)).1 = Some a -> fresh_map s a (page_up size) ->
     (forall x, os_mapped o x = mapped s x || within a (page_up size) x) -> Q a (set_os o s)) ->
  wp (ba_os_alloc size) Q s.
Proof.
  intros Hs Hn Ha. unfold wp, ba_os_alloc. destruct (os_mmap size (b_os s)) as [[a|] o] eqn:E; simpl.
  - apply os_mmap_some in E as (H1' & H2' & H3' & H4' & H5'); [|done]. apply Ha; [done| |done].
    split_and!; [done..|]. intros x Hx. by apply H4', within_true.
  - apply Hn; [done|]. eapply os_mmap_none, E.
Qed.

Lemma wp_ba_os_free a size (Q : unit -> bstate OS -> Prop) s :
  a mod os_page_size = 0 -> 0 < size ->
  (forall s', ctl s' = ctl s ->
     (forall x, mapped s' x = mapped s x && negb (within a (page_up size) x)) ->
     (forall x, mapped s' x = true -> rd s' x = rd s x) -> Q tt s') ->
  wp (ba_os_free a size) Q s.
Proof.
  intros Ha Hs HQ. unfold wp, ba_os_free. destruct (os_munmap a size (b_os s)) as [r o] eqn:E.
  apply os_munmap_ok in E as [-> Hm]; [|done..]. simpl. apply HQ; [done|done|].
  intros x Hx. unfold rd, mapped in *. simpl in *. f_equal.
  destruct (b_mem s !! x) as [v|] eqn:Ev.
  - by apply map_lookup_filter_Some_2.
  - apply map_lookup_filter_None. by left.
Qed.

Lemma wp_mutex_init m (Q : Z -> bstate OS -> Prop) s :
  (forall o, (forall x, os_mapped o x = mapped s x) -> Q 0 (set_os o s)) ->
  (forall o, (forall x, os_mapped o x = mapped s x) ->
     Q m (set_locks (<[m := mk_mutex false []]> (b_locks s)) (set_os o s))) ->
  wp (utils_mutex_init m) Q s.
Proof.
  intros Hf Hs. unfold wp, utils_mutex_init. destruct (os_mutex_init (b_os s)) as [r o] eqn:E.
  pose proof (os_mutex_init_mapped _ _ _ E). destruct (r =? 0); auto.
Qed.
End MemLaws.

#[export] Hint Resolve only_mem_refl only_mem_wr : umf.
