(* ===== verification/BaseAlloc.v ===== *)
(** * The fixed-size base allocator: src/base_alloc/base_alloc.c

    A pool serves chunks of one size.  Its header lies at the start of the
    main mapping, its free chunks are linked through their first word, and
    further mappings of the same size are linked through theirs.  The model is
    the debug build in developer mode: the counters [n_pools] and [n_chunks]
    exist, the assertions are checked and [ba_debug_checks] walks both lists. *)

From S2P Require Import Prelude Utils BaseMem.

(** Layout of [umf_ba_pool_t]; [umf_ba_next_pool_t] has the first field only. *)
Definition off_next_pool : Z := 0.
Definition off_pool_size : Z := 8.
Definition off_chunk_size : Z := 16.
Definition off_free_lock : Z := 24.
Definition off_free_list : Z := off_free_lock + sizeof_mutex.
Definition off_n_allocs : Z := off_free_list + 8.
Definition off_n_pools : Z := off_n_allocs + 8.
Definition off_n_chunks : Z := off_n_pools + 8.
Definition off_data : Z := off_n_chunks + 8.
Definition off_next_data : Z := 8.
(** [sizeof(struct umf_ba_main_pool_meta_t)] *)
Definition sizeof_meta : Z := off_data - 8.

Definition MINIMUM_CHUNK_COUNT : Z := 128.
Definition MEMORY_ALIGNMENT : Z := 8.

Section BaseAlloc.
Context `{Os OS}.

Definition MINIMUM_POOL_SIZE : Z := ba_os_get_page_size.

(** The length of a list linked through the first word; [fuel] bounds it. *)
Fixpoint count_list (fuel : nat) (node n : Z) : M (bstate OS) Z :=
  if node =? 0 then mret n
  else match fuel with
       | O => undef
       | S fuel => next ← load node; count_list fuel next (add64 n 1)
       end.

(** A list longer than its counter fails the assertion that follows, so the
    counters bound the two walks. *)
Definition ba_debug_checks (pool : Z) : M (bstate OS) unit :=
  next_pool ← load (pool + off_next_pool);
  n_pools' ← load (pool + off_n_pools);
  n_pools ← count_list (Z.to_nat n_pools') next_pool 1;
  _ ← c_assert (n_pools =? n_pools');
  next_chunk ← load (pool + off_free_list);
  n_chunks ← load (pool + off_n_chunks);
  n_free_chunks ← count_list (Z.to_nat n_chunks) next_chunk 0;
  n_allocs ← load (pool + off_n_allocs);
  c_assert (n_free_chunks =? sub64 n_chunks n_allocs).

(** The loop of [ba_divide_memory_into_chunks]; returns [current_chunk]. *)
Fixpoint ba_divide_loop (fuel : nat) (pool data_ptr size_left current_chunk prev_chunk : Z)
  : M (bstate OS) Z :=
  chunk_size ← load (pool + off_chunk_size);
  if size_left >=? chunk_size then
    match fuel with
    | O => undef
    | S fuel =>
      _ ← store prev_chunk data_ptr;
      n_chunks ← load (pool + off_n_chunks);
      _ ← store (pool + off_n_chunks) (add64 n_chunks 1);
      ba_divide_loop fuel pool (add64 data_ptr chunk_size) (sub64 size_left chunk_size)
        data_ptr data_ptr
    end
  else mret current_chunk.

Definition ba_divide_memory_into_chunks (pool ptr size : Z) : M (bstate OS) unit :=
  free_list ← load (pool + off_free_list);
  _ ← c_assert (free_list =? 0);
  chunk_size ← load (pool + off_chunk_size);
  _ ← c_assert (size >? chunk_size);
  current_chunk ← ba_divide_loop (Z.to_nat (size / chunk_size)) pool ptr size ptr ptr;
  _ ← store current_chunk 0;
  store (pool + off_free_list) ptr.

Definition ba_os_alloc_annotated (pool_size : Z) : M (bstate OS) Z := ba_os_alloc pool_size.

Definition umf_ba_create (size : Z) : M (bstate OS) Z :=
  let chunk_size := ALIGN_UP_SAFE size MEMORY_ALIGNMENT in
  if chunk_size =? 0 then mret 0 else
  let mutex_size := ALIGN_UP utils_mutex_get_size MEMORY_ALIGNMENT in
  let metadata_size := sizeof_meta in
  let pool_size := add64 (add64 (add64 8 metadata_size) mutex_size)
                         (mul64 MINIMUM_CHUNK_COUNT chunk_size) in
  let pool_size := if pool_size <? MINIMUM_POOL_SIZE then MINIMUM_POOL_SIZE else pool_size in
  let pool_size := ALIGN_UP_SAFE pool_size ba_os_get_page_size in
  if pool_size =? 0 then mret 0 else
  pool ← ba_os_alloc_annotated pool_size;
  if pool =? 0 then mret 0 else
  _ ← store (pool + off_pool_size) pool_size;
  _ ← store (pool + off_chunk_size) chunk_size;
  _ ← store (pool + off_next_pool) 0;
  _ ← store (pool + off_n_allocs) 0;
  _ ← store (pool + off_n_pools) 1;
  _ ← store (pool + off_n_chunks) 0;
  let data_ptr := add64 pool off_data in
  let size_left := sub64 pool_size off_data in
  let '(data_ptr, size_left) := utils_align_ptr_up_size_down data_ptr size_left MEMORY_ALIGNMENT in
  mutex ← utils_mutex_init (pool + off_free_lock);
  if mutex =? 0 then
    _ ← ba_os_free pool pool_size;
    mret 0
  else
    _ ← store (pool + off_free_list) 0;
    _ ← ba_divide_memory_into_chunks pool data_ptr size_left;
    mret pool.

(** The refill of [umf_ba_alloc] when the free list is empty: a new mapping
    is linked into the list of pools and divided; [false] when there is none. *)
Definition ba_add_next_pool (pool new_pool : Z) : M (bstate OS) unit :=
  next_pool ← load (pool + off_next_pool);
  _ ← store (new_pool + off_next_pool) next_pool;
  _ ← store (pool + off_next_pool) new_pool;
  n_pools ← load (pool + off_n_pools);
  _ ← store (pool + off_n_pools) (add64 n_pools 1);
  pool_size ← load (pool + off_pool_size);
  let data_ptr := add64 new_pool off_next_data in
  let size_left := sub64 pool_size off_next_data in
  let '(data_ptr, size_left) := utils_align_ptr_up_size_down data_ptr size_left MEMORY_ALIGNMENT in
  ba_divide_memory_into_chunks pool data_ptr size_left.

Definition ba_refill (pool : Z) : M (bstate OS) bool :=
  pool_size ← load (pool + off_pool_size);
  new_pool ← ba_os_alloc_annotated pool_size;
  if new_pool =? 0 then mret false else
  _ ← ba_add_next_pool pool new_pool;
  mret true.

Definition umf_ba_alloc (pool : Z) : M (bstate OS) Z :=
  _ ← mutex_lock (pool + off_free_lock);
  free_list ← load (pool + off_free_list);
  ok ← (if free_list =? 0 then ba_refill pool else mret true);
  if negb ok then
    _ ← mutex_unlock (pool + off_free_lock);
    mret 0
  else
  chunk ← load (pool + off_free_list);
  if chunk =? 0 then
    _ ← mutex_unlock (pool + off_free_lock);
    mret 0
  else
  next ← load chunk;
  _ ← store (pool + off_free_list) next;
  n_allocs ← load (pool + off_n_allocs);
  _ ← store (pool + off_n_allocs) (add64 n_allocs 1);
  _ ← ba_debug_checks pool;
  _ ← mutex_unlock (pool + off_free_lock);
  mret chunk.

(** The walk of [pool_contains_pointer] over the next pools. *)
Fixpoint next_contains_pointer (fuel : nat) (pool next_pool cptr : Z) : M (bstate OS) bool :=
  if next_pool =? 0 then mret false
  else match fuel with
       | O => undef
       | S fuel =>
         pool_size ← load (pool + off_pool_size);
         if (cptr >=? next_pool + off_next_data) && (cptr <? next_pool + pool_size) then mret true
         else
         next ← load (next_pool + off_next_pool);
         next_contains_pointer fuel pool next cptr
       end.

Definition pool_contains_pointer (pool cptr : Z) : M (bstate OS) bool :=
  pool_size ← load (pool + off_pool_size);
  if (cptr >=? pool + off_data) && (cptr <? pool + pool_size) then mret true
  else
  next_pool ← load (pool + off_next_pool);
  n_pools ← load (pool + off_n_pools);
  next_contains_pointer (Z.to_nat n_pools) pool next_pool cptr.

Definition umf_ba_free (pool ptr : Z) : M (bstate OS) unit :=
  if ptr =? 0 then mret tt else
  _ ← mutex_lock (pool + off_free_lock);
  contains ← pool_contains_pointer pool ptr;
  _ ← c_assert contains;
  free_list ← load (pool + off_free_list);
  _ ← store ptr free_list;
  _ ← store (pool + off_free_list) ptr;
  n_allocs ← load (pool + off_n_allocs);
  _ ← store (pool + off_n_allocs) (sub64 n_allocs 1);
  _ ← ba_debug_checks pool;
  mutex_unlock (pool + off_free_lock).

Fixpoint destroy_next_pools (fuel : nat) (next_pool size : Z) : M (bstate OS) unit :=
  if next_pool =? 0 then mret tt
  else match fuel with
       | O => undef
       | S fuel =>
         let current_pool := next_pool in
         next_pool ← load (next_pool + off_next_pool);
         _ ← ba_os_free current_pool size;
         destroy_next_pools fuel next_pool size
       end.

Definition umf_ba_destroy (pool : Z) : M (bstate OS) unit :=
  n_allocs ← load (pool + off_n_allocs);
  if negb (n_allocs =? 0) && os_proxy_lib then mret tt else
  _ ← ba_debug_checks pool;
  n_allocs ← load (pool + off_n_allocs);
  _ ← c_assert (n_allocs =? 0);
  size ← load (pool + off_pool_size);
  next_pool ← load (pool + off_next_pool);
  n_pools ← load (pool + off_n_pools);
  _ ← destroy_next_pools (Z.to_nat n_pools) next_pool size;
  _ ← utils_mutex_destroy_not_free (pool + off_free_lock);
  ba_os_free pool size.
End BaseAlloc.
