(* ===== verification/BaseAllocInv.v ===== *)
(** * The representation of a base allocator pool and its operations

    [pool_core s P] says that the memory of [s] holds the pool [P]: its main
    mapping and next mappings, the header fields, and the two linked lists.
    The chunks of a pool are computed from its mappings; the live ones are
    those that are not on the free list.

    Total-correctness rules of the operations of BaseAlloc.v: from a state
    that holds a pool, each runs to the end, leaves a pool, and changes no
    word outside the part of the pool it owns. *)

From S2P Require Import Prelude Utils BaseMem BaseAlloc.
From stdpp Require Import list.
#[local] Open Scope Z_scope.

Ltac offs := unfold off_next_pool, off_pool_size, off_chunk_size, off_data, off_n_chunks, off_n_pools,
  off_n_allocs, off_free_list, off_free_lock, off_next_data, sizeof_mutex in *.
Ltac zmod := Z.to_euclidean_division_equations; lia.

Abbreviation len l := (Z.of_nat (length l)).

Record ba_pool := BaPool {
  bp_addr : Z;
  bp_size : Z;
  bp_chunk : Z;
  bp_next : list Z;
  bp_free : list Z;
}.

(** The chunks that a data area of [n] bytes at [base] is divided into. *)
Definition chunks_in (k : Z) (area : Z * Z) : list Z :=
  (fun i => area.1 + i * k) <$> seqZ 0 (area.2 / k).

Definition bp_regions (P : ba_pool) : list Z := bp_addr P :: bp_next P.

Definition bp_areas (P : ba_pool) : list (Z * Z) :=
  (bp_addr P + off_data, bp_size P - off_data) ::
  ((fun q => (q + off_next_data, bp_size P - off_next_data)) <$> bp_next P).

Definition bp_chunks (P : ba_pool) : list Z := bp_areas P ≫= chunks_in (bp_chunk P).

Definition bp_live (P : ba_pool) : list Z :=
  filter (fun c => c ∉ bp_free P) (bp_chunks P).

(** Blocks of [n] bytes that do not overlap. *)
Definition apart2 (n a b : Z) : Prop := a + n <= b \/ b + n <= a.
Fixpoint apart (n : Z) (l : list Z) : Prop :=
  match l with [] => True | a :: l => Forall (apart2 n a) l /\ apart n l end.

Section Rep.
Context `{HL : OsLaws OS}.
Implicit Types (s : bstate OS) (P : ba_pool).

Fixpoint linked s (head : Z) (L : list Z) : Prop :=
  match L with
  | [] => head = 0
  | a :: L => head = a /\ a <> 0 /\ linked s (rd s a) L
  end.

Definition region_ok s (size r : Z) : Prop :=
  0 < r /\ r mod os_page_size = 0 /\ r + size < two64 /\
  forall x, r <= x < r + size -> mapped s x = true.

(** The mappings of the pool. *)
Record pool_geo s P : Prop := {
  pr_chunk : 0 < bp_chunk P /\ bp_chunk P mod 8 = 0;
  pr_size : off_data + bp_chunk P < bp_size P /\ bp_size P mod os_page_size = 0;
  pr_regions : Forall (region_ok s (bp_size P)) (bp_regions P);
  pr_apart : apart (bp_size P) (bp_regions P);
}.

(** Its words. *)
Record pool_core s P : Prop := {
  pr_geo :> pool_geo s P;
  pr_nodup : NoDup (bp_free P);
  pr_free : forall c, c ∈ bp_free P -> c ∈ bp_chunks P;
  pr_pool_size : rd s (bp_addr P + off_pool_size) = bp_size P;
  pr_chunk_size : rd s (bp_addr P + off_chunk_size) = bp_chunk P;
  pr_next : linked s (rd s (bp_addr P + off_next_pool)) (bp_next P);
  pr_list : linked s (rd s (bp_addr P + off_free_list)) (bp_free P);
  pr_n_allocs : rd s (bp_addr P + off_n_allocs) = len (bp_chunks P) - len (bp_free P);
  pr_n_pools : rd s (bp_addr P + off_n_pools) = 1 + len (bp_next P);
  pr_n_chunks : rd s (bp_addr P + off_n_chunks) = len (bp_chunks P);
}.

Definition pool_lock s P : Prop :=
  b_locks s !! (bp_addr P + off_free_lock) = Some (mk_mutex false []).

Definition pool_rep s P : Prop := pool_core s P /\ pool_lock s P.

(** ** Lists of words *)

Lemma linked_frame s s' head L :
  (forall a, a ∈ L -> rd s' a = rd s a) -> linked s head L -> linked s' head L.
Proof.
  revert head. induction L as [|a L IH]; [done|]. simpl. intros head Hf (-> & H0 & Hl).
  split_and!; [done..|]. rewrite (Hf a) by left. apply IH; [|done]. intros b Hb. apply Hf. by right.
Qed.

Lemma wp_count_list L fuel node n Q s :
  linked s node L ->
  (forall a, a ∈ L -> mapped s a = true /\ a mod 8 = 0) ->
  (length L <= fuel)%nat -> 0 <= n -> n + len L < two64 ->
  Q (n + len L) s -> wp (count_list fuel node n) Q s.
Proof.
  revert fuel node n. induction L as [|a L IH]; intros fuel node n Hl Hm Hf Hn Hb HQ; simpl in *.
  - subst node. destruct fuel; simpl; apply wp_ret; by rewrite Z.add_0_r in HQ.
  - destruct Hl as (-> & H0 & Hl). destruct fuel as [|fuel]; [lia|]. simpl.
    rewrite (proj2 (Z.eqb_neq a 0)) by done.
    apply wp_bind, wp_load_word; [apply Hm; left|apply Hm; left|].
    rewrite add64_small by (unfold is_u64; lia). apply IH.
    + done.
    + intros b Hb'. apply Hm. by right.
    + lia.
    + lia.
    + lia.
    + by replace (n + 1 + len L) with (n + Z.of_nat (S (length L))) by lia.
Qed.

(** ** Geometry of the chunks *)

Lemma elem_of_chunks_in k ar c :
  c ∈ chunks_in k ar <-> exists i, 0 <= i < ar.2 / k /\ c = ar.1 + i * k.
Proof.
  unfold chunks_in. rewrite list_elem_of_fmap. split.
  - intros (i & -> & Hi). apply elem_of_seqZ in Hi. exists i. lia.
  - intros (i & Hi & ->). exists i. split; [done|]. apply elem_of_seqZ. lia.
Qed.

Lemma chunks_in_bounds k ar c :
  0 < k -> c ∈ chunks_in k ar -> ar.1 <= c /\ c + k <= ar.1 + ar.2.
Proof.
  intros Hk (i & Hi & ->)%elem_of_chunks_in.
  pose proof (Z.mul_div_le ar.2 k Hk). nia.
Qed.

Lemma chunks_in_mod k ar c :
  k mod 8 = 0 -> ar.1 mod 8 = 0 -> c ∈ chunks_in k ar -> c mod 8 = 0.
Proof.
  intros Hk Ha (i & Hi & ->)%elem_of_chunks_in.
  rewrite Z.add_mod, Z.mul_mod, Hk, Ha, Z.mul_0_r by lia. done.
Qed.

Lemma chunks_in_NoDup k ar : 0 < k -> NoDup (chunks_in k ar).
Proof.
  intros Hk. unfold chunks_in. apply NoDup_fmap_2; [|apply NoDup_seqZ].
  intros i j E. nia.
Qed.

Lemma chunks_in_apart k ar c d :
  0 < k -> c ∈ chunks_in k ar -> d ∈ chunks_in k ar -> c <> d -> apart2 k c d.
Proof.
  intros Hk (i & Hi & ->)%elem_of_chunks_in (j & Hj & ->)%elem_of_chunks_in Hne.
  unfold apart2. assert (i < j \/ j < i) as [|] by nia; nia.
Qed.

Lemma chunks_in_length k ar : length (chunks_in k ar) = Z.to_nat (ar.2 / k).
Proof. unfold chunks_in. by rewrite length_fmap, length_seqZ. Qed.

Lemma apart2_sym n a b : apart2 n a b -> apart2 n b a.
Proof. unfold apart2. tauto. Qed.

Lemma apart_elem n l a b : apart n l -> a ∈ l -> b ∈ l -> a <> b -> apart2 n a b.
Proof.
  induction l as [|x l IH]; [by intros _ ?%elem_of_nil|]. intros [Hx Hl] Ha Hb Hne.
  rewrite list.Forall_forall in Hx. apply elem_of_cons in Ha as [Ha|Ha]; apply elem_of_cons in Hb as [Hb|Hb].
  - congruence.
  - subst. by apply Hx.
  - subst. by apply apart2_sym, Hx.
  - by apply IH.
Qed.

Lemma apart_NoDup n l : 0 < n -> apart n l -> NoDup l.
Proof.
  intros Hn. induction l as [|x l IH]; [constructor|]. intros [Hx Hl]. constructor; [|auto].
  intros Hin. rewrite list.Forall_forall in Hx. specialize (Hx x Hin). unfold apart2 in Hx. lia.
Qed.

(** Every chunk lies in the data area of a mapping. *)
Lemma elem_of_bp_chunks P c :
  c ∈ bp_chunks P <-> exists ar, ar ∈ bp_areas P /\ c ∈ chunks_in (bp_chunk P) ar.
Proof. unfold bp_chunks. rewrite list_elem_of_bind. split; intros (ar & ? & ?); eauto. Qed.

Lemma elem_of_bp_areas P ar :
  ar ∈ bp_areas P ->
  exists r hdr, r ∈ bp_regions P /\ ar = (r + hdr, bp_size P - hdr) /\
    (r = bp_addr P /\ hdr = off_data \/ r ∈ bp_next P /\ hdr = off_next_data).
Proof.
  unfold bp_areas, bp_regions. intros [->|Har]%elem_of_cons.
  - eexists _, _. split_and!; [left|done|by left].
  - apply list_elem_of_fmap in Har as (q & -> & Hq). eexists q, _. split_and!; [by right|done|by right].
Qed.

Section Core.
Context (s : bstate OS) (P : ba_pool) (HP : pool_geo s P).

Lemma page_mod8 a : a mod os_page_size = 0 -> a mod 8 = 0.
Proof.
  destruct os_page_pow2 as (n & Hn & E). pose proof os_page_bounds as Hb.
  assert (3 <= n) as H3.
  { destruct (Z.le_gt_cases 3 n); [done|]. assert (2 ^ n <= 2 ^ 3) by (apply Z.pow_le_mono_r; lia).
    rewrite E in Hb. lia. }
  replace os_page_size with (8 * 2 ^ (n - 3)).
  2: { rewrite E. replace 8 with (2 ^ 3) by done. rewrite <- Z.pow_add_r by lia. f_equal. lia. }
  assert (0 < 2 ^ (n - 3)) by (apply Z.pow_pos_nonneg; lia).
  intros Ha. apply Z.mod_divide in Ha as [q Hq]; [|lia]. apply Z.mod_divide; [lia|].
  exists (q * 2 ^ (n - 3)). lia.
Qed.

Lemma core_region r : r ∈ bp_regions P -> region_ok s (bp_size P) r.
Proof. pose proof (pr_regions _ _ HP) as Hr. rewrite list.Forall_forall in Hr. apply Hr. Qed.

Lemma core_region_mod8 r : r ∈ bp_regions P -> r mod 8 = 0.
Proof. intros Hr. apply page_mod8, core_region, Hr. Qed.

Lemma core_addr : bp_addr P ∈ bp_regions P.
Proof. left. Qed.

Lemma core_regions_apart r q :
  r ∈ bp_regions P -> q ∈ bp_regions P -> r <> q -> apart2 (bp_size P) r q.
Proof. apply apart_elem, (pr_apart _ _ HP). Qed.

Lemma core_size_pos : 0 < bp_size P.
Proof. pose proof (pr_size _ _ HP). pose proof (pr_chunk _ _ HP). offs. lia. Qed.

Lemma core_regions_NoDup : NoDup (bp_regions P).
Proof. apply (apart_NoDup (bp_size P)); [apply core_size_pos|apply (pr_apart _ _ HP)]. Qed.

Lemma core_next_ne r : r ∈ bp_next P -> r <> bp_addr P.
Proof. intros Hr ->. pose proof core_regions_NoDup as Hn. by apply list.NoDup_cons in Hn as [Hn _]. Qed.

Lemma core_chunk_bounds c :
  c ∈ bp_chunks P ->
  exists r, r ∈ bp_regions P /\ r + off_next_data <= c /\ c + bp_chunk P <= r + bp_size P /\
    c mod 8 = 0 /\ (r = bp_addr P -> r + off_data <= c).
Proof.
  intros (ar & Har & Hc)%elem_of_bp_chunks. destruct (pr_chunk _ _ HP) as [Hk Hk8].
  apply elem_of_bp_areas in Har as (r & hdr & Hr & -> & Hh).
  pose proof (chunks_in_bounds _ _ _ Hk Hc) as Hb. simpl in Hb.
  pose proof (core_region_mod8 r Hr) as H8. exists r.
  assert (hdr mod 8 = 0) as Hh8 by (by destruct Hh as [[_ ->]|[_ ->]]).
  split_and!; [done| |lia| |].
  - destruct Hh as [[_ ->]|[_ ->]]; offs; lia.
  - apply (chunks_in_mod _ _ _ Hk8) with (2 := Hc). simpl. by rewrite Z.add_mod, H8, Hh8 by lia.
  - intros ->. destruct Hh as [[_ ->]|[Hn _]]; [lia|]. by apply core_next_ne in Hn.
Qed.

Lemma core_chunk_mapped c x : c ∈ bp_chunks P -> c <= x < c + bp_chunk P -> mapped s x = true.
Proof.
  intros (r & Hr & Hl & Hu & _)%core_chunk_bounds Hx. apply (core_region r Hr). offs. lia.
Qed.

Lemma core_chunk_word c : c ∈ bp_chunks P -> mapped s c = true /\ c mod 8 = 0.
Proof.
  intros Hc. destruct (pr_chunk _ _ HP). split; [apply (core_chunk_mapped c); [done|lia]|].
  by apply core_chunk_bounds in Hc as (r & _ & _ & _ & ? & _).
Qed.

Lemma core_chunk_range c : c ∈ bp_chunks P -> 0 < c /\ c + bp_chunk P < two64.
Proof.
  intros (r & Hr & Hl & Hu & _)%core_chunk_bounds.
  pose proof (core_region r Hr) as (? & _ & ? & _). offs. lia.
Qed.

(** A chunk overlaps neither the header nor the first word of a next pool. *)
Lemma core_chunk_off c r :
  c ∈ bp_chunks P -> r ∈ bp_regions P ->
  c + bp_chunk P <= r \/ r + off_next_data <= c /\ (r = bp_addr P -> r + off_data <= c).
Proof.
  intros Hc Hr. apply core_chunk_bounds in Hc as (q & Hq & Hl & Hu & _ & Ha).
  destruct (decide (r = q)) as [->|Hne]; [right; auto|].
  pose proof (core_regions_apart r q Hr Hq Hne) as Hap. pose proof (pr_size _ _ HP).
  pose proof (pr_chunk _ _ HP). unfold apart2 in Hap. offs. lia.
Qed.

Lemma areas_meet ar br c :
  ar ∈ bp_areas P -> br ∈ bp_areas P ->
  ar.1 <= c -> c + bp_chunk P <= ar.1 + ar.2 -> br.1 < c + bp_chunk P -> c < br.1 + br.2 -> ar = br.
Proof.
  intros (r & h & Hr & -> & Hh)%elem_of_bp_areas (q & h' & Hq & -> & Hh')%elem_of_bp_areas. simpl.
  intros. destruct (decide (r = q)) as [->|Hne].
  - destruct Hh as [[-> ->]|[Hn ->]], Hh' as [[E ->]|[Hn' ->]]; try done.
    + by apply core_next_ne in Hn'.
    + subst q. by apply core_next_ne in Hn.
  - pose proof (core_regions_apart r q Hr Hq Hne) as Hap. unfold apart2 in Hap.
    assert (0 <= h /\ 0 <= h') by (destruct Hh as [[_ ->]|[_ ->]], Hh' as [[_ ->]|[_ ->]]; offs; lia). lia.
Qed.

Lemma core_chunks_apart c d :
  c ∈ bp_chunks P -> d ∈ bp_chunks P -> c <> d -> apart2 (bp_chunk P) c d.
Proof.
  intros (ar & Har & Hc)%elem_of_bp_chunks (br & Hbr & Hd)%elem_of_bp_chunks Hne.
  destruct (pr_chunk _ _ HP) as [Hk _].
  pose proof (chunks_in_bounds _ _ _ Hk Hc). pose proof (chunks_in_bounds _ _ _ Hk Hd).
  destruct (decide (apart2 (bp_chunk P) c d)) as [|Hn]; [done|]. unfold apart2 in Hn.
  assert (ar = br) as -> by (apply (areas_meet ar br c); [done..|lia|lia|lia|lia]).
  by eapply chunks_in_apart.
Qed.

Lemma core_chunks_NoDup : NoDup (bp_chunks P).
Proof.
  destruct (pr_chunk _ _ HP) as [Hk _]. apply NoDup_bind.
  - intros ar br c Har Hbr Hc Hd.
    pose proof (chunks_in_bounds _ _ _ Hk Hc). pose proof (chunks_in_bounds _ _ _ Hk Hd).
    apply (areas_meet ar br c); [done..|lia|lia|lia|lia].
  - intros ar _. by apply chunks_in_NoDup.
  - unfold bp_areas. pose proof core_regions_NoDup as Hn. apply list.NoDup_cons in Hn as [_ Hn].
    constructor; [|apply NoDup_fmap_2; [intros ? ? ?; simplify_eq; lia|done]].
    intros (q & E & Hq)%list_elem_of_fmap. offs. simplify_eq. lia.
Qed.
End Core.
End Rep.

Section Ops.
Context `{HL : OsLaws OS}.
Implicit Types (s : bstate OS) (P : ba_pool).

(** The header of the pool at [a] can be accessed. *)
Definition hdr_ok s (a : Z) : Prop :=
  a mod 8 = 0 /\ forall x, a <= x < a + off_data -> mapped s x = true.

Lemma hdr_ok_only_mem s s' a : only_mem s s' -> hdr_ok s a -> hdr_ok s' a.
Proof. by intros ->. Qed.

Lemma core_hdr s P : pool_geo s P -> hdr_ok s (bp_addr P).
Proof.
  intros HP. split; [apply (core_region_mod8 s P HP), core_addr|].
  intros x Hx. apply (core_region s P HP _ (core_addr P)).
  pose proof (pr_size _ _ HP). pose proof (pr_chunk _ _ HP). lia.
Qed.

Lemma wp_load_hdr s a off Q :
  hdr_ok s a -> 0 <= off < off_data -> off mod 8 = 0 -> Q (rd s (a + off)) s -> wp (load (a + off)) Q s.
Proof.
  intros [Ha Hm] Ho Ho8 HQ. apply wp_load_word; [apply Hm; lia| |done].
  by rewrite Z.add_mod, Ha, Ho8 by lia.
Qed.

Lemma wp_store_hdr s a off v (Q : unit -> bstate OS -> Prop) :
  hdr_ok s a -> 0 <= off < off_data -> off mod 8 = 0 -> Q tt (wr (a + off) v s) -> wp (store (a + off) v) Q s.
Proof.
  intros [Ha Hm] Ho Ho8 HQ. apply wp_store; [apply Hm; lia| |done].
  by rewrite Z.add_mod, Ha, Ho8 by lia.
Qed.
End Ops.

(** One access to the header of a pool whose [hdr_ok] is at hand. *)
Ltac hdr_load := apply wp_bind, wp_load_hdr; [assumption|offs; lia|reflexivity|].
Ltac hdr_store := apply wp_bind, wp_store_hdr; [assumption|offs; lia|reflexivity|].

Section Ops2.
Context `{HL : OsLaws OS}.
Implicit Types (s : bstate OS) (P : ba_pool).

(** ** Bounds of the counters *)

(** There are fewer addresses than 2^64. *)
Lemma addresses_bound (L : list Z) :
  NoDup L -> (forall x, x ∈ L -> 0 < x < two64) -> len L < two64.
Proof.
  intros Hnd Hb. assert (L ⊆+ seqZ 1 (two64 - 1)) as Hs.
  { apply NoDup_submseteq; [done|]. intros x Hx. apply elem_of_seqZ. specialize (Hb x Hx). lia. }
  apply submseteq_length in Hs. rewrite length_seqZ in Hs.
  assert (0 < two64) by done. lia.
Qed.

Lemma core_chunks_bound s P : pool_geo s P -> len (bp_chunks P) < two64.
Proof.
  intros HP. apply addresses_bound; [by apply (core_chunks_NoDup s P)|].
  intros c Hc. pose proof (core_chunk_range s P HP c Hc). pose proof (pr_chunk _ _ HP). lia.
Qed.

Lemma core_next_bound s P : pool_geo s P -> 1 + len (bp_next P) < two64.
Proof.
  intros HP. replace (1 + len (bp_next P)) with (len (bp_regions P)) by (unfold bp_regions; simpl; lia).
  apply addresses_bound; [by apply (core_regions_NoDup s P)|].
  intros r Hr. pose proof (core_region s P HP r Hr) as (? & _ & ? & _).
  pose proof (core_size_pos s P HP). lia.
Qed.

Lemma core_free_length s P : pool_core s P -> (length (bp_free P) <= length (bp_chunks P))%nat.
Proof.
  intros HP. apply submseteq_length, NoDup_submseteq; [apply (pr_nodup _ _ HP)|apply (pr_free _ _ HP)].
Qed.

(** ** Frame *)

(** The words that hold the pool. *)
Definition pool_word P (a : Z) : Prop :=
  bp_addr P <= a < bp_addr P + off_data \/ a ∈ bp_next P \/ a ∈ bp_free P.

Lemma geo_mono s s' P :
  pool_geo s P -> (forall r x, r ∈ bp_regions P -> r <= x < r + bp_size P -> mapped s' x = true) ->
  pool_geo s' P.
Proof.
  intros HP Hm. destruct HP. constructor; try done. rewrite list.Forall_forall in pr_regions0 |- *.
  intros r Hr. destruct (pr_regions0 r Hr) as (? & ? & ? & _). split_and!; [done..|].
  intros x Hx. by apply (Hm r).
Qed.

Lemma core_frame s s' P :
  pool_core s P -> (forall a, pool_word P a -> rd s' a = rd s a) ->
  (forall r x, r ∈ bp_regions P -> r <= x < r + bp_size P -> mapped s' x = true) -> pool_core s' P.
Proof.
  intros HP Hw Hm.
  assert (forall off, 0 <= off < off_data -> rd s' (bp_addr P + off) = rd s (bp_addr P + off)) as Hh.
  { intros off Ho. apply Hw. left. lia. }
  destruct HP. constructor; try done; try (rewrite Hh by (offs; lia); done).
  - by apply (geo_mono s).
  - rewrite Hh by (offs; lia). eapply linked_frame; [|done]. intros a Ha. apply Hw. right. by left.
  - rewrite Hh by (offs; lia). eapply linked_frame; [|done]. intros a Ha. apply Hw. right. by right.
Qed.

Lemma rep_frame s s' P :
  pool_rep s P -> (forall a, pool_word P a -> rd s' a = rd s a) ->
  (forall r x, r ∈ bp_regions P -> r <= x < r + bp_size P -> mapped s' x = true) ->
  b_locks s' !! (bp_addr P + off_free_lock) = b_locks s !! (bp_addr P + off_free_lock) ->
  pool_rep s' P.
Proof.
  intros [HP Hl] Hw Hm E. split; [by eapply core_frame|]. unfold pool_lock. by rewrite E.
Qed.

(** ** [ba_debug_checks] passes and changes nothing *)

Lemma wp_debug_checks s P (Q : unit -> bstate OS -> Prop) :
  pool_core s P -> Q tt s -> wp (ba_debug_checks (bp_addr P)) Q s.
Proof.
  intros HP HQ. pose proof (core_hdr s P HP) as Hh. unfold ba_debug_checks.
  pose proof (core_next_bound s P HP). pose proof (core_chunks_bound s P HP).
  pose proof (core_free_length s P HP).
  hdr_load. hdr_load. apply wp_bind.
  apply (wp_count_list (bp_next P)); [apply (pr_next _ _ HP)| |rewrite (pr_n_pools _ _ HP); lia|lia|lia|].
  { intros a Ha. assert (a ∈ bp_regions P) as Hr by (by right).
    split; [|by apply (core_region_mod8 s P HP)]. apply (core_region s P HP a Hr).
    pose proof (core_size_pos s P HP). lia. }
  wp_step; [rewrite (pr_n_pools _ _ HP); apply Z.eqb_refl|].
  hdr_load. hdr_load. apply wp_bind.
  apply (wp_count_list (bp_free P)); [apply (pr_list _ _ HP)| |rewrite (pr_n_chunks _ _ HP); lia|lia|lia|].
  { intros a Ha. apply (core_chunk_word s P HP). by apply (pr_free _ _ HP). }
  hdr_load. wp_step; [|done].
  rewrite (pr_n_chunks _ _ HP), (pr_n_allocs _ _ HP), sub64_small by (unfold is_u64; lia).
  apply Z.eqb_eq. lia.
Qed.
(** ** Division of a mapping into chunks *)

Lemma linked_seqZ s d k n m j :
  0 < d -> 0 < k -> 0 <= j -> j + Z.of_nat m = n ->
  (forall i, 0 <= i < n - 1 -> rd s (d + i * k) = d + (i + 1) * k) ->
  rd s (d + (n - 1) * k) = 0 -> (0 < m)%nat ->
  linked s (d + j * k) ((fun i => d + i * k) <$> seqZ j (Z.of_nat m)).
Proof.
  intros Hd Hk. revert j. induction m as [|m IH]; [lia|]. intros j Hj Hn Hs Hl _.
  rewrite seqZ_cons by lia. simpl. split_and!; [done|nia|].
  replace (Z.pred (Z.of_nat (S m))) with (Z.of_nat m) by lia.
  destruct m as [|m].
  - replace j with (n - 1) by lia. by rewrite Hl.
  - rewrite Hs by lia. replace (j + 1) with (Z.succ j) by lia. apply IH; [lia|lia|done|done|lia].
Qed.

Lemma div_step left k n :
  0 < k -> left / k = Z.of_nat (S n) -> k <= left /\ (left - k) / k = Z.of_nat n.
Proof.
  intros Hk E. split.
  - pose proof (Z.mul_div_le left k Hk). nia.
  - replace (left - k) with (left + (-1) * k) by lia. rewrite Z.div_add by lia. lia.
Qed.

(** The data area is outside the header of the pool. *)
Definition clear_of (pool a n : Z) : Prop := a + n <= pool \/ pool + off_data <= a.

Lemma wp_divide_loop pool k n fuel data left cur prev s (Q : Z -> bstate OS -> Prop) :
  hdr_ok s pool -> rd s (pool + off_chunk_size) = k -> 0 < k -> k mod 8 = 0 ->
  data mod 8 = 0 -> prev mod 8 = 0 -> mapped s prev = true ->
  (forall x, data <= x < data + left -> mapped s x = true) ->
  0 <= data -> data + left < two64 -> 0 <= left -> left / k = Z.of_nat n -> (n <= fuel)%nat ->
  clear_of pool prev 8 -> clear_of pool data left ->
  0 <= rd s (pool + off_n_chunks) -> rd s (pool + off_n_chunks) + Z.of_nat n < two64 ->
  (forall s', only_mem s s' ->
    (forall a, a <> pool + off_n_chunks -> a <> prev -> ~ data <= a < data + left -> rd s' a = rd s a) ->
    rd s' (pool + off_n_chunks) = rd s (pool + off_n_chunks) + Z.of_nat n ->
    (0 < Z.of_nat n -> prev < data -> rd s' prev = data) ->
    (forall i, 0 <= i < Z.of_nat n - 1 -> rd s' (data + i * k) = data + (i + 1) * k) ->
    Q (if (n =? 0)%nat then cur else data + (Z.of_nat n - 1) * k) s') ->
  wp (ba_divide_loop fuel pool data left cur prev) Q s.
Proof.
  intros Hh Ek Hk Hk8. revert fuel data left cur prev s Hh Ek Q.
  induction n as [|n IH]; intros fuel data left cur prev s Hh Ek Q Hd8 Hp8 Hpm Hm Hd Hu Hl0 Hdiv Hf Hcp Hcd Hn0 Hn HQ.
  - assert (left < k) by (apply Z.div_small_iff in Hdiv; lia).
    destruct fuel; simpl; hdr_load; rewrite Ek;
      (replace (left >=? k) with false by (symmetry; rewrite Z.geb_leb; apply Z.leb_gt; lia)); wp_step;
      (apply HQ; [apply only_mem_refl|done|lia|lia|lia]).
  - destruct (div_step _ _ _ Hk Hdiv) as [Hkl Hdiv']. destruct fuel as [|fuel]; [lia|].
    simpl. hdr_load. rewrite Ek.
    replace (left >=? k) with true by (symmetry; rewrite Z.geb_leb; apply Z.leb_le; lia).
    apply wp_bind, wp_store; [done..|]. hdr_load. hdr_store.
    set (s1 := wr (pool + off_n_chunks) _ _).
    unfold clear_of in Hcp, Hcd.
    assert (only_mem s s1) as Hs1 by (apply only_mem_wr, only_mem_wr, only_mem_refl).
    assert (rd s1 (pool + off_n_chunks) = rd s (pool + off_n_chunks) + 1) as En.
    { unfold s1. rewrite rd_wr_eq, rd_wr_ne by (offs; lia). rewrite add64_small by (unfold is_u64; lia). done. }
    assert (forall a, a <> pool + off_n_chunks -> a <> prev -> rd s1 a = rd s a) as Es1.
    { intros a Ha Hb. unfold s1. by rewrite !rd_wr_ne by done. }
    rewrite add64_small by (unfold is_u64; lia). rewrite sub64_small by (unfold is_u64, two64 in *; lia).
    apply IH; rewrite ?En; clear IH.
    + by apply (hdr_ok_only_mem s).
    + rewrite Es1 by (offs; lia). done.
    + by rewrite Z.add_mod, Hd8, Hk8 by lia.
    + done.
    + apply Hm. lia.
    + intros x Hx. apply Hm. lia.
    + lia.
    + lia.
    + lia.
    + done.
    + lia.
    + unfold clear_of. assert (8 <= k) by zmod. lia.
    + unfold clear_of. lia.
    + lia.
    + lia.
    + intros s' Ho Hfr Hnc Hpv Hch.
      replace (if (n =? 0)%nat then data else data + k + (Z.of_nat n - 1) * k)
        with (if (S n =? 0)%nat then cur else data + (Z.of_nat (S n) - 1) * k)
        by (destruct n; cbn [Nat.eqb]; lia).
      apply HQ.
      * by apply (only_mem_trans s s1).
      * intros a Ha Hb Hc. rewrite Hfr by lia. by apply Es1.
      * rewrite Hnc. lia.
      * intros _ Hlt. rewrite Hfr by (offs; lia). unfold s1. rewrite rd_wr_ne by (offs; lia). by rewrite rd_wr_eq.
      * intros i Hi. destruct (decide (i = 0)) as [->|].
        -- rewrite Z.mul_0_l, Z.add_0_r, Hpv by lia. lia.
        -- replace (data + i * k) with (data + k + (i - 1) * k) by lia. rewrite Hch by lia. lia.
Qed.

Lemma wp_divide pool k ptr size s (Q : unit -> bstate OS -> Prop) :
  hdr_ok s pool -> rd s (pool + off_chunk_size) = k -> rd s (pool + off_free_list) = 0 ->
  0 < k -> k mod 8 = 0 -> k < size -> ptr mod 8 = 0 -> 0 < ptr -> ptr + size < two64 ->
  (forall x, ptr <= x < ptr + size -> mapped s x = true) -> clear_of pool ptr size ->
  let L := chunks_in k (ptr, size) in
  0 <= rd s (pool + off_n_chunks) -> rd s (pool + off_n_chunks) + len L < two64 ->
  (forall s', only_mem s s' ->
    (forall a, a <> pool + off_n_chunks -> a <> pool + off_free_list -> ~ ptr <= a < ptr + size ->
       rd s' a = rd s a) ->
    rd s' (pool + off_n_chunks) = rd s (pool + off_n_chunks) + len L ->
    rd s' (pool + off_free_list) = ptr -> linked s' ptr L -> Q tt s') ->
  wp (ba_divide_memory_into_chunks pool ptr size) Q s.
Proof.
  intros Hh Ek Ef Hk Hk8 Hsz Hp8 Hp Hu Hm Hc L Hn0 Hn HQ. unfold ba_divide_memory_into_chunks.
  hdr_load. rewrite Ef. wp_step; [done|]. hdr_load. rewrite Ek. wp_step.
  { rewrite Z.gtb_ltb. by apply Z.ltb_lt. }
  assert (0 < size / k) as Hq by (apply Z.div_str_pos; lia).
  assert (8 <= k) as Hk1 by zmod. pose proof (Z.mul_div_le size k Hk) as Hqk.
  unfold L in Hn. rewrite chunks_in_length in Hn. cbn [snd] in Hn.
  apply wp_bind, (wp_divide_loop pool k (Z.to_nat (size / k))); try done; try lia.
  { apply Hm. lia. }
  { unfold clear_of in *. lia. }
  intros s' Ho Hfr Hnc _ Hch. rewrite (proj2 (Nat.eqb_neq _ _)) by lia.
  rewrite Z2Nat.id in * by lia. set (last := ptr + (size / k - 1) * k).
  assert (ptr <= last /\ last + k <= ptr + size) as Hlast by (unfold last; nia).
  assert (mapped s' last = true) as Hml.
  { rewrite (only_mem_mapped s) by done. apply Hm. lia. }
  apply wp_bind, wp_store; [done| |].
  { unfold last. by rewrite Z.add_mod, Z.mul_mod, Hk8, Hp8, Z.mul_0_r by lia. }
  assert (hdr_ok s' pool) as Hh' by (by apply (hdr_ok_only_mem s)).
  apply wp_store_hdr; [done|offs; lia|done|]. set (s2 := wr _ _ _).
  assert (forall a, a <> pool + off_free_list -> a <> last -> rd s2 a = rd s' a) as E2.
  { intros a Ha Hb. unfold s2. by rewrite !rd_wr_ne by done. }
  unfold clear_of in Hc. apply HQ.
  - by apply only_mem_wr, only_mem_wr.
  - intros a Ha Hb Hc'. rewrite E2 by lia. apply Hfr; lia.
  - rewrite E2 by (offs; lia). rewrite Hnc. unfold L. rewrite chunks_in_length. cbn [snd]. lia.
  - apply rd_wr_eq.
  - unfold L, chunks_in. cbn [fst snd]. replace (size / k) with (Z.of_nat (Z.to_nat (size / k))) by lia.
    replace ptr with (ptr + 0 * k) at 1 by lia.
    apply (linked_seqZ s2 ptr k (size / k)); try lia.
    + intros i Hi. assert (ptr + i * k < last) by (unfold last; nia).
      rewrite E2 by (offs; nia). by apply Hch.
    + unfold s2. rewrite rd_wr_ne by (fold last; offs; lia). apply rd_wr_eq.
Qed.
End Ops2.
