(* ===== verification/BaseAllocApi.v ===== *)
(** * [umf_ba_create], [umf_ba_alloc], [umf_ba_free] and [umf_ba_destroy]

    What the four operations of a base allocator pool do to the pool, to the
    rest of the memory and to the mappings. *)

From S2P Require Import Prelude Utils BaseMem BaseAlloc BaseAllocInv.
From stdpp Require Import list.
#[local] Open Scope Z_scope.

Section Api.
Context `{HL : OsLaws OS}.
Implicit Types (s : bstate OS) (P : ba_pool).

Lemma align_ptr_id p n : 0 <= p -> p mod 8 = 0 -> utils_align_ptr_up_size_down p n MEMORY_ALIGNMENT = (p, n).
Proof.
  intros Hp H8. unfold utils_align_ptr_up_size_down.
  assert (pow2 MEMORY_ALIGNMENT) as Hpow by (exists 3; split; [lia|done]).
  rewrite land_pow2_mask by done. unfold MEMORY_ALIGNMENT. by rewrite H8.
Qed.

(** ** Refill *)

(** [P] with a new mapping at [a], all of whose chunks are free. *)
Definition grown P (a : Z) : ba_pool :=
  BaPool (bp_addr P) (bp_size P) (bp_chunk P) (a :: bp_next P)
    (chunks_in (bp_chunk P) (a + off_next_data, bp_size P - off_next_data)).

Lemma grown_chunks P a :
  bp_chunks (grown P a) ≡ₚ
  chunks_in (bp_chunk P) (a + off_next_data, bp_size P - off_next_data) ++ bp_chunks P.
Proof.
  unfold bp_chunks, bp_areas. simpl. apply Permutation_app_swap_app.
Qed.

Lemma grown_geo s s' P a :
  pool_geo s P -> fresh_map s a (bp_size P) ->
  (forall x, mapped s' x = mapped s x || within a (bp_size P) x) -> pool_geo s' (grown P a).
Proof.
  intros HP (Ha & Hpg & Hu & Hf) Hm.
  assert (forall r, r ∈ bp_regions P -> apart2 (bp_size P) r a) as Hap.
  { intros r Hr. pose proof (core_region s P HP r Hr) as (_ & _ & _ & Hmr).
    pose proof (core_size_pos s P HP). unfold apart2.
    destruct (decide (r <= a < r + bp_size P)) as [Hin|].
    { specialize (Hmr a Hin). rewrite Hf in Hmr by lia. done. }
    destruct (decide (a <= r < a + bp_size P)) as [Hin|]; [|lia].
    specialize (Hf r Hin). rewrite Hmr in Hf by lia. done. }
  destruct HP. constructor; simpl; [done|done| |].
  - unfold bp_regions in *. simpl in *. rewrite list.Forall_cons in pr_regions.
    rewrite !list.Forall_cons. destruct pr_regions as [Hr0 Hr].
    assert (forall r, region_ok s (bp_size P) r -> region_ok s' (bp_size P) r) as Hmono.
    { intros r (? & ? & ? & Hr'). split_and!; [done..|]. intros x Hx. by rewrite Hm, Hr'. }
    split_and!; [auto| |].
    + split_and!; [done..|]. intros x Hx. rewrite Hm, (proj2 (within_true _ _ _) Hx). apply orb_true_r.
    + eapply list.Forall_impl; [exact Hr|]. done.
  - unfold bp_regions in *. simpl in *. destruct pr_apart as [H1' H2'].
    split_and!; [|apply list.Forall_forall; intros r Hr; apply apart2_sym, Hap; by right|done].
    apply list.Forall_cons. split; [apply Hap; left|done].
Qed.

Lemma grown_core s s' P a :
  pool_core s P -> bp_free P = [] -> pool_geo s' (grown P a) ->
  let L := bp_free (grown P a) in
  (forall off, off ∈ [off_pool_size; off_chunk_size; off_n_allocs] ->
     rd s' (bp_addr P + off) = rd s (bp_addr P + off)) ->
  (forall q, q ∈ bp_next P -> rd s' q = rd s q) ->
  rd s' (bp_addr P + off_next_pool) = a -> rd s' a = rd s (bp_addr P + off_next_pool) ->
  rd s' (bp_addr P + off_n_pools) = rd s (bp_addr P + off_n_pools) + 1 ->
  rd s' (bp_addr P + off_n_chunks) = rd s (bp_addr P + off_n_chunks) + len L ->
  rd s' (bp_addr P + off_free_list) = a + off_next_data -> linked s' (a + off_next_data) L ->
  pool_core s' (grown P a).
Proof.
  intros HP Hfree HG L Hhdr Hnext Enp Ea Ep Ec Ef Hl.
  assert (0 < a) as Ha by (apply (core_region _ _ HG a); right; left).
  assert (len (bp_chunks (grown P a)) = len L + len (bp_chunks P)) as El.
  { rewrite (grown_chunks P a), length_app. unfold L. simpl. lia. }
  destruct HP. constructor; [done|..].
  - apply chunks_in_NoDup, pr_geo.
  - intros c Hc. rewrite (grown_chunks P a). apply elem_of_app. by left.
  - by rewrite Hhdr by (repeat constructor).
  - by rewrite Hhdr by (repeat constructor).
  - change (bp_addr (grown P a)) with (bp_addr P). rewrite Enp. split_and!; [done|lia|].
    rewrite Ea. by eapply linked_frame.
  - change (bp_addr (grown P a)) with (bp_addr P). by rewrite Ef.
  - change (bp_addr (grown P a)) with (bp_addr P). rewrite El, Hhdr by (repeat constructor).
    rewrite pr_n_allocs, Hfree. simpl. unfold L. simpl. lia.
  - change (bp_addr (grown P a)) with (bp_addr P). rewrite Ep, pr_n_pools. simpl. lia.
  - change (bp_addr (grown P a)) with (bp_addr P). rewrite El, Ec, pr_n_chunks. lia.
Qed.

(** Linking and dividing the fresh mapping at [a], mapped in [s1] already. *)
Lemma wp_add_next_pool s s1 P a (Q : unit -> bstate OS -> Prop) :
  pool_core s P -> bp_free P = [] -> fresh_map s a (bp_size P) -> s1 = set_os (b_os s1) s ->
  (forall x, mapped s1 x = mapped s x || within a (bp_size P) x) ->
  (forall s', only_mem s1 s' ->
     (forall x, mapped s x = true -> ~ pool_word P x -> rd s' x = rd s x) ->
     pool_core s' (grown P a) -> Q tt s') ->
  wp (ba_add_next_pool (bp_addr P) a) Q s1.
Proof.
  intros HP Hfree Hfm Es1 Hm1 HQ. pose proof Hfm as (Ha & Hap & Hau & Hf). unfold ba_add_next_pool.
  pose proof (core_size_pos s P HP) as Hsz. destruct (pr_size _ _ HP) as [Hszk Hpg].
  destruct (pr_chunk _ _ HP) as [Hk Hk8]. pose proof (page_mod8 (bp_size P) Hpg).
  pose proof (grown_geo s s1 P a HP Hfm Hm1) as HG.
  assert (hdr_ok s1 (bp_addr P)) as Hh1 by (apply (core_hdr s1 (grown P a) HG)).
  assert (a mod 8 = 0) as Ha8 by (by apply page_mod8).
  assert (forall x, a <= x < a + bp_size P -> mapped s1 x = true) as Hma.
  { apply (core_region s1 (grown P a) HG a). right. left. }
  assert (a + bp_size P <= bp_addr P \/ bp_addr P + bp_size P <= a) as Hclr.
  { apply (apart2_sym (bp_size P)), (core_regions_apart s1 (grown P a) HG); [left|right;left|].
    apply not_eq_sym, (core_next_ne s1 (grown P a) HG). left. }
  assert (forall x, rd s1 x = rd s x) as Er1 by (by rewrite Es1).
  hdr_load. apply wp_bind. replace (a + off_next_pool) with a by (offs; lia).
  apply wp_store; [apply Hma; lia|done|]. hdr_store. hdr_load. hdr_store. hdr_load.
  set (s5 := wr _ _ (wr _ _ (wr _ _ _))).
  pose proof (core_next_bound _ _ HG) as Hnb. pose proof (core_chunks_bound _ _ HG) as Hcb.
  rewrite (grown_chunks P a), length_app in Hcb. simpl in Hnb.
  assert (forall x, x <> bp_addr P + off_next_pool -> x <> bp_addr P + off_n_pools -> x <> a ->
    rd s5 x = rd s x) as E5 by (intros x ???; unfold s5; by rewrite !rd_wr_ne by done).
  assert (rd s5 (bp_addr P + off_next_pool) = a) as En.
  { unfold s5. rewrite rd_wr_ne by (offs; lia). apply rd_wr_eq. }
  assert (rd s5 (bp_addr P + off_n_pools) = rd s (bp_addr P + off_n_pools) + 1) as Ep.
  { unfold s5. rewrite rd_wr_eq, !rd_wr_ne, Er1 by (offs; lia).
    apply add64_small. rewrite (pr_n_pools _ _ HP). unfold is_u64. lia. }
  assert (rd s5 a = rd s (bp_addr P + off_next_pool)) as Ea.
  { unfold s5. rewrite !rd_wr_ne by (offs; lia). by rewrite rd_wr_eq. }
  rewrite (E5 (bp_addr P + off_pool_size)), (pr_pool_size _ _ HP) by (offs; lia).
  rewrite add64_small by (unfold is_u64; offs; lia). rewrite sub64_small by (unfold is_u64; offs; lia).
  rewrite align_ptr_id by (offs; first [lia | zmod]).
  apply (wp_divide _ (bp_chunk P)); rewrite ?E5 by (offs; lia).
  - done.
  - apply (pr_chunk_size _ _ HP).
  - pose proof (pr_list _ _ HP) as Hl. rewrite Hfree in Hl. done.
  - done.
  - done.
  - offs; lia.
  - offs; zmod.
  - offs; lia.
  - offs; lia.
  - intros x Hx. apply Hma. offs; lia.
  - unfold clear_of. offs; lia.
  - rewrite (pr_n_chunks _ _ HP). lia.
  - rewrite (pr_n_chunks _ _ HP). lia.
  - intros s' Ho Hfr Enc Efl Hl.
    assert (forall x, x <> bp_addr P + off_next_pool -> x <> bp_addr P + off_n_pools ->
      x <> bp_addr P + off_n_chunks -> x <> bp_addr P + off_free_list ->
      ~ a <= x < a + bp_size P -> rd s' x = rd s x) as E'.
    { intros x ?????. rewrite Hfr by (offs; lia). apply E5; lia. }
    apply HQ.
    + apply (only_mem_trans s1 s5); [|done]. by apply only_mem_wr, only_mem_wr, only_mem_wr, only_mem_refl.
    + intros x Hx Hw. unfold pool_word in Hw. assert (~ a <= x < a + bp_size P).
      { intros Hin. by rewrite Hf in Hx. }
      apply E'; offs; lia.
    + apply (grown_core s); try done.
      * eapply geo_mono; [exact HG|]. intros r x Hr Hx. rewrite (only_mem_mapped s5) by done.
        by apply (core_region _ _ HG r).
      * intros off Hoff. apply E'; repeat (apply elem_of_cons in Hoff as [->|Hoff]); offs; try lia;
          by apply elem_of_nil in Hoff.
      * intros q Hq. assert (q ∈ bp_regions P) as Hqr by (by right).
        pose proof (core_regions_apart s P HP q (bp_addr P) Hqr (core_addr P) (core_next_ne s P HP q Hq)) as Hqa.
        pose proof (core_region s P HP q Hqr) as (_ & _ & _ & Hqm).
        assert (~ a <= q < a + bp_size P). { intros Hin. specialize (Hf q Hin). rewrite Hqm in Hf by lia. done. }
        unfold apart2 in Hqa. apply E'; offs; lia.
      * rewrite Hfr by (offs; lia). done.
      * rewrite Hfr by (offs; lia). done.
      * rewrite Hfr by (offs; lia). done.
Qed.

(** A refill changes the header and the new mapping only. *)
Lemma wp_refill s P (Q : bool -> bstate OS -> Prop) :
  pool_core s P -> bp_free P = [] ->
  (forall o, (os_mmap (bp_size P) (b_os s)).1 = None -> (forall x, os_mapped o x = mapped s x) ->
     Q false (set_os o s)) ->
  (forall a s', (os_mmap (bp_size P) (b_os s)).1 = Some a -> fresh_map s a (bp_size P) ->
     (forall x, mapped s' x = mapped s x || within a (bp_size P) x) -> ctl s' = ctl s ->
     (forall x, mapped s x = true -> ~ pool_word P x -> rd s' x = rd s x) ->
     pool_core s' (grown P a) -> Q true s') ->
  wp (ba_refill (bp_addr P)) Q s.
Proof.
  intros HP Hfree HQ0 HQ1. pose proof (core_hdr s P HP) as Hh. unfold ba_refill, ba_os_alloc_annotated.
  hdr_load. rewrite (pr_pool_size _ _ HP). apply wp_bind, wp_ba_os_alloc; [apply (core_size_pos s P HP)| |].
  { intros o Hmm Ho. rewrite Z.eqb_refl. apply wp_ret. auto. }
  rewrite page_up_id by apply (pr_size _ _ HP). intros a o Hmm Hfm Hmo.
  rewrite (proj2 (Z.eqb_neq a 0)) by (destruct Hfm; lia).
  apply wp_bind, (wp_add_next_pool s); [done..|].
  intros s' Ho Hfr HG. apply wp_ret, (HQ1 a); [done|done| |by rewrite (only_mem_ctl _ _ Ho)|done|done].
  intros x. rewrite (only_mem_mapped _ _ _ Ho). apply Hmo.
Qed.

(** ** Live chunks *)

Definition with_free P (f : list Z) : ba_pool :=
  BaPool (bp_addr P) (bp_size P) (bp_chunk P) (bp_next P) f.

Lemma elem_of_live P c : c ∈ bp_live P <-> c ∈ bp_chunks P /\ c ∉ bp_free P.
Proof. unfold bp_live. rewrite list_elem_of_filter. tauto. Qed.

Lemma live_NoDup s P : pool_geo s P -> NoDup (bp_live P).
Proof. intros HP. by apply NoDup_filter, (core_chunks_NoDup s P). Qed.

Lemma live_cons s P c rest :
  pool_geo s P -> NoDup (c :: rest) -> c ∈ bp_chunks P ->
  bp_live (with_free P rest) ≡ₚ c :: bp_live (with_free P (c :: rest)).
Proof.
  intros HP [Hc Hr]%list.NoDup_cons Hin. apply NoDup_Permutation.
  - by apply NoDup_filter, (core_chunks_NoDup s P).
  - constructor; [|by apply NoDup_filter, (core_chunks_NoDup s P)].
    rewrite elem_of_live. intros [_ Hn]. apply Hn. left.
  - intros x. rewrite elem_of_cons, !elem_of_live. simpl. rewrite not_elem_of_cons.
    destruct (decide (x = c)) as [->|]; [split; [by left|done]|tauto].
Qed.

Lemma live_grown s P a :
  pool_geo s (grown P a) -> bp_free P = [] -> bp_live (grown P a) ≡ₚ bp_live P.
Proof.
  intros HG Hf. pose proof (core_chunks_NoDup _ _ HG) as Hnd. rewrite (grown_chunks P a) in Hnd.
  apply NoDup_app in Hnd as (_ & Hd & HndP). apply NoDup_Permutation.
  - by apply (live_NoDup s).
  - by apply NoDup_filter.
  - intros x. rewrite !elem_of_live, (grown_chunks P a), elem_of_app, Hf. simpl.
    split; [intros [[?|?] ?]; [done|split; [done|apply not_elem_of_nil]]|].
    intros [Hx _]. split; [by right|]. intros Hn. by apply (Hd x).
Qed.

(** Only the pool's own words matter for a lock operation. *)
Lemma core_locks s P l : pool_core s P -> pool_core (set_locks l s) P.
Proof.
  intros HP. apply (core_frame s); [done|done|]. intros r x Hr Hx. by apply (core_region s P HP r).
Qed.

(** ** Allocation *)

(** [P'] is [P], possibly with one more mapping. *)
Definition extends s P s' P' : Prop :=
  bp_addr P' = bp_addr P /\ bp_size P' = bp_size P /\ bp_chunk P' = bp_chunk P /\
  (bp_next P' = bp_next P /\ (forall x, mapped s' x = mapped s x) \/
   exists a, bp_next P' = a :: bp_next P /\ fresh_map s a (bp_size P) /\
     forall x, mapped s' x = mapped s x || within a (bp_size P) x).

Record ba_allocated s P (c : Z) s' P' : Prop := {
  aa_rep : pool_rep s' P';
  aa_ext : extends s P s' P';
  aa_chunk : c ∈ bp_chunks P';
  aa_head : forall d rest, bp_free P = d :: rest -> c = d;
  aa_fresh : c ∉ bp_live P;
  aa_live : bp_live P' ≡ₚ c :: bp_live P;
  aa_frame : forall x, mapped s x = true -> ~ pool_word P x -> rd s' x = rd s x;
  aa_ctl : ctl s' = ctl s;
}.

Lemma pop_core s P c rest n :
  pool_core s P -> bp_free P = c :: rest -> n = rd s (bp_addr P + off_n_allocs) + 1 ->
  pool_core (wr (bp_addr P + off_n_allocs) n (wr (bp_addr P + off_free_list) (rd s c) s)) (with_free P rest).
Proof.
  intros HP Ef ->. set (s' := wr _ _ _).
  assert (forall x, x <> bp_addr P + off_n_allocs -> x <> bp_addr P + off_free_list -> rd s' x = rd s x) as E.
  { intros x ??. unfold s'. by rewrite !rd_wr_ne by done. }
  pose proof (pr_nodup _ _ HP) as Hnd. rewrite Ef in Hnd. apply list.NoDup_cons in Hnd as [Hc Hnd].
  assert (forall x, x ∈ bp_chunks P -> rd s' x = rd s x) as Echunk.
  { intros x Hx. pose proof (core_chunk_off s P HP x _ Hx (core_addr P)) as [|[_ Ho]].
    - pose proof (pr_chunk _ _ HP). apply E; offs; lia.
    - specialize (Ho eq_refl). apply E; offs; lia. }
  assert (forall x, x ∈ bp_next P -> rd s' x = rd s x) as Enext.
  { intros q Hq. assert (q ∈ bp_regions P) as Hqr by (by right).
    pose proof (core_regions_apart s P HP q (bp_addr P) Hqr (core_addr P) (core_next_ne s P HP q Hq)) as Hqa.
    pose proof (pr_size _ _ HP). pose proof (pr_chunk _ _ HP).
    unfold apart2 in Hqa. apply E; offs; lia. }
  pose proof (pr_free _ _ HP) as Hfree. rewrite Ef in Hfree.
  pose proof (pr_list _ _ HP) as Hlist. rewrite Ef in Hlist. destruct Hlist as (_ & _ & Hlist).
  destruct HP. constructor; simpl; try (rewrite E by (offs; lia); done).
  - destruct pr_geo. by constructor.
  - done.
  - intros x Hx. apply Hfree. by right.
  - rewrite E by (offs; lia). by eapply linked_frame.
  - unfold s'. rewrite rd_wr_ne, rd_wr_eq by (offs; lia). eapply linked_frame; [|done].
    intros x Hx. apply Echunk, Hfree. by right.
  - unfold s'. rewrite rd_wr_eq, pr_n_allocs, Ef. unfold bp_chunks. simpl. lia.
Qed.

(** The part of [umf_ba_alloc] that runs when the free list is not empty. *)
Lemma wp_take s P c rest (Q : Z -> bstate OS -> Prop) :
  pool_core s P -> bp_free P = c :: rest ->
  b_locks s !! (bp_addr P + off_free_lock) = Some (mk_mutex true []) ->
  (forall s', pool_core s' (with_free P rest) ->
     ctl s' = ctl (set_locks (<[bp_addr P + off_free_lock := mk_mutex false []]> (b_locks s)) s) ->
     (forall x, mapped s' x = mapped s x) ->
     (forall x, ~ pool_word P x -> rd s' x = rd s x) -> Q c s') ->
  wp (chunk ← load (bp_addr P + off_free_list);
      if chunk =? 0 then
        _ ← mutex_unlock (bp_addr P + off_free_lock);
        mret 0
      else
      next ← load chunk;
      _ ← store (bp_addr P + off_free_list) next;
      n_allocs ← load (bp_addr P + off_n_allocs);
      _ ← store (bp_addr P + off_n_allocs) (add64 n_allocs 1);
      _ ← ba_debug_checks (bp_addr P);
      _ ← mutex_unlock (bp_addr P + off_free_lock);
      mret chunk) Q s.
Proof.
  intros HP Ef Hlk HQ. pose proof (core_hdr s P HP) as Hh. hdr_load.
  pose proof (pr_list _ _ HP) as Hl. rewrite Ef in Hl. destruct Hl as (El & Hc0 & Hl). rewrite El.
  rewrite (proj2 (Z.eqb_neq c 0)) by done.
  assert (c ∈ bp_chunks P) as Hc by (apply (pr_free _ _ HP); rewrite Ef; left).
  destruct (core_chunk_word s P HP c Hc) as [Hcm Hc8].
  apply wp_bind, wp_load_word; [done..|]. hdr_store. hdr_load. hdr_store.
  rewrite rd_wr_ne by (offs; lia). pose proof (core_chunks_bound s P HP). pose proof (core_free_length s P HP).
  assert (pool_core (wr (bp_addr P + off_n_allocs) (add64 (rd s (bp_addr P + off_n_allocs)) 1)
    (wr (bp_addr P + off_free_list) (rd s c) s)) (with_free P rest)) as HP'.
  { apply (pop_core _ _ c); [done..|]. apply add64_small. rewrite (pr_n_allocs _ _ HP), Ef.
    rewrite Ef in *. simpl in *. unfold is_u64. lia. }
  set (s' := wr _ _ _) in *. apply wp_bind, (wp_debug_checks _ _ _ HP').
  apply wp_bind, wp_mutex_unlock; [done|]. apply wp_ret, HQ; [by apply core_locks|done|done|].
  intros x Hx. unfold pool_word in Hx. unfold s', rd. simpl.
  rewrite !lookup_insert_ne by (offs; lia). done.
Qed.

Lemma unlock_id s P :
  pool_lock s P ->
  ctl (set_locks (<[bp_addr P + off_free_lock := mk_mutex false []]>
    (<[bp_addr P + off_free_lock := mk_mutex true []]> (b_locks s))) s) = ctl s.
Proof. intros Hl. unfold ctl. simpl. by rewrite insert_insert_eq, insert_id. Qed.

(** The outcome of [umf_ba_alloc] from that of its last part, run on [G]. *)
Lemma take_allocated s P s2 G s3 c rest :
  pool_lock s P -> pool_core s2 G -> bp_free G = c :: rest -> bp_free P = [] \/ bp_free P = c :: rest -> bp_live G ≡ₚ bp_live P -> extends s P s2 G ->
  (forall x, mapped s x = true -> ~ pool_word P x -> rd s2 x = rd s x /\ ~ pool_word G x) ->
  pool_core s3 (with_free G rest) -> ctl s3 = ctl s -> (forall x, mapped s3 x = mapped s2 x) ->
  (forall x, ~ pool_word G x -> rd s3 x = rd s2 x) -> ba_allocated s P c s3 (with_free G rest).
Proof.
  intros Hlk HG Ef Hhead Hlive Hext Hfr HP3 Hc3 Hm3 Hfr3.
  assert (NoDup (c :: rest)) as Hnd by (rewrite <- Ef; apply (pr_nodup _ _ HG)).
  assert (c ∈ bp_chunks G) as Hcin by (apply (pr_free _ _ HG); rewrite Ef; left).
  constructor; [|..|done].
  - split; [done|]. unfold pool_lock. injection Hc3 as -> _ _ _. destruct Hext as (Ea & _).
    simpl. rewrite Ea. apply Hlk.
  - destruct Hext as (? & ? & ? & Hn). split_and!; [done..|].
    destruct Hn as [[? Hm]|(a & ? & ? & Hm)]; [left|right; exists a]; split_and!; try done;
      intros x; by rewrite Hm3, Hm.
  - done.
  - intros d r E. destruct Hhead; congruence.
  - rewrite <- Hlive, elem_of_live, Ef. intros [_ Hn]. apply Hn. left.
  - rewrite <- Hlive. rewrite (live_cons _ _ c rest (pr_geo _ _ HG) Hnd Hcin). rewrite <- Ef. by destruct G.
  - intros x Hx Hw. destruct (Hfr x Hx Hw) as [<- HwG]. by apply Hfr3.
Qed.

(** A word of the grown pool that was mapped before is a word of the pool. *)
Lemma grown_word s P a x :
  pool_geo s P -> fresh_map s a (bp_size P) -> mapped s x = true -> ~ pool_word P x -> ~ pool_word (grown P a) x.
Proof.
  intros HP (_ & _ & _ & Hf) Hx Hw [Hh|[Hn|Hc]].
  - apply Hw. by left.
  - apply elem_of_cons in Hn as [->|Hn]; [|apply Hw; right; by left].
    rewrite Hf in Hx; [done|]. pose proof (core_size_pos s P HP). lia.
  - simpl in Hc. apply chunks_in_bounds in Hc; [|apply (pr_chunk _ _ HP)]. simpl in Hc.
    rewrite Hf in Hx; [done|]. pose proof (pr_chunk _ _ HP). offs. lia.
Qed.

Lemma grown_free_ne s P a : pool_geo s P -> bp_free (grown P a) <> [].
Proof.
  intros HP E. simpl in E. apply (f_equal length) in E. rewrite chunks_in_length in E. simpl in E.
  pose proof (pr_size _ _ HP). pose proof (pr_chunk _ _ HP).
  assert (0 < (bp_size P - off_next_data) / bp_chunk P); [|lia]. apply Z.div_str_pos. offs. lia.
Qed.

Lemma wp_umf_ba_alloc s P (Q : Z -> bstate OS -> Prop) :
  pool_rep s P ->
  (forall s', bp_free P = [] -> (os_mmap (bp_size P) (b_os s)).1 = None ->
     (forall x, mapped s' x = mapped s x) -> ctl s' = ctl s -> (forall x, rd s' x = rd s x) -> Q 0 s') ->
  (forall c s' P', bp_free P <> [] \/ (os_mmap (bp_size P) (b_os s)).1 <> None ->
     ba_allocated s P c s' P' -> Q c s') ->
  wp (umf_ba_alloc (bp_addr P)) Q s.
Proof.
  intros [HP Hlk] HQ0 HQ. unfold umf_ba_alloc. apply wp_bind, wp_mutex_lock; [done|].
  pose proof (core_locks s P (<[bp_addr P + off_free_lock := mk_mutex true []]> (b_locks s)) HP) as HP1.
  set (s1 := set_locks _ s) in *. pose proof (core_hdr s1 P HP1) as Hh. hdr_load.
  destruct (bp_free P) as [|c rest] eqn:Ef.
  - pose proof (pr_list _ _ HP1) as Hl. rewrite Ef in Hl. rewrite Hl, Z.eqb_refl.
    apply wp_bind, wp_refill; [done..| |].
    + intros o Hmm Ho. simpl. apply wp_bind, wp_mutex_unlock; [apply lookup_insert_eq|].
      apply wp_ret, HQ0; [done|done|done|by apply (unlock_id s)|done].
    + intros a s2 Hmm Hfm Hm2 Hc2 Hfr2 HP2. simpl negb. cbv iota.
      destruct (bp_free (grown P a)) as [|c rest] eqn:Ef2; [by apply (grown_free_ne s P a HP) in Ef2|].
      injection Hc2 as Hl2 Hb2 Hi2 Hd2.
      apply (wp_take s2 (grown P a) c rest); [done|done|rewrite Hl2; apply lookup_insert_eq|].
      intros s3 HP3 Hc3 Hm3 Hfr3. apply (HQ c s3 (with_free (grown P a) rest)); [right; intros E; simpl in *; congruence|].
      apply (take_allocated s P s2 (grown P a)); try done.
      * by left.
      * apply (live_grown s2); [apply (pr_geo _ _ HP2)|done].
      * split_and!; [done..|]. right. by exists a.
      * intros x Hx Hw. split; [by apply Hfr2|]. by apply (grown_word s P a x HP).
      * rewrite Hc3. rewrite <- (unlock_id s P Hlk). unfold ctl. simpl. by rewrite Hl2, Hb2, Hi2, Hd2.
  - pose proof (pr_list _ _ HP1) as Hl. rewrite Ef in Hl. destruct Hl as (El & Hc0 & _).
    rewrite El, (proj2 (Z.eqb_neq c 0)) by done. wp_step. simpl negb. cbv iota.
    apply (wp_take s1 P c rest); [done|done|apply lookup_insert_eq|].
    intros s3 HP3 Hc3 Hm3 Hfr3. apply (HQ c s3 (with_free P rest)); [by left|].
    apply (take_allocated s P s1 P); try done.
    + by right.
    + split_and!; [done..|]. by left.
    + rewrite Hc3. apply (unlock_id s P Hlk).
Qed.

(** ** Release *)

Lemma wp_next_contains s P L node fuel r c (Q : bool -> bstate OS -> Prop) :
  pool_core s P -> linked s node L -> (forall q, q ∈ L -> q ∈ bp_regions P) -> (length L <= fuel)%nat ->
  r ∈ L -> r + off_next_data <= c < r + bp_size P -> Q true s ->
  wp (next_contains_pointer fuel (bp_addr P) node c) Q s.
Proof.
  intros HP. pose proof (core_hdr s P HP) as Hh.
  revert node fuel. induction L as [|q L IH]; [by intros ? ? _ _ _ ?%elem_of_nil|].
  intros node fuel (-> & Hq0 & Hl) Hin Hf Hr Hc HQ. destruct fuel as [|fuel]; [simpl in Hf; lia|]. simpl.
  rewrite (proj2 (Z.eqb_neq q 0)) by done. hdr_load. rewrite (pr_pool_size _ _ HP).
  destruct ((c >=? q + off_next_data) && (c <? q + bp_size P)) eqn:E; [by apply wp_ret|].
  apply elem_of_cons in Hr as [->|Hr].
  - rewrite Z.geb_leb in E. apply andb_false_iff in E as [E|E];
      [apply Z.leb_gt in E|apply Z.ltb_ge in E]; lia.
  - replace (q + off_next_pool) with q by (offs; lia). assert (q ∈ bp_regions P) as Hqr by (apply Hin; left).
    apply wp_bind, wp_load_word; [apply (core_region s P HP q Hqr); pose proof (core_size_pos s P HP); lia
      |by apply (core_region_mod8 s P HP)|].
    apply IH; [done| |simpl in Hf; lia|done..]. intros x Hx. apply Hin. by right.
Qed.

Lemma wp_contains s P c (Q : bool -> bstate OS -> Prop) :
  pool_core s P -> c ∈ bp_chunks P -> Q true s -> wp (pool_contains_pointer (bp_addr P) c) Q s.
Proof.
  intros HP Hc HQ. pose proof (core_hdr s P HP) as Hh. unfold pool_contains_pointer.
  hdr_load. rewrite (pr_pool_size _ _ HP).
  destruct ((c >=? bp_addr P + off_data) && (c <? bp_addr P + bp_size P)) eqn:E; [by apply wp_ret|].
  hdr_load. hdr_load. destruct (core_chunk_bounds s P HP c Hc) as (r & Hr & Hlo & Hhi & _ & Ha).
  pose proof (pr_chunk _ _ HP).
  apply (wp_next_contains s P (bp_next P) _ _ r); [done|apply (pr_next _ _ HP)|..].
  - intros q Hq. by right.
  - rewrite (pr_n_pools _ _ HP). lia.
  - apply elem_of_cons in Hr as [->|]; [|done]. specialize (Ha eq_refl).
    rewrite Z.geb_leb in E. apply andb_false_iff in E as [E|E];
      [apply Z.leb_gt in E|apply Z.ltb_ge in E]; lia.
  - lia.
  - done.
Qed.

Lemma push_core s P c n :
  pool_core s P -> c ∈ bp_live P -> n = rd s (bp_addr P + off_n_allocs) - 1 ->
  pool_core (wr (bp_addr P + off_n_allocs) n (wr (bp_addr P + off_free_list) c
    (wr c (rd s (bp_addr P + off_free_list)) s))) (with_free P (c :: bp_free P)).
Proof.
  intros HP [Hc Hcf]%elem_of_live ->. set (s' := wr _ _ _).
  destruct (pr_chunk _ _ HP) as [Hk _]. destruct (pr_size _ _ HP) as [Hsz _].
  assert (forall x, x <> bp_addr P + off_n_allocs -> x <> bp_addr P + off_free_list -> x <> c ->
    rd s' x = rd s x) as E by (intros x ???; unfold s'; by rewrite !rd_wr_ne by done).
  assert (forall off, 0 <= off < off_data -> bp_addr P + off <> c) as Hoff.
  { intros off Ho. pose proof (core_chunk_off s P HP c _ Hc (core_addr P)) as [|[_ Hx]]; [lia|].
    specialize (Hx eq_refl). lia. }
  assert (rd s' c = rd s (bp_addr P + off_free_list)) as Ec.
  { unfold s'. rewrite !rd_wr_ne, rd_wr_eq by (apply Hoff; offs; lia). done. }
  assert (forall x, x ∈ bp_free P -> rd s' x = rd s x) as Efree.
  { intros x Hx. assert (x <> c) by (by intros ->). apply (pr_free _ _ HP) in Hx.
    pose proof (core_chunk_off s P HP x _ Hx (core_addr P)) as [|[_ Ho]].
    - apply E; [offs; lia|offs; lia|done].
    - specialize (Ho eq_refl). apply E; [offs; lia|offs; lia|done]. }
  assert (forall x, x ∈ bp_next P -> rd s' x = rd s x) as Enext.
  { intros q Hq. assert (q ∈ bp_regions P) as Hqr by (by right).
    pose proof (core_regions_apart s P HP q (bp_addr P) Hqr (core_addr P) (core_next_ne s P HP q Hq)) as Hqa.
    pose proof (core_chunk_off s P HP c q Hc Hqr). unfold apart2 in Hqa. apply E; offs; lia. }
  destruct HP. constructor; simpl; try (rewrite E by first [offs; lia | apply Hoff; offs; lia]; done).
  - destruct pr_geo. by constructor.
  - by constructor.
  - intros x [->|Hx]%elem_of_cons; [done|by apply pr_free].
  - rewrite E by first [offs; lia | apply Hoff; offs; lia]. by eapply linked_frame.
  - assert (rd s' (bp_addr P + off_free_list) = c) as -> by (unfold s'; rewrite rd_wr_ne by (offs; lia); apply rd_wr_eq).
    split_and!; [done| |].
    { apply (core_chunk_range s P pr_geo) in Hc. lia. }
    rewrite Ec. by eapply linked_frame.
  - unfold s'. rewrite rd_wr_eq, pr_n_allocs. unfold bp_chunks. simpl. lia.
Qed.

Lemma wp_umf_ba_free s P c (Q : unit -> bstate OS -> Prop) :
  pool_rep s P -> c ∈ bp_live P ->
  (forall s', pool_rep s' (with_free P (c :: bp_free P)) -> ctl s' = ctl s ->
     (forall x, mapped s' x = mapped s x) ->
     (forall x, ~ pool_word P x -> x <> c -> rd s' x = rd s x) -> Q tt s') ->
  wp (umf_ba_free (bp_addr P) c) Q s.
Proof.
  intros [HP Hlk] Hc HQ. pose proof Hc as [Hcc Hcf]%elem_of_live. unfold umf_ba_free.
  pose proof (core_chunk_range s P HP c Hcc). rewrite (proj2 (Z.eqb_neq c 0)) by lia.
  apply wp_bind, wp_mutex_lock; [done|].
  pose proof (core_locks s P (<[bp_addr P + off_free_lock := mk_mutex true []]> (b_locks s)) HP) as HP1.
  set (s1 := set_locks _ s) in *. pose proof (core_hdr s1 P HP1) as Hh.
  apply wp_bind, wp_contains; [done..|]. wp_step; [done|]. hdr_load.
  destruct (core_chunk_word s1 P HP1 c Hcc) as [Hcm Hc8].
  apply wp_bind, wp_store; [done..|]. hdr_store. hdr_load. hdr_store.
  assert (forall off, 0 <= off < off_data -> c <> bp_addr P + off) as Hoff.
  { intros off Ho. pose proof (pr_chunk _ _ HP).
    pose proof (core_chunk_off s P HP c _ Hcc (core_addr P)) as [|[_ Hx]]; [lia|].
    specialize (Hx eq_refl). lia. }
  rewrite (rd_wr_ne _ (bp_addr P + off_free_list) _ (bp_addr P + off_n_allocs)) by (offs; lia).
  rewrite (rd_wr_ne _ c _ (bp_addr P + off_n_allocs)) by (apply Hoff; offs; lia).
  assert ((length (c :: bp_free P) <= length (bp_chunks P))%nat) as Hlen.
  { apply submseteq_length, NoDup_submseteq; [constructor; [done|apply (pr_nodup _ _ HP)]|].
    intros x [->|Hx]%elem_of_cons; [done|by apply (pr_free _ _ HP)]. }
  pose proof (core_chunks_bound s P HP). simpl in Hlen.
  pose proof (push_core s1 P c (sub64 (rd s1 (bp_addr P + off_n_allocs)) 1) HP1 Hc) as HP2.
  rewrite sub64_small in HP2 at 1 by (rewrite (pr_n_allocs _ _ HP1); unfold is_u64; lia).
  specialize (HP2 eq_refl). set (s2 := wr _ _ _) in *.
  apply wp_bind. change (bp_addr P) with (bp_addr (with_free P (c :: bp_free P))).
  apply (wp_debug_checks _ _ _ HP2). apply wp_mutex_unlock; [apply lookup_insert_eq|].
  apply HQ.
  - split; [by apply core_locks|]. apply lookup_insert_eq.
  - apply (unlock_id s P Hlk).
  - done.
  - intros x Hx Hxc. unfold pool_word in Hx. unfold s2, s1, rd. simpl.
    rewrite !lookup_insert_ne by (offs; lia). done.
Qed.

(** ** Destruction *)

Definition in_regions (n : Z) (L : list Z) (x : Z) : bool := existsb (fun r => within r n x) L.

Lemma in_regions_true n L x : in_regions n L x = true <-> exists r, r ∈ L /\ r <= x < r + n.
Proof.
  unfold in_regions. rewrite existsb_exists. split; intros (r & Hr & Hx); exists r.
  - apply within_true in Hx. split; [by apply list_elem_of_In|done].
  - apply within_true in Hx. split; [by apply list_elem_of_In|done].
Qed.

(** [s'] is [s] with the mappings [L] of [n] bytes removed. *)
Definition unmapped s (n : Z) (L : list Z) s' : Prop :=
  (forall x, mapped s' x = mapped s x && negb (in_regions n L x)) /\
  forall x, mapped s' x = true -> rd s' x = rd s x.

Lemma wp_destroy_next L fuel node n s (Q : unit -> bstate OS -> Prop) :
  0 < n -> n mod os_page_size = 0 -> linked s node L -> Forall (region_ok s n) L -> apart n L ->
  (length L <= fuel)%nat ->
  (forall s', ctl s' = ctl s -> unmapped s n L s' -> Q tt s') ->
  wp (destroy_next_pools fuel node n) Q s.
Proof.
  intros Hn Hpg. revert fuel node s. induction L as [|q L IH]; intros fuel node s Hl Hr Hap Hf HQ.
  - simpl in Hl. subst node. destruct fuel; simpl; apply wp_ret, HQ; try done;
      (split; [intros x; by rewrite andb_true_r|done]).
  - destruct Hl as (-> & Hq0 & Hl). destruct fuel as [|fuel]; [simpl in Hf; lia|]. simpl.
    apply Forall_cons in Hr as [(Hq & Hqp & Hqu & Hqm) Hr]. destruct Hap as [Hqa Hap].
    rewrite (proj2 (Z.eqb_neq q 0)) by done. replace (q + off_next_pool) with q by (offs; lia).
    apply wp_bind, wp_load_word; [apply Hqm; lia|by apply page_mod8|].
    apply wp_bind, wp_ba_os_free; [done..|]. rewrite page_up_id by done. intros s1 Hc1 Hm1 Hrd1.
    assert (forall r x, r ∈ L -> r <= x < r + n -> mapped s1 x = true) as Hm1'.
    { intros r x Hin Hx. rewrite list.Forall_forall in Hr. destruct (Hr r Hin) as (_ & _ & _ & Hrm).
      rewrite list.Forall_forall in Hqa. specialize (Hqa r Hin). unfold apart2 in Hqa.
      rewrite Hm1, Hrm by done. rewrite (proj2 (within_false _ _ _)); [done|lia]. }
    apply IH; [|..|simpl in Hf; lia|].
    + eapply linked_frame; [|done]. intros r Hin. apply Hrd1, (Hm1' r); [done|lia].
    + rewrite list.Forall_forall in Hr |- *. intros r Hin. destruct (Hr r Hin) as (? & ? & ? & _).
      split_and!; [done..|]. intros x Hx. by apply (Hm1' r).
    + done.
    + intros s' Hc' [Hm' Hrd']. apply HQ; [congruence|]. split.
      * intros x. rewrite Hm', Hm1. simpl. by rewrite negb_orb, andb_assoc.
      * intros x Hx. rewrite Hrd' by done. apply Hrd1. rewrite Hm' in Hx. by apply andb_prop in Hx as [? _].
Qed.

Lemma wp_umf_ba_destroy s P (Q : unit -> bstate OS -> Prop) :
  pool_rep s P -> bp_live P = [] ->
  (forall s', unmapped s (bp_size P) (bp_regions P) s' ->
     ctl s' = ctl (set_locks (delete (bp_addr P + off_free_lock) (b_locks s)) s) -> Q tt s') ->
  wp (umf_ba_destroy (bp_addr P)) Q s.
Proof.
  intros [HP Hlk] Hlive HQ. pose proof (core_hdr s P HP) as Hh. unfold umf_ba_destroy.
  destruct (pr_size _ _ HP) as [_ Hpg]. pose proof (core_size_pos s P HP) as Hsz.
  assert (rd s (bp_addr P + off_n_allocs) = 0) as En.
  { rewrite (pr_n_allocs _ _ HP). pose proof (core_free_length s P HP).
    assert (bp_chunks P ⊆+ bp_free P) as Hs%submseteq_length; [|lia].
    apply NoDup_submseteq; [by apply (core_chunks_NoDup s P HP)|]. intros c Hc.
    destruct (decide (c ∈ bp_free P)) as [|Hn]; [done|]. exfalso. apply (not_elem_of_nil c).
    rewrite <- Hlive. by apply elem_of_live. }
  hdr_load. rewrite En. simpl. apply wp_bind, wp_debug_checks; [done|]. hdr_load. rewrite En.
  wp_step; [done|]. hdr_load. hdr_load. hdr_load. rewrite (pr_pool_size _ _ HP).
  pose proof (pr_regions _ _ HP) as [Hr0 Hr]%Forall_cons. destruct (pr_apart _ _ HP) as [Ha0 Ha].
  apply wp_bind, (wp_destroy_next (bp_next P)); try done.
  { apply (pr_next _ _ HP). }
  { rewrite (pr_n_pools _ _ HP). lia. }
  intros s1 Hc1 [Hm1 Hrd1]. apply wp_bind, wp_modify. apply wp_ba_os_free; [apply Hr0|done|].
  rewrite page_up_id by done. intros s2 Hc2 Hm2 Hrd2. apply HQ.
  - split.
    + intros x. rewrite Hm2. change (mapped _ x) with (mapped s1 x) at 1. rewrite Hm1. simpl.
      rewrite negb_orb. rewrite <- !andb_assoc. f_equal. apply andb_comm.
    + intros x Hx. rewrite Hrd2 by done. change (rd s1 x = rd s x). apply Hrd1.
      rewrite Hm2 in Hx. by apply andb_prop in Hx as [? _].
  - rewrite Hc2. injection Hc1 as El Eb Ei Ed. unfold ctl. simpl. by rewrite El, Eb, Ei, Ed.
Qed.

(** ** Creation *)

(** The size of the mappings of a pool of chunks of [k] bytes. *)
Definition create_size (k : Z) : Z :=
  let n := 8 + sizeof_meta + sizeof_mutex + MINIMUM_CHUNK_COUNT * k in
  ALIGN_UP_SAFE (if n <? os_page_size then os_page_size else n) os_page_size.

(** Above this size the product in [umf_ba_create] may overflow. *)
Definition create_max : Z := 2 ^ 48.

Lemma create_chunk_bounds size :
  0 < size <= create_max ->
  let k := ALIGN_UP_SAFE size MEMORY_ALIGNMENT in size <= k < size + 8 /\ k mod 8 = 0.
Proof.
  intros Hs. assert (pow2 MEMORY_ALIGNMENT) as Hp by (exists 3; split; [lia|done]).
  unfold create_max, MEMORY_ALIGNMENT in *. simpl.
  rewrite align_up_safe_fits by (try done; unfold is_u64, two64; lia).
  apply align_up_bounds; [done|lia|unfold two64; lia].
Qed.

Lemma create_size_bounds k :
  0 < k < create_max + 8 ->
  8 + sizeof_meta + sizeof_mutex + MINIMUM_CHUNK_COUNT * k <= create_size k < two64 /\
  create_size k mod os_page_size = 0.
Proof.
  intros Hk. pose proof os_page_bounds as Hb. unfold create_size, create_max, sizeof_meta, MINIMUM_CHUNK_COUNT in *.
  offs. set (n := 8 + _ + _ + _). set (m := if n <? _ then _ else _).
  assert (n <= m /\ 0 < m < 2 ^ 60) as Hm by (unfold m, n; case_match eqn:E; lia).
  rewrite align_up_safe_fits by (try apply os_page_pow2; unfold is_u64, two64; lia).
  pose proof (align_up_bounds m os_page_size os_page_pow2). unfold two64 in *. lia.
Qed.

Lemma create_size_code k :
  0 < k < create_max + 8 ->
  (let n := add64 (add64 (add64 8 sizeof_meta) (ALIGN_UP utils_mutex_get_size MEMORY_ALIGNMENT))
              (mul64 MINIMUM_CHUNK_COUNT k) in
   ALIGN_UP_SAFE (if n <? MINIMUM_POOL_SIZE then MINIMUM_POOL_SIZE else n) ba_os_get_page_size) = create_size k.
Proof.
  intros Hk. unfold create_size, create_max, MINIMUM_POOL_SIZE, ba_os_get_page_size in *.
  replace (add64 (add64 8 sizeof_meta) (ALIGN_UP utils_mutex_get_size MEMORY_ALIGNMENT))
    with (8 + sizeof_meta + sizeof_mutex) by done.
  unfold sizeof_meta, MINIMUM_CHUNK_COUNT in *. offs.
  rewrite mul64_small by (unfold is_u64, two64; lia).
  rewrite add64_small by (unfold is_u64, two64; lia). done.
Qed.

(** A new pool at [p]: one mapping, no live chunk. *)
Definition new_pool (p k : Z) : ba_pool :=
  BaPool p (create_size k) k [] (chunks_in k (p + off_data, create_size k - off_data)).

Lemma new_pool_chunks p k : bp_chunks (new_pool p k) = bp_free (new_pool p k).
Proof. unfold bp_chunks. simpl. apply app_nil_r. Qed.

Lemma new_pool_live p k : bp_live (new_pool p k) = [].
Proof.
  unfold bp_live. rewrite new_pool_chunks. apply filter_none. apply list.Forall_forall. intros c Hc Hn. done.
Qed.

Record ba_created s (k p : Z) s' : Prop := {
  ac_rep : pool_rep s' (new_pool p k);
  ac_fresh : fresh_map s p (create_size k);
  ac_mapped : forall x, mapped s' x = mapped s x || within p (create_size k) x;
  ac_frame : forall x, mapped s x = true -> rd s' x = rd s x;
  ac_ctl : ctl s' = ctl (set_locks (<[p + off_free_lock := mk_mutex false []]> (b_locks s)) s);
}.

(** The header that [umf_ba_create] writes. *)
Definition new_header (p k : Z) s : bstate OS :=
  wr (p + off_n_chunks) 0 (wr (p + off_n_pools) 1 (wr (p + off_n_allocs) 0
  (wr (p + off_next_pool) 0 (wr (p + off_chunk_size) k (wr (p + off_pool_size) (create_size k) s))))).

Lemma new_header_words p k s : let s' := new_header p k s in
  rd s' (p + off_pool_size) = create_size k /\ rd s' (p + off_chunk_size) = k /\
  rd s' (p + off_next_pool) = 0 /\ rd s' (p + off_n_allocs) = 0 /\ rd s' (p + off_n_pools) = 1 /\
  rd s' (p + off_n_chunks) = 0.
Proof.
  cbv zeta. unfold new_header. split_and!; rewrite ?rd_wr_ne by (offs; lia); apply rd_wr_eq.
Qed.

Lemma new_pool_geo s p k :
  0 < k < create_max + 8 -> k mod 8 = 0 -> region_ok s (create_size k) p -> pool_geo s (new_pool p k).
Proof.
  intros Hk Hk8 Hr. pose proof (create_size_bounds k Hk) as [[Hb _] Hpg].
  unfold sizeof_meta, MINIMUM_CHUNK_COUNT in Hb.
  constructor; simpl; [split; [lia|done]|split; [offs; lia|done]| |].
  - constructor; [exact Hr|constructor].
  - split; [constructor|done].
Qed.

(** The last part of [umf_ba_create], on the header written in [s]. *)
Lemma wp_create_rest s p k (Q : Z -> bstate OS -> Prop) :
  0 < k < create_max + 8 -> k mod 8 = 0 -> region_ok s (create_size k) p ->
  rd s (p + off_pool_size) = create_size k -> rd s (p + off_chunk_size) = k ->
  rd s (p + off_next_pool) = 0 -> rd s (p + off_n_allocs) = 0 -> rd s (p + off_n_pools) = 1 ->
  rd s (p + off_n_chunks) = 0 ->
  (forall s', only_mem s s' -> pool_core s' (new_pool p k) ->
     (forall x, ~ p <= x < p + create_size k -> rd s' x = rd s x) -> Q p s') ->
  wp (_ ← store (p + off_free_list) 0;
      _ ← ba_divide_memory_into_chunks p (p + off_data) (create_size k - off_data);
      mret p) Q s.
Proof.
  intros Hk Hk8 Hr E1 E2 E3 E4 E5 E6 HQ. pose proof (new_pool_geo s p k Hk Hk8 Hr) as HG.
  pose proof (core_hdr _ _ HG) as Hh. simpl in Hh. pose proof (create_size_bounds k Hk) as [[Hb Hu] Hpg].
  unfold sizeof_meta, MINIMUM_CHUNK_COUNT in Hb. pose proof (core_chunks_bound _ _ HG) as Hcb.
  rewrite new_pool_chunks in Hcb. simpl in Hcb. destruct Hr as (Hp & Hpp & Hpu & Hpm).
  pose proof (page_mod8 p Hpp). hdr_store. set (s1 := wr _ _ s).
  apply wp_bind, (wp_divide p k).
  - by apply (hdr_ok_only_mem s); [apply only_mem_wr, only_mem_refl|].
  - unfold s1. by rewrite rd_wr_ne by (offs; lia).
  - unfold s1. apply rd_wr_eq.
  - lia.
  - done.
  - offs; lia.
  - offs. zmod.
  - offs; lia.
  - offs; lia.
  - intros x Hx. apply Hpm. offs; lia.
  - right. lia.
  - unfold s1. rewrite rd_wr_ne by (offs; lia). lia.
  - unfold s1. rewrite rd_wr_ne, E6 by (offs; lia). lia.
  - intros s' Ho Hfr Enc Efl Hl.
    assert (only_mem s s') as Ho' by (apply (only_mem_trans s s1); [apply only_mem_wr, only_mem_refl|done]).
    assert (forall x, x <> p + off_n_chunks -> x <> p + off_free_list ->
      ~ p + off_data <= x < p + create_size k -> rd s' x = rd s x) as E.
    { intros x ???. rewrite Hfr by lia. unfold s1. by rewrite rd_wr_ne by lia. }
    apply wp_ret, HQ; [done| |intros x Hx; apply E; offs; lia].
    constructor; simpl; try (rewrite E by (offs; lia)).
    + apply (geo_mono s); [done|]. intros r x Hin Hx. rewrite (only_mem_mapped s) by done.
      by apply (core_region _ _ HG r).
    + apply chunks_in_NoDup. lia.
    + intros c Hc. by rewrite new_pool_chunks.
    + done.
    + done.
    + done.
    + by rewrite Efl.
    + rewrite new_pool_chunks, E4. simpl. lia.
    + done.
    + rewrite new_pool_chunks, Enc. unfold s1. rewrite rd_wr_ne, E6 by (offs; lia). simpl. lia.
Qed.

Lemma wp_umf_ba_create s size (Q : Z -> bstate OS -> Prop) :
  0 < size <= create_max -> let k := ALIGN_UP_SAFE size MEMORY_ALIGNMENT in
  (forall s', (forall x, mapped s' x = mapped s x) -> ctl s' = ctl s ->
     (forall x, mapped s x = true -> rd s' x = rd s x) -> Q 0 s') ->
  (forall p s', ba_created s k p s' -> Q p s') ->
  wp (umf_ba_create size) Q s.
Proof.
  intros Hs k HQ0 HQ. pose proof (create_chunk_bounds size Hs) as [Hkb Hk8]. fold k in Hkb, Hk8.
  unfold umf_ba_create. fold k. rewrite (proj2 (Z.eqb_neq k 0)) by lia.
  assert (0 < k < create_max + 8) as Hk by lia. pose proof (create_size_code k Hk) as Ecs.
  cbv zeta in Ecs |- *. rewrite Ecs.
  pose proof (create_size_bounds k Hk) as [[Hb Hu] Hpg]. unfold sizeof_meta, MINIMUM_CHUNK_COUNT in Hb.
  rewrite (proj2 (Z.eqb_neq (create_size k) 0)) by (offs; lia). unfold ba_os_alloc_annotated.
  apply wp_bind, wp_ba_os_alloc; [offs; lia|intros o _ Ho; rewrite Z.eqb_refl; by apply wp_ret, HQ0|].
  rewrite page_up_id by done. intros p o _ Hfm Hmo. pose proof Hfm as (Hp & Hpp & Hpu & Hf).
  rewrite (proj2 (Z.eqb_neq p 0)) by lia. set (s1 := set_os o s).
  assert (region_ok s1 (create_size k) p) as Hr.
  { split_and!; [done..|]. intros x Hx. unfold mapped. simpl. rewrite Hmo, (proj2 (within_true _ _ _) Hx). apply orb_true_r. }
  pose proof (core_hdr _ _ (new_pool_geo s1 p k Hk Hk8 Hr)) as Hh. simpl in Hh.
  hdr_store. hdr_store. hdr_store. hdr_store. hdr_store. hdr_store.
  change (wr _ _ (wr _ _ (wr _ _ (wr _ _ (wr _ _ (wr _ _ s1)))))) with (new_header p k s1).
  rewrite add64_small by (unfold is_u64; offs; lia). rewrite sub64_small by (unfold is_u64; offs; lia).
  pose proof (page_mod8 p Hpp). rewrite align_ptr_id by (offs; first [lia|zmod]).
  assert (forall x, ~ p <= x < p + create_size k -> rd (new_header p k s1) x = rd s x) as Ehdr.
  { intros x Hx. unfold new_header. by rewrite !rd_wr_ne by (offs; lia). }
  assert (forall x, mapped s x = true -> ~ p <= x < p + create_size k) as Hout.
  { intros x Hx Hin. by rewrite Hf in Hx. }
  apply wp_bind, wp_mutex_init.
  - intros o2 Ho2. rewrite Z.eqb_refl. apply wp_bind, wp_ba_os_free; [done|offs; lia|].
    rewrite page_up_id by done. intros s2 Hc2 Hm2 Hrd2. apply wp_ret.
    assert (forall x, mapped s2 x = mapped s x) as Hm2'.
    { intros x. rewrite Hm2. unfold mapped at 1. simpl. rewrite Ho2. unfold mapped at 1. simpl. rewrite Hmo.
      destruct (within p (create_size k) x) eqn:Ew; [|by rewrite orb_false_r, andb_true_r].
      apply within_true in Ew. by rewrite (Hf x Ew). }
    apply HQ0; [done|by rewrite Hc2|]. intros x Hx. rewrite Hrd2 by (by rewrite Hm2').
    by apply Ehdr, Hout.
  - intros o2 Ho2. rewrite (proj2 (Z.eqb_neq _ 0)) by (offs; lia). set (s2 := set_locks _ _).
    assert (forall x, mapped s2 x = mapped s1 x) as Hm2 by exact Ho2.
    pose proof (new_header_words p k s1) as (? & ? & ? & ? & ? & ?).
    apply wp_create_rest; try done.
    + destruct Hr as (_ & _ & _ & Hrm). split_and!; [done..|]. intros x Hx. by rewrite Hm2, Hrm.
    + intros s' Ho HP Hfr. apply HQ. constructor; [|done|..].
      * split; [done|]. unfold pool_lock. rewrite (only_mem_locks _ _ Ho). apply lookup_insert_eq.
      * intros x. rewrite (only_mem_mapped _ _ _ Ho), Hm2. apply Hmo.
      * intros x Hx. rewrite Hfr by auto. change (rd (new_header p k s1) x = rd s x). by apply Ehdr, Hout.
      * by rewrite (only_mem_ctl _ _ Ho).
Qed.
End Api.
