(* ===== verification/BaseGlobal.v ===== *)
(** * The global base allocator: src/base_alloc/base_alloc_global.c

    Small requests are served from five pools of chunks of 16 to 256 bytes,
    larger ones straight from the operating system.  A metadata word just
    before the returned pointer holds the total size of the allocation and
    the distance to its start. *)

From S2P Require Import Prelude Utils BaseMem BaseAlloc.
From stdpp Require Import list.
#[local] Open Scope Z_scope.

Definition ALLOC_METADATA_SIZE : Z := 8.

(** The conversion to a 32-bit [int]. *)
Definition to_int (x : Z) : Z := (x + 2 ^ 31) mod 2 ^ 32 - 2 ^ 31.

Section BaseGlobal.
Context `{Os OS}.

Definition set_BASE_ALLOC (b : base_alloc_t) (s : bstate OS) : bstate OS :=
  BState (b_os s) (b_mem s) (b_locks s) b (ba_is_initialized s) (ba_is_destroyed s).
Definition set_flags (init destroyed : bool) (s : bstate OS) : bstate OS :=
  BState (b_os s) (b_mem s) (b_locks s) (BASE_ALLOC s) init destroyed.

Definition set_ac (i : nat) (pool : Z) : M (bstate OS) unit :=
  modify (fun s => let b := BASE_ALLOC s in
    set_BASE_ALLOC (BaseAllocT (ac_sizes b) (<[i := pool]> (ac b)) (smallest_ac_size_log2 b)) s).

Definition get_ac (i : nat) : M (bstate OS) Z :=
  s ← get; of_option (ac (BASE_ALLOC s) !! i).

Definition get_ac_size (i : nat) : M (bstate OS) Z :=
  s ← get; of_option (ac_sizes (BASE_ALLOC s) !! i).

(** The class indices, [for (int i = 0; i < NUM_ALLOCATION_CLASSES; i++)]. *)
Definition classes : list nat := seq 0 (Z.to_nat NUM_ALLOCATION_CLASSES).

Fixpoint destroy_classes (idx : list nat) : M (bstate OS) unit :=
  match idx with
  | [] => mret tt
  | i :: idx =>
    pool ← get_ac i;
    _ ← (if negb (pool =? 0) then
           _ ← umf_ba_destroy pool;
           set_ac i 0
         else mret tt);
    destroy_classes idx
  end.

Definition umf_ba_destroy_global : M (bstate OS) unit :=
  _ ← modify (fun s => set_flags (ba_is_initialized s) true s);
  _ ← destroy_classes classes;
  modify (fun s => set_flags false (ba_is_destroyed s) s).

Definition umf_ba_global_is_destroyed : M (bstate OS) bool := gets ba_is_destroyed.

Fixpoint create_classes (idx : list nat) : M (bstate OS) unit :=
  match idx with
  | [] => mret tt
  | i :: idx =>
    ac_size ← get_ac_size i;
    _ ← c_assert (0 =? Z.land ac_size (sub64 ac_size 1));
    pool ← umf_ba_create ac_size;
    _ ← set_ac i pool;
    create_classes idx
  end.

Definition umf_ba_create_global : M (bstate OS) unit :=
  _ ← create_classes classes;
  smallestSize ← get_ac_size 0;
  _ ← modify (fun s => let b := BASE_ALLOC s in
        set_BASE_ALLOC (BaseAllocT (ac_sizes b) (ac b) (utils_msb64 smallestSize)) s);
  modify (fun s => set_flags (ba_is_initialized s) false s).

(** [utils_init_once(&ba_is_initialized, umf_ba_create_global)] *)
Definition init_once : M (bstate OS) unit :=
  init ← gets ba_is_initialized;
  if (init : bool) then mret tt else
  _ ← umf_ba_create_global;
  modify (fun s => set_flags true (ba_is_destroyed s) s).

Definition size_to_idx (size : Z) : M (bstate OS) Z :=
  ac_size0 ← get_ac_size 0;
  if size <=? ac_size0 then mret 0 else
  let isPowerOf2 := 0 =? Z.land size (sub64 size 1) in
  s ← get;
  let index := to_int (sub64 (add64 (utils_msb64 size) (Z.b2z (negb isPowerOf2)))
                             (smallest_ac_size_log2 (BASE_ALLOC s))) in
  _ ← c_assert (index >=? 0);
  mret index.

Definition add_metadata_and_align (ptr size alignment : Z) : M (bstate OS) Z :=
  _ ← c_assert (size <? 2 ^ 32);
  _ ← c_assert (alignment <? 2 ^ 32);
  _ ← c_assert (negb (ptr =? 0));
  let user_ptr :=
    if alignment <=? ALLOC_METADATA_SIZE then add64 ptr ALLOC_METADATA_SIZE
    else ALIGN_UP_SAFE (add64 ptr ALLOC_METADATA_SIZE) alignment in
  if negb (alignment <=? ALLOC_METADATA_SIZE) && (user_ptr =? 0) then mret 0 else
  let ptr_offset_from_original := sub64 user_ptr ptr in
  _ ← c_assert (ptr_offset_from_original <? 2 ^ 32);
  _ ← store (sub64 user_ptr ALLOC_METADATA_SIZE)
            (Z.lor size (shl64 ptr_offset_from_original 32));
  mret user_ptr.

(** The original pointer, [*total_size] and [*usable_size]. *)
Definition get_original_alloc (user_ptr : Z) : M (bstate OS) (Z * Z * Z) :=
  _ ← c_assert (negb (user_ptr =? 0));
  metadata ← load (sub64 user_ptr ALLOC_METADATA_SIZE);
  let stored_size := Z.land metadata (2 ^ 32 - 1) in
  let ptr_offset_from_original := Z.shiftr metadata 32 in
  mret (sub64 user_ptr ptr_offset_from_original, stored_size,
        sub64 stored_size ptr_offset_from_original).

Definition umf_ba_global_aligned_alloc (size alignment : Z) : M (bstate OS) Z :=
  _ ← init_once;
  if size =? 0 then mret 0 else
  if size >? SIZE_MAX - ALLOC_METADATA_SIZE then mret 0 else
  let size := size + ALLOC_METADATA_SIZE in
  if (alignment >? ALLOC_METADATA_SIZE) && (size >? SIZE_MAX - alignment) then mret 0 else
  let size := if alignment >? ALLOC_METADATA_SIZE then size + alignment else size in
  ac_index ← size_to_idx size;
  if ac_index >=? NUM_ALLOCATION_CLASSES then
    ptr ← ba_os_alloc size;
    if ptr =? 0 then mret 0 else add_metadata_and_align ptr size alignment
  else
  pool ← get_ac (Z.to_nat ac_index);
  if pool =? 0 then
    ptr ← ba_os_alloc size;
    if ptr =? 0 then mret 0 else add_metadata_and_align ptr size alignment
  else
  ptr ← umf_ba_alloc pool;
  add_metadata_and_align ptr size alignment.

Definition umf_ba_global_alloc (size : Z) : M (bstate OS) Z :=
  umf_ba_global_aligned_alloc size ALLOC_METADATA_SIZE.

Definition umf_ba_global_free (ptr : Z) : M (bstate OS) unit :=
  if ptr =? 0 then mret tt else
  destroyed ← gets ba_is_destroyed;
  if (destroyed : bool) then mret tt else
  '(ptr, total_size, _) ← get_original_alloc ptr;
  ac_index ← size_to_idx total_size;
  if ac_index >=? NUM_ALLOCATION_CLASSES then ba_os_free ptr total_size
  else
  pool ← get_ac (Z.to_nat ac_index);
  if pool =? 0 then ba_os_free ptr total_size
  else umf_ba_free pool ptr.

Definition umf_ba_global_malloc_usable_size (ptr : Z) : M (bstate OS) Z :=
  if ptr =? 0 then mret 0 else
  '(_, _, usable_size) ← get_original_alloc ptr;
  mret usable_size.
End BaseGlobal.
