(* ===== verification/BaseGlobalInv.v ===== *)
(** * The invariant of the global base allocator

    [heap_inv s Ps A]: [Ps] are the pools of the five allocation classes that
    exist, [A] maps every pointer handed out to its block.  The mappings of
    the pools and of the blocks taken from the operating system are disjoint,
    the chunks that are not free are exactly the blocks of their class, and
    the metadata word before each pointer describes its block.

    The second part is what each way to take or return a block does
    to it. *)

From S2P Require Import Prelude Utils BaseMem BaseAlloc BaseAllocInv BaseAllocApi BaseGlobal.
From stdpp Require Import list.
#[local] Open Scope Z_scope.

(** ** Allocation classes *)

(** The class of a total size: the least [i] with [size <= 16 * 2^i]. *)
Definition class_idx (size : Z) : Z := if size <=? 16 then 0 else Z.log2_up size - 4.

Lemma class_idx_bounds size : 16 < size < 2 ^ 64 -> 1 <= class_idx size <= 60.
Proof.
  intros Hs. unfold class_idx. rewrite (proj2 (Z.leb_gt _ _)) by lia.
  assert (4 < Z.log2_up size) by (apply Z.log2_up_lt_pow2; lia).
  assert (Z.log2_up size <= 64) by (apply Z.log2_up_le_pow2; lia). lia.
Qed.

Lemma class_idx_nonneg size : size < 2 ^ 64 -> 0 <= class_idx size.
Proof.
  intros Hs. destruct (Z.le_gt_cases size 16).
  - unfold class_idx. by rewrite (proj2 (Z.leb_le _ _)).
  - pose proof (class_idx_bounds size). lia.
Qed.

Lemma class_size size i k :
  size < 2 ^ 64 -> ALLOCATION_CLASSES !! i = Some k -> class_idx size = Z.of_nat i -> size <= k.
Proof.
  intros Hs Hk Hi. assert (k = 2 ^ (4 + Z.of_nat i)) as ->.
  { do 5 (destruct i as [|i]; [by injection Hk as <-|]). done. }
  unfold class_idx in Hi. destruct (size <=? 16) eqn:E.
  - apply Z.leb_le in E. replace i with 0%nat by lia. simpl. lia.
  - apply Z.leb_gt in E. apply Z.log2_up_le_pow2; lia.
Qed.

Lemma msb_log2_up size :
  1 < size < 2 ^ 64 ->
  utils_msb64 size + Z.b2z (negb (0 =? Z.land size (sub64 size 1))) = Z.log2_up size.
Proof.
  intros Hs. unfold utils_msb64. destruct (0 =? Z.land size (sub64 size 1)) eqn:E.
  - apply Z.eqb_eq in E. destruct (pow2_test size) as (n & Hn & ->); [unfold is_u64, two64; lia|lia|done|].
    rewrite Z.log2_pow2, Z.log2_up_pow2 by lia. simpl. lia.
  - simpl. pose proof (Z.le_log2_up_succ_log2 size). pose proof (Z.le_log2_log2_up size).
    assert (Z.log2 size <> Z.log2_up size); [|lia].
    intros Heq. apply Z.log2_log2_up_exact in Heq as [b Hb]; [|lia].
    assert (0 <= b < 64).
    { split; [destruct (Z.neg_nonneg_cases b); [rewrite Z.pow_neg_r in Hb; lia|done]|].
      apply (Z.pow_lt_mono_r_iff 2); lia. }
    assert (pow2 size) as Hp by (exists b; done).
    rewrite land_pow2_mask, Z.mod_same in E by (done || lia). done.
Qed.

(** ** Metadata words *)

Definition meta_word (total off : Z) : Z := Z.lor total (shl64 off 32).

Lemma meta_word_eq total off :
  0 <= total < 2 ^ 32 -> 0 <= off < 2 ^ 32 -> meta_word total off = total + off * 2 ^ 32.
Proof.
  intros Ht Ho. unfold meta_word, shl64. rewrite Z.shiftl_mul_pow2 by lia.
  rewrite wrap64_small by (unfold is_u64, two64; lia).
  rewrite <- (Z.lxor_lor total), Z.add_nocarry_lxor; [done|..].
  all: apply Z.bits_inj'; intros i Hi; rewrite Z.land_spec, Z.bits_0.
  all: destruct (Z.lt_ge_cases i 32).
  all: try (rewrite Z.mul_pow2_bits_low by lia; apply andb_false_r).
  all: rewrite (Z.testbit_eqb total) by lia; rewrite Z.div_small, Z.mod_0_l; [done|lia|].
  all: split; [lia|]; apply Z.lt_le_trans with (2 ^ 32); [lia|apply Z.pow_le_mono_r; lia].
Qed.

Lemma meta_word_decode total off :
  0 <= total < 2 ^ 32 -> 0 <= off < 2 ^ 32 ->
  Z.land (meta_word total off) (2 ^ 32 - 1) = total /\ Z.shiftr (meta_word total off) 32 = off.
Proof.
  intros Ht Ho. rewrite meta_word_eq by done. split.
  - replace (2 ^ 32 - 1) with (Z.ones 32) by done. rewrite Z.land_ones by lia.
    rewrite Z.mod_add, Z.mod_small by lia. done.
  - rewrite Z.shiftr_div_pow2, Z.div_add, Z.div_small by lia. lia.
Qed.

(** What a request needs: the metadata word and room to align. *)
Definition total_size (size alignment : Z) : Z :=
  size + 8 + (if alignment >? 8 then alignment else 0).

Definition user_ptr (ptr alignment : Z) : Z :=
  if alignment <=? 8 then ptr + 8 else ALIGN_UP (ptr + 8) alignment.

Definition align_ok (alignment : Z) : Prop := pow2 alignment /\ alignment < 2 ^ 32.

Lemma pow2_divide a b : pow2 a -> pow2 b -> a <= b -> (a | b).
Proof.
  intros (n & Hn & ->) (m & Hm & ->) Hle. apply Z.pow_le_mono_r_iff in Hle; [|lia|lia].
  exists (2 ^ (m - n)). rewrite <- Z.pow_add_r by lia. f_equal. lia.
Qed.

Lemma user_ptr_bounds ptr size al :
  0 < ptr -> ptr mod 8 = 0 -> 0 < size -> align_ok al -> ptr + total_size size al < two64 ->
  let u := user_ptr ptr al in
  ptr + 8 <= u /\ u + size <= ptr + total_size size al /\ u mod 8 = 0 /\ u mod al = 0.
Proof.
  intros Hp Hp8 Hs [Ha Ha32] Hu. unfold user_ptr, total_size in *. pose proof (pow2_pos _ Ha).
  assert (pow2 8) as H8 by (exists 3; split; [lia|done]).
  destruct (al <=? 8) eqn:E.
  - apply Z.leb_le in E. assert ((al >? 8) = false) as E2 by (rewrite Z.gtb_ltb; apply Z.ltb_ge; lia). rewrite E2 in *.
    assert ((ptr + 8) mod 8 = 0) as Hm by zmod. split_and!; [lia|lia|done|].
    apply Z.mod_divide; [lia|]. apply Z.divide_trans with 8; [by apply pow2_divide|].
    apply Z.mod_divide; [lia|done].
  - apply Z.leb_gt in E. assert ((al >? 8) = true) as E2 by (rewrite Z.gtb_ltb; apply Z.ltb_lt; lia). rewrite E2 in *.
    pose proof (align_up_bounds (ptr + 8) al Ha) as [Hb Hm]; [lia|lia|]. split_and!; [lia|lia| |done].
    apply Z.mod_divide; [lia|]. apply Z.divide_trans with al; [apply pow2_divide; [done..|lia]|].
    apply Z.mod_divide; [lia|done].
Qed.

Section Global.
Context `{HL : OsLaws OS}.
Implicit Types (s : bstate OS).

(** The static variable [BASE_ALLOC] once it is initialized, [acs] being the
    addresses of the pools. *)
Definition static_ok s (acs : list Z) : Prop :=
  BASE_ALLOC s = BaseAllocT ALLOCATION_CLASSES acs 4.

Lemma wp_size_to_idx s acs size (Q : Z -> bstate OS -> Prop) :
  static_ok s acs -> 0 < size < 2 ^ 64 -> Q (class_idx size) s -> wp (size_to_idx size) Q s.
Proof.
  intros Hst Hs HQ. unfold size_to_idx, get_ac_size. apply wp_bind. wp_step.
  rewrite Hst. wp_step; [reflexivity|]. unfold class_idx in HQ. destruct (size <=? 16) eqn:E; [by wp_step|].
  apply Z.leb_gt in E. wp_step. assert (smallest_ac_size_log2 (BASE_ALLOC s) = 4) as Es by (by rewrite Hst).
  cbv zeta. rewrite !Es.
  pose proof (msb_log2_up size ltac:(lia)) as Hl. assert (1 <= class_idx size <= 60) as Hc by (apply class_idx_bounds; lia).
  unfold class_idx in Hc. rewrite (proj2 (Z.leb_gt _ _)) in Hc by lia.
  assert (0 <= utils_msb64 size) by apply Z.log2_nonneg.
  assert (0 <= Z.b2z (negb (0 =? Z.land size (sub64 size 1))) <= 1) by (destruct (negb _); simpl; lia).
  rewrite add64_small by (unfold is_u64, two64; lia). rewrite Hl.
  rewrite sub64_small by (unfold is_u64, two64; lia).
  assert (to_int (Z.log2_up size - 4) = Z.log2_up size - 4) as ->.
  { unfold to_int. rewrite Z.mod_small by lia. lia. }
  wp_step; [rewrite Z.geb_leb; apply Z.leb_le; lia|]. by wp_step.
Qed.

Lemma wp_add_metadata s ptr size al (Q : Z -> bstate OS -> Prop) :
  0 < ptr -> ptr mod 8 = 0 -> 0 < size -> align_ok al -> total_size size al < 2 ^ 32 ->
  ptr + total_size size al < two64 ->
  (forall x, ptr <= x < ptr + total_size size al -> mapped s x = true) ->
  let u := user_ptr ptr al in
  Q u (wr (u - 8) (meta_word (total_size size al) (u - ptr)) s) ->
  wp (add_metadata_and_align ptr (total_size size al) al) Q s.
Proof.
  intros Hp Hp8 Hs Hal Ht Hu Hm u HQ. pose proof (user_ptr_bounds ptr size al Hp Hp8 Hs Hal Hu) as (H1' & H2' & H3' & _).
  fold u in H1', H2', H3'. destruct Hal as [Ha Ha32]. pose proof (pow2_pos _ Ha).
  unfold add_metadata_and_align.
  wp_step; [by apply Z.ltb_lt|]. wp_step; [by apply Z.ltb_lt|].
  wp_step; [rewrite (proj2 (Z.eqb_neq ptr 0)) by lia; done|].
  unfold ALLOC_METADATA_SIZE. assert (al > 8 -> ptr + 8 + al - 1 < two64) as Hal.
  { intros. unfold total_size in Hu. rewrite Z.gtb_ltb, (proj2 (Z.ltb_lt _ _)) in Hu by lia. lia. }
  rewrite add64_small by (unfold is_u64, total_size in *; destruct (al >? 8); lia).
  assert ((if al <=? 8 then ptr + 8 else ALIGN_UP_SAFE (ptr + 8) al) = u) as ->.
  { unfold u, user_ptr. destruct (al <=? 8) eqn:E; [done|]. apply Z.leb_gt in E.
    apply align_up_safe_fits; [done|unfold is_u64; lia|lia]. }
  rewrite (proj2 (Z.eqb_neq u 0)), andb_false_r by lia.
  rewrite !sub64_small by (unfold is_u64; lia).
  wp_step; [apply Z.ltb_lt; lia|]. apply wp_bind, wp_store; [apply Hm; lia|zmod|]. by wp_step.
Qed.

Lemma wp_get_original s u orig total (Q : Z * Z * Z -> bstate OS -> Prop) :
  0 < orig -> orig + 8 <= u -> u <= orig + total -> total < 2 ^ 32 -> u < two64 -> u mod 8 = 0 ->
  mapped s (u - 8) = true -> rd s (u - 8) = meta_word total (u - orig) ->
  Q (orig, total, total - (u - orig)) s -> wp (get_original_alloc u) Q s.
Proof.
  intros Ho Hu Hu' Ht Hu64 Hu8 Hm Hw HQ. unfold get_original_alloc, ALLOC_METADATA_SIZE.
  wp_step; [rewrite (proj2 (Z.eqb_neq u 0)) by lia; done|].
  rewrite (sub64_small u 8) by (unfold is_u64; lia). apply wp_bind, wp_load_word; [done|zmod|]. rewrite Hw.
  destruct (meta_word_decode total (u - orig)) as [E1 E2]; [lia|lia|]. rewrite E1, E2.
  rewrite !sub64_small by (unfold is_u64, two64 in *; lia). replace (u - (u - orig)) with orig by lia. by wp_step.
Qed.
End Global.

(** The block behind a pointer: its start, its total and requested sizes, and
    the class it comes from ([None]: the operating system). *)
Record gblock := GBlock {
  gb_orig : Z;
  gb_total : Z;
  gb_req : Z;
  gb_class : option nat;
}.

(** Who owns a mapped byte: a pool or a block of its own. *)
Inductive owner := OPool (i : nat) | OOs (u : Z).

(** The addresses the rest of the process has mapped. *)
Class Outside := outside : Z -> Prop.

Section Heap.
Context `{HL : OsLaws OS} `{HO : Outside}.
Implicit Types (s : bstate OS) (Ps : list (option ba_pool)) (A : gmap Z gblock).

Definition owns Ps A (o : owner) (x : Z) : Prop :=
  match o with
  | OPool i => exists P r, Ps !! i = Some (Some P) /\ r ∈ bp_regions P /\ r <= x < r + bp_size P
  | OOs u => exists b, A !! u = Some b /\ gb_class b = None /\ gb_orig b <= x < gb_orig b + page_up (gb_total b)
  end.

Definition owner_of (u : Z) (b : gblock) : owner :=
  match gb_class b with Some i => OPool i | None => OOs u end.

Record block_ok s Ps (u : Z) (b : gblock) : Prop := {
  bk_orig : 0 < gb_orig b /\ gb_orig b + 8 <= u;
  bk_room : 0 < gb_req b /\ u + gb_req b <= gb_orig b + gb_total b;
  bk_total : gb_total b < 2 ^ 32 /\ gb_orig b + gb_total b < two64;
  bk_align : u mod 8 = 0;
  bk_meta : rd s (u - 8) = meta_word (gb_total b) (u - gb_orig b);
  bk_class : match gb_class b with
    | Some i => class_idx (gb_total b) = Z.of_nat i /\
        exists P, Ps !! i = Some (Some P) /\ gb_orig b ∈ bp_live P
    | None => gb_orig b mod os_page_size = 0 /\
        (NUM_ALLOCATION_CLASSES <= class_idx (gb_total b) \/
         Ps !! Z.to_nat (class_idx (gb_total b)) = Some None)
    end;
}.

Record heap_inv s Ps A : Prop := {
  hi_len : length Ps = length ALLOCATION_CLASSES;
  hi_pools : forall i P, Ps !! i = Some (Some P) ->
    pool_rep s P /\ ALLOCATION_CLASSES !! i = Some (bp_chunk P);
  hi_mapped : forall o x, owns Ps A o x -> mapped s x = true;
  hi_disj : forall o o' x, owns Ps A o x -> owns Ps A o' x -> o = o';
  hi_all : forall x, mapped s x = true -> outside x \/ exists o, owns Ps A o x;
  hi_outside : forall x, outside x -> mapped s x = true /\ forall o, ~ owns Ps A o x;
  hi_block : forall u b, A !! u = Some b -> block_ok s Ps u b;
  hi_inj : forall u v b c, A !! u = Some b -> A !! v = Some c -> gb_orig b = gb_orig c -> u = v;
  hi_live : forall i P c, Ps !! i = Some (Some P) -> c ∈ bp_live P ->
    exists u b, A !! u = Some b /\ gb_class b = Some i /\ gb_orig b = c;
}.

(** ** Words of pools and bytes of blocks *)

Lemma word_in_region s P x :
  pool_core s P -> pool_word P x -> exists r, r ∈ bp_regions P /\ r <= x < r + bp_size P.
Proof.
  intros HP. pose proof (pr_size _ _ HP). pose proof (pr_chunk _ _ HP). intros [Hh|[Hn|Hf]].
  - exists (bp_addr P). split; [apply core_addr|]. offs. lia.
  - exists x. split; [by right|]. offs. lia.
  - apply (pr_free _ _ HP), (core_chunk_bounds s P HP) in Hf as (r & Hr & ? & ? & _).
    exists r. split; [done|]. offs. lia.
Qed.

Lemma live_not_word s P c x :
  pool_core s P -> c ∈ bp_live P -> c <= x < c + bp_chunk P -> ~ pool_word P x.
Proof.
  intros HP [Hc Hcf]%elem_of_live Hx [Hh|[Hn|Hf]].
  - destruct (core_chunk_off s P HP c _ Hc (core_addr P)) as [|[_ Ho]]; [lia|]. specialize (Ho eq_refl). lia.
  - assert (x ∈ bp_regions P) as Hr by (by right).
    destruct (core_chunk_off s P HP c x Hc Hr) as [|[Ho _]]; offs; lia.
  - pose proof (pr_free _ _ HP x Hf) as Hxc. assert (c <> x) as Hne by (by intros ->).
    pose proof (pr_chunk _ _ HP). pose proof (core_chunks_apart s P HP c x Hc Hxc Hne) as Hap.
    unfold apart2 in Hap. lia.
Qed.

Section Inv.
Context (s : bstate OS) (Ps : list (option ba_pool)) (A : gmap Z gblock) (HI : heap_inv s Ps A).

Lemma inv_core i P : Ps !! i = Some (Some P) -> pool_core s P.
Proof. intros E. by apply (hi_pools _ _ _ HI) in E as [[? _] _]. Qed.

Lemma inv_word i P x : Ps !! i = Some (Some P) -> pool_word P x -> owns Ps A (OPool i) x.
Proof.
  intros E Hw. destruct (word_in_region s P x (inv_core i P E) Hw) as (r & Hr & Hx).
  by exists P, r.
Qed.

Lemma inv_block_pool u b i P :
  A !! u = Some b -> gb_class b = Some i -> Ps !! i = Some (Some P) ->
  gb_orig b ∈ bp_live P /\ gb_total b <= bp_chunk P.
Proof.
  intros Hu Hc HP. pose proof (hi_block _ _ _ HI u b Hu) as Hb. pose proof (bk_class _ _ _ _ Hb) as Hk.
  rewrite Hc in Hk. destruct Hk as [Hidx (P' & HP' & Hl)]. simplify_eq. split; [done|].
  apply (hi_pools _ _ _ HI) in HP as [_ Hk]. apply (class_size _ i); [|done|done].
  pose proof (bk_total _ _ _ _ Hb). lia.
Qed.

Lemma inv_block_owner u b x :
  A !! u = Some b -> gb_orig b <= x < gb_orig b + gb_total b -> owns Ps A (owner_of u b) x.
Proof.
  intros Hu Hx. pose proof (hi_block _ _ _ HI u b Hu) as Hb. pose proof (bk_class _ _ _ _ Hb) as Hk.
  unfold owner_of. destruct (gb_class b) as [i|] eqn:Hc.
  - destruct Hk as [_ (P & HP & _)]. destruct (inv_block_pool u b i P Hu Hc HP) as [[Hl _]%elem_of_live Ht].
    destruct (core_chunk_bounds s P (inv_core i P HP) _ Hl) as (r & Hr & Hlo & Hhi & _).
    exists P, r. split_and!; [done|done|offs; lia..].
  - exists b. split_and!; [done|done|lia|]. pose proof (page_up_bounds (gb_total b)). lia.
Qed.

Lemma inv_block_mapped u b x :
  A !! u = Some b -> gb_orig b <= x < gb_orig b + gb_total b -> mapped s x = true.
Proof. intros Hu Hx. eapply (hi_mapped _ _ _ HI), inv_block_owner; done. Qed.

Lemma inv_block_word u b x i P :
  A !! u = Some b -> gb_orig b <= x < gb_orig b + gb_total b -> Ps !! i = Some (Some P) -> ~ pool_word P x.
Proof.
  intros Hu Hx HP Hw. pose proof (inv_block_owner u b x Hu Hx) as Ho.
  pose proof (hi_disj _ _ _ HI _ _ _ Ho (inv_word i P x HP Hw)) as E.
  unfold owner_of in E. destruct (gb_class b) as [j|] eqn:Hc; simplify_eq.
  destruct (inv_block_pool u b i P Hu Hc HP) as [Hl Ht].
  eapply (live_not_word s P); [by apply (inv_core i)|exact Hl| |exact Hw]. lia.
Qed.

(** Blocks do not overlap. *)
Lemma inv_blocks_disjoint u v b c x :
  A !! u = Some b -> A !! v = Some c -> u <> v ->
  gb_orig b <= x < gb_orig b + gb_total b -> ~ gb_orig c <= x < gb_orig c + gb_total c.
Proof.
  intros Hu Hv Hne Hx Hx'. pose proof (inv_block_owner u b x Hu Hx) as Hob.
  pose proof (inv_block_owner v c x Hv Hx') as Hoc.
  pose proof (hi_disj _ _ _ HI _ _ _ Hob Hoc) as E. unfold owner_of in E.
  destruct (gb_class b) as [i|] eqn:Hb, (gb_class c) as [j|] eqn:Hc; simplify_eq.
  assert (exists P, Ps !! j = Some (Some P)) as [P' HP'].
  { pose proof (bk_class _ _ _ _ (hi_block _ _ _ HI v c Hv)) as Hk. rewrite Hc in Hk.
    destruct Hk as [_ (P' & ? & _)]. eauto. }
  destruct (inv_block_pool u b j P' Hu Hb HP') as [[Hl _]%elem_of_live Ht].
  destruct (inv_block_pool v c j P' Hv Hc HP') as [[Hl' _]%elem_of_live Ht'].
  assert (gb_orig b <> gb_orig c) as Hno by (intros Eo; by apply Hne, (hi_inj _ _ _ HI u v b c)).
  pose proof (core_chunks_apart s P' (inv_core j P' HP') _ _ Hl Hl' Hno) as Hap.
  unfold apart2 in Hap. lia.
Qed.

Lemma inv_meta_mapped u b : A !! u = Some b -> mapped s (u - 8) = true.
Proof.
  intros Hu. pose proof (hi_block _ _ _ HI u b Hu) as Hb.
  apply (inv_block_mapped u b); [done|]. pose proof (bk_orig _ _ _ _ Hb). pose proof (bk_room _ _ _ _ Hb). lia.
Qed.

Lemma inv_pool_keep_lock s' i P :
  Ps !! i = Some (Some P) ->
  b_locks s' !! (bp_addr P + off_free_lock) = b_locks s !! (bp_addr P + off_free_lock) ->
  (forall x, owns Ps A (OPool i) x -> mapped s' x = true) ->
  (forall x, mapped s x = true -> pool_word P x -> rd s' x = rd s x) -> pool_rep s' P.
Proof.
  intros HP Hl Hm Hr. apply (rep_frame s); [by apply (hi_pools _ _ _ HI i)|..|done].
  - intros x Hw. apply Hr; [|done]. by eapply (hi_mapped _ _ _ HI), (inv_word i).
  - intros r x Hin Hx. apply Hm. by exists P, r.
Qed.

Lemma inv_pool_keep s' i P :
  Ps !! i = Some (Some P) -> b_locks s' = b_locks s ->
  (forall x, owns Ps A (OPool i) x -> mapped s' x = true) ->
  (forall x, mapped s x = true -> pool_word P x -> rd s' x = rd s x) -> pool_rep s' P.
Proof. intros HP Hl. apply inv_pool_keep_lock; [done|by rewrite Hl]. Qed.
End Inv.

Lemma block_keep s Ps u b s' Ps' :
  block_ok s Ps u b -> rd s' (u - 8) = rd s (u - 8) ->
  (forall i P, gb_class b = Some i -> Ps !! i = Some (Some P) -> gb_orig b ∈ bp_live P ->
     exists P', Ps' !! i = Some (Some P') /\ gb_orig b ∈ bp_live P') ->
  (forall i, Ps !! i = Some None -> Ps' !! i = Some None) -> block_ok s' Ps' u b.
Proof.
  intros Hb Er Hc Hn. destruct Hb. constructor; try done; [by rewrite Er|].
  destruct (gb_class b) as [i|].
  - destruct bk_class0 as [? (P & HP & Hl)]. split; [done|]. by apply (Hc i P).
  - destruct bk_class0 as [? [?|?]]; split; auto.
Qed.

(** A pointer into memory that was not mapped is not in use. *)
Lemma inv_fresh s Ps A u : heap_inv s Ps A -> mapped s (u - 8) = false -> A !! u = None.
Proof.
  intros HI Hm. destruct (A !! u) as [b|] eqn:E; [|done]. by rewrite (inv_meta_mapped s Ps A HI u b E) in Hm.
Qed.

Lemma owns_insert_os Ps A u b o x :
  A !! u = None -> gb_class b = None -> owns Ps (<[u := b]> A) o x ->
  owns Ps A o x \/ o = OOs u /\ gb_orig b <= x < gb_orig b + page_up (gb_total b).
Proof.
  intros Hu Hc. destruct o as [i|v]; [by left|]. intros (c & Hv & Hcc & Hx).
  destruct (decide (u = v)) as [->|Hne].
  - rewrite lookup_insert_eq in Hv. simplify_eq. by right.
  - rewrite lookup_insert_ne in Hv by done. left. by exists c.
Qed.

Lemma owns_insert_mono Ps A u b o x :
  A !! u = None -> owns Ps A o x -> owns Ps (<[u := b]> A) o x.
Proof.
  intros Hu. destruct o as [i|v]; [done|]. intros (c & Hv & Hc). exists c. split; [|done].
  rewrite lookup_insert_ne; [done|]. intros ->. congruence.
Qed.

(** ** A block from the operating system *)
Lemma heap_add_os s Ps A u b s' :
  heap_inv s Ps A -> gb_class b = None -> fresh_map s (gb_orig b) (page_up (gb_total b)) ->
  (forall x, mapped s' x = mapped s x || within (gb_orig b) (page_up (gb_total b)) x) ->
  (forall x, mapped s x = true -> rd s' x = rd s x) -> b_locks s' = b_locks s ->
  block_ok s' Ps u b -> A !! u = None /\ heap_inv s' Ps (<[u := b]> A).
Proof.
  intros HI Hc (_ & _ & _ & Hf) Hm Hr Hl Hb. pose proof (page_up_bounds (gb_total b)) as Hpu.
  assert (A !! u = None) as Hu.
  { apply (inv_fresh s Ps); [done|]. apply Hf. pose proof (bk_orig _ _ _ _ Hb). pose proof (bk_room _ _ _ _ Hb). lia. }
  assert (forall o x, owns Ps A o x -> ~ gb_orig b <= x < gb_orig b + page_up (gb_total b)) as Hd.
  { intros o x Ho Hx. pose proof (hi_mapped _ _ _ HI o x Ho) as Hmx. by rewrite Hf in Hmx. }
  assert (forall x, mapped s x = true -> mapped s' x = true) as Hmono by (intros x Hx; by rewrite Hm, Hx).
  split; [done|]. constructor.
  - apply (hi_len _ _ _ HI).
  - intros i P HP. split; [|by apply (hi_pools _ _ _ HI i)].
    apply (inv_pool_keep s Ps A HI s' i); [done|done| |auto]. intros x Ho. by apply Hmono, (hi_mapped _ _ _ HI _ _ Ho).
  - intros o x [Ho|[-> Hx]]%owns_insert_os; [|rewrite Hm, (proj2 (within_true _ _ _) Hx); apply orb_true_r|done..].
    by apply Hmono, (hi_mapped _ _ _ HI o).
  - intros o o' x Ho Ho'. apply owns_insert_os in Ho; [|done..]. apply owns_insert_os in Ho'; [|done..].
    destruct Ho as [Ho|[-> Hx]], Ho' as [Ho'|[-> Hx']]; [by apply (hi_disj _ _ _ HI _ _ x)| | |done].
    + by apply Hd in Ho.
    + by apply Hd in Ho'.
  - intros x Hx. rewrite Hm in Hx. apply orb_prop in Hx as [Hx|Hx].
    + destruct (hi_all _ _ _ HI x Hx) as [|[o Ho]]; [by left|]. right. exists o. by apply owns_insert_mono.
    + right. exists (OOs u), b. rewrite lookup_insert_eq. apply within_true in Hx. done.
  - intros x Ho. destruct (hi_outside _ _ _ HI x Ho) as [Hmx Hno]. split; [auto|].
    intros o [Hox|[_ Hx]]%owns_insert_os; [by apply (Hno o)|by rewrite Hf in Hmx|done..].
  - intros v c Hv. destruct (decide (u = v)) as [->|Hne]; [rewrite lookup_insert_eq in Hv; by simplify_eq|].
    rewrite lookup_insert_ne in Hv by done. apply (block_keep s Ps); [by apply (hi_block _ _ _ HI)| |eauto|done].
    apply Hr. by apply (inv_meta_mapped s Ps A HI v c).
  - assert (forall v c, A !! v = Some c -> gb_orig c <> gb_orig b) as Hno.
    { intros v c Hv Eo. pose proof (hi_block _ _ _ HI v c Hv) as Hk.
      pose proof (bk_orig _ _ _ _ Hk). pose proof (bk_room _ _ _ _ Hk).
      assert (mapped s (gb_orig c) = true) as Hmx by (apply (inv_block_mapped s Ps A HI v c); [done|lia]).
      pose proof (bk_orig _ _ _ _ Hb). pose proof (bk_room _ _ _ _ Hb). rewrite Hf in Hmx by lia. done. }
    intros v w c d Hv Hw Eo. apply lookup_insert_Some in Hv as [[<- <-]|[? Hv]], Hw as [[<- <-]|[? Hw]].
    + done.
    + exfalso. by apply (Hno w d Hw).
    + exfalso. by apply (Hno v c Hv).
    + by apply (hi_inj _ _ _ HI v w c d).
  - intros i P c HP Hlive. destruct (hi_live _ _ _ HI i P c HP Hlive) as (v & d & Hv & ? & ?).
    exists v, d. split; [|done]. rewrite lookup_insert_ne; [done|]. by intros ->; simplify_eq.
Qed.

(** ** A block from a pool *)

Lemma owns_extend s Ps A i P s1 P' x :
  Ps !! i = Some (Some P) -> extends s P s1 P' ->
  (exists r, r ∈ bp_regions P' /\ r <= x < r + bp_size P') ->
  owns Ps A (OPool i) x \/ mapped s x = false /\ mapped s1 x = true.
Proof.
  intros HP (Ea & Es & _ & Hn) (r & Hr & Hx). rewrite Es in Hx. unfold bp_regions in Hr. rewrite Ea in Hr.
  destruct Hn as [[En _]|(a & En & (_ & _ & _ & Hf) & Hm)]; rewrite En in Hr; [left; by exists P, r|].
  destruct (decide (r = a)) as [->|Hne].
  - right. split; [by apply Hf|]. rewrite Hm, (proj2 (within_true _ _ _) Hx). apply orb_true_r.
  - left. exists P, r. split_and!; [done| |lia..]. unfold bp_regions.
    apply elem_of_cons in Hr as [->|Hr]; [left|right]. by apply elem_of_cons in Hr as [?|].
Qed.

Lemma extends_mapped s P s1 P' x : extends s P s1 P' -> mapped s x = true -> mapped s1 x = true.
Proof. intros (_ & _ & _ & [[_ Hm]|(a & _ & _ & Hm)]) Hx; by rewrite Hm, ?Hx. Qed.

Lemma owns_insert_chunk s Ps A i P s1 P' u b o x :
  Ps !! i = Some (Some P) -> extends s P s1 P' -> gb_class b = Some i -> A !! u = None ->
  owns (<[i := Some P']> Ps) (<[u := b]> A) o x ->
  owns Ps A o x \/ o = OPool i /\ mapped s x = false /\ mapped s1 x = true.
Proof.
  intros HP Hext Hc Hu. destruct o as [j|v].
  - intros (R & r & HR & Hr & Hx). destruct (decide (i = j)) as [<-|Hne].
    + rewrite list_lookup_insert_eq in HR by (by eapply lookup_lt_Some). simplify_eq.
      destruct (owns_extend s Ps A i P s1 R x HP Hext) as [|[]]; [by exists r|by left|by right].
    + rewrite list_lookup_insert_ne in HR by done. left. by exists R, r.
  - intros (c & Hv & Hcc & Hx). left. exists c.
    apply lookup_insert_Some in Hv as [[_ <-]|[_ Hv]]; [congruence|done].
Qed.

(** The bytes of the new chunk that were mapped before belonged to the pool. *)
Lemma chunk_owned s Ps A i P c s1 P' x :
  Ps !! i = Some (Some P) -> ba_allocated s P c s1 P' -> c <= x < c + bp_chunk P ->
  mapped s x = true -> owns Ps A (OPool i) x.
Proof.
  intros HP Hal Hc Hm. pose proof (aa_ext _ _ _ _ _ Hal) as Hext. pose proof Hext as (_ & _ & Ek & _).
  destruct (aa_rep _ _ _ _ _ Hal) as [HP' _].
  destruct (owns_extend s Ps A i P s1 P' x HP Hext) as [|[Hn _]]; [|done|by rewrite Hm in Hn].
  destruct (core_chunk_bounds _ _ HP' c (aa_chunk _ _ _ _ _ Hal)) as (r & Hr & ? & ? & _).
  exists r. split; [done|]. rewrite Ek in *. offs. lia.
Qed.

(** It is the block of no pointer. *)
Lemma chunk_unused s Ps A i P c s1 P' u b x :
  heap_inv s Ps A -> Ps !! i = Some (Some P) -> ba_allocated s P c s1 P' -> A !! u = Some b ->
  c <= x < c + bp_chunk P -> ~ gb_orig b <= x < gb_orig b + gb_total b.
Proof.
  intros HI HP Hal Hu Hc Hx.
  pose proof (inv_block_owner s Ps A HI u b _ Hu Hx) as Hob.
  pose proof (inv_block_mapped s Ps A HI u b x Hu Hx) as Hm.
  pose proof (chunk_owned s Ps A i P c s1 P' x HP Hal Hc Hm) as Hoi.
  pose proof (hi_disj _ _ _ HI _ _ _ Hob Hoi) as E. unfold owner_of in E.
  destruct (gb_class b) as [j|] eqn:Hcl; simplify_eq.
  destruct (inv_block_pool s Ps A HI u b i P Hu Hcl HP) as [Hl Ht].
  apply (aa_fresh _ _ _ _ _ Hal). assert (gb_orig b = c) as <-; [|done].
  destruct (aa_rep _ _ _ _ _ Hal) as [HP' _]. pose proof (aa_ext _ _ _ _ _ Hal) as (_ & _ & Ek & _).
  assert (gb_orig b ∈ bp_chunks P') as Hbc.
  { assert (gb_orig b ∈ bp_live P') as [? _]%elem_of_live; [|done]. rewrite (aa_live _ _ _ _ _ Hal). by right. }
  destruct (decide (gb_orig b = c)) as [|Hne]; [done|].
  pose proof (core_chunks_apart _ _ HP' _ _ Hbc (aa_chunk _ _ _ _ _ Hal) Hne) as Hap.
  unfold apart2 in Hap. rewrite Ek in Hap. lia.
Qed.

Lemma chunk_pointer_fresh s Ps A i P c s1 P' u :
  heap_inv s Ps A -> Ps !! i = Some (Some P) -> ba_allocated s P c s1 P' ->
  c <= u - 8 < c + bp_chunk P -> A !! u = None.
Proof.
  intros HI HP Hal Hc. destruct (A !! u) as [b|] eqn:Hu; [exfalso|done].
  pose proof (hi_block _ _ _ HI u b Hu) as Hb. pose proof (bk_orig _ _ _ _ Hb). pose proof (bk_room _ _ _ _ Hb).
  apply (chunk_unused s Ps A i P c s1 P' u b (u - 8)); [done..|lia].
Qed.

Lemma owns_insert_pool_mono s Ps A i P s1 P' o x :
  Ps !! i = Some (Some P) -> extends s P s1 P' -> owns Ps A o x -> owns (<[i := Some P']> Ps) A o x.
Proof.
  intros HP (Ea & Es & _ & Hn). destruct o as [j|v]; [|done]. intros (R & r & HR & Hr & Hx).
  destruct (decide (i = j)) as [<-|Hne].
  - simplify_eq. exists P', r. rewrite list_lookup_insert_eq, Es by (by eapply lookup_lt_Some).
    split_and!; [done| |lia..]. unfold bp_regions in *. rewrite Ea.
    destruct Hn as [[-> _]|(a & -> & _)]; [done|].
    apply elem_of_cons in Hr as [->|Hr]; [left|right; by right].
  - exists R, r. by rewrite list_lookup_insert_ne.
Qed.

(** The bytes mapped after the step have an owner. *)
Lemma owns_chunk_all s Ps A i P s1 P' u b x :
  heap_inv s Ps A -> Ps !! i = Some (Some P) -> extends s P s1 P' -> A !! u = None ->
  mapped s1 x = true -> outside x \/ exists o, owns (<[i := Some P']> Ps) (<[u := b]> A) o x.
Proof.
  intros HI HP Hext Hu Hx. pose proof Hext as (Ea & Es & _ & Hn).
  assert (mapped s x = true -> outside x \/ exists o, owns (<[i := Some P']> Ps) (<[u := b]> A) o x) as Hold.
  { intros Hx'. destruct (hi_all _ _ _ HI x Hx') as [|[o Ho]]; [by left|]. right. exists o.
    by apply owns_insert_mono, (owns_insert_pool_mono s Ps A i P s1). }
  destruct Hn as [[_ Hm]|(a & En & _ & Hm)]; rewrite Hm in Hx; [auto|].
  apply orb_prop in Hx as [Hx|Hx]; [auto|]. apply within_true in Hx. right.
  exists (OPool i), P', a. rewrite list_lookup_insert_eq, Es by (by eapply lookup_lt_Some).
  split_and!; [done| |lia..]. unfold bp_regions. rewrite En. right. left.
Qed.

Lemma heap_add_chunk s Ps A i P c s1 P' u b s' :
  heap_inv s Ps A -> Ps !! i = Some (Some P) -> ba_allocated s P c s1 P' ->
  gb_class b = Some i -> gb_orig b = c -> c <= u - 8 < c + bp_chunk P ->
  (forall x, mapped s' x = mapped s1 x) -> (forall x, x <> u - 8 -> rd s' x = rd s1 x) -> b_locks s' = b_locks s1 ->
  block_ok s' (<[i := Some P']> Ps) u b -> A !! u = None /\ heap_inv s' (<[i := Some P']> Ps) (<[u := b]> A).
Proof.
  intros HI HP Hal Hcl Eo Hc Hm Hr Hl Hb.
  pose proof (chunk_pointer_fresh s Ps A i P c s1 P' u HI HP Hal Hc) as Hu. split; [done|].
  pose proof (aa_ext _ _ _ _ _ Hal) as Hext. pose proof Hext as (_ & _ & Ek & _).
  assert (i < length Ps)%nat as Hlen by (by eapply lookup_lt_Some).
  destruct (aa_rep _ _ _ _ _ Hal) as [HP' HPl']. destruct (hi_pools _ _ _ HI i P HP) as [_ Hclass].
  assert (c ∈ bp_live P') as HcL by (rewrite (aa_live _ _ _ _ _ Hal); left).
  assert (b_locks s1 = b_locks s) as Hl1 by (pose proof (aa_ctl _ _ _ _ _ Hal) as E; by injection E).
  (* what the step leaves alone *)
  assert (forall x, mapped s x = true -> ~ pool_word P x -> x <> u - 8 -> rd s' x = rd s x) as Hkeep.
  { intros x Hx Hw Hne. rewrite Hr by done. by apply (aa_frame _ _ _ _ _ Hal). }
  assert (forall v d, A !! v = Some d -> rd s' (v - 8) = rd s (v - 8)) as Hmeta.
  { intros v d Hv. apply Hkeep; [by apply (inv_meta_mapped s Ps A HI v d)| |].
    - pose proof (hi_block _ _ _ HI v d Hv) as Hd. pose proof (bk_orig _ _ _ _ Hd). pose proof (bk_room _ _ _ _ Hd).
      apply (inv_block_word s Ps A HI v d _ i); [done|lia|done].
    - intros E. assert (v = u) as -> by lia. by simplify_eq. }
  constructor.
  - rewrite length_insert. apply (hi_len _ _ _ HI).
  - intros j R HR. destruct (decide (i = j)) as [<-|Hne].
    + rewrite list_lookup_insert_eq in HR by done. simplify_eq. rewrite Ek. split; [|done].
      apply (rep_frame s1); [done| | |by rewrite Hl].
      * intros x Hw. apply Hr. intros ->. apply (live_not_word s1 R (gb_orig b) _ HP' HcL) in Hw; [done|]. lia.
      * intros r x Hin Hx. rewrite Hm. by apply (core_region _ _ HP' r).
    + rewrite list_lookup_insert_ne in HR by done. split; [|by apply (hi_pools _ _ _ HI j)].
      apply (inv_pool_keep s Ps A HI s' j); [done|congruence| |].
      * intros x Ho. rewrite Hm. apply (extends_mapped s P s1 P' x Hext). by apply (hi_mapped _ _ _ HI _ _ Ho).
      * intros x Hx Hw. pose proof (inv_word s Ps A HI j R x HR Hw) as Hoj.
        assert (forall i', owns Ps A (OPool i') x -> i' = j) as Hown.
        { intros i' Ho. pose proof (hi_disj _ _ _ HI _ _ _ Ho Hoj). congruence. }
        apply Hkeep; [done| |].
        -- intros HwP. apply Hne, Hown. by apply (inv_word s Ps A HI i P x).
        -- intros ->. apply Hne, Hown. by apply (chunk_owned s Ps A i P c s1 P').
  - intros o x Ho. rewrite Hm. eapply owns_insert_chunk in Ho as [Ho|(_ & _ & ?)]; try done.
    apply (extends_mapped s P s1 P' x Hext). by apply (hi_mapped _ _ _ HI o).
  - intros o o' x Ho Ho'. eapply owns_insert_chunk in Ho; [|done..]. eapply owns_insert_chunk in Ho'; [|done..].
    destruct Ho as [Ho|(-> & Hn & _)], Ho' as [Ho'|(-> & Hn' & _)]; [by apply (hi_disj _ _ _ HI _ _ x)| | |done].
    + apply (hi_mapped _ _ _ HI) in Ho. congruence.
    + apply (hi_mapped _ _ _ HI) in Ho'. congruence.
  - intros x Hx. rewrite Hm in Hx. by apply (owns_chunk_all s Ps A i P s1 P').
  - intros x Ho. destruct (hi_outside _ _ _ HI x Ho) as [Hmx Hno].
    split; [rewrite Hm; by apply (extends_mapped s P s1 P' x Hext)|].
    intros o Hox. eapply owns_insert_chunk in Hox as [Hox|(_ & ? & _)]; try done; [by apply (Hno o)|congruence].
  - intros v d Hv. apply lookup_insert_Some in Hv as [[<- <-]|[_ Hv]]; [done|].
    apply (block_keep s Ps); [by apply (hi_block _ _ _ HI)|by apply (Hmeta v d)| |].
    + intros j R _ HR Hlv. destruct (decide (i = j)) as [<-|Hne].
      * exists P'. rewrite list_lookup_insert_eq by done. split; [done|]. simplify_eq.
        rewrite (aa_live _ _ _ _ _ Hal). by right.
      * exists R. by rewrite list_lookup_insert_ne.
    + intros j HN. rewrite list_lookup_insert_ne; [done|]. intros ->. congruence.
  - assert (forall v d, A !! v = Some d -> gb_orig d <> gb_orig b) as Hno.
    { intros v d Hv E. pose proof (hi_block _ _ _ HI v d Hv) as Hk. pose proof (bk_orig _ _ _ _ Hk).
      pose proof (bk_room _ _ _ _ Hk). apply (chunk_unused s Ps A i P c s1 P' v d c); [done..|lia|lia]. }
    intros v w d e Hv Hw E. apply lookup_insert_Some in Hv as [[<- <-]|[? Hv]], Hw as [[<- <-]|[? Hw]].
    + done.
    + exfalso. by apply (Hno w e Hw).
    + exfalso. by apply (Hno v d Hv).
    + by apply (hi_inj _ _ _ HI v w d e).
  - assert (forall v d, A !! v = Some d -> <[u := b]> A !! v = Some d) as Hold.
    { intros v d Hv. rewrite lookup_insert_ne; [done|]. intros ->. congruence. }
    intros j R x HR Hx. destruct (decide (i = j)) as [<-|Hne].
    + rewrite list_lookup_insert_eq in HR by done. simplify_eq. rewrite (aa_live _ _ _ _ _ Hal) in Hx.
      apply elem_of_cons in Hx as [->|Hx]; [exists u, b; by rewrite lookup_insert_eq|].
      destruct (hi_live _ _ _ HI i P x HP Hx) as (v & d & Hv & ?). exists v, d. auto.
    + rewrite list_lookup_insert_ne in HR by done.
      destruct (hi_live _ _ _ HI j R x HR Hx) as (v & d & Hv & ?). exists v, d. auto.
Qed.

(** ** Returning a block to the operating system *)

Lemma owns_delete Ps A u o x : owns Ps (delete u A) o x -> owns Ps A o x /\ o <> OOs u.
Proof.
  destruct o as [i|v]; [done|]. intros (c & Hv & Hc & Hx). apply lookup_delete_Some in Hv as [Hne Hv].
  split; [by exists c|]. congruence.
Qed.

Lemma owns_delete_mono Ps A u o x : owns Ps A o x -> o <> OOs u -> owns Ps (delete u A) o x.
Proof.
  destruct o as [i|v]; [done|]. intros (c & Hv & Hc) Hne. exists c. split; [|done].
  rewrite lookup_delete_ne; [done|]. congruence.
Qed.

Lemma inv_delete_inj s Ps A u v w b c :
  heap_inv s Ps A -> delete u A !! v = Some b -> delete u A !! w = Some c -> gb_orig b = gb_orig c -> v = w.
Proof.
  intros HI [_ Hv]%lookup_delete_Some [_ Hw]%lookup_delete_Some. by apply (hi_inj _ _ _ HI).
Qed.

Lemma heap_del_os s Ps A u b s' :
  heap_inv s Ps A -> A !! u = Some b -> gb_class b = None ->
  (forall x, mapped s' x = mapped s x && negb (within (gb_orig b) (page_up (gb_total b)) x)) ->
  (forall x, mapped s' x = true -> rd s' x = rd s x) -> b_locks s' = b_locks s ->
  heap_inv s' Ps (delete u A).
Proof.
  intros HI Hu Hc Hm Hr Hl.
  assert (forall o x, owns Ps A o x -> o <> OOs u -> mapped s' x = true) as Hkeep.
  { intros o x Ho Hne. rewrite Hm, (hi_mapped _ _ _ HI o x Ho). simpl.
    destruct (within _ _ x) eqn:E; [|done]. apply within_true in E.
    exfalso. apply Hne. apply (hi_disj _ _ _ HI o (OOs u) x Ho). by exists b. }
  constructor.
  - apply (hi_len _ _ _ HI).
  - intros i P HP. split; [|by apply (hi_pools _ _ _ HI i)].
    apply (inv_pool_keep s Ps A HI s' i); [done|done| |].
    + intros x Ho. by apply (Hkeep _ x Ho).
    + intros x _ Hw. apply Hr. apply (Hkeep (OPool i)); [by apply (inv_word s Ps A HI i P)|done].
  - intros o x [Ho Hne]%owns_delete. by apply (Hkeep o).
  - intros o o' x [Ho _]%owns_delete [Ho' _]%owns_delete. by apply (hi_disj _ _ _ HI _ _ x).
  - intros x Hx. rewrite Hm in Hx. apply andb_prop in Hx as [Hx Hnw].
    destruct (hi_all _ _ _ HI x Hx) as [|[o Ho]]; [by left|]. right. exists o.
    apply owns_delete_mono; [done|]. intros ->. destruct Ho as (c & Hc' & _ & Hxc). simplify_eq.
    by rewrite (proj2 (within_true _ _ _) Hxc) in Hnw.
  - intros x Ho. destruct (hi_outside _ _ _ HI x Ho) as [Hmx Hno]. split.
    + rewrite Hm, Hmx. destruct (within _ _ x) eqn:E; [|done]. apply within_true in E.
      exfalso. apply (Hno (OOs u)). by exists b.
    + intros o [Hox _]%owns_delete. by apply (Hno o).
  - intros v d [Hne Hv]%lookup_delete_Some.
    apply (block_keep s Ps); [by apply (hi_block _ _ _ HI)| |eauto|done].
    pose proof (hi_block _ _ _ HI v d Hv) as Hk. pose proof (bk_orig _ _ _ _ Hk). pose proof (bk_room _ _ _ _ Hk).
    apply Hr, (Hkeep (owner_of v d)); [apply (inv_block_owner s Ps A HI v d); [done|lia]|].
    unfold owner_of. destruct (gb_class d); congruence.
  - intros v w d e. by apply (inv_delete_inj s Ps).
  - intros i P c HP Hlv. destruct (hi_live _ _ _ HI i P c HP Hlv) as (v & d & Hv & Hcd & ?).
    exists v, d. split; [|done]. rewrite lookup_delete_ne; [done|]. intros ->. congruence.
Qed.

(** ** Returning a block to its pool *)

Lemma owns_same_regions Ps A i P P' o x :
  Ps !! i = Some (Some P) -> bp_regions P' = bp_regions P -> bp_size P' = bp_size P ->
  owns (<[i := Some P']> Ps) A o x -> owns Ps A o x.
Proof.
  intros HP Er Es. destruct o as [j|v]; [|done]. intros (R & r & HR & Hr & Hx).
  destruct (decide (i = j)) as [<-|Hne].
  - rewrite list_lookup_insert_eq in HR by (by eapply lookup_lt_Some). assert (R = P') as -> by congruence.
    exists P, r. by rewrite <- Er, <- Es.
  - rewrite list_lookup_insert_ne in HR by done. by exists R, r.
Qed.

Lemma heap_del_chunk s Ps A i P u b s' :
  heap_inv s Ps A -> A !! u = Some b -> gb_class b = Some i -> Ps !! i = Some (Some P) ->
  let P' := with_free P (gb_orig b :: bp_free P) in
  pool_rep s' P' -> (forall x, mapped s' x = mapped s x) -> b_locks s' = b_locks s ->
  (forall x, ~ pool_word P x -> x <> gb_orig b -> rd s' x = rd s x) ->
  heap_inv s' (<[i := Some P']> Ps) (delete u A).
Proof.
  intros HI Hu Hcl HP P' HP' Hm Hl Hr. assert (i < length Ps)%nat as Hlen by (by eapply lookup_lt_Some).
  destruct (inv_block_pool s Ps A HI u b i P Hu Hcl HP) as [Hlive Ht].
  pose proof (inv_core s Ps A HI i P HP) as HPc. pose proof Hlive as [Hch Hnf]%elem_of_live.
  assert (bp_live P ≡ₚ gb_orig b :: bp_live P') as HLv.
  { pose proof (live_cons s P (gb_orig b) (bp_free P) HPc) as E. destruct P. apply E; [|done].
    constructor; [done|apply (pr_nodup _ _ HPc)]. }
  assert (NoDup (gb_orig b :: bp_live P')) as [Hnl _]%list.NoDup_cons by (rewrite <- HLv; apply (live_NoDup s P HPc)).
  pose proof (hi_block _ _ _ HI u b Hu) as Hub. pose proof (bk_orig _ _ _ _ Hub). pose proof (bk_room _ _ _ _ Hub).
  constructor.
  - rewrite length_insert. apply (hi_len _ _ _ HI).
  - intros j R HR. destruct (decide (i = j)) as [<-|Hne].
    + rewrite list_lookup_insert_eq in HR by done. simplify_eq. split; [done|].
      by destruct (hi_pools _ _ _ HI i P HP) as [_ ?].
    + rewrite list_lookup_insert_ne in HR by done. split; [|by apply (hi_pools _ _ _ HI j)].
      apply (inv_pool_keep s Ps A HI s' j); [done|done| |].
      * intros x Ho. rewrite Hm. by apply (hi_mapped _ _ _ HI _ _ Ho).
      * intros x Hx Hw. pose proof (inv_word s Ps A HI j R x HR Hw) as Hoj. apply Hr.
        -- intros HwP. pose proof (hi_disj _ _ _ HI _ _ _ (inv_word s Ps A HI i P x HP HwP) Hoj). congruence.
        -- intros ->. assert (gb_orig b <= gb_orig b < gb_orig b + gb_total b) as Hin by lia.
           by apply (inv_block_word s Ps A HI u b _ j R Hu Hin HR).
  - intros o x Ho. rewrite Hm. apply (owns_same_regions _ _ i P P') in Ho; [|done..].
    apply owns_delete in Ho as [Ho _]. by apply (hi_mapped _ _ _ HI o).
  - intros o o' x Ho Ho'. apply (owns_same_regions _ _ i P P') in Ho; [|done..].
    apply (owns_same_regions _ _ i P P') in Ho'; [|done..]. apply owns_delete in Ho as [Ho _], Ho' as [Ho' _].
    by apply (hi_disj _ _ _ HI _ _ x).
  - intros x Hx. rewrite Hm in Hx. destruct (hi_all _ _ _ HI x Hx) as [|[o Ho]]; [by left|]. right. exists o.
    apply (owns_insert_pool_mono s _ _ i P s'); [done| |].
    + split_and!; [done..|]. by left.
    + apply owns_delete_mono; [done|]. intros ->. destruct Ho as (c & Hc' & Hcn & _). congruence.
  - intros x Ho. destruct (hi_outside _ _ _ HI x Ho) as [Hmx Hno]. split; [by rewrite Hm|].
    intros o Hox. apply (owns_same_regions _ _ i P P') in Hox; [|done..]. apply owns_delete in Hox as [Hox _].
    by apply (Hno o).
  - intros v d [Hne Hv]%lookup_delete_Some. pose proof (hi_block _ _ _ HI v d Hv) as Hk.
    pose proof (bk_orig _ _ _ _ Hk). pose proof (bk_room _ _ _ _ Hk).
    apply (block_keep s Ps); [done| | |].
    + apply Hr; [apply (inv_block_word s Ps A HI v d _ i); [done|lia|done]|]. intros E.
      apply (inv_blocks_disjoint s Ps A HI v u d b (v - 8)); [done..|lia|lia].
    + intros j R Hj HR Hlv. destruct (decide (i = j)) as [<-|Hij].
      * exists P'. rewrite list_lookup_insert_eq by done. split; [done|]. simplify_eq.
        rewrite HLv in Hlv. apply elem_of_cons in Hlv as [E|]; [|done].
        exfalso. apply Hne. symmetry. by apply (hi_inj _ _ _ HI v u d b).
      * exists R. by rewrite list_lookup_insert_ne.
    + intros j HN. rewrite list_lookup_insert_ne; [done|]. intros ->. congruence.
  - intros v w d e. by apply (inv_delete_inj s Ps).
  - intros j R c HR Hc. assert (exists Q, Ps !! j = Some (Some Q) /\ c ∈ bp_live Q /\ (i = j -> c <> gb_orig b)) as (Q & HQ & HcQ & Hcne).
    { destruct (decide (i = j)) as [<-|Hij].
      - rewrite list_lookup_insert_eq in HR by done. simplify_eq. exists P. rewrite HLv. split_and!; [done|by right|].
        intros _ ->. done.
      - rewrite list_lookup_insert_ne in HR by done. by exists R. }
    destruct (hi_live _ _ _ HI j Q c HQ HcQ) as (v & d & Hv & Hd & Ed). exists v, d. split; [|done].
    rewrite lookup_delete_ne; [done|]. intros ->. simplify_eq. by apply Hcne.
Qed.

(** ** The client writes into its block *)
Lemma heap_write s Ps A u b a v :
  heap_inv s Ps A -> A !! u = Some b -> u <= a -> a < gb_orig b + gb_total b -> heap_inv (wr a v s) Ps A.
Proof.
  intros HI Hu Hlo Hhi. pose proof (hi_block _ _ _ HI u b Hu) as Hub. pose proof (bk_orig _ _ _ _ Hub).
  constructor; [apply (hi_len _ _ _ HI)| |apply (hi_mapped _ _ _ HI)|apply (hi_disj _ _ _ HI)|
    apply (hi_all _ _ _ HI)|apply (hi_outside _ _ _ HI)| |apply (hi_inj _ _ _ HI)|apply (hi_live _ _ _ HI)].
  - intros i P HP. split; [|by apply (hi_pools _ _ _ HI i)].
    apply (inv_pool_keep s Ps A HI _ i); [done|done|apply (hi_mapped _ _ _ HI)|].
    intros x Hx Hw. apply rd_wr_ne. intros <-.
    apply (inv_block_word s Ps A HI u b a i P Hu) in Hw; [done|lia|done].
  - intros w d Hw. pose proof (hi_block _ _ _ HI w d Hw) as Hk. pose proof (bk_orig _ _ _ _ Hk).
    pose proof (bk_room _ _ _ _ Hk). apply (block_keep s Ps); [done| |eauto|done]. apply rd_wr_ne. intros ->.
    destruct (decide (u = w)) as [->|Hne]; [lia|].
    apply (inv_blocks_disjoint s Ps A HI u w b d (w - 8)); [done..|lia|lia].
Qed.

(** The invariant depends on the mappings, the mapped words and the locks. *)
Lemma heap_same s s' Ps A :
  heap_inv s Ps A -> (forall x, mapped s' x = mapped s x) -> b_locks s' = b_locks s ->
  (forall x, mapped s x = true -> rd s' x = rd s x) -> heap_inv s' Ps A.
Proof.
  intros HI Hm Hl Hr. constructor; try apply HI.
  - intros i P HP. split; [|by apply (hi_pools _ _ _ HI i)].
    apply (inv_pool_keep s Ps A HI s' i); [done|done| |auto]. intros x Ho. rewrite Hm. by apply (hi_mapped _ _ _ HI _ _ Ho).
  - intros o x Ho. rewrite Hm. by apply (hi_mapped _ _ _ HI o).
  - intros x Hx. rewrite Hm in Hx. by apply (hi_all _ _ _ HI).
  - intros x Hx. rewrite Hm. by apply (hi_outside _ _ _ HI).
  - intros u b Hu. apply (block_keep s Ps); [by apply (hi_block _ _ _ HI)| |eauto|done].
    by apply Hr, (inv_meta_mapped s Ps A HI u b).
Qed.
End Heap.
