(* ===== verification/BaseGlobalApi.v ===== *)
(** * The operations of the global base allocator

    [umf_ba_global_aligned_alloc], [umf_ba_global_free],
    [umf_ba_global_malloc_usable_size], the lazy initialization and the
    destruction, against the invariant of BaseGlobalInv.v.

    The lazy initialization establishes the invariant from the static initial
    state, the destruction returns every mapping of the pools, and every
    sequence of calls in between refines an abstract allocator. *)

From S2P Require Import Prelude Utils BaseMem BaseAlloc BaseAllocInv BaseAllocApi.
From S2P Require Import BaseGlobal BaseGlobalInv.
From stdpp Require Import list.
#[local] Open Scope Z_scope.

Definition pool_ptr (o : option ba_pool) : Z := match o with Some P => bp_addr P | None => 0 end.

Section Api.
Context `{HL : OsLaws OS} `{HO : Outside}.
Implicit Types (s : bstate OS) (Ps : list (option ba_pool)) (A : gmap Z gblock).

Record ginv s Ps A : Prop := {
  gi_heap :> heap_inv s Ps A;
  gi_static : static_ok s (pool_ptr <$> Ps);
  gi_init : ba_is_initialized s = true;
  gi_alive : ba_is_destroyed s = false;
}.

(** [s'] keeps the contents of the blocks of [A]. *)
Definition keeps s A s' : Prop :=
  forall u b x, A !! u = Some b -> gb_orig b <= x < gb_orig b + gb_total b -> rd s' x = rd s x.

Lemma ginv_ctl s s' Ps A Ps' A' :
  ginv s Ps A -> ctl s' = ctl s -> heap_inv s' Ps' A' -> pool_ptr <$> Ps' = pool_ptr <$> Ps -> ginv s' Ps' A'.
Proof.
  intros HG Hc HI Ep. unfold ctl in Hc. injection Hc as _ Eb Ei Ed. destruct HG. constructor; [done|..].
  - unfold static_ok. by rewrite Eb, Ep.
  - congruence.
  - congruence.
Qed.

Lemma wp_init_once s Ps A (Q : unit -> bstate OS -> Prop) : ginv s Ps A -> Q tt s -> wp init_once Q s.
Proof. intros HG HQ. unfold init_once. wp_step. rewrite (gi_init _ _ _ HG). by wp_step. Qed.

Lemma wp_get_ac s Ps A i (Q : Z -> bstate OS -> Prop) :
  ginv s Ps A -> (forall o, Ps !! i = Some o -> Q (pool_ptr o) s) ->
  (i < length ALLOCATION_CLASSES)%nat -> wp (get_ac i) Q s.
Proof.
  intros HG HQ Hi. unfold get_ac. wp_step. rewrite (gi_static _ _ _ HG). cbn [ac].
  rewrite list_lookup_fmap. destruct (Ps !! i) as [o|] eqn:E.
  - wp_step; [done|]. auto.
  - apply lookup_ge_None in E. rewrite (hi_len _ _ _ HG) in E. lia.
Qed.

(** When the class of a request has a pool, the pool has a free chunk or the
    system has memory for another mapping. *)
Definition pool_can_alloc s Ps (total : Z) : Prop :=
  forall P, class_idx total < NUM_ALLOCATION_CLASSES -> Ps !! Z.to_nat (class_idx total) = Some (Some P) ->
    bp_free P <> [] \/ (os_mmap (bp_size P) (b_os s)).1 <> None.

(** The outcome of a successful allocation. *)
Record galloc_post s A (size al u : Z) s' Ps' (b : gblock) : Prop := {
  gp_fresh : A !! u = None;
  gp_inv : ginv s' Ps' (<[u := b]> A);
  gp_req : gb_req b = size;
  gp_total : gb_total b = total_size size al;
  gp_align : u mod al = 0;
  gp_keeps : keeps s A s';
}.

(** The block that a request of [size] bytes gets at [ptr]. *)
Definition block_at (ptr size al : Z) (cl : option nat) : gblock :=
  GBlock ptr (total_size size al) size cl.

Lemma total_pos size al : 0 < size -> align_ok al -> size + 8 <= total_size size al.
Proof. intros Hs [Ha _]. pose proof (pow2_pos _ Ha). unfold total_size. destruct (al >? 8); lia. Qed.

Lemma block_at_ok s Ps ptr size al cl w :
  0 < size -> align_ok al -> total_size size al < 2 ^ 32 -> 0 < ptr -> ptr mod 8 = 0 ->
  ptr + total_size size al < two64 ->
  let u := user_ptr ptr al in let b := block_at ptr size al cl in
  w = meta_word (total_size size al) (u - ptr) ->
  match cl with
  | Some i => class_idx (total_size size al) = Z.of_nat i /\ exists P, Ps !! i = Some (Some P) /\ ptr ∈ bp_live P
  | None => ptr mod os_page_size = 0 /\ (NUM_ALLOCATION_CLASSES <= class_idx (total_size size al) \/
      Ps !! Z.to_nat (class_idx (total_size size al)) = Some None)
  end -> block_ok (wr (u - 8) w s) Ps u b.
Proof.
  intros Hs Hal Ht Hp Hp8 Hu u b -> Hcl.
  pose proof (user_ptr_bounds ptr size al Hp Hp8 Hs Hal Hu) as (H1' & H2' & H3' & _). fold u in H1', H2', H3'.
  constructor; simpl; try done. apply rd_wr_eq.
Qed.

(** Taking a block from the operating system, the two fallback paths. *)
Lemma wp_os_path s Ps A size al (Q : Z -> bstate OS -> Prop) :
  ginv s Ps A -> 0 < size -> align_ok al -> total_size size al < 2 ^ 32 ->
  (NUM_ALLOCATION_CLASSES <= class_idx (total_size size al) \/
   Ps !! Z.to_nat (class_idx (total_size size al)) = Some None) ->
  (forall s', ginv s' Ps A -> keeps s A s' -> Q 0 s') ->
  (forall u s' Ps' b, galloc_post s A size al u s' Ps' b -> Q u s') ->
  wp (ptr ← ba_os_alloc (total_size size al);
      if ptr =? 0 then mret 0 else add_metadata_and_align ptr (total_size size al) al) Q s.
Proof.
  intros HG Hs Hal Ht Hcl HQ0 HQ. pose proof (total_pos size al Hs Hal) as Htp.
  apply wp_bind, wp_ba_os_alloc; [lia| |].
  - intros o _ Ho. rewrite Z.eqb_refl. apply wp_ret, HQ0; [|done].
    apply (ginv_ctl s _ Ps A); [done|done| |done]. by apply (heap_same s); [apply HG|..].
  - intros ptr o _ Hfm Hmo. pose proof Hfm as (Hp & Hpp & Hpu & Hf).
    rewrite (proj2 (Z.eqb_neq ptr 0)) by lia. pose proof (page_up_bounds (total_size size al)) as Hpb.
    pose proof (page_mod8 ptr Hpp) as Hp8. set (s1 := set_os o s).
    assert (forall x, mapped s1 x = mapped s x || within ptr (page_up (total_size size al)) x) as Hm1 by exact Hmo.
    apply wp_add_metadata; try done; [lia| |].
    { intros x Hx. rewrite Hm1, (proj2 (within_true _ _ _)); [apply orb_true_r|lia]. }
    set (u := user_ptr ptr al). set (b := block_at ptr size al None).
    pose proof (user_ptr_bounds ptr size al Hp Hp8 Hs Hal ltac:(lia)) as (H1' & H2' & H3' & H4'). fold u in H1', H2', H3', H4'.
    assert (forall x, mapped s x = true -> rd (wr (u - 8) (meta_word (total_size size al) (u - ptr)) s1) x = rd s x) as Hr.
    { intros x Hx. rewrite rd_wr_ne; [done|]. intros <-. rewrite Hf in Hx by lia. done. }
    destruct (heap_add_os s Ps A u b (wr (u - 8) (meta_word (total_size size al) (u - ptr)) s1)) as [Hn HI'];
      [apply HG|done|done|exact Hm1|exact Hr|done|by apply block_at_ok; [..|lia| |]|].
    apply (HQ u _ Ps b). constructor; [done| |done|done|done|].
    + by apply (ginv_ctl s _ Ps A).
    + intros v d x Hv Hx. by apply Hr, (inv_block_mapped s Ps A HG v d).
Qed.

(** Taking a block from the pool of its class. *)
Lemma wp_pool_path s Ps A i P size al (Q : Z -> bstate OS -> Prop) :
  ginv s Ps A -> 0 < size -> align_ok al -> total_size size al < 2 ^ 32 ->
  Ps !! i = Some (Some P) -> class_idx (total_size size al) = Z.of_nat i ->
  (bp_free P <> [] \/ (os_mmap (bp_size P) (b_os s)).1 <> None) ->
  (forall u s' Ps' b, galloc_post s A size al u s' Ps' b -> Q u s') ->
  wp (ptr ← umf_ba_alloc (bp_addr P); add_metadata_and_align ptr (total_size size al) al) Q s.
Proof.
  intros HG Hs Hal Ht HP Hidx Hcan HQ. pose proof (gi_heap _ _ _ HG) as HI.
  destruct (hi_pools _ _ _ HI i P HP) as [HPr Hk]. pose proof (total_pos size al Hs Hal) as Htp.
  assert (total_size size al <= bp_chunk P) as Hfit by (apply (class_size _ i); [lia|done|done]).
  apply wp_bind, wp_umf_ba_alloc; [done|intros ? ? ?; by destruct Hcan|].
  intros c s1 P' _ Hal'. destruct (aa_rep _ _ _ _ _ Hal') as [HP' _].
  pose proof (aa_ext _ _ _ _ _ Hal') as (Ead & _ & Ek & _). pose proof (aa_chunk _ _ _ _ _ Hal') as Hch.
  destruct (core_chunk_range _ _ HP' c Hch) as [Hc0 Hcu]. destruct (core_chunk_word _ _ HP' c Hch) as [_ Hc8].
  rewrite Ek in Hcu.
  pose proof (user_ptr_bounds c size al Hc0 Hc8 Hs Hal ltac:(lia)) as (H1' & H2' & H3' & H4').
  apply wp_add_metadata; try done; [lia| |].
  { intros x Hx. apply (core_chunk_mapped _ _ HP' c); [done|]. rewrite Ek. lia. }
  set (u := user_ptr c al) in *. set (b := block_at c size al (Some i)).
  set (s' := wr _ _ s1). set (Ps' := <[i := Some P']> Ps).
  assert (i < length Ps)%nat as Hlen by (by eapply lookup_lt_Some).
  assert (block_ok s' Ps' u b) as Hb.
  { apply block_at_ok; try done; [lia|]. split; [done|]. exists P'. unfold Ps'. rewrite list_lookup_insert_eq by done.
    split; [done|]. rewrite (aa_live _ _ _ _ _ Hal'). left. }
  destruct (heap_add_chunk s Ps A i P c s1 P' u b s') as [Hn HI']; try done; [lia| |].
  { intros x Hx. by apply rd_wr_ne. }
  apply (HQ u s' Ps' b). constructor; try done.
  - apply (ginv_ctl s _ Ps A); [done|apply (aa_ctl _ _ _ _ _ Hal')|done|].
    unfold Ps'. rewrite list_fmap_insert. simpl. rewrite Ead. apply list_insert_id.
    by rewrite list_lookup_fmap, HP.
  - intros v d x Hv Hx. unfold s'. rewrite rd_wr_ne.
    + apply (aa_frame _ _ _ _ _ Hal'); [by apply (inv_block_mapped s Ps A HI v d)|].
      by apply (inv_block_word s Ps A HI v d x i).
    + intros <-. apply (chunk_unused s Ps A i P c s1 P' v d (u - 8)); [done..|lia|done].
Qed.

Lemma wp_global_aligned_alloc s Ps A size al (Q : Z -> bstate OS -> Prop) :
  ginv s Ps A -> 0 < size -> align_ok al -> total_size size al < 2 ^ 32 ->
  pool_can_alloc s Ps (total_size size al) ->
  (forall s', ginv s' Ps A -> keeps s A s' -> Q 0 s') ->
  (forall u s' Ps' b, galloc_post s A size al u s' Ps' b -> Q u s') ->
  wp (umf_ba_global_aligned_alloc size al) Q s.
Proof.
  intros HG Hs Hal Ht Hcan HQ0 HQ. unfold umf_ba_global_aligned_alloc.
  apply wp_bind, (wp_init_once s Ps A); [done|]. pose proof (total_pos size al Hs Hal) as Htp.
  rewrite (proj2 (Z.eqb_neq size 0)) by lia. unfold ALLOC_METADATA_SIZE, SIZE_MAX.
  rewrite Z.gtb_ltb, (proj2 (Z.ltb_ge _ _)) by lia.
  assert ((al >? 8) && (size + 8 >? 18446744073709551615 - al) = false) as ->.
  { destruct Hal as [_ Ha]. rewrite (Z.gtb_ltb (size + 8)), (proj2 (Z.ltb_ge _ _)), andb_false_r by lia. done. }
  cbv zeta. assert ((if al >? 8 then size + 8 + al else size + 8) = total_size size al) as ->.
  { unfold total_size. destruct (al >? 8); lia. }
  pose proof (class_idx_nonneg (total_size size al)) as Hi0.
  apply wp_bind, (wp_size_to_idx s (pool_ptr <$> Ps)); [apply HG|lia|].
  destruct (class_idx (total_size size al) >=? NUM_ALLOCATION_CLASSES) eqn:Ei; rewrite Z.geb_leb in Ei.
  - apply Z.leb_le in Ei. apply (wp_os_path s Ps A); try done. by left.
  - apply Z.leb_gt in Ei. apply wp_bind, (wp_get_ac s Ps A); [done| |simpl; unfold NUM_ALLOCATION_CLASSES in *; lia].
    intros o Ho. destruct o as [P|]; simpl pool_ptr.
    + rewrite (proj2 (Z.eqb_neq _ 0)).
      * apply (wp_pool_path s Ps A (Z.to_nat (class_idx (total_size size al))) P); try done; [lia|].
        by apply Hcan.
      * pose proof (core_region s P (inv_core s Ps A HG _ P Ho) _ (core_addr P)) as (? & _). lia.
    + rewrite Z.eqb_refl. apply (wp_os_path s Ps A); try done. by right.
Qed.

(** ** Release *)

Lemma wp_global_free s Ps A u b (Q : unit -> bstate OS -> Prop) :
  ginv s Ps A -> A !! u = Some b ->
  (forall s' Ps', ginv s' Ps' (delete u A) -> keeps s (delete u A) s' -> Q tt s') ->
  wp (umf_ba_global_free u) Q s.
Proof.
  intros HG Hu HQ. pose proof (gi_heap _ _ _ HG) as HI. pose proof (hi_block _ _ _ HI u b Hu) as Hb.
  destruct (bk_orig _ _ _ _ Hb) as [Ho Hou]. destruct (bk_room _ _ _ _ Hb) as [Hreq Hroom].
  destruct (bk_total _ _ _ _ Hb) as [Ht Htu]. unfold umf_ba_global_free.
  rewrite (proj2 (Z.eqb_neq u 0)) by lia. wp_step. rewrite (gi_alive _ _ _ HG).
  apply wp_bind, (wp_get_original s u (gb_orig b) (gb_total b));
    [done|done|lia|done|lia|apply (bk_align _ _ _ _ Hb)|by apply (inv_meta_mapped s Ps A HI u b)|apply (bk_meta _ _ _ _ Hb)|].
  pose proof (class_idx_nonneg (gb_total b)) as Hi0. pose proof (bk_class _ _ _ _ Hb) as Hcl.
  apply wp_bind, (wp_size_to_idx s (pool_ptr <$> Ps)); [apply HG|lia|].
  assert (forall v d x, delete u A !! v = Some d -> gb_orig d <= x < gb_orig d + gb_total d ->
    A !! v = Some d /\ v <> u /\ ~ gb_orig b <= x < gb_orig b + gb_total b) as Hdel.
  { intros v d x [Hne Hv]%lookup_delete_Some Hx. split_and!; [done|done|].
    by apply (inv_blocks_disjoint s Ps A HI v u d b). }
  assert (gb_class b = None -> wp (ba_os_free (gb_orig b) (gb_total b)) Q s) as Hos.
  { intros Hn. rewrite Hn in Hcl. apply wp_ba_os_free; [apply Hcl|lia|]. intros s' Hc Hm Hr.
    assert (heap_inv s' Ps (delete u A)) as HI'.
    { apply (heap_del_os s Ps A u b s'); try done. by injection Hc. }
    apply (HQ s' Ps); [by apply (ginv_ctl s _ Ps A)|]. intros v d x Hv Hx.
    apply Hr, (inv_block_mapped s' Ps (delete u A) HI' v d x Hv Hx). }
  destruct (gb_class b) as [i|] eqn:Ec.
  - destruct Hcl as [Hidx (P & HP & Hl)].
    assert (i < length Ps)%nat as Hlen by (by eapply lookup_lt_Some). rewrite (hi_len _ _ _ HI) in Hlen. simpl in Hlen.
    rewrite Hidx, Z.geb_leb, (proj2 (Z.leb_gt _ _)) by (unfold NUM_ALLOCATION_CLASSES; lia).
    rewrite Nat2Z.id. apply wp_bind, (wp_get_ac s Ps A); [done| |simpl; lia]. intros o Ho'. simplify_eq. simpl pool_ptr.
    pose proof (core_region s P (inv_core s Ps A HI _ P HP) _ (core_addr P)) as (Hpa & _).
    rewrite (proj2 (Z.eqb_neq _ 0)) by lia. apply wp_umf_ba_free; [by apply (hi_pools _ _ _ HI i)|done|].
    intros s' HP' Hc Hm Hr. eapply HQ.
    + apply (ginv_ctl s _ Ps A); [done|done|apply (heap_del_chunk s Ps A i P u b s'); try done; by injection Hc|].
      rewrite list_fmap_insert. simpl. apply list_insert_id. by rewrite list_lookup_fmap, HP.
    + intros v d x Hv Hx. destruct (Hdel v d x Hv Hx) as (Hv' & Hne & Hnx).
      apply Hr; [by apply (inv_block_word s Ps A HI v d x i)|]. intros ->. lia.
  - destruct (class_idx (gb_total b) >=? NUM_ALLOCATION_CLASSES) eqn:Ei; [by apply Hos|].
    rewrite Z.geb_leb in Ei. apply Z.leb_gt in Ei. destruct Hcl as [_ [?|HN]]; [lia|].
    apply wp_bind, (wp_get_ac s Ps A); [done| |simpl; unfold NUM_ALLOCATION_CLASSES in *; lia].
    intros o Ho'. simplify_eq. simpl. by apply Hos.
Qed.

Lemma wp_global_usable s Ps A u b (Q : Z -> bstate OS -> Prop) :
  ginv s Ps A -> A !! u = Some b -> Q (gb_orig b + gb_total b - u) s ->
  wp (umf_ba_global_malloc_usable_size u) Q s.
Proof.
  intros HG Hu HQ. pose proof (gi_heap _ _ _ HG) as HI. pose proof (hi_block _ _ _ HI u b Hu) as Hb.
  destruct (bk_orig _ _ _ _ Hb) as [Ho Hou]. destruct (bk_room _ _ _ _ Hb) as [Hreq Hroom].
  destruct (bk_total _ _ _ _ Hb) as [Ht Htu]. unfold umf_ba_global_malloc_usable_size.
  rewrite (proj2 (Z.eqb_neq u 0)) by lia.
  apply wp_bind, (wp_get_original s u (gb_orig b) (gb_total b));
    [done|done|lia|done|lia|apply (bk_align _ _ _ _ Hb)|by apply (inv_meta_mapped s Ps A HI u b)|apply (bk_meta _ _ _ _ Hb)|].
  apply wp_ret. by replace (gb_total b - (u - gb_orig b)) with (gb_orig b + gb_total b - u) by lia.
Qed.
End Api.

Section Life.
Context `{HL : OsLaws OS} `{HO : Outside}.
Implicit Types (s : bstate OS) (Ps : list (option ba_pool)) (A : gmap Z gblock).

Definition no_pools : list (option ba_pool) := replicate (Z.to_nat NUM_ALLOCATION_CLASSES) None.

(** The state before the first call, or after [umf_ba_destroy_global]. *)
Record gstart s : Prop := {
  gs_static : exists l, BASE_ALLOC s = BaseAllocT ALLOCATION_CLASSES (pool_ptr <$> no_pools) l;
  gs_init : ba_is_initialized s = false;
  gs_mapped : forall x, mapped s x = true <-> outside x;
}.

Lemma no_pools_lookup i o : no_pools !! i = Some o -> o = None.
Proof. intros Hl. by apply lookup_replicate in Hl as [-> _]. Qed.

Lemma no_pools_owns o x : ~ owns no_pools ∅ o x.
Proof.
  destruct o as [i|u].
  - intros (P & r & HP & _). by apply no_pools_lookup in HP.
  - intros (b & Hb & _). by rewrite lookup_empty in Hb.
Qed.

Lemma heap_start s : (forall x, mapped s x = true <-> outside x) -> heap_inv s no_pools ∅.
Proof.
  intros Hm. constructor.
  - done.
  - intros i P HP. by apply no_pools_lookup in HP.
  - intros o x Ho. by apply no_pools_owns in Ho.
  - intros o o' x Ho. by apply no_pools_owns in Ho.
  - intros x Hx. left. by apply Hm.
  - intros x Hx. split; [by apply Hm|]. intros o. apply no_pools_owns.
  - intros u b Hu. by rewrite lookup_empty in Hu.
  - intros u v b c Hu. by rewrite lookup_empty in Hu.
  - intros i P c HP. by apply no_pools_lookup in HP.
Qed.

(** ** One more pool *)

Lemma owns_new_pool Ps i p k o x :
  (i < length Ps)%nat ->
  owns (<[i := Some (new_pool p k)]> Ps) ∅ o x <->
  (o = OPool i /\ p <= x < p + create_size k) \/ (o <> OPool i /\ owns Ps ∅ o x).
Proof.
  intros Hi. destruct o as [j|u]; simpl.
  - destruct (decide (i = j)) as [<-|Hne].
    + split.
      * intros (P & r & HP & Hr & Hx). rewrite list_lookup_insert_eq in HP by done. simplify_eq. left.
        unfold bp_regions in Hr. simpl in *. apply list_elem_of_singleton in Hr as ->. done.
      * intros [[_ Hx]|[? _]]; [|done]. exists (new_pool p k), p. rewrite list_lookup_insert_eq by done.
        split_and!; [done|left|simpl; lia..].
    + split.
      * intros (P & r & HP & Hr). rewrite list_lookup_insert_ne in HP by done. right. split; [congruence|]. by exists P, r.
      * intros [[? _]|[_ (P & r & HP & Hr)]]; [congruence|]. exists P, r. by rewrite list_lookup_insert_ne.
  - split; [intros (b & Hb & _); by rewrite lookup_empty in Hb|].
    intros [[? _]|[_ (b & Hb & _)]]; [done|by rewrite lookup_empty in Hb].
Qed.

Lemma heap_add_pool s Ps i k p s' :
  heap_inv s Ps ∅ -> Ps !! i = Some None -> ALLOCATION_CLASSES !! i = Some k -> ba_created s k p s' ->
  heap_inv s' (<[i := Some (new_pool p k)]> Ps) ∅.
Proof.
  intros HI HN Hk Hc. assert (i < length Ps)%nat as Hlen by (by eapply lookup_lt_Some).
  pose proof (ac_fresh _ _ _ _ Hc) as (_ & _ & _ & Hf). pose proof (ac_mapped _ _ _ _ Hc) as Hm.
  assert (forall o x, owns Ps ∅ o x -> ~ p <= x < p + create_size k) as Hd.
  { intros o x Ho Hx. apply (hi_mapped _ _ _ HI) in Ho. by rewrite Hf in Ho. }
  assert (forall x, mapped s x = true -> mapped s' x = true) as Hmono by (intros x Hx; by rewrite Hm, Hx).
  constructor.
  - rewrite length_insert. apply (hi_len _ _ _ HI).
  - intros j R HR. destruct (decide (i = j)) as [<-|Hne].
    + rewrite list_lookup_insert_eq in HR by done. simplify_eq. split; [apply (ac_rep _ _ _ _ Hc)|done].
    + rewrite list_lookup_insert_ne in HR by done. split; [|by apply (hi_pools _ _ _ HI j)].
      apply (inv_pool_keep_lock s Ps ∅ HI s' j); [done| | |].
      * pose proof (ac_ctl _ _ _ _ Hc) as E. injection E as -> _ _ _. apply lookup_insert_ne.
        pose proof (inv_core s Ps ∅ HI j R HR) as HRc.
        assert (owns Ps ∅ (OPool j) (bp_addr R)) as Ho.
        { exists R, (bp_addr R). split_and!; [done|left|lia|]. pose proof (core_size_pos s R HRc). lia. }
        apply Hd in Ho. pose proof (core_size_pos _ _ (proj1 (ac_rep _ _ _ _ Hc))) as Hsz. simpl in Hsz. lia.
      * intros x Ho. by apply Hmono, (hi_mapped _ _ _ HI _ _ Ho).
      * intros x Hx _. by apply (ac_frame _ _ _ _ Hc).
  - intros o x [[-> Hx]|[_ Ho]]%owns_new_pool; [|by apply Hmono, (hi_mapped _ _ _ HI o)|done].
    rewrite Hm, (proj2 (within_true _ _ _) Hx). apply orb_true_r.
  - intros o o' x Ho Ho'. apply owns_new_pool in Ho; [|done]. apply owns_new_pool in Ho'; [|done].
    destruct Ho as [[-> Hx]|[_ Ho]], Ho' as [[-> Hx']|[_ Ho']]; [done| | |by apply (hi_disj _ _ _ HI _ _ x)].
    + by apply Hd in Ho'.
    + by apply Hd in Ho.
  - intros x Hx. rewrite Hm in Hx. apply orb_prop in Hx as [Hx|Hx].
    + destruct (hi_all _ _ _ HI x Hx) as [|[o Ho]]; [by left|]. right. exists o. apply owns_new_pool; [done|].
      right. split; [|done]. intros ->. destruct Ho as (P & _ & HP & _). congruence.
    + right. exists (OPool i). apply owns_new_pool; [done|]. left. split; [done|]. by apply within_true.
  - intros x Ho. destruct (hi_outside _ _ _ HI x Ho) as [Hmx Hno]. split; [auto|].
    intros o [[-> Hx]|[_ Hox]]%owns_new_pool; [by rewrite Hf in Hmx|by apply (Hno o)|done].
  - intros u b Hu. by rewrite lookup_empty in Hu.
  - intros u v b c Hu. by rewrite lookup_empty in Hu.
  - intros j R c HR Hl. destruct (decide (i = j)) as [<-|Hne].
    + rewrite list_lookup_insert_eq in HR by done. simplify_eq. rewrite new_pool_live in Hl. by apply elem_of_nil in Hl.
    + rewrite list_lookup_insert_ne in HR by done. by apply (hi_live _ _ _ HI j R c).
Qed.

(** ** Initialization *)

Definition static_some s Ps : Prop :=
  exists l, BASE_ALLOC s = BaseAllocT ALLOCATION_CLASSES (pool_ptr <$> Ps) l.

Lemma wp_get_ac_size s Ps i k (Q : Z -> bstate OS -> Prop) :
  static_some s Ps -> ALLOCATION_CLASSES !! i = Some k -> Q k s -> wp (get_ac_size i) Q s.
Proof. intros [l Hl] Hk HQ. unfold get_ac_size. wp_step. rewrite Hl. by wp_step; [exact Hk|]. Qed.

Lemma class_facts i k :
  ALLOCATION_CLASSES !! i = Some k ->
  (0 =? Z.land k (sub64 k 1)) = true /\ 0 < k <= create_max /\ ALIGN_UP_SAFE k MEMORY_ALIGNMENT = k.
Proof.
  intros Hk. unfold create_max. do 5 (destruct i as [|i]; [injection Hk as <-; split_and!; [done|lia|lia|done]|]). done.
Qed.

Lemma wp_create_classes idx s Ps (Q : unit -> bstate OS -> Prop) :
  NoDup idx -> (forall i, i ∈ idx -> Ps !! i = Some None) -> heap_inv s Ps ∅ -> static_some s Ps ->
  (forall s' Ps', heap_inv s' Ps' ∅ -> static_some s' Ps' -> Q tt s') ->
  wp (create_classes idx) Q s.
Proof.
  revert s Ps. induction idx as [|i idx IH]; intros s Ps Hnd HN HI Hst HQ; simpl.
  - apply wp_ret. by apply (HQ s Ps).
  - apply list.NoDup_cons in Hnd as [Hni Hnd]. assert (Ps !! i = Some None) as Hi by (apply HN; left).
    assert (i < length Ps)%nat as Hlen by (by eapply lookup_lt_Some).
    destruct (lookup_lt_is_Some_2 ALLOCATION_CLASSES i) as [k Hk]; [by rewrite <- (hi_len _ _ _ HI)|].
    destruct (class_facts i k Hk) as (Hp & Hkb & Hka). destruct Hst as [l Hl].
    apply wp_bind, (wp_get_ac_size s Ps i k); [by exists l|done|]. wp_step; [done|].
    apply wp_bind, wp_umf_ba_create; [done| |].
    + intros s1 Hm1 Hc1 Hr1. injection Hc1 as El Eb _ _. unfold set_ac. apply wp_bind, wp_modify.
      apply (IH _ Ps); [done|intros j Hj; apply HN; by right| | |].
      * by apply (heap_same s).
      * exists l. simpl. rewrite Eb, Hl. cbn [ac ac_sizes smallest_ac_size_log2]. f_equal.
        apply list_insert_id. by rewrite list_lookup_fmap, Hi.
      * done.
    + intros p s1 Hc1. rewrite Hka in Hc1. pose proof (ac_ctl _ _ _ _ Hc1) as E. injection E as El Eb _ _.
      unfold set_ac. apply wp_bind, wp_modify.
      apply (IH _ (<[i := Some (new_pool p k)]> Ps)); [done| | | |].
      * intros j Hj. rewrite list_lookup_insert_ne; [apply HN; by right|]. by intros ->.
      * apply (heap_same s1); [|done|done|done]. by apply (heap_add_pool s).
      * exists l. simpl. rewrite Eb, Hl. cbn [ac ac_sizes smallest_ac_size_log2]. by rewrite list_fmap_insert.
      * done.
Qed.

Lemma wp_init_first s (Q : unit -> bstate OS -> Prop) :
  gstart s -> (forall s' Ps, ginv s' Ps ∅ -> Q tt s') -> wp init_once Q s.
Proof.
  intros Hs HQ. unfold init_once. wp_step. rewrite (gs_init _ Hs). unfold umf_ba_create_global.
  apply wp_bind, wp_bind, (wp_create_classes classes s no_pools).
  - apply NoDup_seq.
  - intros i Hi. unfold classes in Hi. apply elem_of_seq in Hi. apply lookup_replicate.
    split; [done|]. unfold NUM_ALLOCATION_CLASSES in *. lia.
  - apply heap_start, (gs_mapped _ Hs).
  - apply (gs_static _ Hs).
  - intros s1 Ps HI Hst. apply wp_bind, (wp_get_ac_size s1 Ps 0 16); [done|done|].
    apply wp_bind, wp_modify. apply wp_modify. apply wp_modify. apply (HQ _ Ps). destruct Hst as [l Hl].
    constructor; [by apply (heap_same s1)|..|done|done].
    unfold static_ok. simpl. by rewrite Hl.
Qed.

(** ** Destruction *)

Lemma heap_del_pool s Ps i P s' :
  heap_inv s Ps ∅ -> Ps !! i = Some (Some P) -> unmapped s (bp_size P) (bp_regions P) s' ->
  b_locks s' = delete (bp_addr P + off_free_lock) (b_locks s) -> heap_inv s' (<[i := None]> Ps) ∅.
Proof.
  intros HI HP [Hm Hr] Hl. assert (i < length Ps)%nat as Hlen by (by eapply lookup_lt_Some).
  assert (forall o x, owns (<[i := None]> Ps) ∅ o x -> owns Ps ∅ o x /\ o <> OPool i) as Hsub.
  { intros [j|u] x; [|intros (b & Hb & _); by rewrite lookup_empty in Hb]. intros (R & r & HR & Hr').
    destruct (decide (i = j)) as [<-|Hne]; [rewrite list_lookup_insert_eq in HR by done; congruence|].
    rewrite list_lookup_insert_ne in HR by done. split; [by exists R, r|congruence]. }
  assert (forall o x, owns Ps ∅ o x -> o <> OPool i -> mapped s' x = true) as Hkeep.
  { intros o x Ho Hne. rewrite Hm, (hi_mapped _ _ _ HI o x Ho), andb_true_l.
    destruct (in_regions _ _ x) eqn:E; [|done]. apply in_regions_true in E as (r & Hr' & Hx).
    exfalso. apply Hne, (hi_disj _ _ _ HI o (OPool i) x Ho). by exists P, r. }
  constructor.
  - rewrite length_insert. apply (hi_len _ _ _ HI).
  - intros j R HR. destruct (decide (i = j)) as [<-|Hne]; [rewrite list_lookup_insert_eq in HR by done; congruence|].
    rewrite list_lookup_insert_ne in HR by done. split; [|by apply (hi_pools _ _ _ HI j)].
    apply (inv_pool_keep_lock s Ps ∅ HI s' j); [done| | |].
    + rewrite Hl. apply lookup_delete_ne. intros E. assert (bp_addr P = bp_addr R) as Ea by lia.
      assert (forall n R', Ps !! n = Some (Some R') -> owns Ps ∅ (OPool n) (bp_addr R')) as Ho.
      { intros n R' HR'. exists R', (bp_addr R'). split_and!; [done|left|lia|].
        pose proof (core_size_pos s R' (inv_core s Ps ∅ HI n R' HR')). lia. }
      pose proof (Ho i P HP) as H1'. rewrite Ea in H1'. pose proof (hi_disj _ _ _ HI _ _ _ H1' (Ho j R HR)). congruence.
    + intros x Ho. apply (Hkeep _ x Ho). congruence.
    + intros x _ Hw. apply Hr, (Hkeep (OPool j)); [by apply (inv_word s Ps ∅ HI j R)|congruence].
  - intros o x [Ho Hne]%Hsub. by apply (Hkeep o).
  - intros o o' x [Ho _]%Hsub [Ho' _]%Hsub. by apply (hi_disj _ _ _ HI _ _ x).
  - intros x Hx. rewrite Hm in Hx. apply andb_prop in Hx as [Hx Hn].
    destruct (hi_all _ _ _ HI x Hx) as [|[o Ho]]; [by left|]. right. exists o.
    destruct o as [j|u]; [|destruct Ho as (b & Hb & _); by rewrite lookup_empty in Hb].
    destruct Ho as (R & r & HR & Hr' & Hxr). exists R, r. rewrite list_lookup_insert_ne; [done|].
    intros <-. assert (R = P) as -> by congruence.
    by rewrite (proj2 (in_regions_true _ _ _)) in Hn by eauto.
  - intros x Ho. destruct (hi_outside _ _ _ HI x Ho) as [Hmx Hno]. split.
    + rewrite Hm, Hmx, andb_true_l. destruct (in_regions _ _ x) eqn:E; [|done]. apply in_regions_true in E as (r & Hr' & Hx).
      exfalso. apply (Hno (OPool i)). by exists P, r.
    + intros o [Hox _]%Hsub. by apply (Hno o).
  - intros u b Hu. by rewrite lookup_empty in Hu.
  - intros u v b c Hu. by rewrite lookup_empty in Hu.
  - intros j R c HR Hc. destruct (decide (i = j)) as [<-|Hne]; [rewrite list_lookup_insert_eq in HR by done; congruence|].
    rewrite list_lookup_insert_ne in HR by done. by apply (hi_live _ _ _ HI j R c).
Qed.

Lemma wp_destroy_classes idx s Ps (Q : unit -> bstate OS -> Prop) :
  (forall i, i ∈ idx -> (i < length Ps)%nat) -> heap_inv s Ps ∅ -> static_some s Ps ->
  (forall s' Ps', heap_inv s' Ps' ∅ -> static_some s' Ps' -> ba_is_destroyed s' = ba_is_destroyed s ->
     (forall i, i ∈ idx \/ Ps !! i = Some None -> Ps' !! i = Some None \/ (length Ps <= i)%nat) -> Q tt s') ->
  wp (destroy_classes idx) Q s.
Proof.
  revert s Ps. induction idx as [|i idx IH]; intros s Ps Hin HI Hst HQ; simpl.
  - apply wp_ret. apply (HQ s Ps); [done..|]. intros i [Hi|]; [by apply elem_of_nil in Hi|by left].
  - assert (i < length Ps)%nat as Hlen by (apply Hin; left). destruct (lookup_lt_is_Some_2 Ps i Hlen) as [o Ho].
    destruct Hst as [l Hl]. unfold get_ac. apply wp_bind, wp_bind, wp_get. rewrite Hl. cbn [ac].
    eapply wp_of_option; [by rewrite list_lookup_fmap, Ho|]. destruct o as [P|]; simpl pool_ptr.
    + pose proof (inv_core s Ps ∅ HI i P Ho) as HPc.
      pose proof (core_region s P HPc _ (core_addr P)) as (Hpa & _). rewrite (proj2 (Z.eqb_neq _ 0)) by lia. simpl negb. cbv iota.
      apply wp_bind, wp_bind, wp_umf_ba_destroy; [by apply (hi_pools _ _ _ HI i)| |].
      { destruct (bp_live P) as [|c L] eqn:EL; [done|]. assert (c ∈ bp_live P) as Hc by (rewrite EL; left).
        destruct (hi_live _ _ _ HI i P c Ho Hc) as (u & b & Hu & _). by rewrite lookup_empty in Hu. }
      intros s1 Hum Hc1. injection Hc1 as El Eb _ Ed. unfold set_ac. apply wp_modify.
      apply (IH _ (<[i := None]> Ps)).
      * intros j Hj. rewrite length_insert. apply Hin. by right.
      * apply (heap_same s1); [|done|done|done]. by apply (heap_del_pool s Ps i P).
      * exists l. simpl. rewrite Eb, Hl. cbn [ac ac_sizes smallest_ac_size_log2]. by rewrite list_fmap_insert.
      * intros s' Ps' HI' Hst' Ed' Hn. apply (HQ s' Ps'); [done|done|rewrite Ed'; exact Ed|]. rewrite length_insert in Hn. intros j Hj.
        apply Hn. destruct (decide (i = j)) as [<-|Hne]; [right; by rewrite list_lookup_insert_eq|].
        rewrite list_lookup_insert_ne by done. destruct Hj as [[?|?]%elem_of_cons|?]; [congruence|by left|by right].
    + rewrite Z.eqb_refl. simpl. apply wp_bind, wp_ret, (IH _ Ps); [|done|by exists l|].
      * intros j Hj. apply Hin. by right.
      * intros s' Ps' HI' Hst' Ed' Hn. apply (HQ s' Ps'); [done..|]. intros j Hj. apply Hn.
        destruct Hj as [[->|?]%elem_of_cons|?]; [by right|by left|by right].
Qed.

Lemma wp_destroy_global s Ps (Q : unit -> bstate OS -> Prop) :
  heap_inv s Ps ∅ -> static_some s Ps ->
  (forall s', gstart s' -> ba_is_destroyed s' = true -> Q tt s') -> wp umf_ba_destroy_global Q s.
Proof.
  intros HI Hst HQ. unfold umf_ba_destroy_global. wp_step.
  apply wp_bind, (wp_destroy_classes classes _ Ps).
  - intros i Hi. unfold classes in Hi. apply elem_of_seq in Hi. rewrite (hi_len _ _ _ HI). unfold NUM_ALLOCATION_CLASSES in *. simpl. lia.
  - by apply (heap_same s).
  - exact Hst.
  - intros s1 Ps1 HI1 [l Hl] Ed Hn. wp_step. apply HQ; [|exact Ed].
    assert (Ps1 = no_pools) as ->.
    { apply list_eq. intros i. destruct (decide (i < 5)%nat) as [Hi|Hi].
      - destruct (Hn i) as [->|Hge]; [left; apply elem_of_seq; unfold NUM_ALLOCATION_CLASSES; lia| |].
        { symmetry. apply lookup_replicate. split; [done|]. unfold NUM_ALLOCATION_CLASSES. lia. }
        rewrite (hi_len _ _ _ HI) in Hge. simpl in Hge. lia.
      - rewrite !lookup_ge_None_2; [done|unfold no_pools; rewrite length_replicate; unfold NUM_ALLOCATION_CLASSES; lia|].
        rewrite (hi_len _ _ _ HI1). simpl. lia. }
    constructor; [by exists l|done|]. intros x. split.
    + intros Hx. destruct (hi_all _ _ _ HI1 x Hx) as [|[o Ho]]; [done|]. by apply no_pools_owns in Ho.
    + intros Hx. by apply (hi_outside _ _ _ HI1).
Qed.
End Life.
