(* ===== verification/BaseSpec.v ===== *)
(** * The abstract global base allocator

    What a client of src/base_alloc/base_alloc_global.h relies on: a map from
    the pointers in use to their requested sizes, and the words the client has
    written.  Every executed sequence of calls, loads and stores of a client
    that obeys the rules refines it. *)

From S2P Require Import Prelude Utils BaseMem BaseAlloc BaseAllocInv BaseAllocApi.
From S2P Require Import BaseGlobal BaseGlobalInv BaseGlobalApi.
From stdpp Require Import list.
#[local] Open Scope Z_scope.

Inductive ba_call :=
| BaAlloc (size al : Z)
| BaFree (ptr : Z)
| BaUsable (ptr : Z)
| BaWrite (addr v : Z)
| BaRead (addr : Z).

(** Pointers in use with their sizes, and known words. *)
Record ba_view := BaView {
  bv_live : gmap Z Z;
  bv_words : gmap Z Z;
}.

(** The word at [a] lies in the block at [u]. *)
Definition in_block (V : ba_view) (u a : Z) : Prop :=
  exists n, bv_live V !! u = Some n /\ u <= a /\ a + 8 <= u + n.

(** The rules for the client. *)
Definition ba_obeys (V : ba_view) (c : ba_call) : Prop :=
  match c with
  | BaAlloc size al => 0 < size /\ align_ok al /\ total_size size al < 2 ^ 32
  | BaFree p | BaUsable p => p = 0 \/ is_Some (bv_live V !! p)
  | BaWrite a _ | BaRead a => a mod 8 = 0 /\ exists u, in_block V u a
  end.

(** What a call may return. *)
Definition ba_result (V : ba_view) (c : ba_call) (r : Z) : Prop :=
  match c with
  | BaAlloc size al => r = 0 \/
      0 < r /\ r mod al = 0 /\ r + size < two64 /\ bv_live V !! r = None /\
      forall u n, bv_live V !! u = Some n -> r + size <= u \/ u + n <= r
  | BaFree _ | BaWrite _ _ => r = 0
  | BaUsable p => (p = 0 -> r = 0) /\ forall n, bv_live V !! p = Some n -> n <= r
  | BaRead a => forall v, bv_words V !! a = Some v -> r = v
  end.

(** The view after a call that returned [r]. *)
Definition ba_after (V : ba_view) (c : ba_call) (r : Z) : ba_view :=
  match c with
  | BaAlloc size _ => if r =? 0 then V else BaView (<[r := size]> (bv_live V)) (bv_words V)
  | BaFree p =>
      match bv_live V !! p with
      | Some n => BaView (delete p (bv_live V)) (filter (fun w => within p n w.1 = false) (bv_words V))
      | None => V
      end
  | BaWrite a v => BaView (bv_live V) (<[a := v]> (bv_words V))
  | _ => V
  end.

Fixpoint ba_trace_obeys (V : ba_view) (evs : list (ba_call * Z)) : Prop :=
  match evs with
  | [] => True
  | (c, r) :: evs => ba_obeys V c /\ ba_trace_obeys (ba_after V c r) evs
  end.

Fixpoint ba_trace_results (V : ba_view) (evs : list (ba_call * Z)) : Prop :=
  match evs with
  | [] => True
  | (c, r) :: evs => ba_result V c r /\ ba_trace_results (ba_after V c r) evs
  end.

Definition ba_trace_after (V : ba_view) (evs : list (ba_call * Z)) : ba_view :=
  foldl (fun V e => ba_after V e.1 e.2) V evs.

Section Spec.
Context `{HL : OsLaws OS} `{HO : Outside}.
Implicit Types (s : bstate OS) (Ps : list (option ba_pool)) (A : gmap Z gblock).

Definition run_ba_call (c : ba_call) : M (bstate OS) Z :=
  match c with
  | BaAlloc size al => umf_ba_global_aligned_alloc size al
  | BaFree p => _ ← umf_ba_global_free p; mret 0
  | BaUsable p => umf_ba_global_malloc_usable_size p
  | BaWrite a v => _ ← store a v; mret 0
  | BaRead a => load a
  end.

Fixpoint run_ba_calls (cs : list ba_call) : M (bstate OS) (list Z) :=
  match cs with
  | [] => mret []
  | c :: cs => r ← run_ba_call c; rs ← run_ba_calls cs; mret (r :: rs)
  end.

(** ** The refinement relation *)

Record view_of s A V : Prop := {
  vw_live : bv_live V = gb_req <$> A;
  vw_words : forall a v, bv_words V !! a = Some v -> rd s a = v /\ exists u, in_block V u a;
}.

Definition ba_refines s V : Prop :=
  (gstart s /\ V = BaView ∅ ∅) \/ exists Ps A, ginv s Ps A /\ view_of s A V.

Lemma view_block s Ps A V u a :
  ginv s Ps A -> view_of s A V -> in_block V u a ->
  exists b, A !! u = Some b /\ u <= a /\ a + 8 <= gb_orig b + gb_total b /\ gb_orig b + 8 <= a.
Proof.
  intros HG HV (n & Hn & Hlo & Hhi). rewrite (vw_live _ _ _ HV), lookup_fmap in Hn.
  apply fmap_Some in Hn as (b & Hb & ->). exists b. pose proof (hi_block _ _ _ HG u b Hb) as Hk.
  pose proof (bk_orig _ _ _ _ Hk). pose proof (bk_room _ _ _ _ Hk). split_and!; [done|done|lia|lia].
Qed.

Lemma view_keep s Ps A V s' A' V' :
  ginv s Ps A -> view_of s A V -> keeps s A s' -> bv_live V' = gb_req <$> A' -> bv_words V' = bv_words V ->
  (forall u n, bv_live V !! u = Some n -> bv_live V' !! u = Some n) -> view_of s' A' V'.
Proof.
  intros HG HV Hk El Ew Hl. constructor; [done|]. rewrite Ew. intros a v Ha.
  destruct (vw_words _ _ _ HV a v Ha) as [<- [u Hu]]. split.
  - destruct (view_block s Ps A V u a HG HV Hu) as (b & Hb & ? & ? & ?). apply (Hk u b a Hb). lia.
  - exists u. destruct Hu as (n & Hn & ?). exists n. auto.
Qed.

(** ** The alloc call *)

(** An exhausted class makes the call undefined: [add_metadata_and_align]
    gets the NULL that [umf_ba_alloc] returned. *)
Lemma global_alloc_exhausted s Ps A size al P :
  ginv s Ps A -> 0 < size -> align_ok al -> total_size size al < 2 ^ 32 ->
  class_idx (total_size size al) < NUM_ALLOCATION_CLASSES ->
  Ps !! Z.to_nat (class_idx (total_size size al)) = Some (Some P) ->
  bp_free P = [] -> (os_mmap (bp_size P) (b_os s)).1 = None ->
  umf_ba_global_aligned_alloc size al s = None.
Proof.
  intros HG Hs Hal Ht Hi HP Hf Hmm. pose proof (total_pos size al Hs Hal) as Htp.
  assert (wp (umf_ba_alloc (bp_addr P)) (fun r _ => r = 0) s) as Ha.
  { apply wp_umf_ba_alloc; [by apply (hi_pools _ _ _ HG _ P HP)|done|].
    intros c s' P' [?|?]; congruence. }
  unfold umf_ba_global_aligned_alloc. apply fails_bind, (wp_init_once s Ps A); [done|].
  rewrite (proj2 (Z.eqb_neq size 0)) by lia. unfold ALLOC_METADATA_SIZE, SIZE_MAX.
  rewrite Z.gtb_ltb, (proj2 (Z.ltb_ge _ _)) by lia.
  assert ((al >? 8) && (size + 8 >? 18446744073709551615 - al) = false) as ->.
  { destruct Hal as [_ Ha32]. rewrite (Z.gtb_ltb (size + 8)), (proj2 (Z.ltb_ge _ _)), andb_false_r by lia. done. }
  cbv zeta. assert ((if al >? 8 then size + 8 + al else size + 8) = total_size size al) as ->.
  { unfold total_size. destruct (al >? 8); lia. }
  pose proof (class_idx_nonneg (total_size size al)) as Hi0.
  apply fails_bind, (wp_size_to_idx s (pool_ptr <$> Ps)); [apply HG|lia|].
  rewrite Z.geb_leb, (proj2 (Z.leb_gt _ _)) by done.
  apply fails_bind, (wp_get_ac s Ps A); [done| |simpl; unfold NUM_ALLOCATION_CLASSES in *; lia].
  intros o Ho. simplify_eq. change (pool_ptr (Some P)) with (bp_addr P).
  pose proof (core_region s P (inv_core s Ps A HG _ P HP) _ (core_addr P)) as (? & _).
  rewrite (proj2 (Z.eqb_neq (bp_addr P) 0)) by lia. apply fails_bind. eapply wp_mono; [exact Ha|].
  intros r s' ->. unfold add_metadata_and_align.
  apply fails_bind, wp_c_assert; [by apply Z.ltb_lt|]. apply fails_bind, wp_c_assert; [apply Z.ltb_lt, Hal|]. done.
Qed.

(** A call that returned went through: its class was not exhausted. *)
Lemma alloc_returned s Ps A size al r s' :
  ginv s Ps A -> 0 < size -> align_ok al -> total_size size al < 2 ^ 32 ->
  umf_ba_global_aligned_alloc size al s = Some (r, s') -> pool_can_alloc s Ps (total_size size al).
Proof.
  intros HG Hs Hal Ht Hrun P Hi HP. destruct (decide (bp_free P = [])) as [Hf|]; [|by left].
  destruct ((os_mmap (bp_size P) (b_os s)).1) eqn:E; [by right|]. exfalso.
  by rewrite (global_alloc_exhausted s Ps A size al P) in Hrun.
Qed.

Lemma alloc_run s Ps A size al r s' :
  ginv s Ps A -> 0 < size -> align_ok al -> total_size size al < 2 ^ 32 ->
  umf_ba_global_aligned_alloc size al s = Some (r, s') ->
  (r = 0 /\ ginv s' Ps A /\ keeps s A s') \/ exists Ps' b, galloc_post s A size al r s' Ps' b.
Proof.
  intros HG Hs Hal Ht Hrun. pose proof (alloc_returned s Ps A size al r s' HG Hs Hal Ht Hrun) as Hcan.
  pose proof (wp_global_aligned_alloc s Ps A size al (fun r s' =>
    (r = 0 /\ ginv s' Ps A /\ keeps s A s') \/ exists Ps' b, galloc_post s A size al r s' Ps' b) HG Hs Hal Ht Hcan) as Hwp.
  unfold wp in Hwp. rewrite Hrun in Hwp. apply Hwp; [by left|eauto].
Qed.

(** The first call initializes; the rest of it is a call in the state after. *)
Lemma alloc_first s size al :
  gstart s -> exists s1 Ps, ginv s1 Ps ∅ /\
    umf_ba_global_aligned_alloc size al s = umf_ba_global_aligned_alloc size al s1.
Proof.
  intros Hs. destruct (wp_run init_once (fun _ s' => exists Ps, ginv s' Ps ∅) s) as (t & s1 & Hrun & Ps & HG).
  { apply wp_init_first; eauto. }
  exists s1, Ps. split; [done|]. unfold umf_ba_global_aligned_alloc, mbind, M_bind. rewrite Hrun.
  unfold init_once, mbind, M_bind, gets. rewrite (gi_init _ _ _ HG). done.
Qed.

Lemma view_alloc s Ps A V size al u s' Ps' b :
  ginv s Ps A -> view_of s A V -> 0 < size -> galloc_post s A size al u s' Ps' b ->
  ba_result V (BaAlloc size al) u /\ ba_refines s' (ba_after V (BaAlloc size al) u).
Proof.
  intros HG HV Hs HP. destruct HP as [Hn HG' Hreq Htot Hal Hk].
  pose proof (hi_block _ _ _ HG' u b (lookup_insert_eq _ _ _)) as Hb.
  pose proof (bk_orig _ _ _ _ Hb). pose proof (bk_room _ _ _ _ Hb). pose proof (bk_total _ _ _ _ Hb).
  assert (bv_live V !! u = None) as Hvn by (by rewrite (vw_live _ _ _ HV), lookup_fmap, Hn).
  split.
  - right. split_and!; [lia|done|lia|done|]. intros v n Hv.
    rewrite (vw_live _ _ _ HV), lookup_fmap in Hv. apply fmap_Some in Hv as (d & Hd & ->).
    assert (u <> v) as Hne by congruence.
    assert (<[u := b]> A !! v = Some d) as Hd' by (by rewrite lookup_insert_ne).
    pose proof (hi_block _ _ _ HG' v d Hd') as Hkd. pose proof (bk_orig _ _ _ _ Hkd). pose proof (bk_room _ _ _ _ Hkd).
    pose proof (inv_blocks_disjoint s' Ps' _ HG' u v b d u (lookup_insert_eq _ _ _) Hd' Hne) as D1.
    pose proof (inv_blocks_disjoint s' Ps' _ HG' u v b d v (lookup_insert_eq _ _ _) Hd' Hne) as D2. lia.
  - simpl. rewrite (proj2 (Z.eqb_neq u 0)) by lia. right. exists Ps', (<[u := b]> A). split; [done|].
    apply (view_keep s Ps A V); try done.
    + simpl. by rewrite (vw_live _ _ _ HV), fmap_insert, Hreq.
    + intros v n Hv. simpl. rewrite lookup_insert_ne; [done|]. congruence.
Qed.

(** ** The other calls *)

Lemma view_lookup s A V p : view_of s A V -> is_Some (bv_live V !! p) -> exists b, A !! p = Some b.
Proof. intros HV [n Hn]. rewrite (vw_live _ _ _ HV), lookup_fmap in Hn. apply fmap_Some in Hn as (b & ? & _). eauto. Qed.

Lemma view_free s Ps A V u b s' Ps' :
  ginv s Ps A -> view_of s A V -> A !! u = Some b -> ginv s' Ps' (delete u A) -> keeps s (delete u A) s' ->
  ba_refines s' (ba_after V (BaFree u) 0).
Proof.
  intros HG HV Hu HG' Hk. right. exists Ps', (delete u A). split; [done|]. simpl.
  assert (bv_live V !! u = Some (gb_req b)) as -> by (by rewrite (vw_live _ _ _ HV), lookup_fmap, Hu).
  constructor; simpl; [by rewrite fmap_delete, (vw_live _ _ _ HV)|].
  intros a v [Ha Hw]%map_lookup_filter_Some. apply within_false in Hw. simpl in Hw.
  destruct (vw_words _ _ _ HV a v Ha) as [<- [w Hin]].
  destruct (view_block s Ps A V w a HG HV Hin) as (d & Hd & ? & ? & ?).
  destruct Hin as (n & Hn & ? & ?). assert (u <> w) as Hne.
  { intros ->. rewrite (vw_live _ _ _ HV), lookup_fmap, Hu in Hn. injection Hn as <-. lia. }
  split; [|exists w, n; simpl; by rewrite lookup_delete_ne].
  apply (Hk w d a); [by rewrite lookup_delete_ne|lia].
Qed.

Lemma view_write s Ps A V a v :
  ginv s Ps A -> view_of s A V -> (exists u, in_block V u a) ->
  ba_refines (wr a v s) (ba_after V (BaWrite a v) 0).
Proof.
  intros HG HV [u Hu]. destruct (view_block s Ps A V u a HG HV Hu) as (b & Hb & ? & ? & ?).
  right. exists Ps, A. split.
  - apply (ginv_ctl s _ Ps A); [done|done| |done]. by apply (heap_write s Ps A u b); [apply HG|..|lia].
  - constructor; [apply (vw_live _ _ _ HV)|]. simpl. intros x w [[<- <-]|[Hne Hx]]%lookup_insert_Some.
    + split; [apply rd_wr_eq|by exists u].
    + rewrite rd_wr_ne by done. by apply (vw_words _ _ _ HV).
Qed.

Lemma wp_ba_call s Ps A V c :
  ginv s Ps A -> view_of s A V -> ba_obeys V c -> (forall size al, c <> BaAlloc size al) ->
  wp (run_ba_call c) (fun r s' => ba_result V c r /\ ba_refines s' (ba_after V c r)) s.
Proof.
  intros HG HV Hob Hna.
  assert (ba_refines s V) as Href by (right; by exists Ps, A).
  assert (forall u b, A !! u = Some b -> u <> 0) as Hnz.
  { intros u b Hb. pose proof (bk_orig _ _ _ _ (hi_block _ _ _ HG u b Hb)). lia. }
  assert (bv_live V !! 0 = None) as Hv0.
  { destruct (bv_live V !! 0) eqn:E; [|done]. destruct (view_lookup s A V 0 HV) as [b Hb]; [by rewrite E|].
    by apply Hnz in Hb. }
  destruct c as [size al|p|p|a v|a]; simpl; [by destruct (Hna size al)| | | |].
  - apply wp_bind. destruct Hob as [->|Hp].
    + unfold umf_ba_global_free. rewrite Z.eqb_refl. apply wp_ret, wp_ret. simpl. by rewrite Hv0.
    + destruct (view_lookup s A V p HV Hp) as [b Hb]. apply (wp_global_free s Ps A p b); [done..|].
      intros s' Ps' HG' Hk. apply wp_ret. split; [done|]. by apply (view_free s Ps A V p b s' Ps').
  - destruct Hob as [->|Hp].
    + unfold umf_ba_global_malloc_usable_size. rewrite Z.eqb_refl. apply wp_ret. split; [|done]. split; [done|].
      intros n Hn. congruence.
    + destruct (view_lookup s A V p HV Hp) as [b Hb]. apply (wp_global_usable s Ps A p b); [done..|]. split; [|done].
      split; [by intros ->; apply Hnz in Hb|]. intros n Hn. rewrite (vw_live _ _ _ HV), lookup_fmap, Hb in Hn.
      injection Hn as <-. pose proof (bk_room _ _ _ _ (hi_block _ _ _ HG p b Hb)). lia.
  - destruct Hob as [Ha8 Hin]. apply wp_bind, wp_store; [|done|].
    + destruct Hin as [u Hu]. destruct (view_block s Ps A V u a HG HV Hu) as (b & Hb & ? & ? & ?).
      apply (inv_block_mapped s Ps A HG u b); [done|lia].
    + apply wp_ret. split; [done|]. by apply (view_write s Ps A).
  - destruct Hob as [Ha8 [u Hu]]. destruct (view_block s Ps A V u a HG HV Hu) as (b & Hb & ? & ? & ?).
    apply wp_load_word; [apply (inv_block_mapped s Ps A HG u b); [done|lia]|done|]. split; [|done].
    intros v Hv. by apply (vw_words _ _ _ HV a v).
Qed.

Lemma start_call s c :
  gstart s -> ba_obeys (BaView ∅ ∅) c -> (forall size al, c <> BaAlloc size al) ->
  wp (run_ba_call c) (fun r s' => ba_result (BaView ∅ ∅) c r /\ ba_refines s' (ba_after (BaView ∅ ∅) c r)) s.
Proof.
  intros Hs Hob Hna. assert (ba_refines s (BaView ∅ ∅)) as Href by (by left).
  destruct c as [size al|p|p|a v|a]; simpl; [by destruct (Hna size al)| | | |].
  - destruct Hob as [->|[n Hn]]; [|by simpl in Hn; rewrite lookup_empty in Hn]. done.
  - destruct Hob as [->|[n Hn]]; [|by simpl in Hn; rewrite lookup_empty in Hn].
    unfold umf_ba_global_malloc_usable_size. apply wp_ret. split; [|done]. split; [done|].
    intros n Hn. simpl in Hn. by rewrite lookup_empty in Hn.
  - destruct Hob as [_ [u (n & Hn & _)]]. simpl in Hn. by rewrite lookup_empty in Hn.
  - destruct Hob as [_ [u (n & Hn & _)]]. simpl in Hn. by rewrite lookup_empty in Hn.
Qed.

Lemma call_refines s V c r s' :
  ba_refines s V -> ba_obeys V c -> run_ba_call c s = Some (r, s') ->
  ba_result V c r /\ ba_refines s' (ba_after V c r).
Proof.
  intros Href Hob Hrun.
  assert (forall size al s1 Ps A, c = BaAlloc size al -> ginv s1 Ps A -> view_of s1 A V ->
    umf_ba_global_aligned_alloc size al s1 = Some (r, s') ->
    ba_result V c r /\ ba_refines s' (ba_after V c r)) as Halloc.
  { intros size al s1 Ps A -> HG HV Hr. destruct Hob as (Hs & Hal & Ht).
    destruct (alloc_run s1 Ps A size al r s' HG Hs Hal Ht Hr) as [(-> & HG' & Hk)|(Ps' & b & Hp)].
    - split; [by left|]. right. exists Ps, A. split; [done|]. apply (view_keep s1 Ps A V); try done. apply (vw_live _ _ _ HV).
    - by apply (view_alloc s1 Ps A V size al r s' Ps' b). }
  assert (wp (run_ba_call c) (fun r s' => ba_result V c r /\ ba_refines s' (ba_after V c r)) s ->
    ba_result V c r /\ ba_refines s' (ba_after V c r)) as Hwp.
  { unfold wp. by rewrite Hrun. }
  destruct Href as [[Hs ->]|(Ps & A & HG & HV)].
  - destruct c as [size al| | | |]; [|apply Hwp, start_call; done..].
    destruct (alloc_first s size al Hs) as (s1 & Ps & HG & E). simpl in Hrun. rewrite E in Hrun.
    apply (Halloc size al s1 Ps ∅); [done|done| |done]. constructor; [by rewrite fmap_empty|].
    intros a v Ha. simpl in Ha. by rewrite lookup_empty in Ha.
  - destruct c as [size al| | | |]; [by apply (Halloc size al s Ps A)|apply Hwp; by apply (wp_ba_call s Ps A)..].
Qed.

Lemma calls_refine cs s V rs s' :
  ba_refines s V -> run_ba_calls cs s = Some (rs, s') -> ba_trace_obeys V (zip cs rs) ->
  length rs = length cs /\ ba_trace_results V (zip cs rs) /\ ba_refines s' (ba_trace_after V (zip cs rs)).
Proof.
  revert s V rs. induction cs as [|c cs IH]; intros s V rs Href Hrun Hob; simpl in Hrun.
  - injection Hrun as <- <-. done.
  - unfold mbind, M_bind in Hrun. destruct (run_ba_call c s) as [[r s1]|] eqn:E1; [|done].
    destruct (run_ba_calls cs s1) as [[rs' s2]|] eqn:E2; [|done]. injection Hrun as <- <-.
    destruct Hob as [Hc Hob]. destruct (call_refines s V c r s1 Href Hc E1) as [Hr Href1].
    destruct (IH s1 (ba_after V c r) rs' Href1 E2 Hob) as (Hl & Hrs & Hf). simpl. split_and!; [lia|done|done|done].
Qed.

Lemma wp_destroy_view s V :
  ba_refines s V -> bv_live V = ∅ ->
  wp umf_ba_destroy_global (fun _ s' => gstart s' /\ ba_is_destroyed s' = true) s.
Proof.
  intros [[Hs ->]|(Ps & A & HG & HV)] Hl.
  - apply (wp_destroy_global s no_pools); [apply heap_start, (gs_mapped _ Hs)|apply (gs_static _ Hs)|auto].
  - assert (A = ∅) as ->.
    { apply map_eq. intros u. rewrite lookup_empty. rewrite (vw_live _ _ _ HV) in Hl.
      assert ((gb_req <$> A) !! u = None) as E by (by rewrite Hl, lookup_empty).
      rewrite lookup_fmap in E. by apply fmap_None in E. }
    apply (wp_destroy_global s Ps); [apply HG|exists 4; apply (gi_static _ _ _ HG)|auto].
Qed.
End Spec.
