(* ===== verification/BaseTheorems.v ===== *)
(** * Theorems about the base allocator

    The properties of src/base_alloc/base_alloc.c and base_alloc_global.c,
    and an executable operating system that shows that they apply. *)

From S2P Require Import Prelude Utils BaseMem BaseAlloc BaseAllocInv BaseAllocApi.
From S2P Require Import BaseGlobal BaseGlobalInv BaseGlobalApi BaseSpec.
From stdpp Require Import list.
#[local] Open Scope Z_scope.

(** ** An executable operating system

    Pages of 4096 bytes; a mapping is placed above all others; each [mmap]
    takes an entry of the script and fails on [false]. *)
Record demo_os := DemoOs {
  do_pages : gset Z;
  do_script : list bool;
}.

Definition do_top (pages : gset Z) : Z := set_fold Z.max 0 pages.
Definition do_count (size : Z) : Z := (size + 4095) / 4096.
Definition do_limit : Z := 2 ^ 50.

Definition demo_mmap (size : Z) (o : demo_os) : option Z * demo_os :=
  let p := 1 + do_top (do_pages o) in
  match do_script o with
  | false :: rest => (None, DemoOs (do_pages o) rest)
  | script =>
      if p + do_count size <? do_limit
      then (Some (p * 4096), DemoOs (do_pages o ∪ list_to_set (seqZ p (do_count size))) (tail script))
      else (None, DemoOs (do_pages o) (tail script))
  end.

Definition demo_munmap (a size : Z) (o : demo_os) : Z * demo_os :=
  (0, DemoOs (do_pages o ∖ list_to_set (seqZ (a / 4096) (do_count size))) (do_script o)).

#[export] Instance demo_Os : Os demo_os := {
  os_page_size := 4096;
  os_proxy_lib := false;
  os_mapped := fun o x => bool_decide (x / 4096 ∈ do_pages o);
  os_mmap := demo_mmap;
  os_munmap := demo_munmap;
  os_mutex_init := fun o => (0, o);
}.

Lemma do_top_spec (X : gset Z) x : x ∈ X -> x <= do_top X.
Proof.
  unfold do_top. apply (set_fold_ind_L (fun b Y => x ∈ Y -> x <= b)).
  - intros Hx. by apply not_elem_of_empty in Hx.
  - intros y Y b Hy IH [->%elem_of_singleton|Hx]%elem_of_union; [lia|]. specialize (IH Hx). lia.
Qed.

Lemma do_top_nonneg (X : gset Z) : 0 <= do_top X.
Proof. unfold do_top. apply (set_fold_ind_L (fun b Y => 0 <= b)); lia. Qed.

Lemma demo_within p size x :
  within (p * 4096) (page_up size) x = bool_decide (x / 4096 ∈ seqZ p (do_count size)).
Proof.
  unfold page_up, do_count. simpl. replace (size + 4096 - 1) with (size + 4095) by lia.
  set (n := (size + 4095) / 4096). destruct (within _ _ x) eqn:E.
  - apply within_true in E. symmetry. apply bool_decide_eq_true, elem_of_seqZ. zmod.
  - apply within_false in E. symmetry. apply bool_decide_eq_false. intros Hx%elem_of_seqZ. apply E. zmod.
Qed.

#[export] Instance demo_OsLaws : OsLaws demo_os.
Proof.
  split; simpl.
  - exists 12. split; [lia|done].
  - lia.
  - intros size o a o' Hs E. unfold demo_mmap in E. set (p := 1 + do_top (do_pages o)) in *.
    assert (0 < p) as Hp by (pose proof (do_top_nonneg (do_pages o)); lia).
    assert (forall script, (if p + do_count size <? do_limit
      then (Some (p * 4096), DemoOs (do_pages o ∪ list_to_set (seqZ p (do_count size))) script)
      else (None, DemoOs (do_pages o) script)) = (Some a, o') ->
      0 < a /\ a mod 4096 = 0 /\ a + page_up size < two64 /\
      (forall x, within a (page_up size) x = true -> bool_decide (x / 4096 ∈ do_pages o) = false) /\
      (forall x, bool_decide (x / 4096 ∈ do_pages o') = bool_decide (x / 4096 ∈ do_pages o) || within a (page_up size) x)) as Hgen.
    { intros script E'. destruct (p + do_count size <? do_limit) eqn:El; [|done]. apply Z.ltb_lt in El.
      injection E' as <- <-. split_and!.
      - lia.
      - apply Z.mod_mul. lia.
      - unfold page_up, do_limit, do_count, two64 in *. simpl in *.
        replace (size + 4096 - 1) with (size + 4095) by lia. lia.
      - intros x. rewrite demo_within, bool_decide_eq_true, bool_decide_eq_false, elem_of_seqZ.
        intros Hx Hin. apply do_top_spec in Hin. unfold p in Hx. lia.
      - intros x. rewrite demo_within. simpl. rewrite <- bool_decide_or. apply bool_decide_ext.
        rewrite elem_of_union, elem_of_list_to_set. done. }
    destruct (do_script o) as [|[] rest]; [by eapply Hgen..|done].
  - intros size o o' E x. unfold demo_mmap in E.
    destruct (do_script o) as [|[] rest]; [| |by injection E as <-];
      destruct (_ <? _); try done; by injection E as <-.
  - intros a size o r o' Ha Hs E. injection E as <- <-. split; [done|]. intros x. simpl.
    assert (a = a / 4096 * 4096) as -> by zmod. rewrite demo_within, Z.div_mul by lia.
    rewrite <- bool_decide_not, <- bool_decide_and. apply bool_decide_ext.
    rewrite elem_of_difference, elem_of_list_to_set. done.
  - intros o r o' E. by injection E as <- <-.
Qed.

(** The process before its first call. *)
Definition demo_start (script : list bool) : bstate demo_os :=
  BState (DemoOs ∅ script) ∅ ∅ (BaseAllocT ALLOCATION_CLASSES [0; 0; 0; 0; 0] 0) false false.

#[local] Instance demo_outside : Outside := fun _ => False.

Lemma demo_start_ok script : gstart (demo_start script).
Proof.
  constructor; [by exists 0|done|]. intros x. unfold outside, demo_outside, mapped. simpl.
  rewrite bool_decide_eq_true. split; [|done]. intros Hx. by apply not_elem_of_empty in Hx.
Qed.

(** ** The global allocator *)

Section Claims.
Context `{HL : OsLaws OS} `{HO : Outside}.
Implicit Types (s : bstate OS) (Ps : list (option ba_pool)) (A : gmap Z gblock) (V : ba_view).

(** C4 Every executed sequence of calls of the global base allocator, of loads
    and of stores, by a client that passes valid pointers and writes inside its
    blocks only, refines the abstract allocator: pointers are fresh, aligned
    and disjoint from all blocks in use, the usable size covers the request,
    and a word reads as it was last written. *)
Theorem ba_calls_refine cs s V rs s' :
  ba_refines s V -> run_ba_calls cs s = Some (rs, s') -> ba_trace_obeys V (zip cs rs) ->
  length rs = length cs /\ ba_trace_results V (zip cs rs) /\ ba_refines s' (ba_trace_after V (zip cs rs)).
Proof. apply calls_refine. Qed.

(** C11 A valid call runs to the end, with a result the abstract allocator
    allows, whenever its class has a free chunk or the system has memory. *)
Theorem ba_call_total s Ps A V c :
  ginv s Ps A -> view_of s A V -> ba_obeys V c ->
  (forall size al, c = BaAlloc size al -> pool_can_alloc s Ps (total_size size al)) ->
  wp (run_ba_call c) (fun r s' => ba_result V c r /\ ba_refines s' (ba_after V c r)) s.
Proof.
  intros HG HV Hob Hcan. destruct c as [size al| | | |]; [|by apply (wp_ba_call s Ps A)..].
  destruct Hob as (Hs & Hal & Ht).
  apply (wp_global_aligned_alloc s Ps A); [done..|by apply Hcan| |].
  - intros s' HG' Hk. split; [by left|]. right. exists Ps, A. split; [done|].
    apply (view_keep s Ps A V); try done. apply (vw_live _ _ _ HV).
  - intros u s' Ps' b Hp. by apply (view_alloc s Ps A V size al u s' Ps' b).
Qed.

(** C27 Destroying the global allocator after every pointer has been freed
    returns every mapping it made: the mapped addresses are those of the state
    before the first call, and the allocator can be used again. *)
Theorem ba_global_no_leak cs s rs s' :
  gstart s -> run_ba_calls cs s = Some (rs, s') -> ba_trace_obeys (BaView ∅ ∅) (zip cs rs) ->
  bv_live (ba_trace_after (BaView ∅ ∅) (zip cs rs)) = ∅ ->
  wp umf_ba_destroy_global (fun _ s2 => gstart s2 /\ forall x, mapped s2 x = mapped s x) s'.
Proof.
  intros Hs Hrun Hob Hl. destruct (calls_refine cs s (BaView ∅ ∅) rs s') as (_ & _ & Href); [by left|done..|].
  eapply wp_mono; [by apply (wp_destroy_view s' _ Href)|]. intros _ s2 [Hs2 _]. split; [done|].
  intros x. apply eq_bool_prop_intro. rewrite !Is_true_true, (gs_mapped _ Hs2), (gs_mapped _ Hs). done.
Qed.

(** C37 When the class of a request is exhausted and the system has no memory,
    the call does not return NULL: [add_metadata_and_align] is called on the
    NULL of [umf_ba_alloc] and its assertion fails. *)
Theorem ba_global_alloc_exhausted s Ps A size al P :
  ginv s Ps A -> 0 < size -> align_ok al -> total_size size al < 2 ^ 32 ->
  class_idx (total_size size al) < NUM_ALLOCATION_CLASSES ->
  Ps !! Z.to_nat (class_idx (total_size size al)) = Some (Some P) ->
  bp_free P = [] -> (os_mmap (bp_size P) (b_os s)).1 = None ->
  umf_ba_global_aligned_alloc size al s = None.
Proof. apply global_alloc_exhausted. Qed.

(** [umf_ba_alloc] returns NULL exactly when the pool is exhausted and the
    system has no memory, and otherwise a chunk that is aligned, mapped, not
    live and disjoint from every live chunk; no byte outside the pool's own
    words changes. *)
Theorem umf_ba_alloc_correct s P :
  pool_rep s P ->
  wp (umf_ba_alloc (bp_addr P)) (fun c s' =>
    (c = 0 /\ bp_free P = [] /\ (os_mmap (bp_size P) (b_os s)).1 = None /\ pool_rep s' P) \/
    exists P', ba_allocated s P c s' P' /\ (bp_free P <> [] \/ (os_mmap (bp_size P) (b_os s)).1 <> None) /\
      0 < c /\ c mod 8 = 0 /\ (forall x, c <= x < c + bp_chunk P -> mapped s' x = true) /\
      forall d, d ∈ bp_live P -> apart2 (bp_chunk P) c d) s.
Proof.
  intros HP. apply wp_umf_ba_alloc; [done| |].
  - intros s' Hf Hmm Hm Hc Hr. left. split_and!; [done..|]. apply (rep_frame s); [done|done| |by injection Hc as ->].
    intros r x Hin Hx. rewrite Hm. by apply (core_region s P (proj1 HP) r).
  - intros c s' P' Hex Hal. right. exists P'. destruct (aa_rep _ _ _ _ _ Hal) as [HP' _].
    pose proof (aa_chunk _ _ _ _ _ Hal) as Hc. pose proof (aa_ext _ _ _ _ _ Hal) as (_ & _ & Ek & _).
    pose proof (core_chunk_range _ _ HP' c Hc). pose proof (core_chunk_word _ _ HP' c Hc) as [_ Hc8].
    split_and!; [done|done|lia|done| |].
    + intros x Hx. apply (core_chunk_mapped _ _ HP' c); [done|]. by rewrite Ek.
    + intros d Hd. rewrite <- Ek. apply (core_chunks_apart _ _ HP'); [done| |].
      * assert (d ∈ bp_live P') as [? _]%elem_of_live; [|done]. rewrite (aa_live _ _ _ _ _ Hal). by right.
      * intros ->. by apply (aa_fresh _ _ _ _ _ Hal).
Qed.

(** [umf_ba_free] of a live chunk puts it back: the pool has one live chunk
    less, the two debug walks and the ownership assertion pass, and the next
    [umf_ba_alloc] returns that chunk. *)
Theorem umf_ba_free_correct s P c :
  pool_rep s P -> c ∈ bp_live P ->
  wp (umf_ba_free (bp_addr P) c) (fun _ s' =>
    let P' := with_free P (c :: bp_free P) in
    pool_rep s' P' /\ bp_live P ≡ₚ c :: bp_live P' /\
    (forall x, mapped s' x = mapped s x) /\ (forall x, ~ pool_word P x -> x <> c -> rd s' x = rd s x) /\
    wp (umf_ba_alloc (bp_addr P)) (fun d _ => d = c) s') s.
Proof.
  intros HP Hc. pose proof HP as [HPc _]. pose proof Hc as [Hcc Hcf]%elem_of_live.
  apply wp_umf_ba_free; [done..|]. intros s' HP' Hctl Hm Hr. split_and!; [done| |done|done|].
  - pose proof (live_cons s P c (bp_free P) HPc) as E. destruct P. apply E; [|done].
    constructor; [done|apply (pr_nodup _ _ HPc)].
  - apply (wp_umf_ba_alloc s' (with_free P (c :: bp_free P))); [done|done|].
    intros d s2 P2 _ Hal. by apply (aa_head _ _ _ _ _ Hal c (bp_free P)).
Qed.
End Claims.

(** ** Witnesses *)

(** Requests of two classes and one of the system, with stores and loads. *)
Definition demo_calls : list ba_call :=
  [BaAlloc 20 8; BaAlloc 100 64; BaWrite 8296 7; BaWrite 49280 9; BaAlloc 5000 8; BaRead 8296;
   BaUsable 49280; BaFree 49280; BaRead 8296; BaFree 8296; BaFree 86024].
Definition demo_results : list Z := [8296; 49280; 0; 0; 86024; 7; 140; 0; 7; 0; 0].

Lemma demo_run : exists s', run_ba_calls demo_calls (demo_start []) = Some (demo_results, s').
Proof.
  assert (option_map fst (run_ba_calls demo_calls (demo_start [])) = Some demo_results) as E
    by (vm_compute; reflexivity).
  destruct (run_ba_calls demo_calls (demo_start [])) as [[rs s']|]; [|done].
  exists s'. simpl in E. congruence.
Qed.

Ltac obey := repeat match goal with
  | |- _ /\ _ => split
  | |- True => exact I
  | |- align_ok _ => split; [|lia]
  | |- pow2 8 => exists 3
  | |- pow2 64 => exists 6
  | |- _ \/ _ => right; eexists; reflexivity
  | |- _ <= _ => vm_compute; discriminate
  | |- _ < _ => vm_compute; reflexivity
  | |- @eq Z _ _ => reflexivity
  end.

Lemma demo_obeys : ba_trace_obeys (BaView ∅ ∅) (zip demo_calls demo_results).
Proof.
  assert (forall V u a n, bv_live V !! u = Some n -> u <= a -> a + 8 <= u + n -> exists u, in_block V u a) as Hin
    by (intros V u a n ???; by exists u, n).
  simpl. obey.
  - apply (Hin _ 8296 _ 20); [reflexivity|lia|lia].
  - apply (Hin _ 49280 _ 100); [reflexivity|lia|lia].
  - apply (Hin _ 8296 _ 20); [reflexivity|lia|lia].
  - apply (Hin _ 8296 _ 20); [reflexivity|lia|lia].
Qed.

Lemma ba_calls_refine_witness :
  exists s', run_ba_calls demo_calls (demo_start []) = Some (demo_results, s') /\
    ba_trace_results (BaView ∅ ∅) (zip demo_calls demo_results) /\
    ba_refines s' (ba_trace_after (BaView ∅ ∅) (zip demo_calls demo_results)).
Proof.
  destruct demo_run as [s' E]. exists s'. split; [exact E|].
  apply (ba_calls_refine demo_calls (demo_start []) (BaView ∅ ∅) demo_results s'); [|exact E|exact demo_obeys].
  left. split; [apply demo_start_ok|reflexivity].
Defined.

(** The state after initialization: every pool has free chunks. *)
Lemma demo_os_init : exists s Ps, ginv (OS := demo_os) s Ps ∅ /\ init_once (demo_start []) = Some (tt, s).
Proof.
  destruct (wp_run init_once (fun _ s' => exists Ps, ginv s' Ps ∅) (demo_start [])) as ([] & s & E & Ps & HG); [|eauto].
  apply wp_init_first; [apply demo_start_ok|eauto].
Qed.

Lemma fresh_can_alloc `{HL : OsLaws OS} `{HO : Outside} (s : bstate OS) Ps total :
  ginv s Ps ∅ -> pool_can_alloc s Ps total.
Proof.
  intros HG P _ HP. left. intros Hf. pose proof (inv_core s Ps ∅ HG _ P HP) as HPc.
  assert (exists c, c ∈ bp_chunks P) as [c Hc].
  { exists (bp_addr P + off_data). apply elem_of_bp_chunks. eexists. split; [left|]. apply elem_of_chunks_in. exists 0.
    simpl. pose proof (pr_size _ _ HPc). pose proof (pr_chunk _ _ HPc). split; [|lia]. split; [lia|].
    apply Z.div_str_pos. lia. }
  destruct (hi_live _ _ _ HG _ P c HP) as (u & b & Hu & _); [|by rewrite lookup_empty in Hu].
  apply elem_of_live. split; [done|]. rewrite Hf. apply not_elem_of_nil.
Qed.

Lemma empty_view `{HL : OsLaws OS} `{HO : Outside} (s : bstate OS) : view_of s ∅ (BaView ∅ ∅).
Proof. constructor; [by rewrite fmap_empty|]. intros a v Ha. simpl in Ha. by rewrite lookup_empty in Ha. Qed.

Lemma ba_call_total_witness :
  exists s : bstate demo_os, init_once (demo_start []) = Some (tt, s) /\
    wp (run_ba_call (BaAlloc 100 64)) (fun r s' => ba_result (BaView ∅ ∅) (BaAlloc 100 64) r /\
      ba_refines s' (ba_after (BaView ∅ ∅) (BaAlloc 100 64) r)) s.
Proof.
  destruct demo_os_init as (s & Ps & HG & E). exists s. split; [exact E|].
  apply (ba_call_total s Ps ∅ (BaView ∅ ∅) (BaAlloc 100 64)); [exact HG|apply empty_view| |].
  - split; [lia|]. obey.
  - intros size al _. by apply fresh_can_alloc.
Defined.

Lemma ba_global_no_leak_witness :
  exists s', run_ba_calls demo_calls (demo_start []) = Some (demo_results, s') /\
    wp umf_ba_destroy_global (fun _ s2 => gstart s2 /\ forall x, mapped s2 x = mapped (demo_start []) x) s'.
Proof.
  destruct demo_run as [s' E]. exists s'. split; [exact E|].
  apply (ba_global_no_leak demo_calls (demo_start []) demo_results s'); [apply demo_start_ok|exact E|exact demo_obeys|].
  reflexivity.
Defined.

(** A class with no free chunk left and no memory for another mapping. *)
Definition demo_full_calls : list ba_call := replicate 143 (BaAlloc 240 8).
Definition demo_full_start : bstate demo_os := demo_start [true; true; true; true; true; false].

(** What the witness needs of the state reached: [ac[4]], the free list and
    the size of that pool, and the system. *)
Definition class4_facts (s : bstate demo_os) : option Z * Z * Z * list bool :=
  let p := default 0 (ac (BASE_ALLOC s) !! 4%nat) in
  (ac (BASE_ALLOC s) !! 4%nat, rd s (p + off_free_list), rd s (p + off_pool_size), do_script (b_os s)).

Lemma demo_full_run :
  exists rs s', run_ba_calls demo_full_calls demo_full_start = Some (rs, s') /\
    class4_facts s' = (Some 49152, 0, 36864, [false]).
Proof.
  assert (option_map (fun r => class4_facts r.2) (run_ba_calls demo_full_calls demo_full_start) =
    Some (Some 49152, 0, 36864, [false])) as E by (vm_compute; reflexivity).
  destruct (run_ba_calls demo_full_calls demo_full_start) as [[rs s']|]; [|done].
  exists rs, s'. split; [done|]. simpl in E. congruence.
Qed.

Lemma alloc_trace_obeys n size al V rs :
  0 < size /\ align_ok al /\ total_size size al < 2 ^ 32 ->
  ba_trace_obeys V (zip (replicate n (BaAlloc size al)) rs).
Proof.
  intros Hok. revert V rs. induction n as [|n IH]; intros V [|r rs]; try exact I.
  simpl replicate. cbn [zip zip_with ba_trace_obeys]. split; [exact Hok|apply IH].
Qed.

Lemma ginv_pool_of `{HL : OsLaws OS} `{HO : Outside} (s : bstate OS) Ps A i p :
  ginv s Ps A -> ac (BASE_ALLOC s) !! i = Some p -> p <> 0 ->
  exists P, Ps !! i = Some (Some P) /\ bp_addr P = p /\ rd s (p + off_pool_size) = bp_size P /\
    (rd s (p + off_free_list) = 0 -> bp_free P = []).
Proof.
  intros HG Hac Hp. rewrite (gi_static _ _ _ HG) in Hac. simpl in Hac. rewrite list_lookup_fmap in Hac.
  apply fmap_Some in Hac as ([P|] & HP & ->); [|done]. exists P. simpl.
  pose proof (inv_core s Ps A HG i P HP) as HPc. split_and!; [done|done|apply (pr_pool_size _ _ HPc)|].
  intros E. pose proof (pr_list _ _ HPc) as Hl. rewrite E in Hl. destruct (bp_free P) as [|c l]; [done|].
  simpl in Hl. destruct Hl as (? & ? & _). congruence.
Qed.

Lemma ba_global_alloc_exhausted_witness :
  exists s : bstate demo_os, umf_ba_global_aligned_alloc 240 8 s = None.
Proof.
  destruct demo_full_run as (rs & s & Hrun & Hf). injection Hf as Hac Hfl Hsz Hsc.
  destruct (calls_refine demo_full_calls demo_full_start (BaView ∅ ∅) rs s) as (_ & _ & [[Hs _]|(Ps & A & HG & _)]);
    [left; split; [apply demo_start_ok|reflexivity]|exact Hrun|apply alloc_trace_obeys; obey| |].
  - destruct (gs_static _ Hs) as [l El]. rewrite El in Hac. discriminate.
  - destruct (ginv_pool_of s Ps A 4 49152 HG Hac) as (P & HP & Ea & Es & Hfree); [lia|].
    rewrite Hac in Hfl, Hsz. simpl in Hfl, Hsz. exists s.
    apply (ba_global_alloc_exhausted s Ps A 240 8 P); [exact HG|lia|obey|obey|obey|exact HP|by apply Hfree|].
    simpl. unfold demo_mmap. rewrite Hsc. reflexivity.
Defined.

(** A new pool, and the pool after one allocation. *)
Lemma demo_pool : exists s P, pool_rep (OS := demo_os) s P /\ bp_addr P = 4096 /\ bp_free P <> [].
Proof.
  set (k := ALIGN_UP_SAFE 16 MEMORY_ALIGNMENT).
  destruct (wp_run (umf_ba_create 16) (fun p s' => p = 0 \/ ba_created (demo_start []) k p s') (demo_start []))
    as (p & s & E & Hp).
  { apply (wp_umf_ba_create (demo_start []) 16); [unfold create_max; lia|intros; by left|intros; by right]. }
  assert (option_map fst (umf_ba_create 16 (demo_start [])) = Some 4096) as Ep by (vm_compute; reflexivity).
  rewrite E in Ep. simpl in Ep. injection Ep as ->. destruct Hp as [|Hp]; [lia|].
  exists s, (new_pool 4096 k). split; [apply (ac_rep _ _ _ _ Hp)|]. split; [reflexivity|].
  vm_compute. discriminate.
Qed.

Lemma umf_ba_alloc_correct_witness :
  exists (s : bstate demo_os) P, pool_rep s P /\
  wp (umf_ba_alloc (bp_addr P)) (fun c s' =>
    (c = 0 /\ bp_free P = [] /\ (os_mmap (bp_size P) (b_os s)).1 = None /\ pool_rep s' P) \/
    exists P', ba_allocated s P c s' P' /\ (bp_free P <> [] \/ (os_mmap (bp_size P) (b_os s)).1 <> None) /\
      0 < c /\ c mod 8 = 0 /\ (forall x, c <= x < c + bp_chunk P -> mapped s' x = true) /\
      forall d, d ∈ bp_live P -> apart2 (bp_chunk P) c d) s.
Proof.
  destruct demo_pool as (s & P & HP & _). exists s, P. split; [exact HP|].
  apply (umf_ba_alloc_correct s P HP).
Defined.

Lemma umf_ba_free_correct_witness :
  exists (s : bstate demo_os) P c, pool_rep s P /\ c ∈ bp_live P /\
  wp (umf_ba_free (bp_addr P) c) (fun _ s' =>
    let P' := with_free P (c :: bp_free P) in
    pool_rep s' P' /\ bp_live P ≡ₚ c :: bp_live P' /\
    (forall x, mapped s' x = mapped s x) /\ (forall x, ~ pool_word P x -> x <> c -> rd s' x = rd s x) /\
    wp (umf_ba_alloc (bp_addr P)) (fun d _ => d = c) s') s.
Proof.
  destruct demo_pool as (s0 & P0 & HP0 & _ & Hf).
  destruct (wp_run (umf_ba_alloc (bp_addr P0)) (fun c s' => exists P', ba_allocated s0 P0 c s' P') s0)
    as (c & s & _ & P & Hal).
  { apply wp_umf_ba_alloc; [exact HP0|by intros|eauto]. }
  exists s, P, c. pose proof (aa_rep _ _ _ _ _ Hal) as HP.
  assert (c ∈ bp_live P) as Hc by (rewrite (aa_live _ _ _ _ _ Hal); left).
  split; [exact HP|]. split; [exact Hc|]. apply (umf_ba_free_correct s P c HP Hc).
Defined.
