(* ===== verification/Critnib.v ===== *)
(** * The critnib, src/critnib/critnib.c

    A radix tree over 64-bit keys with collapsed paths, in nibbles.  The model
    is pointer-level: nodes and leaves live in two heaps, a tagged pointer
    [(word)k | 1] is the constructor [NLeaf], the lists of deleted nodes and
    leaves are linked through [child[0]] and [next], and every function has the
    loads and stores of the C code in the same order.

    The calls are on a critnib that exists, so the NULL checks of that argument
    have no counterpart.  The functions run without a concurrent thread: an atomic load or store is
    a load or a store, a compare-exchange of a value just read succeeds, and
    the loops that restart a query after [DELETED_LIFE] removes run once.  The
    calls of [cb_free_leaf] are recorded in [c_freed]. *)

From S2P Require Import Prelude Utils HostMem.
From stdpp Require Import strings list.
#[local] Open Scope Z_scope.

Definition DELETED_LIFE : Z := 16.
Definition SLICE : Z := 4.
Definition NIB : Z := 15.
Definition SLNODES : Z := 16.
Definition LEAF_VALID : Z := 2.

(** [struct critnib_node *], possibly tagged. *)
Inductive nptr := NNull | NNode (a : Z) | NLeaf (a : Z).

#[export] Instance nptr_eq_dec : EqDecision nptr.
Proof. solve_decision. Defined.

Record critnib_node := mk_cnode {
  child : list nptr;
  path : Z;
  shift : Z;
}.

(** [value] and [to_be_freed] are addresses, 0 for NULL. *)
Record critnib_leaf := mk_cleaf {
  key : Z;
  value : Z;
  to_be_freed : Z;
  pending_deleted_leaf : bool;
  next : option Z;
  ref_count : Z;
}.

(** [cb_free_leaf] says whether the callback is set. *)
Record critnib := mk_critnib {
  self : Z;
  root : nptr;
  cb_free_leaf : bool;
  deleted_node : option Z;
  deleted_leaf : option Z;
  pending_del_nodes : list (option Z);
  pending_del_leaves : list (option Z);
  remove_count : Z;
  mutex : utils_mutex_t;
}.

Record cstate (H : Type) := mk_cstate {
  c_crit : critnib;
  c_nodes : gmap Z critnib_node;
  c_leaves : gmap Z critnib_leaf;
  c_freed : list Z;
  c_host : H;
}.
Arguments mk_cstate {H}.
Arguments c_crit {H}. Arguments c_nodes {H}. Arguments c_leaves {H}.
Arguments c_freed {H}. Arguments c_host {H}.

Definition sizeof_critnib_node : Z := 144.
Definition sizeof_critnib_leaf : Z := 48.
Definition sizeof_critnib : Z := 344.

Definition tag_node : string := "struct critnib_node".
Definition tag_leaf : string := "struct critnib_leaf".
Definition tag_critnib : string := "struct critnib".

(** ** Pointers and bits *)

Definition is_leaf (n : nptr) : bool := match n with NLeaf _ => true | _ => false end.

(** [to_leaf(NULL)] is NULL. *)
Definition to_leaf (n : nptr) : option Z :=
  match n with NLeaf a | NNode a => Some a | NNull => None end.

Definition path_mask (sh : Z) : Z := shl64 (not64 NIB) sh.

Definition slice_index (k sh : Z) : nat := Z.to_nat (Z.land (Z.shiftr k sh) NIB).

Section Critnib.
Context `{HostAlloc H}.
Abbreviation C := (M (cstate H)).

(** ** Loads and stores *)

Definition with_crit (f : critnib -> critnib) (s : cstate H) : cstate H :=
  mk_cstate (f (c_crit s)) (c_nodes s) (c_leaves s) (c_freed s) (c_host s).
Definition with_nodes (ns : gmap Z critnib_node) (s : cstate H) : cstate H :=
  mk_cstate (c_crit s) ns (c_leaves s) (c_freed s) (c_host s).
Definition with_leaves (ls : gmap Z critnib_leaf) (s : cstate H) : cstate H :=
  mk_cstate (c_crit s) (c_nodes s) ls (c_freed s) (c_host s).
Definition with_freed (l : list Z) (s : cstate H) : cstate H :=
  mk_cstate (c_crit s) (c_nodes s) (c_leaves s) l (c_host s).
Definition with_host (h : H) (s : cstate H) : cstate H :=
  mk_cstate (c_crit s) (c_nodes s) (c_leaves s) (c_freed s) h.

Definition set_root (n : nptr) (c : critnib) : critnib :=
  mk_critnib (self c) n (cb_free_leaf c) (deleted_node c) (deleted_leaf c) (pending_del_nodes c)
    (pending_del_leaves c) (remove_count c) (mutex c).
Definition set_deleted_node (n : option Z) (c : critnib) : critnib :=
  mk_critnib (self c) (root c) (cb_free_leaf c) n (deleted_leaf c) (pending_del_nodes c)
    (pending_del_leaves c) (remove_count c) (mutex c).
Definition set_deleted_leaf (n : option Z) (c : critnib) : critnib :=
  mk_critnib (self c) (root c) (cb_free_leaf c) (deleted_node c) n (pending_del_nodes c)
    (pending_del_leaves c) (remove_count c) (mutex c).
Definition set_pending_node (i : nat) (n : option Z) (c : critnib) : critnib :=
  mk_critnib (self c) (root c) (cb_free_leaf c) (deleted_node c) (deleted_leaf c)
    (<[i := n]> (pending_del_nodes c)) (pending_del_leaves c) (remove_count c) (mutex c).
Definition set_pending_leaf (i : nat) (n : option Z) (c : critnib) : critnib :=
  mk_critnib (self c) (root c) (cb_free_leaf c) (deleted_node c) (deleted_leaf c)
    (pending_del_nodes c) (<[i := n]> (pending_del_leaves c)) (remove_count c) (mutex c).
Definition set_remove_count (n : Z) (c : critnib) : critnib :=
  mk_critnib (self c) (root c) (cb_free_leaf c) (deleted_node c) (deleted_leaf c) (pending_del_nodes c)
    (pending_del_leaves c) n (mutex c).
Definition set_mutex (m : utils_mutex_t) (c : critnib) : critnib :=
  mk_critnib (self c) (root c) (cb_free_leaf c) (deleted_node c) (deleted_leaf c) (pending_del_nodes c)
    (pending_del_leaves c) (remove_count c) m.

Definition load_node (a : Z) : C critnib_node := s ← get; of_option (c_nodes s !! a).
Definition load_leaf (a : Z) : C critnib_leaf := s ← get; of_option (c_leaves s !! a).

Definition update_node (a : Z) (f : critnib_node -> critnib_node) : C unit :=
  n ← load_node a;
  modify (fun s => with_nodes (<[a := f n]> (c_nodes s)) s).
Definition update_leaf (a : Z) (f : critnib_leaf -> critnib_leaf) : C unit :=
  k ← load_leaf a;
  modify (fun s => with_leaves (<[a := f k]> (c_leaves s)) s).

Definition with_child (i : nat) (n : nptr) (m : critnib_node) : critnib_node :=
  mk_cnode (<[i := n]> (child m)) (path m) (shift m).
Definition with_path (p : Z) (m : critnib_node) : critnib_node := mk_cnode (child m) p (shift m).
Definition with_shift (sh : Z) (m : critnib_node) : critnib_node := mk_cnode (child m) (path m) sh.

Definition with_key (x : Z) (k : critnib_leaf) : critnib_leaf :=
  mk_cleaf x (value k) (to_be_freed k) (pending_deleted_leaf k) (next k) (ref_count k).
Definition with_value (v : Z) (k : critnib_leaf) : critnib_leaf :=
  mk_cleaf (key k) v (to_be_freed k) (pending_deleted_leaf k) (next k) (ref_count k).
Definition with_to_be_freed (v : Z) (k : critnib_leaf) : critnib_leaf :=
  mk_cleaf (key k) (value k) v (pending_deleted_leaf k) (next k) (ref_count k).
Definition with_pending (b : bool) (k : critnib_leaf) : critnib_leaf :=
  mk_cleaf (key k) (value k) (to_be_freed k) b (next k) (ref_count k).
Definition with_next (n : option Z) (k : critnib_leaf) : critnib_leaf :=
  mk_cleaf (key k) (value k) (to_be_freed k) (pending_deleted_leaf k) n (ref_count k).
Definition with_ref_count (n : Z) (k : critnib_leaf) : critnib_leaf :=
  mk_cleaf (key k) (value k) (to_be_freed k) (pending_deleted_leaf k) (next k) n.

(** [n->child[i]]; the index is below [SLNODES]. *)
Definition load_child (a : Z) (i : nat) : C nptr :=
  n ← load_node a; of_option (child n !! i).
Definition store_child (a : Z) (i : nat) (m : nptr) : C unit :=
  n ← load_node a;
  _ ← of_option (child n !! i);
  update_node a (with_child i m).

(** A [struct critnib_node **]: the root, or a child slot. *)
Inductive slot := SRoot | SChild (a : Z) (i : nat).
Definition store_slot (p : slot) (n : nptr) : C unit :=
  match p with
  | SRoot => modify (with_crit (set_root n))
  | SChild a i => store_child a i n
  end.

Definition lock : C unit :=
  s ← get;
  r ← of_option (utils_mutex_lock (mutex (c_crit s)));
  modify (with_crit (set_mutex r.2)).
Definition unlock : C unit :=
  s ← get;
  m ← of_option (utils_mutex_unlock (mutex (c_crit s)));
  modify (with_crit (set_mutex m)).

(** ** Allocation of nodes and leaves *)

Definition host_alloc (tg : string) (size : Z) : C (option Z) :=
  fun s => let '(r, h) := umf_ba_global_alloc tg size (c_host s) in Some (r, with_host h s).

(** Freeing NULL does nothing. *)
Definition host_free (a : option Z) : C unit :=
  match a with
  | None => mret tt
  | Some a => modify (fun s => with_host (umf_ba_global_free a (c_host s)) s)
  end.

Definition free_host_node (a : Z) : C unit :=
  _ ← load_node a;
  _ ← modify (fun s => with_nodes (delete a (c_nodes s)) s);
  host_free (Some a).
Definition free_host_leaf (a : Z) : C unit :=
  _ ← load_leaf a;
  _ ← modify (fun s => with_leaves (delete a (c_leaves s)) s);
  host_free (Some a).

(** A node or leaf fresh from the allocator has no contents yet: its fields
    are written before they are read. *)
Definition raw_node : critnib_node := mk_cnode (replicate (Z.to_nat SLNODES) NNull) 0 0.
Definition raw_leaf : critnib_leaf := mk_cleaf 0 0 0 false None 0.

Definition free_node (n : option Z) : C unit :=
  match n with
  | None => mret tt
  | Some n =>
    s ← get;
    _ ← store_child n 0 (match deleted_node (c_crit s) with Some d => NNode d | None => NNull end);
    modify (with_crit (set_deleted_node (Some n)))
  end.

Definition alloc_node : C (option Z) :=
  s ← get;
  match deleted_node (c_crit s) with
  | None =>
    r ← host_alloc tag_node sizeof_critnib_node;
    match r with
    | None => mret None
    | Some a => _ ← modify (fun s => with_nodes (<[a := raw_node]> (c_nodes s)) s); mret (Some a)
    end
  | Some n =>
    m ← load_child n 0;
    _ ← modify (with_crit (set_deleted_node (match m with NNode a => Some a | _ => None end)));
    mret (Some n)
  end.

Definition add_to_deleted_leaf_list (k : Z) : C unit :=
  s ← get;
  _ ← update_leaf k (with_next (deleted_leaf (c_crit s)));
  modify (with_crit (set_deleted_leaf (Some k))).

Definition free_leaf (k : option Z) : C unit :=
  match k with
  | None => mret tt
  | Some k =>
    _ ← update_leaf k (with_pending true);
    s ← get;
    lf ← load_leaf k;
    if cb_free_leaf (c_crit s) && (ref_count lf >? 0) then mret tt
    else if pending_deleted_leaf lf then
      _ ← update_leaf k (with_pending false);
      add_to_deleted_leaf_list k
    else mret tt
  end.

Definition alloc_leaf : C (option Z) :=
  s ← get;
  match deleted_leaf (c_crit s) with
  | None =>
    r ← host_alloc tag_leaf sizeof_critnib_leaf;
    match r with
    | None => mret None
    | Some a => _ ← modify (fun s => with_leaves (<[a := raw_leaf]> (c_leaves s)) s); mret (Some a)
    end
  | Some k =>
    lf ← load_leaf k;
    _ ← modify (with_crit (set_deleted_leaf (next lf)));
    mret (Some k)
  end.

(** ** Construction and destruction *)

(** The struct after [memset]; [pthread_mutex_init] fails on [false].  Returns
    the address, or [None] and the allocator. *)
Definition critnib_new (cb mutex_ok : bool) (h : H) : option (cstate H) * H :=
  match umf_ba_global_alloc tag_critnib sizeof_critnib h with
  | (None, h) => (None, h)
  | (Some c, h) =>
    if mutex_ok then
      let nulls := replicate (Z.to_nat DELETED_LIFE) None in
      (Some (mk_cstate (mk_critnib c NNull cb None None nulls nulls 0 (mk_mutex false [])) ∅ ∅ [] h), h)
    else (None, umf_ba_global_free c h)
  end.

(** [c->cb_free_leaf(c->leaf_allocator, v)] *)
Definition call_free_leaf (v : Z) : C unit :=
  modify (fun s => with_freed (c_freed s ++ [v]) s).

(** The value of a leaf is passed to the callback when it is set. *)
Definition free_leaf_value (k : Z) : C unit :=
  s ← get;
  if cb_free_leaf (c_crit s) then
    lf ← load_leaf k;
    if negb (value lf =? 0) then call_free_leaf (value lf)
    else if negb (to_be_freed lf =? 0) then call_free_leaf (to_be_freed lf)
    else mret tt
  else mret tt.

(** [fuel] bounds the height of the tree. *)
Fixpoint delete_node (fuel : nat) (n : nptr) : C unit :=
  match n with
  | NNull => undef
  | NLeaf k => _ ← free_leaf_value k; free_host_leaf k
  | NNode a =>
    match fuel with
    | O => undef
    | S fuel =>
      nd ← load_node a;
      _ ← (fix children (l : list nptr) : C unit :=
             match l with
             | [] => mret tt
             | m :: l => _ ← (if decide (m = NNull) then mret tt else delete_node fuel m); children l
             end) (child nd);
      free_host_node a
    end
  end.

Fixpoint free_deleted_nodes (fuel : nat) (m : option Z) : C unit :=
  match m with
  | None => mret tt
  | Some m =>
    match fuel with
    | O => undef
    | S fuel =>
      mm ← load_child m 0;
      _ ← free_host_node m;
      free_deleted_nodes fuel (match mm with NNode a => Some a | _ => None end)
    end
  end.

Fixpoint free_deleted_leaves (fuel : nat) (k : option Z) : C unit :=
  match k with
  | None => mret tt
  | Some k =>
    match fuel with
    | O => undef
    | S fuel =>
      lf ← load_leaf k;
      _ ← free_host_leaf k;
      free_deleted_leaves fuel (next lf)
    end
  end.

Fixpoint free_pending (ns ls : list (option Z)) : C unit :=
  match ns, ls with
  | n :: ns, k :: ls =>
    _ ← match n with Some n => free_host_node n | None => mret tt end;
    _ ← match k with Some k => _ ← free_leaf_value k; free_host_leaf k | None => mret tt end;
    free_pending ns ls
  | _, _ => mret tt
  end.

Definition max_height : nat := 16.

(** [utils_mutex_destroy_not_free]: destroying a locked mutex is undefined. *)
Definition destroy_lock : C unit := s ← get; c_assert (negb (m_held (mutex (c_crit s)))).

Definition critnib_delete : C unit :=
  s ← get;
  _ ← (if decide (root (c_crit s) = NNull) then mret tt else delete_node max_height (root (c_crit s)));
  _ ← destroy_lock;
  _ ← free_deleted_nodes (size (c_nodes s)) (deleted_node (c_crit s));
  _ ← free_deleted_leaves (size (c_leaves s)) (deleted_leaf (c_crit s));
  _ ← free_pending (pending_del_nodes (c_crit s)) (pending_del_leaves (c_crit s));
  host_free (Some (self (c_crit s))).

(** ** Insertion *)

Definition EEXIST : Z := 17.
Definition ENOMEM : Z := 12.

(** The loop of [critnib_insert]: [n], [prev] and [parent] at its end. *)
Fixpoint insert_walk (fuel : nat) (k : Z) (n prev : nptr) (parent : slot) : C (nptr * nptr * slot) :=
  match n with
  | NNode a =>
    nd ← load_node a;
    if Z.land k (path_mask (shift nd)) =? path nd then
      match fuel with
      | O => undef
      | S fuel =>
        let i := slice_index k (shift nd) in
        n' ← load_child a i;
        insert_walk fuel k n' n (SChild a i)
      end
    else mret (n, prev, parent)
  | _ => mret (n, prev, parent)
  end.

(** The new node is complete before the parent points to it. *)
Definition fill_node (m : Z) (k p sh : Z) (kn n : nptr) : C unit :=
  _ ← update_node m (fun nd => mk_cnode (replicate (Z.to_nat SLNODES) NNull) (path nd) (shift nd));
  _ ← store_child m (slice_index k sh) kn;
  _ ← store_child m (slice_index p sh) n;
  _ ← update_node m (with_shift sh);
  update_node m (with_path (Z.land k (path_mask sh))).

(** The new leaf is not used: mark it and put it on the deleted list. *)
Definition drop_new_leaf (k : Z) : C unit :=
  s ← get;
  _ ← (if cb_free_leaf (c_crit s) then update_leaf k (with_ref_count 0) else mret tt);
  free_leaf (Some k).

Definition critnib_insert (k v : Z) (update : bool) : C Z :=
  _ ← lock;
  r ← alloc_leaf;
  match r with
  | None => _ ← unlock; mret ENOMEM
  | Some a =>
    _ ← update_leaf a (with_to_be_freed 0);
    _ ← update_leaf a (with_key k);
    _ ← update_leaf a (with_value v);
    _ ← update_leaf a (with_pending false);
    s ← get;
    _ ← update_leaf a (with_ref_count (if cb_free_leaf (c_crit s) then LEAF_VALID else 0));
    let kn := NLeaf a in
    match root (c_crit s) with
    | NNull => _ ← store_slot SRoot kn; _ ← unlock; mret 0
    | rt =>
      '(n, prev, parent) ← insert_walk max_height k rt rt SRoot;
      match n with
      | NNull =>
        match prev with
        | NNode p =>
          nd ← load_node p;
          _ ← store_child p (slice_index k (shift nd)) kn;
          _ ← unlock; mret 0
        | _ => undef
        end
      | _ =>
        p ← match n with
            | NLeaf b => lf ← load_leaf b; mret (key lf)
            | NNode b => nd ← load_node b; mret (path nd)
            | NNull => undef
            end;
        let at_ := Z.lxor p k in
        if at_ =? 0 then
          _ ← c_assert (is_leaf n);
          _ ← drop_new_leaf a;
          match n with
          | NLeaf b =>
            if update then _ ← update_leaf b (with_value v); _ ← unlock; mret 0
            else _ ← unlock; mret EEXIST
          | _ => undef
          end
        else
          let sh := Z.land (utils_msb64 at_) 252 in
          m ← alloc_node;
          match m with
          | None => _ ← drop_new_leaf a; _ ← unlock; mret ENOMEM
          | Some m =>
            _ ← fill_node m k p sh kn n;
            _ ← store_slot parent (NNode m);
            _ ← unlock; mret 0
          end
      end
    end
  end.

(** ** Removal *)

(** The walk of [critnib_remove]: [kn], [n], [n_parent] and [k_parent]; [None]
    when a child on the way is NULL. *)
Fixpoint remove_walk (fuel : nat) (k : Z) (n kn : nptr) (n_parent k_parent : slot)
  : C (option (nptr * nptr * slot)) :=
  match kn with
  | NLeaf _ => mret (Some (n, kn, n_parent))
  | NNull => undef
  | NNode a =>
    match fuel with
    | O => undef
    | S fuel =>
      nd ← load_node a;
      let i := slice_index k (shift nd) in
      kn' ← load_child a i;
      if decide (kn' = NNull) then mret None
      else remove_walk fuel k kn kn' k_parent (SChild a i)
    end
  end.

(** The scan for the only remaining child: [Some None] none, [Some (Some i)]
    one, [None] several. *)
Fixpoint only_child (l : list nptr) (i : nat) (ochild : option nat) : option (option nat) :=
  match l with
  | [] => Some ochild
  | NNull :: l => only_child l (S i) ochild
  | _ :: l => match ochild with Some _ => None | None => only_child l (S i) (Some i) end
  end.

(** The code from [del_leaf] on; returns [value]. *)
Definition del_leaf (del : nat) (k : Z) : C (Z * option Z) :=
  lf ← load_leaf k;
  let v := value lf in
  s ← get;
  ref ← (if cb_free_leaf (c_crit s) then
           _ ← update_leaf k (with_to_be_freed v);
           _ ← update_leaf k (with_value 0);
           mret (Some k)
         else mret None);
  _ ← modify (with_crit (set_pending_leaf del (Some k)));
  _ ← unlock;
  mret (v, ref).

Definition not_found : C (Z * option Z) := _ ← unlock; mret (0, None).

(** Returns the value and [*ref]; [ref] says whether the argument is not NULL. *)
Definition critnib_remove (k : Z) (ref : bool) : C (Z * option Z) :=
  s ← get;
  if cb_free_leaf (c_crit s) && negb ref then mret (0, None) else
  _ ← lock;
  s ← get;
  match root (c_crit s) with
  | NNull => not_found
  | n =>
    let rc := add64 (remove_count (c_crit s)) 1 in
    _ ← modify (with_crit (set_remove_count rc));
    let del := Z.to_nat (sub64 rc 1 mod DELETED_LIFE) in
    pn ← of_option (pending_del_nodes (c_crit s) !! del);
    _ ← free_node pn;
    pk ← of_option (pending_del_leaves (c_crit s) !! del);
    _ ← free_leaf pk;
    _ ← modify (with_crit (set_pending_node del None));
    _ ← modify (with_crit (set_pending_leaf del None));
    match n with
    | NLeaf a =>
      lf ← load_leaf a;
      if key lf =? k then
        _ ← store_slot SRoot NNull;
        del_leaf del a
      else not_found
    | _ =>
      r ← remove_walk max_height k n n SRoot SRoot;
      match r with
      | Some (NNode p, NLeaf a, n_parent) =>
        lf ← load_leaf a;
        if negb (key lf =? k) then not_found else
        nd ← load_node p;
        _ ← store_child p (slice_index k (shift nd)) NNull;
        nd ← load_node p;
        match only_child (child nd) 0 None with
        | None => del_leaf del a
        | Some None => undef
        | Some (Some i) =>
          o ← of_option (child nd !! i);
          _ ← store_slot n_parent o;
          _ ← modify (with_crit (set_pending_node del (Some p)));
          del_leaf del a
        end
      | Some _ => undef
      | None => not_found
      end
    end
  end.

Definition critnib_release (ref : option Z) : C Z :=
  s ← get;
  if negb (cb_free_leaf (c_crit s)) then mret (-1) else
  match ref with
  | None => mret (-1)
  | Some k =>
    lf ← load_leaf k;
    _ ← c_assert (ref_count lf >=? LEAF_VALID);
    let ref_desired := sub64 (ref_count lf) 1 in
    _ ← update_leaf k (with_ref_count ref_desired);
    if ref_desired >=? LEAF_VALID then mret 0 else
    lf ← load_leaf k;
    let tbf := to_be_freed lf in
    _ ← update_leaf k (with_to_be_freed 0);
    _ ← c_assert (negb (tbf =? 0));
    _ ← update_leaf k (with_ref_count 0);
    _ ← call_free_leaf tbf;
    lf ← load_leaf k;
    _ ← (if pending_deleted_leaf lf then
           _ ← update_leaf k (with_pending false);
           add_to_deleted_leaf_list k
         else mret tt);
    mret 0
  end.

Definition critnib_remove_release (k : Z) : C Z :=
  '(v, ref) ← critnib_remove k true;
  _ ← match ref with Some a => _ ← critnib_release (Some a); mret tt | None => mret tt end;
  mret (if negb (v =? 0) then 0 else -1).

(** ** Queries *)

Definition increment_ref_count (k : Z) : C Z :=
  lf ← load_leaf k;
  if ref_count lf <? LEAF_VALID then mret (-1) else
  _ ← update_leaf k (with_ref_count (add64 (ref_count lf) 1));
  mret 0.

(** The restart condition of the queries; without concurrent removes the two
    reads of [remove_count] are equal, and a restart is out of the model. *)
Definition check_restart (wrs1 : Z) : C unit :=
  s ← get;
  c_assert (negb (add64 wrs1 DELETED_LIFE <=? remove_count (c_crit s))).

(** Dive by the critical nibbles only. *)
Fixpoint dive (fuel : nat) (k : Z) (n : nptr) : C nptr :=
  match n with
  | NNode a =>
    match fuel with
    | O => undef
    | S fuel =>
      nd ← load_node a;
      n' ← load_child a (slice_index k (shift nd));
      dive fuel k n'
    end
  | _ => mret n
  end.

(** The end of a query: take a reference when the callback is set. *)
Definition take_ref (res : Z) (k : option Z) : C (Z * option Z) :=
  s ← get;
  if cb_free_leaf (c_crit s) && negb (res =? 0) then
    k ← of_option k;
    r ← increment_ref_count k;
    if negb (r =? 0) then mret (0, None) else mret (res, Some k)
  else mret (res, None).

Definition critnib_get (k : Z) (ref : bool) : C (Z * option Z) :=
  s ← get;
  if cb_free_leaf (c_crit s) && negb ref then mret (0, None) else
  let wrs1 := remove_count (c_crit s) in
  n ← dive max_height k (root (c_crit s));
  res ← match n with
        | NNull => mret 0
        | NLeaf a | NNode a =>
          lf ← load_leaf a;
          if key lf =? k then mret (value lf) else mret 0
        end;
  _ ← check_restart wrs1;
  take_ref res (to_leaf n).

(** The first child, from the index [i] downwards, that is not NULL. *)
Fixpoint child_below (l : list nptr) (i : nat) : nptr :=
  match l !! i with
  | Some NNull | None => match i with O => NNull | S i => child_below l i end
  | Some m => m
  end.

Fixpoint find_predecessor (fuel : nat) (n : nptr) : C (option Z) :=
  match n with
  | NNode a =>
    match fuel with
    | O => undef
    | S fuel =>
      nd ← load_node a;
      match child_below (child nd) (Z.to_nat NIB) with
      | NNull => mret None
      | NLeaf b => mret (Some b)
      | m => find_predecessor fuel m
      end
    end
  | _ => undef
  end.

Fixpoint find_le (fuel : nat) (n : nptr) (k : Z) : C (option Z) :=
  match n with
  | NNull => mret None
  | NLeaf a => lf ← load_leaf a; mret (if key lf <=? k then Some a else None)
  | NNode a =>
    match fuel with
    | O => undef
    | S fuel =>
      nd ← load_node a;
      if negb (Z.land (Z.shiftr (Z.lxor k (path nd)) (shift nd)) (not64 NIB) =? 0) then
        if path nd <? k then find_predecessor (S fuel) n else mret None
      else
      let nib := slice_index k (shift nd) in
      m ← load_child a nib;
      r ← find_le fuel m k;
      match r with
      | Some r => mret (Some r)
      | None =>
        match nib with
        | O => mret None
        | S j =>
          match child_below (child nd) j with
          | NNull => mret None
          | NLeaf b => mret (Some b)
          | m => find_predecessor fuel m
          end
        end
      end
    end
  end.

Definition critnib_find_le (k : Z) (ref : bool) : C (Z * option Z) :=
  s ← get;
  if cb_free_leaf (c_crit s) && negb ref then mret (0, None) else
  let wrs1 := remove_count (c_crit s) in
  kl ← find_le max_height (root (c_crit s)) k;
  res ← match kl with Some a => lf ← load_leaf a; mret (value lf) | None => mret 0 end;
  _ ← check_restart wrs1;
  take_ref res kl.

(** The first child, from the index [i] upwards, that is not NULL. *)
Definition child_above (l : list nptr) (i : nat) : nptr :=
  match filter (fun m => m <> NNull) (drop i l) with
  | m :: _ => m
  | [] => NNull
  end.

Fixpoint find_successor (fuel : nat) (n : nptr) : C (option Z) :=
  match n with
  | NNode a =>
    match fuel with
    | O => undef
    | S fuel =>
      nd ← load_node a;
      match child_above (child nd) 0 with
      | NNull => mret None
      | NLeaf b => mret (Some b)
      | m => find_successor fuel m
      end
    end
  | _ => undef
  end.

Fixpoint find_ge (fuel : nat) (n : nptr) (k : Z) : C (option Z) :=
  match n with
  | NNull => mret None
  | NLeaf a => lf ← load_leaf a; mret (if key lf >=? k then Some a else None)
  | NNode a =>
    match fuel with
    | O => undef
    | S fuel =>
      nd ← load_node a;
      if negb (Z.land (Z.shiftr (Z.lxor k (path nd)) (shift nd)) (not64 NIB) =? 0) then
        if path nd >? k then find_successor (S fuel) n else mret None
      else
      let nib := slice_index k (shift nd) in
      m ← load_child a nib;
      r ← find_ge fuel m k;
      match r with
      | Some r => mret (Some r)
      | None =>
        match child_above (child nd) (S nib) with
        | NNull => mret None
        | NLeaf b => mret (Some b)
        | m => find_successor fuel m
        end
      end
    end
  end.

Definition FIND_L : Z := -2.
Definition FIND_LE : Z := -1.
Definition FIND_EQ : Z := 0.
Definition FIND_GE : Z := 1.
Definition FIND_G : Z := 2.

(** The exact query of [critnib_find]: the key of [to_leaf(n)] is loaded even
    when [n] is NULL. *)
Definition find_eq (k : Z) (n : nptr) : C (option Z) :=
  n ← dive max_height k n;
  kk ← of_option (to_leaf n);
  lf ← load_leaf kk;
  mret (if key lf =? k then Some kk else None).

(** Returns [Some (rkey, rvalue, ref)] for 1 and [None] for 0. *)
Definition critnib_find (k dir : Z) (ref : bool) : C (option (Z * Z * option Z)) :=
  s ← get;
  if cb_free_leaf (c_crit s) && negb ref then mret None else
  if (dir <? -1) && (k =? 0) then mret None else
  if (dir >? 1) && (k =? SIZE_MAX) then mret None else
  let k := if dir <? -1 then k - 1 else if dir >? 1 then k + 1 else k in
  let wrs1 := remove_count (c_crit s) in
  kl ← (if dir <? 0 then find_le max_height (root (c_crit s)) k
        else if dir >? 0 then find_ge max_height (root (c_crit s)) k
        else find_eq k (root (c_crit s)));
  r ← match kl with Some a => lf ← load_leaf a; mret (key lf, value lf) | None => mret (0, 0) end;
  _ ← check_restart wrs1;
  match kl with
  | None => mret None
  | Some a =>
    if cb_free_leaf (c_crit s) then
      e ← increment_ref_count a;
      if negb (e =? 0) then mret None else mret (Some (r, Some a))
    else mret (Some (r, None))
  end.

(** The callback of [critnib_iter] works on a value of type [B] and returns 0
    to go on. *)
Section Iter.
Context {B : Type}.
Variable func : Z -> Z -> B -> Z * B.

Fixpoint iter (fuel : nat) (n : nptr) (lo hi : Z) (arg : B) : C (Z * B) :=
  match n with
  | NNull => undef
  | NLeaf a =>
    lf ← load_leaf a;
    if (key lf >=? lo) && (key lf <=? hi) then mret (func (key lf) (value lf) arg) else mret (0, arg)
  | NNode a =>
    match fuel with
    | O => undef
    | S fuel =>
      nd ← load_node a;
      if path nd >? hi then mret (1, arg) else
      if Z.lor (path nd) (path_mask (shift nd)) <? lo then mret (0, arg) else
      (fix children (l : list nptr) (arg : B) : C (Z * B) :=
         match l with
         | [] => mret (0, arg)
         | m :: l =>
           if decide (m = NNull) then children l arg else
           r ← iter fuel m lo hi arg;
           if negb (r.1 =? 0) then mret (1, r.2) else children l r.2
         end) (child nd) arg
    end
  end.

Definition critnib_iter (lo hi : Z) (arg : B) : C B :=
  _ ← lock;
  s ← get;
  r ← (if decide (root (c_crit s) = NNull) then mret (0, arg) else iter max_height (root (c_crit s)) lo hi arg);
  _ ← unlock;
  mret r.2.
End Iter.
End Critnib.
