(* ===== verification/CritRep.v ===== *)
(** * The representation of a critnib and its queries

    [crep ns ks h p L N]: in the heaps, [p] is a subtree whose nodes have
    shifts below [4 * h], [L] lists its keys in increasing order with the
    addresses of their leaves, and [N] the addresses of its nodes.  Only the
    nodes [ns] and the keys [ks] of the leaves matter.

    [dive], [find_le] and [find_ge] against the sorted list of keys. *)

From stdpp Require Import list sorting.
From S2P Require Import Prelude Utils HostMem Critnib.
#[local] Open Scope Z_scope.

(** ** Nibbles *)

(** The key above bit [4 * h]. *)
Definition above (k : Z) (h : nat) : Z := k / 2 ^ (4 * Z.of_nat h).

(** The nibble at bit [4 * h]. *)
Definition nibble (k : Z) (h : nat) : Z := above k h mod 16.

Lemma above_split k h : above k h = 16 * above k (S h) + nibble k h.
Proof.
  unfold nibble, above. replace (4 * Z.of_nat (S h)) with (4 * Z.of_nat h + 4) by lia.
  rewrite Z.pow_add_r, <- Z.div_div by lia. pose proof (Z.div_mod (k / 2 ^ (4 * Z.of_nat h)) 16). change (2 ^ 4) with 16. lia.
Qed.

Lemma nibble_range k h : 0 <= nibble k h < 16.
Proof. apply Z.mod_pos_bound. lia. Qed.

Lemma above_le k k' h : k <= k' -> above k h <= above k' h.
Proof. apply Z.div_le_mono. apply Z.pow_pos_nonneg; lia. Qed.

Lemma above_lt k k' h : above k h < above k' h -> k < k'.
Proof. intros Hlt. destruct (Z.lt_ge_cases k k'); [done|]. pose proof (above_le k' k h). lia. Qed.

Lemma above_16 k : is_u64 k -> above k 16 = 0.
Proof. intros Hk. apply Z.div_small. exact Hk. Qed.

Lemma above_eq_mono k k' h h' : (h <= h')%nat -> above k h = above k' h -> above k h' = above k' h'.
Proof.
  intros Hle. induction Hle as [|h' _ IH]; [done|]. intros E. specialize (IH E).
  pose proof (above_split k h'). pose proof (above_split k' h'). pose proof (nibble_range k h').
  pose proof (nibble_range k' h'). lia.
Qed.

Lemma slice_index_spec k h : slice_index k (4 * Z.of_nat h) = Z.to_nat (nibble k h).
Proof.
  unfold slice_index, nibble, above, NIB. f_equal. rewrite Z.shiftr_div_pow2 by lia.
  replace 15 with (Z.ones 4) by done. by rewrite Z.land_ones by lia.
Qed.

Lemma slice_index_lt k sh : (slice_index k sh < 16)%nat.
Proof.
  unfold slice_index, NIB. replace 15 with (Z.ones 4) by done. rewrite Z.land_ones by lia.
  pose proof (Z.mod_pos_bound (Z.shiftr k sh) (2 ^ 4)). lia.
Qed.

(** [key & path_mask(shift)] keeps the bits above the nibble. *)
Lemma path_mask_spec k h :
  is_u64 k -> (h < 16)%nat ->
  Z.land k (path_mask (4 * Z.of_nat h)) = above k (S h) * 2 ^ (4 * Z.of_nat (S h)).
Proof.
  intros Hk Hh. unfold above. set (n := 4 * Z.of_nat (S h)).
  rewrite <- Z.shiftr_div_pow2, <- Z.shiftl_mul_pow2 by lia.
  apply Z.bits_inj'. intros i Hi. rewrite Z.land_spec.
  assert (Z.testbit (path_mask (4 * Z.of_nat h)) i = (n <=? i) && (i <? 64)) as ->.
  { unfold path_mask, shl64, wrap64. rewrite two64_eq.
    destruct (Z.ltb_spec i 64).
    - rewrite Z.mod_pow2_bits_low by lia. rewrite Z.shiftl_spec by lia. unfold not64. rewrite Z.ldiff_spec.
      destruct (Z.leb_spec n i); unfold n in *.
      + rewrite Z.ones_spec_low by lia. replace NIB with (Z.ones 4) by done. by rewrite Z.ones_spec_high by lia.
      + destruct (Z.ltb_spec i (4 * Z.of_nat h)).
        * by rewrite (Z.testbit_neg_r _ (i - 4 * Z.of_nat h)) by lia.
        * replace NIB with (Z.ones 4) by done. rewrite (Z.ones_spec_low 4) by lia. apply andb_false_r.
    - rewrite Z.mod_pow2_bits_high by lia. by rewrite andb_false_r. }
  destruct (Z.leb_spec n i).
  - rewrite Z.shiftl_spec, Z.shiftr_spec by lia. replace (i - n + n) with i by lia.
    destruct (Z.ltb_spec i 64); [apply andb_true_r|].
    rewrite andb_false_r. symmetry. unfold is_u64 in Hk. rewrite two64_eq in Hk.
    destruct (Z.eq_dec k 0) as [->|]; [apply Z.bits_0|]. apply Z.bits_above_log2; [lia|].
    apply Z.log2_lt_pow2; [lia|]. apply Z.lt_le_trans with (2 ^ 64); [lia|]. apply Z.pow_le_mono_r; lia.
  - rewrite andb_false_l, andb_false_r. symmetry. rewrite Z.shiftl_spec by lia. apply Z.testbit_neg_r. lia.
Qed.

(** Keys that agree above a bit have the same bits there. *)
Lemma above_bits k p h :
  above k h = above p h <-> forall i, 4 * Z.of_nat h <= i -> Z.testbit k i = Z.testbit p i.
Proof.
  unfold above. rewrite <- !Z.shiftr_div_pow2 by lia. split.
  - intros E i Hi. apply (f_equal (fun x => Z.testbit x (i - 4 * Z.of_nat h))) in E.
    rewrite !Z.shiftr_spec in E by lia. by replace (i - 4 * Z.of_nat h + 4 * Z.of_nat h) with i in E by lia.
  - intros E. apply Z.bits_inj'. intros i Hi. rewrite !Z.shiftr_spec by lia. apply E. lia.
Qed.

Lemma u64_high_bit k i : is_u64 k -> 64 <= i -> Z.testbit k i = false.
Proof.
  unfold is_u64. rewrite two64_eq. intros Hk Hi. destruct (Z.eq_dec k 0) as [->|]; [apply Z.bits_0|].
  apply Z.bits_above_log2; [lia|]. apply Z.log2_lt_pow2; [lia|].
  apply Z.lt_le_trans with (2 ^ 64); [lia|]. apply Z.pow_le_mono_r; lia.
Qed.

(** The mismatch test of [find_le] and [find_ge]. *)
Lemma mismatch_spec k p h :
  is_u64 k -> is_u64 p ->
  (Z.land (Z.shiftr (Z.lxor k p) (4 * Z.of_nat h)) (not64 NIB) =? 0) = (above k (S h) =? above p (S h)).
Proof.
  intros Hk Hp. apply eq_true_iff_eq. rewrite !Z.eqb_eq, above_bits.
  assert (forall i, 0 <= i -> Z.testbit (not64 NIB) i = (4 <=? i) && (i <? 64)) as Hn.
  { intros i Hi. unfold not64. rewrite Z.ldiff_spec. replace NIB with (Z.ones 4) by done.
    destruct (Z.ltb_spec i 64).
    - rewrite (Z.ones_spec_low 64) by lia. destruct (Z.leb_spec 4 i).
      + by rewrite Z.ones_spec_high by lia.
      + by rewrite Z.ones_spec_low by lia.
    - rewrite (Z.ones_spec_high 64) by lia. by rewrite andb_false_r. }
  split.
  - intros E i Hi. destruct (Z.lt_ge_cases i 64); [|by rewrite !u64_high_bit].
    apply (f_equal (fun x => Z.testbit x (i - 4 * Z.of_nat h))) in E.
    rewrite Z.land_spec, Z.shiftr_spec, Hn, Z.bits_0, Z.lxor_spec in E by lia.
    replace (i - 4 * Z.of_nat h + 4 * Z.of_nat h) with i in E by lia.
    rewrite (proj2 (Z.leb_le _ _)), (proj2 (Z.ltb_lt _ _)), andb_true_r in E by lia. by apply xorb_eq.
  - intros E. apply Z.bits_inj'. intros i Hi. rewrite Z.land_spec, Z.shiftr_spec, Hn, Z.bits_0, Z.lxor_spec by lia.
    destruct (Z.leb_spec 4 i); [|apply andb_false_r].
    rewrite (E (i + 4 * Z.of_nat h)) by lia. by rewrite xorb_nilpotent.
Qed.

Lemma land_252 m : 0 <= m < 64 -> Z.land m 252 = 4 * (m / 4).
Proof.
  intros Hm. assert (forallb (fun m => Z.land m 252 =? 4 * (m / 4)) (seqZ 0 64) = true) as Hall
    by (vm_compute; reflexivity).
  rewrite forallb_forall in Hall. apply Z.eqb_eq, Hall, list_elem_of_In, elem_of_seqZ. lia.
Qed.

(** Where two keys differ: the shift that [critnib_insert] computes. *)
Lemma split_spec p k :
  is_u64 p -> is_u64 k -> p <> k ->
  exists h, (h < 16)%nat /\ Z.land (utils_msb64 (Z.lxor p k)) 252 = 4 * Z.of_nat h /\
    above p (S h) = above k (S h) /\ nibble p h <> nibble k h.
Proof.
  intros Hp Hk Hne. set (x := Z.lxor p k). assert (x <> 0) as Hx0 by (by intros ?%Z.lxor_eq).
  assert (0 <= x) as Hx by (apply Z.lxor_nonneg; unfold is_u64 in *; lia).
  set (m := Z.log2 x). assert (0 <= m) by apply Z.log2_nonneg.
  assert (Z.testbit x m = true) as Hbit by (apply Z.bit_log2; lia).
  assert (m < 64) as Hm.
  { destruct (Z.lt_ge_cases m 64); [done|]. unfold x in Hbit. by rewrite Z.lxor_spec, !u64_high_bit in Hbit by done. }
  exists (Z.to_nat (m / 4)). assert (4 * Z.of_nat (Z.to_nat (m / 4)) = 4 * (m / 4)) as E4 by (rewrite Z2Nat.id; [done|apply Z.div_pos; lia]).
  assert (4 * (m / 4) <= m < 4 * (m / 4) + 4) as Hdiv by (Z.to_euclidean_division_equations; lia).
  assert (above p (S (Z.to_nat (m / 4))) = above k (S (Z.to_nat (m / 4)))) as Hab.
  { apply above_bits. intros i Hi. apply xorb_eq. rewrite <- Z.lxor_spec. fold x. apply Z.bits_above_log2; [lia|]. fold m. lia. }
  split_and!; [lia|unfold utils_msb64; fold m; rewrite land_252 by lia; lia|done|].
  intros En. assert (above p (Z.to_nat (m / 4)) = above k (Z.to_nat (m / 4))) as Hab'.
  { rewrite !(above_split _ (Z.to_nat (m / 4))). lia. }
  rewrite above_bits in Hab'. unfold x in Hbit. rewrite Z.lxor_spec, Hab' in Hbit by lia. by rewrite xorb_nilpotent in Hbit.
Qed.

(** ** Subtrees *)

Abbreviation leaf_list := (list (Z * Z)).

(** What the children of a node hold: their keys and their nodes. *)
Abbreviation parts := (list (leaf_list * list Z)).

Definition part_keys (cs : parts) : leaf_list := cs ≫= fst.
Definition part_nodes (cs : parts) : list Z := cs ≫= snd.

(** The keys of the [i]-th part have the nibble [i] below the path. *)
Definition parts_ok (h : nat) (p : Z) (cs : parts) : Prop :=
  forall i c x, cs !! i = Some c -> x ∈ c.1 -> above x.1 h = above p h + Z.of_nat i.

Section Rep.
Context (ns : gmap Z critnib_node) (ks : gmap Z Z).

Fixpoint crep (h : nat) (p : nptr) (L : leaf_list) (N : list Z) : Prop :=
  match h with
  | O =>
    match p with
    | NNull => L = [] /\ N = []
    | NLeaf a => exists k, ks !! a = Some k /\ is_u64 k /\ L = [(k, a)] /\ N = []
    | NNode _ => False
    end
  | S h =>
    crep h p L N \/
    exists a nd cs, p = NNode a /\ ns !! a = Some nd /\ shift nd = 4 * Z.of_nat h /\
      is_u64 (path nd) /\ path nd mod 2 ^ (4 * Z.of_nat (S h)) = 0 /\
      length cs = 16%nat /\ Forall2 (fun p c => crep h p c.1 c.2) (child nd) cs /\
      parts_ok h (path nd) cs /\ (2 <= length (filter (fun c => c.1 <> []) cs))%nat /\
      L = part_keys cs /\ N ≡ₚ a :: part_nodes cs
  end.

(** The node case, as one record. *)
Record node_rep (h : nat) (a : Z) (nd : critnib_node) (cs : parts) (N : list Z) : Prop := {
  nr_node : ns !! a = Some nd;
  nr_shift : shift nd = 4 * Z.of_nat h;
  nr_path : is_u64 (path nd);
  nr_low : path nd mod 2 ^ (4 * Z.of_nat (S h)) = 0;
  nr_len : length cs = 16%nat;
  nr_parts : Forall2 (fun p c => crep h p c.1 c.2) (child nd) cs;
  nr_ok : parts_ok h (path nd) cs;
  nr_two : (2 <= length (filter (fun c => c.1 <> []) cs))%nat;
  nr_nodes : N ≡ₚ a :: part_nodes cs;
}.

Lemma crep_node_intro h a nd cs N : node_rep h a nd cs N -> crep (S h) (NNode a) (part_keys cs) N.
Proof. intros []. right. exists a, nd, cs. done. Qed.

Lemma crep_mono h h' p L N : (h <= h')%nat -> crep h p L N -> crep h' p L N.
Proof. intros Hle. induction Hle as [|h' _ IH]; [done|]. intros Hr. left. auto. Qed.

Lemma crep_leaf h a L N : crep h (NLeaf a) L N <-> exists k, ks !! a = Some k /\ is_u64 k /\ L = [(k, a)] /\ N = [].
Proof.
  split.
  - induction h as [|h IH]; [done|]. intros [Hr|(? & ? & ? & ? & _)]; [auto|done].
  - intros Hr. apply (crep_mono 0); [lia|done].
Qed.

Lemma crep_null h L N : crep h NNull L N <-> L = [] /\ N = [].
Proof.
  split.
  - induction h as [|h IH]; [done|]. intros [Hr|(? & ? & ? & ? & _)]; [auto|done].
  - intros Hr. apply (crep_mono 0); [lia|done].
Qed.

Lemma crep_node h a L N :
  crep h (NNode a) L N -> exists j nd cs, (j < h)%nat /\ node_rep j a nd cs N /\ L = part_keys cs.
Proof.
  induction h as [|h IH]; [done|]. intros [Hr|(a' & nd & cs & Ea & ? & ? & ? & ? & ? & ? & ? & ? & ? & ?)].
  - destruct (IH Hr) as (j & nd & cs & ? & ?). exists j, nd, cs. split; [lia|done].
  - injection Ea as <-. exists h, nd, cs. split; [lia|]. split; [by constructor|done].
Qed.

(** Reading the parts. *)
Lemma node_child h a nd cs N i p :
  node_rep h a nd cs N -> child nd !! i = Some p -> exists c, cs !! i = Some c /\ crep h p c.1 c.2.
Proof.
  intros Hn Hi. destruct (Forall2_lookup_l _ _ _ _ _ (nr_parts _ _ _ _ _ Hn) Hi) as (c & ? & ?). eauto.
Qed.

Lemma node_child_len h a nd cs N : node_rep h a nd cs N -> length (child nd) = 16%nat.
Proof. intros Hn. rewrite (list.Forall2_length _ _ _ (nr_parts _ _ _ _ _ Hn)). apply (nr_len _ _ _ _ _ Hn). Qed.

Lemma node_slice h a nd cs N k :
  node_rep h a nd cs N -> exists p c, child nd !! slice_index k (shift nd) = Some p /\
    cs !! slice_index k (shift nd) = Some c /\ crep h p c.1 c.2.
Proof.
  intros Hn. destruct (lookup_lt_is_Some_2 (child nd) (slice_index k (shift nd))) as [p Hp].
  { rewrite (node_child_len _ _ _ _ _ Hn). apply slice_index_lt. }
  destruct (node_child _ _ _ _ _ _ _ Hn Hp) as (c & ? & ?). eauto.
Qed.
End Rep.

Lemma elem_of_part_keys cs x : x ∈ part_keys cs <-> exists i c, cs !! i = Some c /\ x ∈ c.1.
Proof.
  unfold part_keys. rewrite list_elem_of_bind. split.
  - intros (c & Hx & Hc). apply list_elem_of_lookup in Hc as [i Hi]. eauto.
  - intros (i & c & Hi & Hx). exists c. split; [done|]. by eapply list_elem_of_lookup_2.
Qed.

Lemma elem_of_part_nodes cs b : b ∈ part_nodes cs <-> exists i c, cs !! i = Some c /\ b ∈ c.2.
Proof.
  unfold part_nodes. rewrite list_elem_of_bind. split.
  - intros (c & Hx & Hc). apply list_elem_of_lookup in Hc as [i Hi]. eauto.
  - intros (i & c & Hi & Hx). exists c. split; [done|]. by eapply list_elem_of_lookup_2.
Qed.

(** A subtree depends on its nodes and the keys of its leaves. *)
Lemma crep_frame ns ks ns' ks' h p L N :
  (forall b, b ∈ N -> ns' !! b = ns !! b) -> (forall x, x ∈ L -> ks' !! x.2 = ks !! x.2) ->
  crep ns ks h p L N -> crep ns' ks' h p L N.
Proof.
  revert p L N. induction h as [|h IH]; intros p L N Hn Hk; simpl.
  - destruct p as [|a|a]; [done|done|]. intros (k & Ha & Hu & -> & ->). exists k. split_and!; try done.
    pose proof (Hk (k, a)) as E. simpl in E. rewrite E; [done|left].
  - intros [Hr|(a & nd & cs & -> & Ha & Hs & Hp & Hl & Hlen & HF & Hok & H2 & -> & HN)].
    + left. by apply IH.
    + right. exists a, nd, cs. split_and!; try done.
      * rewrite Hn; [done|]. rewrite HN. left.
      * apply Forall2_same_length_lookup. apply Forall2_same_length_lookup in HF as [Hl2 HF]. split; [done|].
        intros i q c Hq Hc. apply IH; [| |by apply (HF i)].
        -- intros b Hb. apply Hn. rewrite HN. right. apply elem_of_part_nodes. eauto.
        -- intros x Hx. apply Hk. apply elem_of_part_keys. eauto.
Qed.

(** ** Keys of a subtree *)

Section Keys.
Context (ns : gmap Z critnib_node) (ks : gmap Z Z).

Lemma crep_key h p L N x : crep ns ks h p L N -> x ∈ L -> ks !! x.2 = Some x.1 /\ is_u64 x.1.
Proof.
  revert p L N. induction h as [|h IH]; intros p L N; simpl.
  - destruct p as [|a|a]; [|done|].
    + intros [-> _] Hx. by apply elem_of_nil in Hx.
    + intros (k & Ha & Hu & -> & _) ->%list_elem_of_singleton. done.
  - intros [Hr|(a & nd & cs & -> & _ & _ & _ & _ & _ & HF & _ & _ & -> & _)] Hx; [by eapply IH|].
    apply elem_of_part_keys in Hx as (i & c & Hc & Hx).
    destruct (Forall2_lookup_r _ _ _ _ _ HF Hc) as (q & _ & Hq). by eapply IH.
Qed.

Lemma crep_nonempty h p L N : crep ns ks h p L N -> p <> NNull -> L <> [].
Proof.
  intros Hr Hp. destruct p as [|a|a]; [done| |].
  - apply crep_node in Hr as (j & nd & cs & _ & Hn & ->). pose proof (nr_two _ _ _ _ _ _ _ Hn) as H2.
    destruct (filter (fun c : leaf_list * list Z => c.1 <> []) cs) as [|c l] eqn:E; [simpl in H2; lia|].
    assert (c ∈ filter (fun c : leaf_list * list Z => c.1 <> []) cs) as Hc by (rewrite E; left).
    apply list_elem_of_filter in Hc as [Hne Hc]. intros E'. destruct (c.1) as [|x l'] eqn:Ec; [done|].
    apply list_elem_of_lookup in Hc as [i Hi].
    assert (x ∈ part_keys cs) as Hx by (apply elem_of_part_keys; exists i, c; rewrite Ec; split; [done|left]).
    rewrite E' in Hx. by apply elem_of_nil in Hx.
  - apply crep_leaf in Hr as (k & _ & _ & -> & _). done.
Qed.

Lemma crep_empty h p N : crep ns ks h p [] N -> p = NNull.
Proof. intros Hr. destruct (decide (p = NNull)) as [|Hne]; [done|]. by apply crep_nonempty in Hr. Qed.

(** The path and the keys of a node agree above its nibble. *)
Lemma path_above h (p : Z) : p mod 2 ^ (4 * Z.of_nat (S h)) = 0 -> above p h = 16 * above p (S h).
Proof.
  intros Hm. pose proof (above_split p h) as E. assert (nibble p h = 0); [|lia]. unfold nibble, above.
  replace (4 * Z.of_nat (S h)) with (4 * Z.of_nat h + 4) in Hm by lia. rewrite Z.pow_add_r in Hm by lia.
  apply Z.mod_divide in Hm as [q ->]; [|assert (0 < 2 ^ (4 * Z.of_nat h)) by (apply Z.pow_pos_nonneg; lia); lia].
  rewrite (Z.mul_comm (2 ^ _)), Z.mul_assoc, Z.div_mul by (assert (0 < 2 ^ (4 * Z.of_nat h)) by (apply Z.pow_pos_nonneg; lia); lia).
  change (2 ^ 4) with 16. apply Z.mod_mul. lia.
Qed.

Lemma node_key h a nd cs N i c x :
  node_rep ns ks h a nd cs N -> cs !! i = Some c -> x ∈ c.1 ->
  above x.1 (S h) = above (path nd) (S h) /\ nibble x.1 h = Z.of_nat i.
Proof.
  intros Hn Hc Hx. pose proof (nr_ok _ _ _ _ _ _ _ Hn i c x Hc Hx) as E.
  rewrite (path_above h _ (nr_low _ _ _ _ _ _ _ Hn)), above_split in E.
  assert (i < 16)%nat by (apply lookup_lt_Some in Hc; rewrite (nr_len _ _ _ _ _ _ _ Hn) in Hc; done).
  pose proof (nibble_range x.1 h). lia.
Qed.

Lemma path_eq h nd k :
  is_u64 (path nd) -> is_u64 k -> (h < 16)%nat -> path nd mod 2 ^ (4 * Z.of_nat (S h)) = 0 ->
  (Z.land k (path_mask (4 * Z.of_nat h)) =? path nd) = (above k (S h) =? above (path nd) (S h)).
Proof.
  intros Hp Hk Hh Hm. rewrite path_mask_spec by done. apply eq_true_iff_eq. rewrite !Z.eqb_eq.
  assert (0 < 2 ^ (4 * Z.of_nat (S h))) as Hpos by (apply Z.pow_pos_nonneg; lia).
  assert (path nd = above (path nd) (S h) * 2 ^ (4 * Z.of_nat (S h))) as Ep.
  { unfold above. pose proof (Z.div_mod (path nd) (2 ^ (4 * Z.of_nat (S h)))). lia. }
  split; [|intros ->; done]. intros E. rewrite Ep in E at 1. nia.
Qed.
End Keys.

(** ** Sorted parts *)

Lemma parts_sorted (cs : parts) h base :
  (forall c, c ∈ cs -> StronglySorted Z.lt (c.1.*1)) ->
  (forall i c x, cs !! i = Some c -> x ∈ c.1 -> above x.1 h = base + Z.of_nat i) ->
  StronglySorted Z.lt ((part_keys cs).*1).
Proof.
  revert base. induction cs as [|c cs IH]; intros base Hs Hok; [constructor|].
  unfold part_keys. simpl. rewrite fmap_app. apply StronglySorted_app. split_and!.
  - intros x y Hx Hy. apply list_elem_of_fmap in Hx as (x' & -> & Hx), Hy as (y' & -> & Hy).
    apply elem_of_part_keys in Hy as (i & d & Hd & Hy). apply (above_lt _ _ h).
    rewrite (Hok 0%nat c x'), (Hok (S i) d y') by done. lia.
  - apply Hs. left.
  - apply (IH (base + 1)).
    + intros d Hd. apply Hs. by right.
    + intros i d x Hd Hx. rewrite (Hok (S i) d x) by done. lia.
Qed.

Lemma crep_sorted ns ks h p L N : crep ns ks h p L N -> StronglySorted Z.lt (L.*1).
Proof.
  revert p L N. induction h as [|h IH]; intros p L N; simpl.
  - destruct p as [|a|a]; [|done|].
    + intros [-> _]. constructor.
    + intros (k & _ & _ & -> & _). repeat constructor.
  - intros [Hr|(a & nd & cs & -> & _ & _ & _ & _ & _ & HF & Hok & _ & -> & _)]; [by eapply IH|].
    apply (parts_sorted cs h (above (path nd) h)); [|exact Hok].
    intros c Hc. apply list_elem_of_lookup in Hc as [i Hi].
    destruct (Forall2_lookup_r _ _ _ _ _ HF Hi) as (q & _ & Hq). by eapply IH.
Qed.

Lemma crep_NoDup ns ks h p L N : crep ns ks h p L N -> NoDup (L.*1).
Proof.
  intros Hr%crep_sorted. induction Hr as [|x l _ IH Hx]; [constructor|]. constructor; [|done].
  intros Hin. rewrite list.Forall_forall in Hx. specialize (Hx x Hin). lia.
Qed.

(** The keys of a list are unique. *)
Lemma key_unique (L : leaf_list) x y : NoDup (L.*1) -> x ∈ L -> y ∈ L -> x.1 = y.1 -> x = y.
Proof.
  intros Hnd Hx Hy E. apply list_elem_of_lookup in Hx as [i Hi], Hy as [j Hj].
  assert (i = j) as ->; [|congruence].
  apply (NoDup_lookup _ i j (x.1) Hnd); rewrite list_lookup_fmap; [by rewrite Hi|by rewrite Hj, E].
Qed.

Section Find.
Context `{HostAlloc H}.
Implicit Types s : cstate H.

Definition leaf_keys s : gmap Z Z := key <$> c_leaves s.
Definition tree s (h : nat) (p : nptr) (L : leaf_list) (N : list Z) : Prop :=
  crep (c_nodes s) (leaf_keys s) h p L N.

Lemma leaf_keys_lookup s a k : leaf_keys s !! a = Some k -> exists lf, c_leaves s !! a = Some lf /\ key lf = k.
Proof. unfold leaf_keys. rewrite lookup_fmap. intros (lf & ? & ->)%fmap_Some. eauto. Qed.

Lemma wp_load_node a nd (Q : critnib_node -> cstate H -> Prop) s :
  c_nodes s !! a = Some nd -> Q nd s -> wp (load_node a) Q s.
Proof. intros E HQ. unfold load_node. wp_step. by wp_step; [exact E|]. Qed.

Lemma wp_load_leaf a lf (Q : critnib_leaf -> cstate H -> Prop) s :
  c_leaves s !! a = Some lf -> Q lf s -> wp (load_leaf a) Q s.
Proof. intros E HQ. unfold load_leaf. wp_step. by wp_step; [exact E|]. Qed.

Lemma wp_load_child a nd i p (Q : nptr -> cstate H -> Prop) s :
  c_nodes s !! a = Some nd -> child nd !! i = Some p -> Q p s -> wp (load_child a i) Q s.
Proof. intros E Ei HQ. unfold load_child. apply wp_bind, (wp_load_node a nd); [done|]. by wp_step; [exact Ei|]. Qed.

(** ** [dive] *)

(** Where a key leads: to the leaf that has it, if there is one. *)
Definition dived (k : Z) (L : leaf_list) (n : nptr) : Prop :=
  match n with
  | NNull => forall x, x ∈ L -> x.1 <> k
  | NLeaf a => exists kk, (kk, a) ∈ L /\ forall x, x ∈ L -> x.1 = k -> x = (kk, a)
  | NNode _ => False
  end.

(** A key of the node with the nibble of [k] is in that part. *)
Lemma slice_part ns ks h a nd cs N k x :
  node_rep ns ks h a nd cs N -> x ∈ part_keys cs -> nibble x.1 h = nibble k h ->
  exists c, cs !! slice_index k (shift nd) = Some c /\ x ∈ c.1.
Proof.
  intros Hn Hx E. apply elem_of_part_keys in Hx as (i & c & Hc & Hx).
  destruct (node_key _ _ _ _ _ _ _ _ _ _ Hn Hc Hx) as [_ Hi].
  rewrite (nr_shift _ _ _ _ _ _ _ Hn), slice_index_spec, <- E, Hi, Nat2Z.id. eauto.
Qed.

Lemma wp_dive h fuel k p L N s (Q : nptr -> cstate H -> Prop) :
  tree s h p L N -> (h <= fuel)%nat -> (forall n, dived k L n -> Q n s) -> wp (dive fuel k p) Q s.
Proof.
  revert fuel p L N. induction h as [h IH] using lt_wf_ind. intros fuel p L N Hr Hf HQ.
  destruct p as [|a|a].
  - apply crep_null in Hr as [-> ->]. destruct fuel; simpl; wp_step; apply HQ; by intros x ?%elem_of_nil.
  - apply crep_node in Hr as (j & nd & cs & Hj & Hn & ->). destruct fuel as [|fuel]; [lia|]. simpl.
    apply wp_bind, (wp_load_node a nd); [apply (nr_node _ _ _ _ _ _ _ Hn)|].
    destruct (node_slice _ _ _ _ _ _ _ k Hn) as (q & c & Hq & Hc & Hr').
    apply wp_bind, (wp_load_child a nd _ q); [apply (nr_node _ _ _ _ _ _ _ Hn)|done|].
    apply (IH j Hj fuel q c.1 c.2 Hr'); [lia|]. intros n Hd. apply HQ.
    assert (forall x, x ∈ part_keys cs -> x.1 = k -> x ∈ c.1) as Hin.
    { intros x Hx E. destruct (slice_part _ _ _ _ _ _ _ k x Hn Hx) as (c' & Hc' & ?); [by rewrite E|]. congruence. }
    destruct n as [|b|b]; [|done|].
    + intros x Hx E. by apply (Hd x); [apply Hin|].
    + destruct Hd as (kk & Hkk & Hu). exists kk. split; [apply elem_of_part_keys; eauto|]. intros x Hx E. auto.
  - apply crep_leaf in Hr as (kk & _ & _ & -> & _). destruct fuel; simpl; wp_step; apply HQ;
      (exists kk; split; [left|]; by intros x ->%list_elem_of_singleton).
Qed.

(** ** Extremal leaves *)

Lemma part_keys_take_S (cs : parts) i c : cs !! i = Some c -> part_keys (take (S i) cs) = part_keys (take i cs) ++ c.1.
Proof. intros Hc. unfold part_keys. rewrite (take_S_r _ _ _ Hc), bind_app. simpl. by rewrite app_nil_r. Qed.

Lemma part_keys_drop (cs : parts) i c : cs !! i = Some c -> part_keys (drop i cs) = c.1 ++ part_keys (drop (S i) cs).
Proof. intros Hc. unfold part_keys. by rewrite (drop_S _ _ _ Hc). Qed.

Lemma child_below_spec ns ks h (ch : list nptr) (cs : parts) i :
  Forall2 (fun p c => crep ns ks h p c.1 c.2) ch cs -> (i < length cs)%nat ->
  match child_below ch i with
  | NNull => part_keys (take (S i) cs) = []
  | m => exists j c, (j <= i)%nat /\ ch !! j = Some m /\ cs !! j = Some c /\ crep ns ks h m c.1 c.2 /\
      list.last (part_keys (take (S i) cs)) = list.last c.1
  end.
Proof.
  intros HF. induction i as [|i IH]; intros Hi.
  - destruct (lookup_lt_is_Some_2 cs 0 Hi) as [c Hc]. destruct (Forall2_lookup_r _ _ _ _ _ HF Hc) as (m & Hm & Hr).
    simpl child_below. rewrite Hm. rewrite (part_keys_take_S cs 0 c Hc). simpl take. change (part_keys []) with ([] : leaf_list).
    rewrite app_nil_l. destruct m; [by apply crep_null in Hr as [-> _]|exists 0%nat, c; done..].
  - destruct (lookup_lt_is_Some_2 cs (S i) Hi) as [c Hc]. destruct (Forall2_lookup_r _ _ _ _ _ HF Hc) as (m & Hm & Hr).
    cbn [child_below]. rewrite Hm. rewrite (part_keys_take_S cs (S i) c Hc).
    assert (m = NNull \/ m <> NNull) as [->|Hne] by (destruct m; auto).
    + apply crep_null in Hr as [-> _]. rewrite app_nil_r. specialize (IH ltac:(lia)).
      destruct (child_below ch i); [done|..]; destruct IH as (j & d & ? & ?); exists j, d; split; [lia|done|lia|done].
    + assert (exists y l, c.1 = l ++ [y]) as (y & l & El).
      { pose proof (crep_nonempty _ _ _ _ _ _ Hr Hne) as Hnil. destruct (c.1) as [|? ?] using rev_ind; [done|eauto]. }
      destruct m; [done|exists (S i), c..]; (split_and!; [lia|done|done|done|rewrite El, app_assoc, !last_snoc; done]).
Qed.

Lemma wp_find_predecessor h fuel a L N s (Q : option Z -> cstate H -> Prop) :
  tree s h (NNode a) L N -> (h <= fuel)%nat -> Q (snd <$> list.last L) s ->
  wp (find_predecessor fuel (NNode a)) Q s.
Proof.
  revert fuel a L N. induction h as [h IH] using lt_wf_ind. intros fuel a L N Hr Hf HQ.
  apply crep_node in Hr as (j & nd & cs & Hj & Hn & ->). destruct fuel as [|fuel]; [lia|]. cbn [find_predecessor].
  apply wp_bind, (wp_load_node a nd); [apply (nr_node _ _ _ _ _ _ _ Hn)|].
  pose proof (child_below_spec _ _ _ _ _ (Z.to_nat NIB) (nr_parts _ _ _ _ _ _ _ Hn)) as Hc.
  pose proof (nr_len _ _ _ _ _ _ _ Hn) as Hlen. rewrite Hlen in Hc. specialize (Hc ltac:(unfold NIB; lia)).
  rewrite take_ge in Hc by (rewrite Hlen; unfold NIB; lia).
  destruct (child_below (child nd) (Z.to_nat NIB)) as [|b|b].
  - rewrite Hc in HQ. by wp_step.
  - destruct Hc as (i & c & _ & _ & _ & Hr & El). apply (IH j Hj fuel b c.1 c.2 Hr); [lia|]. by rewrite <- El.
  - destruct Hc as (i & c & _ & _ & _ & Hr & El). apply crep_leaf in Hr as (k & _ & _ & E & _).
    rewrite El, E in HQ. by wp_step.
Qed.

Lemma part_keys_split (cs : parts) i c :
  cs !! i = Some c -> part_keys cs = part_keys (take i cs) ++ c.1 ++ part_keys (drop (S i) cs).
Proof.
  intros Hc. rewrite <- (part_keys_drop cs i c Hc). unfold part_keys. by rewrite <- bind_app, take_drop.
Qed.

(** Keys left and right of the part a key belongs to. *)
Lemma parts_left ns ks h a nd cs N k i x :
  node_rep ns ks h a nd cs N -> above k (S h) = above (path nd) (S h) -> nibble k h = Z.of_nat i ->
  x ∈ part_keys (take i cs) -> x.1 < k.
Proof.
  intros Hn Hk Hi Hx. apply elem_of_part_keys in Hx as (j & c & Hc & Hx).
  apply lookup_take_Some in Hc as [Hc Hj]. destruct (node_key _ _ _ _ _ _ _ _ _ _ Hn Hc Hx) as [Ha Hnib].
  apply (above_lt _ _ h). rewrite !(above_split _ h), Ha, Hk. lia.
Qed.

Lemma parts_right ns ks h a nd cs N k i x :
  node_rep ns ks h a nd cs N -> above k (S h) = above (path nd) (S h) -> nibble k h = Z.of_nat i ->
  x ∈ part_keys (drop (S i) cs) -> k < x.1.
Proof.
  intros Hn Hk Hi Hx. apply elem_of_part_keys in Hx as (j & c & Hc & Hx).
  rewrite lookup_drop in Hc. destruct (node_key _ _ _ _ _ _ _ _ _ _ Hn Hc Hx) as [Ha Hnib].
  apply (above_lt _ _ h). rewrite !(above_split _ h), Ha, Hk. lia.
Qed.

(** A node outside the path of the key lies on one side of it. *)
Lemma node_side ns ks h a nd cs N k x :
  node_rep ns ks h a nd cs N -> above k (S h) <> above (path nd) (S h) -> x ∈ part_keys cs ->
  (path nd < k <-> x.1 < k) /\ x.1 <> k.
Proof.
  intros Hn Hk Hx. apply elem_of_part_keys in Hx as (i & c & Hc & Hx).
  destruct (node_key _ _ _ _ _ _ _ _ _ _ Hn Hc Hx) as [Ha _].
  assert (above k (S h) < above (path nd) (S h) \/ above (path nd) (S h) < above k (S h)) as [Hlt|Hlt] by lia.
  - pose proof (above_lt _ _ _ Hlt). rewrite <- Ha in Hlt. pose proof (above_lt _ _ _ Hlt). lia.
  - pose proof (above_lt _ _ _ Hlt). rewrite <- Ha in Hlt. pose proof (above_lt _ _ _ Hlt). lia.
Qed.

Definition le_leaf (k : Z) (L : leaf_list) : option Z := snd <$> list.last (filter (fun x => x.1 <= k) L).
Definition ge_leaf (k : Z) (L : leaf_list) : option Z := snd <$> head (filter (fun x => k <= x.1) L).

Lemma last_app_nonempty {T} (l1 l2 : list T) : l2 <> [] -> list.last (l1 ++ l2) = list.last l2.
Proof.
  intros Hne. destruct l2 as [|x l2] using rev_ind; [done|]. by rewrite app_assoc, !last_snoc.
Qed.

Lemma le_leaf_split (L1 L2 L3 : leaf_list) k :
  (forall x, x ∈ L1 -> x.1 < k) -> (forall x, x ∈ L3 -> k < x.1) ->
  le_leaf k (L1 ++ L2 ++ L3) = match le_leaf k L2 with Some r => Some r | None => snd <$> list.last L1 end.
Proof.
  intros H1' H3'. unfold le_leaf. rewrite !list.filter_app.
  rewrite (filter_all _ L1) by (apply list.Forall_forall; intros x Hx; specialize (H1' x Hx); lia).
  rewrite (filter_none _ L3) by (apply list.Forall_forall; intros x Hx; specialize (H3' x Hx); lia).
  rewrite app_nil_r. destruct (filter (fun x : Z * Z => x.1 <= k) L2) as [|x l] eqn:E; [by rewrite app_nil_r|].
  rewrite last_app_nonempty by done. destruct (list.last (x :: l)) eqn:El; [done|]. by apply last_None in El.
Qed.

Lemma ge_leaf_split (L1 L2 L3 : leaf_list) k :
  (forall x, x ∈ L1 -> x.1 < k) -> (forall x, x ∈ L3 -> k < x.1) ->
  ge_leaf k (L1 ++ L2 ++ L3) = match ge_leaf k L2 with Some r => Some r | None => snd <$> head L3 end.
Proof.
  intros H1' H3'. unfold ge_leaf. rewrite !list.filter_app.
  rewrite (filter_none _ L1) by (apply list.Forall_forall; intros x Hx; specialize (H1' x Hx); lia).
  rewrite (filter_all _ L3) by (apply list.Forall_forall; intros x Hx; specialize (H3' x Hx); lia).
  rewrite app_nil_l. by destruct (filter (fun x : Z * Z => k <= x.1) L2) as [|x l] eqn:E.
Qed.

Lemma wp_find_le h fuel k p L N s (Q : option Z -> cstate H -> Prop) :
  tree s h p L N -> (h <= fuel)%nat -> (h <= 16)%nat -> is_u64 k -> Q (le_leaf k L) s ->
  wp (find_le fuel p k) Q s.
Proof.
  revert fuel p L N Q. induction h as [h IH] using lt_wf_ind. intros fuel p L N Q Hr Hf Hh Hk HQ.
  destruct p as [|a|a].
  - apply crep_null in Hr as [-> ->]. destruct fuel; by simpl; wp_step.
  - pose proof Hr as Hr0. apply crep_node in Hr as (j & nd & cs & Hj & Hn & ->). destruct fuel as [|fuel]; [lia|].
    cbn [find_le]. apply wp_bind, (wp_load_node a nd); [apply (nr_node _ _ _ _ _ _ _ Hn)|].
    rewrite (nr_shift _ _ _ _ _ _ _ Hn), mismatch_spec by (done || apply (nr_path _ _ _ _ _ _ _ Hn)).
    destruct (Z.eqb_spec (above k (S j)) (above (path nd) (S j))) as [Hab|Hab]; simpl negb; cbv iota.
    + destruct (node_slice _ _ _ _ _ _ _ k Hn) as (q & c & Hq & Hc & Hr').
      rewrite (nr_shift _ _ _ _ _ _ _ Hn), slice_index_spec in Hq, Hc.
      pose proof (nibble_range k j) as Hnr. rewrite slice_index_spec. set (i := Z.to_nat (nibble k j)) in *.
      apply wp_bind, (wp_load_child a nd _ q); [apply (nr_node _ _ _ _ _ _ _ Hn)|done|].
      apply wp_bind, (IH j Hj fuel q c.1 c.2 _ Hr'); [lia|lia|done|].
      rewrite (part_keys_split cs i c Hc), le_leaf_split in HQ.
      2: { intros x Hx. apply (parts_left _ _ _ _ _ _ _ k i x Hn); [done|lia|done]. }
      2: { intros x Hx. apply (parts_right _ _ _ _ _ _ _ k i x Hn); [done|lia|done]. }
      destruct (le_leaf k c.1) as [r|]; [by wp_step|]. destruct i as [|i'] eqn:Ei; [by wp_step|].
      pose proof (child_below_spec _ _ _ _ _ i' (nr_parts _ _ _ _ _ _ _ Hn)) as Hcb.
      apply lookup_lt_Some in Hc. specialize (Hcb ltac:(lia)).
      destruct (child_below (child nd) i') as [|b|b].
      * rewrite Hcb in HQ. by wp_step.
      * destruct Hcb as (i2 & c2 & _ & _ & _ & Hr2 & El). rewrite El in HQ.
        apply (wp_find_predecessor j fuel b c2.1 c2.2); [done|lia|done].
      * destruct Hcb as (i2 & c2 & _ & _ & _ & Hr2 & El). apply crep_leaf in Hr2 as (k2 & _ & _ & E & _).
        rewrite El, E in HQ. by wp_step.
    + assert (forall x, x ∈ part_keys cs -> (path nd < k <-> x.1 < k) /\ x.1 <> k) as Hside.
      { intros x Hx. by apply (node_side _ _ _ _ _ _ _ k x Hn). }
      unfold le_leaf in HQ. destruct (Z.ltb_spec (path nd) k).
      * rewrite filter_all in HQ by (apply list.Forall_forall; intros x Hx; destruct (Hside x Hx); lia).
        by apply (wp_find_predecessor h (S fuel) a (part_keys cs) N).
      * rewrite filter_none in HQ by (apply list.Forall_forall; intros x Hx; destruct (Hside x Hx); lia). by wp_step.
  - apply crep_leaf in Hr as (kk & Ha & _ & -> & _). apply leaf_keys_lookup in Ha as (lf & Ha & <-).
    unfold le_leaf in HQ. rewrite filter_cons, filter_nil in HQ. simpl in HQ.
    destruct fuel; simpl; (apply wp_bind, (wp_load_leaf a lf); [done|]; wp_step;
      destruct (Z.leb_spec (key lf) k); case_decide; (done || lia)).
Qed.

Lemma child_above_spec ns ks h (ch : list nptr) (cs : parts) i :
  Forall2 (fun p c => crep ns ks h p c.1 c.2) ch cs ->
  match child_above ch i with
  | NNull => part_keys (drop i cs) = []
  | m => exists c, crep ns ks h m c.1 c.2 /\ head (part_keys (drop i cs)) = head c.1
  end.
Proof.
  intros HF. unfold child_above. apply (Forall2_drop _ _ _ i) in HF.
  induction HF as [|m c ch' cs' Hr _ IH]; [done|]. unfold part_keys. simpl. rewrite filter_cons.
  destruct (decide (m <> NNull)) as [Hne|Hnn].
  - pose proof (crep_nonempty _ _ _ _ _ _ Hr Hne). destruct (c.1) as [|y l] eqn:E; [done|].
    destruct m; [done|exists c; rewrite E; done..].
  - assert (m = NNull) as -> by (by destruct m; [|exfalso; apply Hnn..]).
    apply crep_null in Hr as [-> _]. done.
Qed.

Lemma wp_find_successor h fuel a L N s (Q : option Z -> cstate H -> Prop) :
  tree s h (NNode a) L N -> (h <= fuel)%nat -> Q (snd <$> head L) s -> wp (find_successor fuel (NNode a)) Q s.
Proof.
  revert fuel a L N. induction h as [h IH] using lt_wf_ind. intros fuel a L N Hr Hf HQ.
  apply crep_node in Hr as (j & nd & cs & Hj & Hn & ->). destruct fuel as [|fuel]; [lia|]. cbn [find_successor].
  apply wp_bind, (wp_load_node a nd); [apply (nr_node _ _ _ _ _ _ _ Hn)|].
  pose proof (child_above_spec _ _ _ _ _ 0 (nr_parts _ _ _ _ _ _ _ Hn)) as Hc. rewrite drop_0 in Hc.
  destruct (child_above (child nd) 0) as [|b|b].
  - rewrite Hc in HQ. by wp_step.
  - destruct Hc as (c & Hr & El). apply (IH j Hj fuel b c.1 c.2 Hr); [lia|]. by rewrite <- El.
  - destruct Hc as (c & Hr & El). apply crep_leaf in Hr as (k & _ & _ & E & _).
    rewrite El, E in HQ. by wp_step.
Qed.

Lemma wp_find_ge h fuel k p L N s (Q : option Z -> cstate H -> Prop) :
  tree s h p L N -> (h <= fuel)%nat -> (h <= 16)%nat -> is_u64 k -> Q (ge_leaf k L) s ->
  wp (find_ge fuel p k) Q s.
Proof.
  revert fuel p L N Q. induction h as [h IH] using lt_wf_ind. intros fuel p L N Q Hr Hf Hh Hk HQ.
  destruct p as [|a|a].
  - apply crep_null in Hr as [-> ->]. destruct fuel; by simpl; wp_step.
  - pose proof Hr as Hr0. apply crep_node in Hr as (j & nd & cs & Hj & Hn & ->). destruct fuel as [|fuel]; [lia|].
    cbn [find_ge]. apply wp_bind, (wp_load_node a nd); [apply (nr_node _ _ _ _ _ _ _ Hn)|].
    rewrite (nr_shift _ _ _ _ _ _ _ Hn), mismatch_spec by (done || apply (nr_path _ _ _ _ _ _ _ Hn)).
    destruct (Z.eqb_spec (above k (S j)) (above (path nd) (S j))) as [Hab|Hab]; simpl negb; cbv iota.
    + destruct (node_slice _ _ _ _ _ _ _ k Hn) as (q & c & Hq & Hc & Hr').
      rewrite (nr_shift _ _ _ _ _ _ _ Hn), slice_index_spec in Hq, Hc.
      pose proof (nibble_range k j) as Hnr. rewrite slice_index_spec. set (i := Z.to_nat (nibble k j)) in *.
      apply wp_bind, (wp_load_child a nd _ q); [apply (nr_node _ _ _ _ _ _ _ Hn)|done|].
      apply wp_bind, (IH j Hj fuel q c.1 c.2 _ Hr'); [lia|lia|done|].
      rewrite (part_keys_split cs i c Hc), ge_leaf_split in HQ.
      2: { intros x Hx. apply (parts_left _ _ _ _ _ _ _ k i x Hn); [done|lia|done]. }
      2: { intros x Hx. apply (parts_right _ _ _ _ _ _ _ k i x Hn); [done|lia|done]. }
      destruct (ge_leaf k c.1) as [r|]; [by wp_step|].
      pose proof (child_above_spec _ _ _ _ _ (S i) (nr_parts _ _ _ _ _ _ _ Hn)) as Hcb.
      destruct (child_above (child nd) (S i)) as [|b|b].
      * rewrite Hcb in HQ. by wp_step.
      * destruct Hcb as (c2 & Hr2 & El). rewrite El in HQ.
        apply (wp_find_successor j fuel b c2.1 c2.2); [done|lia|done].
      * destruct Hcb as (c2 & Hr2 & El). apply crep_leaf in Hr2 as (k2 & _ & _ & E & _).
        rewrite El, E in HQ. by wp_step.
    + assert (forall x, x ∈ part_keys cs -> (path nd < k <-> x.1 < k) /\ x.1 <> k) as Hside.
      { intros x Hx. by apply (node_side _ _ _ _ _ _ _ k x Hn). }
      unfold ge_leaf in HQ. rewrite Z.gtb_ltb. destruct (Z.ltb_spec k (path nd)).
      * rewrite filter_all in HQ by (apply list.Forall_forall; intros x Hx; destruct (Hside x Hx); lia).
        by apply (wp_find_successor h (S fuel) a (part_keys cs) N).
      * assert (path nd <> k) by congruence.
        rewrite filter_none in HQ by (apply list.Forall_forall; intros x Hx; destruct (Hside x Hx); lia). by wp_step.
  - apply crep_leaf in Hr as (kk & Ha & _ & -> & _). apply leaf_keys_lookup in Ha as (lf & Ha & <-).
    unfold ge_leaf in HQ. rewrite filter_cons, filter_nil in HQ. simpl in HQ.
    destruct fuel; simpl; (apply wp_bind, (wp_load_leaf a lf); [done|]; wp_step;
      rewrite Z.geb_leb; destruct (Z.leb_spec k (key lf)); case_decide; (done || lia)).
Qed.
End Find.
