(* ===== verification/CritIns.v ===== *)
(** * Updating a critnib subtree and removing from it

    Replacing a child of a node, the focus that the walk of [critnib_insert]
    ends with, and the node that it adds where two keys part.

    The walk of [critnib_remove], the scan for the only remaining child, and
    the subtree after the leaf has been unlinked. *)

From S2P Require Import Prelude Utils HostMem CritRep.
From stdpp Require Import list sorting.
From S2P Require Import Critnib.
#[local] Open Scope Z_scope.

Lemma part_keys_insert (cs : parts) i c d :
  cs !! i = Some c -> part_keys (<[i := d]> cs) = part_keys (take i cs) ++ d.1 ++ part_keys (drop (S i) cs).
Proof.
  intros Hc. unfold part_keys. rewrite insert_take_drop by (by eapply lookup_lt_Some). by rewrite bind_app.
Qed.

Lemma part_nodes_insert (cs : parts) i c d :
  cs !! i = Some c -> part_nodes (<[i := d]> cs) = part_nodes (take i cs) ++ d.2 ++ part_nodes (drop (S i) cs).
Proof.
  intros Hc. unfold part_nodes. rewrite insert_take_drop by (by eapply lookup_lt_Some). by rewrite bind_app.
Qed.

Lemma part_nodes_split (cs : parts) i c :
  cs !! i = Some c -> part_nodes cs = part_nodes (take i cs) ++ c.2 ++ part_nodes (drop (S i) cs).
Proof. intros Hc. rewrite <- (part_nodes_insert cs i c c Hc). by rewrite list_insert_id. Qed.

Lemma filter_insert_length (cs : parts) i (d : leaf_list * list Z) :
  d.1 <> [] -> (length (filter (fun c : leaf_list * list Z => c.1 <> []) cs) <=
                length (filter (fun c : leaf_list * list Z => c.1 <> []) (<[i := d]> cs)))%nat.
Proof.
  intros Hd. revert i. induction cs as [|c cs IH]; intros i; [done|]. destruct i as [|i]; simpl.
  - rewrite (filter_cons_True _ d) by done. rewrite filter_cons. destruct (decide _); simpl; lia.
  - rewrite !filter_cons. specialize (IH i). destruct (decide _); simpl; lia.
Qed.

(** The words of the other parts. *)
Definition other_parts (cs : parts) (i : nat) : parts := take i cs ++ drop (S i) cs.

Lemma elem_of_other_keys cs i j c x : i <> j -> cs !! j = Some c -> x ∈ c.1 -> x ∈ part_keys (other_parts cs i).
Proof.
  intros Hne Hc Hx. unfold part_keys, other_parts. rewrite bind_app, elem_of_app.
  destruct (decide (j < i)%nat).
  - left. apply list_elem_of_bind. exists c. split; [done|]. apply (list_elem_of_lookup_2 _ j).
    rewrite lookup_take_lt by done. done.
  - right. apply list_elem_of_bind. exists c. split; [done|]. apply (list_elem_of_lookup_2 _ (j - S i)).
    rewrite lookup_drop. by replace (S i + (j - S i))%nat with j by lia.
Qed.

Lemma elem_of_other_nodes cs i j c x : i <> j -> cs !! j = Some c -> x ∈ c.2 -> x ∈ part_nodes (other_parts cs i).
Proof.
  intros Hne Hc Hx. unfold part_nodes, other_parts. rewrite bind_app, elem_of_app.
  destruct (decide (j < i)%nat).
  - left. apply list_elem_of_bind. exists c. split; [done|]. apply (list_elem_of_lookup_2 _ j).
    rewrite lookup_take_lt by done. done.
  - right. apply list_elem_of_bind. exists c. split; [done|]. apply (list_elem_of_lookup_2 _ (j - S i)).
    rewrite lookup_drop. by replace (S i + (j - S i))%nat with j by lia.
Qed.

(** Replacing the [i]-th child of a node by a subtree that is not empty. *)
Lemma node_update ns ks ns' ks' j a nd cs N i c n' L' N' :
  node_rep ns ks j a nd cs N -> cs !! i = Some c -> ns' !! a = Some (with_child i n' nd) ->
  (forall b, b ∈ part_nodes (other_parts cs i) -> ns' !! b = ns !! b) ->
  (forall x, x ∈ part_keys (other_parts cs i) -> ks' !! x.2 = ks !! x.2) ->
  crep ns' ks' j n' L' N' -> n' <> NNull -> (forall x, x ∈ L' -> above x.1 j = above (path nd) j + Z.of_nat i) ->
  crep ns' ks' (S j) (NNode a) (part_keys (take i cs) ++ L' ++ part_keys (drop (S i) cs))
    (a :: part_nodes (other_parts cs i) ++ N').
Proof.
  intros Hn Hc Ha Hb Hx Hr Hne Hk. pose proof Hn as [En Es Ep Em El HF Hok H2 HN].
  pose proof (part_keys_insert cs i c (L', N') Hc) as Ek. simpl in Ek. rewrite <- Ek.
  apply (crep_node_intro _ _ j a (with_child i n' nd) (<[i := (L', N')]> cs)). constructor; try done.
  - by rewrite length_insert.
  - simpl. apply Forall2_same_length_lookup. apply Forall2_same_length_lookup in HF as [Hl HF].
    rewrite !length_insert. split; [done|]. intros i' q d Hq Hd.
    assert (i < length (child nd))%nat by (rewrite Hl; by eapply lookup_lt_Some).
    destruct (decide (i = i')) as [<-|Hi].
    + rewrite list_lookup_insert_eq in Hq by done. rewrite list_lookup_insert_eq in Hd by lia.
      injection Hq as <-. injection Hd as <-. done.
    + rewrite list_lookup_insert_ne in Hq by done. rewrite list_lookup_insert_ne in Hd by done.
      apply (crep_frame ns ks); [| |by apply (HF i')].
      * intros b Hb'. apply Hb. by apply (elem_of_other_nodes cs i i' d).
      * intros x Hx'. apply Hx. by apply (elem_of_other_keys cs i i' d).
  - intros i' d x Hd Hxd. destruct (decide (i = i')) as [<-|Hi].
    + rewrite list_lookup_insert_eq in Hd by (by eapply lookup_lt_Some). injection Hd as <-. by apply Hk.
    + rewrite list_lookup_insert_ne in Hd by done. by apply (Hok i' d).
  - etrans; [exact H2|]. apply filter_insert_length. simpl. by apply (crep_nonempty _ _ _ _ _ _ Hr).
  - f_equiv. rewrite (part_nodes_insert cs i c (L', N') Hc). unfold part_nodes, other_parts. rewrite bind_app. simpl.
    rewrite <- app_assoc. f_equiv. apply Permutation_app_comm.
Qed.

(** ** Focus *)

(** Replacing the contents of [sl], below [p], by a subtree [n'] whose keys
    have the prefix [q]: the rest of the subtree [p] stays. *)
Definition plug (ns : gmap Z critnib_node) (ks : gmap Z Z) (h : nat) (p : nptr) (a : Z) (i : nat)
    (nd : critnib_node) (hf : nat) (L1 L2 : leaf_list) (N1 : list Z) : Prop :=
  forall ns' ks' n' L' N',
    (forall b, b ∈ N1 -> b <> a -> ns' !! b = ns !! b) -> ns' !! a = Some (with_child i n' nd) ->
    (forall x, x ∈ L1 ++ L2 -> ks' !! x.2 = ks !! x.2) ->
    crep ns' ks' hf n' L' N' -> n' <> NNull ->
    (forall x, x ∈ L' -> above x.1 hf = above (path nd) hf + Z.of_nat i) ->
    crep ns' ks' h p (L1 ++ L' ++ L2) (N1 ++ N').

(** The subtree [n] in the child slot [i] of the node [a], inside [p]. *)
Record focus ns ks (h : nat) (p : nptr) (L : leaf_list) (N : list Z)
    (a : Z) (i : nat) (nd : critnib_node) (hf : nat) (n : nptr) (L1 Ln L2 : leaf_list) (N1 Nn : list Z) : Prop := {
  fo_keys : L = L1 ++ Ln ++ L2;
  fo_nodes : N ≡ₚ N1 ++ Nn;
  fo_rep : crep ns ks hf n Ln Nn;
  fo_level : (hf < h)%nat;
  fo_node : ns !! a = Some nd;
  fo_shift : shift nd = 4 * Z.of_nat hf;
  fo_in : a ∈ N1;
  fo_child : child nd !! i = Some n;
  fo_prefix : forall x, x ∈ Ln -> above x.1 hf = above (path nd) hf + Z.of_nat i;
  fo_idx : (i < 16)%nat;
  fo_low : path nd mod 2 ^ (4 * Z.of_nat (S hf)) = 0;
  fo_top : exists y, y ∈ L /\ above y.1 (S hf) = above (path nd) (S hf);
  fo_plug : plug ns ks h p a i nd hf L1 L2 N1;
}.

Lemma focus_here ns ks h a nd cs N i c n :
  node_rep ns ks h a nd cs N -> NoDup N -> cs !! i = Some c -> child nd !! i = Some n ->
  focus ns ks (S h) (NNode a) (part_keys cs) N a i nd h n
    (part_keys (take i cs)) c.1 (part_keys (drop (S i) cs)) (a :: part_nodes (other_parts cs i)) c.2.
Proof.
  intros Hn Hnd Hc Hi.
  assert (N ≡ₚ a :: part_nodes (other_parts cs i) ++ c.2) as HN.
  { rewrite (nr_nodes _ _ _ _ _ _ _ Hn). f_equiv. rewrite (part_nodes_split cs i c Hc).
    unfold part_nodes, other_parts. rewrite bind_app, <- app_assoc. f_equiv. apply Permutation_app_comm. }
  constructor.
  - by apply part_keys_split.
  - exact HN.
  - destruct (node_child _ _ _ _ _ _ _ _ _ Hn Hi) as (d & Hd & Hr). by simplify_eq.
  - lia.
  - apply (nr_node _ _ _ _ _ _ _ Hn).
  - apply (nr_shift _ _ _ _ _ _ _ Hn).
  - left.
  - done.
  - intros x Hx. by apply (nr_ok _ _ _ _ _ _ _ Hn i c).
  - apply lookup_lt_Some in Hc. by rewrite (nr_len _ _ _ _ _ _ _ Hn) in Hc.
  - apply (nr_low _ _ _ _ _ _ _ Hn).
  - destruct (part_keys cs) as [|y l] eqn:E.
    + pose proof (crep_node_intro _ _ _ _ _ _ _ Hn) as Hr. rewrite E in Hr. by apply crep_empty in Hr.
    + assert (y ∈ part_keys cs) as Hy by (rewrite E; left). exists y. split; [left|].
      apply elem_of_part_keys in Hy as (j & d & Hd & Hy).
      by destruct (node_key _ _ _ _ _ _ _ _ _ _ Hn Hd Hy).
  - intros ns' ks' n' L' N' Hb Ha Hx Hr Hne Hk.
    apply (node_update ns ks ns' ks' h a nd cs N i c n' L' N' Hn Hc Ha); try done.
    + intros b Hin. apply Hb; [by right|]. intros ->. rewrite HN in Hnd.
      apply list.NoDup_cons in Hnd as [Hna _]. apply Hna, elem_of_app. by left.
    + intros x Hin. apply Hx. unfold part_keys, other_parts in *. by rewrite bind_app in Hin.
Qed.

(** A focus inside the [i]-th child is one inside the node. *)
Lemma focus_deeper ns ks j m nd0 cs N i c q a i' nd hf n L1 Ln L2 N1 Nn :
  node_rep ns ks j m nd0 cs N -> NoDup N -> cs !! i = Some c -> child nd0 !! i = Some q ->
  focus ns ks j q c.1 c.2 a i' nd hf n L1 Ln L2 N1 Nn ->
  focus ns ks (S j) (NNode m) (part_keys cs) N a i' nd hf n
    (part_keys (take i cs) ++ L1) Ln (L2 ++ part_keys (drop (S i) cs)) (m :: part_nodes (other_parts cs i) ++ N1) Nn.
Proof.
  intros Hn Hnd Hc Hi [Ek EN Hr Hlt Ha Hs Hin Hch Hpre Hidx Hlow (y & Hy & Htop) Hplug].
  assert (N ≡ₚ m :: part_nodes (other_parts cs i) ++ c.2) as HN.
  { rewrite (nr_nodes _ _ _ _ _ _ _ Hn). f_equiv. rewrite (part_nodes_split cs i c Hc).
    unfold part_nodes, other_parts. rewrite bind_app, <- app_assoc. f_equiv. apply Permutation_app_comm. }
  assert (m :: part_nodes (other_parts cs i) ++ N1 ++ Nn ≡ₚ N) as HN' by (by rewrite HN, EN).
  assert (forall b, b ∈ m :: part_nodes (other_parts cs i) -> b <> a) as Hdis.
  { intros b Hb ->. rewrite <- HN' in Hnd. rewrite app_comm_cons in Hnd. apply NoDup_app in Hnd as (_ & Hd & _).
    apply (Hd a Hb). apply elem_of_app. by left. }
  assert (forall x, x ∈ c.1 -> above x.1 j = above (path nd0) j + Z.of_nat i) as Hc1.
  { intros x Hx. by apply (nr_ok _ _ _ _ _ _ _ Hn i c). }
  constructor; try done; [..|lia| | |].
  - rewrite (part_keys_split cs i c Hc), Ek. by rewrite <- !app_assoc.
  - rewrite <- HN'. by rewrite <- app_comm_cons, <- app_assoc.
  - right. apply elem_of_app. by right.
  - exists y. split; [apply elem_of_part_keys; eauto|done].
  - intros ns' ks' n' L' N' Hb Ha' Hx Hr' Hne Hk.
    rewrite <- !app_assoc, <- app_comm_cons, <- app_assoc. rewrite (app_assoc L1), (app_assoc (L1 ++ L')), <- (app_assoc L1 L').
    apply (node_update ns ks ns' ks' j m nd0 cs N i c q (L1 ++ L' ++ L2) (N1 ++ N') Hn Hc).
    + replace (with_child i q nd0) with nd0 by (destruct nd0; unfold with_child; simpl in *; by rewrite list_insert_id).
      rewrite Hb; [apply (nr_node _ _ _ _ _ _ _ Hn)|left|apply Hdis; left].
    + intros b Hbo. apply Hb; [right; apply elem_of_app; by left|]. apply Hdis. by right.
    + intros x Hxo. apply Hx. unfold part_keys, other_parts in Hxo. rewrite bind_app in Hxo.
      rewrite <- app_assoc. apply elem_of_app in Hxo as [?|?]; rewrite !elem_of_app; tauto.
    + apply (Hplug ns' ks' n' L' N'); [|done| |done|done|done].
      * intros b Hbn Hba. apply Hb; [right; apply elem_of_app; by right|done].
      * intros x Hx'. apply Hx. rewrite !elem_of_app. apply elem_of_app in Hx'. tauto.
    + intros ->. apply (node_child _ _ _ _ _ _ _ _ _ Hn) in Hi as (d & Hd & Hrd). simplify_eq.
      apply crep_null in Hrd as [E _]. rewrite E in Hy. by apply elem_of_nil in Hy.
    + intros x Hxl. assert (x ∈ L' \/ x ∈ c.1) as [HxL|Hxc].
      { rewrite Ek. rewrite !elem_of_app in Hxl |- *. tauto. }
      * rewrite <- (Hc1 y Hy). apply (above_eq_mono _ _ (S hf)); [lia|]. rewrite Htop.
        pose proof (Hk x HxL) as E. rewrite (path_above hf _ Hlow), above_split in E.
        pose proof (nibble_range x.1 hf). lia.
      * by apply Hc1.
Qed.

Lemma focus_mono ns ks h h' p L N a i nd hf n L1 Ln L2 N1 Nn :
  (h <= h')%nat -> focus ns ks h p L N a i nd hf n L1 Ln L2 N1 Nn ->
  focus ns ks h' p L N a i nd hf n L1 Ln L2 N1 Nn.
Proof.
  intros Hle [? ? ? ? ? ? ? ? ? ? ? ? Hplug]. constructor; try done; [lia|].
  intros ns' ks' n' L' N' ? ? ? ? ? ?. apply (crep_mono _ _ h); [done|]. by apply (Hplug ns' ks' n' L' N').
Qed.

(** ** The node of two keys that part *)

(** The word [critnib_insert] compares the key with: the key of a leaf, the
    path of a node. *)
Definition branch_key (ns : gmap Z critnib_node) (ks : gmap Z Z) (n : nptr) (p : Z) : Prop :=
  match n with
  | NNull => False
  | NLeaf b => ks !! b = Some p
  | NNode b => path <$> ns !! b = Some p
  end.

(** The walk does not enter [n]. *)
Definition stops (ns : gmap Z critnib_node) (k : Z) (n : nptr) : Prop :=
  match n with
  | NNode b => exists nd, ns !! b = Some nd /\ Z.land k (path_mask (shift nd)) <> path nd
  | _ => True
  end.

Lemma branch_u64 ns ks hf n L N p : crep ns ks hf n L N -> branch_key ns ks n p -> is_u64 p.
Proof.
  intros Hr Hp. destruct n as [|b|b]; [done| |]; simpl in Hp.
  - apply crep_node in Hr as (j & nd & cs & _ & Hnr & _). rewrite (nr_node _ _ _ _ _ _ _ Hnr) in Hp.
    injection Hp as <-. apply Hnr.
  - apply crep_leaf in Hr as (kk & Hb & Hu & _). by rewrite Hb in Hp; injection Hp as <-.
Qed.

(** Below the nibble where [p] and [k] part, the subtree follows [p]. *)
Lemma branch_level ns ks hf n L N k p h :
  crep ns ks hf n L N -> (hf <= 16)%nat -> is_u64 k -> branch_key ns ks n p -> stops ns k n ->
  above p (S h) = above k (S h) -> nibble p h <> nibble k h ->
  crep ns ks h n L N /\ forall x, x ∈ L -> above x.1 h = above p h.
Proof.
  intros Hr Hhf Hk Hp Hs Ha Hn. destruct n as [|b|b]; [done| |].
  - apply crep_node in Hr as (j & nd & cs & Hj & Hnr & ->). simpl in Hp, Hs.
    rewrite (nr_node _ _ _ _ _ _ _ Hnr) in Hp. injection Hp as <-.
    destruct Hs as (nd' & Hnd & Hne). rewrite (nr_node _ _ _ _ _ _ _ Hnr) in Hnd. injection Hnd as <-.
    apply Z.eqb_neq in Hne. rewrite (nr_shift _ _ _ _ _ _ _ Hnr) in Hne.
    rewrite path_eq in Hne by (apply Hnr || done || lia). apply Z.eqb_neq in Hne.
    assert (j < h)%nat as Hjh.
    { destruct (Nat.lt_ge_cases j h); [done|]. exfalso. apply Hne. symmetry.
      apply (above_eq_mono _ _ (S h)); [lia|done]. }
    split.
    + apply (crep_mono _ _ (S j)); [lia|]. by apply (crep_node_intro _ _ j b nd).
    + intros x Hx. apply (above_eq_mono _ _ (S j)); [lia|].
      apply elem_of_part_keys in Hx as (i & c & Hc & Hx). by apply (node_key _ _ _ _ _ _ _ _ _ _ Hnr Hc Hx).
  - apply crep_leaf in Hr as (kk & Hb & Hu & -> & ->). simpl in Hp. rewrite Hb in Hp. injection Hp as <-.
    split; [apply crep_leaf; eauto|]. by intros x ->%list_elem_of_singleton.
Qed.

(** Two subtrees in otherwise empty parts. *)
Definition two_parts (i j : nat) (c d : leaf_list * list Z) : parts := <[j := d]> (<[i := c]> (replicate 16 ([], []))).

Lemma bind_replicate_nil {T U} (f : T -> list U) n x : f x = [] -> replicate n x ≫= f = [].
Proof. intros E. induction n as [|n IH]; [done|]. simpl. by rewrite E. Qed.

Lemma two_parts_bind {U} (f : leaf_list * list Z -> list U) i j c d :
  f ([], []) = [] -> (i < 16)%nat -> (j < 16)%nat -> i <> j -> two_parts i j c d ≫= f ≡ₚ f c ++ f d.
Proof.
  intros Hf Hi Hj Hne. unfold two_parts.
  assert (forall (l : parts) n x y, l !! n = Some x -> <[n := y]> l ≫= f ≡ₚ f y ++ (take n l ++ drop (S n) l) ≫= f) as Hins.
  { intros l n x y Hl. rewrite insert_take_drop by (by eapply lookup_lt_Some). rewrite !bind_app. simpl.
    apply Permutation_app_swap_app. }
  assert (forall (l : parts) n x, l !! n = Some x -> f x = [] -> (take n l ++ drop (S n) l) ≫= f ≡ₚ l ≫= f) as Hdel.
  { intros l n x Hl Hx. rewrite <- (list_insert_id l n x Hl) at 3. rewrite (Hins l n x x Hl), Hx. done. }
  assert (<[i:=c]> (replicate 16 ([], [])) !! j = Some (([], []) : leaf_list * list Z)) as Hlj.
  { rewrite list_lookup_insert_ne by done. by apply lookup_replicate_2. }
  rewrite (Hins _ j _ _ Hlj), (Hdel _ j _ Hlj Hf).
  rewrite (Hins _ i ([], [])) by (by apply lookup_replicate_2).
  rewrite (Hdel _ i ([], [])) by (done || by apply lookup_replicate_2).
  rewrite (bind_replicate_nil f) by done. rewrite app_nil_r. apply Permutation_app_comm.
Qed.

Lemma filter_one {T} (P : T -> Prop) `{!forall x, Decision (P x)} (l : list T) i x :
  l !! i = Some x -> P x -> (1 <= length (filter P l))%nat.
Proof.
  intros Hi Hx. assert (x ∈ filter P l) as Hin by (apply list_elem_of_filter; split; [done|by eapply list_elem_of_lookup_2]).
  destruct (filter P l); [by apply elem_of_nil in Hin|simpl; lia].
Qed.

Lemma filter_two {T} (P : T -> Prop) `{!forall x, Decision (P x)} (l : list T) i j x y :
  l !! i = Some x -> l !! j = Some y -> i <> j -> P x -> P y -> (2 <= length (filter P l))%nat.
Proof.
  revert i j. induction l as [|z l IH]; intros i j Hi Hj Hne Hx Hy; [done|]. rewrite filter_cons.
  destruct i as [|i], j as [|j]; simpl in Hi, Hj; [done| | |].
  - injection Hi as ->. rewrite decide_True by done. pose proof (filter_one P l j y Hj Hy). simpl. lia.
  - injection Hj as ->. rewrite decide_True by done. pose proof (filter_one P l i x Hi Hx). simpl. lia.
  - specialize (IH i j Hi Hj ltac:(congruence) Hx Hy). destruct (decide _); simpl; lia.
Qed.

Lemma two_parts_lookup i j c d n x :
  (i < 16)%nat -> (j < 16)%nat -> i <> j -> two_parts i j c d !! n = Some x ->
  (n = i /\ x = c) \/ (n = j /\ x = d) \/ (n <> i /\ n <> j /\ x = ([], [])).
Proof.
  intros Hi Hj Hne. unfold two_parts. destruct (decide (n = j)) as [->|Hj'].
  - rewrite list_lookup_insert_eq by (rewrite length_insert, length_replicate; lia). intros [= <-]. auto.
  - rewrite list_lookup_insert_ne by done. destruct (decide (n = i)) as [->|Hi'].
    + rewrite list_lookup_insert_eq by (rewrite length_replicate; lia). intros [= <-]. auto.
    + rewrite list_lookup_insert_ne by done. intros [-> _]%lookup_replicate_1. auto.
Qed.

(** The fields [critnib_insert] gives its new node. *)
Definition new_node (n : nptr) (a k p sh : Z) : critnib_node :=
  mk_cnode (<[slice_index p sh := n]> (<[slice_index k sh := NLeaf a]> (replicate (Z.to_nat SLNODES) NNull)))
    (Z.land k (path_mask sh)) sh.

Lemma new_node_path k h :
  is_u64 k -> (h < 16)%nat ->
  let pa := Z.land k (path_mask (4 * Z.of_nat h)) in
  is_u64 pa /\ pa mod 2 ^ (4 * Z.of_nat (S h)) = 0 /\ above pa h = 16 * above k (S h).
Proof.
  intros Hk Hh pa. assert (0 < 2 ^ (4 * Z.of_nat (S h))) as Hpos by (apply Z.pow_pos_nonneg; lia).
  unfold pa. rewrite path_mask_spec by done. split_and!.
  - unfold is_u64, above in *. pose proof (Z.div_pos k (2 ^ (4 * Z.of_nat (S h)))).
    pose proof (Z.mul_div_le k (2 ^ (4 * Z.of_nat (S h)))). nia.
  - apply Z.mod_mul. lia.
  - unfold above at 1. replace (4 * Z.of_nat (S h)) with (4 * Z.of_nat h + 4) by lia.
    rewrite Z.pow_add_r, (Z.mul_comm (2 ^ _)), Z.mul_assoc, Z.div_mul by lia. change (2 ^ 4) with 16. lia.
Qed.

Lemma crep_new_node ns ks ns' ks' hf n Ln Nn k a m p :
  crep ns ks hf n Ln Nn -> (hf <= 16)%nat -> is_u64 k -> branch_key ns ks n p -> stops ns k n -> p <> k ->
  (forall x, x ∈ Ln -> above x.1 hf = above k hf) ->
  (forall b, b ∈ Nn -> ns' !! b = ns !! b) -> (forall x, x ∈ Ln -> ks' !! x.2 = ks !! x.2) -> ks' !! a = Some k ->
  ns' !! m = Some (new_node n a k p (Z.land (utils_msb64 (Z.lxor p k)) 252)) ->
  exists L', crep ns' ks' hf (NNode m) L' (m :: Nn) /\ L' ≡ₚ (k, a) :: Ln.
Proof.
  intros Hr Hhf Hk Hp Hs Hne Hab Hns Hks Ha Hm.
  pose proof (branch_u64 _ _ _ _ _ _ _ Hr Hp) as Hpu.
  destruct (split_spec p k Hpu Hk Hne) as (h & Hh & Esh & Hab' & Hnib). rewrite Esh in Hm.
  destruct (branch_level ns ks hf n Ln Nn k p h Hr Hhf Hk Hp Hs Hab' Hnib) as (Hrh & HLn).
  assert (n <> NNull) as Hnn by (by destruct n). assert (Ln <> []) as HLne by (by apply (crep_nonempty _ _ _ _ _ _ Hr)).
  assert (h < hf)%nat as Hlt.
  { destruct (Nat.lt_ge_cases h hf); [done|]. destruct Ln as [|x l]; [done|].
    pose proof (above_eq_mono _ _ hf h ltac:(lia) (Hab x ltac:(left))) as E. rewrite (HLn x) in E by left.
    rewrite !(above_split _ h), Hab' in E. lia. }
  pose proof (nibble_range k h). pose proof (nibble_range p h).
  set (ik := Z.to_nat (nibble k h)). set (ip := Z.to_nat (nibble p h)).
  set (cs := two_parts ik ip ([(k, a)], []) (Ln, Nn)).
  assert (ik <> ip) as Hii by lia. assert (ik < 16)%nat as Hik by lia. assert (ip < 16)%nat as Hip by lia.
  exists (part_keys cs). split.
  - apply (crep_mono _ _ (S h)); [lia|]. apply (crep_node_intro _ _ h m (new_node n a k p (4 * Z.of_nat h)) cs).
    destruct (new_node_path k h Hk Hh) as (Hu & Hlow & Hpa).
    constructor; [exact Hm|done|done|done|by unfold cs, two_parts; rewrite !length_insert, length_replicate|..].
    + unfold new_node, child. rewrite !slice_index_spec. unfold cs, two_parts. fold ik ip. change (Z.to_nat SLNODES) with 16%nat.
      apply Forall2_insert; [apply Forall2_insert; [apply Forall2_replicate; by apply crep_null|]|].
      * apply crep_leaf. exists k. done.
      * by apply (crep_frame ns ks).
    + intros i c x Hc Hx. simpl. rewrite Hpa.
      apply two_parts_lookup in Hc as [[-> ->]|[[-> ->]|(_ & _ & ->)]]; try done.
      * apply list_elem_of_singleton in Hx as ->. simpl. rewrite above_split. lia.
      * rewrite (HLn x Hx), above_split, Hab'. lia.
      * by apply elem_of_nil in Hx.
    + apply (filter_two _ cs ik ip ([(k, a)], []) (Ln, Nn)); try done.
      * unfold cs, two_parts. rewrite list_lookup_insert_ne by done. by apply list_lookup_insert_eq.
      * unfold cs, two_parts. apply list_lookup_insert_eq. by rewrite length_insert, length_replicate.
    + f_equiv. unfold part_nodes, cs. by rewrite two_parts_bind.
  - unfold part_keys, cs. by rewrite two_parts_bind.
Qed.

(** ** The walk of [critnib_insert] *)

Section Walk.
Context `{HostAlloc H}.
Implicit Types s : cstate H.

(** The slot where the walk for [k] ends, inside [p]. *)
Record walked s (k : Z) (h : nat) (p : nptr) (L : leaf_list) (N : list Z) (n : nptr) (a : Z) (i : nat) : Prop := {
  wk_stops : stops (c_nodes s) k n;
  wk_focus : exists nd hf L1 Ln L2 N1 Nn,
    focus (c_nodes s) (leaf_keys s) h p L N a i nd hf n L1 Ln L2 N1 Nn /\
    i = slice_index k (shift nd) /\ above k hf = above (path nd) hf + Z.of_nat i;
}.

Lemma slice_above k h (nd : critnib_node) :
  path nd mod 2 ^ (4 * Z.of_nat (S h)) = 0 -> above k (S h) = above (path nd) (S h) ->
  above k h = above (path nd) h + Z.of_nat (slice_index k (4 * Z.of_nat h)).
Proof.
  intros Hl E. rewrite slice_index_spec, (path_above h _ Hl), above_split, E. pose proof (nibble_range k h). lia.
Qed.

Lemma part_nodes_NoDup ns ks h a nd cs N i c :
  node_rep ns ks h a nd cs N -> NoDup N -> cs !! i = Some c -> NoDup c.2.
Proof.
  intros Hn Hnd Hc. rewrite (nr_nodes _ _ _ _ _ _ _ Hn), (part_nodes_split cs i c Hc) in Hnd.
  apply NoDup_cons in Hnd as [_ Hnd]. apply NoDup_app in Hnd as (_ & _ & Hnd). by apply NoDup_app in Hnd as (? & _).
Qed.

Lemma wp_insert_walk h fuel k p L N prev sl s (Q : nptr * nptr * slot -> cstate H -> Prop) :
  tree s h p L N -> NoDup N -> (h <= fuel)%nat -> (h <= 16)%nat -> is_u64 k ->
  (stops (c_nodes s) k p -> Q (p, prev, sl) s) ->
  (forall n a i, walked s k h p L N n a i -> Q (n, NNode a, SChild a i) s) ->
  wp (insert_walk fuel k p prev sl) Q s.
Proof.
  revert fuel p L N prev sl. induction h as [h IH] using lt_wf_ind.
  intros fuel p L N prev sl Hr Hnd Hf Hh Hk Hstop Hdeep. destruct p as [|b|b].
  - destruct fuel; simpl; wp_step; by apply Hstop.
  - pose proof Hr as Hr0. apply crep_node in Hr as (j & nd & cs & Hj & Hn & ->).
    destruct fuel as [|fuel]; [lia|]. cbn [insert_walk].
    apply wp_bind, (wp_load_node b nd); [apply (nr_node _ _ _ _ _ _ _ Hn)|].
    destruct (Z.land k (path_mask (shift nd)) =? path nd) eqn:Em.
    2: { wp_step. apply Hstop. exists nd. split; [apply (nr_node _ _ _ _ _ _ _ Hn)|by apply Z.eqb_neq]. }
    rewrite (nr_shift _ _ _ _ _ _ _ Hn), path_eq in Em by (apply Hn || done || lia). apply Z.eqb_eq in Em.
    destruct (node_slice _ _ _ _ _ _ _ k Hn) as (q & c & Hq & Hc & Hr').
    apply wp_bind, (wp_load_child b nd _ q); [apply (nr_node _ _ _ _ _ _ _ Hn)|done|].
    apply (IH j Hj fuel q c.1 c.2); [done|by eapply part_nodes_NoDup|lia|lia|done|..].
    + intros Hs. apply Hdeep. constructor; [done|]. do 7 eexists.
      split_and!; [apply (focus_mono _ _ (S j)); [lia|by apply focus_here]|done|rewrite (nr_shift _ _ _ _ _ _ _ Hn); apply slice_above; [apply Hn|done]].
    + intros n a i [Hs (nd' & hf & L1 & Ln & L2 & N1 & Nn & Hfo & Ei & Ea)]. apply Hdeep. constructor; [done|].
      do 7 eexists. split_and!; [apply (focus_mono _ _ (S j)); [lia|by eapply focus_deeper]|done|done].
  - destruct fuel; simpl; wp_step; by apply Hstop.
Qed.
End Walk.

(** ** The only remaining child *)

Lemma only_child_some l n c : only_child l n (Some c) = if decide (Forall (fun m => m = NNull) l) then Some (Some c) else None.
Proof.
  revert n. induction l as [|m l IH]; intros n; [done|]. destruct m; cbn [only_child].
  - rewrite IH. apply decide_ext. rewrite Forall_cons. tauto.
  - rewrite decide_False; [done|]. by intros [? _]%Forall_cons.
  - rewrite decide_False; [done|]. by intros [? _]%Forall_cons.
Qed.

Lemma only_child_spec l n :
  match only_child l n None with
  | None => exists i j m m', i <> j /\ l !! i = Some m /\ l !! j = Some m' /\ m <> NNull /\ m' <> NNull
  | Some None => forall i m, l !! i = Some m -> m = NNull
  | Some (Some c) => exists i m, c = (n + i)%nat /\ l !! i = Some m /\ m <> NNull /\
      forall j m', l !! j = Some m' -> j <> i -> m' = NNull
  end.
Proof.
  revert n. induction l as [|m l IH]; intros n; [done|]. assert (m = NNull \/ m <> NNull) as [->|Hm] by (destruct m; auto).
  - simpl. specialize (IH (S n)). destruct (only_child l (S n) None) as [[c|]|].
    + destruct IH as (i & m & -> & Hi & Hm & Hu). exists (S i), m. split_and!; [lia|done|done|].
      intros [|j] m' Hj Hne; simpl in Hj; [congruence|]. by apply (Hu j); [|congruence].
    + intros [|i] m Hi; simpl in Hi; [congruence|by eapply IH].
    + destruct IH as (i & j & m & m' & ? & ? & ? & ? & ?). exists (S i), (S j), m, m'. split_and!; [congruence|done..].
  - replace (only_child (m :: l) n None) with (only_child l (S n) (Some n)) by (by destruct m). rewrite only_child_some.
    destruct (decide _) as [Hall|Hnall].
    + exists 0%nat, m. split_and!; [lia|done|done|]. intros [|j] m' Hj Hne; simpl in Hj; [done|].
      rewrite list.Forall_lookup in Hall. by eapply Hall.
    + apply not_Forall_Exists in Hnall; [|intros; apply _]. apply Exists_exists in Hnall as (m' & Hm' & Hne).
      apply list_elem_of_lookup in Hm' as [j Hj]. exists 0%nat, (S j), m, m'. done.
Qed.

(** ** The node without the leaf *)

Lemma parts_single (cs : parts) i c :
  cs !! i = Some c -> (forall j d, cs !! j = Some d -> j <> i -> d = ([], [])) ->
  part_keys cs = c.1 /\ part_nodes cs = c.2.
Proof.
  intros Hc Ho.
  assert (forall U (f : leaf_list * list Z -> list U), f ([], []) = [] -> cs ≫= f = f c) as Hf; [|by split; apply Hf].
  intros U f E. rewrite <- (take_drop_middle cs i c Hc), bind_app.
  change ((c :: drop (S i) cs) ≫= f) with (f c ++ (drop (S i) cs ≫= f)).
  assert (forall l : parts, (forall d, d ∈ l -> d = ([], [])) -> l ≫= f = []) as Hnil.
  { intros l. induction l as [|d l IH]; intros Hl; [done|]. simpl. rewrite (Hl d) by left. rewrite E. apply IH.
    intros d' Hd. apply Hl. by right. }
  rewrite (Hnil (take i cs)), (Hnil (drop (S i) cs)); [by rewrite app_nil_r| |].
  - intros d [j Hj]%list_elem_of_lookup. rewrite lookup_drop in Hj. apply (Ho (S i + j)%nat); [done|lia].
  - intros d [j [Hj ?]%lookup_take_Some]%list_elem_of_lookup. apply (Ho j); [done|lia].
Qed.

Section Unlink.
Context (ns : gmap Z critnib_node) (ks : gmap Z Z).

(** The leaf [a] in the child slot [i] of the node [m]. *)
Context (j : nat) (m : Z) (nd : critnib_node) (cs : parts) (N : list Z) (i : nat) (a : Z).
Context (Hn : node_rep ns ks j m nd cs N) (Hi : child nd !! i = Some (NLeaf a)).

Let cs' := <[i := ([], [])]> cs.
Let nd' := with_child i NNull nd.

Lemma leaf_part : exists k, cs !! i = Some ([(k, a)], []) /\ ks !! a = Some k.
Proof.
  destruct (node_child _ _ _ _ _ _ _ _ _ Hn Hi) as (c & Hc & Hr). apply crep_leaf in Hr as (k & Ha & _ & E1 & E2).
  exists k. destruct c as [c1 c2]. simpl in *. by subst.
Qed.

Lemma unlinked_keys : exists k, ks !! a = Some k /\ part_keys cs ≡ₚ (k, a) :: part_keys cs'.
Proof.
  destruct leaf_part as (k & Hc & Ha). exists k. split; [done|]. unfold cs'.
  rewrite (part_keys_split cs i _ Hc), (part_keys_insert cs i _ _ Hc). simpl. by rewrite <- Permutation_middle.
Qed.

Lemma unlinked_nodes : part_nodes cs' = part_nodes cs.
Proof.
  destruct leaf_part as (k & Hc & _). unfold cs'. by rewrite (part_nodes_split cs i _ Hc), (part_nodes_insert cs i _ _ Hc).
Qed.

Lemma unlinked_parts : Forall2 (fun p c => crep ns ks j p c.1 c.2) (child nd') cs'.
Proof. apply Forall2_insert; [apply Hn|by apply crep_null]. Qed.

Lemma unlinked_null i' p c :
  child nd' !! i' = Some p -> cs' !! i' = Some c -> (p = NNull -> c = ([], [])) /\ (p <> NNull -> c.1 <> []).
Proof.
  intros Hp Hc. pose proof unlinked_parts as HF. apply Forall2_same_length_lookup in HF as [_ HF].
  specialize (HF i' p c Hp Hc). split.
  - intros ->. apply crep_null in HF as [E1 E2]. destruct c. simpl in *. by subst.
  - by apply (crep_nonempty _ _ _ _ _ _ HF).
Qed.

Lemma unlinked_part i' p : child nd' !! i' = Some p -> exists c, cs' !! i' = Some c /\ crep ns ks j p c.1 c.2.
Proof. intros Hp. destruct (Forall2_lookup_l _ _ _ _ _ unlinked_parts Hp) as (c & ? & ?). eauto. Qed.

(** The scan finds a child: the node had two. *)
Lemma unlinked_some : only_child (child nd') 0 None <> Some None.
Proof.
  intros E. pose proof (only_child_spec (child nd') 0) as Hs. rewrite E in Hs.
  pose proof (nr_two _ _ _ _ _ _ _ Hn) as H2. destruct leaf_part as (k & Hc & _).
  assert (length (filter (fun c : leaf_list * list Z => c.1 <> []) cs) <=
    S (length (filter (fun c : leaf_list * list Z => c.1 <> []) cs')))%nat as Hle.
  { unfold cs'. rewrite <- (list_insert_id cs i _ Hc) at 1. rewrite !insert_take_drop by (by eapply lookup_lt_Some).
    rewrite !filter_app, !length_app, !filter_cons. simpl. lia. }
  assert (filter (fun c : leaf_list * list Z => c.1 <> []) cs' = []) as Enil; [|rewrite Enil in Hle; simpl in Hle; lia].
  apply filter_none, list.Forall_forall. intros c [i' Hi']%list_elem_of_lookup.
  destruct (Forall2_lookup_r _ _ _ _ _ unlinked_parts Hi') as (p & Hp & _).
  destruct (unlinked_null i' p c Hp Hi') as [Hnull _]. rewrite (Hnull (Hs i' p Hp)). auto.
Qed.

(** Several children remain: the node stays. *)
Lemma unlinked_stays ns' ks' :
  only_child (child nd') 0 None = None -> ns' !! m = Some nd' -> (forall b, b ∈ part_nodes cs -> ns' !! b = ns !! b) ->
  (forall x, x ∈ part_keys cs' -> ks' !! x.2 = ks !! x.2) -> crep ns' ks' (S j) (NNode m) (part_keys cs') N.
Proof.
  intros E Hm Hb Hx. apply (crep_node_intro _ _ j m nd' cs'). pose proof (only_child_spec (child nd') 0) as Hs.
  rewrite E in Hs. destruct Hs as (i1 & i2 & m1 & m2 & Hne & H1 & H2 & Hm1 & Hm2).
  destruct (unlinked_part i1 m1 H1) as (c1 & Hc1 & _). destruct (unlinked_part i2 m2 H2) as (c2 & Hc2 & _).
  destruct Hn as [En Es Ep Em El HF Hok _ HN]. constructor; try done.
  - unfold cs'. by rewrite length_insert.
  - pose proof unlinked_parts as HF'. apply Forall2_same_length_lookup in HF' as [Hl HF'].
    apply Forall2_same_length_lookup. split; [done|]. intros i' q d Hq Hd. apply (crep_frame ns ks); [| |by apply (HF' i')].
    + intros b Hbd. apply Hb. rewrite <- unlinked_nodes. apply elem_of_part_nodes. eauto.
    + intros x Hxd. apply Hx. apply elem_of_part_keys. eauto.
  - intros i' d x Hd Hxd. destruct (decide (i' = i)) as [->|Hii].
    + unfold cs' in Hd. rewrite list_lookup_insert_eq in Hd by (destruct leaf_part as (? & Hc & _); by eapply lookup_lt_Some).
      injection Hd as <-. by apply elem_of_nil in Hxd.
    + unfold cs' in Hd. rewrite list_lookup_insert_ne in Hd by done. by apply (Hok i' d).
  - apply (filter_two _ cs' i1 i2 c1 c2); try done.
    + by apply (unlinked_null i1 m1 c1).
    + by apply (unlinked_null i2 m2 c2).
  - by rewrite unlinked_nodes.
Qed.

(** One child remains: it takes the place of the node. *)
Lemma unlinked_collapses i' :
  only_child (child nd') 0 None = Some (Some i') ->
  exists o, child nd' !! i' = Some o /\ o <> NNull /\ crep ns ks j o (part_keys cs') (part_nodes cs).
Proof.
  intros E. pose proof (only_child_spec (child nd') 0) as Hs. rewrite E in Hs.
  destruct Hs as (i1 & o & -> & Ho & Hne & Hu). exists o. split; [done|]. split; [done|].
  destruct (unlinked_part i1 o Ho) as (c & Hc & Hr). rewrite <- unlinked_nodes.
  destruct (parts_single cs' i1 c Hc) as [-> ->]; [|done]. intros j' d Hd Hj.
  destruct (Forall2_lookup_r _ _ _ _ _ unlinked_parts Hd) as (p & Hp & _).
  apply (unlinked_null j' p d Hp Hd). by apply (Hu j').
Qed.
End Unlink.

(** ** The walk of [critnib_remove] *)

Section Walk.
Context `{HostAlloc H}.
Implicit Types s : cstate H.

(** The walk for [k] ends at the leaf [a], below the node [m] that the
    subtree [p] contains in the slot [sl]. *)
Inductive found s (k : Z) (h : nat) (p : nptr) (L : leaf_list) (N : list Z) (sl : slot) (m a : Z) : slot -> Prop :=
| found_top j nd cs :
    p = NNode m -> (j < h)%nat -> L = part_keys cs -> node_rep (c_nodes s) (leaf_keys s) j m nd cs N ->
    child nd !! slice_index k (shift nd) = Some (NLeaf a) -> found s k h p L N sl m a sl
| found_deep j nd cs b i ndb hf L1 L2 N1 Nn :
    focus (c_nodes s) (leaf_keys s) h p L N b i ndb hf (NNode m) L1 (part_keys cs) L2 N1 Nn ->
    (j < hf)%nat -> node_rep (c_nodes s) (leaf_keys s) j m nd cs Nn ->
    child nd !! slice_index k (shift nd) = Some (NLeaf a) -> found s k h p L N sl m a (SChild b i).

Definition reaches (k : Z) (L : leaf_list) (a : Z) : Prop := exists kk, (kk, a) ∈ L /\ forall x : Z * Z, x ∈ L -> x.1 = k -> x = (kk, a).

(** What holds of the part with the nibble of [k] holds of the node. *)
Lemma reaches_node ns ks h b nd cs N k c a :
  node_rep ns ks h b nd cs N -> cs !! slice_index k (shift nd) = Some c -> reaches k c.1 a -> reaches k (part_keys cs) a.
Proof.
  intros Hn Hc (kk & Hkk & Hu). exists kk. split; [apply elem_of_part_keys; eauto|]. intros x Hx E.
  destruct (slice_part _ _ _ _ _ _ _ k x Hn Hx) as (c' & Hc' & ?); [by rewrite E|]. apply Hu; [congruence|done].
Qed.

Lemma absent_node ns ks h b nd cs N k c :
  node_rep ns ks h b nd cs N -> cs !! slice_index k (shift nd) = Some c ->
  (forall x, x ∈ c.1 -> x.1 <> k) -> forall x, x ∈ part_keys cs -> x.1 <> k.
Proof.
  intros Hn Hc Hu x Hx E. destruct (slice_part _ _ _ _ _ _ _ k x Hn Hx) as (c' & Hc' & ?); [by rewrite E|].
  apply (Hu x); [congruence|done].
Qed.

Lemma wp_remove_walk h fuel k b L N n np sl s (Q : option (nptr * nptr * slot) -> cstate H -> Prop) :
  tree s h (NNode b) L N -> NoDup N -> (h <= fuel)%nat ->
  ((forall x, x ∈ L -> x.1 <> k) -> Q None s) ->
  (forall m a sl', found s k h (NNode b) L N sl m a sl' -> reaches k L a -> Q (Some (NNode m, NLeaf a, sl')) s) ->
  wp (remove_walk fuel k n (NNode b) np sl) Q s.
Proof.
  revert fuel b L N n np sl. induction h as [h IH] using lt_wf_ind.
  intros fuel b L N n np sl Hr Hnd Hf Hnone Hsome.
  apply crep_node in Hr as (j & nd & cs & Hj & Hn & ->). destruct fuel as [|fuel]; [lia|]. cbn [remove_walk].
  apply wp_bind, (wp_load_node b nd); [apply (nr_node _ _ _ _ _ _ _ Hn)|].
  destruct (node_slice _ _ _ _ _ _ _ k Hn) as (q & c & Hq & Hc & Hr').
  apply wp_bind, (wp_load_child b nd _ q); [apply (nr_node _ _ _ _ _ _ _ Hn)|done|]. destruct q as [|b'|a].
  - rewrite decide_True by done. wp_step. apply Hnone. apply (absent_node _ _ _ _ _ _ _ k c Hn Hc).
    apply crep_null in Hr' as [-> _]. by intros x ?%elem_of_nil.
  - rewrite decide_False by done. apply (IH j Hj fuel b' c.1 c.2); [done|by eapply part_nodes_NoDup|lia|..].
    + intros Hu. apply Hnone. by apply (absent_node _ _ _ _ _ _ _ k c Hn Hc).
    + intros m a sl' Hfd Hre. apply Hsome; [|by apply (reaches_node _ _ _ _ _ _ _ k c a Hn Hc)].
      pose proof (focus_here _ _ _ _ _ _ _ _ _ _ Hn Hnd Hc Hq) as Hfo. apply (focus_mono _ _ _ h) in Hfo; [|lia].
      destruct Hfd as [j' nd' cs' Em ? Ec Hn' Ha'|j' nd' cs' d i ndd hf L1 L2 N1 Nn Hfo' ? Hn' Ha'].
      * injection Em as ->. rewrite Ec in Hfo. by eapply found_deep.
      * eapply found_deep; [|done..]. apply (focus_mono _ _ (S j)); [lia|]. by apply (focus_deeper _ _ _ _ _ _ _ _ _ _ _ _ _ _ _ _ _ _ _ _ Hn Hnd Hc Hq Hfo').
  - rewrite decide_False by done. apply crep_leaf in Hr' as (kk & Ha & _ & Ec & _).
    assert (found s k h (NNode b) (part_keys cs) N sl b a sl) as Hfd by (by eapply found_top).
    assert (reaches k (part_keys cs) a) as Hre.
    { apply (reaches_node _ _ _ _ _ _ _ k c a Hn Hc). exists kk. rewrite Ec. split; [left|].
      by intros x ->%list_elem_of_singleton. }
    destruct fuel; simpl; wp_step; by apply Hsome.
Qed.
End Walk.
