(* ===== verification/CritInv.v ===== *)
(** * The invariant of the critnib

    Every node is in the tree, on the list of deleted nodes, waiting in
    [pending_del_nodes], or in the hands of the running operation; every leaf
    likewise, or removed and still referenced.  The host allocator holds the
    nodes, the leaves and the struct, beside what it held before. *)

From S2P Require Import Prelude Utils HostMem CritRep CritIns.
From stdpp Require Import list sorting strings.
From S2P Require Import Critnib.
#[local] Open Scope Z_scope.

(** ** Accounting *)

(** [l] lists the addresses of the heap, each once. *)
Definition acct {V} (heap : gmap Z V) (l : list Z) : Prop := NoDup l /\ forall a, a ∈ l <-> is_Some (heap !! a).

#[export] Instance acct_proper {V} : Proper (eq ==> (≡ₚ) ==> iff) (@acct V).
Proof. intros h ? <- l l' Hl. unfold acct. rewrite Hl. split; intros [? E]; (split; [done|]); intros a; rewrite <- (E a), Hl; done. Qed.

Lemma acct_same {V} (heap heap' : gmap Z V) l :
  acct heap l -> (forall a, is_Some (heap' !! a) <-> is_Some (heap !! a)) -> acct heap' l.
Proof. intros [Hnd Hl] Hs. split; [done|]. intros a. by rewrite Hs. Qed.

Lemma is_Some_insert {V} (heap : gmap Z V) a v b : is_Some (heap !! a) -> is_Some (<[a := v]> heap !! b) <-> is_Some (heap !! b).
Proof.
  intros Ha. destruct (decide (a = b)) as [<-|Hne]; [rewrite lookup_insert_eq; split; eauto|by rewrite lookup_insert_ne].
Qed.

Lemma acct_update {V} (heap : gmap Z V) l a v : acct heap l -> a ∈ l -> acct (<[a := v]> heap) l.
Proof.
  intros Hl Ha. apply (acct_same heap); [done|]. intros b. apply is_Some_insert. by apply Hl.
Qed.

Lemma acct_new {V} (heap : gmap Z V) l a v : acct heap l -> heap !! a = None -> acct (<[a := v]> heap) (a :: l).
Proof.
  intros [Hnd Hl] Ha. split.
  - constructor; [|done]. intros Hin. apply Hl in Hin as [x Hx]. congruence.
  - intros b. rewrite elem_of_cons. destruct (decide (a = b)) as [<-|Hne].
    + rewrite lookup_insert_eq. split; eauto.
    + rewrite lookup_insert_ne by done. rewrite <- Hl. naive_solver.
Qed.

Lemma acct_del {V} (heap : gmap Z V) l a : acct heap (a :: l) -> acct (delete a heap) l.
Proof.
  intros [Hnd Hl]. apply NoDup_cons in Hnd as [Hna Hnd]. split; [done|]. intros b. destruct (decide (a = b)) as [<-|Hne].
  - rewrite lookup_delete_eq. split; [done|]. intros [x Hx]. done.
  - rewrite lookup_delete_ne by done. rewrite <- Hl, elem_of_cons. naive_solver.
Qed.

Lemma acct_lookup {V} (heap : gmap Z V) l a : acct heap l -> a ∈ l -> exists v, heap !! a = Some v.
Proof. intros [_ Hl] Ha. by apply Hl in Ha as [v Hv]; exists v. Qed.

(** ** Lists of deleted objects *)

Definition node_of (n : nptr) : option Z := match n with NNode a => Some a | _ => None end.

Fixpoint nchain (ns : gmap Z critnib_node) (p : option Z) (l : list Z) : Prop :=
  match l with
  | [] => p = None
  | a :: l => p = Some a /\ exists nd q, ns !! a = Some nd /\ child nd !! 0%nat = Some q /\ nchain ns (node_of q) l
  end.

Fixpoint lchain (ls : gmap Z critnib_leaf) (p : option Z) (l : list Z) : Prop :=
  match l with
  | [] => p = None
  | a :: l => p = Some a /\ exists lf, ls !! a = Some lf /\ lchain ls (next lf) l
  end.

Lemma nchain_frame ns ns' p l : (forall a, a ∈ l -> ns' !! a = ns !! a) -> nchain ns p l -> nchain ns' p l.
Proof.
  revert p. induction l as [|a l IH]; intros p Hf; [done|]. intros [-> (nd & q & Ha & Hq & Hc)]. split; [done|].
  exists nd, q. rewrite Hf by left. split_and!; [done|done|]. apply IH; [|done]. intros b Hb. apply Hf. by right.
Qed.

Lemma lchain_frame ls ls' p l : (forall a, a ∈ l -> ls' !! a = ls !! a) -> lchain ls p l -> lchain ls' p l.
Proof.
  revert p. induction l as [|a l IH]; intros p Hf; [done|]. intros [-> (lf & Ha & Hc)]. split; [done|].
  exists lf. rewrite Hf by left. split; [done|]. apply IH; [|done]. intros b Hb. apply Hf. by right.
Qed.

(** ** Leaves by their place *)

(** [n] bounds the number of calls so far. *)
Definition refs_ok (n : Z) (lf : critnib_leaf) : Prop := LEAF_VALID <= ref_count lf <= LEAF_VALID + n.

(** A leaf in the tree. *)
Definition live_ok (cb : bool) (n : Z) (lf : critnib_leaf) : Prop :=
  pending_deleted_leaf lf = false /\ (cb = true -> refs_ok n lf /\ value lf <> 0).

(** A removed leaf in [pending_del_leaves]: still referenced, or released. *)
Definition pend_ok (cb : bool) (n : Z) (lf : critnib_leaf) : Prop :=
  pending_deleted_leaf lf = false /\
  (cb = true -> value lf = 0 /\ (refs_ok n lf /\ to_be_freed lf <> 0 \/ ref_count lf = 0 /\ to_be_freed lf = 0)).

(** A removed leaf that left [pending_del_leaves] and is still referenced. *)
Definition zombie_ok (cb : bool) (n : Z) (lf : critnib_leaf) : Prop :=
  cb = true /\ pending_deleted_leaf lf = true /\ refs_ok n lf /\ to_be_freed lf <> 0.

Lemma live_ok_mono cb n m lf : n <= m -> live_ok cb n lf -> live_ok cb m lf.
Proof. unfold live_ok, refs_ok. intros Hle [? Hc]. split; [done|]. intros E. destruct (Hc E). split; [lia|done]. Qed.
Lemma pend_ok_mono cb n m lf : n <= m -> pend_ok cb n lf -> pend_ok cb m lf.
Proof.
  unfold pend_ok, refs_ok. intros Hle [? Hc]. split; [done|]. intros E. destruct (Hc E) as [? [[? ?]|?]]; split; auto.
  left. split; [lia|done].
Qed.
Lemma zombie_ok_mono cb n m lf : n <= m -> zombie_ok cb n lf -> zombie_ok cb m lf.
Proof. unfold zombie_ok, refs_ok. intros Hle (? & ? & ? & ?). split_and!; done || lia. Qed.

(** ** The invariant *)

(** Where the nodes and leaves are: in the tree, deleted, removed but
    referenced, and in the hands of the running operation. *)
Record cplace := CPlace {
  g_keys : leaf_list;
  g_nodes : list Z;
  g_dn : list Z;
  g_dl : list Z;
  g_zl : list Z;
  g_nn : list Z;
  g_nl : list Z;
}.

Section Inv.
Context `{HostAlloc H}.
Implicit Types (s : cstate H) (G : cplace).

Definition pend_nodes s : list Z := omap id (pending_del_nodes (c_crit s)).
Definition pend_leaves s : list Z := omap id (pending_del_leaves (c_crit s)).

Record node_inv s G : Prop := {
  ni_acct : acct (c_nodes s) (g_nodes G ++ g_nn G ++ g_dn G ++ pend_nodes s);
  ni_len : forall a nd, c_nodes s !! a = Some nd -> length (child nd) = 16%nat;
  ni_chain : nchain (c_nodes s) (deleted_node (c_crit s)) (g_dn G);
  ni_pend : length (pending_del_nodes (c_crit s)) = 16%nat;
}.

Record leaf_inv s G (n : Z) : Prop := {
  li_acct : acct (c_leaves s) ((g_keys G).*2 ++ g_nl G ++ g_dl G ++ pend_leaves s ++ g_zl G);
  li_chain : lchain (c_leaves s) (deleted_leaf (c_crit s)) (g_dl G);
  li_len : length (pending_del_leaves (c_crit s)) = 16%nat;
  li_live : forall a lf, c_leaves s !! a = Some lf -> a ∈ (g_keys G).*2 -> live_ok (cb_free_leaf (c_crit s)) n lf;
  li_pend : forall a lf, c_leaves s !! a = Some lf -> a ∈ pend_leaves s -> pend_ok (cb_free_leaf (c_crit s)) n lf;
  li_zombie : forall a lf, c_leaves s !! a = Some lf -> a ∈ g_zl G -> zombie_ok (cb_free_leaf (c_crit s)) n lf;
}.

(** What the host allocator holds. *)
Definition host_tag s (base : gmap Z string) (a : Z) : option string :=
  match c_nodes s !! a, c_leaves s !! a with
  | Some _, _ => Some tag_node
  | None, Some _ => Some tag_leaf
  | None, None => if decide (a = self (c_crit s)) then Some tag_critnib else base !! a
  end.

Record host_inv s (base : gmap Z string) : Prop := {
  hi_live : forall a, ba_live (c_host s) !! a = host_tag s base a;
  hi_node : forall a, is_Some (c_nodes s !! a) -> c_leaves s !! a = None /\ a <> self (c_crit s) /\ base !! a = None;
  hi_leaf : forall a, is_Some (c_leaves s !! a) -> a <> self (c_crit s) /\ base !! a = None;
  hi_self : base !! self (c_crit s) = None;
}.

Record ctl_inv s (held : bool) (n : Z) : Prop := {
  ct_mutex : mutex (c_crit s) = mk_mutex held [];
  ct_count : 0 <= remove_count (c_crit s) <= n;
}.

Record cinv s G (held : bool) (n : Z) (base : gmap Z string) : Prop := {
  ci_tree : tree s 16 (root (c_crit s)) (g_keys G) (g_nodes G);
  ci_node :> node_inv s G;
  ci_leaf :> leaf_inv s G n;
  ci_host :> host_inv s base;
  ci_ctl :> ctl_inv s held n;
}.

(** ** The elements a client knows *)

(** The abstract state: the leaf of every key, and the value and the number of
    references of every leaf that is in the tree or referenced. *)
Record cview := CView {
  cv_keys : gmap Z Z;
  cv_elems : gmap Z (Z * Z);
  cv_freed : list Z;
  cv_cb : bool;
}.

(** A leaf in the tree has [LEAF_VALID] as its count without references; of a
    removed one the last reference takes it below. *)
Definition celem s G (a : Z) : option (Z * Z) :=
  lf ← c_leaves s !! a;
  let cb := cb_free_leaf (c_crit s) in
  if decide (a ∈ (g_keys G).*2) then Some (value lf, if cb then ref_count lf - LEAF_VALID else 0)
  else if decide (a ∈ pend_leaves s ++ g_zl G) then
    if cb && (ref_count lf >=? LEAF_VALID) then Some (to_be_freed lf, ref_count lf - 1) else None
  else None.

Record view_of s G (V : cview) : Prop := {
  vo_keys : forall k a, cv_keys V !! k = Some a <-> (k, a) ∈ g_keys G;
  vo_elems : forall a, cv_elems V !! a = celem s G a;
  vo_freed : cv_freed V = c_freed s;
  vo_cb : cv_cb V = cb_free_leaf (c_crit s);
}.

Lemma view_same s G s' G' V :
  view_of s G V -> (forall x, x ∈ g_keys G' <-> x ∈ g_keys G) -> (forall a, celem s' G' a = celem s G a) ->
  c_freed s' = c_freed s -> cb_free_leaf (c_crit s') = cb_free_leaf (c_crit s) -> view_of s' G' V.
Proof.
  intros [Hk He Hf Hc] Hx Hce Ef Ec. constructor; [|intros a; by rewrite He, Hce|congruence|congruence].
  intros k a. by rewrite Hk, Hx.
Qed.

(** The invariant and what the client knows, together. *)
Record cok s G (V : cview) (held : bool) (n : Z) (base : gmap Z string) : Prop := {
  ok_inv :> cinv s G held n base;
  ok_view : view_of s G V;
}.

Lemma celem_same s G s' G' a :
  c_leaves s' !! a = c_leaves s !! a -> cb_free_leaf (c_crit s') = cb_free_leaf (c_crit s) ->
  (a ∈ (g_keys G').*2 <-> a ∈ (g_keys G).*2) -> (a ∈ pend_leaves s' ++ g_zl G' <-> a ∈ pend_leaves s ++ g_zl G) ->
  celem s' G' a = celem s G a.
Proof.
  intros El Ec Hk Hp. unfold celem. rewrite El, Ec. destruct (c_leaves s !! a) as [lf|]; [|done]. simpl.
  rewrite (decide_ext _ _ _ _ Hk). destruct (decide (a ∈ (g_keys G).*2)); [done|]. by rewrite (decide_ext _ _ _ _ Hp).
Qed.

Lemma celem_live s G a lf :
  c_leaves s !! a = Some lf -> a ∈ (g_keys G).*2 ->
  celem s G a = Some (value lf, if cb_free_leaf (c_crit s) then ref_count lf - LEAF_VALID else 0).
Proof. intros E Ha. unfold celem. rewrite E. simpl. by rewrite decide_True. Qed.

Lemma celem_removed s G a lf :
  c_leaves s !! a = Some lf -> a ∉ (g_keys G).*2 -> a ∈ pend_leaves s ++ g_zl G ->
  celem s G a = if cb_free_leaf (c_crit s) && (ref_count lf >=? LEAF_VALID)
                then Some (to_be_freed lf, ref_count lf - 1) else None.
Proof. intros E Ha Hp. unfold celem. rewrite E. simpl. by rewrite decide_False, decide_True. Qed.

Lemma celem_none s G a : a ∉ (g_keys G).*2 -> a ∉ pend_leaves s ++ g_zl G -> celem s G a = None.
Proof.
  intros Ha Hp. unfold celem. destruct (c_leaves s !! a) as [lf|]; [|done]. simpl. by rewrite !decide_False.
Qed.

Lemma leaf_classes s G n :
  leaf_inv s G n ->
  (forall a, a ∈ (g_keys G).*2 -> a ∉ g_nl G ++ g_dl G ++ pend_leaves s ++ g_zl G) /\
  (forall a, a ∈ g_nl G -> a ∉ (g_keys G).*2 ++ g_dl G ++ pend_leaves s ++ g_zl G) /\
  (forall a, a ∈ g_dl G -> a ∉ (g_keys G).*2 ++ g_nl G ++ pend_leaves s ++ g_zl G) /\
  (forall a, a ∈ pend_leaves s -> a ∉ (g_keys G).*2 ++ g_nl G ++ g_dl G ++ g_zl G) /\
  (forall a, a ∈ g_zl G -> a ∉ (g_keys G).*2 ++ g_nl G ++ g_dl G ++ pend_leaves s).
Proof.
  intros [[Hnd _] _ _ _ _ _]. rewrite !NoDup_app in Hnd. setoid_rewrite elem_of_app in Hnd.
  setoid_rewrite elem_of_app in Hnd. setoid_rewrite elem_of_app in Hnd.
  split_and!; intros a Ha; rewrite ?elem_of_app; naive_solver.
Qed.
End Inv.
