(* ===== verification/CritHeap.v ===== *)
(** * The memory of the critnib

    Writes of nodes and leaves, the lists of deleted objects, and what they do
    to the invariant.

    Deleted nodes and leaves: [free_node], [free_leaf], and the retirement of the entries of the arrays
    of pending objects at the start of [critnib_remove]. *)

From S2P Require Import Prelude Utils HostMem CritRep CritIns CritInv.
From stdpp Require Import list sorting strings.
From S2P Require Import Critnib.
#[local] Open Scope Z_scope.

#[local] Opaque crep.

Section Writes.
Context `{HostAlloc H}.
Implicit Types (s : cstate H) (G : cplace).

Definition put_leaf (a : Z) (lf : critnib_leaf) s : cstate H := with_leaves (<[a := lf]> (c_leaves s)) s.
Definition put_node (a : Z) (nd : critnib_node) s : cstate H := with_nodes (<[a := nd]> (c_nodes s)) s.

Lemma put_put_leaf a x y s : put_leaf a x (put_leaf a y s) = put_leaf a x s.
Proof. unfold put_leaf, with_leaves. simpl. by rewrite insert_insert_eq. Qed.

Lemma put_put_node a x y s : put_node a x (put_node a y s) = put_node a x s.
Proof. unfold put_node, with_nodes. simpl. by rewrite insert_insert_eq. Qed.

Lemma put_leaf_lookup a x s : c_leaves (put_leaf a x s) !! a = Some x.
Proof. apply lookup_insert_eq. Qed.

Lemma put_node_lookup a x s : c_nodes (put_node a x s) !! a = Some x.
Proof. apply lookup_insert_eq. Qed.

Lemma wp_update_leaf a f lf (Q : unit -> cstate H -> Prop) s :
  c_leaves s !! a = Some lf -> Q tt (put_leaf a (f lf) s) -> wp (update_leaf a f) Q s.
Proof. intros E HQ. unfold update_leaf. apply wp_bind, (wp_load_leaf a lf); [done|]. by wp_step. Qed.

Lemma wp_update_node a f nd (Q : unit -> cstate H -> Prop) s :
  c_nodes s !! a = Some nd -> Q tt (put_node a (f nd) s) -> wp (update_node a f) Q s.
Proof. intros E HQ. unfold update_node. apply wp_bind, (wp_load_node a nd); [done|]. by wp_step. Qed.

Lemma wp_store_child a i n nd (Q : unit -> cstate H -> Prop) s :
  c_nodes s !! a = Some nd -> (i < length (child nd))%nat -> Q tt (put_node a (with_child i n nd) s) ->
  wp (store_child a i n) Q s.
Proof.
  intros E Hi HQ. unfold store_child. apply wp_bind, (wp_load_node a nd); [done|].
  destruct (lookup_lt_is_Some_2 _ _ Hi) as [q Hq]. wp_step; [exact Hq|]. by apply (wp_update_node a _ nd).
Qed.

(** ** Leaf writes *)

Lemma leaf_keys_put_ne s a lf b : b <> a -> leaf_keys (put_leaf a lf s) !! b = leaf_keys s !! b.
Proof. intros Hne. unfold leaf_keys. rewrite !lookup_fmap. simpl. by rewrite lookup_insert_ne. Qed.

Lemma leaf_keys_put s a lf lf0 :
  c_leaves s !! a = Some lf0 -> key lf = key lf0 -> leaf_keys (put_leaf a lf s) = leaf_keys s.
Proof.
  intros Ha Hk. unfold leaf_keys. simpl. rewrite fmap_insert, Hk. apply insert_id. by rewrite lookup_fmap, Ha.
Qed.

Lemma lchain_put ls p l a lf0 lf :
  ls !! a = Some lf0 -> (a ∈ l -> next lf = next lf0) -> lchain ls p l -> lchain (<[a := lf]> ls) p l.
Proof.
  intros Ha. revert p. induction l as [|b l IH]; intros p Hn; [done|]. intros [-> (x & Hx & Hc)]. split; [done|].
  assert (a ∈ l -> next lf = next lf0) as Hn' by (intros Hin; apply Hn; by right).
  destruct (decide (b = a)) as [->|Hne].
  - exists lf. rewrite lookup_insert_eq. split; [done|]. simplify_eq. rewrite Hn by left. by apply IH.
  - exists x. rewrite lookup_insert_ne by done. split; [done|]. by apply IH.
Qed.

(** Changing a leaf the way its place allows. *)
Lemma cinv_put_leaf s G held n base a lf0 lf :
  cinv s G held n base -> c_leaves s !! a = Some lf0 ->
  (a ∈ (g_keys G).*2 -> key lf = key lf0 /\ live_ok (cb_free_leaf (c_crit s)) n lf) ->
  (a ∈ g_dl G -> next lf = next lf0) ->
  (a ∈ pend_leaves s -> pend_ok (cb_free_leaf (c_crit s)) n lf) ->
  (a ∈ g_zl G -> zombie_ok (cb_free_leaf (c_crit s)) n lf) ->
  cinv (put_leaf a lf s) G held n base.
Proof.
  intros [Ht Hn [La Lc Ll Lv Lp Lz] Hh Hc] Ha Hkey Hdl Hpend Hzl.
  assert (forall P : Z -> critnib_leaf -> Prop, (forall b x, c_leaves s !! b = Some x -> P b x) -> P a lf ->
    forall b x, <[a := lf]> (c_leaves s) !! b = Some x -> P b x) as Hall.
  { intros P HP Pa b x [[<- <-]|[_ Hb]]%lookup_insert_Some; auto. }
  constructor; [| |constructor| |].
  - apply (crep_frame (c_nodes s) (leaf_keys s)); [done| |exact Ht]. intros x Hx.
    destruct (decide (x.2 = a)) as [E|Hne]; [|by rewrite leaf_keys_put_ne].
    rewrite (leaf_keys_put s a lf lf0); [done|done|]. apply Hkey. rewrite <- E. apply list_elem_of_fmap. by exists x.
  - by destruct Hn; constructor.
  - apply acct_update; [exact La|]. apply La. eauto.
  - by apply (lchain_put _ _ _ _ lf0).
  - exact Ll.
  - apply (Hall (fun b x => b ∈ (g_keys G).*2 -> live_ok _ n x)); [exact Lv|]. intros Hin. by apply Hkey.
  - apply (Hall (fun b x => b ∈ pend_leaves s -> pend_ok _ n x)); [exact Lp|exact Hpend].
  - apply (Hall (fun b x => b ∈ g_zl G -> zombie_ok _ n x)); [exact Lz|exact Hzl].
  - assert (forall b, is_Some (<[a := lf]> (c_leaves s) !! b) <-> is_Some (c_leaves s !! b)) as Hs.
    { intros b. apply is_Some_insert. eauto. }
    destruct Hh as [Hl Hnn Hlf Hsf]. constructor; simpl.
    + intros b. rewrite Hl. unfold host_tag. simpl. destruct (c_nodes s !! b); [done|].
      destruct (decide (b = a)) as [->|Hne]; [by rewrite Ha, lookup_insert_eq|by rewrite lookup_insert_ne].
    + intros b Hb. destruct (Hnn b Hb) as (E & ? & ?). split_and!; [|done|done].
      apply eq_None_not_Some. rewrite Hs. by apply eq_None_not_Some.
    + intros b Hb. apply Hlf. by apply Hs.
    + exact Hsf.
  - by destruct Hc; constructor.
Qed.

Lemma celem_put_ne s G a lf b : b <> a -> celem (put_leaf a lf s) G b = celem s G b.
Proof. intros Hne. unfold celem. simpl. by rewrite lookup_insert_ne. Qed.

(** A leaf in the hands of the operation may be written freely. *)
Lemma cinv_put_new s G held n base a lf :
  cinv s G held n base -> a ∈ g_nl G -> cinv (put_leaf a lf s) G held n base /\ forall b, celem (put_leaf a lf s) G b = celem s G b.
Proof.
  intros HI Ha. pose proof (li_acct _ _ _ (ci_leaf _ _ _ _ _ HI)) as La.
  destruct (acct_lookup _ _ a La) as [lf0 Hlf0]; [rewrite !elem_of_app; auto|].
  destruct (leaf_classes _ _ _ (ci_leaf _ _ _ _ _ HI)) as (_ & Hc & _). specialize (Hc a Ha). rewrite !elem_of_app in Hc.
  split.
  - apply (cinv_put_leaf s G held n base a lf0 lf); try done; intros Hin; exfalso; tauto.
  - intros b. destruct (decide (b = a)) as [->|]; [|by apply celem_put_ne]. unfold celem.
    rewrite put_leaf_lookup, Hlf0. simpl. rewrite !decide_False by (rewrite ?elem_of_app; tauto). done.
Qed.
End Writes.

(** ** Locks *)

Section Locks.
Context `{HostAlloc H}.
Implicit Types (s : cstate H) (G : cplace).

Lemma cok_mutex s G V held held' n base :
  cok s G V held n base -> cok (with_crit (set_mutex (mk_mutex held' [])) s) G V held' n base.
Proof.
  intros [[Ht [] [] [] []] []]. constructor; [constructor; [exact Ht|by constructor|by constructor|by constructor|by constructor]|].
  by constructor.
Qed.

Lemma wp_crit_lock s G V n base (Q : unit -> cstate H -> Prop) :
  cok s G V false n base -> (forall s', cok s' G V true n base -> c_crit s' = set_mutex (mk_mutex true []) (c_crit s) -> Q tt s') -> wp lock Q s.
Proof.
  intros HI HQ. unfold lock. wp_step. rewrite (ct_mutex _ _ _ (ci_ctl _ _ _ _ _ (ok_inv _ _ _ _ _ _ HI))).
  wp_step; [reflexivity|]. wp_step. apply HQ; [by apply (cok_mutex s G V false)|done].
Qed.

Lemma wp_crit_unlock s G V n base (Q : unit -> cstate H -> Prop) :
  cok s G V true n base -> (forall s', cok s' G V false n base -> Q tt s') -> wp unlock Q s.
Proof.
  intros HI HQ. unfold unlock. wp_step. rewrite (ct_mutex _ _ _ (ci_ctl _ _ _ _ _ (ok_inv _ _ _ _ _ _ HI))).
  wp_step; [reflexivity|]. wp_step. apply HQ. by apply (cok_mutex s G V true).
Qed.

(** ** Relinking the tree *)

Lemma cinv_relink s s' L N DN DL ZL NN NL L' N' NN' NL' held n base r :
  cinv s (CPlace L N DN DL ZL NN NL) held n base ->
  c_crit s' = set_root r (c_crit s) -> c_leaves s' = c_leaves s -> c_host s' = c_host s ->
  (forall a, is_Some (c_nodes s' !! a) <-> is_Some (c_nodes s !! a)) ->
  (forall a nd, c_nodes s' !! a = Some nd -> length (child nd) = 16%nat) ->
  (forall a, a ∈ DN -> c_nodes s' !! a = c_nodes s !! a) ->
  tree s' 16 r L' N' -> N' ++ NN' ≡ₚ N ++ NN -> L'.*2 ++ NL' ≡ₚ L.*2 ++ NL ->
  (forall a lf, c_leaves s !! a = Some lf -> a ∈ L'.*2 -> a ∉ L.*2 -> live_ok (cb_free_leaf (c_crit s)) n lf) ->
  cinv s' (CPlace L' N' DN DL ZL NN' NL') held n base.
Proof.
  intros [Ht [Na Nl Nc Np] [La Lc Ll Lv Lp Lz] [Hl Hn Hlf Hs] [Cm Cc]] Ec El Eh Hdom Hlen Hdn Ht' HN HL Hlive.
  simpl in *. constructor; [by rewrite Ec|constructor..|constructor]; simpl; unfold pend_nodes, pend_leaves in *; rewrite ?Ec, ?El; simpl; try done.
  - rewrite app_assoc, HN, <- app_assoc. by apply (acct_same (c_nodes s)).
  - by apply (nchain_frame (c_nodes s)).
  - rewrite app_assoc, HL, <- app_assoc. exact La.
  - intros a lf Ha Hin. destruct (decide (a ∈ L.*2)); [by apply (Lv a)|by apply (Hlive a)].
  - intros a. rewrite Eh, Hl. unfold host_tag. rewrite Ec, El. simpl. specialize (Hdom a).
    destruct (c_nodes s' !! a), (c_nodes s !! a); try done.
    + by destruct (proj1 Hdom); eauto.
    + by destruct (proj2 Hdom); eauto.
  - intros a Ha. apply Hn. by apply Hdom.
Qed.
End Locks.

(** ** Allocation *)

Section Alloc.
Context `{HostAllocLaws H}.
Implicit Types (s : cstate H) (G : cplace).

Lemma host_tag_none s base a :
  host_tag s base a = None ->
  c_nodes s !! a = None /\ c_leaves s !! a = None /\ a <> self (c_crit s) /\ base !! a = None.
Proof.
  unfold host_tag. destruct (c_nodes s !! a); [done|]. destruct (c_leaves s !! a); [done|]. by destruct (decide _).
Qed.

Lemma host_inv_fail s base h' :
  host_inv s base -> ba_live h' = ba_live (c_host s) -> host_inv (with_host h' s) base.
Proof. intros [Hl Hn Hlf Hs] E. constructor; try done. intros a. simpl. rewrite E. apply Hl. Qed.

Lemma host_inv_new_leaf s base a lf h' :
  host_inv s base -> ba_live (c_host s) !! a = None -> ba_live h' = <[a := tag_leaf]> (ba_live (c_host s)) ->
  host_inv (put_leaf a lf (with_host h' s)) base /\ c_leaves s !! a = None.
Proof.
  intros [Hl Hn Hlf Hs] Ha E. rewrite Hl in Ha. apply host_tag_none in Ha as (Han & Hal & Has & Hab).
  split; [|done]. constructor; simpl.
  - intros b. rewrite E. unfold host_tag. simpl. destruct (decide (b = a)) as [->|Hne].
    + by rewrite Han, !lookup_insert_eq.
    + rewrite !lookup_insert_ne by done. apply Hl.
  - intros b Hb. rewrite lookup_insert_ne; [by apply Hn|]. intros ->. rewrite Han in Hb. by destruct Hb.
  - intros b Hb. destruct (decide (b = a)) as [->|Hne]; [done|]. rewrite lookup_insert_ne in Hb by done. by apply Hlf.
  - done.
Qed.

Lemma host_inv_new_node s base a nd h' :
  host_inv s base -> ba_live (c_host s) !! a = None -> ba_live h' = <[a := tag_node]> (ba_live (c_host s)) ->
  host_inv (put_node a nd (with_host h' s)) base /\ c_nodes s !! a = None.
Proof.
  intros [Hl Hn Hlf Hs] Ha E. rewrite Hl in Ha. apply host_tag_none in Ha as (Han & Hal & Has & Hab).
  split; [|done]. constructor; simpl.
  - intros b. rewrite E. unfold host_tag. simpl. destruct (decide (b = a)) as [->|Hne].
    + by rewrite !lookup_insert_eq.
    + rewrite !lookup_insert_ne by done. apply Hl.
  - intros b Hb. destruct (decide (b = a)) as [->|Hne]; [done|]. rewrite lookup_insert_ne in Hb by done. by apply Hn.
  - intros b Hb. by apply Hlf.
  - done.
Qed.

Lemma cok_host_fail s G V held n base h' :
  cok s G V held n base -> ba_live h' = ba_live (c_host s) -> cok (with_host h' s) G V held n base.
Proof.
  intros [[Ht [] [] Hh []] []] E. constructor; [|by constructor].
  constructor; [exact Ht|by constructor|by constructor|by apply host_inv_fail|by constructor].
Qed.

Lemma wp_alloc_leaf s L N DN DL ZL NN NL V held n base (Q : option Z -> cstate H -> Prop) :
  cok s (CPlace L N DN DL ZL NN NL) V held n base ->
  (forall s', cok s' (CPlace L N DN DL ZL NN NL) V held n base -> Q None s') ->
  (forall a s' DL', cok s' (CPlace L N DN DL' ZL NN (a :: NL)) V held n base -> Q (Some a) s') ->
  wp alloc_leaf Q s.
Proof.
  intros HI HQ0 HQ. unfold alloc_leaf. wp_step.
  destruct HI as [[Ht HN [La Lc Ll Lv Lp Lz] Hh [Cm Cc]] HV]. simpl in *. destruct DL as [|a DL]; simpl in Lc.
  - rewrite Lc. apply wp_bind. unfold host_alloc, wp.
    destruct (umf_ba_global_alloc tag_leaf sizeof_critnib_leaf (c_host s)) as [[a|] h'] eqn:E.
    + apply ba_alloc_some in E as [Ha E].
      destruct (host_inv_new_leaf s base a raw_leaf h' Hh Ha E) as [Hh' Hal].
      change (Q (Some a) (put_leaf a raw_leaf (with_host h' s))). apply (HQ a _ []).
      assert (forall b x, c_leaves (put_leaf a raw_leaf (with_host h' s)) !! b = Some x -> b <> a -> c_leaves s !! b = Some x) as Hold.
      { intros b x Hb Hne. simpl in Hb. by rewrite lookup_insert_ne in Hb. }
      assert (forall b, b ∈ L.*2 ++ NL ++ [] ++ pend_leaves s ++ ZL -> b <> a) as Hne.
      { intros b Hb ->. apply La in Hb as [x Hx]. congruence. }
      constructor; [constructor; [| |constructor|exact Hh'|by constructor]|]; simpl; try done.
      * apply (crep_frame (c_nodes s) (leaf_keys s)); [done| |exact Ht]. intros x Hx.
        rewrite leaf_keys_put_ne; [done|]. apply Hne. rewrite elem_of_app. left. apply list_elem_of_fmap. by exists x.
      * destruct HN as [Na Nl Nc Np]. by constructor.
      * apply (acct_new _ _ a raw_leaf) in La; [|done]. by rewrite <- Permutation_middle.
      * intros b lf Hb Hin. apply (Lv b); [|done]. apply Hold; [done|]. apply Hne. by rewrite elem_of_app; left.
      * intros b lf Hb Hin. apply (Lp b); [|done]. apply Hold; [done|]. apply Hne. rewrite !elem_of_app. auto.
      * intros b lf Hb Hin. apply (Lz b); [|done]. apply Hold; [done|]. apply Hne. rewrite !elem_of_app. auto.
      * apply (view_same s (CPlace L N DN [] ZL NN NL)); try done. intros b. destruct (decide (b = a)) as [->|Hba].
        -- rewrite !celem_none; [done|..]; intros Hin; apply (Hne a); rewrite ?elem_of_app in *; simpl in *; tauto.
        -- apply celem_same; try done. simpl. by rewrite lookup_insert_ne.
    + apply HQ0. apply cok_host_fail; [|by apply ba_alloc_none in E]. by constructor; [constructor; [| |constructor| |constructor]|].
  - destruct Lc as [-> (lf & Ha & Lc)]. apply wp_bind, (wp_load_leaf a lf); [done|]. wp_step. wp_step. apply (HQ a _ DL).
    constructor; [constructor; [exact Ht| |constructor| |by constructor]|]; simpl; try done.
    + destruct HN as [Na Nl Nc Np]. by constructor.
    + by rewrite Permutation_middle.
    + destruct Hh. by constructor.
    + by apply (view_same s (CPlace L N DN (a :: DL) ZL NN NL)).
Qed.

Lemma wp_alloc_node s L N DN DL ZL NN NL V held n base (Q : option Z -> cstate H -> Prop) :
  cok s (CPlace L N DN DL ZL NN NL) V held n base ->
  (forall s', cok s' (CPlace L N DN DL ZL NN NL) V held n base -> Q None s') ->
  (forall a s' DN', cok s' (CPlace L N DN' DL ZL (a :: NN) NL) V held n base -> c_leaves s' = c_leaves s ->
    root (c_crit s') = root (c_crit s) -> (forall b, b ∈ N -> c_nodes s' !! b = c_nodes s !! b) -> Q (Some a) s') ->
  wp alloc_node Q s.
Proof.
  intros HI HQ0 HQ. unfold alloc_node. wp_step.
  destruct HI as [[Ht [Na Nl Nc Np] HL Hh [Cm Cc]] HV]. simpl in *. destruct DN as [|a DN]; simpl in Nc.
  - rewrite Nc. apply wp_bind. unfold host_alloc, wp.
    destruct (umf_ba_global_alloc tag_node sizeof_critnib_node (c_host s)) as [[a|] h'] eqn:E.
    + apply ba_alloc_some in E as [Ha E].
      destruct (host_inv_new_node s base a raw_node h' Hh Ha E) as [Hh' Han].
      change (Q (Some a) (put_node a raw_node (with_host h' s))).
      assert (forall b, b ∈ N ++ NN ++ [] ++ pend_nodes s -> b <> a) as Hne.
      { intros b Hb ->. apply Na in Hb as [x Hx]. congruence. }
      assert (forall b, b ∈ N -> c_nodes (put_node a raw_node (with_host h' s)) !! b = c_nodes s !! b) as Hkeep.
      { intros b Hb. simpl. rewrite lookup_insert_ne; [done|]. apply not_eq_sym, Hne. by rewrite elem_of_app; left. }
      apply (HQ a _ []); [|done|done|exact Hkeep].
      constructor; [constructor; [|constructor| |exact Hh'|by constructor]|]; simpl; try done.
      * by apply (crep_frame (c_nodes s) (leaf_keys s)).
      * apply (acct_new _ _ a raw_node) in Na; [|done]. by rewrite <- Permutation_middle.
      * intros b nd [[<- <-]|[_ Hb]]%lookup_insert_Some; [done|by apply (Nl b)].
      * destruct HL. by constructor.
      * by apply (view_same s (CPlace L N [] DL ZL NN NL)).
    + apply HQ0. apply cok_host_fail; [|by apply ba_alloc_none in E]. by constructor; [constructor; [|constructor| | |constructor]|].
  - destruct Nc as [-> (nd & q & Ha & Hq & Nc)]. apply wp_bind, (wp_load_child a nd _ q); [done|done|]. wp_step. wp_step.
    apply (HQ a _ DN); [|done..].
    constructor; [constructor; [exact Ht|constructor| | |by constructor]|]; simpl; try done.
    + by rewrite Permutation_middle.
    + destruct HL. by constructor.
    + destruct Hh. by constructor.
    + by apply (view_same s (CPlace L N (a :: DN) DL ZL NN NL)).
Qed.

(** A node in the hands of the operation may be written freely. *)
Lemma cok_put_new_node s L N DN DL ZL NN NL V held n base a nd :
  cok s (CPlace L N DN DL ZL NN NL) V held n base -> a ∈ NN -> length (child nd) = 16%nat ->
  cok (put_node a nd s) (CPlace L N DN DL ZL NN NL) V held n base /\
  forall b, b ∈ N -> c_nodes (put_node a nd s) !! b = c_nodes s !! b.
Proof.
  intros [HI HV] Ha Hl. pose proof (ci_node _ _ _ _ _ HI) as [Na Nl Nc Np]. simpl in *.
  destruct (acct_lookup _ _ a Na) as [nd0 Hnd0]; [rewrite !elem_of_app; auto|].
  assert (forall b, b ∈ N ++ DN -> b <> a) as Hne.
  { intros b Hb ->. destruct Na as [Hnd _]. rewrite !NoDup_app in Hnd. destruct Hnd as (_ & D1 & _ & D2 & _).
    apply elem_of_app in Hb as [Hb|Hb]; [apply (D1 a Hb)|apply (D2 a Ha)]; rewrite !elem_of_app; auto. }
  assert (forall b, b ∈ N -> c_nodes (put_node a nd s) !! b = c_nodes s !! b) as Hkeep.
  { intros b Hb. simpl. rewrite lookup_insert_ne; [done|]. apply not_eq_sym, Hne. rewrite elem_of_app. auto. }
  split; [|done]. constructor; [|by destruct HV].
  apply (cinv_relink s (put_node a nd s) L N DN DL ZL NN NL L N NN NL held n base (root (c_crit s))); try done.
  - simpl. by destruct (c_crit s).
  - intros b. apply is_Some_insert. eauto.
  - simpl. intros b nd' [[<- <-]|[_ Hb]]%lookup_insert_Some; [done|by apply (Nl b)].
  - intros b Hb. simpl. rewrite lookup_insert_ne; [done|]. apply not_eq_sym, Hne. rewrite elem_of_app. auto.
  - by apply (crep_frame (c_nodes s) (leaf_keys s)); [| |apply (ci_tree _ _ _ _ _ HI)].
Qed.

(** A leaf in the hands of the operation may be written freely. *)
Lemma cok_put_new s G V held n base a lf :
  cok s G V held n base -> a ∈ g_nl G -> cok (put_leaf a lf s) G V held n base.
Proof.
  intros [HI HV] Ha. destruct (cinv_put_new s G held n base a lf HI Ha) as [HI' Hce].
  constructor; [done|]. by apply (view_same s G).
Qed.
End Alloc.

#[local] Opaque crep.

(** A computation that commutes with a change of the state. *)
Lemma wp_commute {S A} (m : M S A) (f : S -> S) (Q : A -> S -> Prop) s :
  m (f s) = (fun r => (r.1, f r.2)) <$> m s -> wp m Q (f s) -> wp m (fun a s' => Q a (f s')) s.
Proof. unfold wp. intros ->. by destruct (m s) as [[a s']|]. Qed.

(** ** Arrays of pending objects *)

Lemma omap_id_split (l : list (option Z)) i x :
  l !! i = Some x -> omap id l ≡ₚ option_list x ++ omap id (<[i := None]> l).
Proof.
  revert i. induction l as [|y l IH]; intros [|i] Hi; [done|done| |].
  - injection Hi as ->. destruct x; done.
  - simpl in Hi. specialize (IH i Hi). destruct y as [y|]; simpl; [|done]. rewrite IH. apply Permutation_middle.
Qed.

Lemma omap_id_put (l : list (option Z)) i a :
  l !! i = Some None -> omap id (<[i := Some a]> l) ≡ₚ a :: omap id l.
Proof.
  intros Hi. rewrite (omap_id_split _ i (Some a)), (omap_id_split l i None) by (done || by apply list_lookup_insert_eq; eapply lookup_lt_Some).
  by rewrite list_insert_insert_eq.
Qed.

Section Free.
Context `{HostAlloc H}.
Implicit Types (s : cstate H) (G : cplace).

(** ** [free_node] and [free_leaf] *)

Lemma wp_free_node s L N DN DL ZL NN NL held n base pn (Q : unit -> cstate H -> Prop) :
  cinv s (CPlace L N DN DL ZL (option_list pn ++ NN) NL) held n base ->
  (forall s' DN' d, cinv s' (CPlace L N DN' DL ZL NN NL) held n base -> c_leaves s' = c_leaves s ->
    c_freed s' = c_freed s -> c_crit s' = set_deleted_node d (c_crit s) -> Q tt s') ->
  wp (free_node pn) Q s.
Proof.
  intros HI HQ. destruct pn as [a|]; simpl.
  2: { wp_step. apply (HQ s DN (deleted_node (c_crit s))); [done..|]. by destruct (c_crit s). }
  wp_step. pose proof (ci_node _ _ _ _ _ HI) as [Na Nl Nc Np]. simpl in *.
  destruct (acct_lookup _ _ a Na) as [nd Hnd]; [rewrite !elem_of_app; right; left; left|].
  pose proof (Nl a nd Hnd) as Hl. set (q := match deleted_node (c_crit s) with Some d => NNode d | None => NNull end).
  apply wp_bind, (wp_store_child a 0 q nd); [done|lia|]. wp_step. apply (HQ _ (a :: DN) (Some a)); try done.
  assert (forall b, b ∈ N ++ DN -> b <> a) as Hne.
  { intros b Hb ->. destruct Na as [D _]. rewrite !NoDup_app in D. destruct D as (_ & D1 & D2).
    apply elem_of_app in Hb as [Hb|Hb]; [apply (D1 a Hb); left|].
    apply NoDup_cons in D2 as [D2 _]. apply D2. rewrite !elem_of_app. auto. }
  destruct HI as [Ht _ [La Lc Ll Lv Lp Lz] [Hv Hn Hlf Hs] [Cm Cc]]. simpl in *.
  constructor; [|constructor..|constructor]; simpl; try done.
  - apply (crep_frame (c_nodes s) (leaf_keys s)); [|done|exact Ht]. intros b Hb. simpl. rewrite lookup_insert_ne; [done|].
    apply not_eq_sym, Hne. rewrite elem_of_app. auto.
  - apply (acct_update _ _ a); [by rewrite <- Permutation_middle|]. rewrite !elem_of_app, !elem_of_cons. auto.
  - intros b nd' [[<- <-]|[_ Hb]]%lookup_insert_Some; [|by apply (Nl b)]. simpl. by rewrite length_insert.
  - split; [done|]. exists (with_child 0 q nd), q. rewrite lookup_insert_eq. split; [done|]. simpl.
    split; [apply list_lookup_insert_eq; lia|]. replace (node_of q) with (deleted_node (c_crit s)) by (unfold q; by destruct (deleted_node _)).
    apply (nchain_frame (c_nodes s)); [|done]. intros b Hb. rewrite lookup_insert_ne; [done|].
    apply not_eq_sym, Hne. rewrite elem_of_app. auto.
  - intros b. rewrite Hv. unfold host_tag. simpl. destruct (decide (b = a)) as [->|?]; [by rewrite Hnd, lookup_insert_eq|].
    by rewrite lookup_insert_ne.
  - intros b Hb. apply Hn. apply (is_Some_insert _ a) in Hb; eauto.
Qed.

(** A leaf in the hands of the operation goes to the list of deleted leaves. *)
Lemma cinv_push_leaf s L N DN DL ZL NN NL held n base a lf :
  cinv s (CPlace L N DN DL ZL NN (a :: NL)) held n base -> next lf = deleted_leaf (c_crit s) ->
  cinv (with_crit (set_deleted_leaf (Some a)) (put_leaf a lf s)) (CPlace L N DN (a :: DL) ZL NN NL) held n base.
Proof.
  intros HI Hnx. destruct (cinv_put_new s _ held n base a lf HI) as [HI' _]; [left|].
  destruct (leaf_classes _ _ _ (ci_leaf _ _ _ _ _ HI)) as (_ & _ & Hdl & _). simpl in Hdl.
  destruct HI' as [Ht [] [La Lc Ll Lv Lp Lz] [] []]. simpl in *.
  constructor; [exact Ht|by constructor| |by constructor|by constructor]. constructor; simpl; try done.
  - by rewrite <- Permutation_middle.
  - split; [done|]. exists lf. rewrite lookup_insert_eq. split; [done|]. by rewrite Hnx.
Qed.

(** [free_leaf] on a leaf in the hands of the operation. *)
Lemma wp_free_leaf s L N DN DL ZL NN NL held n base a lf (Q : unit -> cstate H -> Prop) :
  cinv s (CPlace L N DN DL ZL NN (a :: NL)) held n base -> c_leaves s !! a = Some lf ->
  (cb_free_leaf (c_crit s) && (ref_count lf >? 0) = true -> zombie_ok true n (with_pending true lf)) ->
  (cb_free_leaf (c_crit s) && (ref_count lf >? 0) = true ->
    cinv (put_leaf a (with_pending true lf) s) (CPlace L N DN DL (a :: ZL) NN NL) held n base ->
    Q tt (put_leaf a (with_pending true lf) s)) ->
  (forall lf', cb_free_leaf (c_crit s) && (ref_count lf >? 0) = false ->
    cinv (with_crit (set_deleted_leaf (Some a)) (put_leaf a lf' s)) (CPlace L N DN (a :: DL) ZL NN NL) held n base ->
    Q tt (with_crit (set_deleted_leaf (Some a)) (put_leaf a lf' s))) ->
  wp (free_leaf (Some a)) Q s.
Proof.
  intros HI Ha Hz HQz HQd. simpl. apply wp_bind, (wp_update_leaf a _ lf); [done|]. wp_step.
  apply wp_bind, (wp_load_leaf a (with_pending true lf)); [apply put_leaf_lookup|]. simpl.
  destruct (cb_free_leaf (c_crit s) && (ref_count lf >? 0)) eqn:Eb.
  - wp_step. apply HQz; [done|]. destruct (cinv_put_new s _ held n base a (with_pending true lf) HI) as [HI' _]; [left|].
    pose proof (Hz eq_refl) as Hz'. destruct HI' as [Ht [] [La Lc Ll Lv Lp Lz] [] []]. simpl in *.
    constructor; [exact Ht|by constructor| |by constructor|by constructor]. constructor; simpl; try done.
    + rewrite <- !Permutation_middle. rewrite <- !Permutation_middle in La. done.
    + intros b x Hb [->|Hin]%elem_of_cons; [|by apply (Lz b)]. rewrite lookup_insert_eq in Hb. injection Hb as <-.
      by apply andb_true_iff in Eb as [-> _].
  - apply wp_bind, (wp_update_leaf a _ (with_pending true lf)); [apply put_leaf_lookup|]. rewrite put_put_leaf.
    unfold add_to_deleted_leaf_list. wp_step. apply wp_bind.
    apply (wp_update_leaf a _ (with_pending false (with_pending true lf))); [apply put_leaf_lookup|].
    rewrite put_put_leaf. wp_step. apply HQd; [done|]. by apply cinv_push_leaf.
Qed.

(** ** Retirement *)

Definition clear_pending (del : nat) s : cstate H :=
  with_crit (set_pending_leaf del None) (with_crit (set_pending_node del None) s).

Lemma free_node_clear del pn s :
  free_node pn (clear_pending del s) = (fun r => (r.1, clear_pending del r.2)) <$> free_node pn s.
Proof.
  destruct pn as [a|]; [|done].
  unfold free_node, store_child, update_node, load_node, mbind, M_bind, get, of_option, modify. simpl.
  destruct (c_nodes s !! a) as [nd|] eqn:E; [|done]. simpl. destruct (child nd !! 0%nat); [|done]. simpl. by rewrite E.
Qed.

Lemma free_leaf_clear del pk s :
  free_leaf pk (clear_pending del s) = (fun r => (r.1, clear_pending del r.2)) <$> free_leaf pk s.
Proof.
  destruct pk as [a|]; [|done].
  unfold free_leaf, add_to_deleted_leaf_list, update_leaf, load_leaf, mbind, M_bind, get, of_option, modify. simpl.
  destruct (c_leaves s !! a) as [lf|] eqn:E; [|done]. simpl. rewrite !lookup_insert_eq. simpl.
  destruct (cb_free_leaf (c_crit s) && (ref_count lf >? 0)); [done|]. simpl. rewrite !lookup_insert_eq. unfold mret, M_ret. simpl. by rewrite !lookup_insert_eq.
Qed.

Lemma cinv_clear s L N DN DL ZL NN NL held n base del pn pk :
  cinv s (CPlace L N DN DL ZL NN NL) held n base ->
  pending_del_nodes (c_crit s) !! del = Some pn -> pending_del_leaves (c_crit s) !! del = Some pk ->
  cinv (clear_pending del s) (CPlace L N DN DL ZL (option_list pn ++ NN) (option_list pk ++ NL)) held n base.
Proof.
  intros [Ht [Na Nl Nc Np] [La Lc Ll Lv Lp Lz] [] []] Hpn Hpk. simpl in *.
  unfold pend_nodes in Na. unfold pend_leaves in La, Lp. rewrite (omap_id_split _ del pn Hpn) in Na.
  rewrite (omap_id_split _ del pk Hpk) in La.
  constructor; [exact Ht|constructor| |by constructor|by constructor]; simpl; try done.
  - unfold pend_nodes. simpl. destruct pn as [a|]; [|done]. simpl in *. rewrite <- !Permutation_middle.
    rewrite <- !Permutation_middle in Na. done.
  - by rewrite length_insert.
  - constructor; simpl; try done.
    + unfold pend_leaves. simpl. destruct pk as [a|]; [|done]. simpl in *. rewrite <- !Permutation_middle.
      rewrite <- !Permutation_middle in La. done.
    + by rewrite length_insert.
    + intros b lf Hb Hin. apply (Lp b lf Hb). rewrite (omap_id_split _ del pk Hpk). apply elem_of_app. by right.
Qed.

(** The removed leaf as the client sees it, before and after. *)
Lemma cok_retired s s' L N DN DL ZL NN NL DN' DL' ZL' V n base del pk :
  cok s (CPlace L N DN DL ZL NN NL) V true n base -> pending_del_leaves (c_crit s) !! del = Some pk ->
  cinv s' (CPlace L N DN' DL' ZL' NN NL) true n base -> c_freed s' = c_freed s ->
  cb_free_leaf (c_crit s') = cb_free_leaf (c_crit s) ->
  pending_del_leaves (c_crit s') = <[del := None]> (pending_del_leaves (c_crit s)) ->
  (forall b, Some b <> pk -> c_leaves s' !! b = c_leaves s !! b /\ (b ∈ ZL' <-> b ∈ ZL)) ->
  (forall a lf, pk = Some a -> c_leaves s !! a = Some lf ->
     if cb_free_leaf (c_crit s) && (ref_count lf >? 0)
     then a ∈ ZL' /\ c_leaves s' !! a = Some (with_pending true lf) else a ∉ ZL') ->
  cok s' (CPlace L N DN' DL' ZL' NN NL) V true n base.
Proof.
  intros [HI HV] Hpk HI' Ef Ec Ep Hb Ha. constructor; [done|]. apply (view_same s (CPlace L N DN DL ZL NN NL)); try done.
  assert (pend_leaves s ≡ₚ option_list pk ++ pend_leaves s') as HP.
  { unfold pend_leaves. rewrite Ep. by apply omap_id_split. }
  intros b. destruct (decide (Some b = pk)) as [<-|Hne].
  - assert (b ∈ pend_leaves s) as Hin by (rewrite HP; left).
    destruct (leaf_classes _ _ _ (ci_leaf _ _ _ _ _ HI)) as (_ & _ & _ & Hcl & _). specialize (Hcl b Hin).
    rewrite !elem_of_app in Hcl. simpl in Hcl.
    assert (b ∉ pend_leaves s') as Hnp.
    { destruct (li_acct _ _ _ (ci_leaf _ _ _ _ _ HI)) as [Hnd _]. simpl in Hnd. rewrite HP in Hnd.
      rewrite !NoDup_app in Hnd. destruct Hnd as (_ & _ & _ & _ & _ & _ & (_ & D & _) & _). apply D. left. }
    destruct (acct_lookup _ _ b (li_acct _ _ _ (ci_leaf _ _ _ _ _ HI))) as [lf Hlf]; [simpl; rewrite !elem_of_app; auto|].
    pose proof (li_pend _ _ _ (ci_leaf _ _ _ _ _ HI) b lf Hlf Hin) as [_ Hok].
    rewrite (celem_removed s _ b lf); [|done|simpl; tauto|rewrite elem_of_app; auto].
    specialize (Ha b lf eq_refl Hlf). destruct (cb_free_leaf (c_crit s)) eqn:Ecb; simpl in *.
    + destruct (Hok eq_refl) as [_ [[Hr _]|[Hr _]]]; unfold refs_ok, LEAF_VALID in *.
      * rewrite (proj2 (Z.gtb_lt _ _)) in Ha by lia. destruct Ha as [Hz Hl'].
        rewrite (celem_removed s' _ b (with_pending true lf)); [|done|simpl; tauto|rewrite elem_of_app; auto]. simpl. by rewrite Ec.
      * rewrite Hr in Ha |- *. simpl in Ha |- *. rewrite celem_none; [done|simpl; tauto|rewrite elem_of_app; tauto].
    + rewrite celem_none; [done|simpl; tauto|rewrite elem_of_app; simpl; tauto].
  - destruct (Hb b Hne) as [El Ez]. apply celem_same; try done. simpl. rewrite !elem_of_app, Ez, HP, elem_of_app.
    destruct pk as [a|]; [|set_solver]. simpl. rewrite list_elem_of_singleton. assert (b <> a) by congruence. tauto.
Qed.

Lemma wp_retire_leaf s s1 L N DN DL ZL NN NL DN' d V n base del pk (Q : unit -> cstate H -> Prop) :
  cok s (CPlace L N DN DL ZL NN NL) V true n base -> pending_del_leaves (c_crit s) !! del = Some pk ->
  cinv (clear_pending del s1) (CPlace L N DN' DL ZL NN (option_list pk ++ NL)) true n base ->
  c_leaves s1 = c_leaves s -> c_freed s1 = c_freed s ->
  c_crit (clear_pending del s1) = set_deleted_node d (c_crit (clear_pending del s)) ->
  (forall s2 DL' ZL' dl, cok (clear_pending del s2) (CPlace L N DN' DL' ZL' NN NL) V true n base ->
    c_crit (clear_pending del s2) = set_deleted_leaf dl (c_crit (clear_pending del s1)) -> Q tt s2) ->
  wp (free_leaf pk) Q s1.
Proof.
  intros HI Hpk HI1 El1 Ef1 Ec1 HQ. destruct pk as [a|].
  2: { simpl. wp_step. apply (HQ s1 DL ZL (deleted_leaf (c_crit (clear_pending del s1)))); [|by destruct (c_crit (clear_pending del s1))].
    apply (cok_retired s _ L N DN DL ZL NN NL DN' DL ZL V n base del None); try done; [by rewrite Ec1..|].
    intros b _. by rewrite <- El1. }
  destruct (acct_lookup _ _ a (li_acct _ _ _ (ci_leaf _ _ _ _ _ HI1))) as [lf Hlf]; [simpl; rewrite !elem_of_app; right; left|].
  assert (c_leaves s !! a = Some lf) as Hlf0 by (by rewrite <- El1).
  assert (a ∈ pend_leaves s) as Hin by (unfold pend_leaves; rewrite (omap_id_split _ del _ Hpk); left).
  pose proof (li_pend _ _ _ (ci_leaf _ _ _ _ _ (ok_inv _ _ _ _ _ _ HI)) a lf Hlf0 Hin) as [_ Hok].
  assert (a ∉ ZL) as Hza.
  { destruct (leaf_classes _ _ _ (ci_leaf _ _ _ _ _ (ok_inv _ _ _ _ _ _ HI))) as (_ & _ & _ & Hcl & _).
    specialize (Hcl a Hin). rewrite !elem_of_app in Hcl. simpl in Hcl. tauto. }
  assert (cb_free_leaf (c_crit (clear_pending del s1)) = cb_free_leaf (c_crit s)) as Ecb by (by rewrite Ec1).
  assert (pending_del_leaves (c_crit (clear_pending del s1)) = <[del := None]> (pending_del_leaves (c_crit s))) as Epl by (by rewrite Ec1).
  eapply wp_mono; [apply (wp_commute (free_leaf (Some a)) (clear_pending del) (fun _ s2 => exists DL' ZL' dl,
    cok s2 (CPlace L N DN' DL' ZL' NN NL) V true n base /\
    c_crit s2 = set_deleted_leaf dl (c_crit (clear_pending del s1))) s1 (free_leaf_clear del (Some a) s1))|].
  2: { intros [] s2 (DL' & ZL' & dl & HI2 & E2). by apply (HQ s2 DL' ZL' dl). }
  apply (wp_free_leaf _ L N DN' DL ZL NN NL true n base a lf); [exact HI1|exact Hlf|rewrite Ecb..].
  - intros [Hcb Hr]%andb_true_iff. destruct (Hok Hcb) as [_ [[? ?]|[Hr0 _]]]; [done|]. by rewrite Hr0 in Hr.
  - intros Eb HI2. exists DL, (a :: ZL), (deleted_leaf (c_crit (clear_pending del s1))).
    split; [|simpl; by destruct (c_crit s1)].
    apply (cok_retired s _ L N DN DL ZL NN NL DN' DL (a :: ZL) V n base del (Some a)); try done.
    + intros b Hne. split; [simpl; rewrite lookup_insert_ne by congruence; by rewrite <- El1|].
      rewrite elem_of_cons. assert (b <> a) by congruence. tauto.
    + intros a' lf' [= <-] Hlf'. simplify_eq. rewrite Eb. split; [left|apply put_leaf_lookup].
  - intros lf' Eb HI2. exists (a :: DL), ZL, (Some a). split; [|done].
    apply (cok_retired s _ L N DN DL ZL NN NL DN' (a :: DL) ZL V n base del (Some a)); try done.
    + intros b Hne. split; [simpl; rewrite lookup_insert_ne by congruence; by rewrite <- El1|done].
    + intros a' lf'' [= <-] Hlf'. simplify_eq. by rewrite Eb.
Qed.

Lemma wp_retire {A} s L N DN DL ZL NN NL V n base del pn pk (K : M (cstate H) A) Q :
  cok s (CPlace L N DN DL ZL NN NL) V true n base ->
  pending_del_nodes (c_crit s) !! del = Some pn -> pending_del_leaves (c_crit s) !! del = Some pk ->
  (forall s' DN' DL' ZL', cok s' (CPlace L N DN' DL' ZL' NN NL) V true n base ->
    root (c_crit s') = root (c_crit s) -> pending_del_nodes (c_crit s') !! del = Some None ->
    pending_del_leaves (c_crit s') !! del = Some None -> wp K Q s') ->
  wp (_ ← free_node pn; pk' ← of_option (pending_del_leaves (c_crit s) !! del); _ ← free_leaf pk';
      _ ← modify (with_crit (set_pending_node del None)); _ ← modify (with_crit (set_pending_leaf del None)); K) Q s.
Proof.
  intros HI Hpn Hpk HK. pose proof (cinv_clear s L N DN DL ZL NN NL true n base del pn pk (ok_inv _ _ _ _ _ _ HI) Hpn Hpk) as HC.
  apply wp_bind. eapply wp_mono.
  { apply (wp_commute (free_node pn) (clear_pending del) (fun _ s1 => exists DN' d,
      cinv s1 (CPlace L N DN' DL ZL NN (option_list pk ++ NL)) true n base /\ c_leaves s1 = c_leaves s /\
      c_freed s1 = c_freed s /\ c_crit s1 = set_deleted_node d (c_crit (clear_pending del s)))); [apply free_node_clear|].
    apply (wp_free_node _ L N DN DL ZL NN (option_list pk ++ NL) true n base pn); [exact HC|]. intros s1 DN' d HI1 El Ef Ec. by exists DN', d. }
  intros _ s1 (DN' & d & HI1 & El1 & Ef1 & Ec1). wp_step; [exact Hpk|]. apply wp_bind.
  apply (wp_retire_leaf s s1 L N DN DL ZL NN NL DN' d V n base del pk); try done.
  intros s2 DL' ZL' dl HI2 E2. wp_step. wp_step. apply (HK (clear_pending del s2) DN' DL' ZL' HI2); rewrite E2, Ec1; simpl.
  - done.
  - apply list_lookup_insert_eq. by eapply lookup_lt_Some.
  - apply list_lookup_insert_eq. by eapply lookup_lt_Some.
Qed.
End Free.
