(* ===== verification/CritInsert.v ===== *)
(** * Storing a subtree in a slot, and [critnib_insert]

    The root or a child slot, as [critnib_insert] and [critnib_remove] hold
    it in [parent] and [n_parent]: what the slot holds and what the tree is
    after another subtree has been stored there.

    [critnib_insert] on every path: no memory for the leaf or the node, an empty tree, an empty
    slot, a key that is there, and a new node where two keys part. *)

From S2P Require Import Prelude Utils HostMem CritRep CritIns CritInv CritHeap.
From stdpp Require Import list sorting strings.
From S2P Require Import Critnib.
#[local] Open Scope Z_scope.

#[local] Opaque crep.

Section Slot.
Context `{HostAlloc H}.
Implicit Types (s : cstate H) (G : cplace).

(** [s2] is [s1] after a store that concerns the tree only. *)
Record relinked s1 s2 (N1 : list Z) : Prop := {
  rl_crit : c_crit s2 = set_root (root (c_crit s2)) (c_crit s1);
  rl_leaves : c_leaves s2 = c_leaves s1;
  rl_host : c_host s2 = c_host s1;
  rl_freed : c_freed s2 = c_freed s1;
  rl_nodes : forall a, a ∉ N1 -> c_nodes s2 !! a = c_nodes s1 !! a;
  rl_dom : forall a, is_Some (c_nodes s2 !! a) <-> is_Some (c_nodes s1 !! a);
  rl_len : (forall a nd, c_nodes s1 !! a = Some nd -> length (child nd) = 16%nat) ->
    forall a nd, c_nodes s2 !! a = Some nd -> length (child nd) = 16%nat;
}.

Definition slot_node (sl : slot) : list Z := match sl with SRoot => [] | SChild b _ => [b] end.

(** The slot [sl] of the tree holds the subtree [n], whose keys have the
    prefix [pre] above [4 * hf] bits. *)
Record slot_at s (L : leaf_list) (N : list Z) (sl : slot) (n : nptr) (hf : nat) (pre : Z)
    (Ln : leaf_list) (Nn : list Z) (Lo : leaf_list) (N1 : list Z) : Prop := {
  sa_keys : L ≡ₚ Ln ++ Lo;
  sa_nodes : N ≡ₚ N1 ++ Nn;
  sa_rep : crep (c_nodes s) (leaf_keys s) hf n Ln Nn;
  sa_level : (hf <= 16)%nat;
  sa_pre : forall x, x ∈ Ln -> above x.1 hf = pre;
  sa_node : forall b, b ∈ slot_node sl -> b ∈ N1;
  sa_plug : forall s1 n' L' N',
    root (c_crit s1) = root (c_crit s) ->
    (forall b, b ∈ N1 -> c_nodes s1 !! b = c_nodes s !! b) ->
    (forall x, x ∈ Lo -> leaf_keys s1 !! x.2 = leaf_keys s !! x.2) ->
    crep (c_nodes s1) (leaf_keys s1) hf n' L' N' -> (forall b, b ∈ slot_node sl -> b ∉ N') -> n' <> NNull ->
    (forall x, x ∈ L' -> above x.1 hf = pre) ->
    exists s2 L2, (forall Q : unit -> cstate H -> Prop, Q tt s2 -> wp (store_slot sl n') Q s1) /\
      relinked s1 s2 N1 /\ tree s2 16 (root (c_crit s2)) L2 (N1 ++ N') /\ L2 ≡ₚ L' ++ Lo;
  sa_keep : forall s1 L' N',
    root (c_crit s1) = root (c_crit s) ->
    (forall b, b ∈ N1 -> c_nodes s1 !! b = c_nodes s !! b) ->
    (forall x, x ∈ Lo -> leaf_keys s1 !! x.2 = leaf_keys s !! x.2) ->
    crep (c_nodes s1) (leaf_keys s1) hf n L' N' -> n <> NNull -> (forall x, x ∈ L' -> above x.1 hf = pre) ->
    exists L2, tree s1 16 (root (c_crit s1)) L2 (N1 ++ N') /\ L2 ≡ₚ L' ++ Lo;
}.

Lemma relinked_put s b nd nd' :
  c_nodes s !! b = Some nd -> length (child nd') = length (child nd) -> relinked s (put_node b nd' s) [b].
Proof.
  intros Hb Hl. constructor; try done.
  - simpl. by destruct (c_crit s).
  - intros a Ha. simpl. rewrite lookup_insert_ne; [done|]. intros ->. apply Ha. left.
  - intros a. apply is_Some_insert. eauto.
  - intros Hlen a x Hx. simpl in Hx. apply lookup_insert_Some in Hx as [[<- <-]|[_ Hx]]; [|by apply (Hlen a)].
    rewrite Hl. by apply (Hlen b).
Qed.

Lemma relinked_trans s1 s2 s3 N1 N2 : relinked s1 s2 N1 -> relinked s2 s3 N2 -> relinked s1 s3 (N1 ++ N2).
Proof.
  intros [A1 A2 A3 A4 A5 A6 A7] [B1 B2 B3 B4 B5 B6 B7]. constructor; try congruence.
  - rewrite B1, A1. done.
  - intros a Ha. rewrite elem_of_app in Ha. rewrite B5, A5; [done|tauto|tauto].
  - intros a. by rewrite B6, A6.
  - intros Hl. by apply B7, A7.
Qed.

Lemma relinked_mono s1 s2 N1 N2 : relinked s1 s2 N1 -> (forall b, b ∈ N1 -> b ∈ N2) -> relinked s1 s2 N2.
Proof. intros [] Hsub. constructor; try done. auto. Qed.

Lemma slot_root s L N :
  tree s 16 (root (c_crit s)) L N -> slot_at s L N SRoot (root (c_crit s)) 16 0 L N [] [].
Proof.
  intros Ht. constructor; try done; [by rewrite app_nil_r| | |].
  - intros x Hx. apply above_16. by apply (crep_key _ _ _ _ _ _ x Ht).
  - intros s1 n' L' N' _ _ _ Hr _ _ _. exists (with_crit (set_root n') s1), L'. split_and!.
    + intros Q HQ. simpl. by wp_step.
    + by constructor.
    + exact Hr.
    + by rewrite app_nil_r.
  - intros s1 L' N' E _ _ Hr _ _. exists L'. rewrite E. split; [exact Hr|by rewrite app_nil_r].
Qed.

Lemma slot_child s L N b i nd hf n L1 Ln L2 N1 Nn :
  focus (c_nodes s) (leaf_keys s) 16 (root (c_crit s)) L N b i nd hf n L1 Ln L2 N1 Nn ->
  slot_at s L N (SChild b i) n hf (above (path nd) hf + Z.of_nat i) Ln Nn (L1 ++ L2) N1.
Proof.
  intros [Ek EN Hr Hlt Hb Hs Hin Hch Hpre Hidx Hlow Htop Hplug]. constructor; try done.
  - rewrite Ek. rewrite app_assoc, (Permutation_app_comm L1), <- app_assoc. done.
  - lia.
  - by intros ? ->%list_elem_of_singleton.
  - intros s1 n' L' N' Er Hk Hx Hr' Hn' Hne Hp'. assert (c_nodes s1 !! b = Some nd) as Hb1 by (by rewrite Hk).
    exists (put_node b (with_child i n' nd) s1), (L1 ++ L' ++ L2). split_and!.
    + intros Q HQ. simpl. apply (wp_store_child b i n' nd); [done| |done]. by eapply lookup_lt_Some.
    + apply (relinked_mono _ _ [b]); [|by intros ? ->%list_elem_of_singleton].
      apply (relinked_put s1 b nd); [done|]. simpl. by rewrite length_insert.
    + unfold tree. simpl. rewrite Er. apply (Hplug (<[b := with_child i n' nd]> (c_nodes s1)) (leaf_keys s1) n' L' N').
      * intros c Hc Hcb. rewrite lookup_insert_ne by done. by apply Hk.
      * apply lookup_insert_eq.
      * intros x Hxl. apply Hx. done.
      * apply (crep_frame (c_nodes s1) (leaf_keys s1)); [|done|done]. intros c Hc. rewrite lookup_insert_ne; [done|].
        intros ->. by apply (Hn' c); [left|].
      * done.
      * done.
    + rewrite app_assoc, (Permutation_app_comm L1), <- app_assoc. done.
  - intros s1 L' N' Er Hk Hx Hr' Hne Hp'. exists (L1 ++ L' ++ L2). split.
    + unfold tree. rewrite Er. apply (Hplug (c_nodes s1) (leaf_keys s1) n L' N'); try done; [by intros; apply Hk|].
      rewrite Hk by done. rewrite Hb. unfold with_child. rewrite list_insert_id by done. by destruct nd.
    + rewrite app_assoc, (Permutation_app_comm L1), <- app_assoc. done.
Qed.

(** The slot of the node that [critnib_remove] has found. *)
Lemma found_slot s k L N p a sl :
  tree s 16 (root (c_crit s)) L N -> found s k 16 (root (c_crit s)) L N SRoot p a sl ->
  exists j nd cs hf pre Nn Lo N1,
    slot_at s L N sl (NNode p) hf pre (part_keys cs) Nn Lo N1 /\ (j < hf)%nat /\
    node_rep (c_nodes s) (leaf_keys s) j p nd cs Nn /\ child nd !! slice_index k (shift nd) = Some (NLeaf a).
Proof.
  intros Ht [j nd cs Er ? EL Hn Ha|j nd cs b i ndb hf L1 L2 N1 Nn Hfo ? Hn Ha].
  - exists j, nd, cs, 16%nat, 0, N, [], []. split_and!; try done. rewrite <- Er, <- EL. by apply slot_root.
  - exists j, nd, cs, hf, (above (path ndb) hf + Z.of_nat i), Nn, (L1 ++ L2), N1. split_and!; try done. by apply slot_child.
Qed.
End Slot.

#[local] Opaque crep.

(** A new key with the leaf [a]. *)
Definition cv_insert (V : cview) (k v a : Z) : cview :=
  CView (<[k := a]> (cv_keys V)) (<[a := (v, 0)]> (cv_elems V)) (cv_freed V) (cv_cb V).

(** Another value in the leaf [a]. *)
Definition cv_update (V : cview) (a v : Z) : cview :=
  CView (cv_keys V) (alter (fun e => (v, e.2)) a (cv_elems V)) (cv_freed V) (cv_cb V).

Section Insert.
Context `{HostAllocLaws H}.
Implicit Types (s : cstate H) (G : cplace) (V : cview).

(** Between the operations nothing is in their hands. *)
Definition crest s V (n : Z) (base : gmap Z string) : Prop :=
  exists L N DN DL ZL, cok s (CPlace L N DN DL ZL [] []) V false n base.

Lemma slot_disjoint L N sl s n hf pre Ln Nn Lo N1 :
  slot_at s L N sl n hf pre Ln Nn Lo N1 -> NoDup N -> forall b, b ∈ N1 -> b ∉ Nn.
Proof. intros Hs Hnd. rewrite (sa_nodes _ _ _ _ _ _ _ _ _ _ _ Hs) in Hnd. by apply NoDup_app in Hnd as (_ & ? & _). Qed.

Lemma tree_NoDup s G held n base : cinv s G held n base -> NoDup (g_nodes G).
Proof. intros HI. destruct (ni_acct _ _ (ci_node _ _ _ _ _ HI)) as [Hnd _]. by apply NoDup_app in Hnd as (? & _). Qed.

(** The tree is stored: the invariant follows. *)
Lemma cinv_relinked s1 s2 L N DN DL ZL NN NL L2 N2 NN2 NL2 held n base N1 :
  cinv s1 (CPlace L N DN DL ZL NN NL) held n base -> relinked s1 s2 N1 -> (forall b, b ∈ N1 -> b ∈ N) ->
  tree s2 16 (root (c_crit s2)) L2 N2 -> N2 ++ NN2 ≡ₚ N ++ NN -> L2.*2 ++ NL2 ≡ₚ L.*2 ++ NL ->
  (forall a lf, c_leaves s1 !! a = Some lf -> a ∈ L2.*2 -> a ∉ L.*2 -> live_ok (cb_free_leaf (c_crit s1)) n lf) ->
  cinv s2 (CPlace L2 N2 DN DL ZL NN2 NL2) held n base.
Proof.
  intros HI [Ec El Eh Ef En Ed Elen] Hsub Ht HN HL Hlive.
  apply (cinv_relink s1 s2 L N DN DL ZL NN NL L2 N2 NN2 NL2 held n base (root (c_crit s2))); try done.
  - apply Elen. apply (ni_len _ _ (ci_node _ _ _ _ _ HI)).
  - intros a Ha. apply En. intros Hin%Hsub. destruct (ni_acct _ _ (ci_node _ _ _ _ _ HI)) as [Hnd _]. simpl in Hnd.
    apply NoDup_app in Hnd as (_ & D & _). apply (D a Hin). rewrite !elem_of_app. auto.
Qed.

Lemma keys_snd (L : leaf_list) k a : (k, a) ∈ L -> a ∈ L.*2.
Proof. intros Hin. apply list_elem_of_fmap. by exists (k, a). Qed.

(** The new leaf is in the tree. *)
Lemma cok_linked s1 s2 L N DN DL ZL NN NN2 N1 N2 L2 a lf k V n base :
  cok s1 (CPlace L N DN DL ZL NN [a]) V true n base -> relinked s1 s2 N1 -> (forall b, b ∈ N1 -> b ∈ N) ->
  tree s2 16 (root (c_crit s2)) L2 N2 -> N2 ++ NN2 ≡ₚ N ++ NN -> L2 ≡ₚ (k, a) :: L -> 0 <= n ->
  c_leaves s1 !! a = Some lf -> pending_deleted_leaf lf = false -> (cb_free_leaf (c_crit s1) = true -> value lf <> 0) ->
  ref_count lf = (if cb_free_leaf (c_crit s1) then LEAF_VALID else 0) ->
  cok s2 (CPlace L2 N2 DN DL ZL NN2 []) (cv_insert V k (value lf) a) true n base /\
  cv_keys V !! k = None /\ cv_elems V !! a = None.
Proof.
  intros [HI HV] Hrl Hsub Ht HN HL Hn0 Ha Hpd Hvz Hrc.
  destruct (leaf_classes _ _ _ (ci_leaf _ _ _ _ _ HI)) as (_ & Hcl & _). specialize (Hcl a ltac:(left)).
  rewrite !elem_of_app in Hcl. simpl in Hcl.
  assert (k ∉ L.*1) as HkL.
  { pose proof (crep_NoDup _ _ _ _ _ _ Ht) as Hnd. rewrite HL in Hnd. by apply NoDup_cons in Hnd as [? _]. }
  assert (cinv s2 (CPlace L2 N2 DN DL ZL NN2 []) true n base) as HI2.
  { apply (cinv_relinked s1 s2 L N DN DL ZL NN [a] L2 N2 NN2 [] true n base N1); try done.
    - rewrite HL, app_nil_r. simpl. by rewrite <- Permutation_cons_append.
    - intros b x Hb Hin Hnin. rewrite HL in Hin. apply elem_of_cons in Hin as [->|?]; [|done]. simpl in *. simplify_eq.
      split; [done|]. intros E. rewrite E in Hrc. split; [unfold refs_ok; lia|auto]. }
  assert (cv_elems V !! a = None) as Hva.
  { rewrite (vo_elems _ _ _ HV). apply celem_none; [simpl; tauto|rewrite elem_of_app; simpl; tauto]. }
  destruct Hrl as [Ec El Eh Ef En Ed Elen].
  assert (cb_free_leaf (c_crit s2) = cb_free_leaf (c_crit s1) /\ pend_leaves s2 = pend_leaves s1) as [Ecb Epl].
  { unfold pend_leaves. by rewrite Ec. }
  split; [|split; [|done]].
  - constructor; [done|]. constructor; simpl; [|..|by rewrite Ef; apply HV|by rewrite Ecb; apply HV].
    + intros k' b. rewrite lookup_insert_Some, HL, elem_of_cons, (vo_keys _ _ _ HV). simpl. split.
      * intros [[-> ->]|[_ ?]]; [by left|by right].
      * intros [[= -> ->]|Hin]; [by left|right]. split; [|done]. intros ->. apply HkL. apply list_elem_of_fmap. by exists (k', b).
    + intros b. destruct (decide (b = a)) as [->|Hne].
      * rewrite lookup_insert_eq. symmetry. rewrite (celem_live _ _ a lf); [|by rewrite El|simpl; rewrite HL; left].
        rewrite Ecb, Hrc. by destruct (cb_free_leaf (c_crit s1)).
      * rewrite lookup_insert_ne by done. rewrite (vo_elems _ _ _ HV). symmetry. apply celem_same; simpl; [by rewrite El|done| |by rewrite Epl].
        rewrite HL, fmap_cons, elem_of_cons. simpl. tauto.
  - destruct (cv_keys V !! k) as [b|] eqn:E; [|done]. apply (vo_keys _ _ _ HV) in E. simpl in E. destruct HkL.
    apply list_elem_of_fmap. by exists (k, b).
Qed.

(** The new leaf is not used. *)
Lemma wp_drop_new_leaf s L N DN DL ZL NN a V held n base (Q : unit -> cstate H -> Prop) :
  cok s (CPlace L N DN DL ZL NN [a]) V held n base ->
  (forall s', cok s' (CPlace L N DN (a :: DL) ZL NN []) V held n base ->
    (forall b, b <> a -> c_leaves s' !! b = c_leaves s !! b) -> Q tt s') -> wp (drop_new_leaf a) Q s.
Proof.
  intros HI HQ. destruct (acct_lookup _ _ a (li_acct _ _ _ (ci_leaf _ _ _ _ _ (ok_inv _ _ _ _ _ _ HI)))) as [lf Hlf].
  { simpl. rewrite !elem_of_app. right. left. }
  assert (forall s1 lf1, cok s1 (CPlace L N DN DL ZL NN [a]) V held n base -> c_leaves s1 !! a = Some lf1 ->
    (cb_free_leaf (c_crit s1) = true -> ref_count lf1 = 0) -> (forall b, b <> a -> c_leaves s1 !! b = c_leaves s !! b) ->
    wp (free_leaf (Some a)) Q s1) as Hfree.
  { intros s1 lf1 HI1 Hlf1 Hr Hs1.
    assert (cb_free_leaf (c_crit s1) && (ref_count lf1 >? 0) = false) as Eb.
    { destruct (cb_free_leaf (c_crit s1)); [|done]. by rewrite Hr. }
    apply (wp_free_leaf s1 L N DN DL ZL NN [] held n base a lf1); [apply HI1|done|by rewrite Eb..|].
    intros lf' _ HI'. apply HQ.
    - constructor; [done|]. apply (view_same s1 (CPlace L N DN DL ZL NN [a])); try done; [apply HI1|]. intros b.
      destruct (decide (b = a)) as [->|Hne]; [|apply celem_same; try done; simpl; by rewrite lookup_insert_ne].
      destruct (leaf_classes _ _ _ (ci_leaf _ _ _ _ _ (ok_inv _ _ _ _ _ _ HI1))) as (_ & Hcl & _). specialize (Hcl a ltac:(left)).
      rewrite !elem_of_app in Hcl. simpl in Hcl. rewrite !celem_none; rewrite ?elem_of_app; simpl; tauto.
    - intros b Hne. simpl. rewrite lookup_insert_ne by done. by apply Hs1. }
  unfold drop_new_leaf. wp_step. apply wp_bind. destruct (cb_free_leaf (c_crit s)) eqn:Ecb.
  - apply (wp_update_leaf a _ lf); [done|]. apply (Hfree _ (with_ref_count 0 lf)); [|apply put_leaf_lookup|done|].
    + apply cok_put_new; [done|left].
    + intros b Hne. simpl. by rewrite lookup_insert_ne.
  - wp_step. by apply (Hfree s lf); [| |rewrite Ecb|].
Qed.

Lemma wp_fill_node s m nd0 n a k p sh (Q : unit -> cstate H -> Prop) :
  c_nodes s !! m = Some nd0 -> Q tt (put_node m (new_node n a k p sh) s) ->
  wp (fill_node m k p sh (NLeaf a) n) Q s.
Proof.
  intros Hm HQ. unfold fill_node.
  apply wp_bind, (wp_update_node m _ nd0); [done|].
  apply wp_bind; eapply wp_store_child; [apply put_node_lookup|simpl; apply slice_index_lt|rewrite put_put_node].
  apply wp_bind; eapply wp_store_child; [apply put_node_lookup|simpl; rewrite length_insert; apply slice_index_lt|rewrite put_put_node].
  apply wp_bind; eapply wp_update_node; [apply put_node_lookup|rewrite put_put_node].
  eapply wp_update_node; [apply put_node_lookup|rewrite put_put_node]. exact HQ.
Qed.

(** What [critnib_insert] returns and leaves behind. *)
Inductive insert_post V (k v : Z) (update : bool) (n : Z) (base : gmap Z string) : Z -> cstate H -> Prop :=
| insert_nomem s' : crest s' V n base -> insert_post V k v update n base ENOMEM s'
| insert_new s' a :
    cv_keys V !! k = None -> cv_elems V !! a = None -> crest s' (cv_insert V k v a) n base ->
    insert_post V k v update n base 0 s'
| insert_update s' a :
    cv_keys V !! k = Some a -> update = true -> crest s' (cv_update V a v) n base -> insert_post V k v update n base 0 s'
| insert_exists s' a :
    cv_keys V !! k = Some a -> update = false -> crest s' V n base -> insert_post V k v update n base EEXIST s'.

(** The fields of the new leaf. *)
Definition new_leaf (cb : bool) (k v : Z) (lf : critnib_leaf) : Prop :=
  key lf = k /\ value lf = v /\ pending_deleted_leaf lf = false /\ ref_count lf = (if cb then LEAF_VALID else 0).

(** The state in which [critnib_insert] has its leaf and its slot. *)
Record inserting s L N DN DL ZL V (k v : Z) (a : Z) (lf : critnib_leaf) (n : Z) base : Prop := {
  in_ok : cok s (CPlace L N DN DL ZL [] [a]) V true n base;
  in_leaf : c_leaves s !! a = Some lf;
  in_new : new_leaf (cb_free_leaf (c_crit s)) k v lf;
  in_key : is_u64 k;
  in_value : cb_free_leaf (c_crit s) = true -> v <> 0;
  in_n : 0 <= n;
}.

Lemma new_leaf_key s L N DN DL ZL V k v a lf n base :
  inserting s L N DN DL ZL V k v a lf n base -> leaf_keys s !! a = Some k.
Proof. intros [_ Hlf (Hk & _) _ _ _]. unfold leaf_keys. rewrite lookup_fmap, Hlf. simpl. by rewrite Hk. Qed.

(** The slot gets a subtree with the new leaf: the operation succeeds. *)
Lemma wp_insert_link s s1 L N DN DN1 DL ZL V k v a lf n base sl nn hf pre Ln Nn Lo N1 n' L' N' NN NN2 update :
  inserting s L N DN DL ZL V k v a lf n base -> slot_at s L N sl nn hf pre Ln Nn Lo N1 ->
  cok s1 (CPlace L N DN1 DL ZL NN [a]) V true n base -> c_leaves s1 = c_leaves s ->
  root (c_crit s1) = root (c_crit s) -> (forall b, b ∈ N1 -> c_nodes s1 !! b = c_nodes s !! b) ->
  crep (c_nodes s1) (leaf_keys s1) hf n' L' N' -> n' <> NNull -> (forall b, b ∈ slot_node sl -> b ∉ N') ->
  (forall x, x ∈ L' -> above x.1 hf = pre) -> L' ≡ₚ (k, a) :: Ln -> N' ++ NN2 ≡ₚ Nn ++ NN -> NN2 = [] ->
  wp (_ ← store_slot sl n'; _ ← unlock; mret 0) (insert_post V k v update n base) s1.
Proof.
  intros [Hok Hlf (Hk & <- & Hp & Hr) Hku Hvz Hn0] HS HI1 El Er Hns Hr' Hne Hd Hpre HL' HN' ->.
  assert (cb_free_leaf (c_crit s1) = cb_free_leaf (c_crit s)) as Ecb.
  { rewrite <- (vo_cb _ _ _ (ok_view _ _ _ _ _ _ HI1)). apply (vo_cb _ _ _ (ok_view _ _ _ _ _ _ Hok)). }
  destruct (sa_plug _ _ _ _ _ _ _ _ _ _ _ HS s1 n' L' N' Er Hns) as (s2 & L2 & Hwp & Hrl & Ht & HL2); try done.
  { intros x _. unfold leaf_keys. by rewrite El. }
  apply wp_bind, Hwp.
  destruct (cok_linked s1 s2 L N DN1 DL ZL NN [] N1 (N1 ++ N') L2 a lf k V n base) as (HI2 & Hnk & Hna); try done.
  - intros b Hb. rewrite (sa_nodes _ _ _ _ _ _ _ _ _ _ _ HS), elem_of_app. by left.
  - by rewrite (sa_nodes _ _ _ _ _ _ _ _ _ _ _ HS), <- !app_assoc, HN'.
  - by rewrite HL2, HL', (sa_keys _ _ _ _ _ _ _ _ _ _ _ HS).
  - by rewrite El.
  - by rewrite Ecb.
  - by rewrite Ecb.
  - apply wp_bind, (wp_crit_unlock s2 _ _ n base _ HI2). intros s3 HI3. wp_step. apply (insert_new _ _ _ _ _ _ _ a); [done|done|].
    by do 5 eexists.
Qed.

(** Two keys part: a new node. *)
Lemma wp_insert_node s L N DN DL ZL V k v a lf n base sl nn hf Ln Nn Lo N1 p update :
  inserting s L N DN DL ZL V k v a lf n base -> slot_at s L N sl nn hf (above k hf) Ln Nn Lo N1 ->
  stops (c_nodes s) k nn -> branch_key (c_nodes s) (leaf_keys s) nn p -> p <> k ->
  wp (m ← alloc_node;
      match m with
      | None => _ ← drop_new_leaf a; _ ← unlock; mret ENOMEM
      | Some m =>
        _ ← fill_node m k p (Z.land (utils_msb64 (Z.lxor p k)) 252) (NLeaf a) nn;
        _ ← store_slot sl (NNode m); _ ← unlock; mret 0
      end) (insert_post V k v update n base) s.
Proof.
  intros HIn HS Hst Hp Hne. pose proof (new_leaf_key _ _ _ _ _ _ _ _ _ _ _ _ _ HIn) as Hka.
  pose proof (in_ok _ _ _ _ _ _ _ _ _ _ _ _ _ HIn) as HI. pose proof (tree_NoDup _ _ _ _ _ (ok_inv _ _ _ _ _ _ HI)) as HndN.
  simpl in HndN. pose proof (slot_disjoint _ _ _ _ _ _ _ _ _ _ _ HS HndN) as Hdis.
  assert (forall b, b ∈ N1 ++ Nn -> b ∈ N) as HinN by (intros b; by rewrite <- (sa_nodes _ _ _ _ _ _ _ _ _ _ _ HS)).
  apply wp_bind, (wp_alloc_node s L N DN DL ZL [] [a] V true n base _ HI).
  - intros s' HI'. apply wp_bind, (wp_drop_new_leaf s' L N DN DL ZL [] a V true n base _ HI'). intros s2 HI2 _.
    apply wp_bind, (wp_crit_unlock s2 _ _ n base _ HI2). intros s3 HI3. wp_step. apply insert_nomem. by do 5 eexists.
  - intros m s1 DN1 HI1 El Er Hns. pose proof (ni_acct _ _ (ci_node _ _ _ _ _ (ok_inv _ _ _ _ _ _ HI1))) as Hacc. simpl in Hacc.
    destruct (acct_lookup _ _ m Hacc) as [nd0 Hnd0]; [rewrite elem_of_app; right; left|].
    assert (m ∉ N) as HmN by (destruct Hacc as [Hnd _]; apply NoDup_app in Hnd as (_ & D & _); intros Hin; apply (D m Hin); left).
    apply wp_bind, (wp_fill_node s1 m nd0); [done|].
    set (nd := new_node nn a k p (Z.land (utils_msb64 (Z.lxor p k)) 252)).
    destruct (cok_put_new_node s1 L N DN1 DL ZL [m] [a] V true n base m nd HI1) as [HI2 Hkeep]; [left| |].
    { simpl. by rewrite !length_insert. }
    assert (forall b, b ∈ N -> c_nodes (put_node m nd s1) !! b = c_nodes s !! b) as Hk2 by (intros b Hb; by rewrite Hkeep, Hns).
    assert (forall x, leaf_keys (put_node m nd s1) !! x = leaf_keys s !! x) as Hlk by (intros x; unfold leaf_keys; simpl; by rewrite El).
    destruct (crep_new_node (c_nodes s) (leaf_keys s) (c_nodes (put_node m nd s1)) (leaf_keys (put_node m nd s1)) hf nn Ln Nn k a m p)
      as (L' & Hr' & HL').
    1: apply HS. 1: apply HS. 1: apply HIn. all: try done.
    { apply HS. }
    { intros b Hb. apply Hk2, HinN. rewrite elem_of_app. by right. }
    { by rewrite Hlk. }
    { apply put_node_lookup. }
    apply (wp_insert_link s _ L N DN DN1 DL ZL V k v a lf n base sl nn hf (above k hf) Ln Nn Lo N1 (NNode m) L' (m :: Nn) [m] []); try done.
    + intros b Hb. apply Hk2, HinN. rewrite elem_of_app. by left.
    + intros b Hb [->|Hin]%elem_of_cons.
      * apply HmN, HinN. rewrite elem_of_app. left. by apply (sa_node _ _ _ _ _ _ _ _ _ _ _ HS).
      * apply (Hdis b); [|done]. by apply (sa_node _ _ _ _ _ _ _ _ _ _ _ HS).
    + intros x Hx. rewrite HL' in Hx. apply elem_of_cons in Hx as [->|Hx]; [done|by apply HS].
    + rewrite app_nil_r. by rewrite <- Permutation_cons_append.
Qed.

(** The slot is empty: the leaf itself. *)
Lemma wp_insert_leaf s L N DN DL ZL V k v a lf n base sl hf Ln Nn Lo N1 update :
  inserting s L N DN DL ZL V k v a lf n base -> slot_at s L N sl NNull hf (above k hf) Ln Nn Lo N1 ->
  wp (_ ← store_slot sl (NLeaf a); _ ← unlock; mret 0) (insert_post V k v update n base) s.
Proof.
  intros HIn HS. pose proof (new_leaf_key _ _ _ _ _ _ _ _ _ _ _ _ _ HIn) as Hka.
  pose proof (sa_rep _ _ _ _ _ _ _ _ _ _ _ HS) as Hr. apply crep_null in Hr as [-> ->].
  apply (wp_insert_link s s L N DN DN DL ZL V k v a lf n base sl NNull hf (above k hf) [] [] Lo N1 (NLeaf a) [(k, a)] [] [] []); try done.
  - apply HIn.
  - apply crep_leaf. exists k. split_and!; [done|apply HIn|done|done].
  - by intros b _ ?%elem_of_nil.
  - by intros x ->%list_elem_of_singleton.
Qed.

(** Writing a leaf of the tree: its value and its count may change. *)
Lemma cok_put_live s L N DN DL ZL NN NL V held n base k b lf lf' :
  cok s (CPlace L N DN DL ZL NN NL) V held n base -> (k, b) ∈ L -> c_leaves s !! b = Some lf ->
  key lf' = key lf -> live_ok (cb_free_leaf (c_crit s)) n lf' ->
  cok (put_leaf b lf' s) (CPlace L N DN DL ZL NN NL)
    (CView (cv_keys V) (<[b := (value lf', if cv_cb V then ref_count lf' - LEAF_VALID else 0)]> (cv_elems V)) (cv_freed V) (cv_cb V))
    held n base.
Proof.
  intros [HI HV] Hb Hlf Hk Hok. pose proof (keys_snd _ _ _ Hb) as Hb2.
  destruct (leaf_classes _ _ _ (ci_leaf _ _ _ _ _ HI)) as (Hcl & _). specialize (Hcl b Hb2). rewrite !elem_of_app in Hcl. simpl in Hcl.
  constructor.
  - apply (cinv_put_leaf s _ held n base b lf); try done; intros Hin; exfalso; simpl in Hin; tauto.
  - destruct HV as [Vk Ve Vf Vc]. constructor; try done. intros c. simpl. destruct (decide (c = b)) as [->|Hne].
    + rewrite lookup_insert_eq, (celem_live _ _ b lf'); [by rewrite Vc|apply put_leaf_lookup|done].
    + rewrite lookup_insert_ne by done. rewrite celem_put_ne by done. apply Ve.
Qed.

Lemma view_elem_live s L N DN DL ZL NN NL V held n base k b :
  cok s (CPlace L N DN DL ZL NN NL) V held n base -> (k, b) ∈ L ->
  exists lf, c_leaves s !! b = Some lf /\ key lf = k /\ live_ok (cb_free_leaf (c_crit s)) n lf /\
    cv_elems V !! b = Some (value lf, if cv_cb V then ref_count lf - LEAF_VALID else 0).
Proof.
  intros [HI HV] Hb. pose proof (ci_tree _ _ _ _ _ HI) as Ht. simpl in Ht.
  destruct (crep_key _ _ _ _ _ _ _ Ht Hb) as [Hkey _]. apply leaf_keys_lookup in Hkey as (lf & Hlf & Hk). simpl in *.
  pose proof (keys_snd _ _ _ Hb) as Hb2. exists lf. split_and!; [done|done| |].
  - by apply (li_live _ _ _ (ci_leaf _ _ _ _ _ HI) b).
  - by rewrite (vo_elems _ _ _ HV), (celem_live _ _ b lf), (vo_cb _ _ _ HV).
Qed.

Lemma wp_insert_dup s L N DN DL ZL V k v a lf n base b (update : bool) :
  inserting s L N DN DL ZL V k v a lf n base -> (k, b) ∈ L ->
  wp (_ ← drop_new_leaf a;
      if update then _ ← update_leaf b (with_value v); _ ← unlock; mret 0 else _ ← unlock; mret EEXIST)
    (insert_post V k v update n base) s.
Proof.
  intros HIn Hb. pose proof (in_ok _ _ _ _ _ _ _ _ _ _ _ _ _ HIn) as HI.
  assert (cv_keys V !! k = Some b) as Hkb by (by apply (vo_keys _ _ _ (ok_view _ _ _ _ _ _ HI))).
  apply wp_bind, (wp_drop_new_leaf s L N DN DL ZL [] a V true n base _ HI). intros s1 HI1 _. destruct update.
  - destruct (view_elem_live s1 _ _ _ _ _ _ _ _ _ _ _ k b HI1 Hb) as (lb & Hlb & Hkey & Hok & Hev).
    apply wp_bind, (wp_update_leaf b _ lb); [done|].
    assert (live_ok (cb_free_leaf (c_crit s1)) n (with_value v lb)) as Hok2.
    { destruct Hok as [Hp Hc]. split; [done|]. intros E. destruct (Hc E). split; [done|]. apply HIn.
      rewrite <- (vo_cb _ _ _ (ok_view _ _ _ _ _ _ HI1)) in E. by rewrite (vo_cb _ _ _ (ok_view _ _ _ _ _ _ HI)) in E. }
    pose proof (cok_put_live s1 L N DN (a :: DL) ZL [] [] V true n base k b lb (with_value v lb) HI1 Hb Hlb eq_refl Hok2) as HI2.
    apply wp_bind, (wp_crit_unlock _ _ _ n base _ HI2).
    intros s3 HI3. wp_step. apply (insert_update _ _ _ _ _ _ _ b); [done|done|]. unfold cv_update.
    replace (alter (fun e : Z * Z => (v, e.2)) b (cv_elems V)) with
        (<[b := (v, if cv_cb V then ref_count lb - LEAF_VALID else 0)]> (cv_elems V)); [by do 5 eexists|].
    apply map_eq. intros c. destruct (decide (c = b)) as [->|Hne].
    + by rewrite lookup_insert_eq, lookup_alter_eq, Hev.
    + by rewrite lookup_insert_ne, lookup_alter_ne.
  - apply wp_bind, (wp_crit_unlock s1 _ _ n base _ HI1). intros s2 HI2. wp_step. apply (insert_exists _ _ _ _ _ _ _ b); [done|done|].
    by do 5 eexists.
Qed.

(** A node whose path is the key is entered. *)
Lemma stops_path ns ks h b L N k nd :
  crep ns ks h (NNode b) L N -> (h <= 16)%nat -> is_u64 k -> ns !! b = Some nd -> stops ns k (NNode b) -> path nd <> k.
Proof.
  intros Hr Hh Hk Hb (nd' & Hb' & Hne) E. simplify_eq. apply crep_node in Hr as (j & nd1 & cs & Hj & Hn & _).
  pose proof (nr_node _ _ _ _ _ _ _ Hn). simplify_eq. apply Hne. apply Z.eqb_eq.
  rewrite (nr_shift _ _ _ _ _ _ _ Hn), path_eq; [by apply Z.eqb_eq|apply Hn|done|lia|apply Hn].
Qed.

(** The end of [critnib_insert] at a subtree that is not NULL. *)
Lemma wp_insert_at s L N DN DL ZL V k v a lf n base sl nn hf Ln Nn Lo N1 (update : bool) :
  inserting s L N DN DL ZL V k v a lf n base -> slot_at s L N sl nn hf (above k hf) Ln Nn Lo N1 ->
  stops (c_nodes s) k nn -> nn <> NNull ->
  wp (p ← match nn with
          | NLeaf b => lf ← load_leaf b; mret (key lf)
          | NNode b => nd ← load_node b; mret (path nd)
          | NNull => undef
          end;
      if Z.lxor p k =? 0 then
        _ ← c_assert (is_leaf nn);
        _ ← drop_new_leaf a;
        match nn with
        | NLeaf b =>
          if update then _ ← update_leaf b (with_value v); _ ← unlock; mret 0
          else _ ← unlock; mret EEXIST
        | _ => undef
        end
      else
        m ← alloc_node;
        match m with
        | None => _ ← drop_new_leaf a; _ ← unlock; mret ENOMEM
        | Some m =>
          _ ← fill_node m k p (Z.land (utils_msb64 (Z.lxor p k)) 252) (NLeaf a) nn;
          _ ← store_slot sl (NNode m);
          _ ← unlock; mret 0
        end) (insert_post V k v update n base) s.
Proof.
  intros HIn HS Hst Hne. pose proof (sa_rep _ _ _ _ _ _ _ _ _ _ _ HS) as Hr. destruct nn as [|b|b]; [done| |].
  - pose proof Hr as Hr'. apply crep_node in Hr' as (j & nd & cs & _ & Hn & _). pose proof (nr_node _ _ _ _ _ _ _ Hn) as Hb.
    apply wp_bind, wp_bind, (wp_load_node b nd); [done|]. wp_step.
    assert (path nd <> k) as Hpk by (apply (stops_path _ _ hf b Ln Nn k nd Hr); [apply HS|apply HIn|done|done]).
    rewrite (proj2 (Z.eqb_neq _ _)) by (by rewrite Z.lxor_eq_0_iff).
    apply (wp_insert_node s L N DN DL ZL V k v a lf n base sl (NNode b) hf Ln Nn Lo N1 (path nd)); try done. simpl. by rewrite Hb.
  - pose proof Hr as Hr'. apply crep_leaf in Hr' as (kb & Hkb & Hu & EL & _). apply leaf_keys_lookup in Hkb as (lb & Hlb & Ekb).
    apply wp_bind, wp_bind, (wp_load_leaf b lb); [done|]. wp_step. rewrite Ekb.
    destruct (decide (kb = k)) as [->|Hkk].
    + rewrite Z.lxor_nilpotent. simpl. wp_step.
      apply (wp_insert_dup s L N DN DL ZL V k v a lf n base b update HIn).
      rewrite (sa_keys _ _ _ _ _ _ _ _ _ _ _ HS), EL. left.
    + rewrite (proj2 (Z.eqb_neq _ _)) by (by rewrite Z.lxor_eq_0_iff).
      apply (wp_insert_node s L N DN DL ZL V k v a lf n base sl (NLeaf b) hf Ln Nn Lo N1 kb); try done. simpl.
      unfold leaf_keys. rewrite lookup_fmap, Hlb. simpl. by rewrite Ekb.
Qed.

Lemma wp_critnib_insert s V k v update n base :
  crest s V n base -> is_u64 k -> (cv_cb V = true -> v <> 0) -> 0 <= n ->
  wp (critnib_insert k v update) (insert_post V k v update n base) s.
Proof.
  intros (L & N & DN & DL & ZL & HI) Hk Hv Hn. unfold critnib_insert.
  apply wp_bind, (wp_crit_lock s _ V n base _ HI). intros s1 HI1 _.
  apply wp_bind, (wp_alloc_leaf s1 L N DN DL ZL [] [] V true n base _ HI1).
  { intros s2 HI2. apply wp_bind, (wp_crit_unlock s2 _ V n base _ HI2). intros s3 HI3. wp_step. apply insert_nomem. by do 5 eexists. }
  intros a s2 DL2 HI2. destruct (acct_lookup _ _ a (li_acct _ _ _ (ci_leaf _ _ _ _ _ (ok_inv _ _ _ _ _ _ HI2)))) as [lf0 Hlf0].
  { simpl. rewrite !elem_of_app. right. left. }
  apply wp_bind, (wp_update_leaf a _ lf0); [done|].
  do 3 (apply wp_bind; eapply wp_update_leaf; [apply put_leaf_lookup|rewrite put_put_leaf]). wp_step.
  apply wp_bind; eapply wp_update_leaf; [apply put_leaf_lookup|rewrite put_put_leaf]. simpl c_crit.
  set (lf := with_ref_count _ _). set (s3 := put_leaf a lf s2).
  assert (inserting s3 L N DN DL2 ZL V k v a lf n base) as HIn.
  { constructor; [apply cok_put_new; [done|left]|apply put_leaf_lookup|by simpl|done| |done].
    intros E. apply Hv. by rewrite (vo_cb _ _ _ (ok_view _ _ _ _ _ _ HI2)). }
  change (root (c_crit s2)) with (root (c_crit s3)).
  pose proof (ci_tree _ _ _ _ _ (ok_inv _ _ _ _ _ _ (in_ok _ _ _ _ _ _ _ _ _ _ _ _ _ HIn))) as Ht. simpl g_keys in Ht. simpl g_nodes in Ht.
  pose proof (slot_root s3 L N Ht) as HSr. rewrite <- (above_16 k Hk) in HSr.
  pose proof (tree_NoDup _ _ _ _ _ (ok_inv _ _ _ _ _ _ (in_ok _ _ _ _ _ _ _ _ _ _ _ _ _ HIn))) as HndN. simpl in HndN.
  clearbody s3. clear HI HI1 HI2. destruct (decide (root (c_crit s3) = NNull)) as [E|Hne].
  { rewrite E in HSr |- *. by apply (wp_insert_leaf s3 L N DN DL2 ZL V k v a lf n base SRoot 16 L N [] []). }
  assert (forall rt, rt = root (c_crit s3) ->
    wp (insert_walk max_height k rt rt SRoot) (fun r s => s = s3 /\
      ((r = (rt, rt, SRoot) /\ stops (c_nodes s3) k rt) \/
       exists nn b i, r = (nn, NNode b, SChild b i) /\ walked s3 k 16 rt L N nn b i)) s3) as Hwalk.
  { intros rt ->. apply (wp_insert_walk 16 _ k _ L N); [done|done|unfold max_height; lia|done|done|auto|].
    intros nn b i Hw. split; [done|]. right. eauto. }
  pose proof (fun Hst => wp_insert_at s3 L N DN DL2 ZL V k v a lf n base SRoot _ 16 L N [] [] update HIn HSr Hst Hne) as Hroot.
  assert (forall nn b i, walked s3 k 16 (root (c_crit s3)) L N nn b i -> exists hf nd Ln Nn Lo N1,
    slot_at s3 L N (SChild b i) nn hf (above k hf) Ln Nn Lo N1 /\ stops (c_nodes s3) k nn /\
    c_nodes s3 !! b = Some nd /\ i = slice_index k (shift nd)) as Hdeep.
  { intros nn b i [Hst (nd & hf & L1 & Ln & L2 & N1 & Nn & Hfo & Ei & Ea)]. exists hf, nd, Ln, Nn, (L1 ++ L2), N1.
    rewrite Ea. split_and!; [by apply slot_child|done|apply Hfo|done]. }
  destruct (root (c_crit s3)) as [|r|r] eqn:Er; [done|..].
  all: apply wp_bind; eapply wp_mono; [by apply Hwalk|]; intros ? s4 [-> [[-> Hst]|(nn & b & i & -> & Hw)]]; [by apply Hroot|];
    destruct (Hdeep nn b i Hw) as (hf & nd & Ln & Nn & Lo & N1 & HS & Hst & Hb & Ei); destruct nn as [|c|c];
    [|by apply (wp_insert_at s3 L N DN DL2 ZL V k v a lf n base (SChild b i) _ hf Ln Nn Lo N1 update HIn HS Hst)..];
    apply wp_bind, (wp_load_node b nd); [done|]; rewrite <- Ei;
    by apply (wp_insert_leaf s3 L N DN DL2 ZL V k v a lf n base (SChild b i) hf Ln Nn Lo N1).
Qed.
End Insert.
