(* ===== verification/CritRemove.v ===== *)
(** * [critnib_remove] and [critnib_release]

    The leaf leaves the tree, its node when a single child remains goes too,
    both wait in the arrays of pending objects; the value is passed to the
    callback when the last reference is released. *)

From S2P Require Import Prelude Utils HostMem CritRep CritIns CritInv CritHeap CritInsert.
From stdpp Require Import list sorting strings.
From S2P Require Import Critnib.
#[local] Open Scope Z_scope.
#[local] Opaque crep.

(** The key leaves the map; the remover holds a reference of the leaf. *)
Definition cv_unlink (V : cview) (k a : Z) : cview :=
  CView (delete k (cv_keys V)) (delete a (cv_elems V)) (cv_freed V) (cv_cb V).
Definition cv_remove (V : cview) (k a v r : Z) : cview :=
  CView (delete k (cv_keys V)) (if cv_cb V then <[a := (v, r + 1)]> (cv_elems V) else delete a (cv_elems V))
    (cv_freed V) (cv_cb V).

Section Remove.
Context `{HostAllocLaws H}.
Implicit Types (s : cstate H) (G : cplace) (V : cview).

Lemma cok_mono s G V held n m base : n <= m -> cok s G V held n base -> cok s G V held m base.
Proof.
  intros Hle [[Ht Hn [La Lc Ll Lv Lp Lz] Hh [Cm Cc]] HV]. constructor; [|done].
  constructor; [done|done|constructor|done|constructor]; try done.
  - intros a lf Ha Hin. eapply live_ok_mono; [done|]. by eapply Lv.
  - intros a lf Ha Hin. eapply pend_ok_mono; [done|]. by eapply Lp.
  - intros a lf Ha Hin. eapply zombie_ok_mono; [done|]. by eapply Lz.
  - lia.
Qed.

(** ** The leaf leaves the tree *)

Lemma cok_unlinked s1 s2 L N DN DL ZL L2 N1 N2 NN2 a k V n base :
  cok s1 (CPlace L N DN DL ZL [] []) V true n base -> relinked s1 s2 N1 -> (forall b, b ∈ N1 -> b ∈ N) ->
  tree s2 16 (root (c_crit s2)) L2 N2 -> N2 ++ NN2 ≡ₚ N -> L ≡ₚ (k, a) :: L2 ->
  cok s2 (CPlace L2 N2 DN DL ZL NN2 [a]) (cv_unlink V k a) true n base.
Proof.
  intros [HI HV] Hrl Hsub Ht HN HL.
  assert ((k ∉ L2.*1) /\ (a ∉ L2.*2)) as [HkL HaL].
  { split.
    - pose proof (crep_NoDup _ _ _ _ _ _ (ci_tree _ _ _ _ _ HI)) as Hnd. simpl in Hnd. rewrite HL in Hnd.
      by apply NoDup_cons in Hnd as [? _].
    - destruct (li_acct _ _ _ (ci_leaf _ _ _ _ _ HI)) as [Hnd _]. simpl in Hnd. rewrite HL in Hnd.
      apply NoDup_app in Hnd as (Hnd & _). by apply NoDup_cons in Hnd as [? _]. }
  assert (a ∉ pend_leaves s1 ++ ZL) as HaP.
  { destruct (leaf_classes _ _ _ (ci_leaf _ _ _ _ _ HI)) as (Hcl & _). intros Hin. apply (Hcl a); simpl.
    - rewrite HL. left.
    - rewrite !elem_of_app in *. tauto. }
  assert (pend_leaves s2 = pend_leaves s1 /\ cb_free_leaf (c_crit s2) = cb_free_leaf (c_crit s1)) as [Ep Ecb].
  { unfold pend_leaves. by rewrite (rl_crit _ _ _ Hrl). }
  constructor.
  - apply (cinv_relinked s1 s2 L N DN DL ZL [] [] L2 N2 NN2 [a] true n base N1); try done.
    + by rewrite app_nil_r.
    + rewrite app_nil_r, HL. simpl. by rewrite <- Permutation_cons_append.
    + intros b lf _ Hb Hnb. destruct Hnb. rewrite HL. by right.
  - destruct HV as [Vk Ve Vf Vc]. constructor; simpl; [| |by rewrite (rl_freed _ _ _ Hrl)|by rewrite Ecb].
    + intros k' b. rewrite lookup_delete_Some, Vk. simpl. rewrite HL, elem_of_cons. split.
      * intros [Hne [[= -> ->]|?]]; done.
      * intros Hin. split; [|by right]. intros ->. apply HkL. apply list_elem_of_fmap. by exists (k', b).
    + intros b. destruct (decide (b = a)) as [->|Hne].
      * rewrite lookup_delete_eq. symmetry. apply celem_none; simpl; [done|by rewrite Ep].
      * rewrite lookup_delete_ne by done. rewrite Ve. symmetry. apply celem_same; simpl; [by rewrite (rl_leaves _ _ _ Hrl)|done| |by rewrite Ep].
        rewrite HL, fmap_cons, elem_of_cons. simpl. tauto.
Qed.

(** The node goes to its array. *)
Lemma cok_pend_node s L N DN DL ZL NL V n base del p :
  cok s (CPlace L N DN DL ZL [p] NL) V true n base -> pending_del_nodes (c_crit s) !! del = Some None ->
  cok (with_crit (set_pending_node del (Some p)) s) (CPlace L N DN DL ZL [] NL) V true n base.
Proof.
  intros [[Ht [Na Nl Nc Np] [] [] []] HV] Hdel. simpl in *. constructor; [|by apply (view_same s (CPlace L N DN DL ZL [p] NL))].
  constructor; [exact Ht|constructor|by constructor|by constructor|by constructor]; simpl; try done.
  - unfold pend_nodes in *. simpl. rewrite omap_id_put by done. by rewrite <- !Permutation_middle in *.
  - by rewrite length_insert.
Qed.

(** The leaf goes to its array, with its value in [to_be_freed]. *)
Lemma wp_del_leaf s L N DN DL ZL V n base del a lf (Q : Z * option Z -> cstate H -> Prop) :
  cok s (CPlace L N DN DL ZL [] [a]) V true n base -> c_leaves s !! a = Some lf ->
  live_ok (cb_free_leaf (c_crit s)) n lf -> pending_del_leaves (c_crit s) !! del = Some None ->
  (forall s', crest s' (CView (cv_keys V) (if cv_cb V then <[a := (value lf, ref_count lf - 1)]> (cv_elems V) else cv_elems V)
                (cv_freed V) (cv_cb V)) n base ->
    Q (value lf, if cv_cb V then Some a else None) s') ->
  wp (del_leaf del a) Q s.
Proof.
  intros HI Hlf Hok Hdel HQ. unfold del_leaf. apply wp_bind, (wp_load_leaf a lf); [done|]. wp_step. apply wp_bind.
  pose proof (vo_cb _ _ _ (ok_view _ _ _ _ _ _ HI)) as Evc.
  assert (forall s1 lf1 r, cok s1 (CPlace L N DN DL ZL [] [a]) V true n base -> c_leaves s1 !! a = Some lf1 ->
    c_crit s1 = c_crit s -> pend_ok (cb_free_leaf (c_crit s)) n lf1 ->
    r = (if cv_cb V then Some a else None) ->
    (cb_free_leaf (c_crit s) = true -> to_be_freed lf1 = value lf /\ ref_count lf1 = ref_count lf) ->
    wp (_ ← modify (with_crit (set_pending_leaf del (Some a))); _ ← unlock; mret (value lf, r)) Q s1) as Hend.
  { intros s1 lf1 r HI1 Hlf1 Ec Hpo -> Hf. wp_step. set (s2 := with_crit _ s1).
    assert (pend_leaves s2 ≡ₚ a :: pend_leaves s1) as Hpl.
    { unfold pend_leaves. simpl. rewrite Ec. by apply omap_id_put. }
    destruct (leaf_classes _ _ _ (ci_leaf _ _ _ _ _ (ok_inv _ _ _ _ _ _ HI1))) as (_ & Hcl & _). specialize (Hcl a ltac:(left)).
    rewrite !elem_of_app in Hcl. simpl in Hcl.
    set (V2 := CView (cv_keys V) (if cv_cb V then <[a := (value lf, ref_count lf - 1)]> (cv_elems V) else cv_elems V)
                (cv_freed V) (cv_cb V)) in *.
    assert (cok s2 (CPlace L N DN DL ZL [] []) V2 true n base) as HI2.
    { destruct HI1 as [[Ht [] [La Lc Ll Lv Lp Lz] [] []] [Vk Ve Vf Vc]]. simpl in *. constructor.
      - constructor; [exact Ht|by constructor| |by constructor|by constructor]. constructor; try done.
        + simpl. rewrite Hpl. simpl. rewrite <- !Permutation_middle. rewrite <- !Permutation_middle in La. done.
        + simpl. by rewrite length_insert.
        + intros b x Hb Hin. rewrite Hpl in Hin. simpl. apply elem_of_cons in Hin as [->|Hin]; [|by apply (Lp b)].
          simpl in Hb. simplify_eq. by rewrite Ec.
      - constructor; try done. intros b. simpl cv_elems. rewrite Evc. destruct (decide (b = a)) as [->|Hne].
        + rewrite (celem_removed s2 _ a lf1); [|done|simpl; tauto|rewrite elem_of_app, Hpl; left; left]. simpl. rewrite Ec.
          destruct (cb_free_leaf (c_crit s)) eqn:Ecb; simpl.
          * destruct (Hf eq_refl) as [-> ->]. rewrite lookup_insert_eq. destruct Hok as [_ Hok]. destruct (Hok eq_refl) as [Hr _].
            unfold refs_ok in Hr. by rewrite Z.geb_leb, (proj2 (Z.leb_le _ _)) by lia.
          * rewrite Ve. apply celem_none; [simpl; tauto|rewrite elem_of_app; simpl; tauto].
        + transitivity (cv_elems V !! b); [destruct (cb_free_leaf (c_crit s)); [by rewrite lookup_insert_ne|done]|].
          rewrite Ve. symmetry. apply celem_same; try done. rewrite !elem_of_app, Hpl, elem_of_cons. simpl. tauto. }
    apply wp_bind, (wp_crit_unlock s2 _ V2 n base _ HI2). intros s3 HI3. wp_step. apply HQ. by do 5 eexists. }
  rewrite <- Evc in *. destruct (cv_cb V) eqn:Ecb.
  - apply wp_bind, (wp_update_leaf a _ lf); [done|]. apply wp_bind.
    eapply wp_update_leaf; [apply put_leaf_lookup|rewrite put_put_leaf]. wp_step.
    apply (Hend _ (with_value 0 (with_to_be_freed (value lf) lf))); try done.
    + apply cok_put_new; [done|left].
    + apply put_leaf_lookup.
    + destruct Hok as [Hp Hc]. destruct (Hc eq_refl) as [? ?]. split; [done|]. intros _. split; [done|]. by left.
  - wp_step. apply (Hend s lf); try done. destruct Hok as [Hp _]. by split.
Qed.

(** ** [critnib_remove] *)

(** What it returns and leaves behind. *)
Inductive remove_post V (k : Z) (n : Z) (base : gmap Z string) : Z * option Z -> cstate H -> Prop :=
| remove_absent s' : cv_keys V !! k = None -> crest s' V n base -> remove_post V k n base (0, None) s'
| remove_found s' a v r :
    cv_keys V !! k = Some a -> cv_elems V !! a = Some (v, r) -> crest s' (cv_remove V k a v r) n base ->
    remove_post V k n base (v, if cv_cb V then Some a else None) s'.

Lemma view_absent s G V k : view_of s G V -> (forall x, x ∈ g_keys G -> x.1 <> k) -> cv_keys V !! k = None.
Proof.
  intros HV Hu. destruct (cv_keys V !! k) as [a|] eqn:E; [|done]. apply (vo_keys _ _ _ HV) in E. by apply Hu in E.
Qed.

Lemma wp_not_found s L N DN DL ZL V k n base :
  cok s (CPlace L N DN DL ZL [] []) V true n base -> (forall x, x ∈ L -> x.1 <> k) ->
  wp not_found (remove_post V k n base) s.
Proof.
  intros HI Hu. unfold not_found. apply wp_bind, (wp_crit_unlock s _ V n base _ HI). intros s1 HI1. wp_step.
  apply remove_absent; [|by do 5 eexists]. by apply (view_absent s _ V k (ok_view _ _ _ _ _ _ HI)).
Qed.

(** The leaf [a] of [k] has left the tree: the rest of the call. *)
Lemma wp_remove_end s0 s L N DN DL ZL L2 N2 V k n base del a lf :
  cok s0 (CPlace L N DN DL ZL [] []) V true n base -> (k, a) ∈ L -> c_leaves s0 !! a = Some lf ->
  cok s (CPlace L2 N2 DN DL ZL [] [a]) (cv_unlink V k a) true n base -> c_leaves s = c_leaves s0 ->
  cb_free_leaf (c_crit s) = cb_free_leaf (c_crit s0) ->
  pending_del_leaves (c_crit s) !! del = Some None -> wp (del_leaf del a) (remove_post V k n base) s.
Proof.
  intros HI0 Hka Hlf HI El Ecb Hdel.
  destruct (view_elem_live s0 _ _ _ _ _ _ _ _ _ _ _ k a HI0 Hka) as (lf' & Hlf' & _ & Hok & Hev). simplify_eq.
  assert (cv_keys V !! k = Some a) as Hk by (by apply (vo_keys _ _ _ (ok_view _ _ _ _ _ _ HI0))).
  apply (wp_del_leaf s L2 N2 DN DL ZL (cv_unlink V k a) n base del a lf); [done|by rewrite El|by rewrite Ecb|done|].
  intros s' Hrest. apply (remove_found _ _ _ _ _ a _ _ Hk Hev). unfold cv_remove. simpl in Hrest.
  destruct (cv_cb V); [|done]. rewrite insert_delete_eq in Hrest. unfold LEAF_VALID.
  by replace (ref_count lf - 2 + 1) with (ref_count lf - 1) by lia.
Qed.

Lemma wp_remove_unlink s L N DN DL ZL V k n base del p a sl lf :
  cok s (CPlace L N DN DL ZL [] []) V true n base -> found s k 16 (root (c_crit s)) L N SRoot p a sl ->
  (k, a) ∈ L -> c_leaves s !! a = Some lf -> 
  pending_del_nodes (c_crit s) !! del = Some None -> pending_del_leaves (c_crit s) !! del = Some None ->
  wp (nd ← load_node p;
      _ ← store_child p (slice_index k (shift nd)) NNull;
      nd ← load_node p;
      match only_child (child nd) 0 None with
      | None => del_leaf del a
      | Some None => undef
      | Some (Some i) =>
        o ← of_option (child nd !! i);
        _ ← store_slot sl o;
        _ ← modify (with_crit (set_pending_node del (Some p)));
        del_leaf del a
      end) (remove_post V k n base) s.
Proof.
  intros HI Hfd Hka Hlf Hpn Hpk. pose proof (ci_tree _ _ _ _ _ (ok_inv _ _ _ _ _ _ HI)) as Ht. simpl in Ht.
  pose proof (tree_NoDup _ _ _ _ _ (ok_inv _ _ _ _ _ _ HI)) as HndN. simpl in HndN.
  destruct (found_slot s k L N p a sl Ht Hfd) as (j & nd & cs & hf & pre & Nn & Lo & N1 & HS & Hj & Hn & Hch).
  pose proof (slot_disjoint _ _ _ _ _ _ _ _ _ _ _ HS HndN) as Hdis. pose proof (nr_node _ _ _ _ _ _ _ Hn) as Hp.
  set (i := slice_index k (shift nd)) in *. pose proof (sa_nodes _ _ _ _ _ _ _ _ _ _ _ HS) as HNs.
  assert (NoDup Nn) as HndNn by (rewrite HNs in HndN; by apply NoDup_app in HndN as (_ & _ & ?)).
  pose proof (nr_nodes _ _ _ _ _ _ _ Hn) as HNn. assert (p ∈ Nn) as HpN by (rewrite HNn; left).
  assert (p ∉ part_nodes cs) as Hpcs by (rewrite HNn in HndNn; by apply NoDup_cons in HndNn as [? _]).
  apply wp_bind, (wp_load_node p nd); [done|].
  apply wp_bind, (wp_store_child p i NNull nd); [done|by eapply lookup_lt_Some|].
  set (nd' := with_child i NNull nd). set (s1 := put_node p nd' s). set (cs' := <[i := ([], [])]> cs).
  assert (relinked s s1 [p]) as Hrl1 by (apply (relinked_put s p nd); [done|simpl; by rewrite length_insert]).
  assert (forall b, b ∈ N1 -> c_nodes s1 !! b = c_nodes s !! b) as Hk1.
  { intros b Hb. apply (rl_nodes _ _ _ Hrl1). intros ->%list_elem_of_singleton. by apply (Hdis p). }
  assert (forall b, b ∈ part_nodes cs -> c_nodes s1 !! b = c_nodes s !! b) as Hkn.
  { intros b Hb. apply (rl_nodes _ _ _ Hrl1). by intros ->%list_elem_of_singleton. }
  destruct (unlinked_keys _ _ j p nd cs Nn i a Hn Hch) as (k' & Hk' & Hkeys). fold cs' in Hkeys.
  assert (forall x, x ∈ part_keys cs' -> x ∈ part_keys cs) as Hsub by (intros x Hx; rewrite Hkeys; by right).
  assert (k' = k) as ->.
  { destruct (crep_key _ _ _ _ _ _ _ Ht Hka) as [E _]. simpl in E. congruence. }
  assert (forall b, b ∈ p :: N1 -> b ∈ N) as HinN by (intros b; rewrite HNs, elem_of_app, elem_of_cons; naive_solver).
  apply wp_bind, (wp_load_node p nd'); [apply put_node_lookup|]. destruct (only_child (child nd') 0 None) as [[o|]|] eqn:Eo.
  - destruct (unlinked_collapses _ _ j p nd cs Nn i a Hn Hch o Eo) as (q & Hq & Hqn & Hr).
    fold nd' in Hq. wp_step; [exact Hq|]. fold cs' in Hr.
    destruct (sa_plug _ _ _ _ _ _ _ _ _ _ _ HS s1 q (part_keys cs') (part_nodes cs)) as (s2 & L2 & Hwp & Hrl2 & Ht2 & HL2); try done.
    { apply (crep_mono _ _ j); [lia|]. by apply (crep_frame (c_nodes s) (leaf_keys s)). }
    { intros b Hb Hin. apply (sa_node _ _ _ _ _ _ _ _ _ _ _ HS) in Hb. apply (Hdis b Hb). rewrite HNn. by right. }
    { intros x Hx. apply (sa_pre _ _ _ _ _ _ _ _ _ _ _ HS). by apply Hsub. }
    apply wp_bind, Hwp. wp_step. pose proof (relinked_trans _ _ _ _ _ Hrl1 Hrl2) as Hrl.
    assert (cok s2 (CPlace L2 (N1 ++ part_nodes cs) DN DL ZL [p] [a]) (cv_unlink V k a) true n base) as HI2.
    { apply (cok_unlinked s s2 L N DN DL ZL L2 ([p] ++ N1)); try done.
      - rewrite HNs, HNn, <- app_assoc. by rewrite <- Permutation_cons_append.
      - by rewrite (sa_keys _ _ _ _ _ _ _ _ _ _ _ HS), Hkeys, HL2. }
    apply (cok_pend_node _ _ _ _ _ _ _ _ _ _ del) in HI2; [|by rewrite (rl_crit _ _ _ Hrl)].
    apply (wp_remove_end s _ L N DN DL ZL L2 (N1 ++ part_nodes cs) V k n base del a lf); try done; simpl.
    + apply (rl_leaves _ _ _ Hrl).
    + by rewrite (rl_crit _ _ _ Hrl).
    + by rewrite (rl_crit _ _ _ Hrl).
  - by apply (unlinked_some _ _ j p nd cs Nn i a Hn Hch) in Eo.
  - destruct (sa_keep _ _ _ _ _ _ _ _ _ _ _ HS s1 (part_keys cs') Nn) as (L2 & Ht2 & HL2); try done.
    { apply (crep_mono _ _ (S j)); [lia|]. apply (unlinked_stays _ _ j p nd cs Nn i a Hn Hch); try done. apply put_node_lookup. }
    { intros x Hx. apply (sa_pre _ _ _ _ _ _ _ _ _ _ _ HS). by apply Hsub. }
    assert (cok s1 (CPlace L2 (N1 ++ Nn) DN DL ZL [] [a]) (cv_unlink V k a) true n base) as HI2.
    { apply (cok_unlinked s s1 L N DN DL ZL L2 [p]); try done.
      - intros b ->%list_elem_of_singleton. apply HinN. left.
      - by rewrite app_nil_r.
      - by rewrite (sa_keys _ _ _ _ _ _ _ _ _ _ _ HS), Hkeys, HL2. }
    by apply (wp_remove_end s _ L N DN DL ZL L2 (N1 ++ Nn) V k n base del a lf).
Qed.

Lemma cok_remove_count s G V n base rc :
  cok s G V true n base -> 0 <= rc <= n -> cok (with_crit (set_remove_count rc) s) G V true n base.
Proof. intros [[Ht [] [] [] []] []] Hrc. by constructor; [constructor; [exact Ht|constructor..]|constructor]. Qed.

(** The root is the leaf. *)
Lemma wp_remove_root s L N DN DL ZL V k n base del a :
  cok s (CPlace L N DN DL ZL [] []) V true n base -> root (c_crit s) = NLeaf a ->
  pending_del_leaves (c_crit s) !! del = Some None ->
  wp (lf ← load_leaf a; if key lf =? k then _ ← store_slot SRoot NNull; del_leaf del a else not_found)
    (remove_post V k n base) s.
Proof.
  intros HI Er Hdel. pose proof (ci_tree _ _ _ _ _ (ok_inv _ _ _ _ _ _ HI)) as Ht. simpl in Ht. rewrite Er in Ht.
  apply crep_leaf in Ht as (kk & Ha & Hu & -> & ->). apply leaf_keys_lookup in Ha as (lf & Hlf & Hkk).
  apply wp_bind, (wp_load_leaf a lf); [done|]. rewrite Hkk. destruct (Z.eqb_spec kk k) as [->|Hne].
  - simpl. apply wp_bind. wp_step.
    assert (relinked s (with_crit (set_root NNull) s) []) as Hrl by (by constructor).
    apply (wp_remove_end s _ [(k, a)] [] DN DL ZL [] [] V k n base del a lf); try done; [left|].
    apply (cok_unlinked s _ [(k, a)] [] DN DL ZL [] []); try done. by apply crep_null.
  - apply (wp_not_found s [(kk, a)] [] DN DL ZL V k n base HI). by intros x ->%list_elem_of_singleton.
Qed.

Lemma wp_critnib_remove s V k ref n base :
  crest s V n base -> 0 <= n -> n + 1 < two64 -> cv_cb V && negb ref = false ->
  wp (critnib_remove k ref) (remove_post V k (n + 1) base) s.
Proof.
  intros (L & N & DN & DL & ZL & HI) Hn0 Hn64 Hguard. apply (cok_mono _ _ _ _ _ (n + 1)) in HI as HI'; [|lia].
  pose proof (vo_cb _ _ _ (ok_view _ _ _ _ _ _ HI)) as Ecb.
  pose proof (ct_count _ _ _ (ci_ctl _ _ _ _ _ (ok_inv _ _ _ _ _ _ HI))) as Hrc.
  unfold critnib_remove. wp_step. rewrite <- Ecb, Hguard.
  apply wp_bind, (wp_crit_lock s _ V (n + 1) base _ HI'). intros s1 HI1 Ec1. wp_step.
  destruct (decide (root (c_crit s1) = NNull)) as [Er|Hne].
  { rewrite Er. apply (wp_not_found s1 L N DN DL ZL V k (n + 1) base HI1).
    pose proof (ci_tree _ _ _ _ _ (ok_inv _ _ _ _ _ _ HI1)) as Ht. rewrite Er in Ht. apply crep_null in Ht as [E _].
    simpl in E. rewrite E. by intros x ?%elem_of_nil. }
  assert (remove_count (c_crit s1) = remove_count (c_crit s)) as Erc by (by rewrite Ec1).
  assert (add64 (remove_count (c_crit s1)) 1 = remove_count (c_crit s) + 1) as Eadd by (rewrite Erc; apply add64_small; unfold is_u64; lia).
  rewrite Eadd. set (rc := remove_count (c_crit s) + 1). set (del := Z.to_nat (sub64 rc 1 mod DELETED_LIFE)).
  assert (del < 16)%nat as Hdel.
  { unfold del, DELETED_LIFE. pose proof (Z.mod_pos_bound (sub64 rc 1) 16). lia. }
  pose proof (cok_remove_count s1 _ V (n + 1) base rc HI1 ltac:(lia)) as HI2. set (s2 := with_crit (set_remove_count rc) s1) in *.
  destruct (lookup_lt_is_Some_2 (pending_del_nodes (c_crit s1)) del) as [pn Hpn].
  { by rewrite (ni_pend _ _ (ci_node _ _ _ _ _ (ok_inv _ _ _ _ _ _ HI1))). }
  destruct (lookup_lt_is_Some_2 (pending_del_leaves (c_crit s1)) del) as [pk Hpk].
  { by rewrite (li_len _ _ _ (ci_leaf _ _ _ _ _ (ok_inv _ _ _ _ _ _ HI1))). }
  assert (forall K : M (cstate H) (Z * option Z), 
    (forall s' DN' DL' ZL', cok s' (CPlace L N DN' DL' ZL' [] []) V true (n + 1) base ->
      root (c_crit s') = root (c_crit s1) -> pending_del_nodes (c_crit s') !! del = Some None ->
      pending_del_leaves (c_crit s') !! del = Some None -> wp K (remove_post V k (n + 1) base) s') ->
    wp (_ ← modify (with_crit (set_remove_count rc));
        pn ← of_option (pending_del_nodes (c_crit s1) !! del);
        _ ← free_node pn; pk' ← of_option (pending_del_leaves (c_crit s1) !! del); _ ← free_leaf pk';
        _ ← modify (with_crit (set_pending_node del None)); _ ← modify (with_crit (set_pending_leaf del None)); K)
      (remove_post V k (n + 1) base) s1) as Hret.
  { intros K HK. wp_step. wp_step; [exact Hpn|]. by apply (wp_retire s2 L N DN DL ZL [] [] V (n + 1) base del pn pk). }
  destruct (root (c_crit s1)) as [|r|r] eqn:Er; [done| |].
  - apply Hret. intros s3 DN' DL' ZL' HI3 Er3 Hn3 Hl3.
    pose proof (ci_tree _ _ _ _ _ (ok_inv _ _ _ _ _ _ HI3)) as Ht. simpl in Ht.
    rewrite Er3 in Ht. apply wp_bind. apply (wp_remove_walk 16 _ k r L N); [done| |unfold max_height; lia|..].
    + apply (tree_NoDup _ _ _ _ _ (ok_inv _ _ _ _ _ _ HI3)).
    + intros Hu. by apply (wp_not_found s3 L N DN' DL' ZL' V k).
    + intros m a sl Hfd (kk & Hkk & Hu).
      destruct (view_elem_live s3 _ _ _ _ _ _ _ _ _ _ _ kk a HI3 Hkk) as (lf & Hlf & Ekk & _).
      apply wp_bind, (wp_load_leaf a lf); [done|]. rewrite Ekk. destruct (Z.eqb_spec kk k) as [->|Hnk]; simpl negb; cbv iota.
      * rewrite <- Er3 in Hfd. by apply (wp_remove_unlink s3 L N DN' DL' ZL' V k (n + 1) base del m a sl lf).
      * apply (wp_not_found s3 L N DN' DL' ZL' V k); [done|]. intros x Hx E. apply Hnk. by rewrite <- E, (Hu x Hx E).
  - apply Hret. intros s3 DN' DL' ZL' HI3 Er3 Hn3 Hl3. by apply (wp_remove_root s3 L N DN' DL' ZL').
Qed.

(** A guarded call does nothing. *)
Lemma critnib_remove_guard s k : cb_free_leaf (c_crit s) = true -> critnib_remove k false s = Some ((0, None), s).
Proof. intros E. unfold critnib_remove, mbind, M_bind, get. by rewrite E. Qed.
End Remove.
