(* ===== verification/CritQuery.v ===== *)
(** * The queries of the critnib and [critnib_release]

    [critnib_get], [critnib_find_le] and [critnib_find] take a reference of
    the leaf they return; [critnib_release] gives it back.

    [critnib_release] and [critnib_remove_release]: giving back a reference: of a leaf in the tree, of a removed leaf that
    still has others, and the last one of a removed leaf. *)

From S2P Require Import Prelude Utils HostMem CritRep CritIns CritInv CritHeap CritInsert.
From S2P Require Import CritRemove.
From stdpp Require Import list sorting strings.
From S2P Require Import Critnib.
#[local] Open Scope Z_scope.

#[local] Opaque crep.

(** ** Extremal keys *)

(** The leaf with the greatest key up to [k], the one with the least key from
    [k] on, and the one with the key [k]. *)
Definition best_le (m : gmap Z Z) (k : Z) (o : option (Z * Z)) : Prop :=
  match o with
  | None => forall k' a, m !! k' = Some a -> k < k'
  | Some (k0, a0) => m !! k0 = Some a0 /\ k0 <= k /\ forall k' a, m !! k' = Some a -> k' <= k -> k' <= k0
  end.
Definition best_ge (m : gmap Z Z) (k : Z) (o : option (Z * Z)) : Prop :=
  match o with
  | None => forall k' a, m !! k' = Some a -> k' < k
  | Some (k0, a0) => m !! k0 = Some a0 /\ k <= k0 /\ forall k' a, m !! k' = Some a -> k <= k' -> k0 <= k'
  end.
Definition exact_eq (m : gmap Z Z) (k : Z) (o : option (Z * Z)) : Prop := o = (fun a => (k, a)) <$> m !! k.

Lemma last_sorted (l : leaf_list) y x : StronglySorted Z.lt (l.*1) -> list.last l = Some y -> x ∈ l -> x.1 <= y.1.
Proof.
  destruct l as [|z l] using rev_ind; [done|]. rewrite fmap_app, StronglySorted_app, last_snoc. intros (Hlt & _ & _) [= ->].
  rewrite elem_of_app, list_elem_of_singleton. intros [Hx| ->]; [|lia].
  assert (x.1 < y.1); [|lia]. apply Hlt; [apply list_elem_of_fmap; by exists x|left].
Qed.

Lemma head_sorted (l : leaf_list) y x : StronglySorted Z.lt (l.*1) -> head l = Some y -> x ∈ l -> y.1 <= x.1.
Proof.
  destruct l as [|z l]; [done|]. intros [_ HF]%StronglySorted_inv [= ->]. rewrite elem_of_cons. intros [->|Hx]; [lia|].
  rewrite list.Forall_forall in HF. assert (y.1 < x.1); [|lia]. apply HF, list_elem_of_fmap. by exists x.
Qed.

Lemma keys_filter_sorted (P : Z * Z -> Prop) `{!forall x, Decision (P x)} (l : leaf_list) :
  StronglySorted Z.lt (l.*1) -> StronglySorted Z.lt ((filter P l).*1).
Proof.
  induction l as [|z l IH]; [done|]. intros [Hs HF]%StronglySorted_inv. rewrite filter_cons. destruct (decide (P z)); [|by apply IH].
  simpl. constructor; [by apply IH|]. rewrite list.Forall_forall in HF |- *. intros x (y & -> & Hy)%list_elem_of_fmap.
  apply list_elem_of_filter in Hy as [_ Hy]. apply HF, list_elem_of_fmap. by exists y.
Qed.

Section Best.
Context `{HostAlloc H}.
Implicit Types (s : cstate H) (G : cplace) (V : cview).

Lemma le_leaf_spec s G V held n base k :
  cok s G V held n base ->
  match le_leaf k (g_keys G) with
  | None => best_le (cv_keys V) k None
  | Some a => exists k0, (k0, a) ∈ g_keys G /\ best_le (cv_keys V) k (Some (k0, a))
  end.
Proof.
  intros [HI HV]. pose proof (crep_sorted _ _ _ _ _ _ (ci_tree _ _ _ _ _ HI)) as Hs.
  pose proof (keys_filter_sorted (fun x => x.1 <= k) _ Hs) as Hf. unfold le_leaf.
  destruct (list.last (filter (fun x => x.1 <= k) (g_keys G))) as [[k0 a]|] eqn:E; simpl.
  - assert ((k0, a) ∈ filter (fun x => x.1 <= k) (g_keys G)) as Hin by (by apply last_Some_elem_of).
    apply list_elem_of_filter in Hin as [Hle Hin]. exists k0. simpl in Hle. split_and!; [done|by apply (vo_keys _ _ _ HV)|done|].
    intros k' b Hb Hk'. apply (vo_keys _ _ _ HV) in Hb.
    apply (last_sorted _ (k0, a) (k', b) Hf E). by apply list_elem_of_filter.
  - apply last_None in E. intros k' b Hb. apply (vo_keys _ _ _ HV) in Hb. destruct (Z.lt_ge_cases k k'); [done|].
    assert ((k', b) ∈ filter (fun x => x.1 <= k) (g_keys G)) as Hin by (by apply list_elem_of_filter).
    rewrite E in Hin. by apply elem_of_nil in Hin.
Qed.

Lemma ge_leaf_spec s G V held n base k :
  cok s G V held n base ->
  match ge_leaf k (g_keys G) with
  | None => best_ge (cv_keys V) k None
  | Some a => exists k0, (k0, a) ∈ g_keys G /\ best_ge (cv_keys V) k (Some (k0, a))
  end.
Proof.
  intros [HI HV]. pose proof (crep_sorted _ _ _ _ _ _ (ci_tree _ _ _ _ _ HI)) as Hs.
  pose proof (keys_filter_sorted (fun x => k <= x.1) _ Hs) as Hf. unfold ge_leaf.
  destruct (head (filter (fun x => k <= x.1) (g_keys G))) as [[k0 a]|] eqn:E; simpl.
  - assert ((k0, a) ∈ filter (fun x => k <= x.1) (g_keys G)) as Hin by (by apply head_Some_elem_of).
    apply list_elem_of_filter in Hin as [Hle Hin]. exists k0. simpl in Hle. split_and!; [done|by apply (vo_keys _ _ _ HV)|done|].
    intros k' b Hb Hk'. apply (vo_keys _ _ _ HV) in Hb.
    apply (head_sorted _ (k0, a) (k', b) Hf E). by apply list_elem_of_filter.
  - apply head_None in E. intros k' b Hb. apply (vo_keys _ _ _ HV) in Hb. destruct (Z.lt_ge_cases k' k); [done|].
    assert ((k', b) ∈ filter (fun x => k <= x.1) (g_keys G)) as Hin by (by apply list_elem_of_filter).
    rewrite E in Hin. by apply elem_of_nil in Hin.
Qed.
End Best.

(** One more reference of the leaf [a]. *)
Definition cv_ref (V : cview) (a v r : Z) : cview :=
  if cv_cb V then CView (cv_keys V) (<[a := (v, r + 1)]> (cv_elems V)) (cv_freed V) (cv_cb V) else V.

(** The leaf [a] is in the tree. *)
Definition cv_linked (V : cview) (a : Z) : Prop := map_Exists (fun _ b => b = a) (cv_keys V).

(** One reference less; the last one of a removed leaf frees its value. *)
Definition cv_release (V : cview) (a v r : Z) : cview :=
  if decide (r = 1 /\ ~ cv_linked V a)
  then CView (cv_keys V) (delete a (cv_elems V)) (cv_freed V ++ [v]) (cv_cb V)
  else CView (cv_keys V) (<[a := (v, r - 1)]> (cv_elems V)) (cv_freed V) (cv_cb V).

Section Query.
Context `{HostAllocLaws H}.
Implicit Types (s : cstate H) (G : cplace) (V : cview).

(** What a query for a leaf returns and leaves behind. *)
Inductive query_post V (n : Z) (base : gmap Z string) : option Z -> Z * option Z -> cstate H -> Prop :=
| query_none s' : crest s' V n base -> query_post V n base None (0, None) s'
| query_some s' a v r :
    cv_elems V !! a = Some (v, r) -> crest s' (cv_ref V a v r) n base ->
    query_post V n base (Some a) (v, if cv_cb V then Some a else None) s'.

Lemma wp_check_restart s G V n base (Q : unit -> cstate H -> Prop) :
  cok s G V false n base -> n + DELETED_LIFE < two64 -> Q tt s -> wp (check_restart (remove_count (c_crit s))) Q s.
Proof.
  intros HI Hn HQ. unfold check_restart. wp_step. pose proof (ct_count _ _ _ (ci_ctl _ _ _ _ _ (ok_inv _ _ _ _ _ _ HI))) as Hc.
  unfold DELETED_LIFE in *. rewrite add64_small by (unfold is_u64; lia). apply wp_c_assert; [|done].
  apply negb_true_iff, Z.leb_gt. lia.
Qed.

(** [increment_ref_count] on a leaf of the tree. *)
Lemma wp_increment s L N DN DL ZL V n base k a v r (Q : Z -> cstate H -> Prop) :
  cok s (CPlace L N DN DL ZL [] []) V false n base -> (k, a) ∈ L -> cv_cb V = true -> cv_elems V !! a = Some (v, r) ->
  0 <= n -> n + 4 < two64 -> (forall s', crest s' (cv_ref V a v r) (n + 1) base -> Q 0 s') ->
  wp (increment_ref_count a) Q s.
Proof.
  intros HI Hka Hcb Hev Hn0 Hn HQ. destruct (view_elem_live s _ _ _ _ _ _ _ _ _ _ _ k a HI Hka) as (lf & Hlf & Ek & Hok & Hev').
  rewrite Hev in Hev'. rewrite Hcb in Hev'. injection Hev' as -> ->.
  pose proof (vo_cb _ _ _ (ok_view _ _ _ _ _ _ HI)) as Ec. rewrite Hcb in Ec. rewrite <- Ec in Hok.
  destruct Hok as [Hp Hr]. destruct (Hr eq_refl) as [Hrf Hvz]. unfold refs_ok, LEAF_VALID in Hrf.
  unfold increment_ref_count. apply wp_bind, (wp_load_leaf a lf); [done|]. unfold LEAF_VALID.
  rewrite (proj2 (Z.ltb_ge _ _)) by lia. apply wp_bind, (wp_update_leaf a _ lf); [done|]. wp_step. apply HQ.
  rewrite add64_small by (unfold is_u64; lia). apply (cok_mono _ _ _ _ _ (n + 1)) in HI; [|lia].
  pose proof (cok_put_live s L N DN DL ZL [] [] V false (n + 1) base k a lf (with_ref_count (ref_count lf + 1) lf) HI Hka Hlf eq_refl) as HI2.
  unfold cv_ref, crest. rewrite Hcb in HI2 |- *. simpl in HI2. unfold LEAF_VALID in *.
  replace (ref_count lf - 2 + 1) with (ref_count lf + 1 - 2) by lia. do 5 eexists. apply HI2.
  split; [done|]. intros _. unfold refs_ok, LEAF_VALID. simpl. split; [lia|done].
Qed.

Lemma wp_take_ref s L N DN DL ZL V n base k a lf :
  cok s (CPlace L N DN DL ZL [] []) V false n base -> (k, a) ∈ L -> c_leaves s !! a = Some lf ->
  0 <= n -> n + 4 < two64 -> wp (take_ref (value lf) (Some a)) (query_post V (n + 1) base (Some a)) s.
Proof.
  intros HI Hka Hlf Hn0 Hn. unfold take_ref. wp_step. rewrite <- (vo_cb _ _ _ (ok_view _ _ _ _ _ _ HI)).
  destruct (view_elem_live s _ _ _ _ _ _ _ _ _ _ _ k a HI Hka) as (lf' & Hlf' & Ek & Hok & Hev). simplify_eq.
  pose proof (query_some V (n + 1) base) as Hq. destruct (cv_cb V) eqn:Ecb; simpl.
  - destruct Hok as [_ Hr]. rewrite <- (vo_cb _ _ _ (ok_view _ _ _ _ _ _ HI)), Ecb in Hr. destruct (Hr eq_refl) as [_ Hvz].
    rewrite (proj2 (Z.eqb_neq _ _)) by done. simpl. wp_step. apply wp_bind.
    apply (wp_increment s L N DN DL ZL V n base (key lf) a _ _ _ HI Hka Ecb Hev Hn0 Hn). intros s' Hs'. simpl. wp_step. by eapply Hq.
  - wp_step. eapply Hq; [done|]. unfold cv_ref. rewrite Ecb. do 5 eexists. apply (cok_mono _ _ _ _ n); [lia|exact HI].
Qed.

Lemma wp_take_none s L N DN DL ZL V n base :
  cok s (CPlace L N DN DL ZL [] []) V false n base -> wp (take_ref 0 None) (query_post V (n + 1) base None) s.
Proof.
  intros HI. unfold take_ref. wp_step. rewrite andb_false_r. wp_step. apply query_none.
  do 5 eexists. apply (cok_mono _ _ _ _ n); [lia|exact HI].
Qed.

(** ** [critnib_get] *)
Lemma wp_critnib_get s V k ref n base :
  crest s V n base -> 0 <= n -> n + DELETED_LIFE < two64 -> cv_cb V && negb ref = false ->
  wp (critnib_get k ref) (query_post V (n + 1) base (cv_keys V !! k)) s.
Proof.
  intros (L & N & DN & DL & ZL & HI) Hn0 Hn Hguard. unfold critnib_get. wp_step.
  rewrite <- (vo_cb _ _ _ (ok_view _ _ _ _ _ _ HI)), Hguard. pose proof (ok_view _ _ _ _ _ _ HI) as HV.
  pose proof (ci_tree _ _ _ _ _ (ok_inv _ _ _ _ _ _ HI)) as Ht. simpl in Ht.
  apply wp_bind, (wp_dive 16 _ k _ L N); [done|unfold max_height; lia|]. intros nn Hd. apply wp_bind.
  assert (forall o, (forall x, x ∈ L -> x.1 <> k) ->
    wp (_ ← check_restart (remove_count (c_crit s)); take_ref 0 o) (query_post V (n + 1) base (cv_keys V !! k)) s) as Hmiss.
  { intros o Hu. apply wp_bind, (wp_check_restart s _ V n base _ HI Hn). rewrite (view_absent s _ V k HV) by done.
    pose proof (wp_take_none s L N DN DL ZL V n base HI) as Hw. unfold take_ref in *. unfold wp, mbind, M_bind, get in *.
    simpl in *. by rewrite andb_false_r in *. }
  destruct nn as [|b|a]; [wp_step|done|].
  - by apply Hmiss.
  - destruct Hd as (kk & Hkk & Hu). destruct (view_elem_live s _ _ _ _ _ _ _ _ _ _ _ kk a HI Hkk) as (lf & Hlf & Ek & _).
    apply wp_bind, (wp_load_leaf a lf); [done|]. rewrite Ek. destruct (Z.eqb_spec kk k) as [->|Hne]; wp_step.
    + apply wp_bind, (wp_check_restart s _ V n base _ HI Hn). rewrite (proj2 (vo_keys _ _ _ HV k a)) by done. unfold DELETED_LIFE in Hn.
      apply (wp_take_ref s L N DN DL ZL V n base k a lf); [done..|lia].
    + apply Hmiss. intros x Hx E. apply Hne. by rewrite <- E, (Hu x Hx E).
Qed.

(** ** [critnib_find_le] *)
Lemma wp_critnib_find_le s V k ref n base :
  crest s V n base -> 0 <= n -> n + DELETED_LIFE < two64 -> cv_cb V && negb ref = false -> is_u64 k ->
  wp (critnib_find_le k ref) (fun r s' => exists o, best_le (cv_keys V) k o /\ query_post V (n + 1) base (snd <$> o) r s') s.
Proof.
  intros (L & N & DN & DL & ZL & HI) Hn0 Hn Hguard Hk. unfold critnib_find_le. wp_step.
  rewrite <- (vo_cb _ _ _ (ok_view _ _ _ _ _ _ HI)), Hguard.
  pose proof (ci_tree _ _ _ _ _ (ok_inv _ _ _ _ _ _ HI)) as Ht. simpl in Ht.
  apply wp_bind, (wp_find_le 16 _ k _ L N); [done|unfold max_height; lia|lia|done|]. apply wp_bind.
  pose proof (le_leaf_spec s _ V false n base k HI) as Hle. simpl in Hle. destruct (le_leaf k L) as [a|].
  - destruct Hle as (k0 & Hin & Hbest). destruct (view_elem_live s _ _ _ _ _ _ _ _ _ _ _ k0 a HI Hin) as (lf & Hlf & _).
    apply wp_bind, (wp_load_leaf a lf); [done|]. wp_step. apply wp_bind, (wp_check_restart s _ V n base _ HI Hn).
    unfold DELETED_LIFE in Hn. eapply wp_mono; [apply (wp_take_ref s L N DN DL ZL V n base k0 a lf); [done..|lia]|].
    intros r s' Hq. by exists (Some (k0, a)).
  - wp_step. apply wp_bind, (wp_check_restart s _ V n base _ HI Hn).
    eapply wp_mono; [apply (wp_take_none s L N DN DL ZL V n base HI)|]. intros r s' Hq. by exists None.
Qed.

(** ** [critnib_find] *)

(** The leaf that [critnib_find] looks for. *)
Definition find_spec (m : gmap Z Z) (k dir : Z) (o : option (Z * Z)) : Prop :=
  if dir <? -1 then (if k =? 0 then o = None else best_le m (k - 1) o)
  else if dir >? 1 then (if k =? SIZE_MAX then o = None else best_ge m (k + 1) o)
  else if dir <? 0 then best_le m k o
  else if dir >? 0 then best_ge m k o
  else exact_eq m k o.

Inductive find_post V (n : Z) (base : gmap Z string) : option (Z * Z) -> option (Z * Z * option Z) -> cstate H -> Prop :=
| find_none s' : crest s' V n base -> find_post V n base None None s'
| find_some s' k a v r :
    cv_elems V !! a = Some (v, r) -> crest s' (cv_ref V a v r) n base ->
    find_post V n base (Some (k, a)) (Some (k, v, if cv_cb V then Some a else None)) s'.

(** The end of [critnib_find], after the search has returned [kl]. *)
Lemma wp_find_end s L N DN DL ZL V n base o kl :
  cok s (CPlace L N DN DL ZL [] []) V false n base -> 0 <= n -> n + DELETED_LIFE < two64 ->
  kl = snd <$> o -> (forall x, o = Some x -> x ∈ L) ->
  wp (r ← match kl with Some a => lf ← load_leaf a; mret (key lf, value lf) | None => mret (0, 0) end;
      _ ← check_restart (remove_count (c_crit s));
      match kl with
      | None => mret None
      | Some a =>
        if cb_free_leaf (c_crit s) then
          e ← increment_ref_count a;
          if negb (e =? 0) then mret None else mret (Some (r, Some a))
        else mret (Some (r, None))
      end) (find_post V (n + 1) base o) s.
Proof.
  intros HI Hn0 Hn -> Ho. rewrite <- (vo_cb _ _ _ (ok_view _ _ _ _ _ _ HI)).
  pose proof (cok_mono _ _ _ _ n (n + 1) base ltac:(lia) HI) as HI1. destruct o as [[k a]|]; simpl.
  - specialize (Ho (k, a) eq_refl). destruct (view_elem_live s _ _ _ _ _ _ _ _ _ _ _ k a HI Ho) as (lf & Hlf & Ek & Hok & Hev).
    apply wp_bind, wp_bind, (wp_load_leaf a lf); [done|]. wp_step. apply wp_bind, (wp_check_restart s _ V n base _ HI Hn).
    rewrite Ek. pose proof (find_some V (n + 1) base) as Hq. destruct (cv_cb V) eqn:Ecb.
    + apply wp_bind. unfold DELETED_LIFE in Hn.
      apply (wp_increment s L N DN DL ZL V n base k a (value lf) (ref_count lf - LEAF_VALID)); [done|done|done|done|done|lia|].
      intros s' Hs'. simpl. wp_step. by eapply Hq.
    + wp_step. eapply Hq; [done|]. unfold cv_ref. rewrite Ecb. by do 5 eexists.
  - apply wp_bind. wp_step. apply wp_bind, (wp_check_restart s _ V n base _ HI Hn). wp_step. apply find_none. by do 5 eexists.
Qed.

(** The searches of [find_le] and [find_ge]. *)
Lemma wp_search_le s L N DN DL ZL V n base k (K : option Z -> M (cstate H) (option (Z * Z * option Z))) Q :
  cok s (CPlace L N DN DL ZL [] []) V false n base -> is_u64 k ->
  (forall o, best_le (cv_keys V) k o -> (forall x, o = Some x -> x ∈ L) -> wp (K (snd <$> o)) Q s) ->
  wp (kl ← find_le max_height (root (c_crit s)) k; K kl) Q s.
Proof.
  intros HI Hk HQ. pose proof (ci_tree _ _ _ _ _ (ok_inv _ _ _ _ _ _ HI)) as Ht. simpl in Ht.
  apply wp_bind, (wp_find_le 16 _ k _ L N); [done|unfold max_height; lia|lia|done|].
  pose proof (le_leaf_spec s _ V false n base k HI) as Hl. simpl in Hl. destruct (le_leaf k L) as [a|].
  - destruct Hl as (k0 & Hin & Hb). apply (HQ (Some (k0, a)) Hb). by intros x [= <-].
  - by apply (HQ None Hl).
Qed.

Lemma wp_search_ge s L N DN DL ZL V n base k (K : option Z -> M (cstate H) (option (Z * Z * option Z))) Q :
  cok s (CPlace L N DN DL ZL [] []) V false n base -> is_u64 k ->
  (forall o, best_ge (cv_keys V) k o -> (forall x, o = Some x -> x ∈ L) -> wp (K (snd <$> o)) Q s) ->
  wp (kl ← find_ge max_height (root (c_crit s)) k; K kl) Q s.
Proof.
  intros HI Hk HQ. pose proof (ci_tree _ _ _ _ _ (ok_inv _ _ _ _ _ _ HI)) as Ht. simpl in Ht.
  apply wp_bind, (wp_find_ge 16 _ k _ L N); [done|unfold max_height; lia|lia|done|].
  pose proof (ge_leaf_spec s _ V false n base k HI) as Hl. simpl in Hl. destruct (ge_leaf k L) as [a|].
  - destruct Hl as (k0 & Hin & Hb). apply (HQ (Some (k0, a)) Hb). by intros x [= <-].
  - by apply (HQ None Hl).
Qed.

Lemma wp_critnib_find s V k dir ref n base :
  crest s V n base -> 0 <= n -> n + DELETED_LIFE < two64 -> cv_cb V && negb ref = false -> is_u64 k ->
  (dir = 0 -> is_Some (cv_keys V !! k)) ->
  wp (critnib_find k dir ref) (fun r s' => exists o, find_spec (cv_keys V) k dir o /\ find_post V (n + 1) base o r s') s.
Proof.
  intros (L & N & DN & DL & ZL & HI) Hn0 Hn Hguard Hk Hpres. unfold critnib_find. wp_step.
  rewrite <- (vo_cb _ _ _ (ok_view _ _ _ _ _ _ HI)), Hguard. unfold find_spec.
  assert (crest s V (n + 1) base) as Hrest by (do 5 eexists; apply (cok_mono _ _ _ _ n); [lia|exact HI]).
  pose proof (ci_tree _ _ _ _ _ (ok_inv _ _ _ _ _ _ HI)) as Ht. simpl in Ht.
  pose proof (fun o kl => wp_find_end s L N DN DL ZL V n base o kl HI Hn0 Hn) as Hend.
  rewrite <- (vo_cb _ _ _ (ok_view _ _ _ _ _ _ HI)) in Hend.
  pose proof (fun k K Q => wp_search_le s L N DN DL ZL V n base k K Q HI) as Hle.
  pose proof (fun k K Q => wp_search_ge s L N DN DL ZL V n base k K Q HI) as Hge.
  unfold SIZE_MAX, is_u64, two64 in *.
  destruct (Z.ltb_spec dir (-1)) as [Hd|Hd]; simpl andb.
  { destruct (Z.eqb_spec k 0); [wp_step; exists None; split; [done|by constructor]|].
    rewrite (Z.gtb_ltb dir 1), (proj2 (Z.ltb_ge 1 dir)), (proj2 (Z.ltb_lt dir 0)) by lia. simpl andb. cbv iota.
    apply Hle; [lia|]. intros o Hb Ho. eapply wp_mono; [by apply (Hend o)|]. intros r s' Hp. by exists o. }
  destruct (dir >? 1) eqn:Hg; simpl andb.
  { apply Z.gtb_lt in Hg. destruct (Z.eqb_spec k 18446744073709551615); [wp_step; exists None; split; [done|by constructor]|].
    rewrite (proj2 (Z.ltb_ge dir 0)), (proj2 (Z.gtb_lt dir 0)) by lia.
    apply Hge; [lia|]. intros o Hb Ho. eapply wp_mono; [by apply (Hend o)|]. intros r s' Hp. by exists o. }
  destruct (Z.ltb_spec dir 0).
  { apply Hle; [lia|]. intros o Hb Ho. eapply wp_mono; [by apply (Hend o)|]. intros r s' Hp. by exists o. }
  destruct (dir >? 0) eqn:Hg0.
  { apply Hge; [lia|]. intros o Hb Ho. eapply wp_mono; [by apply (Hend o)|]. intros r s' Hp. by exists o. }
  rewrite Z.gtb_ltb, Z.ltb_ge in Hg0. destruct (Hpres ltac:(lia)) as [a Ha].
  pose proof (proj1 (vo_keys _ _ _ (ok_view _ _ _ _ _ _ HI) k a) Ha) as Hin. simpl in Hin.
  unfold find_eq. apply wp_bind, wp_bind, (wp_dive 16 _ k _ L N); [done|unfold max_height; lia|]. intros nn Hd'.
  destruct nn as [|b|b]; [by destruct (Hd' _ Hin)|done|]. destruct Hd' as (kk & _ & Hu). specialize (Hu _ Hin eq_refl). injection Hu as <- <-.
  destruct (view_elem_live s _ _ _ _ _ _ _ _ _ _ _ k a HI Hin) as (lf & Hlf & Ek & _).
  wp_step; [reflexivity|]. apply wp_bind, (wp_load_leaf a lf); [done|]. wp_step. rewrite Ek, Z.eqb_refl.
  eapply wp_mono; [apply (Hend (Some (k, a)) (Some a)); [done|by intros x [= <-]]|]. intros r s' Hp. exists (Some (k, a)).
  split; [|done]. unfold exact_eq. by rewrite Ha.
Qed.
End Query.

#[local] Opaque crep.

Section Release.
Context `{HostAllocLaws H}.
Implicit Types (s : cstate H) (G : cplace) (V : cview).

Lemma linked_spec s G V held n base a : cok s G V held n base -> cv_linked V a <-> a ∈ (g_keys G).*2.
Proof.
  intros HI. unfold cv_linked, map_Exists. rewrite list_elem_of_fmap. split.
  - intros (k & b & Hb & ->). apply (vo_keys _ _ _ (ok_view _ _ _ _ _ _ HI)) in Hb. by exists (k, a).
  - intros ([k b] & -> & Hb). exists k, b. split; [|done]. by apply (vo_keys _ _ _ (ok_view _ _ _ _ _ _ HI)).
Qed.

(** A removed leaf changes its count or is released. *)
Lemma cok_put_removed s L N DN DL ZL V held n base a lf lf' :
  cok s (CPlace L N DN DL ZL [] []) V held n base -> a ∈ pend_leaves s ++ ZL -> c_leaves s !! a = Some lf -> cv_cb V = true ->
  (a ∈ pend_leaves s -> pend_ok true n lf') -> (a ∈ ZL -> zombie_ok true n lf') ->
  cok (put_leaf a lf' s) (CPlace L N DN DL ZL [] [])
    (CView (cv_keys V) (partial_alter (fun _ => if ref_count lf' >=? LEAF_VALID then Some (to_be_freed lf', ref_count lf' - 1) else None) a (cv_elems V))
      (cv_freed V) (cv_cb V)) held n base.
Proof.
  intros [HI HV] Ha Hlf Hcb Hp Hz. pose proof (vo_cb _ _ _ HV) as Ec. rewrite Hcb in Ec.
  assert (a ∉ L.*2 ++ DL) as Hn.
  { destruct (leaf_classes _ _ _ (ci_leaf _ _ _ _ _ HI)) as (C1 & _ & C2 & _). simpl in *. intros Hin.
    apply elem_of_app in Hin as [Hin|Hin]; [apply (C1 a Hin)|apply (C2 a Hin)]; rewrite !elem_of_app in *; tauto. }
  rewrite elem_of_app in Hn. constructor.
  - apply (cinv_put_leaf s _ held n base a lf); simpl; try done; try (by intros Hin; exfalso; tauto); by rewrite <- Ec.
  - destruct HV as [Vk Ve Vf Vc]. constructor; try done. intros b. simpl. destruct (decide (b = a)) as [->|Hne].
    + rewrite lookup_partial_alter_eq. rewrite (celem_removed _ _ a lf'); [|apply put_leaf_lookup|simpl; tauto|done].
      simpl. by rewrite <- Ec.
    + rewrite lookup_partial_alter_ne by done. rewrite celem_put_ne by done. apply Ve.
Qed.

Lemma cok_freed s G V held n base l :
  cok s G V held n base ->
  cok (with_freed (c_freed s ++ l) s) G (CView (cv_keys V) (cv_elems V) (cv_freed V ++ l) (cv_cb V)) held n base.
Proof.
  intros [[Ht [] [] [] []] [Vk Ve Vf Vc]]. constructor; [constructor; [exact Ht|by constructor..]|].
  constructor; try done. simpl. by rewrite Vf.
Qed.

(** A released zombie is in the hands of the operation. *)
Lemma cok_take_zombie s L N DN DL ZL V held n base a :
  cok s (CPlace L N DN DL ZL [] []) V held n base -> a ∈ ZL ->
  exists ZL', cok s (CPlace L N DN DL ZL' [] [a])
    (CView (cv_keys V) (delete a (cv_elems V)) (cv_freed V) (cv_cb V)) held n base.
Proof.
  intros [HI HV] Ha. pose proof Ha as [ZL' HZ]%elem_of_Permutation. exists ZL'.
  destruct HI as [Ht [] [La Lc Ll Lv Lp Lz] [] []]. simpl in *.
  assert (leaf_inv s (CPlace L N DN DL ZL' [] [a]) n) as HL.
  { constructor; simpl; try done.
    - rewrite HZ in La. simpl in La. rewrite <- !Permutation_middle in La. by rewrite <- Permutation_middle.
    - intros b lf Hb Hin. apply (Lz b lf Hb). rewrite HZ. by right. }
  destruct (leaf_classes _ _ _ HL) as (_ & Hcl & _). specialize (Hcl a ltac:(left)). rewrite !elem_of_app in Hcl. simpl in Hcl.
  constructor; [constructor; [exact Ht|by constructor|done|by constructor|by constructor]|].
  destruct HV as [Vk Ve Vf Vc]. constructor; try done. intros b. simpl. destruct (decide (b = a)) as [->|Hne].
  - rewrite lookup_delete_eq. symmetry. apply celem_none; rewrite ?elem_of_app; simpl; tauto.
  - rewrite lookup_delete_ne by done. rewrite Ve. symmetry. apply celem_same; try done. simpl.
    rewrite !elem_of_app, HZ, elem_of_cons. tauto.
Qed.

(** What the count of a referenced leaf is. *)
Lemma elem_cases s L N DN DL ZL V held n base a v r :
  cok s (CPlace L N DN DL ZL [] []) V held n base -> cv_cb V = true -> cv_elems V !! a = Some (v, r) ->
  exists lf, c_leaves s !! a = Some lf /\
    (a ∈ L.*2 /\ value lf = v /\ ref_count lf = r + 2 \/
     (a ∉ L.*2) /\ a ∈ pend_leaves s ++ ZL /\ to_be_freed lf = v /\ ref_count lf = r + 1 /\ 2 <= ref_count lf).
Proof.
  intros [HI HV] Hcb Hev. rewrite (vo_elems _ _ _ HV) in Hev. unfold celem in Hev.
  rewrite <- (vo_cb _ _ _ HV), Hcb in Hev. destruct (c_leaves s !! a) as [lf|]; [|done]. exists lf. split; [done|]. simpl in Hev.
  destruct (decide (a ∈ L.*2)); [injection Hev as <- <-; left; unfold LEAF_VALID; split_and!; [done|done|lia]|].
  destruct (decide (a ∈ pend_leaves s ++ ZL)); [|done]. unfold LEAF_VALID in Hev.
  destruct (ref_count lf >=? 2) eqn:E; [|done]. rewrite Z.geb_leb, Z.leb_le in E. injection Hev as <- <-. right.
  split_and!; [done..|lia|lia].
Qed.

(** The counts do not reach the end of their range. *)
Lemma refs_bound s L N DN DL ZL V held n base a lf :
  cok s (CPlace L N DN DL ZL [] []) V held n base -> cv_cb V = true -> c_leaves s !! a = Some lf ->
  a ∈ L.*2 \/ a ∈ pend_leaves s ++ ZL /\ 2 <= ref_count lf -> ref_count lf <= 2 + n.
Proof.
  intros [HI HV] Hcb Hlf Hin. rewrite (vo_cb _ _ _ HV) in Hcb. unfold refs_ok, LEAF_VALID in *.
  destruct Hin as [Hin|[[Hin|Hin]%elem_of_app H2]].
  - destruct (li_live _ _ _ (ci_leaf _ _ _ _ _ HI) a lf Hlf Hin) as [_ Hok]. by destruct (Hok Hcb) as [[_ ?] _].
  - destruct (li_pend _ _ _ (ci_leaf _ _ _ _ _ HI) a lf Hlf Hin) as [_ Hok].
    destruct (Hok Hcb) as [_ [[[_ ?] _]|[? _]]]; [done|lia].
  - by destruct (li_zombie _ _ _ (ci_leaf _ _ _ _ _ HI) a lf Hlf Hin) as (_ & _ & [_ ?] & _).
Qed.

(** The last reference of a removed leaf. *)
Lemma wp_release_last s L N DN DL ZL V a n base lf :
  cok s (CPlace L N DN DL ZL [] []) V false n base -> cv_cb V = true -> c_leaves s !! a = Some lf ->
  a ∉ L.*2 -> a ∈ pend_leaves s ++ ZL -> ref_count lf = 2 ->
  wp (lf ← load_leaf a;
      let tbf := to_be_freed lf in
      _ ← update_leaf a (with_to_be_freed 0);
      _ ← c_assert (negb (tbf =? 0));
      _ ← update_leaf a (with_ref_count 0);
      _ ← call_free_leaf tbf;
      lf ← load_leaf a;
      _ ← (if pending_deleted_leaf lf then
             _ ← update_leaf a (with_pending false);
             add_to_deleted_leaf_list a
           else mret tt);
      mret 0)
    (fun x s' => x = 0 /\ crest s' (CView (cv_keys V) (delete a (cv_elems V)) (cv_freed V ++ [to_be_freed lf]) (cv_cb V)) n base)
    (put_leaf a (with_ref_count 1 lf) s).
Proof.
  intros HI Hcb Hlf Hnl Hin Hrc. pose proof (vo_cb _ _ _ (ok_view _ _ _ _ _ _ HI)) as Ec. rewrite Hcb in Ec.
  assert (to_be_freed lf <> 0 /\ (a ∈ pend_leaves s -> pending_deleted_leaf lf = false /\ value lf = 0) /\
    (a ∈ ZL -> pending_deleted_leaf lf = true)) as (Htbf & Hpend & Hzom).
  { destruct (leaf_classes _ _ _ (ci_leaf _ _ _ _ _ (ok_inv _ _ _ _ _ _ HI))) as (_ & _ & _ & C1 & C2). simpl in *.
    apply elem_of_app in Hin as [Hin|Hin].
    - destruct (li_pend _ _ _ (ci_leaf _ _ _ _ _ (ok_inv _ _ _ _ _ _ HI)) a lf Hlf Hin) as [Hp Hok].
      destruct (Hok (eq_sym Ec)) as [? [[_ ?]|[? _]]]; [|lia]. split_and!; [done|done|]. intros Hz. destruct (C2 a Hz). rewrite !elem_of_app. auto.
    - destruct (li_zombie _ _ _ (ci_leaf _ _ _ _ _ (ok_inv _ _ _ _ _ _ HI)) a lf Hlf Hin) as (_ & ? & _ & ?).
      split_and!; [done| |done]. intros Hp. destruct (C1 a Hp). rewrite !elem_of_app. auto. }
  apply wp_bind, (wp_load_leaf a (with_ref_count 1 lf)); [apply put_leaf_lookup|]. cbv zeta.
  apply wp_bind. eapply wp_update_leaf; [apply put_leaf_lookup|rewrite put_put_leaf].
  wp_step; [apply negb_true_iff, Z.eqb_neq; exact Htbf|].
  apply wp_bind. eapply wp_update_leaf; [apply put_leaf_lookup|rewrite put_put_leaf].
  set (lf1 := with_ref_count 0 _). unfold call_free_leaf. wp_step.
  change (with_freed _ (put_leaf a lf1 s)) with (put_leaf a lf1 (with_freed (c_freed s ++ [to_be_freed lf]) s)).
  pose proof (cok_freed s _ V false n base [to_be_freed lf] HI) as HI1. set (s1 := with_freed _ s) in *.
  apply wp_bind, (wp_load_leaf a lf1); [apply put_leaf_lookup|]. simpl pending_deleted_leaf.
  apply elem_of_app in Hin as [Hin|Hin].
  - destruct (Hpend Hin) as [-> Hv0]. apply wp_bind. wp_step. wp_step. split; [done|].
    pose proof (cok_put_removed s1 L N DN DL ZL _ false n base a lf lf1 HI1 ltac:(rewrite elem_of_app; by left) Hlf Hcb) as HI2.
    do 5 eexists. apply HI2.
    + intros _. split; [by apply Hpend|]. intros _. split; [done|]. by right.
    + intros Hz. specialize (Hzom Hz). destruct (Hpend Hin). congruence.
  - rewrite (Hzom Hin). destruct (cok_take_zombie s1 L N DN DL ZL _ false n base a HI1 Hin) as [ZL' HI2].
    apply wp_bind, wp_bind. eapply wp_update_leaf; [apply put_leaf_lookup|rewrite put_put_leaf].
    unfold add_to_deleted_leaf_list. wp_step. apply wp_bind. eapply wp_update_leaf; [apply put_leaf_lookup|rewrite put_put_leaf].
    wp_step. wp_step. split; [done|]. set (lf2 := with_next _ _). do 5 eexists.
    pose proof (cinv_push_leaf s1 L N DN DL ZL' [] [] false n base a lf2 (ok_inv _ _ _ _ _ _ HI2) eq_refl) as HI3.
    constructor; [exact HI3|]. apply (view_same s1 (CPlace L N DN DL ZL' [] [a])); try done; [apply HI2|]. intros b.
    destruct (decide (b = a)) as [->|Hne]; [|apply celem_same; try done; simpl; by rewrite lookup_insert_ne].
    destruct (leaf_classes _ _ _ (ci_leaf _ _ _ _ _ (ok_inv _ _ _ _ _ _ HI2))) as (_ & Hcl & _). specialize (Hcl a ltac:(left)).
    rewrite !elem_of_app in Hcl. simpl in Hcl. rewrite !celem_none; rewrite ?elem_of_app; simpl; tauto.
Qed.

Lemma wp_critnib_release s V a v r n base :
  crest s V n base -> cv_cb V = true -> cv_elems V !! a = Some (v, r) -> 0 < r -> n + 4 < two64 ->
  wp (critnib_release (Some a)) (fun x s' => x = 0 /\ crest s' (cv_release V a v r) n base) s.
Proof.
  intros (L & N & DN & DL & ZL & HI) Hcb Hev Hr Hn. pose proof (vo_cb _ _ _ (ok_view _ _ _ _ _ _ HI)) as Ec.
  pose proof (linked_spec s _ V false n base a HI) as Hlk. simpl in Hlk.
  destruct (elem_cases s L N DN DL ZL V false n base a v r HI Hcb Hev) as (lf & Hlf & Hcase).
  assert (ref_count lf <= 2 + n) as Hub by (apply (refs_bound s L N DN DL ZL V false n base a lf HI Hcb Hlf); tauto).
  assert (2 <= ref_count lf) as Hlb by lia. unfold critnib_release. wp_step. rewrite <- Ec, Hcb. simpl negb. cbv iota.
  apply wp_bind, (wp_load_leaf a lf); [done|]. unfold LEAF_VALID. wp_step; [apply Z.geb_le; lia|].
  rewrite sub64_small by (unfold is_u64, two64 in *; lia). apply wp_bind, (wp_update_leaf a _ lf); [done|].
  unfold cv_release. destruct Hcase as [(Hin & <- & Erc)|(Hnin & Hin & <- & Erc & _)].
  - rewrite Z.geb_leb, (proj2 (Z.leb_le _ _)) by lia. wp_step. split; [done|].
    rewrite decide_False by tauto. pose proof Hin as ([k b] & E & Hkb)%list_elem_of_fmap. simpl in E. subst b.
    pose proof (cok_put_live s L N DN DL ZL [] [] V false n base k a lf (with_ref_count (ref_count lf - 1) lf) HI Hkb Hlf eq_refl) as HI2.
    rewrite Hcb in HI2. simpl in HI2. unfold LEAF_VALID in HI2. rewrite Hcb. replace (r - 1) with (ref_count lf - 1 - 2) by lia.
    do 5 eexists. apply HI2. destruct (li_live _ _ _ (ci_leaf _ _ _ _ _ (ok_inv _ _ _ _ _ _ HI)) a lf Hlf Hin) as [Hp Hok].
    split; [done|]. intros E. destruct (Hok E) as [Hrf Hv]. unfold refs_ok, LEAF_VALID in *. simpl. split; [lia|done].
  - destruct (decide (r = 1)) as [->|Hr1].
    + rewrite decide_True by tauto. replace (ref_count lf - 1 >=? 2) with false by (rewrite Z.geb_leb; symmetry; apply Z.leb_gt; lia).
      replace (ref_count lf - 1) with 1 by lia. apply (wp_release_last s L N DN DL ZL); try done; lia.
    + rewrite decide_False by tauto. rewrite Z.geb_leb, (proj2 (Z.leb_le _ _)) by lia. wp_step. split; [done|].
      pose proof (cok_put_removed s L N DN DL ZL V false n base a lf (with_ref_count (ref_count lf - 1) lf) HI Hin Hlf Hcb) as HI2.
      simpl in HI2. unfold LEAF_VALID in HI2. rewrite Z.geb_leb, (proj2 (Z.leb_le _ _)) in HI2 by lia.
      replace (r - 1) with (ref_count lf - 1 - 1) by lia. do 5 eexists. apply HI2.
      * intros Hp. destruct (li_pend _ _ _ (ci_leaf _ _ _ _ _ (ok_inv _ _ _ _ _ _ HI)) a lf Hlf Hp) as [Hpd Hok].
        rewrite <- Ec in Hok. destruct (Hok Hcb) as [? [[? ?]|[? _]]]; [|lia]. split; [done|]. intros _. split; [done|]. left.
        unfold refs_ok, LEAF_VALID in *. simpl. split; [lia|done].
      * intros Hz. destruct (li_zombie _ _ _ (ci_leaf _ _ _ _ _ (ok_inv _ _ _ _ _ _ HI)) a lf Hlf Hz) as (? & ? & ? & ?).
        unfold zombie_ok, refs_ok, LEAF_VALID in *. simpl. split_and!; done || lia.
Qed.

(** ** [critnib_remove_release] *)

(** After a removal the remover's reference is given back at once. *)
Lemma wp_critnib_remove_release s V k n base :
  crest s V n base -> 0 <= n -> n + 8 < two64 ->
  wp (critnib_remove_release k) (fun x s' =>
    match cv_keys V !! k with
    | None => x = -1 /\ crest s' V (n + 1) base
    | Some a => exists v r, cv_elems V !! a = Some (v, r) /\ x = (if v =? 0 then -1 else 0) /\
        crest s' (let W := cv_remove V k a v r in if cv_cb V then cv_release W a v (r + 1) else W) (n + 1) base
    end) s.
Proof.
  intros Hrest Hn0 Hn. unfold critnib_remove_release. apply wp_bind.
  eapply wp_mono; [apply (wp_critnib_remove s V k true n base Hrest); [done|lia|apply andb_false_r]|].
  intros [x ref] s1 Hp. inversion Hp as [s' Hk Hr|s' a v r Hk Hev Hr]; subst; rewrite Hk.
  - apply wp_bind. wp_step. simpl. wp_step. done.
  - assert (0 <= r) as Hr0.
    { destruct Hrest as (L & N & DN & DL & ZL & HI). pose proof (proj1 (vo_keys _ _ _ (ok_view _ _ _ _ _ _ HI) k a) Hk) as Hin.
      destruct (view_elem_live s _ _ _ _ _ _ _ _ _ _ _ k a HI Hin) as (lf & _ & _ & [_ Hok] & E).
      rewrite E in Hev. rewrite <- (vo_cb _ _ _ (ok_view _ _ _ _ _ _ HI)) in Hok. injection Hev as _ <-.
      destruct (cv_cb V); [|lia]. destruct (Hok eq_refl) as [Hrf _]. unfold refs_ok in Hrf. lia. }
    destruct (cv_cb V) eqn:Ecb; apply wp_bind.
    + apply wp_bind. eapply wp_mono.
      { apply (wp_critnib_release s1 (cv_remove V k a x r) a x (r + 1) (n + 1) base Hr); [done| |lia|lia].
        unfold cv_remove. rewrite Ecb. apply lookup_insert_eq. }
      intros y s2 [_ Hs2]. wp_step. wp_step. exists x, r. by destruct (x =? 0).
    + wp_step. wp_step. exists x, r. by destruct (x =? 0).
Qed.
End Release.
