(* ===== verification/CritDelete.v ===== *)
(** * [critnib_new] and [critnib_delete]

    A new critnib is empty; deleting one returns every node, every leaf and
    the struct to the allocator and passes the values to the callback. *)

From S2P Require Import Prelude Utils HostMem CritRep CritIns CritInv CritHeap CritInsert.
From S2P Require Import CritInsert CritRemove CritQuery.
From stdpp Require Import list sorting strings.
From S2P Require Import Critnib.
#[local] Open Scope Z_scope.
#[local] Opaque crep.

Section Delete.
Context `{HostAllocLaws H}.
Implicit Types (s : cstate H) (G : cplace) (V : cview).

(** ** [critnib_new] *)

Lemma critnib_new_rest cb ok h s h' :
  critnib_new cb ok h = (Some s, h') -> crest s (CView ∅ ∅ [] cb) 0 (ba_live h) /\ c_host s = h'.
Proof.
  unfold critnib_new. destruct (umf_ba_global_alloc tag_critnib sizeof_critnib h) as [[c|] h1] eqn:E; [|done].
  destruct ok; [|done]. intros [= <- <-]. split; [|done]. apply ba_alloc_some in E as [Hc E].
  exists [], [], [], [], []. constructor; [constructor; [|constructor..]|constructor]; simpl; try done.
  - by apply crep_null.
  - split; [constructor|]. intros a. rewrite lookup_empty. split; [by intros ?%elem_of_nil|by intros [? ?]].
  - split; [constructor|]. intros a. rewrite lookup_empty. split; [by intros ?%elem_of_nil|by intros [? ?]].
  - intros a. rewrite E. unfold host_tag. simpl. rewrite !lookup_empty. destruct (decide (a = c)) as [->|Hne].
    + by rewrite lookup_insert_eq.
    + by rewrite lookup_insert_ne.
  - intros a [? Ha]. by rewrite lookup_empty in Ha.
  - intros a [? Ha]. by rewrite lookup_empty in Ha.
  - intros k a. rewrite lookup_empty. split; [done|by intros ?%elem_of_nil].
Qed.

(** ** Freeing nodes and leaves *)

(** What is left: the nodes [RN] and the leaves [RL]. *)
Record dinv s (RN RL : list Z) (base : gmap Z string) : Prop := {
  di_nodes : acct (c_nodes s) RN;
  di_leaves : acct (c_leaves s) RL;
  di_host : host_inv s base;
}.

(** Only the nodes [N] and the leaves [L] have changed. *)
Record kept s s' (N L : list Z) : Prop := {
  kp_crit : c_crit s' = c_crit s;
  kp_nodes : forall b, b ∉ N -> c_nodes s' !! b = c_nodes s !! b;
  kp_leaves : forall b, b ∉ L -> c_leaves s' !! b = c_leaves s !! b;
}.

Lemma kept_refl s : kept s s [] [].
Proof. done. Qed.

Lemma kept_trans s1 s2 s3 N1 L1 N2 L2 : kept s1 s2 N1 L1 -> kept s2 s3 N2 L2 -> kept s1 s3 (N1 ++ N2) (L1 ++ L2).
Proof.
  intros [A1 A2 A3] [B1 B2 B3]. constructor; [congruence|..]; intros b Hb; rewrite elem_of_app in Hb.
  - rewrite B2, A2; [done|tauto|tauto].
  - rewrite B3, A3; [done|tauto|tauto].
Qed.

(** The values a leaf passes to the callback. *)
Definition frees_of s (a : Z) : list Z :=
  if cb_free_leaf (c_crit s) then
    match c_leaves s !! a with
    | Some lf => if negb (value lf =? 0) then [value lf] else if negb (to_be_freed lf =? 0) then [to_be_freed lf] else []
    | None => []
    end
  else [].

Lemma frees_kept s s' N L l : kept s s' N L -> (forall a, a ∈ l -> a ∉ L) -> l ≫= frees_of s' = l ≫= frees_of s.
Proof.
  intros Hk Hl. induction l as [|a l IH]; [done|]. csimpl. rewrite IH by (intros b Hb; apply Hl; by right). f_equal.
  unfold frees_of. rewrite (kp_crit _ _ _ _ Hk), (kp_leaves _ _ _ _ Hk); [done|]. apply Hl. left.
Qed.

Lemma wp_free_host_node s a RN RL base (Q : unit -> cstate H -> Prop) :
  dinv s (a :: RN) RL base ->
  (forall s', dinv s' RN RL base -> kept s s' [a] [] -> c_freed s' = c_freed s -> Q tt s') -> wp (free_host_node a) Q s.
Proof.
  intros [Hn Hl [Hv Hnd Hlf Hs]] HQ. destruct (acct_lookup _ _ a Hn) as [nd Ha]; [left|].
  assert (is_Some (c_nodes s !! a)) as Has by eauto.
  unfold free_host_node. apply wp_bind, (wp_load_node a nd); [done|]. wp_step. simpl. wp_step. apply HQ; [|constructor|]; try done.
  - constructor; [by apply acct_del|done|]. constructor; simpl.
    + intros b. rewrite ba_free_live by (rewrite Hv; unfold host_tag; rewrite Ha; done).
      unfold host_tag. simpl. destruct (decide (b = a)) as [->|Hne].
      * rewrite !lookup_delete_eq. destruct (Hnd a Has) as (-> & Hne & ->). by rewrite decide_False.
      * rewrite !lookup_delete_ne by done. apply Hv.
    + intros b [x [_ Hx]%lookup_delete_Some]. apply Hnd. eauto.
    + done.
    + done.
  - intros b Hb. simpl. rewrite lookup_delete_ne; [done|]. intros ->. apply Hb. left.
Qed.

Lemma wp_free_host_leaf s a RN RL base (Q : unit -> cstate H -> Prop) :
  dinv s RN (a :: RL) base ->
  (forall s', dinv s' RN RL base -> kept s s' [] [a] -> c_freed s' = c_freed s -> Q tt s') -> wp (free_host_leaf a) Q s.
Proof.
  intros [Hn Hl [Hv Hnd Hlf Hs]] HQ. destruct (acct_lookup _ _ a Hl) as [lf Ha]; [left|].
  assert (is_Some (c_leaves s !! a)) as Has by eauto.
  assert (c_nodes s !! a = None) as Han.
  { destruct (c_nodes s !! a) eqn:E; [|done]. destruct (Hnd a) as (E' & _); [by rewrite E|]. rewrite E' in Has. by destruct Has. }
  unfold free_host_leaf. apply wp_bind, (wp_load_leaf a lf); [done|]. wp_step. simpl. wp_step. apply HQ; [|constructor|]; try done.
  - constructor; [done|by apply acct_del|]. constructor; simpl.
    + intros b. rewrite ba_free_live by (rewrite Hv; unfold host_tag; rewrite Han, Ha; done).
      unfold host_tag. simpl. destruct (decide (b = a)) as [->|Hne].
      * rewrite !lookup_delete_eq, Han. destruct (Hlf a Has) as (Hne & ->). by rewrite decide_False.
      * rewrite !lookup_delete_ne by done. apply Hv.
    + intros b Hb. destruct (Hnd b Hb) as (E & ? & ?). split_and!; [|done|done].
      apply lookup_delete_None. by right.
    + intros b [x [_ Hx]%lookup_delete_Some]. apply Hlf. eauto.
    + done.
  - intros b Hb. simpl. rewrite lookup_delete_ne; [done|]. intros ->. apply Hb. left.
Qed.

Lemma wp_free_leaf_value s a lf (Q : unit -> cstate H -> Prop) :
  c_leaves s !! a = Some lf -> Q tt (with_freed (c_freed s ++ frees_of s a) s) -> wp (free_leaf_value a) Q s.
Proof.
  intros Ha HQ. unfold free_leaf_value, frees_of in *. wp_step. rewrite Ha in HQ.
  assert (with_freed (c_freed s ++ []) s = s) as E0 by (rewrite app_nil_r; by destruct s).
  destruct (cb_free_leaf (c_crit s)); [|rewrite E0 in HQ; by wp_step].
  apply wp_bind, (wp_load_leaf a lf); [done|].
  destruct (negb (value lf =? 0)); [unfold call_free_leaf; by wp_step|].
  destruct (negb (to_be_freed lf =? 0)); [unfold call_free_leaf; by wp_step|]. rewrite E0 in HQ. by wp_step.
Qed.

(** A leaf with its value. *)
Lemma wp_drop_leaf s a RN RL base (Q : unit -> cstate H -> Prop) :
  dinv s RN (a :: RL) base ->
  (forall s', dinv s' RN RL base -> kept s s' [] [a] -> c_freed s' = c_freed s ++ frees_of s a -> Q tt s') ->
  wp (_ ← free_leaf_value a; free_host_leaf a) Q s.
Proof.
  intros HD HQ. destruct (acct_lookup _ _ a (di_leaves _ _ _ _ HD)) as [lf Ha]; [left|].
  apply wp_bind, (wp_free_leaf_value s a lf); [done|]. apply (wp_free_host_leaf _ a RN RL base).
  - by destruct HD as [Hn Hl [? ? ? ?]].
  - intros s' HD' [K1 K2 K3] Ef. by apply HQ.
Qed.

(** ** The tree *)

Definition deletes (m : M (cstate H) unit) s (N : list Z) (L : list Z) : Prop :=
  forall RN RL base (Q : unit -> cstate H -> Prop), dinv s (N ++ RN) (L ++ RL) base ->
  (forall s', dinv s' RN RL base -> kept s s' N L -> c_freed s' = c_freed s ++ (L ≫= frees_of s) -> Q tt s') -> wp m Q s.

Lemma dinv_disjoint s N1 N2 L1 L2 base :
  dinv s (N1 ++ N2) (L1 ++ L2) base -> (forall b, b ∈ N1 -> b ∉ N2) /\ (forall b, b ∈ L1 -> b ∉ L2).
Proof.
  intros [[Hn _] [Hl _] _]. apply NoDup_app in Hn as (_ & Hn & _), Hl as (_ & Hl & _). done.
Qed.

(** Deleting one thing after the other. *)
Lemma deletes_bind (m1 m2 : M (cstate H) unit) s N1 L1 N2 L2 :
  deletes m1 s N1 L1 ->
  (forall s', kept s s' N1 L1 -> (forall b, b ∈ N2 -> b ∉ N1) -> (forall b, b ∈ L2 -> b ∉ L1) -> deletes m2 s' N2 L2) ->
  deletes (_ ← m1; m2) s (N1 ++ N2) (L1 ++ L2).
Proof.
  intros H1' H2' RN RL base Q HD HQ. rewrite <- !app_assoc in HD. destruct (dinv_disjoint _ _ _ _ _ _ HD) as [Hn Hl].
  assert (forall b, b ∈ N2 -> b ∉ N1) as Hn2 by (intros b Hb Hin; apply (Hn b Hin); rewrite elem_of_app; auto).
  assert (forall b, b ∈ L2 -> b ∉ L1) as Hl2 by (intros b Hb Hin; apply (Hl b Hin); rewrite elem_of_app; auto).
  apply wp_bind, (H1' _ _ base _ HD). intros s1 HD1 Hk1 Ef1.
  apply (H2' s1 Hk1 Hn2 Hl2 RN RL base _ HD1). intros s2 HD2 Hk2 Ef2. apply HQ; [done|by apply (kept_trans s s1 s2)|].
  rewrite Ef2, Ef1, bind_app, app_assoc, (frees_kept s s1 N1 L1 L2 Hk1 Hl2). done.
Qed.

Lemma kept_tree s s' N L h p L' N' :
  kept s s' N L -> tree s h p L' N' -> (forall b, b ∈ N' -> b ∉ N) -> (forall b, b ∈ L'.*2 -> b ∉ L) -> tree s' h p L' N'.
Proof.
  intros Hk Ht Hn Hl. apply (crep_frame (c_nodes s) (leaf_keys s)); [| |exact Ht].
  - intros b Hb. apply (kp_nodes _ _ _ _ Hk), Hn, Hb.
  - intros x Hx. unfold leaf_keys. rewrite !lookup_fmap, (kp_leaves _ _ _ _ Hk); [done|]. apply Hl, list_elem_of_fmap. by exists x.
Qed.

Lemma deletes_perm m s N N' L : N ≡ₚ N' -> deletes m s N L -> deletes m s N' L.
Proof.
  intros HN Hd RN RL base Q [Dn Dl Dh] HQ. apply (Hd RN RL base); [constructor; [by rewrite HN|done|done]|].
  intros s' HD [K1 K2 K3] Ef. apply HQ; [done|constructor; [done| |done]|done]. intros b Hb. apply K2. by rewrite HN.
Qed.

Lemma deletes_nil s : deletes (mret tt) s [] [].
Proof. intros RN RL base Q HD HQ. wp_step. apply HQ; [done|apply kept_refl|]. by rewrite app_nil_r. Qed.

(** The loop over the children. *)
Lemma deletes_children fuel j ch cs s :
  (forall p L N s, tree s j p L N -> p <> NNull -> deletes (delete_node fuel p) s N (L.*2)) ->
  Forall2 (fun p c => tree s j p c.1 c.2) ch cs ->
  deletes ((fix children (l : list nptr) : M (cstate H) unit :=
     match l with
     | [] => mret tt
     | m :: l => _ ← (if decide (m = NNull) then mret tt else delete_node fuel m); children l
     end) ch) s (part_nodes cs) ((part_keys cs).*2).
Proof.
  intros Hd. revert cs s. induction ch as [|p ch IH]; intros cs s HF.
  - apply Forall2_nil_inv_l in HF as ->. apply deletes_nil.
  - apply Forall2_cons_inv_l in HF as (c & cs' & Hc & HF & ->).
    change (part_nodes (c :: cs')) with (c.2 ++ part_nodes cs'). change (part_keys (c :: cs')) with (c.1 ++ part_keys cs').
    rewrite fmap_app. apply deletes_bind.
    + destruct (decide (p = NNull)) as [->|Hne]; [|by apply Hd]. apply crep_null in Hc as [-> ->]. apply deletes_nil.
    + intros s' Hk Hn Hl. apply IH. apply Forall2_same_length_lookup. apply Forall2_same_length_lookup in HF as [Hlen HF].
      split; [done|]. intros i q d Hq Hdi. apply (kept_tree s s' (c.2) (c.1.*2)); [done|by apply (HF i)| |].
      * intros b Hb. apply Hn. apply elem_of_part_nodes. eauto.
      * intros b Hb. apply Hl. apply list_elem_of_fmap in Hb as (x & -> & Hx). apply list_elem_of_fmap.
        exists x. split; [done|]. apply elem_of_part_keys. eauto.
Qed.

Lemma deletes_node fuel h p L N s :
  tree s h p L N -> p <> NNull -> (h <= fuel)%nat -> deletes (delete_node fuel p) s N (L.*2).
Proof.
  revert fuel p L N s. induction h as [h IH] using lt_wf_ind. intros fuel p L N s Hr Hp Hf. destruct p as [|a|a]; [done| |].
  - apply crep_node in Hr as (j & nd & cs & Hj & Hn & ->). destruct fuel as [|fuel]; [lia|].
    apply (deletes_perm _ _ (part_nodes cs ++ [a])).
    { rewrite (nr_nodes _ _ _ _ _ _ _ Hn). by rewrite <- Permutation_cons_append. }
    rewrite <- (app_nil_r ((part_keys cs).*2)). intros RN RL base Q HD HQ. cbn [delete_node].
    apply wp_bind, (wp_load_node a nd); [apply (nr_node _ _ _ _ _ _ _ Hn)|]. revert RN RL base Q HD HQ.
    apply deletes_bind.
    + apply (deletes_children fuel j); [|apply Hn]. intros q L' N' s' Hq Hqn. apply (IH j Hj fuel); [done|done|lia].
    + intros s1 _ _ _ RN RL base Q HD HQ. apply (wp_free_host_node s1 a RN RL base); [done|].
      intros s2 HD2 Hk Ef. apply HQ; [done|done|]. by rewrite Ef, app_nil_r.
  - apply crep_leaf in Hr as (k & _ & _ & -> & ->). destruct fuel; intros RN RL base Q HD HQ; simpl;
      (apply (wp_drop_leaf s a RN RL base); [exact HD|]; intros s' HD' Hk Ef; apply HQ; [done|done|]; by rewrite Ef; csimpl; rewrite app_nil_r).
Qed.

(** ** The lists and the arrays *)

Lemma deletes_dnodes fuel p l s :
  nchain (c_nodes s) p l -> NoDup l -> (length l <= fuel)%nat -> deletes (free_deleted_nodes fuel p) s l [].
Proof.
  revert fuel p s. induction l as [|a l IH]; intros fuel p s Hc Hnd Hf; simpl in Hc.
  - subst p. destruct fuel; apply deletes_nil.
  - destruct Hc as [-> (nd & q & Ha & Hq & Hc)]. apply NoDup_cons in Hnd as [Hna Hnd]. destruct fuel as [|fuel]; [simpl in Hf; lia|].
    intros RN RL base Q HD HQ. cbn [free_deleted_nodes]. apply wp_bind, (wp_load_child a nd _ q); [done|done|].
    revert RN RL base Q HD HQ. change (a :: l) with ([a] ++ l). rewrite <- (app_nil_l ([] : list Z)). apply deletes_bind.
    + intros RN RL base Q HD HQ. apply (wp_free_host_node s a RN RL base); [done|]. intros s' HD' Hk Ef.
      apply HQ; [done|done|]. by rewrite Ef, app_nil_r.
    + intros s' Hk _ _. apply IH; [|done|simpl in Hf; lia]. apply (nchain_frame (c_nodes s)); [|done].
      intros b Hb. apply (kp_nodes _ _ _ _ Hk). intros ->%list_elem_of_singleton. done.
Qed.

(** The leaves on the list pass nothing to the callback. *)
Definition frees_silent (m : M (cstate H) unit) s (N L : list Z) : Prop :=
  forall RN RL base (Q : unit -> cstate H -> Prop), dinv s (N ++ RN) (L ++ RL) base ->
  (forall s', dinv s' RN RL base -> kept s s' N L -> c_freed s' = c_freed s -> Q tt s') -> wp m Q s.

Lemma silent_nil s : frees_silent (mret tt) s [] [].
Proof. intros RN RL base Q HD HQ. wp_step. apply HQ; [done|apply kept_refl|done]. Qed.

Lemma silent_bind (m1 m2 : M (cstate H) unit) s N1 L1 N2 L2 :
  frees_silent m1 s N1 L1 ->
  (forall s', kept s s' N1 L1 -> (forall b, b ∈ N2 -> b ∉ N1) -> (forall b, b ∈ L2 -> b ∉ L1) -> frees_silent m2 s' N2 L2) ->
  frees_silent (_ ← m1; m2) s (N1 ++ N2) (L1 ++ L2).
Proof.
  intros H1' H2' RN RL base Q HD HQ. rewrite <- !app_assoc in HD. destruct (dinv_disjoint _ _ _ _ _ _ HD) as [Hn Hl].
  apply wp_bind, (H1' _ _ base _ HD). intros s1 HD1 Hk1 Ef1. apply (H2' s1 Hk1) with (RN := RN) (RL := RL) (base := base); [..|done|].
  - intros b Hb Hin. apply (Hn b Hin). rewrite elem_of_app. auto.
  - intros b Hb Hin. apply (Hl b Hin). rewrite elem_of_app. auto.
  - intros s2 HD2 Hk2 Ef2. apply HQ; [done|by apply (kept_trans s s1 s2)|congruence].
Qed.

Lemma silent_dleaves fuel p l s :
  lchain (c_leaves s) p l -> NoDup l -> (length l <= fuel)%nat -> frees_silent (free_deleted_leaves fuel p) s [] l.
Proof.
  revert fuel p s. induction l as [|a l IH]; intros fuel p s Hc Hnd Hf; simpl in Hc.
  - subst p. destruct fuel; apply silent_nil.
  - destruct Hc as [-> (lf & Ha & Hc)]. apply NoDup_cons in Hnd as [Hna Hnd]. destruct fuel as [|fuel]; [simpl in Hf; lia|].
    intros RN RL base Q HD HQ. cbn [free_deleted_leaves]. apply wp_bind, (wp_load_leaf a lf); [done|]. revert RN RL base Q HD HQ.
    change (a :: l) with ([a] ++ l). rewrite <- (app_nil_l ([] : list Z)). apply silent_bind.
    + intros RN RL base Q HD HQ. by apply (wp_free_host_leaf s a RN RL base).
    + intros s' Hk _ _. apply IH; [|done|simpl in Hf; lia]. apply (lchain_frame (c_leaves s)); [|done].
      intros b Hb. apply (kp_leaves _ _ _ _ Hk). by intros ->%list_elem_of_singleton.
Qed.

Lemma silent_node n s : frees_silent (match n with Some n => free_host_node n | None => mret tt end) s (option_list n) [].
Proof.
  destruct n as [n|]; [|apply silent_nil]. intros RN RL base Q HD HQ. by apply (wp_free_host_node s n RN RL base).
Qed.

Lemma silent_leaf k s :
  (forall a, k = Some a -> frees_of s a = []) ->
  frees_silent (match k with Some k => _ ← free_leaf_value k; free_host_leaf k | None => mret tt end) s [] (option_list k).
Proof.
  destruct k as [k|]; [|intros _; apply silent_nil]. intros Hf RN RL base Q HD HQ.
  apply (wp_drop_leaf s k RN RL base); [done|]. intros s' HD' Hk Ef. apply HQ; [done|done|]. by rewrite Ef, (Hf k eq_refl), app_nil_r.
Qed.

Lemma frees_of_kept s s' N L a : kept s s' N L -> a ∉ L -> frees_of s' a = frees_of s a.
Proof. intros Hk Ha. unfold frees_of. by rewrite (kp_crit _ _ _ _ Hk), (kp_leaves _ _ _ _ Hk). Qed.

Lemma silent_pending ns ls s :
  length ns = length ls -> (forall a, a ∈ omap id ls -> frees_of s a = []) ->
  frees_silent (free_pending ns ls) s (omap id ns) (omap id ls).
Proof.
  revert ls s. induction ns as [|n ns IH]; intros [|k ls] s Hlen Hfr; try done; [apply silent_nil|].
  replace (omap id (n :: ns)) with (option_list n ++ omap id ns) by (by destruct n).
  replace (omap id (k :: ls)) with (option_list k ++ omap id ls) in * by (by destruct k).
  rewrite <- (app_nil_l (option_list k ++ omap id ls)). cbn [free_pending]. apply silent_bind; [apply silent_node|].
  intros s1 Hk1 _ _. rewrite <- (app_nil_l (omap id ns)). apply silent_bind.
  - apply silent_leaf. intros a ->. rewrite (frees_of_kept s s1 _ _ a Hk1) by (by intros ?%elem_of_nil). apply Hfr. left.
  - intros s2 Hk2 _ Hl. apply IH; [by injection Hlen|]. intros a Ha. rewrite (frees_of_kept s1 s2 _ _ a Hk2) by (by apply Hl).
    rewrite (frees_of_kept s s1 _ _ a Hk1) by (by intros ?%elem_of_nil). apply Hfr. rewrite elem_of_app. by right.
Qed.

(** ** [critnib_delete] *)

(** Every referenced leaf is in the tree: the removed ones have been released. *)
Definition all_released V : Prop := forall a e, cv_elems V !! a = Some e -> cv_linked V a.

Lemma released_leaves s L N DN DL ZL V held n base :
  cok s (CPlace L N DN DL ZL [] []) V held n base -> all_released V ->
  ZL = [] /\ forall a, a ∈ pend_leaves s -> frees_of s a = [].
Proof.
  intros HI Hall. pose proof HI as [HI' HV]. pose proof (vo_cb _ _ _ HV) as Ec.
  destruct (leaf_classes _ _ _ (ci_leaf _ _ _ _ _ HI')) as (_ & _ & _ & C1 & C2). simpl in C1, C2.
  assert (forall a lf, c_leaves s !! a = Some lf -> a ∈ pend_leaves s ++ ZL -> cv_cb V = true -> 2 <= ref_count lf -> False) as Hno.
  { intros a lf Ha Hin Hcb Hr. assert (a ∉ L.*2) as Hn.
    { apply elem_of_app in Hin as [Hin|Hin]; [specialize (C1 a Hin)|specialize (C2 a Hin)]; rewrite !elem_of_app in *; tauto. }
    apply Hn. apply (linked_spec s _ V held n base a HI). apply (Hall a (to_be_freed lf, ref_count lf - 1)).
    rewrite (vo_elems _ _ _ HV), (celem_removed _ _ a lf), <- Ec, Hcb by done.
    unfold LEAF_VALID. by rewrite Z.geb_leb, (proj2 (Z.leb_le _ _)). }
  split.
  - destruct ZL as [|a ZL]; [done|]. exfalso.
    destruct (acct_lookup _ _ a (li_acct _ _ _ (ci_leaf _ _ _ _ _ HI'))) as [lf Hlf]; [simpl; rewrite !elem_of_app, elem_of_cons; auto 10|].
    destruct (li_zombie _ _ _ (ci_leaf _ _ _ _ _ HI') a lf Hlf) as (Hcb & _ & Hr & _); [left|].
    unfold refs_ok, LEAF_VALID in Hr. apply (Hno a lf Hlf); [rewrite elem_of_app, elem_of_cons; auto|congruence|lia].
  - intros a Ha. unfold frees_of. destruct (cb_free_leaf (c_crit s)) eqn:Ecb; [|done].
    destruct (c_leaves s !! a) as [lf|] eqn:Hlf; [|done].
    destruct (li_pend _ _ _ (ci_leaf _ _ _ _ _ HI') a lf Hlf Ha) as [_ Hok]. rewrite Ecb in Hok.
    destruct (Hok eq_refl) as [-> [[Hr _]|[_ ->]]]; [|done]. exfalso. unfold refs_ok, LEAF_VALID in Hr.
    apply (Hno a lf Hlf); [rewrite elem_of_app; auto|congruence|lia].
Qed.

(** The values of the leaves of the tree, by increasing key. *)
Definition live_values V (l : list (Z * Z)) : list Z :=
  if cv_cb V then omap (fun x => fst <$> cv_elems V !! x.2) l else [].

Lemma live_frees s L N DN DL ZL V held n base l :
  cok s (CPlace L N DN DL ZL [] []) V held n base -> (forall x, x ∈ l -> x ∈ L) -> l.*2 ≫= frees_of s = live_values V l.
Proof.
  intros HI Hl. unfold live_values. induction l as [|[k a] l IH]; [by destruct (cv_cb V)|].
  rewrite fmap_cons. csimpl. rewrite IH by (intros x Hx; apply Hl; by right).
  destruct (view_elem_live s _ _ _ _ _ _ _ _ _ _ _ k a HI (Hl (k, a) ltac:(left))) as (lf & Hlf & _ & [_ Hok] & Hev).
  unfold frees_of. rewrite Hlf. rewrite <- (vo_cb _ _ _ (ok_view _ _ _ _ _ _ HI)) in *. rewrite Hev.
  destruct (cv_cb V); [|done]. destruct (Hok eq_refl) as [_ Hv]. by rewrite (proj2 (Z.eqb_neq _ _)).
Qed.

Lemma wp_critnib_delete s V n base :
  crest s V n base -> all_released V ->
  wp critnib_delete (fun _ s' =>
    ba_live (c_host s') = base /\ c_nodes s' = ∅ /\ c_leaves s' = ∅ /\
    exists l, StronglySorted Z.lt (l.*1) /\ (forall k a, (k, a) ∈ l <-> cv_keys V !! k = Some a) /\
      c_freed s' = cv_freed V ++ live_values V l) s.
Proof.
  intros (L & N & DN & DL & ZL & HI) Hall. destruct (released_leaves s L N DN DL ZL V false n base HI Hall) as [-> Hfr].
  pose proof HI as [HI0 HV]. pose proof HI0 as [Ht [Na Nl Nc Np] [La Lc Ll Lv Lp _] Hh _]. simpl in *.
  rewrite app_nil_r in La. assert (dinv s (N ++ DN ++ pend_nodes s) (L.*2 ++ DL ++ pend_leaves s) base) as HD by done.
  assert (NoDup DN /\ (length DN <= size (c_nodes s))%nat) as [HndDN Hsz1].
  { destruct Na as [Hnd Hin]. apply NoDup_app in Hnd as (_ & _ & Hnd). apply NoDup_app in Hnd as (Hnd & _).
    split; [done|]. apply heap_bound; [done|]. intros a Ha. apply Hin. rewrite !elem_of_app. auto. }
  assert (NoDup DL /\ (length DL <= size (c_leaves s))%nat) as [HndDL Hsz2].
  { destruct La as [Hnd Hin]. apply NoDup_app in Hnd as (_ & _ & Hnd). apply NoDup_app in Hnd as (Hnd & _).
    split; [done|]. apply heap_bound; [done|]. intros a Ha. apply Hin. rewrite !elem_of_app. auto. }
  assert (forall b, b ∈ DN -> b ∉ N) as Hd1.
  { destruct (dinv_disjoint _ _ _ _ _ _ HD) as [Hd _]. intros b Hb Hin. apply (Hd b Hin). rewrite elem_of_app. auto. }
  assert (forall b, b ∈ DL ++ pend_leaves s -> b ∉ L.*2) as Hd2.
  { destruct (dinv_disjoint _ _ _ _ _ _ HD) as [_ Hd]. intros b Hb Hin. by apply (Hd b Hin). }
  assert (forall b, b ∈ pend_leaves s -> b ∉ DL) as Hd3.
  { destruct La as [Hnd _]. apply NoDup_app in Hnd as (_ & _ & Hnd). apply NoDup_app in Hnd as (_ & Hd & _).
    intros b Hb Hin. by apply (Hd b Hin). }
  unfold critnib_delete. wp_step. apply wp_bind.
  assert (deletes (if decide (root (c_crit s) = NNull) then mret tt else delete_node max_height (root (c_crit s))) s N (L.*2)) as Hdel.
  { destruct (decide (root (c_crit s) = NNull)) as [Er|Hne]; [|by apply (deletes_node _ 16)].
    rewrite Er in Ht. apply crep_null in Ht as [-> ->]. apply deletes_nil. }
  apply (Hdel (DN ++ pend_nodes s) (DL ++ pend_leaves s) base); [done|]. intros s1 HD1 Hk1 Ef1. apply wp_bind.
  unfold destroy_lock. wp_step. apply wp_c_assert; [by rewrite (kp_crit _ _ _ _ Hk1), (ct_mutex _ _ _ (ci_ctl _ _ _ _ _ HI0))|].
  apply wp_bind. apply (deletes_dnodes (size (c_nodes s)) (deleted_node (c_crit s)) DN s1) with (RN := pend_nodes s) (RL := DL ++ pend_leaves s) (base := base);
    [|done|done|done|].
  { apply (nchain_frame (c_nodes s)); [|done]. intros b Hb. apply (kp_nodes _ _ _ _ Hk1). by apply Hd1. }
  intros s2 HD2 Hk2 Ef2. apply wp_bind.
  apply (silent_dleaves (size (c_leaves s)) (deleted_leaf (c_crit s)) DL s2) with (RN := pend_nodes s) (RL := pend_leaves s) (base := base);
    [|done|done|done|].
  { apply (lchain_frame (c_leaves s)); [|done]. intros b Hb. rewrite (kp_leaves _ _ _ _ Hk2) by (by intros ?%elem_of_nil).
    apply (kp_leaves _ _ _ _ Hk1). apply Hd2. rewrite elem_of_app. auto. }
  intros s3 HD3 Hk3 Ef3. apply wp_bind.
  pose proof (kept_trans _ _ _ _ _ _ _ (kept_trans _ _ _ _ _ _ _ Hk1 Hk2) Hk3) as Hk. rewrite !app_nil_r in Hk.
  apply (silent_pending (pending_del_nodes (c_crit s)) (pending_del_leaves (c_crit s)) s3) with (RN := []) (RL := []) (base := base).
  { by rewrite Np, Ll. }
  { intros a Ha. rewrite (frees_of_kept s s3 _ _ a Hk); [by apply Hfr|]. rewrite elem_of_app. intros [Hin|Hin].
    - apply (Hd2 a); [rewrite elem_of_app; auto|done].
    - by apply (Hd3 a). }
  { rewrite !app_nil_r. exact HD3. }
  intros s4 [D4n D4l [Hv4 _ _ Hs4]] Hk4 Ef4. simpl. wp_step.
  assert (c_nodes s4 = ∅ /\ c_leaves s4 = ∅) as [En El].
  { split; apply map_eq; intros b; rewrite lookup_empty; apply eq_None_not_Some.
    - intros Hb%D4n. by apply elem_of_nil in Hb.
    - intros Hb%D4l. by apply elem_of_nil in Hb. }
  assert (self (c_crit s4) = self (c_crit s)) as Es by (by rewrite (kp_crit _ _ _ _ Hk4), (kp_crit _ _ _ _ Hk)).
  rewrite Es in *. split_and!; [|done|done|].
  - simpl. apply map_eq. intros b. 
    rewrite ba_free_live by (rewrite Hv4; unfold host_tag; rewrite En, El, Es, !lookup_empty; rewrite decide_True by done; done). destruct (decide (b = self (c_crit s))) as [->|Hne].
    + by rewrite lookup_delete_eq.
    + rewrite lookup_delete_ne by done. rewrite Hv4. unfold host_tag. rewrite En, El, Es, !lookup_empty. by rewrite decide_False.
  - exists L. split_and!.
    + apply (crep_sorted _ _ _ _ _ _ Ht).
    + intros k a. by rewrite (vo_keys _ _ _ HV).
    + simpl. rewrite Ef4, Ef3, Ef2, Ef1. csimpl. rewrite app_nil_r, <- (vo_freed _ _ _ HV). f_equal.
      by apply (live_frees s L N DN DL [] V false n base).
Qed.
End Delete.
