(* ===== verification/CritIter.v ===== *)
(** * [critnib_iter]

    The callback sees the keys of the range in increasing order until it
    returns a value that is not 0, when the pruning test of [iter] does not
    cut the range; a node at the top nibble prunes every range that does not
    start at 0. *)

From S2P Require Import Prelude Utils HostMem CritRep CritIns CritInv CritHeap CritInsert.
From S2P Require Import CritInsert CritRemove CritQuery.
From stdpp Require Import list sorting strings.
From S2P Require Import Critnib.
#[local] Open Scope Z_scope.
#[local] Opaque crep.

Lemma path_mask_value j : (j < 16)%nat -> path_mask (4 * Z.of_nat j) = two64 - 2 ^ (4 * Z.of_nat (S j)).
Proof. intros Hj. do 16 (destruct j as [|j]; [by vm_compute|]). lia. Qed.

Lemma land_le_l a b : 0 <= a -> Z.land a b <= a.
Proof.
  intros Ha. pose proof (Z.add_lor_land (Z.land a b) (Z.ldiff a b)) as E1.
  rewrite Z.lor_comm, Z.lor_ldiff_and in E1.
  assert (0 <= Z.ldiff a b) by (apply Z.ldiff_nonneg; auto).
  assert (0 <= Z.land (Z.land a b) (Z.ldiff a b)) by (apply Z.land_nonneg; auto).
  assert (Z.land (Z.land a b) (Z.ldiff a b) = 0) as E2; [|lia].
  apply Z.bits_inj'. intros n Hn. rewrite !Z.land_spec, Z.ldiff_spec, Z.bits_0.
  destruct (Z.testbit a n), (Z.testbit b n); done.
Qed.

Lemma lor_ge_r a b : 0 <= a -> b <= Z.lor a b.
Proof. intros Ha. pose proof (Z.add_lor_land a b). pose proof (land_le_l a b Ha). lia. Qed.

Section Iter.
Context `{HostAlloc H} {B : Type} (func : Z -> Z -> B -> Z * B).
Implicit Types (s : cstate H) (V : cview).

(** The callback on a list of keys and values. *)
Fixpoint visit (lo hi : Z) (l : list (Z * Z)) (arg : B) : B :=
  match l with
  | [] => arg
  | (k, v) :: l =>
    if (k >=? lo) && (k <=? hi) then
      let r := func k v arg in if r.1 =? 0 then visit lo hi l r.2 else r.2
    else visit lo hi l arg
  end.

Lemma visit_above lo hi l arg : (forall x, x ∈ l -> hi < x.1) -> visit lo hi l arg = arg.
Proof.
  induction l as [|[k v] l IH]; intros Hl; [done|]. simpl.
  assert (hi < k) by (apply (Hl (k, v)); left). rewrite (proj2 (Z.leb_gt k hi)), andb_false_r by lia.
  apply IH. intros x Hx. apply Hl. by right.
Qed.

(** The keys of a subtree with the values of their leaves. *)
Definition leaf_values s (L : leaf_list) : list (Z * Z) :=
  (fun x => (x.1, match c_leaves s !! x.2 with Some lf => value lf | None => 0 end)) <$> L.

(** A result of [iter] on [L]: go on, or stop for good. *)
Definition iterated s lo hi (L : leaf_list) (arg : B) (r : Z * B) : Prop :=
  (r.1 = 0 -> forall rest, visit lo hi (leaf_values s L ++ rest) arg = visit lo hi rest r.2) /\
  (r.1 <> 0 -> forall rest, (forall x y, x ∈ L -> y ∈ rest -> x.1 < y.1) -> visit lo hi (leaf_values s L ++ rest) arg = r.2).

Lemma elem_of_values s L y : y ∈ leaf_values s L -> exists x, x ∈ L /\ y.1 = x.1.
Proof. intros (x & -> & Hx)%list_elem_of_fmap. eauto. Qed.

Lemma iterated_app s lo hi L1 L2 arg r1 r2 :
  (forall x y, x ∈ L1 -> y ∈ L2 -> x.1 < y.1) -> iterated s lo hi L1 arg r1 -> r1.1 = 0 -> iterated s lo hi L2 r1.2 r2 ->
  iterated s lo hi (L1 ++ L2) arg r2.
Proof.
  intros Hlt [H0' _] E [G0 G1]. unfold iterated, leaf_values in *. rewrite fmap_app. split; intros Hr rest.
  - rewrite <- app_assoc, H0' by done. by apply G0.
  - intros Hrest. rewrite <- app_assoc, H0' by done. apply G1; [done|]. intros x y Hx Hy. apply Hrest; [|done]. rewrite elem_of_app. auto.
Qed.

Lemma iterated_stop s lo hi L1 L2 arg r1 c :
  (forall x y, x ∈ L1 -> y ∈ L2 -> x.1 < y.1) -> L1 <> [] -> iterated s lo hi L1 arg r1 -> r1.1 <> 0 -> c <> 0 ->
  iterated s lo hi (L1 ++ L2) arg (c, r1.2).
Proof.
  intros Hlt Hne [_ H1'] E Hc. split; [done|]. intros _ rest Hrest. unfold leaf_values in *. rewrite fmap_app, <- app_assoc.
  simpl. apply H1'; [done|]. intros x y Hx Hy. apply elem_of_app in Hy as [Hy|Hy].
  - apply elem_of_values in Hy as (z & Hz & ->). by apply Hlt.
  - apply Hrest; [rewrite elem_of_app; auto|done].
Qed.

(** The loop over the children. *)
Lemma wp_iter_children j fuel lo hi ch cs s arg (Q : Z * B -> cstate H -> Prop) :
  (forall p c arg (Q : Z * B -> cstate H -> Prop), tree s j p c.1 c.2 -> p <> NNull ->
    (forall r, iterated s lo hi c.1 arg r -> Q r s) -> wp (iter func fuel p lo hi arg) Q s) ->
  Forall2 (fun p (c : leaf_list * list Z) => tree s j p c.1 c.2) ch cs -> StronglySorted Z.lt ((part_keys cs).*1) ->
  (forall r, iterated s lo hi (part_keys cs) arg r -> Q r s) ->
  wp ((fix children (l : list nptr) (arg : B) : M (cstate H) (Z * B) :=
         match l with
         | [] => mret (0, arg)
         | m :: l =>
           if decide (m = NNull) then children l arg else
           r ← iter func fuel m lo hi arg;
           if negb (r.1 =? 0) then mret (1, r.2) else children l r.2
         end) ch arg) Q s.
Proof.
  intros Hit. revert cs arg Q. induction ch as [|p ch IH]; intros cs arg Q HF Hs HQ.
  - apply Forall2_nil_inv_l in HF as ->. wp_step. apply HQ. by split.
  - apply Forall2_cons_inv_l in HF as (c & cs' & Hc & HF & ->). change (part_keys (c :: cs')) with (c.1 ++ part_keys cs') in *.
    rewrite fmap_app in Hs. apply StronglySorted_app in Hs as (Hlt & _ & Hs).
    assert (forall x y : Z * Z, x ∈ c.1 -> y ∈ part_keys cs' -> x.1 < y.1) as Hlt'.
    { intros x y Hx Hy. apply Hlt; apply list_elem_of_fmap; eauto. }
    destruct (decide (p = NNull)) as [->|Hne].
    + apply crep_null in Hc as [Ec _]. rewrite Ec in HQ. by apply (IH cs').
    + apply wp_bind, (Hit p c); [done|done|]. intros r Hr. destruct (Z.eqb_spec (r.1) 0) as [E|E]; simpl.
      * apply (IH cs'); [done|done|]. intros r2 Hr2. apply HQ. apply (iterated_app _ _ _ _ _ _ r); [done..].
      * wp_step. apply HQ. apply (iterated_stop _ _ _ _ _ _ r); [done|by apply (crep_nonempty _ _ _ _ _ _ Hc)|done|done|lia].
Qed.

(** The pruning test never holds below the height [h]. *)
Lemma wp_iter h fuel lo hi p L N s arg (Q : Z * B -> cstate H -> Prop) :
  tree s h p L N -> p <> NNull -> (h <= fuel)%nat -> (h <= 16)%nat -> lo <= two64 - 2 ^ (4 * Z.of_nat h) ->
  (forall r, iterated s lo hi L arg r -> Q r s) -> wp (iter func fuel p lo hi arg) Q s.
Proof.
  revert fuel p L N arg Q. induction h as [h IH] using lt_wf_ind. intros fuel p L N arg Q Hr Hp Hf Hh Hlo HQ.
  destruct p as [|a|a]; [done| |].
  - pose proof Hr as Hr0. apply crep_node in Hr as (j & nd & cs & Hj & Hn & ->). destruct fuel as [|fuel]; [lia|].
    cbn [iter]. apply wp_bind, (wp_load_node a nd); [apply (nr_node _ _ _ _ _ _ _ Hn)|].
    assert (forall x, x ∈ part_keys cs -> path nd <= x.1) as Hpath.
    { intros x (i & c & Hc & Hx)%elem_of_part_keys. destruct (node_key _ _ _ _ _ _ _ _ _ _ Hn Hc Hx) as [E _].
      pose proof (nr_low _ _ _ _ _ _ _ Hn) as Hlow. unfold above in E. assert (0 < 2 ^ (4 * Z.of_nat (S j))) by (apply Z.pow_pos_nonneg; lia).
      pose proof (Z.div_mod (path nd) (2 ^ (4 * Z.of_nat (S j)))). pose proof (Z.mul_div_le x.1 (2 ^ (4 * Z.of_nat (S j)))). nia. }
    destruct (path nd >? hi) eqn:Ehi.
    { apply Z.gtb_lt in Ehi. wp_step. apply HQ. split; [done|]. intros _ rest Hrest. apply visit_above. intros y Hy.
      assert (part_keys cs <> []) as Hne by (by apply (crep_nonempty _ _ _ _ _ _ Hr0)).
      destruct (part_keys cs) as [|x0 l0] eqn:E; [done|]. specialize (Hpath x0 ltac:(left)) as Hp0.
      apply elem_of_app in Hy as [Hy|Hy].
      - apply elem_of_values in Hy as (x & Hx & ->). specialize (Hpath x Hx). lia.
      - specialize (Hrest x0 y ltac:(left) Hy). lia. }
    assert ((Z.lor (path nd) (path_mask (shift nd)) <? lo) = false) as ->.
    { apply Z.ltb_ge. rewrite (nr_shift _ _ _ _ _ _ _ Hn), path_mask_value by lia.
      pose proof (nr_path _ _ _ _ _ _ _ Hn) as [? _]. pose proof (lor_ge_r (path nd) (two64 - 2 ^ (4 * Z.of_nat (S j)))).
      assert (2 ^ (4 * Z.of_nat (S j)) <= 2 ^ (4 * Z.of_nat h)) by (apply Z.pow_le_mono_r; lia). lia. }
    apply (wp_iter_children j fuel lo hi (child nd) cs); [|apply Hn|by apply (crep_sorted _ _ _ _ _ _ Hr0)|done].
    intros q c arg' Q' Hq Hqn HQ'. apply (IH j Hj fuel q c.1 c.2); [done|done|lia|lia| |done].
    assert (2 ^ (4 * Z.of_nat j) <= 2 ^ (4 * Z.of_nat h)) by (apply Z.pow_le_mono_r; lia). lia.
  - apply crep_leaf in Hr as (k & Ha & _ & -> & _). apply leaf_keys_lookup in Ha as (lf & Ha & <-).
    assert (forall r, (if (key lf >=? lo) && (key lf <=? hi) then r = func (key lf) (value lf) arg else r = (0, arg)) ->
      iterated s lo hi [(key lf, a)] arg r) as Hres.
    { intros r Er. unfold iterated, leaf_values. simpl. rewrite Ha. destruct (_ && _); subst r.
      - split; intros Hr rest; [by rewrite (proj2 (Z.eqb_eq _ _)) by done|by rewrite (proj2 (Z.eqb_neq _ _)) by done].
      - split; [done|]. simpl. done. }
    destruct fuel; simpl; (apply wp_bind, (wp_load_leaf a lf); [done|]; destruct (_ && _) eqn:E; wp_step; apply HQ, Hres; done).
Qed.

(** Keys without a top nibble make a tree without a node there. *)
Lemma crep_lower ns ks p L N :
  crep ns ks 16 p L N -> (forall x, x ∈ L -> x.1 < 2 ^ 60) -> crep ns ks 15 p L N.
Proof.
  intros Hr Hlow. destruct p as [|a|a]; [by apply crep_null; apply crep_null in Hr| |by apply crep_leaf; apply crep_leaf in Hr].
  pose proof (fun x Hx => crep_key _ _ _ _ _ _ x Hr Hx) as Hu.
  apply crep_node in Hr as (j & nd & cs & Hj & Hn & ->). destruct (decide (j = 15%nat)) as [->|Hne].
  2: { apply (crep_mono _ _ (S j)); [lia|]. by apply (crep_node_intro _ _ j a nd cs). }
  exfalso. pose proof (nr_two _ _ _ _ _ _ _ Hn) as H2. destruct cs as [|c0 cs]; [simpl in H2; lia|].
  assert (filter (fun c : leaf_list * list Z => c.1 <> []) cs = []) as E.
  { apply filter_none, list.Forall_forall. intros c [i Hi]%list_elem_of_lookup Hc. destruct (c.1) as [|x l] eqn:Ec; [done|].
    assert (x ∈ c.1) as Hx by (rewrite Ec; left). assert (x ∈ part_keys (c0 :: cs)) as Hxp by (apply elem_of_part_keys; exists (S i), c; done).
    destruct (node_key _ _ _ _ _ _ _ (S i) c x Hn Hi Hx) as [_ Hnib]. specialize (Hlow x Hxp). destruct (Hu x Hxp) as [_ [? _]].
    unfold nibble, above in Hnib. rewrite Z.div_small in Hnib by (split; [done|exact Hlow]). rewrite Zmod_0_l in Hnib. lia. }
  rewrite filter_cons, E in H2. destruct (decide _); simpl in H2; lia.
Qed.

(** The keys with their values, in increasing order. *)
Definition key_values V (l : list (Z * Z)) : Prop :=
  StronglySorted Z.lt (l.*1) /\
  forall k v, (k, v) ∈ l <-> exists a r, cv_keys V !! k = Some a /\ cv_elems V !! a = Some (v, r).

Lemma key_values_tree s L N DN DL ZL V held n base :
  cok s (CPlace L N DN DL ZL [] []) V held n base -> key_values V (leaf_values s L).
Proof.
  intros HI. split.
  - replace ((leaf_values s L).*1) with (L.*1); [by apply (crep_sorted _ _ _ _ _ _ (ci_tree _ _ _ _ _ (ok_inv _ _ _ _ _ _ HI)))|].
    unfold leaf_values. rewrite <- list_fmap_compose. done.
  - intros k v. unfold leaf_values. rewrite list_elem_of_fmap. split.
    + intros ([k' a] & E & Hin). destruct (view_elem_live s _ _ _ _ _ _ _ _ _ _ _ k' a HI Hin) as (lf & Hlf & _ & _ & Hev).
      simpl in E. rewrite Hlf in E. injection E as -> ->. exists a. eexists. split; [|exact Hev].
      by apply (vo_keys _ _ _ (ok_view _ _ _ _ _ _ HI)).
    + intros (a & r & Hk & Hev). apply (vo_keys _ _ _ (ok_view _ _ _ _ _ _ HI)) in Hk. simpl in Hk. exists (k, a). split; [|done].
      destruct (view_elem_live s _ _ _ _ _ _ _ _ _ _ _ k a HI Hk) as (lf & Hlf & _ & _ & Hev').
      simpl. rewrite Hlf. congruence.
Qed.

Lemma wp_critnib_iter s V lo hi arg n base :
  crest s V n base -> lo = 0 \/ (lo <= two64 - 2 ^ 60 /\ forall k a, cv_keys V !! k = Some a -> k < 2 ^ 60) ->
  wp (critnib_iter func lo hi arg)
    (fun r s' => crest s' V n base /\ exists l, key_values V l /\ r = visit lo hi l arg) s.
Proof.
  intros (L & N & DN & DL & ZL & HI) Hlo. unfold critnib_iter. apply wp_bind, (wp_crit_lock s _ V n base _ HI).
  intros s1 HI1 _. wp_step. pose proof (ci_tree _ _ _ _ _ (ok_inv _ _ _ _ _ _ HI1)) as Ht. simpl in Ht.
  pose proof (key_values_tree s1 L N DN DL ZL V true n base HI1) as Hkv. apply wp_bind.
  assert (forall r : Z * B, (r.2 = visit lo hi (leaf_values s1 L) arg) ->
    wp (_ ← unlock; mret r.2) (fun r s' => crest s' V n base /\ exists l, key_values V l /\ r = visit lo hi l arg) s1) as Hend.
  { intros r Er. apply wp_bind, (wp_crit_unlock s1 _ V n base _ HI1). intros s2 HI2. wp_step. split; [by do 5 eexists|]. eauto. }
  destruct (decide (root (c_crit s1) = NNull)) as [Er|Hne].
  - wp_step. apply Hend. rewrite Er in Ht. apply crep_null in Ht as [-> _]. done.
  - assert (exists h, (h <= 16)%nat /\ tree s1 h (root (c_crit s1)) L N /\ lo <= two64 - 2 ^ (4 * Z.of_nat h)) as (h & Hh & Hth & Hloh).
    { destruct Hlo as [->|[Hlo Hk]]; [exists 16%nat; done|]. exists 15%nat. split_and!; [lia| |done]. apply crep_lower; [done|].
      intros [k a] Hx. apply (Hk k a). by apply (vo_keys _ _ _ (ok_view _ _ _ _ _ _ HI1)). }
    apply (wp_iter h max_height lo hi _ L N); [done|done|unfold max_height; lia|lia|done|]. intros r [R0 R1]. apply Hend.
    destruct (decide (r.1 = 0)) as [E|E].
    + specialize (R0 E []). rewrite app_nil_r in R0. by rewrite R0.
    + specialize (R1 E []). rewrite app_nil_r in R1. rewrite R1; [done|]. by intros x y _ ?%elem_of_nil.
Qed.

(** A node at the top nibble prunes every range that does not start at 0. *)
Lemma iter_prunes_top s L N a fuel lo hi arg :
  tree s 16 (NNode a) L N -> (exists x y, x ∈ L /\ y ∈ L /\ above x.1 15 <> above y.1 15) -> 0 < lo -> 0 <= hi ->
  iter func (S fuel) (NNode a) lo hi arg s = Some ((0, arg), s).
Proof.
  intros Hr (x & y & Hx & Hy & Hne) Hlo Hhi. apply crep_node in Hr as (j & nd & cs & Hj & Hn & ->).
  assert (j = 15%nat) as ->.
  { destruct (decide (j = 15%nat)); [done|]. exfalso. apply Hne.
    assert (forall x, x ∈ part_keys cs -> above x.1 15 = above (path nd) 15) as Heq; [|by rewrite !Heq].
    intros z (i & c & Hc & Hz)%elem_of_part_keys. apply (above_eq_mono _ _ (S j)); [lia|].
    by apply (node_key _ _ _ _ _ _ _ _ _ _ Hn Hc Hz). }
  assert (path nd = 0) as Hp.
  { pose proof (nr_low _ _ _ _ _ _ _ Hn) as Hlow. pose proof (nr_path _ _ _ _ _ _ _ Hn) as Hu. unfold is_u64 in Hu.
    rewrite Z.mod_small in Hlow; [done|]. rewrite two64_eq in Hu. exact Hu. }
  cbn [iter]. unfold load_node, mbind, M_bind, get, of_option. rewrite (nr_node _ _ _ _ _ _ _ Hn). unfold mret, M_ret.
  rewrite Hp, (nr_shift _ _ _ _ _ _ _ Hn), Z.gtb_ltb, (proj2 (Z.ltb_ge _ _)) by done.
  rewrite path_mask_value by lia. change (two64 - 2 ^ (4 * Z.of_nat 16)) with 0. rewrite Z.lor_0_l, (proj2 (Z.ltb_lt _ _)) by done.
  done.
Qed.

Lemma critnib_iter_pruned s V lo hi arg n base k1 a1 k2 a2 :
  crest s V n base -> cv_keys V !! k1 = Some a1 -> cv_keys V !! k2 = Some a2 -> k1 / 2 ^ 60 <> k2 / 2 ^ 60 ->
  0 < lo -> 0 <= hi -> wp (critnib_iter func lo hi arg) (fun r s' => crest s' V n base /\ r = arg) s.
Proof.
  intros (L & N & DN & DL & ZL & HI) Hk1 Hk2 Hne Hlo Hhi. unfold critnib_iter. apply wp_bind, (wp_crit_lock s _ V n base _ HI).
  intros s1 HI1 _. wp_step. pose proof (ci_tree _ _ _ _ _ (ok_inv _ _ _ _ _ _ HI1)) as Ht. simpl in Ht.
  apply (vo_keys _ _ _ (ok_view _ _ _ _ _ _ HI1)) in Hk1, Hk2. simpl in Hk1, Hk2.
  destruct (root (c_crit s1)) as [|r|r] eqn:Er.
  - apply crep_null in Ht as [-> _]. by apply elem_of_nil in Hk1.
  - apply wp_bind. rewrite decide_False by done. unfold wp at 1, max_height.
    rewrite (iter_prunes_top s1 L N r 15 lo hi arg Ht) by (done || by exists (k1, a1), (k2, a2)).
    apply wp_bind, (wp_crit_unlock s1 _ V n base _ HI1). intros s2 HI2. wp_step. split; [by do 5 eexists|done].
  - apply crep_leaf in Ht as (kk & _ & _ & -> & _). apply list_elem_of_singleton in Hk1, Hk2. congruence.
Qed.
End Iter.
