(* ===== verification/CritSpec.v ===== *)
(** * The abstract critnib

    What a client of src/critnib/critnib.h relies on: a map from keys to
    leaves, the value and the number of references of every leaf that is in
    the map or referenced, and the values passed to the callback.  Every
    sequence of calls of a client that obeys the rules refines it. *)

From S2P Require Import Prelude Utils HostMem CritRep CritIns CritInv CritHeap CritInsert.
From S2P Require Import CritInsert CritRemove CritQuery CritDelete.
From stdpp Require Import list sorting strings.
From S2P Require Import Critnib.
#[local] Open Scope Z_scope.
#[local] Opaque crep.

Inductive ccall :=
| CInsert (k v : Z) (update : bool)
| CRemove (k : Z) (ref : bool)
| CRelease (ref : option Z)
| CRemoveRelease (k : Z)
| CGet (k : Z) (ref : bool)
| CFindLe (k : Z) (ref : bool)
| CFind (k dir : Z) (ref : bool).

Inductive cres :=
| RInt (z : Z)
| RVal (v : Z) (ref : option Z)
| RFind (o : option (Z * Z * option Z)).

(** The rules for the client: keys are words, values are not NULL when the
    callback is set, a released reference is held, and an exact query of
    [critnib_find] is for a key that is there. *)
Definition cobeys (V : cview) (c : ccall) : Prop :=
  match c with
  | CInsert k v _ => is_u64 k /\ (cv_cb V = true -> v <> 0)
  | CRelease ref => cv_cb V = true -> forall a, ref = Some a -> exists v r, cv_elems V !! a = Some (v, r) /\ 0 < r
  | CFindLe k _ => is_u64 k
  | CFind k dir _ => is_u64 k /\ (dir = 0 -> is_Some (cv_keys V !! k))
  | _ => True
  end.

(** A query that ends at the leaf [o]. *)
Definition cquery (V : cview) (o : option Z) (r : cres) (V' : cview) : Prop :=
  match o with
  | None => r = RVal 0 None /\ V' = V
  | Some a => exists v n, cv_elems V !! a = Some (v, n) /\
      r = RVal v (if cv_cb V then Some a else None) /\ V' = cv_ref V a v n
  end.

(** The results and the state after a call; [ref] is demanded when the
    callback is set. *)
Definition cstep (V : cview) (c : ccall) (r : cres) (V' : cview) : Prop :=
  match c with
  | CInsert k v update =>
    (r = RInt ENOMEM /\ V' = V) \/
    match cv_keys V !! k with
    | None => exists a, cv_elems V !! a = None /\ r = RInt 0 /\ V' = cv_insert V k v a
    | Some a => if update then r = RInt 0 /\ V' = cv_update V a v else r = RInt EEXIST /\ V' = V
    end
  | CRemove k ref =>
    if cv_cb V && negb ref then r = RVal 0 None /\ V' = V else
    match cv_keys V !! k with
    | None => r = RVal 0 None /\ V' = V
    | Some a => exists v n, cv_elems V !! a = Some (v, n) /\
        r = RVal v (if cv_cb V then Some a else None) /\ V' = cv_remove V k a v n
    end
  | CRelease ref =>
    match ref with
    | Some a => if cv_cb V then exists v n, cv_elems V !! a = Some (v, n) /\ r = RInt 0 /\ V' = cv_release V a v n
                else r = RInt (-1) /\ V' = V
    | None => r = RInt (-1) /\ V' = V
    end
  | CRemoveRelease k =>
    match cv_keys V !! k with
    | None => r = RInt (-1) /\ V' = V
    | Some a => exists v n, cv_elems V !! a = Some (v, n) /\ r = RInt (if v =? 0 then -1 else 0) /\
        V' = let W := cv_remove V k a v n in if cv_cb V then cv_release W a v (n + 1) else W
    end
  | CGet k ref =>
    if cv_cb V && negb ref then r = RVal 0 None /\ V' = V else cquery V (cv_keys V !! k) r V'
  | CFindLe k ref =>
    if cv_cb V && negb ref then r = RVal 0 None /\ V' = V
    else exists o, best_le (cv_keys V) k o /\ cquery V (snd <$> o) r V'
  | CFind k dir ref =>
    if cv_cb V && negb ref then r = RFind None /\ V' = V else
    exists o, find_spec (cv_keys V) k dir o /\
      match o with
      | None => r = RFind None /\ V' = V
      | Some (k0, a) => exists v n, cv_elems V !! a = Some (v, n) /\
          r = RFind (Some (k0, v, if cv_cb V then Some a else None)) /\ V' = cv_ref V a v n
      end
  end.

Fixpoint csteps (V : cview) (evs : list (ccall * cres)) (V' : cview) : Prop :=
  match evs with
  | [] => V' = V
  | (c, r) :: evs => exists W, cstep V c r W /\ csteps W evs V'
  end.

Fixpoint ctrace_obeys (V : cview) (evs : list (ccall * cres)) : Prop :=
  match evs with
  | [] => True
  | (c, r) :: evs => cobeys V c /\ forall W, cstep V c r W -> ctrace_obeys W evs
  end.

Definition cv_new (cb : bool) : cview := CView ∅ ∅ [] cb.

Section Spec.
Context `{HostAllocLaws H}.
Implicit Types (s : cstate H) (V : cview).

Definition run_ccall (c : ccall) : M (cstate H) cres :=
  match c with
  | CInsert k v update => x ← critnib_insert k v update; mret (RInt x)
  | CRemove k ref => x ← critnib_remove k ref; mret (RVal x.1 x.2)
  | CRelease ref => x ← critnib_release ref; mret (RInt x)
  | CRemoveRelease k => x ← critnib_remove_release k; mret (RInt x)
  | CGet k ref => x ← critnib_get k ref; mret (RVal x.1 x.2)
  | CFindLe k ref => x ← critnib_find_le k ref; mret (RVal x.1 x.2)
  | CFind k dir ref => x ← critnib_find k dir ref; mret (RFind x)
  end.

Fixpoint run_ccalls (cs : list ccall) : M (cstate H) (list cres) :=
  match cs with
  | [] => mret []
  | c :: cs => r ← run_ccall c; rs ← run_ccalls cs; mret (r :: rs)
  end.

Lemma crest_mono s V n m base : n <= m -> crest s V n base -> crest s V m base.
Proof. intros Hle (L & N & DN & DL & ZL & HI). do 5 eexists. by apply (cok_mono _ _ _ _ n). Qed.

Lemma crest_cb s V n base : crest s V n base -> cb_free_leaf (c_crit s) = cv_cb V.
Proof. intros (L & N & DN & DL & ZL & HI). symmetry. apply (vo_cb _ _ _ (ok_view _ _ _ _ _ _ HI)). Qed.

(** A call without the reference that it demands returns at once. *)
Lemma guarded s (ref : bool) :
  cb_free_leaf (c_crit s) && negb ref = true ->
  (forall k, critnib_remove k ref s = Some ((0, None), s)) /\ (forall k, critnib_get k ref s = Some ((0, None), s)) /\
  (forall k, critnib_find_le k ref s = Some ((0, None), s)) /\ (forall k dir, critnib_find k dir ref s = Some (None, s)).
Proof.
  intros E. unfold critnib_remove, critnib_get, critnib_find_le, critnib_find, mbind, M_bind, get. by rewrite E.
Qed.

Lemma query_step V n base o r s' :
  query_post V n base o r s' -> exists V', cquery V o (RVal r.1 r.2) V' /\ crest s' V' n base.
Proof. intros [s2 Hr|s2 a v x Hev Hr]; simpl; [by exists V|]. exists (cv_ref V a v x). split; [eauto|done]. Qed.

Lemma find_step V n base o r s' :
  find_post V n base o r s' ->
  exists V', match o with
             | None => RFind r = RFind None /\ V' = V
             | Some (k0, a) => exists v m, cv_elems V !! a = Some (v, m) /\
                 RFind r = RFind (Some (k0, v, if cv_cb V then Some a else None)) /\ V' = cv_ref V a v m
             end /\ crest s' V' n base.
Proof. intros [s2 Hr|s2 k a v x Hev Hr]; [by exists V|]. exists (cv_ref V a v x). split; [eauto|done]. Qed.

Lemma wp_ccall s V c n base :
  crest s V n base -> 0 <= n -> n + DELETED_LIFE < two64 -> cobeys V c ->
  wp (run_ccall c) (fun r s' => exists V', cstep V c r V' /\ crest s' V' (n + 1) base) s.
Proof.
  intros HI Hn0 Hn Hob. pose proof (crest_mono s V n (n + 1) base ltac:(lia) HI) as HI1. pose proof (crest_cb _ _ _ _ HI) as Ecb.
  unfold DELETED_LIFE in Hn.
  assert (forall (ref : bool) (A : Type) (m : M (cstate H) A) (f : A -> cres) (r : A) (P : cres -> cview -> Prop),
    cv_cb V && negb ref = true -> m s = Some (r, s) -> P (f r) V ->
    wp (x ← m; mret (f x)) (fun r s' => exists V', P r V' /\ crest s' V' (n + 1) base) s) as Hg.
  { intros ref A m f r P _ E HP. apply wp_bind. unfold wp at 1. rewrite E. wp_step. eauto. }
  destruct c as [k v update|k ref|ref|k|k ref|k ref|k dir ref]; simpl in Hob |- *.
  - destruct Hob as [Hk Hv]. apply wp_bind. eapply wp_mono; [by apply (wp_critnib_insert s V k v update (n + 1) base); [..|lia]|].
    intros r s' Hp. wp_step. destruct Hp as [s2 Hr|s2 a Hk1 Ha Hr|s2 a Hk1 -> Hr|s2 a Hk1 -> Hr].
    + exists V. split; [by left|done].
    + eexists. split; [right; rewrite Hk1; eauto|done].
    + eexists. split; [right; rewrite Hk1; eauto|done].
    + eexists. split; [right; rewrite Hk1; eauto|done].
  - destruct (cv_cb V && negb ref) eqn:E; [by apply (Hg ref _ _ _ (0, None)); [|apply guarded; rewrite Ecb|]|].
    apply wp_bind. eapply wp_mono; [apply (wp_critnib_remove s V k ref n base HI); [done|lia|done]|].
    intros r s' Hp. wp_step. destruct Hp as [s2 Hk Hr|s2 a v x Hk Hev Hr]; rewrite Hk; eexists; (split; [|exact Hr]); eauto.
  - destruct ref as [a|]; [destruct (cv_cb V) eqn:E|].
    + destruct (Hob eq_refl a eq_refl) as (v & r & Hev & Hr). apply wp_bind.
      eapply wp_mono; [apply (wp_critnib_release s V a v r (n + 1) base HI1 E Hev Hr); lia|].
      intros x s' [-> Hs']. wp_step. eexists. split; [|exact Hs']. eauto.
    + apply wp_bind. unfold critnib_release. wp_step. rewrite Ecb. simpl. wp_step. wp_step. by exists V.
    + apply wp_bind. unfold critnib_release. wp_step. destruct (negb (cb_free_leaf (c_crit s))); wp_step; wp_step; by exists V.
  - apply wp_bind. eapply wp_mono; [apply (wp_critnib_remove_release s V k n base HI); lia|]. intros x s' Hp. wp_step.
    destruct (cv_keys V !! k) as [a|]; [|destruct Hp as [-> Hr]; by exists V].
    destruct Hp as (v & r & Hev & -> & Hr). eexists. split; [|exact Hr]. eauto.
  - destruct (cv_cb V && negb ref) eqn:E; [by apply (Hg ref _ _ _ (0, None)); [|apply guarded; rewrite Ecb|]|].
    apply wp_bind. eapply wp_mono; [apply (wp_critnib_get s V k ref n base HI); [done|unfold DELETED_LIFE; lia|done]|].
    intros r s' Hp. wp_step. by apply query_step in Hp.
  - destruct (cv_cb V && negb ref) eqn:E; [by apply (Hg ref _ _ _ (0, None)); [|apply guarded; rewrite Ecb|]|].
    apply wp_bind. eapply wp_mono; [apply (wp_critnib_find_le s V k ref n base HI); [done|unfold DELETED_LIFE; lia|done|done]|].
    intros r s' (o & Hb & Hp). wp_step. apply query_step in Hp as (V' & Hq & Hr). exists V'. split; [by exists o|done].
  - destruct Hob as [Hk Hd]. destruct (cv_cb V && negb ref) eqn:E; [by apply (Hg ref _ _ _ None); [|apply guarded; rewrite Ecb|]|].
    apply wp_bind. eapply wp_mono; [apply (wp_critnib_find s V k dir ref n base HI); [done|unfold DELETED_LIFE; lia|done|done|done]|].
    intros r s' (o & Hb & Hp). wp_step. apply find_step in Hp as (V' & Hq & Hr). exists V'. split; [by exists o|done].
Qed.

Lemma ccalls_refine cs s V rs s' n base :
  crest s V n base -> 0 <= n -> n + Z.of_nat (length cs) + DELETED_LIFE < two64 ->
  run_ccalls cs s = Some (rs, s') -> ctrace_obeys V (zip cs rs) ->
  length rs = length cs /\ exists V', csteps V (zip cs rs) V' /\ crest s' V' (n + Z.of_nat (length cs)) base.
Proof.
  revert s V rs n. induction cs as [|c cs IH]; intros s V rs n HI Hn0 Hn Hrun Hob; cbn [run_ccalls] in Hrun.
  - injection Hrun as <- <-. split; [done|]. exists V. rewrite Z.add_0_r. done.
  - unfold mbind, M_bind in Hrun. destruct (run_ccall c s) as [[r s1]|] eqn:E1; [|done].
    destruct (run_ccalls cs s1) as [[rs' s2]|] eqn:E2; [|done]. injection Hrun as <- <-. destruct Hob as [Hc Hob].
    pose proof (wp_ccall s V c n base HI Hn0) as Hwp. unfold wp in Hwp. rewrite E1 in Hwp. simpl length in Hn |- *.
    destruct Hwp as (W & Hst & HW); [lia|done|].
    destruct (IH s1 W rs' (n + 1) HW) as (Hl & V' & Hsts & HV'); [lia|lia|done|by apply Hob|].
    split; [simpl; lia|]. exists V'. split; [by exists W|]. by replace (n + Z.of_nat (S (length cs))) with (n + 1 + Z.of_nat (length cs)) by lia.
Qed.
End Spec.
