(* ===== verification/CritTheorems.v ===== *)
(** * Theorems about the critnib

    The properties of src/critnib/critnib.c, with runs of the model on an
    executable allocator that show that they apply. *)

From S2P Require Import Prelude Utils HostMem CritRep CritIns CritInv CritHeap CritInsert.
From S2P Require Import CritInsert CritRemove CritQuery CritDelete CritIter CritSpec.
From stdpp Require Import list sorting strings.
From S2P Require Import Critnib.
#[local] Open Scope Z_scope.
#[local] Opaque crep.

Section Claims.
Context `{HostAllocLaws H}.
Implicit Types (s : cstate H) (V : cview).

(** C3 Every executed sequence of calls of a critnib made by [critnib_new], by a
    client that obeys the rules, refines the abstract map with reference
    counts: an inserted key is found with its value, a removed one is not, the
    ordered queries return the nearest key, and a value is passed to the
    callback exactly when the last reference of its removed leaf is released. *)
Theorem critnib_calls_refine cb ok (h h' : H) s cs rs s' :
  critnib_new cb ok h = (Some s, h') -> Z.of_nat (length cs) + DELETED_LIFE < two64 ->
  run_ccalls cs s = Some (rs, s') -> ctrace_obeys (cv_new cb) (zip cs rs) ->
  length rs = length cs /\
  exists V, csteps (cv_new cb) (zip cs rs) V /\ crest s' V (Z.of_nat (length cs)) (ba_live h).
Proof.
  intros Hnew Hlen Hrun Hob. apply critnib_new_rest in Hnew as [HI _].
  by apply (ccalls_refine cs s (cv_new cb) rs s' 0 (ba_live h)).
Qed.

(** C10 A valid call runs to the end: no NULL or dangling pointer is followed, no
    assertion fails, the mutex is released, and the result is one that the
    abstract map allows. *)
Theorem critnib_call_total s V c n base :
  crest s V n base -> 0 <= n -> n + DELETED_LIFE < two64 -> cobeys V c ->
  wp (run_ccall c) (fun r s' => exists V', cstep V c r V' /\ crest s' V' (n + 1) base) s.
Proof. apply wp_ccall. Qed.

(** C26 Deleting a critnib whose removed leaves have all been released returns
    every node, every leaf and the struct to the allocator: it holds what it
    held before [critnib_new]; the callback gets the values still in the tree,
    by increasing key. *)
Theorem critnib_no_leak cb ok (h h' : H) s cs rs s' :
  critnib_new cb ok h = (Some s, h') -> Z.of_nat (length cs) + DELETED_LIFE < two64 ->
  run_ccalls cs s = Some (rs, s') -> ctrace_obeys (cv_new cb) (zip cs rs) ->
  (forall V, csteps (cv_new cb) (zip cs rs) V -> all_released V) ->
  wp critnib_delete (fun _ s2 =>
    ba_live (c_host s2) = ba_live h /\ c_nodes s2 = ∅ /\ c_leaves s2 = ∅ /\
    exists V l, csteps (cv_new cb) (zip cs rs) V /\ StronglySorted Z.lt (l.*1) /\
      (forall k a, (k, a) ∈ l <-> cv_keys V !! k = Some a) /\ c_freed s2 = cv_freed V ++ live_values V l) s'.
Proof.
  intros Hnew Hlen Hrun Hob Hall. apply critnib_new_rest in Hnew as [HI _].
  destruct (ccalls_refine cs s (cv_new cb) rs s' 0 (ba_live h) HI) as (_ & V & Hst & HV); [done..|].
  eapply wp_mono; [by apply (wp_critnib_delete s' V _ _ HV), Hall|].
  intros _ s2 (Hb & Hn & Hl & l & Hs & Hk & Hf). split_and!; [done..|]. by exists V, l.
Qed.

(** C28 [critnib_iter] calls the callback on the keys of the range, with their
    values, in increasing order until it returns a value that is not 0, for
    every range that starts at 0 and for every range below the top when no key
    uses the top nibble. *)
Theorem critnib_iter_visits {B} (func : Z -> Z -> B -> Z * B) s V lo hi arg n base :
  crest s V n base -> lo = 0 \/ (lo <= two64 - 2 ^ 60 /\ forall k a, cv_keys V !! k = Some a -> k < 2 ^ 60) ->
  wp (critnib_iter func lo hi arg)
    (fun r s' => crest s' V n base /\ exists l, key_values V l /\ r = visit func lo hi l arg) s.
Proof. apply wp_critnib_iter. Qed.

(** C38 A critnib with keys in two different top nibbles: [critnib_iter] visits
    nothing at all unless the range starts at 0, whatever keys are in it. *)
Theorem critnib_iter_prunes {B} (func : Z -> Z -> B -> Z * B) s V lo hi arg n base k1 a1 k2 a2 :
  crest s V n base -> cv_keys V !! k1 = Some a1 -> cv_keys V !! k2 = Some a2 -> k1 / 2 ^ 60 <> k2 / 2 ^ 60 ->
  0 < lo -> 0 <= hi -> wp (critnib_iter func lo hi arg) (fun r s' => crest s' V n base /\ r = arg) s.
Proof. apply critnib_iter_pruned. Qed.

(** C39 An exact query of [critnib_find] on an empty critnib follows a NULL
    pointer: the call is undefined. *)
Theorem critnib_find_eq_crashes s V k ref n base :
  crest s V n base -> cv_keys V = ∅ -> cv_cb V && negb ref = false -> critnib_find k FIND_EQ ref s = None.
Proof.
  intros HI Hk Hg. pose proof (crest_cb _ _ _ _ HI) as Ecb. destruct HI as (L & N & DN & DL & ZL & HI).
  pose proof (ci_tree _ _ _ _ _ (ok_inv _ _ _ _ _ _ HI)) as Ht. simpl in Ht.
  destruct L as [|[k0 a0] L].
  - apply crep_empty in Ht. unfold critnib_find, mbind, M_bind, get. rewrite Ecb, Hg, Ht. done.
  - assert (cv_keys V !! k0 = Some a0) as E by (apply (vo_keys _ _ _ (ok_view _ _ _ _ _ _ HI)); left).
    by rewrite Hk, lookup_empty in E.
Qed.
End Claims.

(** ** Witnesses *)

Definition demo_trace : list ccall :=
  [CInsert 20 1001 false; CInsert 36 1002 false; CInsert 36 1003 true; CFindLe 30 true;
   CRemoveRelease 36; CGet 20 true; CRemove 99 true].

Definition demo_results : list cres :=
  [RInt 0; RInt 0; RInt 0; RVal 1001 (Some 2); RInt 0; RVal 1001 (Some 2); RVal 0 None].

Lemma demo_trace_obeys : ctrace_obeys (cv_new true) (zip demo_trace demo_results).
Proof. repeat (split; [try (split; [unfold is_u64, two64; lia|done]); done|intros ? ?]); done. Qed.

Lemma critnib_calls_refine_witness :
  exists (s s' : cstate scripted) h' V, critnib_new true true (host0 []) = (Some s, h') /\
    run_ccalls demo_trace s = Some (demo_results, s') /\ csteps (cv_new true) (zip demo_trace demo_results) V.
Proof.
  destruct (critnib_new true true (host0 [])) as [[s|] h'] eqn:E; [|by vm_compute in E].
  destruct (run_ccalls demo_trace s) as [[rs s']|] eqn:Er; [|vm_compute in E; injection E as <- <-; by vm_compute in Er].
  assert (rs = demo_results) as ->.
  { vm_compute in E. injection E as <- <-.
    apply (f_equal (option_map fst)) in Er. vm_compute in Er. by injection Er as <-. }
  destruct (critnib_calls_refine true true (host0 []) h' s demo_trace demo_results s' E) as (_ & V & Hst & _);
    [by vm_compute|done|exact demo_trace_obeys|]. by exists s, s', h', V.
Defined.

(** A critnib with the keys 1 and 2^60. *)
Definition demo_pair : list ccall := [CInsert 1 1001 false; CInsert (2 ^ 60) 1002 false].

Lemma demo_pair_state :
  exists (s : cstate scripted) V a1 a2, crest s V 2 ∅ /\ cv_keys V !! 1 = Some a1 /\ cv_keys V !! (2 ^ 60) = Some a2.
Proof.
  destruct (critnib_new true true (host0 [])) as [[s|] h'] eqn:E; [|by vm_compute in E].
  destruct (critnib_new_rest _ _ _ _ _ E) as [HI _].
  destruct (run_ccalls demo_pair s) as [[rs s']|] eqn:Er; [|vm_compute in E; injection E as <- <-; by vm_compute in Er].
  assert (rs = [RInt 0; RInt 0]) as ->.
  { vm_compute in E. injection E as <- <-. apply (f_equal (option_map fst)) in Er. vm_compute in Er. by injection Er as <-. }
  destruct (ccalls_refine demo_pair s (CView ∅ ∅ [] true) [RInt 0; RInt 0] s' 0 (ba_live (host0 [])) HI) as (_ & V & Hst & HV); [done|by vm_compute|done| |].
  { split; [split; [unfold is_u64, two64; lia|done]|]. intros W _. split; [split; [unfold is_u64, two64; lia|done]|]. done. }
  destruct Hst as (W1 & [[? _]|(a1 & _ & _ & ->)] & W2 & Hs2 & ->); [done|].
  destruct Hs2 as [[? _]|Hs2]; [done|]. simpl in Hs2. rewrite lookup_insert_ne, lookup_empty in Hs2 by done.
  destruct Hs2 as (a2 & _ & _ & ->). exists s', (cv_insert (cv_insert (CView ∅ ∅ [] true) 1 1001 a1) (2 ^ 60) 1002 a2), a1, a2.
  split; [exact HV|]. split; [|apply lookup_insert_eq]. simpl. rewrite lookup_insert_ne by done. apply lookup_insert_eq.
Qed.

Lemma critnib_call_total_witness :
  exists (s : cstate scripted) V, crest s V 2 ∅ /\
    wp (run_ccall (CInsert 17 1003 false))
      (fun r s' => exists V', cstep V (CInsert 17 1003 false) r V' /\ crest s' V' (2 + 1) ∅) s.
Proof.
  destruct demo_pair_state as (s & V & _ & _ & HI & _). exists s, V. split; [done|].
  apply (critnib_call_total s V _ 2 ∅ HI); [lia|by vm_compute|]. split; [unfold is_u64, two64; lia|done].
Defined.

Lemma critnib_no_leak_witness :
  exists (s s' : cstate scripted) h' rs, critnib_new true true (host0 []) = (Some s, h') /\
    run_ccalls [CInsert 20 1001 false] s = Some (rs, s') /\
    wp critnib_delete (fun _ s2 => ba_live (c_host s2) = ∅ /\ c_nodes s2 = ∅ /\ c_leaves s2 = ∅) s'.
Proof.
  destruct (critnib_new true true (host0 [])) as [[s|] h'] eqn:E; [|by vm_compute in E].
  destruct (run_ccalls [CInsert 20 1001 false] s) as [[rs s']|] eqn:Er; [|vm_compute in E; injection E as <- <-; by vm_compute in Er].
  exists s, s', h', rs. split; [done|]. split; [done|].
  assert (rs = [RInt 0]) as ->.
  { vm_compute in E. injection E as <- <-. apply (f_equal (option_map fst)) in Er. vm_compute in Er. by injection Er as <-. }
  eapply wp_mono; [apply (critnib_no_leak true true (host0 []) h' s [CInsert 20 1001 false] [RInt 0] s' E)|].
  - by vm_compute.
  - done.
  - split; [split; [unfold is_u64, two64; lia|done]|done].
  - intros V (W & [[? _]|(a & _ & _ & ->)] & ->) b e Hb; [done|]. simpl in Hb.
    apply lookup_insert_Some in Hb as [[<- _]|[_ Hb]]; [|by rewrite lookup_empty in Hb].
    exists 20, a. split; [apply lookup_insert_eq|done].
  - intros _ s2 (Hb & Hn & Hl & _). done.
Defined.

(** The callback that collects the keys. *)
Definition collect (k v : Z) (acc : list Z) : Z * list Z := (0, acc ++ [k]).

Lemma critnib_iter_visits_witness :
  exists (s : cstate scripted) V, crest s V 2 ∅ /\
    wp (critnib_iter collect 0 SIZE_MAX [])
      (fun r s' => crest s' V 2 ∅ /\ exists l, key_values V l /\ r = visit collect 0 SIZE_MAX l []) s.
Proof.
  destruct demo_pair_state as (s & V & _ & _ & HI & _). exists s, V. split; [done|].
  apply (critnib_iter_visits collect s V 0 SIZE_MAX [] 2 ∅ HI). by left.
Defined.

Lemma critnib_iter_prunes_witness :
  exists (s : cstate scripted) V, crest s V 2 ∅ /\
    wp (critnib_iter collect 1 SIZE_MAX []) (fun r s' => crest s' V 2 ∅ /\ r = []) s.
Proof.
  destruct demo_pair_state as (s & V & a1 & a2 & HI & H1 & H2). exists s, V. split; [done|].
  apply (critnib_iter_prunes collect s V 1 SIZE_MAX [] 2 ∅ 1 a1 (2 ^ 60) a2 HI H1 H2); by vm_compute.
Defined.

Lemma critnib_find_eq_crashes_witness :
  exists s : cstate scripted, critnib_find 5 FIND_EQ true s = None.
Proof.
  destruct (critnib_new true true (host0 [])) as [[s|] h'] eqn:E; [|by vm_compute in E].
  destruct (critnib_new_rest _ _ _ _ _ E) as [HI _]. exists s.
  by apply (critnib_find_eq_crashes s (CView ∅ ∅ [] true) 5 true 0 (ba_live (host0 []))).
Defined.
