(* ===== verification/Provider.v ===== *)
(** * Memory providers: src/memory_provider.c

    A memory provider is a table of functions over some state [W], its
    private data and what it can reach.  The functions here check their
    arguments, call the table and remember the provider that failed last.
    An out-parameter is passed as the content of the variable before the call
    and returned as its content after it, [None] when the pointer to it is
    NULL; any other pointer is an address, 0 for NULL.
    Logging and [libumfInit] are left out; the warning about the name of a new
    provider is a call of [get_name] whose result only reaches the log. *)

From S2P Require Import Prelude HostMem.
From stdpp Require Import strings.
#[local] Open Scope Z_scope.

Inductive umf_ctl_query_type_t := CTL_QUERY_READ | CTL_QUERY_WRITE | CTL_QUERY_RUNNABLE.
Inductive umf_ctl_query_source_t := CTL_UNKNOWN_QUERY_SOURCE | CTL_QUERY_PROGRAMMATIC | CTL_QUERY_CONFIG_INPUT.

(** [umf_memory_provider_ops_t]: a missing function pointer is [None].  The
    first argument of each function is the private data of the provider; IPC
    data is a list of bytes. *)
Record umf_memory_provider_ops_t (W : Type) := mk_ops {
  version : Z;
  initialize : option (Z -> Z -> M W (umf_result_t * Z));
  finalize : option (Z -> M W umf_result_t);
  alloc : option (Z -> Z -> Z -> Z -> M W (umf_result_t * Z));
  free : option (Z -> Z -> Z -> M W umf_result_t);
  get_last_native_error : option (Z -> string -> Z -> M W (umf_result_t * (string * Z)));
  get_recommended_page_size : option (Z -> Z -> Z -> M W (umf_result_t * Z));
  get_min_page_size : option (Z -> Z -> Z -> M W (umf_result_t * Z));
  get_name : option (Z -> option string -> M W (umf_result_t * option string));
  ext_purge_lazy : option (Z -> Z -> Z -> M W umf_result_t);
  ext_purge_force : option (Z -> Z -> Z -> M W umf_result_t);
  ext_allocation_merge : option (Z -> Z -> Z -> Z -> M W umf_result_t);
  ext_allocation_split : option (Z -> Z -> Z -> Z -> M W umf_result_t);
  ext_get_ipc_handle_size : option (Z -> Z -> M W (umf_result_t * Z));
  ext_get_ipc_handle : option (Z -> Z -> Z -> list Z -> M W (umf_result_t * list Z));
  ext_put_ipc_handle : option (Z -> list Z -> M W umf_result_t);
  ext_open_ipc_handle : option (Z -> list Z -> Z -> M W (umf_result_t * Z));
  ext_close_ipc_handle : option (Z -> Z -> Z -> M W umf_result_t);
  ext_ctl : option (Z -> umf_ctl_query_source_t -> string -> Z -> Z -> umf_ctl_query_type_t -> M W umf_result_t);
}.
Arguments mk_ops {W}.
Arguments version {W}. Arguments initialize {W}. Arguments finalize {W}.
Arguments alloc {W}. Arguments free {W}. Arguments get_last_native_error {W}.
Arguments get_recommended_page_size {W}. Arguments get_min_page_size {W}.
Arguments get_name {W}. Arguments ext_purge_lazy {W}. Arguments ext_purge_force {W}.
Arguments ext_allocation_merge {W}. Arguments ext_allocation_split {W}.
Arguments ext_get_ipc_handle_size {W}. Arguments ext_get_ipc_handle {W}.
Arguments ext_put_ipc_handle {W}. Arguments ext_open_ipc_handle {W}.
Arguments ext_close_ipc_handle {W}. Arguments ext_ctl {W}.

Record umf_memory_provider_t (W : Type) := mk_provider {
  provider_priv : Z;
  ops : umf_memory_provider_ops_t W;
}.
Arguments mk_provider {W}. Arguments provider_priv {W}. Arguments ops {W}.

(** The providers by their handle, the thread-local variable
    [lastFailedProvider], the host allocator, whether it has been destroyed,
    and the state of the providers. *)
Record dstate (H W : Type) := mk_dstate {
  d_provs : gmap Z (umf_memory_provider_t W);
  lastFailedProvider : Z;
  d_host : H;
  umf_ba_global_is_destroyed : bool;
  d_world : W;
}.
Arguments mk_dstate {H W}. Arguments d_provs {H W}. Arguments lastFailedProvider {H W}.
Arguments d_host {H W}. Arguments umf_ba_global_is_destroyed {H W}. Arguments d_world {H W}.

Definition tag_provider : string := "umf_memory_provider_t".
Definition sizeof_provider : Z := 160.

Section Provider.
Context `{HostAlloc H} {W : Type}.
Abbreviation D := (M (dstate H W)).
Implicit Types o : umf_memory_provider_ops_t W.

Definition with_provs (p : gmap Z (umf_memory_provider_t W)) (s : dstate H W) : dstate H W :=
  mk_dstate p (lastFailedProvider s) (d_host s) (umf_ba_global_is_destroyed s) (d_world s).
Definition with_last (h : Z) (s : dstate H W) : dstate H W :=
  mk_dstate (d_provs s) h (d_host s) (umf_ba_global_is_destroyed s) (d_world s).
Definition with_dhost (h : H) (s : dstate H W) : dstate H W :=
  mk_dstate (d_provs s) (lastFailedProvider s) h (umf_ba_global_is_destroyed s) (d_world s).
Definition with_world (w : W) (s : dstate H W) : dstate H W :=
  mk_dstate (d_provs s) (lastFailedProvider s) (d_host s) (umf_ba_global_is_destroyed s) w.

(** A call through a function pointer: a call of NULL is undefined. *)
Definition call {A} (m : M W A) : D A :=
  fun s => match m (d_world s) with Some (a, w) => Some (a, with_world w s) | None => None end.

Definition fn {A} (o : option A) : D A := of_option o.

Definition deref (hProvider : Z) : D (umf_memory_provider_t W) :=
  s ← get; of_option (d_provs s !! hProvider).

(** ** Defaults of the optional operations *)

Definition umfDefaultPurgeLazy (_ _ _ : Z) : M W umf_result_t := mret UMF_RESULT_ERROR_NOT_SUPPORTED.
Definition umfDefaultPurgeForce (_ _ _ : Z) : M W umf_result_t := mret UMF_RESULT_ERROR_NOT_SUPPORTED.
Definition umfDefaultAllocationSplit (_ _ _ _ : Z) : M W umf_result_t := mret UMF_RESULT_ERROR_NOT_SUPPORTED.
Definition umfDefaultAllocationMerge (_ _ _ _ : Z) : M W umf_result_t := mret UMF_RESULT_ERROR_NOT_SUPPORTED.
Definition umfDefaultGetIPCHandleSize (_ size : Z) : M W (umf_result_t * Z) :=
  mret (UMF_RESULT_ERROR_NOT_SUPPORTED, size).
Definition umfDefaultGetIPCHandle (_ _ _ : Z) (providerIpcData : list Z) : M W (umf_result_t * list Z) :=
  mret (UMF_RESULT_ERROR_NOT_SUPPORTED, providerIpcData).
Definition umfDefaultPutIPCHandle (_ : Z) (_ : list Z) : M W umf_result_t := mret UMF_RESULT_ERROR_NOT_SUPPORTED.
Definition umfDefaultOpenIPCHandle (_ : Z) (_ : list Z) (ptr : Z) : M W (umf_result_t * Z) :=
  mret (UMF_RESULT_ERROR_NOT_SUPPORTED, ptr).
Definition umfDefaultCloseIPCHandle (_ _ _ : Z) : M W umf_result_t := mret UMF_RESULT_ERROR_NOT_SUPPORTED.
Definition umfDefaultCtlHandle (_ : Z) (_ : umf_ctl_query_source_t) (_ : string) (_ _ : Z) (_ : umf_ctl_query_type_t) : M W umf_result_t :=
  mret UMF_RESULT_ERROR_NOT_SUPPORTED.

Definition or_default {A} (f : option A) (d : A) : option A :=
  match f with Some g => Some g | None => Some d end.

Definition assignOpsExtDefaults o : umf_memory_provider_ops_t W :=
  mk_ops (version o) (initialize o) (finalize o) (alloc o) (free o) (get_last_native_error o)
    (get_recommended_page_size o) (get_min_page_size o) (get_name o)
    (or_default (ext_purge_lazy o) umfDefaultPurgeLazy)
    (or_default (ext_purge_force o) umfDefaultPurgeForce)
    (or_default (ext_allocation_merge o) umfDefaultAllocationMerge)
    (or_default (ext_allocation_split o) umfDefaultAllocationSplit)
    (ext_get_ipc_handle_size o) (ext_get_ipc_handle o) (ext_put_ipc_handle o)
    (ext_open_ipc_handle o) (ext_close_ipc_handle o)
    (or_default (ext_ctl o) umfDefaultCtlHandle).

Definition assignOpsIpcDefaults o : umf_memory_provider_ops_t W :=
  mk_ops (version o) (initialize o) (finalize o) (alloc o) (free o) (get_last_native_error o)
    (get_recommended_page_size o) (get_min_page_size o) (get_name o)
    (ext_purge_lazy o) (ext_purge_force o) (ext_allocation_merge o) (ext_allocation_split o)
    (or_default (ext_get_ipc_handle_size o) umfDefaultGetIPCHandleSize)
    (or_default (ext_get_ipc_handle o) umfDefaultGetIPCHandle)
    (or_default (ext_put_ipc_handle o) umfDefaultPutIPCHandle)
    (or_default (ext_open_ipc_handle o) umfDefaultOpenIPCHandle)
    (or_default (ext_close_ipc_handle o) umfDefaultCloseIPCHandle)
    (ext_ctl o).

Definition is_set {A} (f : option A) : bool := match f with Some _ => true | None => false end.

Definition validateOps o : bool :=
  if negb (is_set (alloc o)) then false else
  if negb (is_set (free o)) then false else
  if negb (is_set (get_recommended_page_size o)) then false else
  if negb (is_set (get_min_page_size o)) then false else
  if negb (is_set (initialize o)) then false else
  if negb (is_set (finalize o)) then false else
  if negb (is_set (get_last_native_error o)) then false else
  if negb (is_set (get_name o)) then false else
  if negb (Bool.eqb (negb (is_set (ext_allocation_split o))) (negb (is_set (ext_allocation_merge o)))) then false else
  let ipcAllSet := is_set (ext_get_ipc_handle_size o) && is_set (ext_get_ipc_handle o) &&
                   is_set (ext_put_ipc_handle o) && is_set (ext_open_ipc_handle o) &&
                   is_set (ext_close_ipc_handle o) in
  let ipcAllNull := negb (is_set (ext_get_ipc_handle_size o)) && negb (is_set (ext_get_ipc_handle o)) &&
                    negb (is_set (ext_put_ipc_handle o)) && negb (is_set (ext_open_ipc_handle o)) &&
                    negb (is_set (ext_close_ipc_handle o)) in
  negb (negb ipcAllSet && negb ipcAllNull).

(** ** Creation and destruction *)

Definition umfMemoryProviderCreate (o : option (umf_memory_provider_ops_t W)) (params : Z)
    (hProvider : option Z) (uninit : Z) : D (umf_result_t * option Z) :=
  match o, hProvider with
  | Some o, Some _ =>
    if negb (validateOps o) then mret (UMF_RESULT_ERROR_INVALID_ARGUMENT, hProvider) else
    s ← get;
    let '(r, h) := umf_ba_global_alloc tag_provider sizeof_provider (d_host s) in
    _ ← modify (with_dhost h);
    match r with
    | None => mret (UMF_RESULT_ERROR_OUT_OF_HOST_MEMORY, hProvider)
    | Some provider =>
      let os := assignOpsIpcDefaults (assignOpsExtDefaults o) in
      init ← fn (initialize o);
      '(ret, priv) ← call (init params uninit);
      if negb (bool_decide (ret = UMF_RESULT_SUCCESS)) then
        _ ← modify (fun s => with_dhost (umf_ba_global_free provider (d_host s)) s);
        mret (ret, hProvider)
      else
        _ ← modify (fun s => with_provs (<[provider := mk_provider priv os]> (d_provs s)) s);
        name ← fn (get_name os);
        _ ← call (name priv None);
        mret (UMF_RESULT_SUCCESS, Some provider)
    end
  | _, _ => mret (UMF_RESULT_ERROR_INVALID_ARGUMENT, hProvider)
  end.

Definition umfMemoryProviderDestroy (hProvider : Z) : D umf_result_t :=
  s ← get;
  if umf_ba_global_is_destroyed s then mret UMF_RESULT_ERROR_UNKNOWN else
  if hProvider =? 0 then mret UMF_RESULT_SUCCESS else
  p ← deref hProvider;
  fin ← fn (finalize (ops p));
  ret ← call (fin (provider_priv p));
  _ ← modify (fun s => with_dhost (umf_ba_global_free hProvider (d_host s))
                         (with_provs (delete hProvider (d_provs s)) s));
  mret ret.

(** ** Calls through the table *)

Definition checkErrorAndSetLastProvider (result : umf_result_t) (hProvider : Z) : D unit :=
  if negb (bool_decide (result = UMF_RESULT_SUCCESS)) then modify (with_last hProvider) else mret tt.

(** The end of a function with a result, and of one with an out-parameter. *)
Definition finish (hProvider : Z) (m : M W umf_result_t) : D umf_result_t :=
  res ← call m;
  _ ← checkErrorAndSetLastProvider res hProvider;
  mret res.
Definition finish_out {A} (hProvider : Z) (m : M W (umf_result_t * A)) : D (umf_result_t * A) :=
  '(res, out) ← call m;
  _ ← checkErrorAndSetLastProvider res hProvider;
  mret (res, out).
Definition umfMemoryProviderAlloc (hProvider size alignment : Z) (ptr : option Z) : D (umf_result_t * option Z) :=
  if hProvider =? 0 then mret (UMF_RESULT_ERROR_INVALID_ARGUMENT, ptr) else
  match ptr with
  | None => mret (UMF_RESULT_ERROR_INVALID_ARGUMENT, None)
  | Some ptr =>
    p ← deref hProvider;
    f ← fn (alloc (ops p));
    '(res, out) ← finish_out hProvider (f (provider_priv p) size alignment ptr);
    mret (res, Some out)
  end.

Definition umfMemoryProviderFree (hProvider ptr size : Z) : D umf_result_t :=
  if hProvider =? 0 then mret UMF_RESULT_ERROR_INVALID_ARGUMENT else
  p ← deref hProvider;
  f ← fn (free (ops p));
  finish hProvider (f (provider_priv p) ptr size).

Definition umfMemoryProviderGetLastNativeError (hProvider : Z) (ppMessage : option string) (pError : option Z)
  : D (umf_result_t * (option string * option Z)) :=
  if hProvider =? 0 then mret (UMF_RESULT_ERROR_INVALID_ARGUMENT, (ppMessage, pError)) else
  match ppMessage, pError with
  | Some msg, Some err =>
    p ← deref hProvider;
    f ← fn (get_last_native_error (ops p));
    '(res, (msg, err)) ← call (f (provider_priv p) msg err);
    mret (res, (Some msg, Some err))
  | _, _ => mret (UMF_RESULT_ERROR_INVALID_ARGUMENT, (ppMessage, pError))
  end.

Definition umfMemoryProviderGetPriv (hProvider : Z) : D Z :=
  if hProvider =? 0 then mret 0 else
  p ← deref hProvider; mret (provider_priv p).

Definition umfMemoryProviderGetRecommendedPageSize (hProvider size : Z) (pageSize : option Z) : D (umf_result_t * option Z) :=
  if hProvider =? 0 then mret (UMF_RESULT_ERROR_INVALID_ARGUMENT, pageSize) else
  match pageSize with
  | None => mret (UMF_RESULT_ERROR_INVALID_ARGUMENT, None)
  | Some pageSize =>
    p ← deref hProvider;
    f ← fn (get_recommended_page_size (ops p));
    '(res, out) ← finish_out hProvider (f (provider_priv p) size pageSize);
    mret (res, Some out)
  end.

Definition umfMemoryProviderGetMinPageSize (hProvider ptr : Z) (pageSize : option Z) : D (umf_result_t * option Z) :=
  if hProvider =? 0 then mret (UMF_RESULT_ERROR_INVALID_ARGUMENT, pageSize) else
  match pageSize with
  | None => mret (UMF_RESULT_ERROR_INVALID_ARGUMENT, None)
  | Some pageSize =>
    p ← deref hProvider;
    f ← fn (get_min_page_size (ops p));
    '(res, out) ← finish_out hProvider (f (provider_priv p) ptr pageSize);
    mret (res, Some out)
  end.

Definition umfMemoryProviderGetName (hProvider : Z) (name : option (option string)) : D (umf_result_t * option (option string)) :=
  if hProvider =? 0 then mret (UMF_RESULT_ERROR_INVALID_ARGUMENT, name) else
  match name with
  | None => mret (UMF_RESULT_ERROR_INVALID_ARGUMENT, None)
  | Some name =>
    p ← deref hProvider;
    f ← fn (get_name (ops p));
    '(res, out) ← finish_out hProvider (f (provider_priv p) name);
    mret (res, Some out)
  end.

Definition umfMemoryProviderPurgeLazy (hProvider ptr size : Z) : D umf_result_t :=
  if hProvider =? 0 then mret UMF_RESULT_ERROR_INVALID_ARGUMENT else
  if negb (negb (ptr =? 0)) then mret UMF_RESULT_ERROR_INVALID_ARGUMENT else
  p ← deref hProvider;
  _ ← c_assert (is_set (ext_purge_lazy (ops p)));
  f ← fn (ext_purge_lazy (ops p));
  finish hProvider (f (provider_priv p) ptr size).

Definition umfMemoryProviderPurgeForce (hProvider ptr size : Z) : D umf_result_t :=
  if hProvider =? 0 then mret UMF_RESULT_ERROR_INVALID_ARGUMENT else
  if negb (negb (ptr =? 0)) then mret UMF_RESULT_ERROR_INVALID_ARGUMENT else
  p ← deref hProvider;
  _ ← c_assert (is_set (ext_purge_force (ops p)));
  f ← fn (ext_purge_force (ops p));
  finish hProvider (f (provider_priv p) ptr size).

Definition umfGetLastFailedMemoryProvider (provider : option Z) : D (umf_result_t * option Z) :=
  match provider with
  | None => mret (UMF_RESULT_ERROR_INVALID_ARGUMENT, None)
  | Some _ => s ← get; mret (UMF_RESULT_SUCCESS, Some (lastFailedProvider s))
  end.

Definition umfMemoryProviderAllocationSplit (hProvider ptr totalSize firstSize : Z) : D umf_result_t :=
  if hProvider =? 0 then mret UMF_RESULT_ERROR_INVALID_ARGUMENT else
  if negb (negb (ptr =? 0)) then mret UMF_RESULT_ERROR_INVALID_ARGUMENT else
  if negb (negb (firstSize =? 0) && negb (totalSize =? 0)) then mret UMF_RESULT_ERROR_INVALID_ARGUMENT else
  if negb (firstSize <? totalSize) then mret UMF_RESULT_ERROR_INVALID_ARGUMENT else
  p ← deref hProvider;
  _ ← c_assert (is_set (ext_allocation_split (ops p)));
  f ← fn (ext_allocation_split (ops p));
  finish hProvider (f (provider_priv p) ptr totalSize firstSize).

Definition umfMemoryProviderAllocationMerge (hProvider lowPtr highPtr totalSize : Z) : D umf_result_t :=
  if hProvider =? 0 then mret UMF_RESULT_ERROR_INVALID_ARGUMENT else
  if negb (negb (lowPtr =? 0) && negb (highPtr =? 0)) then mret UMF_RESULT_ERROR_INVALID_ARGUMENT else
  if negb (negb (totalSize =? 0)) then mret UMF_RESULT_ERROR_INVALID_ARGUMENT else
  if negb (lowPtr <? highPtr) then mret UMF_RESULT_ERROR_INVALID_ARGUMENT else
  if negb (sub64 highPtr lowPtr <? totalSize) then mret UMF_RESULT_ERROR_INVALID_ARGUMENT else
  p ← deref hProvider;
  _ ← c_assert (is_set (ext_allocation_merge (ops p)));
  f ← fn (ext_allocation_merge (ops p));
  finish hProvider (f (provider_priv p) lowPtr highPtr totalSize).

Definition umfMemoryProviderGetIPCHandleSize (hProvider : Z) (size : option Z) : D (umf_result_t * option Z) :=
  if hProvider =? 0 then mret (UMF_RESULT_ERROR_INVALID_ARGUMENT, size) else
  match size with
  | None => mret (UMF_RESULT_ERROR_INVALID_ARGUMENT, None)
  | Some size =>
    p ← deref hProvider;
    _ ← c_assert (is_set (ext_get_ipc_handle_size (ops p)));
    f ← fn (ext_get_ipc_handle_size (ops p));
    '(res, out) ← finish_out hProvider (f (provider_priv p) size);
    mret (res, Some out)
  end.

Definition umfMemoryProviderGetIPCHandle (hProvider ptr size : Z) (providerIpcData : option (list Z))
  : D (umf_result_t * option (list Z)) :=
  if hProvider =? 0 then mret (UMF_RESULT_ERROR_INVALID_ARGUMENT, providerIpcData) else
  if ptr =? 0 then mret (UMF_RESULT_ERROR_INVALID_ARGUMENT, providerIpcData) else
  if size =? 0 then mret (UMF_RESULT_ERROR_INVALID_ARGUMENT, providerIpcData) else
  match providerIpcData with
  | None => mret (UMF_RESULT_ERROR_INVALID_ARGUMENT, None)
  | Some data =>
    p ← deref hProvider;
    _ ← c_assert (is_set (ext_get_ipc_handle (ops p)));
    f ← fn (ext_get_ipc_handle (ops p));
    '(res, out) ← finish_out hProvider (f (provider_priv p) ptr size data);
    mret (res, Some out)
  end.

Definition umfMemoryProviderPutIPCHandle (hProvider : Z) (providerIpcData : option (list Z)) : D umf_result_t :=
  if hProvider =? 0 then mret UMF_RESULT_ERROR_INVALID_ARGUMENT else
  match providerIpcData with
  | None => mret UMF_RESULT_ERROR_INVALID_ARGUMENT
  | Some data =>
    p ← deref hProvider;
    _ ← c_assert (is_set (ext_put_ipc_handle (ops p)));
    f ← fn (ext_put_ipc_handle (ops p));
    finish hProvider (f (provider_priv p) data)
  end.

Definition umfMemoryProviderOpenIPCHandle (hProvider : Z) (providerIpcData : option (list Z)) (ptr : option Z)
  : D (umf_result_t * option Z) :=
  if hProvider =? 0 then mret (UMF_RESULT_ERROR_INVALID_ARGUMENT, ptr) else
  match providerIpcData, ptr with
  | Some data, Some out =>
    p ← deref hProvider;
    _ ← c_assert (is_set (ext_open_ipc_handle (ops p)));
    f ← fn (ext_open_ipc_handle (ops p));
    '(res, out) ← finish_out hProvider (f (provider_priv p) data out);
    mret (res, Some out)
  | _, _ => mret (UMF_RESULT_ERROR_INVALID_ARGUMENT, ptr)
  end.

Definition umfMemoryProviderCloseIPCHandle (hProvider ptr size : Z) : D umf_result_t :=
  if hProvider =? 0 then mret UMF_RESULT_ERROR_INVALID_ARGUMENT else
  if negb (negb (ptr =? 0)) then mret UMF_RESULT_ERROR_INVALID_ARGUMENT else
  if negb (negb (size =? 0)) then mret UMF_RESULT_ERROR_INVALID_ARGUMENT else
  p ← deref hProvider;
  _ ← c_assert (is_set (ext_close_ipc_handle (ops p)));
  f ← fn (ext_close_ipc_handle (ops p));
  finish hProvider (f (provider_priv p) ptr size).

(** The control node umf.provider.by_handle: the result of the provider is
    not looked at. *)
Definition ctl_provider_by_handle (hProvider : Z) (extra_name : string) (arg size : Z)
    (queryType : umf_ctl_query_type_t) : D umf_result_t :=
  p ← deref hProvider;
  f ← fn (ext_ctl (ops p));
  _ ← call (f (provider_priv p) CTL_UNKNOWN_QUERY_SOURCE extra_name arg size queryType);
  mret UMF_RESULT_SUCCESS.
End Provider.
