(* ===== verification/ProviderSpec.v ===== *)
(** * What a provider created by src/memory_provider.c can be used for

    [umfMemoryProviderCreate] accepts a table of functions only when the
    mandatory ones are there and fills in the others, so that every entry of
    the table of a provider is set.  On such a provider every public function
    either rejects its arguments, without a call of the provider, or returns
    what the provider returns; a failure is remembered. *)

From S2P Require Import Prelude HostMem Provider.
From stdpp Require Import strings.
#[local] Open Scope Z_scope.

(** ** Complete tables *)

Definition mandatory_ops {W} (o : umf_memory_provider_ops_t W) : bool :=
  is_set (initialize o) && is_set (finalize o) && is_set (alloc o) && is_set (free o) &&
  is_set (get_last_native_error o) && is_set (get_recommended_page_size o) &&
  is_set (get_min_page_size o) && is_set (get_name o).

Definition optional_ops {W} (o : umf_memory_provider_ops_t W) : bool :=
  is_set (ext_purge_lazy o) && is_set (ext_purge_force o) && is_set (ext_allocation_merge o) &&
  is_set (ext_allocation_split o) && is_set (ext_get_ipc_handle_size o) && is_set (ext_get_ipc_handle o) &&
  is_set (ext_put_ipc_handle o) && is_set (ext_open_ipc_handle o) && is_set (ext_close_ipc_handle o) &&
  is_set (ext_ctl o).

Definition complete_ops {W} (o : umf_memory_provider_ops_t W) : bool := mandatory_ops o && optional_ops o.

(** ** Calls *)

Inductive pcall :=
| PAlloc (size alignment : Z) (ptr : option Z)
| PFree (ptr size : Z)
| PLastError (msg : option string) (err : option Z)
| PRecommendedPageSize (size : Z) (pageSize : option Z)
| PMinPageSize (ptr : Z) (pageSize : option Z)
| PName (name : option (option string))
| PPurgeLazy (ptr size : Z)
| PPurgeForce (ptr size : Z)
| PSplit (ptr totalSize firstSize : Z)
| PMerge (lowPtr highPtr totalSize : Z)
| PIpcHandleSize (size : option Z)
| PGetIpc (ptr size : Z) (data : option (list Z))
| PPutIpc (data : option (list Z))
| POpenIpc (data : option (list Z)) (ptr : option Z)
| PCloseIpc (ptr size : Z).

(** The contents of the out-parameters after a call. *)
Inductive pout :=
| ONone
| OZ (z : option Z)
| OName (n : option (option string))
| OData (d : option (list Z))
| OErr (m : option string) (e : option Z).

(** What a call that is rejected leaves in its out-parameters. *)
Definition unchanged (c : pcall) : pout :=
  match c with
  | PAlloc _ _ p | POpenIpc _ p => OZ p
  | PRecommendedPageSize _ p | PMinPageSize _ p | PIpcHandleSize p => OZ p
  | PName n => OName n
  | PGetIpc _ _ d => OData d
  | PLastError m e => OErr m e
  | _ => ONone
  end.

(** The arguments that memory_provider.c lets through. *)
Definition pargs (c : pcall) : bool :=
  match c with
  | PAlloc _ _ o | PRecommendedPageSize _ o | PMinPageSize _ o | PIpcHandleSize o => is_set o
  | PName n => is_set n
  | PLastError m e => is_set m && is_set e
  | PFree _ _ => true
  | PPurgeLazy ptr _ | PPurgeForce ptr _ => negb (ptr =? 0)
  | PSplit ptr total first =>
      negb (ptr =? 0) && negb (first =? 0) && negb (total =? 0) && (first <? total)
  | PMerge low high total =>
      negb (low =? 0) && negb (high =? 0) && negb (total =? 0) && (low <? high) && (sub64 high low <? total)
  | PGetIpc ptr size d => negb (ptr =? 0) && negb (size =? 0) && is_set d
  | PPutIpc d => is_set d
  | POpenIpc d p => is_set d && is_set p
  | PCloseIpc ptr size => negb (ptr =? 0) && negb (size =? 0)
  end.

(** Whether a failure of the call is remembered. *)
Definition remembered (c : pcall) : bool := match c with PLastError _ _ => false | _ => true end.

Section Spec.
Context `{HostAllocLaws H} {W : Type}.
Abbreviation D := (M (dstate H W)).
Implicit Types (s : dstate H W) (c : pcall) (p : umf_memory_provider_t W).

Definition run_pcall (h : Z) c : D (umf_result_t * pout) :=
  match c with
  | PAlloc size al o => '(r, x) ← umfMemoryProviderAlloc h size al o; mret (r, OZ x)
  | PFree ptr size => r ← umfMemoryProviderFree h ptr size; mret (r, ONone)
  | PLastError m e => '(r, x) ← umfMemoryProviderGetLastNativeError h m e; mret (r, OErr x.1 x.2)
  | PRecommendedPageSize size o => '(r, x) ← umfMemoryProviderGetRecommendedPageSize h size o; mret (r, OZ x)
  | PMinPageSize ptr o => '(r, x) ← umfMemoryProviderGetMinPageSize h ptr o; mret (r, OZ x)
  | PName n => '(r, x) ← umfMemoryProviderGetName h n; mret (r, OName x)
  | PPurgeLazy ptr size => r ← umfMemoryProviderPurgeLazy h ptr size; mret (r, ONone)
  | PPurgeForce ptr size => r ← umfMemoryProviderPurgeForce h ptr size; mret (r, ONone)
  | PSplit ptr t f => r ← umfMemoryProviderAllocationSplit h ptr t f; mret (r, ONone)
  | PMerge lo hi t => r ← umfMemoryProviderAllocationMerge h lo hi t; mret (r, ONone)
  | PIpcHandleSize o => '(r, x) ← umfMemoryProviderGetIPCHandleSize h o; mret (r, OZ x)
  | PGetIpc ptr size d => '(r, x) ← umfMemoryProviderGetIPCHandle h ptr size d; mret (r, OData x)
  | PPutIpc d => r ← umfMemoryProviderPutIPCHandle h d; mret (r, ONone)
  | POpenIpc d o => '(r, x) ← umfMemoryProviderOpenIPCHandle h d o; mret (r, OZ x)
  | PCloseIpc ptr size => r ← umfMemoryProviderCloseIPCHandle h ptr size; mret (r, ONone)
  end.

(** The function of the provider behind a call, on its own state. *)
Definition op_of p c : M W (umf_result_t * pout) :=
  let priv := provider_priv p in
  let o := ops p in
  match c with
  | PAlloc size al x => f ← of_option (alloc o); x ← of_option x; '(r, x) ← f priv size al x; mret (r, OZ (Some x))
  | PFree ptr size => f ← of_option (free o); r ← f priv ptr size; mret (r, ONone)
  | PLastError m e => f ← of_option (get_last_native_error o); m ← of_option m; e ← of_option e;
      '(r, x) ← f priv m e; mret (r, OErr (Some x.1) (Some x.2))
  | PRecommendedPageSize size x => f ← of_option (get_recommended_page_size o); x ← of_option x;
      '(r, x) ← f priv size x; mret (r, OZ (Some x))
  | PMinPageSize ptr x => f ← of_option (get_min_page_size o); x ← of_option x;
      '(r, x) ← f priv ptr x; mret (r, OZ (Some x))
  | PName n => f ← of_option (get_name o); n ← of_option n; '(r, n) ← f priv n; mret (r, OName (Some n))
  | PPurgeLazy ptr size => f ← of_option (ext_purge_lazy o); r ← f priv ptr size; mret (r, ONone)
  | PPurgeForce ptr size => f ← of_option (ext_purge_force o); r ← f priv ptr size; mret (r, ONone)
  | PSplit ptr t x => f ← of_option (ext_allocation_split o); r ← f priv ptr t x; mret (r, ONone)
  | PMerge lo hi t => f ← of_option (ext_allocation_merge o); r ← f priv lo hi t; mret (r, ONone)
  | PIpcHandleSize x => f ← of_option (ext_get_ipc_handle_size o); x ← of_option x;
      '(r, x) ← f priv x; mret (r, OZ (Some x))
  | PGetIpc ptr size d => f ← of_option (ext_get_ipc_handle o); d ← of_option d;
      '(r, d) ← f priv ptr size d; mret (r, OData (Some d))
  | PPutIpc d => f ← of_option (ext_put_ipc_handle o); d ← of_option d; r ← f priv d; mret (r, ONone)
  | POpenIpc d x => f ← of_option (ext_open_ipc_handle o); d ← of_option d; x ← of_option x;
      '(r, x) ← f priv d x; mret (r, OZ (Some x))
  | PCloseIpc ptr size => f ← of_option (ext_close_ipc_handle o); r ← f priv ptr size; mret (r, ONone)
  end.

(** The handles in use: not NULL, live, and with a complete table. *)
Definition provs_ok s : Prop :=
  owned tag_provider (d_provs s) (d_host s) /\
  forall h p, d_provs s !! h = Some p -> h <> 0 /\ complete_ops (ops p) = true.

(** What a call returns on the provider [p] with the handle [h]. *)
Definition dispatched (h : Z) p c s : option ((umf_result_t * pout) * dstate H W) :=
  match op_of p c (d_world s) with
  | None => None
  | Some (r, w) =>
      let s' := with_world w s in
      Some (r, if remembered c && negb (bool_decide (r.1 = UMF_RESULT_SUCCESS)) then with_last h s' else s')
  end.

(** ** Proofs *)

Lemma is_set_some {A} (o : option A) : is_set o = true -> exists x, o = Some x.
Proof. destruct o; [eauto|done]. Qed.

Lemma rejected h c s : h = 0 \/ pargs c = false ->
  run_pcall h c s = Some ((UMF_RESULT_ERROR_INVALID_ARGUMENT, unchanged c), s).
Proof.
  intros Hc. destruct c; simpl in *;
    unfold umfMemoryProviderAlloc, umfMemoryProviderFree, umfMemoryProviderGetLastNativeError,
      umfMemoryProviderGetRecommendedPageSize, umfMemoryProviderGetMinPageSize, umfMemoryProviderGetName,
      umfMemoryProviderPurgeLazy, umfMemoryProviderPurgeForce, umfMemoryProviderAllocationSplit,
      umfMemoryProviderAllocationMerge, umfMemoryProviderGetIPCHandleSize, umfMemoryProviderGetIPCHandle,
      umfMemoryProviderPutIPCHandle, umfMemoryProviderOpenIPCHandle, umfMemoryProviderCloseIPCHandle, mbind, M_bind;
    (destruct (Z.eqb_spec h 0) as [_|Hh]; [reflexivity|]);
    (destruct Hc as [?|Hc]; [done|]); try discriminate Hc;
    repeat match goal with
    | x : option _ |- _ => destruct x; simpl in *; try done
    | |- context [?a =? ?b] => destruct (a =? b); simpl in *; try done
    | |- context [?a <? ?b] => destruct (a <? b); simpl in *; try done
    end.
Qed.

Lemma dispatch h c s p : provs_ok s -> d_provs s !! h = Some p -> pargs c = true ->
  run_pcall h c s = dispatched h p c s.
Proof.
  intros Hok Hp Hc. destruct (proj2 Hok h p Hp) as [Hh Hops].
  unfold complete_ops, mandatory_ops, optional_ops in Hops. rewrite !andb_true_iff in Hops. destruct_and!.
  apply Z.eqb_neq in Hh.
  destruct c; simpl in *; rewrite ?andb_true_iff in Hc; destruct_and?;
    repeat match goal with X : is_set _ = true |- _ => apply is_set_some in X as [? X] end; subst;
    unfold dispatched, op_of, umfMemoryProviderAlloc, umfMemoryProviderFree, umfMemoryProviderGetLastNativeError,
      umfMemoryProviderGetRecommendedPageSize, umfMemoryProviderGetMinPageSize, umfMemoryProviderGetName,
      umfMemoryProviderPurgeLazy, umfMemoryProviderPurgeForce, umfMemoryProviderAllocationSplit,
      umfMemoryProviderAllocationMerge, umfMemoryProviderGetIPCHandleSize, umfMemoryProviderGetIPCHandle,
      umfMemoryProviderPutIPCHandle, umfMemoryProviderOpenIPCHandle, umfMemoryProviderCloseIPCHandle,
      finish, finish_out, checkErrorAndSetLastProvider, deref, call, fn, mbind, M_bind, get, of_option, c_assert;
    rewrite Hh; simpl;
    repeat match goal with X : ?b = true |- context [?b] => rewrite X; simpl end;
    repeat match goal with X : negb ?b = true |- context [?b] => apply negb_true_iff in X; rewrite X; simpl end;
    rewrite ?Hp; simpl;
    repeat match goal with X : ?o = Some _ |- context [?o] => rewrite X; simpl end;
    repeat match goal with |- context [match ?m (d_world s) with _ => _ end] => destruct (m (d_world s)) as [[? ?]|] eqn:? end;
    repeat match goal with x : (_ * _)%type |- _ => destruct x end; simpl;
    repeat case_bool_decide; done.
Qed.

Lemma validate_mandatory (o : umf_memory_provider_ops_t W) : validateOps o = true -> mandatory_ops o = true.
Proof.
  unfold validateOps, mandatory_ops. intros Hv.
  repeat match type of Hv with (if negb ?b then _ else _) = _ => destruct b eqn:?; simpl in Hv; [|done] end. done.
Qed.

Lemma is_set_default {A} (f : option A) d : is_set (or_default f d) = true.
Proof. by destruct f. Qed.

Lemma validate_complete (o : umf_memory_provider_ops_t W) :
  validateOps o = true -> complete_ops (assignOpsIpcDefaults (assignOpsExtDefaults o)) = true.
Proof.
  intros Hv%validate_mandatory. unfold complete_ops. apply andb_true_iff. split; [exact Hv|].
  unfold optional_ops. simpl. by rewrite !is_set_default.
Qed.

Lemma wp_call {A} (m : M W A) (Q : A -> dstate H W -> Prop) s :
  wp m (fun a w => Q a (with_world w s)) (d_world s) -> wp (call m) Q s.
Proof. unfold wp, call. by destruct (m (d_world s)) as [[a w]|]. Qed.

(** The functions of a table that creation calls run to the end, and
    establish [I] of the private data when they succeed. *)
Definition create_ok (o : umf_memory_provider_ops_t W) (params uninit : Z) (w : W) (I : Z -> W -> Prop) : Prop :=
  forall init name, initialize o = Some init -> get_name o = Some name ->
    wp (init params uninit) (fun r w' => r.1 = UMF_RESULT_SUCCESS -> wp (name r.2 None) (fun _ => I r.2) w') w.

(** What [umfMemoryProviderCreate] does when it is given a table and a place
    for the handle. *)
Inductive create_post (o : umf_memory_provider_ops_t W) (hp : Z) (I : Z -> W -> Prop) s :
    umf_result_t * option Z -> dstate H W -> Prop :=
| create_failed r s' :
    r <> UMF_RESULT_SUCCESS -> (validateOps o = false -> r = UMF_RESULT_ERROR_INVALID_ARGUMENT) ->
    d_provs s' = d_provs s -> ba_live (d_host s') = ba_live (d_host s) ->
    create_post o hp I s (r, Some hp) s'
| create_done h priv s' :
    validateOps o = true -> d_provs s !! h = None ->
    d_provs s' = <[h := mk_provider priv (assignOpsIpcDefaults (assignOpsExtDefaults o))]> (d_provs s) ->
    ba_live (d_host s') = <[h := tag_provider]> (ba_live (d_host s)) -> I priv (d_world s') ->
    create_post o hp I s (UMF_RESULT_SUCCESS, Some h) s'.

Lemma wp_umfMemoryProviderCreate o params hp uninit I s :
  provs_ok s -> create_ok o params uninit (d_world s) I ->
  wp (umfMemoryProviderCreate (Some o) params (Some hp) uninit)
    (fun r s' => create_post o hp I s r s' /\ provs_ok s') s.
Proof.
  intros [Hown Hok] Hcr. unfold umfMemoryProviderCreate, fn. destruct (validateOps o) eqn:Ev; simpl.
  2: { split; [|done]. by apply create_failed. }
  pose proof (validate_complete o Ev) as Hc. pose proof (validate_mandatory o Ev) as Hm.
  unfold mandatory_ops in Hm. rewrite !andb_true_iff in Hm. destruct_and!.
  destruct (initialize o) as [init|] eqn:Einit; [|done]. destruct (get_name o) as [name|] eqn:Ename; [|done].
  specialize (Hcr init name Einit Ename).
  wp_step. destruct (umf_ba_global_alloc tag_provider sizeof_provider (d_host s)) as [r hh] eqn:Ea. wp_step.
  destruct r as [a|].
  2: { wp_step. split; [apply create_failed; simpl; by rewrite ?Ev, ?(ba_alloc_none _ _ _ _ Ea)|].
       split; [by apply (owned_alloc _ _ _ _ _ _ _ Hown Ea)|done]. }
  pose proof (owned_fresh _ _ _ _ _ _ _ Hown Ea) as Hfresh. pose proof (ba_alloc_nonnull _ _ _ _ _ Ea) as Ha0.
  destruct (ba_alloc_some _ _ _ _ _ Ea) as [Hlive Hlive'].
  wp_step; [reflexivity|]. apply wp_bind, wp_call. simpl. eapply wp_mono; [exact Hcr|]. intros [ret priv] w Hr.
  case_bool_decide as Er; simpl.
  - wp_step. wp_step. apply wp_bind, wp_call. simpl. eapply wp_mono; [by apply Hr|]. intros x w' HI. wp_step. subst ret.
    split; [by eapply (create_done _ _ _ _ a priv)|].
    split; [by apply (owned_alloc_new _ _ _ _ _ _ _ Hown Ea)|]. intros h p Hp. simpl in Hp.
    apply lookup_insert_Some in Hp as [[<- <-]|[_ Hp]]; [done|by apply Hok].
  - wp_step. wp_step. assert (ba_live (umf_ba_global_free a hh) = ba_live (d_host s)) as Hback.
    { rewrite ba_free_live by (rewrite Hlive'; by rewrite lookup_insert_eq). rewrite Hlive'. by rewrite delete_insert_id. }
    split; [by apply create_failed; rewrite ?Ev|]. split; [|done]. intros b Hb. simpl. rewrite Hback. by apply Hown.
Qed.

Lemma wp_umfMemoryProviderDestroy h p s (R : umf_result_t -> W -> Prop) :
  provs_ok s -> d_provs s !! h = Some p -> umf_ba_global_is_destroyed s = false ->
  (forall fin, finalize (ops p) = Some fin -> wp (fin (provider_priv p)) R (d_world s)) ->
  wp (umfMemoryProviderDestroy h)
    (fun r s' => R r (d_world s') /\ d_provs s' = delete h (d_provs s) /\
       ba_live (d_host s') = delete h (ba_live (d_host s)) /\ provs_ok s') s.
Proof.
  intros [Hown Hok] Hp Hd Hfin. destruct (Hok h p Hp) as [Hh Hc].
  unfold complete_ops, mandatory_ops in Hc. rewrite !andb_true_iff in Hc. destruct_and!.
  destruct (finalize (ops p)) as [fin|] eqn:Efin; [|done].
  unfold umfMemoryProviderDestroy, fn. wp_step. rewrite Hd. destruct (Z.eqb_spec h 0) as [->|_]; [done|].
  unfold deref. apply wp_bind. wp_step. wp_step; [exact Hp|]. wp_step; [done|]. apply wp_bind, wp_call. simpl. eapply wp_mono; [by apply Hfin|]. intros r w HR. wp_step. wp_step.
  assert (ba_live (umf_ba_global_free h (d_host s)) = delete h (ba_live (d_host s))) as Hl.
  { apply ba_free_live. rewrite (Hown h); eauto. }
  split_and!; [done|done|done|]. split; [by apply owned_free_own; eauto|].
  intros b q Hq. simpl in Hq. apply lookup_delete_Some in Hq as [_ Hq]. by apply Hok.
Qed.
End Spec.
