(* ===== verification/FixedProvider.v ===== *)
(** * The fixed memory provider: src/provider/provider_fixed_memory.c

    A provider over one memory region that the user supplies.  It gives the
    region to a coarse allocator and forwards its calls to it; the statistics
    are those of src/provider/provider_ctl_stats_impl.h.  The page size, the
    results of the mutex functions, of [madvise] and of [strerror] come from
    the system and are parameters.  The control tree of the provider is left
    out. *)

From S2P Require Import Prelude Utils HostMem Ravl Coarse Provider.
From Stdlib Require String.
From stdpp Require Import strings.
#[local] Open Scope Z_scope.

Definition UMF_FIXED_RESULT_SUCCESS : Z := 4000.
Definition UMF_FIXED_RESULT_ERROR_PURGE_FORCE_FAILED : Z := 4001.
Definition TLS_MSG_BUF_LEN : Z := 1024.
Definition DEFAULT_NAME : string := "FIXED".

Record ctl_stats_t := mk_ctl_stats { allocated_memory : Z; peak_memory : Z }.

Record fixed_memory_provider_t (H : Type) := mk_fixed {
  f_base : Z;
  f_size : Z;
  f_coarse : cstate H unit;
  f_stats : ctl_stats_t;
  f_name : string;
}.
Arguments mk_fixed {H}. Arguments f_base {H}. Arguments f_size {H}.
Arguments f_coarse {H}. Arguments f_stats {H}. Arguments f_name {H}.

Record umf_fixed_memory_provider_params_t := mk_fixed_params {
  fp_ptr : Z;
  fp_size : Z;
  fp_name : string;
}.

Record fixed_last_native_error_t := mk_native_error { native_error : Z; errno_value : Z }.

(** The host allocator, the parameter structs and the providers by address,
    and the thread-local error. *)
Record fworld (H : Type) := mk_fworld {
  fw_host : H;
  fw_params : gmap Z umf_fixed_memory_provider_params_t;
  fw_provs : gmap Z (fixed_memory_provider_t H);
  TLS_last_native_error : fixed_last_native_error_t;
}.
Arguments mk_fworld {H}. Arguments fw_host {H}. Arguments fw_params {H}.
Arguments fw_provs {H}. Arguments TLS_last_native_error {H}.

Definition tag_fixed : string := "fixed_memory_provider_t".
Definition sizeof_fixed : Z := 104.
Definition tag_fixed_params : string := "umf_fixed_memory_provider_params_t".
Definition sizeof_fixed_params : Z := 80.

(** [char name[64]] filled by [strncpy] or [snprintf]: at most 63 bytes and
    the terminating zero. *)
Definition name64 (s : string) : string := String.substring 0 63 s.

Definition Native_error_str (i : Z) : option string :=
  if i =? 0 then Some "success"%string else if i =? 1 then Some "force purging failed"%string else None.

Section Fixed.
Context `{HostAlloc H}.
Variable uninit_used : Z -> bool.
Variable dev : bool.
Variable utils_get_page_size : Z.
Variable mutex_init_ret : Z.
Variable lock_results : list Z.
(** The result of [utils_purge] with [UMF_PURGE_FORCE] and the errno it sets. *)
Variable utils_purge : Z -> Z -> Z * Z.
(** The text for an errno that fits a buffer of the given length. *)
Variable utils_strerror : Z -> Z -> string.
Abbreviation F := (M (fworld H)).

Definition with_fhost (h : H) (w : fworld H) : fworld H :=
  mk_fworld h (fw_params w) (fw_provs w) (TLS_last_native_error w).
Definition with_fparams (p : gmap Z umf_fixed_memory_provider_params_t) (w : fworld H) : fworld H :=
  mk_fworld (fw_host w) p (fw_provs w) (TLS_last_native_error w).
Definition with_fprovs (p : gmap Z (fixed_memory_provider_t H)) (w : fworld H) : fworld H :=
  mk_fworld (fw_host w) (fw_params w) p (TLS_last_native_error w).
Definition with_tls (e : fixed_last_native_error_t) (w : fworld H) : fworld H :=
  mk_fworld (fw_host w) (fw_params w) (fw_provs w) e.

Definition load_fixed (provider : Z) : F (fixed_memory_provider_t H) :=
  w ← get; of_option (fw_provs w !! provider).
Definition store_fixed (provider : Z) (o : fixed_memory_provider_t H) : F unit :=
  modify (fun w => with_fprovs (<[provider := o]> (fw_provs w)) w).

(** A call of coarse.c on the object of the provider: it uses the host
    allocator of the process. *)
Definition on_coarse {A} (provider : Z) (m : M (cstate H unit) A) : F A :=
  fun w =>
    match fw_provs w !! provider with
    | None => None
    | Some o =>
      match m (set_chost (fw_host w) (f_coarse o)) with
      | None => None
      | Some (a, c) =>
        Some (a, with_fhost (c_host c)
                   (with_fprovs (<[provider := mk_fixed (f_base o) (f_size o) c (f_stats o) (f_name o)]> (fw_provs w)) w))
      end
    end.

Definition ptr_of (p : Z) : option Z := if p =? 0 then None else Some p.
Definition addr_of (p : option Z) : Z := match p with Some a => a | None => 0 end.

(** ** Statistics *)

Definition provider_ctl_stats_alloc (size : Z) (st : ctl_stats_t) : ctl_stats_t :=
  let allocated := add64 (allocated_memory st) size in
  let peak := peak_memory st in
  mk_ctl_stats allocated (if peak <? allocated then allocated else peak).

Definition provider_ctl_stats_free (size : Z) (st : ctl_stats_t) : ctl_stats_t :=
  mk_ctl_stats (sub64 (allocated_memory st) size) (peak_memory st).

Definition ctl_read_peak_memory (st : ctl_stats_t) : Z := peak_memory st.
Definition ctl_read_allocated_memory (st : ctl_stats_t) : Z := allocated_memory st.

(** The control node stats.peak_memory.reset. *)
Definition ctl_reset_peak (st : ctl_stats_t) : ctl_stats_t :=
  mk_ctl_stats (allocated_memory st) (allocated_memory st).

Definition update_stats (provider : Z) (f : ctl_stats_t -> ctl_stats_t) : F unit :=
  o ← load_fixed provider;
  store_fixed provider (mk_fixed (f_base o) (f_size o) (f_coarse o) (f (f_stats o)) (f_name o)).

(** ** The operations *)

Definition fixed_store_last_native_error (e errno : Z) : F unit := modify (with_tls (mk_native_error e errno)).

Definition fixed_allocation_split_cb (ptr totalSize firstSize : Z) (p : unit) : umf_result_t * unit :=
  (UMF_RESULT_SUCCESS, p).
Definition fixed_allocation_merge_cb (lowPtr highPtr totalSize : Z) (p : unit) : umf_result_t * unit :=
  (UMF_RESULT_SUCCESS, p).

Definition fixed_coarse_params : coarse_params_t unit :=
  mk_params true (mk_cb None None (Some fixed_allocation_split_cb) (Some fixed_allocation_merge_cb))
    UMF_COARSE_MEMORY_STRATEGY_FASTEST_BUT_ONE utils_get_page_size.

Definition free_fixed (provider : Z) : F unit :=
  modify (fun w => with_fhost (umf_ba_global_free provider (fw_host w))
                     (with_fprovs (delete provider (fw_provs w)) w)).

Definition fixed_initialize (params provider : Z) : F (umf_result_t * Z) :=
  if params =? 0 then mret (UMF_RESULT_ERROR_INVALID_ARGUMENT, provider) else
  w ← get;
  in_params ← of_option (fw_params w !! params);
  let '(r, h) := umf_ba_global_alloc tag_fixed sizeof_fixed (fw_host w) in
  _ ← modify (with_fhost h);
  match r with
  | None => mret (UMF_RESULT_ERROR_OUT_OF_HOST_MEMORY, provider)
  | Some fixed_provider =>
    '(ret, coarse, h) ← of_option (coarse_new dev (Some fixed_coarse_params) true mutex_init_ret lock_results h tt);
    _ ← modify (with_fhost h);
    match coarse with
    | None => _ ← free_fixed fixed_provider; mret (ret, provider)
    | Some c =>
      _ ← store_fixed fixed_provider
            (mk_fixed (fp_ptr in_params) (fp_size in_params) c (mk_ctl_stats 0 0) (name64 (fp_name in_params)));
      ret ← on_coarse fixed_provider
              (coarse_add_memory_fixed uninit_used dev (Some (c_self (co c))) (ptr_of (fp_ptr in_params)) (fp_size in_params));
      if negb (bool_decide (ret = UMF_RESULT_SUCCESS)) then
        _ ← on_coarse fixed_provider (coarse_delete (Some (c_self (co c))));
        _ ← free_fixed fixed_provider;
        mret (ret, provider)
      else mret (UMF_RESULT_SUCCESS, fixed_provider)
    end
  end.

Definition fixed_finalize (provider : Z) : F umf_result_t :=
  o ← load_fixed provider;
  _ ← on_coarse provider (coarse_delete (Some (c_self (co (f_coarse o)))));
  _ ← free_fixed provider;
  mret UMF_RESULT_SUCCESS.

Definition fixed_alloc (provider size alignment resultPtr : Z) : F (umf_result_t * Z) :=
  o ← load_fixed provider;
  '(ret, p) ← on_coarse provider
                (coarse_alloc uninit_used dev (Some (c_self (co (f_coarse o)))) size alignment true (ptr_of resultPtr));
  _ ← (if bool_decide (ret = UMF_RESULT_SUCCESS) then update_stats provider (provider_ctl_stats_alloc size) else mret tt);
  mret (ret, addr_of p).

(** The message is the name of the error, with the text of the errno when
    there is one. *)
Definition fixed_get_last_native_error (provider : Z) (msg : string) (err : Z) : F (umf_result_t * (string * Z)) :=
  w ← get;
  let e := native_error (TLS_last_native_error w) in
  str ← of_option (Native_error_str (e - UMF_FIXED_RESULT_SUCCESS));
  if errno_value (TLS_last_native_error w) =? 0 then mret (UMF_RESULT_SUCCESS, (str, e))
  else
    let pos := Z.of_nat (String.length str) + 2 in
    mret (UMF_RESULT_SUCCESS,
          ((str +:+ ": " +:+ utils_strerror (errno_value (TLS_last_native_error w)) (TLS_MSG_BUF_LEN - pos))%string, e)).

Definition fixed_get_recommended_page_size (provider size page_size : Z) : F (umf_result_t * Z) :=
  mret (UMF_RESULT_SUCCESS, utils_get_page_size).

Definition fixed_get_min_page_size (provider ptr page_size : Z) : F (umf_result_t * Z) :=
  fixed_get_recommended_page_size provider 0 page_size.

Definition fixed_purge_lazy (provider ptr size : Z) : F umf_result_t := mret UMF_RESULT_ERROR_NOT_SUPPORTED.

Definition fixed_purge_force (provider ptr size : Z) : F umf_result_t :=
  let '(r, errno) := utils_purge ptr size in
  if negb (r =? 0) then
    _ ← fixed_store_last_native_error UMF_FIXED_RESULT_ERROR_PURGE_FORCE_FAILED errno;
    mret UMF_RESULT_ERROR_MEMORY_PROVIDER_SPECIFIC
  else mret UMF_RESULT_SUCCESS.

Definition fixed_get_name (provider : Z) (name : option string) : F (umf_result_t * option string) :=
  if provider =? 0 then mret (UMF_RESULT_SUCCESS, Some DEFAULT_NAME) else
  o ← load_fixed provider;
  mret (UMF_RESULT_SUCCESS, Some (f_name o)).

Definition fixed_allocation_split (provider ptr totalSize firstSize : Z) : F umf_result_t :=
  o ← load_fixed provider;
  on_coarse provider (coarse_split uninit_used dev (Some (c_self (co (f_coarse o)))) (ptr_of ptr) totalSize firstSize).

Definition fixed_allocation_merge (provider lowPtr highPtr totalSize : Z) : F umf_result_t :=
  o ← load_fixed provider;
  on_coarse provider (coarse_merge dev (Some (c_self (co (f_coarse o)))) (ptr_of lowPtr) (ptr_of highPtr) totalSize).

Definition fixed_free (provider ptr size : Z) : F umf_result_t :=
  o ← load_fixed provider;
  ret ← on_coarse provider (coarse_free dev (Some (c_self (co (f_coarse o)))) (ptr_of ptr) size);
  _ ← (if bool_decide (ret = UMF_RESULT_SUCCESS) then update_stats provider (provider_ctl_stats_free size) else mret tt);
  mret ret.

Definition UMF_FIXED_MEMORY_PROVIDER_OPS (fixed_ctl : Z -> umf_ctl_query_source_t -> string -> Z -> Z ->
    umf_ctl_query_type_t -> M (fworld H) umf_result_t) : umf_memory_provider_ops_t (fworld H) :=
  mk_ops 0 (Some fixed_initialize) (Some fixed_finalize) (Some fixed_alloc) (Some fixed_free)
    (Some fixed_get_last_native_error) (Some fixed_get_recommended_page_size) (Some fixed_get_min_page_size)
    (Some fixed_get_name) (Some fixed_purge_lazy) (Some fixed_purge_force)
    (Some fixed_allocation_merge) (Some fixed_allocation_split) None None None None None (Some fixed_ctl).

(** ** Parameters *)

Definition umfFixedMemoryProviderParamsSetMemory (hParams ptr size : Z) : F umf_result_t :=
  if hParams =? 0 then mret UMF_RESULT_ERROR_INVALID_ARGUMENT else
  if ptr =? 0 then mret UMF_RESULT_ERROR_INVALID_ARGUMENT else
  if size =? 0 then mret UMF_RESULT_ERROR_INVALID_ARGUMENT else
  w ← get;
  p ← of_option (fw_params w !! hParams);
  _ ← modify (with_fparams (<[hParams := mk_fixed_params ptr size (fp_name p)]> (fw_params w)));
  mret UMF_RESULT_SUCCESS.

Definition free_params (params : Z) : F unit :=
  modify (fun w => with_fhost (umf_ba_global_free params (fw_host w))
                     (with_fparams (delete params (fw_params w)) w)).

Definition umfFixedMemoryProviderParamsDestroy (hParams : Z) : F umf_result_t :=
  _ ← (if negb (hParams =? 0) then free_params hParams else mret tt);
  mret UMF_RESULT_SUCCESS.

(** [junk] is the content of the fresh struct; its name is set first. *)
Definition umfFixedMemoryProviderParamsCreate (junk : umf_fixed_memory_provider_params_t) (ptr size : Z)
    (hParams : option Z) : F (umf_result_t * option Z) :=
  match hParams with
  | None => mret (UMF_RESULT_ERROR_INVALID_ARGUMENT, None)
  | Some _ =>
    w ← get;
    let '(r, h) := umf_ba_global_alloc tag_fixed_params sizeof_fixed_params (fw_host w) in
    _ ← modify (with_fhost h);
    match r with
    | None => mret (UMF_RESULT_ERROR_OUT_OF_HOST_MEMORY, hParams)
    | Some params =>
      _ ← modify (with_fparams (<[params := mk_fixed_params (fp_ptr junk) (fp_size junk) (name64 DEFAULT_NAME)]> (fw_params w)));
      ret ← umfFixedMemoryProviderParamsSetMemory params ptr size;
      if negb (bool_decide (ret = UMF_RESULT_SUCCESS)) then
        _ ← free_params params;
        mret (ret, hParams)
      else mret (UMF_RESULT_SUCCESS, Some params)
    end
  end.

Definition umfFixedMemoryProviderParamsSetName (hParams : Z) (name : option string) : F umf_result_t :=
  if hParams =? 0 then mret UMF_RESULT_ERROR_INVALID_ARGUMENT else
  match name with
  | None => mret UMF_RESULT_ERROR_INVALID_ARGUMENT
  | Some name =>
    w ← get;
    p ← of_option (fw_params w !! hParams);
    _ ← modify (with_fparams (<[hParams := mk_fixed_params (fp_ptr p) (fp_size p) (name64 name)]> (fw_params w)));
    mret UMF_RESULT_SUCCESS
  end.
End Fixed.
