(* ===== verification/FixedSpec.v ===== *)
(** * The fixed memory provider behind the provider interface

    Calls of src/memory_provider.c on a provider with the functions of
    src/provider/provider_fixed_memory.c refine the contract of the coarse
    allocator, and the statistics are the total size of the ranges handed out
    and the largest such total so far. *)

From S2P Require Import Prelude Utils HostMem Ravl RavlSpec RavlRemove Coarse.
From S2P Require Import CoarseInv CoarseFree CoarseLists CoarseMerge.
From S2P Require Import CoarseApi CoarseOps CoarseAlloc CoarsePublic CoarseDelete CoarseSpec.
From S2P Require Import Provider ProviderSpec FixedProvider.
From stdpp Require Import strings sorting.
#[local] Open Scope Z_scope.

(** The ranges in use and the statistics. *)
Record fabs := mk_fabs { fa_used : list (Z * Z); fa_stats : ctl_stats_t }.

(** The call of coarse.c behind a call of the provider interface. *)
Definition coarse_call (c : pcall) : option CoarseSpec.call :=
  match c with
  | PAlloc size al _ => Some (CAlloc size al)
  | PFree ptr size => Some (CFree ptr size)
  | PSplit ptr total first => Some (CSplit ptr total first)
  | PMerge low high total => Some (CMerge low high total)
  | _ => None
  end.

Definition stats_step (c : pcall) (r : umf_result_t) (st : ctl_stats_t) : ctl_stats_t :=
  match r, c with
  | UMF_RESULT_SUCCESS, PAlloc size _ _ =>
      mk_ctl_stats (allocated_memory st + size) (Z.max (peak_memory st) (allocated_memory st + size))
  | UMF_RESULT_SUCCESS, PFree _ size => mk_ctl_stats (allocated_memory st - size) (peak_memory st)
  | _, _ => st
  end.

(** The result of the coarse allocator, as the caller sees it. *)
Definition out_of (c : pcall) (o : option Z) : pout :=
  match c with PAlloc _ _ p => OZ (p ≫= fun _ => Some (addr_of o)) | _ => ONone end.

Definition fspec_step (page : Z) (A : fabs) (c : pcall) (res : umf_result_t * pout) (A' : fabs) : Prop :=
  exists cc o, coarse_call c = Some cc /\ spec_step page (fa_used A) cc (res.1, o) (fa_used A') /\
    res.2 = out_of c o /\ fa_stats A' = stats_step c res.1 (fa_stats A).

Fixpoint fspec_steps (page : Z) (A : fabs) (evs : list (pcall * (umf_result_t * pout))) (A' : fabs) : Prop :=
  match evs with
  | [] => A' = A
  | (c, r) :: evs => exists A1, fspec_step page A c r A1 /\ fspec_steps page A1 evs A'
  end.

(** The rules for the caller: the arguments are words, nothing of size 0 is
    allocated, and what is freed is freed with its size. *)
Definition fobeys (A : fabs) (c : pcall) : Prop :=
  match c with
  | PAlloc size al _ => 0 < size < two64 /\ is_u64 al
  | PFree ptr size => 0 < ptr < two64 /\ 0 < size < two64 /\ forall n, (ptr, n) ∈ fa_used A -> size = n
  | PSplit ptr total first => is_u64 ptr /\ is_u64 total /\ is_u64 first
  | PMerge low high total => is_u64 low /\ is_u64 high /\ is_u64 total
  | _ => False
  end.

Fixpoint ftrace_obeys (page : Z) (A : fabs) (evs : list (pcall * (umf_result_t * pout))) : Prop :=
  match evs with
  | [] => True
  | (c, r) :: evs => fobeys A c /\ forall A', fspec_step page A c r A' -> ftrace_obeys page A' evs
  end.

Definition total_size (U : list (Z * Z)) : Z := foldr (fun r z => r.2 + z) 0 U.

Lemma total_size_app U1 U2 : total_size (U1 ++ U2) = total_size U1 + total_size U2.
Proof. induction U1 as [|r U1 IH]; simpl; lia. Qed.

Lemma total_size_used V : total_size (used_ranges V) = sum_of b_used V.
Proof.
  induction V as [|b V IH]; [done|]. simpl. destruct (b_used b) eqn:E.
  - rewrite used_ranges_used by done. simpl. lia.
  - rewrite used_ranges_free by done. lia.
Qed.

(** What a step of the coarse allocator does to the total. *)
Lemma total_step page U c r o U' :
  spec_step page U c (r, o) U' ->
  (forall ptr bytes n, c = CFree ptr bytes -> (ptr, n) ∈ U -> bytes = n) ->
  total_size U' =
    match r, c with
    | UMF_RESULT_SUCCESS, CAlloc size _ => total_size U + size
    | UMF_RESULT_SUCCESS, CFree ptr bytes => total_size U - bytes
    | _, _ => total_size U
    end.
Proof.
  intros Hs Hex. inversion Hs; subst; rewrite ?total_size_app; simpl; try lia; try (destruct r; done); try (destruct c; done).
  rewrite (Hex ptr bytes n eq_refl); [lia|]. rewrite elem_of_app, elem_of_cons. auto.
Qed.

Section Spec.
Context `{HostAllocLaws H}.
Context (T : list string) (ok : H -> Prop) `{!Reliable T ok}.
Variable uninit_used : Z -> bool.
Variable dev : bool.
Variable page : Z.
Variable mutex_init_ret : Z.
Variable lock_results : list Z.
Variable purge : Z -> Z -> Z * Z.
Variable strerror : Z -> Z -> string.
Variable ctl : Z -> umf_ctl_query_source_t -> string -> Z -> Z -> umf_ctl_query_type_t -> M (fworld H) umf_result_t.
Hypothesis elem_reliable : tag_elem ∈ T.
Hypothesis head_reliable : tag_head ∈ T.
Hypothesis free_reliable : tag_free ∈ T.
Hypothesis uninit_clear : forall p, uninit_used p = false.

Abbreviation fixed_ops := (UMF_FIXED_MEMORY_PROVIDER_OPS uninit_used dev page mutex_init_ret lock_results purge strerror ctl).
Abbreviation fixed_cb := (mk_cb None None (Some fixed_allocation_split_cb) (Some fixed_allocation_merge_cb)).

(** The coarse object of a provider, with the host allocator of the process. *)
Definition coarse_of (w : fworld H) (o : fixed_memory_provider_t H) : cstate H unit :=
  set_chost (fw_host w) (f_coarse o).

Definition fixed_at (w : fworld H) (self : Z) (o : fixed_memory_provider_t H) (B : list entry) : Prop :=
  fw_provs w !! self = Some o /\ coarse_inv ok (coarse_of w o) B [] /\ unlocked (f_coarse o) /\
  c_cb (co (f_coarse o)) = fixed_cb /\ page_size (co (f_coarse o)) = page.

(** A call of the coarse allocator that refines its contract keeps [fixed_at]. *)
Lemma wp_on_coarse {A} (m : M (cstate H unit) A) w self o B c (res : A -> umf_result_t * option Z)
    (Q : A -> fworld H -> Prop) :
  fixed_at w self o B ->
  wp m (fun a s' => refined ok (coarse_of w o) B c (res a) s') (coarse_of w o) ->
  (forall a w' o' B', fixed_at w' self o' B' -> f_stats o' = f_stats o ->
     spec_step page (used_ranges (view B)) c (res a) (used_ranges (view B')) -> Q a w') ->
  wp (on_coarse self m) Q w.
Proof.
  intros (Hp & Hci & Hun & Hcb & Hpg) Hm HQ. unfold on_coarse, wp. rewrite Hp.
  apply wp_run in Hm as (a & s' & E & (Hun' & Hobj & B' & Hci' & Hstep)). unfold coarse_of in E. rewrite E.
  destruct Hobj as (_ & Ecb & _ & Epg & _).
  eapply (HQ a _ (mk_fixed (f_base o) (f_size o) s' (f_stats o) (f_name o)) B'); [|done|by rewrite <- Hpg].
  split_and!; simpl; [by rewrite lookup_insert_eq| |done|by rewrite Ecb|by rewrite Epg].
  unfold coarse_of. simpl. by destruct s'.
Qed.

Definition fixed_abs (w : fworld H) (self : Z) (A : fabs) : Prop :=
  exists o B, fixed_at w self o B /\ A = mk_fabs (used_ranges (view B)) (f_stats o) /\
    allocated_memory (f_stats o) = total_size (used_ranges (view B)) /\
    allocated_memory (f_stats o) <= peak_memory (f_stats o).

Lemma fixed_at_total w self o B : fixed_at w self o B -> is_u64 (total_size (used_ranges (view B))).
Proof. intros (_ & (_ & Hlay & _) & _). rewrite total_size_used. by apply sum_of_u64. Qed.

(** Writing the statistics. *)
Lemma wp_update_stats w self o B f (Q : unit -> fworld H -> Prop) :
  fixed_at w self o B ->
  (forall w' o', fixed_at w' self o' B -> f_stats o' = f (f_stats o) -> Q tt w') ->
  wp (update_stats self f) Q w.
Proof.
  intros (Hp & Hci & Hun & Hcb & Hpg) HQ. unfold update_stats, load_fixed, store_fixed.
  apply wp_bind. wp_step. wp_step; [exact Hp|]. wp_step.
  apply (HQ _ (mk_fixed (f_base o) (f_size o) (f_coarse o) (f (f_stats o)) (f_name o))); [|done].
  split_and!; simpl; [by rewrite lookup_insert_eq|done..].
Qed.

Lemma wp_load_fixed w self o B (Q : fixed_memory_provider_t H -> fworld H -> Prop) :
  fixed_at w self o B -> Q o w -> wp (load_fixed self) Q w.
Proof. intros (Hp & _) HQ. unfold load_fixed. wp_step. by wp_step. Qed.

Lemma ptr_of_pos p : 0 < p -> ptr_of p = Some p.
Proof. intros. unfold ptr_of. by destruct (Z.eqb_spec p 0); [lia|]. Qed.

Lemma stats_alloc_exact size st n :
  allocated_memory st = n -> n + size < two64 -> 0 <= n -> 0 < size ->
  provider_ctl_stats_alloc size st = stats_step (PAlloc size 0 None) UMF_RESULT_SUCCESS st.
Proof.
  intros <- Hs Hn Hz. unfold provider_ctl_stats_alloc. simpl. rewrite add64_small by (unfold is_u64; lia).
  f_equal. destruct (Z.ltb_spec (peak_memory st) (allocated_memory st + size)); lia.
Qed.

Lemma wp_fixed_alloc w self A size al old (Q : umf_result_t * Z -> fworld H -> Prop) :
  fixed_abs w self A -> 0 < size < two64 -> is_u64 al ->
  (forall r o w' A', fspec_step page A (PAlloc size al (Some old)) (r, OZ (Some (addr_of o))) A' ->
     fixed_abs w' self A' -> Q (r, addr_of o) w') ->
  wp (fixed_alloc uninit_used dev self size al old) Q w.
Proof.
  intros (o & B & Hat & -> & Hall & Hpk) Hs Hal HQ. unfold fixed_alloc.
  apply wp_bind. eapply wp_load_fixed; [exact Hat|]. apply wp_bind.
  pose proof Hat as (Hp & Hci & Hun & Hcb & Hpg).
  eapply (wp_on_coarse _ w self o B (CAlloc size al) id); [exact Hat| |].
  { eapply wp_mono; [eapply (wp_coarse_alloc T ok); [done|done|done|exact Hci|done|done|done|by simpl; rewrite Hcb|by left|]|].
    - simpl. rewrite Hcb. done.
    - intros res s'. apply (alloc_refines ok); [done..|]. simpl. by rewrite Hcb. }
  intros [r x] w' o' B' Hat' Est Hstep. pose proof (fixed_at_total _ _ _ _ Hat') as Htot. pose proof (fixed_at_total _ _ _ _ Hat) as Htot0.
  pose proof (total_step _ _ _ _ _ _ Hstep ltac:(by intros)) as Ht. simpl in Ht.
  assert (forall w2 o2, fixed_at w2 self o2 B' -> f_stats o2 = stats_step (PAlloc size al (Some old)) r (f_stats o) ->
    wp (mret (r, addr_of x)) Q w2) as Hend.
  { intros w2 o2 Hat2 Est2. wp_step. eapply (HQ r x w2 (mk_fabs (used_ranges (view B')) (f_stats o2))).
    - by exists (CAlloc size al), x.
    - exists o2, B'. split_and!; [done|done|..]; rewrite Est2, ?Ht; destruct r; simpl; lia. }
  apply wp_bind. case_bool_decide as Er.
  - subst r. eapply wp_update_stats; [exact Hat'|]. intros w2 o2 Hat2 Est2. apply (Hend w2 o2 Hat2).
    rewrite Est2, Est. unfold is_u64 in Htot, Htot0. eapply (stats_alloc_exact _ _ _ Hall); lia.
  - wp_step. apply (Hend w' o' Hat'). rewrite Est. by destruct r.
Qed.

Lemma wp_fixed_free w self A ptr size (Q : umf_result_t -> fworld H -> Prop) :
  fixed_abs w self A -> 0 < ptr -> 0 < size < two64 -> (forall n, (ptr, n) ∈ fa_used A -> size = n) ->
  (forall r w' A', fspec_step page A (PFree ptr size) (r, ONone) A' -> fixed_abs w' self A' -> Q r w') ->
  wp (fixed_free dev self ptr size) Q w.
Proof.
  intros (o & B & Hat & -> & Hall & Hpk) Hptr Hs Hex HQ. unfold fixed_free. rewrite ptr_of_pos by done.
  apply wp_bind. eapply wp_load_fixed; [exact Hat|]. apply wp_bind.
  pose proof Hat as (Hp & Hci & Hun & Hcb & Hpg).
  eapply (wp_on_coarse _ w self o B (CFree ptr size) (fun r => (r, None))); [exact Hat| |].
  { eapply wp_mono; [eapply (wp_coarse_free T ok); [done|exact Hci|done|done|lia]|].
    intros res s'. by apply free_refines. }
  intros r w' o' B' Hat' Est Hstep. pose proof (fixed_at_total _ _ _ _ Hat') as Htot. pose proof (fixed_at_total _ _ _ _ Hat) as Htot0.
  pose proof (total_step _ _ _ _ _ _ Hstep ltac:(intros ? ? ? [= <- <-]; apply Hex)) as Ht. simpl in Ht.
  assert (forall w2 o2, fixed_at w2 self o2 B' -> f_stats o2 = stats_step (PFree ptr size) r (f_stats o) ->
    wp (mret r) Q w2) as Hend.
  { intros w2 o2 Hat2 Est2. wp_step. eapply (HQ r w2 (mk_fabs (used_ranges (view B')) (f_stats o2))).
    - by exists (CFree ptr size), None.
    - exists o2, B'. split_and!; [done|done|..]; rewrite Est2, ?Ht; destruct r; simpl; lia. }
  apply wp_bind. case_bool_decide as Er.
  - subst r. eapply wp_update_stats; [exact Hat'|]. intros w2 o2 Hat2 Est2. apply (Hend w2 o2 Hat2).
    rewrite Est2, Est. unfold provider_ctl_stats_free. simpl. rewrite sub64_small; [done|].
    rewrite Hall. unfold is_u64 in *. lia.
  - wp_step. apply (Hend w' o' Hat'). rewrite Est. by destruct r.
Qed.

(** Splitting and merging leave the statistics alone. *)
Lemma wp_fixed_quiet w self A c cc (m : M (cstate H unit) umf_result_t) (Q : umf_result_t -> fworld H -> Prop) :
  fixed_abs w self A -> coarse_call c = Some cc -> (forall o, out_of c o = ONone) ->
  (forall r st, stats_step c r st = st) -> (forall ptr bytes, cc <> CFree ptr bytes) -> (forall size al, cc <> CAlloc size al) ->
  (forall o B, fixed_at w self o B ->
     wp m (fun r s' => refined ok (coarse_of w o) B cc (r, None) s') (coarse_of w o)) ->
  (forall r w' A', fspec_step page A c (r, ONone) A' -> fixed_abs w' self A' -> Q r w') ->
  wp (on_coarse self m) Q w.
Proof.
  intros (o & B & Hat & -> & Hall & Hpk) Hcc Hout Hst Hnf Hna Hm HQ.
  eapply (wp_on_coarse _ w self o B cc (fun r => (r, None))); [exact Hat|by apply Hm|].
  intros r w' o' B' Hat' Est Hstep.
  pose proof (total_step _ _ _ _ _ _ Hstep ltac:(intros ? ? ? E; by apply Hnf in E)) as Ht.
  assert (total_size (used_ranges (view B')) = total_size (used_ranges (view B))) as Ht'.
  { rewrite Ht. destruct r; try done. destruct cc; try done; [by destruct (Hna size alignment)|by destruct (Hnf ptr bytes)]. }
  eapply (HQ r w' (mk_fabs (used_ranges (view B')) (f_stats o'))).
  - exists cc, None. split_and!; [done|done|by rewrite Hout|by rewrite Hst].
  - exists o', B'. split_and!; [done|done|..]; rewrite Est; lia.
Qed.

Lemma wp_bound_ret {S A B} (m : M S A) (f : A -> B) (Q : B -> S -> Prop) s :
  wp (x ← m; mret (f x)) Q s -> wp m (fun x => Q (f x)) s.
Proof. unfold wp, mbind, M_bind. by destruct (m s) as [[x s']|]. Qed.

Lemma wp_fixed_split w self A ptr total first (Q : umf_result_t -> fworld H -> Prop) :
  fixed_abs w self A -> 0 < ptr < two64 -> is_u64 total -> is_u64 first ->
  (forall r w' A', fspec_step page A (PSplit ptr total first) (r, ONone) A' -> fixed_abs w' self A' -> Q r w') ->
  wp (fixed_allocation_split uninit_used dev self ptr total first) Q w.
Proof.
  intros HA Hptr Ht Hf HQ. unfold fixed_allocation_split. rewrite ptr_of_pos by lia.
  pose proof HA as (o & B & Hat & _). apply wp_bind. eapply wp_load_fixed; [exact Hat|].
  eapply (wp_fixed_quiet w self A (PSplit ptr total first) (CSplit ptr total first)); try done; [by intros []|].
  intros o' B' (Hp & Hci & Hun & Hcb & Hpg). 
  apply (wp_bound_ret _ (fun r => (r, None)) (refined ok (coarse_of w o') B' (CSplit ptr total first))).
  change (wp (run_call uninit_used dev (c_self (co (f_coarse o))) (CSplit ptr total first)) (refined ok (coarse_of w o') B' (CSplit ptr total first)) (coarse_of w o')).
  apply (wp_run_call T ok uninit_used dev elem_reliable head_reliable free_reliable _ _ _ _ fixed_allocation_split_cb);
    [done|done| |by simpl; rewrite Hcb|by left|].
  - unfold call_ok, is_u64 in *. lia.
  - simpl. by rewrite Hcb.
Qed.

Lemma wp_fixed_merge w self A low high total (Q : umf_result_t -> fworld H -> Prop) :
  fixed_abs w self A -> 0 < low < two64 -> 0 < high < two64 -> is_u64 total ->
  (forall r w' A', fspec_step page A (PMerge low high total) (r, ONone) A' -> fixed_abs w' self A' -> Q r w') ->
  wp (fixed_allocation_merge dev self low high total) Q w.
Proof.
  intros HA Hl Hh Ht HQ. unfold fixed_allocation_merge. rewrite !ptr_of_pos by lia.
  pose proof HA as (o & B & Hat & _). apply wp_bind. eapply wp_load_fixed; [exact Hat|].
  eapply (wp_fixed_quiet w self A (PMerge low high total) (CMerge low high total)); try done; [by intros []|].
  intros o' B' (Hp & Hci & Hun & Hcb & Hpg). 
  apply (wp_bound_ret _ (fun r => (r, None)) (refined ok (coarse_of w o') B' (CMerge low high total))).
  change (wp (run_call uninit_used dev (c_self (co (f_coarse o))) (CMerge low high total)) (refined ok (coarse_of w o') B' (CMerge low high total)) (coarse_of w o')).
  apply (wp_run_call T ok uninit_used dev elem_reliable head_reliable free_reliable _ _ _ _ fixed_allocation_split_cb);
    [done|done| |by simpl; rewrite Hcb|by left|].
  - unfold call_ok, is_u64 in *. lia.
  - simpl. by rewrite Hcb.
Qed.

(** ** Creation and destruction *)

Hypothesis page_pow2 : pow2 page.

(** Parameters that describe a memory region. *)
Definition region_ok (p : umf_fixed_memory_provider_params_t) : Prop :=
  0 < fp_ptr p /\ 0 < fp_size p /\ fp_ptr p + fp_size p < two64.

Lemma ok_alloc tg size (h : H) r h' : ok h -> umf_ba_global_alloc tg size h = (r, h') -> ok h'.
Proof. intros Hok E. eapply (reliable_steps T ok); [done|]. by eapply host_steps_alloc. Qed.

Lemma set_chost_same (c : cstate H unit) h : c_host c = h -> set_chost h c = c.
Proof. intros <-. by destruct c. Qed.

(** Giving the whole region to a new coarse object. *)
Lemma wp_add_region w self o ip (Q : umf_result_t -> fworld H -> Prop) :
  fixed_at w self o [] -> region_ok ip ->
  (forall r w' o' B', fixed_at w' self o' B' -> f_stats o' = f_stats o -> c_self (co (f_coarse o')) = c_self (co (f_coarse o)) ->
     delete self (fw_provs w') = delete self (fw_provs w) -> fw_params w' = fw_params w ->
     (r = UMF_RESULT_SUCCESS -> used_ranges (view B') = []) -> Q r w') ->
  wp (on_coarse self (coarse_add_memory_fixed uninit_used dev (Some (c_self (co (f_coarse o)))) (ptr_of (fp_ptr ip)) (fp_size ip))) Q w.
Proof.
  intros (Hp & Hci & Hun & Hcb & Hpg) (R1 & R2 & R3) HQ. rewrite ptr_of_pos by done.
  assert (wp (coarse_add_memory_fixed uninit_used dev (Some (c_self (co (f_coarse o)))) (Some (fp_ptr ip)) (fp_size ip))
    (add_fixed_post ok (coarse_of w o) [] (fp_ptr ip) (fp_size ip)) (coarse_of w o)) as Hm.
  { apply (wp_coarse_add_memory_fixed T ok); try done; try (simpl; by rewrite Hcb).
    split_and!; [done|done|]. intros y Hy. by apply not_elem_of_nil in Hy. }
  unfold on_coarse, wp. rewrite Hp. apply wp_run in Hm as (r & s' & E & (Hun' & (Es & Ecb & _ & Epg & _) & Hout)).
  unfold coarse_of in E. rewrite E.
  assert (exists B', coarse_inv ok s' B' [] /\ (r = UMF_RESULT_SUCCESS -> used_ranges (view B') = [])) as (B' & Hci' & HU).
  { destruct Hout as [Hc _|Hc _|V1 V2 B' EV Hc _ _|merge V1 V2 B' EV Hc _ Eco]; [by exists []|by exists []|by exists B'|].
    exists B'. split; [done|]. intros _. apply coalesce_used in Eco; [|done]. rewrite Eco.
    symmetry in EV. apply app_nil in EV as [-> ->]. done. }
  eapply (HQ r _ (mk_fixed (f_base o) (f_size o) s' (f_stats o) (f_name o)) B'); simpl; try done.
  - split_and!; simpl; [by rewrite lookup_insert_eq| |done|by rewrite Ecb|by rewrite Epg].
    unfold coarse_of. simpl. by rewrite set_chost_same.
  - by rewrite delete_insert_eq.
Qed.

(** Destroying the coarse object and the provider. *)
Lemma wp_drop_fixed w self o B (Q : unit -> fworld H -> Prop) :
  fixed_at w self o B ->
  (forall w', fw_provs w' = delete self (fw_provs w) -> fw_params w' = fw_params w -> Q tt w') ->
  wp (_ ← on_coarse self (coarse_delete (Some (c_self (co (f_coarse o))))); free_fixed self) Q w.
Proof.
  intros (Hp & Hci & Hun & Hcb & Hpg) HQ. apply wp_bind. unfold on_coarse, wp at 1. rewrite Hp.
  assert (wp (coarse_delete (Some (c_self (co (f_coarse o))))) (fun _ _ => True) (coarse_of w o)) as Hm.
  { by apply (wp_coarse_delete ok (coarse_of w o) B []). }
  apply wp_run in Hm as (u & s' & E & _). unfold coarse_of in E. rewrite E.
  unfold free_fixed. wp_step. apply HQ; simpl; [by rewrite delete_insert_eq|done].
Qed.

Inductive init_post (w : fworld H) (out : Z) : umf_result_t * Z -> fworld H -> Prop :=
| init_failed r w' : r <> UMF_RESULT_SUCCESS -> fw_provs w' = fw_provs w -> fw_params w' = fw_params w -> init_post w out (r, out) w'
| init_done self w' : self <> 0 -> fw_provs w !! self = None -> fw_params w' = fw_params w ->
    fixed_abs w' self (mk_fabs [] (mk_ctl_stats 0 0)) -> init_post w out (UMF_RESULT_SUCCESS, self) w'.

Lemma wp_fixed_initialize w params ip out :
  owned tag_fixed (fw_provs w) (fw_host w) -> ok (fw_host w) ->
  params <> 0 -> fw_params w !! params = Some ip -> region_ok ip ->
  wp (fixed_initialize uninit_used dev page mutex_init_ret lock_results params out) (init_post w out) w.
Proof.
  intros Hown Hok Hp0 Hip Hreg. unfold fixed_initialize. destruct (Z.eqb_spec params 0); [done|].
  wp_step. wp_step; [exact Hip|]. destruct (umf_ba_global_alloc tag_fixed sizeof_fixed (fw_host w)) as [r h1] eqn:Ea.
  wp_step. destruct r as [self|]; [|by wp_step; apply init_failed].
  pose proof (owned_fresh _ _ _ _ _ _ _ Hown Ea) as Hfresh. pose proof (ba_alloc_nonnull _ _ _ _ _ Ea) as Hs0.
  pose proof (ok_alloc _ _ _ _ _ Hok Ea) as Hok1.
  destruct (coarse_new_spec T ok dev (fixed_coarse_params page) mutex_init_ret lock_results h1 tt) as (res & En & Hnew); [|done|].
  { split_and!; [done|done|by eexists|by eexists]. }
  wp_step; [exact En|]. destruct res as [[ret oc] h2]. wp_step. destruct oc as [c|]; cycle 1.
  { apply wp_bind. unfold free_fixed. wp_step. wp_step. destruct ret; try done; (apply init_failed; simpl; [done|by rewrite delete_id|done]). }
  destruct ret; try done. destruct Hnew as (_ & Hci & Hun & _ & Eh & Ecb & _ & Epg).
  apply wp_bind. unfold store_fixed. wp_step. apply wp_bind.
  set (o := mk_fixed (fp_ptr ip) (fp_size ip) c (mk_ctl_stats 0 0) (name64 (fp_name ip))).
  change (c_self (co c)) with (c_self (co (f_coarse o))). eapply (wp_add_region _ self o ip); [|done|].
  { split_and!; simpl; [by rewrite lookup_insert_eq| |done|done|done]. unfold coarse_of. simpl. by rewrite set_chost_same. }
  intros ret w1 o1 B1 Hat Est Eself Hdel Hpar HU. simpl in Hdel, Hpar. rewrite delete_insert_id in Hdel by done.
  case_bool_decide as Er; simpl.
  - wp_step. subst ret. apply init_done; [done|done|done|]. exists o1, B1. rewrite HU, Est by done. split_and!; done.
  - change (c_self (co (f_coarse o))) with (c_self (co c)) in *. rewrite <- Eself.
    assert (wp (_ ← on_coarse self (coarse_delete (Some (c_self (co (f_coarse o1))))); free_fixed self)
      (fun _ w' => fw_provs w' = fw_provs w /\ fw_params w' = fw_params w) w1) as Hd.
    { eapply wp_drop_fixed; [exact Hat|]. intros w' E1 E2. by rewrite E1, E2, Hdel. }
    unfold wp, mbind, M_bind in Hd |- *. destruct (on_coarse self _ w1) as [[u w2]|]; [|done].
    destruct (free_fixed self w2) as [[u' w3]|]; [|done]. destruct Hd. by apply init_failed.
Qed.

Lemma wp_fixed_finalize w self A :
  fixed_abs w self A ->
  wp (fixed_finalize self) (fun r w' => r = UMF_RESULT_SUCCESS /\ fw_provs w' = delete self (fw_provs w)) w.
Proof.
  intros (o & B & Hat & _). unfold fixed_finalize. apply wp_bind. eapply wp_load_fixed; [exact Hat|].
  assert (wp (_ ← on_coarse self (coarse_delete (Some (c_self (co (f_coarse o))))); free_fixed self)
      (fun _ w' => fw_provs w' = delete self (fw_provs w)) w) as Hd.
  { eapply wp_drop_fixed; [exact Hat|]. done. }
  unfold wp, mbind, M_bind in Hd |- *. destruct (on_coarse self _ w) as [[u w2]|]; [|done].
  by destruct (free_fixed self w2) as [[u' w3]|].
Qed.

(** ** Through the provider interface *)

Definition fixed_provider (self : Z) : umf_memory_provider_t (fworld H) :=
  mk_provider self (assignOpsIpcDefaults (assignOpsExtDefaults fixed_ops)).

Definition fixed_handle (s : dstate H (fworld H)) (h : Z) (A : fabs) : Prop :=
  provs_ok s /\ exists self, d_provs s !! h = Some (fixed_provider self) /\ fixed_abs (d_world s) self A.

Lemma wp_fixed_op w self A c :
  fixed_abs w self A -> fobeys A c -> pargs c = true ->
  wp (op_of (fixed_provider self) c) (fun res w' => exists A', fspec_step page A c res A' /\ fixed_abs w' self A') w.
Proof.
  intros HA Hob Hargs. destruct c; try done; simpl in Hob, Hargs |- *.
  - destruct ptr as [old|]; [|done]. destruct Hob as [Hs Hal]. wp_step. wp_step; [done|]. apply wp_bind.
    apply (wp_fixed_alloc w self A); [done..|]. intros r o w' A' Hstep HA'. wp_step. eauto.
  - destruct Hob as (Hp & Hs & Hex). wp_step. apply wp_bind.
    apply (wp_fixed_free w self A); [done|lia|done|done|]. intros r w' A' Hstep HA'. wp_step. eauto.
  - destruct Hob as (Hp & Ht & Hf). wp_step. apply wp_bind. unfold is_u64 in Hp.
    apply (wp_fixed_split w self A); [done|lia|done|done|]. intros r w' A' Hstep HA'. wp_step. eauto.
  - destruct Hob as (Hl & Hh & Ht). wp_step. apply wp_bind. unfold is_u64 in Hl, Hh.
    apply (wp_fixed_merge w self A); [done|lia|lia|done|]. intros r w' A' Hstep HA'. wp_step. eauto.
Qed.

(** A call that memory_provider.c rejects is a failed call of the contract. *)
Lemma rejected_step A c : fobeys A c -> pargs c = false ->
  fspec_step page A c (UMF_RESULT_ERROR_INVALID_ARGUMENT, unchanged c) A.
Proof.
  intros Hob Hargs. destruct c; try done; simpl in Hob, Hargs.
  - destruct ptr as [old|]; [done|]. eexists _, None. split_and!; [done|by apply spec_alloc_fails|done|done].
  - eexists _, None. split_and!; [done|by apply spec_split_fails|done|done].
  - eexists _, None. split_and!; [done|by apply spec_merge_fails|done|done].
Qed.

Lemma wp_fixed_pcall s h A c :
  fixed_handle s h A -> fobeys A c ->
  wp (run_pcall h c) (fun res s' => exists A', fspec_step page A c res A' /\ fixed_handle s' h A') s.
Proof.
  intros (Hok & self & Hp & HA) Hob. destruct (pargs c) eqn:Hargs; cycle 1.
  { eapply wp_of_run; [apply rejected; by right|]. exists A. split; [by apply rejected_step|]. split; eauto. }
  pose proof (wp_fixed_op (d_world s) self A c HA Hob Hargs) as Hwp. apply wp_run in Hwp as (res & w' & E & A' & Hstep & HA').
  eapply wp_of_run; [rewrite (dispatch h c s _ Hok Hp Hargs); unfold dispatched; by rewrite E|].
  exists A'. split; [done|]. split; [by case_match|]. exists self. by case_match.
Qed.

Fixpoint run_pcalls (h : Z) (cs : list pcall) : M (dstate H (fworld H)) (list (umf_result_t * pout)) :=
  match cs with
  | [] => mret []
  | c :: cs => r ← run_pcall h c; rs ← run_pcalls h cs; mret (r :: rs)
  end.

Lemma run_pcalls_length h cs s rs s' : run_pcalls h cs s = Some (rs, s') -> length rs = length cs.
Proof.
  revert s rs. induction cs as [|c cs IH]; intros s rs Er; cbn [run_pcalls] in Er; [by injection Er as <- _|].
  unfold mbind, M_bind in Er. destruct (run_pcall h c s) as [[r s1]|]; [|done].
  destruct (run_pcalls h cs s1) as [[rs1 s2]|] eqn:E2; [|done]. injection Er as <- <-. simpl. by rewrite (IH _ _ E2).
Qed.

Lemma fixed_pcalls_refine h cs s A rs s' :
  fixed_handle s h A -> run_pcalls h cs s = Some (rs, s') -> ftrace_obeys page A (zip cs rs) ->
  length rs = length cs /\ exists A', fspec_steps page A (zip cs rs) A' /\ fixed_handle s' h A'.
Proof.
  revert s A rs. induction cs as [|c cs IH]; intros s A rs HI Hrun Hob; cbn [run_pcalls] in Hrun.
  - injection Hrun as <- <-. split; [done|]. by exists A.
  - unfold mbind, M_bind in Hrun. destruct (run_pcall h c s) as [[r s1]|] eqn:E1; [|done].
    destruct (run_pcalls h cs s1) as [[rs' s2]|] eqn:E2; [|done]. injection Hrun as <- <-. destruct Hob as [Hc Hob].
    pose proof (wp_fixed_pcall s h A c HI Hc) as Hwp. unfold wp in Hwp. rewrite E1 in Hwp. destruct Hwp as (A1 & Hst & HA1).
    destruct (IH s1 A1 rs' HA1 E2 (Hob A1 Hst)) as (Hl & A' & Hsts & HA').
    split; [simpl; lia|]. exists A'. split; [by exists A1|done].
Qed.
End Spec.
