(* ===== verification/ProviderTheorems.v ===== *)
(** * Theorems about memory providers

    The properties of src/memory_provider.c for any provider, and of the
    fixed memory provider behind it, with an instance at which they apply. *)

From S2P Require Import Prelude Utils HostMem Ravl Coarse CoarseInv CoarseApi CoarseOps CoarsePublic CoarseSpec.
From S2P Require Import Provider ProviderSpec FixedProvider FixedSpec.
From stdpp Require Import strings.
#[local] Open Scope Z_scope.

Section Providers.
Context `{HostAllocLaws H} {W : Type}.
Implicit Types (s : dstate H W).


(** [umfMemoryProviderCreate] with any table of functions whose
    [initialize] and [get_name] return: it returns; an incomplete table is
    refused; on success there is one new provider, with every entry of its
    table set, whose private data is what [initialize] established; on any
    error the table of providers and the host allocator are as before. *)
Theorem provider_create_correct o params hp uninit I s :
  provs_ok s -> create_ok o params uninit (d_world s) I ->
  wp (umfMemoryProviderCreate (Some o) params (Some hp) uninit)
    (fun r s' => create_post o hp I s r s' /\ provs_ok s') s.
Proof. apply wp_umfMemoryProviderCreate. Qed.
End Providers.

Section Fixed.
Context `{HostAllocLaws H}.
Context (T : list string) (ok : H -> Prop) `{!Reliable T ok}.
Variable uninit_used : Z -> bool.
Variable dev : bool.
Variable page : Z.
Variable mutex_init_ret : Z.
Variable lock_results : list Z.
Variable purge : Z -> Z -> Z * Z.
Variable strerror : Z -> Z -> string.
Variable ctl : Z -> umf_ctl_query_source_t -> string -> Z -> Z -> umf_ctl_query_type_t -> M (fworld H) umf_result_t.

Abbreviation fixed_ops := (UMF_FIXED_MEMORY_PROVIDER_OPS uninit_used dev page mutex_init_ret lock_results purge strerror ctl).
Abbreviation handle := (fixed_handle ok uninit_used dev page mutex_init_ret lock_results purge strerror ctl).

Lemma wp_fixed_name w self A (Q : umf_result_t * option string -> fworld H -> Prop) :
  self <> 0 -> fixed_abs ok page w self A -> (forall r, Q r w) -> wp (fixed_get_name self None) Q w.
Proof.
  intros Hs (o & B & Hat & _) HQ. unfold fixed_get_name. destruct (Z.eqb_spec self 0); [done|].
  apply wp_bind. eapply wp_load_fixed; [exact Hat|]. by wp_step.
Qed.

Lemma fixed_create_ok params ip (w : fworld H) uninit :
  tag_elem ∈ T -> tag_head ∈ T -> tag_free ∈ T -> (forall p, uninit_used p = false) -> pow2 page ->
  owned tag_fixed (fw_provs w) (fw_host w) -> ok (fw_host w) ->
  params <> 0 -> fw_params w !! params = Some ip -> region_ok ip ->
  create_ok fixed_ops params uninit w (fun self w' => fixed_abs ok page w' self (mk_fabs [] (mk_ctl_stats 0 0))).
Proof.
  intros He Hh Hf Hun Hpg Hown Hok Hp0 Hip Hreg init name [= <-] [= <-].
  eapply wp_mono; [by eapply (wp_fixed_initialize T ok)|]. intros r w' Hpost Hr.
  destruct Hpost as [r w' Hn _ _|self w' Hs _ _ HA]; simpl in Hr |- *; [done|]. by eapply wp_fixed_name.
Qed.



(** C40 Before a purge of this thread has failed, the thread-local error of the
    provider is still zero; reading it indexes the table of messages at
    0 - UMF_FIXED_RESULT_SUCCESS, outside the array. *)
Theorem fixed_last_error_out_of_bounds s h A msg err :
  handle s h A -> TLS_last_native_error (d_world s) = mk_native_error 0 0 ->
  umfMemoryProviderGetLastNativeError h (Some msg) (Some err) s = None.
Proof.
  intros (Hok & self & Hp & _) Htls. pose proof (dispatch h (PLastError (Some msg) (Some err)) s _ Hok Hp eq_refl) as E.
  simpl in E. unfold mbind at 1, M_bind at 1 in E. unfold dispatched in E. simpl in E.
  unfold fixed_get_last_native_error, mbind, M_bind, get, of_option in E. simpl in E. rewrite Htls in E. simpl in E.
  destruct (umfMemoryProviderGetLastNativeError h (Some msg) (Some err) s) as [[[r x] s']|]; [done|done].
Qed.

(** Freeing NULL succeeds in the coarse allocator, and the statistics lose
    the size that was passed. *)
Lemma fixed_free_null_counts w self A size :
  fixed_abs ok page w self A ->
  wp (fixed_free dev self 0 size)
    (fun r w' => r = UMF_RESULT_SUCCESS /\ exists o, fw_provs w' !! self = Some o /\
       allocated_memory (f_stats o) = sub64 (total_size (fa_used A)) size) w.
Proof.
  intros (o & B & Hat & -> & E & _). unfold fixed_free, ptr_of. simpl.
  apply wp_bind. eapply wp_load_fixed; [exact Hat|]. pose proof Hat as (Hp & _).
  apply wp_bind. unfold on_coarse, wp at 1. rewrite Hp. simpl. apply wp_bind.
  unfold update_stats, load_fixed, store_fixed. apply wp_bind. wp_step. wp_step; [by simpl; rewrite lookup_insert_eq|].
  wp_step. wp_step. split; [done|]. eexists. split; [simpl; by rewrite lookup_insert_eq|]. simpl. by rewrite E.
Qed.
End Fixed.

(** ** An instance

    A host allocator that never fails, pages of 4096 bytes and a region of
    16 pages at address 2^20. *)

Definition demo_region : umf_fixed_memory_provider_params_t := mk_fixed_params 1048576 65536 "FIXED".
Definition demo_fworld : fworld scripted := mk_fworld (host0 []) {[5 := demo_region]} ∅ (mk_native_error 0 0).
Definition demo_providers : dstate scripted (fworld scripted) := mk_dstate ∅ 0 (host0 []) false demo_fworld.
Definition never_fails (h : scripted) : Prop := s_script h = [].
Definition demo_tags : list string := [tag_elem; tag_head; tag_free].
Definition no_ctl (_ : Z) (_ : umf_ctl_query_source_t) (_ : string) (_ _ : Z) (_ : umf_ctl_query_type_t)
  : M (fworld scripted) umf_result_t := mret UMF_RESULT_ERROR_NOT_SUPPORTED.
Definition demo_fixed_ops : umf_memory_provider_ops_t (fworld scripted) :=
  UMF_FIXED_MEMORY_PROVIDER_OPS (fun _ => false) true 4096 0 [] (fun _ _ => (-1, 22)) (fun _ _ => "Invalid argument"%string) no_ctl.

Lemma demo_tags_in tg : tg = tag_elem \/ tg = tag_head \/ tg = tag_free -> tg ∈ demo_tags.
Proof. unfold demo_tags. rewrite !elem_of_cons. tauto. Qed.

Lemma demo_provs_ok : provs_ok demo_providers.
Proof. split; [apply owned_empty|]. intros h p Hp. simpl in Hp. by rewrite lookup_empty in Hp. Qed.

Lemma demo_region_ok : region_ok demo_region.
Proof. by repeat split. Qed.

Lemma demo_page : pow2 4096.
Proof. by exists 12. Qed.

Lemma demo_owned : owned tag_fixed (fw_provs demo_fworld) (fw_host demo_fworld).
Proof. apply owned_empty. Qed.

Lemma demo_params_set : 5 <> 0.
Proof. done. Qed.

Lemma demo_create_ok :
  create_ok demo_fixed_ops 5 0 demo_fworld
    (fun self w' => fixed_abs never_fails 4096 w' self (mk_fabs [] (mk_ctl_stats 0 0))).
Proof.
  apply (fixed_create_ok demo_tags never_fails _ _ _ _ _ _ _ _ 5 demo_region);
    auto using demo_region_ok, demo_page, demo_owned, demo_tags_in; try done; apply demo_tags_in; tauto.
Qed.


Lemma provider_create_correct_witness :
  exists I, wp (umfMemoryProviderCreate (Some demo_fixed_ops) 5 (Some 0) 0)
    (fun r s' => create_post demo_fixed_ops 0 I demo_providers r s' /\ provs_ok s') demo_providers.
Proof. eexists. exact (provider_create_correct demo_fixed_ops 5 0 0 _ demo_providers demo_provs_ok demo_create_ok). Defined.


Definition demo_pcalls : list pcall := [PAlloc 4096 0 (Some 0); PMerge 1 2 3; PAlloc 100 0 None].

(** The provider that creation leaves. *)
Lemma demo_handle :
  exists h s, fixed_handle never_fails (fun _ => false) true 4096 0 [] (fun _ _ => (-1, 22))
    (fun _ _ => "Invalid argument"%string) no_ctl s h (mk_fabs [] (mk_ctl_stats 0 0)) /\
    umfMemoryProviderCreate (Some demo_fixed_ops) 5 (Some 0) 0 demo_providers = Some ((UMF_RESULT_SUCCESS, Some h), s).
Proof.
  pose proof (wp_umfMemoryProviderCreate demo_fixed_ops 5 0 0 _ demo_providers demo_provs_ok demo_create_ok) as Hw.
  apply wp_run in Hw as (r & s & E & Hpost & Hok).
  assert (option_map fst (umfMemoryProviderCreate (Some demo_fixed_ops) 5 (Some 0) 0 demo_providers) =
    Some (UMF_RESULT_SUCCESS, Some 1)) as E1 by (vm_compute; reflexivity).
  rewrite E in E1. simpl in E1. injection E1 as ->. inversion Hpost as [|h priv s' Hv Hfr Hp _ HA]; subst.
  exists 1, s. split; [|exact E]. split; [done|]. exists priv. split; [|done]. rewrite Hp. by rewrite lookup_insert_eq.
Qed.

Lemma demo_pcalls_obey : forall A evs, evs.*1 = demo_pcalls -> ftrace_obeys 4096 A evs.
Proof.
  intros A [|[c1 r1] [|[c2 r2] [|[c3 r3] [|]]]] [= -> -> ->].
  simpl. split; [done|]. intros A1 _. split; [done|]. intros A2 _. done.
Qed.

Lemma demo_runs :
  (r ← umfMemoryProviderCreate (Some demo_fixed_ops) 5 (Some 0) 0;
   h ← of_option r.2; run_pcalls h demo_pcalls) demo_providers <> None.
Proof. refine (runs_of_fst _ _ [(UMF_RESULT_SUCCESS, OZ (Some 1048576)); (UMF_RESULT_ERROR_INVALID_ARGUMENT, ONone);
  (UMF_RESULT_ERROR_INVALID_ARGUMENT, OZ None)] _). vm_compute. reflexivity. Qed.


Lemma fixed_last_error_out_of_bounds_witness :
  exists h (s : dstate scripted (fworld scripted)), umfMemoryProviderGetLastNativeError h (Some "message"%string) (Some 0) s = None.
Proof.
  destruct demo_handle as (h & s & Hh & E). exists h, s.
  apply (fixed_last_error_out_of_bounds never_fails (fun _ => false) true 4096 0 [] (fun _ _ => (-1, 22))
    (fun _ _ => "Invalid argument"%string) no_ctl s h (mk_fabs [] (mk_ctl_stats 0 0)) "message"%string 0 Hh).
  assert (option_map (fun r => TLS_last_native_error (d_world r.2))
    (umfMemoryProviderCreate (Some demo_fixed_ops) 5 (Some 0) 0 demo_providers) = Some (mk_native_error 0 0)) as Ht
    by (vm_compute; reflexivity).
  rewrite E in Ht. simpl in Ht. by injection Ht.
Defined.
