(* ===== verification/Tracker.v ===== *)
(** * The memory tracker, src/provider/provider_tracking.c

    The tracker maps every address to the pool it was allocated from.  Its
    maps are critnibs, one per level of nesting: a range that was allocated
    inside a tracked range is on the next level, and the outer one counts its
    children.  The critnibs are used with the code of Critnib, on one host
    allocator; the ranges are objects of a chunk pool.

    The state holds the objects by their address, 0 for NULL.  A critnib
    carries which callback it was created with; the calls of the callback that
    an operation made are run when it returns, they do not touch the critnib.
    The asserts and checks of UMF_DEVELOPER_MODE are included, messages are
    left out, and the functions run without a concurrent thread.  Destroying a
    mutex has no effect here. *)

From S2P Require Import Prelude Utils HostMem.
From stdpp Require Import strings list.
From S2P Require Import Critnib.
#[local] Open Scope Z_scope.

Definition MAX_LEVELS_OF_ALLOC_SEGMENT_MAP : nat := 8.

Record umf_memory_tracker_t := mk_tracker {
  alloc_info_allocator : Z;
  alloc_segments_map : list Z;
  splitMergeMutex : utils_mutex_t;
  ipc_info_allocator : Z;
  ipc_segments_map : Z;
}.

Record tracker_alloc_info_t := mk_info {
  ti_pool : Z;
  ti_size : Z;
  n_children : Z;
  is_freed : Z;
}.

Record tracker_ipc_info_t := mk_ipc_info {
  ii_size : Z;
  ii_provider : Z;
  ipc_cache_value : Z;
}.

(** [providerIpcData] is a list of bytes. *)
Record ipc_cache_value_t := mk_cache_value {
  handle_id : Z;
  ipcDataSize : Z;
  providerIpcData : list Z;
}.

Record umf_alloc_info_t := mk_alloc_info {
  ai_base : Z;
  baseSize : Z;
  ai_pool : Z;
}.

Record umf_ipc_info_t := mk_umf_ipc_info {
  ipc_base : Z;
  ipc_baseSize : Z;
  ipc_provider : Z;
}.

(** The callback of a critnib with its argument. *)
Inductive leaf_cb := FreeLeaf (allocator : Z) | FreeIpcSegment (allocator : Z) | FreeIpcCacheValue.

(** [t_mutex_init] are the results of the coming calls of [mutex_init],
    true when they run out; [t_proxy_lib] is [utils_is_running_in_proxy_lib]. *)
Record tstate (H B : Type) := mk_tstate {
  t_host : H;
  t_pools : B;
  t_crits : gmap Z (leaf_cb * cstate H);
  t_infos : gmap Z tracker_alloc_info_t;
  t_ipcs : gmap Z tracker_ipc_info_t;
  t_values : gmap Z ipc_cache_value_t;
  t_trackers : gmap Z umf_memory_tracker_t;
  TRACKER : Z;
  t_mutex_init : list bool;
  t_proxy_lib : bool;
}.
Arguments mk_tstate {H B}. Arguments t_host {H B}. Arguments t_pools {H B}.
Arguments t_crits {H B}. Arguments t_infos {H B}. Arguments t_ipcs {H B}. Arguments t_values {H B}.
Arguments t_trackers {H B}. Arguments TRACKER {H B}. Arguments t_mutex_init {H B}. Arguments t_proxy_lib {H B}.

Definition tag_tracker : string := "umf_memory_tracker_t".
Definition sizeof_tracker : Z := 128.
Definition sizeof_alloc_info : Z := 32.
Definition sizeof_ipc_info : Z := 24.
Definition DEADBEEF : Z := 3735928559.

Section Tracker.
Context `{HostAlloc H} `{ChunkPool B}.
Abbreviation T := (M (tstate H B)).
Implicit Types s : tstate H B.

(** ** Loads and stores *)

Definition with_host (h : H) s : tstate H B :=
  mk_tstate h (t_pools s) (t_crits s) (t_infos s) (t_ipcs s) (t_values s) (t_trackers s) (TRACKER s) (t_mutex_init s) (t_proxy_lib s).
Definition with_pools (b : B) s : tstate H B :=
  mk_tstate (t_host s) b (t_crits s) (t_infos s) (t_ipcs s) (t_values s) (t_trackers s) (TRACKER s) (t_mutex_init s) (t_proxy_lib s).
Definition with_crits (m : gmap Z (leaf_cb * cstate H)) s : tstate H B :=
  mk_tstate (t_host s) (t_pools s) m (t_infos s) (t_ipcs s) (t_values s) (t_trackers s) (TRACKER s) (t_mutex_init s) (t_proxy_lib s).
Definition with_infos (m : gmap Z tracker_alloc_info_t) s : tstate H B :=
  mk_tstate (t_host s) (t_pools s) (t_crits s) m (t_ipcs s) (t_values s) (t_trackers s) (TRACKER s) (t_mutex_init s) (t_proxy_lib s).
Definition with_ipcs (m : gmap Z tracker_ipc_info_t) s : tstate H B :=
  mk_tstate (t_host s) (t_pools s) (t_crits s) (t_infos s) m (t_values s) (t_trackers s) (TRACKER s) (t_mutex_init s) (t_proxy_lib s).
Definition with_values (m : gmap Z ipc_cache_value_t) s : tstate H B :=
  mk_tstate (t_host s) (t_pools s) (t_crits s) (t_infos s) (t_ipcs s) m (t_trackers s) (TRACKER s) (t_mutex_init s) (t_proxy_lib s).
Definition with_trackers (m : gmap Z umf_memory_tracker_t) s : tstate H B :=
  mk_tstate (t_host s) (t_pools s) (t_crits s) (t_infos s) (t_ipcs s) (t_values s) m (TRACKER s) (t_mutex_init s) (t_proxy_lib s).
Definition with_mutex_init (l : list bool) s : tstate H B :=
  mk_tstate (t_host s) (t_pools s) (t_crits s) (t_infos s) (t_ipcs s) (t_values s) (t_trackers s) (TRACKER s) l (t_proxy_lib s).

Definition with_TRACKER (h : Z) s : tstate H B :=
  mk_tstate (t_host s) (t_pools s) (t_crits s) (t_infos s) (t_ipcs s) (t_values s) (t_trackers s) h (t_mutex_init s) (t_proxy_lib s).

Definition load_tracker (hTracker : Z) : T umf_memory_tracker_t := s ← get; of_option (t_trackers s !! hTracker).
Definition load_info (p : Z) : T tracker_alloc_info_t := s ← get; of_option (t_infos s !! p).
Definition store_info (p : Z) (v : tracker_alloc_info_t) : T unit := modify (fun s => with_infos (<[p := v]> (t_infos s)) s).
Definition load_ipc (p : Z) : T tracker_ipc_info_t := s ← get; of_option (t_ipcs s !! p).

Definition with_size (n : Z) (i : tracker_alloc_info_t) : tracker_alloc_info_t :=
  mk_info (ti_pool i) n (n_children i) (is_freed i).
Definition with_children (n : Z) (i : tracker_alloc_info_t) : tracker_alloc_info_t :=
  mk_info (ti_pool i) (ti_size i) n (is_freed i).

(** An operation of the chunk pools. *)
Definition on_pools {A} (m : M B A) : T A :=
  fun s => match m (t_pools s) with Some (a, b) => Some (a, with_pools b s) | None => None end.

Definition mutex_init : T bool :=
  s ← get;
  _ ← modify (with_mutex_init (tail (t_mutex_init s)));
  mret (default true (head (t_mutex_init s))).

(** ** Callbacks of the critnibs *)

Definition free_leaf (leaf_allocator ptr : Z) : T unit :=
  if ptr =? 0 then mret tt else
  value ← load_info ptr;
  _ ← store_info ptr (mk_info (ti_pool value) (ti_size value) (n_children value) DEADBEEF);
  _ ← on_pools (umf_ba_free leaf_allocator ptr);
  modify (fun s => with_infos (delete ptr (t_infos s)) s).

Definition free_ipc_segment (ipc_info_allocator ptr : Z) : T unit :=
  if ptr =? 0 then mret tt else
  _ ← on_pools (umf_ba_free ipc_info_allocator ptr);
  modify (fun s => with_ipcs (delete ptr (t_ipcs s)) s).

Definition free_ipc_cache_value (ptr : Z) : T unit :=
  if ptr =? 0 then mret tt else
  modify (fun s => with_host (umf_ba_global_free ptr (t_host s)) (with_values (delete ptr (t_values s)) s)).

Definition call_leaf_cb (cb : leaf_cb) (ptr : Z) : T unit :=
  match cb with
  | FreeLeaf a => free_leaf a ptr
  | FreeIpcSegment a => free_ipc_segment a ptr
  | FreeIpcCacheValue => free_ipc_cache_value ptr
  end.

Fixpoint call_leaf_cbs (cb : leaf_cb) (ptrs : list Z) : T unit :=
  match ptrs with
  | [] => mret tt
  | ptr :: ptrs => _ ← call_leaf_cb cb ptr; call_leaf_cbs cb ptrs
  end.

(** [m] on the critnib [c], and the callbacks it called. *)
Definition on_critnib {A} (c : Z) (m : M (cstate H) A) : T A :=
  fun s =>
    match t_crits s !! c with
    | None => None
    | Some (cb, k) =>
      match m (Critnib.with_host (t_host s) k) with
      | None => None
      | Some (a, k') =>
        (_ ← call_leaf_cbs cb (drop (length (c_freed k)) (c_freed k')); mret a)
          (with_host (c_host k') (with_crits (<[c := (cb, k')]> (t_crits s)) s))
      end
    end.

(** A new critnib; NULL when there is no memory or no mutex for it. *)
Definition new_critnib (cb : leaf_cb) : T Z :=
  fun s =>
    let mutex_ok := default true (head (t_mutex_init s)) in
    let s := match (umf_ba_global_alloc tag_critnib sizeof_critnib (t_host s)).1 with
             | Some _ => with_mutex_init (tail (t_mutex_init s)) s
             | None => s
             end in
    match critnib_new true mutex_ok (t_host s) with
    | (None, h) => Some (0, with_host h s)
    | (Some k, h) => Some (self (c_crit k), with_host h (with_crits (<[self (c_crit k) := (cb, k)]> (t_crits s)) s))
    end.

Definition delete_critnib (c : Z) : T unit :=
  _ ← on_critnib c critnib_delete;
  modify (fun s => with_crits (delete c (t_crits s)) s).

(** [hTracker->alloc_segments_map[level]] *)
Definition segments_map (hTracker : Z) (level : nat) : T Z :=
  t ← load_tracker hTracker;
  of_option (alloc_segments_map t !! level).

Definition find_le_segment (hTracker : Z) (level : nat) (ptr : Z) : T (option (Z * Z * option Z)) :=
  c ← segments_map hTracker level;
  on_critnib c (critnib_find ptr FIND_LE true).

(** [critnib_release(hTracker->alloc_segments_map[level], ref)] *)
Definition release_segment (hTracker : Z) (level : nat) (ref : option Z) : T unit :=
  c ← segments_map hTracker level;
  _ ← on_critnib c (critnib_release ref);
  mret tt.

(** [if (ref) critnib_release(...)] *)
Definition release_if (hTracker : Z) (level : nat) (ref : option Z) : T unit :=
  match ref with Some _ => release_segment hTracker level ref | None => mret tt end.

(** ** Searching the levels *)

(** The local variables of the loops; [lv_ref] is [ref_value], [lv_pref] is
    [ref_parent_value]. *)
Record walk := mk_walk {
  lv_level : nat;
  lv_rkey : Z;
  lv_rvalue : Z;
  lv_rsize : Z;
  lv_children : Z;
  lv_parent_key : Z;
  lv_parent_value : Z;
  lv_ref : option Z;
  lv_pref : option Z;
}.

Definition walk0 : walk := mk_walk 0 0 0 0 0 0 0 None None.

(** The loop of [get_most_nested_alloc_segment]; [parent] says whether the
    caller wants the parent.  A leaf without a value ends it with [level] 0:
    [continue] in a do-while loop goes to the condition, and [found] is 0. *)
Fixpoint nested_loop (fuel : nat) (hTracker ptr : Z) (parent : bool) (l : walk) : T walk :=
  match fuel with
  | O => undef
  | S fuel =>
    let level := lv_level l in
    _ ← c_assert (bool_decide (level < MAX_LEVELS_OF_ALLOC_SEGMENT_MAP)%nat);
    found ← find_le_segment hTracker level ptr;
    match found with
    | None =>
      mret (mk_walk level (lv_rkey l) (lv_rvalue l) (lv_rsize l) (lv_children l) (lv_parent_key l)
              (lv_parent_value l) None (lv_pref l))
    | Some (rkey, rvalue, ref_value) =>
      if rvalue =? 0 then
        _ ← release_if hTracker level ref_value;
        mret (mk_walk 0 0 0 0 (lv_children l) 0 0 None None)
      else
        info ← load_info rvalue;
        let rsize := ti_size info in
        let nch := n_children info in
        let stay := mk_walk level rkey rvalue rsize nch (lv_parent_key l) (lv_parent_value l) ref_value (lv_pref l) in
        if (ptr <? add64 rkey rsize) && negb (nch =? 0) then
          if bool_decide (level = MAX_LEVELS_OF_ALLOC_SEGMENT_MAP - 1)%nat then mret stay else
          if parent then
            _ ← match lv_pref l with
                | Some _ =>
                  _ ← c_assert (bool_decide (2 <= S level)%nat);
                  release_segment hTracker (level - 1) (lv_pref l)
                | None => mret tt
                end;
            nested_loop fuel hTracker ptr parent (mk_walk (S level) rkey rvalue rsize nch rkey rvalue ref_value ref_value)
          else
            _ ← release_if hTracker level ref_value;
            nested_loop fuel hTracker ptr parent (mk_walk (S level) rkey rvalue rsize nch (lv_parent_key l) (lv_parent_value l) None (lv_pref l))
        else mret stay
    end
  end.

(** The returned value with what is stored through the pointers. *)
Definition get_most_nested_alloc_segment (hTracker ptr : Z) (parent no_children : bool) : T (option walk) :=
  _ ← c_assert (negb (ptr =? 0));
  l ← nested_loop MAX_LEVELS_OF_ALLOC_SEGMENT_MAP hTracker ptr parent walk0;
  if (lv_rvalue l =? 0) || negb (lv_rkey l =? ptr) then mret None else
  if no_children && (lv_children l >? 0) then mret None else
  info ← load_info (lv_rvalue l);
  _ ← c_assert (negb no_children || (n_children info =? 0));
  _ ← c_assert (bool_decide (is_Some (lv_ref l)));
  mret (Some l).

(** ** Adding a range *)

Definition umfMemoryTrackerAddAtLevel (hTracker : Z) (level : nat) (pool ptr size parent_key parent_value : Z)
    (ref_parent_value : option Z) : T umf_result_t :=
  _ ← c_assert (negb (ptr =? 0));
  t ← load_tracker hTracker;
  value ← on_pools (umf_ba_alloc (alloc_info_allocator t));
  if value =? 0 then mret UMF_RESULT_ERROR_OUT_OF_HOST_MEMORY else
  _ ← store_info value (mk_info pool size 0 0);
  _ ← c_assert (bool_decide (level < MAX_LEVELS_OF_ALLOC_SEGMENT_MAP)%nat);
  c ← segments_map hTracker level;
  ret ← on_critnib c (critnib_insert ptr value false);
  if ret =? 0 then
    if negb (parent_value =? 0) then
      info ← load_info parent_value;
      _ ← store_info parent_value (with_children (add64 (n_children info) 1) info);
      _ ← c_assert (bool_decide (is_Some ref_parent_value));
      _ ← release_segment hTracker (level - 1) ref_parent_value;
      mret UMF_RESULT_SUCCESS
    else mret UMF_RESULT_SUCCESS
  else
    let umf_result := if ret =? ENOMEM then UMF_RESULT_ERROR_OUT_OF_HOST_MEMORY else UMF_RESULT_ERROR_UNKNOWN in
    _ ← on_pools (umf_ba_free (alloc_info_allocator t) value);
    _ ← modify (fun s => with_infos (delete value (t_infos s)) s);
    mret umf_result.

(** The loop of [umfMemoryTrackerAdd]: the variables at its end, or the error
    it returns. *)
Fixpoint add_loop (fuel : nat) (hTracker ptr size : Z) (l : walk) : T (umf_result_t + walk) :=
  match fuel with
  | O => undef
  | S fuel =>
    let level := lv_level l in
    _ ← c_assert (bool_decide (level < MAX_LEVELS_OF_ALLOC_SEGMENT_MAP)%nat);
    found ← find_le_segment hTracker level ptr;
    match found with
    | None =>
      mret (inr (mk_walk level (lv_rkey l) (lv_rvalue l) (lv_rsize l) (lv_children l) (lv_parent_key l)
              (lv_parent_value l) None (lv_pref l)))
    | Some (rkey, rvalue, ref_value) =>
      if rvalue =? 0 then
        _ ← release_if hTracker level ref_value;
        mret (inr (mk_walk 0 0 0 0 (lv_children l) 0 0 None None))
      else
        info ← load_info rvalue;
        _ ← c_assert (negb (is_freed info =? DEADBEEF));
        let rsize := ti_size info in
        let nch := n_children info in
        if ptr <? add64 rkey rsize then
          if bool_decide (level = MAX_LEVELS_OF_ALLOC_SEGMENT_MAP - 1)%nat
          then mret (inl UMF_RESULT_ERROR_OUT_OF_RESOURCES) else
          if add64 ptr size >? add64 rkey rsize then mret (inl UMF_RESULT_ERROR_INVALID_ARGUMENT) else
          _ ← match lv_pref l with
              | Some _ =>
                _ ← c_assert (bool_decide (1 <= level)%nat);
                release_segment hTracker (level - 1) (lv_pref l)
              | None => mret tt
              end;
          let l' := mk_walk (S level) rkey rvalue rsize nch rkey rvalue ref_value ref_value in
          if negb (nch =? 0) then add_loop fuel hTracker ptr size l' else mret (inr l')
        else
          mret (inr (mk_walk level rkey rvalue rsize nch (lv_parent_key l) (lv_parent_value l) ref_value (lv_pref l)))
    end
  end.

Definition umfMemoryTrackerAdd (hTracker pool ptr size : Z) : T umf_result_t :=
  _ ← c_assert (negb (ptr =? 0));
  r ← add_loop MAX_LEVELS_OF_ALLOC_SEGMENT_MAP hTracker ptr size walk0;
  match r with
  | inl e => mret e
  | inr l =>
    _ ← (if bool_decide (is_Some (lv_ref l)) && negb (bool_decide (lv_ref l = lv_pref l))
         then release_segment hTracker (lv_level l) (lv_ref l) else mret tt);
    umfMemoryTrackerAddAtLevel hTracker (lv_level l) pool ptr size (lv_parent_key l) (lv_parent_value l) (lv_pref l)
  end.

(** ** Removing a range *)

Definition umfMemoryTrackerRemove (hTracker ptr : Z) : T umf_result_t :=
  _ ← c_assert (negb (ptr =? 0));
  found ← get_most_nested_alloc_segment hTracker ptr true true;
  match found with
  | None => mret UMF_RESULT_ERROR_UNKNOWN
  | Some l =>
    let level := lv_level l in
    _ ← c_assert (bool_decide (level < MAX_LEVELS_OF_ALLOC_SEGMENT_MAP)%nat);
    _ ← c_assert (bool_decide (is_Some (lv_ref l)));
    _ ← release_segment hTracker level (lv_ref l);
    c ← segments_map hTracker level;
    '(value, ref_value) ← on_critnib c (critnib_remove ptr true);
    _ ← c_assert (negb (value =? 0));
    _ ← c_assert (bool_decide (is_Some ref_value));
    _ ← release_segment hTracker level ref_value;
    if negb (lv_parent_value l =? 0) then
      info ← load_info (lv_parent_value l);
      _ ← store_info (lv_parent_value l) (with_children (sub64 (n_children info) 1) info);
      _ ← c_assert (bool_decide (is_Some (lv_pref l)));
      _ ← c_assert (bool_decide (1 <= level)%nat);
      _ ← release_segment hTracker (level - 1) (lv_pref l);
      mret UMF_RESULT_SUCCESS
    else mret UMF_RESULT_SUCCESS
  end.

(** ** Ranges mapped from other processes *)

Definition umfMemoryTrackerAddIpcSegment (hTracker ptr size provider cache_entry : Z) : T umf_result_t :=
  _ ← c_assert (negb (hTracker =? 0));
  _ ← c_assert (negb (provider =? 0));
  _ ← c_assert (negb (cache_entry =? 0));
  t ← load_tracker hTracker;
  value ← on_pools (umf_ba_alloc (ipc_info_allocator t));
  if value =? 0 then mret UMF_RESULT_ERROR_OUT_OF_HOST_MEMORY else
  _ ← modify (fun s => with_ipcs (<[value := mk_ipc_info size provider cache_entry]> (t_ipcs s)) s);
  ret ← on_critnib (ipc_segments_map t) (critnib_insert ptr value false);
  if ret =? 0 then mret UMF_RESULT_SUCCESS else
  _ ← on_pools (umf_ba_free (ipc_info_allocator t) value);
  _ ← modify (fun s => with_ipcs (delete value (t_ipcs s)) s);
  if ret =? ENOMEM then mret UMF_RESULT_ERROR_OUT_OF_HOST_MEMORY else mret UMF_RESULT_ERROR_UNKNOWN.

Definition umfMemoryTrackerRemoveIpcSegment (hTracker ptr : Z) : T umf_result_t :=
  _ ← c_assert (negb (ptr =? 0));
  t ← load_tracker hTracker;
  '(value, ref_value) ← on_critnib (ipc_segments_map t) (critnib_remove ptr true);
  if value =? 0 then mret UMF_RESULT_ERROR_UNKNOWN else
  _ ← c_assert (bool_decide (is_Some ref_value));
  _ ← on_critnib (ipc_segments_map t) (critnib_release ref_value);
  mret UMF_RESULT_SUCCESS.

(** ** Queries *)

(** The loop of [umfMemoryTrackerGetAllocInfo]: the parent in [walk] is the
    innermost range so far; the second result is [ref_level]. *)
Fixpoint info_loop (fuel : nat) (hTracker ptr : Z) (l : walk) (ref_level : nat) : T (walk * nat) :=
  match fuel with
  | O => undef
  | S fuel =>
    let level := lv_level l in
    _ ← c_assert (bool_decide (level < MAX_LEVELS_OF_ALLOC_SEGMENT_MAP)%nat);
    found ← find_le_segment hTracker level ptr;
    match found with
    | None =>
      mret (mk_walk level (lv_rkey l) (lv_rvalue l) (lv_rsize l) (lv_children l) (lv_parent_key l)
              (lv_parent_value l) None (lv_pref l), ref_level)
    | Some (rkey, rvalue, ref_value) =>
      if rvalue =? 0 then
        _ ← release_if hTracker level ref_value;
        mret (mk_walk 0 0 0 0 (lv_children l) 0 0 None None, 0%nat)
      else
        info ← load_info rvalue;
        let rsize := ti_size info in
        let nch := n_children info in
        if ptr <? add64 rkey rsize then
          _ ← match lv_pref l with
              | Some _ =>
                _ ← c_assert (bool_decide (1 <= level)%nat);
                release_segment hTracker (level - 1) (lv_pref l)
              | None => mret tt
              end;
          if (nch =? 0) || bool_decide (level = MAX_LEVELS_OF_ALLOC_SEGMENT_MAP - 1)%nat
          then mret (mk_walk level rkey rvalue rsize nch rkey rvalue ref_value ref_value, level)
          else info_loop fuel hTracker ptr (mk_walk (S level) rkey rvalue rsize nch rkey rvalue ref_value ref_value) level
        else
          mret (mk_walk level rkey rvalue rsize nch (lv_parent_key l) (lv_parent_value l) ref_value (lv_pref l), ref_level)
    end
  end.

Definition umfMemoryTrackerGetAllocInfo (ptr : Z) (pAllocInfo : umf_alloc_info_t) : T (umf_result_t * umf_alloc_info_t) :=
  if ptr =? 0 then mret (UMF_RESULT_ERROR_INVALID_ARGUMENT, pAllocInfo) else
  s ← get;
  let hTracker := TRACKER s in
  if hTracker =? 0 then mret (UMF_RESULT_ERROR_NOT_SUPPORTED, pAllocInfo) else
  c0 ← segments_map hTracker 0;
  if c0 =? 0 then mret (UMF_RESULT_ERROR_NOT_SUPPORTED, pAllocInfo) else
  '(l, ref_level) ← info_loop MAX_LEVELS_OF_ALLOC_SEGMENT_MAP hTracker ptr walk0 0;
  if lv_parent_value l =? 0 then
    _ ← release_if hTracker (lv_level l) (lv_ref l);
    mret (UMF_RESULT_ERROR_INVALID_ARGUMENT, pAllocInfo)
  else
    top_most_value ← load_info (lv_parent_value l);
    _ ← c_assert (bool_decide (is_Some (lv_pref l)));
    _ ← release_segment hTracker ref_level (lv_pref l);
    mret (UMF_RESULT_SUCCESS, mk_alloc_info (lv_parent_key l) (ti_size top_most_value) (ti_pool top_most_value)).

Definition umfMemoryTrackerGetPool (ptr : Z) : T Z :=
  '(ret, allocInfo) ← umfMemoryTrackerGetAllocInfo ptr (mk_alloc_info 0 0 0);
  if negb (bool_decide (ret = UMF_RESULT_SUCCESS)) then mret 0 else mret (ai_pool allocInfo).

Definition umfMemoryTrackerGetIpcInfo (ptr : Z) (pIpcInfo : umf_ipc_info_t) : T (umf_result_t * umf_ipc_info_t) :=
  if ptr =? 0 then mret (UMF_RESULT_ERROR_INVALID_ARGUMENT, pIpcInfo) else
  s ← get;
  if TRACKER s =? 0 then mret (UMF_RESULT_ERROR_NOT_SUPPORTED, pIpcInfo) else
  t ← load_tracker (TRACKER s);
  let c := ipc_segments_map t in
  if c =? 0 then mret (UMF_RESULT_ERROR_NOT_SUPPORTED, pIpcInfo) else
  let release ref_value :=
    match ref_value with Some _ => _ ← on_critnib c (critnib_release ref_value); mret tt | None => mret tt end in
  found ← on_critnib c (critnib_find ptr FIND_LE true);
  match found with
  | None => mret (UMF_RESULT_ERROR_INVALID_ARGUMENT, pIpcInfo)
  | Some (rkey, rvalue, ref_value) =>
    if rvalue =? 0 then _ ← release ref_value; mret (UMF_RESULT_ERROR_INVALID_ARGUMENT, pIpcInfo) else
    info ← load_ipc rvalue;
    if ptr >=? add64 rkey (ii_size info) then
      _ ← release ref_value; mret (UMF_RESULT_ERROR_INVALID_ARGUMENT, pIpcInfo)
    else
      _ ← release ref_value;
      mret (UMF_RESULT_SUCCESS, mk_umf_ipc_info rkey (ii_size info) (ii_provider info))
  end.

(** ** Creation and destruction *)

Definition update_tracker (h : Z) (f : umf_memory_tracker_t -> umf_memory_tracker_t) : T unit :=
  t ← load_tracker h;
  modify (fun s => with_trackers (<[h := f t]> (t_trackers s)) s).

Definition set_map (i : nat) (c : Z) (t : umf_memory_tracker_t) : umf_memory_tracker_t :=
  mk_tracker (alloc_info_allocator t) (<[i := c]> (alloc_segments_map t)) (splitMergeMutex t) (ipc_info_allocator t) (ipc_segments_map t).
Definition set_alloc_allocator (p : Z) (t : umf_memory_tracker_t) : umf_memory_tracker_t :=
  mk_tracker p (alloc_segments_map t) (splitMergeMutex t) (ipc_info_allocator t) (ipc_segments_map t).
Definition set_ipc_allocator (p : Z) (t : umf_memory_tracker_t) : umf_memory_tracker_t :=
  mk_tracker (alloc_info_allocator t) (alloc_segments_map t) (splitMergeMutex t) p (ipc_segments_map t).
Definition set_ipc_map (c : Z) (t : umf_memory_tracker_t) : umf_memory_tracker_t :=
  mk_tracker (alloc_info_allocator t) (alloc_segments_map t) (splitMergeMutex t) (ipc_info_allocator t) c.
Definition set_split_mutex (m : utils_mutex_t) (t : umf_memory_tracker_t) : umf_memory_tracker_t :=
  mk_tracker (alloc_info_allocator t) (alloc_segments_map t) m (ipc_info_allocator t) (ipc_segments_map t).

(** Deletes the maps that exist, [n] of them from [i] on; [zero] says whether
    the pointers are set to NULL. *)
Fixpoint delete_maps (n i : nat) (h : Z) (zero : bool) : T unit :=
  match n with
  | O => mret tt
  | S n =>
    c ← segments_map h i;
    _ ← (if c =? 0 then mret tt else
         _ ← delete_critnib c;
         if zero then update_tracker h (set_map i 0) else mret tt);
    delete_maps n (S i) h zero
  end.

(** Creates the maps, [n] of them from [i] on; false when one fails. *)
Fixpoint create_maps (n i : nat) (h allocator : Z) : T bool :=
  match n with
  | O => mret true
  | S n =>
    c ← new_critnib (FreeLeaf allocator);
    _ ← update_tracker h (set_map i c);
    if c =? 0 then mret false else create_maps n (S i) h allocator
  end.

Definition free_tracker (h : Z) : T unit :=
  modify (fun s => with_host (umf_ba_global_free h (t_host s)) (with_trackers (delete h (t_trackers s)) s)).

Definition umfMemoryTrackerCreate (handle_out : Z) : T (umf_result_t * Z) :=
  s ← get;
  let '(r, host) := umf_ba_global_alloc tag_tracker sizeof_tracker (t_host s) in
  _ ← modify (with_host host);
  match r with
  | None => mret (UMF_RESULT_ERROR_OUT_OF_HOST_MEMORY, handle_out)
  | Some handle =>
    let zeroed := mk_tracker 0 (replicate MAX_LEVELS_OF_ALLOC_SEGMENT_MAP 0) (mk_mutex false []) 0 0 in
    _ ← modify (fun s => with_trackers (<[handle := zeroed]> (t_trackers s)) s);
    let err_free_handle ret := _ ← free_tracker handle; mret (ret, handle_out) in
    allocator ← on_pools (umf_ba_create sizeof_alloc_info);
    if allocator =? 0 then err_free_handle UMF_RESULT_ERROR_OUT_OF_HOST_MEMORY else
    _ ← update_tracker handle (set_alloc_allocator allocator);
    let err_destroy_allocator ret := _ ← on_pools (umf_ba_destroy allocator); err_free_handle ret in
    mutex_ok ← mutex_init;
    if negb mutex_ok then err_destroy_allocator UMF_RESULT_ERROR_UNKNOWN else
    let err_destroy_maps ret := _ ← delete_maps MAX_LEVELS_OF_ALLOC_SEGMENT_MAP 0 handle false; err_destroy_allocator ret in
    maps_ok ← create_maps MAX_LEVELS_OF_ALLOC_SEGMENT_MAP 0 handle allocator;
    if negb maps_ok then err_destroy_maps UMF_RESULT_ERROR_OUT_OF_HOST_MEMORY else
    ipc_allocator ← on_pools (umf_ba_create sizeof_ipc_info);
    _ ← update_tracker handle (set_ipc_allocator ipc_allocator);
    if ipc_allocator =? 0 then err_destroy_maps UMF_RESULT_ERROR_OUT_OF_HOST_MEMORY else
    ipc_map ← new_critnib (FreeIpcSegment ipc_allocator);
    _ ← update_tracker handle (set_ipc_map ipc_map);
    if ipc_map =? 0 then
      _ ← on_pools (umf_ba_destroy ipc_allocator);
      err_destroy_maps UMF_RESULT_ERROR_OUT_OF_HOST_MEMORY
    else mret (UMF_RESULT_SUCCESS, handle)
  end.

(** The ranges of the map [c] above [last_key] that belong to [pool], all of
    them when it is NULL; the map has at most [fuel] keys. *)
Fixpoint count_items (fuel : nat) (c last_key pool : Z) : T Z :=
  match fuel with
  | O => undef
  | S fuel =>
    found ← on_critnib c (critnib_find last_key FIND_G true);
    match found with
    | None => mret 0
    | Some (rkey, rvalue, ref_value) =>
      n ← (if rvalue =? 0 then mret 0 else
           info ← load_info rvalue;
           mret (if (ti_pool info =? pool) || (pool =? 0) then 1 else 0));
      _ ← match ref_value with Some _ => on_critnib c (critnib_release ref_value) | None => mret 0 end;
      rest ← count_items fuel c rkey pool;
      mret (add64 n rest)
    end
  end.

Fixpoint count_all_items (n i : nat) (hTracker pool : Z) : T Z :=
  match n with
  | O => mret 0
  | S n =>
    c ← segments_map hTracker i;
    s ← get;
    '(_, k) ← of_option (t_crits s !! c);
    x ← count_items (S (size (c_leaves k))) c 0 pool;
    rest ← count_all_items n (S i) hTracker pool;
    mret (add64 x rest)
  end.

Definition check_if_tracker_is_empty (hTracker pool : Z) : T unit :=
  n_items ← count_all_items MAX_LEVELS_OF_ALLOC_SEGMENT_MAP 0 hTracker pool;
  s ← get;
  if negb (n_items =? 0) && negb (t_proxy_lib s) then c_assert (n_items =? 0) else mret tt.

Definition umfMemoryTrackerDestroy (handle : Z) : T unit :=
  if handle =? 0 then mret tt else
  s ← get;
  if t_proxy_lib s then mret tt else
  _ ← check_if_tracker_is_empty handle 0;
  _ ← delete_maps MAX_LEVELS_OF_ALLOC_SEGMENT_MAP 0 handle true;
  t ← load_tracker handle;
  _ ← on_pools (umf_ba_destroy (alloc_info_allocator t));
  _ ← update_tracker handle (set_alloc_allocator 0);
  _ ← delete_critnib (ipc_segments_map t);
  _ ← update_tracker handle (set_ipc_map 0);
  _ ← on_pools (umf_ba_destroy (ipc_info_allocator t));
  _ ← update_tracker handle (set_ipc_allocator 0);
  free_tracker handle.

(** [umfMemoryTrackerCreate(&TRACKER)] of [umfInit]. *)
Definition create_TRACKER : T umf_result_t :=
  s ← get;
  '(umf_result, h) ← umfMemoryTrackerCreate (TRACKER s);
  _ ← modify (with_TRACKER h);
  mret umf_result.

(** The end of the tracker in [umfTearDown]. *)
Definition destroy_TRACKER : T unit :=
  s ← get;
  let t := TRACKER s in
  _ ← modify (with_TRACKER 0);
  umfMemoryTrackerDestroy t.
End Tracker.
