(* ===== verification/CritWorld.v ===== *)
(** * Critnibs beside other objects

    A component that uses several critnibs allocates all of them with one host
    allocator.  [crit_at h k V n]: the critnib [k] is between two calls with
    the host allocator in state [h]; it depends on its own objects only, so
    the calls of one critnib keep the others. *)

From S2P Require Import Prelude Utils HostMem CritRep CritIns CritInv CritHeap CritInsert.
From S2P Require Import CritInsert CritRemove CritQuery CritDelete CritSpec.
From stdpp Require Import list sorting strings.
From S2P Require Import Critnib.
#[local] Open Scope Z_scope.
#[local] Opaque crep.

(** ** The address of the struct *)

Section Self.
Context `{HostAlloc H}.
Implicit Types (s : cstate H).

(** [m] does not move the struct. *)
Definition keeps_self {A} (m : M (cstate H) A) : Prop :=
  forall s a s', m s = Some (a, s') -> self (c_crit s') = self (c_crit s).

Lemma ks_ret {A} (a : A) : keeps_self (mret a).
Proof. intros s b s' E. by injection E as _ <-. Qed.
Lemma ks_undef {A} : keeps_self (undef (A := A)).
Proof. intros s b s' E. done. Qed.
Lemma ks_get : keeps_self get.
Proof. intros s b s' E. by injection E as _ <-. Qed.
Lemma ks_of_option {A} (o : option A) : keeps_self (of_option o).
Proof. destruct o; [apply ks_ret|apply ks_undef]. Qed.
Lemma ks_assert b : keeps_self (c_assert b).
Proof. destruct b; [apply ks_ret|apply ks_undef]. Qed.
Lemma ks_modify f : (forall s, self (c_crit (f s)) = self (c_crit s)) -> keeps_self (modify f).
Proof. intros Hf s b s' E. injection E as _ <-. apply Hf. Qed.
Lemma ks_bind {A B} (m : M (cstate H) A) (k : A -> M (cstate H) B) :
  keeps_self m -> (forall a, keeps_self (k a)) -> keeps_self (m ≫= k).
Proof.
  intros Hm Hk s b s' E. unfold mbind, M_bind in E. destruct (m s) as [[a s1]|] eqn:E1; [|done].
  rewrite (Hk _ _ _ _ E). by apply (Hm _ _ _ E1).
Qed.
Lemma ks_host_alloc tg size : keeps_self (host_alloc tg size).
Proof. intros s b s' E. unfold host_alloc in E. destruct (umf_ba_global_alloc tg size (c_host s)). by injection E as _ <-. Qed.
End Self.

Create HintDb ks discriminated.
#[local] Hint Resolve ks_ret ks_undef ks_get ks_of_option ks_assert ks_host_alloc : ks.

(** Follows the structure of a program. *)
Ltac ks := repeat first
  [ solve [auto with ks nocore]
  | lazymatch goal with
    | |- keeps_self (_ ≫= _) => apply ks_bind; [|intros ?]
    | |- keeps_self (modify _) => apply ks_modify; intros ?; reflexivity
    | |- keeps_self (match ?x with _ => _ end) => destruct x
    end ].

Section Ops.
Context `{HostAlloc H}.
Implicit Types (s : cstate H).

Lemma ks_load_node a : keeps_self (H := H) (load_node a).
Proof. unfold load_node. ks. Qed.
Lemma ks_load_leaf a : keeps_self (H := H) (load_leaf a).
Proof. unfold load_leaf. ks. Qed.
#[local] Hint Resolve ks_load_node ks_load_leaf : ks.
Lemma ks_update_node a f : keeps_self (H := H) (update_node a f).
Proof. unfold update_node. ks. Qed.
Lemma ks_update_leaf a f : keeps_self (H := H) (update_leaf a f).
Proof. unfold update_leaf. ks. Qed.
Lemma ks_load_child a i : keeps_self (H := H) (load_child a i).
Proof. unfold load_child. ks. Qed.
#[local] Hint Resolve ks_update_node ks_update_leaf ks_load_child : ks.
Lemma ks_store_child a i m : keeps_self (H := H) (store_child a i m).
Proof. unfold store_child. ks. Qed.
#[local] Hint Resolve ks_store_child : ks.
Lemma ks_store_slot p n : keeps_self (H := H) (store_slot p n).
Proof. unfold store_slot. ks. Qed.
Lemma ks_lock : keeps_self (H := H) lock.
Proof. unfold lock. ks. Qed.
Lemma ks_unlock : keeps_self (H := H) unlock.
Proof. unfold unlock. ks. Qed.
Lemma ks_add_deleted k : keeps_self (H := H) (add_to_deleted_leaf_list k).
Proof. unfold add_to_deleted_leaf_list. ks. Qed.
#[local] Hint Resolve ks_store_slot ks_lock ks_unlock ks_add_deleted : ks.
Lemma ks_free_node n : keeps_self (H := H) (free_node n).
Proof. unfold free_node. ks. Qed.
Lemma ks_free_leaf k : keeps_self (H := H) (free_leaf k).
Proof. unfold free_leaf. ks. Qed.
Lemma ks_alloc_node : keeps_self (H := H) alloc_node.
Proof. unfold alloc_node. ks. Qed.
Lemma ks_alloc_leaf : keeps_self (H := H) alloc_leaf.
Proof. unfold alloc_leaf. ks. Qed.
#[local] Hint Resolve ks_free_node ks_free_leaf ks_alloc_node ks_alloc_leaf : ks.
Lemma ks_drop_new k : keeps_self (H := H) (drop_new_leaf k).
Proof. unfold drop_new_leaf. ks. Qed.
Lemma ks_fill m k p sh kn n : keeps_self (H := H) (fill_node m k p sh kn n).
Proof. unfold fill_node. ks. Qed.
Lemma ks_insert_walk f k n prev parent : keeps_self (H := H) (insert_walk f k n prev parent).
Proof. revert n prev parent. induction f; intros n prev parent; destruct n; simpl; ks. Qed.
#[local] Hint Resolve ks_drop_new ks_fill ks_insert_walk : ks.
Lemma ks_insert k v u : keeps_self (H := H) (critnib_insert k v u).
Proof. unfold critnib_insert. ks. Qed.
Lemma ks_remove_walk f k n kn np kp : keeps_self (H := H) (remove_walk f k n kn np kp).
Proof. revert n kn np kp. induction f; intros n kn np kp; destruct kn; simpl; ks. Qed.
Lemma ks_del_leaf del k : keeps_self (H := H) (del_leaf del k).
Proof. unfold del_leaf. ks. Qed.
Lemma ks_not_found : keeps_self (H := H) not_found.
Proof. unfold not_found. ks. Qed.
#[local] Hint Resolve ks_remove_walk ks_del_leaf ks_not_found : ks.
Lemma ks_remove k ref : keeps_self (H := H) (critnib_remove k ref).
Proof. unfold critnib_remove. ks. Qed.
Lemma ks_release ref : keeps_self (H := H) (critnib_release ref).
Proof. unfold critnib_release, call_free_leaf. ks. Qed.
#[local] Hint Resolve ks_remove ks_release : ks.
Lemma ks_remove_release k : keeps_self (H := H) (critnib_remove_release k).
Proof. unfold critnib_remove_release. ks. Qed.
Lemma ks_increment k : keeps_self (H := H) (increment_ref_count k).
Proof. unfold increment_ref_count. ks. Qed.
Lemma ks_restart w : keeps_self (H := H) (check_restart w).
Proof. unfold check_restart. ks. Qed.
Lemma ks_dive f k n : keeps_self (H := H) (dive f k n).
Proof. revert n. induction f; intros n; destruct n; simpl; ks. Qed.
#[local] Hint Resolve ks_increment ks_restart ks_dive : ks.
Lemma ks_take_ref r k : keeps_self (H := H) (take_ref r k).
Proof. unfold take_ref. ks. Qed.
Lemma ks_predecessor f n : keeps_self (H := H) (find_predecessor f n).
Proof. revert n. induction f; intros n; destruct n; simpl; ks. Qed.
Lemma ks_successor f n : keeps_self (H := H) (find_successor f n).
Proof. revert n. induction f; intros n; destruct n; simpl; ks. Qed.
#[local] Hint Resolve ks_take_ref ks_predecessor ks_successor : ks.
Lemma ks_find_le f n k : keeps_self (H := H) (find_le f n k).
Proof. revert n. induction f; intros n; destruct n; cbn [find_le]; ks. Qed.
Lemma ks_find_ge f n k : keeps_self (H := H) (find_ge f n k).
Proof. revert n. induction f; intros n; destruct n; cbn [find_ge]; ks. Qed.
Lemma ks_find_eq k n : keeps_self (H := H) (find_eq k n).
Proof. unfold find_eq. ks. Qed.
#[local] Hint Resolve ks_find_le ks_find_ge ks_find_eq ks_insert ks_remove_release : ks.
Lemma ks_ccall c : keeps_self (H := H) (run_ccall c).
Proof. destruct c; simpl; unfold critnib_get, critnib_find_le, critnib_find; ks. Qed.
End Ops.

(** ** A critnib and its objects *)

Section World.
Context `{HostAllocLaws H}.
Implicit Types (k : cstate H) (V : cview) (h : H).

(** The objects of a critnib, with the tags they are allocated under. *)
Definition own_tag k (a : Z) : option string :=
  match c_nodes k !! a, c_leaves k !! a with
  | Some _, _ => Some tag_node
  | None, Some _ => Some tag_leaf
  | None, None => if decide (a = self (c_crit k)) then Some tag_critnib else None
  end.
Definition owns k (a : Z) : Prop := is_Some (own_tag k a).

Definition crit_at h k V (n : Z) : Prop := exists base, crest (with_host h k) V n base.

Lemma owns_self k : owns k (self (c_crit k)).
Proof. unfold owns, own_tag. destruct (c_nodes k !! self (c_crit k)), (c_leaves k !! self (c_crit k)); eauto. by rewrite decide_True. Qed.

Lemma rest_live k V n base a : crest k V n base ->
  ba_live (c_host k) !! a = match own_tag k a with Some tg => Some tg | None => base !! a end /\
  (owns k a -> base !! a = None).
Proof.
  intros (L & N & DN & DL & ZL & [[_ _ _ [Hl Hn Hf Hs] _] _]). rewrite Hl. unfold host_tag, owns, own_tag.
  destruct (c_nodes k !! a) eqn:En; [split; [done|]; intros _; by apply Hn; rewrite En|].
  destruct (c_leaves k !! a) eqn:El; [split; [done|]; intros _; by apply Hf; rewrite El|].
  case_decide as E; [|split; [done|by intros []]]. subst a. done.
Qed.

Lemma crit_live h k V n a tg : crit_at h k V n -> own_tag k a = Some tg -> ba_live h !! a = Some tg.
Proof. intros [base HI] E. destruct (rest_live _ _ _ _ a HI) as [El _]. simpl in El. change (own_tag (with_host h k) a) with (own_tag k a) in El. by rewrite E in El. Qed.

(** The rest of the allocator, without the objects of [k]. *)
Definition rest_of k h : gmap Z string := filter (fun x => own_tag k x.1 = None) (ba_live h).

Lemma rest_of_lookup k h a : rest_of k h !! a = match own_tag k a with Some _ => None | None => ba_live h !! a end.
Proof.
  unfold rest_of. destruct (own_tag k a) eqn:E.
  - apply map_lookup_filter_None. right. simpl. intros x _. by rewrite E.
  - destruct (ba_live h !! a) as [tg|] eqn:El; [by apply map_lookup_filter_Some|]. apply map_lookup_filter_None. by left.
Qed.

(** A critnib depends on its own objects only. *)
Lemma crit_frame h h' k V n :
  crit_at h k V n -> (forall a, owns k a -> ba_live h' !! a = ba_live h !! a) -> crit_at h' k V n.
Proof.
  intros [base HI] Hf. exists (rest_of k h'). pose proof (fun a tg => crit_live h k V n a tg (ex_intro _ base HI)) as Hlive.
  pose proof (fun a => proj2 (rest_live _ _ _ _ a HI)) as Hb.
  destruct HI as (L & N & DN & DL & ZL & [[Ht Hn Hl [Il In If Is] Hc] HV]). exists L, N, DN, DL, ZL.
  assert (forall a, ba_live h' !! a = host_tag (with_host h' k) (rest_of k h') a) as Hlive'.
  { intros a. unfold host_tag. simpl. pose proof (Hf a) as Ha. unfold owns in Ha. pose proof (Hlive a) as Hla.
    rewrite rest_of_lookup. unfold own_tag in *. destruct (c_nodes k !! a), (c_leaves k !! a);
      try (rewrite Ha by eauto; by apply Hla).
    case_decide; [|done]. rewrite Ha by eauto. by apply Hla. }
  split; [split|]; [exact Ht|by destruct Hn|by destruct Hl| |by destruct Hc|].
  - split; [done|..]; simpl.
    + intros a Ha. destruct (In a Ha) as (? & ? & _). split_and!; [done|done|]. rewrite rest_of_lookup. unfold own_tag.
      simpl. destruct Ha as [x ->]. done.
    + intros a Ha. destruct (If a Ha) as (? & _). split; [done|]. rewrite rest_of_lookup. unfold own_tag.
      destruct Ha as [x Hx]. simpl in Hx. rewrite Hx. by destruct (c_nodes k !! a).
    + rewrite rest_of_lookup. destruct (owns_self k) as [tg Htg]. by rewrite Htg.
  - destruct HV. by split.
Qed.

Lemma crit_mono h k V n m : n <= m -> crit_at h k V n -> crit_at h k V m.
Proof. intros Hle [base HI]. exists base. by apply (crest_mono _ _ n). Qed.

(** What a call of [k] may do to the allocator: the objects of others stay. *)
Definition keeps_others h k h' k' : Prop :=
  self (c_crit k') = self (c_crit k) /\
  (forall a, ~ owns k a -> is_Some (ba_live h !! a) -> ba_live h' !! a = ba_live h !! a /\ ~ owns k' a) /\
  forall a, ~ owns k' a -> is_Some (ba_live h' !! a) -> is_Some (ba_live h !! a) /\ ~ owns k a.

Lemma wp_crit_call h k V n c :
  crit_at h k V n -> 0 <= n -> n + DELETED_LIFE < two64 -> cobeys V c ->
  wp (run_ccall c) (fun r k' => exists V', cstep V c r V' /\ crit_at (c_host k') k' V' (n + 1) /\
    keeps_others h k (c_host k') k') (with_host h k).
Proof.
  intros [base HI] Hn0 Hn Hob. pose proof (wp_ccall _ V c n base HI Hn0 Hn Hob) as Hw.
  pose proof (ks_ccall c (with_host h k)) as Hks. unfold wp in *.
  destruct (run_ccall c (with_host h k)) as [[r k']|] eqn:E; [|done]. destruct Hw as (V' & Hst & HI').
  exists V'. split; [done|]. split; [exists base; by destruct k'|]. split; [apply (Hks r k' eq_refl)|].
  split; intros a Ha Hlive; destruct (rest_live _ _ _ _ a HI) as [El Hb0]; simpl in El;
    change (own_tag (with_host h k) a) with (own_tag k a) in El; [|clear Hks]; cycle 1.
  { destruct (rest_live _ _ _ _ a HI') as [El' _]. apply eq_None_not_Some in Ha. rewrite Ha in El'. rewrite El' in Hlive.
    assert (~ owns k a) as Hno by (intros Ho; rewrite (Hb0 Ho) in Hlive; by destruct Hlive). split; [|done].
    apply eq_None_not_Some in Hno. by rewrite El, Hno. }
  assert (own_tag k a = None) as En by (apply eq_None_not_Some, Ha). rewrite En in El.
  destruct (rest_live _ _ _ _ a HI') as [El' Hb]. assert (~ owns k' a) as Hno.
  { intros Ho. rewrite (Hb Ho) in El. rewrite El in Hlive. by destruct Hlive. }
  split; [|done]. rewrite El'. assert (own_tag k' a = None) as -> by (apply eq_None_not_Some, Hno). done.
Qed.

(** [critnib_delete] frees the objects of [k]. *)
Lemma wp_crit_delete h k V n :
  crit_at h k V n -> all_released V ->
  wp critnib_delete (fun _ k' =>
    (forall a, ba_live (c_host k') !! a = rest_of k h !! a) /\
    exists l, StronglySorted Z.lt (l.*1) /\ (forall x a, (x, a) ∈ l <-> cv_keys V !! x = Some a) /\
      c_freed k' = cv_freed V ++ live_values V l) (with_host h k).
Proof.
  intros [base HI] Hall. eapply wp_mono; [by apply (wp_critnib_delete _ V n base)|].
  intros _ k' (-> & _ & _ & Hl). split; [|done]. intros a. rewrite rest_of_lookup.
  destruct (rest_live _ _ _ _ a HI) as [El Hb]. simpl in El. change (own_tag (with_host h k) a) with (own_tag k a) in El.
  destruct (own_tag k a) eqn:E; [|done]. apply Hb. unfold owns. change (own_tag (with_host h k) a) with (own_tag k a). by rewrite E.
Qed.

(** ** What a view always satisfies *)

Record view_wf V : Prop := {
  vw_inj : forall x y a, cv_keys V !! x = Some a -> cv_keys V !! y = Some a -> x = y;
  vw_elem : forall x a, cv_keys V !! x = Some a -> exists v r, cv_elems V !! a = Some (v, r) /\ v <> 0 /\ 0 <= r;
  vw_removed : forall a v r, cv_elems V !! a = Some (v, r) -> ~ cv_linked V a -> 0 < r;
}.

Lemma crit_wf h k V n : crit_at h k V n -> cv_cb V = true -> view_wf V.
Proof.
  intros [base (L & N & DN & DL & ZL & HI)] Hcb. pose proof HI as [HI0 HV].
  pose proof (vo_keys _ _ _ HV) as Hk. simpl in Hk. split.
  - intros x y a Hx%Hk Hy%Hk. destruct (view_elem_live _ _ _ _ _ _ _ _ _ _ _ _ x a HI Hx) as (lf & Hlf & <- & _).
    destruct (view_elem_live _ _ _ _ _ _ _ _ _ _ _ _ y a HI Hy) as (lf' & Hlf' & <- & _). by simplify_eq.
  - intros x a Hx%Hk. destruct (view_elem_live _ _ _ _ _ _ _ _ _ _ _ _ x a HI Hx) as (lf & _ & _ & Hok & ->).
    rewrite <- (vo_cb _ _ _ HV), Hcb in Hok. destruct Hok as [_ Hok]. destruct (Hok eq_refl) as [Hr Hv].
    unfold refs_ok in Hr. rewrite Hcb. eexists _, _. split; [done|]. split; [done|lia].
  - intros a v r Ha Hn. rewrite (vo_elems _ _ _ HV) in Ha. unfold celem in Ha. simpl in Ha.
    destruct (c_leaves k !! a) as [lf|]; [|done]. simpl in Ha. case_decide as Hin.
    { exfalso. apply Hn. apply list_elem_of_fmap in Hin as ([x b] & Eb & Hx). simpl in Eb. subst b. exists x, a. split; [by apply Hk|done]. }
    case_decide; [|done]. destruct (cb_free_leaf (c_crit k)); [|done]. simpl in Ha.
    destruct (ref_count lf >=? LEAF_VALID) eqn:E; [|done]. injection Ha as <- <-. rewrite Z.geb_leb in E. apply Z.leb_le in E.
    unfold LEAF_VALID in E. lia.
Qed.

Lemma crit_elem_owned h k V n a e : crit_at h k V n -> cv_elems V !! a = Some e -> owns k a.
Proof.
  intros [base (L & N & DN & DL & ZL & [_ HV])] Ha. rewrite (vo_elems _ _ _ HV) in Ha. unfold celem in Ha. simpl in Ha.
  unfold owns, own_tag. destruct (c_nodes k !! a); [done|]. by destruct (c_leaves k !! a).
Qed.

Lemma crit_freed h k V n : crit_at h k V n -> c_freed k = cv_freed V.
Proof. intros [base (L & N & DN & DL & ZL & [_ HV])]. symmetry. apply (vo_freed _ _ _ HV). Qed.

Lemma crit_new cb ok h k h' : critnib_new cb ok h = (Some k, h') ->
  crit_at h' k (cv_new cb) 0 /\ (forall a, owns k a -> a = self (c_crit k)) /\
  ba_live h !! self (c_crit k) = None /\ ba_live h' = <[self (c_crit k) := tag_critnib]> (ba_live h) /\ self (c_crit k) <> 0.
Proof.
  intros E. destruct (critnib_new_rest _ _ _ _ _ E) as [HI Eh]. split.
  { exists (ba_live h). rewrite <- Eh. by destruct k. }
  unfold critnib_new in E. destruct (umf_ba_global_alloc tag_critnib sizeof_critnib h) as [[c|] h1] eqn:Ea; [|done].
  destruct ok; [|done]. injection E as <- <-. simpl. pose proof (ba_alloc_nonnull _ _ _ _ _ Ea).
  apply ba_alloc_some in Ea as [Hc Eh1]. split_and!; [|done..]. intros a [tg Ha]. unfold own_tag in Ha. simpl in Ha.
  rewrite !lookup_empty in Ha. by case_decide.
Qed.

Lemma crit_new_fail cb ok h h' : critnib_new cb ok h = (None, h') -> ba_live h' = ba_live h.
Proof.
  unfold critnib_new. destruct (umf_ba_global_alloc tag_critnib sizeof_critnib h) as [[c|] h1] eqn:Ea; [|intros [= <-]; by eapply ba_alloc_none].
  destruct ok; [done|]. intros [= <-]. apply ba_alloc_some in Ea as [Hc Eh1]. rewrite ba_free_live, Eh1 by (rewrite Eh1, lookup_insert_eq; eauto).
  by rewrite delete_insert_id.
Qed.
End World.
