(* ===== verification/TrackerInv.v ===== *)
(** * The critnibs of the tracker and the tracked ranges

    [crits_inv s X N]: every critnib of the state is between two calls and
    shows the view that [X] has for it, no two share an object, and fewer than
    [N] calls were made of each.  One rule for a call of a critnib.

    The abstract state of the tracker is a list of eight levels, each a map
    from the base of a range to its size and its pool.  [levels_wf] is its
    invariant: ranges of a level do not overlap, and each lies within a range
    of the level below.  [tinv] ties it to the critnibs and the objects in
    the chunk pool. *)

From S2P Require Import Prelude Utils HostMem CritQuery CritDelete CritSpec CritInsert CritRemove CritInv CritWorld.
From stdpp Require Import list strings.
From S2P Require Import Critnib Tracker.
#[local] Open Scope Z_scope.

Lemma wp_bound_inv {S A E} (m : M S A) (f : A -> E) (Q : E -> S -> Prop) s :
  wp (x ← m; mret (f x)) Q s -> wp m (fun x => Q (f x)) s.
Proof. unfold wp, mbind, M_bind. by destruct (m s) as [[a s']|]. Qed.

Section Maps.
Context `{HostAllocLaws H} `{ChunkPool B}.
Implicit Types (s : tstate H B) (X : gmap Z (leaf_cb * cview)) (V : cview).

Record crits_inv s X (N : Z) : Prop := {
  cr_count : 0 <= N;
  cr_dom : forall c, is_Some (t_crits s !! c) <-> is_Some (X !! c);
  cr_at : forall c cb k cb' V, t_crits s !! c = Some (cb, k) -> X !! c = Some (cb', V) ->
    cb' = cb /\ crit_at (t_host s) k V N /\ self (c_crit k) = c /\ cv_cb V = true;
  cr_apart : forall c1 c2 e1 e2 a, t_crits s !! c1 = Some e1 -> t_crits s !! c2 = Some e2 -> c1 <> c2 ->
    owns e1.2 a -> ~ owns e2.2 a;
}.

(** [a] belongs to no critnib. *)
Definition foreign s (a : Z) : Prop := forall c e, t_crits s !! c = Some e -> ~ owns e.2 a.

(** The live objects that belong to no critnib. *)
Definition loose s (a : Z) (tg : string) : Prop := foreign s a /\ ba_live (t_host s) !! a = Some tg.

Definition keeps_foreign s s' : Prop := forall a tg, loose s' a tg <-> loose s a tg.

Lemma keeps_foreign_refl s : keeps_foreign s s.
Proof. done. Qed.

Lemma keeps_foreign_trans s1 s2 s3 : keeps_foreign s1 s2 -> keeps_foreign s2 s3 -> keeps_foreign s1 s3.
Proof. intros H1' H2' a tg. by rewrite (H2' a tg). Qed.

(** Only the critnibs and the allocator matter. *)
Lemma crits_inv_ext s s' X N : t_host s' = t_host s -> t_crits s' = t_crits s -> crits_inv s X N -> crits_inv s' X N.
Proof. intros Eh Ec [? Hd Ha Hap]. split; rewrite ?Ec, ?Eh; done. Qed.

Lemma crits_inv_mono s X N M : N <= M -> crits_inv s X N -> crits_inv s X M.
Proof.
  intros Hle [? Hd Ha Hap]. split; [lia|done| |done]. intros c cb k cb' V Ek EV.
  destruct (Ha _ _ _ _ _ Ek EV) as (? & ? & ? & ?). split_and!; [done| |done..]. by apply (crit_mono _ _ _ N).
Qed.

Lemma crits_lookup s X N c cb V : crits_inv s X N -> X !! c = Some (cb, V) ->
  exists k, t_crits s !! c = Some (cb, k) /\ crit_at (t_host s) k V N /\ self (c_crit k) = c /\ cv_cb V = true.
Proof.
  intros HI E. destruct (proj2 (cr_dom _ _ _ HI c)) as [[cb' k] Ek]; [by rewrite E|].
  destruct (cr_at _ _ _ HI _ _ _ _ _ Ek E) as (<- & ?). eauto.
Qed.

Lemma crits_wf s X N c cb V : crits_inv s X N -> X !! c = Some (cb, V) -> view_wf V /\ cv_cb V = true.
Proof. intros HI E. destruct (crits_lookup _ _ _ _ _ _ HI E) as (k & _ & Hk & _ & Hcb). split; [by eapply crit_wf|done]. Qed.

(** Leaves of different critnibs differ. *)
Lemma crits_leaf_ne s X N c1 c2 cb1 cb2 V1 V2 a1 a2 e1 e2 :
  crits_inv s X N -> X !! c1 = Some (cb1, V1) -> X !! c2 = Some (cb2, V2) -> c1 <> c2 ->
  cv_elems V1 !! a1 = Some e1 -> cv_elems V2 !! a2 = Some e2 -> a1 <> a2.
Proof.
  intros HI E1 E2 Hne He1 He2 <-. destruct (crits_lookup _ _ _ _ _ _ HI E1) as (k1 & Ek1 & Hk1 & _).
  destruct (crits_lookup _ _ _ _ _ _ HI E2) as (k2 & Ek2 & Hk2 & _).
  apply (cr_apart _ _ _ HI _ _ _ _ a1 Ek1 Ek2 Hne); by eapply crit_elem_owned.
Qed.

(** One critnib changes. *)
Lemma crits_step s X N c cb k V h' k' V' :
  crits_inv s X N -> t_crits s !! c = Some (cb, k) -> X !! c = Some (cb, V) ->
  crit_at h' k' V' (N + 1) -> keeps_others (t_host s) k h' k' -> cv_cb V' = true ->
  let s' := Tracker.with_host h' (with_crits (<[c := (cb, k')]> (t_crits s)) s) in
  crits_inv s' (<[c := (cb, V')]> X) (N + 1) /\ keeps_foreign s s'.
Proof.
  intros HI Ek EV Hat (Hself & Hkeep & Hback) Hcb s'. pose proof HI as [HN Hd Ha Hap].
  assert (forall c2 e2 a, t_crits s !! c2 = Some e2 -> c <> c2 -> owns e2.2 a ->
    ba_live h' !! a = ba_live (t_host s) !! a /\ ~ owns k' a) as Hother.
  { intros c2 [cb2 k2] a E2 Hne Ho. apply Hkeep.
    - intros Hk. by apply (Hap _ _ _ _ a Ek E2 Hne).
    - destruct (proj1 (Hd c2)) as [[cb3 V2] EV2]; [by rewrite E2|]. destruct (Ha _ _ _ _ _ E2 EV2) as (_ & Hat2 & _).
      destruct Ho as [tg Htg]. rewrite (crit_live _ _ _ _ _ _ Hat2 Htg). eauto. }
  split; [split; [lia|..]|].
  - intros c2. unfold s'. simpl. destruct (decide (c = c2)) as [<-|Hne]; [rewrite !lookup_insert_eq; split; eauto|].
    rewrite !lookup_insert_ne by done. apply Hd.
  - intros c2 cb2 k2 cb3 V2. unfold s'. simpl. destruct (decide (c = c2)) as [<-|Hne].
    + rewrite !lookup_insert_eq. intros [= <- <-] [= <- <-]. split_and!; [done|done| |done]. rewrite Hself. by destruct (Ha _ _ _ _ _ Ek EV) as (_ & _ & ? & _).
    + rewrite !lookup_insert_ne by done. intros E2 EV2. destruct (Ha _ _ _ _ _ E2 EV2) as (-> & Hat2 & ? & ?).
      split_and!; [done| |done..]. apply (crit_mono _ _ _ N); [lia|]. apply (crit_frame (t_host s)); [done|].
      intros a Ho. by apply (Hother c2 (cb2, k2)).
  - intros c1 c2 e1 e2 a. unfold s'. simpl. destruct (decide (c = c1)) as [<-|Hne1].
    + rewrite lookup_insert_eq. intros [= <-] E2 Hne. rewrite lookup_insert_ne in E2 by done. simpl. intros Ho Ho2.
      by destruct (Hother _ _ _ E2 Hne Ho2).
    + rewrite lookup_insert_ne by done. intros E1. destruct (decide (c = c2)) as [<-|Hne2].
      * rewrite lookup_insert_eq. intros [= <-] _ Ho. simpl. by apply (Hother _ _ _ E1).
      * rewrite lookup_insert_ne by done. intros E2. by apply Hap.
  - assert (forall a, foreign s' a <-> ~ owns k' a /\ forall c2 e2, c <> c2 -> t_crits s !! c2 = Some e2 -> ~ owns e2.2 a) as Hfo.
    { intros a. unfold foreign, s'. simpl. split.
      - intros Hf. split; [apply (Hf c (cb, k')), lookup_insert_eq|]. intros c2 e2 Hne E2. apply (Hf c2). by rewrite lookup_insert_ne.
      - intros [Ho Hf] c2 e2. destruct (decide (c = c2)) as [<-|Hne]; [rewrite lookup_insert_eq; by intros [= <-]|].
        rewrite lookup_insert_ne by done. by apply Hf. }
    intros a tg. unfold loose. rewrite Hfo. unfold s'. simpl. split.
    + intros [[Ho Hf] Hl]. destruct (Hback a Ho) as [Hl1 Ho1]; [by rewrite Hl|]. destruct (Hkeep a Ho1 Hl1) as [El _]. rewrite <- El. split; [|done].
      intros c2 e2 E2. destruct (decide (c = c2)) as [<-|Hne]; [rewrite Ek in E2; by injection E2 as <-|by apply (Hf c2)].
    + intros [Hf Hl]. destruct (Hkeep a (Hf _ _ Ek)) as [-> Ho]; [by rewrite Hl|]. split; [|done]. split; [done|]. intros c2 e2 _. apply Hf.
Qed.

(** The values that were passed to the callback between two views. *)
Definition freed_by V V' : list Z := drop (length (cv_freed V)) (cv_freed V').

Lemma cstep_cb V c r V' : cstep V c r V' -> cv_cb V' = cv_cb V.
Proof.
  destruct c; simpl.
  - intros [[_ ->]|Hs]; [done|]. destruct (cv_keys V !! k); [destruct update|]; naive_solver.
  - destruct (cv_cb V && negb ref); [by intros [_ ->]|]. destruct (cv_keys V !! k); naive_solver.
  - destruct ref as [a|]; [|by intros [_ ->]]. destruct (cv_cb V) eqn:E; [|by intros [_ ->]].
    intros (v & n & _ & _ & ->). unfold cv_release. case_decide; simpl; congruence.
  - destruct (cv_keys V !! k); [|by intros [_ ->]]. intros (v & n & _ & _ & ->). simpl.
    destruct (cv_cb V) eqn:E; [|done]. unfold cv_release. case_decide; simpl; congruence.
  - assert (forall o, cquery V o r V' -> cv_cb V' = cv_cb V) as Hq.
    { intros [a|]; simpl; [intros (v & n & _ & _ & ->); unfold cv_ref; destruct (cv_cb V) eqn:E; simpl; congruence|by intros [_ ->]]. }
    destruct (cv_cb V && negb ref); [by intros [_ ->]|]. apply Hq.
  - destruct (cv_cb V && negb ref); [by intros [_ ->]|]. intros ([[k0 a]|] & _ & Hq); simpl in Hq; [|by destruct Hq as [_ ->]].
    destruct Hq as (v & n & _ & _ & ->). unfold cv_ref. destruct (cv_cb V) eqn:E; simpl; congruence.
  - destruct (cv_cb V && negb ref); [by intros [_ ->]|]. intros ([[k0 a]|] & _ & Hq); [|by destruct Hq as [_ ->]].
    destruct Hq as (v & n & _ & _ & ->). unfold cv_ref. destruct (cv_cb V) eqn:E; simpl; congruence.
Qed.

(** The rule for a call: the callbacks remain to be run. *)
Lemma wp_on_critnib {A} s X N c cb V call (m : M (cstate H) A) (res : A -> cres) (Q : A -> tstate H B -> Prop) :
  run_ccall call = (x ← m; mret (res x)) ->
  crits_inv s X N -> N + DELETED_LIFE < two64 -> X !! c = Some (cb, V) -> cobeys V call ->
  (forall x V' h' C', cstep V call (res x) V' ->
     let s1 := Tracker.with_host h' (with_crits C' s) in
     crits_inv s1 (<[c := (cb, V')]> X) (N + 1) -> keeps_foreign s s1 ->
     wp (call_leaf_cbs cb (freed_by V V')) (fun _ s' => Q x s') s1) ->
  wp (on_critnib c m) Q s.
Proof.
  intros Erun HI HN EV Hob HQ. destruct (crits_lookup _ _ _ _ _ _ HI EV) as (k & Ek & Hat & Hself & Hcb).
  pose proof (wp_crit_call (t_host s) k V N call Hat (cr_count _ _ _ HI) HN Hob) as Hw. rewrite Erun in Hw.
  apply wp_bound_inv in Hw. unfold wp in Hw. unfold wp, on_critnib. rewrite Ek.
  destruct (m (Critnib.with_host (t_host s) k)) as [[x k']|] eqn:Em; [|done]. destruct Hw as (V' & Hst & Hat' & Hkeep).
  rewrite (crit_freed _ _ _ _ Hat), (crit_freed _ _ _ _ Hat').
  destruct (crits_step s X N c cb k V (c_host k') k' V' HI Ek EV Hat' Hkeep) as [HI' Hf]; [rewrite (cstep_cb _ _ _ _ Hst); done|].
  specialize (HQ x V' _ _ Hst HI' Hf). unfold wp in HQ. unfold mbind, M_bind. unfold freed_by in HQ.
  destruct (call_leaf_cbs cb _ _) as [[[] s2]|]; done.
Qed.
End Maps.

(** ** Levels *)

Abbreviation level := (gmap Z (Z * Z)).

Definition lvl (A : list level) (i : nat) : level := default ∅ (A !! i).

Record levels_wf (A : list level) : Prop := {
  lw_len : length A = MAX_LEVELS_OF_ALLOC_SEGMENT_MAP;
  lw_range : forall i k r, lvl A i !! k = Some r -> 0 < k /\ 0 < r.1 /\ k + r.1 < two64;
  lw_apart : forall i k1 k2 r1 r2, lvl A i !! k1 = Some r1 -> lvl A i !! k2 = Some r2 -> k1 < k2 -> k1 + r1.1 <= k2;
  lw_nested : forall i k r, lvl A (S i) !! k = Some r ->
    exists k0 r0, lvl A i !! k0 = Some r0 /\ k0 <= k /\ k + r.1 <= k0 + r0.1;
}.

(** The range at [k] of the level [i] contains [ptr]. *)
Definition hit (A : list level) (i : nat) (ptr k : Z) (r : Z * Z) : Prop :=
  lvl A i !! k = Some r /\ k <= ptr < k + r.1.

(** [d] ranges contain [ptr], one on each level below [d]. *)
Definition depth (A : list level) (ptr : Z) (d : nat) : Prop :=
  (forall i, (i < d)%nat -> exists k r, hit A i ptr k r) /\ forall k r, ~ hit A d ptr k r.

(** The ranges of the next level within [k, k + n). *)
Definition inside (k n : Z) (L : level) : level := filter (fun x => k <= x.1 < k + n) L.
Definition children (A : list level) (i : nat) (k n : Z) : Z := Z.of_nat (size (inside k n (lvl A (S i)))).

Section Levels.
Implicit Types A : list level.

Lemma lvl_out A i : (length A <= i)%nat -> lvl A i = ∅.
Proof. intros Hi. unfold lvl. by rewrite lookup_ge_None_2. Qed.

Lemma hit_unique A i ptr k1 k2 r1 r2 : levels_wf A -> hit A i ptr k1 r1 -> hit A i ptr k2 r2 -> k1 = k2 /\ r1 = r2.
Proof.
  intros Hw [E1 H1] [E2 H2]. destruct (Z.lt_trichotomy k1 k2) as [Hlt|[->|Hlt]]; [..|].
  - pose proof (lw_apart _ Hw _ _ _ _ _ E1 E2 Hlt). lia.
  - split; [done|]. congruence.
  - pose proof (lw_apart _ Hw _ _ _ _ _ E2 E1 Hlt). lia.
Qed.

Lemma hit_below A i ptr k r : levels_wf A -> hit A (S i) ptr k r -> exists k0 r0, hit A i ptr k0 r0.
Proof.
  intros Hw [E Hk]. destruct (lw_nested _ Hw _ _ _ E) as (k0 & r0 & E0 & ? & ?). exists k0, r0. split; [done|]. lia.
Qed.

(** Nothing above the depth contains [ptr]. *)
Lemma depth_above A ptr d i k r : levels_wf A -> depth A ptr d -> (d <= i)%nat -> ~ hit A i ptr k r.
Proof.
  intros Hw [_ Hd] Hle. revert k r. induction Hle as [|i Hle IH]; [done|].
  intros k r Hh. destruct (hit_below _ _ _ _ _ Hw Hh) as (k0 & r0 & H0). by apply (IH k0 r0).
Qed.

Lemma depth_unique A ptr d d' : depth A ptr d -> depth A ptr d' -> d = d'.
Proof.
  intros [H1 H2] [H1' H2']. destruct (Nat.lt_trichotomy d d') as [Hlt|[->|Hlt]]; [|done|].
  - destruct (H1' d Hlt) as (k & r & Hh). by destruct (H2 k r).
  - destruct (H1 d' Hlt) as (k & r & Hh). by destruct (H2' k r).
Qed.

(** The last range that starts at or before [ptr] is the one that can contain it. *)
Lemma miss_of_best A i ptr k r : levels_wf A -> lvl A i !! k = Some r ->
  (forall k' r', lvl A i !! k' = Some r' -> k' <= ptr -> k' <= k) -> k <= ptr -> k + r.1 <= ptr ->
  forall k' r', ~ hit A i ptr k' r'.
Proof.
  intros Hw E Hbest Hle Hm k' r' [E' Hk']. specialize (Hbest _ _ E' ltac:(lia)).
  destruct (Z.eq_dec k' k) as [->|Hne]; [rewrite E in E'; injection E' as <-; lia|].
  pose proof (lw_apart _ Hw _ _ _ _ _ E' E ltac:(lia)). lia.
Qed.

(** A range without children has nothing above it. *)
Lemma childless A i ptr k r : levels_wf A -> hit A i ptr k r -> children A i k r.1 = 0 -> forall k' r', ~ hit A (S i) ptr k' r'.
Proof.
  intros Hw Hh Hc k' r' Hh'. pose proof Hh' as [E' Hk']. destruct (lw_nested _ Hw _ _ _ E') as (k0 & r0 & E0 & ? & ?).
  destruct (hit_unique A i ptr k k0 r r0 Hw Hh) as [<- <-]; [split; [done|lia]|].
  destruct (lw_range _ Hw _ _ _ E') as (_ & ? & _).
  unfold children in Hc. assert (size (inside k r.1 (lvl A (S i))) = 0%nat) as Hs by lia. apply map_size_empty_inv in Hs.
  assert (inside k r.1 (lvl A (S i)) !! k' = Some r') as Hin by (apply map_lookup_filter_Some; split; [done|simpl; lia]).
  by rewrite Hs, lookup_empty in Hin.
Qed.

Lemma inside_bound k n (L : level) : 0 <= n -> Z.of_nat (size (inside k n L)) <= n.
Proof.
  intros Hn. rewrite <- size_dom. assert (dom (inside k n L) ⊆ list_to_set (seqZ k n)) as Hs.
  { intros x Hx. apply elem_of_dom in Hx as [r Hr]. apply map_lookup_filter_Some in Hr as [_ Hr]. simpl in Hr.
    apply elem_of_list_to_set, elem_of_seqZ. lia. }
  apply subseteq_size in Hs. rewrite size_list_to_set in Hs by apply NoDup_seqZ. rewrite length_seqZ in Hs. lia.
Qed.

Lemma children_bound A i k n : 0 <= n -> 0 <= children A i k n <= n.
Proof. intros Hn. pose proof (inside_bound k n (lvl A (S i)) Hn). unfold children. lia. Qed.

(** ** Changes of a level *)

Lemma lvl_set_eq A d (L : level) : (d < length A)%nat -> lvl (<[d := L]> A) d = L.
Proof. intros Hd. unfold lvl. by rewrite list_lookup_insert_eq. Qed.
Lemma lvl_set_ne A d i (L : level) : i <> d -> lvl (<[d := L]> A) i = lvl A i.
Proof. intros Hne. unfold lvl. by rewrite list_lookup_insert_ne. Qed.

Definition add_range A (d : nat) (ptr n p : Z) : list level := <[d := <[ptr := (n, p)]> (lvl A d)]> A.
Definition del_range A (d : nat) (ptr : Z) : list level := <[d := delete ptr (lvl A d)]> A.

(** A new range is apart from every tracked one, or lies within it. *)
Definition fits A (ptr n : Z) : Prop :=
  forall i k r, lvl A i !! k = Some r -> k + r.1 <= ptr \/ ptr + n <= k \/ (k <= ptr /\ ptr + n <= k + r.1).

Definition range_ok (ptr n : Z) : Prop := 0 < ptr /\ 0 < n /\ ptr + n < two64.

Lemma depth_fresh A ptr d : levels_wf A -> depth A ptr d -> lvl A d !! ptr = None.
Proof.
  intros Hw [_ Hd]. destruct (lvl A d !! ptr) as [r|] eqn:E; [|done]. exfalso. apply (Hd ptr r). split; [done|].
  pose proof (lw_range _ Hw _ _ _ E). lia.
Qed.

Lemma add_wf A ptr n p d : levels_wf A -> depth A ptr d -> (d < MAX_LEVELS_OF_ALLOC_SEGMENT_MAP)%nat ->
  range_ok ptr n -> fits A ptr n -> levels_wf (add_range A d ptr n p).
Proof.
  intros Hw Hd Hlt (Hp & Hn & Hu) Hf. pose proof (depth_fresh A ptr d Hw Hd) as Hnone. pose proof Hw as [Hl Hr Ha Hnest].
  assert (lvl (add_range A d ptr n p) d = <[ptr := (n, p)]> (lvl A d)) as Ed by (apply lvl_set_eq; lia).
  assert (forall i, i <> d -> lvl (add_range A d ptr n p) i = lvl A i) as Ei by (intros i Hi; by apply lvl_set_ne).
  assert (forall k r, lvl A d !! k = Some r -> k + r.1 <= ptr \/ ptr + n <= k) as Hsep.
  { intros k r E. destruct (Hf _ _ _ E) as [?|[?|?]]; [by left|by right|]. destruct (proj2 Hd k r). split; [done|lia]. }
  split.
  - unfold add_range. by rewrite length_insert.
  - intros i k r. destruct (decide (i = d)) as [->|Hne]; [|rewrite Ei by done; apply Hr]. rewrite Ed.
    destruct (decide (ptr = k)) as [<-|]; [rewrite lookup_insert_eq; by intros [= <-]|rewrite lookup_insert_ne by done; apply Hr].
  - intros i k1 k2 r1 r2. destruct (decide (i = d)) as [->|Hne]; [|rewrite Ei by done; apply Ha]. rewrite Ed.
    destruct (decide (ptr = k1)) as [<-|]; [rewrite lookup_insert_eq; intros [= <-]|rewrite lookup_insert_ne by done; intros E1].
    + intros E2 Hlt'. rewrite lookup_insert_ne in E2 by lia. pose proof (Hr _ _ _ E2). destruct (Hsep _ _ E2); simpl; lia.
    + destruct (decide (ptr = k2)) as [<-|]; [rewrite lookup_insert_eq; intros [= <-]|rewrite lookup_insert_ne by done; apply Ha; done].
      intros Hlt'. destruct (Hsep _ _ E1); lia.
  - intros i k r E. assert (exists k0 r0, lvl A i !! k0 = Some r0 /\ k0 <= k /\ k + r.1 <= k0 + r0.1) as (k0 & r0 & E0 & H0).
    { destruct (decide (S i = d)) as [Hsd|Hne]; [|rewrite Ei in E by done; by apply Hnest]. rewrite Hsd, Ed in E.
      destruct (decide (ptr = k)) as [<-|]; [rewrite lookup_insert_eq in E; injection E as <-|rewrite lookup_insert_ne in E by done; subst d; by apply Hnest].
      destruct (proj1 Hd i) as (k0 & r0 & E0 & ?); [lia|]. exists k0, r0. split; [done|]. destruct (Hf _ _ _ E0) as [?|[?|?]]; simpl; lia. }
    exists k0, r0. split; [|done]. destruct (decide (i = d)) as [->|Hne]; [|by rewrite Ei]. rewrite Ed.
    rewrite lookup_insert_ne; [done|]. intros ->. congruence.
Qed.

Lemma inside_insert k n (L : level) x r : L !! x = None ->
  size (inside k n (<[x := r]> L)) = (size (inside k n L) + if decide (k <= x < k + n)%Z then 1 else 0)%nat.
Proof.
  intros Hx. unfold inside. case_decide.
  - rewrite map_filter_insert_True by (simpl; lia). rewrite map_size_insert_None; [lia|]. apply map_lookup_filter_None. by left.
  - rewrite map_filter_insert_not by (simpl; intros; lia). lia.
Qed.

Lemma inside_delete k n (L : level) x : is_Some (L !! x) ->
  size (inside k n L) = (size (inside k n (delete x L)) + if decide (k <= x < k + n)%Z then 1 else 0)%nat.
Proof.
  intros [r Hr]. rewrite <- (insert_delete_id L x r Hr) at 1. rewrite inside_insert by apply lookup_delete_eq. done.
Qed.

Lemma children_add A d ptr n p i k m : (d < length A)%nat -> lvl A d !! ptr = None ->
  children (add_range A d ptr n p) i k m =
  children A i k m + if decide (S i = d /\ k <= ptr < k + m) then 1 else 0.
Proof.
  intros Hd Hn. unfold children. destruct (decide (S i = d)) as [<-|Hne].
  - unfold add_range. rewrite lvl_set_eq by done. rewrite inside_insert by done.
    destruct (decide (k <= ptr < k + m)); [rewrite decide_True by done|rewrite decide_False by tauto]; lia.
  - unfold add_range. rewrite lvl_set_ne by done. rewrite decide_False by tauto. lia.
Qed.

Lemma children_new A d ptr n p : levels_wf A -> depth A ptr d -> (d < length A)%nat -> range_ok ptr n -> fits A ptr n ->
  children (add_range A d ptr n p) d ptr n = 0.
Proof.
  intros Hw Hd Hlt (Hp & Hn & Hu) Hf. rewrite children_add by (done || by apply depth_fresh). rewrite decide_False by lia.
  unfold children. enough (inside ptr n (lvl A (S d)) = ∅) as -> by done. apply map_empty. intros k.
  apply map_lookup_filter_None. right. intros r Hr Hk. simpl in Hk. pose proof (lw_range _ Hw _ _ _ Hr).
  destruct (Hf _ _ _ Hr) as [?|[?|?]]; [lia..|]. assert (k = ptr) as -> by lia.
  apply (depth_above A ptr d (S d) ptr r Hw Hd); [lia|]. split; [done|lia].
Qed.

Lemma del_wf A d ptr r : levels_wf A -> lvl A d !! ptr = Some r -> children A d ptr r.1 = 0 -> levels_wf (del_range A d ptr).
Proof.
  intros Hw Er Hc. pose proof Hw as [Hl Hr Ha Hnest].
  assert (d < length A)%nat as Hlt.
  { destruct (le_lt_dec (length A) d) as [Hle|]; [|done]. by rewrite lvl_out, lookup_empty in Er. }
  assert (lvl (del_range A d ptr) d = delete ptr (lvl A d)) as Ed by (apply lvl_set_eq; lia).
  assert (forall i, i <> d -> lvl (del_range A d ptr) i = lvl A i) as Ei by (intros i Hi; by apply lvl_set_ne).
  assert (forall i k x, lvl (del_range A d ptr) i !! k = Some x -> lvl A i !! k = Some x) as Hsub.
  { intros i k x. destruct (decide (i = d)) as [->|Hne]; [rewrite Ed|by rewrite Ei]. by intros [_ ?]%lookup_delete_Some. }
  split.
  - unfold del_range. by rewrite length_insert.
  - eauto.
  - eauto.
  - intros i k x E. pose proof (Hsub _ _ _ E) as E'. destruct (Hnest _ _ _ E') as (k0 & r0 & E0 & H0). exists k0, r0. split; [|done].
    destruct (decide (i = d)) as [->|Hne]; [|by rewrite Ei]. rewrite Ed. rewrite lookup_delete_ne; [done|]. intros <-.
    rewrite Er in E0. injection E0 as <-. destruct (Hr _ _ _ E') as (_ & ? & _). apply (childless A d k ptr r Hw) with k x; [|done|].
    + split; [done|lia].
    + split; [done|lia].
Qed.

Lemma children_del A d ptr i k m : (d < length A)%nat -> is_Some (lvl A d !! ptr) ->
  children (del_range A d ptr) i k m =
  children A i k m - if decide (S i = d /\ k <= ptr < k + m) then 1 else 0.
Proof.
  intros Hd Hn. unfold children. destruct (decide (S i = d)) as [<-|Hne].
  - unfold del_range. rewrite lvl_set_eq by done. rewrite (inside_delete k m (lvl A (S i)) ptr) by done.
    destruct (decide (k <= ptr < k + m)); [rewrite decide_True by done|rewrite decide_False by tauto]; lia.
  - unfold del_range. rewrite lvl_set_ne by done. rewrite decide_False by tauto. lia.
Qed.
End Levels.

(** ** The invariant *)

Section Inv.
Context `{HostAllocLaws H} `{ChunkPoolLaws B}.
Implicit Types (s : tstate H B) (X : gmap Z (leaf_cb * cview)) (V : cview) (t : umf_memory_tracker_t) (A : list level).

(** The view of the map of a level. *)
Definition vw X t (i : nat) : option cview := c ← alloc_segments_map t !! i; snd <$> X !! c.

(** The range at [k] of the level [i]: its leaf, its object and the number of
    references of the leaf. *)
Record seg (infos : gmap Z tracker_alloc_info_t) A X t (i : nat) (k a v r : Z) (info : tracker_alloc_info_t) : Prop := {
  sg_view : exists V, vw X t i = Some V /\ cv_keys V !! k = Some a /\ cv_elems V !! a = Some (v, r);
  sg_info : infos !! v = Some info;
  sg_value : v <> 0;
  sg_lvl : lvl A i !! k = Some (ti_size info, ti_pool info);
  sg_children : n_children info = children A i k (ti_size info);
  sg_freed : is_freed info = 0;
}.

Record tinv s (hT : Z) t A X (m : gmap Z (gset Z)) (N : Z) : Prop := {
  ti_maps : crits_inv s X N;
  ti_tracker : t_trackers s !! hT = Some t;
  ti_len : length (alloc_segments_map t) = MAX_LEVELS_OF_ALLOC_SEGMENT_MAP;
  ti_nodup : NoDup (alloc_segments_map t);
  ti_map : forall i c, alloc_segments_map t !! i = Some c ->
    c <> 0 /\ exists V, X !! c = Some (FreeLeaf (alloc_info_allocator t), V);
  ti_seg : forall i V k a, vw X t i = Some V -> cv_keys V !! k = Some a ->
    exists v r info, seg (t_infos s) A X t i k a v r info;
  ti_keys : forall i V k, vw X t i = Some V -> is_Some (lvl A i !! k) -> is_Some (cv_keys V !! k);
  ti_pools : cp_rep (t_pools s) m;
  ti_chunks : m !! alloc_info_allocator t = Some (dom (t_infos s));
  ti_values : forall v, is_Some (t_infos s !! v) <-> exists i V a r, vw X t i = Some V /\ cv_elems V !! a = Some (v, r);
  ti_once : forall i j V W a b v r q, vw X t i = Some V -> vw X t j = Some W ->
    cv_elems V !! a = Some (v, r) -> cv_elems W !! b = Some (v, q) -> i = j /\ a = b;
}.

Lemma tinv_level s hT t A X m N i : tinv s hT t A X m N -> (i < MAX_LEVELS_OF_ALLOC_SEGMENT_MAP)%nat ->
  exists c V, alloc_segments_map t !! i = Some c /\ c <> 0 /\ X !! c = Some (FreeLeaf (alloc_info_allocator t), V) /\ vw X t i = Some V.
Proof.
  intros HI Hi. destruct (lookup_lt_is_Some_2 (alloc_segments_map t) i) as [c Hc]; [rewrite (ti_len _ _ _ _ _ _ _ HI); done|].
  destruct (ti_map _ _ _ _ _ _ _ HI i c Hc) as (H0' & V & HV). exists c, V. split_and!; [done..|]. unfold vw. rewrite Hc. simpl. by rewrite HV.
Qed.

Lemma vw_lt s hT t A X m N i V : tinv s hT t A X m N -> vw X t i = Some V -> (i < MAX_LEVELS_OF_ALLOC_SEGMENT_MAP)%nat.
Proof.
  intros HI Hv. rewrite <- (ti_len _ _ _ _ _ _ _ HI). apply lookup_lt_is_Some. unfold vw in Hv. by destruct (alloc_segments_map t !! i).
Qed.

(** Views after a change of one map. *)
Lemma vw_set s hT t A X m N i c cb V j : tinv s hT t A X m N -> alloc_segments_map t !! i = Some c ->
  vw (<[c := (cb, V)]> X) t j = if decide (j = i) then Some V else vw X t j.
Proof.
  intros HI Hc. unfold vw. case_decide as E.
  - subst j. rewrite Hc. simpl. by rewrite lookup_insert_eq.
  - destruct (alloc_segments_map t !! j) as [c'|] eqn:E'; [|done]. simpl. rewrite lookup_insert_ne; [done|].
    intros ->. apply E. by apply (NoDup_lookup _ _ _ _ (ti_nodup _ _ _ _ _ _ _ HI) E' Hc).
Qed.

(** [s'] differs from [s] in the critnibs of the tracker and the allocator. *)
Definition moved t s X s' X' : Prop :=
  (exists h C, s' = Tracker.with_host h (with_crits C s)) /\ keeps_foreign s s' /\
  forall c, c ∉ alloc_segments_map t -> X' !! c = X !! c.

Lemma moved_refl t s X : moved t s X s X.
Proof. split; [|split; [apply keeps_foreign_refl|done]]. exists (t_host s), (t_crits s). by destruct s. Qed.
Lemma moved_trans t s1 X1 s2 X2 s3 X3 : moved t s1 X1 s2 X2 -> moved t s2 X2 s3 X3 -> moved t s1 X1 s3 X3.
Proof.
  intros [(h1 & C1 & ->) [F1 O1]] [(h2 & C2 & ->) [F2 O2]]. split; [by exists h2, C2|].
  split; [by eapply keeps_foreign_trans|]. intros c Hc. by rewrite O2, O1.
Qed.
Lemma moved_infos t s X s' X' : moved t s X s' X' -> t_infos s' = t_infos s.
Proof. by intros [(h & C & ->) _]. Qed.
Lemma moved_set t s X c i e h C : let s' := Tracker.with_host h (with_crits C s) in
  alloc_segments_map t !! i = Some c -> keeps_foreign s s' -> moved t s X s' (<[c := e]> X).
Proof.
  intros s' Hc Hf. split; [by exists h, C|]. split; [done|]. intros c' Hn. apply lookup_insert_ne. intros <-.
  apply Hn. by eapply list_elem_of_lookup_2.
Qed.

(** A call that changes references only. *)
Definition same_values V V' : Prop :=
  cv_keys V' = cv_keys V /\ cv_freed V' = cv_freed V /\
  (forall a v r, cv_elems V' !! a = Some (v, r) -> exists q, cv_elems V !! a = Some (v, q)) /\
  (forall a v r, cv_elems V !! a = Some (v, r) -> exists q, cv_elems V' !! a = Some (v, q)).

Lemma tinv_refs s s' hT t A X m N i c V V' :
  tinv s hT t A X m N -> alloc_segments_map t !! i = Some c -> vw X t i = Some V -> same_values V V' ->
  (exists h C, s' = Tracker.with_host h (with_crits C s)) ->
  crits_inv s' (<[c := (FreeLeaf (alloc_info_allocator t), V')]> X) (N + 1) ->
  tinv s' hT t A (<[c := (FreeLeaf (alloc_info_allocator t), V')]> X) m (N + 1).
Proof.
  intros HI Hc HV (Ek & _ & Hb & Hf) (h & C & ->) HC. set (X' := <[c := _]> X) in *.
  assert (forall j, vw X' t j = if decide (j = i) then Some V' else vw X t j) as Hvw by (intros j; by eapply vw_set).
  assert (forall j W', vw X' t j = Some W' -> exists W, vw X t j = Some W /\ cv_keys W' = cv_keys W /\
    (forall a v r, cv_elems W' !! a = Some (v, r) -> exists q, cv_elems W !! a = Some (v, q)) /\
    (forall a v r, cv_elems W !! a = Some (v, r) -> exists q, cv_elems W' !! a = Some (v, q))) as Hback.
  { intros j W'. rewrite Hvw. case_decide as E; [|intros E'; exists W'; eauto 10]. subst j. intros [= <-]. eauto 10. }
  assert (forall j W, vw X t j = Some W -> exists W', vw X' t j = Some W' /\
    (forall a v r, cv_elems W !! a = Some (v, r) -> exists q, cv_elems W' !! a = Some (v, q))) as Hfwd.
  { intros j W E. rewrite Hvw. case_decide as Ej; [|eauto]. subst j. rewrite HV in E. injection E as <-. eauto. }
  destruct HI as [_ Htr Hlen Hnd Hmap Hseg Hkeys Hp Hch Hval Honce]. split; try done.
  - intros j c' Hc'. destruct (Hmap _ _ Hc') as (H0' & W & HW). split; [done|]. unfold X'.
    destruct (decide (c = c')) as [<-|Hne]; [rewrite lookup_insert_eq; eauto|rewrite lookup_insert_ne by done; eauto].
  - intros j W' k a HW' Hk. destruct (Hback _ _ HW') as (W & HW & EkW & _ & Hf'). rewrite EkW in Hk.
    destruct (Hseg _ _ _ _ HW Hk) as (v & r & info & [(W0 & HW0 & Hk0 & He0) ? ? ? ? ?]).
    rewrite HW in HW0. injection HW0 as <-. destruct (Hf' _ _ _ He0) as [q Hq]. exists v, q, info.
    split; try done. exists W'. by rewrite EkW.
  - intros j W' k HW' Hk. destruct (Hback _ _ HW') as (W & HW & EkW & _). rewrite EkW. by apply (Hkeys j W).
  - intros v. simpl. rewrite Hval. split.
    + intros (j & W & a & r & HW & He). destruct (Hfwd _ _ HW) as (W' & HW' & Hf'). destruct (Hf' _ _ _ He) as [q Hq]. eauto 10.
    + intros (j & W' & a & r & HW' & He). destruct (Hback _ _ HW') as (W & HW & _ & Hb' & _). destruct (Hb' _ _ _ He) as [q Hq]. eauto 10.
  - intros j1 j2 W1' W2' a b v r q HW1 HW2 He1 He2.
    destruct (Hback _ _ HW1) as (W1 & HW1' & _ & Hb1 & _). destruct (Hback _ _ HW2) as (W2 & HW2' & _ & Hb2 & _).
    destruct (Hb1 _ _ _ He1) as [q1 ?]. destruct (Hb2 _ _ _ He2) as [q2 ?]. by apply (Honce j1 j2 W1 W2 a b v q1 q2).
Qed.
End Inv.
