(* ===== verification/TrackerOps.v ===== *)
(** * References of the tracker, and adding a range

    The rules for a lookup and a release on one level, and for the loop that
    every operation runs over the levels.

    [umfMemoryTrackerAddAtLevel] and [umfMemoryTrackerAdd] on every path. *)

From S2P Require Import Prelude Utils HostMem CritQuery CritDelete CritSpec CritInsert CritRemove CritInv CritWorld.
From stdpp Require Import list strings.
From S2P Require Import Critnib Tracker TrackerInv.
#[local] Open Scope Z_scope.

Section Ops.
Context `{HostAllocLaws H} `{ChunkPoolLaws B}.
Implicit Types (s : tstate H B) (X : gmap Z (leaf_cb * cview)) (V : cview) (t : umf_memory_tracker_t) (A : list level).

Definition only_level t (i : nat) X X' : Prop := forall j, j <> i -> vw X' t j = vw X t j.

Lemma seg_frame infos A X X' t i k a v r info :
  vw X' t i = vw X t i -> seg infos A X t i k a v r info -> seg infos A X' t i k a v r info.
Proof. intros E [(V & HV & ?) ? ? ? ? ?]. split; try done. exists V. by rewrite E. Qed.

Lemma wp_segments_map s hT t i c (Q : Z -> tstate H B -> Prop) :
  t_trackers s !! hT = Some t -> alloc_segments_map t !! i = Some c -> Q c s -> wp (segments_map hT i) Q s.
Proof.
  intros Ht Hc HQ. unfold segments_map, load_tracker. apply wp_bind. wp_step. wp_step; [exact Ht|]. wp_step; [exact Hc|]. done.
Qed.

Lemma freed_by_same V V' : cv_freed V' = cv_freed V -> freed_by V V' = [].
Proof. intros E. unfold freed_by. rewrite E. by rewrite drop_all. Qed.

Lemma cv_ref_values V a v r : cv_elems V !! a = Some (v, r) -> same_values V (cv_ref V a v r).
Proof.
  intros E. unfold cv_ref. destruct (cv_cb V); [|split_and!; eauto]. split_and!; [done|done|..]; simpl; intros b w q.
  - destruct (decide (a = b)) as [<-|]; [rewrite lookup_insert_eq; intros [= <- <-]; eauto|rewrite lookup_insert_ne by done; eauto].
  - intros Hb. destruct (decide (a = b)) as [<-|]; [rewrite lookup_insert_eq; rewrite E in Hb; injection Hb as <- <-; eauto|rewrite lookup_insert_ne by done; eauto].
Qed.

Lemma cv_release_values V k a v r : cv_keys V !! k = Some a -> cv_elems V !! a = Some (v, r) ->
  same_values V (cv_release V a v r) /\ cv_elems (cv_release V a v r) !! a = Some (v, r - 1).
Proof.
  intros Hk E. unfold cv_release. rewrite decide_False.
  2: { intros [_ Hn]. apply Hn. by exists k, a. }
  split; [|simpl; by rewrite lookup_insert_eq]. split_and!; [done|done|..]; simpl; intros b w q.
  - destruct (decide (a = b)) as [<-|]; [rewrite lookup_insert_eq; intros [= <- <-]; eauto|rewrite lookup_insert_ne by done; eauto].
  - intros Hb. destruct (decide (a = b)) as [<-|]; [rewrite lookup_insert_eq; rewrite E in Hb; injection Hb as <- <-; eauto|rewrite lookup_insert_ne by done; eauto].
Qed.

(** A lookup takes a reference of the leaf it finds. *)
Lemma wp_find_le_segment s hT t A X m N i ptr (Q : option (Z * Z * option Z) -> tstate H B -> Prop) :
  tinv s hT t A X m N -> N + DELETED_LIFE < two64 -> (i < MAX_LEVELS_OF_ALLOC_SEGMENT_MAP)%nat -> is_u64 ptr ->
  (forall s' X', tinv s' hT t A X' m (N + 1) -> moved t s X s' X' -> only_level t i X X' ->
     (forall k r, lvl A i !! k = Some r -> ptr < k) -> Q None s') ->
  (forall s' X' k a v r info, tinv s' hT t A X' m (N + 1) -> moved t s X s' X' -> only_level t i X X' ->
     seg (t_infos s') A X' t i k a v r info -> 0 < r -> k <= ptr ->
     (forall k' r', lvl A i !! k' = Some r' -> k' <= ptr -> k' <= k) -> Q (Some (k, v, Some a)) s') ->
  wp (find_le_segment hT i ptr) Q s.
Proof.
  intros HI HN Hi Hp Hnone Hsome. destruct (tinv_level _ _ _ _ _ _ _ i HI Hi) as (c & V & Hc & _ & HX & HV).
  unfold find_le_segment. apply wp_bind, (wp_segments_map s hT t i c); [apply (ti_tracker _ _ _ _ _ _ _ HI)|done|].
  apply (wp_on_critnib s X N c (FreeLeaf (alloc_info_allocator t)) V (CFind ptr FIND_LE true) _ RFind); [done|apply HI|done|done|done|].
  intros x V' h' C' Hst s1 HC Hf. destruct (crits_wf _ _ _ _ _ _ (ti_maps _ _ _ _ _ _ _ HI) HX) as [Hwf Hcb].
    pose proof (fun e => moved_set t s X c i e h' C' Hc Hf) as Hmv. fold s1 in Hmv.
  simpl in Hst. rewrite Hcb in Hst. simpl in Hst. destruct Hst as (o & Hb & Hst). unfold find_spec in Hb. simpl in Hb.
  assert (forall W j, j <> i -> vw (<[c:=(FreeLeaf (alloc_info_allocator t), W)]> X) t j = vw X t j) as Hol.
  { intros W j Hj. rewrite (vw_set s hT t A X m N i c _ W j HI Hc). by rewrite decide_False. }
  assert (forall k, is_Some (lvl A i !! k) -> exists a, cv_keys V !! k = Some a) as Hks.
  { intros k Hk. by apply (ti_keys _ _ _ _ _ _ _ HI i V). }
  destruct o as [[k a]|].
  - destruct Hst as (v & n & He & [= ->] & ->). destruct Hb as (Hk & Hle & Hbest).
    destruct (ti_seg _ _ _ _ _ _ _ HI i V k a HV Hk) as (v' & r' & info & Hs).
    pose proof Hs as [(V0 & HV0 & _ & He') ? ? ? ? ?]. rewrite HV in HV0. injection HV0 as <-. rewrite He in He'. injection He' as <- <-.
    pose proof (cv_ref_values V a v n He) as Hsv. rewrite freed_by_same by apply Hsv. simpl. wp_step.
    destruct (vw_elem V Hwf _ _ Hk) as (v0 & r0 & He0 & _ & Hr0). rewrite He in He0. injection He0 as <- <-.
    apply (Hsome s1 (<[c := (FreeLeaf (alloc_info_allocator t), cv_ref V a v n)]> X) k a v (n + 1) info).
    + by apply (tinv_refs s s1 hT t A X m N i c V); [..|exists h', C'|].
    + done.
    + intros j Hj. by apply Hol.
    + change (t_infos s1) with (t_infos s). split; try done. exists (cv_ref V a v n).
      rewrite (vw_set s hT t A X m N i c _ _ i HI Hc), decide_True by done. unfold cv_ref. rewrite Hcb. simpl.
      by rewrite lookup_insert_eq.
    + lia.
    + done.
    + intros k' r2 Hr2 Hle2. destruct (Hks k') as [a' Ha']; [by rewrite Hr2|]. by apply (Hbest k' a').
  - destruct Hst as ([= ->] & ->). rewrite freed_by_same by done. simpl. wp_step.
    apply (Hnone s1 (<[c := (FreeLeaf (alloc_info_allocator t), V)]> X)).
    + apply (tinv_refs s s1 hT t A X m N i c V V); [done..| |by exists h', C'|done]. split_and!; eauto.
    + done.
    + intros j Hj. by apply Hol.
    + intros k r Hk. destruct (Hks k) as [a Ha]; [by rewrite Hk|]. by apply (Hb k a).
Qed.

(** The release of a reference of a leaf in the map. *)
Lemma wp_release_segment s hT t A X m N i k a v r info (Q : unit -> tstate H B -> Prop) :
  tinv s hT t A X m N -> N + DELETED_LIFE < two64 -> seg (t_infos s) A X t i k a v r info -> 0 < r ->
  (forall s' X', tinv s' hT t A X' m (N + 1) -> moved t s X s' X' -> only_level t i X X' ->
     seg (t_infos s') A X' t i k a v (r - 1) info -> Q tt s') ->
  wp (release_segment hT i (Some a)) Q s.
Proof.
  intros HI HN [(V & HV & Hk & He) Hi Hv Hl Hch Hfr] Hr HQ.
  destruct (tinv_level _ _ _ _ _ _ _ i HI (vw_lt _ _ _ _ _ _ _ _ _ HI HV)) as (c & V0 & Hc & _ & HX & HV0).
  rewrite HV in HV0. injection HV0 as <-. unfold release_segment.
  apply wp_bind, (wp_segments_map s hT t i c); [apply (ti_tracker _ _ _ _ _ _ _ HI)|done|]. apply wp_bind.
  destruct (crits_wf _ _ _ _ _ _ (ti_maps _ _ _ _ _ _ _ HI) HX) as [Hwf Hcb].
  apply (wp_on_critnib s X N c (FreeLeaf (alloc_info_allocator t)) V (CRelease (Some a)) _ RInt); [done|apply HI|done|done| |].
  { simpl. intros _ b [= <-]. eauto. }
  intros x V' h' C' Hst s1 HC Hf. simpl in Hst. rewrite Hcb in Hst. destruct Hst as (v0 & r0 & He0 & _ & ->).
  rewrite He in He0. injection He0 as <- <-. destruct (cv_release_values V k a v r Hk He) as [Hsv He'].
  rewrite freed_by_same by apply Hsv. simpl. wp_step. wp_step.
  pose proof (fun e => moved_set t s X c i e h' C' Hc Hf) as Hmv. fold s1 in Hmv.
    apply (HQ s1 (<[c := (FreeLeaf (alloc_info_allocator t), cv_release V a v r)]> X)).
  - by apply (tinv_refs s s1 hT t A X m N i c V); [..|exists h', C'|].
  - done.
  - intros j Hj. rewrite (vw_set s hT t A X m N i c _ _ j HI Hc). by rewrite decide_False.
  - change (t_infos s1) with (t_infos s). split; try done. exists (cv_release V a v r).
    rewrite (vw_set s hT t A X m N i c _ _ i HI Hc), decide_True by done. split; [done|]. split; [|done].
    by rewrite (proj1 Hsv).
Qed.

(** ** The loops *)

(** The reference that a loop holds of the range on the level below. *)
Definition parent_ok (infos : gmap Z tracker_alloc_info_t) A X t (ptr : Z) (l : walk) : Prop :=
  match lv_level l with
  | O => lv_pref l = None /\ lv_parent_value l = 0
  | S j => exists k a v r info, seg infos A X t j k a v r info /\ 0 < r /\ hit A j ptr k (ti_size info, ti_pool info) /\
      lv_pref l = Some a /\ lv_parent_value l = v /\ lv_parent_key l = k
  end.

(** The reference of the range that the last lookup found beside [ptr]. *)
Definition beside_ok (infos : gmap Z tracker_alloc_info_t) A X t (l : walk) : Prop :=
  exists k a v r info, seg infos A X t (lv_level l) k a v r info /\ 0 < r /\ lv_ref l = Some a.

Lemma wp_load_info s v info (Q : tracker_alloc_info_t -> tstate H B -> Prop) :
  t_infos s !! v = Some info -> Q info s -> wp (load_info v) Q s.
Proof. intros E HQ. unfold load_info. wp_step. by wp_step; [exact E|]. Qed.

Lemma seg_range s A X t i k a v r info : levels_wf A -> seg (t_infos s) A X t i k a v r info ->
  0 < k /\ 0 < ti_size info /\ add64 k (ti_size info) = k + ti_size info /\ k + ti_size info < two64.
Proof.
  intros Hwf Hs. pose proof (lw_range _ Hwf _ _ _ (sg_lvl _ _ _ _ _ _ _ _ _ _ Hs)) as (? & ? & ?).
  simpl in *. split_and!; [lia|lia| |lia]. apply add64_small. unfold is_u64. lia.
Qed.

Lemma parent_frame infos A X X' t ptr l : only_level t (lv_level l) X X' -> parent_ok infos A X t ptr l -> parent_ok infos A X' t ptr l.
Proof.
  intros Ho. unfold parent_ok. destruct (lv_level l) as [|j]; [done|].
  intros (k & a & v & r & info & Hs & ?). exists k, a, v, r, info. split; [|done]. eapply seg_frame; [|done]. apply Ho. lia.
Qed.

(** The references of the leaf and of its parent are different. *)
Lemma beside_ne s hT t A X m N ptr l : tinv s hT t A X m N -> parent_ok (t_infos s) A X t ptr l -> beside_ok (t_infos s) A X t l ->
  lv_ref l <> lv_pref l.
Proof.
  intros HI Hp (k & a & v & r & info & [(V & HV & _ & He) _ _ _ _ _] & _ & Er). unfold parent_ok in Hp.
  destruct (lv_level l) as [|j] eqn:El; [destruct Hp as [-> _]; by rewrite Er|].
  destruct Hp as (k' & a' & v' & r' & info' & [(V' & HV' & _ & He') _ _ _ _ _] & _ & _ & Ep & _). rewrite Er, Ep.
  destruct (tinv_level _ _ _ _ _ _ _ (S j) HI (vw_lt _ _ _ _ _ _ _ _ _ HI HV)) as (c & V1 & Hc & _ & HX & HV1).
  destruct (tinv_level _ _ _ _ _ _ _ j HI (vw_lt _ _ _ _ _ _ _ _ _ HI HV')) as (c' & V2 & Hc' & _ & HX' & HV2).
  rewrite HV in HV1. injection HV1 as <-. rewrite HV' in HV2. injection HV2 as <-.
  intros [= E]. revert E. refine (crits_leaf_ne s X N c c' _ _ V V' a a' _ _ (ti_maps _ _ _ _ _ _ _ HI) HX HX' _ He He').
  intros <-. pose proof (NoDup_lookup _ _ _ _ (ti_nodup _ _ _ _ _ _ _ HI) Hc Hc'). lia.
Qed.

(** Releasing the parent that a step down replaces. *)
Lemma wp_release_parent s hT t A X m N ptr l (Q : unit -> tstate H B -> Prop) :
  tinv s hT t A X m N -> N + DELETED_LIFE < two64 -> parent_ok (t_infos s) A X t ptr l ->
  (forall s' X', tinv s' hT t A X' m (N + 1) -> moved t s X s' X' -> vw X' t (lv_level l) = vw X t (lv_level l) -> Q tt s') ->
  wp (match lv_pref l with
      | Some _ => _ ← c_assert (bool_decide (1 <= lv_level l)%nat); release_segment hT (lv_level l - 1) (lv_pref l)
      | None => mret tt
      end) Q s.
Proof.
  intros HI HN Hp HQ. unfold parent_ok in Hp. destruct (lv_level l) as [|j].
  - destruct Hp as [-> _]. wp_step. apply (HQ s X); [|apply moved_refl|done].
    destruct HI as [? ? ? ? ? ? ? ? ? ? ?]. split; try done. by apply (crits_inv_mono _ _ N); [lia|].
  - destruct Hp as (k & a & v & r & info & Hs & Hr & _ & -> & _). wp_step; [by apply bool_decide_eq_true; lia|].
    simpl. rewrite Nat.sub_0_r. apply (wp_release_segment s hT t A X m N j k a v r info); [done..|].
    intros s' X' HI' Hmv Ho _. apply (HQ s' X' HI' Hmv). apply Ho. lia.
Qed.

(** The end of the loop of [umfMemoryTrackerAdd]. *)
Inductive add_end A t m ptr n (s : tstate H B) X hT (N : Z) : umf_result_t + walk -> tstate H B -> Prop :=
| add_too_deep s' X' : tinv s' hT t A X' m N -> moved t s X s' X' -> depth A ptr MAX_LEVELS_OF_ALLOC_SEGMENT_MAP ->
    add_end A t m ptr n s X hT N (inl UMF_RESULT_ERROR_OUT_OF_RESOURCES) s'
| add_exceeds s' X' i k r : tinv s' hT t A X' m N -> moved t s X s' X' -> hit A i ptr k r -> k + r.1 < ptr + n ->
    add_end A t m ptr n s X hT N (inl UMF_RESULT_ERROR_INVALID_ARGUMENT) s'
| add_found s' X' l : tinv s' hT t A X' m N -> moved t s X s' X' -> depth A ptr (lv_level l) ->
    (lv_level l < MAX_LEVELS_OF_ALLOC_SEGMENT_MAP)%nat -> parent_ok (t_infos s') A X' t ptr l ->
    (forall i k r, (i < lv_level l)%nat -> hit A i ptr k r -> ptr + n <= k + r.1) ->
    lv_ref l = None \/ lv_ref l = lv_pref l \/ beside_ok (t_infos s') A X' t l ->
    add_end A t m ptr n s X hT N (inr l) s'.

Lemma tinv_mono s hT t A X m N M : N <= M -> tinv s hT t A X m N -> tinv s hT t A X m M.
Proof. intros Hle [? ? ? ? ? ? ? ? ? ? ?]. split; try done. by apply (crits_inv_mono _ _ N). Qed.

Lemma add_end_moved A t m ptr n s X s0 X0 hT N N' r s' : moved t s X s0 X0 -> N <= N' ->
  add_end A t m ptr n s0 X0 hT N r s' -> add_end A t m ptr n s X hT N' r s'.
Proof.
  intros Hm Hle [s1 X1 HI Hm1 Hd|s1 X1 i k r1 HI Hm1 Hh He|s1 X1 l HI Hm1 Hd Hl Hp Hin Hr];
    [eapply add_too_deep|eapply add_exceeds|eapply add_found]; try done; try (by eapply moved_trans); by apply (tinv_mono _ _ _ _ _ _ N).
Qed.

(** The level of a range that contains [ptr], when nothing above does. *)
Lemma depth_S A ptr i k r : hit A i ptr k r -> (forall j, (j < i)%nat -> exists k r, hit A j ptr k r) ->
  (forall k r, ~ hit A (S i) ptr k r) -> depth A ptr (S i).
Proof.
  intros Hh Hlow Hno. split; [|done]. intros j Hj. destruct (decide (j = i)) as [->|]; [eauto|]. apply Hlow. lia.
Qed.

Lemma wp_add_loop fuel s hT t A X m N ptr n l :
  levels_wf A -> tinv s hT t A X m N -> N + 2 * Z.of_nat fuel + DELETED_LIFE < two64 -> range_ok ptr n ->
  (fuel + lv_level l = MAX_LEVELS_OF_ALLOC_SEGMENT_MAP)%nat -> (lv_level l < MAX_LEVELS_OF_ALLOC_SEGMENT_MAP)%nat ->
  parent_ok (t_infos s) A X t ptr l -> (forall i, (i < lv_level l)%nat -> exists k r, hit A i ptr k r) ->
  (forall i k r, (i < lv_level l)%nat -> hit A i ptr k r -> ptr + n <= k + r.1) ->
  wp (add_loop fuel hT ptr n l) (fun r s' => add_end A t m ptr n s X hT (N + 2 * Z.of_nat fuel) r s') s.
Proof.
  intros Hwf. revert s X N l. induction fuel as [|fuel IH]; intros s X N l HI HN Hrk Hfl Hlt Hp Hlow Hin; [lia|]. cbn [add_loop].
  pose proof Hrk as (Hp0 & Hn0 & Hpu).
  wp_step; [by apply bool_decide_eq_true|]. apply wp_bind, (wp_find_le_segment s hT t A X m N (lv_level l)); [done|lia|done|unfold is_u64; lia|..].
  - intros s1 X1 HI1 Hm1 Ho Hno. wp_step. eapply add_found; simpl; try done.
    + apply (tinv_mono _ _ _ _ _ _ (N + 1)); [lia|exact HI1].
    + split; [done|]. intros k r [E Hk]. specialize (Hno _ _ E). lia.
    + rewrite (moved_infos _ _ _ _ _ Hm1). unfold parent_ok in *. simpl. by apply (parent_frame _ _ X _ _ _ l).
    + by left.
  - intros s1 X1 k a v r info HI1 Hm1 Ho Hs Hr Hle Hbest.
    destruct (seg_range _ _ _ _ _ _ _ _ _ _ Hwf Hs) as (Hk0 & Hsz & Eadd & Hku).
    rewrite (proj2 (Z.eqb_neq v 0)) by apply (sg_value _ _ _ _ _ _ _ _ _ _ Hs).
    apply wp_bind, (wp_load_info s1 v info); [apply (sg_info _ _ _ _ _ _ _ _ _ _ Hs)|].
    wp_step; [by rewrite (sg_freed _ _ _ _ _ _ _ _ _ _ Hs)|]. cbv zeta. rewrite Eadd.
    pose proof (sg_lvl _ _ _ _ _ _ _ _ _ _ Hs) as Hlv.
    assert (parent_ok (t_infos s1) A X1 t ptr l) as Hp1 by (rewrite (moved_infos _ _ _ _ _ Hm1); by apply (parent_frame _ _ X)).
    destruct (Z.ltb_spec ptr (k + ti_size info)) as [Hh|Hmiss].
    2: { wp_step. eapply add_found; simpl; try done.
      - apply (tinv_mono _ _ _ _ _ _ (N + 1)); [lia|exact HI1].
      - split; [done|]. by apply (miss_of_best A _ ptr k (ti_size info, ti_pool info)).
      - right. right. by exists k, a, v, r, info. }
    assert (hit A (lv_level l) ptr k (ti_size info, ti_pool info)) as Hhit by (split; [done|simpl; lia]).
    case_bool_decide as E7.
    { wp_step. apply (add_too_deep _ _ _ _ _ _ _ _ _ s1 X1); [apply (tinv_mono _ _ _ _ _ _ (N + 1)); [lia|done]|done|].
      assert (MAX_LEVELS_OF_ALLOC_SEGMENT_MAP = S (lv_level l)) as -> by (rewrite E7; done). apply (depth_S A ptr _ k _ Hhit Hlow).
      intros k' r' [E' _]. rewrite lvl_out, lookup_empty in E'; [done|]. rewrite (lw_len _ Hwf). rewrite E7. unfold MAX_LEVELS_OF_ALLOC_SEGMENT_MAP. lia. }
    rewrite add64_small by (unfold is_u64; lia). rewrite Z.gtb_ltb. destruct (Z.ltb_spec (k + ti_size info) (ptr + n)) as [Hex|Hfit].
    { wp_step. eapply (add_exceeds _ _ _ _ _ _ _ _ _ s1 X1); [apply (tinv_mono _ _ _ _ _ _ (N + 1)); [lia|done]|done|exact Hhit|done]. }
    apply wp_bind, (wp_release_parent s1 hT t A X1 m (N + 1) ptr l); [done|lia|done|]. intros s2 X2 HI2 Hm2 Ev2.
    assert (seg (t_infos s2) A X2 t (lv_level l) k a v r info) as Hs2 by (rewrite (moved_infos _ _ _ _ _ Hm2); by eapply seg_frame).
    set (l' := mk_walk (S (lv_level l)) k v (ti_size info) (n_children info) k v (Some a) (Some a)).
    assert (parent_ok (t_infos s2) A X2 t ptr l') as Hp2 by (by exists k, a, v, r, info).
    assert (forall i k0 r0, (i < lv_level l')%nat -> hit A i ptr k0 r0 -> ptr + n <= k0 + r0.1) as Hin'.
    { intros i k0 r0 Hi Hh0. simpl in Hi. destruct (decide (i = lv_level l)) as [->|]; [|apply (Hin i); [lia|done]].
      by destruct (hit_unique A _ ptr k k0 _ _ Hwf Hhit Hh0) as [<- <-]. }
    assert (S (lv_level l) < MAX_LEVELS_OF_ALLOC_SEGMENT_MAP)%nat as Hlt' by lia.
    rewrite (sg_children _ _ _ _ _ _ _ _ _ _ Hs). destruct (Z.eqb_spec (children A (lv_level l) k (ti_size info)) 0) as [Hc|Hc]; simpl negb; cbv iota.
    + wp_step. apply (add_found _ _ _ _ _ _ _ _ _ s2 X2); try done.
      * apply (tinv_mono _ _ _ _ _ _ (N + 1 + 1)); [lia|done].
      * by eapply moved_trans.
      * simpl. apply (depth_S A ptr _ k _ Hhit Hlow). by apply (childless A _ ptr k _ Hwf Hhit).
      * right. by left.
    + eapply wp_mono; [apply (IH s2 X2 (N + 1 + 1) l' HI2); try done; [lia|simpl; lia|]|].
      * intros i Hi. simpl in Hi. destruct (decide (i = lv_level l)) as [->|]; [eauto|]. apply Hlow. lia.
      * intros x s3 Hend. eapply add_end_moved; [|..|exact Hend]; [by eapply moved_trans|lia].
Qed.
End Ops.

Section Add.
Context `{HostAllocLaws H} `{ChunkPoolLaws B}.
Implicit Types (s : tstate H B) (X : gmap Z (leaf_cb * cview)) (V : cview) (t : umf_memory_tracker_t) (A : list level).

Lemma wp_on_pools {R} (f : M B R) s (Q : R -> tstate H B -> Prop) :
  wp f (fun a b => Q a (with_pools b s)) (t_pools s) -> wp (on_pools f) Q s.
Proof. unfold wp, on_pools. by destruct (f (t_pools s)) as [[a b]|]. Qed.

Lemma tinv_value_fresh s hT t A X m N i V a v r : tinv s hT t A X m N -> t_infos s !! v = None ->
  vw X t i = Some V -> cv_elems V !! a <> Some (v, r).
Proof.
  intros HI Hv HV He. assert (is_Some (t_infos s !! v)) as [x Hx] by (apply (ti_values _ _ _ _ _ _ _ HI); eauto 10). congruence.
Qed.

(** ** The new leaf *)

(** [pv] is the object of the range that gets a child at [ptr]. *)
Definition parent_of (infos : gmap Z tracker_alloc_info_t) A X t (d : nat) (ptr : Z) (pv : option Z) : Prop :=
  forall i k a v r info, seg infos A X t i k a v r info -> pv = Some v <-> (S i = d /\ k <= ptr < k + ti_size info).

Definition bump (z : Z) (pv : option Z) (v : Z) (info : tracker_alloc_info_t) : tracker_alloc_info_t :=
  if decide (pv = Some v) then with_children (n_children info + z) info else info.

Lemma bump_same z pv v info : ti_size (bump z pv v info) = ti_size info /\ ti_pool (bump z pv v info) = ti_pool info /\
  is_freed (bump z pv v info) = is_freed info.
Proof. unfold bump. by case_decide. Qed.

Lemma tinv_added s s' hT t A X m m' N N' d c V ptr n p v a pv :
  tinv s hT t A X m N -> alloc_segments_map t !! d = Some c -> vw X t d = Some V -> cv_cb V = true ->
  lvl A d !! ptr = None -> children A d ptr n = 0 -> v <> 0 -> t_infos s !! v = None -> cv_elems V !! a = None ->
  (d < length A)%nat -> parent_of (t_infos s) A X t d ptr pv ->
  let X' := <[c := (FreeLeaf (alloc_info_allocator t), cv_insert V ptr v a)]> X in
  t_trackers s' !! hT = Some t -> crits_inv s' X' N' -> cp_rep (t_pools s') m' ->
  m' !! alloc_info_allocator t = Some (dom (t_infos s')) -> t_infos s' !! v = Some (mk_info p n 0 0) ->
  (forall v0, v0 <> v -> t_infos s' !! v0 = bump 1 pv v0 <$> t_infos s !! v0) ->
  tinv s' hT t (add_range A d ptr n p) X' m' N'.
Proof.
  intros HI Hc HV Hcb Hno Hch Hv0 Hvn Han Hd Hpv X' Htr' HC' Hrep' Hm' Hv' Hold.
  pose proof (fun j => vw_set s hT t A X m N d c (FreeLeaf (alloc_info_allocator t)) (cv_insert V ptr v a) j HI Hc) as Hvw.
  fold X' in Hvw.
  assert (lvl (add_range A d ptr n p) d = <[ptr := (n, p)]> (lvl A d)) as Ed by (by apply lvl_set_eq).
  assert (forall i, i <> d -> lvl (add_range A d ptr n p) i = lvl A i) as Ei by (intros i Hi; by apply lvl_set_ne).
  assert (forall j k, lvl A j !! k <> None -> lvl (add_range A d ptr n p) j !! k = lvl A j !! k) as Hlvl.
  { intros j k Hk. destruct (decide (j = d)) as [->|Hne]; [|by rewrite Ei]. rewrite Ed, lookup_insert_ne; [done|]. intros <-. congruence. }
  assert (forall j k b w r info, seg (t_infos s) A X t j k b w r info ->
    seg (t_infos s') (add_range A d ptr n p) X' t j k b w r (bump 1 pv w info)) as Hkeep.
  { intros j k b w r info Hs. pose proof Hs as [(W & HW & Hk & He) Hw Hw0 Hl Hcn Hf].
    destruct (bump_same 1 pv w info) as (Es & Ep & Efr). split; [..|by rewrite Es, Ep, Hlvl; [|rewrite Hl]| |by rewrite Efr].
    - exists (if decide (j = d) then cv_insert V ptr v a else W). rewrite Hvw. case_decide as Ej; [|done]. subst j.
      rewrite HV in HW. injection HW as <-. split; [done|]. simpl. rewrite !lookup_insert_ne; [done|congruence..].
    - rewrite Hold, Hw; [done|]. congruence.
    - done.
    - rewrite Es, children_add by done. rewrite <- Hcn. pose proof (Hpv _ _ _ _ _ _ Hs) as Hiff. unfold bump.
      destruct (decide (pv = Some w)) as [E|E]; [rewrite decide_True by (by apply Hiff)|rewrite decide_False by (by rewrite <- Hiff)]; simpl; lia. }
  destruct HI as [_ Htr Hlen Hnd Hmap Hseg Hkeys Hp Hchk Hval Honce].
  split; try done.
  - intros j c' Hc'. destruct (Hmap _ _ Hc') as (H0' & W & HW). split; [done|]. unfold X'.
    destruct (decide (c = c')) as [<-|Hne]; [rewrite lookup_insert_eq; eauto|rewrite lookup_insert_ne by done; eauto].
  - intros j W' k b HW' Hk. assert (forall W, vw X t j = Some W -> cv_keys W !! k = Some b -> exists w r info, seg (t_infos s') (add_range A d ptr n p) X' t j k b w r info) as Hold'.
    { intros W HW HkW. destruct (Hseg _ _ _ _ HW HkW) as (w & r & info & Hs). eauto. }
    rewrite Hvw in HW'. case_decide as Ej; [|by apply (Hold' W')]. subst j. injection HW' as <-. simpl in Hk.
    destruct (decide (ptr = k)) as [<-|Hne]; [|rewrite lookup_insert_ne in Hk by done; by apply (Hold' V)].
    rewrite lookup_insert_eq in Hk. injection Hk as <-. exists v, 0, (mk_info p n 0 0). split; simpl; try done.
    + exists (cv_insert V ptr v a). rewrite Hvw, decide_True by done. simpl. by rewrite !lookup_insert_eq.
    + by rewrite Ed, lookup_insert_eq.
    + rewrite children_add by done. rewrite decide_False by lia. lia.
  - intros j W' k HW' Hk. rewrite Hvw in HW'. case_decide as Ej; [|rewrite Ei in Hk by done; by apply (Hkeys j W')].
    subst j. injection HW' as <-. rewrite Ed in Hk. simpl. destruct (decide (ptr = k)) as [<-|Hne]; [rewrite lookup_insert_eq; eauto|].
    rewrite lookup_insert_ne in Hk by done. rewrite lookup_insert_ne by done. by apply (Hkeys d V).
  - intros w. destruct (decide (w = v)) as [->|Hne].
    + rewrite Hv'. split; [|eauto]. intros _. exists d, (cv_insert V ptr v a), a, 0. rewrite Hvw, decide_True by done. simpl. by rewrite lookup_insert_eq.
    + rewrite Hold, fmap_is_Some, Hval by done. split; intros (j & W & b & r & HW & He).
      * destruct (decide (j = d)) as [->|Hj]; [|exists j, W, b, r; by rewrite Hvw, decide_False].
        rewrite HV in HW. injection HW as <-. exists d, (cv_insert V ptr v a), b, r. rewrite Hvw, decide_True by done.
        simpl. rewrite lookup_insert_ne; [done|]. congruence.
      * rewrite Hvw in HW. case_decide as Ej; [|eauto 10]. injection HW as <-. simpl in He.
        destruct (decide (a = b)) as [<-|]; [rewrite lookup_insert_eq in He; congruence|]. rewrite lookup_insert_ne in He by done. subst j. eauto 10.
  - assert (forall j W b w r, vw X' t j = Some W -> cv_elems W !! b = Some (w, r) ->
      (w = v /\ j = d /\ b = a) \/ (w <> v /\ exists W0, vw X t j = Some W0 /\ cv_elems W0 !! b = Some (w, r))) as Hcase.
    { intros j W b w r HW He. assert (forall W0, vw X t j = Some W0 -> cv_elems W0 !! b = Some (w, r) -> w <> v) as Hne.
      { intros W0 HW0 He0 ->. assert (is_Some (t_infos s !! v)) as [x Hx] by (apply Hval; eauto 10). congruence. }
      rewrite Hvw in HW. case_decide as Ej; [|right; eauto]. subst j. injection HW as <-. simpl in He.
      destruct (decide (a = b)) as [<-|]; [rewrite lookup_insert_eq in He; injection He as <- <-; by left|].
      rewrite lookup_insert_ne in He by done. right. eauto. }
    intros i j W1 W2 b1 b2 w r q HW1 HW2 He1 He2.
    destruct (Hcase _ _ _ _ _ HW1 He1) as [(-> & -> & ->)|(Hn1 & W3 & HW3 & He3)];
      destruct (Hcase _ _ _ _ _ HW2 He2) as [(E1 & -> & ->)|(Hn2 & W4 & HW4 & He4)]; try done.
    by apply (Honce i j W3 W4 b1 b2 w r q).
Qed.

(** ** [umfMemoryTrackerAddAtLevel] *)

(** What an operation of the tracker leaves alone. *)
Record kept t s X (m : gmap Z (gset Z)) s' X' (m' : gmap Z (gset Z)) : Prop := {
  kp_trackers : t_trackers s' = t_trackers s;
  kp_ipcs : t_ipcs s' = t_ipcs s;
  kp_values : t_values s' = t_values s;
  kp_tracker : TRACKER s' = TRACKER s;
  kp_mutex_init : t_mutex_init s' = t_mutex_init s;
  kp_proxy : t_proxy_lib s' = t_proxy_lib s;
  kp_foreign : keeps_foreign s s';
  kp_crits : forall c, c ∉ alloc_segments_map t -> X' !! c = X !! c;
  kp_pools : forall q, q <> alloc_info_allocator t -> m' !! q = m !! q;
}.

Lemma tracker_kept_trans t s1 X1 m1 s2 X2 m2 s3 X3 m3 : kept t s1 X1 m1 s2 X2 m2 -> kept t s2 X2 m2 s3 X3 m3 -> kept t s1 X1 m1 s3 X3 m3.
Proof.
  intros [? ? ? ? ? ? F1 C1 P1] [? ? ? ? ? ? F2 C2 P2]. split; try congruence.
  - by eapply keeps_foreign_trans.
  - intros c Hc. by rewrite C2, C1.
  - intros q Hq. by rewrite P2, P1.
Qed.

Lemma kept_moved t s X m s' X' : moved t s X s' X' -> kept t s X m s' X' m.
Proof. intros [(h & C & ->) [Hf Hc]]. by split. Qed.

Lemma tracker_kept_refl t s X m : kept t s X m s X m.
Proof. apply kept_moved, moved_refl. Qed.

Lemma parent_of_ok s hT t A X m N ptr l : levels_wf A -> tinv s hT t A X m N -> parent_ok (t_infos s) A X t ptr l ->
  parent_of (t_infos s) A X t (lv_level l) ptr (if decide (lv_level l = 0%nat) then None else Some (lv_parent_value l)).
Proof.
  intros Hwf HI Hp i k a v r info Hs. unfold parent_ok in Hp. destruct (lv_level l) as [|j]; [rewrite decide_True by done; split; [done|lia]|].
  rewrite decide_False by done. destruct Hp as (k1 & a1 & v1 & r1 & info1 & Hs1 & _ & Hh1 & _ & -> & _).
  pose proof Hs as [(V & HV & Hk & He) Hi _ Hl _ _]. pose proof Hs1 as [(V1 & HV1 & Hk1 & He1) Hi1 _ Hl1 _ _]. split.
  - intros [= <-]. destruct (ti_once _ _ _ _ _ _ _ HI _ _ _ _ _ _ _ _ _ HV HV1 He He1) as [<- <-]. rewrite HV in HV1. injection HV1 as <-.
    destruct (tinv_level _ _ _ _ _ _ _ i HI (vw_lt _ _ _ _ _ _ _ _ _ HI HV)) as (c & V0 & _ & _ & HX & HV0).
    rewrite HV in HV0. injection HV0 as <-. destruct (crits_wf _ _ _ _ _ _ (ti_maps _ _ _ _ _ _ _ HI) HX) as [Hvw _].
    rewrite (vw_inj _ Hvw _ _ _ Hk Hk1). rewrite Hi in Hi1. injection Hi1 as <-. split; [done|]. apply Hh1.
  - intros [[= ->] Hr]. assert (hit A j ptr k (ti_size info, ti_pool info)) as Hh by (by split).
    destruct (hit_unique A j ptr k k1 _ _ Hwf Hh Hh1) as [-> _]. rewrite HV in HV1. injection HV1 as <-.
    rewrite Hk in Hk1. injection Hk1 as <-. rewrite He in He1. by injection He1 as -> ->.
Qed.

Inductive added t A d ptr n p (s : tstate H B) X m hT (N : Z) : umf_result_t -> tstate H B -> Prop :=
| added_ok s' X' m' : tinv s' hT t (add_range A d ptr n p) X' m' N -> kept t s X m s' X' m' ->
    added t A d ptr n p s X m hT N UMF_RESULT_SUCCESS s'
| added_oom s' X' : tinv s' hT t A X' m N -> kept t s X m s' X' m ->
    added t A d ptr n p s X m hT N UMF_RESULT_ERROR_OUT_OF_HOST_MEMORY s'.

Lemma tinv_ext s s' hT t A X m N : tinv s hT t A X m N -> t_trackers s' = t_trackers s -> t_host s' = t_host s ->
  t_crits s' = t_crits s -> t_infos s' = t_infos s -> cp_rep (t_pools s') m -> tinv s' hT t A X m N.
Proof.
  intros [Hm ? ? ? ? ? ? ? ? ? ?] Et Eh Ec Ei Hp. split; rewrite ?Et, ?Ei; try done. by apply (crits_inv_ext s).
Qed.

Lemma wp_store_info s v info (Q : unit -> tstate H B -> Prop) :
  Q tt (with_infos (<[v := info]> (t_infos s)) s) -> wp (store_info v info) Q s.
Proof. done. Qed.

(** The steps after the leaf is in the map: the parent counts its child and is released. *)
Lemma wp_count_child s1 hT t A X m m1 N d c V ptr n p v a l s0 (Q : umf_result_t -> tstate H B -> Prop) :
  let al := alloc_info_allocator t in
  let X1 := <[c := (FreeLeaf al, cv_insert V ptr v a)]> X in
  levels_wf A -> tinv s0 hT t A X m N -> alloc_segments_map t !! d = Some c -> vw X t d = Some V -> cv_cb V = true ->
  lv_level l = d -> (d < MAX_LEVELS_OF_ALLOC_SEGMENT_MAP)%nat ->
  lvl A d !! ptr = None -> children A d ptr n = 0 -> v <> 0 -> t_infos s0 !! v = None -> cv_elems V !! a = None ->
  parent_ok (t_infos s0) A X t ptr l -> 
  t_trackers s1 !! hT = Some t -> crits_inv s1 X1 (N + 1) -> cp_rep (t_pools s1) m1 -> m1 !! al = Some ({[v]} ∪ dom (t_infos s0)) ->
  t_infos s1 = <[v := mk_info p n 0 0]> (t_infos s0) -> N + 1 + DELETED_LIFE < two64 ->
  (forall s2 X2, tinv s2 hT t (add_range A d ptr n p) X2 m1 (N + 2) -> kept t s1 X1 m1 s2 X2 m1 -> Q UMF_RESULT_SUCCESS s2) ->
  wp (if negb (lv_parent_value l =? 0) then
        info ← load_info (lv_parent_value l);
        _ ← store_info (lv_parent_value l) (with_children (add64 (n_children info) 1) info);
        _ ← c_assert (bool_decide (is_Some (lv_pref l)));
        _ ← release_segment hT (d - 1) (lv_pref l);
        mret UMF_RESULT_SUCCESS
      else mret UMF_RESULT_SUCCESS) Q s1.
Proof.
  intros al X1 Hwf HI Hc HV Hcb El Hd Hno Hch Hv0 Hvn Han Hp Htr HC Hrep Hm1 Ei HN HQ.
  pose proof (parent_of_ok s0 hT t A X m N ptr l Hwf HI Hp) as Hpo. rewrite El in Hpo.
  assert (d < length A)%nat as HdA by (by rewrite (lw_len _ Hwf)).
  unfold parent_ok in Hp. rewrite El in Hp. destruct d as [|j].
  - destruct Hp as [_ ->]. simpl. wp_step. apply (HQ s1 X1); [|apply tracker_kept_refl]. apply (tinv_mono _ _ _ _ _ _ (N + 1)); [lia|].
    apply (tinv_added s0 s1 hT t A X m m1 N (N + 1) 0 c V ptr n p v a None); try done.
    + by rewrite Ei, dom_insert_L.
    + by rewrite Ei, lookup_insert_eq.
    + intros v0 Hne. rewrite Ei, lookup_insert_ne by done. by destruct (t_infos s0 !! v0).
  - destruct Hp as (k & b & w & r & info & Hs & Hr & Hh & Epr & Epv & _). rewrite Epv, Epr in *. rewrite decide_False in Hpo by done.
    pose proof Hs as [(W & HW & Hk & He) Hw Hw0 Hl Hcn Hf]. rewrite (proj2 (Z.eqb_neq w 0)) by done. simpl negb. cbv iota.
    assert (w <> v) as Hwv by congruence.
    apply wp_bind, (wp_load_info s1 w info); [by rewrite Ei, lookup_insert_ne|].
    assert (0 <= children (add_range A (S j) ptr n p) j k (ti_size info) <= ti_size info) as Hcb'.
    { apply children_bound. destruct (lw_range _ Hwf _ _ _ Hl); simpl in *; lia. }
    destruct (lw_range _ Hwf _ _ _ Hl) as (Hk0 & Hsz & Hku). simpl in Hk0, Hsz, Hku.
    rewrite children_add, decide_True in Hcb' by first [done|split; [done|apply Hh]].
    rewrite add64_small by (unfold is_u64; rewrite Hcn; lia).
    apply wp_bind, wp_store_info. wp_step; [done|]. replace (S j - 1)%nat with j by lia.
    set (s2 := with_infos _ s1).
    assert (tinv s2 hT t (add_range A (S j) ptr n p) X1 m1 (N + 1)) as HI2.
    { apply (tinv_added s0 s2 hT t A X m m1 N (N + 1) (S j) c V ptr n p v a (Some w)); try done.
      - by apply (crits_inv_ext s1).
      - unfold s2. simpl. rewrite Ei, dom_insert_lookup_L, dom_insert_L by (rewrite lookup_insert_ne by done; rewrite Hw; eauto). done.
      - unfold s2. simpl. by rewrite lookup_insert_ne, Ei, lookup_insert_eq.
      - intros v0 Hne. unfold s2, bump. simpl. case_decide as E.
        + injection E as <-. by rewrite lookup_insert_eq, Hw.
        + rewrite lookup_insert_ne, Ei, lookup_insert_ne by congruence. by destruct (t_infos s0 !! v0). }
    apply wp_bind, (wp_release_segment s2 hT t (add_range A (S j) ptr n p) X1 m1 (N + 1) j k b w r (with_children (n_children info + 1) info)); [done|lia| |done|].
    + split; try done.
      * exists W. unfold X1. rewrite (vw_set s0 hT t A X m N (S j) c _ _ j HI Hc). by rewrite decide_False by lia.
      * unfold s2. simpl. by rewrite lookup_insert_eq.
      * simpl. unfold add_range. rewrite lvl_set_ne by lia. done.
      * simpl. rewrite children_add, decide_True by first [done|split; [done|apply Hh]]. lia.
    + intros s3 X3 HI3 Hm3 _ _. wp_step. apply (HQ s3 X3); [replace (N + 2) with (N + 1 + 1) by lia; done|].
      apply (tracker_kept_trans t _ _ m1 s2 X1 m1); [by split|by apply kept_moved].
Qed.

Lemma wp_add_at_level s hT t A X m N l p ptr n :
  levels_wf A -> tinv s hT t A X m N -> N + 1 + DELETED_LIFE < two64 -> (lv_level l < MAX_LEVELS_OF_ALLOC_SEGMENT_MAP)%nat ->
  ptr <> 0 -> is_u64 ptr -> lvl A (lv_level l) !! ptr = None -> children A (lv_level l) ptr n = 0 ->
  parent_ok (t_infos s) A X t ptr l ->
  wp (umfMemoryTrackerAddAtLevel hT (lv_level l) p ptr n (lv_parent_key l) (lv_parent_value l) (lv_pref l))
    (added t A (lv_level l) ptr n p s X m hT (N + 2)) s.
Proof.
  intros Hwf HI HN Hd Hp0 Hp64 Hno Hch Hp. set (d := lv_level l) in *. set (al := alloc_info_allocator t).
  destruct (tinv_level _ _ _ _ _ _ _ d HI Hd) as (c & V & Hc & _ & HX & HV).
  destruct (crits_wf _ _ _ _ _ _ (ti_maps _ _ _ _ _ _ _ HI) HX) as [Hvwf Hcb].
  unfold umfMemoryTrackerAddAtLevel. wp_step; [by rewrite (proj2 (Z.eqb_neq ptr 0))|].
  unfold load_tracker. apply wp_bind. wp_step. wp_step; [apply (ti_tracker _ _ _ _ _ _ _ HI)|]. fold al.
  apply wp_bind, wp_on_pools. eapply wp_mono; [apply (cp_alloc al (dom (t_infos s)) (t_pools s) m); apply HI|].
  intros v b [[-> Hrep]|(Hv0 & Hfresh & Hrep)].
  { simpl. wp_step. apply (added_oom _ _ _ _ _ _ _ _ _ _ _ _ X); [|by split].
    apply (tinv_mono _ _ _ _ _ _ N); [lia|]. by apply (tinv_ext s). }
  rewrite (proj2 (Z.eqb_neq v 0)) by done. apply wp_bind, wp_store_info. wp_step; [by apply bool_decide_eq_true|].
  set (s1 := with_infos _ _). set (m1 := <[al := _]> m) in *.
  assert (t_infos s !! v = None) as Hvn.
  { apply not_elem_of_dom. apply (Hfresh al). apply HI. }
  apply wp_bind, (wp_segments_map s1 hT t d c); [apply (ti_tracker _ _ _ _ _ _ _ HI)|done|].
  assert (crits_inv s1 X N) as HC1 by (apply (crits_inv_ext s); [done..|apply HI]).
  assert (cv_keys V !! ptr = None) as Hkn.
  { destruct (cv_keys V !! ptr) as [a|] eqn:E; [|done]. destruct (ti_seg _ _ _ _ _ _ _ HI d V ptr a HV E) as (w & r & info & Hs).
    pose proof (sg_lvl _ _ _ _ _ _ _ _ _ _ Hs). congruence. }
  apply wp_bind, (wp_on_critnib s1 X N c (FreeLeaf al) V (CInsert ptr v false) _ RInt); [done|done|lia|done|by split|].
  intros ret V' h' C' Hst s2 HC2 Hf2.
  assert (keeps_foreign s s2) as Hf.
  { exact Hf2. }
  simpl in Hst. destruct Hst as [[[= ->] ->]|Hst].
  - rewrite freed_by_same by done. simpl. wp_step. apply wp_bind, wp_on_pools.
    assert (cp_rep (t_pools s2) m1) as Hrep2 by done.
    eapply wp_mono; [apply (cp_free al v ({[v]} ∪ dom (t_infos s)) _ m1 Hrep2); [apply lookup_insert_eq|set_solver]|].
    intros [] b3 Hrep3. simpl in Hrep3. wp_step. wp_step. set (s3 := with_infos _ _).
    assert (t_infos s3 = t_infos s) as Ei3 by (unfold s3; simpl; by rewrite delete_insert_id).
    assert (<[al := ({[v]} ∪ dom (t_infos s)) ∖ {[v]}]> m1 = m) as Em.
    { unfold m1. rewrite insert_insert_eq. apply insert_id. replace (({[v]} ∪ dom (t_infos s)) ∖ {[v]}) with (dom (t_infos s)); [apply HI|].
      apply not_elem_of_dom in Hvn. set_solver. }
    rewrite Em in Hrep3. apply (added_oom _ _ _ _ _ _ _ _ _ _ _ _ (<[c := (FreeLeaf al, V)]> X)).
    + apply (tinv_mono _ _ _ _ _ _ (N + 1)); [lia|].
      assert (tinv (Tracker.with_host h' (with_crits C' s)) hT t A (<[c := (FreeLeaf al, V)]> X) m (N + 1)) as HI3.
      { apply (tinv_refs s _ hT t A X m N d c V V); [done..| |by eexists _, _|by apply (crits_inv_ext s2)]. split_and!; eauto. }
      apply (tinv_ext _ _ _ _ _ _ _ _ HI3); try done.
    + destruct (moved_set t s X c d (FreeLeaf al, V) h' C' Hc Hf) as (_ & _ & Ho). by split.
  - rewrite Hkn in Hst. destruct Hst as (a & Han & [= ->] & ->). rewrite freed_by_same by done. simpl. wp_step.
    eapply (wp_count_child s2 hT t A X m m1 N d c V ptr n p v a l s); try done.
    + apply HI.
    + apply lookup_insert_eq.
    + intros s3 X3 HI3 Hk3. apply (added_ok _ _ _ _ _ _ _ _ _ _ _ _ X3 m1); [done|].
      eapply tracker_kept_trans; [|exact Hk3]. destruct (moved_set t s X c d (FreeLeaf al, cv_insert V ptr v a) h' C' Hc Hf) as (_ & _ & Ho).
      split; try done. intros q Hq. unfold m1. by rewrite lookup_insert_ne.
Qed.

(** ** [umfMemoryTrackerAdd] *)

(** No tracked range starts inside the new one. *)
Definition add_obeys A (ptr n : Z) : Prop :=
  range_ok ptr n /\ forall i k r, lvl A i !! k = Some r -> k <= ptr \/ ptr + n <= k.

(** The result and the ranges after the call. *)
Inductive add_spec A (ptr n p : Z) : umf_result_t -> list level -> Prop :=
| add_success d : depth A ptr d -> (d < MAX_LEVELS_OF_ALLOC_SEGMENT_MAP)%nat -> fits A ptr n ->
    add_spec A ptr n p UMF_RESULT_SUCCESS (add_range A d ptr n p)
| add_no_memory : add_spec A ptr n p UMF_RESULT_ERROR_OUT_OF_HOST_MEMORY A
| add_no_level : depth A ptr MAX_LEVELS_OF_ALLOC_SEGMENT_MAP -> add_spec A ptr n p UMF_RESULT_ERROR_OUT_OF_RESOURCES A
| add_outside i k r : hit A i ptr k r -> k + r.1 < ptr + n -> add_spec A ptr n p UMF_RESULT_ERROR_INVALID_ARGUMENT A.

Lemma add_spec_wf A ptr n p r A' : levels_wf A -> range_ok ptr n -> add_spec A ptr n p r A' -> levels_wf A'.
Proof. intros Hwf Hr [d Hd Hlt Hf| | |]; [|done..]. by apply add_wf. Qed.

(** What a call of the tracker did: the new ranges [A'] are related by [R]. *)
Definition tracks {R} t s X m hT (N : Z) (P : R -> list level -> Prop) (r : R) (s' : tstate H B) : Prop :=
  exists A' X' m', P r A' /\ tinv s' hT t A' X' m' N /\ kept t s X m s' X' m'.

Lemma wp_umfMemoryTrackerAdd s hT t A X m N p ptr n :
  levels_wf A -> tinv s hT t A X m N -> N + 20 + DELETED_LIFE < two64 -> add_obeys A ptr n ->
  wp (umfMemoryTrackerAdd hT p ptr n) (tracks t s X m hT (N + 20) (add_spec A ptr n p)) s.
Proof.
  intros Hwf HI HN [Hrk Hob]. pose proof Hrk as (Hp & Hn & Hu). unfold umfMemoryTrackerAdd. wp_step; [by rewrite (proj2 (Z.eqb_neq ptr 0)) by lia|].
  apply wp_bind. eapply wp_mono.
  { apply (wp_add_loop MAX_LEVELS_OF_ALLOC_SEGMENT_MAP s hT t A X m N ptr n walk0); try done; [unfold MAX_LEVELS_OF_ALLOC_SEGMENT_MAP; lia|..].
    - unfold MAX_LEVELS_OF_ALLOC_SEGMENT_MAP. simpl. lia.
    - simpl. intros i Hi. lia.
    - simpl. intros i k r Hi. lia. }
  assert (forall s' X' m', tinv s' hT t A X' m' (N + 2 * Z.of_nat MAX_LEVELS_OF_ALLOC_SEGMENT_MAP) -> tinv s' hT t A X' m' (N + 20)) as Hup.
  { intros s' X' m'. apply tinv_mono. unfold MAX_LEVELS_OF_ALLOC_SEGMENT_MAP. lia. }
  intros r s1 [s' X' HI' Hm Hd|s' X' i k q HI' Hm Hh Hex|s' X' l HI' Hm Hd Hlt Hpar Hin Href].
  - wp_step. exists A, X', m. split_and!; [by apply add_no_level|by apply Hup|by apply kept_moved].
  - wp_step. exists A, X', m. split_and!; [by eapply add_outside|by apply Hup|by apply kept_moved].
  - assert (fits A ptr n) as Hfit.
    { intros i k q E. destruct (Hob i k q E) as [Hle|Hle]; [|by right; left]. destruct (Z.le_gt_cases (k + q.1) ptr) as [|Hgt]; [by left|].
      right. right. split; [done|]. assert (hit A i ptr k q) as Hh by (split; [done|lia]). apply (Hin i); [|done].
      destruct (le_lt_dec (lv_level l) i) as [Hge|]; [|done]. exfalso. by apply (depth_above A ptr (lv_level l) i k q). }
    set (NN := N + 2 * Z.of_nat MAX_LEVELS_OF_ALLOC_SEGMENT_MAP) in *. assert (NN = N + 16) as ENN by (unfold NN, MAX_LEVELS_OF_ALLOC_SEGMENT_MAP; lia).
    apply wp_bind. apply wp_mono with (Q := fun _ s2 => exists X2, tinv s2 hT t A X2 m (NN + 1) /\ moved t s X s2 X2 /\
      parent_ok (t_infos s2) A X2 t ptr l).
    { assert (tinv s' hT t A X' m (NN + 1)) as HI1 by (apply (tinv_mono _ _ _ _ _ _ NN); [lia|done]).
      destruct Href as [E|[E|Hb]].
      - rewrite E. rewrite bool_decide_false by (by intros []). simpl. wp_step. by exists X'.
      - rewrite E. rewrite (bool_decide_true (lv_pref l = lv_pref l)), andb_false_r by done. wp_step. by exists X'.
      - pose proof (beside_ne _ _ _ _ _ _ _ _ _ HI' Hpar Hb) as Hne. destruct Hb as (k & a & v & q & info & Hs & Hq & Er).
        rewrite Er in *. rewrite (bool_decide_false (Some a = lv_pref l)) by done. simpl.
        apply (wp_release_segment s' hT t A X' m NN (lv_level l) k a v q info); [done|lia|done|done|].
        intros s2 X2 HI2 Hm2 Ho _. exists X2. split; [done|]. split; [by eapply moved_trans|]. rewrite (moved_infos _ _ _ _ _ Hm2).
        by apply (parent_frame _ _ X'). }
    intros [] s2 (X2 & HI2 & Hm2 & Hpar2). eapply wp_mono.
    { apply (wp_add_at_level s2 hT t A X2 m (NN + 1) l p ptr n); try done; [lia|lia|unfold is_u64; lia| |].
      - by apply depth_fresh.
      - pose proof (children_new A (lv_level l) ptr n p Hwf Hd) as Hc. rewrite children_add in Hc.
        + rewrite decide_False in Hc by lia. rewrite Z.add_0_r in Hc. apply Hc; [by rewrite (lw_len _ Hwf)|done|done].
        + by rewrite (lw_len _ Hwf).
        + by apply depth_fresh. }
    intros r3 s3 [s4 X4 m4 HI4 Hk4|s4 X4 HI4 Hk4].
    + exists (add_range A (lv_level l) ptr n p), X4, m4. split_and!; [by apply add_success|apply (tinv_mono _ _ _ _ _ _ (NN + 1 + 2)); [lia|done]|].
      eapply tracker_kept_trans; [by apply kept_moved|done].
    + exists A, X4, m. split_and!; [by apply add_no_memory|apply (tinv_mono _ _ _ _ _ _ (NN + 1 + 2)); [lia|done]|].
      eapply tracker_kept_trans; [by apply kept_moved|done].
Qed.
End Add.
