(* ===== verification/TrackerRemove.v ===== *)
(** * Queries of the tracker and the removal of a range

    [umfMemoryTrackerGetAllocInfo], [umfMemoryTrackerGetPool] and
    [get_most_nested_alloc_segment] find the innermost range.

    [umfMemoryTrackerRemove] takes out the innermost range. *)

From S2P Require Import Prelude Utils HostMem CritQuery CritDelete CritSpec CritInsert CritRemove CritInv CritWorld.
From stdpp Require Import list strings.
From S2P Require Import Critnib Tracker TrackerInv TrackerOps.
#[local] Open Scope Z_scope.

(** The range at [k] is the innermost one that contains [ptr]. *)
Definition innermost (A : list level) (ptr k : Z) (r : Z * Z) : Prop :=
  exists i, depth A ptr (S i) /\ hit A i ptr k r.

Lemma innermost_unique A ptr k1 k2 r1 r2 : levels_wf A -> innermost A ptr k1 r1 -> innermost A ptr k2 r2 -> k1 = k2 /\ r1 = r2.
Proof.
  intros Hw (i & Hd & Hh) (j & Hd' & Hh'). pose proof (depth_unique _ _ _ _ Hd Hd') as [= <-]. by apply (hit_unique A i ptr).
Qed.

Lemma depth_0_hit A ptr i k r : levels_wf A -> depth A ptr 0 -> ~ hit A i ptr k r.
Proof. intros Hw Hd. apply (depth_above A ptr 0); [done..|lia]. Qed.

Section Find.
Context `{HostAllocLaws H} `{ChunkPoolLaws B}.
Implicit Types (s : tstate H B) (X : gmap Z (leaf_cb * cview)) (V : cview) (t : umf_memory_tracker_t) (A : list level).

(** ** The loop of [umfMemoryTrackerGetAllocInfo] *)

Inductive info_end A t m ptr (s : tstate H B) X hT (N : Z) : walk * nat -> tstate H B -> Prop :=
| info_none s' X' l rl : tinv s' hT t A X' m N -> moved t s X s' X' -> depth A ptr 0 -> lv_parent_value l = 0 ->
    lv_ref l = None \/ beside_ok (t_infos s') A X' t l -> info_end A t m ptr s X hT N (l, rl) s'
| info_some s' X' l j k a v r info : tinv s' hT t A X' m N -> moved t s X s' X' -> depth A ptr (S j) ->
    seg (t_infos s') A X' t j k a v r info -> 0 < r -> hit A j ptr k (ti_size info, ti_pool info) ->
    lv_pref l = Some a -> lv_parent_value l = v -> lv_parent_key l = k -> info_end A t m ptr s X hT N (l, j) s'.

Lemma info_end_moved A t m ptr s X s0 X0 hT N N' r s' : moved t s X s0 X0 -> N <= N' ->
  info_end A t m ptr s0 X0 hT N r s' -> info_end A t m ptr s X hT N' r s'.
Proof.
  intros Hm Hle [s1 X1 l rl HI Hm1 Hd Hp Hr|s1 X1 l j k a v q info HI Hm1 Hd Hs Hq Hh E1 E2 E3].
  - apply (info_none _ _ _ _ _ _ _ _ s1 X1); try done; [by apply (tinv_mono _ _ _ _ _ _ N)|by eapply moved_trans].
  - eapply (info_some _ _ _ _ _ _ _ _ s1 X1); try done; [by apply (tinv_mono _ _ _ _ _ _ N)|by eapply moved_trans].
Qed.

Lemma info_end_parent A t m ptr s X s' X' hT N l l' rl :
  tinv s' hT t A X' m N -> moved t s X s' X' -> depth A ptr (lv_level l) -> parent_ok (t_infos s') A X' t ptr l ->
  lv_level l' = lv_level l -> lv_pref l' = lv_pref l -> lv_parent_value l' = lv_parent_value l -> lv_parent_key l' = lv_parent_key l ->
  lv_ref l' = None \/ beside_ok (t_infos s') A X' t l' -> rl = (lv_level l - 1)%nat ->
  info_end A t m ptr s X hT N (l', rl) s'.
Proof.
  intros HI Hm Hd Hp El E1 E2 E3 Hr ->. unfold parent_ok in Hp. destruct (lv_level l) as [|j].
  - destruct Hp as [_ Hp]. apply (info_none _ _ _ _ _ _ _ _ s' X'); try done. congruence.
  - destruct Hp as (k & a & v & r & info & Hs & Hr' & Hh & Ea & Ev & Ek). replace (S j - 1)%nat with j by lia.
    apply (info_some _ _ _ _ _ _ _ _ s' X' l' j k a v r info); try done; congruence.
Qed.

Lemma wp_info_loop fuel s hT t A X m N ptr l rl :
  levels_wf A -> tinv s hT t A X m N -> N + 2 * Z.of_nat fuel + DELETED_LIFE < two64 -> is_u64 ptr ->
  (fuel + lv_level l = MAX_LEVELS_OF_ALLOC_SEGMENT_MAP)%nat -> (lv_level l < MAX_LEVELS_OF_ALLOC_SEGMENT_MAP)%nat ->
  rl = (lv_level l - 1)%nat ->
  parent_ok (t_infos s) A X t ptr l -> (forall i, (i < lv_level l)%nat -> exists k r, hit A i ptr k r) ->
  wp (info_loop fuel hT ptr l rl) (fun r s' => info_end A t m ptr s X hT (N + 2 * Z.of_nat fuel) r s') s.
Proof.
  intros Hwf. revert s X N l rl. induction fuel as [|fuel IH]; intros s X N l rl HI HN Hpu Hfl Hlt Erl Hp Hlow; [lia|]. cbn [info_loop].
  wp_step; [by apply bool_decide_eq_true|]. apply wp_bind, (wp_find_le_segment s hT t A X m N (lv_level l)); [done|lia|done|done|..].
  - intros s1 X1 HI1 Hm1 Ho Hno. wp_step. apply (info_end_parent _ _ _ _ _ _ s1 X1 _ _ l); try done.
    + apply (tinv_mono _ _ _ _ _ _ (N + 1)); [lia|exact HI1].
    + split; [done|]. intros k r [E Hk]. specialize (Hno _ _ E). lia.
    + rewrite (moved_infos _ _ _ _ _ Hm1). by apply (parent_frame _ _ X).
    + by left.
  - intros s1 X1 k a v r info HI1 Hm1 Ho Hs Hr Hle Hbest.
    destruct (seg_range _ _ _ _ _ _ _ _ _ _ Hwf Hs) as (Hk0 & Hsz & Eadd & Hku).
    rewrite (proj2 (Z.eqb_neq v 0)) by apply (sg_value _ _ _ _ _ _ _ _ _ _ Hs).
    apply wp_bind, (wp_load_info s1 v info); [apply (sg_info _ _ _ _ _ _ _ _ _ _ Hs)|]. cbv zeta. rewrite Eadd.
    pose proof (sg_lvl _ _ _ _ _ _ _ _ _ _ Hs) as Hlv.
    assert (parent_ok (t_infos s1) A X1 t ptr l) as Hp1 by (rewrite (moved_infos _ _ _ _ _ Hm1); by apply (parent_frame _ _ X)).
    destruct (Z.ltb_spec ptr (k + ti_size info)) as [Hh|Hmiss].
    2: { wp_step. apply (info_end_parent _ _ _ _ _ _ s1 X1 _ _ l); try done.
      - apply (tinv_mono _ _ _ _ _ _ (N + 1)); [lia|exact HI1].
      - split; [done|]. by apply (miss_of_best A _ ptr k (ti_size info, ti_pool info)).
      - right. by exists k, a, v, r, info. }
    assert (hit A (lv_level l) ptr k (ti_size info, ti_pool info)) as Hhit by (split; [done|simpl; lia]).
    apply wp_bind, (wp_release_parent s1 hT t A X1 m (N + 1) ptr l); [done|lia|done|]. intros s2 X2 HI2 Hm2 Ev2.
    assert (seg (t_infos s2) A X2 t (lv_level l) k a v r info) as Hs2 by (rewrite (moved_infos _ _ _ _ _ Hm2); by eapply seg_frame).
    assert (moved t s X s2 X2) as Hm12 by (by eapply moved_trans).
    assert (children A (lv_level l) k (ti_size info) = 0 \/ lv_level l = (MAX_LEVELS_OF_ALLOC_SEGMENT_MAP - 1)%nat ->
      depth A ptr (S (lv_level l))) as Hdep.
    { intros Hc. apply (depth_S A ptr _ k _ Hhit Hlow). destruct Hc as [Hc|E7]; [by apply (childless A _ ptr k _ Hwf Hhit)|].
      intros k' r' [E' _]. rewrite lvl_out, lookup_empty in E'; [done|]. rewrite (lw_len _ Hwf), E7. unfold MAX_LEVELS_OF_ALLOC_SEGMENT_MAP. lia. }
    rewrite (sg_children _ _ _ _ _ _ _ _ _ _ Hs).
    destruct ((children A (lv_level l) k (ti_size info) =? 0) || bool_decide (lv_level l = (MAX_LEVELS_OF_ALLOC_SEGMENT_MAP - 1)%nat)) eqn:Ee.
    + wp_step. apply (info_some _ _ _ _ _ _ _ _ s2 X2 _ (lv_level l) k a v r info); try done.
      * apply (tinv_mono _ _ _ _ _ _ (N + 1 + 1)); [lia|done].
      * apply Hdep. apply orb_true_iff in Ee as [Ee|Ee]; [left; by apply Z.eqb_eq|right; by apply bool_decide_eq_true in Ee].
    + apply orb_false_iff in Ee as [_ E7%bool_decide_eq_false].
      eapply wp_mono; [apply (IH s2 X2 (N + 1 + 1) (mk_walk (S (lv_level l)) k v (ti_size info) (children A (lv_level l) k (ti_size info)) k v (Some a) (Some a)) (lv_level l) HI2); try done; [lia|simpl; lia|simpl; lia|simpl; lia|..]|].
      * by exists k, a, v, r, info.
      * intros i Hi. simpl in Hi. destruct (decide (i = lv_level l)) as [->|]; [eauto|]. apply Hlow. lia.
      * intros x s3 Hend. eapply info_end_moved; [|..|exact Hend]; [done|lia].
Qed.

(** ** [umfMemoryTrackerGetAllocInfo] and [umfMemoryTrackerGetPool] *)

Inductive info_spec A (ptr : Z) (old : umf_alloc_info_t) : umf_result_t * umf_alloc_info_t -> list level -> Prop :=
| info_missing : (ptr = 0 \/ forall i k r, ~ hit A i ptr k r) -> info_spec A ptr old (UMF_RESULT_ERROR_INVALID_ARGUMENT, old) A
| info_found k r : innermost A ptr k r -> info_spec A ptr old (UMF_RESULT_SUCCESS, mk_alloc_info k r.1 r.2) A.

Lemma wp_umfMemoryTrackerGetAllocInfo s t A X m N ptr old :
  levels_wf A -> tinv s (TRACKER s) t A X m N -> TRACKER s <> 0 -> N + 20 + DELETED_LIFE < two64 -> is_u64 ptr ->
  wp (umfMemoryTrackerGetAllocInfo ptr old) (tracks t s X m (TRACKER s) (N + 20) (info_spec A ptr old)) s.
Proof.
  intros Hwf HI HT HN Hpu. unfold umfMemoryTrackerGetAllocInfo. destruct (Z.eqb_spec ptr 0) as [->|Hp0].
  { wp_step. exists A, X, m. split_and!; [apply info_missing; by left|apply (tinv_mono _ _ _ _ _ _ N); [lia|done]|apply tracker_kept_refl]. }
  wp_step. cbv zeta. rewrite (proj2 (Z.eqb_neq (TRACKER s) 0)) by done.
  destruct (tinv_level _ _ _ _ _ _ _ 0 HI) as (c & V & Hc & Hc0 & _); [unfold MAX_LEVELS_OF_ALLOC_SEGMENT_MAP; lia|].
  apply wp_bind, (wp_segments_map s _ t 0 c); [apply HI|done|]. rewrite (proj2 (Z.eqb_neq c 0)) by done.
  apply wp_bind. eapply wp_mono.
  { apply (wp_info_loop MAX_LEVELS_OF_ALLOC_SEGMENT_MAP s (TRACKER s) t A X m N ptr walk0 0); try done; [unfold MAX_LEVELS_OF_ALLOC_SEGMENT_MAP; lia|..].
    - unfold MAX_LEVELS_OF_ALLOC_SEGMENT_MAP. simpl. lia.
    - simpl. intros i Hi. lia. }
  set (NN := N + 2 * Z.of_nat MAX_LEVELS_OF_ALLOC_SEGMENT_MAP) in *. assert (NN = N + 16) as ENN by (unfold NN, MAX_LEVELS_OF_ALLOC_SEGMENT_MAP; lia).
  intros r s1 [s' X' l rl HI' Hm Hd Hpv Href|s' X' l j k a v r0 info HI' Hm Hd Hs Hr Hh Epr Epv Epk].
  - rewrite Hpv. cbn [Z.eqb]. assert (forall i k r, ~ hit A i ptr k r) as Hno by (intros i k q; by apply depth_0_hit).
    apply wp_bind. destruct Href as [->|(k & a & v & q & info & Hs & Hq & ->)]; simpl.
    + wp_step. wp_step. exists A, X', m. split_and!; [apply info_missing; by right|apply (tinv_mono _ _ _ _ _ _ NN); [lia|done]|by apply kept_moved].
    + apply (wp_release_segment s' _ t A X' m NN (lv_level l) k a v q info); [done|lia|done|done|]. intros s2 X2 HI2 Hm2 _ _. wp_step.
      exists A, X2, m. split_and!; [apply info_missing; by right|apply (tinv_mono _ _ _ _ _ _ (NN + 1)); [lia|done]|].
      apply kept_moved. by eapply moved_trans.
  - rewrite Epv, Epr, Epk. rewrite (proj2 (Z.eqb_neq v 0)) by apply (sg_value _ _ _ _ _ _ _ _ _ _ Hs).
    apply wp_bind, (wp_load_info s' v info); [apply (sg_info _ _ _ _ _ _ _ _ _ _ Hs)|]. wp_step; [done|].
    apply wp_bind, (wp_release_segment s' _ t A X' m NN j k a v r0 info); [done|lia|done|done|]. intros s2 X2 HI2 Hm2 _ _. wp_step.
    exists A, X2, m. split_and!; [apply (info_found A ptr old k (ti_size info, ti_pool info)); by exists j|apply (tinv_mono _ _ _ _ _ _ (NN + 1)); [lia|done]|].
    apply kept_moved. by eapply moved_trans.
Qed.

(** The pool of a pointer, NULL when it is in no range. *)
Inductive pool_spec A (ptr : Z) : Z -> list level -> Prop :=
| pool_missing : (ptr = 0 \/ forall i k r, ~ hit A i ptr k r) -> pool_spec A ptr 0 A
| pool_found k r : innermost A ptr k r -> pool_spec A ptr r.2 A.

Lemma wp_umfMemoryTrackerGetPool s t A X m N ptr :
  levels_wf A -> tinv s (TRACKER s) t A X m N -> TRACKER s <> 0 -> N + 20 + DELETED_LIFE < two64 -> is_u64 ptr ->
  wp (umfMemoryTrackerGetPool ptr) (tracks t s X m (TRACKER s) (N + 20) (pool_spec A ptr)) s.
Proof.
  intros Hwf HI HT HN Hpu. unfold umfMemoryTrackerGetPool. apply wp_bind.
  eapply wp_mono; [by apply (wp_umfMemoryTrackerGetAllocInfo s t A X m N ptr)|].
  intros r s' (A' & X' & m' & Hsp & HI' & Hk). destruct Hsp as [Hno|k r Hin].
  - rewrite bool_decide_false by done. simpl. wp_step. exists A, X', m'. split_and!; [by apply pool_missing|done|done].
  - rewrite bool_decide_true by done. simpl. wp_step. exists A, X', m'. split_and!; [by eapply pool_found|done|done].
Qed.
End Find.

Section Remove.
Context `{HostAllocLaws H} `{ChunkPoolLaws B}.
Implicit Types (s : tstate H B) (X : gmap Z (leaf_cb * cview)) (V : cview) (t : umf_memory_tracker_t) (A : list level).

(** ** [get_most_nested_alloc_segment] *)

(** A childless innermost range that starts at [ptr]. *)
Definition leaf_at A (ptr : Z) (d : nat) (r : Z * Z) : Prop :=
  depth A ptr (S d) /\ lvl A d !! ptr = Some r /\ children A d ptr r.1 = 0.

(** What the loop knows of the level below. *)
Definition below_ok A (ptr : Z) (l : walk) : Prop :=
  match lv_level l with
  | O => lv_rvalue l = 0
  | S j => 0 < lv_children l /\ lv_rvalue l <> 0 /\ exists r, hit A j ptr (lv_rkey l) r /\ lv_children l = children A j (lv_rkey l) r.1
  end.

Definition nested_ok (parent : bool) (infos : gmap Z tracker_alloc_info_t) A X t (ptr : Z) (l : walk) : Prop :=
  (if parent then parent_ok infos A X t ptr l else lv_pref l = None) /\ below_ok A ptr l.

Lemma no_leaf A ptr l : levels_wf A -> depth A ptr (lv_level l) -> below_ok A ptr l -> forall d r, ~ leaf_at A ptr d r.
Proof.
  intros Hwf Hd Hprev d r (Hd' & E & Hch). pose proof (depth_unique _ _ _ _ Hd Hd') as El. unfold below_ok in Hprev. rewrite El in Hprev.
  destruct Hprev as (Hpos & _ & r' & Hh & Ech). pose proof (lw_range _ Hwf _ _ _ E).
  assert (hit A d ptr ptr r) as Hh0 by (split; [done|lia]). destruct (hit_unique A d ptr _ _ _ _ Hwf Hh Hh0) as [Ek <-]. rewrite Ek in Ech. lia.
Qed.

Inductive nested_end (parent : bool) A t m ptr (s : tstate H B) X hT (N : Z) : walk -> tstate H B -> Prop :=
| nested_none s' X' l : tinv s' hT t A X' m N -> moved t s X s' X' -> depth A ptr (lv_level l) -> lv_ref l = None ->
    nested_ok parent (t_infos s') A X' t ptr l -> nested_end parent A t m ptr s X hT N l s'
| nested_miss s' X' l : tinv s' hT t A X' m N -> moved t s X s' X' -> depth A ptr (lv_level l) -> lv_rkey l <> ptr ->
    (forall d r, ~ leaf_at A ptr d r) ->
    nested_end parent A t m ptr s X hT N l s'
| nested_hit s' X' l k a v r info : tinv s' hT t A X' m N -> moved t s X s' X' -> depth A ptr (S (lv_level l)) ->
    (lv_level l < MAX_LEVELS_OF_ALLOC_SEGMENT_MAP)%nat ->
    seg (t_infos s') A X' t (lv_level l) k a v r info -> 0 < r -> hit A (lv_level l) ptr k (ti_size info, ti_pool info) ->
    n_children info = 0 -> lv_children l = 0 -> lv_rkey l = k -> lv_rvalue l = v -> lv_ref l = Some a ->
    (if parent then parent_ok (t_infos s') A X' t ptr l else lv_pref l = None) ->
    nested_end parent A t m ptr s X hT N l s'.

Lemma nested_end_moved parent A t m ptr s X s0 X0 hT N N' r s' : moved t s X s0 X0 -> N <= N' ->
  nested_end parent A t m ptr s0 X0 hT N r s' -> nested_end parent A t m ptr s X hT N' r s'.
Proof.
  intros Hm Hle [s1 X1 l HI Hm1 Hd Hr Hok|s1 X1 l HI Hm1 Hd Hne Hno|s1 X1 l k a v q info HI Hm1 Hd Hlt Hs Hq Hh Hc Elc Ek Ev Er Hp].
  - apply (nested_none _ _ _ _ _ _ _ _ _ s1 X1); try done; [by apply (tinv_mono _ _ _ _ _ _ N)|by eapply moved_trans].
  - apply (nested_miss _ _ _ _ _ _ _ _ _ s1 X1); try done; [by apply (tinv_mono _ _ _ _ _ _ N)|by eapply moved_trans].
  - apply (nested_hit _ _ _ _ _ _ _ _ _ s1 X1 l k a v q info); try done; [by apply (tinv_mono _ _ _ _ _ _ N)|by eapply moved_trans].
Qed.

Lemma nested_frame (parent : bool) infos A X X' t ptr l : only_level t (lv_level l) X X' ->
  (if parent then parent_ok infos A X t ptr l else lv_pref l = None) ->
  (if parent then parent_ok infos A X' t ptr l else lv_pref l = None).
Proof. destruct parent; [|done]. apply parent_frame. Qed.

Lemma wp_nested_loop fuel parent s hT t A X m N ptr l :
  levels_wf A -> tinv s hT t A X m N -> N + 2 * Z.of_nat fuel + DELETED_LIFE < two64 -> is_u64 ptr ->
  (fuel + lv_level l = MAX_LEVELS_OF_ALLOC_SEGMENT_MAP)%nat -> (lv_level l < MAX_LEVELS_OF_ALLOC_SEGMENT_MAP)%nat ->
  nested_ok parent (t_infos s) A X t ptr l -> (forall i, (i < lv_level l)%nat -> exists k r, hit A i ptr k r) ->
  wp (nested_loop fuel hT ptr parent l) (fun r s' => nested_end parent A t m ptr s X hT (N + 2 * Z.of_nat fuel) r s') s.
Proof.
  intros Hwf. revert s X N l. induction fuel as [|fuel IH]; intros s X N l HI HN Hpu Hfl Hlt [Hp Hprev] Hlow; [lia|]. cbn [nested_loop].
  wp_step; [by apply bool_decide_eq_true|]. apply wp_bind, (wp_find_le_segment s hT t A X m N (lv_level l)); [done|lia|done|done|..].
  - intros s1 X1 HI1 Hm1 Ho Hno. wp_step. apply (nested_none _ _ _ _ _ _ _ _ _ s1 X1); simpl; try done.
    + apply (tinv_mono _ _ _ _ _ _ (N + 1)); [lia|exact HI1].
    + split; [done|]. intros k r [E Hk]. specialize (Hno _ _ E). lia.
    + pose proof (nested_frame parent _ A X X1 t ptr l Ho Hp) as Hp1. rewrite (moved_infos _ _ _ _ _ Hm1). by split; [destruct parent|].
  - intros s1 X1 k a v r info HI1 Hm1 Ho Hs Hr Hle Hbest.
    destruct (seg_range _ _ _ _ _ _ _ _ _ _ Hwf Hs) as (Hk0 & Hsz & Eadd & Hku).
    rewrite (proj2 (Z.eqb_neq v 0)) by apply (sg_value _ _ _ _ _ _ _ _ _ _ Hs).
    apply wp_bind, (wp_load_info s1 v info); [apply (sg_info _ _ _ _ _ _ _ _ _ _ Hs)|]. cbv zeta. rewrite Eadd.
    pose proof (sg_lvl _ _ _ _ _ _ _ _ _ _ Hs) as Hlv. pose proof (sg_children _ _ _ _ _ _ _ _ _ _ Hs) as Hcn.
    pose proof (nested_frame parent _ A X X1 t ptr l Ho Hp) as Hp1. rewrite <- (moved_infos _ _ _ _ _ Hm1) in Hp1.
    destruct (Z.ltb_spec ptr (k + ti_size info)) as [Hh|Hmiss].
    2: { simpl. wp_step. apply (nested_miss _ _ _ _ _ _ _ _ _ s1 X1); simpl; try done.
      - apply (tinv_mono _ _ _ _ _ _ (N + 1)); [lia|exact HI1].
      - split; [done|]. by apply (miss_of_best A _ ptr k (ti_size info, ti_pool info)).
      - lia.
      - apply (no_leaf A ptr l Hwf); [|done]. split; [done|]. by apply (miss_of_best A _ ptr k (ti_size info, ti_pool info)). }
    assert (hit A (lv_level l) ptr k (ti_size info, ti_pool info)) as Hhit by (split; [done|simpl; lia]).
    destruct (Z.eqb_spec (n_children info) 0) as [Hc|Hc].
    { simpl. wp_step. apply (nested_hit _ _ _ _ _ _ _ _ _ s1 X1 _ k a v r info); try done.
      - apply (tinv_mono _ _ _ _ _ _ (N + 1)); [lia|exact HI1].
      - simpl. apply (depth_S A ptr _ k _ Hhit Hlow). apply (childless A _ ptr k _ Hwf Hhit). simpl. lia. }
    simpl andb. cbv iota. pose proof (children_bound A (lv_level l) k (ti_size info) ltac:(lia)) as Hcb.
    rewrite bool_decide_false.
    2: { intros E7. apply Hc. rewrite Hcn. unfold children. rewrite lvl_out; [done|]. rewrite (lw_len _ Hwf), E7. unfold MAX_LEVELS_OF_ALLOC_SEGMENT_MAP. lia. }
    assert (S (lv_level l) < MAX_LEVELS_OF_ALLOC_SEGMENT_MAP)%nat as Hlt'.
    { destruct (decide (S (lv_level l) = MAX_LEVELS_OF_ALLOC_SEGMENT_MAP)) as [E|]; [|lia]. exfalso. apply Hc. rewrite Hcn. unfold children.
      rewrite lvl_out; [done|]. rewrite (lw_len _ Hwf), E. done. }
    assert (forall i, (i < S (lv_level l))%nat -> exists k r, hit A i ptr k r) as Hlow'.
    { intros i Hi. destruct (decide (i = lv_level l)) as [->|]; [eauto|]. apply Hlow. lia. }
    destruct parent.
    + apply wp_bind. apply wp_mono with (Q := fun _ s2 => exists X2, tinv s2 hT t A X2 m (N + 1 + 1) /\ moved t s1 X1 s2 X2 /\ vw X2 t (lv_level l) = vw X1 t (lv_level l)).
      { pose proof (wp_release_parent s1 hT t A X1 m (N + 1) ptr l (fun _ s2 => exists X2, tinv s2 hT t A X2 m (N + 1 + 1) /\ moved t s1 X1 s2 X2 /\ vw X2 t (lv_level l) = vw X1 t (lv_level l)) HI1 ltac:(lia) Hp1) as Hw.
        assert (forall s' X', tinv s' hT t A X' m (N + 1 + 1) -> moved t s1 X1 s' X' -> vw X' t (lv_level l) = vw X1 t (lv_level l) ->
          exists X2, tinv s' hT t A X2 m (N + 1 + 1) /\ moved t s1 X1 s' X2 /\ vw X2 t (lv_level l) = vw X1 t (lv_level l)) as Hex by eauto.
        specialize (Hw Hex). destruct (lv_pref l) as [a0|]; [|done].
        replace (bool_decide (2 <= S (lv_level l))%nat) with (bool_decide (1 <= lv_level l)%nat); [done|].
        apply bool_decide_ext. lia. }
      intros [] s2 (X2 & HI2 & Hm2 & Ev2).
      assert (seg (t_infos s2) A X2 t (lv_level l) k a v r info) as Hs2 by (rewrite (moved_infos _ _ _ _ _ Hm2); by eapply seg_frame).
      eapply wp_mono; [apply (IH s2 X2 (N + 1 + 1) (mk_walk (S (lv_level l)) k v (ti_size info) (n_children info) k v (Some a) (Some a)) HI2); try done; [lia|simpl; lia|]|].
      * split; unfold below_ok; simpl; [by exists k, a, v, r, info|]. split_and!; [lia|apply Hs2|eauto].
      * intros x s3 Hend. eapply nested_end_moved; [|..|exact Hend]; [by eapply moved_trans|lia].
    + apply wp_bind. apply (wp_release_segment s1 hT t A X1 m (N + 1) (lv_level l) k a v r info); [done|lia|done|done|].
      intros s2 X2 HI2 Hm2 Ho2 _.
      eapply wp_mono; [apply (IH s2 X2 (N + 1 + 1) (mk_walk (S (lv_level l)) k v (ti_size info) (n_children info) (lv_parent_key l) (lv_parent_value l) None (lv_pref l)) HI2); try done; [lia|simpl; lia|]|].
      * split; unfold below_ok; simpl; [done|]. split_and!; [lia|apply Hs|eauto].
      * intros x s3 Hend. eapply nested_end_moved; [|..|exact Hend]; [by eapply moved_trans|lia].
Qed.

Inductive nested_found A t m ptr (s : tstate H B) X hT (N : Z) (parent : bool) : option walk -> tstate H B -> Prop :=
| nf_none s' X' : tinv s' hT t A X' m N -> moved t s X s' X' -> (forall d r, ~ leaf_at A ptr d r) ->
    nested_found A t m ptr s X hT N parent None s'
| nf_some s' X' l a v r info : tinv s' hT t A X' m N -> moved t s X s' X' -> (lv_level l < MAX_LEVELS_OF_ALLOC_SEGMENT_MAP)%nat ->
    leaf_at A ptr (lv_level l) (ti_size info, ti_pool info) ->
    seg (t_infos s') A X' t (lv_level l) ptr a v r info -> 0 < r -> lv_ref l = Some a -> lv_rvalue l = v ->
    (if parent then parent_ok (t_infos s') A X' t ptr l else lv_pref l = None) ->
    nested_found A t m ptr s X hT N parent (Some l) s'.

Lemma wp_nested_start parent s hT t A X m N ptr :
  levels_wf A -> tinv s hT t A X m N -> N + 16 + DELETED_LIFE < two64 -> is_u64 ptr ->
  wp (nested_loop MAX_LEVELS_OF_ALLOC_SEGMENT_MAP hT ptr parent walk0) (fun r s' => nested_end parent A t m ptr s X hT (N + 16) r s') s.
Proof.
  intros Hwf HI HN Hpu. eapply wp_mono.
  { apply (wp_nested_loop MAX_LEVELS_OF_ALLOC_SEGMENT_MAP parent s hT t A X m N ptr walk0); try done.
    - unfold MAX_LEVELS_OF_ALLOC_SEGMENT_MAP. simpl. lia.
    - split; [by destruct parent|done].
    - simpl. intros i Hi. lia. }
  intros r s'. replace (N + 2 * Z.of_nat MAX_LEVELS_OF_ALLOC_SEGMENT_MAP) with (N + 16) by (unfold MAX_LEVELS_OF_ALLOC_SEGMENT_MAP; lia). done.
Qed.

(** With [no_children]. *)
Lemma wp_get_most_nested parent s hT t A X m N ptr :
  levels_wf A -> tinv s hT t A X m N -> N + 16 + DELETED_LIFE < two64 -> is_u64 ptr -> ptr <> 0 ->
  wp (get_most_nested_alloc_segment hT ptr parent true) (nested_found A t m ptr s X hT (N + 16) parent) s.
Proof.
  intros Hwf HI HN Hpu Hp0. unfold get_most_nested_alloc_segment. wp_step; [by rewrite (proj2 (Z.eqb_neq ptr 0))|].
  apply wp_bind. eapply wp_mono; [by apply (wp_nested_start parent s hT t A X m N ptr)|].
  intros l s1 [s' X' l' HI' Hm Hd Hr [_ Hprev]|s' X' l' HI' Hm Hd Hne Hno|s' X' l' k a v q info HI' Hm Hd Hlt Hs Hq Hh Hc Elc Ek Ev Er Hpar].
  - pose proof (no_leaf A ptr l' Hwf Hd Hprev) as Hno. unfold below_ok in Hprev.
    assert ((lv_rvalue l' =? 0) || negb (lv_rkey l' =? ptr) = true \/ (0 < lv_children l')) as Hcase.
    { destruct (lv_level l'); [left; by rewrite Hprev|right; apply Hprev]. }
    destruct ((lv_rvalue l' =? 0) || negb (lv_rkey l' =? ptr)); [wp_step; by apply (nf_none _ _ _ _ _ _ _ _ _ s' X')|].
    destruct Hcase as [?|Hpos]; [done|]. rewrite Z.gtb_ltb, (proj2 (Z.ltb_lt _ _)) by done. simpl. wp_step. by apply (nf_none _ _ _ _ _ _ _ _ _ s' X').
  - rewrite (proj2 (Z.eqb_neq (lv_rkey l') ptr)), orb_true_r by done. wp_step. by apply (nf_none _ _ _ _ _ _ _ _ _ s' X').
  - destruct (decide (k = ptr)) as [->|Hne].
    + rewrite Ev, Ek, Elc. rewrite (proj2 (Z.eqb_neq v 0)) by apply Hs. rewrite Z.eqb_refl. simpl.
      apply wp_bind, (wp_load_info s' v info); [apply Hs|]. rewrite Hc. wp_step; [done|]. wp_step; [by rewrite Er; apply bool_decide_eq_true|].
      wp_step. apply (nf_some _ _ _ _ _ _ _ _ _ s' X' l' a v q info); try done.
      split_and!; [done|apply Hs|]. simpl. rewrite <- (sg_children _ _ _ _ _ _ _ _ _ _ Hs). done.
    + rewrite Ek, (proj2 (Z.eqb_neq k ptr)), orb_true_r by done. wp_step. apply (nf_none _ _ _ _ _ _ _ _ _ s' X'); [done..|].
      intros d r (Hd' & E & _). pose proof (depth_unique _ _ _ _ Hd Hd') as [= <-].
      pose proof (lw_range _ Hwf _ _ _ E). assert (hit A (lv_level l') ptr ptr r) as Hh0 by (split; [done|lia]).
      by destruct (hit_unique A _ ptr _ _ _ _ Hwf Hh Hh0) as [Ek' _].
Qed.

(** ** The leaf leaves the map *)

(** The view after [critnib_remove] and the release of its reference. *)
Definition cv_drop V (k a v r : Z) : cview :=
  if decide (r = 0) then CView (delete k (cv_keys V)) (delete a (cv_elems V)) (cv_freed V ++ [v]) (cv_cb V)
  else CView (delete k (cv_keys V)) (<[a := (v, r)]> (cv_elems V)) (cv_freed V) (cv_cb V).

Lemma cv_drop_eq V k a v r : view_wf V -> cv_cb V = true -> cv_keys V !! k = Some a ->
  cv_release (cv_remove V k a v r) a v (r + 1) = cv_drop V k a v r.
Proof.
  intros Hw Hcb Hk. unfold cv_release, cv_drop, cv_remove. rewrite Hcb. simpl.
  assert (~ map_Exists (fun _ b : Z => b = a) (delete k (cv_keys V))) as Hn.
  { intros (x & b & Hx & ->). apply lookup_delete_Some in Hx as [Hne Hx]. apply Hne. by apply (vw_inj _ Hw k x a). }
  destruct (decide (r = 0)) as [->|Hr].
  - rewrite decide_True by done. by rewrite delete_insert_eq.
  - rewrite decide_False by lia. rewrite insert_insert_eq. by replace (r + 1 - 1) with r by lia.
Qed.

Lemma cv_drop_elems V k a v r b : cv_elems V !! a = Some (v, r) ->
  cv_elems (cv_drop V k a v r) !! b = if decide (b = a /\ r = 0) then None else cv_elems V !! b.
Proof.
  intros Ha. unfold cv_drop. destruct (decide (r = 0)) as [Hr|Hr]; simpl.
  - destruct (decide (b = a)) as [->|Hne]; [by rewrite lookup_delete_eq, decide_True|]. rewrite decide_False by tauto. by apply lookup_delete_ne.
  - rewrite decide_False by tauto. rewrite insert_id by done. done.
Qed.

Lemma cv_drop_keys V k a v r : cv_keys (cv_drop V k a v r) = delete k (cv_keys V).
Proof. unfold cv_drop. by case_decide. Qed.

Lemma tinv_removed s s' hT t A X m m' N N' d c V ptr n p v a r pv :
  tinv s hT t A X m N -> alloc_segments_map t !! d = Some c -> vw X t d = Some V -> view_wf V -> (d < length A)%nat ->
  cv_keys V !! ptr = Some a -> cv_elems V !! a = Some (v, r) -> lvl A d !! ptr = Some (n, p) -> 
  parent_of (t_infos s) A X t d ptr pv ->
  let X' := <[c := (FreeLeaf (alloc_info_allocator t), cv_drop V ptr a v r)]> X in
  t_trackers s' !! hT = Some t -> crits_inv s' X' N' -> cp_rep (t_pools s') m' ->
  m' !! alloc_info_allocator t = Some (dom (t_infos s')) ->
  (forall v0, t_infos s' !! v0 = if decide (v0 = v /\ r = 0) then None else bump (-1) pv v0 <$> t_infos s !! v0) ->
  tinv s' hT t (del_range A d ptr) X' m' N'.
Proof.
  intros HI Hc HV Hwf Hd Hk0 He0 Hl0 Hpv X' Htr' HC' Hrep' Hm' Hold.
  pose proof (fun j => vw_set s hT t A X m N d c (FreeLeaf (alloc_info_allocator t)) (cv_drop V ptr a v r) j HI Hc) as Hvw.
  fold X' in Hvw. pose proof (cv_drop_elems V ptr a v r) as Hde. pose proof (cv_drop_keys V ptr a v r) as Hdk.
  assert (lvl (del_range A d ptr) d = delete ptr (lvl A d)) as Ed by (by apply lvl_set_eq).
  assert (forall i, i <> d -> lvl (del_range A d ptr) i = lvl A i) as Ei by (intros i Hi; by apply lvl_set_ne).
  pose proof HI as [_ Htr Hlen Hnd Hmap Hseg Hkeys Hp Hchk Hval Honce].
  assert (forall j k b w q info, seg (t_infos s) A X t j k b w q info -> ~ (j = d /\ k = ptr) ->
    seg (t_infos s') (del_range A d ptr) X' t j k b w q (bump (-1) pv w info)) as Hkeep.
  { intros j k b w q info Hs Hnot. pose proof Hs as [(W & HW & Hk & He) Hw Hw0 Hl Hcn Hf].
    destruct (bump_same (-1) pv w info) as (Es & Ep & Efr).
    assert (~ (j = d /\ b = a)) as Hnb.
    { intros [-> ->]. apply Hnot. split; [done|]. rewrite HV in HW. injection HW as <-. by apply (vw_inj _ Hwf k ptr a). }
    assert (w <> v) as Hwv.
    { intros ->. destruct (Honce j d W V b a v q r HW HV He He0) as [-> ->]. by apply Hnb. }
    split; [..| | |by rewrite Efr].
    - exists (if decide (j = d) then cv_drop V ptr a v r else W). rewrite Hvw. destruct (decide (j = d)) as [Ej|Ej]; [|split_and!; assumption]. subst j.
      rewrite HV in HW. injection HW as <-. split; [done|]. rewrite Hdk, Hde by done. rewrite lookup_delete_ne by naive_solver.
      rewrite decide_False by naive_solver. done.
    - rewrite Hold, decide_False by tauto. by rewrite Hw.
    - done.
    - rewrite Es, Ep. destruct (decide (j = d)) as [->|Hj]; [|by rewrite Ei]. rewrite Ed, lookup_delete_ne by naive_solver. done.
    - rewrite Es, children_del by (done || by rewrite Hl0). rewrite <- Hcn. pose proof (Hpv _ _ _ _ _ _ Hs) as Hiff. unfold bump.
      destruct (decide (pv = Some w)) as [E|E]; [rewrite decide_True by (by apply Hiff)|rewrite decide_False by (by rewrite <- Hiff)]; simpl; lia. }
  assert (forall j W b w q, vw X' t j = Some W -> cv_elems W !! b = Some (w, q) ->
    exists W0, vw X t j = Some W0 /\ cv_elems W0 !! b = Some (w, q) /\ ~ (w = v /\ r = 0)) as Hback.
  { intros j W b w q HW He. rewrite Hvw in HW. case_decide as Ej.
    - subst j. injection HW as <-. rewrite Hde in He by done. case_decide as Eb; [done|]. exists V. split_and!; [done|done|].
      intros [-> Hr]. apply Eb. split; [|done]. by destruct (Honce d d V V b a v q r HV HV He He0).
    - exists W. split_and!; [done|done|]. intros [-> _]. apply Ej. by destruct (Honce j d W V b a v q r HW HV He He0). }
  split; try done.
  - intros j c' Hc'. destruct (Hmap _ _ Hc') as (H0' & W & HW). split; [done|]. unfold X'.
    destruct (decide (c = c')) as [<-|Hne]; [rewrite lookup_insert_eq; eauto|rewrite lookup_insert_ne by done; eauto].
  - intros j W' k b HW' Hk. rewrite Hvw in HW'. case_decide as Ej.
    + subst j. injection HW' as <-. rewrite Hdk in Hk. apply lookup_delete_Some in Hk as [Hne Hk].
      destruct (Hseg _ _ _ _ HV Hk) as (w & q & info & Hs). eexists _, _, _. apply (Hkeep _ _ _ _ _ _ Hs). naive_solver.
    + destruct (Hseg _ _ _ _ HW' Hk) as (w & q & info & Hs). eexists _, _, _. apply (Hkeep _ _ _ _ _ _ Hs). naive_solver.
  - intros j W' k HW' Hk. rewrite Hvw in HW'. case_decide as Ej; [|rewrite Ei in Hk by done; by apply (Hkeys j W')].
    subst j. injection HW' as <-. rewrite Hdk. rewrite Ed in Hk. destruct Hk as [x Hk]. apply lookup_delete_Some in Hk as [Hne Hk].
    rewrite lookup_delete_ne by done. apply (Hkeys d V); [done|]. by rewrite Hk.
  - intros w. rewrite Hold. split.
    + destruct (decide (w = v /\ r = 0)) as [Ew|Ew]; [by intros []|]. rewrite fmap_is_Some, Hval. intros (j & W & b & q & HW & He).
      destruct (decide (j = d)) as [->|Hj]; [|exists j, W, b, q; by rewrite Hvw, decide_False].
      rewrite HV in HW. injection HW as <-. exists d, (cv_drop V ptr a v r), b, q. rewrite Hvw, decide_True by done. rewrite Hde by done.
      rewrite decide_False; [done|]. intros [-> Hr]. apply Ew. split; [|done]. rewrite He0 in He. by injection He as <- _.
    + intros (j & W & b & q & HW & He). destruct (Hback _ _ _ _ _ HW He) as (W0 & HW0 & He' & Hn). rewrite decide_False by done.
      rewrite fmap_is_Some, Hval. eauto 10.
  - intros i j W1 W2 b1 b2 w q1 q2 HW1 HW2 He1 He2.
    destruct (Hback _ _ _ _ _ HW1 He1) as (W3 & HW3 & He3 & _). destruct (Hback _ _ _ _ _ HW2 He2) as (W4 & HW4 & He4 & _).
    by apply (Honce i j W3 W4 b1 b2 w q1 q2).
Qed.

Lemma wp_free_info s m al v info (Q : unit -> tstate H B -> Prop) :
  t_infos s !! v = Some info -> v <> 0 -> cp_rep (t_pools s) m -> m !! al = Some (dom (t_infos s)) ->
  (forall b, cp_rep b (<[al := dom (delete v (t_infos s))]> m) -> Q tt (with_infos (delete v (t_infos s)) (with_pools b s))) ->
  wp (Tracker.free_leaf al v) Q s.
Proof.
  intros Hi Hv Hrep Hm HQ. unfold Tracker.free_leaf. rewrite (proj2 (Z.eqb_neq v 0)) by done.
  apply wp_bind, (wp_load_info s v info); [done|]. apply wp_bind, wp_store_info. apply wp_bind, wp_on_pools.
  eapply wp_mono; [apply (cp_free al v (dom (t_infos s)) _ m Hrep Hm); by apply elem_of_dom_2 in Hi|].
  intros [] b Hb. simpl in Hb. rewrite <- dom_delete_L in Hb. apply wp_modify. specialize (HQ b Hb).
  replace (with_infos _ _) with (with_infos (delete v (t_infos s)) (with_pools b s)); [done|].
  destruct s. unfold with_infos, with_pools. simpl. by rewrite delete_insert_eq.
Qed.

(** The removal of a leaf with [r] references, and the release of the one it returns. *)
Lemma wp_drop_segment s hT t A X m N d c V ptr a v r info (Q : Z * option Z -> tstate H B -> Prop) :
  let al := alloc_info_allocator t in
  tinv s hT t A X m N -> N + 1 + DELETED_LIFE < two64 -> alloc_segments_map t !! d = Some c -> vw X t d = Some V ->
  cv_keys V !! ptr = Some a -> cv_elems V !! a = Some (v, r) -> t_infos s !! v = Some info ->
  (forall s' m', t_trackers s' = t_trackers s -> crits_inv s' (<[c := (FreeLeaf al, cv_drop V ptr a v r)]> X) (N + 2) ->
     t_infos s' = (if decide (r = 0) then delete v (t_infos s) else t_infos s) ->
     cp_rep (t_pools s') m' -> m' !! al = Some (dom (t_infos s')) ->
     kept t s X m s' (<[c := (FreeLeaf al, cv_drop V ptr a v r)]> X) m' -> Q (v, Some a) s') ->
  wp (x ← on_critnib c (critnib_remove ptr true);
      _ ← c_assert (negb (x.1 =? 0));
      _ ← c_assert (bool_decide (is_Some x.2));
      _ ← release_segment hT d x.2;
      mret x) Q s.
Proof.
  intros al HI HN Hc HV Hk He Hi HQ.
  destruct (tinv_level _ _ _ _ _ _ _ d HI (vw_lt _ _ _ _ _ _ _ _ _ HI HV)) as (c' & V' & Hc' & _ & HX & HV').
  rewrite Hc in Hc'. injection Hc' as <-. rewrite HV in HV'. injection HV' as <-.
  destruct (crits_wf _ _ _ _ _ _ (ti_maps _ _ _ _ _ _ _ HI) HX) as [Hwf Hcb].
  destruct (vw_elem _ Hwf _ _ Hk) as (v0 & r0 & He0 & Hv0 & Hr0). rewrite He in He0. injection He0 as <- <-.
  apply wp_bind, (wp_on_critnib s X N c (FreeLeaf al) V (CRemove ptr true) _ (fun x => RVal x.1 x.2)); [done|apply HI|lia|done|done|].
  intros [v1 ref1] V1 h1 C1 Hst s1 HC1 Hf1. simpl in Hst. rewrite Hcb, Hk in Hst. simpl in Hst.
  destruct Hst as (v2 & r2 & He2 & [= -> ->] & ->). rewrite He in He2. injection He2 as <- <-.
  rewrite freed_by_same by done. simpl call_leaf_cbs. wp_step. simpl fst. simpl snd.
  wp_step; [by rewrite (proj2 (Z.eqb_neq v 0))|]. wp_step; [by apply bool_decide_eq_true|].
  unfold release_segment. apply wp_bind, wp_bind, (wp_segments_map s1 hT t d c); [apply (ti_tracker _ _ _ _ _ _ _ HI)|done|]. apply wp_bind.
  set (V1 := cv_remove V ptr a v r) in *.
  assert (cv_elems V1 !! a = Some (v, r + 1)) as HeV1 by (unfold V1, cv_remove; rewrite Hcb; apply lookup_insert_eq).
  assert (cv_cb V1 = true) as Hcb1 by done. assert (cv_freed V1 = cv_freed V) as Hfr1 by done.
  assert (cv_release V1 a v (r + 1) = cv_drop V ptr a v r) as Edrop by (by apply cv_drop_eq). clearbody V1.
  apply (wp_on_critnib s1 (<[c := (FreeLeaf al, V1)]> X) (N + 1) c (FreeLeaf al) V1 (CRelease (Some a)) _ RInt); [done|done|done|apply lookup_insert_eq| |].
  { simpl. intros _ b [= <-]. exists v, (r + 1). split; [done|lia]. }
  intros ret V2 h2 C2 Hst s2 HC2 Hf2. simpl in Hst. rewrite Hcb1 in Hst.
  destruct Hst as (v2 & r2 & He2 & _ & ->). rewrite HeV1 in He2. injection He2 as <- <-.
  rewrite Edrop in HC2 |- *. rewrite insert_insert_eq in HC2. replace (N + 1 + 1) with (N + 2) in HC2 by lia.
  assert (keeps_foreign s s2) as Hf by (by eapply keeps_foreign_trans).
  assert (forall q, q ∉ alloc_segments_map t -> <[c := (FreeLeaf al, cv_drop V ptr a v r)]> X !! q = X !! q) as Ho.
  { intros q Hq. apply lookup_insert_ne. intros <-. apply Hq. by eapply list_elem_of_lookup_2. }
  unfold freed_by. rewrite Hfr1. unfold cv_drop at 1. destruct (decide (r = 0)) as [->|Hr]; simpl cv_freed.
  - rewrite drop_app_length. simpl call_leaf_cbs. apply wp_bind. apply (wp_free_info s2 m al v info); [done|done|apply HI|apply HI|].
    intros b Hb. wp_step. wp_step. wp_step. eapply (HQ _ (<[al := dom (delete v (t_infos s2))]> m)); try done.
    + by apply (crits_inv_ext s2).
    + apply lookup_insert_eq.
    + split; try done. intros q Hq. by rewrite lookup_insert_ne.
  - rewrite drop_all. simpl call_leaf_cbs. wp_step. wp_step. wp_step. apply (HQ s2 m); try done; [apply (ti_pools _ _ _ _ _ _ _ HI)|apply (ti_chunks _ _ _ _ _ _ _ HI)]; by split.
Qed.

(** ** [umfMemoryTrackerRemove] *)

Inductive remove_spec A (ptr : Z) : umf_result_t -> list level -> Prop :=
| remove_success d r : leaf_at A ptr d r -> remove_spec A ptr UMF_RESULT_SUCCESS (del_range A d ptr)
| remove_missing : (forall d r, ~ leaf_at A ptr d r) -> remove_spec A ptr UMF_RESULT_ERROR_UNKNOWN A.

Lemma remove_spec_wf A ptr r A' : levels_wf A -> remove_spec A ptr r A' -> levels_wf A'.
Proof. intros Hwf [d q (_ & E & Hc)|]; [|done]. by apply (del_wf A d ptr q). Qed.

(** The parent of a removed range loses a child. *)
Lemma wp_uncount_child s1 s hT t A X m m1 N d c V ptr a v r n p l (Q : umf_result_t -> tstate H B -> Prop) :
  let X1 := <[c := (FreeLeaf (alloc_info_allocator t), cv_drop V ptr a v r)]> X in
  levels_wf A -> tinv s hT t A X m N -> N + 2 + DELETED_LIFE < two64 -> alloc_segments_map t !! d = Some c -> vw X t d = Some V ->
  cv_keys V !! ptr = Some a -> cv_elems V !! a = Some (v, r) -> lvl A d !! ptr = Some (n, p) -> lv_level l = d ->
  parent_ok (t_infos s) A X t ptr l ->
  t_trackers s1 = t_trackers s -> crits_inv s1 X1 (N + 2) -> t_infos s1 = (if decide (r = 0) then delete v (t_infos s) else t_infos s) ->
  cp_rep (t_pools s1) m1 -> m1 !! alloc_info_allocator t = Some (dom (t_infos s1)) ->
  (forall s2 X2, tinv s2 hT t (del_range A d ptr) X2 m1 (N + 3) -> kept t s1 X1 m1 s2 X2 m1 -> Q UMF_RESULT_SUCCESS s2) ->
  wp (if negb (lv_parent_value l =? 0) then
        info ← load_info (lv_parent_value l);
        _ ← store_info (lv_parent_value l) (with_children (sub64 (n_children info) 1) info);
        _ ← c_assert (bool_decide (is_Some (lv_pref l)));
        _ ← c_assert (bool_decide (1 <= d)%nat);
        _ ← release_segment hT (d - 1) (lv_pref l);
        mret UMF_RESULT_SUCCESS
      else mret UMF_RESULT_SUCCESS) Q s1.
Proof.
  intros X1 Hwf HI HN Hc HV Hk He Hl0 El Hp Htr HC Ei Hrep Hm1 HQ.
  pose proof (parent_of_ok s hT t A X m N ptr l Hwf HI Hp) as Hpo. rewrite El in Hpo.
  destruct (tinv_level _ _ _ _ _ _ _ d HI (vw_lt _ _ _ _ _ _ _ _ _ HI HV)) as (c' & V' & Hc' & _ & HX & HV').
  rewrite Hc in Hc'. injection Hc' as <-. rewrite HV in HV'. injection HV' as <-.
  destruct (crits_wf _ _ _ _ _ _ (ti_maps _ _ _ _ _ _ _ HI) HX) as [Hvwf _].
  assert (d < length A)%nat as HdA by (rewrite (lw_len _ Hwf); by apply (vw_lt s hT t A X m N d V)).
  assert (forall v0, t_infos s1 !! v0 = if decide (v0 = v /\ r = 0) then None else t_infos s !! v0) as Hi1.
  { intros v0. rewrite Ei. destruct (decide (r = 0)) as [Hr|Hr]; [|by rewrite decide_False by tauto].
    destruct (decide (v0 = v)) as [->|Hne]; [by rewrite lookup_delete_eq, decide_True|]. by rewrite lookup_delete_ne, decide_False by naive_solver. }
  unfold parent_ok in Hp. rewrite El in Hp. destruct d as [|j].
  - destruct Hp as [_ ->]. simpl. wp_step. apply (HQ s1 X1); [|apply tracker_kept_refl]. apply (tinv_mono _ _ _ _ _ _ (N + 2)); [lia|].
    apply (tinv_removed s s1 hT t A X m m1 N (N + 2) 0 c V ptr n p v a r None); try done; [rewrite Htr; apply HI|].
    intros v0. rewrite Hi1. destruct (decide (v0 = v /\ r = 0)); [done|]. by destruct (t_infos s !! v0).
  - destruct Hp as (k & b & w & q & info & Hs & Hq & Hh & Epr & Epv & _). rewrite Epv, Epr in *. rewrite decide_False in Hpo by done.
    pose proof Hs as [(W & HW & Hkw & Hew) Hw Hw0 Hl Hcn Hf]. rewrite (proj2 (Z.eqb_neq w 0)) by done. simpl negb. cbv iota.
    assert (w <> v) as Hwv.
    { intros ->. destruct (ti_once _ _ _ _ _ _ _ HI _ _ _ _ _ _ _ _ _ HW HV Hew He) as [? _]. lia. }
    assert (t_infos s1 !! w = Some info) as Hw1 by (by rewrite Hi1, decide_False by tauto).
    apply wp_bind, (wp_load_info s1 w info); [done|].
    destruct (lw_range _ Hwf _ _ _ Hl) as (Hk0 & Hsz & Hku). simpl in Hk0, Hsz, Hku.
    pose proof (children_bound A j k (ti_size info) ltac:(lia)) as Hcb.
    pose proof (children_bound (del_range A (S j) ptr) j k (ti_size info) ltac:(lia)) as Hcb'.
    rewrite children_del, decide_True in Hcb' by first [done|by rewrite Hl0|split; [done|apply Hh]].
    rewrite sub64_small by (unfold is_u64; rewrite Hcn; lia).
    apply wp_bind, wp_store_info. wp_step; [done|]. wp_step; [by apply bool_decide_eq_true; lia|]. replace (S j - 1)%nat with j by lia.
    set (s2 := with_infos _ s1).
    assert (tinv s2 hT t (del_range A (S j) ptr) X1 m1 (N + 2)) as HI2.
    { apply (tinv_removed s s2 hT t A X m m1 N (N + 2) (S j) c V ptr n p v a r (Some w)); try done.
      - unfold s2. simpl. rewrite Htr. apply HI.
      - by apply (crits_inv_ext s1).
      - unfold s2. simpl. rewrite dom_insert_lookup_L by (rewrite Hw1; eauto). done.
      - intros v0. unfold s2, bump. simpl. destruct (decide (v0 = w)) as [->|Hne].
        + rewrite lookup_insert_eq, decide_False by tauto. rewrite Hw. simpl. by rewrite decide_True.
        + rewrite lookup_insert_ne, Hi1 by done. destruct (decide (v0 = v /\ r = 0)); [done|].
          destruct (t_infos s !! v0); [|done]. simpl. by rewrite decide_False by congruence. }
    apply wp_bind, (wp_release_segment s2 hT t (del_range A (S j) ptr) X1 m1 (N + 2) j k b w q (with_children (n_children info - 1) info)); [done|lia| |done|].
    + split; try done.
      * exists W. unfold X1. rewrite (vw_set s hT t A X m N (S j) c _ _ j HI Hc). by rewrite decide_False by lia.
      * unfold s2. simpl. by rewrite lookup_insert_eq.
      * simpl. unfold del_range. rewrite lvl_set_ne by lia. done.
      * simpl. rewrite children_del, decide_True by first [done|by rewrite Hl0|split; [done|apply Hh]]. lia.
    + intros s3 X3 HI3 Hm3 _ _. wp_step. apply (HQ s3 X3); [replace (N + 3) with (N + 2 + 1) by lia; done|].
      apply (tracker_kept_trans t _ _ m1 s2 X1 m1); [by split|by apply kept_moved].
Qed.

Lemma wp_umfMemoryTrackerRemove s hT t A X m N ptr :
  levels_wf A -> tinv s hT t A X m N -> N + 20 + DELETED_LIFE < two64 -> is_u64 ptr -> ptr <> 0 ->
  wp (umfMemoryTrackerRemove hT ptr) (tracks t s X m hT (N + 20) (remove_spec A ptr)) s.
Proof.
  intros Hwf HI HN Hpu Hp0. unfold umfMemoryTrackerRemove. wp_step; [by rewrite (proj2 (Z.eqb_neq ptr 0))|].
  apply wp_bind. eapply wp_mono; [apply (wp_get_most_nested true s hT t A X m N ptr); (done || lia)|].
  intros o s1 [s' X' HI' Hm Hno|s' X' l a v r info HI' Hm Hlt Hleaf Hs Hr Er Ev Hpar].
  { wp_step. exists A, X', m. split_and!; [by apply remove_missing|apply (tinv_mono _ _ _ _ _ _ (N + 16)); [lia|done]|by apply kept_moved]. }
  wp_step; [by apply bool_decide_eq_true|]. rewrite Er. wp_step; [by apply bool_decide_eq_true|].
  apply wp_bind, (wp_release_segment s' hT t A X' m (N + 16) (lv_level l) ptr a v r info); [done|lia|done|done|].
  intros s2 X2 HI2 Hm2 Ho Hs2. pose proof Hs2 as [(V & HV & Hk & He) Hi Hv Hl Hcn Hf].
  destruct (tinv_level _ _ _ _ _ _ _ _ HI2 Hlt) as (c & V' & Hc & _ & _ & HV'). rewrite HV in HV'. injection HV' as <-.
  apply wp_bind, (wp_segments_map s2 hT t (lv_level l) c); [apply HI2|done|].
  assert (parent_ok (t_infos s2) A X2 t ptr l) as Hpar2 by (rewrite (moved_infos _ _ _ _ _ Hm2); by apply (parent_frame _ _ X')).
  pose proof (wp_drop_segment s2 hT t A X2 m (N + 16 + 1) (lv_level l) c V ptr a v (r - 1) info
    (fun _ s3 => wp (if negb (lv_parent_value l =? 0) then
        info ← load_info (lv_parent_value l);
        _ ← store_info (lv_parent_value l) (with_children (sub64 (n_children info) 1) info);
        _ ← c_assert (bool_decide (is_Some (lv_pref l)));
        _ ← c_assert (bool_decide (1 <= lv_level l)%nat);
        _ ← release_segment hT (lv_level l - 1) (lv_pref l);
        mret UMF_RESULT_SUCCESS
      else mret UMF_RESULT_SUCCESS) (tracks t s X m hT (N + 20) (remove_spec A ptr)) s3) HI2 ltac:(lia) Hc HV Hk He Hi) as Hw.
  match type of Hw with _ -> ?G => assert G as Hw2 end.
  { apply Hw. intros s3 m3 Htr3 HC3 Ei3 Hrep3 Hm3 Hk3.
    apply (wp_uncount_child s3 s2 hT t A X2 m m3 (N + 16 + 1) (lv_level l) c V ptr a v (r - 1) (ti_size info) (ti_pool info) l); try done; [lia|].
    intros s4 X4 HI4 Hk4. exists (del_range A (lv_level l) ptr), X4, m3. split_and!.
    - by eapply remove_success.
    - apply (tinv_mono _ _ _ _ _ _ (N + 16 + 1 + 3)); [lia|done].
    - eapply tracker_kept_trans; [by apply kept_moved, Hm|]. eapply tracker_kept_trans; [by apply kept_moved|]. by eapply tracker_kept_trans. }
  clear Hw. revert Hw2. unfold wp, mbind, M_bind. destruct (on_critnib c (critnib_remove ptr true) s2) as [[[v1 r1] s3]|]; [|done].
  simpl. destruct (negb (v1 =? 0)); simpl; [|done]. destruct (bool_decide (is_Some r1)); simpl; [|done].
  destruct (release_segment hT (lv_level l) r1 s3) as [[[] s4]|]; done.
Qed.
End Remove.
