(* ===== verification/BaseChunks.v ===== *)
(** * The base allocator as a chunk pool

    The pools of src/base_alloc/base_alloc.c implement the interface
    [ChunkPool]: several pools live beside each other in the memory of the
    process, no two of them share a mapping. *)

From S2P Require Import Prelude Utils BaseMem BaseAlloc BaseAllocInv BaseAllocApi BaseGlobal BaseGlobalInv HostMem.
From stdpp Require Import list.
#[local] Open Scope Z_scope.

Section Chunks.
Context `{HL : OsLaws OS}.
Implicit Types (s : bstate OS) (P : ba_pool) (Ps : gmap Z ba_pool).

#[export] Instance ba_chunk_pool : ChunkPool (bstate OS) := {
  HostMem.umf_ba_create := BaseAlloc.umf_ba_create;
  HostMem.umf_ba_alloc := BaseAlloc.umf_ba_alloc;
  HostMem.umf_ba_free := BaseAlloc.umf_ba_free;
  HostMem.umf_ba_destroy := BaseAlloc.umf_ba_destroy;
}.

Definition in_pool P (x : Z) : Prop := exists r, r ∈ bp_regions P /\ r <= x < r + bp_size P.

Record pools_inv s Ps : Prop := {
  po_rep : forall q P, Ps !! q = Some P -> bp_addr P = q /\ pool_rep s P;
  po_apart : forall q1 q2 P1 P2 x, Ps !! q1 = Some P1 -> Ps !! q2 = Some P2 -> q1 <> q2 -> in_pool P1 x -> ~ in_pool P2 x;
}.

Definition live_set P : gset Z := list_to_set (bp_live P).

Definition chunks_rep s (m : gmap Z (gset Z)) : Prop := exists Ps, pools_inv s Ps /\ m = live_set <$> Ps.

Lemma pool_mapped s P x : pool_rep s P -> in_pool P x -> mapped s x = true.
Proof. intros [HP _] (r & Hr & Hx). by apply (core_region s P HP r Hr). Qed.

Lemma word_in_pool s P x : pool_rep s P -> pool_word P x -> in_pool P x.
Proof. intros [HP _] Hw. by destruct (word_in_region s P x HP Hw) as (r & ? & ?); exists r. Qed.

Lemma chunk_in_pool s P c : pool_rep s P -> c ∈ bp_chunks P -> in_pool P c.
Proof.
  intros [HP _] Hc. destruct (pr_chunk _ _ HP). apply (core_chunk_bounds s P HP) in Hc as (r & Hr & ? & ? & _). exists r. split; [done|]. offs. lia.
Qed.

(** A pool is kept when its words and mappings are. *)
Lemma pool_kept s s' P : pool_rep s P -> (forall x, in_pool P x -> mapped s' x = true /\ (pool_word P x -> rd s' x = rd s x)) ->
  b_locks s' !! (bp_addr P + off_free_lock) = b_locks s !! (bp_addr P + off_free_lock) -> pool_rep s' P.
Proof.
  intros HP Hk Hl. apply (rep_frame s); [done|..|done].
  - intros a Ha. apply Hk; [|done]. by apply (word_in_pool s).
  - intros r x Hr Hx. apply Hk. by exists r.
Qed.

(** The regions of [P'] are those of [P] and possibly a fresh mapping. *)
Lemma extends_in s P s' P' x : extends s P s' P' -> in_pool P' x -> in_pool P x \/ mapped s x = false.
Proof.
  intros (Ea & Es & _ & Hn) (r & Hr & Hx). unfold bp_regions in Hr. rewrite Ea, Es in *.
  destruct Hn as [[En _]|(a & En & Hf & _)]; rewrite En in Hr.
  - left. by exists r.
  - apply elem_of_cons in Hr as [->|Hr]; [left; exists (bp_addr P); split; [left|done]|].
    apply elem_of_cons in Hr as [->|Hr]; [right; by apply Hf|]. left. exists r. split; [by right|done].
Qed.

(** One pool changes. *)
Lemma pools_set s s' Ps q P' : pools_inv s Ps ->
  bp_addr P' = q -> pool_rep s' P' ->
  (forall q2 P2 x, Ps !! q2 = Some P2 -> q2 <> q -> in_pool P2 x -> ~ in_pool P' x /\ mapped s' x = true /\ rd s' x = rd s x) ->
  (forall q2, q2 <> q -> is_Some (Ps !! q2) -> b_locks s' !! (q2 + off_free_lock) = b_locks s !! (q2 + off_free_lock)) ->
  pools_inv s' (<[q := P']> Ps).
Proof.
  intros [Hr Ha] Eq HP' Hk Hl. split.
  - intros q2 P2. destruct (decide (q = q2)) as [<-|Hne]; [rewrite lookup_insert_eq; by intros [= <-]|].
    rewrite lookup_insert_ne by done. intros E2. destruct (Hr _ _ E2) as [Ea HP2]. split; [done|].
    apply (pool_kept s); [done|..].
    + intros x Hx. destruct (Hk q2 P2 x E2) as (_ & ? & ?); [done|done|]. done.
    + rewrite Ea. apply Hl; [done|]. by rewrite E2.
  - intros q1 q2 P1 P2 x. destruct (decide (q = q1)) as [<-|H1]; [rewrite lookup_insert_eq; intros [= <-]|rewrite lookup_insert_ne by done; intros E1].
    + intros E2 Hne. rewrite lookup_insert_ne in E2 by done. intros Hx Hx2. by destruct (Hk q2 P2 x E2).
    + destruct (decide (q = q2)) as [<-|H2]; [rewrite lookup_insert_eq; intros [= <-]|rewrite lookup_insert_ne by done; intros E2].
      * intros Hne Hx. by apply (Hk q1 P1).
      * by apply Ha.
Qed.

Lemma pools_lookup s Ps q P : pools_inv s Ps -> Ps !! q = Some P -> bp_addr P = q /\ pool_rep s P.
Proof. intros HI. apply (po_rep _ _ HI). Qed.

Lemma pools_ctl s s' : ctl s' = ctl s -> b_locks s' = b_locks s.
Proof. by intros [= ->]. Qed.

Lemma chunks_create size s m : chunks_rep s m -> 0 < size <= 256 ->
  wp (BaseAlloc.umf_ba_create size) (fun r s' =>
    (r = 0 /\ chunks_rep s' m) \/ (r <> 0 /\ m !! r = None /\ chunks_rep s' (<[r := ∅]> m))) s.
Proof.
  intros (Ps & HI & ->) Hs. apply wp_umf_ba_create; [unfold create_max; lia|..].
  - intros s' Hm Hc Hr. left. split; [done|]. exists Ps. split; [|done]. split; [|apply HI].
    intros q P E. destruct (pools_lookup _ _ _ _ HI E) as [Ea HP]. split; [done|]. apply (pool_kept s); [done| |by rewrite (pools_ctl _ _ Hc)].
    intros x Hx. pose proof (pool_mapped s P x HP Hx) as Hmx. rewrite Hm. split; [done|]. intros _. by apply Hr.
  - intros p s' [Hrep Hf Hm Hfr Hctl]. right. pose proof Hrep as [Hcore _]. set (k := ALIGN_UP_SAFE size MEMORY_ALIGNMENT) in *.
    pose proof (core_region _ _ Hcore _ (core_addr _)) as (Hp0 & _). simpl in Hp0.
    assert (forall x, in_pool (new_pool p k) x -> mapped s x = false) as Hnew.
    { intros x (r & Hr & Hx). apply list_elem_of_singleton in Hr as ->. by apply Hf. }
    assert (forall q P, Ps !! q = Some P -> q <> p) as Hne.
    { intros q P E ->. destruct (pools_lookup _ _ _ _ HI E) as [Ea HP]. assert (in_pool P p) as Hip.
      { exists p. split; [rewrite <- Ea; apply core_addr|]. pose proof (core_size_pos s P (proj1 HP)). lia. }
      pose proof (pool_mapped s P p HP Hip) as Hmp. rewrite Hnew in Hmp; [done|].
      exists p. split; [left|]. pose proof (core_size_pos _ _ Hcore). simpl in *. lia. }
    assert (Ps !! p = None) as Hpn by (destruct (Ps !! p) eqn:E; [by destruct (Hne _ _ E)|done]).
    split; [lia|]. split; [by rewrite lookup_fmap, Hpn|]. exists (<[p := new_pool p k]> Ps). split.
    + apply (pools_set s); try done.
      * intros q2 P2 x E2 Hq2 Hx. destruct (pools_lookup _ _ _ _ HI E2) as [_ HP2]. pose proof (pool_mapped s P2 x HP2 Hx) as Hmx.
        split_and!; [intros Hx2; by rewrite (Hnew x Hx2) in Hmx|by rewrite Hm, Hmx|by apply Hfr].
      * intros q2 Hq2 _. injection Hctl as -> _ _ _. apply lookup_insert_ne. lia.
    + rewrite fmap_insert. unfold live_set at 2. by rewrite new_pool_live.
Qed.

Lemma pools_same s s' Ps : pools_inv s Ps -> (forall x, mapped s' x = mapped s x) -> (forall x, rd s' x = rd s x) -> ctl s' = ctl s -> pools_inv s' Ps.
Proof.
  intros HI Hm Hr Hc. split; [|apply HI]. intros q P E. destruct (pools_lookup _ _ _ _ HI E) as [Ea HP]. split; [done|].
  apply (pool_kept s); [done| |by rewrite (pools_ctl s s' Hc)].
  intros x Hx. rewrite Hm, (pool_mapped s P x HP Hx). split; [done|]. intros _. apply Hr.
Qed.

Lemma live_in_pool s P c : pool_rep s P -> c ∈ live_set P -> in_pool P c.
Proof. intros HP [Hc _]%elem_of_list_to_set%elem_of_live. by apply (chunk_in_pool s). Qed.

Lemma chunks_alloc q L s m : chunks_rep s m -> m !! q = Some L ->
  wp (BaseAlloc.umf_ba_alloc q) (fun c s' =>
    (c = 0 /\ chunks_rep s' m) \/
    (c <> 0 /\ (forall q' X, m !! q' = Some X -> c ∉ X) /\ chunks_rep s' (<[q := {[c]} ∪ L]> m))) s.
Proof.
  intros (Ps & HI & ->) (P & HL1 & E)%lookup_fmap_Some. subst L. destruct (pools_lookup _ _ _ _ HI E) as [<- HP].
  apply wp_umf_ba_alloc; [done|..].
  - intros s' _ _ Hm Hc Hr. left. split; [done|]. exists Ps. split; [by apply (pools_same s)|done].
  - intros c s' P' _ [Hrep Hext Hch _ Hfr Hlive Hframe Hctl]. right.
    pose proof (chunk_in_pool s' P' c Hrep Hch) as Hin. pose proof Hext as (Ea & _).
    pose proof (core_chunk_range s' P' (proj1 Hrep) c Hch).
    assert (forall q2 P2 x, Ps !! q2 = Some P2 -> q2 <> bp_addr P -> in_pool P2 x -> mapped s x = true /\ ~ in_pool P x /\ ~ in_pool P' x) as Hoth.
    { intros q2 P2 x E2 Hne Hx. destruct (pools_lookup _ _ _ _ HI E2) as [_ HP2]. pose proof (pool_mapped s P2 x HP2 Hx) as Hmx.
      pose proof (po_apart _ _ HI q2 _ P2 P x E2 E Hne Hx) as Hnx. split_and!; [done..|].
      intros Hx2. by destruct (extends_in s P s' P' x Hext Hx2) as [|Hu]; [|rewrite Hmx in Hu]. }
    split; [lia|]. split.
    + intros q2 X (P2 & HX & E2)%lookup_fmap_Some Hc2. subst X. destruct (decide (q2 = bp_addr P)) as [->|Hne].
      * simplify_eq. by apply elem_of_list_to_set in Hc2.
      * destruct (pools_lookup _ _ _ _ HI E2) as [_ HP2]. pose proof (live_in_pool s P2 c HP2 Hc2) as Hi2. by destruct (Hoth q2 P2 c E2 Hne Hi2) as (_ & _ & []).
    + exists (<[bp_addr P := P']> Ps). split.
      * apply (pools_set s); [done..| |].
        { intros q2 P2 x E2 Hne Hx. destruct (Hoth q2 P2 x E2 Hne Hx) as (Hmx & Hn & Hn'). split_and!; [done|by apply (extends_mapped s P s' P')|].
          apply Hframe; [done|]. intros Hw. by apply Hn, (word_in_pool s). }
        { intros q2 _ _. by rewrite (pools_ctl _ _ Hctl). }
      * rewrite fmap_insert. f_equal. unfold live_set. apply leibniz_equiv. intros x. rewrite elem_of_union, elem_of_singleton, !elem_of_list_to_set, Hlive, elem_of_cons. done.
Qed.

Lemma chunks_free q c L s m : chunks_rep s m -> m !! q = Some L -> c ∈ L ->
  wp (BaseAlloc.umf_ba_free q c) (fun _ s' => chunks_rep s' (<[q := L ∖ {[c]}]> m)) s.
Proof.
  intros (Ps & HI & ->) (P & HL1 & E)%lookup_fmap_Some Hc. subst L. destruct (pools_lookup _ _ _ _ HI E) as [<- HP].
  pose proof (live_in_pool s P c HP Hc) as Hin. pose proof Hc as Hcl%elem_of_list_to_set.
  apply wp_umf_ba_free; [done..|]. intros s' Hrep Hctl Hm Hfr. set (P' := with_free P (c :: bp_free P)) in *.
  exists (<[bp_addr P := P']> Ps). split.
  - apply (pools_set s); [done..| |].
    + intros q2 P2 x E2 Hne Hx. destruct (pools_lookup _ _ _ _ HI E2) as [_ HP2]. pose proof (pool_mapped s P2 x HP2 Hx) as Hmx.
      pose proof (po_apart _ _ HI q2 _ P2 P x E2 E Hne Hx) as Hnx. rewrite Hm. split_and!; [done..|].
      apply Hfr; [|by intros ->]. intros Hw. by apply Hnx, (word_in_pool s).
    + intros q2 _ _. by rewrite (pools_ctl _ _ Hctl).
  - rewrite fmap_insert. f_equal. apply leibniz_equiv. intros x. unfold live_set. rewrite elem_of_difference, elem_of_singleton, !elem_of_list_to_set, !elem_of_live.
    unfold P'. simpl. change (bp_chunks (with_free P _)) with (bp_chunks P). rewrite elem_of_cons. tauto.
Qed.

Lemma chunks_destroy q s m : chunks_rep s m -> m !! q = Some ∅ ->
  wp (BaseAlloc.umf_ba_destroy q) (fun _ s' => chunks_rep s' (delete q m)) s.
Proof.
  intros (Ps & HI & ->) (P & HL1 & E)%lookup_fmap_Some. destruct (pools_lookup _ _ _ _ HI E) as [<- HP].
  assert (bp_live P = []) as Hl.
  { destruct (bp_live P) as [|c l] eqn:El; [done|]. assert (c ∈ live_set P) as Hc by (apply elem_of_list_to_set; rewrite El; left). set_solver. }
  apply wp_umf_ba_destroy; [done..|]. intros s' [Hm Hr] Hctl. exists (delete (bp_addr P) Ps). split; [|by rewrite fmap_delete].
  split; [|intros q1 q2 P1 P2 x [_ E1]%lookup_delete_Some [_ E2]%lookup_delete_Some; by apply (po_apart _ _ HI)].
  intros q2 P2 [Hne E2]%lookup_delete_Some. destruct (pools_lookup _ _ _ _ HI E2) as [Ea HP2]. split; [done|].
  assert (forall x, in_pool P2 x -> mapped s' x = true) as Hm2.
  { intros x Hx. pose proof (pool_mapped s P2 x HP2 Hx) as Hmx.
    assert (~ in_pool P x) as Hnx by (intros Hp; by apply (po_apart _ _ HI q2 (bp_addr P) P2 P x)).
    rewrite Hm, Hmx, andb_true_l. apply negb_true_iff, not_true_iff_false. intros Hp%in_regions_true. by apply Hnx. }
  apply (pool_kept s); [done|..].
  - intros x Hx. split; [by apply Hm2|]. intros _. by apply Hr, Hm2.
  - rewrite Ea. injection Hctl as -> _ _ _. apply lookup_delete_ne. lia.
Qed.

Lemma chunks_word s m q L c : chunks_rep s m -> m !! q = Some L -> c ∈ L -> is_u64 c.
Proof.
  intros (Ps & HP & ->) Hq Hc. rewrite lookup_fmap in Hq. destruct (Ps !! q) as [P|] eqn:E; [|done]. injection Hq as <-.
  apply elem_of_list_to_set in Hc. destruct (po_rep _ _ HP _ _ E) as [_ Hrep]. destruct (chunk_in_pool s P c Hrep) as (r & Hr & Hx).
  { unfold bp_live in Hc. by apply list_elem_of_filter in Hc as [_ ?]. }
  destruct Hrep as [Hco _]. pose proof (pr_regions _ _ Hco) as Hreg. rewrite list.Forall_forall in Hreg. destruct (Hreg r Hr) as (? & _ & ? & _). unfold is_u64. lia.
Qed.

#[export] Instance ba_chunk_laws : ChunkPoolLaws (bstate OS) := {|
  cp_rep := chunks_rep; cp_word := chunks_word; cp_create := chunks_create; cp_alloc := chunks_alloc; cp_free := chunks_free; cp_destroy := chunks_destroy |}.

Lemma chunks_start s : chunks_rep s ∅.
Proof. exists ∅. split; [|by rewrite fmap_empty]. split; [intros q P E|intros q1 q2 P1 P2 x E]; by rewrite lookup_empty in E. Qed.
End Chunks.
