(* ===== verification/TrackerIpc.v ===== *)
(** * Counting the ranges of a pool, and ranges of other processes

    [check_if_tracker_is_empty] walks over every map with [critnib_find],
    taking and releasing a reference of each leaf: it counts the ranges of the
    pool and leaves the maps as they were.

    The second map of the tracker, [ipc_segments_map], has the ranges that were
    opened through IPC.  Its operations give every reference they take back,
    so the map has exactly the leaves of its keys. *)

From S2P Require Import Prelude Utils HostMem CritQuery CritDelete CritSpec CritInsert CritRemove CritInv CritWorld.
From stdpp Require Import list strings.
From S2P Require Import Critnib Tracker TrackerInv TrackerOps.
From S2P Require Import TrackerRemove.
#[local] Open Scope Z_scope.

Section Count.
Context `{HostAllocLaws H} `{ChunkPoolLaws B}.
Implicit Types (s : tstate H B) (X : gmap Z (leaf_cb * cview)) (V : cview) (t : umf_memory_tracker_t) (A : list level) (L : level).

(** The keys of [L] above [k0], and those of them that are counted. *)
Definition above L (k0 : Z) : level := filter (fun x => k0 < x.1) L.
Definition counted (pool : Z) (r : Z * Z) : bool := (r.2 =? pool) || (pool =? 0).
Definition items L (k0 pool : Z) : Z := Z.of_nat (size (filter (fun x => counted pool x.2 = true) (above L k0))).

Lemma above_step L k0 k r : L !! k = Some r -> k0 < k -> (forall x y, L !! x = Some y -> k0 < x -> k <= x) ->
  above L k0 = <[k := r]> (above L k) /\ above L k !! k = None.
Proof.
  intros Hk Hlt Hmin. assert (above L k !! k = None) as Hn by (apply map_lookup_filter_None; right; simpl; lia). split; [|done].
  apply map_eq. intros x. destruct (decide (k = x)) as [<-|Hne]; [rewrite lookup_insert_eq; by apply map_lookup_filter_Some|].
  rewrite lookup_insert_ne by done. apply option_eq. intros y. unfold above. rewrite !map_lookup_filter_Some. simpl. split; intros [E ?]; (split; [done|]).
  - specialize (Hmin x y E). lia.
  - lia.
Qed.

Lemma items_step L k0 k r pool : L !! k = Some r -> k0 < k -> (forall x y, L !! x = Some y -> k0 < x -> k <= x) ->
  size (above L k0) = S (size (above L k)) /\ items L k0 pool = (if counted pool r then 1 else 0) + items L k pool.
Proof.
  intros Hk Hlt Hmin. destruct (above_step L k0 k r Hk Hlt Hmin) as [E Hn]. split; [by rewrite E, map_size_insert_None|].
  unfold items. rewrite E. destruct (counted pool r) eqn:Ec.
  - rewrite map_filter_insert_True, map_size_insert_None by (try done; apply map_lookup_filter_None; by left). lia.
  - rewrite map_filter_insert_False by (simpl; by rewrite Ec). rewrite delete_id by done. lia.
Qed.

Lemma items_none L k0 pool : (forall x y, L !! x = Some y -> x <= k0) -> items L k0 pool = 0.
Proof.
  intros Hn. unfold items. replace (above L k0) with (∅ : level); [by rewrite map_filter_empty|]. symmetry. apply map_empty. intros x.
  apply map_lookup_filter_None. destruct (L !! x) as [y|] eqn:E; [|by left]. right. intros ? ?. specialize (Hn x y E). simpl. lia.
Qed.

Lemma items_bound L k0 pool : 0 <= items L k0 pool <= Z.of_nat (size (above L k0)).
Proof. unfold items. pose proof (map_size_filter (M := gmap Z) (fun x => counted pool x.2 = true) (above L k0)). lia. Qed.

(** A view and the ranges of its level. *)
Definition shows (infos : gmap Z tracker_alloc_info_t) V L : Prop :=
  (forall k a, cv_keys V !! k = Some a -> exists v r info, cv_elems V !! a = Some (v, r) /\ v <> 0 /\ infos !! v = Some info /\
     L !! k = Some (ti_size info, ti_pool info)) /\
  forall k, is_Some (L !! k) -> is_Some (cv_keys V !! k).

(** Taking and releasing a reference. *)
Lemma cv_ref_release V k a v n : cv_cb V = true -> cv_keys V !! k = Some a -> cv_elems V !! a = Some (v, n) ->
  cv_release (cv_ref V a v n) a v (n + 1) = V.
Proof.
  intros Hcb Hk He. unfold cv_ref. rewrite Hcb. unfold cv_release. simpl. rewrite decide_False.
  - rewrite insert_insert_eq, insert_id by (rewrite He; do 2 f_equal; lia). destruct V; simpl in *. congruence.
  - intros [_ Hn]. apply Hn. exists k, a. done.
Qed.

Definition same_but_crits s s' : Prop := exists h C, s' = Tracker.with_host h (with_crits C s).

Lemma same_but_crits_trans s1 s2 s3 : same_but_crits s1 s2 -> same_but_crits s2 s3 -> same_but_crits s1 s3.
Proof. intros (h1 & C1 & ->) (h2 & C2 & ->). by exists h2, C2. Qed.

(** The release of a reference that was just taken. *)
Lemma wp_unref s1 X N c cb V k a v n (Q : Z -> tstate H B -> Prop) :
  crits_inv s1 (<[c := (cb, cv_ref V a v n)]> X) N -> X !! c = Some (cb, V) -> cv_cb V = true ->
  cv_keys V !! k = Some a -> cv_elems V !! a = Some (v, n) -> 0 <= n -> N + DELETED_LIFE < two64 ->
  (forall y s2, same_but_crits s1 s2 -> crits_inv s2 X (N + 1) -> keeps_foreign s1 s2 -> Q y s2) ->
  wp (on_critnib c (critnib_release (Some a))) Q s1.
Proof.
  intros HC HX Hcb Hk He Hn HN HQ. assert (cv_cb (cv_ref V a v n) = true) as Hcb2 by (unfold cv_ref; by rewrite Hcb).
  assert (cv_elems (cv_ref V a v n) !! a = Some (v, n + 1)) as He1 by (unfold cv_ref; rewrite Hcb; apply lookup_insert_eq).
  apply (wp_on_critnib s1 (<[c := (cb, cv_ref V a v n)]> X) N c cb (cv_ref V a v n) (CRelease (Some a)) _ RInt); [done|done|done|apply lookup_insert_eq|..].
  { intros _ b [= <-]. exists v, (n + 1). split; [done|lia]. }
  intros y W h2 C2 Hst s2 HC2 Hf2. simpl in Hst. rewrite Hcb2 in Hst. destruct Hst as (v2 & n2 & He2 & _ & ->).
  rewrite He1 in He2. injection He2 as <- <-. rewrite (cv_ref_release V k) in HC2 |- * by done. rewrite insert_insert_eq, insert_id in HC2 by done.
  rewrite freed_by_same by (unfold cv_ref; by rewrite Hcb). simpl. wp_step. apply HQ; [by exists h2, C2|done|done].
Qed.

Lemma wp_count_items fuel s X N c cb V L pool k0 (Q : Z -> tstate H B -> Prop) :
  crits_inv s X N -> X !! c = Some (cb, V) -> shows (t_infos s) V L -> (forall k, is_Some (L !! k) -> is_u64 k) -> is_u64 k0 ->
  (size (above L k0) < fuel)%nat -> N + 2 * Z.of_nat (size (above L k0)) + 1 + DELETED_LIFE < two64 ->
  (forall s', same_but_crits s s' -> crits_inv s' X (N + 2 * Z.of_nat (size (above L k0)) + 1) -> keeps_foreign s s' ->
     Q (items L k0 pool) s') ->
  wp (count_items fuel c k0 pool) Q s.
Proof.
  revert s N k0 Q. induction fuel as [|fuel IH]; intros s N k0 Q HI EV Hsh Hu Hk0 Hf HN HQ; [lia|].
  destruct (crits_wf _ _ _ _ _ _ HI EV) as [Hwf Hcb]. cbn [count_items].
  apply wp_bind, (wp_on_critnib s X N c cb V (CFind k0 FIND_G true) _ RFind); [done|done|lia|done|by split|].
  intros x V' h' C' Hst s1 HC Hkf. simpl in Hst. rewrite Hcb in Hst. simpl in Hst. destruct Hst as (o & Ho & Hst).
  assert (match o with None => forall y z, L !! y = Some z -> y <= k0 | Some (k, a) => cv_keys V !! k = Some a /\ k0 < k /\ forall y z, L !! y = Some z -> k0 < y -> k <= y end) as Hbest.
  { unfold find_spec in Ho. simpl in Ho. destruct (Z.eqb_spec k0 SIZE_MAX) as [->|Hne].
    - subst o. intros y z E. destruct (Hu y) as [_ ?]; [by rewrite E|]. unfold SIZE_MAX, two64 in *. lia.
    - destruct o as [[k a]|]; simpl in Ho.
      + destruct Ho as (Hk & Hle & Hmin). split_and!; [done|lia|]. intros y z E Hy. destruct (proj2 Hsh y) as [b Hb]; [by rewrite E|]. apply (Hmin y b Hb). lia.
      + intros y z E. destruct (proj2 Hsh y) as [b Hb]; [by rewrite E|]. specialize (Ho y b Hb). lia. }
  destruct o as [[k a]|].
  - destruct Hst as (v & n & He & [= ->] & ->). destruct Hbest as (Hk & Hlt & Hmin).
    destruct (proj1 Hsh k a Hk) as (v' & r & info & He' & Hv0 & Hi & HL). rewrite He in He'. injection He' as <- <-.
    destruct (items_step L k0 k _ pool HL Hlt Hmin) as [Esz Eit].
    rewrite freed_by_same by apply (cv_ref_values V a v n He). simpl. wp_step. rewrite (proj2 (Z.eqb_neq v 0)) by done.
    apply wp_bind. unfold load_info. apply wp_bind. wp_step. wp_step; [exact Hi|]. wp_step.
    destruct (vw_elem V Hwf _ _ Hk) as (v0 & r0 & He0 & _ & Hr0). rewrite He in He0. injection He0 as <- <-.
    apply wp_bind, (wp_unref s1 X (N + 1) c cb V k a v n); [done..|lia|]. intros y s2 Hs2 HC2 Hkf2.
    assert (same_but_crits s s2) as Hs02 by (eapply same_but_crits_trans; [|done]; by exists h', C').
    assert (t_infos s2 = t_infos s) as Ei2 by (by destruct Hs02 as (h2 & C2 & ->)).
    apply wp_bind, (IH s2 (N + 1 + 1) k); [done|done|by rewrite Ei2|done|apply Hu; by rewrite HL|lia|lia|].
    intros s3 Hs3 HI3 Hkf3. wp_step. pose proof (items_bound L k pool). pose proof (items_bound L k0 pool).
    pose proof (cr_count _ _ _ HI). rewrite add64_small; [|unfold is_u64, DELETED_LIFE in *; destruct ((ti_pool info =? pool) || (pool =? 0)); lia].
    change (counted pool (ti_size info, ti_pool info)) with ((ti_pool info =? pool) || (pool =? 0)) in Eit. rewrite <- Eit.
    apply HQ.
    + by eapply same_but_crits_trans.
    + replace (N + 2 * Z.of_nat (size (above L k0)) + 1) with (N + 1 + 1 + 2 * Z.of_nat (size (above L k)) + 1) by lia. done.
    + eapply keeps_foreign_trans; [exact Hkf|]. by eapply keeps_foreign_trans.
  - destruct Hst as ([= ->] & ->). rewrite insert_id in HC by done. rewrite freed_by_same by done. simpl. wp_step. wp_step.
    rewrite <- (items_none L k0 pool) by done. apply HQ; [by exists h', C'| |done]. apply (crits_inv_mono _ _ (N + 1)); [lia|done].
Qed.

(** Every key has a leaf of its own. *)
Lemma crit_keys_leaves h k V n : crit_at h k V n -> cv_cb V = true -> (size (cv_keys V) <= size (c_leaves k))%nat.
Proof.
  intros Hat Hcb. pose proof (crit_wf h k V n Hat Hcb) as Hwf.
  assert (forall x a, cv_keys V !! x = Some a -> is_Some (c_leaves k !! a)) as Hlf.
  { intros x a Hx. destruct Hat as [base (Lf & Nd & DN & DL & ZL & HI)]. pose proof HI as [_ HV]. apply (vo_keys _ _ _ HV) in Hx.
    destruct (view_elem_live _ _ _ _ _ _ _ _ _ _ _ _ x a HI Hx) as (lf & E & _). simpl in E. by rewrite E. }
  assert ((map_to_list (cv_keys V)).*2 ⊆+ elements (dom (c_leaves k))) as Hs%submseteq_length.
  { apply NoDup_submseteq.
    - apply NoDup_fmap_2_strong; [|apply NoDup_map_to_list]. intros [x a] [y b] Hx%elem_of_map_to_list Hy%elem_of_map_to_list. simpl. intros <-.
      by rewrite (vw_inj _ Hwf x y a Hx Hy).
    - intros a ([x b] & -> & Hx%elem_of_map_to_list)%list_elem_of_fmap. simpl. apply elem_of_elements, elem_of_dom. by apply (Hlf x). }
  rewrite length_fmap, length_map_to_list in Hs. rewrite <- (size_dom (c_leaves k)). exact Hs.
Qed.

Lemma shows_size infos V L : shows infos V L -> size L = size (cv_keys V).
Proof.
  intros [Hs Hk]. rewrite <- !size_dom. f_equal. apply leibniz_equiv. intros k. rewrite !elem_of_dom. split; [apply Hk|].
  intros [a Ha]. destruct (Hs k a Ha) as (v & r & info & _ & _ & _ & ->). eauto.
Qed.

Lemma tinv_shows s hT t A X m N i V : tinv s hT t A X m N -> vw X t i = Some V -> shows (t_infos s) V (lvl A i).
Proof.
  intros HI HV. split; [|intros k; by apply (ti_keys _ _ _ _ _ _ _ HI)]. intros k a Hk.
  destruct (ti_seg _ _ _ _ _ _ _ HI i V k a HV Hk) as (v & r & info & [(V0 & HV0 & _ & He) ? ? ? _ _]). rewrite HV in HV0. injection HV0 as <-. eauto 10.
Qed.

(** The maps show what they did. *)
Lemma tinv_crits s s' hT t A X m N N' : tinv s hT t A X m N -> same_but_crits s s' -> crits_inv s' X N' -> tinv s' hT t A X m N'.
Proof. intros [_ ? ? ? ? ? ? ? ? ? ?] (h & C & ->) HC. by split. Qed.

Lemma above_all L : (forall k, is_Some (L !! k) -> 0 < k) -> above L 0 = L.
Proof. intros Hp. apply map_filter_id. intros k r E. apply (Hp k). eauto. Qed.

(** The counted ranges of [n] levels from [i] on. *)
Fixpoint count_levels A (pool : Z) (n i : nat) : Z :=
  match n with O => 0 | S n => items (lvl A i) 0 pool + count_levels A pool n (S i) end.
Fixpoint size_levels A (n i : nat) : Z :=
  match n with O => 0 | S n => Z.of_nat (size (lvl A i)) + size_levels A n (S i) end.

Lemma size_levels_pos A n i : 0 <= size_levels A n i.
Proof. revert i. induction n as [|n IH]; intros i; simpl; [lia|]. specialize (IH (S i)). lia. Qed.
Lemma count_levels_bound A pool n i : levels_wf A -> 0 <= count_levels A pool n i <= size_levels A n i.
Proof.
  intros Hwf. revert i. induction n as [|n IH]; intros i; simpl; [lia|]. specialize (IH (S i)). pose proof (items_bound (lvl A i) 0 pool) as Hb.
  rewrite above_all in Hb; [lia|]. intros k [r E]. by apply (lw_range _ Hwf i k r).
Qed.

Lemma wp_count_all n i s hT t A X m N pool (Q : Z -> tstate H B -> Prop) : levels_wf A -> tinv s hT t A X m N ->
  (i + n)%nat = MAX_LEVELS_OF_ALLOC_SEGMENT_MAP -> N + 2 * size_levels A n i + Z.of_nat n + DELETED_LIFE < two64 ->
  (forall s', same_but_crits s s' -> tinv s' hT t A X m (N + 2 * size_levels A n i + Z.of_nat n) -> keeps_foreign s s' ->
     Q (count_levels A pool n i) s') ->
  wp (count_all_items n i hT pool) Q s.
Proof.
  intros Hwf. revert i s N Q. induction n as [|n IH]; intros i s N Q HI Hin HN HQ.
  - simpl. wp_step. apply HQ; [exists (t_host s), (t_crits s); by destruct s| |apply keeps_foreign_refl]. apply (tinv_mono _ _ _ _ _ _ N); [simpl; lia|done].
  - cbn [count_all_items]. destruct (tinv_level _ _ _ _ _ _ _ i HI) as (c & V & Hc & Hc0 & HX & HV); [unfold MAX_LEVELS_OF_ALLOC_SEGMENT_MAP in *; lia|].
    apply wp_bind, (wp_segments_map s hT t i c); [apply HI|done|]. apply wp_bind. wp_step.
    destruct (crits_lookup _ _ _ _ _ _ (ti_maps _ _ _ _ _ _ _ HI) HX) as (k & Ek & Hat & _ & Hcb).
    apply wp_bind. eapply wp_of_option; [exact Ek|]. cbv beta iota.
    pose proof (tinv_shows _ _ _ _ _ _ _ _ _ HI HV) as Hsh. pose proof (shows_size _ _ _ Hsh) as Esz. pose proof (crit_keys_leaves _ _ _ _ Hat Hcb) as Hle.
    pose proof (size_levels_pos A n (S i)) as Hpos. cbn [size_levels] in HN, HQ.
    assert (above (lvl A i) 0 = lvl A i) as Eab by (apply above_all; intros x [r E]; by apply (lw_range _ Hwf i x r)).
    apply wp_bind, (wp_count_items _ s X N c (FreeLeaf (alloc_info_allocator t)) V (lvl A i)); try done; [apply HI|..].
    + intros x [r E]. pose proof (lw_range _ Hwf i x r E). unfold is_u64. lia.
    + rewrite Eab, Esz. lia.
    + rewrite Eab. lia.
    + rewrite Eab. intros s1 Hs1 HC1 Hf1. apply wp_bind.
      apply (IH (S i) s1 (N + 2 * Z.of_nat (size (lvl A i)) + 1)); [by apply (tinv_crits s _ _ _ _ _ _ N)|lia|lia|].
      intros s2 Hs2 HI2 Hf2. wp_step. pose proof (cr_count _ _ _ (ti_maps _ _ _ _ _ _ _ HI)) as HN0.
      pose proof (count_levels_bound A pool (S n) i Hwf) as Hcl. cbn [count_levels size_levels] in Hcl.
      rewrite add64_small by (unfold is_u64, DELETED_LIFE in *; lia). apply HQ.
      * by eapply same_but_crits_trans.
      * replace (N + 2 * (Z.of_nat (size (lvl A i)) + size_levels A n (S i)) + Z.of_nat (S n)) with
          (N + 2 * Z.of_nat (size (lvl A i)) + 1 + 2 * size_levels A n (S i) + Z.of_nat n) by lia. done.
      * by eapply keeps_foreign_trans.
Qed.

(** The ranges of [pool] in the tracker, all of them for NULL. *)
Definition ranges_of A (pool : Z) : Z := count_levels A pool MAX_LEVELS_OF_ALLOC_SEGMENT_MAP 0.
Definition ranges A : Z := size_levels A MAX_LEVELS_OF_ALLOC_SEGMENT_MAP 0.

Lemma wp_check_if_tracker_is_empty s hT t A X m N pool (Q : unit -> tstate H B -> Prop) : levels_wf A -> tinv s hT t A X m N ->
  N + 2 * ranges A + 8 + DELETED_LIFE < two64 -> ranges_of A pool = 0 \/ t_proxy_lib s = true ->
  (forall s', same_but_crits s s' -> tinv s' hT t A X m (N + 2 * ranges A + 8) -> keeps_foreign s s' -> Q tt s') ->
  wp (check_if_tracker_is_empty hT pool) Q s.
Proof.
  intros Hwf HI HN Hor HQ. unfold check_if_tracker_is_empty. apply wp_bind, (wp_count_all _ 0 s hT t A X m N pool); [done|done|done|done|].
  intros s' Hs HI' Hf. wp_step. fold (ranges_of A pool). assert (t_proxy_lib s' = t_proxy_lib s) as -> by (by destruct Hs as (h & C & ->)).
  destruct Hor as [->| ->]; [|rewrite andb_false_r]; simpl; wp_step; by apply HQ.
Qed.

(** With a range left, the assert fails. *)
Lemma check_fails s hT t A X m N pool : levels_wf A -> tinv s hT t A X m N ->
  N + 2 * ranges A + 8 + DELETED_LIFE < two64 -> ranges_of A pool <> 0 -> t_proxy_lib s = false ->
  check_if_tracker_is_empty hT pool s = None.
Proof.
  intros Hwf HI HN Hn Hp. unfold check_if_tracker_is_empty. set (f := count_all_items _ _ _ _).
  assert (wp f (fun n s' => n = ranges_of A pool /\ t_proxy_lib s' = false) s) as Hw.
  { apply (wp_count_all _ 0 s hT t A X m N pool); [done..|]. intros s' (h & C & ->) _ _. done. }
  unfold wp in Hw. unfold mbind, M_bind. destruct (f s) as [[n s']|]; [|done]. destruct Hw as [-> Hp'].
  unfold get. simpl. rewrite Hp', (proj2 (Z.eqb_neq (ranges_of A pool) 0)) by done. done.
Qed.

Lemma ranges_empty A : (forall i, lvl A i = ∅) -> forall pool, ranges_of A pool = 0 /\ ranges A = 0.
Proof.
  intros He pool. assert (forall n i, count_levels A pool n i = 0 /\ size_levels A n i = 0) as Hn; [|apply Hn].
  induction n as [|n IH]; intros i; [done|]. simpl. destruct (IH (S i)) as [-> ->]. rewrite He. rewrite items_none; [done|]. intros x y. by rewrite lookup_empty.
Qed.
End Count.

Section Ipc.
Context `{HostAllocLaws H} `{ChunkPoolLaws B}.
Implicit Types (s : tstate H B) (X : gmap Z (leaf_cb * cview)) (V : cview) (t : umf_memory_tracker_t) (I : gmap Z tracker_ipc_info_t).

(** The leaves of [V] are those of the keys, without references; [ipcs] are
    the objects of the leaves. *)
Record ipc_view (ipcs : gmap Z tracker_ipc_info_t) I V : Prop := {
  iv_key : forall k a, cv_keys V !! k = Some a -> exists v info, cv_elems V !! a = Some (v, 0) /\ ipcs !! v = Some info /\ I !! k = Some info;
  iv_range : forall k, is_Some (I !! k) -> is_Some (cv_keys V !! k);
  iv_elem : forall a v r, cv_elems V !! a = Some (v, r) -> cv_linked V a;
  iv_value : forall v, is_Some (ipcs !! v) -> exists a r, cv_elems V !! a = Some (v, r);
  iv_once : forall a b v r q, cv_elems V !! a = Some (v, r) -> cv_elems V !! b = Some (v, q) -> a = b;
}.

Record ipc_inv s (hT : Z) t I X (m : gmap Z (gset Z)) (N : Z) : Prop := {
  ip_maps : crits_inv s X N;
  ip_tracker : t_trackers s !! hT = Some t;
  ip_null : ipc_segments_map t <> 0;
  ip_view : exists V, X !! ipc_segments_map t = Some (FreeIpcSegment (ipc_info_allocator t), V) /\ ipc_view (t_ipcs s) I V;
  ip_pools : cp_rep (t_pools s) m;
  ip_chunks : m !! ipc_info_allocator t = Some (dom (t_ipcs s));
}.

(** What the operations on the map do not touch. *)
Record ipc_kept t s X (m : gmap Z (gset Z)) s' X' (m' : gmap Z (gset Z)) : Prop := {
  ik_trackers : t_trackers s' = t_trackers s;
  ik_infos : t_infos s' = t_infos s;
  ik_values : t_values s' = t_values s;
  ik_tracker : TRACKER s' = TRACKER s;
  ik_proxy : t_proxy_lib s' = t_proxy_lib s;
  ik_foreign : keeps_foreign s s';
  ik_crits : forall c, c <> ipc_segments_map t -> X' !! c = X !! c;
  ik_pools : forall q, q <> ipc_info_allocator t -> m' !! q = m !! q;
}.

Definition ipc_tracks {R} t s X m hT (N : Z) (P : R -> gmap Z tracker_ipc_info_t -> Prop) (r : R) (s' : tstate H B) : Prop :=
  exists I' X' m', P r I' /\ ipc_inv s' hT t I' X' m' N /\ ipc_kept t s X m s' X' m'.

Lemma ipc_view_insert ipcs I V k a v info : ipc_view ipcs I V -> ipcs !! v = None -> cv_keys V !! k = None -> cv_elems V !! a = None ->
  ipc_view (<[v := info]> ipcs) (<[k := info]> I) (cv_insert V k v a).
Proof.
  intros [Hk Hr He Hv Ho] Hvn Hkn Han.
  assert (forall x w q, cv_elems V !! x = Some (w, q) -> w <> v) as Hne.
  { intros x w q E ->. destruct (He _ _ _ E) as (k2 & b & Hk2 & ->). destruct (Hk _ _ Hk2) as (w & i & E2 & E3 & _). rewrite E in E2. injection E2 as <- _. congruence. }
  split; simpl.
  - intros x b. destruct (decide (k = x)) as [<-|Hx].
    + rewrite lookup_insert_eq. intros [= <-]. exists v, info. by rewrite !lookup_insert_eq.
    + rewrite lookup_insert_ne by done. intros Hb. destruct (Hk _ _ Hb) as (w & i & E1 & E2 & E3). exists w, i.
      rewrite !lookup_insert_ne; [done|done|by apply not_eq_sym, (Hne _ _ _ E1)|congruence].
  - intros x. destruct (decide (k = x)) as [<-|Hx]; [rewrite !lookup_insert_eq; by eauto|]. rewrite !lookup_insert_ne by done. apply Hr.
  - intros b w q. destruct (decide (a = b)) as [<-|Hb].
    + intros _. exists k, a. split; [apply lookup_insert_eq|done].
    + rewrite lookup_insert_ne by done. intros E. destruct (He _ _ _ E) as (x & b' & Hx & ->). exists x, b. split; [|done]. simpl.
      rewrite lookup_insert_ne; [done|]. congruence.
  - intros w. destruct (decide (v = w)) as [<-|Hw]; [intros _; exists a, 0; apply lookup_insert_eq|]. rewrite lookup_insert_ne by done.
    intros Hi. destruct (Hv _ Hi) as (b & q & E). exists b, q. rewrite lookup_insert_ne; [done|]. congruence.
  - intros b1 b2 w q1 q2. destruct (decide (a = b1)) as [<-|H1']; [rewrite lookup_insert_eq; intros [= <- <-]|rewrite lookup_insert_ne by done; intros E1].
    + destruct (decide (a = b2)) as [<-|H2']; [done|]. rewrite lookup_insert_ne by done. intros E2. by destruct (Hne _ _ _ E2).
    + destruct (decide (a = b2)) as [<-|H2']; [rewrite lookup_insert_eq; intros [= <- <-]; by destruct (Hne _ _ _ E1)|]. rewrite lookup_insert_ne by done. by apply (Ho b1 b2 w q1).
Qed.

Lemma ipc_view_delete ipcs I V k a v : ipc_view ipcs I V -> view_wf V -> cv_keys V !! k = Some a -> cv_elems V !! a = Some (v, 0) ->
  ipc_view (delete v ipcs) (delete k I) (cv_drop V k a v 0).
Proof.
  intros [Hk Hr He Hv Ho] Hwf Hka Hea.
  assert (forall x b, x <> k -> cv_keys V !! x = Some b -> a <> b) as Hab by (intros x b Hx Hb ->; apply Hx; by apply (vw_inj _ Hwf x k b)).
  assert (forall b w q, a <> b -> cv_elems V !! b = Some (w, q) -> v <> w) as Hvw by (intros b w q Hb E ->; apply Hb; by apply (Ho a b w 0 q)).
  unfold cv_drop. rewrite decide_True by done. split; simpl.
  - intros x b [Hx Hb]%lookup_delete_Some. destruct (Hk _ _ Hb) as (w & i & E1 & E2 & E3). assert (a <> b) as Hn by (apply (Hab x); [congruence|done]).
    exists w, i. rewrite !lookup_delete_ne; [done|done|by apply (Hvw b w 0)|done].
  - intros x [i [Hx E]%lookup_delete_Some]. rewrite lookup_delete_ne by done. apply Hr. eauto.
  - intros b w q [Hb E]%lookup_delete_Some. destruct (He _ _ _ E) as (x & b' & Hx & ->). exists x, b. split; [|done]. simpl. rewrite lookup_delete_ne; [done|]. congruence.
  - intros w [i [Hw E]%lookup_delete_Some]. destruct (Hv w) as (b & q & E'); [eauto|]. exists b, q. rewrite lookup_delete_ne; [done|]. congruence.
  - intros b1 b2 w q1 q2 [_ E1]%lookup_delete_Some [_ E2]%lookup_delete_Some. by apply (Ho b1 b2 w q1 q2).
Qed.

(** The objects outside the map may come and go. *)
Lemma ipc_view_fresh ipcs I V v : ipc_view ipcs I V -> ipcs !! v = None -> forall a r, cv_elems V !! a <> Some (v, r).
Proof.
  intros [Hk _ He _ _] Hvn a r E. destruct (He _ _ _ E) as (k & b & Hb & ->). destruct (Hk _ _ Hb) as (w & i & E2 & E3 & _).
  rewrite E in E2. injection E2 as <- _. congruence.
Qed.

Lemma wp_load_tracker s h t (Q : umf_memory_tracker_t -> tstate H B -> Prop) : t_trackers s !! h = Some t -> Q t s -> wp (load_tracker h) Q s.
Proof. intros E HQ. unfold load_tracker. apply wp_bind. wp_step. by eapply wp_of_option. Qed.

Inductive ipc_add_spec I (ptr n provider entry : Z) : umf_result_t -> gmap Z tracker_ipc_info_t -> Prop :=
| ipc_add_success : I !! ptr = None -> ipc_add_spec I ptr n provider entry UMF_RESULT_SUCCESS (<[ptr := mk_ipc_info n provider entry]> I)
| ipc_add_no_memory : ipc_add_spec I ptr n provider entry UMF_RESULT_ERROR_OUT_OF_HOST_MEMORY I
| ipc_add_exists : is_Some (I !! ptr) -> ipc_add_spec I ptr n provider entry UMF_RESULT_ERROR_UNKNOWN I.

(** The insertion failed with [e]. *)
Lemma wp_ipc_add_undo e s s1 s2 hT t I X m N V ptr n provider entry v :
  let al := ipc_info_allocator t in let m1 := <[al := {[v]} ∪ dom (t_ipcs s)]> m in
  ipc_inv s hT t I X m N -> X !! ipc_segments_map t = Some (FreeIpcSegment al, V) -> ipc_view (t_ipcs s) I V ->
  t_ipcs s !! v = None -> s1 = with_ipcs (<[v := mk_ipc_info n provider entry]> (t_ipcs s)) (with_pools (t_pools s1) s) ->
  same_but_crits s1 s2 -> crits_inv s2 X (N + 1) -> keeps_foreign s1 s2 -> cp_rep (t_pools s2) m1 -> e <> 0 ->
  ipc_add_spec I ptr n provider entry (if e =? ENOMEM then UMF_RESULT_ERROR_OUT_OF_HOST_MEMORY else UMF_RESULT_ERROR_UNKNOWN) I ->
  wp (if e =? 0 then mret UMF_RESULT_SUCCESS else
      _ ← on_pools (umf_ba_free al v);
      _ ← modify (fun s => with_ipcs (delete v (t_ipcs s)) s);
      if e =? ENOMEM then mret UMF_RESULT_ERROR_OUT_OF_HOST_MEMORY else mret UMF_RESULT_ERROR_UNKNOWN)
    (ipc_tracks t s X m hT (N + 1) (ipc_add_spec I ptr n provider entry)) s2.
Proof.
  intros al m1 [_ Ht Hm0 _ Hrep Hch] HX HV Hvn Es1 (h' & C' & Es2) HC2 Hf2 Hb He Hsp. rewrite (proj2 (Z.eqb_neq e 0)) by done. apply wp_bind, wp_on_pools.
  eapply wp_mono; [apply (cp_free al v ({[v]} ∪ dom (t_ipcs s)) _ m1 Hb); [apply lookup_insert_eq|set_solver]|].
  intros [] b3 Hb3. simpl in Hb3. wp_step. rewrite Es1 in Es2, Hf2. set (s3 := with_ipcs _ _).
  assert (t_ipcs s3 = t_ipcs s) as E3 by (unfold s3; rewrite Es2; simpl; by apply delete_insert_id).
  assert (ipc_tracks t s X m hT (N + 1) (ipc_add_spec I ptr n provider entry) (if e =? ENOMEM then UMF_RESULT_ERROR_OUT_OF_HOST_MEMORY else UMF_RESULT_ERROR_UNKNOWN) s3) as Hres.
  { exists I, X, m. split_and!; [done|split; rewrite ?E3; try done|split; unfold s3; rewrite ?Es2; try done].
    - by apply (crits_inv_ext s2).
    - unfold s3. by rewrite Es2.
    - by exists V.
    - replace m with (<[al := ({[v]} ∪ dom (t_ipcs s)) ∖ {[v]}]> m1); [done|]. unfold m1. rewrite insert_insert_eq. apply insert_id.
      unfold al. rewrite Hch. f_equal. apply not_elem_of_dom in Hvn. set_solver.
    - rewrite <- Es2. exact Hf2. }
  destruct (e =? ENOMEM); by wp_step.
Qed.

Lemma wp_umfMemoryTrackerAddIpcSegment s hT t I X m N ptr n provider entry :
  ipc_inv s hT t I X m N -> N + DELETED_LIFE < two64 -> is_u64 ptr -> hT <> 0 -> provider <> 0 -> entry <> 0 ->
  wp (umfMemoryTrackerAddIpcSegment hT ptr n provider entry) (ipc_tracks t s X m hT (N + 1) (ipc_add_spec I ptr n provider entry)) s.
Proof.
  intros HI HN Hu H1' H2' H3'. pose proof HI as [HC Ht Hm0 (V & HX & HV) Hrep Hch]. unfold umfMemoryTrackerAddIpcSegment.
  do 3 (wp_step; [by apply negb_true_iff, Z.eqb_neq|]). apply wp_bind, (wp_load_tracker s hT t); [done|].
  set (al := ipc_info_allocator t) in *. set (c := ipc_segments_map t) in *. destruct (crits_wf _ _ _ _ _ _ HC HX) as [Hwf Hcb].
  apply wp_bind, wp_on_pools. eapply wp_mono; [by apply (cp_alloc al (dom (t_ipcs s)) _ m)|]. intros v b [[-> Hb]|(Hv0 & Hfr & Hb)].
  { simpl. wp_step. exists I, X, m. split_and!; [constructor|split; try done|by split].
    - apply (crits_inv_mono _ _ N); [lia|]. by apply (crits_inv_ext s).
    - by exists V. }
  assert (t_ipcs s !! v = None) as Hvn by (apply not_elem_of_dom, (Hfr al); done).
  rewrite (proj2 (Z.eqb_neq v 0)) by done. wp_step. set (s1 := with_ipcs _ _).
  set (info := mk_ipc_info n provider entry) in *. set (m1 := <[al := {[v]} ∪ dom (t_ipcs s)]> m) in *.
  apply wp_bind, (wp_on_critnib s1 X N c (FreeIpcSegment al) V (CInsert ptr v false) _ RInt); [done|by apply (crits_inv_ext s)|done|done|by split|].
  intros ret V' h' C' Hst s2 HC2 Hf2. simpl in Hst.
  destruct Hst as [[[= ->] ->]|Hst].
  { rewrite freed_by_same by done. simpl call_leaf_cbs. apply wp_ret. rewrite insert_id in HC2 by done.
    apply (wp_ipc_add_undo ENOMEM s s1 s2 hT t I X m N V ptr n provider entry v); try done; [by exists h', C'|constructor]. }
  destruct (cv_keys V !! ptr) as [a|] eqn:Ek.
  - destruct Hst as [[= ->] ->]. rewrite freed_by_same by done. simpl call_leaf_cbs. apply wp_ret. rewrite insert_id in HC2 by done.
    apply (wp_ipc_add_undo EEXIST s s1 s2 hT t I X m N V ptr n provider entry v); try done; [by exists h', C'|].
    apply ipc_add_exists. destruct (iv_key _ _ _ HV _ _ Ek) as (? & ? & _ & _ & ->). eauto.
  - destruct Hst as (a & Ha & [= ->] & ->). rewrite freed_by_same by done. simpl call_leaf_cbs. apply wp_ret. simpl. wp_step.
    exists (<[ptr := info]> I), (<[c := (FreeIpcSegment al, cv_insert V ptr v a)]> X), m1. split_and!; [constructor|split; try done|split; try done].
    + destruct (I !! ptr) eqn:E; [|done]. destruct (iv_range _ _ _ HV ptr) as [? E']; [by rewrite E|]. congruence.
    + eexists. rewrite lookup_insert_eq. split; [done|]. by apply ipc_view_insert.
    + unfold m1. rewrite lookup_insert_eq. simpl. by rewrite dom_insert_L.
    + intros q Hq. by apply lookup_insert_ne.
    + intros q Hq. by apply lookup_insert_ne.
Qed.

Inductive ipc_remove_spec I (ptr : Z) : umf_result_t -> gmap Z tracker_ipc_info_t -> Prop :=
| ipc_remove_success : is_Some (I !! ptr) -> ipc_remove_spec I ptr UMF_RESULT_SUCCESS (delete ptr I)
| ipc_remove_missing : I !! ptr = None -> ipc_remove_spec I ptr UMF_RESULT_ERROR_UNKNOWN I.

Lemma wp_free_ipc s m al v (Q : unit -> tstate H B -> Prop) :
  is_Some (t_ipcs s !! v) -> v <> 0 -> cp_rep (t_pools s) m -> m !! al = Some (dom (t_ipcs s)) ->
  (forall b, cp_rep b (<[al := dom (delete v (t_ipcs s))]> m) -> Q tt (with_ipcs (delete v (t_ipcs s)) (with_pools b s))) ->
  wp (free_ipc_segment al v) Q s.
Proof.
  intros Hi Hv Hrep Hm HQ. unfold free_ipc_segment. rewrite (proj2 (Z.eqb_neq v 0)) by done. apply wp_bind, wp_on_pools.
  eapply wp_mono; [apply (cp_free al v (dom (t_ipcs s)) _ m Hrep Hm); by apply elem_of_dom|].
  intros [] b Hb. simpl in Hb. rewrite <- dom_delete_L in Hb. apply wp_modify. by apply HQ.
Qed.

Lemma wp_umfMemoryTrackerRemoveIpcSegment s hT t I X m N ptr :
  ipc_inv s hT t I X m N -> N + 1 + DELETED_LIFE < two64 -> ptr <> 0 ->
  wp (umfMemoryTrackerRemoveIpcSegment hT ptr) (ipc_tracks t s X m hT (N + 2) (ipc_remove_spec I ptr)) s.
Proof.
  intros [HC Ht Hm0 (V & HX & HV) Hrep Hch] HN H1'. unfold umfMemoryTrackerRemoveIpcSegment.
  wp_step; [by apply negb_true_iff, Z.eqb_neq|]. apply wp_bind, (wp_load_tracker s hT t); [done|].
  set (al := ipc_info_allocator t) in *. set (c := ipc_segments_map t) in *. destruct (crits_wf _ _ _ _ _ _ HC HX) as [Hwf Hcb].
  apply wp_bind, (wp_on_critnib s X N c (FreeIpcSegment al) V (CRemove ptr true) _ (fun x => RVal x.1 x.2)); [done|done|lia|done|done|].
  intros [v1 ref1] V1 h1 C1 Hst s1 HC1 Hf1. simpl in Hst. rewrite Hcb in Hst. simpl in Hst.
  destruct (cv_keys V !! ptr) as [a|] eqn:Hk.
  2:{ destruct Hst as [[= -> ->] ->]. rewrite freed_by_same by done. simpl call_leaf_cbs. apply wp_ret. simpl. wp_step. rewrite insert_id in HC1 by done.
      exists I, X, m. split_and!; [apply ipc_remove_missing|split; try done|by split].
      - destruct (I !! ptr) eqn:E; [|done]. destruct (iv_range _ _ _ HV ptr) as [? E']; [by rewrite E|]. congruence.
      - apply (crits_inv_mono _ _ (N + 1)); [lia|done].
      - by exists V. }
  destruct (iv_key _ _ _ HV _ _ Hk) as (v & info & He & Hi & HI). destruct (vw_elem _ Hwf _ _ Hk) as (v0 & r0 & He0 & Hv0 & _). rewrite He in He0. injection He0 as <- <-.
  destruct Hst as (v2 & r2 & He2 & [= -> ->] & ->). rewrite He in He2. injection He2 as <- <-.
  rewrite freed_by_same by done. simpl call_leaf_cbs. apply wp_ret. rewrite (proj2 (Z.eqb_neq v 0)) by done. wp_step; [by apply bool_decide_eq_true|].
  set (V1 := cv_remove V ptr a v 0) in *.
  assert (cv_elems V1 !! a = Some (v, 0 + 1)) as HeV1 by (unfold V1, cv_remove; rewrite Hcb; apply lookup_insert_eq).
  assert (cv_cb V1 = true) as Hcb1 by done. assert (cv_freed V1 = cv_freed V) as Hfr1 by done.
  assert (cv_release V1 a v (0 + 1) = cv_drop V ptr a v 0) as Edrop by (by apply cv_drop_eq). clearbody V1.
  apply wp_bind, (wp_on_critnib s1 (<[c := (FreeIpcSegment al, V1)]> X) (N + 1) c (FreeIpcSegment al) V1 (CRelease (Some a)) _ RInt); [done|done|done|apply lookup_insert_eq| |].
  { simpl. intros _ b [= <-]. exists v, 1. split; [done|lia]. }
  intros ret V2 h2 C2 Hst s2 HC2 Hf2. simpl in Hst. rewrite Hcb1 in Hst.
  destruct Hst as (v2 & r2 & He2 & _ & ->). rewrite HeV1 in He2. injection He2 as <- <-.
  rewrite Edrop in HC2 |- *. rewrite insert_insert_eq in HC2. replace (N + 1 + 1) with (N + 2) in HC2 by lia.
  assert (freed_by V1 (cv_drop V ptr a v 0) = [v]) as -> by (unfold freed_by, cv_drop; rewrite Hfr1; simpl; apply drop_app_length).
  simpl call_leaf_cbs. apply wp_bind, (wp_free_ipc s2 m al v); [by exists info|done|done|done|]. intros b Hb. wp_step. wp_step.
  exists (delete ptr I), (<[c := (FreeIpcSegment al, cv_drop V ptr a v 0)]> X), (<[al := dom (delete v (t_ipcs s))]> m).
  split_and!; [apply ipc_remove_success; eauto|split; try done|split; try done].
  - by apply (crits_inv_ext s2).
  - eexists. rewrite lookup_insert_eq. split; [done|]. by apply ipc_view_delete.
  - apply lookup_insert_eq.
  - exact (keeps_foreign_trans s s1 s2 Hf1 Hf2).
  - intros q Hq. by apply lookup_insert_ne.
  - intros q Hq. by apply lookup_insert_ne.
Qed.

(** The range of [I] that contains [ptr]: the last one that starts before it. *)
Definition ipc_hit I (ptr k : Z) (info : tracker_ipc_info_t) : Prop :=
  I !! k = Some info /\ k <= ptr /\ (forall k' i', I !! k' = Some i' -> k' <= ptr -> k' <= k) /\ ptr < add64 k (ii_size info).

Inductive ipc_info_spec I (ptr : Z) (old : umf_ipc_info_t) : umf_result_t * umf_ipc_info_t -> gmap Z tracker_ipc_info_t -> Prop :=
| ipc_info_missing : (ptr = 0 \/ forall k info, ~ ipc_hit I ptr k info) -> ipc_info_spec I ptr old (UMF_RESULT_ERROR_INVALID_ARGUMENT, old) I
| ipc_info_found k info : ipc_hit I ptr k info -> ipc_info_spec I ptr old (UMF_RESULT_SUCCESS, mk_umf_ipc_info k (ii_size info) (ii_provider info)) I.

Lemma wp_umfMemoryTrackerGetIpcInfo s t I X m N ptr old :
  ipc_inv s (TRACKER s) t I X m N -> TRACKER s <> 0 -> N + 1 + DELETED_LIFE < two64 -> is_u64 ptr ->
  wp (umfMemoryTrackerGetIpcInfo ptr old) (ipc_tracks t s X m (TRACKER s) (N + 2) (ipc_info_spec I ptr old)) s.
Proof.
  intros [HC Ht Hm0 (V & HX & HV) Hrep Hch] HT HN Hu. unfold umfMemoryTrackerGetIpcInfo.
  assert (forall s' r, same_but_crits s s' -> crits_inv s' X (N + 2) -> keeps_foreign s s' -> ipc_info_spec I ptr old r I ->
    ipc_tracks t s X m (TRACKER s) (N + 2) (ipc_info_spec I ptr old) r s') as Hend.
  { intros s' r (h & C & ->) HC' Hf' Hsp. exists I, X, m. split_and!; [done|split; try done|by split]. by exists V. }
  destruct (Z.eqb_spec ptr 0) as [->|Hp0].
  { wp_step. apply Hend; [by exists (t_host s), (t_crits s); destruct s|apply (crits_inv_mono _ _ N); [lia|done]|apply keeps_foreign_refl|apply ipc_info_missing; by left]. }
  wp_step. rewrite (proj2 (Z.eqb_neq (TRACKER s) 0)) by done. apply wp_bind, (wp_load_tracker s _ t); [done|]. cbv zeta.
  rewrite (proj2 (Z.eqb_neq (ipc_segments_map t) 0)) by done.
  set (al := ipc_info_allocator t) in *. set (c := ipc_segments_map t) in *. destruct (crits_wf _ _ _ _ _ _ HC HX) as [Hwf Hcb].
  apply wp_bind, (wp_on_critnib s X N c (FreeIpcSegment al) V (CFind ptr FIND_LE true) _ RFind); [done|done|lia|done|by split|].
  intros x V' h' C' Hst s1 HC1 Hf1. simpl in Hst. rewrite Hcb in Hst. simpl in Hst. destruct Hst as (o & Hb & Hst). unfold find_spec in Hb. simpl in Hb.
  destruct o as [[k a]|].
  2:{ destruct Hst as ([= ->] & ->). rewrite freed_by_same by done. simpl. rewrite insert_id in HC1 by done. wp_step. wp_step.
      apply Hend; [by exists h', C'|apply (crits_inv_mono _ _ (N + 1)); [lia|done]|done|]. apply ipc_info_missing. right. intros k i (Hk & Hle & _).
      destruct (iv_range _ _ _ HV k) as [a Ha]; [by rewrite Hk|]. specialize (Hb k a Ha). lia. }
  destruct Hst as (v & n & He & [= ->] & ->). destruct Hb as (Hk & Hle & Hbest). destruct (iv_key _ _ _ HV _ _ Hk) as (v' & info & He' & Hi & HIk).
  rewrite He in He'. injection He' as <- ->. destruct (vw_elem _ Hwf _ _ Hk) as (v0 & r0 & He0 & Hv0 & _). rewrite He in He0. injection He0 as <- <-.
  rewrite freed_by_same by apply (cv_ref_values V a v 0 He). simpl. wp_step. rewrite (proj2 (Z.eqb_neq v 0)) by done.
  unfold load_ipc. apply wp_bind, wp_bind. wp_step. wp_step; [exact Hi|].
  assert (forall (Q : unit -> tstate H B -> Prop), (forall s2, same_but_crits s s2 -> crits_inv s2 X (N + 2) -> keeps_foreign s s2 -> Q tt s2) ->
    wp (_ ← on_critnib c (critnib_release (Some a)); mret tt) Q s1) as Hrel.
  { intros Q HQ. apply wp_bind, (wp_unref s1 X (N + 1) c (FreeIpcSegment al) V k a v 0); [done..|]. intros y s2 Hs2 HC2 Hf2. wp_step. apply HQ.
    - eapply same_but_crits_trans; [|done]. by exists h', C'.
    - by replace (N + 2) with (N + 1 + 1) by lia.
    - by eapply keeps_foreign_trans. }
  assert (forall k', is_Some (I !! k') -> k' <= ptr -> k' <= k) as Hmax.
  { intros k' Hk' Hle'. destruct (iv_range _ _ _ HV k' Hk') as [b Hb]. by apply (Hbest k' b). }
  rewrite Z.geb_leb. destruct (Z.leb_spec (add64 k (ii_size info)) ptr) as [Hout|Hin]; apply wp_bind, Hrel; intros s2 Hs2 HC2 Hf2; wp_step; apply Hend; try done.
  - apply ipc_info_missing. right. intros k' i' (Hk' & Hle' & Hmax' & Hlt). assert (k' = k) as ->.
    { apply Z.le_antisymm; [apply Hmax; [by rewrite Hk'|done]|by apply (Hmax' k info)]. }
    rewrite HIk in Hk'. injection Hk' as <-. lia.
  - apply ipc_info_found. split_and!; [done|done|intros k' i' Hk' Hle'; apply Hmax; [by rewrite Hk'|done]|done].
Qed.
End Ipc.
