(* ===== verification/TrackerLife.v ===== *)
(** * Creating and destroying the tracker

    A critnib that is created belongs to the tracker, one that is deleted
    gives all its objects back.  [umfMemoryTrackerCreate] leaves an empty
    tracker or, when something fails, nothing; [umfMemoryTrackerDestroy] frees
    all there is when no range is left and no reference is held. *)

From S2P Require Import Prelude Utils HostMem CritQuery CritDelete CritSpec CritInsert CritRemove CritInv CritWorld.
From stdpp Require Import list strings.
From S2P Require Import Critnib Tracker TrackerInv TrackerOps TrackerIpc.
#[local] Open Scope Z_scope.

Section Life.
Context `{HostAllocLaws H} `{ChunkPoolLaws B}.
Implicit Types (s : tstate H B) (X : gmap Z (leaf_cb * cview)) (V : cview) (t : umf_memory_tracker_t).

(** The live objects are the loose ones and those of the critnibs. *)
Lemma live_split s X N a tg : crits_inv s X N ->
  ba_live (t_host s) !! a = Some tg <-> loose s a tg \/ exists c e, t_crits s !! c = Some e /\ own_tag e.2 a = Some tg.
Proof.
  intros HI. split.
  - intros Ht. destruct (decide (map_Forall (fun _ e => own_tag e.2 a = None) (t_crits s))) as [Hf|Hf].
    + left. split; [|done]. intros c e E [tg' Ho]. specialize (Hf c e E). simpl in Hf. congruence.
    + apply map_not_Forall in Hf as (c & [cb k] & E & Ho); [|apply _]. simpl in Ho. right. exists c, (cb, k). split; [done|]. simpl.
      destruct (own_tag k a) as [tg'|] eqn:Eo; [|done]. destruct (proj1 (cr_dom _ _ _ HI c)) as [[cb' V] EV]; [by rewrite E|].
      destruct (cr_at _ _ _ HI _ _ _ _ _ E EV) as (_ & Hat & _). rewrite (crit_live _ _ _ _ _ _ Hat Eo) in Ht. congruence.
  - intros [[_ Ht]|(c & [cb k] & E & Ho)]; [done|]. destruct (proj1 (cr_dom _ _ _ HI c)) as [[cb' V] EV]; [by rewrite E|].
    destruct (cr_at _ _ _ HI _ _ _ _ _ E EV) as (_ & Hat & _). by apply (crit_live _ _ _ _ _ _ Hat).
Qed.

Lemma same_live s s' X N X' N' : crits_inv s X N -> crits_inv s' X' N' -> t_crits s' = t_crits s -> keeps_foreign s s' ->
  ba_live (t_host s') = ba_live (t_host s).
Proof.
  intros HI HI' Ec Hl. apply map_eq. intros a. apply option_eq. intros tg. rewrite (live_split s X N), (live_split s' X' N') by done.
  by rewrite Ec, (Hl a tg).
Qed.

(** The critnibs depend on their own objects. *)
Lemma crits_inv_host s s' X N : crits_inv s X N -> t_crits s' = t_crits s ->
  (forall c e a, t_crits s !! c = Some e -> owns e.2 a -> ba_live (t_host s') !! a = ba_live (t_host s) !! a) -> crits_inv s' X N.
Proof.
  intros [HN Hd Ha Hap] Ec Hl. split; rewrite ?Ec; [done|done| |done]. intros c cb k cb' V Ek EV. destruct (Ha _ _ _ _ _ Ek EV) as (-> & Hat & ? & ?).
  split_and!; [done| |done..]. apply (crit_frame (t_host s)); [done|]. intros a Ho. by apply (Hl c (cb, k)).
Qed.

(** What the life cycle of critnibs does not touch. *)
Record quiet s s' : Prop := {
  qt_pools : t_pools s' = t_pools s;
  qt_infos : t_infos s' = t_infos s;
  qt_ipcs : t_ipcs s' = t_ipcs s;
  qt_values : t_values s' = t_values s;
  qt_tracker : TRACKER s' = TRACKER s;
  qt_proxy : t_proxy_lib s' = t_proxy_lib s;
  qt_loose : keeps_foreign s s';
}.

Lemma quiet_refl s : quiet s s.
Proof. by split. Qed.
Lemma quiet_trans s1 s2 s3 : quiet s1 s2 -> quiet s2 s3 -> quiet s1 s3.
Proof. intros [] []. split; try congruence. by eapply keeps_foreign_trans. Qed.
Lemma quiet_trackers T s : quiet s (with_trackers T s).
Proof. by split. Qed.

(** ** One critnib *)

Lemma crits_add s X N c cb k h : crits_inv s X N -> self (c_crit k) = c -> crit_at h k (cv_new true) 0 ->
  (forall a, owns k a -> a = c) -> ba_live (t_host s) !! c = None -> ba_live h = <[c := tag_critnib]> (ba_live (t_host s)) ->
  let s' := Tracker.with_host h (with_crits (<[c := (cb, k)]> (t_crits s)) s) in
  t_crits s !! c = None /\ crits_inv s' (<[c := (cb, cv_new true)]> X) N /\ quiet s s'.
Proof.
  intros HI Hself Hat Hown Hfr Eh s'.
  assert (forall c2 e2, t_crits s !! c2 = Some e2 -> ~ owns e2.2 c) as Hno.
  { intros c2 e2 E [tg Ho]. assert (ba_live (t_host s) !! c = Some tg) as Hl; [|congruence]. apply (live_split s X N); [done|]. eauto. }
  assert (t_crits s !! c = None) as Hnew.
  { destruct (t_crits s !! c) as [[cb2 k2]|] eqn:E; [|done]. destruct (Hno c (cb2, k2) E). destruct (proj1 (cr_dom _ _ _ HI c)) as [[cb' V] EV]; [by rewrite E|].
    destruct (cr_at _ _ _ HI _ _ _ _ _ E EV) as (_ & _ & <- & _). apply owns_self. }
  pose proof HI as [HN Hd Ha Hap]. split_and!; [done|split; [done|..]|split; [done..|]].
  - intros c2. unfold s'. simpl. destruct (decide (c = c2)) as [<-|Hne]; [rewrite !lookup_insert_eq; split; eauto|].
    rewrite !lookup_insert_ne by done. apply Hd.
  - intros c2 cb2 k2 cb3 V2. unfold s'. simpl. destruct (decide (c = c2)) as [<-|Hne].
    + rewrite !lookup_insert_eq. intros [= <- <-] [= <- <-]. split_and!; [done|by apply (crit_mono _ _ _ 0)|done..].
    + rewrite !lookup_insert_ne by done. intros E2 EV2. destruct (Ha _ _ _ _ _ E2 EV2) as (-> & Hat2 & ? & ?).
      split_and!; [done| |done..]. apply (crit_frame (t_host s)); [done|]. intros a Ho. rewrite Eh, lookup_insert_ne; [done|].
      intros <-. by apply (Hno c2 _ E2).
  - intros c1 c2 e1 e2 a. unfold s'. simpl. destruct (decide (c = c1)) as [<-|Hne1].
    + rewrite lookup_insert_eq. intros [= <-] E2 Hne Ho%Hown. rewrite lookup_insert_ne in E2 by done. subst a. by apply (Hno c2).
    + rewrite lookup_insert_ne by done. intros E1. destruct (decide (c = c2)) as [<-|Hne2].
      * rewrite lookup_insert_eq. intros [= <-] _ Ho Ho2%Hown. subst a. by apply (Hno c1 e1).
      * rewrite lookup_insert_ne by done. intros E2. by apply Hap.
  - intros a tg. unfold loose, foreign, s'. simpl. rewrite Eh. split.
    + intros [Hf Ht]. assert (a <> c) as Hne by (intros ->; apply (Hf c (cb, k)); [apply lookup_insert_eq|]; simpl; rewrite <- Hself; apply owns_self).
      rewrite lookup_insert_ne in Ht by done. split; [|done]. intros c2 e2 E2. apply (Hf c2). rewrite lookup_insert_ne; [done|]. congruence.
    + intros [Hf Ht]. assert (a <> c) as Hne by congruence. rewrite lookup_insert_ne by done. split; [|done].
      intros c2 e2. destruct (decide (c = c2)) as [<-|Hn2]; [rewrite lookup_insert_eq; intros [= <-]; by intros ?%Hown|].
      rewrite lookup_insert_ne by done. apply Hf.
Qed.

Lemma crits_drop s X N c cb k h : crits_inv s X N -> t_crits s !! c = Some (cb, k) ->
  (forall a, ba_live h !! a = rest_of k (t_host s) !! a) ->
  let s' := Tracker.with_host h (with_crits (delete c (t_crits s)) s) in
  crits_inv s' (delete c X) N /\ quiet s s'.
Proof.
  intros HI Ek Hrest s'. pose proof HI as [HN Hd Ha Hap].
  assert (forall a, ~ owns k a -> ba_live h !! a = ba_live (t_host s) !! a) as Hsame.
  { intros a Ho. rewrite Hrest, rest_of_lookup. apply eq_None_not_Some in Ho. by rewrite Ho. }
  split; [split; [done|..]|split; [done..|]].
  - intros c2. unfold s'. simpl. destruct (decide (c = c2)) as [<-|Hne]; [rewrite !lookup_delete_eq; split; by intros []|].
    rewrite !lookup_delete_ne by done. apply Hd.
  - unfold s'. simpl. intros c2 cb2 k2 cb3 V2 [Hne E2]%lookup_delete_Some [_ EV2]%lookup_delete_Some.
    destruct (Ha _ _ _ _ _ E2 EV2) as (-> & Hat2 & ? & ?). split_and!; [done| |done..].
    apply (crit_frame (t_host s)); [done|]. intros a Ho. apply Hsame. intros Ho2. by apply (Hap _ _ _ _ a Ek E2 Hne).
  - unfold s'. simpl. intros c1 c2 e1 e2 a [_ E1]%lookup_delete_Some [_ E2]%lookup_delete_Some. by apply (Hap c1 c2).
  - intros a tg. unfold loose, foreign, s'. simpl. split.
    + intros [Hf Ht]. rewrite Hrest, rest_of_lookup in Ht. destruct (own_tag k a) eqn:Eo; [done|]. split; [|done].
      intros c2 e2 E2. destruct (decide (c = c2)) as [<-|Hne]; [|by apply (Hf c2); rewrite lookup_delete_ne].
      rewrite Ek in E2. injection E2 as <-. unfold owns. simpl. rewrite Eo. by intros [].
    + intros [Hf Ht]. rewrite Hsame by (by apply (Hf c (cb, k))). split; [|done]. intros c2 e2 [_ E2]%lookup_delete_Some. by apply (Hf c2).
Qed.

(** [new_critnib] fails and leaves nothing, or adds an empty critnib. *)
Lemma wp_new_critnib s X N cb (Q : Z -> tstate H B -> Prop) : crits_inv s X N ->
  (forall s', t_crits s' = t_crits s -> t_trackers s' = t_trackers s -> crits_inv s' X N -> quiet s s' -> Q 0 s') ->
  (forall c k s', c <> 0 -> t_crits s !! c = None -> t_crits s' = <[c := (cb, k)]> (t_crits s) -> t_trackers s' = t_trackers s ->
     crits_inv s' (<[c := (cb, cv_new true)]> X) N -> quiet s s' -> Q c s') ->
  wp (new_critnib cb) Q s.
Proof.
  intros HI HQ0 HQ. unfold wp, new_critnib.
  set (s1 := match (umf_ba_global_alloc tag_critnib sizeof_critnib (t_host s)).1 with Some _ => _ | None => s end).
  assert (exists l, s1 = with_mutex_init l s) as [l El].
  { subst s1. destruct (umf_ba_global_alloc _ _ _).1; [by eexists|]. exists (t_mutex_init s). by destruct s. }
  rewrite El. clear s1 El. simpl. destruct (critnib_new _ _ _) as [[k|] h] eqn:E.
  - destruct (crit_new _ _ _ _ _ E) as (Hat & Hown & Hfr & Eh & Hn0).
    assert (crits_inv (with_mutex_init l s) X N) as HI1 by (by apply (crits_inv_ext s)).
    destruct (crits_add (with_mutex_init l s) X N (self (c_crit k)) cb k h) as (Hnew & HI2 & Hq); try done.
    apply (HQ _ k); [done..|]. destruct Hq. by split.
  - apply crit_new_fail in E. apply HQ0; [done|done| |].
    + apply (crits_inv_host s); [done..|]. intros c2 e2 a _ _. simpl. by rewrite E.
    + split; [done..|]. intros a tg. unfold loose, foreign. simpl. by rewrite E.
Qed.

(** A critnib without keys and references is deleted. *)
Definition view_empty V : Prop := cv_keys V = ∅ /\ cv_elems V = ∅.

Lemma view_empty_new cb : view_empty (cv_new cb).
Proof. done. Qed.

Lemma wp_delete_critnib s X N c cb V (Q : unit -> tstate H B -> Prop) : crits_inv s X N -> X !! c = Some (cb, V) -> view_empty V ->
  (forall s', t_crits s' = delete c (t_crits s) -> t_trackers s' = t_trackers s -> crits_inv s' (delete c X) N -> quiet s s' -> Q tt s') ->
  wp (delete_critnib c) Q s.
Proof.
  intros HI EV [Hke Hel] HQ. destruct (crits_lookup _ _ _ _ _ _ HI EV) as (k & Ek & Hat & Hself & Hcb).
  pose proof (wp_crit_delete (t_host s) k V N Hat) as Hw. unfold delete_critnib. apply wp_bind. unfold wp in Hw |- *. unfold on_critnib. rewrite Ek.
  destruct (critnib_delete (Critnib.with_host (t_host s) k)) as [[[] k']|] eqn:Em; [|by destruct Hw; intros a e; rewrite Hel].
  destruct Hw as (Hrest & l & _ & Hl & Efr); [by intros a e; rewrite Hel|].
  assert (l = []) as ->.
  { destruct l as [|[x a] l]; [done|]. assert (cv_keys V !! x = Some a) as Hx by (apply Hl; left). by rewrite Hke, lookup_empty in Hx. }
  rewrite (crit_freed _ _ _ _ Hat), Efr, drop_app_length. unfold live_values. rewrite Hcb. simpl.
  destruct (crits_drop s X N c cb k (c_host k') HI Ek Hrest) as [HI' Hq].
  apply HQ; simpl; [by rewrite delete_insert_eq|done| |].
  - by apply (crits_inv_ext (Tracker.with_host (c_host k') (with_crits (delete c (t_crits s)) s))); [|simpl; by rewrite delete_insert_eq|].
  - destruct Hq as [? ? ? ? ? ? Hlo]. split; [done..|]. intros a tg. rewrite <- (Hlo a tg). unfold loose, foreign. simpl. by rewrite delete_insert_eq.
Qed.

(** ** The array of maps *)

(** The maps that exist. *)
Definition nz (l : list Z) : list Z := filter (fun c => c <> 0) l.

Definition del_all {E} (l : list Z) (m : gmap Z E) : gmap Z E := foldr delete m l.

Lemma del_all_in {E} l (m : gmap Z E) c : c ∈ l -> del_all l m !! c = None.
Proof.
  induction l as [|d l IH]; [by intros ?%elem_of_nil|]. intros [->|Hc]%elem_of_cons; simpl; [apply lookup_delete_eq|].
  destruct (decide (d = c)) as [->|Hne]; [apply lookup_delete_eq|]. rewrite lookup_delete_ne by done. by apply IH.
Qed.
Lemma del_all_out {E} l (m : gmap Z E) c : c ∉ l -> del_all l m !! c = m !! c.
Proof.
  induction l as [|d l IH]; [done|]. intros [Hne Hc]%not_elem_of_cons. simpl. rewrite lookup_delete_ne by done. by apply IH.
Qed.
Lemma del_all_delete {E} l (m : gmap Z E) c : del_all l (delete c m) = delete c (del_all l m).
Proof. induction l as [|d l IH]; [done|]. simpl. by rewrite IH, delete_delete. Qed.

Definition with_maps (l : list Z) t : umf_memory_tracker_t :=
  mk_tracker (alloc_info_allocator t) l (splitMergeMutex t) (ipc_info_allocator t) (ipc_segments_map t).

Lemma wp_update_tracker s h t f (Q : unit -> tstate H B -> Prop) : t_trackers s !! h = Some t ->
  Q tt (with_trackers (<[h := f t]> (t_trackers s)) s) -> wp (update_tracker h f) Q s.
Proof. intros E HQ. unfold wp, update_tracker, load_tracker, mbind, M_bind, get. simpl. by rewrite E. Qed.

Lemma wp_delete_maps n i s X N h t zero (Q : unit -> tstate H B -> Prop) :
  crits_inv s X N -> t_trackers s !! h = Some t -> (i + n)%nat = length (alloc_segments_map t) ->
  let D := nz (drop i (alloc_segments_map t)) in
  NoDup D -> (forall c, c ∈ D -> exists cb V, X !! c = Some (cb, V) /\ view_empty V) ->
  (forall s' L', t_trackers s' = <[h := with_maps L' t]> (t_trackers s) -> t_crits s' = del_all D (t_crits s) ->
     crits_inv s' (del_all D X) N -> quiet s s' -> Q tt s') ->
  wp (delete_maps n i h zero) Q s.
Proof.
  revert i s X t Q. induction n as [|n IH]; intros i s X t Q HI Ht Hlen D Hnd Hin HQ.
  - simpl. wp_step. apply (HQ s (alloc_segments_map t)); subst D; rewrite ?drop_ge by lia; [|done..|apply quiet_refl].
    rewrite insert_id; [done|]. rewrite Ht. by destruct t.
  - cbn [delete_maps]. destruct (lookup_lt_is_Some_2 (alloc_segments_map t) i) as [c Hc]; [lia|].
    apply wp_bind, (wp_segments_map s h t i c); [done..|]. subst D. rewrite (drop_S _ _ _ Hc) in *. simpl in *. unfold nz in *.
    destruct (Z.eqb_spec c 0) as [->|Hc0].
    + apply wp_bind. wp_step. apply (IH (S i) s X t); try done; [lia|..]; by rewrite filter_cons_False in * by lia.
    + rewrite filter_cons_True in * by done. apply NoDup_cons in Hnd as [Hnc Hnd]. destruct (Hin c) as (cb & V & EV & He); [left|].
      apply wp_bind, wp_bind, (wp_delete_critnib s X N c cb V); [done..|]. intros s1 Ec1 Et1 HI1 Hq1.
      assert (forall x, x ∈ filter (fun c => c <> 0) (drop (S i) (alloc_segments_map t)) -> exists cb V, delete c X !! x = Some (cb, V) /\ view_empty V) as Hin1.
      { intros x Hx. destruct (Hin x) as (cb' & V' & EV' & He'); [by right|]. exists cb', V'. split; [|done]. rewrite lookup_delete_ne; [done|]. by intros ->. }
      destruct zero.
      * apply (wp_update_tracker s1 h t); [by rewrite Et1|]. apply (IH (S i) _ (delete c X) (set_map i 0 t)).
        { by apply (crits_inv_ext s1). }
        { apply lookup_insert_eq. }
        { simpl. rewrite length_insert. lia. }
        { simpl. rewrite drop_insert_lt by lia. done. }
        { simpl. rewrite drop_insert_lt by lia. done. }
        simpl. rewrite drop_insert_lt by lia. intros s2 L' Et2 Ec2 HI2 Hq2. apply (HQ s2 L').
        { rewrite Et2, insert_insert_eq, Et1. done. }
        { rewrite Ec2, Ec1. apply del_all_delete. }
        { by rewrite del_all_delete in HI2. }
        { eapply quiet_trans; [done|]. eapply quiet_trans; [apply quiet_trackers|done]. }
      * wp_step. apply (IH (S i) s1 (delete c X) t); [done|by rewrite Et1|lia|done|done|].
        intros s2 L' Et2 Ec2 HI2 Hq2. apply (HQ s2 L').
        { by rewrite Et2, Et1. }
        { rewrite Ec2, Ec1. apply del_all_delete. }
        { by rewrite del_all_delete in HI2. }
        { by eapply quiet_trans. }
Qed.

(** The critnibs [D] were created. *)
Record made (al : Z) (D : list Z) s X s' X' : Prop := {
  md_new : forall c, c ∈ D -> c <> 0 /\ t_crits s !! c = None /\ X' !! c = Some (FreeLeaf al, cv_new true);
  md_nodup : NoDup D;
  md_old : forall c, c ∉ D -> X' !! c = X !! c /\ t_crits s' !! c = t_crits s !! c;
}.

Lemma made_nil al s X s' : t_crits s' = t_crits s -> made al [] s X s' X.
Proof. intros E. split; [intros c []%elem_of_nil|constructor|by rewrite E]. Qed.

Lemma made_cons al c D s X k s1 s' X' : c <> 0 -> t_crits s !! c = None -> t_crits s1 = <[c := (FreeLeaf al, k)]> (t_crits s) ->
  made al D s1 (<[c := (FreeLeaf al, cv_new true)]> X) s' X' -> made al (c :: D) s X s' X'.
Proof.
  intros H0' Hn E1 [Hnew Hnd Hold]. assert (c ∉ D) as Hc by (intros Hc; destruct (Hnew c Hc) as (_ & E & _); by rewrite E1, lookup_insert_eq in E). split.
  - intros x [->|Hx]%elem_of_cons; [split_and!; [done..|]; rewrite (proj1 (Hold c Hc)); apply lookup_insert_eq|].
    destruct (Hnew x Hx) as (? & E & ?). split_and!; [done| |done]. rewrite E1 in E. by apply lookup_insert_None in E as [? _].
  - by constructor.
  - intros x [Hne Hx]%not_elem_of_cons. destruct (Hold x Hx) as [-> ->]. by rewrite E1, !lookup_insert_ne.
Qed.

Lemma made_ext al D s X s' X' s0 s1 : t_crits s0 = t_crits s -> t_crits s1 = t_crits s' -> made al D s X s' X' -> made al D s0 X s1 X'.
Proof. intros E0 E1 []. split; rewrite ?E0, ?E1; done. Qed.

(** Deleting them again leaves what was there. *)
Lemma made_del al D s X s' X' N : crits_inv s X N -> made al D s X s' X' -> del_all D X' = X /\ del_all D (t_crits s') = t_crits s.
Proof.
  intros HI [Hnew _ Hold]. split; apply map_eq; intros c; (destruct (decide (c ∈ D)) as [Hc|Hc]; [rewrite del_all_in by done|rewrite del_all_out by done; by destruct (Hold c Hc)]).
  - destruct (Hnew c Hc) as (_ & E & _). symmetry. apply eq_None_not_Some. rewrite <- (cr_dom _ _ _ HI), E. by intros [].
  - by destruct (Hnew c Hc) as (_ & -> & _).
Qed.

Lemma nz_zeros l : Forall (fun c => c = 0) l -> nz l = [].
Proof. induction 1 as [|c l -> _ IH]; [done|]. unfold nz. rewrite filter_cons_False by lia. done. Qed.

Lemma nz_all l : (forall c, c ∈ l -> c <> 0) -> nz l = l.
Proof.
  induction l as [|c l IH]; [done|]. intros Hl. unfold nz. rewrite filter_cons_True by (apply Hl; left). f_equal. apply IH. intros x Hx. apply Hl. by right.
Qed.

Lemma wp_create_maps n i s X N h t al (Q : bool -> tstate H B -> Prop) :
  crits_inv s X N -> t_trackers s !! h = Some t -> (i + n)%nat = length (alloc_segments_map t) ->
  Forall (fun c => c = 0) (drop i (alloc_segments_map t)) ->
  (forall r s' X' L', length L' = length (alloc_segments_map t) -> take i L' = take i (alloc_segments_map t) ->
     t_trackers s' = <[h := with_maps L' t]> (t_trackers s) -> made al (nz (drop i L')) s X s' X' ->
     (r = true -> nz (drop i L') = drop i L') -> crits_inv s' X' N -> quiet s s' -> Q r s') ->
  wp (create_maps n i h al) Q s.
Proof.
  revert i s X t Q. induction n as [|n IH]; intros i s X t Q HI Ht Hlen Hz HQ.
  - simpl. wp_step. apply (HQ true s X (alloc_segments_map t)); [done|done|..|done|apply quiet_refl]; rewrite ?drop_ge by lia; [|by apply made_nil|done].
    rewrite insert_id; [done|]. rewrite Ht. by destruct t.
  - destruct (lookup_lt_is_Some_2 (alloc_segments_map t) i) as [c0 Hc0]; [lia|]. rewrite (drop_S _ _ _ Hc0) in Hz. apply Forall_cons in Hz as [-> Hz].
    cbn [create_maps]. apply wp_bind, (wp_new_critnib s X N); [done|..].
    + intros s1 Ec1 Et1 HI1 Hq1. apply wp_bind, (wp_update_tracker s1 h t); [by rewrite Et1|]. simpl. wp_step.
      apply (HQ false _ X (alloc_segments_map t)); try done.
      * simpl. rewrite Et1. unfold set_map. by rewrite list_insert_id.
      * rewrite (drop_S _ _ _ Hc0), nz_zeros by by constructor. by apply made_nil.
      * by apply (crits_inv_ext s1).
      * eapply quiet_trans; [done|apply quiet_trackers].
    + intros c k s1 Hne Hfr Ec1 Et1 HI1 Hq1. apply wp_bind, (wp_update_tracker s1 h t); [by rewrite Et1|].
      rewrite (proj2 (Z.eqb_neq c 0)) by done. apply (IH (S i) _ (<[c := (FreeLeaf al, cv_new true)]> X) (set_map i c t)).
      * by apply (crits_inv_ext s1).
      * apply lookup_insert_eq.
      * simpl. rewrite length_insert. lia.
      * simpl. by rewrite drop_insert_lt by lia.
      * simpl. rewrite length_insert. intros r s2 X2 L' Hl2 Htk Et2 Hmd Hr HI2 Hq2.
        assert (L' !! i = Some c) as Hi by (rewrite <- (lookup_take_lt _ (S i)), Htk, lookup_take_lt, list_lookup_insert_eq by lia; done).
        assert (nz (drop i L') = c :: nz (drop (S i) L')) as Enz by (rewrite (drop_S _ _ _ Hi); unfold nz; by rewrite filter_cons_True).
        apply (HQ r s2 X2 L'); [done|..|done|].
        { assert (forall l : list Z, take i l = take i (take (S i) l)) as Et by (intros l; rewrite take_take; f_equal; lia). rewrite Et, Htk, <- Et. by apply take_insert_ge. }
        { rewrite Et2, insert_insert_eq, Et1. done. }
        { rewrite Enz. apply (made_cons al c _ s X k (with_trackers (<[h := set_map i c t]> (t_trackers s1)) s1)); done. }
        { intros Hrt. rewrite Enz, Hr by done. by rewrite (drop_S _ _ _ Hi). }
        { eapply quiet_trans; [done|]. eapply quiet_trans; [apply quiet_trackers|done]. }
Qed.

(** ** Creation *)

(** As [quiet], but the chunk pools may change. *)
Definition calm s s' : Prop := quiet (with_pools (t_pools s') s) s'.

Lemma quiet_calm s s' : quiet s s' -> calm s s'.
Proof. intros []. by split. Qed.
Lemma calm_trans s1 s2 s3 : calm s1 s2 -> calm s2 s3 -> calm s1 s3.
Proof. intros [_ ? ? ? ? ? L1] [_ ? ? ? ? ? L2]. split; simpl in *; try congruence. exact (keeps_foreign_trans s1 s2 s3 L1 L2). Qed.
Lemma calm_pools b s : calm s (with_pools b s).
Proof. by split. Qed.
Lemma calm_loose s s' a tg : calm s s' -> loose s' a tg <-> loose s a tg.
Proof. intros [_ _ _ _ _ _ Hl]. apply (Hl a tg). Qed.

(** Every tracker is an object of the allocator. *)
Definition trackers_live s : Prop := forall h, is_Some (t_trackers s !! h) -> loose s h tag_tracker.

(** Nothing of a failed call is left. *)
Record unchanged s X (m : gmap Z (gset Z)) (N : Z) s' : Prop := {
  un_maps : crits_inv s' X N;
  un_crits : t_crits s' = t_crits s;
  un_trackers : t_trackers s' = t_trackers s;
  un_infos : t_infos s' = t_infos s;
  un_ipcs : t_ipcs s' = t_ipcs s;
  un_values : t_values s' = t_values s;
  un_tracker : TRACKER s' = TRACKER s;
  un_proxy : t_proxy_lib s' = t_proxy_lib s;
  un_pools : cp_rep (t_pools s') m;
  un_live : ba_live (t_host s') = ba_live (t_host s);
}.

(** The state after the handle [h] was allocated. *)
Record with_handle s X (N h : Z) s1 : Prop := {
  wh_fresh : ba_live (t_host s) !! h = None;
  wh_new : t_trackers s !! h = None;
  wh_loose : forall a tg, loose s1 a tg <-> loose s a tg \/ (a = h /\ tg = tag_tracker);
  wh_infos : t_infos s1 = t_infos s;
  wh_ipcs : t_ipcs s1 = t_ipcs s;
  wh_values : t_values s1 = t_values s;
  wh_tracker : TRACKER s1 = TRACKER s;
  wh_proxy : t_proxy_lib s1 = t_proxy_lib s;
}.

Lemma handle_added s X N h host T : crits_inv s X N -> trackers_live s ->
  ba_live (t_host s) !! h = None -> ba_live host = <[h := tag_tracker]> (ba_live (t_host s)) ->
  let s1 := with_trackers T (Tracker.with_host host s) in crits_inv s1 X N /\ with_handle s X N h s1.
Proof.
  intros HI Htl Hfr Eh s1.
  assert (foreign s h) as Hfo.
  { intros c e E [tg Ho]. assert (ba_live (t_host s) !! h = Some tg) as Hl; [|congruence]. apply (live_split s X N); [done|]. eauto. }
  split; [|split; try done].
  - apply (crits_inv_host s); [done..|]. intros c2 e2 a E2 Ho. unfold s1. simpl. rewrite Eh, lookup_insert_ne; [done|].
    intros <-. by apply (Hfo c2 e2).
  - apply eq_None_not_Some. intros Hs. destruct (Htl h Hs) as [_ Hl]. congruence.
  - intros a tg. unfold s1, loose, foreign. simpl. rewrite Eh. destruct (decide (h = a)) as [<-|Hne].
    + rewrite lookup_insert_eq. split; [intros [_ [= <-]]; by right|]. intros [[_ Hl]|[_ ->]]; [congruence|done].
    + rewrite lookup_insert_ne by done. split; [by left|]. intros [?|[-> _]]; done.
Qed.

(** Freeing the handle undoes it. *)
Lemma wp_free_handle s s1 s2 X N h t2 m ret ho : crits_inv s X N -> with_handle s X N h s1 -> calm s1 s2 ->
  t_crits s2 = t_crits s -> t_trackers s2 = <[h := t2]> (t_trackers s) -> crits_inv s2 X N -> cp_rep (t_pools s2) m ->
  wp (_ ← free_tracker h; mret (ret : umf_result_t, ho : Z)) (fun r s' => r = (ret, ho) /\ unchanged s X m N s') s2.
Proof.
  intros HI Hw Hc Ec Et HI2 Hm. unfold free_tracker. wp_step. wp_step. split; [done|].
  assert (loose s2 h tag_tracker) as [Hfo Hl]. { rewrite (calm_loose s1 s2 _ _ Hc), (wh_loose _ _ _ _ _ Hw). by right. }
  set (s3 := Tracker.with_host _ _). assert (ba_live (t_host s3) = delete h (ba_live (t_host s2))) as E3.
  { unfold s3. simpl. apply ba_free_live. by rewrite Hl. }
  assert (crits_inv s3 X N) as HI3.
  { apply (crits_inv_host s2); [done..|]. intros c2 e2 a E2 Ho. rewrite E3, lookup_delete_ne; [done|]. intros <-. by apply (Hfo c2 e2). }
  destruct Hw as [Hf Hn Hlo ? ? ? ? ?]. destruct Hc as [_ ? ? ? ? ? Hlo2]. split; try done; simpl in *; try congruence.
  - rewrite Et. by apply delete_insert_id.
  - apply (same_live s s3 X N X N); [done..|]. intros a tg. split.
    + intros [Hf3 Hl3]. simpl in Hl3. rewrite E3 in Hl3. apply lookup_delete_Some in Hl3 as [Hne Hl3].
      destruct (proj1 (Hlo a tg)) as [|[-> _]]; [apply (Hlo2 a tg); by split|done|done].
    + intros Hla. assert (a <> h) as Hne by (intros ->; destruct Hla as [_ Hla]; congruence).
      destruct (proj2 (Hlo2 a tg)) as [Hf2 Hl2]; [apply Hlo; by left|]. split; [exact Hf2|]. simpl. by rewrite E3, lookup_delete_ne.
Qed.

Lemma wp_destroy_allocator s s1 s2 X N h t2 m al ret ho : crits_inv s X N -> with_handle s X N h s1 -> calm s1 s2 ->
  t_crits s2 = t_crits s -> t_trackers s2 = <[h := t2]> (t_trackers s) -> crits_inv s2 X N ->
  m !! al = None -> cp_rep (t_pools s2) (<[al := ∅]> m) ->
  wp (_ ← on_pools (umf_ba_destroy al); _ ← free_tracker h; mret (ret : umf_result_t, ho : Z)) (fun r s' => r = (ret, ho) /\ unchanged s X m N s') s2.
Proof.
  intros HI Hw Hc Ec Et HI2 Hal Hm. apply wp_bind, wp_on_pools. eapply wp_mono; [apply (cp_destroy al _ _ Hm), lookup_insert_eq|].
  intros [] b Hb. simpl in Hb. rewrite delete_insert_id in Hb by done. apply (wp_free_handle s s1 _ X N h t2); try done.
  - eapply calm_trans; [done|apply calm_pools].
  - by apply (crits_inv_ext s2).
Qed.

Lemma wp_destroy_made s s1 s2 X X2 N h t2 m al ret ho : crits_inv s X N -> with_handle s X N h s1 -> calm s1 s2 ->
  t_crits s1 = t_crits s -> t_trackers s2 = <[h := t2]> (t_trackers s) -> crits_inv s2 X2 N ->
  made al (nz (alloc_segments_map t2)) s1 X s2 X2 -> length (alloc_segments_map t2) = MAX_LEVELS_OF_ALLOC_SEGMENT_MAP ->
  m !! al = None -> cp_rep (t_pools s2) (<[al := ∅]> m) ->
  wp (_ ← delete_maps MAX_LEVELS_OF_ALLOC_SEGMENT_MAP 0 h false; _ ← on_pools (umf_ba_destroy al); _ ← free_tracker h; mret (ret : umf_result_t, ho : Z))
    (fun r s' => r = (ret, ho) /\ unchanged s X m N s') s2.
Proof.
  intros HI Hw Hc Ec Et HI2 Hmd Hlen Hal Hm.
  assert (t_trackers s2 !! h = Some t2) as Eh by (rewrite Et; apply lookup_insert_eq).
  destruct (made_del al (nz (alloc_segments_map t2)) s X s2 X2 N HI) as [EX EC]; [destruct Hmd; split; try done; by rewrite <- Ec|].
  apply wp_bind, (wp_delete_maps _ 0 s2 X2 N h t2); [done..| | |].
  { rewrite drop_0. apply Hmd. }
  { rewrite drop_0. intros c Hx. destruct (md_new _ _ _ _ _ _ Hmd c Hx) as (_ & _ & E). exists (FreeLeaf al), (cv_new true). split; [done|apply view_empty_new]. }
  rewrite drop_0. intros s3 L' Et3 Ec3 HI3 Hq3. rewrite EX in HI3. rewrite EC in Ec3.
  apply (wp_destroy_allocator s s1 s3 X N h (with_maps L' t2)); try done.
  - eapply calm_trans; [done|]. by apply quiet_calm.
  - by rewrite Et3, Et, insert_insert_eq.
  - by rewrite (qt_pools _ _ Hq3).
Qed.

(** A new tracker [t] at [h]. *)
Record fresh_tracker s X (m : gmap Z (gset Z)) (N h : Z) t s' X' (m' : gmap Z (gset Z)) : Prop := {
  ft_null : h <> 0;
  ft_maps : crits_inv s' X' N;
  ft_len : length (alloc_segments_map t) = MAX_LEVELS_OF_ALLOC_SEGMENT_MAP;
  ft_made : made (alloc_info_allocator t) (alloc_segments_map t) s X (with_crits (delete (ipc_segments_map t) (t_crits s')) s') (delete (ipc_segments_map t) X');
  ft_ipc_map : X' !! ipc_segments_map t = Some (FreeIpcSegment (ipc_info_allocator t), cv_new true);
  ft_ipc_new : ipc_segments_map t <> 0 /\ t_crits s !! ipc_segments_map t = None /\ ipc_segments_map t ∉ alloc_segments_map t;
  ft_new_pools : m !! alloc_info_allocator t = None /\ <[alloc_info_allocator t := ∅]> m !! ipc_info_allocator t = None;
  ft_pools : cp_rep (t_pools s') m' /\ m' = <[ipc_info_allocator t := ∅]> (<[alloc_info_allocator t := ∅]> m);
  ft_trackers : t_trackers s' = <[h := t]> (t_trackers s);
  ft_handle : with_handle s X N h s';
}.

Definition create_post s X (m : gmap Z (gset Z)) (N ho : Z) (r : umf_result_t * Z) s' : Prop :=
  (exists e, e <> UMF_RESULT_SUCCESS /\ r = (e, ho) /\ unchanged s X m N s') \/
  (exists h t X' m', r = (UMF_RESULT_SUCCESS, h) /\ fresh_tracker s X m N h t s' X' m').

Lemma create_failed s X m N ho (e : umf_result_t) (f : M (tstate H B) (umf_result_t * Z)) s2 : e <> UMF_RESULT_SUCCESS ->
  wp f (fun r s' => r = (e, ho) /\ unchanged s X m N s') s2 -> wp f (create_post s X m N ho) s2.
Proof. intros He Hw. eapply wp_mono; [exact Hw|]. intros r s' [-> Hu]. left. by exists e. Qed.

(** The part of [umfMemoryTrackerCreate] after the maps were created. *)
Lemma wp_create_ipc s s1 s2 X X2 N h t2 m al ho : crits_inv s X N -> with_handle s X N h s1 -> calm s1 s2 -> h <> 0 ->
  t_crits s1 = t_crits s -> t_trackers s2 = <[h := t2]> (t_trackers s) -> crits_inv s2 X2 N ->
  made al (alloc_segments_map t2) s1 X s2 X2 -> nz (alloc_segments_map t2) = alloc_segments_map t2 ->
  length (alloc_segments_map t2) = MAX_LEVELS_OF_ALLOC_SEGMENT_MAP -> alloc_info_allocator t2 = al ->
  m !! al = None -> cp_rep (t_pools s2) (<[al := ∅]> m) ->
  wp (ipc_allocator ← on_pools (umf_ba_create sizeof_ipc_info);
      _ ← update_tracker h (set_ipc_allocator ipc_allocator);
      let err_free_handle ret := _ ← free_tracker h; mret (ret, ho) in
      let err_destroy_allocator ret := _ ← on_pools (umf_ba_destroy al); err_free_handle ret in
      let err_destroy_maps ret := _ ← delete_maps MAX_LEVELS_OF_ALLOC_SEGMENT_MAP 0 h false; err_destroy_allocator ret in
      if ipc_allocator =? 0 then err_destroy_maps UMF_RESULT_ERROR_OUT_OF_HOST_MEMORY else
      ipc_map ← new_critnib (FreeIpcSegment ipc_allocator);
      _ ← update_tracker h (set_ipc_map ipc_map);
      if ipc_map =? 0 then
        _ ← on_pools (umf_ba_destroy ipc_allocator);
        err_destroy_maps UMF_RESULT_ERROR_OUT_OF_HOST_MEMORY
      else mret (UMF_RESULT_SUCCESS, h)) (create_post s X m N ho) s2.
Proof.
  intros HI Hw Hc Hh0 Ec Et HI2 Hmd Hnz Hlen Hal2 Hal Hm. apply wp_bind, wp_on_pools. cbv zeta.
  eapply wp_mono; [apply (cp_create sizeof_ipc_info _ _ Hm); unfold sizeof_ipc_info; lia|].
  intros ipc b Hb. apply wp_bind, (wp_update_tracker _ h t2); [simpl; rewrite Et; apply lookup_insert_eq|]. simpl t_trackers. rewrite Et, insert_insert_eq.
  set (s3 := with_trackers _ _). assert (crits_inv s3 X2 N) as HI3 by (by apply (crits_inv_ext s2)).
  assert (calm s1 s3) as Hc3 by (eapply calm_trans; [done|]; eapply calm_trans; [apply (calm_pools b)|]; by apply quiet_calm, quiet_trackers).
  destruct Hb as [[-> Hb]|(Hn0 & Hin & Hb)].
  - simpl. apply (create_failed _ _ _ _ _ UMF_RESULT_ERROR_OUT_OF_HOST_MEMORY); [done|]. apply (wp_destroy_made s s1 s3 X X2 N h (set_ipc_allocator 0 t2)); try done. simpl. rewrite Hnz. by apply (made_ext _ _ s1 _ s2).
  - rewrite (proj2 (Z.eqb_neq ipc 0)) by done. apply wp_bind, (wp_new_critnib s3 X2 N); [done|..].
    + intros s4 Ec4 Et4 HI4 Hq4. apply wp_bind, (wp_update_tracker s4 h (set_ipc_allocator ipc t2)); [rewrite Et4; apply lookup_insert_eq|]. rewrite Et4.
      simpl t_trackers. rewrite insert_insert_eq. simpl. apply wp_bind, wp_on_pools.
      eapply wp_mono; [apply (cp_destroy ipc _ (<[ipc := ∅]> (<[al := ∅]> m))); [simpl; by rewrite (qt_pools _ _ Hq4)|apply lookup_insert_eq]|].
      intros [] b5 Hb5. rewrite delete_insert_id in Hb5 by done. apply (create_failed _ _ _ _ _ UMF_RESULT_ERROR_OUT_OF_HOST_MEMORY); [done|].
      apply (wp_destroy_made s s1 _ X X2 N h (set_ipc_map 0 (set_ipc_allocator ipc t2))); try done.
      * eapply calm_trans; [done|]. eapply calm_trans; [by apply quiet_calm|]. eapply calm_trans; [apply quiet_calm, quiet_trackers|apply calm_pools].
      * by apply (crits_inv_ext s4).
      * simpl. rewrite Hnz. by apply (made_ext _ _ s1 _ s2).
    + intros c k s4 Hc0 Hfr Ec4 Et4 HI4 Hq4. apply wp_bind, (wp_update_tracker s4 h (set_ipc_allocator ipc t2)); [rewrite Et4; apply lookup_insert_eq|]. rewrite Et4.
      simpl t_trackers. rewrite insert_insert_eq. rewrite (proj2 (Z.eqb_neq c 0)) by done. wp_step. right.
      set (t4 := set_ipc_map c (set_ipc_allocator ipc t2)). set (X4 := <[c := (FreeIpcSegment ipc, cv_new true)]> X2) in *.
      assert (X2 !! c = None) as HXc by (apply eq_None_not_Some; rewrite <- (cr_dom _ _ _ HI3); by rewrite Hfr; intros []).
      assert (c ∉ alloc_segments_map t2) as Hcn by (intros Hx; destruct (md_new _ _ _ _ _ _ Hmd c Hx) as (_ & _ & E); by rewrite HXc in E).
      exists h, t4, X4, (<[ipc := ∅]> (<[al := ∅]> m)). split; [done|]. split; try done.
      * by apply (crits_inv_ext s4).
      * simpl. unfold X4. rewrite Ec4, !delete_insert_id by done. rewrite Hal2. by apply (made_ext _ _ s1 _ s2).
      * apply lookup_insert_eq.
      * split_and!; [done| |done]. rewrite <- Ec. simpl in Hfr. by rewrite (proj2 (md_old _ _ _ _ _ _ Hmd c Hcn)) in Hfr.
      * simpl. by rewrite Hal2.
      * simpl. rewrite Hal2. split; [by rewrite (qt_pools _ _ Hq4)|done].
      * assert (calm s1 s4) as Hc4 by (eapply calm_trans; [done|by apply quiet_calm]).
        destruct Hw as [? ? Hlo ? ? ? ? ?], Hc4 as [_ ? ? ? ? ? Hlo4]. split; try done; simpl in *; try congruence.
        intros a tg. rewrite <- Hlo. apply (Hlo4 a tg).
Qed.

Lemma wp_umfMemoryTrackerCreate s X N m ho : crits_inv s X N -> cp_rep (t_pools s) m -> trackers_live s ->
  wp (umfMemoryTrackerCreate ho) (create_post s X m N ho) s.
Proof.
  intros HI Hm Htl. unfold umfMemoryTrackerCreate. wp_step. destruct (umf_ba_global_alloc tag_tracker sizeof_tracker (t_host s)) as [[h|] host] eqn:Ea.
  2:{ apply ba_alloc_none in Ea. wp_step. wp_step. left. exists UMF_RESULT_ERROR_OUT_OF_HOST_MEMORY. split_and!; [done..|]. split; try done.
      apply (crits_inv_host s); [done..|]. intros c e a _ _. simpl. by rewrite Ea. }
  pose proof (ba_alloc_nonnull _ _ _ _ _ Ea) as Hh0. apply ba_alloc_some in Ea as [Hfr Eh]. wp_step. wp_step. simpl t_trackers.
  set (t1 := mk_tracker _ _ _ _ _). set (s1 := with_trackers _ _).
  destruct (handle_added s X N h host (<[h := t1]> (t_trackers s)) HI Htl Hfr Eh) as [HI1 Hw]. change (crits_inv s1 X N) in HI1. change (with_handle s X N h s1) in Hw.
  apply wp_bind, wp_on_pools. eapply wp_mono; [apply (cp_create sizeof_alloc_info _ m); [done|unfold sizeof_alloc_info; lia]|].
  intros al b [[-> Hb]|(Hal0 & Hal & Hb)].
  { apply (create_failed _ _ _ _ _ UMF_RESULT_ERROR_OUT_OF_HOST_MEMORY); [done|]. simpl.
    apply (wp_free_handle s s1 _ X N h t1); try done; by apply (crits_inv_ext s1). }
  rewrite (proj2 (Z.eqb_neq al 0)) by done. apply wp_bind, (wp_update_tracker _ h t1); [apply lookup_insert_eq|]. simpl t_trackers. rewrite insert_insert_eq.
  set (t2 := set_alloc_allocator al t1). set (s2 := with_trackers _ _).
  assert (calm s1 s2) as Hc2 by (eapply calm_trans; [apply (calm_pools b)|]; apply quiet_calm, quiet_trackers).
  assert (crits_inv s2 X N) as HI2 by (by apply (crits_inv_ext s1)).
  unfold mutex_init. apply wp_bind. wp_step. wp_step. wp_step. set (s3 := with_mutex_init _ _).
  assert (calm s1 s3) as Hc3 by (destruct Hc2; by split). assert (crits_inv s3 X N) as HI3 by (by apply (crits_inv_ext s2)).
  destruct (default true _); simpl negb; cbv iota; [|apply (create_failed _ _ _ _ _ UMF_RESULT_ERROR_UNKNOWN); [done|]; by apply (wp_destroy_allocator s s1 s3 X N h t2)].
  apply wp_bind, (wp_create_maps _ 0 s3 X N h t2); [done|apply lookup_insert_eq|done| |].
  { simpl. repeat constructor. }
  intros r s4 X4 L' Hlen _ Et4 Hmd Hr HI4 Hq4. change (drop 0 L') with L' in *. simpl t_trackers in Et4. rewrite insert_insert_eq in Et4.
  assert (calm s1 s4) as Hc4 by (eapply calm_trans; [done|by apply quiet_calm]). simpl length in Hlen.
  assert (cp_rep (t_pools s4) (<[al := ∅]> m)) as Hm4 by (by rewrite (qt_pools _ _ Hq4)).
  destruct r; simpl negb; cbv iota.
  - apply (wp_create_ipc s s1 s4 X X4 N h (with_maps L' t2)); try done.
    + simpl. rewrite <- (Hr eq_refl). by apply (made_ext _ _ s3 _ s4).
    + simpl. by apply Hr.
  - apply (create_failed _ _ _ _ _ UMF_RESULT_ERROR_OUT_OF_HOST_MEMORY); [done|].
    apply (wp_destroy_made s s1 s4 X X4 N h (with_maps L' t2)); try done. simpl. by apply (made_ext _ _ s3 _ s4).
Qed.

Definition no_ranges : list level := replicate MAX_LEVELS_OF_ALLOC_SEGMENT_MAP ∅.

Lemma no_ranges_lvl i : lvl no_ranges i = ∅.
Proof. unfold lvl. destruct (no_ranges !! i) eqn:E; [|done]. by apply lookup_replicate in E as [-> _]. Qed.

Lemma no_ranges_wf : levels_wf no_ranges.
Proof. split; [by apply length_replicate|intros i *..]; rewrite no_ranges_lvl; by intros E%lookup_empty_Some. Qed.

(** A new tracker tracks nothing. *)
Lemma fresh_tinv s X m N h t s' X' m' : fresh_tracker s X m N h t s' X' m' -> t_infos s = ∅ ->
  tinv s' h t no_ranges X' m' N /\ forall i V, vw X' t i = Some V -> V = cv_new true.
Proof.
  intros [_ HI Hlen Hmd Him (_ & _ & Hni) [Hp1 Hp2] [Hrep Em] Et Hw] Hi. pose proof (wh_infos _ _ _ _ _ Hw) as Hi'. rewrite Hi in Hi'.
  assert (forall c, c ∈ alloc_segments_map t -> c <> 0 /\ X' !! c = Some (FreeLeaf (alloc_info_allocator t), cv_new true)) as Hc.
  { intros c Hc. destruct (md_new _ _ _ _ _ _ Hmd c Hc) as (H0' & _ & E). split; [done|]. by apply lookup_delete_Some in E as [_ E]. }
  assert (forall i V, vw X' t i = Some V -> V = cv_new true) as Hv.
  { intros i V. unfold vw. destruct (alloc_segments_map t !! i) as [c|] eqn:E; [|done]. simpl. apply list_elem_of_lookup_2 in E. destruct (Hc c E) as [_ ->]. by intros [= <-]. }
  split; [|done]. split; try done.
  - rewrite Et. apply lookup_insert_eq.
  - apply Hmd.
  - intros i c E%list_elem_of_lookup_2. destruct (Hc c E) as [? ?]. eauto.
  - intros i V k a HV Hk. apply Hv in HV as ->. simpl in Hk. by apply lookup_empty_Some in Hk.
  - intros i V k _. rewrite no_ranges_lvl. intros [r E]. by apply lookup_empty_Some in E.
  - rewrite Em, lookup_insert_ne, lookup_insert_eq, Hi'; [by rewrite dom_empty_L|]. intros E. rewrite E, lookup_insert_eq in Hp2. done.
  - intros v. rewrite Hi'. split; [intros [x E]; by apply lookup_empty_Some in E|]. intros (i & V & a & r & HV & He). apply Hv in HV as ->. simpl in He. by apply lookup_empty_Some in He.
  - intros i j V W a b v r q HV _ He. apply Hv in HV as ->. simpl in He. by apply lookup_empty_Some in He.
Qed.

(** ** Destruction *)

(** Nothing is left in the tracker and no reference of a leaf is held. *)
Record idle s (h : Z) t X (m : gmap Z (gset Z)) : Prop := {
  id_null : h <> 0;
  id_handle : loose s h tag_tracker;
  id_refs : forall i V, vw X t i = Some V -> all_released V;
  id_ipc_map : exists V, X !! ipc_segments_map t = Some (FreeIpcSegment (ipc_info_allocator t), V) /\ view_empty V;
  id_ipc_new : ipc_segments_map t ∉ alloc_segments_map t;
  id_ipc_pool : m !! ipc_info_allocator t = Some ∅;
  id_pools : ipc_info_allocator t <> alloc_info_allocator t;
}.

Lemma idle_empty s hT t X m N i V : tinv s hT t no_ranges X m N -> (forall i V, vw X t i = Some V -> all_released V) ->
  vw X t i = Some V -> view_empty V.
Proof.
  intros HI Hr HV. assert (cv_keys V = ∅) as Hk.
  { apply map_empty. intros k. destruct (cv_keys V !! k) as [a|] eqn:E; [|done]. destruct (ti_seg _ _ _ _ _ _ _ HI i V k a HV E) as (v & r & info & [_ _ _ Hl _ _]).
    rewrite no_ranges_lvl in Hl. by apply lookup_empty_Some in Hl. }
  split; [done|]. apply map_empty. intros a. destruct (cv_elems V !! a) as [e|] eqn:E; [|done].
  destruct (Hr i V HV a e E) as (x & b & Hx & _). rewrite Hk in Hx. by apply lookup_empty_Some in Hx.
Qed.

Record destroyed s (h : Z) t X (m : gmap Z (gset Z)) (N : Z) s' : Prop := {
  ds_maps : crits_inv s' (delete (ipc_segments_map t) (del_all (alloc_segments_map t) X)) N;
  ds_trackers : t_trackers s' = delete h (t_trackers s);
  ds_pools : cp_rep (t_pools s') (delete (ipc_info_allocator t) (delete (alloc_info_allocator t) m));
  ds_loose : forall a tg, loose s' a tg <-> loose s a tg /\ a <> h;
  ds_infos : t_infos s' = t_infos s;
  ds_ipcs : t_ipcs s' = t_ipcs s;
  ds_values : t_values s' = t_values s;
  ds_tracker : TRACKER s' = TRACKER s;
}.

Lemma wp_free_old s h (Q : unit -> tstate H B -> Prop) X N : crits_inv s X N -> loose s h tag_tracker ->
  (forall s', crits_inv s' X N -> t_trackers s' = delete h (t_trackers s) -> (forall a tg, loose s' a tg <-> loose s a tg /\ a <> h) ->
     t_pools s' = t_pools s -> t_infos s' = t_infos s -> t_ipcs s' = t_ipcs s -> t_values s' = t_values s -> TRACKER s' = TRACKER s -> Q tt s') ->
  wp (free_tracker h) Q s.
Proof.
  intros HI [Hfo Hl] HQ. unfold free_tracker. wp_step. set (s3 := Tracker.with_host _ _).
  assert (ba_live (t_host s3) = delete h (ba_live (t_host s))) as E3 by (unfold s3; simpl; apply ba_free_live; by rewrite Hl).
  apply HQ; try done.
  - apply (crits_inv_host s); [done..|]. intros c2 e2 a E2 Ho. rewrite E3, lookup_delete_ne; [done|]. intros <-. by apply (Hfo c2 e2).
  - intros a tg. unfold loose. rewrite E3. rewrite lookup_delete_Some. change (foreign s3 a) with (foreign s a). split; [intros (? & ? & ?); by split|]. intros [[? ?] ?]. by split.
Qed.

Lemma wp_umfMemoryTrackerDestroy s h t X m N (Q : unit -> tstate H B -> Prop) :
  tinv s h t no_ranges X m N -> idle s h t X m -> N + 8 + DELETED_LIFE < two64 -> t_proxy_lib s = false ->
  (forall s', destroyed s h t X m (N + 8) s' -> Q tt s') -> wp (umfMemoryTrackerDestroy h) Q s.
Proof.
  intros HI [Hh Hlo Hrf (W & HW & HWe) Hin Hip Hpp] HN Hproxy HQ. unfold umfMemoryTrackerDestroy. rewrite (proj2 (Z.eqb_neq h 0)) by done.
  wp_step. rewrite Hproxy. pose proof (ranges_empty no_ranges no_ranges_lvl 0) as [Er0 Er].
  apply wp_bind, (wp_check_if_tracker_is_empty s h t no_ranges X m N); [apply no_ranges_wf|done|rewrite Er; lia|by left|].
  rewrite Er, Z.add_0_r. intros s1 (hh & C & Es1) HI1 Hf1.
  assert (forall c, c ∈ alloc_segments_map t -> c <> 0 /\ exists V, X !! c = Some (FreeLeaf (alloc_info_allocator t), V) /\ view_empty V) as Hmaps.
  { intros c [i Hc]%list_elem_of_lookup. destruct (ti_map _ _ _ _ _ _ _ HI1 i c Hc) as (Hc0 & V & HV). split; [done|]. exists V. split; [done|].
    apply (idle_empty s h t X m N i V HI Hrf). unfold vw. rewrite Hc. simpl. by rewrite HV. }
  assert (nz (alloc_segments_map t) = alloc_segments_map t) as Enz.
  { apply nz_all. intros c Hc. by apply (Hmaps c). }
  apply wp_bind, (wp_delete_maps _ 0 s1 X (N + 8) h t); [apply HI1|apply HI1|by rewrite (ti_len _ _ _ _ _ _ _ HI1)|rewrite drop_0, Enz; apply HI1|..].
  { rewrite drop_0, Enz. intros c Hc. destruct (Hmaps c Hc) as (_ & V & ? & ?). eauto. }
  rewrite drop_0, Enz. intros s2 L' Et2 Ec2 HC2 Hq2. pose proof Hq2 as [Ep2 Ei2 Ej2 Ev2 ET2 _ Hl2].
  unfold load_tracker at 1. apply wp_bind, wp_bind. wp_step. wp_step; [by rewrite Et2, lookup_insert_eq|]. simpl.
  assert (t_infos s = ∅) as Hie.
  { apply map_empty. intros v. apply eq_None_not_Some. rewrite (ti_values _ _ _ _ _ _ _ HI). intros (i & V & a & r & HV & He).
    destruct (idle_empty s h t X m N i V HI Hrf HV) as [_ E]. rewrite E in He. by apply lookup_empty_Some in He. }
  pose proof (ti_chunks _ _ _ _ _ _ _ HI) as Hch. rewrite Hie, dom_empty_L in Hch. pose proof (ti_pools _ _ _ _ _ _ _ HI1) as Hrep. rewrite <- Ep2 in Hrep.
  apply wp_bind, wp_on_pools. eapply wp_mono; [by apply (cp_destroy (alloc_info_allocator t) _ m)|]. intros [] b3 Hrep3.
  apply wp_bind, (wp_update_tracker _ h (with_maps L' t)); [simpl; by rewrite Et2, lookup_insert_eq|]. simpl t_trackers. rewrite Et2, insert_insert_eq.
  set (s3 := with_trackers _ _). assert (crits_inv s3 (del_all (alloc_segments_map t) X) (N + 8)) as HC3 by (by apply (crits_inv_ext s2)).
  apply wp_bind, (wp_delete_critnib s3 (del_all (alloc_segments_map t) X) (N + 8) (ipc_segments_map t) (FreeIpcSegment (ipc_info_allocator t)) W); [exact HC3|by rewrite del_all_out|done|].
  intros s4 Ec4 Et4 HC4 Hq4. pose proof Hq4 as [Ep4 Ei4 Ej4 Ev4 ET4 _ Hl4].
  apply wp_bind, (wp_update_tracker s4 h (set_alloc_allocator 0 (with_maps L' t))); [rewrite Et4; apply lookup_insert_eq|]. rewrite Et4. simpl t_trackers. rewrite insert_insert_eq.
  apply wp_bind, wp_on_pools. eapply wp_mono.
  { apply (cp_destroy (ipc_info_allocator t) _ (delete (alloc_info_allocator t) m)); [simpl; by rewrite Ep4|by rewrite lookup_delete_ne]. }
  intros [] b5 Hrep5. apply wp_bind, (wp_update_tracker _ h (set_ipc_map 0 (set_alloc_allocator 0 (with_maps L' t)))); [apply lookup_insert_eq|]. simpl t_trackers. rewrite insert_insert_eq.
  set (s5 := with_trackers _ _). assert (crits_inv s5 (delete (ipc_segments_map t) (del_all (alloc_segments_map t) X)) (N + 8)) as HC5 by (by apply (crits_inv_ext s4)).
  assert (forall a tg, loose s5 a tg <-> loose s a tg) as Hl5.
  { intros a tg. rewrite <- (Hf1 a tg), <- (Hl2 a tg). apply (Hl4 a tg). }
  apply (wp_free_old s5 h _ _ _ HC5); [by apply Hl5|]. intros s6 HC6 Et6 Hl6 Ep6 Ei6 Ej6 Ev6 ET6. apply HQ. subst s1. split; try done.
  - rewrite Et6. simpl. rewrite delete_insert_eq. done.
  - by rewrite Ep6.
  - intros a tg. by rewrite Hl6, Hl5.
  - rewrite Ei6. simpl. rewrite Ei4. simpl. by rewrite Ei2.
  - rewrite Ej6. simpl. rewrite Ej4. simpl. by rewrite Ej2.
  - rewrite Ev6. simpl. rewrite Ev4. simpl. by rewrite Ev2.
  - rewrite ET6. simpl. rewrite ET4. simpl. by rewrite ET2.
Qed.
End Life.
