(* ===== verification/TrackerSpec.v ===== *)
(** * What the tracker promises

    The abstract tracker: the ranges of every level and the ranges that were
    mapped from other processes.  [tracker_step] relates a call, its result and the
    ranges before and after; every run of the code is such a run. *)

From S2P Require Import Prelude Utils HostMem CritQuery CritDelete CritSpec CritInsert CritRemove CritInv CritWorld.
From stdpp Require Import list strings.
From S2P Require Import Critnib Tracker TrackerInv TrackerOps TrackerRemove TrackerIpc TrackerLife.
#[local] Open Scope Z_scope.

Inductive tcall :=
| TAdd (pool ptr size : Z)
| TRemove (ptr : Z)
| TGetAllocInfo (ptr : Z) (old : umf_alloc_info_t)
| TGetPool (ptr : Z)
| TAddIpc (ptr size provider cache_entry : Z)
| TRemoveIpc (ptr : Z)
| TGetIpcInfo (ptr : Z) (old : umf_ipc_info_t).

Inductive tres :=
| TResult (r : umf_result_t)
| TAllocInfo (r : umf_result_t * umf_alloc_info_t)
| TPool (pool : Z)
| TIpcInfo (r : umf_result_t * umf_ipc_info_t).

Record aview := AView { av_levels : list level; av_ipc : gmap Z tracker_ipc_info_t }.

(** What the callers of the tracker must obey: [umfMemoryTrackerAdd] is called
    for memory that was just allocated, so no tracked range begins inside of
    it; pointers are words and not NULL. *)
Definition tracker_obeys (v : aview) (c : tcall) : Prop :=
  match c with
  | TAdd _ ptr size => add_obeys (av_levels v) ptr size
  | TRemove ptr => is_u64 ptr /\ ptr <> 0
  | TGetAllocInfo ptr _ | TGetPool ptr | TGetIpcInfo ptr _ => is_u64 ptr
  | TAddIpc ptr _ provider cache_entry => is_u64 ptr /\ provider <> 0 /\ cache_entry <> 0
  | TRemoveIpc ptr => ptr <> 0
  end.

Definition tracker_step (v : aview) (c : tcall) (r : tres) (v' : aview) : Prop :=
  let A := av_levels v in let I := av_ipc v in
  match c with
  | TAdd pool ptr size => av_ipc v' = I /\ exists x, r = TResult x /\ add_spec A ptr size pool x (av_levels v')
  | TRemove ptr => av_ipc v' = I /\ exists x, r = TResult x /\ remove_spec A ptr x (av_levels v')
  | TGetAllocInfo ptr old => av_ipc v' = I /\ exists x, r = TAllocInfo x /\ info_spec A ptr old x (av_levels v')
  | TGetPool ptr => av_ipc v' = I /\ exists x, r = TPool x /\ pool_spec A ptr x (av_levels v')
  | TAddIpc ptr size provider entry => av_levels v' = A /\ exists x, r = TResult x /\ ipc_add_spec I ptr size provider entry x (av_ipc v')
  | TRemoveIpc ptr => av_levels v' = A /\ exists x, r = TResult x /\ ipc_remove_spec I ptr x (av_ipc v')
  | TGetIpcInfo ptr old => av_levels v' = A /\ exists x, r = TIpcInfo x /\ ipc_info_spec I ptr old x (av_ipc v')
  end.

Fixpoint tracker_steps (v : aview) (evs : list (tcall * tres)) (v' : aview) : Prop :=
  match evs with
  | [] => v' = v
  | (c, r) :: evs => exists w, tracker_step v c r w /\ tracker_steps w evs v'
  end.

(** Every call obeys the rules in the state it is made in. *)
Fixpoint tracker_trace_obeys (v : aview) (evs : list (tcall * tres)) : Prop :=
  match evs with
  | [] => True
  | (c, r) :: evs => tracker_obeys v c /\ forall w, tracker_step v c r w -> tracker_trace_obeys w evs
  end.

Section Spec.
Context `{HostAllocLaws H} `{ChunkPoolLaws B}.
Implicit Types (s : tstate H B) (X : gmap Z (leaf_cb * cview)) (V : cview) (t : umf_memory_tracker_t) (v : aview).

Definition run_tcall (c : tcall) : M (tstate H B) tres :=
  s ← get;
  let h := TRACKER s in
  match c with
  | TAdd pool ptr size => x ← umfMemoryTrackerAdd h pool ptr size; mret (TResult x)
  | TRemove ptr => x ← umfMemoryTrackerRemove h ptr; mret (TResult x)
  | TGetAllocInfo ptr old => x ← umfMemoryTrackerGetAllocInfo ptr old; mret (TAllocInfo x)
  | TGetPool ptr => x ← umfMemoryTrackerGetPool ptr; mret (TPool x)
  | TAddIpc ptr size provider entry => x ← umfMemoryTrackerAddIpcSegment h ptr size provider entry; mret (TResult x)
  | TRemoveIpc ptr => x ← umfMemoryTrackerRemoveIpcSegment h ptr; mret (TResult x)
  | TGetIpcInfo ptr old => x ← umfMemoryTrackerGetIpcInfo ptr old; mret (TIpcInfo x)
  end.

Fixpoint run_tcalls (cs : list tcall) : M (tstate H B) (list tres) :=
  match cs with
  | [] => mret []
  | c :: cs => r ← run_tcall c; rs ← run_tcalls cs; mret (r :: rs)
  end.

(** The tracker [t] shows the ranges of [v]. *)
Record tracker_ok s t v X (m : gmap Z (gset Z)) (N : Z) : Prop := {
  to_inv : tinv s (TRACKER s) t (av_levels v) X m N;
  to_ipc : ipc_inv s (TRACKER s) t (av_ipc v) X m N;
  to_wf : levels_wf (av_levels v);
  to_null : TRACKER s <> 0;
  to_map : ipc_segments_map t ∉ alloc_segments_map t;
  to_pool : ipc_info_allocator t <> alloc_info_allocator t;
}.

(** What a call leaves of the rest of the process. *)
Record tracker_frame t s X (m : gmap Z (gset Z)) s' X' (m' : gmap Z (gset Z)) : Prop := {
  tf_trackers : t_trackers s' = t_trackers s;
  tf_values : t_values s' = t_values s;
  tf_tracker : TRACKER s' = TRACKER s;
  tf_proxy : t_proxy_lib s' = t_proxy_lib s;
  tf_foreign : keeps_foreign s s';
  tf_crits : forall c, c ∉ alloc_segments_map t -> c <> ipc_segments_map t -> X' !! c = X !! c;
  tf_pools : forall q, q <> alloc_info_allocator t -> q <> ipc_info_allocator t -> m' !! q = m !! q;
}.

Lemma tracker_frame_refl t s X m : tracker_frame t s X m s X m.
Proof. split; try done. Qed.
Lemma tracker_frame_trans t s1 X1 m1 s2 X2 m2 s3 X3 m3 :
  tracker_frame t s1 X1 m1 s2 X2 m2 -> tracker_frame t s2 X2 m2 s3 X3 m3 -> tracker_frame t s1 X1 m1 s3 X3 m3.
Proof.
  intros [? ? ? ? F1 C1 P1] [? ? ? ? F2 C2 P2]. split; try congruence; [by eapply keeps_foreign_trans|..].
  - intros c Hc Hc'. by rewrite C2, C1.
  - intros q Hq Hq'. by rewrite P2, P1.
Qed.

(** The two kinds of ranges do not interfere. *)
Lemma kept_ipc s s' t A A' I X X' m m' N N' : N <= N' ->
  tracker_ok s t (AView A I) X m N -> tinv s' (TRACKER s) t A' X' m' N' -> kept t s X m s' X' m' -> levels_wf A' ->
  tracker_ok s' t (AView A' I) X' m' N' /\ tracker_frame t s X m s' X' m'.
Proof.
  intros Hle [_ [_ Ht Hm0 (V & HX & HV) _ Hch] _ Hn0 Hm Hpl] HI' [Etr Eip Eva Eta Emu Epr Hf Hc Hp] Hwf. split; [split|split]; try done; simpl in *.
  - by rewrite Eta.
  - rewrite Eta. split; try done; [apply HI'|by rewrite Etr|rewrite Hc by done; exists V; by rewrite Eip|apply HI'|rewrite Hp by done; by rewrite Eip].
  - by rewrite Eta.
  - intros c Hc1 _. by apply Hc.
  - intros q Hq _. by apply Hp.
Qed.

Lemma kept_levels s s' t A I I' X X' m m' N N' : N <= N' ->
  tracker_ok s t (AView A I) X m N -> ipc_inv s' (TRACKER s) t I' X' m' N' -> ipc_kept t s X m s' X' m' ->
  tracker_ok s' t (AView A I') X' m' N' /\ tracker_frame t s X m s' X' m'.
Proof.
  intros Hle [HI HIp Hwf Hn0 Hm Hpl] HI' [Etr Ein Eva Eta Epr Hf Hc Hp]. split; [split|split]; try done; rewrite ?Eta; simpl in *; try done.
  - assert (forall c, c ∈ alloc_segments_map t -> X' !! c = X !! c) as Hc' by (intros c Hx; apply Hc; by intros ->).
    assert (forall i, vw X' t i = vw X t i) as Hv.
    { intros i. unfold vw. destruct (alloc_segments_map t !! i) eqn:E; [|done]. simpl. by rewrite Hc' by (by eapply list_elem_of_lookup_2). }
    destruct HI as [_ Htr Hlen Hnd Hmap Hseg Hkeys Hpo Hch Hval Honce]. split; rewrite ?Ein, ?Etr; try done.
    + apply HI'.
    + intros i c E. rewrite Hc' by (by eapply list_elem_of_lookup_2). by apply (Hmap i).
    + intros i V k a. rewrite Hv. intros HV Hk. destruct (Hseg _ _ _ _ HV Hk) as (v & r & info & [Hvw ? ? ? ? ?]). exists v, r, info. split; try done. by rewrite Hv.
    + intros i V k. rewrite Hv. apply Hkeys.
    + apply HI'.
    + rewrite Hp by done. apply Hch.
    + intros v. rewrite Hval. split; intros (i & V & a & r & HV & He); exists i, V, a, r; [rewrite Hv|rewrite <- Hv]; done.
    + intros i j V W a b v r q. rewrite !Hv. apply Honce.
  - intros c _ Hx. by apply Hc.
  - intros q _ Hx. by apply Hp.
Qed.

Definition tracker_post t s X m v (N : Z) (c : tcall) (r : tres) s' : Prop :=
  exists v' X' m', tracker_step v c r v' /\ tracker_ok s' t v' X' m' N /\ tracker_frame t s X m s' X' m'.

Lemma wp_level_call {R} (f : M (tstate H B) R) (g : R -> tres) s t A I X m N P c : tracker_ok s t (AView A I) X m N ->
  wp f (tracks t s X m (TRACKER s) (N + 20) P) s ->
  (forall x A', P x A' -> tracker_step (AView A I) c (g x) (AView A' I) /\ levels_wf A') ->
  wp (x ← f; mret (g x)) (tracker_post t s X m (AView A I) (N + 20) c) s.
Proof.
  intros Hok Hw HP. apply wp_bind. eapply wp_mono; [exact Hw|]. intros x s' (A' & X' & m' & Hx & HI & Hk). wp_step. destruct (HP x A' Hx) as [Hst Hwf].
  destruct (kept_ipc s s' t A A' I X X' m m' N (N + 20)) as [Hok' Hf]; [lia|done..|]. by exists (AView A' I), X', m'.
Qed.

Lemma wp_ipc_call {R} (f : M (tstate H B) R) (g : R -> tres) s t A I X m N k P c : tracker_ok s t (AView A I) X m N -> 0 <= k <= 20 ->
  wp f (ipc_tracks t s X m (TRACKER s) (N + k) P) s ->
  (forall x I', P x I' -> tracker_step (AView A I) c (g x) (AView A I')) ->
  wp (x ← f; mret (g x)) (tracker_post t s X m (AView A I) (N + 20) c) s.
Proof.
  intros Hok Hk Hw HP. apply wp_bind. eapply wp_mono; [exact Hw|]. intros x s' (I' & X' & m' & Hx & HI & Hkp). wp_step.
  assert (ipc_inv s' (TRACKER s) t I' X' m' (N + 20)) as HI20. { destruct HI. split; try done. apply (crits_inv_mono _ _ (N + k)); [lia|done]. }
  destruct (kept_levels s s' t A I I' X X' m m' N (N + 20)) as [Hok' Hf]; [lia|done..|]. exists (AView A I'), X', m'. split_and!; [by apply HP|done..].
Qed.

Lemma wp_tcall s t v X m N c : tracker_ok s t v X m N -> N + 20 + DELETED_LIFE < two64 -> tracker_obeys v c ->
  wp (run_tcall c) (tracker_post t s X m v (N + 20) c) s.
Proof.
  destruct v as [A I]. intros Hok HN Hob. pose proof Hok as [HI HIp Hwf Hn0 _ _]. simpl in *. unfold run_tcall. wp_step. destruct c as [pool ptr n|ptr|ptr old|ptr|ptr n pr e|ptr|ptr old]; simpl in Hob.
  - eapply wp_level_call; [done|by apply (wp_umfMemoryTrackerAdd s (TRACKER s) t A X m N)|]. intros x A' Hx. split; [|apply (add_spec_wf A ptr n pool x A' Hwf (proj1 Hob) Hx)]. simpl. eauto.
  - destruct Hob as [Hu Hp]. eapply wp_level_call; [done|by apply (wp_umfMemoryTrackerRemove s (TRACKER s) t A X m N)|]. intros x A' Hx. split; [|by apply (remove_spec_wf A ptr x A')]. simpl. eauto.
  - eapply wp_level_call; [done|by apply (wp_umfMemoryTrackerGetAllocInfo s t A X m N)|]. intros x A' Hx. split; [simpl; eauto|by destruct Hx].
  - eapply wp_level_call; [done|by apply (wp_umfMemoryTrackerGetPool s t A X m N)|]. intros x A' Hx. split; [simpl; eauto|by destruct Hx].
  - destruct Hob as (Hu & Hpr & He). eapply (wp_ipc_call _ _ _ _ _ _ _ _ _ 1); [done|lia|apply (wp_umfMemoryTrackerAddIpcSegment s (TRACKER s) t I X m N); (done || lia)|]. intros x I' Hx. simpl. eauto.
  - eapply (wp_ipc_call _ _ _ _ _ _ _ _ _ 2); [done|lia|apply (wp_umfMemoryTrackerRemoveIpcSegment s (TRACKER s) t I X m N); (done || lia)|]. intros x I' Hx. simpl. eauto.
  - eapply (wp_ipc_call _ _ _ _ _ _ _ _ _ 2); [done|lia|apply (wp_umfMemoryTrackerGetIpcInfo s t I X m N); (done || lia)|]. intros x I' Hx. simpl. eauto.
Qed.

(** A run of calls that obey the rules, whatever their results are. *)
Lemma wp_tcalls cs s t v X m N : tracker_ok s t v X m N -> N + 20 * Z.of_nat (length cs) + DELETED_LIFE < two64 ->
  (forall rs, length rs = length cs -> tracker_trace_obeys v (zip cs rs)) ->
  wp (run_tcalls cs) (fun rs s' => length rs = length cs /\ exists v' X' m', tracker_steps v (zip cs rs) v' /\
    tracker_ok s' t v' X' m' (N + 20 * Z.of_nat (length cs)) /\ tracker_frame t s X m s' X' m') s.
Proof.
  revert s v X m N. induction cs as [|c cs IH]; intros s v X m N Hok HN Hob.
  - simpl. wp_step. split; [done|]. exists v, X, m. split_and!; [done| |apply tracker_frame_refl]. by replace (N + 20 * Z.of_nat 0) with N by lia.
  - cbn [run_tcalls length] in *. pose proof (Hob (repeat (TPool 0) (S (length cs)))) as Hob0. rewrite repeat_length in Hob0. destruct (Hob0 eq_refl) as [Hc _].
    apply wp_bind. eapply wp_mono; [apply (wp_tcall s t v X m N); [done|lia|done]|]. intros r s1 (v1 & X1 & m1 & Hst & Hok1 & Hf1).
    apply wp_bind. eapply wp_mono; [apply (IH s1 v1 X1 m1 (N + 20)); [done|lia|]|].
    + intros rs Hl. destruct (Hob (r :: rs)) as [_ Hn]; [simpl; by rewrite Hl|]. by apply Hn.
    + intros rs s2 (Hl & v2 & X2 & m2 & Hsts & Hok2 & Hf2). wp_step. split; [simpl; by rewrite Hl|]. exists v2, X2, m2. split_and!.
      * by exists v1.
      * by replace (N + 20 * Z.of_nat (S (length cs))) with (N + 20 + 20 * Z.of_nat (length cs)) by lia.
      * by eapply tracker_frame_trans.
Qed.

(** ** The life of the tracker *)

(** No tracker exists; [m] are the chunk pools. *)
Record tracker_start s (m : gmap Z (gset Z)) : Prop := {
  ts_crits : t_crits s = ∅;
  ts_trackers : t_trackers s = ∅;
  ts_infos : t_infos s = ∅;
  ts_ipcs : t_ipcs s = ∅;
  ts_pools : cp_rep (t_pools s) m;
}.

Definition empty_view : aview := AView no_ranges ∅.

Lemma start_crits s m : tracker_start s m -> crits_inv s ∅ 0.
Proof.
  intros Hs. split; rewrite ?(ts_crits _ _ Hs); [done|intros c; by rewrite !lookup_empty|..].
  - intros c cb k cb' V E. by apply lookup_empty_Some in E.
  - intros c1 c2 e1 e2 a E. by apply lookup_empty_Some in E.
Qed.

(** The new tracker belongs to nobody else, and nothing else changed. *)
Record tracker_new s (m : gmap Z (gset Z)) t s' X' (m' : gmap Z (gset Z)) : Prop := {
  tn_ok : tracker_ok s' t empty_view X' m' 0;
  tn_idle : idle s' (TRACKER s') t X' m';
  tn_crits : del_all (ipc_segments_map t :: alloc_segments_map t) X' = ∅;
  tn_pools : delete (ipc_info_allocator t) (delete (alloc_info_allocator t) m') = m;
  tn_trackers : t_trackers s' = {[TRACKER s' := t]};
  tn_loose : forall a tg, loose s' a tg <-> ba_live (t_host s) !! a = Some tg \/ (a = TRACKER s' /\ tg = tag_tracker);
  tn_fresh : ba_live (t_host s) !! TRACKER s' = None;
  tn_frame : t_infos s' = ∅ /\ t_ipcs s' = ∅ /\ t_values s' = t_values s /\ t_proxy_lib s' = t_proxy_lib s;
}.

Definition create_TRACKER_post s (m : gmap Z (gset Z)) (r : umf_result_t) s' : Prop :=
  (r <> UMF_RESULT_SUCCESS /\ tracker_start s' m /\ t_values s' = t_values s /\ TRACKER s' = TRACKER s /\ t_proxy_lib s' = t_proxy_lib s /\
     ba_live (t_host s') = ba_live (t_host s)) \/
  (r = UMF_RESULT_SUCCESS /\ exists t X' m', tracker_new s m t s' X' m').

Lemma wp_create_TRACKER s m : tracker_start s m -> wp create_TRACKER (create_TRACKER_post s m) s.
Proof.
  intros Hs. pose proof (start_crits s m Hs) as HC. pose proof Hs as [Ec Et Ei Ej Hp]. unfold create_TRACKER. wp_step. apply wp_bind.
  eapply wp_mono; [apply (wp_umfMemoryTrackerCreate s ∅ 0 m); [done|done|intros h [x E]; rewrite Et in E; by apply lookup_empty_Some in E]|].
  intros r s' [(e & He & -> & Hu)|(h & t & X' & m' & -> & Hft)]; wp_step; wp_step; [left|right; split; [done|]].
  - destruct Hu as [_ uc ut ui uj uv uT up upl ul]. split_and!; try done. split; simpl; [by rewrite uc|by rewrite ut|by rewrite ui|by rewrite uj|done].
  - destruct (fresh_tinv _ _ _ _ _ _ _ _ _ Hft Ei) as [HI Hv]. exists t, X', m'.
    destruct Hft as [Hn0 HC' Hlen Hmd Him (Hm0 & _ & Hmn) [Hp1 Hp2] [Hrep Em] Ett [Hfr _ Hlo Ei' Ej' Ev' _ Epr]].
    set (s2 := with_TRACKER h s'). change (TRACKER s2) with h. assert (ipc_info_allocator t <> alloc_info_allocator t) as Hpn.
    { intros E. rewrite E, lookup_insert_eq in Hp2. done. }
    assert (m' !! ipc_info_allocator t = Some ∅) as Hmi by (rewrite Em; apply lookup_insert_eq).
    assert (forall a tg, loose s2 a tg <-> ba_live (t_host s) !! a = Some tg \/ (a = h /\ tg = tag_tracker)) as Hlo2.
    { intros a tg. change (loose s2 a tg) with (loose s' a tg). rewrite Hlo. unfold loose. split; (intros [Hl|]; [left|by right]); [apply Hl|].
      split; [|done]. intros c e E. rewrite Ec in E. by apply lookup_empty_Some in E. }
    split; try done.
    + split; try done; [destruct HI; split; try done; by apply (crits_inv_ext s')|split; try done; [by apply (crits_inv_ext s')|simpl; rewrite Ett; apply lookup_insert_eq| |simpl; rewrite Hmi, Ej', Ej; by rewrite dom_empty_L]|apply no_ranges_wf].
      exists (cv_new true). split; [done|]. simpl. rewrite Ej', Ej. split; simpl.
      * intros k a E. by apply lookup_empty_Some in E.
      * intros k [x E]. by apply lookup_empty_Some in E.
      * intros a v r E. by apply lookup_empty_Some in E.
      * intros v [x E]. by apply lookup_empty_Some in E.
      * intros a b v r q E. by apply lookup_empty_Some in E.
    + split; try done.
      * apply Hlo2. by right.
      * intros i V HV. apply Hv in HV as ->. intros a e E. simpl in E. by apply lookup_empty_Some in E.
      * exists (cv_new true). split; [done|apply view_empty_new].
    + apply map_empty. intros c. destruct (decide (c ∈ ipc_segments_map t :: alloc_segments_map t)) as [Hc|Hc]; [by apply del_all_in|]. rewrite del_all_out by done.
      apply not_elem_of_cons in Hc as [Hc1 Hc2]. destruct (md_old _ _ _ _ _ _ Hmd c Hc2) as [E _]. by rewrite lookup_delete_ne, lookup_empty in E.
    + rewrite Em, delete_delete, delete_insert_id by done. by apply delete_insert_id.
    + simpl. rewrite Ett, Et. apply insert_empty.
    + simpl. rewrite Ei', Ej', Ev', Epr, Ei, Ej. done.
Qed.

(** Without ranges, the tracker is idle when no reference of a leaf is held. *)
Lemma ok_idle s t X m N : tracker_ok s t empty_view X m N -> loose s (TRACKER s) tag_tracker ->
  (forall i V, vw X t i = Some V -> all_released V) -> idle s (TRACKER s) t X m.
Proof.
  intros [HI [_ _ _ (V & HX & HV) _ Hch] _ Hn0 Hm Hp] Hlo Hrf. simpl in *.
  assert (cv_keys V = ∅) as Hk.
  { apply map_empty. intros k. destruct (cv_keys V !! k) as [a|] eqn:E; [|done]. destruct (iv_key _ _ _ HV _ _ E) as (v & info & _ & _ & Hi). by apply lookup_empty_Some in Hi. }
  assert (cv_elems V = ∅) as He.
  { apply map_empty. intros a. destruct (cv_elems V !! a) as [[v r]|] eqn:E; [|done]. destruct (iv_elem _ _ _ HV _ _ _ E) as (x & b & Hx & _).
    rewrite Hk in Hx. by apply lookup_empty_Some in Hx. }
  split; try done; [by exists V|]. rewrite Hch. f_equal. apply dom_empty_iff_L, map_empty. intros v.
  destruct (t_ipcs s !! v) eqn:E; [|done]. destruct (iv_value _ _ _ HV v) as (a & r & Ea); [by rewrite E|]. rewrite He in Ea. by apply lookup_empty_Some in Ea.
Qed.

Lemma wp_destroy_TRACKER s t X m N (Q : unit -> tstate H B -> Prop) :
  tracker_ok s t empty_view X m N -> idle s (TRACKER s) t X m -> N + 8 + DELETED_LIFE < two64 -> t_proxy_lib s = false ->
  (forall s', destroyed s (TRACKER s) t X m (N + 8) (with_TRACKER (TRACKER s) s') -> TRACKER s' = 0 -> Q tt s') -> wp destroy_TRACKER Q s.
Proof.
  intros [HI _ _ _ _ _] Hid HN Hp HQ. unfold destroy_TRACKER. wp_step. wp_step.
  apply (wp_umfMemoryTrackerDestroy (with_TRACKER 0 s) (TRACKER s) t X m N); [destruct HI; split; try done; by apply (crits_inv_ext s)|destruct Hid; by split|done|done|].
  intros s' [Hc Ht Hpl Hl Hi Hj Hv HT]. apply HQ; [|done]. split; try done. by apply (crits_inv_ext s').
Qed.

(** After the critnibs are gone, all live objects are loose. *)
Lemma all_loose s N : crits_inv s ∅ N -> t_crits s = ∅ /\ forall a tg, loose s a tg <-> ba_live (t_host s) !! a = Some tg.
Proof.
  intros HI. assert (t_crits s = ∅) as E.
  { apply map_empty. intros c. apply eq_None_not_Some. rewrite (cr_dom _ _ _ HI). by rewrite lookup_empty; intros []. }
  split; [done|]. intros a tg. unfold loose, foreign. rewrite E. split; [by intros [_ ?]|]. intros Hl. split; [|done]. intros c e Hc. by apply lookup_empty_Some in Hc.
Qed.

(** A range is left: the assert of [check_if_tracker_is_empty] fails. *)
Lemma destroy_TRACKER_fails s t v X m N : tracker_ok s t v X m N -> N + 2 * ranges (av_levels v) + 8 + DELETED_LIFE < two64 ->
  ranges_of (av_levels v) 0 <> 0 -> t_proxy_lib s = false -> destroy_TRACKER s = None.
Proof.
  intros [HI _ Hwf Hn0 _ _] HN Hr Hp. unfold destroy_TRACKER, umfMemoryTrackerDestroy, mbind, M_bind, get, modify. simpl.
  rewrite (proj2 (Z.eqb_neq (TRACKER s) 0)) by done. simpl. rewrite Hp.
  rewrite (check_fails (with_TRACKER 0 s) (TRACKER s) t (av_levels v) X m N 0); [done|done| |done|done|done].
  destruct HI; split; try done. by apply (crits_inv_ext s).
Qed.
End Spec.
