(* ===== verification/TrackerTheorems.v ===== *)
(** * Theorems about the memory tracker

    The properties of the tracker of src/provider/provider_tracking.c, on any
    host allocator and any chunk pools.  The witnesses run it on the scripted
    allocator and on the pools of the base allocator. *)

From S2P Require Import Prelude Utils HostMem BaseMem BaseAlloc BaseTheorems BaseChunks CritQuery CritDelete CritSpec CritInsert CritRemove CritInv CritWorld.
From stdpp Require Import list strings.
From S2P Require Import Critnib Tracker TrackerInv TrackerOps TrackerRemove TrackerIpc TrackerLife TrackerSpec.
#[local] Open Scope Z_scope.

(** The tracker of a process: created, and used by the calls [cs]. *)
Definition run_tracker `{HostAlloc H} `{ChunkPool B} (cs : list tcall) : M (tstate H B) (umf_result_t * list tres) :=
  r ← create_TRACKER;
  if bool_decide (r = UMF_RESULT_SUCCESS) then rs ← run_tcalls cs; mret (r, rs) else mret (r, []).

Section Claims.
Context `{HostAllocLaws H} `{ChunkPoolLaws B}.
Implicit Types (s : tstate H B) (X : gmap Z (leaf_cb * cview)) (V : cview) (t : umf_memory_tracker_t) (v : aview).

(** What [run_tracker] does, with the tracker in the end. *)
Definition run_tracker_post s (m : gmap Z (gset Z)) (cs : list tcall) (r : umf_result_t * list tres) s' : Prop :=
  (r.1 <> UMF_RESULT_SUCCESS /\ r.2 = [] /\ tracker_start s' m /\ ba_live (t_host s') = ba_live (t_host s)) \/
  (r.1 = UMF_RESULT_SUCCESS /\ length r.2 = length cs /\ t_proxy_lib s' = t_proxy_lib s /\
   exists t v X' m', tracker_steps empty_view (zip cs r.2) v /\ tracker_ok s' t v X' m' (20 * Z.of_nat (length cs)) /\
     (forall a tg, loose s' a tg <-> ba_live (t_host s) !! a = Some tg \/ (a = TRACKER s' /\ tg = tag_tracker))).

Lemma wp_run_tracker cs s m : tracker_start s m -> 20 * Z.of_nat (length cs) + DELETED_LIFE < two64 ->
  (forall rs, length rs = length cs -> tracker_trace_obeys empty_view (zip cs rs)) ->
  wp (run_tracker cs) (run_tracker_post s m cs) s.
Proof.
  intros Hs HN Hob. unfold run_tracker. apply wp_bind. eapply wp_mono; [by apply (wp_create_TRACKER s m)|].
  intros r s1 [(Hr & Hs1 & _ & _ & _ & Hl)|(-> & t & X1 & m1 & Hnew)].
  - rewrite bool_decide_false by done. wp_step. left. done.
  - rewrite bool_decide_true by done. destruct Hnew as [Hok _ _ _ _ Hlo _ (_ & _ & _ & Hp)].
    apply wp_bind. eapply wp_mono; [by apply (wp_tcalls cs s1 t empty_view X1 m1 0)|].
    intros rs s2 (Hl & v & X2 & m2 & Hst & Hok2 & [_ _ ET Ep Hf _ _]). wp_step. right. simpl. split_and!; [done|done|congruence|].
    exists t, v, X2, m2. split_and!; [done|done|]. intros a tg. rewrite (Hf a tg), ET. apply Hlo.
Qed.

(** C6 A tracker that is created and called by callers that add only memory
    that was just allocated refines the nested ranges: it runs to the end, a range is
    added one level below the innermost range around it, a query finds the
    innermost range around a pointer and its pool, a range is removed when it
    has no children, and the results and the ranges are those of the abstract
    tracker; when it cannot be created, nothing is left. *)
Theorem tracker_calls_refine cs s m : tracker_start s m -> 20 * Z.of_nat (length cs) + DELETED_LIFE < two64 ->
  (forall rs, length rs = length cs -> tracker_trace_obeys empty_view (zip cs rs)) ->
  wp (run_tracker cs) (fun r s' =>
    (r.1 <> UMF_RESULT_SUCCESS /\ r.2 = [] /\ tracker_start s' m /\ ba_live (t_host s') = ba_live (t_host s)) \/
    (r.1 = UMF_RESULT_SUCCESS /\ length r.2 = length cs /\ exists v, tracker_steps empty_view (zip cs r.2) v)) s.
Proof.
  intros Hs HN Hob. eapply wp_mono; [by apply (wp_run_tracker cs s m)|]. intros [r rs] s' [Hl|(Hr & Hl & _ & t & v & X' & m' & Hst & _)]; [by left|right].
  split_and!; [done|done|by exists v].
Qed.

(** C19 Creating the tracker and destroying it leaves the allocator, the chunk
    pools and the critnibs as they were, whether the creation succeeds or not. *)
Theorem tracker_round_trip s m : tracker_start s m -> t_proxy_lib s = false -> TRACKER s = 0 ->
  wp (r ← create_TRACKER; _ ← destroy_TRACKER; mret r) (fun _ s' =>
    ba_live (t_host s') = ba_live (t_host s) /\ tracker_start s' m /\ TRACKER s' = 0) s.
Proof.
  intros Hs Hp HT. apply wp_bind. eapply wp_mono; [by apply (wp_create_TRACKER s m)|].
  intros r s1 [(Hr & [Hc1 Ht1 Hi1 Hj1 Hp1] & _ & ET & _ & Hl)|(-> & t & X1 & m1 & [Hok Hid Hcr Hpl Htr Hlo Hfr (Ei & Ej & _ & Epr)])].
  - apply wp_bind. unfold destroy_TRACKER. wp_step. rewrite ET, HT. wp_step. unfold umfMemoryTrackerDestroy. simpl. wp_step. wp_step. split_and!; [done|by split|done].
  - apply wp_bind, (wp_destroy_TRACKER s1 t X1 m1 0); [done|done|done|by rewrite Epr|].
    intros s2 [Hc2 Ht2 Hp2 Hl2 Hi2 Hj2 _ _] ET2. wp_step. change (delete (ipc_segments_map t) _) with (del_all (ipc_segments_map t :: alloc_segments_map t) X1) in Hc2.
    rewrite Hcr in Hc2. destruct (all_loose _ _ Hc2) as [Hcc Hall]. simpl in *. split_and!; [|split; try done|done].
    + apply map_eq. intros a. apply option_eq. intros tg. rewrite <- Hall, Hl2, Hlo. split; [intros [[?|[-> _]] Hn]; done|].
      intros Hl. split; [by left|]. intros ->. congruence.
    + rewrite Ht2, Htr. apply delete_singleton_eq.
    + by rewrite Hi2.
    + by rewrite Hj2.
    + by rewrite Hpl in Hp2.
Qed.

(** Destroying a tracker that still has a range fails the assert of
    [check_if_tracker_is_empty]: a leaked allocation does not go unnoticed. *)
Theorem tracker_leak_detected cs s m rs s' : tracker_start s m -> 20 * Z.of_nat (length cs) + DELETED_LIFE < two64 ->
  (forall rs, length rs = length cs -> tracker_trace_obeys empty_view (zip cs rs)) -> t_proxy_lib s = false ->
  run_tracker cs s = Some ((UMF_RESULT_SUCCESS, rs), s') ->
  (forall v, tracker_steps empty_view (zip cs rs) v ->
     20 * Z.of_nat (length cs) + 2 * ranges (av_levels v) + 8 + DELETED_LIFE < two64 /\ ranges_of (av_levels v) 0 <> 0) ->
  destroy_TRACKER s' = None.
Proof.
  intros Hs HN Hob Hp Hrun Hleft. pose proof (wp_run_tracker cs s m Hs HN Hob) as Hw. unfold wp in Hw. rewrite Hrun in Hw.
  destruct Hw as [(Hn & _)|(_ & _ & Hpx & t & v & X' & m' & Hst & Hok & _)]; [done|]. destruct (Hleft v Hst) as [HN' Hr]. simpl in *.
  apply (destroy_TRACKER_fails s' t v X' m' _ Hok); [lia|done|congruence].
Qed.
End Claims.

(** ** Runs of the tracker *)

(** A process with the allocator of HostMem and the base allocator. *)
Definition demo_process (script : list bool) : tstate scripted (bstate demo_os) :=
  mk_tstate (host0 script) (demo_start []) ∅ ∅ ∅ ∅ ∅ 0 [] false.

Lemma demo_process_start script : tracker_start (demo_process script) ∅.
Proof. split; try done. apply chunks_start. Qed.

Lemma added_to_empty ptr n p x A i k r : add_spec no_ranges ptr n p x A -> lvl A i !! k = Some r -> k = ptr.
Proof.
  intros Hs. assert (lvl no_ranges i !! k = Some r -> k = ptr) as Hno by (rewrite no_ranges_lvl; by intros ?%lookup_empty_Some).
  destruct Hs as [d _ Hd _| | |]; [|done..]. unfold add_range. destruct (decide (i = d)) as [->|Hne].
  - rewrite lvl_set_eq by (by unfold no_ranges; rewrite length_replicate). rewrite no_ranges_lvl.
    intros [[-> _]|[_ E]]%lookup_insert_Some; [done|]. by apply lookup_empty_Some in E.
  - rewrite lvl_set_ne by done. exact Hno.
Qed.

(** A range, one inside of it, a query and the removal of the inner one. *)
Definition demo_nested : list tcall := [TAdd 7 4096 4096; TAdd 8 5000 100; TGetPool 5050; TRemove 5000].

Lemma demo_nested_obeys rs : length rs = length demo_nested -> tracker_trace_obeys empty_view (zip demo_nested rs).
Proof.
  destruct rs as [|r1 [|r2 [|r3 [|r4 []]]]]; try done. intros _. simpl. split.
  { split; [done|]. intros i k r. rewrite no_ranges_lvl. by intros ?%lookup_empty_Some. }
  intros w1 (_ & x & _ & Hs). split.
  { split; [done|]. intros i k r E. rewrite (added_to_empty _ _ _ _ _ _ _ _ Hs E). lia. }
  intros w2 _. split; [done|]. intros w3 _. split; [done|]. done.
Qed.

Lemma tracker_calls_refine_witness :
  wp (run_tracker demo_nested) (fun r s' =>
    (r.1 <> UMF_RESULT_SUCCESS /\ r.2 = [] /\ tracker_start s' ∅ /\ ba_live (t_host s') = ba_live (host0 [])) \/
    (r.1 = UMF_RESULT_SUCCESS /\ length r.2 = length demo_nested /\ exists v, tracker_steps empty_view (zip demo_nested r.2) v)) (demo_process []) /\
  option_map fst (run_tracker demo_nested (demo_process [])) =
    Some (UMF_RESULT_SUCCESS, [TResult UMF_RESULT_SUCCESS; TResult UMF_RESULT_SUCCESS; TPool 8; TResult UMF_RESULT_SUCCESS]).
Proof.
  split; [|vm_compute; reflexivity].
  exact (tracker_calls_refine demo_nested (demo_process []) ∅ (demo_process_start []) eq_refl demo_nested_obeys).
Defined.

Lemma tracker_round_trip_witness :
  wp (r ← create_TRACKER; _ ← destroy_TRACKER; mret r) (fun _ s' =>
    ba_live (t_host s') = ba_live (host0 []) /\ tracker_start s' ∅ /\ TRACKER s' = 0) (demo_process []).
Proof. exact (tracker_round_trip (demo_process []) ∅ (demo_process_start []) eq_refl eq_refl). Defined.

Lemma demo_leak_obeys rs : length rs = 1%nat -> tracker_trace_obeys empty_view (zip [TAdd 7 4096 4096] rs).
Proof.
  destruct rs as [|r1 []]; try done. intros _. simpl. split; [|done]. split; [done|]. intros i k r. rewrite no_ranges_lvl. by intros ?%lookup_empty_Some.
Qed.

Lemma demo_leak_run : exists s', run_tracker [TAdd 7 4096 4096] (demo_process []) = Some ((UMF_RESULT_SUCCESS, [TResult UMF_RESULT_SUCCESS]), s').
Proof.
  assert (option_map fst (run_tracker [TAdd 7 4096 4096] (demo_process [])) = Some (UMF_RESULT_SUCCESS, [TResult UMF_RESULT_SUCCESS])) as E by (vm_compute; reflexivity).
  destruct (run_tracker [TAdd 7 4096 4096] (demo_process [])) as [[r s']|]; [|done]. simpl in E. injection E as <-. by exists s'.
Qed.

Lemma demo_leak_ranges v : tracker_steps empty_view [(TAdd 7 4096 4096, TResult UMF_RESULT_SUCCESS)] v ->
  20 * Z.of_nat 1 + 2 * ranges (av_levels v) + 8 + DELETED_LIFE < two64 /\ ranges_of (av_levels v) 0 <> 0.
Proof.
  intros (w & (_ & x & [= <-] & Hs) & ->). remember (av_levels w) as A eqn:EA. clear EA. remember UMF_RESULT_SUCCESS as y eqn:Ey. destruct Hs as [d _ Hd _| | |]; [|done..].
  unfold MAX_LEVELS_OF_ALLOC_SEGMENT_MAP in Hd. do 8 (destruct d as [|d]; [vm_compute; done|]). lia.
Qed.

Lemma tracker_leak_detected_witness : exists s',
  run_tracker [TAdd 7 4096 4096] (demo_process []) = Some ((UMF_RESULT_SUCCESS, [TResult UMF_RESULT_SUCCESS]), s') /\ destroy_TRACKER s' = None.
Proof.
  destruct demo_leak_run as [s' Hrun]. exists s'. split; [exact Hrun|].
  exact (tracker_leak_detected [TAdd 7 4096 4096] (demo_process []) ∅ _ s' (demo_process_start []) eq_refl demo_leak_obeys eq_refl Hrun demo_leak_ranges).
Defined.

(** A query between the ranges of two levels keeps a reference of the leaf
    before the pointer: when both ranges are removed, the object of the inner
    one is still allocated; without the query, nothing is. *)
Theorem tracker_query_leaks :
  (exists s', run_tracker [TAdd 7 4096 4096; TAdd 8 5000 100; TGetPool 5200; TRemove 5000; TRemove 4096] (demo_process []) =
     Some ((UMF_RESULT_SUCCESS, [TResult UMF_RESULT_SUCCESS; TResult UMF_RESULT_SUCCESS; TPool 7; TResult UMF_RESULT_SUCCESS; TResult UMF_RESULT_SUCCESS]), s') /\
     size (t_infos s') = 1%nat) /\
  (exists s', run_tracker [TAdd 7 4096 4096; TAdd 8 5000 100; TRemove 5000; TRemove 4096] (demo_process []) =
     Some ((UMF_RESULT_SUCCESS, [TResult UMF_RESULT_SUCCESS; TResult UMF_RESULT_SUCCESS; TResult UMF_RESULT_SUCCESS; TResult UMF_RESULT_SUCCESS]), s') /\
     size (t_infos s') = 0%nat).
Proof.
  set (leak := [TAdd 7 4096 4096; TAdd 8 5000 100; TGetPool 5200; TRemove 5000; TRemove 4096]).
  set (fine := [TAdd 7 4096 4096; TAdd 8 5000 100; TRemove 5000; TRemove 4096]).
  assert (forall cs res n, option_map (fun x => (x.1, size (t_infos x.2))) (run_tracker cs (demo_process [])) = Some (res, n) ->
    exists s', run_tracker cs (demo_process []) = Some (res, s') /\ size (t_infos s') = n) as Hrun.
  { intros cs res n E. destruct (run_tracker cs (demo_process [])) as [[x s']|]; [|done]. simpl in E. injection E as <- <-. by exists s'. }
  split; apply Hrun; vm_compute; reflexivity.
Qed.
