(* ===== verification/PoolProvider.v ===== *)
(** * What a pool gets from its memory provider

    The functions of the memory provider that the pools of src/pool call, and
    the query of the memory tracker, over a state with the providers and the
    tracker.  An out-parameter is passed as its content before the call and
    returned as its content after it.

    [PoolProviderLaws] states what a pool relies on: the memory that is handed
    out is in use until it is freed, it is disjoint from all memory in use, and
    the tracker finds it.  [pp_rep w h P n] says that the provider [h] has handed out the
    ranges [P], base to size, in at most [n] calls, of which there may be [pp_max].

    The provider of pages is an executable instance: the ranges are handed out in
    increasing order, at multiples of a page, and no address is used twice.  Each
    allocation consumes one entry of a script and fails on [false]. *)

From S2P Require Import Prelude Utils Tracker.
From stdpp Require Import list.
#[local] Open Scope Z_scope.

Class PoolProvider (W : Type) := {
  umfMemoryProviderAlloc : Z -> Z -> Z -> Z -> M W (umf_result_t * Z);
  umfMemoryProviderFree : Z -> Z -> Z -> M W umf_result_t;
  umfMemoryProviderGetMinPageSize : Z -> Z -> Z -> M W (umf_result_t * Z);
  umfMemoryTrackerGetAllocInfo : Z -> umf_alloc_info_t -> M W (umf_result_t * umf_alloc_info_t);
}.

(** [p .. p + n) is apart from the ranges [P]. *)
Definition apart_from (P : gmap Z Z) (p n : Z) : Prop := forall q m, P !! q = Some m -> p + n <= q \/ q + m <= p.

Class PoolProviderLaws (W : Type) `{PoolProvider W} := {
  pp_rep : W -> Z -> gmap Z Z -> Z -> Prop;
  pp_max : Z;
  pp_page : Z;
  pp_mono : forall w h P n m, pp_rep w h P n -> n <= m -> pp_rep w h P m;
  pp_wf : forall w h P n q m, pp_rep w h P n -> P !! q = Some m -> 0 < q /\ 0 < m /\ q + m < two64 /\ q mod pp_page = 0;
  pp_apart : forall w h P n q1 q2 m1 m2, pp_rep w h P n -> P !! q1 = Some m1 -> P !! q2 = Some m2 -> q1 < q2 -> q1 + m1 <= q2;
  pp_page_pow2 : pow2 pp_page;
  pp_alloc : forall w h P n size alignment old, pp_rep w h P n -> n < pp_max -> 0 < size -> size < two64 ->
    alignment = 0 \/ pow2 alignment ->
    wp (umfMemoryProviderAlloc h size alignment old) (fun r w' =>
      (r.1 <> UMF_RESULT_SUCCESS /\ pp_rep w' h P (n + 1)) \/
      (r.1 = UMF_RESULT_SUCCESS /\ apart_from P r.2 size /\ (alignment <> 0 -> r.2 mod alignment = 0) /\
       pp_rep w' h (<[r.2 := size]> P) (n + 1))) w;
  pp_free : forall w h P n p size, pp_rep w h P n -> n < pp_max -> P !! p = Some size ->
    wp (umfMemoryProviderFree h p size) (fun r w' =>
      (r <> UMF_RESULT_SUCCESS /\ pp_rep w' h P (n + 1)) \/ (r = UMF_RESULT_SUCCESS /\ pp_rep w' h (delete p P) (n + 1))) w;
  pp_min_page : forall w h P n old, pp_rep w h P n -> n < pp_max ->
    wp (umfMemoryProviderGetMinPageSize h 0 old) (fun r w' =>
      pp_rep w' h P (n + 1) /\ (r.1 = UMF_RESULT_SUCCESS -> pow2 r.2 /\ r.2 <= pp_page)) w;
  pp_info : forall w h P n p size ptr old, pp_rep w h P n -> n < pp_max -> P !! p = Some size -> p <= ptr < p + size ->
    wp (umfMemoryTrackerGetAllocInfo ptr old) (fun r w' =>
      r.1 = UMF_RESULT_SUCCESS /\ ai_base r.2 = p /\ baseSize r.2 = size /\ pp_rep w' h P (n + 1)) w;
}.

Definition PAGE : Z := 4096.

Record pages := mk_pages {
  pg_next : Z;
  pg_ranges : gmap Z Z;
  pg_script : list bool;
}.

Definition pages_alloc (h size alignment old : Z) : M pages (umf_result_t * Z) := fun w =>
  if negb (default true (head (pg_script w))) || (PAGE <? alignment) || (two64 <=? pg_next w + size + PAGE)
  then Some ((UMF_RESULT_ERROR_OUT_OF_HOST_MEMORY, old), mk_pages (pg_next w) (pg_ranges w) (tail (pg_script w)))
  else Some ((UMF_RESULT_SUCCESS, pg_next w), mk_pages ((pg_next w + size + PAGE - 1) / PAGE * PAGE) (<[pg_next w := size]> (pg_ranges w)) (tail (pg_script w))).

Definition pages_free (h ptr size : Z) : M pages umf_result_t := fun w =>
  match pg_ranges w !! ptr with
  | Some _ => Some (UMF_RESULT_SUCCESS, mk_pages (pg_next w) (delete ptr (pg_ranges w)) (pg_script w))
  | None => Some (UMF_RESULT_ERROR_INVALID_ARGUMENT, w)
  end.

Definition pages_info (ptr : Z) (old : umf_alloc_info_t) : M pages (umf_result_t * umf_alloc_info_t) := fun w =>
  match list_find (fun x => x.1 <= ptr < x.1 + x.2) (map_to_list (pg_ranges w)) with
  | Some (_, (q, m)) => Some ((UMF_RESULT_SUCCESS, mk_alloc_info q m 0), w)
  | None => Some ((UMF_RESULT_ERROR_INVALID_ARGUMENT, old), w)
  end.

#[export] Instance pages_provider : PoolProvider pages := {
  umfMemoryProviderAlloc := pages_alloc;
  umfMemoryProviderFree := pages_free;
  umfMemoryProviderGetMinPageSize := fun _ _ _ w => Some ((UMF_RESULT_SUCCESS, PAGE), w);
  umfMemoryTrackerGetAllocInfo := pages_info;
}.

Record pages_ok (w : pages) : Prop := {
  pk_next : 0 < pg_next w < two64 /\ pg_next w mod PAGE = 0;
  pk_wf : forall q m, pg_ranges w !! q = Some m -> 0 < q /\ 0 < m /\ q + m <= pg_next w /\ q mod PAGE = 0;
  pk_apart : forall q1 q2 m1 m2, pg_ranges w !! q1 = Some m1 -> pg_ranges w !! q2 = Some m2 -> q1 < q2 -> q1 + m1 <= q2;
}.

Lemma page_pow2 : pow2 PAGE.
Proof. exists 12. done. Qed.

Lemma page_divides a : a = 0 \/ pow2 a -> a <= PAGE -> a <> 0 -> PAGE mod a = 0.
Proof.
  intros [->|(n & Hn & ->)] Hle Hne; [done|]. change PAGE with (2 ^ 12) in *. apply Z.pow_le_mono_r_iff in Hle; [|lia|lia].
  replace 12 with (12 - n + n) by lia. rewrite Z.pow_add_r by lia. apply Z.mod_mul. apply Z.pow_nonzero; lia.
Qed.

Lemma pages_alloc_ok w size : pages_ok w -> 0 < size -> pg_next w + size + PAGE < two64 -> forall sc,
  pages_ok (mk_pages ((pg_next w + size + PAGE - 1) / PAGE * PAGE) (<[pg_next w := size]> (pg_ranges w)) sc).
Proof.
  intros [[Hn Hm] Hwf Hap] Hs Hlt sc. assert (pg_next w + size <= (pg_next w + size + PAGE - 1) / PAGE * PAGE < two64) as Hup.
  { pose proof (Z.div_mod (pg_next w + size + PAGE - 1) PAGE). pose proof (Z.mod_pos_bound (pg_next w + size + PAGE - 1) PAGE). unfold PAGE in *. lia. }
  split; simpl.
  - split; [lia|]. apply Z.mod_mul. done.
  - intros q m [[<- <-]|[_ Hq]]%lookup_insert_Some; [split_and!; [lia|lia|lia|done]|]. apply Hwf in Hq as (? & ? & ? & ?). split_and!; [lia|lia|lia|done].
  - intros q1 q2 m1 m2 [[<- <-]|[Hne1 Hq1]]%lookup_insert_Some [[<- <-]|[Hne2 Hq2]]%lookup_insert_Some Hlt'; [lia| | |by eapply Hap].
    + apply Hwf in Hq2. lia.
    + apply Hwf in Hq1. lia.
Qed.

#[export] Program Instance pages_laws : PoolProviderLaws pages := {
  pp_rep := fun w _ P _ => pages_ok w /\ pg_ranges w = P;
  pp_max := 2 ^ 62;
  pp_page := PAGE;
}.
Next Obligation. done. Qed.
Next Obligation. intros w _ P _ q m [Hok <-] Hq. destruct (pk_wf _ Hok _ _ Hq) as (? & ? & ? & ?). destruct (pk_next _ Hok). split_and!; [done|done|lia|done]. Qed.
Next Obligation. intros w _ P _ q1 q2 m1 m2 [Hok <-]. by apply (pk_apart _ Hok q1 q2 m1 m2). Qed.
Next Obligation. exact page_pow2. Qed.
Next Obligation.
  intros w h P n size al old [Hok <-] _ Hs _ Hal. unfold wp. simpl. unfold pages_alloc.
  destruct (negb _ || _ || _) eqn:E; simpl; [left; split; [done|]; split; [|done]; by destruct Hok|right].
  apply orb_false_iff in E as [[_ Ea%Z.ltb_ge]%orb_false_iff Es%Z.leb_gt]. split_and!; [done| | |by apply pages_alloc_ok|done].
  - intros q m Hq. destruct (pk_wf _ Hok _ _ Hq) as (_ & _ & ? & _). lia.
  - intros Hne. destruct (pk_next _ Hok) as [_ Hm]. apply Z.div_exact in Hm; [|done]. rewrite Hm. rewrite Z.mul_comm, <- Z.mul_mod_idemp_r, page_divides by done. by rewrite Z.mul_0_r.
Qed.
Next Obligation.
  intros w h P n p size [Hok <-] _ Hp. unfold wp. simpl. unfold pages_free. rewrite Hp. right. split; [done|]. split; [|done].
  destruct Hok as [Hn Hwf Hap]. split; simpl; [done|..].
  - intros q m [_ Hq]%lookup_delete_Some. by apply Hwf.
  - intros q1 q2 m1 m2 [_ H1]%lookup_delete_Some [_ H2]%lookup_delete_Some. by apply (Hap q1 q2 m1 m2).
Qed.
Next Obligation. intros w h P n old Hr _. unfold wp. simpl. split; [done|]. intros _. split; [exact page_pow2|done]. Qed.
Next Obligation.
  intros w h P n p size ptr old [Hok <-] _ Hp Hptr. unfold wp. simpl. unfold pages_info.
  destruct (list_find _ _) as [[i [q m]]|] eqn:E; simpl.
  - apply list_find_Some in E as (Hi & Hin & _). simpl in Hin. assert (pg_ranges w !! q = Some m) as Hq by (by apply elem_of_map_to_list; eapply list_elem_of_lookup_2).
    assert (q = p) as ->; [|split_and!; [done|done|congruence|done|done]].
    destruct (Z.lt_trichotomy q p) as [Hl|[?|Hg]]; [|done|]; [pose proof (pk_apart _ Hok _ _ _ _ Hq Hp Hl)|pose proof (pk_apart _ Hok _ _ _ _ Hp Hq Hg)]; lia.
  - apply list_find_None in E. rewrite list.Forall_forall in E. by destruct (E (p, size)); [by apply elem_of_map_to_list|].
Qed.

Definition pages0 (script : list bool) : pages := mk_pages PAGE ∅ script.

Lemma pages0_ok script : pages_ok (pages0 script).
Proof. split; done. Qed.
