(* ===== verification/DisjointPool.v ===== *)
(** * The disjoint pool: src/pool/pool_disjoint.c

    A pool of buckets, one per size class.  A bucket takes slabs from the
    memory provider and cuts them into chunks of its size; a bitmap in the slab says
    which chunks are free.  The slabs are found by address in a critnib, which
    frees a slab when it has been removed and the last reference is released.

    The state holds one pool: its structs by their address, 0 for NULL, the
    critnib, and the state [W] with the memory provider and the tracker.
    The intrusive lists of utlist.h are lists of slabs; deleting an item that
    is not on the list is undefined.  Logging, the annotations for the
    sanitizers and the control tree are left out, and what its leaves read is here. *)

From S2P Require Import Prelude Utils HostMem.
From stdpp Require Import strings list.
From S2P Require Import Critnib Tracker PoolProvider.
#[local] Open Scope Z_scope.

Definition CHUNK_BITMAP_SIZE : Z := 64.
Definition CutOff : Z := Z.shiftl 1 31.
Definition UMF_DISJOINT_POOL_MIN_BUCKET_DEFAULT_SIZE : Z := 8.

Record slab_t := mk_slab {
  mem_ptr : Z;
  slab_size : Z;
  num_chunks_total : Z;
  num_words : Z;
  num_chunks_allocated : Z;
  slab_bucket : Z;
  chunks : list Z;
}.

(** The lists hold the slabs by their address. *)
Record bucket_t := mk_bucket {
  bucket_size : Z;
  available_slabs : list Z;
  available_slabs_num : Z;
  unavailable_slabs : list Z;
  bucket_lock : utils_mutex_t;
  bucket_pool : Z;
  bucket_limits : Z;
  chunked_slabs_in_pool : Z;
  alloc_count : Z;
  alloc_pool_count : Z;
  free_count : Z;
  curr_slabs_in_use : Z;
  curr_slabs_in_pool : Z;
  max_slabs_in_pool : Z;
  max_slabs_in_use : Z;
}.

Record umf_disjoint_pool_shared_limits_t := mk_limits {
  max_size : Z;
  total_size : Z;
}.

Record umf_disjoint_pool_params_t := mk_dparams {
  slab_min_size : Z;
  max_poolable_size : Z;
  capacity : Z;
  min_bucket_size : Z;
  cur_pool_size : Z;
  pool_trace : Z;
  shared_limits : Z;
  pool_name : string;
}.

Record disjoint_pool_t := mk_disjoint_pool {
  known_slabs : Z;
  provider : Z;
  buckets : Z;
  buckets_num : Z;
  params : umf_disjoint_pool_params_t;
  default_shared_limits : Z;
  min_bucket_size_exp : Z;
  provider_min_page_size : Z;
}.

(** [dj_pool] is the pool with its address, [dj_arrays] the arrays of buckets;
    [dj_mutex_init] are the results of the coming calls of [utils_mutex_init]
    in [critnib_new], true when they run out. *)
Record djstate (H W : Type) := mk_djstate {
  dj_host : H;
  dj_world : W;
  dj_pool : option (Z * disjoint_pool_t);
  dj_crit : option (cstate H);
  dj_slabs : gmap Z slab_t;
  dj_buckets : gmap Z bucket_t;
  dj_arrays : gmap Z (list Z);
  dj_limits : gmap Z umf_disjoint_pool_shared_limits_t;
  dj_params : gmap Z umf_disjoint_pool_params_t;
  TLS_last_allocation_error : umf_result_t;
  dj_mutex_init : list bool;
}.
Arguments mk_djstate {H W}. Arguments dj_host {H W}. Arguments dj_world {H W}. Arguments dj_pool {H W}.
Arguments dj_crit {H W}. Arguments dj_slabs {H W}. Arguments dj_buckets {H W}. Arguments dj_arrays {H W}.
Arguments dj_limits {H W}. Arguments dj_params {H W}. Arguments TLS_last_allocation_error {H W}. Arguments dj_mutex_init {H W}.

Definition tag_slab : string := "slab_t".
Definition tag_bucket : string := "bucket_t".
Definition tag_buckets : string := "bucket_t*".
Definition tag_limits : string := "umf_disjoint_pool_shared_limits_t".
Definition tag_dparams : string := "umf_disjoint_pool_params_t".
Definition tag_disjoint_pool : string := "disjoint_pool_t".
Definition sizeof_slab : Z := 72.
Definition sizeof_bucket : Z := 160.
Definition sizeof_limits : Z := 16.
Definition sizeof_dparams : Z := 120.
Definition sizeof_disjoint_pool : Z := 176.

(** ** The bitmap of a slab *)

Definition set_word (i : Z) (w : Z) (ws : list Z) : list Z := <[Z.to_nat i := w]> ws.
Definition get_word (i : Z) (ws : list Z) : option Z := ws !! Z.to_nat i.

Definition with_chunks (n : Z) (ws : list Z) (s : slab_t) : slab_t :=
  mk_slab (mem_ptr s) (slab_size s) (num_chunks_total s) (num_words s) n (slab_bucket s) ws.
Definition with_mem_ptr (p : Z) (s : slab_t) : slab_t :=
  mk_slab p (slab_size s) (num_chunks_total s) (num_words s) (num_chunks_allocated s) (slab_bucket s) (chunks s).

(** The words of the bitmap after the bit is set or cleared; [None] when the
    assert fails or the index is out of the array. *)
Definition slab_set_chunk_bit (slab : slab_t) (index : Z) (value : bool) : option (list Z) :=
  if negb (index <? num_chunks_total slab) then None else
  let word_index := index / CHUNK_BITMAP_SIZE in
  let bit_index := index mod CHUNK_BITMAP_SIZE in
  w ← get_word word_index (chunks slab);
  Some (set_word word_index (if value then Z.lor w (shl64 1 bit_index) else Z.land w (not64 (shl64 1 bit_index))) (chunks slab)).

Definition slab_read_chunk_bit (slab : slab_t) (index : Z) : option Z :=
  if negb (index <? num_chunks_total slab) then None else
  let word_index := index / CHUNK_BITMAP_SIZE in
  let bit_index := index mod CHUNK_BITMAP_SIZE in
  w ← get_word word_index (chunks slab);
  Some (Z.land (Z.shiftr w bit_index) 1).

(** The loop over the words from [i] on. *)
Fixpoint find_available (i : Z) (ws : list Z) : Z :=
  match ws with
  | [] => SIZE_MAX
  | word :: ws =>
    if negb (word =? 0) then add64 (mul64 i CHUNK_BITMAP_SIZE) (utils_lsb64 word) else find_available (i + 1) ws
  end.

Definition slab_find_first_available_chunk_idx (slab : slab_t) : Z :=
  find_available 0 (take (Z.to_nat (num_words slab)) (chunks slab)).

Definition slab_has_avail (slab : slab_t) : bool := num_chunks_allocated slab <? num_chunks_total slab.
Definition slab_get_num_free_chunks (slab : slab_t) : Z := sub64 (num_chunks_total slab) (num_chunks_allocated slab).
Definition slab_get (slab : slab_t) : Z := mem_ptr slab.

(** [DL_DELETE(head, del)] *)
Fixpoint dl_delete (x : Z) (l : list Z) : option (list Z) :=
  match l with
  | [] => None
  | y :: l => if x =? y then Some l else l' ← dl_delete x l; Some (y :: l')
  end.

Section Disjoint.
Context `{HostAlloc H} `{PoolProvider W}.
Abbreviation D := (M (djstate H W)).
Implicit Types s : djstate H W.

(** ** Loads and stores *)

Definition with_dj_host (h : H) s : djstate H W :=
  mk_djstate h (dj_world s) (dj_pool s) (dj_crit s) (dj_slabs s) (dj_buckets s) (dj_arrays s) (dj_limits s) (dj_params s) (TLS_last_allocation_error s) (dj_mutex_init s).
Definition with_dj_world (w : W) s : djstate H W :=
  mk_djstate (dj_host s) w (dj_pool s) (dj_crit s) (dj_slabs s) (dj_buckets s) (dj_arrays s) (dj_limits s) (dj_params s) (TLS_last_allocation_error s) (dj_mutex_init s).
Definition with_dj_pool (p : option (Z * disjoint_pool_t)) s : djstate H W :=
  mk_djstate (dj_host s) (dj_world s) p (dj_crit s) (dj_slabs s) (dj_buckets s) (dj_arrays s) (dj_limits s) (dj_params s) (TLS_last_allocation_error s) (dj_mutex_init s).
Definition with_dj_crit (k : option (cstate H)) s : djstate H W :=
  mk_djstate (dj_host s) (dj_world s) (dj_pool s) k (dj_slabs s) (dj_buckets s) (dj_arrays s) (dj_limits s) (dj_params s) (TLS_last_allocation_error s) (dj_mutex_init s).
Definition with_dj_slabs (m : gmap Z slab_t) s : djstate H W :=
  mk_djstate (dj_host s) (dj_world s) (dj_pool s) (dj_crit s) m (dj_buckets s) (dj_arrays s) (dj_limits s) (dj_params s) (TLS_last_allocation_error s) (dj_mutex_init s).
Definition with_dj_buckets (m : gmap Z bucket_t) s : djstate H W :=
  mk_djstate (dj_host s) (dj_world s) (dj_pool s) (dj_crit s) (dj_slabs s) m (dj_arrays s) (dj_limits s) (dj_params s) (TLS_last_allocation_error s) (dj_mutex_init s).
Definition with_dj_arrays (m : gmap Z (list Z)) s : djstate H W :=
  mk_djstate (dj_host s) (dj_world s) (dj_pool s) (dj_crit s) (dj_slabs s) (dj_buckets s) m (dj_limits s) (dj_params s) (TLS_last_allocation_error s) (dj_mutex_init s).
Definition with_dj_limits (m : gmap Z umf_disjoint_pool_shared_limits_t) s : djstate H W :=
  mk_djstate (dj_host s) (dj_world s) (dj_pool s) (dj_crit s) (dj_slabs s) (dj_buckets s) (dj_arrays s) m (dj_params s) (TLS_last_allocation_error s) (dj_mutex_init s).
Definition with_dj_params (m : gmap Z umf_disjoint_pool_params_t) s : djstate H W :=
  mk_djstate (dj_host s) (dj_world s) (dj_pool s) (dj_crit s) (dj_slabs s) (dj_buckets s) (dj_arrays s) (dj_limits s) m (TLS_last_allocation_error s) (dj_mutex_init s).
Definition with_tls_error (e : umf_result_t) s : djstate H W :=
  mk_djstate (dj_host s) (dj_world s) (dj_pool s) (dj_crit s) (dj_slabs s) (dj_buckets s) (dj_arrays s) (dj_limits s) (dj_params s) e (dj_mutex_init s).
Definition with_dj_mutex_init (l : list bool) s : djstate H W :=
  mk_djstate (dj_host s) (dj_world s) (dj_pool s) (dj_crit s) (dj_slabs s) (dj_buckets s) (dj_arrays s) (dj_limits s) (dj_params s) (TLS_last_allocation_error s) l.

Definition load_pool (pool : Z) : D disjoint_pool_t :=
  s ← get;
  match dj_pool s with Some (a, p) => if a =? pool then mret p else undef | None => undef end.
Definition store_pool (pool : Z) (p : disjoint_pool_t) : D unit := modify (with_dj_pool (Some (pool, p))).
Definition load_bucket (b : Z) : D bucket_t := s ← get; of_option (dj_buckets s !! b).
Definition store_bucket (b : Z) (x : bucket_t) : D unit := modify (fun s => with_dj_buckets (<[b := x]> (dj_buckets s)) s).
Definition load_slab (a : Z) : D slab_t := s ← get; of_option (dj_slabs s !! a).
Definition store_slab (a : Z) (x : slab_t) : D unit := modify (fun s => with_dj_slabs (<[a := x]> (dj_slabs s)) s).
Definition load_limits (l : Z) : D umf_disjoint_pool_shared_limits_t := s ← get; of_option (dj_limits s !! l).
Definition store_total_size (l : Z) (n : Z) : D unit :=
  x ← load_limits l; modify (fun s => with_dj_limits (<[l := mk_limits (max_size x) n]> (dj_limits s)) s).

Definition dj_alloc (tg : string) (size : Z) : D Z :=
  s ← get;
  let '(r, h) := umf_ba_global_alloc tg size (dj_host s) in
  _ ← modify (with_dj_host h);
  mret (default 0 r).
(** NULL is ignored. *)
Definition dj_free (a : Z) : D unit :=
  if a =? 0 then mret tt else modify (fun s => with_dj_host (umf_ba_global_free a (dj_host s)) s).

(** A call of the provider or of the tracker. *)
Definition on_world {A} (m : M W A) : D A :=
  fun s => match m (dj_world s) with Some (a, w) => Some (a, with_dj_world w s) | None => None end.

(** [free_slab], the callback of the critnib. *)
Definition free_slab (slab : Z) : D unit :=
  if slab =? 0 then mret tt else
  _ ← dj_free slab;
  modify (fun s => with_dj_slabs (delete slab (dj_slabs s)) s).

Fixpoint free_slabs (slabs : list Z) : D unit :=
  match slabs with [] => mret tt | a :: slabs => _ ← free_slab a; free_slabs slabs end.

(** [m] on the critnib, and the callbacks it called. *)
Definition on_known_slabs {A} (m : M (cstate H) A) : D A :=
  fun s =>
    match dj_crit s with
    | None => None
    | Some k =>
      match m (Critnib.with_host (dj_host s) k) with
      | None => None
      | Some (a, k') =>
        (_ ← free_slabs (drop (length (c_freed k)) (c_freed k')); mret a) (with_dj_host (c_host k') (with_dj_crit (Some k') s))
      end
    end.

Definition with_lock (m : utils_mutex_t) (b : bucket_t) : bucket_t :=
  mk_bucket (bucket_size b) (available_slabs b) (available_slabs_num b) (unavailable_slabs b) m (bucket_pool b) (bucket_limits b)
    (chunked_slabs_in_pool b) (alloc_count b) (alloc_pool_count b) (free_count b) (curr_slabs_in_use b) (curr_slabs_in_pool b) (max_slabs_in_pool b) (max_slabs_in_use b).
Definition with_slabs (avail : list Z) (n : Z) (unavail : list Z) (b : bucket_t) : bucket_t :=
  mk_bucket (bucket_size b) avail n unavail (bucket_lock b) (bucket_pool b) (bucket_limits b)
    (chunked_slabs_in_pool b) (alloc_count b) (alloc_pool_count b) (free_count b) (curr_slabs_in_use b) (curr_slabs_in_pool b) (max_slabs_in_pool b) (max_slabs_in_use b).
Definition with_chunked (n : Z) (b : bucket_t) : bucket_t :=
  mk_bucket (bucket_size b) (available_slabs b) (available_slabs_num b) (unavailable_slabs b) (bucket_lock b) (bucket_pool b) (bucket_limits b)
    n (alloc_count b) (alloc_pool_count b) (free_count b) (curr_slabs_in_use b) (curr_slabs_in_pool b) (max_slabs_in_pool b) (max_slabs_in_use b).
Definition with_counts (n p f : Z) (b : bucket_t) : bucket_t :=
  mk_bucket (bucket_size b) (available_slabs b) (available_slabs_num b) (unavailable_slabs b) (bucket_lock b) (bucket_pool b) (bucket_limits b)
    (chunked_slabs_in_pool b) n p f (curr_slabs_in_use b) (curr_slabs_in_pool b) (max_slabs_in_pool b) (max_slabs_in_use b).
Definition with_curr (use pool maxp maxu : Z) (b : bucket_t) : bucket_t :=
  mk_bucket (bucket_size b) (available_slabs b) (available_slabs_num b) (unavailable_slabs b) (bucket_lock b) (bucket_pool b) (bucket_limits b)
    (chunked_slabs_in_pool b) (alloc_count b) (alloc_pool_count b) (free_count b) use pool maxp maxu.
Definition with_cur_pool_size (n : Z) (p : disjoint_pool_t) : disjoint_pool_t :=
  let q := params p in
  mk_disjoint_pool (known_slabs p) (provider p) (buckets p) (buckets_num p)
    (mk_dparams (slab_min_size q) (max_poolable_size q) (capacity q) (min_bucket_size q) n (pool_trace q) (shared_limits q) (pool_name q))
    (default_shared_limits p) (min_bucket_size_exp p) (provider_min_page_size p).

Definition lock_bucket (bucket : Z) : D unit :=
  b ← load_bucket bucket;
  r ← of_option (utils_mutex_lock (bucket_lock b));
  store_bucket bucket (with_lock r.2 b).
Definition unlock_bucket (bucket : Z) : D unit :=
  b ← load_bucket bucket;
  m ← of_option (utils_mutex_unlock (bucket_lock b));
  store_bucket bucket (with_lock m b).

(** ** Slabs *)

Definition bucket_slab_min_size (b : bucket_t) : D Z :=
  p ← load_pool (bucket_pool b);
  mret (slab_min_size (params p)).

Definition bucket_slab_alloc_size (b : bucket_t) : D Z :=
  min_size ← bucket_slab_min_size b;
  mret (utils_max (bucket_size b) min_size).

(** The bitmap of a new slab: all chunks are free. *)
Definition new_chunks (num_chunks_total num_words : Z) : list Z :=
  let ws := replicate (Z.to_nat num_words) (not64 0) in
  if negb (num_chunks_total mod CHUNK_BITMAP_SIZE =? 0)
  then set_word (sub64 num_words 1) (sub64 (shl64 1 (num_chunks_total mod CHUNK_BITMAP_SIZE)) 1) ws else ws.

Definition create_slab (bucket : Z) : D Z :=
  _ ← c_assert (negb (bucket =? 0));
  b ← load_bucket bucket;
  p ← load_pool (bucket_pool b);
  min_size ← bucket_slab_min_size b;
  _ ← c_assert (negb (bucket_size b =? 0));
  let total := utils_max (min_size / bucket_size b) 1 in
  let words := sub64 (add64 total CHUNK_BITMAP_SIZE) 1 / CHUNK_BITMAP_SIZE in
  slab ← dj_alloc tag_slab (add64 sizeof_slab (mul64 words 8));
  if slab =? 0 then mret 0 else
  size ← bucket_slab_alloc_size b;
  let sl := mk_slab 0 size total words 0 bucket (new_chunks total words) in
  _ ← store_slab slab sl;
  '(res, mem) ← on_world (umfMemoryProviderAlloc (provider p) size 0 (mem_ptr sl));
  _ ← store_slab slab (with_mem_ptr mem sl);
  if bool_decide (res = UMF_RESULT_SUCCESS) then mret slab else
  _ ← dj_free slab;
  _ ← modify (fun s => with_dj_slabs (delete slab (dj_slabs s)) s);
  mret 0.

Definition destroy_slab (slab : Z) : D unit :=
  sl ← load_slab slab;
  b ← load_bucket (slab_bucket sl);
  p ← load_pool (bucket_pool b);
  _ ← on_world (umfMemoryProviderFree (provider p) (mem_ptr sl) (slab_size sl));
  mret tt.

Definition slab_get_chunk (slab : Z) : D Z :=
  sl ← load_slab slab;
  let chunk_idx := slab_find_first_available_chunk_idx sl in
  _ ← c_assert (negb (chunk_idx =? SIZE_MAX));
  b ← load_bucket (slab_bucket sl);
  let free_chunk := add64 (mem_ptr sl) (mul64 chunk_idx (bucket_size b)) in
  ws ← of_option (slab_set_chunk_bit sl chunk_idx false);
  _ ← store_slab slab (with_chunks (add64 (num_chunks_allocated sl) 1) ws sl);
  mret free_chunk.

Definition slab_get_end (sl : slab_t) : D Z :=
  b ← load_bucket (slab_bucket sl);
  min_size ← bucket_slab_min_size b;
  mret (add64 (mem_ptr sl) min_size).

Definition slab_free_chunk (slab ptr : Z) : D unit :=
  sl ← load_slab slab;
  slab_end ← slab_get_end sl;
  _ ← c_assert ((slab_get sl <=? ptr) && (ptr <? slab_end));
  b ← load_bucket (slab_bucket sl);
  let ptr_diff := sub64 ptr (mem_ptr sl) in
  _ ← c_assert (negb (bucket_size b =? 0));
  _ ← c_assert (ptr_diff mod bucket_size b =? 0);
  let chunk_idx := ptr_diff / bucket_size b in
  bit ← of_option (slab_read_chunk_bit sl chunk_idx);
  _ ← c_assert (bit =? 0);
  ws ← of_option (slab_set_chunk_bit sl chunk_idx true);
  store_slab slab (with_chunks (sub64 (num_chunks_allocated sl) 1) ws sl).

(** ** The map of the slabs *)

Definition pool_register_slab (pool slab : Z) : D umf_result_t :=
  sl ← load_slab slab;
  ret ← on_known_slabs (critnib_insert (slab_get sl) slab false);
  mret (if ret =? ENOMEM then UMF_RESULT_ERROR_OUT_OF_HOST_MEMORY else
        if ret =? EEXIST then UMF_RESULT_ERROR_UNKNOWN else UMF_RESULT_SUCCESS).

Definition pool_unregister_slab (pool slab : Z) : D umf_result_t :=
  sl ← load_slab slab;
  _ ← on_known_slabs (critnib_remove_release (slab_get sl));
  mret UMF_RESULT_SUCCESS.

(** ** Buckets *)

Definition new_bucket (sz pool limits : Z) : bucket_t :=
  mk_bucket sz [] 0 [] (mk_mutex false []) pool limits 0 0 0 0 0 0 0 0.

Definition create_bucket (sz pool limits : Z) : D Z :=
  bucket ← dj_alloc tag_bucket sizeof_bucket;
  if bucket =? 0 then mret 0 else
  _ ← store_bucket bucket (new_bucket sz pool limits);
  mret bucket.

(** The loops of [destroy_bucket]. *)
Fixpoint destroy_available (bucket : Z) (slabs : list Z) : D unit :=
  match slabs with
  | [] => mret tt
  | slab :: slabs =>
    b ← load_bucket bucket;
    _ ← store_bucket bucket (with_slabs slabs (available_slabs_num b) (unavailable_slabs b) b);
    _ ← destroy_slab slab;
    destroy_available bucket slabs
  end.
Fixpoint destroy_unavailable (bucket : Z) (slabs : list Z) : D unit :=
  match slabs with
  | [] => mret tt
  | slab :: slabs =>
    b ← load_bucket bucket;
    _ ← store_bucket bucket (with_slabs (available_slabs b) (available_slabs_num b) slabs b);
    _ ← destroy_slab slab;
    destroy_unavailable bucket slabs
  end.

Definition destroy_bucket (bucket : Z) : D unit :=
  b ← load_bucket bucket;
  _ ← destroy_available bucket (available_slabs b);
  b ← load_bucket bucket;
  _ ← destroy_unavailable bucket (unavailable_slabs b);
  _ ← dj_free bucket;
  modify (fun s => with_dj_buckets (delete bucket (dj_buckets s)) s).

(** [in_use] and [in_pool] are ints that are added to [size_t]. *)
Definition bucket_update_stats (bucket in_use in_pool : Z) : D unit :=
  b ← load_bucket bucket;
  p ← load_pool (bucket_pool b);
  if pool_trace (params p) =? 0 then mret tt else
  let use := add64 (curr_slabs_in_use b) in_use in
  let max_use := utils_max use (max_slabs_in_use b) in
  let pooled := add64 (curr_slabs_in_pool b) in_pool in
  let max_pooled := utils_max pooled (max_slabs_in_pool b) in
  _ ← store_bucket bucket (with_curr use pooled max_pooled max_use b);
  size ← bucket_slab_alloc_size b;
  store_pool (bucket_pool b) (with_cur_pool_size (add64 (cur_pool_size (params p)) (mul64 in_pool size)) p).

Definition bucket_chunk_cut_off (b : bucket_t) : D Z :=
  min_size ← bucket_slab_min_size b;
  mret (min_size / 2).

Definition bucket_max_pooled_slabs (b : bucket_t) : D Z :=
  cut_off ← bucket_chunk_cut_off b;
  if bucket_size b <=? cut_off then mret 1 else
  p ← load_pool (bucket_pool b);
  mret (capacity (params p)).

Definition fetch_and_add_total (limits n : Z) : D Z :=
  l ← load_limits limits;
  _ ← store_total_size limits (add64 (total_size l) n);
  mret (total_size l).
Definition fetch_and_sub_total (limits n : Z) : D Z :=
  l ← load_limits limits;
  _ ← store_total_size limits (sub64 (total_size l) n);
  mret (total_size l).

Definition bucket_can_pool (bucket : Z) : D bool :=
  b ← load_bucket bucket;
  let new_free_slabs_in_bucket := add64 (chunked_slabs_in_pool b) 1 in
  max_pooled ← bucket_max_pooled_slabs b;
  let no := _ ← bucket_update_stats bucket (-1) 0; mret false in
  if new_free_slabs_in_bucket <=? max_pooled then
    size_to_add ← bucket_slab_alloc_size b;
    previous_size ← fetch_and_add_total (bucket_limits b) size_to_add;
    l ← load_limits (bucket_limits b);
    if add64 previous_size size_to_add <=? max_size l then
      _ ← store_bucket bucket (with_chunked (add64 (chunked_slabs_in_pool b) 1) b);
      _ ← bucket_update_stats bucket (-1) 1;
      mret true
    else
      old ← fetch_and_sub_total (bucket_limits b) size_to_add;
      _ ← c_assert (size_to_add <=? old);
      no
  else no.

Definition bucket_create_slab (bucket : Z) : D Z :=
  slab ← create_slab bucket;
  if slab =? 0 then mret 0 else
  b ← load_bucket bucket;
  res ← pool_register_slab (bucket_pool b) slab;
  if negb (bool_decide (res = UMF_RESULT_SUCCESS)) then
    _ ← destroy_slab slab;
    mret 0
  else
    b ← load_bucket bucket;
    _ ← store_bucket bucket (with_slabs (slab :: available_slabs b) (add64 (available_slabs_num b) 1) (unavailable_slabs b) b);
    _ ← bucket_update_stats bucket 1 0;
    mret slab.

(** The first slab of the list, 0 when it is empty, and [*from_pool]. *)
Definition bucket_get_avail_slab (bucket : Z) : D (Z * bool) :=
  b ← load_bucket bucket;
  from_pool ←
    match available_slabs b with
    | [] => _ ← bucket_create_slab bucket; mret false
    | slab :: _ =>
      sl ← load_slab slab;
      if num_chunks_allocated sl =? 0 then
        _ ← c_assert (0 <? chunked_slabs_in_pool b);
        _ ← store_bucket bucket (with_chunked (sub64 (chunked_slabs_in_pool b) 1) b);
        size_to_sub ← bucket_slab_alloc_size b;
        old_size ← fetch_and_sub_total (bucket_limits b) size_to_sub;
        _ ← c_assert (size_to_sub <=? old_size);
        _ ← bucket_update_stats bucket 1 (-1);
        mret true
      else mret true
    end;
  b ← load_bucket bucket;
  mret (default 0 (head (available_slabs b)), from_pool).

Definition bucket_get_free_chunk (bucket : Z) : D (Z * bool) :=
  '(slab, from_pool) ← bucket_get_avail_slab bucket;
  if slab =? 0 then mret (0, from_pool) else
  free_chunk ← slab_get_chunk slab;
  sl ← load_slab slab;
  if negb (slab_has_avail sl) then
    b ← load_bucket bucket;
    avail ← of_option (dl_delete slab (available_slabs b));
    _ ← store_bucket bucket (with_slabs avail (sub64 (available_slabs_num b) 1) (slab :: unavailable_slabs b) b);
    mret (free_chunk, from_pool)
  else mret (free_chunk, from_pool).

(** Returns [*to_pool]. *)
Definition bucket_free_chunk (bucket ptr slab : Z) : D bool :=
  _ ← slab_free_chunk slab ptr;
  sl ← load_slab slab;
  _ ← (if slab_get_num_free_chunks sl =? 1 then
         b ← load_bucket bucket;
         unavail ← of_option (dl_delete slab (unavailable_slabs b));
         store_bucket bucket (with_slabs (slab :: available_slabs b) (add64 (available_slabs_num b) 1) unavail b)
       else mret tt);
  if num_chunks_allocated sl =? 0 then
    to_pool ← bucket_can_pool bucket;
    if (to_pool : bool) then mret true else
    _ ← destroy_slab slab;
    b ← load_bucket bucket;
    avail ← of_option (dl_delete slab (available_slabs b));
    _ ← c_assert (0 <? available_slabs_num b);
    _ ← store_bucket bucket (with_slabs avail (sub64 (available_slabs_num b) 1) (unavailable_slabs b) b);
    _ ← pool_unregister_slab (bucket_pool b) slab;
    mret false
  else mret true.

(** ** The pool *)

Definition size_to_idx (p : disjoint_pool_t) (size : Z) : option Z :=
  if negb (size <=? CutOff) then None else
  if negb (0 <? size) then None else
  let min_size := shl64 1 (min_bucket_size_exp p) in
  if size <? min_size then Some 0 else
  let position := utils_msb64 size in
  let is_power_of_2 := IS_POWER_OF_2 size in
  let larger_than_halfway := negb is_power_of_2 && negb (Z.land (sub64 size 1) (shl64 1 (sub64 position 1)) =? 0) in
  Some (add64 (add64 (mul64 (sub64 position (min_bucket_size_exp p)) 2) (if negb is_power_of_2 then 1 else 0))
          (if larger_than_halfway then 1 else 0)).

Definition disjoint_pool_get_limits (p : disjoint_pool_t) : Z :=
  if negb (shared_limits (params p) =? 0) then shared_limits (params p) else default_shared_limits p.

(** [pool->buckets[i]] *)
Definition load_bucket_ptr (p : disjoint_pool_t) (i : Z) : D Z :=
  s ← get;
  l ← of_option (dj_arrays s !! buckets p);
  of_option (l !! Z.to_nat i).

Definition disjoint_pool_find_bucket (pool size : Z) : D Z :=
  p ← load_pool pool;
  calculated_idx ← of_option (size_to_idx p size);
  load_bucket_ptr p calculated_idx.

(** Only the locks of [disjoint_pool_print_stats] have an effect, [n] buckets
    from [i] on. *)
Fixpoint disjoint_pool_print_stats (n : nat) (p : disjoint_pool_t) (i : Z) : D unit :=
  match n with
  | O => mret tt
  | S n =>
    bucket ← load_bucket_ptr p i;
    _ ← lock_bucket bucket;
    _ ← unlock_bucket bucket;
    disjoint_pool_print_stats n p (i + 1)
  end.

(** The statistics of an allocation. *)
Definition count_alloc (p : disjoint_pool_t) (bucket : Z) (from_pool : bool) : D unit :=
  if pool_trace (params p) >? 1 then
    b ← load_bucket bucket;
    store_bucket bucket (with_counts (add64 (alloc_count b) 1)
      (if from_pool then add64 (alloc_pool_count b) 1 else alloc_pool_count b) (free_count b) b)
  else mret tt.

Definition disjoint_pool_allocate (pool size : Z) : D Z :=
  if size =? 0 then mret 0 else
  p ← load_pool pool;
  if size >? max_poolable_size (params p) then
    '(ret, ptr) ← on_world (umfMemoryProviderAlloc (provider p) size 0 0);
    if negb (bool_decide (ret = UMF_RESULT_SUCCESS)) then _ ← modify (with_tls_error ret); mret 0
    else mret ptr
  else
  bucket ← disjoint_pool_find_bucket pool size;
  _ ← lock_bucket bucket;
  '(ptr, from_pool) ← bucket_get_free_chunk bucket;
  if ptr =? 0 then
    _ ← modify (with_tls_error UMF_RESULT_ERROR_OUT_OF_HOST_MEMORY);
    _ ← unlock_bucket bucket;
    mret 0
  else
  _ ← count_alloc p bucket from_pool;
  _ ← unlock_bucket bucket;
  mret ptr.

Definition disjoint_pool_malloc (pool size : Z) : D Z := disjoint_pool_allocate pool size.

Definition disjoint_pool_calloc (pool num size : Z) : D Z :=
  _ ← modify (with_tls_error UMF_RESULT_ERROR_NOT_SUPPORTED); mret 0.

Definition disjoint_pool_realloc (pool ptr size : Z) : D Z :=
  _ ← modify (with_tls_error UMF_RESULT_ERROR_NOT_SUPPORTED); mret 0.

Definition disjoint_pool_aligned_malloc (pool size alignment : Z) : D Z :=
  if size =? 0 then mret 0 else
  if alignment <=? 1 then disjoint_pool_allocate pool size else
  p ← load_pool pool;
  let aligned_size :=
    if alignment <=? provider_min_page_size p then (if size >? 1 then ALIGN_UP_SAFE size alignment else alignment)
    else sub64 (add64 size alignment) 1 in
  if aligned_size >? max_poolable_size (params p) then
    '(ret, ptr) ← on_world (umfMemoryProviderAlloc (provider p) size alignment 0);
    if negb (bool_decide (ret = UMF_RESULT_SUCCESS)) then _ ← modify (with_tls_error ret); mret 0
    else _ ← c_assert (negb (ptr =? 0)); mret ptr
  else
  bucket ← disjoint_pool_find_bucket pool aligned_size;
  _ ← lock_bucket bucket;
  '(ptr, from_pool) ← bucket_get_free_chunk bucket;
  if ptr =? 0 then
    _ ← modify (with_tls_error UMF_RESULT_ERROR_OUT_OF_HOST_MEMORY);
    _ ← unlock_bucket bucket;
    mret 0
  else
  _ ← count_alloc p bucket from_pool;
  let aligned_ptr := ALIGN_UP_SAFE ptr alignment in
  _ ← unlock_bucket bucket;
  mret aligned_ptr.

Definition get_chunk_idx (ptr : Z) (sl : slab_t) : D Z :=
  b ← load_bucket (slab_bucket sl);
  _ ← c_assert (negb (bucket_size b =? 0));
  mret (sub64 ptr (mem_ptr sl) / bucket_size b).

Definition get_unaligned_ptr (chunk_idx : Z) (sl : slab_t) : D Z :=
  b ← load_bucket (slab_bucket sl);
  mret (add64 (mem_ptr sl) (mul64 chunk_idx (bucket_size b))).

(** [slab == NULL || ptr >= slab_get_end(slab)] *)
Definition not_in_slab (slab ptr : Z) : D bool :=
  if slab =? 0 then mret true else
  sl ← load_slab slab;
  slab_end ← slab_get_end sl;
  mret (slab_end <=? ptr).

Definition release_slab (ref_slab : option Z) : D unit :=
  match ref_slab with Some _ => _ ← on_known_slabs (critnib_release ref_slab); mret tt | None => mret tt end.

Definition disjoint_pool_malloc_usable_size (pool ptr : Z) (size : option Z) : D (umf_result_t * option Z) :=
  match size with
  | None => mret (UMF_RESULT_ERROR_INVALID_ARGUMENT, None)
  | Some _ =>
    if pool =? 0 then mret (UMF_RESULT_ERROR_INVALID_ARGUMENT, size) else
    if ptr =? 0 then mret (UMF_RESULT_SUCCESS, Some 0) else
    '(slab, ref_slab) ← on_known_slabs (critnib_find_le ptr true);
    out ← not_in_slab slab ptr;
    if (out : bool) then
      _ ← release_slab ref_slab;
      '(ret, allocInfo) ← on_world (umfMemoryTrackerGetAllocInfo ptr (mk_alloc_info 0 0 0));
      if negb (bool_decide (ret = UMF_RESULT_SUCCESS)) then mret (ret, Some 0)
      else mret (UMF_RESULT_SUCCESS, Some (baseSize allocInfo))
    else
    sl ← load_slab slab;
    chunk_idx ← get_chunk_idx ptr sl;
    unaligned_ptr ← get_unaligned_ptr chunk_idx sl;
    let diff := sub64 ptr unaligned_ptr in
    b ← load_bucket (slab_bucket sl);
    let usable := sub64 (bucket_size b) diff in
    _ ← c_assert (bool_decide (is_Some ref_slab));
    _ ← release_slab ref_slab;
    mret (UMF_RESULT_SUCCESS, Some usable)
  end.

Definition disjoint_pool_free (pool ptr : Z) : D umf_result_t :=
  if ptr =? 0 then mret UMF_RESULT_SUCCESS else
  p ← load_pool pool;
  '(slab, ref_slab) ← on_known_slabs (critnib_find_le ptr true);
  out ← not_in_slab slab ptr;
  if (out : bool) then
    _ ← release_slab ref_slab;
    '(ret, allocInfo) ← on_world (umfMemoryTrackerGetAllocInfo ptr (mk_alloc_info 0 0 0));
    if negb (bool_decide (ret = UMF_RESULT_SUCCESS)) then _ ← modify (with_tls_error ret); mret ret else
    ret ← on_world (umfMemoryProviderFree (provider p) ptr (baseSize allocInfo));
    _ ← (if negb (bool_decide (ret = UMF_RESULT_SUCCESS)) then modify (with_tls_error ret) else mret tt);
    mret ret
  else
  sl ← load_slab slab;
  slab_end ← slab_get_end sl;
  if (ptr <? slab_get sl) || (slab_end <=? ptr) then _ ← c_assert false; mret UMF_RESULT_ERROR_UNKNOWN else
  let bucket := slab_bucket sl in
  _ ← lock_bucket bucket;
  chunk_idx ← get_chunk_idx ptr sl;
  unaligned_ptr ← get_unaligned_ptr chunk_idx sl;
  _ ← bucket_free_chunk bucket unaligned_ptr slab;
  _ ← c_assert (bool_decide (is_Some ref_slab));
  _ ← release_slab ref_slab;
  _ ← (if pool_trace (params p) >? 1 then
         b ← load_bucket bucket;
         store_bucket bucket (with_counts (alloc_count b) (alloc_pool_count b) (add64 (free_count b) 1) b)
       else mret tt);
  _ ← unlock_bucket bucket;
  mret UMF_RESULT_SUCCESS.

Definition disjoint_pool_get_last_allocation_error (pool : Z) : D umf_result_t :=
  s ← get; mret (TLS_last_allocation_error s).
End Disjoint.
