(* ===== verification/DisjointApi.v ===== *)
(** * The disjoint pool: its life, its parameters and its statistics

    The functions of src/pool/pool_disjoint.c that create, trim and destroy a
    pool, the shared limits, the parameters, and the leaves of its control tree. *)

From S2P Require Import Prelude Utils HostMem.
From stdpp Require Import strings list.
From S2P Require Import Critnib Tracker PoolProvider DisjointPool.
#[local] Open Scope Z_scope.

Definition default_params : umf_disjoint_pool_params_t :=
  mk_dparams (64 * 1024) (2 * 1024 * 1024) 4 8 0 0 0 "disjoint".

Definition DEFAULT_NAME : string := "disjoint".

(** [strncpy] into [char[64]], and the NUL. *)
Definition params_name (s : string) : string := String.substring 0 63 s.

Definition BUCKET_LOOP : nat := 64.

(** The loop that counts the buckets. *)
Fixpoint count_buckets (fuel : nat) (Size2 buckets_num : Z) : option Z :=
  if Size2 <? CutOff then
    match fuel with O => None | S fuel => count_buckets fuel (mul64 Size2 2) (add64 buckets_num 2) end
  else Some buckets_num.

Definition with_known_slabs (c : Z) (p : disjoint_pool_t) : disjoint_pool_t :=
  mk_disjoint_pool c (provider p) (buckets p) (buckets_num p) (params p) (default_shared_limits p) (min_bucket_size_exp p) (provider_min_page_size p).
Definition with_params (h : Z) (q : umf_disjoint_pool_params_t) (p : disjoint_pool_t) : disjoint_pool_t :=
  mk_disjoint_pool (known_slabs p) h (buckets p) (buckets_num p) q (default_shared_limits p) (min_bucket_size_exp p) (provider_min_page_size p).
Definition with_exp (e l : Z) (p : disjoint_pool_t) : disjoint_pool_t :=
  mk_disjoint_pool (known_slabs p) (provider p) (buckets p) (buckets_num p) (params p) l e (provider_min_page_size p).
Definition with_array (a n : Z) (p : disjoint_pool_t) : disjoint_pool_t :=
  mk_disjoint_pool (known_slabs p) (provider p) a n (params p) (default_shared_limits p) (min_bucket_size_exp p) (provider_min_page_size p).
Definition with_min_page (n : Z) (p : disjoint_pool_t) : disjoint_pool_t :=
  mk_disjoint_pool (known_slabs p) (provider p) (buckets p) (buckets_num p) (params p) (default_shared_limits p) (min_bucket_size_exp p) n.

Section Api.
Context `{HostAlloc H} `{PoolProvider W}.
Abbreviation D := (M (djstate H W)).
Implicit Types s : djstate H W.

(** ** The shared limits *)

Definition umfDisjointPoolSharedLimitsCreate (max_size : Z) (hSharedLimits : option Z) : D (umf_result_t * option Z) :=
  match hSharedLimits with
  | None => mret (UMF_RESULT_ERROR_INVALID_ARGUMENT, None)
  | Some _ =>
    ptr ← dj_alloc tag_limits sizeof_limits;
    if ptr =? 0 then mret (UMF_RESULT_ERROR_OUT_OF_HOST_MEMORY, hSharedLimits) else
    _ ← modify (fun s => with_dj_limits (<[ptr := mk_limits max_size 0]> (dj_limits s)) s);
    mret (UMF_RESULT_SUCCESS, Some ptr)
  end.

Definition umfDisjointPoolSharedLimitsDestroy (limits : Z) : D umf_result_t :=
  _ ← dj_free limits;
  _ ← modify (fun s => with_dj_limits (delete limits (dj_limits s)) s);
  mret UMF_RESULT_SUCCESS.

(** ** The map of the slabs *)

(** [utils_mutex_init] in [critnib_new]. *)
Definition slabs_mutex_init : D bool :=
  s ← get;
  _ ← modify (with_dj_mutex_init (tail (dj_mutex_init s)));
  mret (default true (head (dj_mutex_init s))).

Definition make_known_slabs (mutex_ok : bool) : D Z :=
  fun s =>
    match critnib_new true mutex_ok (dj_host s) with
    | (None, h) => Some (0, with_dj_host h s)
    | (Some k, h) => Some (self (c_crit k), with_dj_host h (with_dj_crit (Some k) s))
    end.
Definition new_known_slabs : D Z := mutex_ok ← slabs_mutex_init; make_known_slabs mutex_ok.

Definition delete_known_slabs : D unit :=
  _ ← on_known_slabs critnib_delete;
  modify (with_dj_crit None).

(** ** The array of the buckets *)

(** [pool->buckets[i] = bucket]; the elements are written in their order. *)
Definition store_bucket_ptr (pool i bucket : Z) : D unit :=
  p ← load_pool pool;
  s ← get;
  l ← of_option (dj_arrays s !! buckets p);
  _ ← c_assert ((Z.of_nat (length l) =? i) && (i <? buckets_num p));
  modify (fun s => with_dj_arrays (<[buckets p := l ++ [bucket]]> (dj_arrays s)) s).

Definition create_bucket_at (pool i size : Z) : D unit :=
  p ← load_pool pool;
  bucket ← create_bucket size pool (disjoint_pool_get_limits p);
  store_bucket_ptr pool i bucket.

(** The loop that creates the buckets; returns [i]. *)
Fixpoint create_buckets (fuel : nat) (pool Size1 Size2 i : Z) : D Z :=
  if Size2 <? CutOff then
    match fuel with
    | O => undef
    | S fuel =>
      _ ← create_bucket_at pool i Size1;
      _ ← create_bucket_at pool (i + 1) Size2;
      create_buckets fuel pool (mul64 Size1 2) (mul64 Size2 2) (i + 2)
    end
  else mret i.

(** Whether the [n] buckets from [i] on were created. *)
Fixpoint buckets_created (n : nat) (p : disjoint_pool_t) (i : Z) : D bool :=
  match n with
  | O => mret true
  | S n =>
    bucket ← load_bucket_ptr p i;
    if bucket =? 0 then mret false else buckets_created n p (i + 1)
  end.

Fixpoint destroy_created (n : nat) (p : disjoint_pool_t) (i : Z) : D unit :=
  match n with
  | O => mret tt
  | S n =>
    bucket ← load_bucket_ptr p i;
    _ ← (if negb (bucket =? 0) then destroy_bucket bucket else mret tt);
    destroy_created n p (i + 1)
  end.

Definition free_array (a : Z) : D unit :=
  _ ← dj_free a;
  modify (fun s => with_dj_arrays (delete a (dj_arrays s)) s).

Definition free_pool (pool : Z) : D unit :=
  _ ← dj_free pool;
  modify (with_dj_pool None).

(** ** The life of a pool *)

Definition err_free_disjoint_pool (pool : Z) (ppPool : option Z) : D (umf_result_t * option Z) :=
  _ ← free_pool pool; mret (UMF_RESULT_ERROR_OUT_OF_HOST_MEMORY, ppPool).
Definition err_free_known_slabs (pool : Z) (ppPool : option Z) : D (umf_result_t * option Z) :=
  _ ← delete_known_slabs; err_free_disjoint_pool pool ppPool.
Definition err_free_shared_limits (pool : Z) (ppPool : option Z) : D (umf_result_t * option Z) :=
  p ← load_pool pool;
  _ ← umfDisjointPoolSharedLimitsDestroy (default_shared_limits p);
  err_free_known_slabs pool ppPool.
Definition err_free_buckets (pool : Z) (ppPool : option Z) : D (umf_result_t * option Z) :=
  p ← load_pool pool;
  _ ← destroy_created (Z.to_nat (buckets_num p)) p 0;
  _ ← free_array (buckets p);
  err_free_shared_limits pool ppPool.

(** [junk] is the content of the fresh struct. *)
Definition disjoint_pool_initialize (junk : disjoint_pool_t) (provider params : Z) (ppPool : option Z) : D (umf_result_t * option Z) :=
  if (provider =? 0) || bool_decide (ppPool = None) then mret (UMF_RESULT_ERROR_INVALID_ARGUMENT, ppPool) else
  s ← get;
  dp_params ← of_option (if params =? 0 then Some default_params else dj_params s !! params);
  pool ← dj_alloc tag_disjoint_pool sizeof_disjoint_pool;
  if pool =? 0 then mret (UMF_RESULT_ERROR_OUT_OF_HOST_MEMORY, ppPool) else
  _ ← store_pool pool (with_params provider dp_params junk);
  known ← new_known_slabs;
  p ← load_pool pool;
  _ ← store_pool pool (with_known_slabs known p);
  if known =? 0 then err_free_disjoint_pool pool ppPool else
  let Size1 := utils_max (utils_min (min_bucket_size dp_params) CutOff) UMF_DISJOINT_POOL_MIN_BUCKET_DEFAULT_SIZE in
  p ← load_pool pool;
  '(ret, limits) ← umfDisjointPoolSharedLimitsCreate SIZE_MAX (Some (default_shared_limits p));
  _ ← store_pool pool (with_exp (utils_msb64 Size1) (default 0 limits) p);
  if negb (bool_decide (ret = UMF_RESULT_SUCCESS)) then err_free_known_slabs pool ppPool else
  let Size2 := add64 Size1 (Size1 / 2) in
  num ← of_option (count_buckets BUCKET_LOOP Size2 1);
  a ← dj_alloc tag_buckets (mul64 8 num);
  p ← load_pool pool;
  _ ← store_pool pool (with_array a num p);
  if a =? 0 then err_free_shared_limits pool ppPool else
  _ ← modify (fun s => with_dj_arrays (<[a := []]> (dj_arrays s)) s);
  i ← create_buckets BUCKET_LOOP pool Size1 Size2 0;
  _ ← create_bucket_at pool i CutOff;
  p ← load_pool pool;
  created ← buckets_created (Z.to_nat num) p 0;
  if negb (created : bool) then err_free_buckets pool ppPool else
  '(ret, page) ← on_world (umfMemoryProviderGetMinPageSize provider 0 (provider_min_page_size p));
  _ ← store_pool pool (with_min_page (if bool_decide (ret = UMF_RESULT_SUCCESS) then page else 0) p);
  mret (UMF_RESULT_SUCCESS, Some pool).

(** The loop of [disjoint_pool_finalize]. *)
Fixpoint destroy_buckets (n : nat) (p : disjoint_pool_t) (i : Z) : D unit :=
  match n with
  | O => mret tt
  | S n =>
    bucket ← load_bucket_ptr p i;
    _ ← destroy_bucket bucket;
    destroy_buckets n p (i + 1)
  end.

Definition disjoint_pool_finalize (pool : Z) : D umf_result_t :=
  p ← load_pool pool;
  _ ← (if pool_trace (params p) >? 1 then disjoint_pool_print_stats (Z.to_nat (buckets_num p)) p 0 else mret tt);
  _ ← destroy_buckets (Z.to_nat (buckets_num p)) p 0;
  _ ← free_array (buckets p);
  ret ← umfDisjointPoolSharedLimitsDestroy (default_shared_limits p);
  let ret := if bool_decide (ret = UMF_RESULT_SUCCESS) then ret else UMF_RESULT_ERROR_UNKNOWN in
  _ ← delete_known_slabs;
  _ ← free_pool pool;
  mret ret.

(** [*name] after the call. *)
Definition disjoint_pool_get_name (pool : Z) (name : option string) : D (umf_result_t * option string) :=
  match name with
  | None => mret (UMF_RESULT_ERROR_INVALID_ARGUMENT, None)
  | Some _ =>
    if pool =? 0 then mret (UMF_RESULT_SUCCESS, Some DEFAULT_NAME) else
    p ← load_pool pool;
    mret (UMF_RESULT_SUCCESS, Some (pool_name (params p)))
  end.

(** The loop over the available slabs of a bucket; returns [minBytesToKeep]. *)
Fixpoint trim_slabs (pool bucket : Z) (slabs : list Z) (minBytesToKeep : Z) : D Z :=
  match slabs with
  | [] => mret minBytesToKeep
  | slab :: slabs =>
    sl ← load_slab slab;
    if num_chunks_allocated sl =? 0 then
      if minBytesToKeep >? 0 then
        trim_slabs pool bucket slabs (if minBytesToKeep >? slab_size sl then sub64 minBytesToKeep (slab_size sl) else 0)
      else
      _ ← destroy_slab slab;
      b ← load_bucket bucket;
      avail ← of_option (dl_delete slab (available_slabs b));
      _ ← c_assert (0 <? available_slabs_num b);
      _ ← store_bucket bucket (with_slabs avail (sub64 (available_slabs_num b) 1) (unavailable_slabs b) b);
      _ ← pool_unregister_slab pool slab;
      _ ← bucket_update_stats bucket 0 (-1);
      trim_slabs pool bucket slabs minBytesToKeep
    else trim_slabs pool bucket slabs minBytesToKeep
  end.

Fixpoint trim_buckets (n : nat) (pool : Z) (p : disjoint_pool_t) (i minBytesToKeep : Z) : D unit :=
  match n with
  | O => mret tt
  | S n =>
    bucket ← load_bucket_ptr p i;
    _ ← lock_bucket bucket;
    b ← load_bucket bucket;
    minBytesToKeep ← trim_slabs pool bucket (available_slabs b) minBytesToKeep;
    _ ← unlock_bucket bucket;
    trim_buckets n pool p (i + 1) minBytesToKeep
  end.

Definition disjoint_pool_trim_memory (pool minBytesToKeep : Z) : D umf_result_t :=
  _ ← c_assert (negb (pool =? 0));
  p ← load_pool pool;
  _ ← trim_buckets (Z.to_nat (buckets_num p)) pool p 0 minBytesToKeep;
  mret UMF_RESULT_SUCCESS.

(** ** Parameters *)

Definition umfDisjointPoolParamsCreate (hParams : option Z) : D (umf_result_t * option Z) :=
  match hParams with
  | None => mret (UMF_RESULT_ERROR_INVALID_ARGUMENT, None)
  | Some _ =>
    params ← dj_alloc tag_dparams sizeof_dparams;
    if params =? 0 then mret (UMF_RESULT_ERROR_OUT_OF_HOST_MEMORY, hParams) else
    _ ← modify (fun s => with_dj_params (<[params := default_params]> (dj_params s)) s);
    mret (UMF_RESULT_SUCCESS, Some params)
  end.

(** [destroyed] is [umf_ba_global_is_destroyed()]. *)
Definition umfDisjointPoolParamsDestroy (destroyed : bool) (hParams : Z) : D umf_result_t :=
  _ ← (if negb (hParams =? 0) && negb destroyed then
         _ ← dj_free hParams; modify (fun s => with_dj_params (delete hParams (dj_params s)) s)
       else mret tt);
  mret UMF_RESULT_SUCCESS.

Definition update_params (hParams : Z) (f : umf_disjoint_pool_params_t -> umf_disjoint_pool_params_t) : D umf_result_t :=
  if hParams =? 0 then mret UMF_RESULT_ERROR_INVALID_ARGUMENT else
  s ← get;
  q ← of_option (dj_params s !! hParams);
  _ ← modify (with_dj_params (<[hParams := f q]> (dj_params s)));
  mret UMF_RESULT_SUCCESS.

Definition umfDisjointPoolParamsSetSlabMinSize (hParams slabMinSize : Z) : D umf_result_t :=
  update_params hParams (fun q => mk_dparams slabMinSize (max_poolable_size q) (capacity q) (min_bucket_size q)
    (cur_pool_size q) (pool_trace q) (shared_limits q) (pool_name q)).
Definition umfDisjointPoolParamsSetMaxPoolableSize (hParams maxPoolableSize : Z) : D umf_result_t :=
  update_params hParams (fun q => mk_dparams (slab_min_size q) maxPoolableSize (capacity q) (min_bucket_size q)
    (cur_pool_size q) (pool_trace q) (shared_limits q) (pool_name q)).
Definition umfDisjointPoolParamsSetCapacity (hParams maxCapacity : Z) : D umf_result_t :=
  update_params hParams (fun q => mk_dparams (slab_min_size q) (max_poolable_size q) maxCapacity (min_bucket_size q)
    (cur_pool_size q) (pool_trace q) (shared_limits q) (pool_name q)).
Definition umfDisjointPoolParamsSetMinBucketSize (hParams minBucketSize : Z) : D umf_result_t :=
  if hParams =? 0 then mret UMF_RESULT_ERROR_INVALID_ARGUMENT else
  if (minBucketSize =? 0) || negb (Z.land minBucketSize (sub64 minBucketSize 1) =? 0)
  then mret UMF_RESULT_ERROR_INVALID_ARGUMENT else
  update_params hParams (fun q => mk_dparams (slab_min_size q) (max_poolable_size q) (capacity q) minBucketSize
    (cur_pool_size q) (pool_trace q) (shared_limits q) (pool_name q)).
Definition umfDisjointPoolParamsSetTrace (hParams poolTrace : Z) : D umf_result_t :=
  update_params hParams (fun q => mk_dparams (slab_min_size q) (max_poolable_size q) (capacity q) (min_bucket_size q)
    (cur_pool_size q) poolTrace (shared_limits q) (pool_name q)).
Definition umfDisjointPoolParamsSetSharedLimits (hParams hSharedLimits : Z) : D umf_result_t :=
  update_params hParams (fun q => mk_dparams (slab_min_size q) (max_poolable_size q) (capacity q) (min_bucket_size q)
    (cur_pool_size q) (pool_trace q) hSharedLimits (pool_name q)).
Definition umfDisjointPoolParamsSetName (hParams : Z) (name : string) : D umf_result_t :=
  update_params hParams (fun q => mk_dparams (slab_min_size q) (max_poolable_size q) (capacity q) (min_bucket_size q)
    (cur_pool_size q) (pool_trace q) (shared_limits q) (params_name name)).

(** ** The leaves of the control tree

    [arg] is the content of the buffer before and after the call, [None] for
    NULL, and [size] its size. *)

Definition bad_arg (arg : option Z) (size : Z) : bool := bool_decide (arg = None) || negb (size =? 8).

(** The sum of [f] over the slabs, added to [n]. *)
Fixpoint sum_slabs (f : slab_t -> Z) (slabs : list Z) (n : Z) : D Z :=
  match slabs with
  | [] => mret n
  | slab :: slabs =>
    sl ← load_slab slab;
    sum_slabs f slabs (add64 n (f sl))
  end.

(** The loop over the buckets, [n] from [i] on. *)
Fixpoint sum_buckets (f : bucket_t -> Z -> D Z) (n : nat) (p : disjoint_pool_t) (i total : Z) : D Z :=
  match n with
  | O => mret total
  | S n =>
    bucket ← load_bucket_ptr p i;
    _ ← lock_bucket bucket;
    b ← load_bucket bucket;
    total ← f b total;
    _ ← unlock_bucket bucket;
    sum_buckets f n p (i + 1) total
  end.

(** [f] of every slab of a bucket. *)
Definition sum_lists (f : bucket_t -> slab_t -> Z) (b : bucket_t) (total : Z) : D Z :=
  total ← sum_slabs (f b) (available_slabs b) total;
  sum_slabs (f b) (unavailable_slabs b) total.

Definition read_used_memory (pool : Z) (arg : option Z) (size : Z) : D (umf_result_t * option Z) :=
  if bad_arg arg size then mret (UMF_RESULT_ERROR_INVALID_ARGUMENT, arg) else
  p ← load_pool pool;
  used_memory ← sum_buckets (sum_lists (fun b sl => mul64 (num_chunks_allocated sl) (bucket_size b))) (Z.to_nat (buckets_num p)) p 0 0;
  mret (UMF_RESULT_SUCCESS, Some used_memory).

Definition read_reserved_memory (pool : Z) (arg : option Z) (size : Z) : D (umf_result_t * option Z) :=
  if bad_arg arg size then mret (UMF_RESULT_ERROR_INVALID_ARGUMENT, arg) else
  p ← load_pool pool;
  reserved_memory ← sum_buckets (sum_lists (fun _ sl => slab_size sl)) (Z.to_nat (buckets_num p)) p 0 0;
  mret (UMF_RESULT_SUCCESS, Some reserved_memory).

(** [idx] is the bucket of the query, [SIZE_MAX] when it has none. *)
Definition read_count (pool : Z) (arg : option Z) (size idx : Z) : D (umf_result_t * option Z) :=
  if bad_arg arg size then mret (UMF_RESULT_ERROR_INVALID_ARGUMENT, arg) else
  if negb (idx =? SIZE_MAX) then mret (UMF_RESULT_ERROR_INVALID_ARGUMENT, arg) else
  p ← load_pool pool;
  mret (UMF_RESULT_SUCCESS, Some (buckets_num p)).

(** The handlers of [DEFINE_STATS_HANDLER] and [DEFINE_BUCKET_STATS_HANDLER]
    for a member of the bucket. *)
Definition read_stats (member : bucket_t -> Z) (pool : Z) (arg : option Z) (size : Z) : D (umf_result_t * option Z) :=
  if bad_arg arg size then mret (UMF_RESULT_ERROR_INVALID_ARGUMENT, arg) else
  p ← load_pool pool;
  if pool_trace (params p) =? 0 then mret (UMF_RESULT_ERROR_NOT_SUPPORTED, arg) else
  total ← sum_buckets (fun b total => mret (add64 total (member b))) (Z.to_nat (buckets_num p)) p 0 0;
  mret (UMF_RESULT_SUCCESS, Some total).

Definition read_bucket_stats (member : bucket_t -> Z) (pool : Z) (arg : option Z) (size idx : Z) : D (umf_result_t * option Z) :=
  if bad_arg arg size then mret (UMF_RESULT_ERROR_INVALID_ARGUMENT, arg) else
  p ← load_pool pool;
  if negb (idx <? buckets_num p) then mret (UMF_RESULT_ERROR_INVALID_ARGUMENT, arg) else
  bucket ← load_bucket_ptr p idx;
  b ← load_bucket bucket;
  mret (UMF_RESULT_SUCCESS, Some (member b)).
End Api.
