(* ===== verification/DisjointSize.v ===== *)
(** * The size classes and the bitmaps of the disjoint pool

    The buckets have the sizes [2^e], [3 * 2^(e-1)], [2^(e+1)], ... up to
    [CutOff]; [bsize e i] is the size of the bucket [i].  [size_to_idx] finds the
    smallest bucket that is large enough.

    [chunk_free ws i] reads the bit of the chunk [i] in the words [ws], and
    [nfree n ws] counts the set bits below [n].  The functions on the bitmap
    change one bit, and the search returns the first set bit. *)

From S2P Require Import Prelude Utils HostMem.
From stdpp Require Import strings list.
From S2P Require Import Critnib Tracker PoolProvider DisjointPool.
#[local] Open Scope Z_scope.

Definition bsize (e i : Z) : Z :=
  if Z.even i then 2 ^ (e + i / 2) else 3 * 2 ^ (e + i / 2 - 1).

(** The number of buckets. *)
Definition bnum (e : Z) : Z := 2 * (31 - e) + 1.

Lemma bsize_even e k : bsize e (2 * k) = 2 ^ (e + k).
Proof. unfold bsize. rewrite Z.even_mul. simpl. rewrite (Z.mul_comm 2 k), Z.div_mul by lia. done. Qed.

Lemma bsize_0 e : bsize e 0 = 2 ^ e.
Proof. rewrite (bsize_even e 0 : bsize e 0 = _). by rewrite Z.add_0_r. Qed.

Lemma bsize_odd e k : bsize e (2 * k + 1) = 3 * 2 ^ (e + k - 1).
Proof.
  unfold bsize. rewrite Z.even_add, Z.even_mul. simpl. by replace ((2 * k + 1) / 2) with k by (apply (Z.div_unique _ _ _ 1); lia).
Qed.

Lemma index_cases i : 0 <= i -> exists k, 0 <= k /\ (i = 2 * k \/ i = 2 * k + 1).
Proof. intros Hi. exists (i / 2). pose proof (Z.div_mod i 2). pose proof (Z.mod_pos_bound i 2). lia. Qed.

Lemma pow_half n : 0 < n -> 2 ^ n = 2 * 2 ^ (n - 1).
Proof. intros Hn. rewrite <- Z.pow_succ_r by lia. f_equal. lia. Qed.

Lemma bsize_step e i : 1 <= e -> 0 <= i -> bsize e i < bsize e (i + 1).
Proof.
  intros He Hi. destruct (index_cases i Hi) as (k & Hk & [-> | ->]).
  - rewrite bsize_even, bsize_odd, (pow_half (e + k)) by lia. pose proof (Z.pow_pos_nonneg 2 (e + k - 1)). lia.
  - replace (2 * k + 1 + 1) with (2 * (k + 1)) by lia. rewrite bsize_odd, bsize_even.
    replace (e + (k + 1)) with (e + k - 1 + 2) by lia. rewrite Z.pow_add_r by lia. pose proof (Z.pow_pos_nonneg 2 (e + k - 1)). lia.
Qed.

Lemma bsize_mono e i j : 1 <= e -> 0 <= i <= j -> bsize e i <= bsize e j.
Proof.
  intros He [Hi Hij]. replace j with (i + (j - i)) by lia. generalize (j - i), (Zle_minus_le_0 _ _ Hij). clear j Hij.
  apply natlike_ind; [by rewrite Z.add_0_r|]. intros d Hd IH. etrans; [exact IH|].
  replace (i + Z.succ d) with (i + d + 1) by lia. apply Z.lt_le_incl, bsize_step; lia.
Qed.

Lemma bsize_last e : bsize e (bnum e - 1) = CutOff.
Proof. unfold bnum. replace (2 * (31 - e) + 1 - 1) with (2 * (31 - e)) by lia. rewrite bsize_even. by replace (e + (31 - e)) with 31 by lia. Qed.

Lemma bsize_bounds e i : 3 <= e <= 31 -> 0 <= i < bnum e -> 8 <= bsize e i <= CutOff.
Proof.
  intros He Hi. split.
  - etrans; [|apply (bsize_mono e 0); lia]. rewrite bsize_0. change 8 with (2 ^ 3). apply Z.pow_le_mono_r; lia.
  - rewrite <- (bsize_last e). apply bsize_mono; lia.
Qed.

(** A bucket of a multiple of [a] has a multiple of [a]. *)
Lemma bsize_multiple e i a m : 3 <= e -> 0 <= i -> pow2 a -> 0 < m -> (m * a <= bsize e i) ->
  (i = 0 \/ bsize e (i - 1) < m * a) -> bsize e i mod a = 0.
Proof.
  intros He Hi (n & Hn & ->) Hm Hle Hmin.
  assert (forall q, n <= q -> 2 ^ q mod 2 ^ n = 0) as Hpow.
  { intros q Hq. replace q with (q - n + n) by lia. rewrite Z.pow_add_r by lia. apply Z.mod_mul, Z.pow_nonzero; lia. }
  destruct (index_cases i Hi) as (k & Hk & [-> | ->]).
  - rewrite bsize_even in *. apply Hpow. apply (Z.pow_le_mono_r_iff 2); [lia|lia|]. etrans; [|exact Hle].
    pose proof (Z.pow_pos_nonneg 2 n). nia.
  - destruct Hmin as [?|Hmin]; [lia|]. replace (2 * k + 1 - 1) with (2 * k) in Hmin by lia.
    rewrite bsize_odd, bsize_even in *. rewrite Z.mul_mod, Hpow, Z.mul_0_r, Z.mod_0_l; [done|apply Z.pow_nonzero; lia| |apply Z.pow_nonzero; lia].
    destruct (Z.le_gt_cases n (e + k - 1)) as [?|Hgt]; [done|exfalso].
    destruct (Z.eq_dec n (e + k)) as [->|Hne].
    + rewrite (pow_half (e + k)) in * by lia. pose proof (Z.pow_pos_nonneg 2 (e + k - 1)). assert (m = 1 \/ 2 <= m) as [->|] by lia; [lia|nia].
    + assert (2 ^ (e + k + 1) <= 2 ^ n) by (apply Z.pow_le_mono_r; lia).
      replace (e + k + 1) with (e + k - 1 + 2) in * by lia. rewrite Z.pow_add_r in * by lia. pose proof (Z.pow_pos_nonneg 2 (e + k - 1)). nia.
Qed.

(** ** [size_to_idx] *)

Lemma shl64_pow n : 0 <= n < 64 -> shl64 1 n = 2 ^ n.
Proof.
  intros Hn. unfold shl64. rewrite Z.shiftl_mul_pow2, Z.mul_1_l by lia. apply wrap64_small, pow2_u64. by exists n.
Qed.

(** The bit under the highest one. *)
Lemma second_bit x q : 0 <= q -> 2 * 2 ^ q <= x < 4 * 2 ^ q -> (Z.land x (2 ^ q) =? 0) = (x <? 3 * 2 ^ q).
Proof.
  intros Hq Hx. pose proof (Z.pow_pos_nonneg 2 q) as Hp.
  assert (Z.testbit x q = negb (x <? 3 * 2 ^ q)) as Hb.
  { rewrite Z.testbit_odd, Z.shiftr_div_pow2 by lia. destruct (Z.ltb_spec x (3 * 2 ^ q)).
    - by replace (x / 2 ^ q) with 2 by (apply (Z.div_unique _ _ _ (x - 2 * 2 ^ q)); lia).
    - by replace (x / 2 ^ q) with 3 by (apply (Z.div_unique _ _ _ (x - 3 * 2 ^ q)); lia). }
  destruct (Z.ltb_spec x (3 * 2 ^ q)) as [Hlt|Hge]; simpl in Hb.
  - apply Z.eqb_eq, Z.bits_inj_0. intros n. rewrite Z.land_spec, Z.pow2_bits_eqb by lia.
    destruct (Z.eqb_spec q n) as [<-|]; [by rewrite Hb|by rewrite andb_false_r].
  - apply Z.eqb_neq. intros E. apply (f_equal (fun z => Z.testbit z q)) in E.
    rewrite Z.land_spec, Z.pow2_bits_true, Hb, Z.bits_0 in E by lia. done.
Qed.

(** The index is the one of the smallest bucket of the size. *)
Lemma size_to_idx_spec p size :
  3 <= min_bucket_size_exp p <= 31 -> 0 < size <= CutOff ->
  exists i, size_to_idx p size = Some i /\ 0 <= i < bnum (min_bucket_size_exp p) /\
    size <= bsize (min_bucket_size_exp p) i /\ (i = 0 \/ bsize (min_bucket_size_exp p) (i - 1) < size).
Proof.
  set (e := min_bucket_size_exp p). intros He Hs. unfold size_to_idx. fold e.
  rewrite (proj2 (Z.leb_le _ _)), (proj2 (Z.ltb_lt _ _)) by lia. simpl. rewrite shl64_pow by lia.
  destruct (Z.ltb_spec size (2 ^ e)) as [Hlt|Hge].
  { exists 0. unfold bnum. rewrite bsize_0. split_and!; [done|lia|lia|lia|by left]. }
  assert (0 < 2 ^ e) as Hpe by (apply Z.pow_pos_nonneg; lia).
  unfold utils_msb64. destruct (Z.log2_spec size) as [Hl Hh]; [lia|]. set (q := Z.log2 size) in *.
  assert (e <= q) as Heq by (apply Z.log2_le_pow2; lia).
  assert (q <= 31) as Hq31. { unfold q. change 31 with (Z.log2 CutOff). apply Z.log2_le_mono. lia. }
  assert (CutOff = 2 ^ 31) as EC by done.
  assert (size = 2 ^ q \/ size <> 2 ^ q) as [Ep|Hne] by lia.
  - rewrite Ep, (pow2_is_power_of_2 (2 ^ q)) by (exists q; split; [lia|done]). simpl.
    exists (2 * (q - e)). rewrite bsize_even. replace (e + (q - e)) with q by lia. split_and!; [|unfold bnum; lia..|lia|].
    + f_equal. rewrite (sub64_small q e), (mul64_small (q - e) 2), !(add64_small _ 0); unfold is_u64, two64; rewrite ?(add64_small _ 0); unfold is_u64, two64; lia.
    + destruct (Z.eq_dec q e) as [->|]; [by left; lia|right]. replace (2 * (q - e) - 1) with (2 * (q - e - 1) + 1) by lia.
      rewrite bsize_odd. replace (e + (q - e - 1) - 1) with (q - 2) by lia. replace (2 ^ q) with (2 ^ (q - 2 + 2)) by (f_equal; lia).
      rewrite Z.pow_add_r by lia. pose proof (Z.pow_pos_nonneg 2 (q - 2)). lia.
  - assert (IS_POWER_OF_2 size = false) as Hnp.
    { destruct (IS_POWER_OF_2 size) eqn:E; [exfalso|done]. apply is_power_of_2_pow2 in E as (n & Hn & E); [|unfold is_u64, two64, CutOff in *; simpl in *; lia].
      apply Hne. rewrite E. f_equal. unfold q. by rewrite E, Z.log2_pow2 by lia. }
    assert (q < 31) as Hq by (destruct (Z.eq_dec q 31) as [Eq|]; [rewrite Eq in *; lia|lia]).
    rewrite Hnp. simpl. rewrite (sub64_small q 1), shl64_pow, (sub64_small size 1) by (unfold is_u64, two64, CutOff in *; simpl in *; lia).
    assert (2 ^ q = 2 * 2 ^ (q - 1)) as Eq by (apply pow_half; lia). pose proof (Z.pow_pos_nonneg 2 (q - 1)) as Hp.
    rewrite Z.pow_succ_r, Eq in Hh by lia. rewrite second_bit by lia.
    rewrite (sub64_small q e), (mul64_small (q - e) 2) by (unfold is_u64, two64; lia). destruct (Z.ltb_spec (size - 1) (3 * 2 ^ (q - 1))) as [Hm|Hm]; simpl.
    + exists (2 * (q - e) + 1). replace (2 * (q - e) + 1 - 1) with (2 * (q - e)) by lia. rewrite bsize_odd, bsize_even.
      replace (e + (q - e)) with q by lia. split_and!; [|unfold bnum; lia..|lia|right; lia].
      f_equal. rewrite !add64_small; unfold is_u64, two64; rewrite ?add64_small; unfold is_u64, two64; lia.
    + exists (2 * (q - e + 1)). replace (2 * (q - e + 1) - 1) with (2 * (q - e) + 1) by lia. rewrite bsize_odd, bsize_even.
      replace (e + (q - e + 1)) with (Z.succ q) by lia. replace (e + (q - e)) with q by lia. rewrite Z.pow_succ_r by lia.
      split_and!; [|unfold bnum; lia..|lia|right; lia].
      f_equal. rewrite !add64_small; unfold is_u64, two64; rewrite ?add64_small; unfold is_u64, two64; lia.
Qed.

Definition chunk_free (ws : list Z) (i : Z) : bool :=
  match ws !! Z.to_nat (i / 64) with Some w => Z.testbit w (i mod 64) | None => false end.

Definition nfree (n : Z) (ws : list Z) : Z := Z.of_nat (length (filter (fun i => chunk_free ws i = true) (seqZ 0 n))).

(** The words of a bitmap of [n] chunks. *)
Record words_ok (n : Z) (ws : list Z) : Prop := {
  wo_length : Z.of_nat (length ws) = (n + 63) / 64;
  wo_word : forall k w, ws !! k = Some w -> is_u64 w;
  wo_rest : forall i, n <= i -> chunk_free ws i = false;
}.

(** ** Words *)

Lemma not64_bit x c : 0 <= c -> Z.testbit (not64 x) c = (c <? 64) && negb (Z.testbit x c).
Proof.
  intros Hc. unfold not64. rewrite Z.ldiff_spec. f_equal. destruct (Z.ltb_spec c 64).
  - apply Z.ones_spec_low. lia.
  - apply Z.ones_spec_high. lia.
Qed.

Lemma u64_bits x : 0 <= x -> (forall i, 64 <= i -> Z.testbit x i = false) -> is_u64 x.
Proof.
  intros Hx Hb. split; [done|]. rewrite two64_eq. destruct (Z.eq_dec x 0) as [->|Hne]; [done|].
  apply Z.log2_lt_pow2; [lia|]. apply Z.nle_gt. intros Hge. pose proof (Z.bit_log2 x). rewrite Hb in *; naive_solver lia.
Qed.

Lemma u64_high x i : is_u64 x -> 64 <= i -> Z.testbit x i = false.
Proof.
  intros [H0 Hx] Hi. destruct (Z.eq_dec x 0) as [->|Hne]; [apply Z.bits_0|]. apply Z.bits_above_log2; [done|].
  apply Z.lt_le_trans with 64; [|done]. apply Z.log2_lt_pow2; [lia|]. by rewrite <- two64_eq.
Qed.

Definition set_bit (w b : Z) (v : bool) : Z := if v then Z.lor w (shl64 1 b) else Z.land w (not64 (shl64 1 b)).

Lemma set_bit_spec w b v c : 0 <= b < 64 -> is_u64 w -> 0 <= c -> Z.testbit (set_bit w b v) c = if c =? b then v else Z.testbit w c.
Proof.
  intros Hb Hw Hc. unfold set_bit. rewrite shl64_pow by done. destruct v.
  - rewrite Z.lor_spec, Z.pow2_bits_eqb, (Z.eqb_sym b) by lia. by destruct (c =? b); rewrite ?orb_true_r, ?orb_false_r.
  - rewrite Z.land_spec, not64_bit, Z.pow2_bits_eqb, (Z.eqb_sym b) by lia. destruct (c =? b); rewrite ?andb_false_r; [done|].
    rewrite andb_true_r. destruct (Z.ltb_spec c 64); [by rewrite andb_true_r|]. by rewrite u64_high.
Qed.

Lemma set_bit_u64 w b v : 0 <= b < 64 -> is_u64 w -> is_u64 (set_bit w b v).
Proof.
  intros Hb Hw. apply u64_bits.
  - unfold set_bit. rewrite shl64_pow by done. destruct v; [apply Z.lor_nonneg; split; [apply Hw|apply Z.pow_nonneg; lia]|].
    apply Z.land_nonneg. left. apply Hw.
  - intros i Hi. rewrite set_bit_spec by (done || lia). rewrite (proj2 (Z.eqb_neq i b)) by lia. by apply u64_high.
Qed.

Lemma ctz_bit p : Z.testbit (Zpos p) (pos_ctz p) = true /\ 0 <= pos_ctz p /\ forall j, j < pos_ctz p -> Z.testbit (Zpos p) j = false.
Proof.
  induction p as [p _|p [IH (IH0 & IHj)]|]; simpl.
  - split_and!; [done|lia|]. intros j Hj. by apply Z.testbit_neg_r.
  - rewrite (Pos2Z.inj_xO p). split_and!; [|lia|].
    + replace (1 + pos_ctz p) with (Z.succ (pos_ctz p)) by lia. by rewrite Z.testbit_even_succ.
    + intros j Hj. destruct (Z.lt_ge_cases j 0); [by apply Z.testbit_neg_r|]. destruct (Z.eq_dec j 0) as [->|]; [by rewrite Z.testbit_even_0|].
      replace j with (Z.succ (j - 1)) by lia. rewrite Z.testbit_even_succ by lia. apply IHj. lia.
  - split_and!; [done|lia|]. intros j Hj. by apply Z.testbit_neg_r.
Qed.

Lemma lsb_bit w : is_u64 w -> w <> 0 -> Z.testbit w (utils_lsb64 w) = true /\ 0 <= utils_lsb64 w < 64 /\
  forall j, j < utils_lsb64 w -> Z.testbit w j = false.
Proof.
  intros Hw Hne. destruct w as [|p|p]; [done| |by destruct Hw]. simpl. destruct (ctz_bit p) as (Hb & H0 & Hj).
  split_and!; [done|done| |done]. apply Z.nle_gt. intros Hge. rewrite u64_high in Hb; done.
Qed.

(** ** Indices *)

Lemma idx_split i : 0 <= i -> i = 64 * (i / 64) + i mod 64 /\ 0 <= i mod 64 < 64 /\ 0 <= i / 64.
Proof. intros Hi. pose proof (Z.div_mod i 64). pose proof (Z.mod_pos_bound i 64). pose proof (Z.div_pos i 64). lia. Qed.

Lemma chunk_free_at ws k b w : ws !! k = Some w -> 0 <= b < 64 -> chunk_free ws (64 * Z.of_nat k + b) = Z.testbit w b.
Proof.
  intros Hw Hb. unfold chunk_free.
  replace ((64 * Z.of_nat k + b) / 64) with (Z.of_nat k) by (apply (Z.div_unique _ _ _ b); lia).
  replace ((64 * Z.of_nat k + b) mod 64) with b by (apply (Z.mod_unique _ _ (Z.of_nat k)); lia). by rewrite Nat2Z.id, Hw.
Qed.

Lemma word_of n ws i : words_ok n ws -> 0 <= i < n -> exists w, ws !! Z.to_nat (i / 64) = Some w /\ is_u64 w.
Proof.
  intros Hok Hi. destruct (idx_split i) as (Ei & Hm & Hd); [lia|].
  destruct (lookup_lt_is_Some_2 ws (Z.to_nat (i / 64))) as [w Hw]; [|exists w; split; [done|by eapply wo_word]].
  assert (i / 64 < (n + 63) / 64) as Hlt; [|rewrite <- (wo_length _ _ Hok) in Hlt; lia].
  apply Z.lt_le_trans with ((i + 64) / 64); [replace (i + 64) with (i + 1 * 64) by lia; rewrite Z.div_add; lia|]. apply Z.div_le_mono; lia.
Qed.

(** ** The count *)

Lemma filter_same (f g : Z -> bool) (l : list Z) : (forall j, j ∈ l -> g j = f j) ->
  filter (fun j => g j = true) l = filter (fun j => f j = true) l.
Proof.
  intros Hj. induction l as [|y l IH]; [done|]. rewrite !filter_cons, (Hj y) by constructor.
  rewrite IH; [done|]. intros j Hin. apply Hj. by constructor.
Qed.

Lemma filter_flip (f g : Z -> bool) (l : list Z) i :
  NoDup l -> i ∈ l -> (forall j, j ∈ l -> j <> i -> g j = f j) -> f i = false -> g i = true ->
  length (filter (fun j => g j = true) l) = S (length (filter (fun j => f j = true) l)).
Proof.
  intros Hnd Hi Hj Hf Hg. induction Hnd as [|x l Hx Hnd IH]; [by apply not_elem_of_nil in Hi|].
  destruct (decide (x = i)) as [->|Hne].
  - rewrite filter_cons_True, filter_cons_False by (rewrite ?Hf; done). simpl. rewrite (filter_same f g); [done|].
    intros j Hin. apply Hj; [by constructor|]. by intros ->.
  - apply elem_of_cons in Hi as [?|Hi]; [done|]. rewrite !filter_cons, (Hj x) by (done || constructor).
    assert (forall j, j ∈ l -> j <> i -> g j = f j) as Hj' by (intros; apply Hj; [by constructor|done]).
    destruct (decide _); simpl; rewrite IH; done.
Qed.

Lemma nfree_range n ws : 0 <= n -> 0 <= nfree n ws <= n.
Proof. intros Hn. unfold nfree. pose proof (length_filter (fun i => chunk_free ws i = true) (seqZ 0 n)) as Hl. rewrite length_seqZ in Hl. lia. Qed.

Lemma nfree_set n ws ws' i : 0 <= i < n -> (forall j, 0 <= j -> chunk_free ws' j = if j =? i then true else chunk_free ws j) ->
  chunk_free ws i = false -> nfree n ws' = nfree n ws + 1.
Proof.
  intros Hi Hj Hf. unfold nfree.
  rewrite (filter_flip (chunk_free ws) (chunk_free ws') (seqZ 0 n) i); [lia|apply NoDup_seqZ|apply elem_of_seqZ; lia| |done|].
  - intros j Hin%elem_of_seqZ Hne. by rewrite Hj, (proj2 (Z.eqb_neq j i)) by (done || lia).
  - by rewrite Hj, Z.eqb_refl by lia.
Qed.

Lemma nfree_clear n ws ws' i : 0 <= i < n -> (forall j, 0 <= j -> chunk_free ws' j = if j =? i then false else chunk_free ws j) ->
  chunk_free ws i = true -> nfree n ws' = nfree n ws - 1.
Proof.
  intros Hi Hj Hf. pose proof (nfree_set n ws' ws i Hi) as Hs. rewrite Hs; [lia|..].
  - intros j H0. rewrite Hj by done. destruct (Z.eqb_spec j i) as [->|]; done.
  - by rewrite Hj, Z.eqb_refl by lia.
Qed.

Lemma nfree_pos n ws : 0 < nfree n ws -> exists i, 0 <= i < n /\ chunk_free ws i = true.
Proof.
  unfold nfree. destruct (filter _ _) as [|i l] eqn:E; [done|]. intros _. exists i.
  assert (i ∈ filter (fun i => chunk_free ws i = true) (seqZ 0 n)) as Hin by (rewrite E; constructor).
  apply list_elem_of_filter in Hin as [? ?%elem_of_seqZ]. split; [lia|done].
Qed.

Lemma nfree_all n ws : 0 <= n -> nfree n ws = n -> forall i, 0 <= i < n -> chunk_free ws i = true.
Proof.
  intros Hn E i Hi. destruct (chunk_free ws i) eqn:Ef; [done|exfalso]. unfold nfree in E.
  pose proof (length_filter_lt (fun i => chunk_free ws i = true) (seqZ 0 n) i) as Hl. rewrite length_seqZ in Hl.
  assert (i ∈ seqZ 0 n) as Hin by (apply elem_of_seqZ; lia). specialize (Hl Hin). rewrite Ef in Hl. specialize (Hl ltac:(done)). lia.
Qed.

Lemma nfree_none n ws : (forall i, 0 <= i < n -> chunk_free ws i = false) -> nfree n ws = 0.
Proof.
  intros Hi. destruct (Z.lt_trichotomy (nfree n ws) 0) as [?|[?|Hp]]; [unfold nfree in *; lia|done|].
  apply nfree_pos in Hp as (i & Hi' & Hf). by rewrite Hi in Hf.
Qed.

(** ** The search *)

Lemma find_available_spec i0 ws : 0 <= i0 -> (forall k w, ws !! k = Some w -> is_u64 w) -> (i0 + Z.of_nat (length ws)) * 64 < two64 ->
  (exists k w, ws !! k = Some w /\ w <> 0) ->
  exists k w, ws !! k = Some w /\ w <> 0 /\ (forall j x, (j < k)%nat -> ws !! j = Some x -> x = 0) /\
    find_available i0 ws = 64 * (i0 + Z.of_nat k) + utils_lsb64 w.
Proof.
  revert i0. induction ws as [|x ws IH]; intros i0 H0 Hu Hb (k & w & Hk & Hw); [done|]. simpl in Hb. cbn [find_available].
  destruct (Z.eqb_spec x 0) as [->|Hne]; simpl.
  - destruct k as [|k]; [by injection Hk as <-|]. destruct (IH (i0 + 1)) as (k' & w' & Hk' & Hw' & Hmin & E); [lia|by intros ? ? ?; eapply (Hu (S _))|lia|eauto|].
    exists (S k'), w'. split_and!; [done|done| |rewrite E; lia]. intros [|j] y Hj Hy; [by injection Hy|]. apply (Hmin j); [lia|done].
  - exists 0%nat, x. destruct (lsb_bit x) as (_ & Hl & _); [by apply (Hu 0%nat)|done|]. split_and!; [done|done|lia|].
    unfold CHUNK_BITMAP_SIZE. rewrite mul64_small, add64_small; unfold is_u64; lia.
Qed.

(** A word is nonzero when it has a free chunk. *)
Lemma free_word n ws i : words_ok n ws -> 0 <= i -> chunk_free ws i = true ->
  exists w, ws !! Z.to_nat (i / 64) = Some w /\ w <> 0 /\ Z.testbit w (i mod 64) = true.
Proof.
  intros Hok Hi. unfold chunk_free. destruct (ws !! _) as [w|]; [|done]. intros Hb. exists w. split_and!; [done| |done].
  intros ->. by rewrite Z.bits_0 in Hb.
Qed.

Lemma find_first sl n : words_ok n (chunks sl) -> 0 < nfree n (chunks sl) -> num_words sl = (n + 63) / 64 -> n + 128 < two64 ->
  let i := slab_find_first_available_chunk_idx sl in
  0 <= i < n /\ chunk_free (chunks sl) i = true /\ forall j, 0 <= j < i -> chunk_free (chunks sl) j = false.
Proof.
  intros Hok Hp Hnw Hn i. apply nfree_pos in Hp as (f & Hf & Hfree).
  assert (i = find_available 0 (chunks sl)) as Ei.
  { unfold i, slab_find_first_available_chunk_idx. by rewrite Hnw, <- (wo_length _ _ Hok), Nat2Z.id, firstn_all. }
  destruct (find_available_spec 0 (chunks sl)) as (k & w & Hk & Hw & Hmin & E); [done|apply Hok|..].
  { rewrite (wo_length _ _ Hok). pose proof (Z.mul_div_le (n + 63) 64). lia. }
  { destruct (free_word n (chunks sl) f) as (w & Hw & Hne & _); [done|lia|done|eauto]. }
  destruct (lsb_bit w) as (Hb & Hl & Hlow); [by eapply wo_word|done|]. rewrite Ei, E. simpl.
  pose proof (chunk_free_at _ _ _ _ Hk Hl) as Hat. rewrite Hb in Hat. split_and!; [lia| |done|].
  - apply Z.nle_gt. intros Hge. by rewrite (wo_rest _ _ Hok) in Hat.
  - intros j [Hj0 Hj]. destruct (chunk_free (chunks sl) j) eqn:Ej; [exfalso|done]. destruct (free_word n _ _ Hok Hj0 Ej) as (x & Hx & Hxne & Hxb).
    destruct (idx_split j Hj0) as (Es & Hm & Hd). assert (Z.to_nat (j / 64) < k \/ Z.to_nat (j / 64) = k)%nat as [Hlt|<-] by lia.
    + by apply Hxne, (Hmin _ _ Hlt).
    + rewrite Hx in Hk. injection Hk as ->. rewrite Hlow in Hxb; [done|lia].
Qed.

(** ** A new slab *)

Lemma new_chunks_ok n : 0 < n -> n + 64 < two64 -> words_ok n (new_chunks n ((n + 63) / 64)) /\ nfree n (new_chunks n ((n + 63) / 64)) = n.
Proof.
  intros Hn Hb. set (m := (n + 63) / 64). destruct (idx_split n) as (En & Hm & Hd); [lia|].
  assert (0 < m) as Hm0 by (apply Z.div_str_pos; lia).
  assert (forall k w, new_chunks n m !! k = Some w -> is_u64 w /\ forall b, 0 <= b < 64 -> Z.testbit w b = (64 * Z.of_nat k + b <? n)) as Hw.
  { intros k w Hk. unfold new_chunks, CHUNK_BITMAP_SIZE in Hk. set (ws := replicate _ _) in Hk.
    assert (forall x, ws !! k = Some x -> (k < Z.to_nat m)%nat /\ x = Z.ones 64) as Hrep.
    { intros x Hx. unfold ws in Hx. apply lookup_replicate in Hx as [-> ?]. split; [done|]. unfold not64. by rewrite Z.ldiff_0_r. }
    assert (forall x, ws !! k = Some x -> 64 * (Z.of_nat k + 1) <= n -> x = w -> is_u64 w /\ forall b, 0 <= b < 64 -> Z.testbit w b = (64 * Z.of_nat k + b <? n)) as Hfull.
    { intros x Hx Hle <-. destruct (Hrep _ Hx) as [_ ->]. split; [done|]. intros b Hb'. rewrite Z.ones_spec_low by lia. symmetry. apply Z.ltb_lt. lia. }
    destruct (Z.eqb_spec (n mod 64) 0) as [E|Hne]; simpl in Hk.
    - apply (Hfull w); [done| |done]. destruct (Hrep _ Hk) as [Hlt _].
      assert (m = n / 64) as Em; [|lia]. unfold m. symmetry. apply (Z.div_unique _ _ _ 63); lia.
    - assert (m = n / 64 + 1) as Em by (unfold m; symmetry; apply (Z.div_unique _ _ _ (n mod 64 - 1)); lia).
      unfold set_word in Hk. rewrite (sub64_small m 1) in Hk by (unfold is_u64, m in *; pose proof (Z.mul_div_le (n + 63) 64); lia).
      apply list_lookup_insert_Some in Hk as [(<- & <- & Hlt)|[Hne' Hk]].
      + rewrite shl64_pow by lia. assert (0 < 2 ^ (n mod 64) < two64) as [Hp1 Hp2] by (rewrite two64_eq; split; [apply Z.pow_pos_nonneg|apply Z.pow_lt_mono_r]; lia).
        rewrite sub64_small by (unfold is_u64; lia). split; [unfold is_u64; lia|]. intros b Hb'. rewrite Z.sub_1_r.
        rewrite <- Z.ones_equiv. destruct (Z.lt_ge_cases b (n mod 64)).
        * rewrite Z.ones_spec_low by lia. symmetry. apply Z.ltb_lt. lia.
        * rewrite Z.ones_spec_high by lia. symmetry. apply Z.ltb_ge. lia.
      + apply (Hfull w); [done| |done]. destruct (Hrep _ Hk) as [Hlt _]. lia. }
  assert (Z.of_nat (length (new_chunks n m)) = m) as Hlen.
  { unfold new_chunks, set_word. destruct (negb _); rewrite ?length_insert, length_replicate; lia. }
  assert (forall i, 0 <= i -> chunk_free (new_chunks n m) i = (i <? n)) as Hfree.
  { intros i Hi. destruct (idx_split i Hi) as (Ei & Hmi & Hdi). unfold chunk_free. destruct (new_chunks n m !! Z.to_nat (i / 64)) as [w|] eqn:Ek.
    - destruct (Hw _ _ Ek) as [_ Hbit]. rewrite Hbit by done. by rewrite Z2Nat.id, <- Ei by lia.
    - apply lookup_ge_None in Ek. symmetry. apply Z.ltb_ge.
      assert (n <= 64 * m) by (unfold m; pose proof (Z.mul_succ_div_gt (n + 63) 64); lia). lia. }
  split.
  - split; [done|by intros k w Hk; apply Hw in Hk as [? _]|]. intros i Hi. rewrite Hfree by lia. by apply Z.ltb_ge.
  - unfold nfree. rewrite (filter_same (fun _ => true)); [|intros j Hj%elem_of_seqZ; rewrite Hfree by lia; apply Z.ltb_lt; lia].
    rewrite filter_all; [rewrite length_seqZ; lia|]. by apply Forall_true.
Qed.

(** ** Reading and writing a bit *)

Section Slab.
Context (sl : slab_t) (n : Z).
Hypothesis Htotal : num_chunks_total sl = n.
Hypothesis Hwords : words_ok n (chunks sl).

Lemma read_chunk_bit i : 0 <= i < n -> slab_read_chunk_bit sl i = Some (if chunk_free (chunks sl) i then 1 else 0).
Proof using Htotal Hwords.
  intros Hi. unfold slab_read_chunk_bit, CHUNK_BITMAP_SIZE, get_word. rewrite Htotal, (proj2 (Z.ltb_lt _ _)) by lia. simpl.
  destruct (word_of n _ i Hwords Hi) as (w & Hw & _). unfold chunk_free. rewrite Hw. simpl. f_equal.
  change 1 with (Z.ones 1) at 1. rewrite Z.land_ones by lia.
  rewrite Z.testbit_odd. rewrite (Zmod_odd (Z.shiftr w (i mod 64)) : _ mod 2 ^ 1 = _). by destruct (Z.odd _).
Qed.

Lemma set_chunk_bit i v : 0 <= i < n ->
  exists ws, slab_set_chunk_bit sl i v = Some ws /\ words_ok n ws /\
    forall j, 0 <= j -> chunk_free ws j = if j =? i then v else chunk_free (chunks sl) j.
Proof using Htotal Hwords.
  intros Hi. unfold slab_set_chunk_bit, CHUNK_BITMAP_SIZE, get_word, set_word. rewrite Htotal, (proj2 (Z.ltb_lt _ _)) by lia. simpl.
  destruct (word_of n _ i Hwords Hi) as (w & Hw & Hu). rewrite Hw. simpl.
  set (ws := <[Z.to_nat (i / 64) := set_bit w (i mod 64) v]> (chunks sl)). exists ws. split; [done|].
  destruct (idx_split i) as (Ei & Hm & Hd); [lia|].
  assert (forall j, 0 <= j -> chunk_free ws j = if j =? i then v else chunk_free (chunks sl) j) as Hj.
  { intros j Hj. destruct (idx_split j Hj) as (Ej & Hmj & Hdj). unfold chunk_free, ws. destruct (Z.eq_dec (j / 64) (i / 64)) as [E|Hne].
    - rewrite E, list_lookup_insert_eq by (by eapply lookup_lt_Some). rewrite Hw, set_bit_spec by (done || lia).
      destruct (Z.eqb_spec (j mod 64) (i mod 64)), (Z.eqb_spec j i); try done; lia || congruence.
    - rewrite list_lookup_insert_ne by (intros ?; apply Hne; lia). by rewrite (proj2 (Z.eqb_neq j i)) by congruence. }
  split; [|done]. split.
  - unfold ws. rewrite length_insert. apply Hwords.
  - intros k x Hx. unfold ws in Hx. apply list_lookup_insert_Some in Hx as [(_ & <- & _)|[_ Hx]]; [by apply set_bit_u64|by eapply wo_word].
  - intros j Hj'. rewrite Hj by lia. rewrite (proj2 (Z.eqb_neq j i)) by lia. by apply Hwords.
Qed.

End Slab.
