(* ===== verification/DisjointInv.v ===== *)
(** * The slabs by address, and the invariant of the disjoint pool

    [known s R held n]: the critnib of the pool is between two calls and maps the
    address of the memory of every slab to the slab, as [R] does; the one
    reference that may be held is [held], its leaf, its key and its slab.
    [outer s] are the live objects of the host allocator that do not belong to the critnib.

    For a pool [p] at [pool] with the buckets [bs]: [R] maps the memory of every slab
    to the slab, [P] has the ranges that the provider has handed out, and [G]
    says where the memory of the user is: in a chunk, or directly from the provider.
    [pinv] is the part that does not mention the critnib, the provider and the
    host allocator; it is about the heaps of slabs, buckets and limits.
    While a bucket is locked, it may have one empty slab that is not counted ([lk]). *)

From S2P Require Import Prelude Utils HostMem CritQuery CritDelete CritSpec CritInsert CritRemove CritInv CritWorld.
From stdpp Require Import strings list.
From S2P Require Import Critnib Tracker TrackerInv TrackerOps PoolProvider DisjointPool.
From S2P Require Import DisjointSize.
#[local] Open Scope Z_scope.

Abbreviation held_ref := (option (Z * Z * Z)).

Definition held_count (held : held_ref) (a : Z) : Z :=
  match held with Some (b, _, _) => if decide (a = b) then 1 else 0 | None => 0 end.

Record shows_slabs (V : cview) (R : gmap Z Z) (held : held_ref) : Prop := {
  ss_cb : cv_cb V = true;
  ss_keys : forall m, is_Some (cv_keys V !! m) <-> is_Some (R !! m);
  ss_elem : forall m a slab, cv_keys V !! m = Some a -> R !! m = Some slab -> cv_elems V !! a = Some (slab, held_count held a);
  ss_removed : forall a v r, cv_elems V !! a = Some (v, r) -> ~ cv_linked V a -> exists m, held = Some (a, m, v);
  ss_held : forall a m v, held = Some (a, m, v) -> cv_elems V !! a = Some (v, 1) /\
    ((cv_keys V !! m = Some a /\ R !! m = Some v) \/ (~ cv_linked V a /\ R !! m = None));
}.

Section Known.
Context `{HostAllocLaws H} `{PoolProvider W}.
Implicit Types (s : djstate H W) (R : gmap Z Z) (V : cview).

Definition outer s (a : Z) (tg : string) : Prop :=
  ba_live (dj_host s) !! a = Some tg /\ forall k, dj_crit s = Some k -> ~ owns k a.

Definition outer_same s s' : Prop := forall a tg, outer s' a tg <-> outer s a tg.

(** A call of the critnib changes the critnib and the allocator. *)
Definition crit_moved s s' : Prop :=
  (exists h k, s' = with_dj_host h (with_dj_crit (Some k) s)) /\ outer_same s s'.

Definition known s R held (n : Z) : Prop :=
  exists k V, dj_crit s = Some k /\ crit_at (dj_host s) k V n /\ shows_slabs V R held.

Lemma known_ext s s' R held n : dj_host s' = dj_host s -> dj_crit s' = dj_crit s -> known s R held n -> known s' R held n.
Proof. intros Eh Ec (k & V & ? & ? & ?). exists k, V. by rewrite Eh, Ec. Qed.

Lemma outer_ext s s' : dj_host s' = dj_host s -> dj_crit s' = dj_crit s -> outer_same s s'.
Proof. intros Eh Ec a tg. unfold outer. by rewrite Eh, Ec. Qed.

Lemma known_mono s R held n m : n <= m -> known s R held n -> known s R held m.
Proof. intros Hle (k & V & ? & ? & ?). exists k, V. split_and!; [done|by eapply crit_mono|done]. Qed.

Lemma outer_same_refl s : outer_same s s.
Proof. done. Qed.
Lemma outer_same_trans s1 s2 s3 : outer_same s1 s2 -> outer_same s2 s3 -> outer_same s1 s3.
Proof. intros Ha Hb a tg. by rewrite (Hb a tg). Qed.

Lemma moved_of s k V n h' k' : dj_crit s = Some k -> crit_at (dj_host s) k V n -> keeps_others (dj_host s) k h' k' ->
  crit_moved s (with_dj_host h' (with_dj_crit (Some k') s)).
Proof.
  intros Ek Hat (_ & Hkeep & Hback). split; [eauto|]. intros a tg. unfold outer. simpl. rewrite Ek. split.
  - intros [Hl Ho]. specialize (Ho _ eq_refl). destruct (Hback a Ho) as [Hl1 Ho1]; [by rewrite Hl|].
    destruct (Hkeep a Ho1 Hl1) as [El _]. rewrite <- El. split; [done|]. by intros ? [= <-].
  - intros [Hl Ho]. destruct (Hkeep a (Ho _ eq_refl)) as [-> Hno]; [by rewrite Hl|]. split; [done|]. by intros ? [= <-].
Qed.

(** The rule for a call; the callbacks remain to be run. *)
Lemma wp_known_call {A} s k V n call (m : M (cstate H) A) (res : A -> cres) (Q : A -> djstate H W -> Prop) :
  run_ccall call = (x ← m; mret (res x)) ->
  dj_crit s = Some k -> crit_at (dj_host s) k V n -> 0 <= n -> n + DELETED_LIFE < two64 -> cobeys V call ->
  (forall x V' h' k', cstep V call (res x) V' ->
     let s1 := with_dj_host h' (with_dj_crit (Some k') s) in
     dj_crit s1 = Some k' -> crit_at (dj_host s1) k' V' (n + 1) -> crit_moved s s1 ->
     wp (free_slabs (freed_by V V')) (fun _ s' => Q x s') s1) ->
  wp (on_known_slabs m) Q s.
Proof.
  intros Erun Ek Hat Hn0 Hn Hob HQ. pose proof (wp_crit_call (dj_host s) k V n call Hat Hn0 Hn Hob) as Hw. rewrite Erun in Hw.
  apply wp_bound_inv in Hw. unfold wp in Hw. unfold wp, on_known_slabs. rewrite Ek.
  destruct (m (Critnib.with_host (dj_host s) k)) as [[x k']|] eqn:Em; [|done]. destruct Hw as (V' & Hst & Hat' & Hkeep).
  rewrite (crit_freed _ _ _ _ Hat), (crit_freed _ _ _ _ Hat').
  specialize (HQ x V' (c_host k') k' Hst eq_refl Hat' (moved_of _ _ _ _ _ _ Ek Hat Hkeep)). unfold wp in HQ. unfold mbind, M_bind.
  unfold freed_by in HQ. destruct (free_slabs _ _) as [[[] s2]|]; done.
Qed.

(** [free_slab] *)
Lemma known_free s R held n slab tg : outer s slab tg -> known s R held n ->
  let s' := with_dj_host (umf_ba_global_free slab (dj_host s)) s in
  known s' R held n /\ forall a tg', outer s' a tg' <-> outer s a tg' /\ a <> slab.
Proof.
  intros [Hl Ho] (k & V & Ek & Hat & Hsh) s'. assert (ba_live (dj_host s') = delete slab (ba_live (dj_host s))) as El.
  { unfold s'. simpl. apply ba_free_live. by rewrite Hl. }
  split.
  - exists k, V. split_and!; [done| |done]. eapply crit_frame; [done|]. intros a Hown. rewrite El, lookup_delete_ne; [done|].
    intros <-. by apply (Ho k).
  - intros a tg'. unfold outer. rewrite El. unfold s'. simpl. rewrite lookup_delete_Some. naive_solver.
Qed.

Lemma wp_free_slab s R held n slab tg (Q : unit -> djstate H W -> Prop) :
  slab <> 0 -> outer s slab tg -> known s R held n ->
  (forall h', let s' := with_dj_slabs (delete slab (dj_slabs s)) (with_dj_host h' s) in
     known s' R held n -> (forall a tg', outer s' a tg' <-> outer s a tg' /\ a <> slab) -> Q tt s') ->
  wp (free_slab slab) Q s.
Proof.
  intros Hne Ho Hk HQ. unfold free_slab, dj_free. rewrite (proj2 (Z.eqb_neq _ _) Hne). wp_step. wp_step.
  destruct (known_free s R held n slab tg Ho Hk) as [Hk' Ho']. by apply HQ.
Qed.

(** ** Lookups *)

Lemma shows_ref V R a m slab : shows_slabs V R None -> cv_keys V !! m = Some a -> R !! m = Some slab ->
  view_wf V -> shows_slabs (cv_ref V a slab 0) R (Some (a, m, slab)).
Proof.
  intros [Hcb Hk He Hr Hh] Hm HR Hwf. unfold cv_ref. rewrite Hcb. split; simpl; [done|done|..].
  - intros m' b sl Hb Hsl. destruct (decide (a = b)) as [<-|Hne].
    + rewrite lookup_insert_eq, decide_True by done. rewrite (vw_inj V Hwf _ _ _ Hb Hm) in Hsl. by assert (sl = slab) as -> by congruence.
    + rewrite lookup_insert_ne, decide_False by congruence. by apply (He m').
  - intros b v r. destruct (decide (a = b)) as [<-|Hne]; [rewrite lookup_insert_eq; intros [= <- <-]; eauto|].
    rewrite lookup_insert_ne by done. intros Hb Hn. destruct (Hr _ _ _ Hb Hn) as [? ?]. done.
  - intros b m' v [= <- <- <-]. rewrite lookup_insert_eq. split; [done|by left].
Qed.

Lemma wp_find_slab s R n ptr (Q : Z * option Z -> djstate H W -> Prop) :
  known s R None n -> 0 <= n -> n + DELETED_LIFE < two64 -> is_u64 ptr ->
  (forall s', crit_moved s s' -> known s' R None (n + 1) -> (forall m slab, R !! m = Some slab -> ptr < m) -> Q (0, None) s') ->
  (forall s' a m slab, crit_moved s s' -> known s' R (Some (a, m, slab)) (n + 1) -> R !! m = Some slab -> m <= ptr ->
     (forall m' slab', R !! m' = Some slab' -> m' <= ptr -> m' <= m) -> Q (slab, Some a) s') ->
  wp (on_known_slabs (critnib_find_le ptr true)) Q s.
Proof.
  intros (k & V & Ek & Hat & Hsh) Hn0 Hn Hp Hnone Hsome. pose proof (crit_wf _ _ _ _ Hat (ss_cb _ _ _ Hsh)) as Hwf.
  apply (wp_known_call s k V n (CFindLe ptr true) _ (fun x => RVal x.1 x.2)); [done..|].
  intros [x1 x2] V' h' k' Hst s1 Ek1 Hat1 Hmv. simpl in Hst. rewrite (ss_cb _ _ _ Hsh) in Hst. simpl in Hst. destruct Hst as (o & Hb & Hst).
  destruct o as [[m a]|]; simpl in Hst.
  - destruct Hb as (Hm & Hle & Hbest). destruct Hst as (v & r & He & [= -> ->] & ->). rewrite (ss_cb _ _ _ Hsh).
    destruct (proj1 (ss_keys _ _ _ Hsh m)) as [slab HR]; [by rewrite Hm|]. pose proof (ss_elem _ _ _ Hsh _ _ _ Hm HR) as He'.
    rewrite He in He'. injection He' as -> ->. simpl in *. pose proof (shows_ref V R a m slab Hsh Hm HR Hwf) as Hsh'.
    rewrite freed_by_same by (unfold cv_ref; by rewrite (ss_cb _ _ _ Hsh)). simpl. wp_step. apply (Hsome _ a m slab); [done| |done|done|].
    + exists k', (cv_ref V a slab 0). done.
    + intros m' slab' Hm' Hle'. destruct (proj2 (ss_keys _ _ _ Hsh m')) as [a' Ha']; [by rewrite Hm'|]. by apply (Hbest m' a').
  - destruct Hst as ([= -> ->] & ->). rewrite freed_by_same by done. simpl. wp_step. apply Hnone; [done| |].
    + exists k', V. done.
    + intros m slab HR. destruct (proj2 (ss_keys _ _ _ Hsh m)) as [a Ha]; [by rewrite HR|]. by apply (Hb m a).
Qed.

(** ** Changes *)

Lemma shows_insert V R m slab a : shows_slabs V R None -> cv_keys V !! m = None -> cv_elems V !! a = None ->
  shows_slabs (cv_insert V m slab a) (<[m := slab]> R) None.
Proof.
  intros [Hcb Hk He Hr Hh] Hm Ha. split; simpl; [done|..].
  - intros m'. destruct (decide (m = m')) as [<-|]; [rewrite !lookup_insert_eq; naive_solver|]. by rewrite !lookup_insert_ne.
  - intros m' b sl. destruct (decide (m = m')) as [<-|Hne].
    + rewrite !lookup_insert_eq. intros [= <-] [= <-]. by rewrite lookup_insert_eq.
    + rewrite !lookup_insert_ne by done. intros Hb Hsl. pose proof (He _ _ _ Hb Hsl) as Hel.
      rewrite lookup_insert_ne; [done|]. intros ->. congruence.
  - intros b v r. destruct (decide (a = b)) as [<-|Hne].
    + intros _ []. exists m, a. split; [simpl; by rewrite lookup_insert_eq|done].
    + rewrite lookup_insert_ne by done. intros Hb Hn. apply (Hr _ _ _ Hb). intros (m' & b' & Hm' & ->). apply Hn. exists m', b.
      split; [|done]. simpl. rewrite lookup_insert_ne; [done|congruence].
  - done.
Qed.

Lemma wp_insert_slab s R n m slab (Q : Z -> djstate H W -> Prop) :
  known s R None n -> 0 <= n -> n + DELETED_LIFE < two64 -> is_u64 m -> slab <> 0 -> R !! m = None ->
  (forall s', crit_moved s s' -> known s' R None (n + 1) -> Q ENOMEM s') ->
  (forall s', crit_moved s s' -> known s' (<[m := slab]> R) None (n + 1) -> Q 0 s') ->
  wp (on_known_slabs (critnib_insert m slab false)) Q s.
Proof.
  intros (k & V & Ek & Hat & Hsh) Hn0 Hn Hm Hne HR Hfail Hok.
  apply (wp_known_call s k V n (CInsert m slab false) _ RInt); [done..|].
  intros x V' h' k' Hst s1 Ek1 Hat1 Hmv. simpl in Hst.
  assert (cv_keys V !! m = None) as Hkm. { apply eq_None_not_Some. intros Hs. apply (ss_keys _ _ _ Hsh) in Hs. rewrite HR in Hs. by destruct Hs. }
  rewrite Hkm in Hst. destruct Hst as [[[= ->] ->]|(a & Ha & [= ->] & ->)]; rewrite freed_by_same by done; simpl; wp_step.
  - apply Hfail; [done|]. by exists k', V.
  - apply Hok; [done|]. exists k', (cv_insert V m slab a). split_and!; [done|done|]. by apply shows_insert.
Qed.

(** A slab is removed while its reference is held. *)
Lemma wp_remove_held s R n a m slab (Q : Z -> djstate H W -> Prop) :
  known s R (Some (a, m, slab)) n -> 0 <= n -> n + DELETED_LIFE < two64 -> R !! m = Some slab ->
  (forall x s', crit_moved s s' -> known s' (delete m R) (Some (a, m, slab)) (n + 1) -> Q x s') ->
  wp (on_known_slabs (critnib_remove_release m)) Q s.
Proof.
  intros (k & V & Ek & Hat & Hsh) Hn0 Hn HR HQ. pose proof (crit_wf _ _ _ _ Hat (ss_cb _ _ _ Hsh)) as Hwf.
  apply (wp_known_call s k V n (CRemoveRelease m) _ RInt); [done..|].
  intros x V' h' k' Hst s1 Ek1 Hat1 Hmv. simpl in Hst. pose proof Hsh as [Hcb Hk He Hr Hh].
  destruct (Hh _ _ _ eq_refl) as [Hel [[Hma _]|[_ HR']]]; [|congruence]. rewrite Hma in Hst. destruct Hst as (v & r & He' & _ & ->).
  rewrite Hel in He'. injection He' as <- <-. rewrite Hcb in *. unfold cv_release in *. rewrite decide_False in * by lia.
  unfold cv_remove in *. rewrite Hcb in *. simpl in *. rewrite freed_by_same by done. simpl. wp_step. apply HQ; [done|].
  eexists k', _. split_and!; [done|done|]. split; simpl; [done|..].
  - intros m'. destruct (decide (m = m')) as [<-|]; [rewrite !lookup_delete_eq; naive_solver|]. by rewrite !lookup_delete_ne.
  - intros m' b sl [Hne Hb]%lookup_delete_Some [_ Hsl]%lookup_delete_Some.
    assert (a <> b) by (intros <-; apply Hne, (vw_inj V Hwf _ _ _ Hma Hb)). rewrite !lookup_insert_ne by done.
    specialize (He _ _ _ Hb Hsl). simpl in He. done.
  - intros b v r. destruct (decide (a = b)) as [<-|Hne]; [rewrite lookup_insert_eq; intros [= <- <-]; eauto|].
    rewrite !lookup_insert_ne by done. intros Hb Hn'. apply (Hr _ _ _ Hb). intros (m' & b' & Hm' & ->). apply Hn'. exists m', b. split; [|done].
    simpl. rewrite lookup_delete_ne; [done|congruence].
  - intros b m' v [= <- <- <-]. rewrite lookup_insert_eq. split; [done|]. right. split; [|by rewrite lookup_delete_eq].
    intros (m' & b & Hb & ->). simpl in Hb. apply lookup_delete_Some in Hb as [Hne Hb]. apply Hne, (vw_inj V Hwf _ _ _ Hma Hb).
Qed.

(** A slab is removed when no reference is held: it is freed. *)
Lemma wp_remove_slab s R n m slab tg (Q : Z -> djstate H W -> Prop) :
  known s R None n -> 0 <= n -> n + DELETED_LIFE < two64 -> R !! m = Some slab -> slab <> 0 -> outer s slab tg ->
  (forall x s1 h', crit_moved s s1 -> let s' := with_dj_slabs (delete slab (dj_slabs s1)) (with_dj_host h' s1) in
     known s' (delete m R) None (n + 1) -> (forall a tg', outer s' a tg' <-> outer s a tg' /\ a <> slab) -> Q x s') ->
  wp (on_known_slabs (critnib_remove_release m)) Q s.
Proof.
  intros (k & V & Ek & Hat & Hsh) Hn0 Hn HR Hsne Ho HQ. pose proof (crit_wf _ _ _ _ Hat (ss_cb _ _ _ Hsh)) as Hwf.
  apply (wp_known_call s k V n (CRemoveRelease m) _ RInt); [done..|].
  intros x V' h' k' Hst s1 Ek1 Hat1 Hmv. simpl in Hst. pose proof Hsh as [Hcb Hk He Hr Hh].
  destruct (proj2 (Hk m)) as [a Hma]; [by rewrite HR|]. rewrite Hma in Hst. destruct Hst as (v & r & He' & _ & ->).
  rewrite (He _ _ _ Hma HR) in He'. injection He' as <- <-. rewrite Hcb in *.
  assert (cv_release (cv_remove V m a slab 0) a slab (0 + 1) = CView (delete m (cv_keys V)) (delete a (cv_elems V)) (cv_freed V ++ [slab]) true) as EV.
  { unfold cv_release. rewrite decide_True.
    - unfold cv_remove. simpl. by rewrite Hcb, delete_insert_eq.
    - split; [done|]. intros (m' & b & Hb & ->). simpl in Hb. apply lookup_delete_Some in Hb as [Hne Hb]. apply Hne, (vw_inj V Hwf _ _ _ Hma Hb). }
  rewrite EV in *. unfold freed_by. simpl. rewrite drop_app_length. simpl. apply wp_bind.
  apply (wp_free_slab s1 (delete m R) None (n + 1) slab tg); [done|by apply Hmv| |].
  2: { intros h2 s2 Hk2 Ho2. wp_step. apply HQ; [done|done|]. intros b tg'. etrans; [apply Ho2|]. by rewrite (proj2 Hmv b tg'). }
  eexists k', _. split_and!; [done|done|]. split; simpl; [done|..].
  - intros m'. destruct (decide (m = m')) as [<-|]; [rewrite !lookup_delete_eq; naive_solver|]. by rewrite !lookup_delete_ne.
  - intros m' b sl [Hne Hb]%lookup_delete_Some [_ Hsl]%lookup_delete_Some.
    assert (a <> b) by (intros <-; apply Hne, (vw_inj V Hwf _ _ _ Hma Hb)). rewrite lookup_delete_ne by done. by apply (He m').
  - intros b v r [Hne Hb]%lookup_delete_Some Hn'. apply (Hr _ _ _ Hb). intros (m' & b' & Hm' & ->). apply Hn'. exists m', b. split; [|done].
    simpl. rewrite lookup_delete_ne; [done|congruence].
  - done.
Qed.

(** ** The release of the reference *)

Lemma wp_release_known s R n a m slab (Q : Z -> djstate H W -> Prop) :
  known s R (Some (a, m, slab)) n -> 0 <= n -> n + DELETED_LIFE < two64 -> R !! m = Some slab ->
  (forall x s', crit_moved s s' -> known s' R None (n + 1) -> Q x s') ->
  wp (on_known_slabs (critnib_release (Some a))) Q s.
Proof.
  intros (k & V & Ek & Hat & Hsh) Hn0 Hn HR HQ. pose proof (crit_wf _ _ _ _ Hat (ss_cb _ _ _ Hsh)) as Hwf.
  pose proof Hsh as [Hcb Hk He Hr Hh]. destruct (Hh _ _ _ eq_refl) as [Hel [[Hma _]|[_ HR']]]; [|congruence].
  apply (wp_known_call s k V n (CRelease (Some a)) _ RInt); [done..|simpl; intros _ ? [= <-]; exists slab, 1; split; [done|lia]|].
  intros x V' h' k' Hst s1 Ek1 Hat1 Hmv. simpl in Hst. rewrite Hcb in Hst. destruct Hst as (v & r & He' & _ & ->).
  rewrite Hel in He'. injection He' as <- <-. unfold cv_release in *.
  rewrite decide_False in * by (intros [_ []]; by exists m, a). rewrite freed_by_same by done. simpl. wp_step. apply HQ; [done|].
  eexists k', _. split_and!; [done|done|]. split; simpl; [done|done|..|done].
  - intros m' b sl Hb Hsl. specialize (He _ _ _ Hb Hsl). destruct (decide (a = b)) as [<-|Hne].
    + rewrite lookup_insert_eq. by assert (sl = slab) as -> by congruence.
    + rewrite lookup_insert_ne by done. simpl in He. by rewrite decide_False in He by congruence.
  - intros b v r. destruct (decide (a = b)) as [<-|Hne]; [intros _ []; by exists m, a|].
    rewrite lookup_insert_ne by done. intros Hb Hn'. destruct (Hr _ _ _ Hb Hn') as [m' [= -> -> ->]]. done.
Qed.

Lemma wp_release_removed s R n a m slab tg (Q : Z -> djstate H W -> Prop) :
  known s R (Some (a, m, slab)) n -> 0 <= n -> n + DELETED_LIFE < two64 -> R !! m = None -> slab <> 0 -> outer s slab tg ->
  (forall x s1 h', crit_moved s s1 -> let s' := with_dj_slabs (delete slab (dj_slabs s1)) (with_dj_host h' s1) in
     known s' R None (n + 1) -> (forall b tg', outer s' b tg' <-> outer s b tg' /\ b <> slab) -> Q x s') ->
  wp (on_known_slabs (critnib_release (Some a))) Q s.
Proof.
  intros (k & V & Ek & Hat & Hsh) Hn0 Hn HR Hsne Ho HQ. pose proof (crit_wf _ _ _ _ Hat (ss_cb _ _ _ Hsh)) as Hwf.
  pose proof Hsh as [Hcb Hk He Hr Hh]. destruct (Hh _ _ _ eq_refl) as [Hel [[_ HR']|[Hun _]]]; [congruence|].
  apply (wp_known_call s k V n (CRelease (Some a)) _ RInt); [done..|simpl; intros _ ? [= <-]; exists slab, 1; split; [done|lia]|].
  intros x V' h' k' Hst s1 Ek1 Hat1 Hmv. simpl in Hst. rewrite Hcb in Hst. destruct Hst as (v & r & He' & _ & ->).
  rewrite Hel in He'. injection He' as <- <-. unfold cv_release in *. rewrite decide_True in * by done.
  unfold freed_by. simpl. rewrite drop_app_length. simpl. apply wp_bind.
  apply (wp_free_slab s1 R None (n + 1) slab tg); [done|by apply Hmv| |].
  2: { intros h2 s2 Hk2 Ho2. wp_step. apply HQ; [done|done|]. intros b tg'. etrans; [apply Ho2|]. by rewrite (proj2 Hmv b tg'). }
  eexists k', _. split_and!; [done|done|]. split; simpl; [done|done|..|done].
  - intros m' b sl Hb Hsl. specialize (He _ _ _ Hb Hsl). simpl in He. assert (a <> b) as Hab by (intros <-; apply Hun; by exists m', a).
    rewrite lookup_delete_ne by done. by rewrite decide_False in He by congruence.
  - intros b v r [Hne Hb]%lookup_delete_Some Hn'. destruct (Hr _ _ _ Hb Hn') as [m' [= -> -> ->]]. done.
Qed.
End Known.

(** Where an allocation is: the slab, its memory, the size and the index of
    the chunk; or the size that was asked from the provider. *)
Inductive place :=
| InChunk (slab m z i : Z)
| Direct (n : Z).

(** The bytes from [ptr] on that belong to the allocation. *)
Definition usable (ptr : Z) (pl : place) : Z :=
  match pl with InChunk _ m z i => m + (i + 1) * z - ptr | Direct n => n end.

(** The locked bucket, and the number of its empty slabs that are not counted. *)
Abbreviation locked := (option (Z * Z)).
Definition is_locked (lk : locked) (a : Z) : bool := match lk with Some (b, _) => a =? b | None => false end.
Definition slack (lk : locked) (a : Z) : Z := match lk with Some (b, k) => if a =? b then k else 0 | None => 0 end.

Abbreviation slabs := (gmap Z slab_t).
Abbreviation buckets_map := (gmap Z bucket_t).
Abbreviation limits_map := (gmap Z umf_disjoint_pool_shared_limits_t).

Definition empty_slab (S : slabs) (x : Z) : bool :=
  match S !! x with Some sl => num_chunks_allocated sl =? 0 | None => false end.
Definition nempty (S : slabs) (l : list Z) : Z := Z.of_nat (length (filter (fun x => empty_slab S x = true) l)).

Definition MAX_POOLED : Z := 2 ^ 24.
Definition MAX_BASE : Z := 2 ^ 62.

Section Inv.
Context (p : disjoint_pool_t) (pool : Z) (bs : list Z).
Implicit Types (S : slabs) (B : buckets_map) (L : limits_map) (R P : gmap Z Z) (G : gmap Z place) (lk : locked).

Definition smin : Z := slab_min_size (params p).
Definition lim : Z := disjoint_pool_get_limits p.
Definition bexp : Z := min_bucket_size_exp p.
Definition slab_bytes (z : Z) : Z := utils_max z smin.

(** The size of the chunks of the bucket [a]. *)
Definition size_at (a z : Z) : Prop := exists i : nat, bs !! i = Some a /\ z = bsize bexp (Z.of_nat i).

Record pool_ok : Prop := {
  po_exp : 3 <= bexp <= 31;
  po_min : 0 < smin <= 2 ^ 32;
  po_cap : 0 <= capacity (params p) <= MAX_POOLED;
  po_poolable : 0 <= max_poolable_size (params p) <= CutOff;
  po_num : buckets_num p = bnum bexp;
  po_bs : Z.of_nat (length bs) = bnum bexp;
  po_nodup : NoDup bs;
  po_bs_nonnull : 0 ∉ bs;
  po_pool : pool <> 0;
  po_array : buckets p <> 0;
  po_limits : default_shared_limits p <> 0;
}.

Record slab_ok (sl : slab_t) (z : Z) : Prop := {
  so_size : size_at (slab_bucket sl) z;
  so_bytes : slab_size sl = slab_bytes z;
  so_total : num_chunks_total sl = utils_max (smin / z) 1;
  so_words : num_words sl = (num_chunks_total sl + 63) / 64;
  so_bits : words_ok (num_chunks_total sl) (chunks sl);
  so_count : num_chunks_allocated sl = num_chunks_total sl - nfree (num_chunks_total sl) (chunks sl);
}.

Definition slabs_ok S R P : Prop := forall m x, R !! m = Some x ->
  x <> 0 /\ exists sl z, S !! x = Some sl /\ mem_ptr sl = m /\ slab_ok sl z /\ P !! m = Some (slab_size sl).

(** A slab on a list of the bucket [a]. *)
Definition listed S R (a x : Z) (full : bool) : Prop :=
  exists sl, S !! x = Some sl /\ slab_bucket sl = a /\ R !! mem_ptr sl = Some x /\ slab_has_avail sl = negb full.

Record bucket_ok lk S R (a : Z) (b : bucket_t) : Prop := {
  bk_size : size_at a (bucket_size b);
  bk_pool : bucket_pool b = pool;
  bk_limits : bucket_limits b = lim;
  bk_lock : bucket_lock b = mk_mutex (is_locked lk a) [];
  bk_nodup : NoDup (available_slabs b ++ unavailable_slabs b);
  bk_num : available_slabs_num b = Z.of_nat (length (available_slabs b));
  bk_avail : forall x, x ∈ available_slabs b -> listed S R a x false;
  bk_unavail : forall x, x ∈ unavailable_slabs b -> listed S R a x true;
  bk_empty : nempty S (available_slabs b) <= chunked_slabs_in_pool b + slack lk a;
  bk_chunked : 0 <= chunked_slabs_in_pool b <= MAX_POOLED;
}.

(** The bytes of the slabs that are counted as pooled. *)
Definition pooled_in B (a : Z) : Z :=
  match B !! a with Some b => chunked_slabs_in_pool b * slab_bytes (bucket_size b) | None => 0 end.
Fixpoint pooled B (l : list Z) : Z := match l with [] => 0 | a :: l => pooled_in B a + pooled B l end.

(** The limit object; [base] is what other pools with the same limits hold. *)
Definition limits_ok (base : Z) B L : Prop := exists l, L !! lim = Some l /\
  total_size l = base + pooled B bs /\ total_size l <= max_size l < two64.

Record users_ok S R P G : Prop := {
  us_chunk : forall ptr x m z i, G !! ptr = Some (InChunk x m z i) -> R !! m = Some x /\
    exists sl, S !! x = Some sl /\ size_at (slab_bucket sl) z /\ 0 <= i < num_chunks_total sl /\
      chunk_free (chunks sl) i = false /\ m + i * z <= ptr < m + (i + 1) * z /\ ptr < m + smin;
  us_inj : forall p1 p2 x m1 m2 z1 z2 i, G !! p1 = Some (InChunk x m1 z1 i) -> G !! p2 = Some (InChunk x m2 z2 i) -> p1 = p2;
  us_direct : forall ptr n, G !! ptr = Some (Direct n) -> P !! ptr = Some n /\ R !! ptr = None;
}.

Record pinv (base : Z) S B L lk R P G : Prop := {
  pi_slabs : slabs_ok S R P;
  pi_buckets : forall a, a ∈ bs -> exists b, B !! a = Some b /\ bucket_ok lk S R a b;
  pi_full : forall m x sl b, R !! m = Some x -> S !! x = Some sl -> B !! slab_bucket sl = Some b ->
    x ∈ available_slabs b ++ unavailable_slabs b;
  pi_limits : limits_ok base B L;
  pi_users : users_ok S R P G;
}.

(** ** Sizes *)

Hypothesis Hp : pool_ok.

Lemma size_at_in a z : size_at a z -> a ∈ bs.
Proof using. intros (i & Hi & _). by eapply list_elem_of_lookup_2. Qed.

Lemma size_at_of a : a ∈ bs -> exists z, size_at a z.
Proof using. intros [i Hi]%list_elem_of_lookup. eexists. by exists i. Qed.

Lemma size_at_fun a z z' : size_at a z -> size_at a z' -> z = z'.
Proof using Hp. intros (i & Hi & ->) (j & Hj & ->). by rewrite (NoDup_lookup _ _ _ _ (po_nodup Hp) Hi Hj). Qed.

Lemma size_at_bounds a z : size_at a z -> 8 <= z <= CutOff.
Proof using Hp. intros (i & Hi & ->). apply bsize_bounds; [apply Hp|]. apply lookup_lt_Some in Hi. pose proof (po_bs Hp). lia. Qed.

Lemma utils_max_eq a b : utils_max a b = Z.max a b.
Proof using. unfold utils_max. destruct (Z.gtb_spec a b); lia. Qed.

Lemma slab_bytes_bounds a z : size_at a z -> z <= slab_bytes z /\ smin <= slab_bytes z /\ slab_bytes z <= 2 ^ 32.
Proof using Hp.
  intros Hz%size_at_bounds. unfold slab_bytes. rewrite utils_max_eq. pose proof (po_min Hp). assert (CutOff = 2 ^ 31) by done. lia.
Qed.

Lemma total_bounds sl z : slab_ok sl z -> 0 < num_chunks_total sl <= 2 ^ 32.
Proof using Hp.
  intros Hs. rewrite (so_total _ _ Hs), utils_max_eq. pose proof (size_at_bounds _ _ (so_size _ _ Hs)). pose proof (po_min Hp).
  assert (smin / z <= smin) by (apply Z.div_le_upper_bound; nia). lia.
Qed.

(** The chunk [i] is inside the slab, and begins before [slab_get_end]. *)
Lemma chunk_inside sl z i : slab_ok sl z -> 0 <= i < num_chunks_total sl -> (i + 1) * z <= slab_size sl /\ i * z < smin.
Proof using Hp.
  intros Hs Hi. rewrite (so_bytes _ _ Hs). destruct (slab_bytes_bounds _ _ (so_size _ _ Hs)) as (Hz & Hm & _).
  pose proof (size_at_bounds _ _ (so_size _ _ Hs)) as Hb. pose proof (po_min Hp) as Hmin. rewrite (so_total _ _ Hs), utils_max_eq in Hi.
  pose proof (Z.mul_div_le smin z). destruct (Z.le_gt_cases (smin / z) 1).
  - assert (i = 0) as -> by lia. lia.
  - assert ((i + 1) * z <= smin / z * z) by nia. nia.
Qed.

(** A chunk ends before [slab_get_end] or is the only one. *)
Lemma chunk_last sl z i : slab_ok sl z -> 0 <= i < num_chunks_total sl -> (i + 1) * z <= smin \/ i = 0.
Proof using Hp.
  intros Hs Hi. pose proof (size_at_bounds _ _ (so_size _ _ Hs)) as Hb. rewrite (so_total _ _ Hs), utils_max_eq in Hi.
  destruct (Z.le_gt_cases (smin / z) 1); [right; lia|left]. pose proof (Z.mul_div_le smin z). nia.
Qed.

Lemma slab_count_range sl z : slab_ok sl z -> 0 <= num_chunks_allocated sl <= num_chunks_total sl.
Proof using Hp.
  intros Hs. rewrite (so_count _ _ Hs). pose proof (total_bounds _ _ Hs). pose proof (nfree_range (num_chunks_total sl) (chunks sl)). lia.
Qed.

Lemma slab_of S R P m x : slabs_ok S R P -> R !! m = Some x -> exists sl z, S !! x = Some sl /\ mem_ptr sl = m /\ slab_ok sl z.
Proof using. intros Hs HR. destruct (Hs _ _ HR) as (_ & sl & z & ? & ? & ? & _). eauto 6. Qed.

(** A slab is registered at one address. *)
Lemma reg_inj S R P m1 m2 x : slabs_ok S R P -> R !! m1 = Some x -> R !! m2 = Some x -> m1 = m2.
Proof using. intros Hs H1 H2. destruct (Hs _ _ H1) as (_ & sl & z & ? & <- & _), (Hs _ _ H2) as (_ & sl' & z' & ? & <- & _). congruence. Qed.

Lemma listed_bucket S R a x full sl : listed S R a x full -> S !! x = Some sl -> slab_bucket sl = a /\ R !! mem_ptr sl = Some x /\ slab_has_avail sl = negb full.
Proof using. intros (sl' & Hx & ?) Hx'. rewrite Hx in Hx'. by injection Hx' as ->. Qed.
End Inv.
