(* ===== verification/DisjointSteps.v ===== *)
(** * The steps of the disjoint pool on its invariant

    What the functions of src/pool/pool_disjoint.c do to the heaps of slabs,
    buckets and limits, one lemma per change: each step keeps [pinv].

    Every allocation lies in one range of the provider, and no two overlap:
    what [pinv] says about the places [G]. *)

From S2P Require Import Prelude Utils HostMem CritSpec CritInv CritWorld.
From stdpp Require Import strings list.
From S2P Require Import Critnib Tracker PoolProvider DisjointPool DisjointSize DisjointInv.
#[local] Open Scope Z_scope.

Section Steps.
Context (p : disjoint_pool_t) (pool : Z) (bs : list Z) (base : Z).
Hypothesis Hp : pool_ok p pool bs.
Implicit Types (S : slabs) (B : buckets_map) (L : limits_map) (R P : gmap Z Z) (G : gmap Z place) (lk : locked).

Abbreviation pinv := (pinv p pool bs base).
Abbreviation bucket_ok := (bucket_ok p pool bs).
Abbreviation slab_ok := (slab_ok p bs).
Abbreviation slabs_ok := (slabs_ok p bs).
Abbreviation users_ok := (users_ok p bs).
Abbreviation limits_ok := (limits_ok p bs base).
Abbreviation pooled := (pooled p).
Abbreviation pooled_in := (pooled_in p).
Abbreviation size_at := (size_at p bs).
Abbreviation slab_bytes := (slab_bytes p).

(** ** The sum of the pooled bytes *)

Lemma pooled_out B l a b : a ∉ l -> pooled (<[a := b]> B) l = pooled B l.
Proof using.
  induction l as [|c l IH]; [done|]. intros [Hne Hl]%not_elem_of_cons. simpl. rewrite IH by done.
  unfold DisjointInv.pooled_in. by rewrite lookup_insert_ne.
Qed.

Lemma pooled_insert B l a b : NoDup l -> a ∈ l ->
  pooled (<[a := b]> B) l = pooled B l - pooled_in B a + chunked_slabs_in_pool b * slab_bytes (bucket_size b).
Proof using.
  intros Hnd. induction Hnd as [|c l Hc Hnd IH]; [by intros ?%not_elem_of_nil|]. intros [->|Ha]%elem_of_cons; simpl.
  - rewrite pooled_out by done. unfold DisjointInv.pooled_in at 1. rewrite lookup_insert_eq. lia.
  - rewrite IH by done. assert (pooled_in (<[a := b]> B) c = pooled_in B c) as ->; [|lia].
    unfold DisjointInv.pooled_in. rewrite lookup_insert_ne; [done|]. by intros ->.
Qed.

Lemma pooled_same B a b b' : B !! a = Some b -> a ∈ bs -> bucket_size b' = bucket_size b ->
  chunked_slabs_in_pool b' = chunked_slabs_in_pool b -> pooled (<[a := b']> B) bs = pooled B bs.
Proof using Hp.
  intros Hb Ha Ez Ec. rewrite pooled_insert by (done || apply Hp). unfold DisjointInv.pooled_in. rewrite Hb, Ez, Ec. lia.
Qed.

Lemma pooled_in_bounds S B L lk R P G a : pinv S B L lk R P G -> a ∈ bs -> 0 <= pooled_in B a <= MAX_POOLED * 2 ^ 32.
Proof using Hp.
  intros HI Ha. destruct (pi_buckets _ _ _ _ _ _ _ _ _ _ _ HI a Ha) as (b & Hb & Hok). unfold DisjointInv.pooled_in. rewrite Hb.
  pose proof (bk_chunked _ _ _ _ _ _ _ _ Hok) as Hc.
  destruct (slab_bytes_bounds _ _ _ Hp _ _ (bk_size _ _ _ _ _ _ _ _ Hok)) as (? & ? & ?). pose proof (po_min _ _ _ Hp).
  assert (0 <= slab_bytes (bucket_size b)) by lia. unfold MAX_POOLED in *. nia.
Qed.

Lemma pooled_bounds S B L lk R P G : pinv S B L lk R P G -> 0 <= pooled B bs <= 57 * (MAX_POOLED * 2 ^ 32).
Proof using Hp.
  intros HI. assert (Z.of_nat (length bs) <= 57) as Hlen by (rewrite (po_bs _ _ _ Hp); unfold bnum; pose proof (po_exp _ _ _ Hp); lia).
  assert (forall l, (forall a, a ∈ l -> a ∈ bs) -> 0 <= pooled B l <= Z.of_nat (length l) * (MAX_POOLED * 2 ^ 32)) as Hl.
  { induction l as [|a l IH]; intros Hin; [simpl; lia|]. simpl. pose proof (pooled_in_bounds _ _ _ _ _ _ _ a HI (Hin a ltac:(constructor))) as Ha.
    assert (forall a, a ∈ l -> a ∈ bs) as Hin' by (intros; apply Hin; by constructor). specialize (IH Hin'). unfold MAX_POOLED in *. lia. }
  specialize (Hl bs ltac:(done)). unfold MAX_POOLED in *. lia.
Qed.

Lemma pooled_in_le S B L lk R P G a : pinv S B L lk R P G -> a ∈ bs -> pooled_in B a <= pooled B bs.
Proof using Hp.
  intros HI Ha. assert (forall l, (forall a, a ∈ l -> a ∈ bs) -> 0 <= pooled B l /\ (a ∈ l -> pooled_in B a <= pooled B l)) as Hl; [|by apply Hl].
  induction l as [|c l IH]; intros Hin; [split; [done|by intros ?%not_elem_of_nil]|]. simpl.
  pose proof (pooled_in_bounds _ _ _ _ _ _ _ c HI (Hin c ltac:(constructor))) as Hc.
  destruct IH as [H0 Hle]; [intros; apply Hin; by constructor|]. split; [lia|]. intros [->|Hal]%elem_of_cons; [lia|]. specialize (Hle Hal). lia.
Qed.

(** ** One bucket changes *)

Definition same_lk (a : Z) lk lk' : Prop := forall a', a' <> a -> is_locked lk' a' = is_locked lk a' /\ slack lk' a' = slack lk a'.

Lemma same_lk_refl a lk : same_lk a lk lk.
Proof using. done. Qed.
Lemma same_lk_some a k k' : same_lk a (Some (a, k)) (Some (a, k')).
Proof using. intros a' Hne. simpl. by rewrite (proj2 (Z.eqb_neq a' a)). Qed.
Lemma same_lk_lock a k : same_lk a None (Some (a, k)).
Proof using. intros a' Hne. simpl. by rewrite (proj2 (Z.eqb_neq a' a)). Qed.
Lemma same_lk_unlock a k : same_lk a (Some (a, k)) None.
Proof using. intros a' Hne. simpl. by rewrite (proj2 (Z.eqb_neq a' a)). Qed.

Lemma nempty_ext S S' l : (forall x, x ∈ l -> S' !! x = S !! x) -> nempty S' l = nempty S l.
Proof using.
  intros Hx. unfold nempty. rewrite (filter_same (empty_slab S) (empty_slab S')); [done|]. intros x Hin. unfold empty_slab. by rewrite Hx.
Qed.

Lemma bucket_frame lk lk' S S' R R' a b : bucket_ok lk S R a b ->
  is_locked lk' a = is_locked lk a -> slack lk' a = slack lk a ->
  (forall x sl, S !! x = Some sl -> slab_bucket sl = a -> R !! mem_ptr sl = Some x -> S' !! x = Some sl /\ R' !! mem_ptr sl = Some x) ->
  bucket_ok lk' S' R' a b.
Proof using.
  intros [Hz Hpo Hl Hlk Hnd Hnum Hav Hun Hem Hch] El Es Hf.
  assert (forall x full, listed S R a x full -> listed S' R' a x full /\ S' !! x = S !! x) as Hli.
  { intros x full (sl & Hx & Ha & HR & Hav'). destruct (Hf x sl Hx Ha HR) as [HS' HR']. split; [by exists sl|congruence]. }
  split; rewrite ?El, ?Es; try done.
  - intros x Hx. by apply Hli, Hav.
  - intros x Hx. by apply Hli, Hun.
  - rewrite (nempty_ext S S'); [done|]. intros x Hx. by apply (Hli x false), Hav.
Qed.

Lemma pinv_update S S' B L L' lk lk' R R' P P' G G' a b' : pinv S B L lk R P G -> same_lk a lk lk' ->
  (forall x sl, S !! x = Some sl -> slab_bucket sl <> a -> R !! mem_ptr sl = Some x -> S' !! x = Some sl /\ R' !! mem_ptr sl = Some x) ->
  (forall m x sl, R' !! m = Some x -> S' !! x = Some sl -> slab_bucket sl <> a -> R !! m = Some x /\ S !! x = Some sl) ->
  bucket_ok lk' S' R' a b' ->
  (forall m x sl, R' !! m = Some x -> S' !! x = Some sl -> slab_bucket sl = a -> x ∈ available_slabs b' ++ unavailable_slabs b') ->
  slabs_ok S' R' P' -> limits_ok (<[a := b']> B) L' -> users_ok S' R' P' G' ->
  pinv S' (<[a := b']> B) L' lk' R' P' G'.
Proof using.
  intros HI Hlk Hf Hback Hok Hfull Hsl Hli Hus. split; [done| | |done|done].
  - intros a' Ha'. destruct (decide (a = a')) as [<-|Hne]; [exists b'; by rewrite lookup_insert_eq|].
    destruct (pi_buckets _ _ _ _ _ _ _ _ _ _ _ HI a' Ha') as (b & Hb & Hbok). exists b. rewrite lookup_insert_ne by done. split; [done|].
    destruct (Hlk a') as [El Es]; [done|]. apply (bucket_frame lk lk' S S' R R' a' b Hbok El Es). intros x sl Hx <-. by apply Hf.
  - intros m x sl b HR' HS' Hb. destruct (decide (slab_bucket sl = a)) as [Ea|Hne].
    + rewrite Ea, lookup_insert_eq in Hb. injection Hb as <-. by apply (Hfull m x sl).
    + rewrite lookup_insert_ne in Hb by done. destruct (Hback _ _ _ HR' HS' Hne) as [HR HS]. by apply (pi_full _ _ _ _ _ _ _ _ _ _ _ HI m x sl).
Qed.

(** Fields of the bucket that the invariant does not mention, and the lock. *)
Definition same_lists (b b' : bucket_t) : Prop :=
  bucket_size b' = bucket_size b /\ bucket_pool b' = bucket_pool b /\ bucket_limits b' = bucket_limits b /\
  available_slabs b' = available_slabs b /\ available_slabs_num b' = available_slabs_num b /\
  unavailable_slabs b' = unavailable_slabs b /\ chunked_slabs_in_pool b' = chunked_slabs_in_pool b.

Lemma bucket_same lk lk' S R a b b' : bucket_ok lk S R a b -> same_lists b b' -> slack lk a <= slack lk' a ->
  bucket_lock b' = mk_mutex (is_locked lk' a) [] -> bucket_ok lk' S R a b'.
Proof using.
  intros [Hz Hpo Hl Hlk Hnd Hnum Hav Hun Hem Hch] (Ez & Ep & El & Ea & En & Eu & Ec) Hsl Hlk'.
  split; rewrite ?Ez, ?Ep, ?El, ?Ea, ?En, ?Eu, ?Ec; try done. lia.
Qed.

Lemma pinv_same S B L lk lk' R P G a b b' : pinv S B L lk R P G -> a ∈ bs -> B !! a = Some b -> same_lists b b' ->
  same_lk a lk lk' -> slack lk a <= slack lk' a -> bucket_lock b' = mk_mutex (is_locked lk' a) [] ->
  pinv S (<[a := b']> B) L lk' R P G.
Proof using Hp.
  intros HI Ha Hb Hsame Hlk Hsl Hlock. destruct (pi_buckets _ _ _ _ _ _ _ _ _ _ _ HI a Ha) as (b0 & Hb0 & Hok).
  rewrite Hb in Hb0. injection Hb0 as <-. apply (pinv_update S S B L L lk lk' R R P P G G a b'); try done; try apply HI.
  - by apply (bucket_same lk lk' S R a b).
  - intros m x sl HR HS Ea. destruct Hsame as (_ & _ & _ & -> & _ & -> & _). apply (pi_full _ _ _ _ _ _ _ _ _ _ _ HI m x sl); [done..|]. by rewrite Ea.
  - destruct (pi_limits _ _ _ _ _ _ _ _ _ _ _ HI) as (l & Hl & Et & Hm). exists l. split; [done|].
    rewrite (pooled_same B a b b'); [done|done|done|apply Hsame|apply Hsame].
Qed.

(** ** Lists *)

Lemma dl_delete_spec x l : x ∈ l -> exists l1 l2, l = l1 ++ x :: l2 /\ dl_delete x l = Some (l1 ++ l2).
Proof using.
  induction l as [|y l IH]; [by intros ?%not_elem_of_nil|]. intros Hx. simpl. destruct (Z.eqb_spec x y) as [->|Hne]; [by exists [], l|].
  apply elem_of_cons in Hx as [->|Hx]; [done|]. destruct (IH Hx) as (l1 & l2 & -> & ->). by exists (y :: l1), l2.
Qed.

Lemma nempty_app S l1 l2 : nempty S (l1 ++ l2) = nempty S l1 + nempty S l2.
Proof using. unfold nempty. rewrite filter_app, length_app. lia. Qed.

Lemma nempty_cons S x l : nempty S (x :: l) = (if empty_slab S x then 1 else 0) + nempty S l.
Proof using. unfold nempty. rewrite filter_cons. destruct (empty_slab S x); [rewrite decide_True by done|rewrite decide_False by done]; simpl; lia. Qed.

Lemma nempty_middle S l1 x l2 : nempty S (l1 ++ x :: l2) = (if empty_slab S x then 1 else 0) + nempty S (l1 ++ l2).
Proof using. rewrite !nempty_app, nempty_cons. lia. Qed.

Lemma nempty_insert S x sl l : x ∉ l -> nempty (<[x := sl]> S) l = nempty S l.
Proof using. intros Hx. apply nempty_ext. intros y Hy. rewrite lookup_insert_ne; [done|]. by intros ->. Qed.

Lemma nempty_nonneg S l : 0 <= nempty S l.
Proof using. unfold nempty. lia. Qed.

(** ** Slabs that are not registered do not matter *)

Lemma pinv_slabs_ext S S' B L lk R P G : pinv S B L lk R P G -> (forall m x, R !! m = Some x -> S' !! x = S !! x) -> pinv S' B L lk R P G.
Proof using.
  intros HI Hx. split.
  - intros m x HR. destruct (pi_slabs _ _ _ _ _ _ _ _ _ _ _ HI m x HR) as (Hne & sl & z & HS & ?). split; [done|]. exists sl, z. by rewrite (Hx m).
  - intros a Ha. destruct (pi_buckets _ _ _ _ _ _ _ _ _ _ _ HI a Ha) as (b & Hb & Hok). exists b. split; [done|].
    apply (bucket_frame lk lk S S' R R a b); [done..|]. intros x sl HS _ HR. by rewrite (Hx (mem_ptr sl)).
  - intros m x sl b HR HS. rewrite (Hx m) in HS by done. by apply (pi_full _ _ _ _ _ _ _ _ _ _ _ HI m).
  - apply HI.
  - destruct (pi_users _ _ _ _ _ _ _ _ _ _ _ HI) as [Hc Hi Hd]. split; [|done|done]. intros ptr x m z i HG.
    destruct (Hc _ _ _ _ _ HG) as (HR & sl & HS & ?). split; [done|]. exists sl. by rewrite (Hx m).
Qed.

(** ** A new slab *)

Lemma pinv_new_slab S B L R P G a b m x sl z : pinv S B L (Some (a, 0)) R P G -> B !! a = Some b ->
  slab_ok sl z -> slab_bucket sl = a -> mem_ptr sl = m -> num_chunks_allocated sl = 0 -> x <> 0 ->
  R !! m = None -> P !! m = None -> (forall m', R !! m' <> Some x) ->
  pinv (<[x := sl]> S) (<[a := with_slabs (x :: available_slabs b) (Z.of_nat (length (available_slabs b)) + 1) (unavailable_slabs b) b]> B)
    L (Some (a, 1)) (<[m := x]> R) (<[m := slab_size sl]> P) G.
Proof using Hp.
  intros HI Hb Hsl Ea Em Ec Hx0 HR HP Hx. pose proof (size_at_in _ _ _ _ (so_size _ _ _ _ Hsl)) as Ha. rewrite Ea in Ha.
  destruct (pi_buckets _ _ _ _ _ _ _ _ _ _ _ HI a Ha) as (b0 & Hb0 & Hok). rewrite Hb in Hb0. injection Hb0 as <-.
  assert (forall y m', R !! m' = Some y -> y <> x /\ m' <> m) as Hne. { intros y m' Hy. split; [intros ->; by apply (Hx m')|congruence]. }
  assert (forall y full, listed S R a y full -> y <> x /\ listed (<[x := sl]> S) (<[m := x]> R) a y full) as Hli.
  { intros y full (sly & HS & Hay & HRy & Hav). destruct (Hne _ _ HRy) as [Hyx Hym]. split; [done|]. exists sly.
    rewrite !lookup_insert_ne by done. done. }
  apply (pinv_update S _ B L L (Some (a, 0)) (Some (a, 1)) R _ P _ G G a); [done|apply same_lk_some|..].
  - intros y sly HS _ HRy. destruct (Hne _ _ HRy) as [Hyx Hym]. rewrite !lookup_insert_ne by done. done.
  - intros m' y sly HRy HS Hby. destruct (decide (m = m')) as [<-|Hm'].
    + rewrite lookup_insert_eq in HRy. injection HRy as <-. rewrite lookup_insert_eq in HS. congruence.
    + rewrite lookup_insert_ne in HRy by done. destruct (Hne _ _ HRy) as [Hyx _]. by rewrite lookup_insert_ne in HS by done.
  - destruct Hok as [Hz Hpo Hl Hlk Hnd Hnum Hav Hun Hem Hch]. simpl in *. rewrite Z.eqb_refl in *. split; simpl; rewrite ?Z.eqb_refl; try done.
    + constructor; [|done]. intros [Hin|Hin]%elem_of_app; [destruct (Hli _ _ (Hav _ Hin))|destruct (Hli _ _ (Hun _ Hin))]; done.
    + lia.
    + intros y [->|Hin]%elem_of_cons; [|by apply Hli, Hav]. exists sl. rewrite lookup_insert_eq, Em, lookup_insert_eq. split_and!; [done..|].
      unfold slab_has_avail. rewrite Ec. apply Z.ltb_lt. by destruct (total_bounds _ _ _ Hp _ _ Hsl).
    + intros y Hin. by apply Hli, Hun.
    + rewrite nempty_cons, nempty_insert by (intros Hin; by destruct (Hli _ _ (Hav _ Hin))). unfold empty_slab. rewrite lookup_insert_eq, Ec. simpl. lia.
  - intros m' y sly HRy HS Hby. simpl. destruct (decide (m = m')) as [<-|Hm'].
    + rewrite lookup_insert_eq in HRy. injection HRy as <-. constructor.
    + rewrite lookup_insert_ne in HRy by done. destruct (Hne _ _ HRy) as [Hyx _]. rewrite lookup_insert_ne in HS by done.
      right. apply (pi_full _ _ _ _ _ _ _ _ _ _ _ HI m' y sly); [done..|]. by rewrite Hby.
  - intros m' y HRy. destruct (decide (m = m')) as [<-|Hm'].
    + rewrite lookup_insert_eq in HRy. injection HRy as <-. split; [done|]. exists sl, z. by rewrite !lookup_insert_eq.
    + rewrite lookup_insert_ne in HRy by done. destruct (Hne _ _ HRy) as [Hyx _]. rewrite !lookup_insert_ne by done. by apply HI.
  - destruct (pi_limits _ _ _ _ _ _ _ _ _ _ _ HI) as (l & Hl & Et & Hm). exists l. split; [done|]. by rewrite (pooled_same B a b).
  - destruct (pi_users _ _ _ _ _ _ _ _ _ _ _ HI) as [Hc Hi Hd]. split; [|done|].
    + intros ptr y m' z' i HG. destruct (Hc _ _ _ _ _ HG) as (HRy & sly & HS & ?). destruct (Hne _ _ HRy) as [Hyx Hym].
      rewrite lookup_insert_ne by done. split; [done|]. exists sly. by rewrite lookup_insert_ne.
    + intros ptr n HG. destruct (Hd _ _ HG) as [HPp HRp]. assert (m <> ptr) by congruence. by rewrite !lookup_insert_ne.
Qed.

(** ** An empty slab goes *)

(** An empty slab is on the list of the available ones. *)
Lemma empty_available S B L lk R P G a b m x sl : pinv S B L lk R P G -> R !! m = Some x -> S !! x = Some sl ->
  slab_bucket sl = a -> B !! a = Some b -> slab_has_avail sl = true -> x ∈ available_slabs b.
Proof using Hp.
  intros HI HR HS <- Hb Hav. destruct (pi_slabs _ _ _ _ _ _ _ _ _ _ _ HI m x HR) as (_ & sl' & z & HS' & _ & Hsl & _).
  rewrite HS in HS'. injection HS' as <-. pose proof (size_at_in _ _ _ _ (so_size _ _ _ _ Hsl)) as Ha.
  destruct (pi_buckets _ _ _ _ _ _ _ _ _ _ _ HI _ Ha) as (b0 & Hb0 & Hok). rewrite Hb in Hb0. injection Hb0 as <-.
  pose proof (pi_full _ _ _ _ _ _ _ _ _ _ _ HI m x sl b HR HS Hb) as [?|Hin]%elem_of_app; [done|].
  apply (bk_unavail _ _ _ _ _ _ _ _ Hok) in Hin as (sl' & HS' & _ & _ & Hf). rewrite HS in HS'. injection HS' as <-. by rewrite Hav in Hf.
Qed.

(** Its chunks are free, so the user has no memory in it. *)
Lemma empty_no_user S B L lk R P G m x sl : pinv S B L lk R P G -> R !! m = Some x -> S !! x = Some sl -> num_chunks_allocated sl = 0 ->
  forall ptr m' z i, G !! ptr <> Some (InChunk x m' z i).
Proof using Hp.
  intros HI HR HS Hc ptr m' z i HG. destruct (us_chunk _ _ _ _ _ _ (pi_users _ _ _ _ _ _ _ _ _ _ _ HI) _ _ _ _ _ HG) as (_ & sl' & HS' & _ & Hi & Hf & _).
  rewrite HS in HS'. injection HS' as <-. destruct (slab_of _ _ _ _ _ _ _ (pi_slabs _ _ _ _ _ _ _ _ _ _ _ HI) HR) as (sl' & z' & HS' & _ & Hsl).
  rewrite HS in HS'. injection HS' as <-. rewrite (so_count _ _ _ _ Hsl) in Hc.
  rewrite (nfree_all (num_chunks_total sl)) in Hf; [done|lia|lia|done].
Qed.

Lemma pinv_drop_slab S B L k k' R P P' G a b m x sl l1 l2 : pinv S B L (Some (a, k)) R P G -> B !! a = Some b ->
  R !! m = Some x -> S !! x = Some sl -> slab_bucket sl = a -> num_chunks_allocated sl = 0 ->
  available_slabs b = l1 ++ x :: l2 -> k - 1 <= k' -> (forall q, q <> m -> P' !! q = P !! q) ->
  pinv S (<[a := with_slabs (l1 ++ l2) (Z.of_nat (length (l1 ++ l2))) (unavailable_slabs b) b]> B) L (Some (a, k')) (delete m R) P' G.
Proof using Hp.
  intros HI Hb HR HS Ea Hc El Hk HP. pose proof (empty_no_user _ _ _ _ _ _ _ _ _ _ HI HR HS Hc) as Hno.
  destruct (slab_of _ _ _ _ _ _ _ (pi_slabs _ _ _ _ _ _ _ _ _ _ _ HI) HR) as (sl' & z & HS' & Em & Hsl).
  rewrite HS in HS'. injection HS' as <-. pose proof (size_at_in _ _ _ _ (so_size _ _ _ _ Hsl)) as Ha. rewrite Ea in Ha.
  destruct (pi_buckets _ _ _ _ _ _ _ _ _ _ _ HI a Ha) as (b0 & Hb0 & Hok). rewrite Hb in Hb0. injection Hb0 as <-.
  assert (forall y m', R !! m' = Some y -> y <> x -> m' <> m) as Hne by (intros y m' Hy Hyx ->; congruence).
  destruct Hok as [Hz Hpo Hl Hlk Hnd Hnum Hav Hun Hem Hch]. rewrite El in *.
  assert (forall y, y ∈ l1 ++ l2 \/ y ∈ unavailable_slabs b -> y <> x) as Hyx.
  { intros y Hy ->. rewrite <- app_assoc in Hnd. apply NoDup_app in Hnd as (_ & Hd1 & Hnd). simpl in Hnd. apply list.NoDup_cons in Hnd as [Hd2 _].
    rewrite elem_of_app in *. destruct Hy as [[Hy|Hy]|Hy]; [apply (Hd1 x Hy); simpl; left|apply Hd2; by left|apply Hd2; by right]. }
  assert (forall y full, listed S R a y full -> y <> x -> listed S (delete m R) a y full) as Hli.
  { intros y full (sly & HSy & Hay & HRy & Hf) Hy. exists sly. rewrite lookup_delete_ne; [done|]. intros E. by apply (Hne _ _ HRy Hy). }
  apply (pinv_update S S B L L (Some (a, k)) (Some (a, k')) R _ P _ G G a); [done|apply same_lk_some|..].
  - intros y sly HSy Hby HRy. rewrite lookup_delete_ne; [done|]. intros E. rewrite <- E, HR in HRy. congruence.
  - intros m' y sly [_ HRy]%lookup_delete_Some HSy _. done.
  - simpl in *. rewrite Z.eqb_refl in *. split; simpl; rewrite ?Z.eqb_refl; try done.
    + rewrite <- app_assoc in *. simpl in Hnd. by apply NoDup_app in Hnd as (? & Hd & [_ ?]%list.NoDup_cons); apply NoDup_app; split_and!; [|set_solver|].
    + intros y Hy. apply Hli; [|apply Hyx; by left]. apply Hav. rewrite elem_of_app in *. destruct Hy; [by left|right; by right].
    + intros y Hy. apply Hli; [by apply Hun|apply Hyx; by right].
    + rewrite nempty_middle in Hem. unfold empty_slab in Hem at 1. rewrite HS, Hc in Hem. simpl in Hem. lia.
  - intros m' y sly [Hm' HRy]%lookup_delete_Some HSy Hby. assert (y <> x) as Hyne by (intros ->; apply Hm'; by eapply reg_inj; [apply HI|..]).
    pose proof (pi_full _ _ _ _ _ _ _ _ _ _ _ HI m' y sly b HRy HSy) as Hin. rewrite Hby in Hin. specialize (Hin Hb). rewrite El in Hin. simpl.
    rewrite !elem_of_app, elem_of_cons in *. naive_solver.
  - intros m' y [Hm' HRy]%lookup_delete_Some. rewrite HP by done. by apply HI.
  - destruct (pi_limits _ _ _ _ _ _ _ _ _ _ _ HI) as (l & Hl' & Et & Hm). exists l. split; [done|]. by rewrite (pooled_same B a b).
  - destruct (pi_users _ _ _ _ _ _ _ _ _ _ _ HI) as [Hcu Hi Hd]. split; [|done|].
    + intros ptr y m' z' i HG. destruct (Hcu _ _ _ _ _ HG) as (HRy & sly & HSy & ?). split; [|by exists sly].
      rewrite lookup_delete_ne; [done|]. intros <-. rewrite HR in HRy. injection HRy as ->. by apply (Hno ptr m z' i).
    + intros ptr n HG. destruct (Hd _ _ HG) as [HPp HRp]. rewrite HP by congruence. split; [done|]. rewrite lookup_delete_ne; congruence.
Qed.

(** ** The count of the pooled slabs *)

Lemma pinv_chunked S B L L' k k' R P G a b c l : pinv S B L (Some (a, k)) R P G -> a ∈ bs -> B !! a = Some b ->
  0 <= c <= MAX_POOLED -> k + chunked_slabs_in_pool b <= k' + c -> L !! lim p = Some l ->
  L' = <[lim p := mk_limits (max_size l) (total_size l + (c - chunked_slabs_in_pool b) * slab_bytes (bucket_size b))]> L ->
  total_size l + (c - chunked_slabs_in_pool b) * slab_bytes (bucket_size b) <= max_size l ->
  pinv S (<[a := with_chunked c b]> B) L' (Some (a, k')) R P G.
Proof using Hp.
  intros HI Ha Hb Hc Hk Hl -> Hle. destruct (pi_buckets _ _ _ _ _ _ _ _ _ _ _ HI a Ha) as (b0 & Hb0 & Hok). rewrite Hb in Hb0. injection Hb0 as <-.
  apply (pinv_update S S B L _ (Some (a, k)) (Some (a, k')) R R P P G G a); [done|apply same_lk_some|done|done|..|apply HI| |apply HI].
  - destruct Hok as [Hz Hpo Hli Hlk Hnd Hnum Hav Hun Hem Hch]. simpl in *. rewrite Z.eqb_refl in *. split; simpl; rewrite ?Z.eqb_refl; try done. lia.
  - intros m x sl HR HS Ea. simpl. apply (pi_full _ _ _ _ _ _ _ _ _ _ _ HI m x sl); [done..|]. by rewrite Ea.
  - destruct (pi_limits _ _ _ _ _ _ _ _ _ _ _ HI) as (l0 & Hl0 & Et & Hm). rewrite Hl in Hl0. injection Hl0 as <-.
    eexists. rewrite lookup_insert_eq. split; [done|]. simpl. split; [|lia]. rewrite pooled_insert by (done || apply Hp).
    unfold DisjointInv.pooled_in. rewrite Hb. simpl. lia.
Qed.

(** ** The chunks of a slab *)

Lemma slab_ok_chunks sl z n ws : slab_ok sl z -> words_ok (num_chunks_total sl) ws -> n = num_chunks_total sl - nfree (num_chunks_total sl) ws ->
  slab_ok (with_chunks n ws sl) z.
Proof using. intros [? ? ? ? ? ?] Hw ->. by split. Qed.

Lemma pinv_move S B L lk lk' R P G G' a b m x sl z n ws avail unavail :
  pinv S B L lk R P G -> same_lk a lk lk' -> is_locked lk' a = is_locked lk a ->
  R !! m = Some x -> S !! x = Some sl -> slab_bucket sl = a -> B !! a = Some b ->
  slab_ok (with_chunks n ws sl) z -> let S' := <[x := with_chunks n ws sl]> S in
  NoDup (avail ++ unavail) ->
  (forall y, y ∈ avail -> (y = x /\ n < num_chunks_total sl) \/ (y <> x /\ y ∈ available_slabs b)) ->
  (forall y, y ∈ unavail -> (y = x /\ num_chunks_total sl <= n) \/ (y <> x /\ y ∈ unavailable_slabs b)) ->
  (forall y, y ∈ available_slabs b ++ unavailable_slabs b -> y ∈ avail ++ unavail) ->
  nempty S' avail <= chunked_slabs_in_pool b + slack lk' a -> users_ok S' R P G' ->
  pinv S' (<[a := with_slabs avail (Z.of_nat (length avail)) unavail b]> B) L lk' R P G'.
Proof using Hp.
  intros HI Hlk Elk HR HS Ea Hb Hsl' S' Hnd' Hav' Hun' Hin' Hem' Hus'.
  pose proof (size_at_in _ _ _ _ (so_size _ _ _ _ Hsl')) as Ha. simpl in Ha. rewrite Ea in Ha.
  destruct (pi_buckets _ _ _ _ _ _ _ _ _ _ _ HI a Ha) as (b0 & Hb0 & Hok). rewrite Hb in Hb0. injection Hb0 as <-.
  destruct (pi_slabs _ _ _ _ _ _ _ _ _ _ _ HI m x HR) as (Hx0 & sl0 & z0 & HS0 & Em & Hsl & HPm). rewrite HS in HS0. injection HS0 as <-.
  assert (forall y full, listed S R a y full -> y <> x -> listed S' R a y full) as Hli.
  { intros y full (sly & HSy & Hay & HRy & Hf) Hy. exists sly. unfold S'. by rewrite lookup_insert_ne. }
  assert (S' !! x = Some (with_chunks n ws sl)) as HSx by apply lookup_insert_eq.
  apply (pinv_update S S' B L L lk lk' R R P P G G' a); [done|done|..|done].
  - intros y sly HSy Hby HRy. split; [|done]. unfold S'. rewrite lookup_insert_ne; [done|]. intros <-. congruence.
  - intros m' y sly HRy HSy Hby. split; [done|]. unfold S' in HSy. rewrite lookup_insert_ne in HSy; [done|]. intros <-.
    rewrite lookup_insert_eq in HSy. injection HSy as <-. done.
  - destruct Hok as [Hz Hpo Hl Hlock Hnd Hnum Hav Hun Hem Hch]. split; simpl; rewrite ?Elk; try done.
    + intros y Hy. destruct (Hav' y Hy) as [[-> Hn]|[Hne Hy']]; [|by apply Hli, Hne; apply Hav]. exists (with_chunks n ws sl).
      split_and!; [done|done|simpl; by rewrite Em|]. by apply Z.ltb_lt.
    + intros y Hy. destruct (Hun' y Hy) as [[-> Hn]|[Hne Hy']]; [|by apply Hli, Hne; apply Hun]. exists (with_chunks n ws sl).
      split_and!; [done|done|simpl; by rewrite Em|]. by apply Z.ltb_ge.
  - intros m' y sly HRy HSy Hby. simpl. apply Hin'. destruct (decide (y = x)) as [->|Hne].
    + apply (pi_full _ _ _ _ _ _ _ _ _ _ _ HI m x sl); [done..|]. by rewrite Ea.
    + unfold S' in HSy. rewrite lookup_insert_ne in HSy by done. apply (pi_full _ _ _ _ _ _ _ _ _ _ _ HI m' y sly); [done..|]. by rewrite Hby.
  - intros m' y HRy. destruct (decide (y = x)) as [->|Hne].
    + assert (m' = m) as -> by (eapply reg_inj; [apply HI|done..]). split; [done|]. exists (with_chunks n ws sl), z. done.
    + unfold S'. rewrite lookup_insert_ne by done. by apply HI.
  - destruct (pi_limits _ _ _ _ _ _ _ _ _ _ _ HI) as (l & Hl & Et & Hm). exists l. split; [done|]. by rewrite (pooled_same B a b).
Qed.

Lemma users_take S R P G m x sl z n ws i ptr : users_ok S R P G -> R !! m = Some x -> S !! x = Some sl ->
  size_at (slab_bucket sl) z -> 0 <= i < num_chunks_total sl -> chunk_free (chunks sl) i = true ->
  (forall j, 0 <= j -> chunk_free ws j = if j =? i then false else chunk_free (chunks sl) j) ->
  m + i * z <= ptr < m + (i + 1) * z -> ptr < m + smin p ->
  users_ok (<[x := with_chunks n ws sl]> S) R P (<[ptr := InChunk x m z i]> G).
Proof using.
  intros [Hc Hinj Hd] HR HS Hz Hi Hf Hws Hr Hend.
  assert (forall q m' z', G !! q <> Some (InChunk x m' z' i)) as Hno.
  { intros q m' z' HG. destruct (Hc _ _ _ _ _ HG) as (_ & sl' & HS' & _ & _ & Hf' & _). congruence. }
  split.
  - intros q y m' z' j. destruct (decide (ptr = q)) as [<-|Hne].
    + rewrite lookup_insert_eq. intros [= <- <- <- <-]. split; [done|]. exists (with_chunks n ws sl). rewrite lookup_insert_eq.
      split_and!; [done|done|simpl; lia..|simpl|lia|lia|lia]. by rewrite Hws, Z.eqb_refl by lia.
    + rewrite lookup_insert_ne by done. intros HG. destruct (Hc _ _ _ _ _ HG) as (HRy & sly & HSy & Hzy & Hj & Hfj & Hr1 & Hr2). split; [done|].
      destruct (decide (x = y)) as [<-|Hxy]; [|exists sly; by rewrite lookup_insert_ne].
      rewrite HS in HSy. injection HSy as <-. exists (with_chunks n ws sl). rewrite lookup_insert_eq. split_and!; [done|done|simpl; lia..|simpl|lia|lia|lia].
      rewrite Hws by lia. destruct (Z.eqb_spec j i) as [->|]; done.
  - intros p1 p2 y m1 m2 z1 z2 j. destruct (decide (ptr = p1)) as [<-|H1], (decide (ptr = p2)) as [<-|H2]; rewrite ?lookup_insert_eq, ?lookup_insert_ne by done; try done.
    + intros [= <- <- <- <-] HG. by destruct (Hno _ _ _ HG).
    + intros HG [= <- <- <- <-]. by destruct (Hno _ _ _ HG).
    + by apply Hinj.
  - intros q k. destruct (decide (ptr = q)) as [<-|Hne]; [by rewrite lookup_insert_eq|]. rewrite lookup_insert_ne by done. apply Hd.
Qed.

Lemma users_give S R P G m x sl z n ws i ptr : users_ok S R P G -> S !! x = Some sl -> G !! ptr = Some (InChunk x m z i) ->
  (forall j, 0 <= j -> chunk_free ws j = if j =? i then true else chunk_free (chunks sl) j) ->
  users_ok (<[x := with_chunks n ws sl]> S) R P (delete ptr G).
Proof using.
  intros [Hc Hinj Hd] HS HG Hws. split.
  - intros q y m' z' j [Hne HGq]%lookup_delete_Some. destruct (Hc _ _ _ _ _ HGq) as (HRy & sly & HSy & Hzy & Hj & Hfj & Hr1 & Hr2). split; [done|].
    destruct (decide (x = y)) as [<-|Hxy]; [|exists sly; by rewrite lookup_insert_ne].
    rewrite HS in HSy. injection HSy as <-. exists (with_chunks n ws sl). rewrite lookup_insert_eq. split_and!; [done|done|simpl; lia..|simpl|lia|lia|lia].
    rewrite Hws by lia. destruct (Z.eqb_spec j i) as [->|]; [|done]. exfalso. by apply Hne, (Hinj _ _ _ _ _ _ _ _ HG HGq).
  - intros p1 p2 y m1 m2 z1 z2 j [_ H1]%lookup_delete_Some [_ H2]%lookup_delete_Some. by apply (Hinj _ _ _ _ _ _ _ _ H1 H2).
  - intros q k [_ HGq]%lookup_delete_Some. by apply Hd.
Qed.

Lemma with_slabs_id b : with_slabs (available_slabs b) (available_slabs_num b) (unavailable_slabs b) b = b.
Proof using. by destruct b. Qed.

Lemma bucket_at S B L lk R P G a b : pinv S B L lk R P G -> a ∈ bs -> B !! a = Some b -> bucket_ok lk S R a b.
Proof using. intros HI Ha Hb. destruct (pi_buckets _ _ _ _ _ _ _ _ _ _ _ HI a Ha) as (b0 & Hb0 & Hok). congruence. Qed.

(** A list has no more slabs than there are. *)
Lemma avail_bound lk S R a b : bucket_ok lk S R a b -> (length (available_slabs b) <= size R)%nat.
Proof using.
  intros Hok. rewrite <- length_map_to_list, <- (length_fmap snd). apply submseteq_length, NoDup_submseteq.
  - pose proof (bk_nodup _ _ _ _ _ _ _ _ Hok) as Hnd. by apply NoDup_app in Hnd as [? _].
  - intros x Hx. apply (bk_avail _ _ _ _ _ _ _ _ Hok) in Hx as (sl & _ & _ & HR & _). apply list_elem_of_fmap. exists (mem_ptr sl, x).
    split; [done|]. by apply elem_of_map_to_list.
Qed.

(** What is known of a slab of the bucket [a]. *)
Lemma slab_at S B L lk R P G m x : pinv S B L lk R P G -> R !! m = Some x ->
  exists sl z b, S !! x = Some sl /\ mem_ptr sl = m /\ slab_ok sl z /\ P !! m = Some (slab_size sl) /\ slab_bucket sl ∈ bs /\
    B !! slab_bucket sl = Some b /\ bucket_size b = z /\ bucket_ok lk S R (slab_bucket sl) b.
Proof using Hp.
  intros HI HR. destruct (pi_slabs _ _ _ _ _ _ _ _ _ _ _ HI m x HR) as (_ & sl & z & HS & Em & Hsl & HPm).
  pose proof (size_at_in _ _ _ _ (so_size _ _ _ _ Hsl)) as Ha. destruct (pi_buckets _ _ _ _ _ _ _ _ _ _ _ HI _ Ha) as (b & Hb & Hok).
  exists sl, z, b. split_and!; try done. eapply size_at_fun; [done|apply Hok|apply Hsl].
Qed.

(** ** A chunk is taken *)

Lemma pinv_take S B L k R P G a b m x l sl z ws i ptr :
  pinv S B L (Some (a, k)) R P G -> B !! a = Some b -> available_slabs b = x :: l ->
  S !! x = Some sl -> R !! m = Some x -> mem_ptr sl = m -> slab_bucket sl = a -> slab_ok sl z ->
  0 <= i < num_chunks_total sl -> chunk_free (chunks sl) i = true -> words_ok (num_chunks_total sl) ws ->
  (forall j, 0 <= j -> chunk_free ws j = if j =? i then false else chunk_free (chunks sl) j) ->
  k <= (if num_chunks_allocated sl =? 0 then 1 else 0) -> m + i * z <= ptr < m + (i + 1) * z -> ptr < m + smin p ->
  let sl' := with_chunks (num_chunks_allocated sl + 1) ws sl in
  pinv (<[x := sl']> S)
    (if slab_has_avail sl' then B else <[a := with_slabs l (Z.of_nat (length l)) (x :: unavailable_slabs b) b]> B)
    L (Some (a, 0)) R P (<[ptr := InChunk x m z i]> G).
Proof using Hp.
  intros HI Hb Eav HS HR Em Ea Hsl Hi Hf Hw Hws Hk Hr Hend sl'. pose proof (size_at_in _ _ _ _ (so_size _ _ _ _ Hsl)) as Ha. rewrite Ea in Ha.
  pose proof (bucket_at _ _ _ _ _ _ _ _ _ HI Ha Hb) as [Hz Hpo Hl Hlock Hnd Hnum Hav Hun Hem Hch]. simpl in Hem. rewrite Z.eqb_refl in Hem.
  pose proof (nfree_clear _ _ _ _ Hi Hws Hf) as Hn. pose proof (so_count _ _ _ _ Hsl) as Hcnt.
  assert (slab_ok sl' z) as Hsl' by (apply slab_ok_chunks; [done|done|lia]).
  assert (users_ok (<[x := sl']> S) R P (<[ptr := InChunk x m z i]> G)) as Hus by (eapply users_take; try done; [apply HI|apply Hsl]).
  pose proof (slab_count_range _ _ _ Hp _ _ Hsl) as Hrange. rewrite Eav in *.
  assert (x ∉ l ++ unavailable_slabs b) as Hxl by (by apply list.NoDup_cons in Hnd as [? _]). rewrite elem_of_app in Hxl.
  assert (nempty (<[x := sl']> S) l <= chunked_slabs_in_pool b) as Hnl.
  { rewrite nempty_insert by tauto. rewrite nempty_cons in Hem. unfold empty_slab in Hem at 1. rewrite HS in Hem. destruct (num_chunks_allocated sl =? 0); lia. }
  destruct (slab_has_avail sl') eqn:Eh.
  - assert (B = <[a := with_slabs (x :: l) (Z.of_nat (length (x :: l))) (unavailable_slabs b) b]> B) as ->.
    { symmetry. apply insert_id. rewrite <- Eav, Hb. f_equal. rewrite <- (with_slabs_id b) at 1. by rewrite Hnum, Eav. }
    apply Z.ltb_lt in Eh. simpl in Eh.
    apply (pinv_move S B L (Some (a, k)) (Some (a, 0)) R P G _ a b m x sl z); try done; [apply same_lk_some|..].
    + intros y [->|Hy]%elem_of_cons; [by left|right]. rewrite Eav. split; [intros ->; tauto|by right].
    + intros y Hy. right. split; [intros ->; tauto|done].
    + by rewrite Eav.
    + rewrite nempty_cons. unfold empty_slab at 1. rewrite lookup_insert_eq. simpl. rewrite (proj2 (Z.eqb_neq _ 0)), Z.eqb_refl by lia. fold sl'. lia.
  - apply Z.ltb_ge in Eh. simpl in Eh.
    apply (pinv_move S B L (Some (a, k)) (Some (a, 0)) R P G _ a b m x sl z); try done; [apply same_lk_some|..].
    + apply list.NoDup_cons in Hnd as [_ Hnd]. apply NoDup_app in Hnd as (? & Hd & ?). apply NoDup_app. split_and!; [done| |constructor; [tauto|done]].
      intros y Hy [->|Hy']%elem_of_cons; [tauto|by apply (Hd y)].
    + intros y Hy. right. rewrite Eav. split; [intros ->; tauto|by right].
    + intros y [->|Hy]%elem_of_cons; [by left|right]. split; [intros ->; tauto|done].
    + rewrite Eav. intros y. rewrite !elem_of_app, !elem_of_cons. tauto.
    + simpl. rewrite Z.eqb_refl. fold sl'. lia.
Qed.

(** ** A chunk is given back *)

Lemma pinv_give S B L R P G a b m x sl z ws i ptr :
  pinv S B L (Some (a, 0)) R P G -> B !! a = Some b -> G !! ptr = Some (InChunk x m z i) -> S !! x = Some sl -> R !! m = Some x ->
  slab_bucket sl = a -> slab_ok sl z -> 0 <= i < num_chunks_total sl -> chunk_free (chunks sl) i = false ->
  words_ok (num_chunks_total sl) ws -> (forall j, 0 <= j -> chunk_free ws j = if j =? i then true else chunk_free (chunks sl) j) ->
  let sl' := with_chunks (num_chunks_allocated sl - 1) ws sl in
  let lk' := Some (a, if num_chunks_allocated sl' =? 0 then 1 else 0) in
  (num_chunks_allocated sl' + 1 = num_chunks_total sl -> exists u1 u2, unavailable_slabs b = u1 ++ x :: u2 /\
     pinv (<[x := sl']> S) (<[a := with_slabs (x :: available_slabs b) (Z.of_nat (length (available_slabs b)) + 1) (u1 ++ u2) b]> B)
       L lk' R P (delete ptr G)) /\
  (num_chunks_allocated sl' + 1 <> num_chunks_total sl -> pinv (<[x := sl']> S) B L lk' R P (delete ptr G)).
Proof using Hp.
  intros HI Hb HG HS HR Ea Hsl Hi Hf Hw Hws sl' lk'. pose proof (size_at_in _ _ _ _ (so_size _ _ _ _ Hsl)) as Ha. rewrite Ea in Ha.
  pose proof (bucket_at _ _ _ _ _ _ _ _ _ HI Ha Hb) as [Hz Hpo Hl Hlock Hnd Hnum Hav Hun Hem Hch]. simpl in Hem. rewrite Z.eqb_refl in Hem.
  pose proof (nfree_set _ _ _ _ Hi Hws Hf) as Hn. pose proof (so_count _ _ _ _ Hsl) as Hcnt.
  assert (slab_ok sl' z) as Hsl' by (apply slab_ok_chunks; [done|done|lia]). pose proof (slab_count_range _ _ _ Hp _ _ Hsl') as Hrange. simpl in Hrange.
  pose proof (slab_count_range _ _ _ Hp _ _ Hsl) as Hrange0.
  assert (users_ok (<[x := sl']> S) R P (delete ptr G)) as Hus by (eapply users_give; [apply HI|done..]).
  assert (x ∈ available_slabs b ++ unavailable_slabs b) as Hin by (apply (pi_full _ _ _ _ _ _ _ _ _ _ _ HI m x sl); [done..|]; by rewrite Ea).
  assert (forall full, listed S R a x full -> slab_has_avail sl = negb full) as Hlst by (intros full Hlx; by destruct (listed_bucket _ _ _ _ _ _ Hlx HS) as (_ & _ & ?)).
  assert ((if empty_slab (<[x := sl']> S) x then 1 else 0) = slack lk' a) as Hsk.
  { unfold empty_slab. rewrite lookup_insert_eq. unfold lk'. simpl. by rewrite Z.eqb_refl. }
  split; intros Hfull; simpl in Hfull.
  - assert (x ∉ available_slabs b) as Hna. { intros Hx. apply Hav, Hlst in Hx. apply Z.ltb_lt in Hx. lia. }
    apply elem_of_app in Hin as [?|Hin]; [done|]. apply list_elem_of_split in Hin as (u1 & u2 & Eu). exists u1, u2. split; [done|].
    rewrite Eu in *. assert (NoDup (x :: available_slabs b ++ u1 ++ u2)) as Hnd'.
    { assert (x :: available_slabs b ++ u1 ++ u2 ≡ₚ available_slabs b ++ u1 ++ x :: u2) as ->; [|done]. rewrite !app_assoc. apply Permutation_middle. }
    assert (x ∉ u1 ++ u2) as Hxu. { apply list.NoDup_cons in Hnd' as [Hx _]. rewrite !elem_of_app in *. tauto. }
    replace (Z.of_nat (length (available_slabs b)) + 1) with (Z.of_nat (length (x :: available_slabs b))) by (simpl; lia).
    apply (pinv_move S B L (Some (a, 0)) lk' R P G _ a b m x sl z); try done; [apply same_lk_some|..].
    + intros y [->|Hy]%elem_of_cons; [left; split; [done|lia]|right]. split; [by intros ->|done].
    + intros y Hy. right. rewrite Eu. split; [by intros ->|]. rewrite !elem_of_app, elem_of_cons in *. tauto.
    + rewrite Eu. intros y. simpl. rewrite !elem_of_cons, !elem_of_app, elem_of_cons. tauto.
    + fold sl'. rewrite nempty_cons, nempty_insert by done. rewrite Hsk. lia.
  - assert (x ∉ unavailable_slabs b) as Hnu. { intros Hx. apply Hun, Hlst in Hx. apply Z.ltb_ge in Hx. lia. }
    apply elem_of_app in Hin as [Hin|?]; [|done]. apply list_elem_of_split in Hin as (l1 & l2 & El).
    assert (B = <[a := with_slabs (available_slabs b) (Z.of_nat (length (available_slabs b))) (unavailable_slabs b) b]> B) as ->.
    { symmetry. apply insert_id. rewrite <- Hnum, Hb. by rewrite with_slabs_id. }
    assert (x ∉ l1 ++ l2) as Hxl.
    { rewrite El in Hnd. apply NoDup_app in Hnd as (Hnd & _). assert (NoDup (x :: l1 ++ l2)) as Hnd' by (by rewrite Permutation_middle).
      by apply list.NoDup_cons in Hnd' as [? _]. }
    apply (pinv_move S B L (Some (a, 0)) lk' R P G _ a b m x sl z); try done; [apply same_lk_some|..].
    + intros y Hy. destruct (decide (y = x)) as [->|]; [left; split; [done|lia]|by right].
    + intros y Hy. right. split; [by intros ->|done].
    + fold sl'. rewrite El in *. rewrite nempty_middle in *. rewrite nempty_insert by done. rewrite Hsk.
      assert (0 <= if empty_slab S x then 1 else 0) by (destruct (empty_slab S x); lia). lia.
Qed.
End Steps.

(** The ranges of a provider. *)
Record ranges_ok (P : gmap Z Z) : Prop := {
  ra_wf : forall q n, P !! q = Some n -> 0 < q /\ 0 < n /\ q + n < two64;
  ra_apart : forall q1 q2 n1 n2, P !! q1 = Some n1 -> P !! q2 = Some n2 -> q1 < q2 -> q1 + n1 <= q2;
}.

(** The sizes that the users may use. *)
Definition uview (G : gmap Z place) : gmap Z Z := map_imap (fun ptr pl => Some (usable ptr pl)) G.

Lemma uview_lookup G ptr : uview G !! ptr = usable ptr <$> G !! ptr.
Proof. unfold uview. rewrite map_lookup_imap. by destruct (G !! ptr). Qed.

Lemma uview_insert G ptr pl : uview (<[ptr := pl]> G) = <[ptr := usable ptr pl]> (uview G).
Proof.
  apply map_eq. intros q. rewrite uview_lookup. destruct (decide (ptr = q)) as [<-|Hne]; [by rewrite !lookup_insert_eq|].
  rewrite !lookup_insert_ne by done. by rewrite uview_lookup.
Qed.

Lemma uview_delete G ptr : uview (delete ptr G) = delete ptr (uview G).
Proof.
  apply map_eq. intros q. rewrite uview_lookup. destruct (decide (ptr = q)) as [<-|Hne]; [by rewrite !lookup_delete_eq|].
  rewrite !lookup_delete_ne by done. by rewrite uview_lookup.
Qed.

Section Users.
Context (p : disjoint_pool_t) (pool : Z) (bs : list Z) (base : Z).
Hypothesis Hp : pool_ok p pool bs.
Implicit Types (S : slabs) (B : buckets_map) (L : limits_map) (R P : gmap Z Z) (G : gmap Z place) (lk : locked).
Abbreviation pinv := (pinv p pool bs base).

(** ** Memory directly from the provider *)

Lemma pinv_more S B L lk R P G q n : pinv S B L lk R P G -> P !! q = None -> pinv S B L lk R (<[q := n]> P) G.
Proof using.
  intros [Hs Hb Hf Hl [Hc Hi Hd]] HP. split; [|done|done|done|split; [done|done|]].
  - intros m x HR. destruct (Hs m x HR) as (Hx & sl & z & ? & ? & ? & HPm). split; [done|]. exists sl, z. split_and!; try done.
    rewrite lookup_insert_ne; [done|]. by intros ->; rewrite HP in HPm.
  - intros ptr k HG. destruct (Hd _ _ HG) as [HPp ?]. split; [|done]. rewrite lookup_insert_ne; [done|]. by intros ->; rewrite HP in HPp.
Qed.

(** A range that nobody uses may go. *)
Lemma pinv_less S B L lk R P G q : pinv S B L lk R P G -> R !! q = None -> (forall n, G !! q <> Some (Direct n)) ->
  pinv S B L lk R (delete q P) G.
Proof using.
  intros [Hs Hb Hf Hl [Hc Hi Hd]] HR HG. split; [|done|done|done|split; [done|done|]].
  - intros m x HRm. destruct (Hs m x HRm) as (Hx & sl & z & ? & ? & ? & HPm). split; [done|]. exists sl, z. split_and!; try done.
    rewrite lookup_delete_ne; [done|congruence].
  - intros ptr k HGp. destruct (Hd _ _ HGp) as [HPp ?]. split; [|done]. rewrite lookup_delete_ne; [done|]. intros ->. by apply (HG k).
Qed.

(** A range that the provider has not handed out is used by nobody. *)
Lemma unused S B L lk R P G q : pinv S B L lk R P G -> P !! q = None -> R !! q = None /\ forall n, G !! q <> Some (Direct n).
Proof using.
  intros HI HP. split.
  - destruct (R !! q) as [x|] eqn:HR; [|done]. destruct (pi_slabs _ _ _ _ _ _ _ _ _ _ _ HI q x HR) as (_ & sl & z & _ & _ & _ & HPq). congruence.
  - intros n HG. destruct (us_direct _ _ _ _ _ _ (pi_users _ _ _ _ _ _ _ _ _ _ _ HI) _ _ HG). congruence.
Qed.

Lemma pinv_direct S B L lk R P G q n : pinv S B L lk R P G -> P !! q = None -> pinv S B L lk R (<[q := n]> P) (<[q := Direct n]> G).
Proof using.
  intros HI HP. pose proof (pinv_more _ _ _ _ _ _ _ _ n HI HP) as [Hs Hb Hf Hl [Hc Hi Hd]]. split; [done..|]. split.
  - intros ptr x m z i. destruct (decide (q = ptr)) as [<-|Hne]; [by rewrite lookup_insert_eq|]. rewrite lookup_insert_ne by done. apply Hc.
  - intros p1 p2 x m1 m2 z1 z2 i. destruct (decide (q = p1)) as [<-|H1], (decide (q = p2)) as [<-|H2]; rewrite ?lookup_insert_eq, ?lookup_insert_ne by done; try done.
    apply Hi.
  - intros ptr k. destruct (decide (q = ptr)) as [<-|Hne].
    + rewrite !lookup_insert_eq. intros [= <-]. split; [done|]. destruct (R !! q) as [x|] eqn:HR; [|done].
      destruct (pi_slabs _ _ _ _ _ _ _ _ _ _ _ HI q x HR) as (_ & sl & z & _ & _ & _ & HPq). congruence.
    + rewrite (lookup_insert_ne G) by done. apply Hd.
Qed.

Lemma pinv_direct_free S B L lk R P G q n : pinv S B L lk R P G -> G !! q = Some (Direct n) -> pinv S B L lk R (delete q P) (delete q G).
Proof using.
  intros [Hs Hb Hf Hl [Hc Hi Hd]] HG. destruct (Hd _ _ HG) as [HPq HRq]. split; [|done|done|done|split].
  - intros m x HR. destruct (Hs m x HR) as (Hx & sl & z & ? & ? & ? & HPm). split; [done|]. exists sl, z. split_and!; try done.
    rewrite lookup_delete_ne; [done|]. congruence.
  - intros ptr x m z i [_ HGp]%lookup_delete_Some. by apply Hc.
  - intros p1 p2 x m1 m2 z1 z2 i [_ H1]%lookup_delete_Some [_ H2]%lookup_delete_Some. by apply (Hi _ _ _ _ _ _ _ _ H1 H2).
  - intros ptr k [Hne HGp]%lookup_delete_Some. rewrite lookup_delete_ne by done. by apply Hd.
Qed.

(** ** No two allocations overlap *)

(** Points of two chunks of a slab. *)
Lemma chunk_order m z i j p1 p2 : 0 < z -> m + i * z <= p1 < m + (i + 1) * z -> m + j * z <= p2 < m + (j + 1) * z ->
  i <> j -> p1 < p2 -> m + (i + 1) * z <= p2.
Proof using. intros Hz H1 H2 Hne Hlt. destruct (Z.lt_ge_cases i j); nia. Qed.

Lemma chunk_unique m z i j q : 0 < z -> m + i * z <= q < m + (i + 1) * z -> m + j * z <= q < m + (j + 1) * z -> i = j.
Proof using. intros Hz H1 H2. destruct (Z.lt_trichotomy i j) as [?|[?|?]]; [nia|done|nia]. Qed.

Definition container (ptr : Z) (pl : place) : Z := match pl with InChunk _ m _ _ => m | Direct _ => ptr end.

Lemma user_inside S B L lk R P G ptr pl : pinv S B L lk R P G -> ranges_ok P -> G !! ptr = Some pl ->
  exists n, P !! container ptr pl = Some n /\ container ptr pl <= ptr /\ 0 < usable ptr pl /\ ptr + usable ptr pl <= container ptr pl + n.
Proof using Hp.
  intros HI Hra HG. destruct (pi_users _ _ _ _ _ _ _ _ _ _ _ HI) as [Hc _ Hd]. destruct pl as [x m z i|n]; simpl.
  - destruct (Hc _ _ _ _ _ HG) as (HR & sl & HS & Hz & Hi & _ & Hr & _).
    destruct (slab_at _ _ _ _ Hp _ _ _ _ _ _ _ _ _ HI HR) as (sl' & z' & b & HS' & Em & Hsl & HP & _).
    rewrite HS in HS'. injection HS' as <-. pose proof (size_at_fun _ _ _ Hp _ _ _ Hz (so_size _ _ _ _ Hsl)) as <-.
    exists (slab_size sl). destruct (chunk_inside _ _ _ Hp _ _ _ Hsl Hi). pose proof (size_at_bounds _ _ _ Hp _ _ Hz). split_and!; [done|nia..].
  - destruct (Hd _ _ HG) as [HP _]. exists n. pose proof (ra_wf _ Hra _ _ HP). split_and!; [done|lia..].
Qed.

Lemma users_apart S B L lk R P G p1 p2 pl1 pl2 : pinv S B L lk R P G -> ranges_ok P ->
  G !! p1 = Some pl1 -> G !! p2 = Some pl2 -> p1 < p2 -> p1 + usable p1 pl1 <= p2.
Proof using Hp.
  intros HI Hra H1 H2 Hlt. destruct (user_inside _ _ _ _ _ _ _ _ _ HI Hra H1) as (n1 & HP1 & Hc1 & Hu1 & He1).
  destruct (user_inside _ _ _ _ _ _ _ _ _ HI Hra H2) as (n2 & HP2 & Hc2 & Hu2 & He2).
  destruct (Z.lt_trichotomy (container p1 pl1) (container p2 pl2)) as [Hl|[E|Hg]].
  - pose proof (ra_apart _ Hra _ _ _ _ HP1 HP2 Hl). lia.
  - destruct (pi_users _ _ _ _ _ _ _ _ _ _ _ HI) as [Hc Hinj Hd]. destruct pl1 as [x1 m1 z1 i1|k1], pl2 as [x2 m2 z2 i2|k2]; simpl in *; try subst m1.
    + destruct (Hc _ _ _ _ _ H1) as (HR1 & sl & HS & Hz1 & Hi1 & _ & Hr1 & _), (Hc _ _ _ _ _ H2) as (HR2 & sl' & HS' & Hz2 & Hi2 & _ & Hr2 & _).
      rewrite HR1 in HR2. injection HR2 as <-. rewrite HS in HS'. injection HS' as <-. pose proof (size_at_fun _ _ _ Hp _ _ _ Hz1 Hz2) as <-.
      assert (i1 <> i2) by (intros <-; pose proof (Hinj _ _ _ _ _ _ _ _ H1 H2); lia).
      pose proof (size_at_bounds _ _ _ Hp _ _ Hz1). pose proof (chunk_order m2 z1 i1 i2 p1 p2). lia.
    + destruct (Hc _ _ _ _ _ H1) as (HR1 & _). destruct (Hd _ _ H2) as [_ HR2]. congruence.
    + destruct (Hc _ _ _ _ _ H2) as (HR2 & _). destruct (Hd _ _ H1) as [_ HR1]. congruence.
    + lia.
  - pose proof (ra_apart _ Hra _ _ _ _ HP2 HP1 Hg). lia.
Qed.

(** A free chunk holds no pointer of a user. *)
Lemma free_chunk_fresh S B L lk R P G m x sl z i ptr : pinv S B L lk R P G -> ranges_ok P -> R !! m = Some x -> S !! x = Some sl ->
  slab_ok p bs sl z -> 0 <= i < num_chunks_total sl -> chunk_free (chunks sl) i = true -> m + i * z <= ptr < m + (i + 1) * z -> G !! ptr = None.
Proof using Hp.
  intros HI Hra HR HS Hsl Hi Hf Hr. destruct (G !! ptr) as [pl|] eqn:HG; [exfalso|done].
  destruct (slab_at _ _ _ _ Hp _ _ _ _ _ _ _ _ _ HI HR) as (sl' & z' & b & HS' & Em & _ & HP & _). rewrite HS in HS'. injection HS' as <-.
  pose proof (chunk_inside _ _ _ Hp _ _ _ Hsl Hi) as [Hin _]. pose proof (size_at_bounds _ _ _ Hp _ _ (so_size _ _ _ _ Hsl)) as Hz.
  destruct (user_inside _ _ _ _ _ _ _ _ _ HI Hra HG) as (n & HPc & Hc & Hu & He).
  assert (container ptr pl = m) as E.
  { destruct (Z.lt_trichotomy (container ptr pl) m) as [Hl|[E|Hg]]; [|done|].
    - pose proof (ra_apart _ Hra _ _ _ _ HPc HP Hl). nia.
    - pose proof (ra_apart _ Hra _ _ _ _ HP HPc Hg). nia. }
  destruct (pi_users _ _ _ _ _ _ _ _ _ _ _ HI) as [Hcu _ Hd]. destruct pl as [x' m' z2 j|k]; simpl in E.
  - subst m'. destruct (Hcu _ _ _ _ _ HG) as (HR' & sl' & HS' & Hz' & Hj & Hfj & Hrj & _). rewrite HR in HR'. injection HR' as <-.
    rewrite HS in HS'. injection HS' as <-. pose proof (size_at_fun _ _ _ Hp _ _ _ Hz' (so_size _ _ _ _ Hsl)) as ->.
    rewrite (chunk_unique m z i j ptr) in Hf by (done || lia). congruence.
  - destruct (Hd _ _ HG) as [_ HRn]. congruence.
Qed.
End Users.
