(* ===== verification/DisjointOps.v ===== *)
(** * Slabs and buckets of the disjoint pool

    The rules for the functions on slabs and buckets of
    src/pool/pool_disjoint.c.  [dinv] is the invariant of the whole state: [pinv]
    of the heaps, the critnib with the slabs, and the provider with the ranges [P];
    at most [n] calls of each have been made. *)

From S2P Require Import Prelude Utils HostMem CritQuery CritDelete CritSpec CritInsert CritRemove CritInv CritWorld.
From stdpp Require Import strings list.
From S2P Require Import Critnib Tracker PoolProvider DisjointPool DisjointSize DisjointInv DisjointSteps.
#[local] Open Scope Z_scope.

Lemma wp_if_assert {S A} (b : bool) (k : unit -> M S A) Q s : b = true -> wp (k tt) Q s -> wp (c_assert b ≫= k) Q s.
Proof. intros -> Hk. by apply wp_bind. Qed.

Section Ops.
Context `{HostAllocLaws H} `{PoolProviderLaws W}.
Context (p : disjoint_pool_t) (pool : Z) (bs : list Z) (base : Z).
Hypothesis Hp : pool_ok p pool bs.
Hypothesis Hbase : 0 <= base <= MAX_BASE.
Implicit Types (s : djstate H W) (R P : gmap Z Z) (G : gmap Z place) (lk : locked) (held : held_ref).
Abbreviation pinv := (pinv p pool bs base).
Abbreviation slab_ok := (slab_ok p bs).
Abbreviation size_at := (size_at p bs).
Abbreviation slab_bytes := (slab_bytes p).
Abbreviation same_lists := DisjointSteps.same_lists.

(** The objects of the pool. *)
Definition objs s R : Prop :=
  (forall m x, R !! m = Some x -> outer s x tag_slab) /\ (forall a, a ∈ bs -> outer s a tag_bucket) /\
  outer s pool tag_disjoint_pool /\ outer s (buckets p) tag_buckets /\ outer s (default_shared_limits p) tag_limits.

Record dinv s lk R held P G (n : Z) : Prop := {
  di_pool : exists c, dj_pool s = Some (pool, with_cur_pool_size c p);
  di_array : dj_arrays s !! buckets p = Some bs;
  di_known : known s R held n;
  di_prov : pp_rep (dj_world s) (provider p) P n;
  di_count : 0 <= n;
  di_size : Z.of_nat (size R) <= n;
  di_inv : pinv (dj_slabs s) (dj_buckets s) (dj_limits s) lk R P G;
  di_objs : objs s R;
}.

(** [k] more calls. *)
Definition room (n k : Z) : Prop := n + k + DELETED_LIFE < two64 /\ n + k <= pp_max.

Lemma prov_ranges w P n : pp_rep w (provider p) P n -> ranges_ok P.
Proof using.
  intros HP. split.
  - intros q k Hq. destruct (pp_wf _ _ _ _ _ _ HP Hq) as (? & ? & ? & _). done.
  - intros q1 q2 n1 n2. by apply (pp_apart _ _ _ _ q1 q2 n1 n2 HP).
Qed.

Lemma dinv_mono s lk R held P G n m : n <= m -> dinv s lk R held P G n -> dinv s lk R held P G m.
Proof using. intros Hle [? ? Hk Hpr ? ? ? ?]. split; try done; [by eapply known_mono|by eapply pp_mono|lia|lia]. Qed.

Lemma objs_ext s s' R : outer_same s s' -> objs s R -> objs s' R.
Proof using. intros Ho (O1 & O2 & O3 & O4 & O5). unfold outer_same in Ho. split_and!; intros; rewrite Ho; eauto. Qed.

(** Only the heaps and the statistics of the pool change. *)
Lemma dinv_heaps s s' lk lk' R held P G G' n : dinv s lk R held P G n ->
  dj_host s' = dj_host s -> dj_crit s' = dj_crit s -> dj_world s' = dj_world s -> dj_arrays s' = dj_arrays s ->
  (exists c, dj_pool s' = Some (pool, with_cur_pool_size c p)) ->
  pinv (dj_slabs s') (dj_buckets s') (dj_limits s') lk' R P G' -> dinv s' lk' R held P G' n.
Proof using.
  intros [? Ha Hk Hpr Hc ? ? Ho] Eh Ec Ew Ea Hpool Hpi. split; rewrite ?Ew, ?Ea; try done.
  - by apply (known_ext s).
  - apply (objs_ext s); [by apply outer_ext|done].
Qed.

(** A call of the critnib that leaves the slabs alone. *)
Lemma dinv_moved s s' lk R R' held held' P G n : dinv s lk R held P G n -> crit_moved s s' -> known s' R' held' (n + 1) ->
  pinv (dj_slabs s) (dj_buckets s) (dj_limits s) lk R' P G -> (forall m x, R' !! m = Some x -> outer s x tag_slab) ->
  Z.of_nat (size R') <= n + 1 -> dinv s' lk R' held' P G (n + 1).
Proof using.
  intros [? Ha Hk Hpr Hc Hsz ? (Ho1 & Ho)] [(h & k & ->) Hout] Hk' Hpi HR' Hsz'. split; try done.
  - simpl. eapply pp_mono; [done|lia].
  - lia.
  - by apply (objs_ext s).
Qed.

(** ** Loads *)

Lemma wp_load_pool s c (Q : disjoint_pool_t -> djstate H W -> Prop) :
  dj_pool s = Some (pool, with_cur_pool_size c p) -> Q (with_cur_pool_size c p) s -> wp (load_pool pool) Q s.
Proof using. intros E HQ. unfold load_pool. wp_step. rewrite E, Z.eqb_refl. by wp_step. Qed.

Lemma wp_load_bucket s a b (Q : bucket_t -> djstate H W -> Prop) : dj_buckets s !! a = Some b -> Q b s -> wp (load_bucket a) Q s.
Proof using. intros E HQ. unfold load_bucket. wp_step. by wp_step; [exact E|]. Qed.

Lemma wp_load_slab s x sl (Q : slab_t -> djstate H W -> Prop) : dj_slabs s !! x = Some sl -> Q sl s -> wp (load_slab x) Q s.
Proof using. intros E HQ. unfold load_slab. wp_step. by wp_step; [exact E|]. Qed.

Lemma wp_load_limits s l (Q : umf_disjoint_pool_shared_limits_t -> djstate H W -> Prop) : dj_limits s !! lim p = Some l -> Q l s -> wp (load_limits (lim p)) Q s.
Proof using. intros E HQ. unfold load_limits. wp_step. by wp_step; [exact E|]. Qed.

Lemma wp_bucket_ptr s q i a (Q : Z -> djstate H W -> Prop) : dj_arrays s !! buckets q = Some bs -> bs !! Z.to_nat i = Some a -> Q a s -> wp (load_bucket_ptr q i) Q s.
Proof using. intros E Ei HQ. unfold load_bucket_ptr. wp_step. wp_step; [exact E|]. by wp_step; [exact Ei|]. Qed.

Lemma wp_slab_min_size s b (Q : Z -> djstate H W -> Prop) : (exists c, dj_pool s = Some (pool, with_cur_pool_size c p)) -> bucket_pool b = pool ->
  Q (smin p) s -> wp (bucket_slab_min_size b) Q s.
Proof using. intros [c Hc] Eb HQ. unfold bucket_slab_min_size. rewrite Eb. apply wp_bind, (wp_load_pool _ c); [done|]. by wp_step. Qed.

Lemma wp_slab_alloc_size s b (Q : Z -> djstate H W -> Prop) : (exists c, dj_pool s = Some (pool, with_cur_pool_size c p)) -> bucket_pool b = pool ->
  Q (slab_bytes (bucket_size b)) s -> wp (bucket_slab_alloc_size b) Q s.
Proof using. intros Hc Hb HQ. unfold bucket_slab_alloc_size. apply wp_bind, wp_slab_min_size; [done..|]. by wp_step. Qed.

Lemma wp_slab_end s sl b (Q : Z -> djstate H W -> Prop) : (exists c, dj_pool s = Some (pool, with_cur_pool_size c p)) ->
  dj_buckets s !! slab_bucket sl = Some b -> bucket_pool b = pool -> is_u64 (mem_ptr sl + smin p) -> Q (mem_ptr sl + smin p) s -> wp (slab_get_end sl) Q s.
Proof using.
  intros Hc Hb Hbp Hu HQ. unfold slab_get_end. apply wp_bind, (wp_load_bucket _ _ b); [done|]. apply wp_bind, wp_slab_min_size; [done..|].
  wp_step. by rewrite add64_small.
Qed.

(** ** Locks *)

Lemma wp_lock_bucket s R held P G n a (Q : unit -> djstate H W -> Prop) : dinv s None R held P G n -> a ∈ bs ->
  (forall s', dj_slabs s' = dj_slabs s -> outer_same s s' -> dinv s' (Some (a, 0)) R held P G n -> Q tt s') -> wp (lock_bucket a) Q s.
Proof using Hp.
  intros HI Ha HQ. destruct (pi_buckets _ _ _ _ _ _ _ _ _ _ _ (di_inv _ _ _ _ _ _ _ HI) a Ha) as (b & Hb & Hok). unfold lock_bucket.
  apply wp_bind, (wp_load_bucket _ _ b); [done|]. pose proof (bk_lock _ _ _ _ _ _ _ _ Hok) as El. simpl in El.
  wp_step; [unfold utils_mutex_lock; by rewrite El|]. unfold store_bucket. wp_step. apply HQ; [done|done|].
  apply (dinv_heaps s _ None (Some (a, 0)) R held P G G n HI); [done..|apply HI|]. simpl.
  apply (pinv_same _ _ _ _ Hp (dj_slabs s) (dj_buckets s) (dj_limits s) None (Some (a, 0)) R P G a b); [apply HI|done|done|done|apply same_lk_lock|..]; simpl; by rewrite Z.eqb_refl.
Qed.

Lemma wp_unlock_bucket s R held P G n a (Q : unit -> djstate H W -> Prop) : dinv s (Some (a, 0)) R held P G n -> a ∈ bs ->
  (forall s', dj_slabs s' = dj_slabs s -> outer_same s s' -> dinv s' None R held P G n -> Q tt s') -> wp (unlock_bucket a) Q s.
Proof using Hp.
  intros HI Ha HQ. destruct (pi_buckets _ _ _ _ _ _ _ _ _ _ _ (di_inv _ _ _ _ _ _ _ HI) a Ha) as (b & Hb & Hok). unfold unlock_bucket.
  apply wp_bind, (wp_load_bucket _ _ b); [done|]. pose proof (bk_lock _ _ _ _ _ _ _ _ Hok) as El. simpl in El. rewrite Z.eqb_refl in El.
  wp_step; [unfold utils_mutex_unlock; by rewrite El|]. unfold store_bucket. wp_step. apply HQ; [done|done|].
  apply (dinv_heaps s _ (Some (a, 0)) None R held P G G n HI); [done..|apply HI|]. simpl.
  apply (pinv_same _ _ _ _ Hp (dj_slabs s) (dj_buckets s) (dj_limits s) (Some (a, 0)) None R P G a b); [apply HI|done|done|done|apply same_lk_unlock|..]; simpl; by rewrite ?Z.eqb_refl.
Qed.

(** ** Statistics *)

(** Statistics of the bucket [a] changed. *)
Lemma dinv_stats s s' lk R held P G n a b b' : dinv s lk R held P G n -> a ∈ bs -> dj_buckets s !! a = Some b ->
  dj_buckets s' = <[a := b']> (dj_buckets s) -> same_lists b b' -> bucket_lock b' = bucket_lock b ->
  dj_host s' = dj_host s -> dj_crit s' = dj_crit s -> dj_world s' = dj_world s -> dj_arrays s' = dj_arrays s ->
  dj_slabs s' = dj_slabs s -> dj_limits s' = dj_limits s ->
  (exists c, dj_pool s' = Some (pool, with_cur_pool_size c p)) -> dinv s' lk R held P G n.
Proof using Hp.
  intros HI Ha Hb Eb Hsame Hlock Eh Ec Ew Ea Es El Hpool. apply (dinv_heaps s s' lk lk R held P G G n HI); try done.
  rewrite Es, El, Eb. apply (pinv_same _ _ _ _ Hp (dj_slabs s) (dj_buckets s) (dj_limits s) lk lk R P G a b); try done; [apply HI|].
  pose proof (bucket_at _ _ _ _ _ _ _ _ _ _ _ _ _ (di_inv _ _ _ _ _ _ _ HI) Ha Hb) as Hok. rewrite Hlock. apply Hok.
Qed.

Lemma wp_bucket_stats s lk R held P G n a u v (Q : unit -> djstate H W -> Prop) : dinv s lk R held P G n -> a ∈ bs ->
  (forall s', dj_slabs s' = dj_slabs s -> dj_crit s' = dj_crit s -> dj_host s' = dj_host s ->
     (forall b, dj_buckets s !! a = Some b -> exists b', dj_buckets s' !! a = Some b' /\ same_lists b b') ->
     dinv s' lk R held P G n -> Q tt s') ->
  wp (bucket_update_stats a u v) Q s.
Proof using Hp.
  intros HI Ha HQ. destruct (pi_buckets _ _ _ _ _ _ _ _ _ _ _ (di_inv _ _ _ _ _ _ _ HI) a Ha) as (b & Hb & Hok). destruct (di_pool _ _ _ _ _ _ _ HI) as [c Hc].
  unfold bucket_update_stats. apply wp_bind, (wp_load_bucket _ _ b); [done|]. rewrite (bk_pool _ _ _ _ _ _ _ _ Hok).
  apply wp_bind, (wp_load_pool _ c); [done|]. destruct (pool_trace _ =? 0); [wp_step; apply HQ; [done..| |done]; intros b0 Hb0; by exists b0|].
  unfold store_bucket. wp_step. apply wp_bind, wp_slab_alloc_size; [by exists c|apply Hok|]. unfold store_pool. wp_step.
  apply HQ; [done..| |].
  - intros b0 Hb0. simpl. rewrite Hb in Hb0. injection Hb0 as <-. rewrite lookup_insert_eq. by eexists.
  - eapply (dinv_stats s _ lk R held P G n a b); [done..|by eexists].
Qed.

(** ** Slabs *)

(** The provider returns a range that is new. *)
Lemma wp_prov_alloc s P n size al old (Q : umf_result_t * Z -> djstate H W -> Prop) :
  pp_rep (dj_world s) (provider p) P n -> n < pp_max -> 0 < size < two64 -> al = 0 \/ pow2 al ->
  (forall r w, r.1 <> UMF_RESULT_SUCCESS -> pp_rep w (provider p) P (n + 1) -> Q r (with_dj_world w s)) ->
  (forall m w, P !! m = None -> (al <> 0 -> m mod al = 0) -> pp_rep w (provider p) (<[m := size]> P) (n + 1) ->
     Q (UMF_RESULT_SUCCESS, m) (with_dj_world w s)) ->
  wp (on_world (umfMemoryProviderAlloc (provider p) size al old)) Q s.
Proof using.
  intros HP Hn Hs Hal Hfail Hok. pose proof (pp_alloc _ _ _ _ size al old HP Hn (proj1 Hs) (proj2 Hs) Hal) as Hw.
  unfold wp, on_world in *. destruct (umfMemoryProviderAlloc _ _ _ _ _) as [[[r m] w]|]; [|done]. simpl in Hw.
  destruct Hw as [[Hr HP']|(-> & Hap & Hm & HP')]; [by apply Hfail|]. apply Hok; [|done|done].
  destruct (P !! m) as [k|] eqn:E; [exfalso|done]. specialize (Hap _ _ E). pose proof (ra_wf _ (prov_ranges _ _ _ HP) _ _ E). lia.
Qed.

Lemma wp_prov_free s P n m size (Q : umf_result_t -> djstate H W -> Prop) :
  pp_rep (dj_world s) (provider p) P n -> n < pp_max -> P !! m = Some size ->
  (forall r w P', pp_rep w (provider p) P' (n + 1) -> (r = UMF_RESULT_SUCCESS /\ P' = delete m P) \/ (r <> UMF_RESULT_SUCCESS /\ P' = P) -> Q r (with_dj_world w s)) ->
  wp (on_world (umfMemoryProviderFree (provider p) m size)) Q s.
Proof using.
  intros HP Hn Hm HQ. pose proof (pp_free _ _ _ _ _ _ HP Hn Hm) as Hw. unfold wp, on_world in *.
  destruct (umfMemoryProviderFree _ _ _ _) as [[r w]|]; [|done]. destruct Hw as [[Hr HP']|[-> HP']]; eapply HQ; eauto.
Qed.

Lemma wp_destroy_slab s P n x sl b (Q : unit -> djstate H W -> Prop) :
  (exists c, dj_pool s = Some (pool, with_cur_pool_size c p)) -> dj_slabs s !! x = Some sl -> dj_buckets s !! slab_bucket sl = Some b ->
  bucket_pool b = pool -> pp_rep (dj_world s) (provider p) P n -> n < pp_max -> P !! mem_ptr sl = Some (slab_size sl) ->
  (forall w P', pp_rep w (provider p) P' (n + 1) -> P' = delete (mem_ptr sl) P \/ P' = P -> Q tt (with_dj_world w s)) ->
  wp (destroy_slab x) Q s.
Proof using.
  intros [c Hc] Hx Hb Ebp HP Hn Hm HQ. unfold destroy_slab. apply wp_bind, (wp_load_slab _ _ sl); [done|].
  apply wp_bind, (wp_load_bucket _ _ b); [done|]. rewrite Ebp. apply wp_bind, (wp_load_pool _ c); [done|].
  apply wp_bind, (wp_prov_free _ P n); [done..|]. intros r w P' HP' Hcase. wp_step. apply (HQ w P'); [done|]. destruct Hcase as [[_ ->]|[_ ->]]; [by left|by right].
Qed.

(** A slab that [create_slab] returns. *)
Record fresh_slab s (a x : Z) R P P' : Prop := {
  fs_nonnull : x <> 0;
  fs_unreg : forall m, R !! m <> Some x;
  fs_outer : outer s x tag_slab;
  fs_slab : exists sl z, dj_slabs s !! x = Some sl /\ slab_ok sl z /\ slab_bucket sl = a /\ num_chunks_allocated sl = 0 /\
    P !! mem_ptr sl = None /\ P' = <[mem_ptr sl := slab_size sl]> P;
}.

Lemma wp_alloc_obj s R held n tg size (Q : Z -> djstate H W -> Prop) : known s R held n ->
  (forall h, let s' := with_dj_host h s in known s' R held n -> outer_same s s' -> Q 0 s') ->
  (forall x h, let s' := with_dj_host h s in x <> 0 -> known s' R held n -> outer s' x tg -> (forall tg', ~ outer s x tg') ->
     (forall a tg', a <> x -> outer s' a tg' <-> outer s a tg') -> Q x s') ->
  wp (dj_alloc tg size) Q s.
Proof using H1.
  intros (k & V & Ek & Hat & Hsh) Hnone Hsome. unfold dj_alloc. wp_step. destruct (umf_ba_global_alloc tg size (dj_host s)) as [[x|] h] eqn:Ea.
  - wp_step. wp_step. simpl. pose proof (ba_alloc_nonnull _ _ _ _ _ Ea) as Hx. pose proof (ba_alloc_some _ _ _ _ _ Ea) as [Hnew El].
    assert (~ owns k x) as Hno. { intros [tg' Ho]. by rewrite (crit_live _ _ _ _ _ _ Hat Ho) in Hnew. }
    apply Hsome; [done|..].
    + exists k, V. split_and!; [done| |done]. simpl. apply (crit_frame (dj_host s)); [done|]. intros a Ha. rewrite El, lookup_insert_ne; [done|]. by intros ->.
    + split; simpl; [by rewrite El, lookup_insert_eq|]. intros k'. rewrite Ek. by intros [= <-].
    + intros tg' [Hl _]. congruence.
    + intros a tg' Hne. unfold outer. simpl. by rewrite El, lookup_insert_ne.
  - wp_step. wp_step. simpl. pose proof (ba_alloc_none _ _ _ _ Ea) as El. apply Hnone.
    + exists k, V. split_and!; [done| |done]. simpl. apply (crit_frame (dj_host s)); [done|]. intros a Ha. by rewrite El.
    + intros a tg'. unfold outer. simpl. by rewrite El.
Qed.

(** The slab that [create_slab] fills. *)
Lemma new_slab_ok a z m : size_at a z ->
  let total := utils_max (smin p / z) 1 in
  let words := sub64 (add64 total CHUNK_BITMAP_SIZE) 1 / CHUNK_BITMAP_SIZE in
  slab_ok (mk_slab m (slab_bytes z) total words 0 a (new_chunks total words)) z.
Proof using Hp.
  intros Hz total words. pose proof (size_at_bounds _ _ _ Hp _ _ Hz) as Hzb. pose proof (po_min _ _ _ Hp) as Hmin.
  assert (0 < total <= 2 ^ 32) as Ht.
  { unfold total. rewrite utils_max_eq. assert (smin p / z <= smin p) by (apply Z.div_le_upper_bound; nia). lia. }
  assert (words = (total + 63) / 64) as Ew.
  { unfold words, CHUNK_BITMAP_SIZE. rewrite add64_small, sub64_small; [f_equal; lia|unfold is_u64, two64; lia|unfold is_u64, two64; lia]. }
  rewrite Ew. destruct (new_chunks_ok total) as [Hw Hn]; [lia|unfold two64; lia|]. split; simpl; try done. rewrite Hn. lia.
Qed.

Lemma objs_fresh s R x : objs s R -> (forall tg, ~ outer s x tg) -> forall m, R !! m <> Some x.
Proof using. intros (Ho & _) Hx m HR. by apply (Hx tag_slab), (Ho m). Qed.

(** The state after an object [x] that was fresh in [s] was filled. *)
Lemma dinv_slab_added s s' lk R held P P' G n x : dinv s lk R held P G n -> (forall tg, ~ outer s x tg) ->
  (forall a tg, a <> x -> outer s' a tg <-> outer s a tg) -> known s' R held (n + 1) -> pp_rep (dj_world s') (provider p) P' (n + 1) ->
  dj_pool s' = dj_pool s -> dj_arrays s' = dj_arrays s -> dj_buckets s' = dj_buckets s -> dj_limits s' = dj_limits s ->
  (forall y, y <> x -> dj_slabs s' !! y = dj_slabs s !! y) -> pinv (dj_slabs s) (dj_buckets s) (dj_limits s) lk R P' G ->
  dinv s' lk R held P' G (n + 1).
Proof using.
  intros [Hpo Ha Hk Hpr Hc Hsz Hpi Hob] Hx Ho Hk' Hpr' Epo Ea Eb El Es HI'. split; rewrite ?Epo, ?Ea, ?Eb, ?El; try done; [lia|lia|..].
  - apply (pinv_slabs_ext p pool bs base (dj_slabs s)); [done|]. intros m y HR. apply Es. intros ->. by apply (objs_fresh s R x Hob Hx m).
  - destruct Hob as (O1 & O2 & O3 & O4 & O5).
    assert (forall a tg, outer s a tg -> outer s' a tg) as Hkeep by (intros a tg Hou; apply Ho; [intros ->; by apply (Hx tg)|done]).
    split_and!; eauto.
Qed.

Lemma wp_create_slab s R P G n a b (Q : Z -> djstate H W -> Prop) :
  dinv s (Some (a, 0)) R None P G n -> a ∈ bs -> dj_buckets s !! a = Some b -> room n 1 ->
  (forall s', dj_buckets s' = dj_buckets s -> dinv s' (Some (a, 0)) R None P G (n + 1) -> Q 0 s') ->
  (forall s' x P', dj_buckets s' = dj_buckets s -> fresh_slab s' a x R P P' -> dinv s' (Some (a, 0)) R None P' G (n + 1) -> Q x s') ->
  wp (create_slab a) Q s.
Proof using Hp H1 Hbase.
  intros HI Ha Hb [_ Hn] Hnone Hsome. destruct (di_pool _ _ _ _ _ _ _ HI) as [c Hc].
  pose proof (bucket_at _ _ _ _ _ _ _ _ _ _ _ _ _ (di_inv _ _ _ _ _ _ _ HI) Ha Hb) as Hok. pose proof (bk_size _ _ _ _ _ _ _ _ Hok) as Hz.
  destruct (size_at_bounds _ _ _ Hp _ _ Hz) as [Hz8 _]. destruct (slab_bytes_bounds _ _ _ Hp _ _ Hz) as (Hb1 & Hb2 & Hb3).
  unfold create_slab. apply wp_if_assert.
  { rewrite (proj2 (Z.eqb_neq a 0)); [done|]. intros ->. by apply (po_bs_nonnull _ _ _ Hp). }
  apply wp_bind, (wp_load_bucket _ _ b); [done|]. rewrite (bk_pool _ _ _ _ _ _ _ _ Hok). apply wp_bind, (wp_load_pool _ c); [done|].
  apply wp_bind, wp_slab_min_size; [by exists c|apply Hok|]. apply wp_if_assert; [by rewrite (proj2 (Z.eqb_neq _ 0)) by lia|].
  apply wp_bind, (wp_alloc_obj s R None n); [apply HI|..].
  { intros h s' Hk' Ho'. rewrite Z.eqb_refl. wp_step. apply Hnone; [done|]. apply (dinv_mono _ _ _ _ _ _ n); [lia|].
    destruct HI as [? ? ? ? ? ? ? Hob]. split; try done. by apply (objs_ext s). }
  intros x h s1 Hx Hk1 Hox Hfr Hout. rewrite (proj2 (Z.eqb_neq _ _) Hx). apply wp_bind, wp_slab_alloc_size; [by exists c|apply Hok|].
  unfold store_slab. wp_step. apply wp_bind, (wp_prov_alloc _ P n); [apply HI|lia|unfold two64; lia|by left|..].
  - intros r w Hr HP'. destruct r as [r m0]. cbv beta iota zeta. wp_step. rewrite bool_decide_false by done. unfold dj_free. rewrite (proj2 (Z.eqb_neq _ _) Hx).
    wp_step. wp_step. wp_step. match goal with |- Q 0 ?s => set (s2 := s) end. apply Hnone; [done|].
    destruct (known_free s1 R None n x tag_slab Hox Hk1) as [Hkf Hof].
    apply (dinv_slab_added s s2 _ R None P P G n x); try done.
    + intros a' tg Hne. etrans; [apply (Hof a' tg)|]. rewrite Hout by done. naive_solver.
    + apply (known_mono _ _ _ n); [lia|]. done.
    + intros y Hy. unfold s2. simpl. by rewrite lookup_delete_ne, !lookup_insert_ne.
    + apply HI.
  - intros m w HPm _ HP'. cbv beta iota zeta. wp_step. rewrite bool_decide_true by done. wp_step. match goal with |- Q x ?s => set (s2 := s) end.
    eapply Hsome; [done| |].
    + split; [done|exact (objs_fresh s R x (di_objs _ _ _ _ _ _ _ HI) Hfr)|done|]. eexists _, (bucket_size b). split; [unfold s2; simpl; by rewrite lookup_insert_eq|].
      split_and!; [by apply new_slab_ok|done..].
    + simpl. apply (dinv_slab_added s s2 _ R None P _ G n x); try done.
      * apply (known_mono _ _ _ n); [lia|]. done.
      * intros y Hy. unfold s2. simpl. by rewrite !lookup_insert_ne.
      * apply pinv_more; [apply HI|done].
Qed.

(** ** A bucket gets a slab *)

(** The first available slab of the bucket after [bucket_get_avail_slab]. *)
Definition first_slab s (a : Z) lk R (x : Z) : Prop :=
  exists b l sl, dj_buckets s !! a = Some b /\ available_slabs b = x :: l /\ dj_slabs s !! x = Some sl /\
    lk = Some (a, if num_chunks_allocated sl =? 0 then 1 else 0).

Lemma wp_register s lk R P G n x sl (Q : umf_result_t -> djstate H W -> Prop) :
  dinv s lk R None P G n -> room n 1 -> dj_slabs s !! x = Some sl -> x <> 0 -> is_u64 (mem_ptr sl) -> R !! mem_ptr sl = None ->
  (forall r s', r <> UMF_RESULT_SUCCESS -> crit_moved s s' -> known s' R None (n + 1) -> Q r s') ->
  (forall s', crit_moved s s' -> known s' (<[mem_ptr sl := x]> R) None (n + 1) -> Q UMF_RESULT_SUCCESS s') ->
  wp (pool_register_slab pool x) Q s.
Proof using H1.
  intros HI [Hr _] Hx Hx0 Hu HR Hfail Hok. unfold pool_register_slab. apply wp_bind, (wp_load_slab _ _ sl); [done|]. apply wp_bind.
  unfold slab_get. apply (wp_insert_slab s R n); [apply HI|apply HI|lia|done|done|done|..].
  - intros s' Hmv Hk. wp_step. by apply Hfail.
  - intros s' Hmv Hk. wp_step. by apply Hok.
Qed.

Lemma wp_bucket_create_slab s R P G n a b (Q : Z -> djstate H W -> Prop) :
  dinv s (Some (a, 0)) R None P G n -> a ∈ bs -> dj_buckets s !! a = Some b -> room n 3 ->
  (forall s' P', dj_buckets s' = dj_buckets s -> dinv s' (Some (a, 0)) R None P' G (n + 3) -> Q 0 s') ->
  (forall s' x m R' P', R !! m = None -> R' = <[m := x]> R -> first_slab s' a (Some (a, 1)) R' x -> dinv s' (Some (a, 1)) R' None P' G (n + 2) -> Q x s') ->
  wp (bucket_create_slab a) Q s.
Proof using Hp H1 Hbase.
  intros HI Ha Hb [Hr1 Hr2] Hnone Hsome. pose proof (bucket_at _ _ _ _ _ _ _ _ _ _ _ _ _ (di_inv _ _ _ _ _ _ _ HI) Ha Hb) as Hok.
  unfold bucket_create_slab. apply wp_bind, (wp_create_slab s R P G n a b); [done..|split; lia| |].
  { intros s' Eb HI'. rewrite Z.eqb_refl. wp_step. apply (Hnone s' P); [done|]. by apply (dinv_mono _ _ _ _ _ _ (n + 1)); [lia|]. }
  intros s1 x P1 Eb [Hx0 Hunr Hox (sl & z & Hx & Hsl & Ea & Ec & HPm & EP)] HI1. rewrite (proj2 (Z.eqb_neq _ _) Hx0).
  apply wp_bind, (wp_load_bucket _ _ b); [by rewrite Eb|]. rewrite (bk_pool _ _ _ _ _ _ _ _ Hok).
  destruct (unused _ _ _ _ _ _ _ _ _ _ _ _ (di_inv _ _ _ _ _ _ _ HI) HPm) as [HRm HGm].
  assert (P1 !! mem_ptr sl = Some (slab_size sl)) as HP1 by (by rewrite EP, lookup_insert_eq).
  assert (delete (mem_ptr sl) P1 = P) as EP' by (rewrite EP; by rewrite delete_insert_id).
  pose proof (ra_wf _ (prov_ranges _ _ _ (di_prov _ _ _ _ _ _ _ HI1)) _ _ HP1) as Hm.
  apply wp_bind, (wp_register s1 (Some (a, 0)) R P1 G (n + 1) x sl); [done|split; lia|done|done|unfold is_u64; lia|done|..].
  - intros r s2 Hr Hmv Hk. rewrite bool_decide_false by done. simpl.
    pose proof (dinv_moved _ _ _ R _ _ None _ _ _ HI1 Hmv Hk (di_inv _ _ _ _ _ _ _ HI1) (proj1 (di_objs _ _ _ _ _ _ _ HI1))
      ltac:(pose proof (di_size _ _ _ _ _ _ _ HI1); lia)) as HI2.
    destruct Hmv as [(h & k & ->) _]. apply wp_bind. rewrite <- Ea, <- Eb in Hb.
    apply (wp_destroy_slab _ P1 (n + 1 + 1) x sl b); [apply HI2|done|done|apply Hok|apply HI2|lia|done|].
    intros w P' HP' Hcase. wp_step. apply (Hnone _ P'); [done|]. replace (n + 3) with (n + 1 + 1 + 1) by lia.
    destruct HI2 as [Hpo Har Hkn Hpr Hcn Hsz Hpi2 Hob]. split; try done; [by apply (known_mono _ _ _ (n + 1 + 1)); [lia|]|lia|lia|].
    destruct Hcase as [->| ->]; [|done]. by apply pinv_less.
  - intros s2 Hmv Hk. rewrite bool_decide_true by done. simpl. destruct Hmv as [(h & k & ->) Hout].
    apply wp_bind, (wp_load_bucket _ _ b); [simpl; by rewrite Eb|]. unfold store_bucket. wp_step. apply wp_bind.
    pose proof (pinv_less _ _ _ _ _ _ _ _ _ _ _ _ (di_inv _ _ _ _ _ _ _ HI1) HRm HGm) as Hpi. rewrite EP' in Hpi.
    pose proof (pinv_new_slab _ _ _ _ Hp _ _ _ _ _ _ a b (mem_ptr sl) x sl z Hpi ltac:(by rewrite Eb) Hsl Ea eq_refl Ec Hx0 HRm HPm Hunr) as Hnew.
    rewrite (insert_id (dj_slabs s1)) in Hnew by done. rewrite <- EP in Hnew.
    assert (add64 (available_slabs_num b) 1 = Z.of_nat (length (available_slabs b)) + 1) as En.
    { rewrite (bk_num _ _ _ _ _ _ _ _ Hok), add64_small; [done|]. pose proof (avail_bound _ _ _ _ _ _ _ _ Hok).
      pose proof (di_size _ _ _ _ _ _ _ HI). unfold is_u64, two64, DELETED_LIFE in *. lia. }
    match goal with |- wp _ _ ?s => set (s3 := s) end.
    assert (dinv s3 (Some (a, 1)) (<[mem_ptr sl := x]> R) None P1 G (n + 2)) as HI3.
    { destruct HI1 as [Hpo Har Hkn Hpr Hcn Hsz Hpi1 Hob]. replace (n + 2) with (n + 1 + 1) by lia. split; try done; simpl.
      - eapply pp_mono; [done|lia].
      - lia.
      - rewrite map_size_insert_None by done. pose proof (di_size _ _ _ _ _ _ _ HI). lia.
      - rewrite En, Eb. rewrite Eb in Hnew. done.
      - apply (objs_ext s1); [done|]. destruct Hob as (O1 & Ho). split; [|done]. intros m y. destruct (decide (mem_ptr sl = m)) as [<-|].
        + rewrite lookup_insert_eq. by intros [= <-].
        + rewrite lookup_insert_ne by done. apply O1. }
    apply (wp_bucket_stats s3 (Some (a, 1)) (<[mem_ptr sl := x]> R) None P1 G (n + 2)); [done|done|].
    intros s4 Es _ _ Hb4 HI4. wp_step. apply (Hsome s4 x (mem_ptr sl) _ P1 HRm eq_refl); [|done].
    destruct (Hb4 (with_slabs (x :: available_slabs b) (add64 (available_slabs_num b) 1) (unavailable_slabs b) b)) as (b' & Hb' & Hsame).
    { unfold s3. simpl. by rewrite lookup_insert_eq. }
    exists b', (available_slabs b), sl. split_and!; [done| |by rewrite Es|by rewrite Ec]. destruct Hsame as (_ & _ & _ & -> & _). done.
Qed.

Lemma wp_fetch_sub s l k (Q : Z -> djstate H W -> Prop) : dj_limits s !! lim p = Some l ->
  Q (total_size l) (with_dj_limits (<[lim p := mk_limits (max_size l) (sub64 (total_size l) k)]> (dj_limits s)) s) ->
  wp (fetch_and_sub_total (lim p) k) Q s.
Proof using.
  intros Hl HQ. unfold fetch_and_sub_total, store_total_size. apply wp_bind, (wp_load_limits _ l); [done|]. apply wp_bind.
  apply wp_bind, (wp_load_limits _ l); [done|]. wp_step. by wp_step.
Qed.

Lemma wp_fetch_add s l k (Q : Z -> djstate H W -> Prop) : dj_limits s !! lim p = Some l ->
  Q (total_size l) (with_dj_limits (<[lim p := mk_limits (max_size l) (add64 (total_size l) k)]> (dj_limits s)) s) ->
  wp (fetch_and_add_total (lim p) k) Q s.
Proof using.
  intros Hl HQ. unfold fetch_and_add_total, store_total_size. apply wp_bind, (wp_load_limits _ l); [done|]. apply wp_bind.
  apply wp_bind, (wp_load_limits _ l); [done|]. wp_step. by wp_step.
Qed.

(** What the limits say of the bucket [a]. *)
Lemma limits_at s lk R held P G n a b : dinv s lk R held P G n -> a ∈ bs -> dj_buckets s !! a = Some b ->
  exists l, dj_limits s !! lim p = Some l /\ chunked_slabs_in_pool b * slab_bytes (bucket_size b) <= total_size l /\
    total_size l <= max_size l < two64 /\ 0 <= total_size l <= 2 ^ 63 /\ 0 < slab_bytes (bucket_size b) <= 2 ^ 32 /\
    0 <= chunked_slabs_in_pool b <= MAX_POOLED.
Proof using Hp Hbase.
  intros HI Ha Hb. pose proof (di_inv _ _ _ _ _ _ _ HI) as Hpi. destruct (pi_limits _ _ _ _ _ _ _ _ _ _ _ Hpi) as (l & Hl & Et & Hm). exists l.
  pose proof (bucket_at _ _ _ _ _ _ _ _ _ _ _ _ _ Hpi Ha Hb) as Hok. pose proof (bk_chunked _ _ _ _ _ _ _ _ Hok) as Hc.
  destruct (slab_bytes_bounds _ _ _ Hp _ _ (bk_size _ _ _ _ _ _ _ _ Hok)) as (? & ? & ?). pose proof (po_min _ _ _ Hp).
  pose proof (pooled_bounds _ _ _ _ Hp _ _ _ _ _ _ _ Hpi) as Hpb. unfold MAX_POOLED, MAX_BASE in *.
  assert (chunked_slabs_in_pool b * slab_bytes (bucket_size b) <= pooled p (dj_buckets s) bs) as Hle.
  { pose proof (pooled_in_le _ _ _ _ Hp _ _ _ _ _ _ _ a Hpi Ha) as Hle. unfold pooled_in in Hle. by rewrite Hb in Hle. }
  split_and!; try done; lia.
Qed.

(** An empty slab is taken out of the pool. *)
Lemma wp_unpool s R P G n a b x l sl (Q : bool -> djstate H W -> Prop) :
  dinv s (Some (a, 0)) R None P G n -> a ∈ bs -> dj_buckets s !! a = Some b -> available_slabs b = x :: l ->
  dj_slabs s !! x = Some sl -> num_chunks_allocated sl = 0 ->
  (forall s' b', dj_buckets s' !! a = Some b' -> available_slabs b' = x :: l -> dj_slabs s' = dj_slabs s ->
     dinv s' (Some (a, 1)) R None P G n -> Q true s') ->
  wp (_ ← c_assert (0 <? chunked_slabs_in_pool b);
      _ ← store_bucket a (with_chunked (sub64 (chunked_slabs_in_pool b) 1) b);
      size_to_sub ← bucket_slab_alloc_size b;
      old_size ← fetch_and_sub_total (bucket_limits b) size_to_sub;
      _ ← c_assert (size_to_sub <=? old_size);
      _ ← bucket_update_stats a 1 (-1);
      mret true) Q s.
Proof using Hp H1 Hbase.
  intros HI Ha Hb Eav Hx Hc HQ. pose proof (bucket_at _ _ _ _ _ _ _ _ _ _ _ _ _ (di_inv _ _ _ _ _ _ _ HI) Ha Hb) as Hok.
  destruct (limits_at _ _ _ _ _ _ _ _ _ HI Ha Hb) as (li & Hl & Hle & Hm & Ht & Hsb & Hch).
  assert (0 < chunked_slabs_in_pool b) as Hpos.
  { pose proof (bk_empty _ _ _ _ _ _ _ _ Hok) as He. rewrite Eav, nempty_cons in He. unfold empty_slab in He at 1. rewrite Hx, Hc in He.
    simpl in He. rewrite Z.eqb_refl in He. pose proof (nempty_nonneg (dj_slabs s) l). lia. }
  unfold MAX_POOLED in *. apply wp_if_assert; [by apply Z.ltb_lt|]. unfold store_bucket. wp_step.
  apply wp_bind, wp_slab_alloc_size; [apply HI|apply Hok|]. rewrite (bk_limits _ _ _ _ _ _ _ _ Hok). apply wp_bind, (wp_fetch_sub _ li); [done|].
  apply wp_if_assert; [apply Z.leb_le; nia|]. match goal with |- wp _ _ ?s => set (s1 := s) end.
  assert (dinv s1 (Some (a, 1)) R None P G n) as HI1.
  { apply (dinv_heaps s s1 (Some (a, 0)) (Some (a, 1)) R None P G G n HI); try done; [apply HI|]. unfold s1. simpl.
    rewrite (sub64_small (chunked_slabs_in_pool b) 1), (sub64_small (total_size li)) by (unfold is_u64, two64; nia).
    apply (pinv_chunked _ _ _ _ Hp _ _ (dj_limits s) _ 0 1 R P G a b (chunked_slabs_in_pool b - 1) li); try done; [apply HI|unfold MAX_POOLED; lia|lia| |lia].
    do 2 f_equal. lia. }
  apply wp_bind, (wp_bucket_stats s1 (Some (a, 1)) R None P G n); [done|done|]. intros s2 Es _ _ Hb2 HI2. wp_step.
  destruct (Hb2 (with_chunked (sub64 (chunked_slabs_in_pool b) 1) b)) as (b' & Hb' & Hsame); [unfold s1; simpl; by rewrite lookup_insert_eq|].
  apply (HQ s2 b'); [done| |by rewrite Es|done]. destruct Hsame as (_ & _ & _ & -> & _). done.
Qed.

Lemma wp_get_avail_slab s R P G n a (Q : Z * bool -> djstate H W -> Prop) :
  dinv s (Some (a, 0)) R None P G n -> a ∈ bs -> room n 3 ->
  (forall s' P' fp, dinv s' (Some (a, 0)) R None P' G (n + 3) -> Q (0, fp) s') ->
  (forall s' x lk' R' P' fp, (R' = R \/ exists m, R !! m = None /\ R' = <[m := x]> R) -> first_slab s' a lk' R' x -> dinv s' lk' R' None P' G (n + 2) ->
     Q (x, fp) s') ->
  wp (bucket_get_avail_slab a) Q s.
Proof using Hp H1 Hbase.
  intros HI Ha Hroom Hnone Hsome. destruct (pi_buckets _ _ _ _ _ _ _ _ _ _ _ (di_inv _ _ _ _ _ _ _ HI) a Ha) as (b & Hb & Hok).
  unfold bucket_get_avail_slab. apply wp_bind, (wp_load_bucket _ _ b); [done|]. apply wp_bind.
  assert (forall s' x lk' R' P' fp, (R' = R \/ exists m, R !! m = None /\ R' = <[m := x]> R) -> first_slab s' a lk' R' x -> dinv s' lk' R' None P' G (n + 2) ->
    wp (b0 ← load_bucket a; mret (default 0 (head (available_slabs b0)), fp)) Q s') as Hfirst.
  { intros s' x lk' R' P' fp HR' Hf HI'. pose proof Hf as (b' & l & sl & Hb' & El & _). apply wp_bind, (wp_load_bucket _ _ b'); [done|]. wp_step.
    rewrite El. simpl. by apply (Hsome s' x lk' R' P'). }
  destruct (available_slabs b) as [|x l] eqn:Eav.
  - apply wp_bind, (wp_bucket_create_slab s R P G n a b); [done..| |].
    + intros s' P' Eb HI'. wp_step. apply wp_bind, (wp_load_bucket _ _ b); [by rewrite Eb|]. wp_step. rewrite Eav. by apply (Hnone s' P').
    + intros s' x m R' P' HR ER' Hf HI'. wp_step. apply (Hfirst s' x (Some (a, 1)) R' P'); [|done|done]. right. eauto.
  - assert (x ∈ available_slabs b) as Hin by (rewrite Eav; constructor). apply (bk_avail _ _ _ _ _ _ _ _ Hok) in Hin as (sl & Hx & _ & HR & _).
    apply wp_bind, (wp_load_slab _ _ sl); [done|]. destruct (Z.eqb_spec (num_chunks_allocated sl) 0) as [Hc|Hc].
    + apply (wp_unpool s R P G n a b x l sl); [done..|]. intros s' b' Hb' El Es HI'.
      apply (Hfirst s' x (Some (a, 1)) R P); [by left| |by apply (dinv_mono _ _ _ _ _ _ n); [lia|]]. exists b', l, sl. rewrite Es, Hc. done.
    + wp_step. apply (Hfirst s x (Some (a, 0)) R P); [by left| |by apply (dinv_mono _ _ _ _ _ _ n); [lia|]].
      exists b, l, sl. by rewrite (proj2 (Z.eqb_neq _ _) Hc).
Qed.

(** ** A bucket hands out a chunk *)

(** The chunk [i] of the slab [x] at [m]; the user gets a pointer into it. *)
Record taken s (a : Z) R P G n (x m z i : Z) : Prop := {
  tk_size : size_at a z;
  tk_reg : R !! m = Some x;
  tk_prov : pp_rep (dj_world s) (provider p) P n /\ is_Some (P !! m);
  tk_range : 0 < m /\ 0 <= i /\ i * z < smin p /\ m + (i + 1) * z < two64 /\ ((i + 1) * z <= smin p \/ i = 0);
  tk_fresh : forall ptr, m + i * z <= ptr < m + (i + 1) * z -> G !! ptr = None;
  tk_inv : forall ptr, m + i * z <= ptr < m + (i + 1) * z -> ptr < m + smin p ->
    dinv s (Some (a, 0)) R None P (<[ptr := InChunk x m z i]> G) n;
}.

(** The slab at the head of the list gives a chunk. *)
Lemma wp_slab_get_chunk s lk R P G n a x (Q : Z -> djstate H W -> Prop) :
  dinv s lk R None P G n -> a ∈ bs -> first_slab s a lk R x -> n < two64 ->
  (forall m z i b l sl ws, R !! m = Some x -> mem_ptr sl = m -> slab_ok sl z -> slab_bucket sl = a -> dj_slabs s !! x = Some sl ->
     dj_buckets s !! a = Some b -> available_slabs b = x :: l -> lk = Some (a, if num_chunks_allocated sl =? 0 then 1 else 0) ->
     P !! m = Some (slab_size sl) -> 0 <= i < num_chunks_total sl -> chunk_free (chunks sl) i = true -> words_ok (num_chunks_total sl) ws ->
     (forall j, 0 <= j -> chunk_free ws j = if j =? i then false else chunk_free (chunks sl) j) ->
     Q (m + i * z) (with_dj_slabs (<[x := with_chunks (num_chunks_allocated sl + 1) ws sl]> (dj_slabs s)) s)) ->
  wp (slab_get_chunk x) Q s.
Proof using Hp.
  intros HI Ha (b & l & sl & Hb & El & Hx & Elk) Hn HQ. pose proof (di_inv _ _ _ _ _ _ _ HI) as Hpi.
  pose proof (bucket_at _ _ _ _ _ _ _ _ _ _ _ _ _ Hpi Ha Hb) as Hok.
  assert (x ∈ available_slabs b) as Hin by (rewrite El; constructor). apply (bk_avail _ _ _ _ _ _ _ _ Hok) in Hin as (sl' & Hx' & Ea & HR & Hav).
  rewrite Hx in Hx'. injection Hx' as <-. destruct (slab_at _ _ _ _ Hp _ _ _ _ _ _ _ _ _ Hpi HR) as (sl' & z & b' & Hx' & Em & Hsl & HPm & _ & Hb' & Ez & _).
  rewrite Hx in Hx'. injection Hx' as <-. rewrite Ea, Hb in Hb'. injection Hb' as <-.
  pose proof (total_bounds _ _ _ Hp _ _ Hsl) as Ht. pose proof (slab_count_range _ _ _ Hp _ _ Hsl) as Hcr. pose proof (so_count _ _ _ _ Hsl) as Hcnt.
  apply Z.ltb_lt in Hav. destruct (find_first sl (num_chunks_total sl)) as (Hi & Hfree & _); [apply Hsl|lia|apply Hsl|unfold two64; lia|].
  set (i := slab_find_first_available_chunk_idx sl) in *. destruct (set_chunk_bit sl (num_chunks_total sl) eq_refl (so_bits _ _ _ _ Hsl) i false Hi) as (ws & Ews & Hws & Hj).
  unfold slab_get_chunk. apply wp_bind, (wp_load_slab _ _ sl); [done|]. fold i.
  apply wp_if_assert; [rewrite (proj2 (Z.eqb_neq i SIZE_MAX)); [done|unfold SIZE_MAX; lia]|].
  apply wp_bind, (wp_load_bucket _ _ b); [by rewrite Ea|]. wp_step; [exact Ews|]. unfold store_slab. wp_step. wp_step.
  pose proof (chunk_inside _ _ _ Hp _ _ _ Hsl Hi) as [Hins _]. pose proof (ra_wf _ (prov_ranges _ _ _ (di_prov _ _ _ _ _ _ _ HI)) _ _ HPm) as Hrange.
  pose proof (size_at_bounds _ _ _ Hp _ _ (so_size _ _ _ _ Hsl)) as Hzb.
  rewrite Ez, (mul64_small i z), (add64_small (mem_ptr sl)), (add64_small (num_chunks_allocated sl)) by (unfold is_u64, two64 in *; nia).
  by apply (HQ (mem_ptr sl) z i b l sl ws).
Qed.

Lemma wp_get_free_chunk s R P G n a (Q : Z * bool -> djstate H W -> Prop) :
  dinv s (Some (a, 0)) R None P G n -> a ∈ bs -> room n 3 ->
  (forall s' P' fp, dinv s' (Some (a, 0)) R None P' G (n + 3) -> Q (0, fp) s') ->
  (forall s' x m z i R' P' fp, (R' = R \/ exists m, R !! m = None /\ R' = <[m := x]> R) -> taken s' a R' P' G (n + 2) x m z i -> Q (m + i * z, fp) s') ->
  wp (bucket_get_free_chunk a) Q s.
Proof using Hp H1 Hbase.
  intros HI Ha Hroom Hnone Hsome. unfold bucket_get_free_chunk. apply wp_bind, (wp_get_avail_slab s R P G n); [done..| |].
  { intros s' P' fp HI'. rewrite Z.eqb_refl. wp_step. by apply (Hnone s' P'). }
  intros s1 x lk1 R1 P1 fp HR1 Hf1 HI1. destruct Hroom as [Hr1 Hr2]. pose proof (di_inv _ _ _ _ _ _ _ HI1) as Hpi.
  assert (x <> 0) as Hx0.
  { destruct Hf1 as (b & l & sl & Hb & El & Hx & _). pose proof (bucket_at _ _ _ _ _ _ _ _ _ _ _ _ _ Hpi Ha Hb) as Hok.
    assert (x ∈ available_slabs b) as Hin by (rewrite El; constructor). apply (bk_avail _ _ _ _ _ _ _ _ Hok) in Hin as (sl' & _ & _ & HR & _).
    by destruct (pi_slabs _ _ _ _ _ _ _ _ _ _ _ Hpi _ _ HR) as [? _]. }
  rewrite (proj2 (Z.eqb_neq _ _) Hx0). apply wp_bind, (wp_slab_get_chunk s1 lk1 R1 P1 G (n + 2) a x); [done..|unfold DELETED_LIFE in *; lia|].
  intros m z i b l sl ws HR Em Hsl Ea Hx Hb El Elk HPm Hi Hfree Hws Hj. set (sl' := with_chunks _ ws sl).
  apply wp_bind, (wp_load_slab _ _ sl'); [simpl; by rewrite lookup_insert_eq|].
  pose proof (chunk_inside _ _ _ Hp _ _ _ Hsl Hi) as [Hins Hend]. pose proof (ra_wf _ (prov_ranges _ _ _ (di_prov _ _ _ _ _ _ _ HI1)) _ _ HPm) as Hrange.
  assert (forall s2, dj_host s2 = dj_host s1 -> dj_crit s2 = dj_crit s1 -> dj_world s2 = dj_world s1 -> dj_arrays s2 = dj_arrays s1 -> dj_pool s2 = dj_pool s1 ->
    dj_slabs s2 = <[x := sl']> (dj_slabs s1) -> dj_limits s2 = dj_limits s1 ->
    dj_buckets s2 = (if slab_has_avail sl' then dj_buckets s1 else <[a := with_slabs l (Z.of_nat (length l)) (x :: unavailable_slabs b) b]> (dj_buckets s1)) ->
    taken s2 a R1 P1 G (n + 2) x m z i) as Htk.
  { intros s2 Eh Ec Ew Ear Epo Es Eli Eb. split; [|done|..].
    - rewrite <- Ea. apply Hsl.
    - rewrite Ew. split; [apply HI1|by rewrite HPm].
    - pose proof (size_at_bounds _ _ _ Hp _ _ (so_size _ _ _ _ Hsl)). split_and!; [lia|lia|lia|nia|by apply (chunk_last _ _ _ Hp sl)].
    - intros ptr Hptr. apply (free_chunk_fresh _ _ _ _ Hp _ _ _ _ _ _ _ m x sl z i ptr Hpi); try done. apply (prov_ranges _ _ _ (di_prov _ _ _ _ _ _ _ HI1)).
    - intros ptr Hptr Hpe. apply (dinv_heaps s1 s2 lk1 _ R1 None P1 G _ (n + 2) HI1); try done; [rewrite Epo; apply HI1|]. rewrite Es, Eb, Eli.
      eapply (pinv_take _ _ _ _ Hp _ _ _ _ _ _ _ a b m x l sl z ws i ptr); try done. by rewrite <- Elk. }
  destruct (slab_has_avail sl') eqn:Eh; simpl.
  - wp_step. apply (Hsome _ x m z i R1 P1); [done|]. by apply Htk.
  - apply wp_bind, (wp_load_bucket _ _ b); [done|]. rewrite El. wp_step; [simpl; by rewrite Z.eqb_refl|]. unfold store_bucket. wp_step. wp_step.
    pose proof (bucket_at _ _ _ _ _ _ _ _ _ _ _ _ _ Hpi Ha Hb) as Hok. pose proof (avail_bound _ _ _ _ _ _ _ _ Hok) as Hav.
    pose proof (di_size _ _ _ _ _ _ _ HI1) as Hsz. pose proof (bk_num _ _ _ _ _ _ _ _ Hok) as Hnum. rewrite El in Hav, Hnum. simpl in Hav, Hnum.
    apply (Hsome _ x m z i R1 P1); [done|]. apply Htk; [done..|]. simpl. do 2 f_equal.
    rewrite Hnum, sub64_small; [lia|]. unfold is_u64, two64, DELETED_LIFE in *. lia.
Qed.

(** ** A bucket takes a chunk back *)

Lemma wp_max_pooled s b (Q : Z -> djstate H W -> Prop) : (exists c, dj_pool s = Some (pool, with_cur_pool_size c p)) -> bucket_pool b = pool ->
  (forall k, 0 <= k <= MAX_POOLED -> Q k s) -> wp (bucket_max_pooled_slabs b) Q s.
Proof using Hp.
  intros Hc Hb HQ. unfold bucket_max_pooled_slabs, bucket_chunk_cut_off. apply wp_bind, wp_bind, wp_slab_min_size; [done..|]. wp_step.
  destruct (_ <=? _); [wp_step; apply HQ; unfold MAX_POOLED; lia|]. destruct Hc as [c Hc]. rewrite Hb. apply wp_bind, (wp_load_pool _ c); [done|].
  wp_step. apply HQ, (po_cap _ _ _ Hp).
Qed.

Lemma wp_can_pool s R held P G n a (Q : bool -> djstate H W -> Prop) :
  dinv s (Some (a, 1)) R held P G n -> a ∈ bs ->
  (forall s' (r : bool), dj_slabs s' = dj_slabs s -> dinv s' (Some (a, if r then 0 else 1)) R held P G n -> Q r s') ->
  wp (bucket_can_pool a) Q s.
Proof using Hp Hbase.
  intros HI Ha HQ. destruct (pi_buckets _ _ _ _ _ _ _ _ _ _ _ (di_inv _ _ _ _ _ _ _ HI) a Ha) as (b & Hb & Hok).
  destruct (limits_at _ _ _ _ _ _ _ _ _ HI Ha Hb) as (l & Hl & Hle & Hm & Ht & Hsb & Hch).
  unfold bucket_can_pool. apply wp_bind, (wp_load_bucket _ _ b); [done|]. apply wp_bind, wp_max_pooled; [apply HI|apply Hok|]. intros k Hk.
  assert (forall s', dj_slabs s' = dj_slabs s -> dinv s' (Some (a, 1)) R held P G n -> wp (_ ← bucket_update_stats a (-1) 0; mret false) Q s') as Hno.
  { intros s' Es HI'. apply wp_bind, (wp_bucket_stats s' (Some (a, 1)) R held P G n); [done..|]. intros s2 Es2 _ _ _ HI2. wp_step.
    apply HQ; [by rewrite Es2|done]. }
  rewrite (add64_small (chunked_slabs_in_pool b)) by (unfold is_u64, two64, MAX_POOLED in *; lia).
  destruct (Z.leb_spec (chunked_slabs_in_pool b + 1) k) as [Hck|Hck]; [|by apply Hno].
  apply wp_bind, wp_slab_alloc_size; [apply HI|apply Hok|]. rewrite (bk_limits _ _ _ _ _ _ _ _ Hok). apply wp_bind, (wp_fetch_add _ l); [done|].
  rewrite (add64_small (total_size l)) by (unfold is_u64, two64; lia). set (t' := total_size l + slab_bytes (bucket_size b)).
  apply wp_bind, (wp_load_limits _ (mk_limits (max_size l) t')); [simpl; by rewrite lookup_insert_eq|]. simpl.
  rewrite ?(add64_small (total_size l)) by (unfold is_u64, two64; lia). destruct (Z.leb_spec t' (max_size l)) as [Hfit|Hfit].
  - unfold store_bucket. wp_step. match goal with |- wp _ _ ?s => set (s1 := s) end.
    assert (dinv s1 (Some (a, 0)) R held P G n) as HI1.
    { apply (dinv_heaps s s1 (Some (a, 1)) (Some (a, 0)) R held P G G n HI); try done; [apply HI|]. unfold s1. simpl.
      apply (pinv_chunked _ _ _ _ Hp _ _ (dj_limits s) _ 1 0 R P G a b (chunked_slabs_in_pool b + 1) l); try done; [apply HI|lia|lia|..].
      - do 2 f_equal. unfold t'. lia.
      - unfold t' in Hfit. lia. }
    apply wp_bind, (wp_bucket_stats s1 (Some (a, 0)) R held P G n); [done..|]. intros s2 Es2 _ _ _ HI2. wp_step. apply HQ; [by rewrite Es2|done].
  - apply wp_bind, (wp_fetch_sub _ (mk_limits (max_size l) t')); [simpl; by rewrite lookup_insert_eq|]. simpl.
    apply wp_if_assert; [apply Z.leb_le; lia|]. apply Hno; [done|].
    apply (dinv_heaps s _ (Some (a, 1)) (Some (a, 1)) R held P G G n HI); try done; [apply HI|]. simpl.
    rewrite insert_insert_eq, sub64_small by (unfold is_u64, two64; lia). rewrite insert_id; [apply HI|]. rewrite Hl. f_equal. unfold t'. destruct l. simpl. f_equal. lia.
Qed.

(** The rule for [slab_free_chunk], and the list it moves to. *)
Lemma wp_slab_free_chunk s R held P G n a x m z i ptr sl b (Q : unit -> djstate H W -> Prop) :
  dinv s (Some (a, 0)) R held P G n -> G !! ptr = Some (InChunk x m z i) -> dj_slabs s !! x = Some sl -> slab_bucket sl = a -> dj_buckets s !! a = Some b ->
  (forall ws, R !! m = Some x -> mem_ptr sl = m -> slab_ok sl z -> bucket_size b = z -> 0 <= i < num_chunks_total sl -> chunk_free (chunks sl) i = false ->
     words_ok (num_chunks_total sl) ws -> (forall j, 0 <= j -> chunk_free ws j = if j =? i then true else chunk_free (chunks sl) j) ->
     P !! m = Some (slab_size sl) ->
     Q tt (with_dj_slabs (<[x := with_chunks (num_chunks_allocated sl - 1) ws sl]> (dj_slabs s)) s)) ->
  wp (slab_free_chunk x (m + i * z)) Q s.
Proof using Hp.
  intros HI HG Hx Ea Hb HQ. pose proof (di_inv _ _ _ _ _ _ _ HI) as Hpi.
  destruct (us_chunk _ _ _ _ _ _ (pi_users _ _ _ _ _ _ _ _ _ _ _ Hpi) _ _ _ _ _ HG) as (HR & sl' & Hx' & Hz & Hi & Hf & _).
  rewrite Hx in Hx'. injection Hx' as <-. destruct (slab_at _ _ _ _ Hp _ _ _ _ _ _ _ _ _ Hpi HR) as (sl' & z' & b' & Hx' & Em & Hsl & HPm & Hin & Hb' & Ez & Hok).
  rewrite Hx in Hx'. injection Hx' as <-. rewrite Ea, Hb in Hb'. injection Hb' as <-. pose proof (size_at_fun _ _ _ Hp _ _ _ Hz (so_size _ _ _ _ Hsl)) as <-.
  pose proof (chunk_inside _ _ _ Hp _ _ _ Hsl Hi) as [Hins Hend]. pose proof (ra_wf _ (prov_ranges _ _ _ (di_prov _ _ _ _ _ _ _ HI)) _ _ HPm) as Hrange.
  pose proof (size_at_bounds _ _ _ Hp _ _ Hz) as Hzb. pose proof (slab_bytes_bounds _ _ _ Hp _ _ Hz) as (_ & Hsb & _). rewrite <- (so_bytes _ _ _ _ Hsl) in Hsb.
  pose proof (slab_count_range _ _ _ Hp _ _ Hsl) as Hcr. pose proof (total_bounds _ _ _ Hp _ _ Hsl) as Htb. pose proof (so_count _ _ _ _ Hsl) as Hcnt.
  destruct (set_chunk_bit sl (num_chunks_total sl) eq_refl (so_bits _ _ _ _ Hsl) i true Hi) as (ws & Ews & Hws & Hj).
  pose proof (nfree_set _ _ _ _ Hi Hj Hf) as Hns. pose proof (nfree_range (num_chunks_total sl) ws) as Hnr.
  unfold slab_free_chunk. apply wp_bind, (wp_load_slab _ _ sl); [done|]. rewrite <- Ea in Hb.
  apply wp_bind, (wp_slab_end _ _ b); [apply HI|done|apply Hok|unfold is_u64; lia|].
  apply wp_if_assert; [unfold slab_get; rewrite Em; apply andb_true_iff; split; [apply Z.leb_le; nia|apply Z.ltb_lt; lia]|].
  apply wp_bind, (wp_load_bucket _ _ b); [done|]. rewrite Em, Ez. rewrite (sub64_small (m + i * z) m) by (unfold is_u64; nia).
  replace (m + i * z - m) with (i * z) by lia. apply wp_if_assert; [by rewrite (proj2 (Z.eqb_neq z 0)) by lia|].
  apply wp_if_assert; [by rewrite Z.mod_mul by lia|]. rewrite Z.div_mul by lia.
  wp_step; [exact (read_chunk_bit sl (num_chunks_total sl) eq_refl (so_bits _ _ _ _ Hsl) i Hi)|]. rewrite Hf. apply wp_if_assert; [done|].
  wp_step; [exact Ews|]. unfold store_slab. wp_step. rewrite sub64_small by (unfold is_u64, two64; lia). by apply HQ.
Qed.

(** An empty slab is destroyed and taken from the list; it is in the critnib still. *)
Lemma wp_drop_slab {A} s k k' R held P G n a x m sl (F : bucket_t -> M (djstate H W) A) (Q : A -> djstate H W -> Prop) :
  dinv s (Some (a, k)) R held P G n -> room n 1 -> R !! m = Some x -> dj_slabs s !! x = Some sl -> slab_bucket sl = a -> num_chunks_allocated sl = 0 ->
  k - 1 <= k' ->
  (forall s' b P', dj_host s' = dj_host s -> dj_crit s' = dj_crit s -> dj_slabs s' = dj_slabs s -> dj_arrays s' = dj_arrays s -> dj_pool s' = dj_pool s ->
     pp_rep (dj_world s') (provider p) P' (n + 1) -> bucket_pool b = pool ->
     pinv (dj_slabs s') (dj_buckets s') (dj_limits s') (Some (a, k')) (delete m R) P' G -> wp (F b) Q s') ->
  wp (_ ← destroy_slab x;
      b ← load_bucket a;
      avail ← of_option (dl_delete x (available_slabs b));
      _ ← c_assert (0 <? available_slabs_num b);
      _ ← store_bucket a (with_slabs avail (sub64 (available_slabs_num b) 1) (unavailable_slabs b) b);
      F b) Q s.
Proof using Hp.
  intros HI [Hr1 Hr2] HR Hx Ea Hc Hk HF. pose proof (di_inv _ _ _ _ _ _ _ HI) as Hpi.
  destruct (slab_at _ _ _ _ Hp _ _ _ _ _ _ _ _ _ Hpi HR) as (sl' & z & b & Hx' & Em & Hsl & HPm & Hin & Hb & Ez & Hok).
  rewrite Hx in Hx'. injection Hx' as <-. rewrite Ea in *. pose proof (total_bounds _ _ _ Hp _ _ Hsl) as Ht.
  assert (x ∈ available_slabs b) as Hav.
  { apply (empty_available _ _ _ _ Hp _ _ _ _ _ _ _ a b m x sl Hpi); try done. unfold slab_has_avail. apply Z.ltb_lt. lia. }
  destruct (dl_delete_spec _ _ Hav) as (l1 & l2 & El & Edl). rewrite <- Em in HPm.
  apply wp_bind, (wp_destroy_slab s P n x sl b); [apply HI|done|by rewrite Ea|apply Hok|apply HI|lia|done|]. rewrite Em in HPm |- *.
  intros w P' HP' Hcase. apply wp_bind, (wp_load_bucket _ _ b); [done|]. wp_step; [exact Edl|].
  pose proof (bk_num _ _ _ _ _ _ _ _ Hok) as Hnum. rewrite El, length_app in Hnum. simpl in Hnum.
  pose proof (avail_bound _ _ _ _ _ _ _ _ Hok) as Hab. pose proof (di_size _ _ _ _ _ _ _ HI) as Hsz. rewrite El, length_app in Hab. simpl in Hab.
  apply wp_if_assert; [apply Z.ltb_lt; lia|]. unfold store_bucket. wp_step. apply (HF _ b P'); try done; [apply Hok|]. simpl.
  replace (sub64 (available_slabs_num b) 1) with (Z.of_nat (length (l1 ++ l2))).
  - eapply (pinv_drop_slab _ _ _ _ Hp _ _ _ k k'); try done. intros q Hq. destruct Hcase as [->| ->]; [by rewrite lookup_delete_ne|done].
  - rewrite length_app, sub64_small; [lia|]. unfold is_u64, two64, DELETED_LIFE in *. lia.
Qed.

(** The slab [x] has become empty, or has not. *)
Lemma wp_pool_or_drop s R P G n a lf x m sl (Q : bool -> djstate H W -> Prop) :
  dinv s (Some (a, if num_chunks_allocated sl =? 0 then 1 else 0)) R (Some (lf, m, x)) P G n -> room n 2 -> a ∈ bs ->
  R !! m = Some x -> dj_slabs s !! x = Some sl -> slab_bucket sl = a -> mem_ptr sl = m ->
  (forall s' r R' P', R' = R \/ R' = delete m R -> outer s' x tag_slab ->
     dinv s' (Some (a, 0)) R' (Some (lf, m, x)) P' G (n + 2) -> Q r s') ->
  wp (if num_chunks_allocated sl =? 0 then
        to_pool ← bucket_can_pool a;
        if (to_pool : bool) then mret true else
        _ ← destroy_slab x;
        b ← load_bucket a;
        avail ← of_option (dl_delete x (available_slabs b));
        _ ← c_assert (0 <? available_slabs_num b);
        _ ← store_bucket a (with_slabs avail (sub64 (available_slabs_num b) 1) (unavailable_slabs b) b);
        _ ← pool_unregister_slab (bucket_pool b) x;
        mret false
      else mret true) Q s.
Proof using Hp H1 Hbase.
  intros HI [Hr1 Hr2] Hin HR Hx Ea Em HQ. pose proof (proj1 (di_objs _ _ _ _ _ _ _ HI) _ _ HR) as Hox.
  destruct (num_chunks_allocated sl =? 0) eqn:Ec1.
  2: { wp_step. apply (HQ s true R P); [by left|done|]. by apply (dinv_mono _ _ _ _ _ _ n); [lia|]. }
  apply wp_bind, (wp_can_pool s R (Some (lf, m, x)) P G n a); [done..|]. intros s2 r Es2 HI2.
  pose proof (proj1 (di_objs _ _ _ _ _ _ _ HI2) _ _ HR) as Hox2. destruct r.
  { wp_step. apply (HQ s2 true R P); [by left|done|]. by apply (dinv_mono _ _ _ _ _ _ n); [lia|]. }
  apply Z.eqb_eq in Ec1. rewrite <- Es2 in Hx.
  apply (wp_drop_slab s2 1 0 R (Some (lf, m, x)) P G n a x m sl (fun b => _ ← pool_unregister_slab (bucket_pool b) x; mret false)); try done; [split; lia|].
  intros s3 b3 P3 Eh3 Ec3 Es3 Ear3 Epo3 HP3 Ebp Hpi3.
  unfold pool_unregister_slab. apply wp_bind. apply wp_bind, (wp_load_slab _ _ sl); [by rewrite Es3|]. apply wp_bind. unfold slab_get. rewrite Em.
  apply (wp_remove_held s3 R n lf m x); [apply (known_ext s2); [done|done|apply HI2]|apply HI2|lia|done|].
  intros y s4 Hmv Hk4. wp_step. wp_step. apply (HQ s4 false (delete m R) P3); [by right|apply Hmv; by apply (outer_ext s2 s3)|].
  apply (dinv_mono _ _ _ _ _ _ (n + 1)); [lia|]. destruct Hmv as [(h & kk & ->) Hout].
  destruct HI2 as [Hpo2 Har2 Hk2 Hpr2 Hcn2 Hsz2 Hpi2 Hob2]. split; simpl; rewrite ?Ear3, ?Epo3; try done; [lia|..].
  - pose proof (map_size_delete m R) as Hsd. rewrite Hsd. destruct (R !! m); simpl; lia.
  - apply (objs_ext s3); [done|]. apply (objs_ext s2); [by apply outer_ext|]. destruct Hob2 as (O1 & Ho). split; [|done].
    intros m' y' [_ HR']%lookup_delete_Some. by apply (O1 m').
Qed.

Lemma wp_bucket_free_chunk s R P G n a lf x m z i ptr (Q : bool -> djstate H W -> Prop) :
  dinv s (Some (a, 0)) R (Some (lf, m, x)) P G n -> room n 2 -> G !! ptr = Some (InChunk x m z i) ->
  (forall sl, dj_slabs s !! x = Some sl -> slab_bucket sl = a) ->
  (forall s' r R' P', R' = R \/ R' = delete m R -> outer s' x tag_slab ->
     dinv s' (Some (a, 0)) R' (Some (lf, m, x)) P' (delete ptr G) (n + 2) -> Q r s') ->
  wp (bucket_free_chunk a (m + i * z) x) Q s.
Proof using Hp H1 Hbase.
  intros HI [Hr1 Hr2] HG Hbk HQ. pose proof (di_inv _ _ _ _ _ _ _ HI) as Hpi.
  destruct (us_chunk _ _ _ _ _ _ (pi_users _ _ _ _ _ _ _ _ _ _ _ Hpi) _ _ _ _ _ HG) as (HR & sl & Hx & _).
  destruct (slab_at _ _ _ _ Hp _ _ _ _ _ _ _ _ _ Hpi HR) as (sl' & z' & b & Hx' & _ & _ & _ & Hin & Hb & _ & Hok).
  rewrite Hx in Hx'. injection Hx' as <-. pose proof (Hbk _ Hx) as Ea. rewrite Ea in *.
  unfold bucket_free_chunk. apply wp_bind, (wp_slab_free_chunk s R (Some (lf, m, x)) P G n a x m z i ptr sl b); [done..|].
  intros ws _ Em Hsl Ez Hi Hf Hws Hj HPm. set (sl1 := with_chunks _ ws sl).
  destruct (pinv_give _ _ _ _ Hp _ _ _ _ _ _ a b m x sl z ws i ptr Hpi Hb HG Hx HR Ea Hsl Hi Hf Hws Hj) as [Hmove Hstay]. fold sl1 in Hmove, Hstay.
  pose proof (slab_count_range _ _ _ Hp _ _ Hsl) as Hcr. pose proof (total_bounds _ _ _ Hp _ _ Hsl) as Htb. pose proof (so_count _ _ _ _ Hsl) as Hcnt.
  pose proof (nfree_set _ _ _ _ Hi Hj Hf) as Hns. pose proof (nfree_range (num_chunks_total sl) ws) as Hnr.
  set (s0 := with_dj_slabs (<[x:=sl1]> (dj_slabs s)) s). set (lk1 := Some (a, if num_chunks_allocated sl1 =? 0 then 1 else 0)) in *.
  apply wp_bind, (wp_load_slab _ _ sl1); [simpl; by rewrite lookup_insert_eq|].
  assert (slab_get_num_free_chunks sl1 = num_chunks_total sl - (num_chunks_allocated sl - 1)) as Efree.
  { unfold slab_get_num_free_chunks, sl1. simpl. apply sub64_small. unfold is_u64, two64. lia. }
  assert (forall s1, dj_slabs s1 = <[x := sl1]> (dj_slabs s) -> dinv s1 lk1 R (Some (lf, m, x)) P (delete ptr G) n -> _) as Hrest
    by (intros s1 Es1 HI1; refine (wp_pool_or_drop s1 R P (delete ptr G) n a lf x m sl1 Q HI1 (conj Hr1 Hr2) Hin HR _ Ea Em HQ); by rewrite Es1, lookup_insert_eq).
  apply wp_bind. destruct (Z.eqb_spec (slab_get_num_free_chunks sl1) 1) as [E1|E1].
  - rewrite Efree in E1. destruct Hmove as (u1 & u2 & Eu & Hpi1); [simpl; lia|]. apply wp_bind, (wp_load_bucket _ _ b); [done|].
    destruct (dl_delete_spec x (unavailable_slabs b)) as (v1 & v2 & Ev & Edl); [rewrite Eu; apply elem_of_app; right; constructor|].
    assert (NoDup (unavailable_slabs b)) as Hndu by (pose proof (bk_nodup _ _ _ _ _ _ _ _ Hok) as Hnd; by apply NoDup_app in Hnd as (_ & _ & ?)).
    destruct (NoDup_middle u1 u2 v1 v2 x) as [<- <-]; [by rewrite <- Eu|congruence|].
    wp_step; [exact Edl|]. unfold store_bucket. wp_step. apply Hrest; [done|].
    apply (dinv_heaps s _ (Some (a, 0)) lk1 R _ P G _ n HI); try done; [apply HI|]. simpl.
    replace (add64 (available_slabs_num b) 1) with (Z.of_nat (length (available_slabs b)) + 1); [done|].
    rewrite (bk_num _ _ _ _ _ _ _ _ Hok), add64_small; [done|]. pose proof (avail_bound _ _ _ _ _ _ _ _ Hok). pose proof (di_size _ _ _ _ _ _ _ HI).
    unfold is_u64, two64, DELETED_LIFE in *. lia.
  - rewrite Efree in E1. wp_step. apply Hrest; [done|].
    apply (dinv_heaps s _ (Some (a, 0)) lk1 R _ P G _ n HI); try done; [apply HI|]. simpl. apply Hstay. simpl. lia.
Qed.
End Ops.
