(* ===== verification/DisjointCalls.v ===== *)
(** * The calls of the disjoint pool

    The rules for [disjoint_pool_malloc], [disjoint_pool_aligned_malloc],
    [disjoint_pool_malloc_usable_size], [disjoint_pool_free] and [disjoint_pool_trim_memory].
    [dpool s G N]: the pool is between two calls, [G] says where the memory of
    the users is, and [N] bounds the calls made so far, with those that the slabs still need. *)

From S2P Require Import Prelude Utils HostMem CritQuery CritDelete CritSpec CritInsert CritRemove CritInv CritWorld.
From stdpp Require Import strings list.
From S2P Require Import Critnib Tracker PoolProvider DisjointPool DisjointApi DisjointSize DisjointInv DisjointSteps DisjointOps.
#[local] Open Scope Z_scope.

Section Calls.
Context `{HostAllocLaws H} `{PoolProviderLaws W}.
Context (p : disjoint_pool_t) (pool : Z) (bs : list Z) (base : Z).
Hypothesis Hp : pool_ok p pool bs.
Hypothesis Hbase : 0 <= base <= MAX_BASE.
Hypothesis Hpage : provider_min_page_size p = 0 \/ (pow2 (provider_min_page_size p) /\ provider_min_page_size p <= pp_page).
Implicit Types (s : djstate H W) (R P : gmap Z Z) (G : gmap Z place) (lk : locked) (held : held_ref).
Abbreviation dinv := (dinv p pool bs base).
Abbreviation bexp := (bexp p).
Abbreviation smin := (smin p).

Definition spent (n : Z) R : Z := n + 2 * Z.of_nat (size R).
Definition dpool s G (N : Z) : Prop := exists R P n, dinv s None R None P G n /\ spent n R <= N.

Lemma dpool_mono s G N M : N <= M -> dpool s G N -> dpool s G M.
Proof using. intros Hle (R & P & n & ? & ?). exists R, P, n. split; [done|lia]. Qed.

Lemma spent_insert n R R' k : (R' = R \/ exists m x, R !! m = None /\ R' = <[m := x]> R) -> spent (n + k) R' <= spent n R + k + 2.
Proof using. unfold spent. intros [->|(m & x & HR & ->)]; [lia|]. rewrite map_size_insert_None by done. lia. Qed.

Lemma spent_room N n R k : spent n R <= N -> room N k -> room n k.
Proof using. unfold spent, room. lia. Qed.

(** ** Finding the bucket *)

Lemma wp_find_bucket s lk R held P G n size (Q : Z -> djstate H W -> Prop) : dinv s lk R held P G n -> 0 < size <= CutOff ->
  (forall (j : nat) a, bs !! j = Some a -> size <= bsize bexp (Z.of_nat j) -> (j = 0%nat \/ bsize bexp (Z.of_nat j - 1) < size) -> Q a s) ->
  wp (disjoint_pool_find_bucket pool size) Q s.
Proof using Hp.
  intros HI Hs HQ. destruct (di_pool _ _ _ _ _ _ _ _ _ _ _ HI) as [c Hc]. unfold disjoint_pool_find_bucket. apply wp_bind, (wp_load_pool p pool s c); [done|].
  destruct (size_to_idx_spec (with_cur_pool_size c p) size (po_exp _ _ _ Hp) Hs) as (i & Ei & Hi & Hle & Hmin). simpl in *.
  wp_step; [exact Ei|]. destruct (lookup_lt_is_Some_2 bs (Z.to_nat i)) as [a Ha]; [pose proof (po_bs _ _ _ Hp); unfold DisjointInv.bexp in *; lia|].
  apply (wp_bucket_ptr bs s _ i a); [apply HI|done|]. apply (HQ (Z.to_nat i) a); [done|by rewrite Z2Nat.id by lia|].
  rewrite Z2Nat.id by lia. destruct Hmin as [->|?]; [by left|by right].
Qed.

Lemma wp_count_alloc s lk R held P G n a q fp (Q : unit -> djstate H W -> Prop) : dinv s lk R held P G n -> a ∈ bs ->
  (forall s', dinv s' lk R held P G n -> Q tt s') -> wp (count_alloc q a fp) Q s.
Proof using Hp.
  intros HI Ha HQ. unfold count_alloc. destruct (_ >? 1); [|wp_step; by apply HQ].
  destruct (pi_buckets _ _ _ _ _ _ _ _ _ _ _ (di_inv _ _ _ _ _ _ _ _ _ _ _ HI) a Ha) as (b & Hb & Hok). apply wp_bind, (wp_load_bucket s a b); [done|].
  unfold store_bucket. wp_step. apply HQ. eapply (dinv_stats _ _ _ _ Hp s _ lk R held P G n a b); [done..|apply HI].
Qed.

(** ** A chunk for the user *)

(** [f] chooses the pointer in the chunk at [m + i * z], with [req] bytes. *)
Definition chooses (size req : Z) (f : Z -> Z) : Prop :=
  forall (j : nat) z m i, z = bsize bexp (Z.of_nat j) -> size <= z -> (j = 0%nat \/ bsize bexp (Z.of_nat j - 1) < size) ->
    m mod pp_page = 0 -> 0 < m -> 0 <= i -> i * z < smin -> m + (i + 1) * z < two64 -> (i + 1) * z <= smin \/ i = 0 ->
    m + i * z <= f (m + i * z) /\ f (m + i * z) + req <= m + (i + 1) * z /\ f (m + i * z) < m + smin.

(** The result of an allocation of [req] bytes. *)
Definition allocated G (N req : Z) (ptr : Z) s' : Prop :=
  (ptr = 0 /\ dpool s' G N) \/
  (exists pl, ptr <> 0 /\ G !! ptr = None /\ req <= usable ptr pl /\ dpool s' (<[ptr := pl]> G) N).

Lemma wp_take_chunk s G N size req f q (Q : Z -> djstate H W -> Prop) :
  dpool s G N -> room N 4 -> 0 < size <= CutOff -> 0 < req -> chooses size req f ->
  (forall s', allocated G (N + 4) req 0 s' -> Q 0 s') ->
  (forall s' ptr, is_u64 ptr -> allocated G (N + 4) req (f ptr) s' -> Q (f ptr) s') ->
  wp (bucket ← disjoint_pool_find_bucket pool size;
      _ ← lock_bucket bucket;
      '(ptr, from_pool) ← bucket_get_free_chunk bucket;
      if ptr =? 0 then
        _ ← modify (with_tls_error UMF_RESULT_ERROR_OUT_OF_HOST_MEMORY);
        _ ← unlock_bucket bucket;
        mret 0
      else
      _ ← count_alloc q bucket from_pool;
      _ ← unlock_bucket bucket;
      mret (f ptr)) Q s.
Proof using Hp H1 Hbase.
  intros (R & P & n & HI & HN) Hroom Hs Hreq Hf Hnull Hptr. apply wp_bind, (wp_find_bucket s None R None P G n); [done..|].
  intros j a Ha Hle Hmin. assert (a ∈ bs) as Hin by (by eapply list_elem_of_lookup_2).
  apply wp_bind, (wp_lock_bucket p pool bs base Hp s R None P G n); [done..|]. intros s1 _ _ HI1. pose proof (spent_room _ _ _ _ HN Hroom) as Hrn.
  apply wp_bind, (wp_get_free_chunk p pool bs base Hp Hbase s1 R P G n a); [done|done|unfold room in *; lia|..].
  - intros s2 P2 fp HI2. cbv beta iota. rewrite Z.eqb_refl. wp_step. apply wp_bind, (wp_unlock_bucket p pool bs base Hp _ R None P2 G (n + 3) a); [|done|].
    { apply (dinv_heaps p pool bs base s2 _ _ _ _ _ _ _ _ _ HI2); try done; apply HI2. }
    intros s3 _ _ HI3. wp_step. apply Hnull. left. split; [done|]. exists R, P2, (n + 3). split; [done|]. unfold spent in *. lia.
  - intros s2 x m z i R2 P2 fp HR2 [Hz Hreg [Hpr [k HPm]] (Hm & Hi & Hend & Htop & Hlast) Hfresh Hinv].
    assert (z = bsize bexp (Z.of_nat j)) as Ez by (eapply size_at_fun; [done|done|by exists j]).
    destruct (pp_wf _ _ _ _ _ _ Hpr HPm) as (_ & _ & _ & Hmod).
    pose proof (size_at_bounds _ _ _ Hp _ _ Hz) as Hzb. destruct (Hf j z m i) as (Hlo & Hhi & Hsm); [done|lia|done..|].
    cbv beta iota. rewrite (proj2 (Z.eqb_neq (m + i * z) 0)) by nia. pose proof (Hinv (f (m + i * z)) ltac:(lia) Hsm) as HI2.
    apply wp_bind. eapply wp_count_alloc; [exact HI2|done|]. intros s3 HI3.
    apply wp_bind. eapply (wp_unlock_bucket p pool bs base Hp); [exact HI3|done|]. intros s4 _ _ HI4. wp_step. apply Hptr; [unfold is_u64; nia|]. right.
    exists (InChunk x m z i). split_and!; [nia|apply Hfresh; lia|simpl; lia|]. exists R2, P2, (n + 2). split; [done|].
    pose proof (spent_insert n R R2 2) as Hsp. etrans; [apply Hsp|lia]. destruct HR2 as [->|(m' & ? & ->)]; [by left|right; eauto].
Qed.

(** ** Memory from the provider *)

Lemma dinv_tls s e lk R held P G n : dinv s lk R held P G n -> dinv (with_tls_error e s) lk R held P G n.
Proof using. intros HI. apply (dinv_heaps p pool bs base s _ lk lk R held P G G n HI); try done; apply HI. Qed.

Lemma wp_direct s G N size al (chk : Z -> bool) (Q : Z -> djstate H W -> Prop) :
  dpool s G N -> room N 4 -> 0 < size < two64 -> al = 0 \/ pow2 al -> (forall ptr, 0 < ptr -> chk ptr = true) ->
  (forall s' ptr, allocated G (N + 4) size ptr s' -> (ptr <> 0 -> al <> 0 -> ptr mod al = 0) -> Q ptr s') ->
  wp ('(ret, ptr) ← on_world (umfMemoryProviderAlloc (provider p) size al 0);
      if negb (bool_decide (ret = UMF_RESULT_SUCCESS)) then _ ← modify (with_tls_error ret); mret 0
      else _ ← c_assert (chk ptr); mret ptr) Q s.
Proof using Hp.
  intros (R & P & n & HI & HN) Hroom Hs Hal Hchk HQ. destruct (spent_room _ _ _ _ HN Hroom) as [Hr1 Hr2]. apply wp_bind.
  apply (wp_prov_alloc p s P n); [apply HI|lia|done|done|..].
  - intros [r m] w Hr HP'. cbv beta iota. rewrite bool_decide_false by done. simpl. wp_step. wp_step. apply HQ; [|done]. left. split; [done|].
    exists R, P, (n + 1). split; [|unfold spent in *; lia]. apply dinv_tls. destruct HI as [? ? ? ? ? ? ? ?]. split; try done; simpl; try lia.
    by eapply known_mono; [|done]; lia.
  - intros m w HPm Hmod HP'. cbv beta iota. rewrite bool_decide_true by done. simpl.
    assert (0 < m) as Hm by (destruct (pp_wf _ _ _ _ m size HP') as (? & _); [by rewrite lookup_insert_eq|done]).
    apply wp_if_assert; [by apply Hchk|]. wp_step. apply HQ; [|by intros _]. right. exists (Direct size). split_and!; [lia| |simpl; lia|].
    + destruct (G !! m) as [pl|] eqn:HG; [exfalso|done].
      destruct (user_inside _ _ _ _ Hp _ _ _ _ _ _ _ _ _ (di_inv _ _ _ _ _ _ _ _ _ _ _ HI) (prov_ranges p _ _ _ (di_prov _ _ _ _ _ _ _ _ _ _ _ HI)) HG) as (k & HPc & Hc & Hu & He).
      assert (container m pl < m \/ container m pl = m) as [Hlt|E] by lia; [|congruence].
      pose proof (ra_apart _ (prov_ranges p _ _ _ HP') (container m pl) m k size) as Hap. rewrite lookup_insert_ne, lookup_insert_eq in Hap by lia.
      specialize (Hap HPc eq_refl Hlt). lia.
    + exists R, (<[m := size]> P), (n + 1). split; [|unfold spent in *; lia]. destruct HI as [? ? ? ? ? ? ? ?]. split; try done; simpl; try lia.
      * by eapply known_mono; [|done]; lia.
      * by apply pinv_direct.
Qed.

(** ** [malloc] *)

Lemma wp_allocate s G N size (Q : Z -> djstate H W -> Prop) : dpool s G N -> room N 4 -> 0 <= size < two64 ->
  (forall s' ptr, (size = 0 -> ptr = 0) -> allocated G (N + 4) size ptr s' -> Q ptr s') -> wp (disjoint_pool_allocate pool size) Q s.
Proof using Hp H1 Hbase.
  intros HD Hroom Hs HQ. unfold disjoint_pool_allocate. destruct (Z.eqb_spec size 0) as [->|Hne].
  { wp_step. apply HQ; [done|]. left. split; [done|]. by apply (dpool_mono _ _ N); [lia|]. }
  pose proof HD as (R & P & n & HI & HN). destruct (di_pool _ _ _ _ _ _ _ _ _ _ _ HI) as [c Hc]. apply wp_bind, (wp_load_pool p pool s c); [done|].
  simpl. destruct (Z.gtb_spec size (max_poolable_size (params p))) as [Hbig|Hsmall].
  - pose proof (wp_direct s G N size 0 (fun _ => true) Q HD Hroom ltac:(lia) ltac:(by left) ltac:(done)) as Hw.
    specialize (Hw ltac:(intros; by apply HQ)). unfold wp in *. unfold mbind, M_bind in *.
    destruct (on_world _ s) as [[[r m] s']|]; [|done]. by destruct (negb _).
  - apply (wp_take_chunk s G N size size (fun x => x)); [done|done| |lia| |intros s' Ha; apply HQ; [done|exact Ha]|intros s' ptr _ Ha; apply HQ; [lia|done]].
    { pose proof (po_poolable _ _ _ Hp). lia. }
    intros j z m i -> Hle _ _ Hm Hi Hend Htop _. lia.
Qed.

(** ** [aligned_malloc] *)

(** A power of two divides the larger ones. *)
Lemma pow2_divides a b : pow2 a -> pow2 b -> a <= b -> forall m, m mod b = 0 -> m mod a = 0.
Proof using.
  intros (i & Hi & ->) (j & Hj & ->) Hle m Hm. apply Z.pow_le_mono_r_iff in Hle; [|lia|lia]. apply Z.mod_divide in Hm; [|apply Z.pow_nonzero; lia].
  apply Z.mod_divide; [apply Z.pow_nonzero; lia|]. destruct Hm as [k ->]. exists (k * 2 ^ (j - i)).
  replace j with (j - i + i) at 1 by lia. rewrite Z.pow_add_r by lia. lia.
Qed.

(** The chunks of the bucket are aligned. *)
Lemma chooses_aligned size al : pow2 al -> 0 < size -> al <= provider_min_page_size p -> size + al - 1 < two64 ->
  (if size >? 1 then ALIGN_UP_SAFE size al else al) <= CutOff ->
  0 < (if size >? 1 then ALIGN_UP_SAFE size al else al) /\
  chooses (if size >? 1 then ALIGN_UP_SAFE size al else al) size (fun ptr => ALIGN_UP_SAFE ptr al).
Proof using Hp Hpage.
  intros Hal Hs Hpg Hov Hcut. pose proof (pow2_pos _ Hal) as Hal0. destruct Hpage as [E|[Hpp Hple]]; [lia|].
  set (asz := if size >? 1 then _ else _) in *.
  assert (size <= asz /\ exists k, 0 < k /\ asz = k * al) as (Hsz & k & Hk & Ek).
  { unfold asz. destruct (Z.gtb_spec size 1); [|split; [lia|exists 1; lia]]. rewrite align_up_safe_fits by (done || unfold is_u64; lia).
    destruct (align_up_bounds size al Hal ltac:(lia) Hov) as [Hb Hm]. split; [lia|]. apply Z.mod_divide in Hm as [k Ek]; [|lia]. exists k. split; [nia|done]. }
  split; [lia|]. intros j z m i -> Hle Hmin Hmod Hm Hi Hend Htop Hlast.
  assert (bsize bexp (Z.of_nat j) mod al = 0) as Hz.
  { apply (bsize_multiple bexp (Z.of_nat j) al k); [apply (po_exp _ _ _ Hp)|lia|done|done|lia|]. destruct Hmin as [->|?]; [by left|right; lia]. }
  assert ((m + i * bsize bexp (Z.of_nat j)) mod al = 0) as Hma.
  { rewrite Z.add_mod, Z.mul_mod, Hz, Z.mul_0_r, Z.mod_0_l, Z.add_0_r, Z.mod_mod by lia.
    apply (pow2_divides al pp_page); [done|apply pp_page_pow2|lia|done]. }
  assert (al <= bsize bexp (Z.of_nat j)) by nia. rewrite align_up_safe_fits, align_up_aligned by (done || unfold is_u64; nia). nia.
Qed.

(** The chunk has room for an aligned pointer. *)
Lemma chooses_room size al : pow2 al -> 0 < size -> al <= smin -> chooses (size + al - 1) size (fun ptr => ALIGN_UP_SAFE ptr al).
Proof using.
  intros Hal Hs Hmin. pose proof (pow2_pos _ Hal) as Hal0. intros j z m i -> Hle _ _ Hm Hi Hend Htop Hlast.
  set (z := bsize bexp (Z.of_nat j)) in *. assert (0 <= i * z) by nia.
  rewrite align_up_safe_fits by (done || unfold is_u64; nia). destruct (align_up_bounds (m + i * z) al Hal) as [Hb _]; [nia|nia|].
  split_and!; [lia|nia|]. destruct Hlast as [Hl| ->]; nia.
Qed.

(** The rules for a call: the alignment is a power of two, the aligned size
    is no overflow, and a pooled request is aligned to no more than a slab. *)
Definition align_ok (size al : Z) : Prop :=
  pow2 al /\ size + al - 1 < two64 /\ (size + al - 1 <= max_poolable_size (params p) -> al <= smin).

Lemma align_result ptr al : pow2 al -> is_u64 ptr -> ALIGN_UP_SAFE ptr al mod al = 0.
Proof using.
  intros Hal Hu. pose proof (pow2_pos _ Hal). destruct (Z.lt_ge_cases (ptr + al - 1) two64).
  - rewrite align_up_safe_fits by done. apply align_up_bounds; [done|apply Hu|done].
  - rewrite align_up_safe_overflow by done. apply Z.mod_0_l. lia.
Qed.

Lemma wp_aligned_malloc s G N size al (Q : Z -> djstate H W -> Prop) : dpool s G N -> room N 4 -> 0 <= size < two64 -> align_ok size al ->
  (forall s' ptr, (size = 0 -> ptr = 0) -> (ptr <> 0 -> ptr mod al = 0) -> allocated G (N + 4) size ptr s' -> Q ptr s') ->
  wp (disjoint_pool_aligned_malloc pool size al) Q s.
Proof using Hp H1 Hbase Hpage.
  intros HD Hroom Hs (Hal & Hov & Hsm) HQ. unfold disjoint_pool_aligned_malloc. destruct (Z.eqb_spec size 0) as [->|Hne].
  { wp_step. apply HQ; [done|done|]. left. split; [done|]. by apply (dpool_mono _ _ N); [lia|]. }
  pose proof (pow2_pos _ Hal) as Hal0. destruct (Z.leb_spec al 1) as [Hal1|Hal1].
  { apply (wp_allocate s G N size); [done..|]. intros s' ptr Hz Ha. apply HQ; [done| |done]. intros _. assert (al = 1) as -> by lia. apply Z.mod_1_r. }
  pose proof HD as (R & P & n & HI & HN). destruct (di_pool _ _ _ _ _ _ _ _ _ _ _ HI) as [c Hc]. apply wp_bind, (wp_load_pool p pool s c); [done|].
  assert (forall asz, asz <= max_poolable_size (params p) -> 0 < asz -> chooses asz size (fun ptr => ALIGN_UP_SAFE ptr al) ->
    wp (bucket ← disjoint_pool_find_bucket pool asz;
        _ ← lock_bucket bucket;
        '(ptr, from_pool) ← bucket_get_free_chunk bucket;
        if ptr =? 0 then
          _ ← modify (with_tls_error UMF_RESULT_ERROR_OUT_OF_HOST_MEMORY);
          _ ← unlock_bucket bucket;
          mret 0
        else
        _ ← count_alloc (with_cur_pool_size c p) bucket from_pool;
        _ ← unlock_bucket bucket;
        mret (ALIGN_UP_SAFE ptr al)) Q s) as Htake.
  { intros asz Hle H0' Hch. pose proof (po_poolable _ _ _ Hp). apply (wp_take_chunk s G N asz size (fun ptr => ALIGN_UP_SAFE ptr al)); [done|done|lia|lia|done|..].
    - intros s' Ha. by apply HQ.
    - intros s' ptr Hu Ha. apply HQ; [lia| |done]. intros _. by apply align_result. }
  pose proof (wp_direct s G N size al (fun ptr => negb (ptr =? 0)) Q HD Hroom ltac:(lia) (or_intror Hal)) as Hdir. cbv beta in Hdir.
  assert (forall ptr, 0 < ptr -> negb (ptr =? 0) = true) as Hchk by (intros ptr Hq; by rewrite (proj2 (Z.eqb_neq ptr 0)) by lia).
  specialize (Hdir Hchk ltac:(intros s' ptr Ha Hm; apply HQ; [lia|intros; apply Hm; lia|done])).
  cbn [params max_poolable_size provider_min_page_size provider with_cur_pool_size].
  destruct (Z.leb_spec al (provider_min_page_size p)) as [Hpg|Hpg]; cbv zeta.
  - set (asz := if size >? 1 then ALIGN_UP_SAFE size al else al). destruct (Z.gtb_spec asz (max_poolable_size (params p))) as [Hbig|Hsmall]; [exact Hdir|].
    pose proof (po_poolable _ _ _ Hp). destruct (chooses_aligned size al) as [Hpos Hch]; [done|lia|done|done|fold asz; lia|]. by apply Htake.
  - assert (sub64 (add64 size al) 1 = size + al - 1) as ->.
    { unfold sub64, add64, wrap64. rewrite Zminus_mod_idemp_l. apply Z.mod_small. lia. }
    destruct (Z.gtb_spec (size + al - 1) (max_poolable_size (params p))) as [Hbig|Hsmall]; [exact Hdir|].
    apply Htake; [done|lia|]. apply chooses_room; [done|lia|by apply Hsm].
Qed.
End Calls.

Section Free.
Context `{HostAllocLaws H} `{PoolProviderLaws W}.
Context (p : disjoint_pool_t) (pool : Z) (bs : list Z) (base : Z).
Hypothesis Hp : pool_ok p pool bs.
Hypothesis Hbase : 0 <= base <= MAX_BASE.
Implicit Types (s : djstate H W) (R P : gmap Z Z) (G : gmap Z place) (lk : locked) (held : held_ref).
Abbreviation dinv := (dinv p pool bs base).
Abbreviation dpool := (dpool p pool bs base).
Abbreviation smin := (smin p).

(** ** The lookup of a pointer *)

Lemma wp_not_in_slab s lk R held P G n m x ptr (Q : bool -> djstate H W -> Prop) : dinv s lk R held P G n -> R !! m = Some x ->
  Q (m + smin <=? ptr) s -> wp (not_in_slab x ptr) Q s.
Proof using Hp.
  intros HI HR HQ. pose proof (di_inv _ _ _ _ _ _ _ _ _ _ _ HI) as Hpi. destruct (pi_slabs _ _ _ _ _ _ _ _ _ _ _ Hpi m x HR) as [Hx0 _].
  destruct (slab_at _ _ _ _ Hp _ _ _ _ _ _ _ _ _ Hpi HR) as (sl & z & b & Hx & Em & Hsl & HPm & Hin & Hb & Ez & Hok).
  unfold not_in_slab. rewrite (proj2 (Z.eqb_neq _ _) Hx0). apply wp_bind, (wp_load_slab s x sl); [done|].
  pose proof (ra_wf _ (prov_ranges p _ _ _ (di_prov _ _ _ _ _ _ _ _ _ _ _ HI)) _ _ HPm) as Hr. pose proof (slab_bytes_bounds _ _ _ Hp _ _ (so_size _ _ _ _ Hsl)) as (_ & Hb' & _).
  rewrite <- (so_bytes _ _ _ _ Hsl) in Hb'. pose proof (po_min _ _ _ Hp).
  apply wp_bind, (wp_slab_end p pool s sl b); [apply HI|done|apply Hok|rewrite Em; unfold is_u64; lia|]. wp_step. by rewrite Em.
Qed.

(** The provider has the pointer of the user in one of its ranges. *)
Lemma user_range s lk R held P G n ptr pl : dinv s lk R held P G n -> G !! ptr = Some pl ->
  exists k, P !! container ptr pl = Some k /\ container ptr pl <= ptr /\ 0 < usable ptr pl /\ ptr + usable ptr pl <= container ptr pl + k /\ is_u64 ptr.
Proof using Hp.
  intros HI HG. pose proof (prov_ranges p _ _ _ (di_prov _ _ _ _ _ _ _ _ _ _ _ HI)) as Hra.
  destruct (user_inside _ _ _ _ Hp _ _ _ _ _ _ _ _ _ (di_inv _ _ _ _ _ _ _ _ _ _ _ HI) Hra HG) as (k & HPc & Hc & Hu & He).
  pose proof (ra_wf _ Hra _ _ HPc). exists k. split_and!; [done..|unfold is_u64; lia].
Qed.

(** [k1] runs for memory of the provider, [k2] for a chunk. *)
Lemma wp_lookup {A} s R P G n ptr pl (k1 : M (djstate H W) A) (k2 : Z -> option Z -> M (djstate H W) A) (Q : A -> djstate H W -> Prop) :
  dinv s None R None P G n -> room n 2 -> G !! ptr = Some pl ->
  (forall k s', pl = Direct k -> dinv s' None R None P G (n + 2) -> wp k1 Q s') ->
  (forall x m z i lf s', pl = InChunk x m z i -> dinv s' None R (Some (lf, m, x)) P G (n + 1) -> wp (k2 x (Some lf)) Q s') ->
  wp ('(slab, ref_slab) ← on_known_slabs (critnib_find_le ptr true);
      out ← not_in_slab slab ptr;
      if (out : bool) then _ ← release_slab ref_slab; k1 else k2 slab ref_slab) Q s.
Proof using Hp H1.
  intros HI [Hr1 Hr2] HG Hk1 Hk2. pose proof (prov_ranges p _ _ _ (di_prov _ _ _ _ _ _ _ _ _ _ _ HI)) as Hra.
  pose proof (di_inv _ _ _ _ _ _ _ _ _ _ _ HI) as Hpi. destruct (pi_users _ _ _ _ _ _ _ _ _ _ _ Hpi) as [Hcu _ Hdu].
  destruct (user_range _ _ _ _ _ _ _ _ _ HI HG) as (k & HPc & Hc & Hu & He & Hptr).
  assert (forall m x, R !! m = Some x -> exists z, P !! m = Some (slab_bytes p z) /\ smin <= slab_bytes p z) as Hslab.
  { intros m x HR. destruct (slab_at _ _ _ _ Hp _ _ _ _ _ _ _ _ _ Hpi HR) as (sl & z & b & _ & _ & Hsl & HPm & _). exists z.
    rewrite <- (so_bytes _ _ _ _ Hsl). split; [done|]. rewrite (so_bytes _ _ _ _ Hsl). by apply (slab_bytes_bounds _ _ _ Hp _ _ (so_size _ _ _ _ Hsl)). }
  apply wp_bind, (wp_find_slab s R n ptr); [apply HI|apply HI|lia|done|..].
  - intros s1 Hmv Hk1' Hnone. cbv beta iota. apply wp_bind. unfold not_in_slab. rewrite Z.eqb_refl. wp_step. unfold release_slab. wp_step.
    destruct pl as [x m z i|k0]; [destruct (Hcu _ _ _ _ _ HG) as (HR & _); specialize (Hnone _ _ HR); simpl in Hc; lia|].
    apply (Hk1 k0); [done|]. apply (dinv_mono p pool bs base _ _ _ _ _ _ (n + 1)); [lia|].
    apply (dinv_moved p pool bs base s s1 None R R None None P G n HI Hmv Hk1' Hpi (proj1 (di_objs _ _ _ _ _ _ _ _ _ _ _ HI))).
    pose proof (di_size _ _ _ _ _ _ _ _ _ _ _ HI). lia.
  - intros s1 lf m x Hmv Hk1' HR Hle Hbest. cbv beta iota.
    assert (dinv s1 None R (Some (lf, m, x)) P G (n + 1)) as HI1.
    { apply (dinv_moved p pool bs base s s1 None R R None _ P G n HI Hmv Hk1' Hpi (proj1 (di_objs _ _ _ _ _ _ _ _ _ _ _ HI))).
      pose proof (di_size _ _ _ _ _ _ _ _ _ _ _ HI). lia. }
    apply wp_bind, (wp_not_in_slab s1 None R (Some (lf, m, x)) P G (n + 1) m x); [done..|]. destruct (Hslab _ _ HR) as (z0 & HPm & Hsm).
    destruct pl as [x' m' z i|k0]; simpl in HPc, Hc, Hu, He.
    + destruct (Hcu _ _ _ _ _ HG) as (HR' & _ & _ & _ & _ & _ & Hend). assert (m' = m) as ->.
      { pose proof (Hbest _ _ HR' Hc). destruct (Z.eq_dec m' m); [done|]. pose proof (ra_apart _ Hra m' m k (slab_bytes p z0) HPc HPm). lia. }
      rewrite HR in HR'. injection HR' as <-. rewrite (proj2 (Z.leb_gt _ _)) by lia. by apply (Hk2 x m z i).
    + destruct (Hdu _ _ HG) as [_ HRn]. assert (m < ptr) as Hlt by (destruct (Z.eq_dec m ptr); [congruence|lia]).
      pose proof (ra_apart _ Hra m ptr _ _ HPm HPc Hlt). rewrite (proj2 (Z.leb_le _ _)) by lia. unfold release_slab. apply wp_bind, wp_bind.
      apply (wp_release_known s1 R (n + 1) lf m x); [apply HI1|apply HI1|lia|done|]. intros y s2 Hmv2 Hk2'. wp_step. apply (Hk1 k0); [done|].
      replace (n + 2) with (n + 1 + 1) by lia.
      apply (dinv_moved p pool bs base s1 s2 None R R _ None P G (n + 1) HI1 Hmv2 Hk2' (di_inv _ _ _ _ _ _ _ _ _ _ _ HI1) (proj1 (di_objs _ _ _ _ _ _ _ _ _ _ _ HI1))).
      pose proof (di_size _ _ _ _ _ _ _ _ _ _ _ HI1). lia.
Qed.

(** ** The chunk of a pointer *)

Lemma wp_chunk_of s lk R held P G n ptr x m z i sl b : dinv s lk R held P G n -> G !! ptr = Some (InChunk x m z i) ->
  dj_slabs s !! x = Some sl -> dj_buckets s !! slab_bucket sl = Some b -> mem_ptr sl = m -> bucket_size b = z ->
  sub64 ptr m / z = i /\ add64 m (mul64 i z) = m + i * z /\ 0 < z.
Proof using Hp.
  intros HI HG Hx Hb Em Ez. destruct (user_range _ _ _ _ _ _ _ _ _ HI HG) as (k & HPc & Hc & Hu & He & Hptr). simpl in *.
  pose proof (ra_wf _ (prov_ranges p _ _ _ (di_prov _ _ _ _ _ _ _ _ _ _ _ HI)) _ _ HPc) as Hr.
  destruct (us_chunk _ _ _ _ _ _ (pi_users _ _ _ _ _ _ _ _ _ _ _ (di_inv _ _ _ _ _ _ _ _ _ _ _ HI)) _ _ _ _ _ HG) as (_ & sl' & _ & Hz & Hi & _ & Hrange & _).
  pose proof (size_at_bounds _ _ _ Hp _ _ Hz) as Hzb. unfold is_u64 in Hptr. rewrite sub64_small by (unfold is_u64; nia).
  split_and!; [symmetry; apply (Z.div_unique _ _ _ (ptr - m - i * z)); nia| |lia].
  assert (0 <= i * z) by nia. rewrite mul64_small, add64_small by (unfold is_u64; nia). done.
Qed.

Lemma wp_get_chunk_idx s ptr sl b (Q : Z -> djstate H W -> Prop) : dj_buckets s !! slab_bucket sl = Some b -> 0 < bucket_size b ->
  Q (sub64 ptr (mem_ptr sl) / bucket_size b) s -> wp (get_chunk_idx ptr sl) Q s.
Proof using.
  intros Hb Hz HQ. unfold get_chunk_idx. apply wp_bind, (wp_load_bucket s _ b); [done|]. apply wp_if_assert; [by rewrite (proj2 (Z.eqb_neq _ 0)) by lia|].
  by wp_step.
Qed.

Lemma wp_get_unaligned s i sl b (Q : Z -> djstate H W -> Prop) : dj_buckets s !! slab_bucket sl = Some b ->
  Q (add64 (mem_ptr sl) (mul64 i (bucket_size b))) s -> wp (get_unaligned_ptr i sl) Q s.
Proof using. intros Hb HQ. unfold get_unaligned_ptr. apply wp_bind, (wp_load_bucket s _ b); [done|]. by wp_step. Qed.

Lemma wp_release s R P G n lf m x (Q : unit -> djstate H W -> Prop) lk : dinv s lk R (Some (lf, m, x)) P G n -> room n 1 -> R !! m = Some x ->
  (forall s', dinv s' lk R None P G (n + 1) -> Q tt s') -> wp (release_slab (Some lf)) Q s.
Proof using H1.
  intros HI [Hr1 Hr2] HR HQ. unfold release_slab. apply wp_bind, (wp_release_known s R n lf m x); [apply HI|apply HI|lia|done|].
  intros y s2 Hmv Hk. wp_step. apply HQ.
  apply (dinv_moved p pool bs base s s2 lk R R _ None P G n HI Hmv Hk (di_inv _ _ _ _ _ _ _ _ _ _ _ HI) (proj1 (di_objs _ _ _ _ _ _ _ _ _ _ _ HI))).
  pose proof (di_size _ _ _ _ _ _ _ _ _ _ _ HI). lia.
Qed.

Lemma wp_alloc_info s P n ptr k (Q : umf_result_t * umf_alloc_info_t -> djstate H W -> Prop) :
  pp_rep (dj_world s) (provider p) P n -> n < pp_max -> P !! ptr = Some k -> 0 < k ->
  (forall w i, baseSize i = k -> pp_rep w (provider p) P (n + 1) -> Q (UMF_RESULT_SUCCESS, i) (with_dj_world w s)) ->
  wp (on_world (umfMemoryTrackerGetAllocInfo ptr (mk_alloc_info 0 0 0))) Q s.
Proof using.
  intros HP Hn HPp Hk HQ. pose proof (pp_info _ _ _ _ ptr k ptr (mk_alloc_info 0 0 0) HP Hn HPp ltac:(lia)) as Hw. unfold wp, on_world in *.
  destruct (umfMemoryTrackerGetAllocInfo _ _ _) as [[[r i] w]|]; [|done]. simpl in Hw. destruct Hw as (-> & _ & Ei & HP'). by apply HQ.
Qed.

Lemma dinv_world s w lk R held P P' G n : dinv s lk R held P G n -> pp_rep w (provider p) P' (n + 1) ->
  pinv p pool bs base (dj_slabs s) (dj_buckets s) (dj_limits s) lk R P' G -> dinv (with_dj_world w s) lk R held P' G (n + 1).
Proof using. intros [? ? Hk ? ? ? ? ?] HP' Hpi. split; try done; simpl; try lia. by eapply known_mono; [|done]; lia. Qed.

(** ** [malloc_usable_size] *)

Lemma wp_usable_size s G N ptr pl old (Q : umf_result_t * option Z -> djstate H W -> Prop) : dpool s G N -> room N 4 -> pool <> 0 ->
  G !! ptr = Some pl -> (forall s', dpool s' G (N + 4) -> Q (UMF_RESULT_SUCCESS, Some (usable ptr pl)) s') ->
  wp (disjoint_pool_malloc_usable_size pool ptr (Some old)) Q s.
Proof using Hp H1 Hbase.
  intros (R & P & n & HI & HN) Hroom Hpool HG HQ. pose proof (spent_room _ _ _ _ HN Hroom) as [Hr1 Hr2].
  destruct (user_range _ _ _ _ _ _ _ _ _ HI HG) as (k & HPc & Hc & Hu & He & Hptr).
  pose proof (ra_wf _ (prov_ranges p _ _ _ (di_prov _ _ _ _ _ _ _ _ _ _ _ HI)) _ _ HPc) as Hrange.
  unfold disjoint_pool_malloc_usable_size. rewrite (proj2 (Z.eqb_neq _ _) Hpool), (proj2 (Z.eqb_neq ptr 0)) by lia.
  apply (wp_lookup s R P G n ptr pl); [done|split; lia|done|..].
  - intros k0 s1 -> HI1. simpl in *.
    destruct (us_direct _ _ _ _ _ _ (pi_users _ _ _ _ _ _ _ _ _ _ _ (di_inv _ _ _ _ _ _ _ _ _ _ _ HI)) _ _ HG) as [HPk _]. rewrite HPc in HPk. injection HPk as ->.
    apply wp_bind, (wp_alloc_info s1 P (n + 2) ptr k0); [apply HI1|lia|done|lia|]. intros w i Ei HP'. rewrite bool_decide_true by done. simpl. wp_step.
    rewrite Ei. apply HQ. exists R, P, (n + 2 + 1). split; [|unfold spent in *; lia]. apply (dinv_world s1 w None R None P P G (n + 2) HI1 HP'), HI1.
  - intros x m z i lf s1 -> HI1. pose proof (di_inv _ _ _ _ _ _ _ _ _ _ _ HI1) as Hpi.
    destruct (us_chunk _ _ _ _ _ _ (pi_users _ _ _ _ _ _ _ _ _ _ _ Hpi) _ _ _ _ _ HG) as (HR & sl & Hx & Hz & Hi & _ & Hin & _).
    destruct (slab_at _ _ _ _ Hp _ _ _ _ _ _ _ _ _ Hpi HR) as (sl' & z' & b & Hx' & Em & Hsl & HPm & Hina & Hb & Ez & Hok).
    rewrite Hx in Hx'. injection Hx' as <-. assert (z' = z) as -> by (eapply size_at_fun; [done|apply Hsl|done]).
    destruct (wp_chunk_of _ _ _ _ _ _ _ _ _ _ _ _ sl b HI1 HG Hx Hb Em Ez) as (Ei & Eu & Hzp).
    apply wp_bind, (wp_load_slab s1 x sl); [done|]. apply wp_bind, (wp_get_chunk_idx s1 ptr sl b); [done|lia|]. rewrite Em, Ez, Ei.
    apply wp_bind, (wp_get_unaligned s1 i sl b); [done|]. rewrite Em, Ez, Eu. apply wp_bind, (wp_load_bucket s1 _ b); [done|]. rewrite Ez.
    apply wp_if_assert; [done|]. apply wp_bind, (wp_release s1 R P G (n + 1) lf m x _ None); [done|split; lia|done|]. intros s2 HI2. wp_step.
    rewrite (sub64_small ptr), sub64_small by (unfold is_u64, two64 in *; pose proof (size_at_bounds _ _ _ Hp _ _ Hz); unfold CutOff in *; simpl in *; nia).
    replace (z - (ptr - (m + i * z))) with (usable ptr (InChunk x m z i)) by (simpl; lia). apply HQ. exists R, P, (n + 1 + 1). split; [done|unfold spent in *; lia].
Qed.

(** ** [free] *)

(** The state after an unregistered slab was freed. *)
Lemma dinv_slab_freed s s1 h lk R P G n x : (exists c, dj_pool s = Some (pool, with_cur_pool_size c p)) -> dj_arrays s !! buckets p = Some bs ->
  pp_rep (dj_world s) (provider p) P n -> 0 <= n -> Z.of_nat (size R) <= n ->
  pinv p pool bs base (dj_slabs s) (dj_buckets s) (dj_limits s) lk R P G -> objs p pool bs s R ->
  crit_moved s s1 -> outer s x tag_slab -> (forall m, R !! m <> Some x) ->
  let s' := with_dj_slabs (delete x (dj_slabs s1)) (with_dj_host h s1) in
  known s' R None n -> (forall a tg, outer s' a tg <-> outer s a tg /\ a <> x) -> dinv s' lk R None P G n.
Proof using.
  intros Hpo Har Hpr Hn Hsz Hpi (O1 & O2 & O3 & O4 & O5) [(h1 & k1 & ->) _] Hox Hx s' Hk Hout. split; try done; simpl.
  - apply (pinv_slabs_ext p pool bs base (dj_slabs s)); [done|]. intros m y HR. rewrite lookup_delete_ne; [done|]. intros ->. by apply (Hx m).
  - assert (forall a tg, outer s a tg -> tg <> tag_slab -> outer s' a tg) as Hkeep.
    { intros a tg Ho Htg. apply Hout. split; [done|]. intros ->. apply Htg. destruct Ho as [Ho _], Hox as [Hox _]. congruence. }
    split_and!; [|intros; apply Hkeep; [by apply O2|done]|by apply Hkeep..].
    intros m y HR. apply Hout. split; [by apply (O1 m)|]. intros ->. by apply (Hx m).
Qed.

Lemma wp_release_either s lk R P G n lf m x (Q : unit -> djstate H W -> Prop) : dinv s lk R (Some (lf, m, x)) P G n -> room n 1 ->
  R !! m = Some x \/ (R !! m = None /\ x <> 0 /\ outer s x tag_slab /\ forall m', R !! m' <> Some x) ->
  (forall s', dinv s' lk R None P G (n + 1) -> Q tt s') -> wp (release_slab (Some lf)) Q s.
Proof using H1.
  intros HI Hroom Hcase HQ. destruct Hcase as [HR|(HR & Hx0 & Hox & Hx)]; [by apply (wp_release s R P G n lf m x Q lk)|].
  unfold release_slab. destruct Hroom as [Hr1 _]. apply wp_bind, (wp_release_removed s R n lf m x tag_slab); [apply HI|apply HI|lia|done|done|done|].
  intros y s1 h Hmv s' Hk Hout. wp_step. apply HQ. destruct HI as [? ? ? ? ? ? ? ?]. apply (dinv_slab_freed s s1 h lk R P G (n + 1) x); try done; try lia.
  eapply pp_mono; [done|lia].
Qed.

Lemma wp_free s G N ptr pl (Q : umf_result_t -> djstate H W -> Prop) : dpool s G N -> room N 4 -> G !! ptr = Some pl ->
  (forall s', dpool s' (delete ptr G) (N + 4) -> Q UMF_RESULT_SUCCESS s') ->
  (forall s' r k, pl = Direct k -> r <> UMF_RESULT_SUCCESS -> dpool s' G (N + 4) -> Q r s') ->
  wp (disjoint_pool_free pool ptr) Q s.
Proof using Hp H1 Hbase.
  intros (R & P & n & HI & HN) Hroom HG HQ Hfail. pose proof (spent_room _ _ _ _ HN Hroom) as [Hr1 Hr2].
  destruct (user_range _ _ _ _ _ _ _ _ _ HI HG) as (k & HPc & Hc & Hu & He & Hptr).
  pose proof (ra_wf _ (prov_ranges p _ _ _ (di_prov _ _ _ _ _ _ _ _ _ _ _ HI)) _ _ HPc) as Hrange.
  unfold disjoint_pool_free. rewrite (proj2 (Z.eqb_neq ptr 0)) by lia. destruct (di_pool _ _ _ _ _ _ _ _ _ _ _ HI) as [c Hc'].
  apply wp_bind, (wp_load_pool p pool s c); [done|]. apply (wp_lookup s R P G n ptr pl); [done|split; lia|done|..].
  - intros k0 s1 -> HI1. simpl in *.
    destruct (us_direct _ _ _ _ _ _ (pi_users _ _ _ _ _ _ _ _ _ _ _ (di_inv _ _ _ _ _ _ _ _ _ _ _ HI)) _ _ HG) as [HPk _]. rewrite HPc in HPk. injection HPk as ->.
    apply wp_bind, (wp_alloc_info s1 P (n + 2) ptr k0); [apply HI1|lia|done|lia|]. intros w i Ei HP'. rewrite bool_decide_true by done. simpl. rewrite Ei.
    pose proof (dinv_world s1 w None R None P P G (n + 2) HI1 HP' (di_inv _ _ _ _ _ _ _ _ _ _ _ HI1)) as HI2.
    apply wp_bind, (wp_prov_free p _ P (n + 2 + 1)); [apply HI2|lia|done|]. intros r w2 P2 HP2 Hcase. destruct Hcase as [[-> ->]|[Hr ->]].
    + rewrite bool_decide_true by done. simpl. wp_step. wp_step. apply HQ. exists R, (delete ptr P), (n + 2 + 1 + 1). split; [|unfold spent in *; lia].
      pose proof (pinv_direct_free _ _ _ _ _ _ _ _ _ _ _ _ _ (di_inv _ _ _ _ _ _ _ _ _ _ _ HI2) HG) as Hpi.
      destruct HI2 as [? ? Hk2 ? ? ? ? ?]. split; try done; simpl; try lia. by eapply known_mono; [|done]; lia.
    + rewrite bool_decide_false by done. simpl. wp_step. wp_step. apply (Hfail _ r k0); [done|done|]. exists R, P, (n + 2 + 1 + 1). split; [|unfold spent in *; lia].
      apply dinv_tls, (dinv_world _ w2 None R None P P G (n + 2 + 1) HI2 HP2), HI2.
  - intros x m z i lf s1 -> HI1. pose proof (di_inv _ _ _ _ _ _ _ _ _ _ _ HI1) as Hpi. simpl in HPc, Hc, Hu, He, Hrange.
    destruct (us_chunk _ _ _ _ _ _ (pi_users _ _ _ _ _ _ _ _ _ _ _ Hpi) _ _ _ _ _ HG) as (HR & sl & Hx & Hz & Hi & _ & Hin & Hend).
    destruct (slab_at _ _ _ _ Hp _ _ _ _ _ _ _ _ _ Hpi HR) as (sl' & z' & b & Hx' & Em & Hsl & HPm & Hina & Hb & Ez & Hok).
    rewrite Hx in Hx'. injection Hx' as <-. assert (z' = z) as -> by (eapply size_at_fun; [done|apply Hsl|done]).
    pose proof (slab_bytes_bounds _ _ _ Hp _ _ Hz) as (_ & Hsb & _). rewrite <- (so_bytes _ _ _ _ Hsl) in Hsb. rewrite HPm in HPc. injection HPc as <-.
    destruct (pi_slabs _ _ _ _ _ _ _ _ _ _ _ Hpi m x HR) as [Hx0 _]. pose proof (po_min _ _ _ Hp) as Hmin.
    apply wp_bind, (wp_load_slab s1 x sl); [done|]. apply wp_bind, (wp_slab_end p pool s1 sl b); [apply HI1|done|apply Hok|rewrite Em; unfold is_u64; lia|].
    unfold slab_get. rewrite Em, (proj2 (Z.ltb_ge ptr m)), (proj2 (Z.leb_gt (m + smin) ptr)) by lia. cbn [orb].
    apply wp_bind, (wp_lock_bucket p pool bs base Hp s1 R (Some (lf, m, x)) P G (n + 1)); [done..|]. intros s2 Es2 _ HI2. rewrite <- Es2 in Hx.
    destruct (slab_at _ _ _ _ Hp _ _ _ _ _ _ _ _ _ (di_inv _ _ _ _ _ _ _ _ _ _ _ HI2) HR) as (sl' & z' & b2 & Hx' & _ & Hsl2 & _ & _ & Hb2 & Ez2 & _).
    rewrite Hx in Hx'. injection Hx' as <-. assert (z' = z) as -> by (eapply size_at_fun; [done|apply Hsl2|done]).
    destruct (wp_chunk_of _ _ _ _ _ _ _ _ _ _ _ _ sl b2 HI2 HG Hx Hb2 Em Ez2) as (Ei & Eu & Hzp).
    apply wp_bind, (wp_get_chunk_idx s2 ptr sl b2); [done|lia|]. rewrite Em, Ez2, Ei. apply wp_bind, (wp_get_unaligned s2 i sl b2); [done|]. rewrite Em, Ez2, Eu.
    apply wp_bind, (wp_bucket_free_chunk p pool bs base Hp Hbase s2 R P G (n + 1) (slab_bucket sl) lf x m z i ptr); [done|split; lia|done|by intros sl' Hsl'; congruence|].
    intros s3 r R3 P3 HR3 Hox HI3. apply wp_if_assert; [done|].
    apply wp_bind, (wp_release_either s3 (Some (slab_bucket sl, 0)) R3 P3 (delete ptr G) (n + 1 + 2) lf m x); [done|split; lia| |].
    { destruct HR3 as [->| ->]; [by left|right]. rewrite lookup_delete_eq. split_and!; [done|done|done|]. intros m' [Hne HR']%lookup_delete_Some.
      apply Hne. by eapply reg_inj; [apply Hpi|..]. }
    intros s4 HI4. apply wp_bind.
    assert (forall s5, dinv s5 (Some (slab_bucket sl, 0)) R3 None P3 (delete ptr G) (n + 1 + 2 + 1) -> wp (_ ← unlock_bucket (slab_bucket sl); mret UMF_RESULT_SUCCESS) Q s5) as Hend'.
    { intros s5 HI5. apply wp_bind, (wp_unlock_bucket p pool bs base Hp s5 R3 None P3 (delete ptr G) (n + 1 + 2 + 1)); [done..|]. intros s6 _ _ HI6. wp_step. apply HQ.
      exists R3, P3, (n + 1 + 2 + 1). split; [done|]. assert (Z.of_nat (size R3) <= Z.of_nat (size R)); [|unfold spent in *; lia].
      destruct HR3 as [->| ->]; [lia|]. rewrite map_size_delete. destruct (R !! m); simpl; lia. }
    destruct (_ >? 1); [|wp_step; by apply Hend'].
    destruct (pi_buckets _ _ _ _ _ _ _ _ _ _ _ (di_inv _ _ _ _ _ _ _ _ _ _ _ HI4) _ Hina) as (b4 & Hb4 & _). apply wp_bind, (wp_load_bucket s4 _ b4); [done|].
    unfold store_bucket. wp_step. apply Hend'. eapply (dinv_stats _ _ _ _ Hp s4 _ _ _ _ _ _ _ _ b4); [done..|apply HI4].
Qed.

(** ** [trim_memory] *)

(** The slabs [l] of the bucket [a] have free chunks. *)
Definition trimmable s R (a : Z) (l : list Z) : Prop := NoDup l /\ forall x, x ∈ l ->
  exists m sl, R !! m = Some x /\ dj_slabs s !! x = Some sl /\ slab_bucket sl = a /\ mem_ptr sl = m.

Lemma trimmable_tail s s' R R' a x l : trimmable s R a (x :: l) -> (forall y, y <> x -> dj_slabs s' !! y = dj_slabs s !! y) ->
  (forall m y, R !! m = Some y -> y <> x -> R' !! m = Some y) -> trimmable s' R' a l.
Proof using.
  intros [Hnd Hl] Hs HR. apply list.NoDup_cons in Hnd as [Hx Hnd]. split; [done|]. intros y Hy.
  destruct (Hl y) as (m & sl & Hm & Hsl & ?); [by constructor|]. assert (y <> x) by (by intros ->). exists m, sl. rewrite Hs by done. split; [by apply HR|done].
Qed.

(** One empty slab is given back. *)
Lemma wp_trim_slab {A} s R P G n N a x m sl (K : M (djstate H W) A) (Q : A -> djstate H W -> Prop) :
  dinv s (Some (a, 0)) R None P G n -> spent n R <= N -> room N 0 -> R !! m = Some x -> dj_slabs s !! x = Some sl -> slab_bucket sl = a -> mem_ptr sl = m ->
  num_chunks_allocated sl = 0 ->
  (forall s' P' n', (forall y, y <> x -> dj_slabs s' !! y = dj_slabs s !! y) -> dinv s' (Some (a, 0)) (delete m R) None P' G n' -> spent n' (delete m R) <= N -> wp K Q s') ->
  wp (_ ← destroy_slab x;
      b ← load_bucket a;
      avail ← of_option (dl_delete x (available_slabs b));
      _ ← c_assert (0 <? available_slabs_num b);
      _ ← store_bucket a (with_slabs avail (sub64 (available_slabs_num b) 1) (unavailable_slabs b) b);
      _ ← pool_unregister_slab pool x;
      _ ← bucket_update_stats a 0 (-1);
      K) Q s.
Proof using Hp H1 Hbase.
  intros HI HN [Hr1 Hr2] HR Hx Ea Em Hc HK. pose proof (di_inv _ _ _ _ _ _ _ _ _ _ _ HI) as Hpi.
  assert (Z.of_nat (size (delete m R)) + 1 = Z.of_nat (size R)) as Hsz.
  { rewrite map_size_delete_Some by (by rewrite HR). assert (size R <> 0%nat); [|lia]. intros E. apply map_size_empty_iff in E. by rewrite E, lookup_empty in HR. }
  assert (a ∈ bs) as Hin by (destruct (slab_at _ _ _ _ Hp _ _ _ _ _ _ _ _ _ Hpi HR) as (sl' & ? & ? & Hx' & _ & _ & _ & ? & _); congruence).
  destruct (pi_slabs _ _ _ _ _ _ _ _ _ _ _ Hpi m x HR) as [Hx0 _]. pose proof HI as [Hpo Har Hk Hpr Hcn Hsz0 Hpi0 Hob].
  apply (wp_drop_slab p pool bs base Hp s 0 0 R None P G n a x m sl (fun _ => _ ← pool_unregister_slab pool x; _ ← bucket_update_stats a 0 (-1); K)); try done;
    [unfold room, spent in *; lia|].
  intros s3 b3 P3 Eh3 Ec3 Es3 Ear3 Epo3 HP3 _ Hpi3. unfold pool_unregister_slab. apply wp_bind. apply wp_bind, (wp_load_slab s3 x sl); [by rewrite Es3|].
  apply wp_bind. unfold slab_get. rewrite Em. pose proof (outer_ext s s3 Eh3 Ec3) as Ho3.
  apply (wp_remove_slab s3 R n m x tag_slab); [by apply (known_ext s)|done|unfold spent in *; lia|done|done|apply Ho3; by apply (proj1 Hob m)|].
  intros y s4 h Hmv s5 Hk5 Hout5. wp_step.
  assert (dinv s5 (Some (a, 0)) (delete m R) None P3 G (n + 1)) as HI5.
  { apply (dinv_slab_freed s3 s4 h (Some (a, 0)) (delete m R) P3 G (n + 1) x); rewrite ?Epo3, ?Ear3; try done; try lia.
    - apply (objs_ext p pool bs s); [done|]. destruct Hob as (O1 & Ho). split; [|done]. intros m' y' [_ HR']%lookup_delete_Some. by apply (O1 m').
    - apply Ho3. by apply (proj1 Hob m).
    - intros m' [Hne HR']%lookup_delete_Some. apply Hne. by eapply reg_inj; [apply Hpi|..]. }
  apply wp_bind. eapply (wp_bucket_stats p pool bs base Hp); [exact HI5|done|]. intros s6 Es6 _ _ _ HI6. apply (HK s6 P3 (n + 1)); [|done|unfold spent in *; lia].
  intros y' Hy'. rewrite Es6. unfold s5. simpl. rewrite lookup_delete_ne by done. destruct Hmv as [(h4 & k4 & ->) _]. simpl. by rewrite Es3.
Qed.

Lemma wp_trim_slabs s R P G n N a l keep (Q : Z -> djstate H W -> Prop) :
  dinv s (Some (a, 0)) R None P G n -> spent n R <= N -> room N 0 -> trimmable s R a l ->
  (forall s' R' P' n' keep', dinv s' (Some (a, 0)) R' None P' G n' -> spent n' R' <= N -> Q keep' s') ->
  wp (trim_slabs pool a l keep) Q s.
Proof using Hp H1 Hbase.
  intros HI HN Hroom Htr HQ. revert s R P n keep HI HN Htr. induction l as [|x l IH]; intros s R P n keep HI HN Htr; simpl; [wp_step; by eapply HQ|].
  destruct (proj2 Htr x) as (m & sl & HR & Hx & Ea & Em); [by constructor|]. apply wp_bind, (wp_load_slab s x sl); [done|].
  assert (trimmable s R a l) as Htl by (eapply trimmable_tail; [done..|by intros]). destruct (Z.eqb_spec (num_chunks_allocated sl) 0) as [Hc|Hc]; [|by apply (IH s R P n)].
  destruct (keep >? 0); [by apply (IH s R P n)|]. apply (wp_trim_slab s R P G n N a x m sl); [done..|]. intros s' P' n' Hs' HI' HN'. apply (IH s' (delete m R) P' n'); [done|done|].
  eapply trimmable_tail; [done|done|]. intros m' y Hy Hne. rewrite lookup_delete_ne; [done|]. intros <-. congruence.
Qed.

Lemma wp_trim_buckets s G N c j i keep (Q : unit -> djstate H W -> Prop) :
  dpool s G N -> room N 0 -> 0 <= i -> Z.of_nat j + i <= Z.of_nat (length bs) -> (forall s', dpool s' G N -> Q tt s') ->
  wp (trim_buckets j pool (with_cur_pool_size c p) i keep) Q s.
Proof using Hp H1 Hbase.
  intros HD Hroom Hi Hj HQ. revert s i keep HD Hi Hj. induction j as [|j IH]; intros s i keep (R & P & n & HI & HN) Hi Hj; simpl; [wp_step; apply HQ; by exists R, P, n|].
  destruct (lookup_lt_is_Some_2 bs (Z.to_nat i)) as [a Ha]; [lia|]. assert (a ∈ bs) as Hin by (by eapply list_elem_of_lookup_2).
  apply wp_bind, (wp_bucket_ptr bs s _ i a); [apply HI|done|]. apply wp_bind, (wp_lock_bucket p pool bs base Hp s R None P G n); [done..|]. intros s1 _ _ HI1.
  destruct (pi_buckets _ _ _ _ _ _ _ _ _ _ _ (di_inv _ _ _ _ _ _ _ _ _ _ _ HI1) a Hin) as (b & Hb & Hok). apply wp_bind, (wp_load_bucket s1 a b); [done|].
  apply wp_bind, (wp_trim_slabs s1 R P G n N a (available_slabs b)); [done..| |].
  { split; [pose proof (bk_nodup _ _ _ _ _ _ _ _ Hok) as Hnd; by apply NoDup_app in Hnd as [? _]|]. intros x Hx.
    apply (bk_avail _ _ _ _ _ _ _ _ Hok) in Hx as (sl & ? & ? & ? & _). eauto 8. }
  intros s2 R2 P2 n2 keep' HI2 HN2. apply wp_bind, (wp_unlock_bucket p pool bs base Hp s2 R2 None P2 G n2); [done..|]. intros s3 _ _ HI3.
  apply IH; [by exists R2, P2, n2|lia|lia].
Qed.

Lemma wp_trim s G N keep (Q : umf_result_t -> djstate H W -> Prop) : dpool s G N -> room N 0 ->
  (forall s', dpool s' G N -> Q UMF_RESULT_SUCCESS s') -> wp (disjoint_pool_trim_memory pool keep) Q s.
Proof using Hp H1 Hbase.
  intros HD Hroom HQ. unfold disjoint_pool_trim_memory. apply wp_if_assert; [by rewrite (proj2 (Z.eqb_neq _ _) (po_pool _ _ _ Hp))|].
  pose proof HD as (R & P & n & HI & HN). destruct (di_pool _ _ _ _ _ _ _ _ _ _ _ HI) as [c Hc]. apply wp_bind, (wp_load_pool p pool s c); [done|].
  apply wp_bind, (wp_trim_buckets s G N); [done|done|lia| |].
  - simpl. rewrite (po_num _ _ _ Hp), (po_bs _ _ _ Hp), Z2Nat.id; [lia|]. pose proof (po_bs _ _ _ Hp). lia.
  - intros s' HD'. wp_step. by apply HQ.
Qed.
End Free.
