(* ===== verification/DisjointSpec.v ===== *)
(** * The abstract disjoint pool

    What a client of the pool relies on: a map from the pointers it holds to
    the sizes it may use, which do not overlap.  The calls of every client
    that obeys the rules refine it. *)

From S2P Require Import Prelude Utils HostMem CritQuery CritDelete CritSpec CritInsert CritRemove CritInv CritWorld.
From stdpp Require Import strings list.
From S2P Require Import Critnib Tracker PoolProvider DisjointPool DisjointApi DisjointSize DisjointInv DisjointSteps DisjointOps DisjointCalls.
#[local] Open Scope Z_scope.

Inductive dcall :=
| DMalloc (size : Z)
| DAligned (size alignment : Z)
| DCalloc (num size : Z)
| DRealloc (ptr size : Z)
| DUsable (ptr : Z)
| DFree (ptr : Z)
| DTrim (minBytesToKeep : Z).

Inductive dres :=
| DPtr (ptr : Z)
| DResult (r : umf_result_t)
| DSize (r : umf_result_t) (size : option Z).

(** The pointers of the client, with their sizes. *)
Abbreviation dview := (gmap Z Z).

(** [size] bytes at a new pointer, or NULL. *)
Definition dallocated (U : dview) (size : Z) (r : dres) (U' : dview) : Prop :=
  (r = DPtr 0 /\ U' = U) \/
  exists ptr n, r = DPtr ptr /\ ptr <> 0 /\ 0 < size <= n /\ U !! ptr = None /\
    (forall q k, U !! q = Some k -> q + k <= ptr \/ ptr + n <= q) /\ U' = <[ptr := n]> U.

(** The results and the pointers after a call. *)
Definition dstep (U : dview) (c : dcall) (r : dres) (U' : dview) : Prop :=
  match c with
  | DMalloc size => dallocated U size r U'
  | DAligned size al => dallocated U size r U' /\ (forall ptr, r = DPtr ptr -> ptr mod al = 0)
  | DCalloc _ _ | DRealloc _ _ => r = DPtr 0 /\ U' = U
  | DUsable ptr => r = DSize UMF_RESULT_SUCCESS (Some (default 0 (U !! ptr))) /\ U' = U
  | DFree ptr =>
    (r = DResult UMF_RESULT_SUCCESS /\ U' = delete ptr U) \/ (exists e, e <> UMF_RESULT_SUCCESS /\ r = DResult e /\ is_Some (U !! ptr) /\ U' = U)
  | DTrim _ => r = DResult UMF_RESULT_SUCCESS /\ U' = U
  end.

Fixpoint dsteps (U : dview) (evs : list (dcall * dres)) (U' : dview) : Prop :=
  match evs with
  | [] => U' = U
  | (c, r) :: evs => exists U1, dstep U c r U1 /\ dsteps U1 evs U'
  end.

Lemma dsteps_snoc U evs U1 c r U2 : dsteps U evs U1 -> dstep U1 c r U2 -> dsteps U (evs ++ [(c, r)]) U2.
Proof.
  revert U. induction evs as [|[c' r'] evs IH]; intros U; simpl; [intros -> Hst; by exists U2|]. intros (U' & Hst & Hs) Hl. exists U'. split; [done|by apply IH].
Qed.

(** The client chooses each call by the calls and results before it. *)
Abbreviation client := (list (dcall * dres) -> dcall).

Section Spec.
Context (p : disjoint_pool_t) (pool : Z).

(** The rules for the client: it frees and asks for its own pointers, and
    the alignments are those of [align_ok]. *)
Definition dobeys (U : dview) (c : dcall) : Prop :=
  match c with
  | DMalloc size => is_u64 size
  | DAligned size al => is_u64 size /\ align_ok p size al
  | DUsable ptr | DFree ptr => ptr = 0 \/ is_Some (U !! ptr)
  | _ => True
  end.

Definition client_obeys (c : client) : Prop := forall evs U, dsteps ∅ evs U -> dobeys U (c evs).
End Spec.

Section Run.
Context `{HostAlloc H} `{PoolProvider W}.
Definition run_dcall (pool : Z) (c : dcall) : M (djstate H W) dres :=
  match c with
  | DMalloc size => x ← disjoint_pool_malloc pool size; mret (DPtr x)
  | DAligned size al => x ← disjoint_pool_aligned_malloc pool size al; mret (DPtr x)
  | DCalloc num size => x ← disjoint_pool_calloc pool num size; mret (DPtr x)
  | DRealloc ptr size => x ← disjoint_pool_realloc pool ptr size; mret (DPtr x)
  | DUsable ptr => x ← disjoint_pool_malloc_usable_size pool ptr (Some 0); mret (DSize x.1 x.2)
  | DFree ptr => x ← disjoint_pool_free pool ptr; mret (DResult x)
  | DTrim keep => x ← disjoint_pool_trim_memory pool keep; mret (DResult x)
  end.

(** [k] calls of the client, after the calls [evs]. *)
Fixpoint run_client (pool : Z) (c : client) (k : nat) (evs : list (dcall * dres)) : M (djstate H W) (list (dcall * dres)) :=
  match k with
  | O => mret evs
  | S k => r ← run_dcall pool (c evs); run_client pool c k (evs ++ [(c evs, r)])
  end.
End Run.

Section Refine.
Context `{HostAllocLaws H} `{PoolProviderLaws W}.
Context (p : disjoint_pool_t) (pool : Z) (bs : list Z) (base : Z).
Hypothesis Hp : pool_ok p pool bs.
Hypothesis Hbase : 0 <= base <= MAX_BASE.
Hypothesis Hpage : provider_min_page_size p = 0 \/ (pow2 (provider_min_page_size p) /\ provider_min_page_size p <= pp_page).
Implicit Types (s : djstate H W) (G : gmap Z place).
Abbreviation dpool := (dpool p pool bs base).
Abbreviation allocated := (allocated p pool bs base).

Lemma user_nonnull s G N ptr pl : dpool s G N -> G !! ptr = Some pl -> ptr <> 0.
Proof using Hp.
  intros (R & P & n & HI & _) HG ->. destruct (user_range p pool bs base Hp _ _ _ _ _ _ _ _ _ HI HG) as (k & HPc & Hc & _).
  pose proof (ra_wf _ (prov_ranges p _ _ _ (di_prov _ _ _ _ _ _ _ _ _ _ _ HI)) _ _ HPc). lia.
Qed.

(** The pointers of [G] are apart from each other. *)
Lemma dpool_apart s G N q ptr pl pl' : dpool s G N -> G !! q = Some pl' -> G !! ptr = Some pl -> q <> ptr ->
  q + usable q pl' <= ptr \/ ptr + usable ptr pl <= q.
Proof using Hp.
  intros (R & P & n & HI & _) Hq Hptr Hne. pose proof (prov_ranges p _ _ _ (di_prov _ _ _ _ _ _ _ _ _ _ _ HI)) as Hra.
  destruct (Z.lt_trichotomy q ptr) as [Hl|[?|Hg]]; [left|done|right].
  - by apply (users_apart _ _ _ _ Hp _ _ _ _ _ _ _ q ptr pl' pl (di_inv _ _ _ _ _ _ _ _ _ _ _ HI)).
  - by apply (users_apart _ _ _ _ Hp _ _ _ _ _ _ _ ptr q pl pl' (di_inv _ _ _ _ _ _ _ _ _ _ _ HI)).
Qed.

Lemma allocated_view s G N size ptr : (size = 0 -> ptr = 0) -> 0 <= size -> allocated G N size ptr s ->
  exists G', dallocated (uview G) size (DPtr ptr) (uview G') /\ dpool s G' N.
Proof using Hp.
  intros Hz Hs [[-> HD]|(pl & Hp0 & HG & Hle & HD)]; [exists G; split; [by left|done]|]. exists (<[ptr := pl]> G). split; [|done]. right.
  exists ptr, (usable ptr pl). split_and!; [done|done|destruct (Z.eq_dec size 0) as [E|]; [by apply Hz in E|lia]|done|by rewrite uview_lookup, HG| |by rewrite uview_insert].
  intros q k Hq. rewrite uview_lookup in Hq. destruct (G !! q) as [pl'|] eqn:HGq; [|done]. injection Hq as <-.
  assert (q <> ptr) as Hne by congruence. apply (dpool_apart s (<[ptr := pl]> G) N); [done| |by rewrite lookup_insert_eq|done]. by rewrite lookup_insert_ne.
Qed.

Lemma wp_dcall s G N c : dpool s G N -> room N 4 -> dobeys p (uview G) c ->
  wp (run_dcall pool c) (fun r s' => exists G', dstep (uview G) c r (uview G') /\ dpool s' G' (N + 4)) s.
Proof using Hp H1 Hbase Hpage.
  intros HD Hroom Hob. destruct c as [size|size al|num size|ptr size|ptr|ptr|keep]; simpl in Hob; cbn [run_dcall]; apply wp_bind.
  - apply (wp_allocate p pool bs base Hp Hbase s G N size); [done|done|done|]. intros s' ptr Hz Ha. wp_step. apply (allocated_view s'); [done|apply Hob|done].
  - destruct Hob as [Hu Hal]. apply (wp_aligned_malloc p pool bs base Hp Hbase Hpage s G N size al); [done|done|done|done|]. intros s' ptr Hz Hm Ha. wp_step.
    destruct (allocated_view s' G (N + 4) size ptr Hz (proj1 Hu) Ha) as (G' & Hst & HD'). exists G'. split; [|done]. split; [done|].
    intros ptr' [= <-]. destruct (Z.eq_dec ptr 0) as [->|Hne]; [|by apply Hm]. apply Z.mod_0_l. destruct Hal as [Hal _]. pose proof (pow2_pos _ Hal). lia.
  - unfold disjoint_pool_calloc. wp_step. wp_step. wp_step. exists G. split; [done|]. destruct HD as (R & P & n & HI & HN). exists R, P, n. split; [by apply dinv_tls|lia].
  - unfold disjoint_pool_realloc. wp_step. wp_step. wp_step. exists G. split; [done|]. destruct HD as (R & P & n & HI & HN). exists R, P, n. split; [by apply dinv_tls|lia].
  - destruct (G !! ptr) as [pl|] eqn:HG.
    + apply (wp_usable_size p pool bs base Hp Hbase s G N ptr pl); [done|done|apply Hp|done|]. intros s' HD'. wp_step. exists G. simpl.
      rewrite uview_lookup, HG. done.
    + destruct Hob as [->|[k Hk]]; [|by rewrite uview_lookup, HG in Hk]. unfold disjoint_pool_malloc_usable_size.
      rewrite (proj2 (Z.eqb_neq _ _) (po_pool _ _ _ Hp)). simpl. wp_step. wp_step. exists G. simpl. rewrite uview_lookup, HG. split; [done|]. by apply (dpool_mono _ _ _ _ _ _ N); [lia|].
  - destruct (G !! ptr) as [pl|] eqn:HG.
    + apply (wp_free p pool bs base Hp Hbase s G N ptr pl); [done|done|done|..].
      * intros s' HD'. wp_step. exists (delete ptr G). rewrite uview_delete. split; [by left|done].
      * intros s' r k _ Hr HD'. wp_step. exists G. split; [|done]. right. exists r. rewrite uview_lookup, HG. split_and!; [done|done|by eexists|done].
    + destruct Hob as [->|[k Hk]]; [|by rewrite uview_lookup, HG in Hk]. unfold disjoint_pool_free. simpl. wp_step. wp_step. exists G. split.
      * left. split; [done|]. symmetry. apply delete_id. by rewrite uview_lookup, HG.
      * by apply (dpool_mono _ _ _ _ _ _ N); [lia|].
  - apply (wp_trim p pool bs base Hp Hbase s G N keep); [done|unfold room in *; lia|]. intros s' HD'. wp_step. exists G. split; [done|]. by apply (dpool_mono _ _ _ _ _ _ N); [lia|].
Qed.

Lemma wp_client c k evs s G N : client_obeys p c -> dsteps ∅ evs (uview G) -> dpool s G N -> room N (4 * Z.of_nat k) ->
  wp (run_client pool c k evs) (fun evs' s' => length evs' = (length evs + k)%nat /\ exists G', dsteps ∅ evs' (uview G') /\ dpool s' G' (N + 4 * Z.of_nat k)) s.
Proof using Hp H1 Hbase Hpage.
  intros Hob. revert evs s G N. induction k as [|k IH]; intros evs s G N Hst HD Hroom; cbn [run_client].
  - wp_step. split; [lia|]. exists G. split; [done|]. by apply (dpool_mono _ _ _ _ _ _ N); [lia|].
  - apply wp_bind. eapply wp_mono; [apply (wp_dcall s G N); [done|unfold room in *; lia|by apply Hob]|]. intros r s1 (G1 & Hs1 & HD1).
    eapply wp_mono; [apply (IH _ s1 G1 (N + 4)); [by eapply dsteps_snoc|done|unfold room in *; lia]|].
    intros evs' s' (Hl & G' & Hst' & HD'). rewrite length_app in Hl. simpl in Hl. split; [lia|]. exists G'. split; [done|].
    by apply (dpool_mono _ _ _ _ _ _ (N + 4 + 4 * Z.of_nat k)); [lia|].
Qed.
End Refine.
