(* ===== verification/DisjointLife.v ===== *)
(** * The life of the disjoint pool

    The rules for [disjoint_pool_initialize] and [disjoint_pool_finalize].
    [outers s M]: [M] has the live objects of the host allocator that are not
    of the critnib, so that what the functions allocate and free can be said. *)

From S2P Require Import Prelude Utils HostMem CritQuery CritDelete CritSpec CritInsert CritRemove CritInv CritWorld.
From stdpp Require Import strings list sorting.
From S2P Require Import Critnib Tracker PoolProvider DisjointPool DisjointApi DisjointSize DisjointInv DisjointSteps DisjointOps DisjointCalls.
#[local] Open Scope Z_scope.

Section Outers.
Context `{HostAllocLaws H} `{PoolProvider W}.
Implicit Types (s : djstate H W) (M : gmap Z string) (R : gmap Z Z).

Definition outers s M : Prop := forall a tg, outer s a tg <-> M !! a = Some tg.

Lemma outers_live s : dj_crit s = None -> outers s (ba_live (dj_host s)).
Proof. intros E a tg. unfold outer. rewrite E. naive_solver. Qed.

Lemma live_outers s M : dj_crit s = None -> outers s M -> ba_live (dj_host s) = M.
Proof. intros E HM. apply map_eq. intros a. apply option_eq. intros tg. rewrite <- (HM a tg). unfold outer. rewrite E. naive_solver. Qed.

Lemma exists_outers s : exists M, outers s M.
Proof.
  destruct (dj_crit s) as [k|] eqn:Ek; [|eexists; by apply outers_live]. exists (rest_of k (dj_host s)). intros a tg. unfold outer. rewrite Ek, rest_of_lookup. unfold owns. split.
  - intros [Hl Ho]. destruct (own_tag k a) eqn:E; [exfalso; apply (Ho k); [done|by rewrite E]|done].
  - destruct (own_tag k a) eqn:E; [done|]. intros Hl. split; [done|]. intros ? [= <-] [? ?]. congruence.
Qed.

Lemma outers_ext s s' M : dj_host s' = dj_host s -> dj_crit s' = dj_crit s -> outers s M -> outers s' M.
Proof. intros Eh Ec HM a tg. rewrite <- (HM a tg). by apply outer_ext. Qed.

Lemma outers_insert s s' M x tg : outers s M -> outer s' x tg -> (forall a tg', a <> x -> outer s' a tg' <-> outer s a tg') -> outers s' (<[x := tg]> M).
Proof.
  intros HM Hx Ho a tg'. destruct (decide (x = a)) as [<-|Hne].
  - rewrite lookup_insert_eq. split; [|by intros [= <-]]. intros [Hl _]. destruct Hx as [Hl' _]. congruence.
  - rewrite lookup_insert_ne, Ho by done. apply HM.
Qed.

Lemma outers_delete s s' M x : outers s M -> (forall a tg', outer s' a tg' <-> outer s a tg' /\ a <> x) -> outers s' (delete x M).
Proof. intros HM Ho a tg'. rewrite Ho, (HM a tg'), lookup_delete_Some. naive_solver. Qed.

(** An object is allocated beside the critnib. *)
Lemma wp_alloc_outers s R n M tg size (Q : Z -> djstate H W -> Prop) : known s R None n -> outers s M ->
  (forall h, let s' := with_dj_host h s in known s' R None n -> outers s' M -> Q 0 s') ->
  (forall x h, let s' := with_dj_host h s in x <> 0 -> M !! x = None -> known s' R None n -> outers s' (<[x := tg]> M) -> Q x s') ->
  wp (dj_alloc tg size) Q s.
Proof.
  intros Hk HM Hnone Hsome. apply (wp_alloc_obj s R None n); [done|..].
  - intros h s' Hk' Ho. apply Hnone; [done|]. intros a tg'. etrans; [apply Ho|apply HM].
  - intros x h s' Hx Hk' Ho Hfr Hothers. apply Hsome; [done| |done|by apply (outers_insert s)].
    destruct (M !! x) as [tg'|] eqn:E; [|done]. apply HM in E. by destruct (Hfr tg').
Qed.

(** An object beside the critnib is freed. *)
Lemma wp_free_outers s R n M x tg (Q : unit -> djstate H W -> Prop) : known s R None n -> outers s M -> M !! x = Some tg -> x <> 0 ->
  (forall h, let s' := with_dj_host h s in known s' R None n -> outers s' (delete x M) -> Q tt s') -> wp (dj_free x) Q s.
Proof.
  intros Hk HM Hx Hne HQ. unfold dj_free. rewrite (proj2 (Z.eqb_neq _ _) Hne). wp_step. apply HM in Hx.
  destruct (known_free s R None n x tg Hx Hk) as [Hk' Ho]. apply HQ; [done|]. by apply (outers_delete s).
Qed.

(** The same without a critnib. *)
Lemma wp_alloc_live s tg size (Q : Z -> djstate H W -> Prop) : dj_crit s = None ->
  (forall h, ba_live h = ba_live (dj_host s) -> Q 0 (with_dj_host h s)) ->
  (forall x h, x <> 0 -> ba_live (dj_host s) !! x = None -> ba_live h = <[x := tg]> (ba_live (dj_host s)) -> Q x (with_dj_host h s)) ->
  wp (dj_alloc tg size) Q s.
Proof.
  intros Ec Hnone Hsome. unfold dj_alloc. wp_step. destruct (umf_ba_global_alloc tg size (dj_host s)) as [[x|] h] eqn:Ea; wp_step; wp_step; simpl.
  - destruct (ba_alloc_some _ _ _ _ _ Ea). apply Hsome; [by eapply ba_alloc_nonnull|done|done].
  - apply Hnone. by eapply ba_alloc_none.
Qed.

Lemma wp_free_live s x tg (Q : unit -> djstate H W -> Prop) : ba_live (dj_host s) !! x = Some tg -> x <> 0 ->
  (forall h, ba_live h = delete x (ba_live (dj_host s)) -> Q tt (with_dj_host h s)) -> wp (dj_free x) Q s.
Proof. intros Hx Hne HQ. unfold dj_free. rewrite (proj2 (Z.eqb_neq _ _) Hne). wp_step. apply HQ, ba_free_live. by rewrite Hx. Qed.

(** ** The critnib is created and deleted *)

Lemma wp_new_known s (Q : Z -> djstate H W -> Prop) : dj_crit s = None ->
  (forall h l, ba_live h = ba_live (dj_host s) -> Q 0 (with_dj_host h (with_dj_mutex_init l s))) ->
  (forall k h l, let s' := with_dj_host h (with_dj_crit (Some k) (with_dj_mutex_init l s)) in
     known s' ∅ None 0 -> outers s' (ba_live (dj_host s)) -> self (c_crit k) <> 0 -> Q (self (c_crit k)) s') ->
  wp new_known_slabs Q s.
Proof.
  intros Ec Hnone Hsome. unfold new_known_slabs, slabs_mutex_init. apply wp_bind. wp_step. wp_step. wp_step. unfold make_known_slabs, wp. simpl.
  destruct (critnib_new true _ (dj_host s)) as [[k|] h] eqn:Ek; [|apply Hnone; by eapply crit_new_fail].
  destruct (crit_new _ _ _ _ _ Ek) as (Hat & Hown & Hfr & El & Hne). apply Hsome; [| |done].
  - exists k, (cv_new true). split_and!; [done|done|]. by split.
  - intros a tg. unfold outer. simpl. rewrite El. split.
    + intros [Hl Ho]. rewrite lookup_insert_ne in Hl; [done|]. intros <-. by apply (Ho k), owns_self.
    + intros Hl. rewrite lookup_insert_ne by (intros <-; congruence). split; [done|]. intros k' [= <-] Ho. apply Hown in Ho as ->. congruence.
Qed.

Lemma wp_free_slabs s (xs : list Z) (Q : unit -> djstate H W -> Prop) : NoDup xs -> 0 ∉ xs -> (forall x, x ∈ xs -> is_Some (ba_live (dj_host s) !! x)) ->
  (forall h S, ba_live h = foldr delete (ba_live (dj_host s)) xs -> Q tt (with_dj_slabs S (with_dj_host h s))) -> wp (free_slabs xs) Q s.
Proof.
  intros Hnd H0' Hl HQ. revert s Hl HQ. induction Hnd as [|x xs Hx Hnd IH]; intros s Hl HQ; simpl.
  - wp_step. destruct s. by apply HQ.
  - apply not_elem_of_cons in H0' as [Hx0 H0']. apply wp_bind. unfold free_slab. rewrite (proj2 (Z.eqb_neq x 0)) by done.
    destruct (Hl x) as [tg Htg]; [by constructor|]. apply wp_bind, (wp_free_live s x tg); [done|done|]. intros h Eh. wp_step. apply IH; [done|..].
    + intros y Hy. simpl. rewrite Eh, lookup_delete_ne by (intros ->; done). apply Hl. by constructor.
    + intros h' S E. simpl in E. rewrite Eh in E. apply (HQ h' S). rewrite E. simpl. clear -Hx.
      induction xs as [|y xs IH]; [done|]. simpl. rewrite delete_delete, IH; [done|]. by apply not_elem_of_cons in Hx as [_ ?].
Qed.

(** The slabs of the map, in the order of their memory. *)
Lemma live_values_slabs V R l : shows_slabs V R None -> NoDup l.*1 -> (forall x a, (x, a) ∈ l <-> cv_keys V !! x = Some a) ->
  (forall m1 m2 x, R !! m1 = Some x -> R !! m2 = Some x -> m1 = m2) ->
  NoDup (live_values V l) /\ forall x, x ∈ live_values V l <-> exists m, R !! m = Some x.
Proof.
  intros Hsh Hnd Hl Hinj. unfold live_values. rewrite (ss_cb _ _ _ Hsh).
  assert (forall m a, (m, a) ∈ l -> exists x, R !! m = Some x /\ fst <$> cv_elems V !! a = Some x) as Hval.
  { intros m a Hin. apply Hl in Hin. destruct (proj1 (ss_keys _ _ _ Hsh m)) as [x Hx]; [by rewrite Hin|]. exists x. split; [done|].
    by rewrite (ss_elem _ _ _ Hsh _ _ _ Hin Hx). }
  split.
  - assert (forall l', NoDup l'.*1 -> (forall e, e ∈ l' -> e ∈ l) -> NoDup (omap (fun x => fst <$> cv_elems V !! x.2) l')) as Hsub; [|by apply Hsub].
    induction l' as [|[m a] l' IH]; intros Hnd' Hin; csimpl; [constructor|]. apply list.NoDup_cons in Hnd' as [Hm Hnd'].
    destruct (Hval m a) as (x & Hx & ->); [by apply Hin; constructor|]. constructor; [|apply IH; [done|intros; apply Hin; by constructor]].
    intros ([m' a'] & Hin' & Ea')%list_elem_of_omap. simpl in Ea'. destruct (Hval m' a') as (x' & Hx' & Ex'); [by apply Hin; constructor|].
    rewrite Ex' in Ea'. injection Ea' as ->. apply Hm. rewrite (Hinj _ _ _ Hx Hx'). apply list_elem_of_fmap. by exists (m', a').
  - intros x. rewrite list_elem_of_omap. split.
    + intros ([m a] & Hin & Ea). destruct (Hval m a Hin) as (x' & Hx' & Ex'). simpl in Ea. exists m. congruence.
    + intros (m & Hm). destruct (proj2 (ss_keys _ _ _ Hsh m)) as [a Ha]; [by rewrite Hm|]. apply Hl in Ha as Hin. destruct (Hval m a Hin) as (x' & Hx' & Ex').
      exists (m, a). split; [done|]. simpl. congruence.
Qed.

Lemma sorted_NoDup (l : list Z) : StronglySorted Z.lt l -> NoDup l.
Proof.
  induction 1 as [|x l _ IH Hx]; constructor; [|done]. intros Hin. rewrite list.Forall_forall in Hx. specialize (Hx x Hin). lia.
Qed.

Lemma foldr_delete_lookup (M : gmap Z string) xs a : foldr delete M xs !! a = if decide (a ∈ xs) then None else M !! a.
Proof.
  induction xs as [|x xs IH]; [done|]. simpl. destruct (decide (a = x)) as [->|Hne].
  - by rewrite lookup_delete_eq, decide_True by constructor.
  - rewrite lookup_delete_ne, IH by done. destruct (decide (a ∈ xs)); [by rewrite decide_True by (by constructor)|].
    rewrite decide_False; [done|]. by intros [?|?]%elem_of_cons.
Qed.

Lemma wp_delete_known s R n M (Q : unit -> djstate H W -> Prop) : known s R None n -> outers s M ->
  (forall m x, R !! m = Some x -> x <> 0 /\ is_Some (M !! x)) -> (forall m1 m2 x, R !! m1 = Some x -> R !! m2 = Some x -> m1 = m2) ->
  (forall h S, let s' := with_dj_crit None (with_dj_slabs S (with_dj_host h s)) in
     (forall a tg, ba_live h !! a = Some tg <-> M !! a = Some tg /\ forall m, R !! m <> Some a) -> Q tt s') ->
  wp delete_known_slabs Q s.
Proof.
  intros (k & V & Ek & Hat & Hsh) HM HR Hinj HQ. unfold delete_known_slabs. apply wp_bind. unfold wp at 1, on_known_slabs. rewrite Ek.
  assert (all_released V) as Hrel.
  { intros a [v r] He. destruct (decide (cv_linked V a)) as [?|Hn]; [done|]. by destruct (ss_removed _ _ _ Hsh _ _ _ He Hn). }
  pose proof (wp_crit_delete (dj_host s) k V n Hat Hrel) as Hw. unfold wp in Hw.
  destruct (critnib_delete (Critnib.with_host (dj_host s) k)) as [[[] k']|] eqn:Em; [|done]. destruct Hw as (Hrest & l & Hsort & Hl & Efr).
  rewrite (crit_freed _ _ _ _ Hat), Efr, drop_app_length.
  assert (forall a tg, rest_of k (dj_host s) !! a = Some tg <-> M !! a = Some tg) as Hrm.
  { intros a tg. rewrite <- (HM a tg). unfold outer. rewrite rest_of_lookup, Ek. unfold owns. split.
    - destruct (own_tag k a) eqn:E; [done|]. intros Hlv. split; [done|]. intros ? [= <-] [? ?]. congruence.
    - intros [Hlv Ho]. destruct (own_tag k a) eqn:E; [|done]. exfalso. apply (Ho k); [done|]. by rewrite E. }
  destruct (live_values_slabs V R l Hsh) as [Hnd Hin]; [by apply sorted_NoDup|done|done|].
  set (s1 := with_dj_host (c_host k') (with_dj_crit (Some k') s)).
  assert (wp (_ ← free_slabs (live_values V l); mret tt) (fun _ s' => wp (modify (with_dj_crit None)) Q s') s1) as Hgo.
  { apply wp_bind, wp_free_slabs; [done|..].
    - intros [m Hm]%Hin. by destruct (HR _ _ Hm).
    - intros x [m Hm]%Hin. destruct (HR _ _ Hm) as [_ [tg Htg]]. apply Hrm in Htg. unfold s1. simpl. rewrite Hrest, Htg. eauto.
    - intros h S Eh. wp_step. wp_step. apply (HQ h S). intros a tg. rewrite Eh, foldr_delete_lookup. unfold s1. simpl. rewrite Hrest. case_decide as Hd.
      + split; [done|]. intros [_ Hno]. apply Hin in Hd as [m Hm]. by destruct (Hno m).
      + rewrite Hrm. split; [|tauto]. intros HMa. split; [done|]. intros m Hm. apply Hd, Hin. eauto. }
  unfold wp in Hgo. unfold mbind, M_bind in *. destruct (free_slabs _ _) as [[[] s2]|]; done.
Qed.
End Outers.

(** ** A bucket is destroyed *)

Section Destroy.
Context `{HostAllocLaws H} `{PoolProviderLaws W}.
Context (p : disjoint_pool_t) (pool : Z).
Implicit Types (s : djstate H W) (M : gmap Z string) (R P : gmap Z Z).

(** The ranges of the slabs [l] may be gone. *)
Definition gone (S : slabs) (l : list Z) P P' : Prop := forall q, (forall x sl, x ∈ l -> S !! x = Some sl -> mem_ptr sl <> q) -> P' !! q = P !! q.

(** The slabs [l] of the bucket [a] have their memory. *)
Definition backed (S : slabs) (a : Z) (l : list Z) P : Prop :=
  (forall x, x ∈ l -> exists sl, S !! x = Some sl /\ slab_bucket sl = a /\ P !! mem_ptr sl = Some (slab_size sl)) /\
  (forall x y sl sl', x ∈ l -> y ∈ l -> S !! x = Some sl -> S !! y = Some sl' -> mem_ptr sl = mem_ptr sl' -> x = y) /\ NoDup l.

Lemma backed_tail S a x l sl P P' : backed S a (x :: l) P -> S !! x = Some sl -> P' = delete (mem_ptr sl) P \/ P' = P -> backed S a l P'.
Proof.
  intros (Hb & Hinj & Hnd) Hx HP'. apply list.NoDup_cons in Hnd as [Hxl Hnd]. split_and!; [|intros; by eapply (Hinj x0 y); [constructor|constructor|..]|done].
  intros y Hy. destruct (Hb y) as (sly & Hy' & ? & HP); [by constructor|]. exists sly. split_and!; [done|done|]. destruct HP' as [->| ->]; [|done].
  rewrite lookup_delete_ne; [done|]. intros E. apply Hxl. by rewrite (Hinj x y sl sly ltac:(constructor) ltac:(by constructor) Hx Hy' E).
Qed.

Lemma gone_cons S x l sl P P1 P2 : S !! x = Some sl -> P1 = delete (mem_ptr sl) P \/ P1 = P -> gone S l P1 P2 -> gone S (x :: l) P P2.
Proof.
  intros Hx HP1 Hg q Hq. rewrite Hg by (intros y sly Hy; apply (Hq y); by constructor). destruct HP1 as [->| ->]; [|done].
  rewrite lookup_delete_ne; [done|]. apply (Hq x); [constructor|done].
Qed.

Lemma wp_destroy_available s a b l P n (Q : unit -> djstate H W -> Prop) :
  (exists c, dj_pool s = Some (pool, with_cur_pool_size c p)) -> dj_buckets s !! a = Some b -> bucket_pool b = pool ->
  pp_rep (dj_world s) (provider p) P n -> n + Z.of_nat (length l) <= pp_max -> backed (dj_slabs s) a l P ->
  (forall w b' P', bucket_pool b' = pool -> unavailable_slabs b' = unavailable_slabs b -> pp_rep w (provider p) P' (n + Z.of_nat (length l)) ->
     gone (dj_slabs s) l P P' -> Q tt (with_dj_world w (with_dj_buckets (<[a := b']> (dj_buckets s)) s))) ->
  wp (destroy_available a l) Q s.
Proof.
  revert s b P n. induction l as [|x l IH]; intros s b P n Hpo Hb Ebp HP Hn Hbk HQ.
  - simpl. wp_step. specialize (HQ (dj_world s) b P Ebp eq_refl). rewrite Z.add_0_r, insert_id in HQ by done. destruct s. by apply HQ.
  - simpl in Hn. cbn [destroy_available]. apply wp_bind, (wp_load_bucket s a b); [done|]. unfold store_bucket. wp_step.
    destruct (proj1 Hbk x) as (sl & Hx & Ea & HPm); [constructor|].
    set (b1 := with_slabs l (available_slabs_num b) (unavailable_slabs b) b).
    apply wp_bind, (wp_destroy_slab p pool _ P n x sl b1); [done|done|simpl; by rewrite Ea, lookup_insert_eq|done|done|lia|done|].
    intros w P1 HP1 Hcase. apply (IH _ b1 P1 (n + 1)); [done|simpl; by rewrite lookup_insert_eq|done|done|lia|by eapply backed_tail|].
    intros w2 b2 P2 Eb2 Eu2 HP2 Hg. simpl. rewrite insert_insert_eq. apply (HQ w2 b2 P2); [done|by rewrite Eu2| |by eapply gone_cons].
    by replace (n + Z.of_nat (length (x :: l))) with (n + 1 + Z.of_nat (length l)) by (simpl; lia).
Qed.

Lemma wp_destroy_unavailable s a b l P n (Q : unit -> djstate H W -> Prop) :
  (exists c, dj_pool s = Some (pool, with_cur_pool_size c p)) -> dj_buckets s !! a = Some b -> bucket_pool b = pool ->
  pp_rep (dj_world s) (provider p) P n -> n + Z.of_nat (length l) <= pp_max -> backed (dj_slabs s) a l P ->
  (forall w b' P', pp_rep w (provider p) P' (n + Z.of_nat (length l)) ->
     gone (dj_slabs s) l P P' -> Q tt (with_dj_world w (with_dj_buckets (<[a := b']> (dj_buckets s)) s))) ->
  wp (destroy_unavailable a l) Q s.
Proof.
  revert s b P n. induction l as [|x l IH]; intros s b P n Hpo Hb Ebp HP Hn Hbk HQ.
  - simpl. wp_step. specialize (HQ (dj_world s) b P). rewrite Z.add_0_r, insert_id in HQ by done. destruct s. by apply HQ.
  - simpl in Hn. cbn [destroy_unavailable]. apply wp_bind, (wp_load_bucket s a b); [done|]. unfold store_bucket. wp_step.
    destruct (proj1 Hbk x) as (sl & Hx & Ea & HPm); [constructor|].
    set (b1 := with_slabs (available_slabs b) (available_slabs_num b) l b).
    apply wp_bind, (wp_destroy_slab p pool _ P n x sl b1); [done|done|simpl; by rewrite Ea, lookup_insert_eq|done|done|lia|done|].
    intros w P1 HP1 Hcase. apply (IH _ b1 P1 (n + 1)); [done|simpl; by rewrite lookup_insert_eq|done|done|lia|by eapply backed_tail|].
    intros w2 b2 P2 HP2 Hg. simpl. rewrite insert_insert_eq. apply (HQ w2 b2 P2); [|by eapply gone_cons].
    by replace (n + Z.of_nat (length (x :: l))) with (n + 1 + Z.of_nat (length l)) by (simpl; lia).
Qed.

Lemma gone_app S l1 l2 P P1 P2 : gone S l1 P P1 -> gone S l2 P1 P2 -> gone S (l1 ++ l2) P P2.
Proof. intros H1' H2' q Hq. rewrite H2', H1'; [done|..]; intros x sl Hx; apply Hq; apply elem_of_app; auto. Qed.

Lemma backed_app S a l1 l2 P P1 : backed S a (l1 ++ l2) P -> gone S l1 P P1 -> backed S a l1 P /\ backed S a l2 P1.
Proof.
  intros (Hb & Hinj & Hnd) Hg. apply NoDup_app in Hnd as (Hnd1 & Hd & Hnd2). split; (split_and!; [|intros; eapply (Hinj x y); eauto; apply elem_of_app; auto|done]).
  - intros x Hx. apply Hb, elem_of_app. by left.
  - intros x Hx. destruct (Hb x) as (sl & HS & Ha & HP); [apply elem_of_app; by right|]. exists sl. split_and!; [done|done|]. rewrite Hg; [done|].
    intros y sly Hy HSy E. apply (Hd y Hy). rewrite (Hinj y x sly sl); [done|apply elem_of_app; by left|apply elem_of_app; by right|done..].
Qed.

Lemma wp_destroy_bucket s a b M R k P n (Q : unit -> djstate H W -> Prop) :
  (exists c, dj_pool s = Some (pool, with_cur_pool_size c p)) -> dj_buckets s !! a = Some b -> bucket_pool b = pool -> a <> 0 ->
  known s R None k -> outers s M -> M !! a = Some tag_bucket ->
  pp_rep (dj_world s) (provider p) P n -> n + Z.of_nat (length (available_slabs b ++ unavailable_slabs b)) <= pp_max ->
  backed (dj_slabs s) a (available_slabs b ++ unavailable_slabs b) P ->
  (forall s' P', dj_pool s' = dj_pool s -> dj_arrays s' = dj_arrays s -> dj_slabs s' = dj_slabs s -> dj_limits s' = dj_limits s -> dj_buckets s' = delete a (dj_buckets s) ->
     known s' R None k -> outers s' (delete a M) -> pp_rep (dj_world s') (provider p) P' (n + Z.of_nat (length (available_slabs b ++ unavailable_slabs b))) ->
     gone (dj_slabs s) (available_slabs b ++ unavailable_slabs b) P P' -> dj_crit s' = dj_crit s -> Q tt s') ->
  wp (destroy_bucket a) Q s.
Proof.
  intros Hpo Hb Ebp Ha Hk HM HMa HP Hn Hbk HQ. rewrite length_app in *. unfold destroy_bucket. apply wp_bind, (wp_load_bucket s a b); [done|].
  apply wp_bind, (wp_destroy_available s a b _ P n); [done..|lia|exact (proj1 (backed_app _ _ _ (unavailable_slabs b) P P Hbk (fun q _ => eq_refl)))|].
  intros w1 b1 P1 Eb1 Eu1 HP1 Hg1. apply wp_bind, (wp_load_bucket _ a b1); [simpl; by rewrite lookup_insert_eq|]. rewrite Eu1.
  destruct (backed_app _ _ _ _ _ _ Hbk Hg1) as [_ Hbk2].
  apply wp_bind, (wp_destroy_unavailable _ a b1 _ P1 (n + Z.of_nat (length (available_slabs b)))); [done|simpl; by rewrite lookup_insert_eq|done|done|lia|done|].
  intros w2 b2 P2 HP2 Hg2. apply wp_bind, (wp_free_outers _ R k M a tag_bucket); [by apply (known_ext s)|by apply (outers_ext s)|done|done|].
  intros h s3 Hk3 HM3. wp_step. apply (HQ _ P2); try done.
  - simpl. by rewrite insert_insert_eq, delete_insert_eq.
  - simpl. by replace (n + Z.of_nat (length (available_slabs b) + length (unavailable_slabs b))) with (n + Z.of_nat (length (available_slabs b)) + Z.of_nat (length (unavailable_slabs b))) by lia.
  - by eapply gone_app.
Qed.
End Destroy.

(** ** [finalize] *)

Definition slabs_of (B : buckets_map) (a : Z) : list Z :=
  match B !! a with Some b => available_slabs b ++ unavailable_slabs b | None => [] end.
Fixpoint all_slabs (B : buckets_map) (l : list Z) : list Z :=
  match l with [] => [] | a :: l => slabs_of B a ++ all_slabs B l end.

Lemma all_slabs_out B a l : a ∉ l -> all_slabs (delete a B) l = all_slabs B l.
Proof.
  induction l as [|c l IH]; [done|]. intros [Hne Hl]%not_elem_of_cons. simpl. rewrite IH by done. unfold slabs_of. by rewrite lookup_delete_ne.
Qed.

Lemma all_slabs_in B l x : x ∈ all_slabs B l <-> exists a, a ∈ l /\ x ∈ slabs_of B a.
Proof.
  induction l as [|a l IH]; simpl; [split; [by intros ?%not_elem_of_nil|by intros (? & ?%not_elem_of_nil & _)]|]. rewrite elem_of_app, IH. split.
  - intros [Hx|(c & Hc & Hx)]; [exists a; split; [constructor|done]|exists c; split; [by constructor|done]].
  - intros (c & [->|Hc]%elem_of_cons & Hx); [by left|right; eauto].
Qed.

Section Finalize.
Context `{HostAllocLaws H} `{PoolProviderLaws W}.
Context (p : disjoint_pool_t) (pool : Z) (bs : list Z) (base : Z).
Hypothesis Hp : pool_ok p pool bs.
Implicit Types (s : djstate H W) (M : gmap Z string) (R P : gmap Z Z) (G : gmap Z place).
Abbreviation dinv := (dinv p pool bs base).
Abbreviation dpool := (dpool p pool bs base).

(** The buckets [l] are there with their slabs. *)
Definition standing s M R P (l : list Z) : Prop := forall a, a ∈ l -> exists b, dj_buckets s !! a = Some b /\ bucket_pool b = pool /\ M !! a = Some tag_bucket /\
  NoDup (available_slabs b ++ unavailable_slabs b) /\
  forall x, x ∈ available_slabs b ++ unavailable_slabs b ->
    exists sl, dj_slabs s !! x = Some sl /\ slab_bucket sl = a /\ R !! mem_ptr sl = Some x /\ P !! mem_ptr sl = Some (slab_size sl).

Lemma standing_backed s M R P l a b : standing s M R P l -> a ∈ l -> dj_buckets s !! a = Some b ->
  backed (dj_slabs s) a (available_slabs b ++ unavailable_slabs b) P.
Proof using.
  intros Hst Ha Hb. destruct (Hst a Ha) as (b' & Hb' & _ & _ & Hnd & Hx). rewrite Hb in Hb'. injection Hb' as <-. split_and!; [|..|done].
  - intros x Hin. destruct (Hx x Hin) as (sl & ? & ? & _ & ?). eauto.
  - intros x y sl sl' Hin Hin' HS HS' E. destruct (Hx x Hin) as (sl1 & HS1 & _ & HR1 & _), (Hx y Hin') as (sl2 & HS2 & _ & HR2 & _). congruence.
Qed.

Lemma wp_destroy_buckets s i l M R k P n (Q : unit -> djstate H W -> Prop) c :
  l = drop (Z.to_nat i) bs -> 0 <= i -> (exists c, dj_pool s = Some (pool, with_cur_pool_size c p)) -> dj_arrays s !! buckets p = Some bs ->
  known s R None k -> outers s M -> pp_rep (dj_world s) (provider p) P n -> standing s M R P l -> n + Z.of_nat (length (all_slabs (dj_buckets s) l)) <= pp_max ->
  (forall s' P' n', dj_pool s' = dj_pool s -> dj_arrays s' = dj_arrays s -> known s' R None k -> outers s' (foldr delete M l) ->
     pp_rep (dj_world s') (provider p) P' n' -> dj_limits s' = dj_limits s -> Q tt s') ->
  wp (destroy_buckets (length l) (with_cur_pool_size c p) i) Q s.
Proof using Hp H1.
  revert s i M P n. induction l as [|a l IH]; intros s i M P n El Hi Hpo Har Hk HM HP Hst Hn HQ; simpl; [wp_step; by eapply HQ|].
  assert (bs !! Z.to_nat i = Some a) as Ha by (rewrite <- (Nat.add_0_r (Z.to_nat i)), <- lookup_drop, <- El; done).
  assert (drop (Z.to_nat (i + 1)) bs = l) as El'. { replace (Z.to_nat (i + 1)) with (1 + Z.to_nat i)%nat by lia. rewrite Nat.add_comm, <- drop_drop, <- El. done. }
  assert (a ∉ l) as Hal. { pose proof (po_nodup _ _ _ Hp) as Hnd. rewrite <- (take_drop (Z.to_nat i) bs), <- El in Hnd. apply NoDup_app in Hnd as (_ & _ & Hnd). by apply list.NoDup_cons in Hnd as [? _]. }
  apply wp_bind, (wp_bucket_ptr bs s _ i a); [done|done|]. destruct (Hst a) as (b & Hb & Ebp & HMa & Hnd & Hx); [constructor|]. simpl in Hn. unfold slabs_of in Hn. rewrite Hb, length_app in Hn.
  apply wp_bind, (wp_destroy_bucket p pool s a b M R k P n); try done; [|lia|by eapply standing_backed; [done|constructor|done]|].
  { intros ->. apply (po_bs_nonnull _ _ _ Hp). by eapply list_elem_of_lookup_2. }
  intros s1 P1 Epo Ear Es Eli Eb Hk1 HM1 HP1 Hg Ec. apply (IH s1 (i + 1) (delete a M) P1 (n + Z.of_nat (length (available_slabs b ++ unavailable_slabs b)))); try done; [lia|by rewrite Epo|by rewrite Ear|..].
  - intros a' Ha'. destruct (Hst a') as (b' & Hb' & Ebp' & HMa' & Hnd' & Hx'); [by constructor|]. assert (a <> a') as Hne by (by intros <-). exists b'.
    rewrite Eb, !lookup_delete_ne by done. split_and!; [done..|]. intros x Hin. destruct (Hx' x Hin) as (sl & HS & Ea & HR & HPx). exists sl. rewrite Es. split_and!; [done..|].
    rewrite Hg; [done|]. intros y sly Hy HSy E. destruct (Hx y Hy) as (sly' & HSy' & Ey & HRy & _). rewrite HSy in HSy'. injection HSy' as <-. congruence.
  - rewrite Eb, all_slabs_out by done. lia.
  - intros s2 P2 n2 Epo2 Ear2 Hk2 HM2 HP2 Eli2. apply (HQ s2 P2 n2); try congruence; try done. intros x tg. rewrite (HM2 x tg). clear. 
    assert (forall (M : gmap Z string) l, foldr delete (delete a M) l = delete a (foldr delete M l)) as ->; [|done]. clear. intros M l. induction l as [|y l IH]; [done|]. simpl. by rewrite IH, delete_delete.
Qed.

Lemma wp_print_stats s R held P G n c j i (Q : unit -> djstate H W -> Prop) : dinv s None R held P G n -> 0 <= i -> Z.of_nat j + i <= Z.of_nat (length bs) ->
  (forall s', outer_same s s' -> dinv s' None R held P G n -> Q tt s') -> wp (disjoint_pool_print_stats j (with_cur_pool_size c p) i) Q s.
Proof using Hp H1.
  revert s i. induction j as [|j IH]; intros s i HI Hi Hj HQ; simpl; [wp_step; by apply HQ|].
  destruct (lookup_lt_is_Some_2 bs (Z.to_nat i)) as [a Ha]; [lia|]. assert (a ∈ bs) as Hin by (by eapply list_elem_of_lookup_2).
  apply wp_bind, (wp_bucket_ptr bs s _ i a); [apply HI|done|]. apply wp_bind, (wp_lock_bucket p pool bs base Hp s R held P G n); [done..|]. intros s1 _ Ho1 HI1.
  apply wp_bind, (wp_unlock_bucket p pool bs base Hp s1 R held P G n a); [done..|]. intros s2 _ Ho2 HI2. apply IH; [done|lia|lia|].
  intros s3 Ho3 HI3. apply HQ; [|done]. by do 2 (eapply outer_same_trans; [done|]).
Qed.

(** The invariant has all slabs standing. *)
Lemma dinv_standing s R held P G n M : dinv s None R held P G n -> outers s M -> standing s M R P bs.
Proof using Hp.
  intros HI HM a Ha. pose proof (di_inv _ _ _ _ _ _ _ _ _ _ _ HI) as Hpi. destruct (pi_buckets _ _ _ _ _ _ _ _ _ _ _ Hpi a Ha) as (b & Hb & Hok). exists b.
  split_and!; [done|apply Hok|apply HM; by apply (proj1 (proj2 (di_objs _ _ _ _ _ _ _ _ _ _ _ HI)))|apply Hok|]. intros x Hx.
  assert (exists full, listed (dj_slabs s) R a x full) as (full & sl & HS & Ea & HR & _).
  { apply elem_of_app in Hx as [Hx|Hx]; eexists; [by apply (bk_avail _ _ _ _ _ _ _ _ Hok)|by apply (bk_unavail _ _ _ _ _ _ _ _ Hok)]. }
  exists sl. split_and!; [done..|]. destruct (pi_slabs _ _ _ _ _ _ _ _ _ _ _ Hpi _ _ HR) as (_ & sl' & z & HS' & _ & _ & HPm). congruence.
Qed.

Lemma all_slabs_bound s R held P G n : dinv s None R held P G n -> (length (all_slabs (dj_buckets s) bs) <= size R)%nat.
Proof using Hp.
  intros HI. assert (forall M, outers s M -> standing s M R P bs) as Hst by (intros M HM; by eapply dinv_standing).
  destruct (exists_outers s) as [M HM].
  specialize (Hst M HM). rewrite <- length_map_to_list, <- (length_fmap snd). apply submseteq_length, NoDup_submseteq.
  - pose proof (po_nodup _ _ _ Hp) as Hnd. revert Hst Hnd. generalize bs. clear. intros l Hst Hnd. induction Hnd as [|a l Ha Hnd IH]; simpl; [constructor|].
    assert (standing s M R P l) as Hst' by (intros c Hc; apply Hst; by constructor). destruct (Hst a) as (b & Hb & _ & _ & Hnda & Hxa); [constructor|].
    apply NoDup_app. unfold slabs_of at 1 2. rewrite Hb. split_and!; [done| |by apply IH]. intros x Hx Hx'. destruct (Hxa x Hx) as (sl & HS & Ea & _).
    apply all_slabs_in in Hx' as (c & Hc & Hxc). destruct (Hst' c Hc) as (b' & Hb' & _ & _ & _ & Hxc'). unfold slabs_of in Hxc. rewrite Hb' in Hxc.
    destruct (Hxc' x Hxc) as (sl' & HS' & Ec & _). apply Ha. congruence.
  - intros x (a & Ha & Hx)%all_slabs_in. destruct (Hst a Ha) as (b & Hb & _ & _ & _ & Hxa). unfold slabs_of in Hx. rewrite Hb in Hx.
    destruct (Hxa x Hx) as (sl & _ & _ & HR & _). apply list_elem_of_fmap. exists (mem_ptr sl, x). split; [done|]. by apply elem_of_map_to_list.
Qed.

(** What the pool leaves of the objects [M]. *)
Definition released M R M' : Prop := forall a tg, M' !! a = Some tg <->
  M !! a = Some tg /\ (a ∉ bs) /\ a <> buckets p /\ a <> default_shared_limits p /\ a <> pool /\ forall m, R !! m <> Some a.

(** The objects of the pool are distinct, and what they are. *)
Record distinct_objs M R : Prop := {
  do_bucket : forall a, a ∈ bs -> M !! a = Some tag_bucket;
  do_pool : M !! pool = Some tag_disjoint_pool;
  do_array : M !! buckets p = Some tag_buckets;
  do_limits : M !! default_shared_limits p = Some tag_limits;
  do_slab : forall m x, R !! m = Some x -> M !! x = Some tag_slab;
  do_array_in : buckets p ∉ bs;
  do_limits_in : default_shared_limits p ∉ bs;
  do_pool_in : pool ∉ bs;
  do_array_limits : buckets p <> default_shared_limits p;
  do_array_pool : buckets p <> pool;
  do_limits_pool : default_shared_limits p <> pool;
  do_slabs : forall m x, R !! m = Some x -> (x ∉ bs) /\ x <> buckets p /\ x <> default_shared_limits p /\ x <> pool;
}.

Lemma objs_distinct s M R : objs p pool bs s R -> outers s M -> distinct_objs M R.
Proof using.
  intros (O1 & O2 & O3 & O4 & O5) HM. apply HM in O3, O4, O5.
  assert (forall a, a ∈ bs -> M !! a = Some tag_bucket) as O2' by (intros a Ha; apply HM; by apply O2).
  assert (forall m x, R !! m = Some x -> M !! x = Some tag_slab) as O1' by (intros m x HR; apply HM; by apply (O1 m)).
  assert (tag_buckets <> tag_bucket /\ tag_limits <> tag_bucket /\ tag_disjoint_pool <> tag_bucket /\ tag_buckets <> tag_limits /\
    tag_buckets <> tag_disjoint_pool /\ tag_limits <> tag_disjoint_pool /\ tag_slab <> tag_bucket /\ tag_slab <> tag_buckets /\
    tag_slab <> tag_limits /\ tag_slab <> tag_disjoint_pool) as (? & ? & ? & ? & ? & ? & ? & ? & ? & ?) by done.
  split; try done; try (intros Hin; specialize (O2' _ Hin); congruence); try (intros E; rewrite E in *; congruence).
  intros m x HR. specialize (O1' _ _ HR). split_and!; [intros Hin; specialize (O2' _ Hin)|intros ->..]; congruence.
Qed.

(** The end of [disjoint_pool_finalize]. *)
Lemma wp_free_rest s R n M (Q : umf_result_t -> djstate H W -> Prop) : known s R None n -> outers s (foldr delete M bs) -> distinct_objs M R ->
  (forall m x, R !! m = Some x -> x <> 0) -> (forall m1 m2 x, R !! m1 = Some x -> R !! m2 = Some x -> m1 = m2) ->
  (forall s', dj_pool s' = None -> dj_crit s' = None -> released M R (ba_live (dj_host s')) -> Q UMF_RESULT_SUCCESS s') ->
  wp (_ ← free_array (buckets p);
      ret ← umfDisjointPoolSharedLimitsDestroy (default_shared_limits p);
      let ret := if bool_decide (ret = UMF_RESULT_SUCCESS) then ret else UMF_RESULT_ERROR_UNKNOWN in
      _ ← delete_known_slabs;
      _ ← free_pool pool;
      mret ret) Q s.
Proof using Hp H1.
  intros Hk HM [O2 O3 O4 O5 O1 ? ? ? ? ? ? HRx] Hnz Hinj HQ. apply wp_bind. unfold free_array.
  apply wp_bind, (wp_free_outers s R n (foldr delete M bs) (buckets p) tag_buckets); [done|done|by rewrite foldr_delete_lookup, decide_False|apply (po_array _ _ _ Hp)|].
  intros h2 s2 Hk2 HM2. wp_step. unfold umfDisjointPoolSharedLimitsDestroy.
  apply wp_bind, wp_bind, (wp_free_outers _ R n (delete (buckets p) (foldr delete M bs)) (default_shared_limits p) tag_limits);
    [by apply (known_ext s2)|by apply (outers_ext s2)|by rewrite lookup_delete_ne, foldr_delete_lookup, decide_False|apply (po_limits _ _ _ Hp)|].
  intros h3 s3 Hk3 HM3. wp_step. wp_step. rewrite bool_decide_true by done. cbv zeta.
  set (M3 := delete (default_shared_limits p) (delete (buckets p) (foldr delete M bs))) in *.
  apply wp_bind, (wp_delete_known _ R n M3); [by apply (known_ext s3)|by apply (outers_ext s3)| |done|].
  { intros m x HR. destruct (HRx _ _ HR) as (? & ? & ? & ?). split; [by eapply Hnz|].
    unfold M3. rewrite !lookup_delete_ne, foldr_delete_lookup, decide_False by done. rewrite (O1 _ _ HR). eauto. }
  intros h4 S4 s4 Hl4. unfold free_pool. apply wp_bind, wp_bind, (wp_free_live s4 pool tag_disjoint_pool); [|apply (po_pool _ _ _ Hp)|].
  { simpl. apply Hl4. split; [unfold M3; by rewrite !lookup_delete_ne, foldr_delete_lookup, decide_False|]. intros m HR. by destruct (HRx _ _ HR) as (_ & _ & _ & ?). }
  intros h5 El5. wp_step. wp_step. apply HQ; [done|done|]. intros a tg. simpl. rewrite El5. simpl. rewrite lookup_delete_Some. rewrite (Hl4 a tg). unfold M3.
  rewrite !lookup_delete_Some, foldr_delete_lookup. case_decide; naive_solver.
Qed.

Lemma wp_finalize s R P G n M (Q : umf_result_t -> djstate H W -> Prop) : dinv s None R None P G n -> n + Z.of_nat (size R) <= pp_max -> outers s M ->
  (forall s', dj_pool s' = None -> dj_crit s' = None -> released M R (ba_live (dj_host s')) -> Q UMF_RESULT_SUCCESS s') ->
  wp (disjoint_pool_finalize pool) Q s.
Proof using Hp H1.
  intros HI Hn HM HQ. destruct (di_pool _ _ _ _ _ _ _ _ _ _ _ HI) as [c Hc]. unfold disjoint_pool_finalize. apply wp_bind, (wp_load_pool p pool s c); [done|].
  assert (Z.of_nat (Z.to_nat (buckets_num p)) = Z.of_nat (length bs)) as Enum by (rewrite (po_num _ _ _ Hp), (po_bs _ _ _ Hp), Z2Nat.id; [done|pose proof (po_bs _ _ _ Hp); lia]).
  apply wp_bind, (wp_mono _ (fun _ s1 => dinv s1 None R None P G n /\ outers s1 M)).
  { destruct (pool_trace (params (with_cur_pool_size c p)) >? 1); [|by wp_step].
    apply (wp_print_stats s R None P G n); [done|lia|simpl; lia|]. intros s1 Ho HI1. split; [done|]. intros a tg. rewrite (Ho a tg). apply HM. }
  clear s Hc HI HM. intros [] s [HI HM]. pose proof (all_slabs_bound _ _ _ _ _ _ HI) as Hall. cbn [buckets_num buckets default_shared_limits with_cur_pool_size].
  replace (Z.to_nat (buckets_num p)) with (length bs) by lia. apply wp_bind.
  apply (wp_destroy_buckets s 0 bs M R n P n); try done; [apply HI|apply HI|apply HI|apply HI|by eapply dinv_standing|lia|].
  intros s1 P1 n1 Epo1 Ear1 Hk1 HM1 HP1 Eli1. apply (wp_free_rest s1 R n M); [done|done|by eapply objs_distinct; [apply HI|]|..|done].
  - intros m x HR. by destruct (pi_slabs _ _ _ _ _ _ _ _ _ _ _ (di_inv _ _ _ _ _ _ _ _ _ _ _ HI) m x HR).
  - intros m1 m2 x. eapply reg_inj, HI.
Qed.
End Finalize.
