(* ===== verification/DisjointInit.v ===== *)
(** * The initialization of the disjoint pool *)

From S2P Require Import Prelude Utils HostMem CritQuery CritDelete CritSpec CritInsert CritRemove CritInv CritWorld.
From stdpp Require Import strings list.
From S2P Require Import Critnib Tracker PoolProvider DisjointPool DisjointApi DisjointSize DisjointInv DisjointSteps DisjointOps DisjointCalls DisjointLife.
#[local] Open Scope Z_scope.

(** ** The sizes of the buckets *)

(** [Size1] of [disjoint_pool_initialize]. *)
Definition first_size (q : umf_disjoint_pool_params_t) : Z :=
  utils_max (utils_min (min_bucket_size q) CutOff) UMF_DISJOINT_POOL_MIN_BUCKET_DEFAULT_SIZE.

Lemma first_size_pow q : pow2 (min_bucket_size q) -> exists e, 3 <= e <= 31 /\ first_size q = 2 ^ e.
Proof.
  intros (n & Hn & E). unfold first_size. rewrite E. clear E. exists (Z.max 3 (Z.min n 31)). split; [lia|].
  assert (CutOff = 2 ^ 31) as -> by done. change UMF_DISJOINT_POOL_MIN_BUCKET_DEFAULT_SIZE with (2 ^ 3). unfold utils_min.
  destruct (Z.ltb_spec (2 ^ n) (2 ^ 31)) as [Hl|Hg].
  - apply Z.pow_lt_mono_r_iff in Hl; [|lia|lia]. rewrite Z.min_l, utils_max_eq by lia. destruct (Z.le_gt_cases n 3).
    + rewrite (Z.max_l 3) by lia. apply Z.max_r, Z.pow_le_mono_r; lia.
    + rewrite (Z.max_r 3) by lia. apply Z.max_l, Z.pow_le_mono_r; lia.
  - apply Z.pow_le_mono_r_iff in Hg; [|lia|lia]. by rewrite Z.min_r by lia.
Qed.

Lemma second_size e : 3 <= e <= 31 -> add64 (2 ^ e) (2 ^ e / 2) = 3 * 2 ^ (e - 1).
Proof.
  intros He. rewrite (pow_half e), Z.mul_comm, Z.div_mul by lia. assert (0 < 2 ^ (e - 1) <= 2 ^ 30) by (split; [apply Z.pow_pos_nonneg|apply Z.pow_le_mono_r]; lia).
  rewrite add64_small; [lia|]. unfold is_u64, two64. lia.
Qed.

Lemma size2_cutoff e : 1 <= e <= 31 -> (3 * 2 ^ (e - 1) <? CutOff) = (e <? 31).
Proof.
  intros He. assert (CutOff = 2 * 2 ^ 30) as -> by done. destruct (Z.ltb_spec e 31).
  - apply Z.ltb_lt. assert (2 ^ (e - 1) <= 2 ^ 29) by (apply Z.pow_le_mono_r; lia). lia.
  - apply Z.ltb_ge. assert (e = 31) as -> by lia. simpl. lia.
Qed.

Lemma double_pow k e : 0 <= e <= 32 -> 0 <= k <= 3 -> mul64 (k * 2 ^ e) 2 = k * 2 ^ (e + 1).
Proof.
  intros He Hk. assert (0 < 2 ^ e <= 2 ^ 32) by (split; [apply Z.pow_pos_nonneg|apply Z.pow_le_mono_r]; lia).
  rewrite mul64_small by (unfold is_u64, two64; nia). rewrite Z.pow_add_r by lia. lia.
Qed.

Lemma count_buckets_spec f e k : 1 <= e <= 31 -> 31 - e <= Z.of_nat f -> 0 <= k -> k + 2 * (31 - e) <= 2 ^ 32 ->
  count_buckets f (3 * 2 ^ (e - 1)) k = Some (k + 2 * (31 - e)).
Proof.
  revert e k. induction f as [|f IH]; intros e k He Hf Hk Hb; simpl; rewrite size2_cutoff by lia; destruct (Z.ltb_spec e 31); try (f_equal; lia); try lia.
  rewrite double_pow by lia. replace (e - 1 + 1) with (e + 1 - 1) by lia. rewrite add64_small by (unfold is_u64, two64; lia).
  rewrite IH by lia. f_equal. lia.
Qed.

Lemma with_cur_id p : with_cur_pool_size (cur_pool_size (params p)) p = p.
Proof. destruct p as [? ? ? ? [? ? ? ? ? ? ? ?] ? ? ?]. done. Qed.

Section Build.
Context `{HostAllocLaws H} `{PoolProviderLaws W}.
Context (p : disjoint_pool_t) (pool : Z) (M1 : gmap Z string).
Hypothesis Hexp : 3 <= bexp p <= 31.
Hypothesis Hnum : buckets_num p = bnum (bexp p).
Implicit Types (s : djstate H W) (l r : list Z) (L : limits_map) (P : gmap Z Z).
Abbreviation bexp := (bexp p).

(** The array [l] has been written, with 0 for a bucket that could not be
    created; the buckets of its end [r] are there. *)
Record building s l r L P (n : Z) : Prop := {
  bu_pool : dj_pool s = Some (pool, p);
  bu_array : dj_arrays s !! buckets p = Some l;
  bu_known : known s ∅ None 0;
  bu_prov : pp_rep (dj_world s) (provider p) P n;
  bu_limits : dj_limits s = L;
  bu_sub : exists l', l = l' ++ r;
  bu_buckets : forall j a, l !! j = Some a -> a ∈ r -> a <> 0 -> dj_buckets s !! a = Some (new_bucket (bsize bexp (Z.of_nat j)) pool (lim p));
  bu_outers : exists M, outers s M /\ forall a, M !! a = if decide (a ∈ r /\ a <> 0) then Some tag_bucket else M1 !! a;
  bu_nodup : forall i j a, l !! i = Some a -> l !! j = Some a -> a <> 0 -> i = j;
  bu_fresh : forall a, a ∈ l -> a <> 0 -> M1 !! a = None;
}.

Lemma wp_load_same s (Q : disjoint_pool_t -> djstate H W -> Prop) : dj_pool s = Some (pool, p) -> Q p s -> wp (load_pool pool) Q s.
Proof using. intros E HQ. unfold load_pool. wp_step. rewrite E, Z.eqb_refl. by wp_step. Qed.

Lemma wp_store_pool s a p' (Q : unit -> djstate H W -> Prop) : Q tt (with_dj_pool (Some (a, p')) s) -> wp (store_pool a p') Q s.
Proof using. intros HQ. unfold store_pool. by wp_step. Qed.

(** An element is appended to the array. *)
Lemma building_app s s' l a L P n M' : building s l l L P n -> dj_pool s' = dj_pool s -> dj_world s' = dj_world s -> dj_limits s' = dj_limits s ->
  dj_arrays s' !! buckets p = Some (l ++ [a]) -> known s' ∅ None 0 -> outers s' M' ->
  (a <> 0 -> (a ∉ l) /\ M1 !! a = None /\ dj_buckets s' !! a = Some (new_bucket (bsize bexp (Z.of_nat (length l))) pool (lim p))) ->
  (forall b, b <> 0 -> b <> a -> dj_buckets s' !! b = dj_buckets s !! b) ->
  (forall b, M' !! b = if decide (b ∈ l ++ [a] /\ b <> 0) then Some tag_bucket else M1 !! b) ->
  building s' (l ++ [a]) (l ++ [a]) L P n.
Proof using.
  intros [Hpo Har Hk HP HL _ Hb HM Hnd Hfr] Epo Ew El Har' Hk' HO Ha Hb' HM'. split; rewrite ?Ew; try done; try congruence.
  - by exists [].
  - intros j b Hj _ Hne. apply lookup_snoc_Some in Hj as [[Hj Ej]|[-> <-]]; [|by apply Ha].
    assert (b ∈ l) as Hin by (by eapply list_elem_of_lookup_2). rewrite Hb'; [by apply Hb|done|]. intros ->. by destruct (Ha Hne).
  - by exists M'.
  - intros i j b Hi Hj Hne. apply lookup_snoc_Some in Hi as [[Hi Ei]|[-> <-]]; apply lookup_snoc_Some in Hj as [[Hj Ej]|[-> Ej]]; subst; [by eapply Hnd| | |done].
    + destruct (Ha Hne) as [[] _]. by eapply list_elem_of_lookup_2.
    + destruct (Ha Hne) as [[] _]. by eapply list_elem_of_lookup_2.
  - intros b [Hin| ->%list_elem_of_singleton]%elem_of_app Hne; [by apply Hfr|by apply Ha].
Qed.

Lemma wp_create_at s l L P n i size (Q : unit -> djstate H W -> Prop) : building s l l L P n -> i = Z.of_nat (length l) -> i < bnum bexp -> size = bsize bexp i ->
  (forall s' a, building s' (l ++ [a]) (l ++ [a]) L P n -> Q tt s') -> wp (create_bucket_at pool i size) Q s.
Proof using H1 Hexp Hnum.
  intros HB -> Hi -> HQ. pose proof HB as [Hpo Har Hk HP HL _ Hb (M & HM & EM) Hnd Hfr]. unfold create_bucket_at. apply wp_bind, wp_load_same; [done|].
  assert (forall a s', dj_pool s' = Some (pool, p) -> dj_arrays s' = dj_arrays s ->
    (forall s'', s'' = with_dj_arrays (<[buckets p := l ++ [a]]> (dj_arrays s')) s' -> Q tt s'') -> wp (store_bucket_ptr pool (Z.of_nat (length l)) a) Q s') as Hstore.
  { intros a s' Epo Ear HQ'. unfold store_bucket_ptr. apply wp_bind, wp_load_same; [done|]. wp_step. wp_step; [by rewrite Ear|].
    apply wp_if_assert; [by rewrite Z.eqb_refl, Hnum, (proj2 (Z.ltb_lt _ _))|]. wp_step. by apply HQ'. }
  unfold create_bucket. apply wp_bind, wp_bind, (wp_alloc_outers s ∅ 0 M); [done|done|..].
  - intros h s' Hk' HM'. rewrite Z.eqb_refl. wp_step. apply Hstore; [done|done|]. intros s'' ->. apply (HQ _ 0), (building_app s _ l 0 L P n M); try done.
    + simpl. by rewrite lookup_insert_eq.
    + intros b. rewrite EM. apply decide_ext. rewrite elem_of_app, list_elem_of_singleton. naive_solver.
  - intros a h s' Hne HMa Hk' HM'. rewrite (proj2 (Z.eqb_neq _ _) Hne). unfold store_bucket. wp_step. wp_step.
    apply Hstore; [done|done|]. intros s'' ->. rewrite EM in HMa. case_decide as Hd; [done|].
    apply (HQ _ a), (building_app s _ l a L P n (<[a := tag_bucket]> M)); try done.
    + simpl. by rewrite lookup_insert_eq.
    + intros _. split_and!; [naive_solver|done|]. simpl. by rewrite lookup_insert_eq.
    + intros b _ Hb'. simpl. by rewrite lookup_insert_ne.
    + intros b. destruct (decide (a = b)) as [<-|Hab]; [rewrite lookup_insert_eq, decide_True; [done|]|rewrite lookup_insert_ne, EM by done; apply decide_ext];
        rewrite elem_of_app, list_elem_of_singleton; naive_solver.
Qed.

(** The loop, at the exponent [e]. *)
Lemma wp_create_buckets f e s l L P n (Q : Z -> djstate H W -> Prop) : building s l l L P n -> bexp <= e <= 31 -> 31 - e <= Z.of_nat f ->
  Z.of_nat (length l) = 2 * (e - bexp) ->
  (forall s' l', building s' l' l' L P n -> Z.of_nat (length l') = bnum bexp - 1 -> Q (bnum bexp - 1) s') ->
  wp (create_buckets f pool (2 ^ e) (3 * 2 ^ (e - 1)) (2 * (e - bexp))) Q s.
Proof using H1 Hexp Hnum.
  revert e s l. induction f as [|f IH]; intros e s l HB He Hf Hl HQ; simpl; rewrite size2_cutoff by lia; destruct (Z.ltb_spec e 31); try lia;
    try (wp_step; replace (2 * (e - bexp)) with (bnum bexp - 1) in * by (unfold bnum; lia); by eapply HQ).
  apply wp_bind, (wp_create_at s l L P n); [done|lia|unfold bnum; lia|rewrite bsize_even; f_equal; lia|]. intros s1 a1 HB1.
  apply wp_bind, (wp_create_at s1 (l ++ [a1]) L P n); [done|rewrite length_app; simpl; lia|unfold bnum; lia|rewrite bsize_odd; do 2 f_equal; lia|]. intros s2 a2 HB2.
  rewrite double_pow by lia. replace (2 ^ e) with (1 * 2 ^ e) by lia. rewrite double_pow by lia. replace (e - 1 + 1) with (e + 1 - 1) by lia.
  replace (2 * (e - bexp) + 2) with (2 * (e + 1 - bexp)) by lia. rewrite Z.mul_1_l. eapply IH; [exact HB2|lia|lia|rewrite !length_app; simpl; lia|done].
Qed.

Lemma wp_array_ptr s q l i a (Q : Z -> djstate H W -> Prop) : dj_arrays s !! buckets q = Some l -> l !! Z.to_nat i = Some a -> Q a s -> wp (load_bucket_ptr q i) Q s.
Proof using. apply wp_bucket_ptr. Qed.

Lemma wp_buckets_created s l i (Q : bool -> djstate H W -> Prop) : dj_arrays s !! buckets p = Some l -> 0 <= i <= Z.of_nat (length l) ->
  Q (bool_decide (0 ∉ drop (Z.to_nat i) l)) s -> wp (buckets_created (length l - Z.to_nat i) p i) Q s.
Proof using Hexp.
  intros Har Hi. remember (length l - Z.to_nat i)%nat as k eqn:Ek. revert i Hi Ek. induction k as [|k IH]; intros i Hi Ek HQ; simpl.
  - wp_step. rewrite drop_ge in HQ by lia. rewrite bool_decide_true in HQ; [done|]. apply not_elem_of_nil.
  - destruct (lookup_lt_is_Some_2 l (Z.to_nat i)) as [a Ha]; [lia|]. apply wp_bind, (wp_array_ptr s p l i a); [done|done|].
    rewrite (drop_S _ _ _ Ha) in HQ. destruct (Z.eqb_spec a 0) as [->|Hne].
    + wp_step. rewrite bool_decide_false in HQ; [done|]. intros Hn. apply Hn. constructor.
    + apply IH; [lia|lia|]. replace (Z.to_nat (i + 1)) with (S (Z.to_nat i)) by lia.
      erewrite bool_decide_ext; [exact HQ|]. rewrite not_elem_of_cons. naive_solver.
Qed.

(** A bucket of the rest is destroyed. *)
Lemma building_tail s s' l a r L P n : building s l (a :: r) L P n -> dj_pool s' = dj_pool s -> dj_arrays s' = dj_arrays s ->
  dj_limits s' = dj_limits s -> known s' ∅ None 0 -> pp_rep (dj_world s') (provider p) P n ->
  (forall b, b <> 0 -> b <> a -> dj_buckets s' !! b = dj_buckets s !! b) ->
  (forall M, outers s M -> outers s' (if decide (a = 0) then M else delete a M)) ->
  building s' l r L P n /\ (a <> 0 -> a ∉ r).
Proof using Hexp.
  intros [Hpo Har Hk HP HL [l' El] Hb (M & HM & EM) Hnd Hfr] Epo Ear Eli Hk' HP' Hb' HM'.
  assert (a <> 0 -> a ∉ r) as Har'.
  { intros Ha [k Hk2]%list_elem_of_lookup. assert (length l' = length l' + 1 + k)%nat; [|lia]. apply (Hnd _ _ a); [| |done]; rewrite El.
    - rewrite lookup_app_r by lia. by rewrite Nat.sub_diag.
    - rewrite lookup_app_r by lia. by replace (length l' + 1 + k - length l')%nat with (S k) by lia. }
  split; [|done]. split; try done; try congruence.
  - exists (l' ++ [a]). by rewrite <- app_assoc.
  - intros j b Hj Hin Hne. rewrite Hb'; [apply Hb; [done|by constructor|done]|done|]. intros ->. by apply Har'.
  - exists (if decide (a = 0) then M else delete a M). split; [by apply HM'|]. intros b. case_decide as Ha.
    + rewrite EM. apply decide_ext. rewrite elem_of_cons. naive_solver.
    + destruct (decide (a = b)) as [<-|Hab].
      * rewrite lookup_delete_eq, decide_False by naive_solver. symmetry. apply Hfr; [|done]. rewrite El. apply elem_of_app. right. constructor.
      * rewrite lookup_delete_ne, EM by done. apply decide_ext. rewrite elem_of_cons. naive_solver.
Qed.

Lemma wp_destroy_created s l r L P n i (Q : unit -> djstate H W -> Prop) : building s l r L P n -> 0 <= i -> r = drop (Z.to_nat i) l -> n <= pp_max ->
  (forall s', building s' l [] L P n -> Q tt s') -> wp (destroy_created (length r) p i) Q s.
Proof using H1 Hexp.
  intros HB Hi Er Hn HQ. revert s i HB Hi Er. induction r as [|a r IH]; intros s i HB Hi Er; simpl; [wp_step; by apply HQ|].
  assert (l !! Z.to_nat i = Some a) as Ha by (rewrite <- (Nat.add_0_r (Z.to_nat i)), <- lookup_drop, <- Er; done).
  assert (r = drop (Z.to_nat (i + 1)) l) as Er'. { rewrite (drop_S _ _ _ Ha) in Er. injection Er as ->. f_equal. lia. }
  pose proof HB as [Hpo Har Hk HP HL _ Hb (M & HM & EM) Hnd Hfr]. apply wp_bind, (wp_array_ptr s p l i a); [done|done|].
  destruct (Z.eqb_spec a 0) as [->|Hne]; simpl.
  { wp_step. apply IH; [|lia|done]. by eapply building_tail. }
  apply wp_bind. specialize (Hb _ _ Ha ltac:(constructor) Hne).
  apply (wp_destroy_bucket p pool s a _ M ∅ 0 P n (fun _ s' => wp (destroy_created (length r) p (i + 1)) Q s')) with (2 := Hb); try done; simpl.
  - exists (cur_pool_size (params p)). by rewrite with_cur_id.
  - rewrite EM, decide_True; [done|]. split; [constructor|done].
  - lia.
  - split_and!; [by intros ? ?%not_elem_of_nil|by intros ? ? ? ? ?%not_elem_of_nil|constructor].
  - rewrite Z.add_0_r. intros s' P' Epo Ear _ Eli Eb Hk' HM' HP' Hg _. assert (P' = P) as -> by (apply map_eq; intros q; apply Hg; by intros ? ? ?%not_elem_of_nil).
    apply IH; [|lia|done]. eapply building_tail; try done.
    + intros b _ Hb'. by rewrite Eb, lookup_delete_ne.
    + intros M' HM2. rewrite decide_False by done. assert (M' = M) as ->; [|done]. apply map_eq. intros x. apply option_eq. intros tg. by rewrite <- (HM2 x tg), <- (HM x tg).
Qed.
End Build.

(** ** The error paths *)

Section Errors.
Context `{HostAllocLaws H} `{PoolProviderLaws W}.
Context (M0 : gmap Z string) (h : Z) (P : gmap Z Z) (n : Z).
Implicit Types (s : djstate H W) (p : disjoint_pool_t) (pp : option Z).

(** Nothing is left of the pool. *)
Definition rolled_back s : Prop := dj_pool s = None /\ dj_crit s = None /\ ba_live (dj_host s) = M0 /\ pp_rep (dj_world s) h P n.

Definition M_pool (pool : Z) : gmap Z string := <[pool := tag_disjoint_pool]> M0.
Definition M_limits (pool limits : Z) : gmap Z string := <[limits := tag_limits]> (M_pool pool).
Definition M_array (pool limits array : Z) : gmap Z string := <[array := tag_buckets]> (M_limits pool limits).

Lemma wp_err_pool s pool pp (Q : umf_result_t * option Z -> djstate H W -> Prop) : dj_crit s = None -> ba_live (dj_host s) = M_pool pool ->
  M0 !! pool = None -> pool <> 0 -> pp_rep (dj_world s) h P n -> (forall s', rolled_back s' -> Q (UMF_RESULT_ERROR_OUT_OF_HOST_MEMORY, pp) s') ->
  wp (err_free_disjoint_pool pool pp) Q s.
Proof using H1.
  intros Ec El Hfr Hne HP HQ. unfold err_free_disjoint_pool, free_pool.
  apply wp_bind, wp_bind, (wp_free_live s pool tag_disjoint_pool); [by rewrite El; unfold M_pool; rewrite lookup_insert_eq|done|].
  intros h' Eh. wp_step. wp_step. apply HQ. split_and!; try done. simpl. rewrite Eh, El. unfold M_pool. by rewrite delete_insert_id.
Qed.

Lemma wp_err_known s k pool pp (Q : umf_result_t * option Z -> djstate H W -> Prop) : known s ∅ None k -> outers s (M_pool pool) ->
  M0 !! pool = None -> pool <> 0 -> pp_rep (dj_world s) h P n -> (forall s', rolled_back s' -> Q (UMF_RESULT_ERROR_OUT_OF_HOST_MEMORY, pp) s') ->
  wp (err_free_known_slabs pool pp) Q s.
Proof using H1.
  intros Hk HM Hfr Hne HP HQ. unfold err_free_known_slabs. apply wp_bind, (wp_delete_known s ∅ k (M_pool pool)); try done.
  intros h' S s' Hl. apply wp_err_pool; try done. simpl. apply map_eq. intros a. apply option_eq. intros tg. rewrite (Hl a tg). split; [tauto|].
  intros Ha. split; [done|]. intros m. by rewrite lookup_empty.
Qed.

Lemma wp_err_limits s k p pool pp (Q : umf_result_t * option Z -> djstate H W -> Prop) : dj_pool s = Some (pool, p) -> known s ∅ None k ->
  outers s (M_limits pool (default_shared_limits p)) -> M_pool pool !! default_shared_limits p = None -> default_shared_limits p <> 0 ->
  M0 !! pool = None -> pool <> 0 -> pp_rep (dj_world s) h P n -> (forall s', rolled_back s' -> Q (UMF_RESULT_ERROR_OUT_OF_HOST_MEMORY, pp) s') ->
  wp (err_free_shared_limits pool pp) Q s.
Proof using H1.
  intros Hpo Hk HM Hfl Hl0 Hfr Hne HP HQ. unfold err_free_shared_limits. apply wp_bind, (wp_load_same p); [done|].
  unfold umfDisjointPoolSharedLimitsDestroy. apply wp_bind, wp_bind, (wp_free_outers s ∅ k (M_limits pool (default_shared_limits p)) (default_shared_limits p) tag_limits); [done|done|unfold M_limits; by rewrite lookup_insert_eq|done|].
  intros h' s' Hk' HM'. wp_step. wp_step. apply (wp_err_known _ k); try done.
  apply (outers_ext s'); [done|done|]. unfold M_limits in HM'. by rewrite delete_insert_id in HM'.
Qed.

Lemma wp_err_buckets s l L p pool pp (Q : umf_result_t * option Z -> djstate H W -> Prop) : 3 <= bexp p <= 31 -> buckets_num p = bnum (bexp p) ->
  provider p = h -> building p pool (M_array pool (default_shared_limits p) (buckets p)) s l l L P n -> Z.of_nat (length l) = bnum (bexp p) -> n <= pp_max ->
  M_limits pool (default_shared_limits p) !! buckets p = None -> buckets p <> 0 ->
  M_pool pool !! default_shared_limits p = None -> default_shared_limits p <> 0 ->
  M0 !! pool = None -> pool <> 0 -> (forall s', rolled_back s' -> Q (UMF_RESULT_ERROR_OUT_OF_HOST_MEMORY, pp) s') ->
  wp (err_free_buckets pool pp) Q s.
Proof using H1.
  intros Hexp Hnum Eh HB Hlen Hn Hfa Ha0 Hfl Hl0 Hfr Hne HQ. unfold err_free_buckets. apply wp_bind, (wp_load_same p); [apply HB|].
  replace (Z.to_nat (buckets_num p)) with (length l) by lia.
  apply wp_bind, (wp_destroy_created p pool (M_array pool (default_shared_limits p) (buckets p)) Hexp s l l L P n 0); [done|lia|done|done|]. intros s1 [Hpo Har Hk HP HL _ _ (M & HM & EM) _ _].
  unfold free_array. apply wp_bind, wp_bind, (wp_free_outers s1 ∅ 0 M (buckets p) tag_buckets); [done|done| |done|].
  { rewrite EM, decide_False by (by intros [?%not_elem_of_nil _]). unfold M_array. by rewrite lookup_insert_eq. }
  intros h' s2 Hk2 HM2. wp_step. apply (wp_err_limits _ 0 p); try done; [|simpl; by rewrite <- Eh].
  apply (outers_ext s2); [done|done|]. intros a tg. rewrite (HM2 a tg). rewrite <- (delete_insert_id (M_limits pool (default_shared_limits p)) (buckets p) tag_buckets) by done.
  rewrite !lookup_delete_Some, EM, decide_False by (by intros [?%not_elem_of_nil _]). done.
Qed.
End Errors.

(** ** A new pool *)

Section Fresh.
Context `{HostAllocLaws H} `{PoolProviderLaws W}.
Context (M0 : gmap Z string) (p : disjoint_pool_t) (pool base : Z).
Implicit Types (s : djstate H W) (l : list Z) (L : limits_map) (P : gmap Z Z).
Abbreviation M1 := (M_array M0 pool (default_shared_limits p) (buckets p)).

Lemma building_page s l L P n w n' page : building p pool M1 s l l L P n -> pp_rep w (provider p) P n' ->
  building (with_min_page page p) pool M1 (with_dj_pool (Some (pool, with_min_page page p)) (with_dj_world w s)) l l L P n'.
Proof using.
  intros [Hpo Har Hk HP HL Hs Hb (M & HM & EM) Hnd Hfr] HP'. split; try done. exists M. split; [|done]. by apply (outers_ext s).
Qed.

Lemma pooled_new B l : (forall a b, a ∈ l -> B !! a = Some b -> chunked_slabs_in_pool b = 0) -> pooled p B l = 0.
Proof using.
  induction l as [|a l IH]; intros Hl; [done|]. simpl. rewrite IH by (intros c b Hc; apply Hl; by constructor). unfold pooled_in.
  destruct (B !! a) as [b|] eqn:E; [|done]. rewrite (Hl a b); [done|constructor|done].
Qed.

Lemma building_dinv s l L P n lo : building p pool M1 s l l L P n -> pool_ok p pool l -> 0 <= n ->
  L !! lim p = Some lo -> total_size lo = base -> base <= max_size lo < two64 ->
  M_limits M0 pool (default_shared_limits p) !! buckets p = None -> M_pool M0 pool !! default_shared_limits p = None -> M0 !! pool = None ->
  dinv p pool l base s None ∅ None P ∅ n.
Proof using.
  intros [Hpo Har Hk HP HL _ Hb (M & HM & EM) Hnd Hfr] Hp Hn Hlo Ht Hmax Hfa Hfl Hf0.
  assert (forall a, a ∈ l -> exists j, l !! j = Some a /\ dj_buckets s !! a = Some (new_bucket (bsize (bexp p) (Z.of_nat j)) pool (lim p))) as Hl.
  { intros a Ha. apply list_elem_of_lookup in Ha as Hj. destruct Hj as [j Hj]. exists j. split; [done|]. apply Hb; [done|done|]. intros ->. by apply (po_bs_nonnull _ _ _ Hp). }
  assert (forall a tg, a ∉ l -> M1 !! a = Some tg -> outer s a tg) as Hout.
  { intros a tg Ha E. apply HM. rewrite EM, decide_False; [done|]. naive_solver. }
  assert (forall a, a <> 0 -> is_Some (M1 !! a) -> a ∉ l) as Hnin by (intros a Ha [? E] Hin; rewrite Hfr in E by done; done).
  split; try done.
  - exists (cur_pool_size (params p)). by rewrite with_cur_id.
  - by eapply known_mono.
  - split; try (by intros; rewrite lookup_empty in *); try done.
    + intros a Ha. destruct (Hl a Ha) as (j & Hj & ->). eexists. split; [done|]. split; try done; try (by intros ? ?%not_elem_of_nil); [by exists j|constructor].
    + exists lo. rewrite HL, pooled_new; [|intros a b (j & _ & E)%Hl E'; rewrite E in E'; by injection E' as <-]. split_and!; [done|lia|lia|lia].
  - assert (forall a tg, a <> 0 -> M1 !! a = Some tg -> outer s a tg) as Hout' by (intros a tg ? E; apply Hout; [apply Hnin; [done|by rewrite E]|done]).
    unfold M_array, M_limits, M_pool in *. pose proof (po_pool _ _ _ Hp). pose proof (po_array _ _ _ Hp). pose proof (po_limits _ _ _ Hp).
    apply lookup_insert_None in Hfa as [[? ?]%lookup_insert_None ?]. apply lookup_insert_None in Hfl as [? ?].
    split_and!; [done|intros a Ha; apply HM; rewrite EM, decide_True; [done|split; [done|]]; intros ->; by apply (po_bs_nonnull _ _ _ Hp)|..].
    all: apply Hout'; [done|].
    + by rewrite 2!lookup_insert_ne, lookup_insert_eq.
    + by rewrite lookup_insert_eq.
    + by rewrite lookup_insert_ne, lookup_insert_eq.
Qed.

Lemma building_released s l L P n M : building p pool M1 s l l L P n -> pool_ok p pool l -> outers s M ->
  M_limits M0 pool (default_shared_limits p) !! buckets p = None -> M_pool M0 pool !! default_shared_limits p = None -> M0 !! pool = None ->
  released p pool l M ∅ M0.
Proof using.
  intros [_ _ _ _ _ _ _ (M' & HM & EM) _ Hfr] Hp HO Hfa Hfl Hf0. unfold M_limits, M_pool in Hfa, Hfl. apply lookup_insert_None in Hfa as [[? ?]%lookup_insert_None ?]. apply lookup_insert_None in Hfl as [? ?].
  assert (M' = M) as -> by (apply map_eq; intros x; apply option_eq; intros tg; by rewrite <- (HM x tg), <- (HO x tg)).
  intros a tg. rewrite EM. unfold M_array, M_limits, M_pool in *. split.
  - intros Ha. assert (a <> buckets p /\ a <> default_shared_limits p /\ a <> pool) as (? & ? & ?) by (split_and!; intros ->; congruence).
    assert (a ∉ l) as Hal.
    { intros Hin. specialize (Hfr a Hin). rewrite !lookup_insert_ne, Ha in Hfr by done. assert (a <> 0); [|by discriminate Hfr].
      intros ->. by apply (po_bs_nonnull _ _ _ Hp). }
    rewrite decide_False by naive_solver. rewrite !lookup_insert_ne by done. split_and!; done.
  - intros (Ha & Hal & ? & ? & ? & _). rewrite decide_False in Ha by naive_solver. by rewrite !lookup_insert_ne in Ha by done.
Qed.
End Fresh.

(** ** [disjoint_pool_initialize] *)

(** What the parameters must be: the limits are live and not exceeded. *)
Record params_ok (live : gmap Z string) (L : limits_map) (q : umf_disjoint_pool_params_t) : Prop := {
  pk_min : 0 < slab_min_size q <= 2 ^ 32;
  pk_cap : 0 <= capacity q <= MAX_POOLED;
  pk_poolable : 0 <= max_poolable_size q <= CutOff;
  pk_bucket : pow2 (min_bucket_size q);
  pk_shared : shared_limits q <> 0 -> live !! shared_limits q = Some tag_limits /\ exists l, L !! shared_limits q = Some l /\
    0 <= total_size l <= MAX_BASE /\ total_size l <= max_size l < two64;
}.

(** The bytes that the other pools with the same limits hold. *)
Definition base_of (L : limits_map) (q : umf_disjoint_pool_params_t) : Z :=
  if shared_limits q =? 0 then 0 else match L !! shared_limits q with Some l => total_size l | None => 0 end.

Lemma base_range live L q : params_ok live L q -> 0 <= base_of L q <= MAX_BASE.
Proof.
  intros Hq. unfold base_of. destruct (Z.eqb_spec (shared_limits q) 0); [done|]. by destruct (pk_shared _ _ _ Hq) as (_ & l & -> & ? & _).
Qed.

Section Initialize.
Context `{HostAllocLaws H} `{PoolProviderLaws W}.
Context (M0 : gmap Z string) (L0 : limits_map) (h : Z) (P : gmap Z Z) (n : Z) (q : umf_disjoint_pool_params_t).
Hypothesis Hq : params_ok M0 L0 q.
Hypothesis Hn : 0 <= n < pp_max.
Implicit Types (s : djstate H W) (p : disjoint_pool_t) (l : list Z).

(** A pool with nothing in it. *)
Record fresh_pool s (pool : Z) p l : Prop := {
  fp_ok : pool_ok p pool l;
  fp_page : provider_min_page_size p = 0 \/ (pow2 (provider_min_page_size p) /\ provider_min_page_size p <= pp_page);
  fp_provider : provider p = h;
  fp_params : params p = q;
  fp_inv : dinv p pool l (base_of L0 q) s None ∅ None P ∅ (n + 1);
  fp_released : forall M, outers s M -> released p pool l M ∅ M0;
}.

(** What [disjoint_pool_initialize] returns and leaves. *)
Definition initialized (pp : option Z) (r : umf_result_t * option Z) s : Prop :=
  (r = (UMF_RESULT_ERROR_OUT_OF_HOST_MEMORY, pp) /\ rolled_back M0 h P n s) \/
  (exists pool p l, r = (UMF_RESULT_SUCCESS, Some pool) /\ fresh_pool s pool p l).

(** The pool with its array, before the buckets are created. *)
Record arrayed p (pool : Z) : Prop := {
  ar_exp : 3 <= bexp p <= 31;
  ar_num : buckets_num p = bnum (bexp p);
  ar_provider : provider p = h;
  ar_params : params p = q;
  ar_limits : M_limits M0 pool (default_shared_limits p) !! buckets p = None;
  ar_pool : M_pool M0 pool !! default_shared_limits p = None;
  ar_fresh : M0 !! pool = None;
  ar_array0 : buckets p <> 0;
  ar_limits0 : default_shared_limits p <> 0;
  ar_pool0 : pool <> 0;
}.

Lemma building_nodup p pool M1 s l r L n' : building p pool M1 s l r L P n' -> 0 ∉ l -> NoDup l.
Proof using. intros HB H0'. apply NoDup_alt. intros i j a Hi Hj. eapply (bu_nodup _ _ _ _ _ _ _ _ _ HB); [done|done|]. intros ->. apply H0'. by eapply list_elem_of_lookup_2. Qed.

Lemma arrayed_ok p pool M1 s l r L n' : arrayed p pool -> building p pool M1 s l r L P n' -> 0 ∉ l -> Z.of_nat (length l) = bnum (bexp p) -> pool_ok p pool l.
Proof using Hq.
  intros Ha HB H0' Hl. split; try apply Ha; try done; unfold smin; rewrite ?(ar_params _ _ Ha); try apply Hq. by eapply building_nodup.
Qed.

(** The limits of the new pool. *)
Lemma new_limits p pool : arrayed p pool ->
  exists lo, <[default_shared_limits p := mk_limits SIZE_MAX 0]> L0 !! lim p = Some lo /\ total_size lo = base_of L0 q /\ base_of L0 q <= max_size lo < two64.
Proof using Hq.
  intros Ha. unfold lim, disjoint_pool_get_limits, base_of. rewrite (ar_params _ _ Ha). destruct (Z.eqb_spec (shared_limits q) 0) as [E|E]; simpl.
  - rewrite lookup_insert_eq. by eexists.
  - destruct (pk_shared _ _ _ Hq E) as (Hl & lo & Elo & ? & ?). rewrite Elo. exists lo. split_and!; [|done|lia|lia].
    rewrite lookup_insert_ne; [done|]. intros E'. pose proof (ar_pool _ _ Ha) as Hf. unfold M_pool in Hf. apply lookup_insert_None in Hf as [Hf _]. congruence.
Qed.

(** From the creation of the buckets on. *)
Lemma wp_init_buckets s p pool e pp (Q : umf_result_t * option Z -> djstate H W -> Prop) : arrayed p pool -> bexp p = e ->
  building p pool (M_array M0 pool (default_shared_limits p) (buckets p)) s [] [] (<[default_shared_limits p := mk_limits SIZE_MAX 0]> L0) P n ->
  (forall r s', initialized pp r s' -> Q r s') ->
  wp (i ← create_buckets BUCKET_LOOP pool (2 ^ e) (3 * 2 ^ (e - 1)) 0;
      _ ← create_bucket_at pool i CutOff;
      p ← load_pool pool;
      created ← buckets_created (Z.to_nat (bnum e)) p 0;
      if negb (created : bool) then err_free_buckets pool pp else
      '(ret, page) ← on_world (umfMemoryProviderGetMinPageSize h 0 (provider_min_page_size p));
      _ ← store_pool pool (with_min_page (if bool_decide (ret = UMF_RESULT_SUCCESS) then page else 0) p);
      mret (UMF_RESULT_SUCCESS, Some pool)) Q s.
Proof using H1 Hq Hn.
  intros Ha <- HB HQ. set (L := <[default_shared_limits p := mk_limits SIZE_MAX 0]> L0) in *. set (M1 := M_array M0 pool (default_shared_limits p) (buckets p)) in *. pose proof (ar_exp _ _ Ha) as Hexp. pose proof (ar_num _ _ Ha) as Hnum.
  apply wp_bind. replace 0 with (2 * (bexp p - bexp p)) at 1 by lia.
  apply (wp_create_buckets p pool M1 Hexp Hnum BUCKET_LOOP (bexp p) s [] L P n); [done|lia|unfold BUCKET_LOOP; lia|simpl; lia|]. intros s1 l1 HB1 Hl1.
  apply wp_bind, (wp_create_at p pool M1 Hexp Hnum s1 l1 L P n); [done|lia|lia|by rewrite bsize_last|]. intros s2 a HB2. set (l := l1 ++ [a]) in *.
  assert (Z.of_nat (length l) = bnum (bexp p)) as Hl by (unfold l; rewrite length_app; simpl; lia).
  apply wp_bind, (wp_load_same p); [apply HB2|]. apply wp_bind. replace (Z.to_nat (bnum (bexp p))) with (length l - Z.to_nat 0)%nat by (simpl; lia).
  apply (wp_buckets_created p Hexp s2 l); [apply HB2|lia|]. rewrite drop_0. case_bool_decide as Hz; simpl.
  - apply wp_bind. unfold on_world, wp. pose proof (pp_min_page (dj_world s2) h P n (provider_min_page_size p)) as Hpage.
    rewrite <- (ar_provider _ _ Ha) in Hpage |- *. specialize (Hpage (bu_prov _ _ _ _ _ _ _ _ _ HB2) (proj2 Hn)). unfold wp in Hpage.
    destruct (umfMemoryProviderGetMinPageSize _ _ _ _) as [[[ret page] w]|]; [|done]. destruct Hpage as [HP Hpg]. simpl in HP, Hpg. apply HQ. right.
    set (pg := if bool_decide (ret = UMF_RESULT_SUCCESS) then page else 0). exists pool, (with_min_page pg p), l. split; [done|].
    pose proof (building_page M0 p pool s2 l L P n w (n + 1) pg HB2 HP) as HB3. assert (arrayed (with_min_page pg p) pool) as Ha' by (split; apply Ha).
    assert (pool_ok (with_min_page pg p) pool l) as Hok by (by eapply arrayed_ok). destruct (new_limits _ _ Ha') as (lo & ? & ? & ?).
    split; [done|..]; try apply Ha.
    + unfold pg. simpl. case_bool_decide; [right; by apply Hpg|by left].
    + eapply (building_dinv M0 (with_min_page pg p)); try done; try apply Ha'. lia.
    + intros M HM. eapply (building_released M0 (with_min_page pg p)); try done; apply Ha'.
  - apply (wp_err_buckets M0 h P n s2 l L p); try done; try apply Ha; [lia|]. intros s' Hr. apply HQ. by left.
Qed.

(** From the allocation of the array on. *)
Lemma wp_init_array s p pool e k pp (Q : umf_result_t * option Z -> djstate H W -> Prop) : 3 <= e <= 31 -> bexp p = e -> provider p = h -> params p = q ->
  dj_pool s = Some (pool, p) -> dj_limits s = <[default_shared_limits p := mk_limits SIZE_MAX 0]> L0 -> known s ∅ None k -> k = 0 -> pp_rep (dj_world s) h P n ->
  outers s (M_limits M0 pool (default_shared_limits p)) -> M_pool M0 pool !! default_shared_limits p = None -> default_shared_limits p <> 0 -> M0 !! pool = None -> pool <> 0 ->
  (forall r s', initialized pp r s' -> Q r s') ->
  wp (num ← of_option (count_buckets BUCKET_LOOP (3 * 2 ^ (e - 1)) 1);
      a ← dj_alloc tag_buckets (mul64 8 num);
      p ← load_pool pool;
      _ ← store_pool pool (with_array a num p);
      if a =? 0 then err_free_shared_limits pool pp else
      _ ← modify (fun s => with_dj_arrays (<[a := []]> (dj_arrays s)) s);
      i ← create_buckets BUCKET_LOOP pool (2 ^ e) (3 * 2 ^ (e - 1)) 0;
      _ ← create_bucket_at pool i CutOff;
      p ← load_pool pool;
      created ← buckets_created (Z.to_nat num) p 0;
      if negb (created : bool) then err_free_buckets pool pp else
      '(ret, page) ← on_world (umfMemoryProviderGetMinPageSize h 0 (provider_min_page_size p));
      _ ← store_pool pool (with_min_page (if bool_decide (ret = UMF_RESULT_SUCCESS) then page else 0) p);
      mret (UMF_RESULT_SUCCESS, Some pool)) Q s.
Proof using H1 Hq Hn.
  intros He Ee Eh Eq Hpo HL Hk -> HP HM Hfl Hl0 Hf0 Hp0 HQ. wp_step; [apply (count_buckets_spec BUCKET_LOOP e 1); unfold BUCKET_LOOP; lia|].
  replace (1 + 2 * (31 - e)) with (bnum e) by (unfold bnum; lia).
  apply wp_bind, (wp_alloc_outers s ∅ 0 (M_limits M0 pool (default_shared_limits p))); [done|done|..].
  - intros h' s' Hk' HM'. apply wp_bind, (wp_load_same p); [done|]. apply wp_bind, wp_store_pool. rewrite Z.eqb_refl.
    apply (wp_err_limits M0 h P n _ 0 (with_array 0 (bnum e) p)); try done. intros s'' Hr. apply HQ. by left.
  - intros a h' s' Ha0 Hfa Hk' HM'. apply wp_bind, (wp_load_same p); [done|]. apply wp_bind, wp_store_pool. rewrite (proj2 (Z.eqb_neq _ _) Ha0). wp_step.
    apply (wp_init_buckets _ (with_array a (bnum e) p)); [|done| |done].
    + split; try done; simpl; by rewrite <- Ee in *.
    + split; try done; try (by intros ? ?%not_elem_of_nil).
      * simpl. by rewrite lookup_insert_eq.
      * simpl. by rewrite Eh.
      * by exists [].
      * eexists. split; [by apply (outers_ext s')|]. intros b. by rewrite decide_False by (by intros [?%not_elem_of_nil _]).
Qed.

(** Creating a pool: either there is no memory and nothing is left of it, or
    the pool is new. *)
Lemma wp_initialize s junk prm pp (Q : umf_result_t * option Z -> djstate H W -> Prop) : dj_pool s = None -> dj_crit s = None -> ba_live (dj_host s) = M0 -> dj_limits s = L0 ->
  pp_rep (dj_world s) h P n -> h <> 0 -> is_Some pp -> (if prm =? 0 then Some default_params else dj_params s !! prm) = Some q ->
  (forall r s', initialized pp r s' -> Q r s') -> wp (disjoint_pool_initialize junk h prm pp) Q s.
Proof using H1 Hq Hn.
  intros Hpo Hc HM0 HL HP Hh [pp0 ->] Eq HQ. unfold disjoint_pool_initialize. rewrite (proj2 (Z.eqb_neq _ _) Hh), bool_decide_false by done. cbn [orb].
  wp_step. wp_step; [exact Eq|]. destruct (first_size_pow q (pk_bucket _ _ _ Hq)) as (e & He & Ee).
  apply wp_bind, wp_alloc_live; [done|..].
  { intros h1 El. rewrite Z.eqb_refl. wp_step. apply HQ. left. split; [done|]. split_and!; simpl; congruence. }
  intros pool h1 Hp0 Hfr El. rewrite (proj2 (Z.eqb_neq _ _) Hp0). rewrite HM0 in *. apply wp_bind, wp_store_pool.
  apply wp_bind, wp_new_known; [done|..].
  { intros h2 ml El2. apply wp_bind, (wp_load_same (with_params h q junk)); [done|]. apply wp_bind, wp_store_pool. rewrite Z.eqb_refl.
    apply (wp_err_pool M0 h P n); try done; [simpl; by rewrite El2|]. intros s' Hr. apply HQ. by left. }
  intros k h2 ml s2 Hk2 HM2 Hk0. simpl in HM2. rewrite El in HM2. apply wp_bind, (wp_load_same (with_params h q junk)); [done|]. apply wp_bind, wp_store_pool.
  rewrite (proj2 (Z.eqb_neq _ _) Hk0). cbv zeta. fold (first_size q). rewrite Ee, second_size by lia. unfold utils_msb64. rewrite Z.log2_pow2 by lia.
  set (p2 := with_known_slabs _ _). apply wp_bind, (wp_load_same p2); [done|]. apply wp_bind. unfold umfDisjointPoolSharedLimitsCreate.
  apply wp_bind, (wp_alloc_outers _ ∅ 0 (M_pool M0 pool)); [by apply (known_ext s2)|by apply (outers_ext s2)|..].
  { intros h3 s3 Hk3 HM3. rewrite Z.eqb_refl. wp_step. apply wp_bind, wp_store_pool. rewrite bool_decide_false by done. cbn [negb].
    apply (wp_err_known M0 h P n _ 0); try done. intros s' Hr. apply HQ. by left. }
  intros lm h3 s3 Hl0 Hfl Hk3 HM3. rewrite (proj2 (Z.eqb_neq _ _) Hl0). wp_step. wp_step. apply wp_bind, wp_store_pool. rewrite bool_decide_true by done. cbn [negb default].
  apply (wp_init_array _ (with_exp e lm p2) pool e 0); try done. simpl. by rewrite HL.
Qed.
End Initialize.
