(* ===== verification/DisjointTheorems.v ===== *)
(** * Theorems about the disjoint pool

    The properties of src/pool/pool_disjoint.c, on any host allocator and any
    provider.  The witnesses run it on the scripted allocator and on the
    provider of pages. *)

From S2P Require Import Prelude Utils HostMem CritQuery CritDelete CritSpec CritInsert CritRemove CritInv CritWorld.
From stdpp Require Import strings list.
From S2P Require Import Critnib Tracker PoolProvider DisjointPool DisjointApi DisjointSize DisjointInv DisjointSteps DisjointOps DisjointCalls DisjointSpec DisjointLife DisjointInit.
#[local] Open Scope Z_scope.

(** ** The choice of the bucket *)

(** The first of the [k] buckets from [i] on that is large enough. *)
Fixpoint first_fit (e size : Z) (k : nat) (i : Z) : option Z :=
  match k with
  | O => None
  | S k => if size <=? bsize e i then Some i else first_fit e size k (i + 1)
  end.

Lemma first_fit_spec e size k i j : i <= j < i + Z.of_nat k -> size <= bsize e j -> (forall l, i <= l < j -> bsize e l < size) -> first_fit e size k i = Some j.
Proof.
  revert i. induction k as [|k IH]; intros i Hj Hle Hlt; simpl; [lia|]. destruct (Z.leb_spec size (bsize e i)) as [H1|H1].
  - destruct (Z.eq_dec i j) as [->|]; [done|]. specialize (Hlt i). lia.
  - destruct (Z.eq_dec i j) as [->|]; [lia|]. apply IH; [lia|done|]. intros l Hl. apply Hlt. lia.
Qed.

(** C23 The arithmetic of [size_to_idx] on the position of the highest bit finds
    the bucket that a search from the smallest bucket on finds. *)
Theorem size_to_idx_first_fit p size : 3 <= min_bucket_size_exp p <= 31 -> 0 < size <= CutOff ->
  size_to_idx p size = first_fit (min_bucket_size_exp p) size (Z.to_nat (bnum (min_bucket_size_exp p))) 0.
Proof.
  intros He Hs. destruct (size_to_idx_spec p size He Hs) as (i & -> & Hi & Hle & Hmin). symmetry. apply first_fit_spec; [lia|done|].
  intros l Hl. destruct Hmin as [->|Hmin]; [lia|]. eapply Z.le_lt_trans; [apply (bsize_mono _ l (i - 1)); lia|done].
Qed.

(** ** Runs of a pool *)

Section Runs.
Context `{HostAlloc H} `{PoolProvider W}.

(** A pool that is created and called [k] times by the client [c]. *)
Definition run_pool (junk : disjoint_pool_t) (h prm : Z) (c : client) (k : nat) : M (djstate H W) (umf_result_t * Z * list (dcall * dres)) :=
  '(r, pool) ← disjoint_pool_initialize junk h prm (Some 0);
  if bool_decide (r = UMF_RESULT_SUCCESS) then rs ← run_client (default 0 pool) c k []; mret (r, default 0 pool, rs) else mret (r, 0, []).

(** The same, and it is destroyed. *)
Definition run_pool_life (junk : disjoint_pool_t) (h prm : Z) (c : client) (k : nat) : M (djstate H W) (umf_result_t * list (dcall * dres)) :=
  '(r, pool, rs) ← run_pool junk h prm c k;
  if bool_decide (r = UMF_RESULT_SUCCESS) then r ← disjoint_pool_finalize pool; mret (r, rs) else mret (r, []).
End Runs.

Section Claims.
Context `{HostAllocLaws H} `{PoolProviderLaws W}.
Implicit Types (s : djstate H W) (P : gmap Z Z) (q : umf_disjoint_pool_params_t).

(** There is no pool yet, and the provider [h] has made [n] calls. *)
Record pool_start s (h prm : Z) q P (n : Z) : Prop := {
  ps_pool : dj_pool s = None;
  ps_crit : dj_crit s = None;
  ps_prov : pp_rep (dj_world s) h P n;
  ps_handle : h <> 0;
  ps_params : (if prm =? 0 then Some default_params else dj_params s !! prm) = Some q;
  ps_ok : params_ok (ba_live (dj_host s)) (dj_limits s) q;
  ps_count : 0 <= n < pp_max;
}.

Lemma wp_new_pool s h prm q P n junk : pool_start s h prm q P n ->
  wp (disjoint_pool_initialize junk h prm (Some 0)) (initialized (ba_live (dj_host s)) (dj_limits s) h P n q (Some 0)) s.
Proof. intros [? ? ? ? ? ? ?]. by apply (wp_initialize (ba_live (dj_host s)) (dj_limits s) h P n q). Qed.

(** What a run leaves, the pool included. *)
Definition run_pool_post s (h : Z) q P (n : Z) (k : nat) (r : umf_result_t * Z * list (dcall * dres)) s' : Prop :=
  (r = (UMF_RESULT_ERROR_OUT_OF_HOST_MEMORY, 0, []) /\ rolled_back (ba_live (dj_host s)) h P n s') \/
  (r.1.1 = UMF_RESULT_SUCCESS /\ length r.2 = k /\ exists p bs G, params p = q /\ pool_ok p r.1.2 bs /\
    dsteps ∅ r.2 (uview G) /\ dpool p r.1.2 bs (base_of (dj_limits s) q) s' G (n + 1 + 4 * Z.of_nat k)).

Lemma wp_run_pool c k s h prm q P n junk : pool_start s h prm q P n -> room (n + 1) (4 * Z.of_nat k) ->
  (forall p, params p = q -> client_obeys p c) ->
  wp (run_pool junk h prm c k) (run_pool_post s h q P n k) s.
Proof.
  intros Hs Hroom Hob. unfold run_pool. apply wp_bind. eapply wp_mono; [by eapply wp_new_pool|].
  intros r s1 [[-> Hr]|(pool & p & bs & -> & [Hp Hpage _ Eq HI _])]; cbv beta iota.
  { rewrite bool_decide_false by done. wp_step. by left. }
  rewrite bool_decide_true by done. apply wp_bind. simpl.
  assert (uview ∅ = ∅) as E0 by (apply map_eq; intros a; by rewrite uview_lookup, !lookup_empty).
  eapply wp_mono; [apply (wp_client p pool bs _ Hp (base_range _ _ _ (ps_ok _ _ _ _ _ _ Hs)) Hpage c k [] s1 ∅ (n + 1))|].
  - by apply Hob.
  - done.
  - exists ∅, P, (n + 1). split; [done|]. unfold spent. rewrite map_size_empty. lia.
  - done.
  - intros rs s2 (Hl & G & Hst & HD). wp_step. right. simpl. split_and!; [done|done|]. by exists p, bs, G.
Qed.

(** The whole life of a pool. *)
Lemma wp_run_pool_life c k s h prm q P n junk : pool_start s h prm q P n -> room (n + 1) (4 * Z.of_nat k) ->
  (forall p, params p = q -> client_obeys p c) ->
  wp (run_pool_life junk h prm c k) (fun r s' => dj_pool s' = None /\ dj_crit s' = None /\
    ((r = (UMF_RESULT_ERROR_OUT_OF_HOST_MEMORY, []) /\ ba_live (dj_host s') = ba_live (dj_host s)) \/
     (r.1 = UMF_RESULT_SUCCESS /\ length r.2 = k /\ exists U, dsteps ∅ r.2 U))) s.
Proof.
  intros Hs Hroom Hob. unfold run_pool_life. apply wp_bind. eapply wp_mono; [by eapply wp_run_pool|].
  intros [[r pool] rs] s1 [[[= -> -> ->] (? & ? & ? & ?)]|(Er & Hl & p & bs & G & Eq & Hp & Hst & R & P' & n' & HI & Hsp)]; cbv beta iota.
  { rewrite bool_decide_false by done. wp_step. split_and!; [done|done|]. by left. }
  simpl in *. subst r. rewrite bool_decide_true by done. destruct (exists_outers s1) as [M HM]. apply wp_bind, (wp_finalize p pool bs (base_of (dj_limits s) q) Hp s1 R P' G n' M); [done| |done|].
  { unfold spent, room in *. lia. }
  intros s2 ? ? _. wp_step. split_and!; [done|done|right]. split_and!; [done|done|by exists (uview G)].
Qed.

(** C7 A pool that is created, called by a client that obeys the rules and
    destroyed refines the abstract pool: it runs to the end; an allocation is of at least the
    requested size, aligned as requested and apart from all others; a
    freed pointer is no longer held; and the pool is destroyed in the end.  When
    there is no memory for the pool, nothing is left of it. *)
Theorem disjoint_calls_refine c k s h prm q P n junk : pool_start s h prm q P n -> room (n + 1) (4 * Z.of_nat k) ->
  (forall p, params p = q -> client_obeys p c) ->
  wp (run_pool_life junk h prm c k) (fun r s' => dj_pool s' = None /\ dj_crit s' = None /\
    ((r = (UMF_RESULT_ERROR_OUT_OF_HOST_MEMORY, []) /\ ba_live (dj_host s') = ba_live (dj_host s)) \/
     (r.1 = UMF_RESULT_SUCCESS /\ length r.2 = k /\ exists U, dsteps ∅ r.2 U))) s.
Proof. apply wp_run_pool_life. Qed.

(** C20 Creating a pool and destroying it leaves the host allocator as it was,
    whether the creation succeeds or not. *)
Theorem disjoint_round_trip c s h prm q P n junk : pool_start s h prm q P n ->
  wp (run_pool_life junk h prm c 0) (fun _ s' => dj_pool s' = None /\ dj_crit s' = None /\ ba_live (dj_host s') = ba_live (dj_host s)) s.
Proof.
  intros Hs. unfold run_pool_life, run_pool. apply wp_bind, wp_bind. eapply wp_mono; [by eapply wp_new_pool|].
  intros r s1 [[-> (? & ? & ? & ?)]|(pool & p & bs & -> & [Hp _ _ _ HI Hrel])]; cbv beta iota.
  { rewrite bool_decide_false by done. wp_step. cbv beta iota. rewrite bool_decide_false by done. by wp_step. }
  rewrite bool_decide_true by done. simpl. wp_step. wp_step. cbv beta iota. rewrite bool_decide_true by done. destruct (exists_outers s1) as [M HM].
  apply wp_bind, (wp_finalize p pool bs (base_of (dj_limits s) q) Hp s1 ∅ P ∅ (n + 1) M); [done|rewrite map_size_empty; pose proof (ps_count _ _ _ _ _ _ Hs); lia|done|].
  intros s2 ? ? Hr2. wp_step. split_and!; [done|done|]. apply map_eq. intros a. apply option_eq. intros tg. by rewrite (Hr2 a tg), (Hrel M HM a tg).
Qed.

(** C21 What the pools with the same limits hold without using it stays
    within the limit: after any calls, [total_size] is what the other pools hold and the
    bytes of the slabs in [chunked_slabs_in_pool] of the buckets of this one, and it is at most [max_size]. *)
Theorem disjoint_limits_respected c k s h prm q P n junk : pool_start s h prm q P n -> room (n + 1) (4 * Z.of_nat k) ->
  (forall p, params p = q -> client_obeys p c) ->
  wp (run_pool junk h prm c k) (fun r s' => r.1.1 = UMF_RESULT_SUCCESS -> exists p bs l,
    dj_pool s' = Some (r.1.2, p) /\ dj_arrays s' !! buckets p = Some bs /\ dj_limits s' !! disjoint_pool_get_limits p = Some l /\
    total_size l = base_of (dj_limits s) q + pooled p (dj_buckets s') bs /\ total_size l <= max_size l) s.
Proof.
  intros Hs Hroom Hob. eapply wp_mono; [by eapply wp_run_pool|].
  intros [[r pool] rs] s1 [[[= -> -> ->] _]|(Er & Hl & p & bs & G & Eq & Hp & Hst & R & P' & n' & HI & Hsp)] Hr; [done|]. simpl in *.
  destruct (di_pool _ _ _ _ _ _ _ _ _ _ _ HI) as [cur Hc]. destruct (pi_limits _ _ _ _ _ _ _ _ _ _ _ (di_inv _ _ _ _ _ _ _ _ _ _ _ HI)) as (l & Hlim & Ht & Hmax & _).
  exists (with_cur_pool_size cur p), bs, l. split_and!; [done|apply HI|done|done|done].
Qed.
End Claims.

(** ** Runs on the provider of pages *)

(** A process with the parameters [q] at address 9, and no pool. *)
Definition demo_pools (q : umf_disjoint_pool_params_t) (script : list bool) : djstate scripted pages :=
  mk_djstate (host0 script) (pages0 []) None None ∅ ∅ ∅ ∅ {[9 := q]} UMF_RESULT_SUCCESS [].

Definition demo_junk : disjoint_pool_t := mk_disjoint_pool 0 0 0 0 default_params 0 0 0.

(** It allocates, frees what it got, allocates aligned memory, and asks for the size of it. *)
Definition demo_client : client := fun evs =>
  match evs with
  | [] => DMalloc 100
  | [(_, DPtr ptr)] => DFree ptr
  | [_; _] => DAligned 100 64
  | [_; _; (_, DPtr ptr)] => DUsable ptr
  | [_; _; _; _] => DMalloc 3000000
  | _ => DTrim 0
  end.

Lemma demo_params_ok live L : params_ok live L default_params.
Proof. split; try done. exists 3. done. Qed.

Lemma demo_pool_start script : pool_start (demo_pools default_params script) 1 9 default_params ∅ 0.
Proof. split; try done. apply demo_params_ok. Qed.

Lemma demo_aligned p : params p = default_params -> align_ok p 100 64.
Proof. intros E. unfold align_ok, smin. rewrite E. split_and!; [exists 6; done|done|done]. Qed.

(** A pointer that a call has just returned may be used. *)
Lemma just_allocated U c ptr U' : dstep U c (DPtr ptr) U' -> ptr = 0 \/ is_Some (U' !! ptr).
Proof.
  assert (forall size, dallocated U size (DPtr ptr) U' -> ptr = 0 \/ is_Some (U' !! ptr)) as Ha.
  { intros size [[[= ->] _]|(ptr' & n & [= <-] & _ & _ & _ & _ & ->)]; [by left|right]. rewrite lookup_insert_eq. eauto. }
  destruct c; simpl; try (by intros [? _]); [by apply Ha|intros [? _]; by eapply Ha|intros [[= ->] _]; by left|intros [[= ->] _]; by left|].
  intros [[? _]|(? & _ & ? & _)]; done.
Qed.

Lemma demo_client_obeys p : params p = default_params -> client_obeys p demo_client.
Proof.
  intros Eq evs U Hst. assert (dobeys p U (DAligned 100 64)) as Hal by (split; [done|by apply demo_aligned]).
  destruct evs as [|[c1 r1] [|[c2 r2] [|[c3 r3] [|[c4 r4] [|? ?]]]]]; cbn [demo_client].
  all: repeat case_match; simplify_eq; try done; try exact Hal.
  { destruct Hst as (U1 & Hs & ->). by eapply just_allocated. }
  all: destruct Hst as (U1 & _ & U2 & _ & U3 & Hs3 & ->); by eapply just_allocated.
Qed.

Definition demo_trace : list (dcall * dres) :=
  [(DMalloc 100, DPtr 4096); (DFree 4096, DResult UMF_RESULT_SUCCESS); (DAligned 100 64, DPtr 4096);
   (DUsable 4096, DSize UMF_RESULT_SUCCESS (Some 128)); (DMalloc 3000000, DPtr 69632); (DTrim 0, DResult UMF_RESULT_SUCCESS)].

Lemma disjoint_calls_refine_witness :
  wp (run_pool_life demo_junk 1 9 demo_client 6) (fun r s' => dj_pool s' = None /\ dj_crit s' = None /\
    ((r = (UMF_RESULT_ERROR_OUT_OF_HOST_MEMORY, []) /\ ba_live (dj_host s') = ba_live (host0 [])) \/
     (r.1 = UMF_RESULT_SUCCESS /\ length r.2 = 6%nat /\ exists U, dsteps ∅ r.2 U))) (demo_pools default_params []) /\
  option_map fst (run_pool_life demo_junk 1 9 demo_client 6 (demo_pools default_params [])) = Some (UMF_RESULT_SUCCESS, demo_trace).
Proof.
  split; [|vm_compute; reflexivity].
  exact (disjoint_calls_refine demo_client 6 (demo_pools default_params []) 1 9 default_params ∅ 0 demo_junk (demo_pool_start []) ltac:(split; done) demo_client_obeys).
Defined.

(** The creation fails at the second bucket, or succeeds. *)
Lemma disjoint_round_trip_witness :
  wp (run_pool_life demo_junk 1 9 demo_client 0) (fun _ s' => dj_pool s' = None /\ dj_crit s' = None /\ ba_live (dj_host s') = ba_live (host0 []))
    (demo_pools default_params (repeat true 5 ++ [false])) /\
  option_map fst (run_pool_life demo_junk 1 9 demo_client 0 (demo_pools default_params (repeat true 5 ++ [false]))) = Some (UMF_RESULT_ERROR_OUT_OF_HOST_MEMORY, []) /\
  option_map fst (run_pool_life demo_junk 1 9 demo_client 0 (demo_pools default_params [])) = Some (UMF_RESULT_SUCCESS, []).
Proof.
  split; [|split; vm_compute; reflexivity].
  exact (disjoint_round_trip demo_client (demo_pools default_params (repeat true 5 ++ [false])) 1 9 default_params ∅ 0 demo_junk (demo_pool_start (repeat true 5 ++ [false]))).
Defined.

Lemma disjoint_limits_respected_witness :
  wp (run_pool demo_junk 1 9 demo_client 2) (fun r s' => r.1.1 = UMF_RESULT_SUCCESS -> exists p bs l,
    dj_pool s' = Some (r.1.2, p) /\ dj_arrays s' !! buckets p = Some bs /\ dj_limits s' !! disjoint_pool_get_limits p = Some l /\
    total_size l = base_of ∅ default_params + pooled p (dj_buckets s') bs /\ total_size l <= max_size l) (demo_pools default_params []) /\
  option_map (fun x => (x.1.1.1, total_size <$> dj_limits x.2 !! 3)) (run_pool demo_junk 1 9 demo_client 2 (demo_pools default_params [])) = Some (UMF_RESULT_SUCCESS, Some 65536).
Proof.
  split; [|vm_compute; reflexivity].
  exact (disjoint_limits_respected demo_client 2 (demo_pools default_params []) 1 9 default_params ∅ 0 demo_junk (demo_pool_start []) ltac:(split; done) demo_client_obeys).
Defined.

Lemma size_to_idx_first_fit_witness :
  size_to_idx (mk_disjoint_pool 0 0 0 57 default_params 0 3 0) 100 = first_fit 3 100 57 0 /\ first_fit 3 100 57 0 = Some 8.
Proof. split; [|reflexivity]. exact (size_to_idx_first_fit (mk_disjoint_pool 0 0 0 57 default_params 0 3 0) 100 ltac:(simpl; lia) ltac:(split; done)). Defined.

(** ** Where the code does not do what it means to *)

(** The first call of the client, then the pointer it returned is freed, then the rest is trimmed. *)
Definition once (c : dcall) : client := fun evs =>
  match evs with [] => c | [(_, DPtr ptr)] => DFree ptr | _ => DTrim 0 end.



(** When a slab cannot be registered, its memory is returned and the [slab_t] is not freed. *)
Lemma disjoint_slab_leaks :
  option_map (fun x => (x.1, s_live (dj_host x.2))) (run_pool_life demo_junk 1 9 (once (DMalloc 100)) 1 (demo_pools default_params (repeat true 62 ++ [false]))) =
    Some ((UMF_RESULT_SUCCESS, [(DMalloc 100, DPtr 0)]), {[62 := tag_slab]}).
Proof. vm_compute. reflexivity. Qed.
