(* ===== verification/IpcCache.v ===== *)
(** * The cache of opened IPC handles: src/ipc_cache.c

    Memory of another process that was mapped is remembered by its key, so
    that it is mapped once.  The entries of all caches are on one list, the
    most recently used first; when there are [max_size] entries, the last one that is
    not referenced is evicted, and the callback of a cache unmaps its memory.

    The structs are kept by their address, 0 for NULL.  The hash table of a
    cache is the list of its entries in the order they were added, as
    [HASH_ITER] visits them, and [&cache->hash_table] is the address of the cache.
    A list of utlist.h is the list of its entries.  [W] is the rest of the
    process: the allocators, and what the callbacks reach; [call_cb f] is a call of
    the callback at the address [f]. *)

From S2P Require Import Prelude Utils HostMem.
From Stdlib Require Import Ascii.
From stdpp Require Import strings list.
#[local] Open Scope Z_scope.

Record ipc_opened_cache_key_t := mk_ipc_key {
  remote_base_ptr : Z;
  local_provider : Z;
  remote_pid : Z;
}.
#[export] Instance ipc_key_eq_dec : EqDecision ipc_opened_cache_key_t.
Proof. solve_decision. Defined.

Record ipc_opened_cache_value_t := mk_ipc_value {
  mapped_base_ptr : Z;
  mapped_size : Z;
  mmap_lock : utils_mutex_t;
}.

Record ipc_opened_cache_entry_t := mk_ipc_entry {
  ie_key : ipc_opened_cache_key_t;
  ref_count : Z;
  ie_handle_id : Z;
  ie_hash_table : Z;
  ie_value : ipc_opened_cache_value_t;
}.

Record ipc_opened_cache_global_t := mk_ipc_global {
  cache_lock : utils_mutex_t;
  cache_allocator : Z;
  ic_max_size : Z;
  ic_cur_size : Z;
  lru_list : list Z;
}.

Record ipc_opened_cache_t := mk_ipc_cache {
  ic_global : Z;
  hash_table : list Z;
  eviction_cb : Z;
}.

(** [ic_mutex_init] are the results of the coming calls of [utils_mutex_init],
    true when they run out; [ic_env] is the variable UMF_MAX_OPENED_IPC_HANDLES. *)
Record icstate (W : Type) := mk_icstate {
  ic_world : W;
  ic_globals : gmap Z ipc_opened_cache_global_t;
  ic_caches : gmap Z ipc_opened_cache_t;
  ic_entries : gmap Z ipc_opened_cache_entry_t;
  IPC_OPENED_CACHE_GLOBAL : Z;
  ic_mutex_init : list bool;
  ic_env : option string;
}.
Arguments mk_icstate {W}. Arguments ic_world {W}. Arguments ic_globals {W}. Arguments ic_caches {W}. Arguments ic_entries {W}.
Arguments IPC_OPENED_CACHE_GLOBAL {W}. Arguments ic_mutex_init {W}. Arguments ic_env {W}.

Definition tag_ipc_global : string := "ipc_opened_cache_global_t".
Definition tag_ipc_cache : string := "ipc_opened_cache_t".
Definition sizeof_ipc_global : Z := 72.
Definition sizeof_ipc_cache : Z := 24.
Definition sizeof_ipc_entry : Z := 176.
(** [offsetof(ipc_opened_cache_entry_t, value)] *)
Definition offsetof_value : Z := 120.

(** ** [strtoul(str, &endptr, 10)] *)

Definition is_space (c : ascii) : bool :=
  let n := Z.of_N (N_of_ascii c) in (n =? 32) || ((9 <=? n) && (n <=? 13)).
Definition digit (c : ascii) : option Z :=
  let n := Z.of_N (N_of_ascii c) in if (48 <=? n) && (n <=? 57) then Some (n - 48) else None.

Fixpoint skip_spaces (s : string) : string :=
  match s with String c s' => if is_space c then skip_spaces s' else s | EmptyString => s end.

(** The value of the digits, whether there were any, and what follows them. *)
Fixpoint digits (s : string) (any : bool) (n : Z) : bool * Z * string :=
  match s with
  | String c s' => match digit c with Some d => digits s' true (10 * n + d) | None => (any, n, s) end
  | EmptyString => (any, n, s)
  end.

Definition strtoul (str : string) : Z * string :=
  let s := skip_spaces str in
  let '(neg, s) := match s with
                   | String c s' => if Ascii.eqb c "-"%char then (true, s') else if Ascii.eqb c "+"%char then (false, s') else (false, s)
                   | EmptyString => (false, s)
                   end in
  match digits s false 0 with
  | (false, _, _) => (0, str)
  | (true, n, rest) => (if two64 <=? n then SIZE_MAX else if (neg : bool) then sub64 0 n else n, rest)
  end.

Section Cache.
Context `{HostAlloc W} `{ChunkPool W} (call_cb : Z -> ipc_opened_cache_key_t -> ipc_opened_cache_value_t -> M W unit).
Abbreviation C := (M (icstate W)).
Implicit Types s : icstate W.

Definition with_ic_world (w : W) s : icstate W :=
  mk_icstate w (ic_globals s) (ic_caches s) (ic_entries s) (IPC_OPENED_CACHE_GLOBAL s) (ic_mutex_init s) (ic_env s).
Definition with_globals (m : gmap Z ipc_opened_cache_global_t) s : icstate W :=
  mk_icstate (ic_world s) m (ic_caches s) (ic_entries s) (IPC_OPENED_CACHE_GLOBAL s) (ic_mutex_init s) (ic_env s).
Definition with_caches (m : gmap Z ipc_opened_cache_t) s : icstate W :=
  mk_icstate (ic_world s) (ic_globals s) m (ic_entries s) (IPC_OPENED_CACHE_GLOBAL s) (ic_mutex_init s) (ic_env s).
Definition with_entries (m : gmap Z ipc_opened_cache_entry_t) s : icstate W :=
  mk_icstate (ic_world s) (ic_globals s) (ic_caches s) m (IPC_OPENED_CACHE_GLOBAL s) (ic_mutex_init s) (ic_env s).
Definition with_GLOBAL (g : Z) s : icstate W :=
  mk_icstate (ic_world s) (ic_globals s) (ic_caches s) (ic_entries s) g (ic_mutex_init s) (ic_env s).
Definition with_ic_mutex_init (l : list bool) s : icstate W :=
  mk_icstate (ic_world s) (ic_globals s) (ic_caches s) (ic_entries s) (IPC_OPENED_CACHE_GLOBAL s) l (ic_env s).

Definition in_world {A} (m : M W A) : C A :=
  fun s => match m (ic_world s) with Some (a, w) => Some (a, with_ic_world w s) | None => None end.
Definition ic_alloc (tg : string) (size : Z) : C Z :=
  s ← get;
  let '(r, w) := umf_ba_global_alloc tg size (ic_world s) in
  _ ← modify (with_ic_world w);
  mret (default 0 r).
Definition ic_free (a : Z) : C unit := modify (fun s => with_ic_world (umf_ba_global_free a (ic_world s)) s).
Definition ic_mutex : C bool :=
  s ← get;
  _ ← modify (with_ic_mutex_init (tail (ic_mutex_init s)));
  mret (default true (head (ic_mutex_init s))).

Definition load_global (g : Z) : C ipc_opened_cache_global_t := s ← get; of_option (ic_globals s !! g).
Definition store_global (g : Z) (x : ipc_opened_cache_global_t) : C unit := modify (fun s => with_globals (<[g := x]> (ic_globals s)) s).
Definition load_cache (c : Z) : C ipc_opened_cache_t := s ← get; of_option (ic_caches s !! c).
Definition store_cache (c : Z) (x : ipc_opened_cache_t) : C unit := modify (fun s => with_caches (<[c := x]> (ic_caches s)) s).
Definition load_entry (e : Z) : C ipc_opened_cache_entry_t := s ← get; of_option (ic_entries s !! e).
Definition store_entry (e : Z) (x : ipc_opened_cache_entry_t) : C unit := modify (fun s => with_entries (<[e := x]> (ic_entries s)) s).

Definition with_list (n : Z) (l : list Z) (g : ipc_opened_cache_global_t) : ipc_opened_cache_global_t :=
  mk_ipc_global (cache_lock g) (cache_allocator g) (ic_max_size g) n l.
Definition with_ref (n : Z) (e : ipc_opened_cache_entry_t) : ipc_opened_cache_entry_t :=
  mk_ipc_entry (ie_key e) n (ie_handle_id e) (ie_hash_table e) (ie_value e).

(** [utils_mutex_destroy_not_free]: destroying a locked mutex is undefined. *)
Definition mutex_destroy (m : utils_mutex_t) : C unit := c_assert (negb (m_held m)).

Definition lock_cache (g : Z) : C unit :=
  x ← load_global g;
  r ← of_option (utils_mutex_lock (cache_lock x));
  store_global g (mk_ipc_global r.2 (cache_allocator x) (ic_max_size x) (ic_cur_size x) (lru_list x)).
Definition unlock_cache (g : Z) : C unit :=
  x ← load_global g;
  m ← of_option (utils_mutex_unlock (cache_lock x));
  store_global g (mk_ipc_global m (cache_allocator x) (ic_max_size x) (ic_cur_size x) (lru_list x)).

(** ** The global data *)

Definition umfIpcCacheGlobalInitMaxOpenedHandles : C Z :=
  s ← get;
  match ic_env s with
  | Some max_size_str =>
    let '(max_size, endptr) := strtoul max_size_str in
    mret (if String.eqb endptr EmptyString then max_size else 0)
  | None => mret 0
  end.

Definition umfIpcCacheGlobalInit : C umf_result_t :=
  cache_global ← ic_alloc tag_ipc_global sizeof_ipc_global;
  if cache_global =? 0 then mret UMF_RESULT_ERROR_OUT_OF_HOST_MEMORY else
  ok ← ic_mutex;
  if negb (ok : bool) then _ ← ic_free cache_global; mret UMF_RESULT_ERROR_UNKNOWN else
  allocator ← in_world (umf_ba_create sizeof_ipc_entry);
  if allocator =? 0 then _ ← ic_free cache_global; mret UMF_RESULT_ERROR_OUT_OF_HOST_MEMORY else
  max_size ← umfIpcCacheGlobalInitMaxOpenedHandles;
  _ ← store_global cache_global (mk_ipc_global (mk_mutex false []) allocator max_size 0 []);
  _ ← modify (with_GLOBAL cache_global);
  mret UMF_RESULT_SUCCESS.

Definition getGlobalLruListSize (l : list Z) : Z := Z.of_nat (length l).

Definition umfIpcCacheGlobalTearDown : C unit :=
  s ← get;
  let cache_global := IPC_OPENED_CACHE_GLOBAL s in
  _ ← modify (with_GLOBAL 0);
  if cache_global =? 0 then mret tt else
  g ← load_global cache_global;
  _ ← c_assert (ic_cur_size g =? 0);
  _ ← c_assert (getGlobalLruListSize (lru_list g) =? 0);
  _ ← in_world (umf_ba_destroy (cache_allocator g));
  _ ← mutex_destroy (cache_lock g);
  _ ← ic_free cache_global;
  modify (fun s => with_globals (delete cache_global (ic_globals s)) s).

(** ** A cache *)

Definition umfIpcOpenedCacheCreate (eviction_cb : Z) : C Z :=
  if eviction_cb =? 0 then mret 0 else
  cache ← ic_alloc tag_ipc_cache sizeof_ipc_cache;
  if cache =? 0 then mret 0 else
  s ← get;
  _ ← c_assert (negb (IPC_OPENED_CACHE_GLOBAL s =? 0));
  _ ← store_cache cache (mk_ipc_cache (IPC_OPENED_CACHE_GLOBAL s) [] eviction_cb);
  mret cache.

(** [DL_DELETE], [HASH_DEL]: the entry must be on the list. *)
Fixpoint unlink_entry (x : Z) (l : list Z) : option (list Z) :=
  match l with
  | [] => None
  | y :: l => if x =? y then Some l else l' ← unlink_entry x l; Some (y :: l')
  end.

(** The entry is taken off the list and out of the hash table of [cache]. *)
Definition remove_entry (global cache entry : Z) : C unit :=
  g ← load_global global;
  lru ← of_option (unlink_entry entry (lru_list g));
  c ← load_cache cache;
  table ← of_option (unlink_entry entry (hash_table c));
  _ ← store_cache cache (mk_ipc_cache (ic_global c) table (eviction_cb c));
  store_global global (with_list (sub64 (ic_cur_size g) 1) lru g).

(** The loop of [umfIpcOpenedCacheDestroy] over the entries of the cache. *)
Fixpoint destroy_entries (cache global : Z) (entries : list Z) : C unit :=
  match entries with
  | [] => mret tt
  | entry :: entries =>
    _ ← remove_entry global cache entry;
    e ← load_entry entry;
    c ← load_cache cache;
    _ ← in_world (call_cb (eviction_cb c) (ie_key e) (ie_value e));
    _ ← mutex_destroy (mmap_lock (ie_value e));
    g ← load_global global;
    _ ← in_world (umf_ba_free (cache_allocator g) entry);
    _ ← modify (fun s => with_entries (delete entry (ic_entries s)) s);
    destroy_entries cache global entries
  end.

Definition umfIpcOpenedCacheDestroy (cache : Z) : C unit :=
  c ← load_cache cache;
  _ ← lock_cache (ic_global c);
  _ ← destroy_entries cache (ic_global c) (hash_table c);
  c ← load_cache cache;
  _ ← store_cache cache (mk_ipc_cache (ic_global c) [] (eviction_cb c));
  _ ← unlock_cache (ic_global c);
  _ ← ic_free cache;
  modify (fun s => with_caches (delete cache (ic_caches s)) s).

(** [HASH_FIND]: the entry of the key, 0 when there is none. *)
Fixpoint hash_find (k : ipc_opened_cache_key_t) (entries : list Z) : C Z :=
  match entries with
  | [] => mret 0
  | entry :: entries =>
    e ← load_entry entry;
    if bool_decide (ie_key e = k) then mret entry else hash_find k entries
  end.

(** The loop from the end of the list: the first entry that is not referenced. *)
Fixpoint find_candidate (candidates : list Z) : C Z :=
  match candidates with
  | [] => mret 0
  | candidate :: candidates =>
    e ← load_entry candidate;
    if ref_count e =? 0 then mret candidate else find_candidate candidates
  end.

(** The entry to evict, 0 for none; [lru_list->prev] is its last entry. *)
Definition eviction_candidate (g : ipc_opened_cache_global_t) (entry : Z) : C Z :=
  if (entry =? 0) && negb (ic_max_size g =? 0) && (ic_max_size g <=? ic_cur_size g) then
    _ ← c_assert (bool_decide (lru_list g <> []));
    find_candidate (reverse (lru_list g))
  else mret entry.

(** A new entry: its address, or the error. *)
Definition new_entry (g : ipc_opened_cache_global_t) : C (umf_result_t * Z) :=
  entry ← in_world (umf_ba_alloc (cache_allocator g));
  if entry =? 0 then mret (UMF_RESULT_ERROR_OUT_OF_HOST_MEMORY, 0) else
  ok ← ic_mutex;
  if (ok : bool) then
    _ ← store_entry entry (mk_ipc_entry (mk_ipc_key 0 0 0) 0 0 0 (mk_ipc_value 0 0 (mk_mutex false [])));
    mret (UMF_RESULT_SUCCESS, entry)
  else _ ← ic_free entry; mret (UMF_RESULT_ERROR_UNKNOWN, 0).

(** The entry is filled and linked. *)
Definition fill_entry (cache global entry : Z) (k : ipc_opened_cache_key_t) (handle_id : Z) : C unit :=
  e ← load_entry entry;
  _ ← store_entry entry (mk_ipc_entry k 0 handle_id cache (mk_ipc_value 0 0 (mmap_lock (ie_value e))));
  c ← load_cache cache;
  _ ← store_cache cache (mk_ipc_cache (ic_global c) (hash_table c ++ [entry]) (eviction_cb c));
  g ← load_global global;
  store_global global (with_list (add64 (ic_cur_size g) 1) (entry :: lru_list g) g).

(** The branch for a miss: the result, the entry, and the evicted value. *)
Definition cache_miss (cache global entry : Z) (k : ipc_opened_cache_key_t) (handle_id : Z) : C (umf_result_t * Z * option (Z * Z)) :=
  g ← load_global global;
  candidate ← eviction_candidate g entry;
  if negb (candidate =? 0) then
    e ← load_entry candidate;
    _ ← remove_entry global (ie_hash_table e) candidate;
    _ ← fill_entry cache global candidate k handle_id;
    mret (UMF_RESULT_SUCCESS, candidate, Some (mapped_base_ptr (ie_value e), mapped_size (ie_value e)))
  else
    '(ret, entry) ← new_entry g;
    if bool_decide (ret = UMF_RESULT_SUCCESS) then
      _ ← fill_entry cache global entry k handle_id;
      mret (ret, entry, None)
    else mret (ret, 0, None).

(** A hit moves the entry to the head of the list. *)
Definition cache_hit (global entry : Z) : C unit :=
  g ← load_global global;
  lru ← of_option (unlink_entry entry (lru_list g));
  store_global global (with_list (ic_cur_size g) (entry :: lru) g).

(** The part under the lock up to [exit]: the result, the entry, and the evicted value. *)
Definition cache_lookup (cache global : Z) (table : list Z) (k : ipc_opened_cache_key_t) (handle_id : Z) : C (umf_result_t * Z * option (Z * Z)) :=
  entry ← hash_find k table;
  hit ← (if entry =? 0 then mret false else e ← load_entry entry; mret (ie_handle_id e =? handle_id));
  if (hit : bool) then _ ← cache_hit global entry; mret (UMF_RESULT_SUCCESS, entry, None)
  else cache_miss cache global entry k handle_id.

(** [retEntry] is the content of the out-parameter. *)
Definition umfIpcOpenedCacheGet (cache : Z) (key : option ipc_opened_cache_key_t) (handle_id : Z) (retEntry : option Z) : C (umf_result_t * option Z) :=
  match key, retEntry with
  | Some k, Some _ =>
    if cache =? 0 then mret (UMF_RESULT_ERROR_INVALID_ARGUMENT, retEntry) else
    c ← load_cache cache;
    let global := ic_global c in
    _ ← c_assert (negb (global =? 0));
    _ ← lock_cache global;
    '(ret, entry, evicted) ← cache_lookup cache global (hash_table c) k handle_id;
    retEntry ← (if bool_decide (ret = UMF_RESULT_SUCCESS) then
                  e ← load_entry entry;
                  _ ← store_entry entry (with_ref (add64 (ref_count e) 1) e);
                  mret (Some (add64 entry offsetof_value))
                else mret retEntry);
    _ ← unlock_cache global;
    _ ← (match evicted with
         | Some (base, size) => in_world (call_cb (eviction_cb c) k (mk_ipc_value base size (mk_mutex false [])))
         | None => mret tt
         end);
    mret (ret, retEntry)
  | _, _ => mret (UMF_RESULT_ERROR_INVALID_ARGUMENT, retEntry)
  end.

Definition umfIpcHandleMappedCacheRelease (cacheValue : Z) : C umf_result_t :=
  if cacheValue =? 0 then mret UMF_RESULT_ERROR_INVALID_ARGUMENT else
  let entry := sub64 cacheValue offsetof_value in
  e ← load_entry entry;
  _ ← store_entry entry (with_ref (sub64 (ref_count e) 1) e);
  mret UMF_RESULT_SUCCESS.

(** The fields of a value: [cacheValue->mapped_base_ptr] and its size are
    read and written by the provider that maps the memory. *)
Definition load_value (cacheValue : Z) : C ipc_opened_cache_value_t :=
  e ← load_entry (sub64 cacheValue offsetof_value);
  mret (ie_value e).
Definition store_value (cacheValue : Z) (v : ipc_opened_cache_value_t) : C unit :=
  let entry := sub64 cacheValue offsetof_value in
  e ← load_entry entry;
  store_entry entry (mk_ipc_entry (ie_key e) (ref_count e) (ie_handle_id e) (ie_hash_table e) v).
Definition set_mapped (cacheValue base size : Z) : C unit :=
  v ← load_value cacheValue;
  store_value cacheValue (mk_ipc_value base size (mmap_lock v)).
End Cache.
