(* ===== verification/IpcCacheSpec.v ===== *)
(** * The abstract cache of opened IPC handles

    [icore] ties the structs of src/ipc_cache.c to the list of the cached
    entries, the most recently used first.  [CacheWorld] is what the cache relies
    on: the allocators, and that the eviction callbacks leave them alone; the last argument
    of its representation is what the callbacks were called with. *)

From S2P Require Import Prelude Utils HostMem IpcCache.
From stdpp Require Import strings list.
#[local] Open Scope Z_scope.

(** A call of a callback: its address, the key, and the mapping to be closed. *)
Record evicted := mk_evicted {
  ev_cb : Z;
  ev_key : ipc_opened_cache_key_t;
  ev_base : Z;
  ev_size : Z;
}.

(** [cw_rep w O m log]: [O] are objects of the host allocator, [m] chunk pools. *)
Class CacheWorld (W : Type) `{HostAlloc W} `{ChunkPool W} (call_cb : Z -> ipc_opened_cache_key_t -> ipc_opened_cache_value_t -> M W unit) := {
  cw_rep : W -> gset Z -> gmap Z (gset Z) -> list evicted -> Prop;
  cw_word : forall w O m log pool L c, cw_rep w O m log -> m !! pool = Some L -> c ∈ L -> is_u64 c;
  cw_host_alloc : forall w O m log tg size, cw_rep w O m log ->
    match umf_ba_global_alloc tg size w with
    | (None, w') => cw_rep w' O m log
    | (Some x, w') => x <> 0 /\ (x ∉ O) /\ cw_rep w' ({[x]} ∪ O) m log
    end;
  cw_host_free : forall w O m log x, cw_rep w O m log -> x ∈ O -> cw_rep (umf_ba_global_free x w) (O ∖ {[x]}) m log;
  cw_create : forall w O m log size, cw_rep w O m log -> 0 < size <= 256 ->
    wp (umf_ba_create size) (fun r w' => (r = 0 /\ cw_rep w' O m log) \/ (r <> 0 /\ m !! r = None /\ cw_rep w' O (<[r := ∅]> m) log)) w;
  cw_alloc : forall w O m log pool L, cw_rep w O m log -> m !! pool = Some L ->
    wp (umf_ba_alloc pool) (fun c w' => (c = 0 /\ cw_rep w' O m log) \/ (c <> 0 /\ (c ∉ L) /\ cw_rep w' O (<[pool := {[c]} ∪ L]> m) log)) w;
  cw_free : forall w O m log pool L c, cw_rep w O m log -> m !! pool = Some L -> c ∈ L ->
    wp (umf_ba_free pool c) (fun _ w' => cw_rep w' O (<[pool := L ∖ {[c]}]> m) log) w;
  cw_destroy : forall w O m log pool, cw_rep w O m log -> m !! pool = Some ∅ ->
    wp (umf_ba_destroy pool) (fun _ w' => cw_rep w' O (delete pool m) log) w;
  cw_evict : forall w O m log cb k v, cw_rep w O m log ->
    wp (call_cb cb k v) (fun _ w' => cw_rep w' O m (log ++ [mk_evicted cb k (mapped_base_ptr v) (mapped_size v)])) w;
}.

(** ** The entries *)

Record ipc_cell := mk_cell {
  cl_addr : Z;
  cl_cache : Z;
  cl_key : ipc_opened_cache_key_t;
  cl_id : Z;
  cl_ref : Z;
  cl_base : Z;
  cl_size : Z;
}.

Definition entry_of (x : ipc_cell) : ipc_opened_cache_entry_t :=
  mk_ipc_entry (cl_key x) (cl_ref x) (cl_id x) (cl_cache x) (mk_ipc_value (cl_base x) (cl_size x) (mk_mutex false [])).
(** The pointer that [umfIpcOpenedCacheGet] returns. *)
Definition vptr (a : Z) : Z := add64 a offsetof_value.
Definition fresh_cell (a c : Z) (k : ipc_opened_cache_key_t) (id : Z) : ipc_cell := mk_cell a c k id 1 0 0.
Definition add_refs (d : Z) (x : ipc_cell) : ipc_cell := mk_cell (cl_addr x) (cl_cache x) (cl_key x) (cl_id x) (cl_ref x + d) (cl_base x) (cl_size x).
Definition mapped_at (base size : Z) (x : ipc_cell) : ipc_cell := mk_cell (cl_addr x) (cl_cache x) (cl_key x) (cl_id x) (cl_ref x) base size.

Definition cell_at (c : Z) (k : ipc_opened_cache_key_t) (x : ipc_cell) : Prop := cl_cache x = c /\ cl_key x = k.
#[export] Instance cell_at_dec c k x : Decision (cell_at c k x).
Proof. apply _. Defined.

(** A lookup: the result, the entry, what is evicted, and the entries after it. *)
Inductive lru_get (max c : Z) (k : ipc_opened_cache_key_t) (id : Z) : list ipc_cell -> umf_result_t -> Z -> option (Z * Z) -> list ipc_cell -> Prop :=
| lru_hit l1 x l2 : cell_at c k x -> cl_id x = id ->
    lru_get max c k id (l1 ++ x :: l2) UMF_RESULT_SUCCESS (cl_addr x) None (add_refs 1 x :: l1 ++ l2)
| lru_replace l1 x l2 : cell_at c k x -> cl_id x <> id ->
    lru_get max c k id (l1 ++ x :: l2) UMF_RESULT_SUCCESS (cl_addr x) (Some (cl_base x, cl_size x)) (fresh_cell (cl_addr x) c k id :: l1 ++ l2)
| lru_evict l1 x l2 : Forall (fun y => ~ cell_at c k y) (l1 ++ x :: l2) -> max <> 0 -> max <= Z.of_nat (length (l1 ++ x :: l2)) ->
    cl_ref x = 0 -> Forall (fun y => cl_ref y <> 0) l2 ->
    lru_get max c k id (l1 ++ x :: l2) UMF_RESULT_SUCCESS (cl_addr x) (Some (cl_base x, cl_size x)) (fresh_cell (cl_addr x) c k id :: l1 ++ l2)
| lru_new a l : Forall (fun y => ~ cell_at c k y) l -> (max = 0 \/ Z.of_nat (length l) < max \/ Forall (fun y => cl_ref y <> 0) l) ->
    a <> 0 -> a ∉ cl_addr <$> l -> lru_get max c k id l UMF_RESULT_SUCCESS a None (fresh_cell a c k id :: l)
| lru_no_memory l : Forall (fun y => ~ cell_at c k y) l -> (max = 0 \/ Z.of_nat (length l) < max \/ Forall (fun y => cl_ref y <> 0) l) ->
    lru_get max c k id l UMF_RESULT_ERROR_OUT_OF_HOST_MEMORY 0 None l.

Lemma unlink_entry_middle x l1 l2 : x ∉ l1 -> unlink_entry x (l1 ++ x :: l2) = Some (l1 ++ l2).
Proof.
  induction l1 as [|y l1 IH]; intros Hx; simpl; [by rewrite Z.eqb_refl|]. apply not_elem_of_cons in Hx as [Hy Hx].
  rewrite (proj2 (Z.eqb_neq x y) Hy), IH by done. done.
Qed.

Lemma unlink_entry_perm x l l' : NoDup l -> l ≡ₚ x :: l' -> exists l'', unlink_entry x l = Some l'' /\ l'' ≡ₚ l'.
Proof.
  intros Hnd Hp. assert (x ∈ l) as Hx by (rewrite Hp; constructor). apply list_elem_of_split in Hx as (l1 & l2 & ->). exists (l1 ++ l2).
  apply NoDup_app in Hnd as (_ & Hd & _). split; [apply unlink_entry_middle; intros Hin; apply (Hd x Hin); constructor|].
  apply (Permutation.Permutation_cons_inv (a := x)). rewrite <- Hp. apply Permutation.Permutation_middle.
Qed.

Lemma NoDup_fmap_filter {A B} (f : A -> B) (P : A -> Prop) `{!forall x, Decision (P x)} l : NoDup (f <$> l) -> NoDup (f <$> filter P l).
Proof.
  induction l as [|x l IH]; [done|]. rewrite fmap_cons, list.NoDup_cons. intros [Hx Hnd]. rewrite filter_cons. case_decide; [|by apply IH].
  rewrite fmap_cons. constructor; [|by apply IH]. intros (y & Ey & Hy)%list_elem_of_fmap. apply Hx, list_elem_of_fmap. exists y. split; [done|]. by apply list_elem_of_filter in Hy as [_ ?].
Qed.

Section Rules.
Context `{HW : CacheWorld W call_cb}.
Context (g a max : Z) (O0 : gset Z) (m0 : gmap Z (gset Z)).
Hypothesis Ha : m0 !! a = None.
Implicit Types (s : icstate W) (l : list ipc_cell) (ex : list Z) (K : gmap Z Z) (log : list evicted).

Lemma rep_set w O (S S' : gset Z) log : cw_rep w O (<[a := S]> m0) log -> (forall z, z ∈ S <-> z ∈ S') -> cw_rep w O (<[a := S']> m0) log.
Proof using. intros Hw Hz. by assert (S = S') as <- by (by apply set_eq). Qed.

(** The entries of [l] are linked; [ex] has those that are not, but still exist. *)
Record icore s (lk : bool) l (ex : list Z) K log (N : Z) : Prop := {
  co_GLOBAL : IPC_OPENED_CACHE_GLOBAL s = g /\ g <> 0 /\ K !! 0 = None;
  co_global : ic_globals s !! g = Some (mk_ipc_global (mk_mutex lk []) a max (Z.of_nat (length l)) (cl_addr <$> l));
  co_world : cw_rep (ic_world s) (O0 ∪ {[g]} ∪ dom K) (<[a := list_to_set (ex ++ (cl_addr <$> l))]> m0) log;
  co_apart : (g ∉ O0) /\ K !! g = None /\ dom K ## O0;
  co_caches : dom (ic_caches s) = dom K;
  co_table : forall c cb, K !! c = Some cb -> exists table, ic_caches s !! c = Some (mk_ipc_cache g table cb) /\ table ≡ₚ cl_addr <$> filter (fun x => cl_cache x = c) l;
  co_entries : forall x, x ∈ l -> ic_entries s !! cl_addr x = Some (entry_of x);
  co_nodup : NoDup (ex ++ (cl_addr <$> l));
  co_keys : NoDup ((fun x => (cl_cache x, cl_key x)) <$> l);
  co_null : 0 ∉ ex ++ (cl_addr <$> l);
  co_in : forall x, x ∈ l -> is_Some (K !! cl_cache x);
  co_refs : forall x, x ∈ l -> 0 <= cl_ref x <= N;
  co_count : Z.of_nat (length l) <= N;
  co_mutex : ic_mutex_init s = [];
}.

Lemma wp_load_global s lk l ex K log N (Q : ipc_opened_cache_global_t -> icstate W -> Prop) : icore s lk l ex K log N ->
  Q (mk_ipc_global (mk_mutex lk []) a max (Z.of_nat (length l)) (cl_addr <$> l)) s -> wp (load_global g) Q s.
Proof using. intros HI HQ. unfold load_global. wp_step. by wp_step; [apply HI|]. Qed.

Lemma wp_load_cache s lk l ex K log N c cb (Q : ipc_opened_cache_t -> icstate W -> Prop) : icore s lk l ex K log N -> K !! c = Some cb ->
  (forall table, ic_caches s !! c = Some (mk_ipc_cache g table cb) -> table ≡ₚ cl_addr <$> filter (fun x => cl_cache x = c) l -> Q (mk_ipc_cache g table cb) s) -> wp (load_cache c) Q s.
Proof using. intros HI Hc HQ. destruct (co_table _ _ _ _ _ _ _ HI c cb Hc) as (table & E & Hp). unfold load_cache. wp_step. wp_step; [done|]. by apply HQ. Qed.

Lemma wp_load_entry s e x (Q : ipc_opened_cache_entry_t -> icstate W -> Prop) : ic_entries s !! e = Some x -> Q x s -> wp (load_entry e) Q s.
Proof using. intros E HQ. unfold load_entry. wp_step. by wp_step; [exact E|]. Qed.

Lemma wp_lock_cache s l ex K log N (Q : unit -> icstate W -> Prop) : icore s false l ex K log N ->
  (forall s', ic_caches s' = ic_caches s -> ic_entries s' = ic_entries s -> icore s' true l ex K log N -> Q tt s') -> wp (lock_cache g) Q s.
Proof using.
  intros HI HQ. unfold lock_cache. apply wp_bind, (wp_load_global s false l ex K log N); [done|]. wp_step; [done|]. unfold store_global. wp_step. simpl. apply HQ; [done|done|].
  destruct HI. split; try done. simpl. by rewrite lookup_insert_eq.
Qed.

Lemma wp_unlock_cache s l ex K log N (Q : unit -> icstate W -> Prop) : icore s true l ex K log N ->
  (forall s', ic_caches s' = ic_caches s -> ic_entries s' = ic_entries s -> icore s' false l ex K log N -> Q tt s') -> wp (unlock_cache g) Q s.
Proof using.
  intros HI HQ. unfold unlock_cache. apply wp_bind, (wp_load_global s true l ex K log N); [done|]. wp_step; [done|]. unfold store_global. wp_step. simpl. apply HQ; [done|done|].
  destruct HI. split; try done. simpl. by rewrite lookup_insert_eq.
Qed.

Lemma addrs_split l1 x l2 : cl_addr <$> (l1 ++ x :: l2) ≡ₚ cl_addr x :: (cl_addr <$> (l1 ++ l2)).
Proof using. rewrite !fmap_app, fmap_cons. symmetry. apply Permutation.Permutation_middle. Qed.

Lemma moved_perm l1 x l2 ex : (cl_addr x :: ex) ++ (cl_addr <$> l1 ++ l2) ≡ₚ ex ++ (cl_addr <$> l1 ++ x :: l2).
Proof using. rewrite addrs_split. simpl. apply Permutation.Permutation_middle. Qed.

(** The entry [x] is unlinked. *)
Lemma wp_remove_entry s lk l1 x l2 ex K log N (Q : unit -> icstate W -> Prop) : icore s lk (l1 ++ x :: l2) ex K log N -> N < two64 ->
  (forall s', ic_entries s' = ic_entries s -> icore s' lk (l1 ++ l2) (cl_addr x :: ex) K log N -> Q tt s') -> wp (remove_entry g (cl_cache x) (cl_addr x)) Q s.
Proof using.
  intros HI HN HQ. assert (x ∈ l1 ++ x :: l2) as Hx by (apply elem_of_app; right; constructor).
  pose proof (co_nodup _ _ _ _ _ _ _ HI) as Hnd. apply NoDup_app in Hnd as (Hnx & Hd & Hnd). pose proof (co_count _ _ _ _ _ _ _ HI) as Hcnt.
  unfold remove_entry. apply wp_bind, (wp_load_global s lk (l1 ++ x :: l2) ex K log N); [done|]. simpl.
  rewrite fmap_app, fmap_cons in Hnd. wp_step; [rewrite fmap_app, fmap_cons; apply unlink_entry_middle|].
  { apply NoDup_app in Hnd as (_ & Hd' & _). intros Hin. apply (Hd' _ Hin). constructor. }
  destruct (co_in _ _ _ _ _ _ _ HI x Hx) as [cb Hcb].
  apply wp_bind, (wp_load_cache s lk (l1 ++ x :: l2) ex K log N _ cb); [done|done|]. intros table Et Hp.
  assert (table ≡ₚ cl_addr x :: (cl_addr <$> filter (fun y => cl_cache y = cl_cache x) (l1 ++ l2))) as Hp'.
  { rewrite Hp, !filter_app, filter_cons_True, !fmap_app, fmap_cons by done. symmetry. apply Permutation.Permutation_middle. }
  assert (NoDup table) as Hndt.
  { rewrite Hp. apply NoDup_fmap_filter. by rewrite fmap_app, fmap_cons. }
  destruct (unlink_entry_perm (cl_addr x) table _ Hndt Hp') as (t' & Eu & Hpu).
  wp_step; [exact Eu|]. unfold store_cache, store_global. wp_step. wp_step. apply HQ; [done|].
  assert (length (l1 ++ x :: l2) = S (length (l1 ++ l2))) as Elen by (rewrite !length_app; simpl; lia).
  destruct HI as [? Hg Hw Hap Hc Ht He Hn Hk Hz Hin Hr Hct Hm]. split; try done; simpl.
  - rewrite lookup_insert_eq. rewrite sub64_small by (unfold is_u64; lia).
    replace (Z.of_nat (length (l1 ++ x :: l2)) - 1) with (Z.of_nat (length (l1 ++ l2))) by lia. unfold with_list. simpl. by rewrite fmap_app.
  - apply (rep_set _ _ _ _ _ Hw). intros z. rewrite elem_of_union, elem_of_singleton, !elem_of_list_to_set, !elem_of_app, addrs_split, elem_of_cons. tauto.
  - rewrite dom_insert_lookup_L by (by rewrite Et). done.
  - intros c cb' HcK. destruct (decide (cl_cache x = c)) as [<-|Hne]; [exists t'; rewrite lookup_insert_eq; by simplify_eq|]. rewrite lookup_insert_ne by done.
    destruct (Ht c cb' HcK) as (table' & E' & Hp2). exists table'. split; [done|]. rewrite Hp2, !filter_app, filter_cons_False by done. done.
  - intros y Hy. apply He. apply elem_of_app in Hy as [?|?]; apply elem_of_app; [by left|right; by constructor].
  - change (NoDup ((cl_addr x :: ex) ++ (cl_addr <$> l1 ++ l2))). by rewrite moved_perm.
  - rewrite fmap_app, fmap_cons in Hk. rewrite fmap_app. apply NoDup_app in Hk as (? & Hd2 & [? ?]%list.NoDup_cons). apply NoDup_app. split_and!; [done| |done].
    intros y Hy Hy'. apply (Hd2 y Hy). by constructor.
  - change (0 ∉ (cl_addr x :: ex) ++ (cl_addr <$> l1 ++ l2)). by rewrite moved_perm.
  - intros y Hy. apply Hin. apply elem_of_app in Hy as [?|?]; apply elem_of_app; [by left|right; by constructor].
  - intros y Hy. apply Hr. apply elem_of_app in Hy as [?|?]; apply elem_of_app; [by left|right; by constructor].
  - lia.
Qed.

Definition cell0 (e c : Z) (k : ipc_opened_cache_key_t) (id : Z) : ipc_cell := mk_cell e c k id 0 0 0.

(** The unlinked entry [e] is filled and linked. *)
Lemma wp_fill_entry s lk l e v ex K log N c k id (Q : unit -> icstate W -> Prop) : icore s lk l (e :: ex) K log N -> is_Some (K !! c) -> Forall (fun y => ~ cell_at c k y) l ->
  ic_entries s !! e = Some v -> mmap_lock (ie_value v) = mk_mutex false [] -> N + 1 < two64 ->
  (forall s', icore s' lk (cell0 e c k id :: l) ex K log (N + 1) -> Q tt s') -> wp (fill_entry c g e k id) Q s.
Proof using.
  intros HI [cb Hc] Hno He Hv HN HQ. pose proof (co_count _ _ _ _ _ _ _ HI) as Hct. unfold fill_entry. apply wp_bind, (wp_load_entry s e v); [done|]. unfold store_entry. wp_step. rewrite Hv.
  destruct (co_table _ _ _ _ _ _ _ HI c cb Hc) as (table & Et & Hp). apply wp_bind. unfold load_cache. wp_step. wp_step; [exact Et|]. unfold store_cache. wp_step.
  apply wp_bind. unfold load_global. wp_step. wp_step; [apply HI|]. unfold store_global. wp_step. apply HQ. clear HQ.
  destruct HI as [? Hg Hw Hap Hcs Ht Hen Hn Hk Hz Hin Hr _ Hm]. simpl in Hn, Hz. apply list.NoDup_cons in Hn as [Hne Hn]. apply not_elem_of_cons in Hz as [He0 Hz].
  assert (forall x, x ∈ l -> cl_addr x <> e) as Hle.
  { intros x Hx E. apply Hne, elem_of_app. right. rewrite <- E. by apply list_elem_of_fmap_2. }
  split; try done; simpl.
  - rewrite lookup_insert_eq. unfold with_list. simpl. rewrite add64_small by (unfold is_u64; lia). do 3 f_equal. lia.
  - apply (rep_set _ _ _ _ _ Hw). intros z. rewrite !elem_of_list_to_set, !elem_of_app, !elem_of_cons. tauto.
  - rewrite dom_insert_lookup_L by (by rewrite Et). done.
  - intros c' cb' Hc'. rewrite filter_cons. simpl. case_decide as Hd.
    + subst c'. simplify_eq. rewrite lookup_insert_eq. eexists. split; [done|]. rewrite fmap_cons, Hp. simpl. symmetry. apply Permutation.Permutation_cons_append.
    + rewrite lookup_insert_ne by done. by apply Ht.
  - intros x [->|Hx]%elem_of_cons; simpl; [by rewrite lookup_insert_eq|]. rewrite lookup_insert_ne; [by apply Hen|]. intros E. by apply (Hle x).
  - rewrite <- Permutation.Permutation_middle. by constructor.
  - constructor; [|done]. intros (x & Ex & Hx)%list_elem_of_fmap. rewrite list.Forall_forall in Hno. apply (Hno x Hx). split; congruence.
  - rewrite <- Permutation.Permutation_middle. by apply not_elem_of_cons.
  - intros x [->|Hx]%elem_of_cons; [by eexists|by apply Hin].
  - intros x [->|Hx]%elem_of_cons; simpl; [lia|]. specialize (Hr x Hx). lia.
  - lia.
Qed.

(** The list in another order. *)
Lemma icore_reorder s lk l l' ex K log N : l ≡ₚ l' -> icore s lk l ex K log N ->
  icore (with_globals (<[g := mk_ipc_global (mk_mutex lk []) a max (Z.of_nat (length l)) (cl_addr <$> l')]> (ic_globals s)) s) lk l' ex K log N.
Proof using.
  intros Hp [? Hg Hw Hap Hcs Ht Hen Hn Hk Hz Hin Hr Hct Hm]. split; try done; simpl.
  - by rewrite lookup_insert_eq, Hp.
  - apply (rep_set _ _ _ _ _ Hw). intros z. by rewrite !elem_of_list_to_set, Hp.
  - intros c cb Hc. destruct (Ht c cb Hc) as (table & E & Hp'). exists table. split; [done|]. by rewrite <- Hp.
  - intros x Hx. apply Hen. by rewrite Hp.
  - by rewrite <- Hp.
  - by rewrite <- Hp.
  - by rewrite <- Hp.
  - intros x Hx. apply Hin. by rewrite Hp.
  - intros x Hx. apply Hr. by rewrite Hp.
  - by rewrite <- Hp.
Qed.

Lemma wp_cache_hit s lk l1 x l2 ex K log N (Q : unit -> icstate W -> Prop) : icore s lk (l1 ++ x :: l2) ex K log N ->
  (forall s', icore s' lk (x :: l1 ++ l2) ex K log N -> Q tt s') -> wp (cache_hit g (cl_addr x)) Q s.
Proof using.
  intros HI HQ. pose proof (co_nodup _ _ _ _ _ _ _ HI) as Hnd. apply NoDup_app in Hnd as (_ & _ & Hnd). rewrite fmap_app, fmap_cons in Hnd.
  unfold cache_hit. apply wp_bind, (wp_load_global s lk (l1 ++ x :: l2) ex K log N); [done|]. simpl. wp_step; [rewrite fmap_app, fmap_cons; apply unlink_entry_middle|].
  { apply NoDup_app in Hnd as (_ & Hd & _). intros Hin. apply (Hd _ Hin). constructor. }
  unfold store_global. wp_step. apply HQ. unfold with_list. simpl. rewrite <- fmap_app, <- fmap_cons. apply icore_reorder; [|done]. symmetry. apply Permutation.Permutation_middle.
Qed.

(** The fields of an entry other than its key change. *)
Lemma icore_update s lk l1 x y l2 ex K log N N' : icore s lk (l1 ++ x :: l2) ex K log N -> cl_addr y = cl_addr x -> cl_cache y = cl_cache x -> cl_key y = cl_key x ->
  N <= N' -> 0 <= cl_ref y <= N' -> icore (with_entries (<[cl_addr x := entry_of y]> (ic_entries s)) s) lk (l1 ++ y :: l2) ex K log N'.
Proof using.
  intros [? Hg Hw Hap Hcs Ht Hen Hn Hk Hz Hin Hr Hct Hm] Ea Ec Ek HN Hy.
  assert (cl_addr <$> l1 ++ y :: l2 = cl_addr <$> l1 ++ x :: l2) as El by (rewrite !fmap_app, !fmap_cons; by rewrite Ea).
  assert (length (l1 ++ y :: l2) = length (l1 ++ x :: l2)) as Elen by (rewrite !length_app; done).
  split; try done; simpl; rewrite ?El; try done.
  - by rewrite Elen.
  - intros c cb Hc. destruct (Ht c cb Hc) as (table & E & Hp). exists table. split; [done|]. rewrite Hp. rewrite !filter_app, !filter_cons, Ec. case_decide; rewrite !fmap_app, ?fmap_cons, ?Ea; done.
  - intros z Hz'. apply elem_of_app in Hz' as [Hz'|Hz']; [|apply elem_of_cons in Hz' as [->|Hz']; [by rewrite Ea, lookup_insert_eq|]].
    all: rewrite lookup_insert_ne; [apply Hen, elem_of_app; first [by left|right; by constructor]|].
    all: intros E; apply NoDup_app in Hn as (_ & _ & Hn); rewrite fmap_app, fmap_cons in Hn; apply NoDup_app in Hn as (_ & Hd & [Hx2 _]%list.NoDup_cons).
    + apply (Hd (cl_addr z)); [by apply list_elem_of_fmap_2|]. rewrite E. constructor.
    + apply Hx2. rewrite E. by apply list_elem_of_fmap_2.
  - rewrite fmap_app, fmap_cons in Hk |- *. by rewrite Ec, Ek.
  - intros z Hz'. apply elem_of_app in Hz' as [Hz'|[->|Hz']%elem_of_cons]; [apply Hin, elem_of_app; by left|rewrite Ec; apply Hin, elem_of_app; right; constructor|apply Hin, elem_of_app; right; by constructor].
  - intros z Hz'. apply elem_of_app in Hz' as [Hz'|[->|Hz']%elem_of_cons]; [|done|].
    + assert (0 <= cl_ref z <= N) by (apply Hr, elem_of_app; by left). lia.
    + assert (0 <= cl_ref z <= N) by (apply Hr, elem_of_app; right; by constructor). lia.
  - rewrite Elen. lia.
Qed.

(** ** Lookups *)

Lemma wp_hash_find s lk l ex K log N k (L : list ipc_cell) (Q : Z -> icstate W -> Prop) : icore s lk l ex K log N -> (forall x, x ∈ L -> x ∈ l) ->
  (forall x, x ∈ L -> cl_key x = k -> Q (cl_addr x) s) -> ((forall x, x ∈ L -> cl_key x <> k) -> Q 0 s) -> wp (hash_find k (cl_addr <$> L)) Q s.
Proof using.
  intros HI. induction L as [|x L IH]; intros Hin Hyes Hno; simpl; [wp_step; apply Hno; by intros ? ?%not_elem_of_nil|].
  apply wp_bind, (wp_load_entry s _ (entry_of x)); [apply (co_entries _ _ _ _ _ _ _ HI), Hin; constructor|]. simpl. case_bool_decide as Ek.
  - wp_step. apply Hyes; [constructor|done].
  - apply IH; [intros y Hy; apply Hin; by constructor|intros y Hy; apply Hyes; by constructor|]. intros Hn. apply Hno. by intros y [->|Hy]%elem_of_cons; [|by apply Hn].
Qed.

Lemma wp_find_candidate s lk l ex K log N (L : list ipc_cell) (Q : Z -> icstate W -> Prop) : icore s lk l ex K log N -> (forall x, x ∈ L -> x ∈ l) ->
  (forall L1 x L2, L = L1 ++ x :: L2 -> cl_ref x = 0 -> Forall (fun y => cl_ref y <> 0) L1 -> Q (cl_addr x) s) ->
  (Forall (fun y => cl_ref y <> 0) L -> Q 0 s) -> wp (find_candidate (cl_addr <$> L)) Q s.
Proof using.
  intros HI. induction L as [|x L IH]; intros Hin Hyes Hno; simpl; [wp_step; by apply Hno|].
  apply wp_bind, (wp_load_entry s _ (entry_of x)); [apply (co_entries _ _ _ _ _ _ _ HI), Hin; constructor|]. simpl. destruct (Z.eqb_spec (cl_ref x) 0) as [E|E].
  - wp_step. by apply (Hyes [] x L).
  - apply IH; [intros y Hy; apply Hin; by constructor|..].
    + intros L1 y L2 -> Ey HL. apply (Hyes (x :: L1) y L2); [done|done|by constructor].
    + intros HL. apply Hno. by constructor.
Qed.

(** The eviction of the least recently used entry without references. *)
Lemma wp_eviction_candidate s lk l ex K log N (Q : Z -> icstate W -> Prop) : icore s lk l ex K log N -> 0 <= max ->
  (forall l1 x l2, l = l1 ++ x :: l2 -> max <> 0 -> max <= Z.of_nat (length l) -> cl_ref x = 0 -> Forall (fun y => cl_ref y <> 0) l2 -> Q (cl_addr x) s) ->
  ((max = 0 \/ Z.of_nat (length l) < max \/ Forall (fun y => cl_ref y <> 0) l) -> Q 0 s) ->
  wp (eviction_candidate (mk_ipc_global (mk_mutex lk []) a max (Z.of_nat (length l)) (cl_addr <$> l)) 0) Q s.
Proof using.
  intros HI Hm Hyes Hno. unfold eviction_candidate. simpl. destruct (Z.eqb_spec max 0) as [E|E]; simpl; [wp_step; apply Hno; by left|].
  destruct (Z.leb_spec max (Z.of_nat (length l))) as [Hle|Hgt]; [|wp_step; apply Hno; right; by left].
  apply wp_bind, wp_c_assert; [apply bool_decide_eq_true; destruct l; [simpl in *; lia|done]|].
  rewrite <- fmap_reverse. apply (wp_find_candidate s lk l ex K log N); [done|intros x; by rewrite elem_of_reverse|..].
  - intros L1 x L2 EL Ex HL. apply (f_equal reverse) in EL. rewrite reverse_involutive, reverse_app, reverse_cons, <- app_assoc in EL. simpl in EL.
    apply (Hyes (reverse L2) x (reverse L1)); [done|done|done|done|]. by rewrite Forall_reverse.
  - intros HL. apply Hno. right. right. by rewrite Forall_reverse in HL.
Qed.

Lemma wp_in_world {A} (m : M W A) s (Q : A -> icstate W -> Prop) : wp m (fun x w => Q x (with_ic_world w s)) (ic_world s) -> wp (in_world m) Q s.
Proof using. unfold wp, in_world. by destruct (m (ic_world s)) as [[x w]|]. Qed.

Lemma wp_ic_mutex s (Q : bool -> icstate W -> Prop) : ic_mutex_init s = [] -> Q true (with_ic_mutex_init [] s) -> wp ic_mutex Q s.
Proof using. intros E HQ. unfold ic_mutex. wp_step. wp_step. wp_step. by rewrite E. Qed.

Lemma wp_new_entry s lk l K log N (Q : umf_result_t * Z -> icstate W -> Prop) : icore s lk l [] K log N ->
  (forall s', icore s' lk l [] K log N -> Q (UMF_RESULT_ERROR_OUT_OF_HOST_MEMORY, 0) s') ->
  (forall s' e v, e <> 0 -> e ∉ cl_addr <$> l -> ic_entries s' !! e = Some v -> mmap_lock (ie_value v) = mk_mutex false [] -> icore s' lk l [e] K log N -> Q (UMF_RESULT_SUCCESS, e) s') ->
  wp (new_entry (mk_ipc_global (mk_mutex lk []) a max (Z.of_nat (length l)) (cl_addr <$> l))) Q s.
Proof using.
  intros HI Hnone Hsome. pose proof HI as [HG Hg Hw Hap Hcs Ht Hen Hn Hk Hz Hin Hr Hct Hm]. unfold new_entry. cbn [cache_allocator]. apply wp_bind, wp_in_world.
  eapply wp_mono; [apply (cw_alloc _ _ _ _ a (list_to_set (cl_addr <$> l)) Hw); by rewrite lookup_insert_eq|]. cbv beta.
  intros e w [[-> Hw']|(He0 & Hfr & Hw')]; [rewrite Z.eqb_refl; wp_step; apply Hnone; by split|]. rewrite (proj2 (Z.eqb_neq e 0) He0).
  rewrite elem_of_list_to_set in Hfr. rewrite insert_insert_eq in Hw'. apply wp_bind, wp_ic_mutex; [done|]. unfold store_entry. wp_step. wp_step.
  eapply Hsome; [done|done|simpl; by rewrite lookup_insert_eq|done|]. split; try done; simpl.
  - intros x Hx. rewrite lookup_insert_ne; [by apply Hen|]. intros ->. apply Hfr. by apply list_elem_of_fmap_2.
  - by constructor.
  - by apply not_elem_of_cons.
Qed.

Lemma icore_world s lk l ex K log log' N w : icore s lk l ex K log N ->
  cw_rep w (O0 ∪ {[g]} ∪ dom K) (<[a := list_to_set (ex ++ (cl_addr <$> l))]> m0) log' -> icore (with_ic_world w s) lk l ex K log' N.
Proof using. intros [] Hw. by split. Qed.

Lemma icore_mono s lk l ex K log N N' : icore s lk l ex K log N -> N <= N' -> icore s lk l ex K log N'.
Proof using. intros [] HN. split; try done; [|lia]. intros x Hx. specialize (co_refs0 x Hx). lia. Qed.

Lemma keys_unique s lk l1 x l2 ex K log N : icore s lk (l1 ++ x :: l2) ex K log N -> Forall (fun y => ~ cell_at (cl_cache x) (cl_key x) y) (l1 ++ l2).
Proof using.
  intros HI. pose proof (co_keys _ _ _ _ _ _ _ HI) as Hk. rewrite fmap_app, fmap_cons in Hk. apply NoDup_app in Hk as (_ & Hd & [Hx _]%list.NoDup_cons).
  apply list.Forall_forall. intros y [Hy|Hy]%elem_of_app [Ec Ek].
  - apply (Hd (cl_cache y, cl_key y)); [by apply (list_elem_of_fmap_2 (fun x => (cl_cache x, cl_key x)))|]. rewrite Ec, Ek. constructor.
  - apply Hx. rewrite <- Ec, <- Ek. by apply (list_elem_of_fmap_2 (fun x => (cl_cache x, cl_key x))).
Qed.

(** The entry [x] gets another key. *)
Lemma wp_reuse s l1 x l2 K log N c k id (Q : umf_result_t * Z * option (Z * Z) -> icstate W -> Prop) :
  icore s true (l1 ++ x :: l2) [] K log N -> is_Some (K !! c) -> Forall (fun y => ~ cell_at c k y) (l1 ++ l2) -> N + 1 < two64 ->
  (forall s', icore s' true (cell0 (cl_addr x) c k id :: l1 ++ l2) [] K log (N + 1) -> Q (UMF_RESULT_SUCCESS, cl_addr x, Some (cl_base x, cl_size x)) s') ->
  wp (e ← load_entry (cl_addr x); _ ← remove_entry g (ie_hash_table e) (cl_addr x); _ ← fill_entry c g (cl_addr x) k id;
      mret (UMF_RESULT_SUCCESS, cl_addr x, Some (mapped_base_ptr (ie_value e), mapped_size (ie_value e)))) Q s.
Proof using.
  intros HI Hc Hno HN HQ. assert (x ∈ l1 ++ x :: l2) as Hx by (apply elem_of_app; right; constructor). pose proof (co_entries _ _ _ _ _ _ _ HI x Hx) as He.
  apply wp_bind, (wp_load_entry s _ (entry_of x)); [done|]. simpl. apply wp_bind, (wp_remove_entry s true l1 x l2 [] K log N); [done|lia|]. intros s1 Ee HI1.
  apply wp_bind, (wp_fill_entry s1 true (l1 ++ l2) (cl_addr x) (entry_of x) [] K log N); [done|done|done|by rewrite Ee|done|lia|]. intros s2 HI2. wp_step. by apply HQ.
Qed.

(** Between the lookup and the reference that it takes. *)
Definition pending s (ret : umf_result_t) (e : Z) l K log N : Prop :=
  if bool_decide (ret = UMF_RESULT_SUCCESS)
  then exists x l2, l = add_refs 1 x :: l2 /\ e = cl_addr x /\ 0 <= cl_ref x <= N /\ icore s true (x :: l2) [] K log (N + 1)
  else icore s true l [] K log (N + 1).

Lemma pending_cell0 s e c k id l K log N : icore s true (cell0 e c k id :: l) [] K log (N + 1) -> 0 <= N ->
  pending s UMF_RESULT_SUCCESS e (fresh_cell e c k id :: l) K log N.
Proof using. intros HI HN. exists (cell0 e c k id), l. split_and!; [done|done|done|simpl; lia|done]. Qed.

Lemma wp_cache_miss_new s l K log N c k id (Q : umf_result_t * Z * option (Z * Z) -> icstate W -> Prop) :
  icore s true l [] K log N -> is_Some (K !! c) -> Forall (fun y => ~ cell_at c k y) l -> N + 1 < two64 -> 0 <= max ->
  (forall s' ret e ev l', lru_get max c k id l ret e ev l' -> pending s' ret e l' K log N -> Q (ret, e, ev) s') -> wp (cache_miss c g 0 k id) Q s.
Proof using.
  intros HI Hc Hno HN Hm HQ. pose proof (co_count _ _ _ _ _ _ _ HI) as Hct. unfold cache_miss. apply wp_bind, (wp_load_global s true l [] K log N); [done|]. apply wp_bind.
  apply (wp_eviction_candidate s true l [] K log N); [done|done|..].
  - intros l1 x l2 -> Hmax Hlen Hx Hl2. assert (cl_addr x <> 0) as Hx0.
    { intros E. apply (co_null _ _ _ _ _ _ _ HI). simpl. rewrite fmap_app, fmap_cons, E. apply elem_of_app. right. constructor. }
    rewrite (proj2 (Z.eqb_neq _ 0) Hx0). cbn [negb]. apply (wp_reuse s l1 x l2 K log N); [done|done| |lia|].
    { rewrite list.Forall_app, list.Forall_cons in Hno. rewrite list.Forall_app. tauto. }
    intros s' HI'. apply (HQ s' _ _ _ (fresh_cell (cl_addr x) c k id :: l1 ++ l2)); [by apply lru_evict|]. apply pending_cell0; [done|lia].
  - intros Hroom. rewrite Z.eqb_refl. cbn [negb]. apply wp_bind, (wp_new_entry s true l K log N); [done|..].
    + intros s' HI'. cbv iota beta. rewrite bool_decide_eq_false_2 by done. wp_step. apply (HQ s' _ _ _ l); [by apply lru_no_memory|]. unfold pending. rewrite bool_decide_eq_false_2 by done. apply (icore_mono _ _ _ _ _ _ N); [done|lia].
    + intros s' e v He0 Hfr Hev Hv HI'. cbv iota beta. rewrite bool_decide_eq_true_2 by done.
      apply wp_bind, (wp_fill_entry s' true l e v [] K log N); [done|done|done|done|done|lia|]. intros s2 HI2. wp_step.
      apply (HQ s2 _ _ _ (fresh_cell e c k id :: l)); [by apply lru_new|]. apply pending_cell0; [done|lia].
Qed.
End Rules.
