(* ===== verification/IpcCacheOps.v ===== *)
(** * The operations of the cache of opened IPC handles

    The rules of the functions of src/ipc_cache.c, over the invariant
    [icore]. *)

From S2P Require Import Prelude Utils HostMem IpcCache IpcCacheSpec.
From stdpp Require Import strings list.
#[local] Open Scope Z_scope.

(** The callbacks of the entries that are dropped with their cache. *)
Definition dropped (cb : Z) (x : ipc_cell) : evicted := mk_evicted cb (cl_key x) (cl_base x) (cl_size x).
Definition evictions (cb : Z) (k : ipc_opened_cache_key_t) (ev : option (Z * Z)) : list evicted :=
  match ev with Some (base, size) => [mk_evicted cb k base size] | None => [] end.

Lemma lru_get_result max c k id l ret e ev l' : lru_get max c k id l ret e ev l' ->
  (ret = UMF_RESULT_SUCCESS /\ exists x l2, l' = x :: l2 /\ cl_addr x = e) \/ (ret = UMF_RESULT_ERROR_OUT_OF_HOST_MEMORY /\ ev = None /\ l' = l).
Proof. intros []; [left|left|left|left|right]; naive_solver. Qed.

Lemma sub64_vptr x : is_u64 x -> sub64 (vptr x) offsetof_value = x.
Proof.
  intros Hx. unfold vptr, sub64, add64, wrap64, offsetof_value. rewrite Zminus_mod_idemp_l. replace (x + 120 - 120) with x by lia. by apply Z.mod_small.
Qed.

Lemma vptr_inj x y : is_u64 x -> is_u64 y -> vptr x = vptr y -> x = y.
Proof. intros Hx Hy E. by rewrite <- (sub64_vptr x Hx), <- (sub64_vptr y Hy), E. Qed.

Section Ops.
Context `{HW : CacheWorld W call_cb}.
Context (g a max : Z) (O0 : gset Z) (m0 : gmap Z (gset Z)).
Implicit Types (s : icstate W) (l : list ipc_cell) (ex : list Z) (K : gmap Z Z) (log : list evicted).
Abbreviation icore := (icore g a max O0 m0).
Abbreviation pending := (pending g a max O0 m0).

Lemma addr_u64 s lk l K log N x : icore s lk l [] K log N -> x ∈ l -> is_u64 (cl_addr x).
Proof.
  intros HI Hx. eapply (cw_word _ _ _ _ a); [apply HI|by rewrite lookup_insert_eq|]. apply elem_of_list_to_set. by apply list_elem_of_fmap_2.
Qed.

Lemma addr_nonnull s lk l K log N x : icore s lk l [] K log N -> x ∈ l -> cl_addr x <> 0.
Proof. intros HI Hx E. apply (co_null _ _ _ _ _ _ _ _ _ _ _ _ HI). simpl. rewrite <- E. by apply list_elem_of_fmap_2. Qed.

(** ** [umfIpcOpenedCacheGet] *)

Lemma wp_cache_miss_found s l1 x l2 K log N c k id (Q : umf_result_t * Z * option (Z * Z) -> icstate W -> Prop) :
  icore s true (l1 ++ x :: l2) [] K log N -> is_Some (K !! c) -> cell_at c k x -> cl_id x <> id -> N + 1 < two64 ->
  (forall s' ret e ev l', lru_get max c k id (l1 ++ x :: l2) ret e ev l' -> pending s' ret e l' K log N -> Q (ret, e, ev) s') -> wp (cache_miss c g (cl_addr x) k id) Q s.
Proof.
  intros HI Hc Hx Hid HN HQ. pose proof (co_count _ _ _ _ _ _ _ _ _ _ _ _ HI) as Hct. unfold cache_miss. apply wp_bind. eapply wp_load_global; [done|].
  assert (cl_addr x <> 0) as Hx0%Z.eqb_neq by (eapply addr_nonnull; [done|apply elem_of_app; right; constructor]).
  unfold eviction_candidate. rewrite Hx0. cbn [andb]. wp_step. rewrite Hx0. cbn [negb].
  eapply wp_reuse; [done|done| |done|].
  - destruct Hx as [<- <-]. by eapply keys_unique.
  - intros s' HI'. apply (HQ s' _ _ _ (fresh_cell (cl_addr x) c k id :: l1 ++ l2)); [by apply lru_replace|]. apply pending_cell0; [done|lia].
Qed.

(** The lookup and what it does to the list. *)
Lemma wp_cache_lookup s l K log N c k id table (Q : umf_result_t * Z * option (Z * Z) -> icstate W -> Prop) :
  icore s true l [] K log N -> is_Some (K !! c) -> N + 1 < two64 -> 0 <= max -> table ≡ₚ cl_addr <$> filter (fun x => cl_cache x = c) l ->
  (forall s' ret e ev l', lru_get max c k id l ret e ev l' -> pending s' ret e l' K log N -> Q (ret, e, ev) s') ->
  wp (cache_lookup c g table k id) Q s.
Proof.
  intros HI Hc HN Hm Hp HQ. unfold cache_lookup. destruct (Permutation.Permutation_map_inv _ _ Hp) as (L & -> & HL). pose proof (co_count _ _ _ _ _ _ _ _ _ _ _ _ HI) as Hct.
  assert (forall x, x ∈ L <-> cl_cache x = c /\ x ∈ l) as HLl by (intros x; by rewrite <- HL, list_elem_of_filter).
  apply wp_bind. change (map cl_addr L) with (cl_addr <$> L). eapply wp_hash_find; [done|intros x Hx; by apply HLl|..].
  - intros x [Ec Hx]%HLl Ek. rewrite (proj2 (Z.eqb_neq _ 0) (addr_nonnull _ _ _ _ _ _ _ HI Hx)).
    apply wp_bind, wp_bind. eapply wp_load_entry; [by eapply co_entries|]. wp_step. simpl.
    apply list_elem_of_split in Hx as (l1 & l2 & ->). destruct (Z.eqb_spec (cl_id x) id) as [Eid|Eid].
    + apply wp_bind. eapply wp_cache_hit; [done|]. intros s' HI'. wp_step.
      apply (HQ s' _ _ _ (add_refs 1 x :: l1 ++ l2)); [by apply lru_hit|]. exists x, (l1 ++ l2).
      do 2 (split; [done|]). split; [apply (co_refs _ _ _ _ _ _ _ _ _ _ _ _ HI'); constructor|]. apply (icore_mono _ _ _ _ _ _ _ _ _ _ _ N); [done|lia].
    + by apply (wp_cache_miss_found s l1 x l2 K log N).
  - intros Hno. simpl. apply wp_bind. wp_step. eapply wp_cache_miss_new; [done|done| |done|done|done].
    apply list.Forall_forall. intros x Hx [Ec Ek]. apply (Hno x); [by apply HLl|done].
Qed.

(** The reference is taken. *)
Lemma wp_take_reference s ret e l K log N (r0 : option Z) (Q : option Z -> icstate W -> Prop) : pending s ret e l K log N -> N + 1 < two64 ->
  (forall s', icore s' true l [] K log (N + 1) -> Q (if bool_decide (ret = UMF_RESULT_SUCCESS) then Some (vptr e) else r0) s') ->
  wp (if bool_decide (ret = UMF_RESULT_SUCCESS) then e' ← load_entry e; _ ← store_entry e (with_ref (add64 (ref_count e') 1) e'); mret (Some (add64 e offsetof_value)) else mret r0) Q s.
Proof.
  intros HP HN HQ. unfold IpcCacheSpec.pending in HP. case_bool_decide; [|wp_step; by apply HQ]. destruct HP as (x & l2 & -> & -> & Hx & HI).
  apply wp_bind. eapply wp_load_entry; [eapply co_entries; [done|constructor]|]. unfold store_entry. wp_step. wp_step. apply HQ. cbn [ref_count entry_of].
  rewrite add64_small by (unfold is_u64; lia). apply (icore_update _ _ _ _ _ _ _ [] x (add_refs 1 x) l2 [] K log (N + 1)); [done..|lia|simpl; lia].
Qed.

Lemma wp_evicted s l K log N c cb k ev (Q : unit -> icstate W -> Prop) : icore s false l [] K log N ->
  (forall s', icore s' false l [] K (log ++ evictions cb k ev) N -> Q tt s') ->
  wp (match ev with Some (base, size) => in_world (call_cb (eviction_cb (mk_ipc_cache g c cb)) k (mk_ipc_value base size (mk_mutex false []))) | None => mret tt end) Q s.
Proof.
  intros HI HQ. destruct ev as [[base size]|]; simpl.
  - apply wp_in_world. eapply wp_mono; [eapply cw_evict; apply HI|]. intros [] w Hw. apply HQ. by eapply icore_world.
  - wp_step. apply HQ. simpl. by rewrite app_nil_r.
Qed.

Lemma wp_umfIpcOpenedCacheGet s l K log N c cb k id r0 (Q : umf_result_t * option Z -> icstate W -> Prop) : icore s false l [] K log N -> K !! c = Some cb -> N + 1 < two64 -> 0 <= max ->
  (forall s' ret e ev l', lru_get max c k id l ret e ev l' -> icore s' false l' [] K (log ++ evictions cb k ev) (N + 1) ->
     Q (ret, if bool_decide (ret = UMF_RESULT_SUCCESS) then Some (vptr e) else Some r0) s') ->
  wp (umfIpcOpenedCacheGet call_cb c (Some k) id (Some r0)) Q s.
Proof.
  intros HI Hc HN Hm HQ. unfold umfIpcOpenedCacheGet. pose proof (co_GLOBAL _ _ _ _ _ _ _ _ _ _ _ _ HI) as (_ & Hg0 & HK0).
  assert (c <> 0) as Hc0%Z.eqb_neq by (intros ->; congruence). rewrite Hc0. apply wp_bind. eapply wp_load_cache; [done|done|]. intros table Et Hp. cbn [ic_global hash_table].
  apply wp_bind, wp_c_assert; [apply negb_true_iff, Z.eqb_neq, Hg0|]. apply wp_bind. eapply wp_lock_cache; [done|]. intros s1 _ _ HI1.
  apply wp_bind. eapply wp_cache_lookup; [done|by eexists|done|done|done|]. intros s2 ret e ev l' Hl HP. cbv iota beta.
  apply wp_bind. eapply wp_take_reference; [done|done|]. intros s3 HI3. apply wp_bind. eapply wp_unlock_cache; [done|]. intros s4 _ _ HI4.
  apply wp_bind. eapply (wp_evicted s4 l' K log (N + 1) table cb k ev); [done|]. intros s5 HI5. wp_step. by eapply HQ.
Qed.

(** ** [umfIpcHandleMappedCacheRelease], and the provider that stores the mapping *)

Lemma wp_umfIpcHandleMappedCacheRelease s l1 x l2 K log N (Q : umf_result_t -> icstate W -> Prop) : icore s false (l1 ++ x :: l2) [] K log N -> 0 < cl_ref x -> N < two64 -> vptr (cl_addr x) <> 0 ->
  (forall s', icore s' false (l1 ++ add_refs (-1) x :: l2) [] K log N -> Q UMF_RESULT_SUCCESS s') -> wp (umfIpcHandleMappedCacheRelease (vptr (cl_addr x))) Q s.
Proof.
  intros HI Hr HN Hv%Z.eqb_neq HQ. assert (x ∈ l1 ++ x :: l2) as Hx by (apply elem_of_app; right; constructor). unfold umfIpcHandleMappedCacheRelease.
  rewrite Hv, sub64_vptr by (by eapply addr_u64). apply wp_bind. eapply wp_load_entry; [by eapply co_entries|]. unfold store_entry. wp_step. wp_step.
  pose proof (co_refs _ _ _ _ _ _ _ _ _ _ _ _ HI x Hx) as Hx'. apply HQ. cbn [ref_count entry_of]. rewrite sub64_small by (unfold is_u64; lia).
  apply (icore_update _ _ _ _ _ _ _ l1 x (add_refs (-1) x) l2 [] K log N); [done..|simpl; lia].
Qed.

Lemma wp_set_mapped s l1 x l2 K log N base size (Q : unit -> icstate W -> Prop) : icore s false (l1 ++ x :: l2) [] K log N ->
  (forall s', icore s' false (l1 ++ mapped_at base size x :: l2) [] K log N -> Q tt s') -> wp (set_mapped (vptr (cl_addr x)) base size) Q s.
Proof.
  intros HI HQ. assert (x ∈ l1 ++ x :: l2) as Hx by (apply elem_of_app; right; constructor). unfold set_mapped, load_value, store_value.
  rewrite sub64_vptr by (by eapply addr_u64). apply wp_bind, wp_bind. eapply wp_load_entry; [by eapply co_entries|]. wp_step.
  apply wp_bind. eapply wp_load_entry; [by eapply co_entries|]. unfold store_entry. wp_step. apply HQ.
  pose proof (co_refs _ _ _ _ _ _ _ _ _ _ _ _ HI x Hx). by apply (icore_update _ _ _ _ _ _ _ l1 x (mapped_at base size x) l2 [] K log N).
Qed.

(** ** The life of a cache *)

Lemma wp_ic_alloc s O m log tg size (Q : Z -> icstate W -> Prop) : cw_rep (ic_world s) O m log ->
  (forall w, cw_rep w O m log -> Q 0 (with_ic_world w s)) ->
  (forall x w, x <> 0 -> x ∉ O -> cw_rep w ({[x]} ∪ O) m log -> Q x (with_ic_world w s)) -> wp (ic_alloc tg size) Q s.
Proof.
  intros Hw Hno Hyes. unfold ic_alloc. wp_step. pose proof (cw_host_alloc _ _ _ _ tg size Hw) as HA. destruct (umf_ba_global_alloc tg size (ic_world s)) as [[x|] w]; wp_step; wp_step; simpl.
  - destruct HA as (? & ? & ?). by apply Hyes.
  - by apply Hno.
Qed.

Lemma wp_umfIpcOpenedCacheCreate s l K log N cb (Q : Z -> icstate W -> Prop) : icore s false l [] K log N ->
  (forall s', icore s' false l [] K log N -> Q 0 s') ->
  (forall s' c, cb <> 0 -> c <> 0 -> K !! c = None -> icore s' false l [] (<[c := cb]> K) log N -> Q c s') -> wp (umfIpcOpenedCacheCreate cb) Q s.
Proof.
  intros HI Hno Hyes. unfold umfIpcOpenedCacheCreate. destruct (Z.eqb_spec cb 0) as [|Hcb]; [wp_step; by apply Hno|].
  apply wp_bind. eapply wp_ic_alloc; [apply HI|..].
  - intros w Hw. rewrite Z.eqb_refl. wp_step. apply Hno. by eapply icore_world.
  - intros c w Hc0 Hfr Hw. rewrite (proj2 (Z.eqb_neq c 0) Hc0).
    wp_step. apply wp_bind, wp_c_assert; [apply negb_true_iff, Z.eqb_neq; simpl; destruct (co_GLOBAL _ _ _ _ _ _ _ _ _ _ _ _ HI) as (-> & ? & _); done|].
    unfold store_cache. wp_step. wp_step. rewrite !not_elem_of_union, not_elem_of_singleton, not_elem_of_dom in Hfr. destruct Hfr as [[Hc1 Hc2] Hc3].
    apply Hyes; [done|done|done|]. destruct HI as [(EG & Hg0 & HK0) Hg Hw0 (Hgo & HKg & Hd) Hcs Ht Hen Hn Hk Hz Hin Hr Hct Hm]. split; try done; simpl.
    + split_and!; [done|done|]. by rewrite lookup_insert_ne.
    + assert (O0 ∪ {[g]} ∪ dom (<[c := cb]> K) = {[c]} ∪ (O0 ∪ {[g]} ∪ dom K)) as -> by (rewrite dom_insert_L; set_solver). done.
    + split_and!; [done|by rewrite lookup_insert_ne|]. rewrite dom_insert_L. set_solver.
    + by rewrite !dom_insert_L, Hcs.
    + intros c' cb'. destruct (decide (c = c')) as [<-|Hne].
      * rewrite !lookup_insert_eq. intros [= <-]. exists []. rewrite EG. split; [done|]. rewrite filter_none; [done|].
        apply list.Forall_forall. intros x Hx E. destruct (Hin x Hx) as [? Hxc]. rewrite E in Hxc. congruence.
      * rewrite !lookup_insert_ne by done. apply Ht.
    + intros x Hx. apply lookup_insert_is_Some'. right. by apply Hin.
Qed.

(** One round of the loop of [umfIpcOpenedCacheDestroy]. *)
Lemma wp_destroy_entry s l1 x l2 K log N cb rest (Q : unit -> icstate W -> Prop) : icore s true (l1 ++ x :: l2) [] K log N -> K !! cl_cache x = Some cb -> N < two64 ->
  (forall s', icore s' true (l1 ++ l2) [] K (log ++ [dropped cb x]) N -> wp (destroy_entries call_cb (cl_cache x) g rest) Q s') ->
  wp (destroy_entries call_cb (cl_cache x) g (cl_addr x :: rest)) Q s.
Proof.
  intros HI Hc HN HQ. assert (x ∈ l1 ++ x :: l2) as Hx by (apply elem_of_app; right; constructor). pose proof (co_entries _ _ _ _ _ _ _ _ _ _ _ _ HI x Hx) as He.
  cbn [destroy_entries]. apply wp_bind. eapply wp_remove_entry; [done|done|]. intros s1 Ee HI1. apply wp_bind. eapply wp_load_entry; [by rewrite Ee|].
  apply wp_bind. eapply wp_load_cache; [done|done|]. intros table _ _. apply wp_bind, wp_in_world. eapply wp_mono; [eapply cw_evict; apply HI1|]. intros [] w1 Hw1.
  apply wp_bind. unfold mutex_destroy. apply wp_c_assert; [done|]. pose proof (icore_world _ _ _ _ _ _ _ _ _ _ _ _ _ _ HI1 Hw1) as HI2.
  apply wp_bind. eapply wp_load_global; [done|]. apply wp_bind, wp_in_world. eapply wp_mono; [eapply cw_free; [exact Hw1|by rewrite lookup_insert_eq|]; apply elem_of_list_to_set; constructor|].
  intros [] w2 Hw2. cbn [cache_allocator] in Hw2. rewrite insert_insert_eq in Hw2. wp_step. apply HQ.
  destruct HI2 as [HG Hg _ Hap Hcs Ht Hen Hn Hk Hz Hin Hr Hct Hm]. simpl in Hn, Hz. apply list.NoDup_cons in Hn as [Hnx Hn]. apply not_elem_of_cons in Hz as [_ Hz]. split; try done; simpl.
  - eapply rep_set; [exact Hw2|]. intros z. rewrite elem_of_difference, elem_of_singleton, !elem_of_list_to_set. simpl. rewrite elem_of_cons.
    split; [naive_solver|]. intros Hz'. split; [by right|]. by intros ->.
  - intros y Hy. rewrite lookup_delete_ne; [by apply Hen|]. intros E. apply Hnx. rewrite E. by apply list_elem_of_fmap_2.
Qed.

Lemma wp_destroy_entries s l L K log N c cb (Q : unit -> icstate W -> Prop) : icore s true l [] K log N -> K !! c = Some cb -> N < two64 -> L ≡ₚ filter (fun x => cl_cache x = c) l ->
  (forall s', icore s' true (filter (fun x => cl_cache x <> c) l) [] K (log ++ (dropped cb <$> L)) N -> Q tt s') -> wp (destroy_entries call_cb c g (cl_addr <$> L)) Q s.
Proof.
  intros HI Hc HN. revert s l log HI. induction L as [|x L IH]; intros s l log HI Hp HQ.
  - simpl. wp_step. apply HQ. simpl. rewrite app_nil_r, filter_all; [done|]. apply list.Forall_forall. intros x Hx E.
    assert (x ∈ filter (fun x => cl_cache x = c) l) as Hxf by (by apply list_elem_of_filter). rewrite <- Hp in Hxf. by apply not_elem_of_nil in Hxf.
  - assert (x ∈ filter (fun x => cl_cache x = c) l) as [Ec Hx]%list_elem_of_filter by (rewrite <- Hp; constructor).
    apply list_elem_of_split in Hx as (l1 & l2 & ->). rewrite fmap_cons. subst c. eapply wp_destroy_entry; [done|done|done|]. intros s' HI'.
    apply (IH s' (l1 ++ l2) _ HI').
    + rewrite filter_app, filter_cons_True in Hp by done. rewrite filter_app. apply (Permutation.Permutation_cons_inv (a := x)). rewrite Hp. symmetry. apply Permutation.Permutation_middle.
    + intros s'' HI''. apply HQ. rewrite filter_app, filter_cons_False, <- filter_app by naive_solver. by rewrite fmap_cons, cons_middle, app_assoc.
Qed.

Lemma wp_umfIpcOpenedCacheDestroy s l K log N c cb (Q : unit -> icstate W -> Prop) : icore s false l [] K log N -> K !! c = Some cb -> N < two64 ->
  (forall s' L, L ≡ₚ filter (fun x => cl_cache x = c) l -> icore s' false (filter (fun x => cl_cache x <> c) l) [] (delete c K) (log ++ (dropped cb <$> L)) N -> Q tt s') ->
  wp (umfIpcOpenedCacheDestroy call_cb c) Q s.
Proof.
  intros HI Hc HN HQ. unfold umfIpcOpenedCacheDestroy. apply wp_bind. eapply wp_load_cache; [done|done|]. intros table Et Hp. cbn [ic_global hash_table].
  destruct (Permutation.Permutation_map_inv _ _ Hp) as (L & -> & HL). apply wp_bind. eapply wp_lock_cache; [done|]. intros s1 _ _ HI1.
  apply wp_bind. change (map cl_addr L) with (cl_addr <$> L). eapply wp_destroy_entries; [done|done|done|by symmetry|]. intros s2 HI2.
  apply wp_bind. eapply wp_load_cache; [done|done|]. intros t2 E2 Hp2. cbn [ic_global IpcCache.eviction_cb].
  rewrite (filter_none (fun x => cl_cache x = c)) in Hp2 by (apply list.Forall_forall; by intros x [? _]%list_elem_of_filter). simpl in Hp2. apply Permutation_nil_r in Hp2. subst t2.
  unfold store_cache. wp_step. rewrite (insert_id _ _ _ E2).
  assert (with_caches (ic_caches s2) s2 = s2) as -> by (by destruct s2).
  apply wp_bind. eapply wp_unlock_cache; [done|]. intros s3 _ _ HI3. unfold ic_free. wp_step. wp_step. apply (HQ _ L); [by symmetry|].
  destruct HI3 as [(EG & Hg0 & HK0) Hg Hw (Hgo & HKg & Hd) Hcs Ht Hen Hn Hk Hz Hin Hr Hct Hm]. split; try done; simpl.
  - split_and!; [done|done|]. apply lookup_delete_None. by right.
  - assert (c ∈ dom K) as HcK by (by apply elem_of_dom). assert (c <> g) as Hcg by (intros ->; congruence).
    assert (O0 ∪ {[g]} ∪ dom (delete c K) = (O0 ∪ {[g]} ∪ dom K) ∖ {[c]}) as -> by (rewrite dom_delete_L; set_solver).
    apply cw_host_free; [done|]. set_solver.
  - split_and!; [done|apply lookup_delete_None; by right|]. rewrite dom_delete_L. set_solver.
  - by rewrite !dom_delete_L, Hcs.
  - intros c' cb' [Hne Hc']%lookup_delete_Some. rewrite lookup_delete_ne by done. by apply Ht.
  - intros x Hx. pose proof (Hin x Hx) as [? Hxc]. apply list_elem_of_filter in Hx as [Hne _]. rewrite lookup_delete_ne by done. by eexists.
Qed.
End Ops.

(** ** The global data *)
Section Life.
Context `{HW : CacheWorld W call_cb}.
Implicit Types (s : icstate W).

(** Before the initialisation and after the tear-down. *)
Record inactive s (O : gset Z) (m : gmap Z (gset Z)) (log : list evicted) : Prop := {
  in_GLOBAL : IPC_OPENED_CACHE_GLOBAL s = 0;
  in_world_rep : cw_rep (ic_world s) O m log;
  in_caches : ic_caches s = ∅;
  in_mutex : ic_mutex_init s = [];
}.

(** [UMF_MAX_OPENED_IPC_HANDLES] *)
Definition max_handles s : Z :=
  match ic_env s with Some str => if String.eqb (strtoul str).2 EmptyString then (strtoul str).1 else 0 | None => 0 end.

Lemma wp_init_max s (Q : Z -> icstate W -> Prop) : Q (max_handles s) s -> wp umfIpcCacheGlobalInitMaxOpenedHandles Q s.
Proof using. unfold umfIpcCacheGlobalInitMaxOpenedHandles, max_handles. intros HQ. wp_step. destruct (ic_env s) as [str|]; [|by wp_step]. destruct (strtoul str). by wp_step. Qed.

Lemma wp_umfIpcCacheGlobalInit s O m log (Q : umf_result_t -> icstate W -> Prop) : inactive s O m log ->
  (forall s', inactive s' O m log -> Q UMF_RESULT_ERROR_OUT_OF_HOST_MEMORY s') ->
  (forall s' g a, m !! a = None -> icore g a (max_handles s) O m s' false [] [] ∅ log 0 -> Q UMF_RESULT_SUCCESS s') -> wp umfIpcCacheGlobalInit Q s.
Proof using.
  intros [HG Hw Hcs Hm] Hno Hyes. unfold umfIpcCacheGlobalInit. apply wp_bind. eapply wp_ic_alloc; [done|..].
  - intros w Hw'. rewrite Z.eqb_refl. wp_step. apply Hno. by split.
  - intros g w Hg0 Hfr Hw'. rewrite (proj2 (Z.eqb_neq g 0) Hg0). apply wp_bind, wp_ic_mutex; [done|]. cbn [negb].
    apply wp_bind, wp_in_world. eapply wp_mono; [by apply (cw_create _ _ _ _ _ Hw')|]. intros a w2 [[-> Hw2]|(Ha0 & Hma & Hw2)].
    + rewrite Z.eqb_refl. unfold ic_free. wp_step. wp_step. apply Hno. split; try done. simpl. replace O with (({[g]} ∪ O) ∖ {[g]}) by set_solver. apply cw_host_free; [done|set_solver].
    + rewrite (proj2 (Z.eqb_neq a 0) Ha0). apply wp_bind, wp_init_max. unfold store_global. wp_step. wp_step. wp_step. apply (Hyes _ g a); [done|].
      split; try done; simpl; try by intros x Hx%not_elem_of_nil.
      * by rewrite lookup_insert_eq.
      * replace (O ∪ {[g]} ∪ dom ∅) with ({[g]} ∪ O); [done|]. rewrite dom_empty_L. set_solver.
      * by rewrite Hcs, !dom_empty_L.
      * constructor.
      * constructor.
      * apply not_elem_of_nil.
Qed.

Lemma wp_umfIpcCacheGlobalTearDown g a max s O m log N (Q : unit -> icstate W -> Prop) : icore g a max O m s false [] [] ∅ log N -> m !! a = None ->
  (forall s', inactive s' O m log -> Q tt s') -> wp umfIpcCacheGlobalTearDown Q s.
Proof using.
  intros [(EG & Hg0 & _) Hg Hw (Hgo & _) Hcs _ _ _ _ _ _ _ _ Hm] Ha HQ. unfold umfIpcCacheGlobalTearDown. wp_step. wp_step. rewrite EG, (proj2 (Z.eqb_neq g 0) Hg0).
  apply wp_bind. unfold load_global. wp_step. wp_step; [exact Hg|]. cbn [ic_cur_size lru_list cache_allocator cache_lock]. apply wp_bind, wp_c_assert; [done|]. apply wp_bind, wp_c_assert; [done|].
  apply wp_bind, wp_in_world. eapply wp_mono; [eapply cw_destroy; [exact Hw|by rewrite lookup_insert_eq]|]. intros [] w Hw'. rewrite delete_insert_id in Hw' by done.
  apply wp_bind. unfold mutex_destroy. apply wp_c_assert; [done|]. unfold ic_free. wp_step. wp_step. apply HQ. split; try done; simpl.
  - replace O with ((O ∪ {[g]} ∪ dom (∅ : gmap Z Z)) ∖ {[g]}) by (rewrite dom_empty_L; set_solver). apply cw_host_free; [done|set_solver].
  - rewrite dom_empty_L in Hcs. by apply dom_empty_inv_L.
Qed.
End Life.
