(* ===== verification/IpcCacheTheorems.v ===== *)
(** * Theorems about the cache of opened IPC handles

    The abstract cache, and the properties of src/ipc_cache.c for every client
    that obeys the rules, on any allocators and callbacks of [CacheWorld].  The
    witnesses run it on the scripted allocator and on the pools of the base
    allocator, with callbacks that are recorded. *)

From S2P Require Import Prelude Utils HostMem BaseMem BaseTheorems BaseChunks IpcCache IpcCacheSpec IpcCacheOps.
From stdpp Require Import strings list.
#[local] Open Scope Z_scope.

Inductive iccall :=
| ICreate (eviction_cb : Z)
| IDestroy (cache : Z)
| IGet (cache : Z) (key : ipc_opened_cache_key_t) (handle_id : Z)
| IRelease (value : Z)
| IMap (value base size : Z).

Inductive icres :=
| IPtr (p : Z)
| IResult (r : umf_result_t) (value : Z)
| IDone.

(** The entries, the caches with their callbacks, and the callbacks that were called. *)
Record icview := mk_icview {
  iv_cells : list ipc_cell;
  iv_caches : gmap Z Z;
  iv_log : list evicted;
}.

Definition no_entries : icview := mk_icview [] ∅ [].

(** The entry of a value becomes [f] of it. *)
Definition at_value (v : Z) (f : ipc_cell -> ipc_cell) (l l' : list ipc_cell) : Prop :=
  exists l1 x l2, l = l1 ++ x :: l2 /\ v = vptr (cl_addr x) /\ l' = l1 ++ f x :: l2.

Section View.
Context (max : Z).

Definition icstep (A : icview) (c : iccall) (r : icres) (A' : icview) : Prop :=
  let '(mk_icview l K log) := A in
  match c with
  | ICreate cb => (r = IPtr 0 /\ A' = A) \/ exists c, cb <> 0 /\ c <> 0 /\ K !! c = None /\ r = IPtr c /\ A' = mk_icview l (<[c := cb]> K) log
  | IDestroy c => r = IDone /\ exists cb L, K !! c = Some cb /\ L ≡ₚ filter (fun x => cl_cache x = c) l /\
      A' = mk_icview (filter (fun x => cl_cache x <> c) l) (delete c K) (log ++ (dropped cb <$> L))
  | IGet c k id =>
    if c =? 0 then r = IResult UMF_RESULT_ERROR_INVALID_ARGUMENT 0 /\ A' = A
    else exists cb ret e ev l', K !! c = Some cb /\ lru_get max c k id l ret e ev l' /\
      r = IResult ret (if bool_decide (ret = UMF_RESULT_SUCCESS) then vptr e else 0) /\ A' = mk_icview l' K (log ++ evictions cb k ev)
  | IRelease v =>
    if v =? 0 then r = IResult UMF_RESULT_ERROR_INVALID_ARGUMENT 0 /\ A' = A
    else r = IResult UMF_RESULT_SUCCESS 0 /\ exists l', at_value v (add_refs (-1)) l l' /\ A' = mk_icview l' K log
  | IMap v base size => r = IDone /\ exists l', at_value v (mapped_at base size) l l' /\ A' = mk_icview l' K log
  end.

Fixpoint icsteps (A : icview) (evs : list (iccall * icres)) (A' : icview) : Prop :=
  match evs with
  | [] => A' = A
  | (c, r) :: evs => exists A1, icstep A c r A1 /\ icsteps A1 evs A'
  end.

Lemma icsteps_snoc A evs A1 c r A2 : icsteps A evs A1 -> icstep A1 c r A2 -> icsteps A (evs ++ [(c, r)]) A2.
Proof.
  revert A. induction evs as [|[c' r'] evs IH]; intros A; simpl; [intros -> Hst; by exists A2|]. intros (A' & Hst & Hs) Hl. exists A'. split; [done|by apply IH].
Qed.

(** The rules for the client: the caches exist, and the values are those of entries;
    a value is released when the entry has a reference. *)
Definition icobeys (A : icview) (c : iccall) : Prop :=
  match c with
  | ICreate _ => True
  | IDestroy c => is_Some (iv_caches A !! c)
  | IGet c _ _ => c = 0 \/ is_Some (iv_caches A !! c)
  | IRelease v => v = 0 \/ exists x, x ∈ iv_cells A /\ v = vptr (cl_addr x) /\ 0 < cl_ref x
  | IMap v _ _ => exists x, x ∈ iv_cells A /\ v = vptr (cl_addr x)
  end.

(** The client chooses each call by the calls and results before it. *)
Definition ipc_client_obeys (c : list (iccall * icres) -> iccall) : Prop := forall evs A, icsteps no_entries evs A -> icobeys A (c evs).
End View.

Section Run.
Context `{HostAlloc W} `{ChunkPool W} (call_cb : Z -> ipc_opened_cache_key_t -> ipc_opened_cache_value_t -> M W unit).

Definition run_iccall (c : iccall) : M (icstate W) icres :=
  match c with
  | ICreate cb => x ← umfIpcOpenedCacheCreate cb; mret (IPtr x)
  | IDestroy c => _ ← umfIpcOpenedCacheDestroy call_cb c; mret IDone
  | IGet c k id => x ← umfIpcOpenedCacheGet call_cb c (Some k) id (Some 0); mret (IResult x.1 (default 0 x.2))
  | IRelease v => x ← umfIpcHandleMappedCacheRelease v; mret (IResult x 0)
  | IMap v base size => _ ← set_mapped v base size; mret IDone
  end.

(** [k] calls of the client, after the calls [evs]. *)
Fixpoint run_ipc_client (c : list (iccall * icres) -> iccall) (k : nat) (evs : list (iccall * icres)) : M (icstate W) (list (iccall * icres)) :=
  match k with
  | O => mret evs
  | S k => r ← run_iccall (c evs); run_ipc_client c k (evs ++ [(c evs, r)])
  end.

Fixpoint destroy_caches (cs : list Z) : M (icstate W) unit :=
  match cs with
  | [] => mret tt
  | c :: cs => _ ← umfIpcOpenedCacheDestroy call_cb c; destroy_caches cs
  end.

(** The initialisation, and [k] calls of the client. *)
Definition run_ipc (c : list (iccall * icres) -> iccall) (k : nat) : M (icstate W) (umf_result_t * list (iccall * icres)) :=
  r ← umfIpcCacheGlobalInit;
  if bool_decide (r = UMF_RESULT_SUCCESS) then evs ← run_ipc_client c k []; mret (r, evs) else mret (r, []).

(** Then the caches that are left are destroyed, and the global data. *)
Definition run_ipc_life (c : list (iccall * icres) -> iccall) (k : nat) : M (icstate W) (umf_result_t * list (iccall * icres)) :=
  r ← run_ipc c k;
  s ← get;
  _ ← destroy_caches (elements (dom (ic_caches s)));
  _ ← umfIpcCacheGlobalTearDown;
  mret r.
End Run.

Lemma digits_nonneg str any n : 0 <= n -> 0 <= (digits str any n).1.2.
Proof.
  revert any n. induction str as [|c str IH]; intros any n Hn; simpl; [done|]. destruct (digit c) as [d|] eqn:E; [|done].
  apply IH. unfold digit in E. cbv zeta in E. destruct (_ && _) eqn:Ed in E; [|done]. apply andb_true_iff in Ed as [Ed%Z.leb_le _]. injection E as E. lia.
Qed.

Lemma strtoul_range str : is_u64 (strtoul str).1.
Proof.
  unfold strtoul. destruct (match skip_spaces str with EmptyString => _ | String _ _ => _ end) as [neg s].
  pose proof (digits_nonneg s false 0 (Z.le_refl 0)) as Hd. destruct (digits s false 0) as [[[] n] rest]; simpl in *; [|unfold is_u64, two64; lia].
  destruct (Z.leb_spec two64 n) as [Hn|Hn]; unfold two64 in Hn; [unfold is_u64, two64, SIZE_MAX; lia|]. destruct neg; [|unfold is_u64, two64; lia]. unfold is_u64, two64, sub64, wrap64. by apply Z.mod_pos_bound.
Qed.

Lemma max_handles_range {W} (s : icstate W) : is_u64 (max_handles s).
Proof. unfold max_handles. destruct (ic_env s) as [str|]; [|unfold is_u64, two64; lia]. case_match; [apply strtoul_range|unfold is_u64, two64; lia]. Qed.

Section Claims.
Context `{HW : CacheWorld W call_cb}.
Implicit Types (s : icstate W) (A : icview) (K : gmap Z Z) (l : list ipc_cell).

Section Global.
Context (g a max : Z) (O0 : gset Z) (m0 : gmap Z (gset Z)).
Hypothesis Hmax : 0 <= max.

Definition refines s A N : Prop := icore g a max O0 m0 s false (iv_cells A) [] (iv_caches A) (iv_log A) N.

(** One call. *)
Lemma wp_iccall c s A N : icobeys A c -> refines s A N -> N + 1 < two64 ->
  wp (run_iccall call_cb c) (fun r s' => exists A', icstep max A c r A' /\ refines s' A' (N + 1)) s.
Proof using Hmax.
  destruct A as [l K log]. unfold refines. cbn [iv_cells iv_caches iv_log]. intros Hob HI HN. pose proof (co_count _ _ _ _ _ _ _ _ _ _ _ _ HI) as Hct. destruct c as [cb|c|c k id|v|v base size]; simpl in Hob; cbn [run_iccall].
  - apply wp_bind. eapply wp_umfIpcOpenedCacheCreate; [done|..].
    + intros s' HI'. wp_step. exists (mk_icview l K log). split; [by left|]. eapply icore_mono; [done|lia].
    + intros s' c Hcb Hc0 HKc HI'. wp_step. exists (mk_icview l (<[c := cb]> K) log). split; [right; by exists c|]. eapply icore_mono; [done|lia].
  - destruct Hob as [cb Hc]. apply wp_bind. eapply wp_umfIpcOpenedCacheDestroy; [done|done|lia|]. intros s' L HL HI'. wp_step.
    eexists. split; [split; [done|]; exists cb, L; split_and!; done|]. eapply icore_mono; [done|lia].
  - destruct (Z.eqb_spec c 0) as [->|Hc0].
    + unfold umfIpcOpenedCacheGet. simpl. apply wp_bind. wp_step. wp_step. exists (mk_icview l K log). split; [done|]. eapply icore_mono; [done|lia].
    + destruct Hob as [?|[cb Hc]]; [done|]. apply wp_bind. eapply wp_umfIpcOpenedCacheGet; [done|done|done|done|]. intros s' ret e ev l' Hl HI'. wp_step.
      exists (mk_icview l' K (log ++ evictions cb k ev)). split; [|done]. simpl. rewrite (proj2 (Z.eqb_neq c 0) Hc0). exists cb, ret, e, ev, l'. split_and!; try done. by case_bool_decide.
  - destruct (Z.eqb_spec v 0) as [->|Hv0].
    + apply wp_bind. unfold umfIpcHandleMappedCacheRelease. simpl. wp_step. wp_step. exists (mk_icview l K log). split; [done|]. eapply icore_mono; [done|lia].
    + destruct Hob as [?|(x & Hx & -> & Hr)]; [done|]. apply list_elem_of_split in Hx as (l1 & l2 & ->).
      apply wp_bind. eapply wp_umfIpcHandleMappedCacheRelease; [done|done|lia|done|]. intros s' HI'. wp_step.
      exists (mk_icview (l1 ++ add_refs (-1) x :: l2) K log). split; [|eapply icore_mono; [done|lia]]. simpl. rewrite (proj2 (Z.eqb_neq _ 0) Hv0). split; [done|]. eexists. split; [by exists l1, x, l2|done].
  - destruct Hob as (x & Hx & ->). apply list_elem_of_split in Hx as (l1 & l2 & ->). apply wp_bind. eapply wp_set_mapped; [done|]. intros s' HI'. wp_step.
    exists (mk_icview (l1 ++ mapped_at base size x :: l2) K log). split; [|eapply icore_mono; [done|lia]]. split; [done|]. eexists. split; [by exists l1, x, l2|done].
Qed.

(** The calls of a client that keep [P]. *)
Lemma wp_ipc_client (P : icview -> Prop) c k evs s A N : ipc_client_obeys max c ->
  (forall evs A r A', icsteps max no_entries evs A -> P A -> icstep max A (c evs) r A' -> P A') ->
  icsteps max no_entries evs A -> P A -> refines s A N -> N + Z.of_nat k < two64 ->
  wp (run_ipc_client call_cb c k evs) (fun evs' s' => length evs' = (length evs + k)%nat /\ exists A', icsteps max no_entries evs' A' /\ P A' /\ refines s' A' (N + Z.of_nat k)) s.
Proof using Hmax.
  intros Hob HP. revert evs s A N. induction k as [|k IH]; intros evs s A N Hst HA HI HN; cbn [run_ipc_client].
  - wp_step. split; [lia|]. exists A. split; [done|]. by rewrite Z.add_0_r.
  - apply wp_bind. eapply wp_mono; [apply (wp_iccall (c evs) s A N); [by apply Hob|done|lia]|]. intros r s1 (A1 & Hs1 & HI1).
    eapply wp_mono; [apply (IH (evs ++ [(c evs, r)]) s1 A1 (N + 1)); [by eapply icsteps_snoc|by eapply HP|done|lia]|].
    intros evs' s' (Hl & A' & Hst' & HA' & HI'). split; [rewrite length_app in Hl; simpl in Hl; lia|].
    exists A'. split; [done|]. split; [done|]. by replace (N + Z.of_nat (S k)) with (N + 1 + Z.of_nat k) by lia.
Qed.

(** The callback of the entry, by the caches. *)
Definition closing K (x : ipc_cell) : evicted := dropped (default 0 (K !! cl_cache x)) x.

Lemma closing_delete K c l : closing (delete c K) <$> filter (fun x => cl_cache x <> c) l = closing K <$> filter (fun x => cl_cache x <> c) l.
Proof using. apply list_fmap_ext. intros i x Hx. apply list_elem_of_lookup_2, list_elem_of_filter in Hx as [Hne _]. unfold closing. by rewrite lookup_delete_ne. Qed.

Lemma closing_cache K c cb l : K !! c = Some cb -> dropped cb <$> filter (fun x => cl_cache x = c) l = closing K <$> filter (fun x => cl_cache x = c) l.
Proof using. intros Hc. apply list_fmap_ext. intros i x Hx. apply list_elem_of_lookup_2, list_elem_of_filter in Hx as [Ex _]. unfold closing. by rewrite Ex, Hc. Qed.

Lemma wp_destroy_caches cs s l K log N (Q : unit -> icstate W -> Prop) : icore g a max O0 m0 s false l [] K log N -> N < two64 -> NoDup cs -> dom K = list_to_set cs ->
  (forall s' L, L ≡ₚ closing K <$> l -> icore g a max O0 m0 s' false [] [] ∅ (log ++ L) N -> Q tt s') -> wp (destroy_caches call_cb cs) Q s.
Proof using.
  clear Hmax. intros HI HN. revert s l K log HI. induction cs as [|c cs IH]; intros s l K log HI Hnd HK HQ; cbn [destroy_caches].
  - apply dom_empty_inv_L in HK. subst K. assert (l = []) as ->.
    { destruct l as [|x l]; [done|]. destruct (co_in _ _ _ _ _ _ _ _ _ _ _ _ HI x) as [? E]; [constructor|]. by rewrite lookup_empty in E. }
    wp_step. apply (HQ s []); [done|]. by rewrite app_nil_r.
  - apply list.NoDup_cons in Hnd as [Hc Hnd]. assert (c ∈ dom K) as [cb Hcb]%elem_of_dom by (rewrite HK; set_solver).
    apply wp_bind. eapply wp_umfIpcOpenedCacheDestroy; [done|done|done|]. intros s1 L1 HL1 HI1. apply (IH _ _ _ _ HI1 Hnd).
    + rewrite dom_delete_L, HK. apply set_eq. intros z. rewrite elem_of_difference, elem_of_singleton, !elem_of_list_to_set, elem_of_cons. naive_solver.
    + intros s2 L2 HL2 HI2. rewrite <- app_assoc in HI2. apply (HQ s2 ((dropped cb <$> L1) ++ L2)); [|done].
      rewrite HL1, HL2, closing_delete, (closing_cache K c cb l Hcb), <- fmap_app. by rewrite filter_app_complement.
Qed.
End Global.

(** What [run_ipc] does, with the structs in the end. *)
Lemma wp_run_ipc (P : icview -> Prop) c k s O m : inactive s O m [] -> Z.of_nat k < two64 -> ipc_client_obeys (max_handles s) c ->
  (forall evs A r A', icsteps (max_handles s) no_entries evs A -> P A -> icstep (max_handles s) A (c evs) r A' -> P A') -> P no_entries ->
  wp (run_ipc call_cb c k) (fun r s' =>
    (r = (UMF_RESULT_ERROR_OUT_OF_HOST_MEMORY, []) /\ inactive s' O m []) \/
    (r.1 = UMF_RESULT_SUCCESS /\ length r.2 = k /\ exists A g a, icsteps (max_handles s) no_entries r.2 A /\ P A /\ m !! a = None /\ refines g a (max_handles s) O m s' A (Z.of_nat k))) s.
Proof.
  intros Hs Hk Hob HP HP0. unfold run_ipc. apply wp_bind. eapply wp_umfIpcCacheGlobalInit; [done|..].
  - intros s1 Hs1. rewrite bool_decide_false by done. wp_step. by left.
  - intros s1 g a Ha HI1. rewrite bool_decide_true by done. apply wp_bind.
    eapply wp_mono; [apply (wp_ipc_client g a (max_handles s) O m (proj1 (max_handles_range s)) P c k [] s1 no_entries 0); try done; lia|].
    intros evs s2 (Hl & A & Hst & HA & HI2). wp_step. right. split_and!; [done|simpl in *; lia|]. by exists A, g, a.
Qed.


(** The entries that have references. *)
Definition held l : list ipc_cell := filter (fun x => cl_ref x <> 0) l.

(** Before each [umfIpcOpenedCacheGet] fewer than [B] entries have references. *)
Definition client_holds (max B : Z) (c : list (iccall * icres) -> iccall) : Prop :=
  forall evs A cache k id, icsteps max no_entries evs A -> c evs = IGet cache k id -> Z.of_nat (length (held (iv_cells A))) < B.

Lemma lru_get_length max B c k id l ret e ev l' : lru_get max c k id l ret e ev l' -> max <> 0 -> max <= B -> Z.of_nat (length l) <= B -> Z.of_nat (length (held l)) < B -> Z.of_nat (length l') <= B.
Proof.
  intros Hl Hm HB Hlen Hh. destruct Hl as [l1 x l2|l1 x l2|l1 x l2|x l _ Hroom|l]; try done; try (rewrite !length_app in *; simpl in *; rewrite ?length_app; lia).
  destruct Hroom as [?|[?|Hf]]; [done|simpl; lia|]. unfold held in Hh. rewrite (filter_all _ l Hf) in Hh. simpl. lia.
Qed.

Lemma at_value_length v f l l' : at_value v f l l' -> length l' = length l.
Proof. intros (l1 & x & l2 & -> & _ & ->). by rewrite !length_app. Qed.

Lemma icstep_length max B A c r A' : icstep max A c r A' -> max <> 0 -> max <= B -> Z.of_nat (length (iv_cells A)) <= B ->
  (forall cache k id, c = IGet cache k id -> Z.of_nat (length (held (iv_cells A))) < B) -> Z.of_nat (length (iv_cells A')) <= B.
Proof.
  destruct A as [l K log]. intros Hst Hm HB Hlen Hh. destruct c as [cb|c|c k id|v|v base size]; simpl in *.
  - naive_solver.
  - destruct Hst as (_ & cb & L & _ & _ & ->). simpl. pose proof (length_filter (fun x => cl_cache x <> c) l). lia.
  - destruct (c =? 0); [by destruct Hst as [_ ->]|]. destruct Hst as (cb & ret & e & ev & l' & _ & Hl & _ & ->). by eapply lru_get_length; [..|by eapply Hh].
  - destruct (v =? 0); [by destruct Hst as [_ ->]|]. destruct Hst as (_ & l' & Hv & ->). simpl. by rewrite (at_value_length _ _ _ _ Hv).
  - destruct Hst as (_ & l' & Hv & ->). simpl. by rewrite (at_value_length _ _ _ _ Hv).
Qed.

End Claims.

(** ** An executable instance: two allocators, and callbacks that are recorded *)

Record cworld (H B : Type) := mk_cworld {
  cx_host : H;
  cx_pools : B;
  cx_log : list evicted;
}.
Arguments mk_cworld {H B}. Arguments cx_host {H B}. Arguments cx_pools {H B}. Arguments cx_log {H B}.

Section World.
Context `{HostAllocLaws H} `{ChunkPoolLaws B}.
Implicit Types (w : cworld H B).

#[export] Instance cworld_host : HostAlloc (cworld H B) := {
  ba_live w := ba_live (cx_host w);
  umf_ba_global_alloc tg size w := let '(r, h) := umf_ba_global_alloc tg size (cx_host w) in (r, mk_cworld h (cx_pools w) (cx_log w));
  umf_ba_global_free x w := mk_cworld (umf_ba_global_free x (cx_host w)) (cx_pools w) (cx_log w);
}.

Definition in_pools {A} (f : M B A) : M (cworld H B) A :=
  fun w => match f (cx_pools w) with Some (x, b) => Some (x, mk_cworld (cx_host w) b (cx_log w)) | None => None end.

#[export] Instance cworld_pools : ChunkPool (cworld H B) := {
  umf_ba_create size := in_pools (umf_ba_create size);
  umf_ba_alloc pool := in_pools (umf_ba_alloc pool);
  umf_ba_free pool c := in_pools (umf_ba_free pool c);
  umf_ba_destroy pool := in_pools (umf_ba_destroy pool);
}.

Definition record_cb (cb : Z) (k : ipc_opened_cache_key_t) (v : ipc_opened_cache_value_t) : M (cworld H B) unit :=
  modify (fun w => mk_cworld (cx_host w) (cx_pools w) (cx_log w ++ [mk_evicted cb k (mapped_base_ptr v) (mapped_size v)])).

Definition cworld_rep w (O : gset Z) (m : gmap Z (gset Z)) (log : list evicted) : Prop :=
  dom (ba_live (cx_host w)) = O /\ cp_rep (cx_pools w) m /\ cx_log w = log.

Lemma wp_in_pools {A} (f : M B A) w (Q : A -> cworld H B -> Prop) :
  wp f (fun x b => Q x (mk_cworld (cx_host w) b (cx_log w))) (cx_pools w) -> wp (in_pools f) Q w.
Proof using. unfold wp, in_pools. by destruct (f (cx_pools w)) as [[x b]|]. Qed.

#[export] Instance cworld_laws : CacheWorld (cworld H B) record_cb.
Proof.
  refine {| cw_rep := cworld_rep |}.
  - intros w O m log pool L c (_ & Hm & _). by apply (cp_word (cx_pools w)).
  - intros w O m log tg size (<- & Hm & Hl). simpl. destruct (umf_ba_global_alloc tg size (cx_host w)) as [[x|] h] eqn:E.
    + pose proof (ba_alloc_some _ _ _ _ _ E) as [Hx El]. split; [by apply (ba_alloc_nonnull _ _ _ _ _ E)|]. split; [by apply not_elem_of_dom|]. split_and!; [|done|done]. simpl. by rewrite El, dom_insert_L.
    + split_and!; [|done|done]. simpl. by rewrite (ba_alloc_none _ _ _ _ E).
  - intros w O m log x (<- & Hm & Hl) Hx. split_and!; [|done|done]. simpl. rewrite ba_free_live by (by apply elem_of_dom). by rewrite dom_delete_L.
  - intros w O m log size (HO & Hm & Hl) Hs. apply wp_in_pools. eapply wp_mono; [by apply cp_create|]. intros r b [[-> Hb]|(Hr & Hn & Hb)]; [by left|right; done].
  - intros w O m log pool L (HO & Hm & Hl) HL. apply wp_in_pools. eapply wp_mono; [by apply cp_alloc|]. intros r b [[-> Hb]|(Hr & Hn & Hb)]; [by left|right]. split_and!; [done|by eapply Hn|done].
  - intros w O m log pool L c (HO & Hm & Hl) HL Hc. apply wp_in_pools. eapply wp_mono; [by apply cp_free|]. done.
  - intros w O m log pool (HO & Hm & Hl) HL. apply wp_in_pools. eapply wp_mono; [by apply cp_destroy|]. done.
  - intros w O m log cb k v (HO & Hm & Hl). unfold record_cb. wp_step. split_and!; [done|done|]. simpl. by rewrite Hl.
Defined.
End World.

(** ** Witnesses *)

Definition demo_key1 : ipc_opened_cache_key_t := mk_ipc_key 4096 11 1.
Definition demo_key2 : ipc_opened_cache_key_t := mk_ipc_key 8192 12 1.

(** Two caches; the first handle is opened, mapped and released, then another one is opened in
    the second cache. *)
Definition demo_opens (evs : list (iccall * icres)) : iccall :=
  match evs with
  | [] => ICreate 100
  | [(ICreate _, IPtr c1)] => ICreate 200
  | [(ICreate _, IPtr c1); (ICreate _, IPtr c2)] => IGet c1 demo_key1 7
  | [(ICreate _, IPtr c1); (ICreate _, IPtr c2); (IGet _ _ _, IResult UMF_RESULT_SUCCESS v)] => IMap v 28672 4096
  | [(ICreate _, IPtr c1); (ICreate _, IPtr c2); (IGet _ _ _, IResult UMF_RESULT_SUCCESS v); (IMap _ _ _, _)] => IRelease v
  | [(ICreate _, IPtr c1); (ICreate _, IPtr c2); (IGet _ _ _, IResult UMF_RESULT_SUCCESS v); (IMap _ _ _, _); (IRelease _, IResult UMF_RESULT_SUCCESS _)] => IGet c2 demo_key2 9
  | _ => ICreate 0
  end.

Definition demo_ipc (script : list bool) : icstate (cworld scripted (bstate demo_os)) :=
  mk_icstate (mk_cworld (host0 script) (demo_start []) []) ∅ ∅ ∅ 0 [] (Some "1").

Lemma demo_ipc_start script : inactive (demo_ipc script) ∅ ∅ [].
Proof. split; [done| |done|done]. split_and!; [done|apply chunks_start|done]. Qed.

Lemma demo_creates max cb1 c1 cb2 c2 A : icsteps max no_entries [(ICreate cb1, IPtr c1); (ICreate cb2, IPtr c2)] A ->
  iv_cells A = [] /\ (c1 = 0 \/ is_Some (iv_caches A !! c1)) /\ (c2 = 0 \/ is_Some (iv_caches A !! c2)).
Proof.
  simpl. intros (A1 & [[[= ->] ->]|(c & _ & _ & Hn & [= ->] & ->)] & A2 & [[[= ->] ->]|(c' & _ & _ & Hn' & [= ->] & ->)] & ->); cbn [iv_cells iv_caches]; split_and!; try done; try (by left); right.
  - by rewrite lookup_insert_eq.
  - by rewrite lookup_insert_eq.
  - rewrite lookup_insert_is_Some'. right. by rewrite lookup_insert_eq.
  - by rewrite lookup_insert_eq.
Qed.

Lemma icsteps_last max A evs c r A' : icsteps max A (evs ++ [(c, r)]) A' -> exists A1, icsteps max A evs A1 /\ icstep max A1 c r A'.
Proof.
  revert A. induction evs as [|[c' r'] evs IH]; intros A; simpl; [intros (A1 & Hst & ->); by exists A|]. intros (A1 & Hst & (A2 & Hs & Hl)%IH). exists A2. split; [by exists A1|done].
Qed.

(** After the first handle is opened there is one entry, with one reference. *)
Lemma demo_get max A c k id v A' : iv_cells A = [] -> icstep max A (IGet c k id) (IResult UMF_RESULT_SUCCESS v) A' ->
  iv_caches A' = iv_caches A /\ exists x, iv_cells A' = [x] /\ v = vptr (cl_addr x) /\ cl_ref x = 1.
Proof.
  destruct A as [l K log]. cbn [iv_cells]. intros -> Hst. simpl in Hst. destruct (c =? 0); [by destruct Hst|]. destruct Hst as (cb & ret & e & ev & l' & _ & Hl & [= <- ->] & ->).
  split; [done|]. inversion Hl as [l1 ? l2|l1 ? l2|l1 ? l2| |]; simplify_eq; try (by destruct l1). by eexists.
Qed.

Lemma at_value_single v f x l' : at_value v f [x] l' -> v = vptr (cl_addr x) /\ l' = [f x].
Proof. intros (l1 & y & l2 & E & -> & ->). destruct l1 as [|z [|? ?]]; simplify_eq/=; done. Qed.

Lemma demo_map max A x v b sz r A' : iv_cells A = [x] -> icstep max A (IMap v b sz) r A' -> iv_caches A' = iv_caches A /\ iv_cells A' = [mapped_at b sz x] /\ v = vptr (cl_addr x).
Proof. destruct A as [l K log]. cbn [iv_cells]. intros -> (_ & l' & [Hv ->]%at_value_single & ->). done. Qed.

Lemma demo_release max A x v r A' : iv_cells A = [x] -> icstep max A (IRelease v) (IResult UMF_RESULT_SUCCESS r) A' -> iv_caches A' = iv_caches A /\ iv_cells A' = [add_refs (-1) x].
Proof. destruct A as [l K log]. cbn [iv_cells]. intros -> Hst. simpl in Hst. destruct (v =? 0); [by destruct Hst|]. by destruct Hst as (_ & l' & [_ ->]%at_value_single & ->). Qed.

(** What the client knows when it makes its later calls. *)
Lemma demo_opened max e1 c1 e2 c2 c k id v A : icsteps max no_entries [(ICreate e1, IPtr c1); (ICreate e2, IPtr c2); (IGet c k id, IResult UMF_RESULT_SUCCESS v)] A ->
  (c2 = 0 \/ is_Some (iv_caches A !! c2)) /\ exists x, iv_cells A = [x] /\ v = vptr (cl_addr x) /\ cl_ref x = 1.
Proof.
  intros Hs. apply (icsteps_last max _ [_; _]) in Hs as (A1 & (Hl & _ & Hc2)%demo_creates & Hst).
  destruct (demo_get _ _ _ _ _ _ _ Hl Hst) as (EK & Hx). rewrite EK. split; [exact Hc2|exact Hx].
Qed.

Lemma demo_mapped max e1 c1 e2 c2 c k id v v' b sz r A :
  icsteps max no_entries [(ICreate e1, IPtr c1); (ICreate e2, IPtr c2); (IGet c k id, IResult UMF_RESULT_SUCCESS v); (IMap v' b sz, r)] A ->
  (c2 = 0 \/ is_Some (iv_caches A !! c2)) /\ exists x, iv_cells A = [x] /\ v = vptr (cl_addr x) /\ cl_ref x = 1.
Proof.
  intros Hs. apply (icsteps_last max _ [_; _; _]) in Hs as (A1 & (Hc2 & x & Hl & Hv & Hr)%demo_opened & Hst).
  destruct (demo_map _ _ _ _ _ _ _ _ Hl Hst) as (EK & Hl' & _). rewrite EK. split; [done|]. by exists (mapped_at b sz x).
Qed.

Lemma demo_released max e1 c1 e2 c2 c k id v v' b sz r v2 z A :
  icsteps max no_entries [(ICreate e1, IPtr c1); (ICreate e2, IPtr c2); (IGet c k id, IResult UMF_RESULT_SUCCESS v); (IMap v' b sz, r); (IRelease v2, IResult UMF_RESULT_SUCCESS z)] A ->
  (c2 = 0 \/ is_Some (iv_caches A !! c2)) /\ exists x, iv_cells A = [x] /\ cl_ref x = 0.
Proof.
  intros Hs. apply (icsteps_last max _ [_; _; _; _]) in Hs as (A1 & (Hc2 & x & Hl & Hv & Hr)%demo_mapped & Hst).
  destruct (demo_release _ _ _ _ _ _ Hl Hst) as (EK & Hl'). rewrite EK. split; [done|]. exists (add_refs (-1) x). split; [done|]. simpl. lia.
Qed.

(** The calls of the client by its cases. *)
Lemma demo_opens_cases (P : list (iccall * icres) -> iccall -> Prop) :
  (forall evs cb, P evs (ICreate cb)) ->
  (forall e1 c1 e2 c2, let evs := [(ICreate e1, IPtr c1); (ICreate e2, IPtr c2)] in P evs (IGet c1 demo_key1 7)) ->
  (forall e1 c1 e2 c2 c k id v, let evs := [(ICreate e1, IPtr c1); (ICreate e2, IPtr c2); (IGet c k id, IResult UMF_RESULT_SUCCESS v)] in P evs (IMap v 28672 4096)) ->
  (forall e1 c1 e2 c2 c k id v v' b sz r, let evs := [(ICreate e1, IPtr c1); (ICreate e2, IPtr c2); (IGet c k id, IResult UMF_RESULT_SUCCESS v); (IMap v' b sz, r)] in P evs (IRelease v)) ->
  (forall e1 c1 e2 c2 c k id v v' b sz r v2 z,
    let evs := [(ICreate e1, IPtr c1); (ICreate e2, IPtr c2); (IGet c k id, IResult UMF_RESULT_SUCCESS v); (IMap v' b sz, r); (IRelease v2, IResult UMF_RESULT_SUCCESS z)] in P evs (IGet c2 demo_key2 9)) ->
  forall evs, P evs (demo_opens evs).
Proof.
  intros H0 H1 H2 H3 H4 evs. cbv zeta in *. unfold demo_opens. repeat (case_match; try apply H0); subst; try apply H0; try apply H1; try apply H2; try apply H3; apply H4.
Qed.

Lemma demo_opens_obeys max : ipc_client_obeys max demo_opens.
Proof.
  intros evs A. revert evs. apply (demo_opens_cases (fun evs c => icsteps max no_entries evs A -> icobeys A c)); [done|..].
  - intros e1 c1 e2 c2 evs (_ & Hc1 & _)%demo_creates. done.
  - intros e1 c1 e2 c2 c k id v evs (_ & x & Hl & Hv & _)%demo_opened. exists x. rewrite Hl. split; [constructor|done].
  - intros e1 c1 e2 c2 c k id v v' b sz r evs (_ & x & Hl & Hv & Hr)%demo_mapped. right. exists x. rewrite Hl, Hr. split; [constructor|done].
  - intros e1 c1 e2 c2 c k id v v' b sz r v2 z evs (Hc2 & _)%demo_released. done.
Qed.

Lemma demo_opens_holds max : client_holds max 1 demo_opens.
Proof.
  intros evs A cache k id. revert evs.
  apply (demo_opens_cases (fun evs c => icsteps max no_entries evs A -> c = IGet cache k id -> Z.of_nat (length (held (iv_cells A))) < 1)); [done|..].
  - intros e1 c1 e2 c2 evs (-> & _)%demo_creates _. done.
  - done.
  - done.
  - intros e1 c1 e2 c2 c k' id' v v' b sz r v2 z evs (_ & x & -> & Hx)%demo_released _. unfold held. rewrite filter_cons_False by (intros Hn; by apply Hn). done.
Qed.



