(* ===== verification/TrackingProvider.v ===== *)
(** * The tracking provider, src/provider/provider_tracking.c

    Every pool gets its memory through a tracking provider: it calls the
    provider of the user, the upstream provider, and keeps the memory tracker up to
    date.  The state is that of the tracker, that of the upstream providers and the
    structs of the tracking providers by their address.  [Upstream] has the
    functions of src/memory_provider.h that are called for the upstream provider;
    an out-parameter is passed as its content before the call and
    returned as its content after it. *)

From S2P Require Import Prelude Utils HostMem.
From stdpp Require Import strings list.
From S2P Require Import Critnib Tracker.
#[local] Open Scope Z_scope.

Class Upstream (U : Type) := {
  up_Alloc : Z -> Z -> Z -> Z -> M U (umf_result_t * Z);
  up_Free : Z -> Z -> Z -> M U umf_result_t;
  up_AllocationSplit : Z -> Z -> Z -> Z -> M U umf_result_t;
  up_AllocationMerge : Z -> Z -> Z -> Z -> M U umf_result_t;
  up_GetMinPageSize : Z -> Z -> Z -> M U (umf_result_t * Z);
  up_GetRecommendedPageSize : Z -> Z -> Z -> M U (umf_result_t * Z);
  up_PurgeLazy : Z -> Z -> Z -> M U umf_result_t;
  up_PurgeForce : Z -> Z -> Z -> M U umf_result_t;
  up_PutIPCHandle : Z -> list Z -> M U umf_result_t;
}.

Record umf_tracking_memory_provider_t := mk_tracking {
  hUpstream : Z;
  hTracker : Z;
  tp_pool : Z;
  ipcCache : Z;
  hIpcMappedCache : Z;
}.

Record kstate (H B U : Type) := mk_kstate {
  k_tracker : tstate H B;
  k_upstream : U;
  k_providers : gmap Z umf_tracking_memory_provider_t;
}.
Arguments mk_kstate {H B U}. Arguments k_tracker {H B U}. Arguments k_upstream {H B U}. Arguments k_providers {H B U}.

Definition tag_tracking : string := "umf_tracking_memory_provider_t".
Definition sizeof_tracking : Z := 40.

Section Provider.
Context `{HostAlloc H} `{ChunkPool B} `{Upstream U}.
Abbreviation K := (M (kstate H B U)).

Definition in_tracker {A} (f : M (tstate H B) A) : K A :=
  fun s => match f (k_tracker s) with Some (a, t) => Some (a, mk_kstate t (k_upstream s) (k_providers s)) | None => None end.
Definition in_upstream {A} (f : M U A) : K A :=
  fun s => match f (k_upstream s) with Some (a, u) => Some (a, mk_kstate (k_tracker s) u (k_providers s)) | None => None end.
Definition load_provider (h : Z) : K umf_tracking_memory_provider_t := s ← get; of_option (k_providers s !! h).

Definition failed (r : umf_result_t) : bool := negb (bool_decide (r = UMF_RESULT_SUCCESS)).

(** The result, and what is stored through [_ptr]. *)
Definition trackingAlloc (hProvider size alignment : Z) : K (umf_result_t * Z) :=
  p ← load_provider hProvider;
  _ ← c_assert (negb (hUpstream p =? 0));
  '(ret, ptr) ← in_upstream (up_Alloc (hUpstream p) size alignment 0);
  if failed ret || (ptr =? 0) then mret (ret, 0) else
  ret ← in_tracker (umfMemoryTrackerAdd (hTracker p) (tp_pool p) ptr size);
  if failed ret then
    _ ← in_upstream (up_Free (hUpstream p) ptr size);
    mret (ret, 0)
  else mret (UMF_RESULT_SUCCESS, ptr).

(** [hTracker->splitMergeMutex]; the result of the lock. *)
Definition lock_split_merge (hTracker : Z) : M (tstate H B) Z :=
  t ← load_tracker hTracker;
  r ← of_option (utils_mutex_lock (splitMergeMutex t));
  _ ← update_tracker hTracker (set_split_mutex r.2);
  mret r.1.
Definition unlock_split_merge (hTracker : Z) : M (tstate H B) unit :=
  t ← load_tracker hTracker;
  m ← of_option (utils_mutex_unlock (splitMergeMutex t));
  update_tracker hTracker (set_split_mutex m).

Definition trackingAllocationSplit (hProvider ptr totalSize firstSize : Z) : K umf_result_t :=
  provider ← load_provider hProvider;
  let hT := hTracker provider in
  r ← in_tracker (lock_split_merge hT);
  if negb (r =? 0) then mret UMF_RESULT_ERROR_UNKNOWN else
  let err ret := _ ← in_tracker (unlock_split_merge hT); mret ret in
  found ← in_tracker (get_most_nested_alloc_segment hT ptr true true);
  match found with
  | None => err UMF_RESULT_ERROR_INVALID_ARGUMENT
  | Some l =>
    value ← in_tracker (load_info (lv_rvalue l));
    if negb (ti_size value =? totalSize) then err UMF_RESULT_ERROR_INVALID_ARGUMENT else
    ret ← in_upstream (up_AllocationSplit (hUpstream provider) ptr totalSize firstSize);
    if failed ret then err ret else
    let highPtr := add64 ptr firstSize in
    let secondSize := sub64 totalSize firstSize in
    _ ← c_assert (bool_decide (lv_level l < MAX_LEVELS_OF_ALLOC_SEGMENT_MAP)%nat);
    ret ← in_tracker (umfMemoryTrackerAddAtLevel hT (lv_level l) (tp_pool provider) highPtr secondSize (lv_parent_key l) (lv_parent_value l) (lv_pref l));
    if failed ret then
      _ ← in_upstream (up_AllocationMerge (hUpstream provider) ptr highPtr totalSize);
      err ret
    else
      value ← in_tracker (load_info (lv_rvalue l));
      _ ← in_tracker (store_info (lv_rvalue l) (with_size firstSize value));
      _ ← in_tracker (release_segment hT (lv_level l) (lv_ref l));
      err UMF_RESULT_SUCCESS
  end.

(** [n_children] of the value that was found, and its level, pool and size. *)
Definition found_value (hT ptr : Z) : K (option (walk * tracker_alloc_info_t)) :=
  found ← in_tracker (get_most_nested_alloc_segment hT ptr false false);
  match found with
  | None => mret None
  | Some l => value ← in_tracker (load_info (lv_rvalue l)); mret (Some (l, value))
  end.

Definition trackingAllocationMerge (hProvider lowPtr highPtr totalSize : Z) : K umf_result_t :=
  provider ← load_provider hProvider;
  let hT := hTracker provider in
  r ← in_tracker (lock_split_merge hT);
  if negb (r =? 0) then mret UMF_RESULT_ERROR_UNKNOWN else
  let leave ret := _ ← in_tracker (unlock_split_merge hT); mret ret in
  low ← found_value hT lowPtr;
  match low with
  | None => leave UMF_RESULT_ERROR_INVALID_ARGUMENT
  | Some (low, lowValue) =>
    if negb (n_children lowValue =? 0) then leave UMF_RESULT_ERROR_INVALID_ARGUMENT else
    high ← found_value hT highPtr;
    match high with
    | None => leave UMF_RESULT_ERROR_INVALID_ARGUMENT
    | Some (high, highValue) =>
      if negb (n_children highValue =? 0) then leave UMF_RESULT_ERROR_INVALID_ARGUMENT else
      if negb (bool_decide (lv_level low = lv_level high)) then leave UMF_RESULT_ERROR_INVALID_ARGUMENT else
      if negb (ti_pool lowValue =? ti_pool highValue) then leave UMF_RESULT_ERROR_INVALID_ARGUMENT else
      if negb (add64 (ti_size lowValue) (ti_size highValue) =? totalSize) then leave UMF_RESULT_ERROR_INVALID_ARGUMENT else
      ret ← in_upstream (up_AllocationMerge (hUpstream provider) lowPtr highPtr totalSize);
      if failed ret then leave ret else
      lowValue ← in_tracker (load_info (lv_rvalue low));
      _ ← in_tracker (store_info (lv_rvalue low) (with_size totalSize lowValue));
      _ ← in_tracker (release_segment hT (lv_level low) (lv_ref low));
      _ ← in_tracker (release_segment hT (lv_level high) (lv_ref high));
      c ← in_tracker (segments_map hT (lv_level high));
      _ ← in_tracker (on_critnib c (critnib_remove_release highPtr));
      leave UMF_RESULT_SUCCESS
    end
  end.

(** The IPC handle of the memory, if there is one, is given back. *)
Definition put_ipc_handle (p : umf_tracking_memory_provider_t) (ptr : Z) : K unit :=
  '(value, ref_value) ← in_tracker (on_critnib (ipcCache p) (critnib_remove ptr true));
  _ ← (if value =? 0 then mret tt else
       s ← get;
       cache_value ← of_option (t_values (k_tracker s) !! value);
       _ ← in_upstream (up_PutIPCHandle (hUpstream p) (providerIpcData cache_value));
       mret tt);
  match ref_value with
  | Some _ => _ ← in_tracker (on_critnib (ipcCache p) (critnib_release ref_value)); mret tt
  | None => mret tt
  end.

Definition trackingFree (hProvider ptr size : Z) : K umf_result_t :=
  p ← load_provider hProvider;
  ret_remove ← (if ptr =? 0 then mret UMF_RESULT_ERROR_UNKNOWN else in_tracker (umfMemoryTrackerRemove (hTracker p) ptr));
  _ ← put_ipc_handle p ptr;
  ret ← in_upstream (up_Free (hUpstream p) ptr size);
  if failed ret then
    if failed ret_remove then mret ret else
    _ ← in_tracker (umfMemoryTrackerAdd (hTracker p) (tp_pool p) ptr size);
    mret ret
  else mret ret.

(** The result, and what is stored through [ret], which held [old]. *)
Definition trackingInitialize (params : umf_tracking_memory_provider_t) (old : Z) : K (umf_result_t * Z) :=
  s ← get;
  let '(r, h) := umf_ba_global_alloc tag_tracking sizeof_tracking (t_host (k_tracker s)) in
  _ ← in_tracker (modify (Tracker.with_host h));
  match r with
  | None => mret (UMF_RESULT_ERROR_OUT_OF_HOST_MEMORY, old)
  | Some provider =>
    _ ← modify (fun s => mk_kstate (k_tracker s) (k_upstream s) (<[provider := params]> (k_providers s)));
    if (hUpstream params =? 0) || (hTracker params =? 0) || (tp_pool params =? 0) || (ipcCache params =? 0)
    then mret (UMF_RESULT_ERROR_INVALID_ARGUMENT, old)
    else mret (UMF_RESULT_SUCCESS, provider)
  end.

Definition trackingGetMinPageSize (provider ptr pageSize : Z) : K (umf_result_t * Z) :=
  p ← load_provider provider;
  in_upstream (up_GetMinPageSize (hUpstream p) ptr pageSize).
Definition trackingGetRecommendedPageSize (provider size pageSize : Z) : K (umf_result_t * Z) :=
  p ← load_provider provider;
  in_upstream (up_GetRecommendedPageSize (hUpstream p) size pageSize).
Definition trackingPurgeLazy (provider ptr size : Z) : K umf_result_t :=
  p ← load_provider provider;
  in_upstream (up_PurgeLazy (hUpstream p) ptr size).
Definition trackingPurgeForce (provider ptr size : Z) : K umf_result_t :=
  p ← load_provider provider;
  in_upstream (up_PurgeForce (hUpstream p) ptr size).

(** [mapped] is the result of [umfIpcOpenedCacheCreate]; the handle is that of the
    private data, which the struct of src/memory_provider.c wraps. *)
Definition umfTrackingMemoryProviderCreate (upstream pool mapped old : Z) : K (umf_result_t * Z) :=
  s ← get;
  let hT := TRACKER (k_tracker s) in
  if hT =? 0 then mret (UMF_RESULT_ERROR_UNKNOWN, old) else
  c ← in_tracker (new_critnib FreeIpcCacheValue);
  if c =? 0 then mret (UMF_RESULT_ERROR_OUT_OF_HOST_MEMORY, old) else
  trackingInitialize (mk_tracking upstream hT pool c mapped) old.

Definition umfTrackingMemoryProviderGetUpstreamProvider (hTrackingProvider : Z) : K Z :=
  p ← load_provider hTrackingProvider;
  mret (hUpstream p).
End Provider.
