(* ===== verification/TrackingSpec.v ===== *)
(** * The tracking provider as the provider of a pool

    [UpstreamLaws] is what the tracking provider relies on: the memory that
    the upstream provider hands out is in use until it is freed and disjoint from
    all memory in use, and memory in use can be freed.  [tracking_rep] says that
    the tracker has exactly the ranges that the upstream provider handed out; the
    functions of the tracking provider and the query of the tracker keep it, so
    they are an instance of [PoolProvider] with its laws. *)

From S2P Require Import Prelude Utils HostMem CritQuery CritDelete CritSpec CritInsert CritRemove CritInv CritWorld.
From stdpp Require Import strings list.
From S2P Require Import Critnib Tracker TrackerInv TrackerOps TrackerRemove TrackerIpc TrackerLife TrackerSpec PoolProvider TrackingProvider.
#[local] Open Scope Z_scope.

Class UpstreamLaws (U : Type) `{Upstream U} := {
  ur_rep : U -> Z -> gmap Z Z -> Prop;
  ur_page : Z;
  ur_page_pow2 : pow2 ur_page;
  ur_wf : forall u h P q m, ur_rep u h P -> P !! q = Some m -> 0 < q /\ 0 < m /\ q + m < two64 /\ q mod ur_page = 0;
  ur_apart : forall u h P q1 q2 m1 m2, ur_rep u h P -> P !! q1 = Some m1 -> P !! q2 = Some m2 -> q1 < q2 -> q1 + m1 <= q2;
  ur_alloc : forall u h P size alignment old, ur_rep u h P -> 0 < size -> size < two64 -> alignment = 0 \/ pow2 alignment ->
    wp (up_Alloc h size alignment old) (fun r u' =>
      (r.1 <> UMF_RESULT_SUCCESS /\ ur_rep u' h P) \/
      (r.1 = UMF_RESULT_SUCCESS /\ apart_from P r.2 size /\ (alignment <> 0 -> r.2 mod alignment = 0) /\ ur_rep u' h (<[r.2 := size]> P))) u;
  ur_free : forall u h P p size, ur_rep u h P -> P !! p = Some size ->
    wp (up_Free h p size) (fun r u' => r = UMF_RESULT_SUCCESS /\ ur_rep u' h (delete p P)) u;
  ur_min_page : forall u h P old, ur_rep u h P ->
    wp (up_GetMinPageSize h 0 old) (fun r u' => ur_rep u' h P /\ (r.1 = UMF_RESULT_SUCCESS -> pow2 r.2 /\ r.2 <= ur_page)) u;
}.

(** ** Ranges of one level *)

Definition top (pool : Z) (P : gmap Z Z) : list level :=
  ((fun n => (n, pool)) <$> P) :: replicate (MAX_LEVELS_OF_ALLOC_SEGMENT_MAP - 1) ∅.

Lemma top_first pool P : lvl (top pool P) 0 = (fun n => (n, pool)) <$> P.
Proof. done. Qed.

Lemma top_above pool P i : lvl (top pool P) (S i) = ∅.
Proof. unfold lvl, top. rewrite lookup_cons_ne_0 by done. simpl pred. destruct (replicate _ _ !! i) as [x|] eqn:E; [|done]. by apply lookup_replicate in E as [-> _]. Qed.

Lemma top_lookup pool P i k r : lvl (top pool P) i !! k = Some r <-> i = 0%nat /\ exists n, P !! k = Some n /\ r = (n, pool).
Proof.
  destruct i as [|i]; [rewrite top_first, lookup_fmap|rewrite top_above, lookup_empty; naive_solver].
  destruct (P !! k); simpl; naive_solver.
Qed.

Lemma top_hit pool P i ptr k r : hit (top pool P) i ptr k r <-> i = 0%nat /\ exists n, P !! k = Some n /\ r = (n, pool) /\ k <= ptr < k + n.
Proof. unfold hit. rewrite top_lookup. naive_solver. Qed.

Lemma top_children pool P i k n : children (top pool P) i k n = 0.
Proof. unfold children, inside. rewrite top_above, map_filter_empty. done. Qed.

Lemma top_add pool P ptr n : add_range (top pool P) 0 ptr n pool = top pool (<[ptr := n]> P).
Proof. unfold add_range. rewrite top_first. unfold top. by rewrite fmap_insert. Qed.

Lemma top_del pool P ptr : del_range (top pool P) 0 ptr = top pool (delete ptr P).
Proof. unfold del_range. rewrite top_first. unfold top. by rewrite fmap_delete. Qed.

(** What the tracker does with memory that is apart from all ranges. *)
Lemma top_add_spec pool P ptr n r A : 0 < n -> apart_from P ptr n -> add_spec (top pool P) ptr n pool r A ->
  (r = UMF_RESULT_SUCCESS /\ A = top pool (<[ptr := n]> P)) \/ (r <> UMF_RESULT_SUCCESS /\ A = top pool P).
Proof.
  intros Hn Hap [d [Hlow _] _ _| | |]; [left; split; [done|]|by right..]. destruct d as [|d]; [apply top_add|].
  exfalso. destruct (Hlow 0%nat) as (k & q & (_ & m & Hk & _ & Hh)%top_hit); [lia|]. destruct (Hap k m Hk); lia.
Qed.

Lemma top_remove_spec pool P ptr n r A : P !! ptr = Some n -> 0 < n -> remove_spec (top pool P) ptr r A -> r = UMF_RESULT_SUCCESS /\ A = top pool (delete ptr P).
Proof.
  intros Hp Hn [d q (_ & Hd & _)|Hno].
  - apply top_lookup in Hd as [-> _]. split; [done|apply top_del].
  - exfalso. apply (Hno 0%nat (n, pool)). split; [|split; [by apply top_lookup; eauto|apply top_children]]. split.
    + intros i Hi. exists ptr, (n, pool). apply top_hit. split; [lia|]. exists n. split_and!; [done|done|lia|lia].
    + intros k q [? _]%top_hit. done.
Qed.

Lemma top_info_spec pool P p n ptr old r A : P !! p = Some n -> p <= ptr < p + n -> 0 < p ->
  (forall q1 q2 m1 m2, P !! q1 = Some m1 -> P !! q2 = Some m2 -> q1 < q2 -> q1 + m1 <= q2) ->
  info_spec (top pool P) ptr old r A -> r = (UMF_RESULT_SUCCESS, mk_alloc_info p n pool) /\ A = top pool P.
Proof.
  intros Hp Hin Hp0 Hap [Hno|k q (i & _ & (_ & m & Hk & -> & Hh)%top_hit)].
  - exfalso. destruct Hno as [?|Hno]; [lia|]. apply (Hno 0%nat p (n, pool)), top_hit. split; [done|]. by exists n.
  - split; [|done]. assert (k = p) as ->; [|by simplify_eq]. destruct (Z.lt_trichotomy k p) as [Hl|[?|Hg]]; [|done|].
    + pose proof (Hap _ _ _ _ Hk Hp Hl). lia.
    + pose proof (Hap _ _ _ _ Hp Hk Hg). lia.
Qed.

Section Rules.
Context `{HostAllocLaws H} `{ChunkPoolLaws B} `{UpstreamLaws U}.
Implicit Types (s : kstate H B U) (P : gmap Z Z).

(** The calls of a critnib that a call of the provider makes. *)
Definition CALLS : Z := 40.

Record tracking_rep s (h : Z) P (n : Z) : Prop := {
  tr_parts : exists p t I X m V, k_providers s !! h = Some p /\ hUpstream p <> 0 /\ hTracker p = TRACKER (k_tracker s) /\
    tracker_ok (k_tracker s) t (AView (top (tp_pool p) P) I) X m (CALLS * n) /\
    ur_rep (k_upstream s) (hUpstream p) P /\
    X !! ipcCache p = Some (FreeIpcCacheValue, V) /\ cv_keys V = ∅ /\ (ipcCache p ∉ alloc_segments_map t) /\ ipcCache p <> ipc_segments_map t;
}.

Lemma wp_in_tracker {A} (f : M (tstate H B) A) s (Q : A -> kstate H B U -> Prop) :
  wp f (fun a t => Q a (mk_kstate t (k_upstream s) (k_providers s))) (k_tracker s) -> wp (in_tracker f) Q s.
Proof. unfold wp, in_tracker. by destruct (f (k_tracker s)) as [[a t]|]. Qed.

Lemma wp_in_upstream {A} (f : M U A) s (Q : A -> kstate H B U -> Prop) :
  wp f (fun a u => Q a (mk_kstate (k_tracker s) u (k_providers s))) (k_upstream s) -> wp (in_upstream f) Q s.
Proof. unfold wp, in_upstream. by destruct (f (k_upstream s)) as [[a u]|]. Qed.

Lemma wp_load_provider s h p (Q : umf_tracking_memory_provider_t -> kstate H B U -> Prop) : k_providers s !! h = Some p -> Q p s -> wp (load_provider h) Q s.
Proof. intros E HQ. unfold load_provider. wp_step. by wp_step; [exact E|]. Qed.

Lemma wp_get_inv {S A} (f : S -> M S A) (Q : A -> S -> Prop) x : wp (y ← get; f y) Q x -> wp (f x) Q x.
Proof. done. Qed.

(** A call of the tracker. *)
Lemma wp_tracker_call {R} (f : M (tstate H B) R) (g : R -> tres) ts t v X m N c :
  (forall Q, wp (run_tcall c) Q ts -> wp (x ← f; mret (g x)) Q ts) ->
  tracker_ok ts t v X m N -> N + 20 + DELETED_LIFE < two64 -> tracker_obeys v c ->
  wp f (fun x ts' => tracker_post t ts X m v (N + 20) c (g x) ts') ts.
Proof. intros Hf Hok HN Hob. apply (wp_bound_inv f g (tracker_post t ts X m v (N + 20) c)), Hf. by apply wp_tcall. Qed.

Lemma tracker_ok_mono ts t v X m N N' : tracker_ok ts t v X m N -> N <= N' -> tracker_ok ts t v X m N'.
Proof.
  intros [HI [Hc ? ? ? ? ?] ? ? ? ?] HN. split; try done; [by apply (tinv_mono _ _ _ _ _ _ N)|]. split; try done. by apply (crits_inv_mono _ _ N).
Qed.

(** Another critnib changes. *)
Lemma tracker_ok_crits ts ts' t v X m N N' : tracker_ok ts t v X m N -> same_but_crits ts ts' -> crits_inv ts' X N' -> tracker_ok ts' t v X m N'.
Proof.
  intros [HI [_ ? ? ? ? ?] ? ? ? ?] (hh & C & ->) HC. split; try done.
  destruct HI. by split.
Qed.

Lemma apart_fresh P ptr size : (forall q m, P !! q = Some m -> 0 < m) -> 0 < size -> apart_from P ptr size -> P !! ptr = None.
Proof. intros Hwf Hs Hap. destruct (P !! ptr) as [m|] eqn:E; [|done]. pose proof (Hwf _ _ E). destruct (Hap _ _ E); lia. Qed.

Definition rep_bound (n : Z) : Prop := 0 <= n /\ CALLS * (n + 1) + DELETED_LIFE < two64.

Lemma wp_trackingAlloc s h P n size alignment : tracking_rep s h P n -> rep_bound n -> 0 < size -> size < two64 -> alignment = 0 \/ pow2 alignment ->
  wp (trackingAlloc h size alignment) (fun r s' =>
    (r.1 <> UMF_RESULT_SUCCESS /\ tracking_rep s' h P (n + 1)) \/
    (r.1 = UMF_RESULT_SUCCESS /\ apart_from P r.2 size /\ (alignment <> 0 -> r.2 mod alignment = 0) /\ tracking_rep s' h (<[r.2 := size]> P) (n + 1))) s.
Proof.
  intros [(p & t & I & X & m & V & Hp & Hu0 & HT & Hok & Hur & HX & HV & Hc1 & Hc2)] [Hn0 Hn] Hs Hs' Hal. unfold CALLS in Hn. unfold trackingAlloc. apply wp_bind, (wp_load_provider s h p); [done|].
  apply wp_bind, wp_c_assert; [by apply negb_true_iff, Z.eqb_neq|]. apply wp_bind, wp_in_upstream. eapply wp_mono; [by apply ur_alloc|].
  intros [r ptr] u [[Hr Hur']|(Hr & Hap & Hmod & Hur')]; simpl in *; cbv iota beta.
  { unfold failed. rewrite bool_decide_false by done. simpl. wp_step. left. split; [done|]. split. exists p, t, I, X, m, V. split_and!; try done. by apply (tracker_ok_mono _ _ _ _ _ (CALLS * n)); [|unfold CALLS; lia]. }
  subst r. destruct (ur_wf _ _ _ ptr size Hur') as (Hp0 & _ & Hpu & _); [apply lookup_insert_eq|]. unfold failed at 1. rewrite bool_decide_true by done. simpl. rewrite (proj2 (Z.eqb_neq ptr 0)) by lia.
  assert (P !! ptr = None) as Hfr by (apply (apart_fresh P ptr size); [intros q mm Hq; by apply (ur_wf _ _ _ _ _ Hur Hq)|done|done]).
  apply wp_bind, wp_in_tracker. simpl. rewrite HT.
  eapply wp_mono; [apply (wp_tracker_call (umfMemoryTrackerAdd (TRACKER (k_tracker s)) (tp_pool p) ptr size) TResult (k_tracker s) t (AView (top (tp_pool p) P) I) X m (CALLS * n) (TAdd (tp_pool p) ptr size))|].
  - intros Q Hw. unfold run_tcall in Hw. apply wp_get_inv in Hw. exact Hw.
  - done.
  - unfold CALLS. lia.
  - split; [split_and!; lia|]. intros i k q (_ & mm & Hk & _)%top_lookup. pose proof (ur_wf _ _ _ _ _ Hur Hk). destruct (Hap k mm Hk); lia.
  - intros x ts' ([A' I'] & X' & m' & (EI & x' & [= <-] & Hsp) & Hok' & Hfrm). simpl in EI, Hsp. subst I'.
    assert (X' !! ipcCache p = Some (FreeIpcCacheValue, V)) as HX' by (by rewrite (tf_crits _ _ _ _ _ _ _ Hfrm)).
    assert (tracker_ok ts' t (AView A' I) X' m' (CALLS * (n + 1))) as Hok2 by (apply (tracker_ok_mono _ _ _ _ _ (CALLS * n + 20)); [done|unfold CALLS; lia]).
    pose proof (tf_tracker _ _ _ _ _ _ _ Hfrm) as ET.
    destruct (top_add_spec (tp_pool p) P ptr size x A' Hs Hap Hsp) as [[-> ->]|[Hx ->]]; unfold failed.
    + rewrite bool_decide_true by done. simpl. wp_step. right. split_and!; [done|done|done|]. split. exists p, t, I, X', m', V. split_and!; try done. simpl. by rewrite ET.
    + rewrite bool_decide_false by done. simpl. apply wp_bind, wp_in_upstream. eapply wp_mono; [apply (ur_free _ _ _ ptr size Hur'), lookup_insert_eq|].
      intros r2 u2 [_ Hur2]. rewrite delete_insert_id in Hur2 by done. wp_step. left. split; [done|]. split. exists p, t, I, X', m', V. split_and!; try done. simpl. by rewrite ET.
Qed.

(** No IPC handle is cached. *)
Lemma wp_put_ipc_handle s p t v X m N V ptr (Q : unit -> kstate H B U -> Prop) :
  tracker_ok (k_tracker s) t v X m N -> N + DELETED_LIFE < two64 -> X !! ipcCache p = Some (FreeIpcCacheValue, V) -> cv_keys V = ∅ -> is_u64 ptr ->
  (forall ts, TRACKER ts = TRACKER (k_tracker s) -> tracker_ok ts t v X m (N + 1) -> Q tt (mk_kstate ts (k_upstream s) (k_providers s))) -> wp (put_ipc_handle p ptr) Q s.
Proof.
  intros Hok HN HX HV Hptr HQ. pose proof (ti_maps _ _ _ _ _ _ _ (to_inv _ _ _ _ _ _ Hok)) as HC. unfold put_ipc_handle. apply wp_bind, wp_in_tracker.
  destruct (crits_wf _ _ _ _ _ _ HC HX) as [_ Hcb].
  apply (wp_on_critnib (k_tracker s) X N (ipcCache p) FreeIpcCacheValue V (CRemove ptr true) _ (fun x => RVal x.1 x.2)); [done|done|done|done|done|].
  intros x V' h' C' Hst s1 HC1 Hf1. simpl in Hst. rewrite Hcb, HV, lookup_empty in Hst. simpl in Hst. destruct Hst as [[= E1 E2] ->].
  rewrite freed_by_same by done. rewrite insert_id in HC1 by done. simpl. wp_step. destruct x as [x1 x2]. simpl in E1, E2. subst x1 x2. cbv iota beta. rewrite Z.eqb_refl.
  wp_step. wp_step. apply HQ; [done|]. eapply tracker_ok_crits; [done| |exact HC1]. by exists h', C'.
Qed.

Lemma wp_trackingFree s h P n ptr size : tracking_rep s h P n -> rep_bound n -> P !! ptr = Some size ->
  wp (trackingFree h ptr size) (fun r s' => r = UMF_RESULT_SUCCESS /\ tracking_rep s' h (delete ptr P) (n + 1)) s.
Proof.
  intros [(p & t & I & X & m & V & Hp & Hu0 & HT & Hok & Hur & HX & HV & Hc1 & Hc2)] [Hn0 Hn] Hptr. unfold CALLS in Hn. destruct (ur_wf _ _ _ _ _ Hur Hptr) as (Hp0 & Hs & Hpu & _).
  unfold trackingFree. apply wp_bind, (wp_load_provider s h p); [done|]. rewrite (proj2 (Z.eqb_neq ptr 0)) by lia.
  apply wp_bind, wp_in_tracker. rewrite HT.
  eapply wp_mono; [apply (wp_tracker_call (umfMemoryTrackerRemove (TRACKER (k_tracker s)) ptr) TResult (k_tracker s) t (AView (top (tp_pool p) P) I) X m (CALLS * n) (TRemove ptr))|].
  - intros Q Hw. unfold run_tcall in Hw. apply wp_get_inv in Hw. exact Hw.
  - done.
  - unfold CALLS. lia.
  - split; [unfold is_u64; lia|lia].
  - intros x ts' ([A' I'] & X' & m' & (EI & x' & [= <-] & Hsp) & Hok' & Hfrm). simpl in EI, Hsp. subst I'.
    assert (X' !! ipcCache p = Some (FreeIpcCacheValue, V)) as HX' by (by rewrite (tf_crits _ _ _ _ _ _ _ Hfrm)).
    destruct (top_remove_spec _ _ _ _ _ _ Hptr Hs Hsp) as [-> ->]. pose proof (tf_tracker _ _ _ _ _ _ _ Hfrm) as ET.
    apply wp_bind. eapply (wp_put_ipc_handle _ p); [exact Hok'|unfold CALLS; lia|done|done|unfold is_u64; lia|]. intros ts2 ET2 Hok2. simpl in *.
    apply wp_bind, wp_in_upstream. eapply wp_mono; [by apply (ur_free _ _ _ _ _ Hur)|]. intros r u [-> Hur']. unfold failed. rewrite bool_decide_true by done. simpl. wp_step.
    split; [done|]. split. exists p, t, I, X', m', V. split_and!; try done; simpl; [by rewrite ET2, ET|]. apply (tracker_ok_mono _ _ _ _ _ (CALLS * n + 20 + 1)); [done|unfold CALLS; lia].
Qed.

Lemma wp_trackingGetMinPageSize s h P n old : tracking_rep s h P n ->
  wp (trackingGetMinPageSize h 0 old) (fun r s' => tracking_rep s' h P n /\ (r.1 = UMF_RESULT_SUCCESS -> pow2 r.2 /\ r.2 <= ur_page)) s.
Proof.
  intros [(p & t & I & X & m & V & Hp & Hu0 & HT & Hok & Hur & HX & HV & Hc1 & Hc2)]. unfold trackingGetMinPageSize. apply wp_bind, (wp_load_provider s h p); [done|].
  apply wp_in_upstream. eapply wp_mono; [by apply (ur_min_page _ _ P)|]. intros r u [Hur' Hr]. split; [|done]. split. by exists p, t, I, X, m, V.
Qed.

Lemma wp_tracker_info s h P n base size ptr old : tracking_rep s h P n -> rep_bound n -> P !! base = Some size -> base <= ptr < base + size ->
  wp (in_tracker (Tracker.umfMemoryTrackerGetAllocInfo ptr old)) (fun r s' =>
    (exists pool, r = (UMF_RESULT_SUCCESS, mk_alloc_info base size pool)) /\ tracking_rep s' h P (n + 1)) s.
Proof.
  intros [(p & t & I & X & m & V & Hp & Hu0 & HT & Hok & Hur & HX & HV & Hc1 & Hc2)] [Hn0 Hn] Hb Hin. unfold CALLS in Hn. destruct (ur_wf _ _ _ _ _ Hur Hb) as (Hp0 & Hs & Hpu & _).
  apply wp_in_tracker.
  eapply wp_mono; [apply (wp_tracker_call (Tracker.umfMemoryTrackerGetAllocInfo ptr old) TAllocInfo (k_tracker s) t (AView (top (tp_pool p) P) I) X m (CALLS * n) (TGetAllocInfo ptr old))|].
  - intros Q Hw. unfold run_tcall in Hw. apply wp_get_inv in Hw. exact Hw.
  - done.
  - unfold CALLS. lia.
  - simpl. unfold is_u64. lia.
  - intros x ts' ([A' I'] & X' & m' & (EI & x' & [= <-] & Hsp) & Hok' & Hfrm). simpl in EI, Hsp. subst I'.
    assert (X' !! ipcCache p = Some (FreeIpcCacheValue, V)) as HX' by (by rewrite (tf_crits _ _ _ _ _ _ _ Hfrm)).
    destruct (top_info_spec _ _ _ _ _ _ _ _ Hb Hin Hp0 (fun q1 q2 m1 m2 => ur_apart _ _ _ q1 q2 m1 m2 Hur) Hsp) as [-> ->]. pose proof (tf_tracker _ _ _ _ _ _ _ Hfrm) as ET.
    split; [by eexists|]. split. exists p, t, I, X', m', V. split_and!; try done; simpl; [by rewrite ET|]. apply (tracker_ok_mono _ _ _ _ _ (CALLS * n + 20)); [done|unfold CALLS; lia].
Qed.

Lemma tracking_rep_mono s h P n n' : tracking_rep s h P n -> n <= n' -> tracking_rep s h P n'.
Proof.
  intros [(p & t & I & X & m & V & Hp & Hu0 & HT & Hok & Hrest)] Hn. split. exists p, t, I, X, m, V. split_and!; try apply Hrest; try done.
  by apply (tracker_ok_mono _ _ _ _ _ (CALLS * n)); [|unfold CALLS; lia].
Qed.

(** ** The creation *)

Lemma vw_new X t c cb V i : X !! c = None -> (forall j d, alloc_segments_map t !! j = Some d -> is_Some (X !! d)) -> vw (<[c := (cb, V)]> X) t i = vw X t i.
Proof.
  intros Hc Hm. unfold vw. destruct (alloc_segments_map t !! i) as [d|] eqn:E; [|done]. simpl. rewrite lookup_insert_ne; [done|]. intros ->. destruct (Hm _ _ E) as [? E']. congruence.
Qed.

(** A new critnib beside those of the tracker. *)
Lemma tracker_ok_new ts ts' t v X m N c cb V : tracker_ok ts t v X m N -> X !! c = None -> crits_inv ts' (<[c := (cb, V)]> X) N ->
  t_trackers ts' = t_trackers ts -> quiet ts ts' ->
  tracker_ok ts' t v (<[c := (cb, V)]> X) m N /\ (c ∉ alloc_segments_map t) /\ c <> ipc_segments_map t.
Proof.
  intros [HI HJ Hwf Hn0 Hm Hpl] Hc HC Etr Hq. pose proof Hq as [Ep Ei Ej _ ET _ _].
  assert (forall j d, alloc_segments_map t !! j = Some d -> is_Some (X !! d)) as Hmaps.
  { intros j d E. destruct (ti_map _ _ _ _ _ _ _ HI j d E) as (_ & V0 & ->). by eexists. }
  pose proof (fun i => vw_new X t c cb V i Hc Hmaps) as Hv. destruct HJ as [_ Ht Hi0 (V1 & HX1 & HV1) _ Hch].
  split; [split; rewrite ?ET; try done|split].
  - destruct HI as [_ Htr Hlen Hnd Hmap Hseg Hkeys Hpo Hchk Hval Honce]. split; rewrite ?Etr, ?Ei, ?Ep; try done.
    + intros i d E. destruct (Hmap i d E) as (? & V0 & HV0). split; [done|]. exists V0. rewrite lookup_insert_ne; [done|]. congruence.
    + intros i V0 k a. rewrite Hv. intros HV0 Hk. destruct (Hseg _ _ _ _ HV0 Hk) as (w & r & info & [Hvw ? ? ? ? ?]). exists w, r, info. split; try done. by rewrite Hv.
    + intros i V0 k. rewrite Hv. apply Hkeys.
    + intros w. rewrite Hval. split; intros (i & V0 & a & r & HV0 & He); exists i, V0, a, r; [rewrite Hv|rewrite <- Hv]; done.
    + intros i j V0 W a b w r q. rewrite !Hv. apply Honce.
  - split; rewrite ?Etr, ?Ej, ?Ep; try done; [|apply HI]. exists V1. rewrite lookup_insert_ne; [done|]. congruence.
  - intros (i & E)%list_elem_of_lookup. destruct (Hmaps _ _ E) as [? E']. congruence.
  - congruence.
Qed.

Lemma crits_host_alloc (ts : tstate H B) X N tg size : crits_inv ts X N -> crits_inv (Tracker.with_host (umf_ba_global_alloc tg size (t_host ts)).2 ts) X N.
Proof.
  intros HC. apply (crits_inv_host ts); [done|done|]. intros c e a Ec Ho. simpl. destruct (umf_ba_global_alloc tg size (t_host ts)) as [[x|] h] eqn:E; simpl.
  - destruct (ba_alloc_some _ _ _ _ _ E) as [Hx ->]. rewrite lookup_insert_ne; [done|]. intros ->. destruct (proj1 (cr_dom _ _ _ HC c)) as [[cb V] HX]; [by rewrite Ec|].
    destruct e as [cb' k]. destruct (cr_at _ _ _ HC _ _ _ _ _ Ec HX) as (_ & Hat & _). destruct Ho as [tg' Htg]. pose proof (crit_live _ _ _ _ _ _ Hat Htg). congruence.
  - by rewrite (ba_alloc_none _ _ _ _ E).
Qed.

Lemma wp_trackingCreate s t X m upstream pool mapped old (Q : umf_result_t * Z -> kstate H B U -> Prop) :
  tracker_ok (k_tracker s) t empty_view X m 0 -> ur_rep (k_upstream s) upstream ∅ -> upstream <> 0 -> pool <> 0 ->
  (forall r s', r <> UMF_RESULT_SUCCESS -> Q (r, old) s') -> (forall s' h, h <> 0 -> tracking_rep s' h ∅ 0 -> Q (UMF_RESULT_SUCCESS, h) s') ->
  wp (umfTrackingMemoryProviderCreate upstream pool mapped old) Q s.
Proof.
  intros Hok Hur Hu Hpl Hno Hyes. unfold umfTrackingMemoryProviderCreate. wp_step. cbv zeta. pose proof (to_null _ _ _ _ _ _ Hok) as HT0. rewrite (proj2 (Z.eqb_neq _ 0) HT0).
  pose proof (ti_maps _ _ _ _ _ _ _ (to_inv _ _ _ _ _ _ Hok)) as HC. apply wp_bind, wp_in_tracker. apply (wp_new_critnib (k_tracker s) X 0); [done|..].
  - intros ts _ _ _ _. rewrite Z.eqb_refl. wp_step. by apply Hno.
  - intros c k ts Hc0 Hcn _ Etr HC' Hq. rewrite (proj2 (Z.eqb_neq c 0) Hc0).
    assert (X !! c = None) as HXc by (apply eq_None_not_Some; rewrite <- (cr_dom _ _ _ HC); by rewrite Hcn; intros []).
    destruct (tracker_ok_new _ ts _ _ _ _ _ c _ _ Hok HXc HC' Etr Hq) as (Hok' & Hm1 & Hm2). unfold trackingInitialize. wp_step. simpl.
    pose proof (crits_host_alloc ts _ _ tag_tracking sizeof_tracking HC') as HC2. destruct (umf_ba_global_alloc tag_tracking sizeof_tracking (t_host ts)) as [[h|] hh] eqn:E; simpl in HC2.
    + apply wp_bind, wp_in_tracker. wp_step. simpl. wp_step. simpl. rewrite (proj2 (Z.eqb_neq _ 0) Hu), (proj2 (Z.eqb_neq _ 0) HT0), (proj2 (Z.eqb_neq _ 0) Hpl), (proj2 (Z.eqb_neq _ 0) Hc0). simpl. wp_step.
      apply Hyes; [by apply (ba_alloc_nonnull _ _ _ _ _ E)|]. split. exists (mk_tracking upstream (TRACKER (k_tracker s)) pool c mapped), t, ∅, (<[c := (FreeIpcCacheValue, cv_new true)]> X), m, (cv_new true).
      split_and!; simpl; [by rewrite lookup_insert_eq|done|by rewrite (qt_tracker _ _ Hq)| |done|by rewrite lookup_insert_eq|done|done|done].
      eapply tracker_ok_crits; [exact Hok'| |exact HC2]. exists hh, (t_crits ts). by destruct ts.
    + apply wp_bind, wp_in_tracker. wp_step. wp_step. by apply Hno.
Qed.

(** ** The instance *)

Lemma rep_bound_max n : 0 <= n -> n < 2 ^ 58 -> rep_bound n.
Proof. intros Hn Hm. split; [done|]. unfold CALLS, DELETED_LIFE, two64. lia. Qed.

#[export] Instance tracking_provider : PoolProvider (kstate H B U) := {
  umfMemoryProviderAlloc h size alignment _ := trackingAlloc h size alignment;
  umfMemoryProviderFree := trackingFree;
  umfMemoryProviderGetMinPageSize := trackingGetMinPageSize;
  PoolProvider.umfMemoryTrackerGetAllocInfo ptr old := in_tracker (Tracker.umfMemoryTrackerGetAllocInfo ptr old);
}.

#[export] Program Instance tracking_laws : PoolProviderLaws (kstate H B U) := {
  pp_rep := fun s h P n => 0 <= n /\ tracking_rep s h P n;
  pp_max := 2 ^ 58;
  pp_page := ur_page;
}.
Next Obligation. intros s h P n m [? Hr] Hle. split; [lia|]. by apply (tracking_rep_mono _ _ _ n). Qed.
Next Obligation. intros s h P n q m [_ [(p & t & I & X & mm & V & _ & _ & _ & _ & Hur & _)]] Hq. by apply (ur_wf _ _ _ _ _ Hur). Qed.
Next Obligation. intros s h P n q1 q2 m1 m2 [_ [(p & t & I & X & mm & V & _ & _ & _ & _ & Hur & _)]]. by apply (ur_apart _ _ _ _ _ _ _ Hur). Qed.
Next Obligation. exact ur_page_pow2. Qed.
Next Obligation.
  intros s h P n size al old [Hn Hr] Hmax Hs Hs' Hal. simpl. eapply wp_mono; [by apply (wp_trackingAlloc s h P n); [|apply rep_bound_max|..]|].
  intros r s' [[? ?]|(? & ? & ? & ?)]; [left|right]; split_and!; (done || lia).
Qed.
Next Obligation.
  intros s h P n q size [Hn Hr] Hmax Hq. simpl. eapply wp_mono; [by apply (wp_trackingFree s h P n); [|apply rep_bound_max|]|]. intros r s' [? ?]. right. split_and!; (done || lia).
Qed.
Next Obligation.
  intros s h P n old [Hn Hr] Hmax. simpl. eapply wp_mono; [by apply (wp_trackingGetMinPageSize s h P n)|]. intros r s' [? ?]. split; [|done]. split; [lia|]. apply (tracking_rep_mono _ _ _ n); [done|lia].
Qed.
Next Obligation.
  intros s h P n q size ptr old [Hn Hr] Hmax Hq Hin. simpl. eapply wp_mono; [by apply (wp_tracker_info s h P n q size); [|apply rep_bound_max|..]|].
  intros r s' [[pool ->] ?]. split_and!; (done || lia).
Qed.
End Rules.
