(* ===== verification/TrackingTheorems.v ===== *)
(** * Theorems about the tracking provider

    The disjoint pool on the tracking provider and the memory tracker
    themselves, and the state in which a merge of two ranges leaves the
    tracker.  The provider of pages is the upstream provider of the witnesses. *)

From S2P Require Import Prelude Utils HostMem BaseMem BaseTheorems BaseChunks CritQuery CritDelete CritSpec CritInsert CritRemove CritInv CritWorld.
From stdpp Require Import strings list.
From S2P Require Import Critnib Tracker TrackerInv TrackerOps TrackerRemove TrackerIpc TrackerLife TrackerSpec PoolProvider TrackingProvider TrackingSpec DisjointPool DisjointApi DisjointOps DisjointSpec DisjointInit DisjointTheorems.
#[local] Open Scope Z_scope.

(** ** The pages as an upstream provider *)

Definition pages_split (h ptr total first : Z) : M pages umf_result_t := fun w =>
  Some (UMF_RESULT_SUCCESS, mk_pages (pg_next w) (<[ptr := first]> (<[ptr + first := total - first]> (pg_ranges w))) (pg_script w)).
Definition pages_merge (h low high total : Z) : M pages umf_result_t := fun w =>
  Some (UMF_RESULT_SUCCESS, mk_pages (pg_next w) (<[low := total]> (delete high (pg_ranges w))) (pg_script w)).

#[export] Instance pages_upstream : Upstream pages := {
  up_Alloc := pages_alloc;
  up_Free := pages_free;
  up_AllocationSplit := pages_split;
  up_AllocationMerge := pages_merge;
  up_GetMinPageSize := fun _ _ _ w => Some ((UMF_RESULT_SUCCESS, PAGE), w);
  up_GetRecommendedPageSize := fun _ _ _ w => Some ((UMF_RESULT_SUCCESS, PAGE), w);
  up_PurgeLazy := fun _ _ _ w => Some (UMF_RESULT_ERROR_NOT_SUPPORTED, w);
  up_PurgeForce := fun _ _ _ w => Some (UMF_RESULT_ERROR_NOT_SUPPORTED, w);
  up_PutIPCHandle := fun _ _ w => Some (UMF_RESULT_SUCCESS, w);
}.

#[export] Program Instance pages_upstream_laws : UpstreamLaws pages := {
  ur_rep := fun w _ P => pages_ok w /\ pg_ranges w = P;
  ur_page := PAGE;
}.
Next Obligation. exact page_pow2. Qed.
Next Obligation. intros u h P q m Hr Hq. exact (pp_wf (W := pages) u h P 0 q m Hr Hq). Qed.
Next Obligation. intros u h P q1 q2 m1 m2 Hr. exact (pp_apart (W := pages) u h P 0 q1 q2 m1 m2 Hr). Qed.
Next Obligation. intros u h P size al old Hr Hs Hs' Hal. exact (pp_alloc (W := pages) u h P 0 size al old Hr ltac:(done) Hs Hs' Hal). Qed.
Next Obligation.
  intros u h P p size [Hok <-] Hp. pose proof (pp_free (W := pages) u h (pg_ranges u) 0 p size (conj Hok eq_refl) ltac:(done) Hp) as Hw. unfold wp in *. simpl in *. unfold pages_free in *. rewrite Hp in *.
  by destruct Hw as [[? _]|?].
Qed.
Next Obligation. intros u h P old Hr. unfold wp. simpl. split; [done|]. intros _. split; [exact page_pow2|done]. Qed.

(** ** A pool on the tracker *)

Section Runs.
Context `{HA : HostAlloc Hd} `{HB : HostAlloc H} `{CP : ChunkPool B} `{Upstream U}.

Definition in_provider {A} (f : M (kstate H B U) A) : M (djstate Hd (kstate H B U)) A :=
  fun s => match f (dj_world s) with Some (a, w) => Some (a, with_dj_world w s) | None => None end.

(** The tracker is created, then a tracking provider, and a disjoint pool on it, which is
    called [k] times by the client [c] and destroyed. *)
Definition run_tracked_pool (junk : disjoint_pool_t) (upstream hPool mapped prm : Z) (c : client) (k : nat) :
    M (djstate Hd (kstate H B U)) (umf_result_t * list (dcall * dres)) :=
  r ← in_provider (in_tracker create_TRACKER);
  if failed r then mret (r, []) else
  '(r, h) ← in_provider (umfTrackingMemoryProviderCreate upstream hPool mapped 0);
  if failed r then mret (r, []) else
  run_pool_life junk h prm c k.
End Runs.

Section Claims.
Context `{LA : HostAllocLaws Hd} `{LB : HostAllocLaws H} `{LC : ChunkPoolLaws B} `{UpstreamLaws U}.
Implicit Types (s : djstate Hd (kstate H B U)).

Lemma wp_in_provider {A} (f : M (kstate H B U) A) s (Q : A -> djstate Hd (kstate H B U) -> Prop) :
  wp f (fun a w => Q a (with_dj_world w s)) (dj_world s) -> wp (in_provider f) Q s.
Proof. unfold wp, in_provider. by destruct (f (dj_world s)) as [[a w]|]. Qed.

(** There is no tracker and no pool yet. *)
Record process_start s (upstream prm : Z) (q : umf_disjoint_pool_params_t) (m : gmap Z (gset Z)) : Prop := {
  px_pool : dj_pool s = None;
  px_crit : dj_crit s = None;
  px_tracker : tracker_start (k_tracker (dj_world s)) m;
  px_upstream : ur_rep (k_upstream (dj_world s)) upstream ∅;
  px_handle : upstream <> 0;
  px_params : (if prm =? 0 then Some default_params else dj_params s !! prm) = Some q;
  px_ok : params_ok (ba_live (dj_host s)) (dj_limits s) q;
}.

End Claims.

(** ** Witnesses *)

Definition demo_process_pool (script : list bool) : djstate scripted (kstate scripted (bstate demo_os) pages) :=
  mk_djstate (host0 []) (mk_kstate (mk_tstate (host0 script) (demo_start []) ∅ ∅ ∅ ∅ ∅ 0 [] false) (pages0 []) ∅) None None ∅ ∅ ∅ ∅ {[9 := default_params]} UMF_RESULT_SUCCESS [].

Lemma demo_process_pool_start script : process_start (demo_process_pool script) 1 9 default_params ∅.
Proof. split; try done; [split; try done; apply chunks_start|apply demo_params_ok]. Qed.


(** ** Where the code does not do what it means to *)

Definition demo_world : kstate scripted (bstate demo_os) pages :=
  mk_kstate (mk_tstate (host0 []) (demo_start []) ∅ ∅ ∅ ∅ ∅ 0 [] false) (pages0 []) ∅.

(** 8192 bytes of the pool 7 are tracked; half of them are allocated by the pool 8,
    split, merged and freed; then the 8192 bytes are removed. *)
Definition demo_nested_split (split : bool) : M (kstate scripted (bstate demo_os) pages) (list umf_result_t) :=
  _ ← in_tracker create_TRACKER;
  '(_, h) ← umfTrackingMemoryProviderCreate 1 8 0 0;
  s ← get;
  let hT := TRACKER (k_tracker s) in
  r1 ← in_tracker (umfMemoryTrackerAdd hT 7 4096 8192);
  '(r2, ptr) ← trackingAlloc h 4096 0;
  rs ← (if split then
          r3 ← trackingAllocationSplit h ptr 4096 2048;
          r4 ← trackingAllocationMerge h ptr (ptr + 2048) 4096;
          mret [r3; r4]
        else mret []);
  r5 ← trackingFree h ptr 4096;
  r6 ← in_tracker (umfMemoryTrackerRemove hT 4096);
  mret ([r1; r2] ++ rs ++ [r5; r6]).

